(* ===== verification/_CoqProject ===== *)
-Q . S2P
Prelude.v
RustStr.v
Text.v
Ids.v
Models.v
Policy.v
ClientCore.v
RepoState.v
RepoMessages.v
RepoChannels.v
RepoCircles.v
RepoUsers.v
RepoWf.v
WfMessages.v
WfChannels.v
WfCircles.v
WfUsers.v
RepoReach.v
RepoHistory.v
RepoDemo.v
MessageProps.v
AccessProps.v
RoleProps.v
AccountProps.v
Divergences.v
ChatActor.v
ActorLaws.v
ActorInvariant.v
ActorProps.v
ChatEngine.v
EngineReach.v
EngineProps.v
Attachments.v
Sql.v
MediaStore.v
MediaPreview.v
MediaWf.v
MediaReach.v
MediaSteps.v
MediaProps.v
PreviewProps.v
NativeCodec.v
NativeSessions.v
NativeWrites.v
NativeReach.v
NativeDemo.v
NativeProps.v
Notifications.v
NotificationReach.v
NotificationProps.v
SqlRepo.v
SqlRefine.v
SqlProps.v
WorkItems.v
WorkDelivery.v
WorkReach.v
WorkInv.v
WorkExport.v
WorkOutcome.v
WorkProps.v
TopicText.v
Topics.v
TopicStore.v
TopicWorker.v
TopicLaws.v
TopicReach.v
TopicWf.v
TopicInv.v
TopicProps.v
Wire.v
ChannelList.v
EngineServices.v
Transport.v
Sockets.v
TransportTasks.v
TransportServer.v
TransportInv.v
TransportFlow.v
TransportStreams.v
TransportProps.v
