(* ===== verification/Prelude.v ===== *)
(** * Sproyt: a verification of the chat core

    Sproyt is a chat service in Rust. Its parts, and how they interact:

    - the protocol crate ([crates/sproyt-protocol]) defines validated text,
      identifiers, the data model, the commands and the events;
    - the repository ([ChatRepository] in [src/domain/repository.rs]) owns the
      durable state; the in-memory implementation is compiled for the tests of the program
      (a server runs an SQL one) and is the executable form of the contract they share,
      with the policy ([src/domain/policy.rs]) deciding who may do what and the hashing
      helpers of [src/domain/onboarding.rs];
    - the chat actor ([ChatActor] in [src/chat.rs]) handles commands one by one from
      a mailbox, calls the repository, and broadcasts events to the subscribers of a
      channel; several instances share a database and tell each other by
      notifications;
    - the chat engine ([ChatEngine] in [src/chat.rs]) is what the web layer calls: it
      validates input and goes to the repository or to the actor;
    - the client core ([crates/sproyt-client-core]) holds the decisions clients share:
      the state of a durable send, admission, and session recovery;
    - the media store ([src/media_store.rs]) takes files in chunks, validates them and
      publishes them as media objects, with a worker that makes previews;
    - native sessions ([src/native_sessions.rs]) log applications in through a browser
      and hand out rotating tokens;
    - notifications ([src/notification.rs]) put a row into an outbox for every device to
      notify of a message, which a worker sends;
    - work items ([src/work_items.rs]) turn messages into cases, which are reviewed in
      tasks of an external process engine (Heart) and may become issues on GitHub;
    - topics ([src/topics.rs]) collect the keywords of a channel's messages and images,
      which a worker asks a language model for, under leases;
    - connections of clients ([src/ws.rs], [src/web/stream.rs], [src/web/native_chat.rs])
      carry the commands of the wire protocol to the engine and the events of subscribed
      channels back, over WebSockets, HTTP requests and event streams.

    ** Files

    - [Prelude]: results with panics ([Res]), the state-and-error monad [ST] (a method
      returns a result and the state it leaves, also when it fails), maps and sorting as
      Rust has them, record update, tactics and the hint database [sproyt].
    - [RustStr]: strings as lists of code points, with byte lengths, trimming and white
      space as in the standard library; the Unicode tables are the class [Unicode].
    - [Text], [Ids], [Models], [Policy], [ClientCore]: [text.rs], [ids.rs],
      [models.rs]/[commands.rs]/[events.rs], [policy.rs], and the client core's
      [lib.rs]/[session.rs]. [uuid] is the class [UuidLib].
    - [RepoState], [RepoMessages], [RepoChannels], [RepoCircles], [RepoUsers]: the tables
      of [RepositoryState] and one definition per method of [InMemoryChatRepository],
      with its guards in the order of the code. SHA-256 and base64 are the class
      [CryptoLib].
    - [RepoWf]: the invariant [wf] and how table updates preserve it; [WfMessages],
      [WfChannels], [WfCircles], [WfUsers]: for each writing method, the paths it can
      take and that it preserves [wf].
    - [RepoReach]: the repository as a state machine ([Op], [outcome], [step],
      [reachable]); [RepoHistory]: evolution of logs and receipts, pages;
      [RepoDemo]: a concrete run that the examples are evaluated in.
    - [MessageProps], [AccessProps], [RoleProps], [AccountProps]: the theorems about
      reachable repository states. [Divergences]: concrete runs where the code does
      something it hardly means to.
    - [ChatActor]: the actor over the class [ChatRepository]; [ActorLaws]: what it needs
      from a repository ([ChatRepositoryLaws]) and that the in-memory one provides it;
      [ActorInvariant]: its invariant under commands interleaved with other users of
      the repository; [ActorProps]: the theorems.
    - [ChatEngine]: the methods of the engine, over the in-memory repository, with an
      explicit mailbox; [EngineReach]: reachable engine states, that they project to reachable
      states of the repository and the actor, what each method does in terms of the two
      ([perform_exact]), and that no command panics; [EngineProps]: the theorems.
    - [Sql]: tables, transactions and the queries the services below use.
    - [Attachments]: [src/media_store/attachments.rs], the streaming validation of
      uploads, with UTF-8 decoding, and its equivalence with a whole-file definition.
    - [MediaStore], [MediaPreview]: the tables of [migrations/sqlite/0064], [0065], every
      operation of [src/media_store.rs] and [src/media_store/preview.rs] and the media
      methods of [src/db/sqlite.rs]. A completion is a sequence of transactions that
      others interleave with. [MediaWf], [MediaReach], [MediaSteps]: the invariant, the
      step relation, and that every step keeps the invariant; [MediaProps],
      [PreviewProps]: the theorems. SHA-256 is the class [Sha256Lib].
    - [NativeCodec], [NativeSessions]: [src/native_sessions/codec.rs] and
      [src/native_sessions.rs]. Encryption, hashes and JSON are the classes [NativeLib]
      and [Serde]; the identity provider's answers are the class [AuthService] and
      arguments, and its calls lie between transactions. [NativeWrites]: what each
      operation writes; [NativeReach]: the step relation and the invariants;
      [NativeDemo]: a run; [NativeProps]: the theorems.
    - [Notifications]: [src/notification.rs], with the queries as predicates on rows, and
      the writes of [src/db/sqlite.rs] that reach the outbox; [NotificationReach]: the
      outbox row by row, the steps of the workers and everybody else, with the deliveries
      under way and their leases, and the invariants; [NotificationProps]: the theorems and
      a run in which a late failure takes the lease of another worker.
    - [SqlRepo]: the message, thread, reaction and read-marker methods of
      [src/db/sqlite.rs] on the tables they use; [SqlRefine]: the relation [sql_rel]
      between the tables and the state of the in-memory repository, method by method;
      [SqlProps]: runs of both, and attached media.
    - [WorkItems]: the tables of [migrations/sqlite/0043]-[0048] and [0055] and the operations
      of [src/work_items.rs], [supplements.rs], [status_change.rs] and [github_export.rs];
      [WorkDelivery]: its workers, cut at the calls to Heart and GitHub, whose answers are
      arguments; JSON is the class [JsonText]. [WorkReach]: users and any number of workers as
      a step relation, what each operation changes, and that a visit of a worker is a run
      of the steps. It relies on Heart in one point: an identifier of a task belongs to one
      node ([heart_keeps_node]). [WorkInv], [WorkExport], [WorkOutcome]: the
      invariants of the commands of a case, of its export and of its review;
      [WorkProps]: the theorems and a run from a message to an issue.
    - [TopicText], [Topics], [TopicStore], [TopicWorker]: the text of [src/topics.rs] and
      [src/topics/worker.rs]; the tables, the view and the triggers of
      [migrations/sqlite/0073]; every method of [TopicStore]; the worker, cut at the calls
      to the model, whose answers are arguments. Unicode tables are the class [TextTables].
      [TopicLaws], [TopicReach], [TopicWf], [TopicInv]: the step relation of users and any
      number of workers, what each operation writes, and the invariants; [TopicProps]: a
      run, the pages of matches and the theorems.
    - [Wire]: [wire.rs] and the envelopes of the protocol crate's [lib.rs]. [ChannelList]:
      the channel list of the in-memory repository with [src/domain/direct_activity.rs];
      the operations on [f64] are the class [F64Lib]. [EngineServices]: the methods of the
      engine over the defaults of the repository trait.
    - [Transport]: the commands of [src/ws.rs] as a [Task], a program that waits at its calls
      of the engine; the steps of the subscription tasks. [Sockets]: a connection as a state
      machine: the loop of [handle_socket], the command handlers and the event stream.
      JSON decoding is the class [EnvelopeCodec]; the outcomes of authentication and of a
      write are part of an event. [TransportServer]: any number of connections around one
      engine as a step relation, interleaved call by call with everything else that uses it.
      It also shows which calls change who is present.
    - [TransportTasks]: the calls of a command, and a logic [wp] of tasks: what a connection
      holds between its calls; [TransportInv]: the invariant [server_inv]; [TransportFlow]:
      from the channel through the queue to the client; [TransportStreams]: the channel list
      and the event streams; [TransportProps]: a server with clients, the theorems and two
      runs where the code falls short.

    ** What the theorems show

    - Text and identifiers: constructors give canonical values within their bounds,
      parsing inverts printing, sequence numbers do not wrap, candidate handles differ.
    - Repository: the invariant of every reachable state; the log is append-only and
      densely numbered, sends with a request identifier take effect once, deletion is
      final, pages and threads are exact slices, paging is complete, read markers are
      monotone; direct conversations, personal spaces and circles are closed to
      outsiders (a former member may still edit and delete their own messages, and repeat
      a request); roles do not escalate; failures leave no trace and do not panic;
      signup ordinals are dense, enrollment is single use, media round-trip.
    - Actor: what is broadcast is stored in that channel, a message is accepted once,
      a send is announced exactly once and failures are silent, a subscription misses
      nothing, presence events alternate and match the listed participants, an
      instance ignores the echo of its own messages, failed registrations roll back.
    - Engine: over the in-memory repository each method refuses invalid input, and is
      otherwise the repository's operation on the sanitized input with its answer, and the
      actor's turn or announcement that goes with it; no command panics, so the actor's task
      never stops; announcements reach the right stream.
    - Media: the streaming validator accepts exactly the valid files however they are
      cut; published media is the uploaded file, verified, whatever runs at once; charges
      stay within the budgets; uploads round-trip and retries are harmless; the SQL
      methods refine the in-memory ones; a preview job has one worker, and a stale one
      is fenced off.
    - Native sessions: a token is accepted only if its session is good at both looks at it,
      before and after the provider is asked, whatever happens in between; login codes
      and refresh grants are used once; ended sessions stay ended; redeemed and refreshed
      grants work and repeating the request returns the same answer; sealed values open
      again after key rotation.
    - Notifications: a message gives a device at most one notification, of the most
      specific kind; the backfill is equivalent to enqueueing; rows go to the owner of a
      device for messages of others after the subscription; a due row is claimed, by one
      worker while its lease lasts, unless a worker that lost its own lease completes the row,
      and not after delivery; a deleted message is notified again.
    - SQLite repository: within bounds on the sizes of the tables and for request identifiers
      that are not the chatbots', every run of its message methods has the answers of a run of
      the in-memory repository, but for four error codes, the order of the users of a
      reaction and the times of a replayed request; attached media belong to the sender
      and the channel of their message.
    - Work items: an issue is requested at most once and with the approved text, however
      workers crash and overlap; the status of a case is the reviewer's recorded decision
      changed along recorded transitions; the commands of a case are accepted one after the
      other; a registration is made once; internal notes stay with the handlers.
    - Topics: the topics of a channel name what its messages say now, and are shown only to
      those who may read them; a job has one worker at a time and, as long as nothing
      changes it, at most three attempts; due work is claimed, the backfill reaches every
      message, and the pages of a topic are complete.
    - Connections: a connection is present in a channel exactly while a socket or a stream
      holds it, or when the handler of a stream was dropped while it subscribed;
      commands are answered in order, once and under their identifier, and end
      after finitely many calls; a subscription tells every event in order or counts it in a
      lag report, through a bounded queue; a stream begins with the last
      messages and the number of those between them and what the client has, and tells events
      to members only; the channel list is exact.
    - Client core: a durable send is settled only by a receipt and stays recoverable, a
      login is required only on explicit evidence, the integer exports agree with the
      native decisions.

    ** Conventions and bounds

    Machine integers are [N] or [Z] with the bounds and the overflow behaviour of the
    code written out ([u64_max], [i64_max], [as_u32], saturation, panics). Times are
    nanoseconds in [Z]. Generated identifiers, the clock and random secrets are
    arguments; a step of the state machines requires generated identifiers to be unused.
    A hash map is a [gmap], so its iteration order is one possible order; where the
    code sorts, the model sorts. Loops over data are structural; the functions with
    fuel, [read_forward] and [read_blocks], model a client's loop, and the theorems show
    that as many rounds as there are messages (bytes) suffice; [read_pieces] reads a slice
    from chunks in at most as many rounds as bytes are wanted, since each round reads one
    byte or more; [media_ids_loop] drops eight characters in each round; [visible_text] has the
    length of the body as fuel and drops a character or more in each round; [read_pages] and
    the rounds of the topic backfill are bounded by the number of messages. Times of the
    media store, the sessions, the outbox
    and the work items are seconds, read once per transaction; a transaction is atomic. A
    method of several transactions has a definition for each, which the step relations
    interleave; where it also has one definition for the whole ([claim] of the outbox and of
    the topics, [recheck], [authenticate_ref]), that is the run nothing disturbs. Fields and
    records that only the theorems read (where a stream began, the deliveries under way and
    their leases) are ghosts. A broadcast channel is
    the list of events sent through it and a receiver a position in it; a receiver that is
    more than the capacity behind (256 events of a channel, 128 circle updates) is told how
    many it lost. The queue of a socket holds 256 envelopes. A [Task] is an inductive tree,
    so every command ends.

    ** What is not modelled

    The SQL repositories apart from messages, media, the outbox, the work items and the
    topics; the HTTP routes other than commands and event streams; web authentication,
    enrollment, chatbots and agents, image generation, process and GitHub clients: they
    call services or parse requests. Within what is modelled: the requests to external
    services, image decoding, the web push request, reading the configuration,
    serialization, floating point arithmetic, metrics and logging, the account export, and
    lock poisoning after a panic. The rest of a server with distributed presence is in the
    actor's theorems; those about connections are for one instance without it. The actor's
    broadcast theorems follow messages in channels that are not deleted with their
    circle. *)

From Stdlib Require Import ZifyBool.
From stdpp Require Import base tactics strings pretty sorting gmap list.

(** ** Fallible code *)

(** Rust's [Result<A, E>], with a third outcome for a panicking thread
    ([expect], [unwrap], overflow checks). *)
Inductive Res (E A : Type) : Type :=
  | Ok (a : A)
  | Err (e : E)
  | Panic.
Arguments Ok {E A} a.
Arguments Err {E A} e.
Arguments Panic {E A}.

(** [result.map], [result.map_err], [?], [option.ok_or] and [result.expect]. *)
Definition res_map {E A B} (f : A → B) (r : Res E A) : Res E B :=
  match r with Ok a => Ok (f a) | Err e => Err e | Panic => Panic end.
Definition map_err {E F A} (f : E → F) (r : Res E A) : Res F A :=
  match r with Ok a => Ok a | Err e => Err (f e) | Panic => Panic end.
Definition res_bind {E A B} (r : Res E A) (k : A → Res E B) : Res E B :=
  match r with Ok a => k a | Err e => Err e | Panic => Panic end.
Definition ok_or {E A} (o : option A) (e : E) : Res E A :=
  match o with Some a => Ok a | None => Err e end.
Definition expect {E F A} (r : Res E A) : Res F A :=
  match r with Ok a => Ok a | _ => Panic end.
Definition is_ok {E A} (r : Res E A) : bool :=
  match r with Ok _ => true | _ => false end.

(** [iter.collect::<Result<Vec<_>, _>>()] *)
Fixpoint res_mapM {E A B} (f : A → Res E B) (l : list A) : Res E (list B) :=
  match l with
  | [] => Ok []
  | x :: l' => res_bind (f x) (λ y, res_map (cons y) (res_mapM f l'))
  end.

(** [n as u32] and [i64::saturating_add(1)]. *)
Definition as_u32 (n : nat) : N := (N.of_nat n `mod` 2 ^ 32)%N.
Definition i64_max : Z := (2 ^ 63 - 1)%Z.
Definition i64_saturating_succ (z : Z) : Z := if (z <? i64_max)%Z then (z + 1)%Z else i64_max.

(** ** Stateful code *)

(** A method taking [&mut self]: it returns a result and the state it leaves,
    also when it fails, because an early return keeps the writes before it. *)
Definition ST (S E A : Type) : Type := S → Res E A * S.

Definition st_ret {S E A} (a : A) : ST S E A := λ s, (Ok a, s).
Definition st_bind {S E A B} (m : ST S E A) (k : A → ST S E B) : ST S E B :=
  λ s, match m s with
       | (Ok a, s') => k a s'
       | (Err e, s') => (Err e, s')
       | (Panic, s') => (Panic, s')
       end.
Definition st_lift {S E A} (r : Res E A) : ST S E A := λ s, (r, s).
Definition throw {S E A} (e : E) : ST S E A := λ s, (Err e, s).
Definition get {S E} : ST S E S := λ s, (Ok s, s).
Definition put {S E} (s' : S) : ST S E unit := λ _, (Ok tt, s').
(** [if !b { return Err(e); }] *)
Definition ensure {S E} (b : bool) (e : E) : ST S E unit :=
  λ s, (if b then Ok tt else Err e, s).

Definition gets {S E A} (f : S → A) : ST S E A := λ s, (Ok (f s), s).
Definition modify {S E} (f : S → S) : ST S E unit := λ s, (Ok tt, f s).
Definition panic {S E A} : ST S E A := λ s, (Panic, s).

(** [if let Err(e) = m { h(e) }] with the error propagated by [h], and
    [let _ = m], which drops an error. *)
Definition on_err {S E A} (m : ST S E A) (h : E → ST S E A) : ST S E A := λ s,
  match m s with (Err e, s') => h e s' | r => r end.
Definition ignore_err {S E A} (m : ST S E A) : ST S E unit := λ s,
  match m s with (Panic, s') => (Panic, s') | (_, s') => (Ok tt, s') end.

Declare Scope rust_scope.
Delimit Scope rust_scope with rust.
Open Scope rust_scope.
Notation "'let!' x := m 'in' k" := (st_bind m (λ x, k))
  (at level 10, x pattern, m at level 100, k at level 200,
   format "'[v' 'let!'  x  :=  m  'in' '//' k ']'") : rust_scope.
Notation "m ;;; k" := (st_bind m (λ _, k))
  (at level 199, k at level 200, right associativity,
   format "'[v' m  ;;; '//' k ']'") : rust_scope.
Notation "'let?' x := m 'in' k" := (res_bind m (λ x, k))
  (at level 10, x pattern, m at level 100, k at level 200,
   format "'[v' 'let?'  x  :=  m  'in' '//' k ']'") : rust_scope.

(** ** Record update *)

(** [Eta R] lists the fields of [R] once; the setter of a field is then
    computed by abstracting its projection in that expansion. *)
Class Eta (R : Type) := eta_expand : R → R.
Class Setter {R F : Type} (proj : R → F) := set : (F → F) → R → R.
Arguments set {R F} proj {_} f r : simpl never.

Ltac derive_setter R proj :=
  let e := constr:(_ : Eta R) in
  let e := eval red in e in
  lazymatch eval pattern proj in e with
  | ?abs _ => let s := eval cbv beta in (λ f, abs (λ r, f (proj r))) in exact s
  end.
#[export] Hint Extern 1 (@Setter ?R _ ?proj) => derive_setter R proj : typeclass_instances.

Notation "r <| proj := v |>" := (set proj (λ _, v) r)
  (at level 1, v at level 99, left associativity,
   format "r  <| proj  :=  v |>") : rust_scope.

(** ** Collections *)

(** [HashMap::entry(k).or_insert(v)] *)
Definition or_insert {V} `{Countable K} (k : K) (v : V) (m : gmap K V) : gmap K V :=
  match m !! k with Some _ => m | None => <[k:=v]> m end.

(** [HashMap::values] and [HashMap::contains_key]. The iteration order of a Rust
    map is unspecified; the model fixes the order of [map_to_list]. *)
Definition values {V} `{Countable K} (m : gmap K V) : list V := (map_to_list m).*2.
Definition contains_key {V} `{Countable K} (k : K) (m : gmap K V) : bool :=
  bool_decide (is_Some (m !! k)).

(** [Iterator::find] and the mutation of the element it finds. *)
Fixpoint find_first {A} (p : A → bool) (l : list A) : option A :=
  match l with
  | [] => None
  | x :: l' => if p x then Some x else find_first p l'
  end.
Fixpoint modify_first {A} (p : A → bool) (f : A → A) (l : list A) : list A :=
  match l with
  | [] => []
  | x :: l' => if p x then f x :: l' else x :: modify_first p f l'
  end.
Definition any {A} (p : A → bool) (l : list A) : bool := existsb p l.

(** [slice::sort_by_key] and [slice::sort_by] are stable, as [merge_sort] is. *)
Definition on_key {A B} (R : relation B) (f : A → B) : relation A := λ x y, R (f x) (f y).
#[export] Instance on_key_dec {A B} (R : relation B) (f : A → B) `{!RelDecision R} :
  RelDecision (on_key R f).
Proof. intros x y. unfold on_key. apply _. Defined.
Definition sort_by_key {A B} (R : relation B) `{!RelDecision R} (f : A → B) : list A → list A :=
  merge_sort (on_key R f).
Definition cmp_le {A} (cmp : A → A → comparison) : relation A := λ x y, cmp x y ≠ Gt.
#[export] Instance cmp_le_dec {A} (cmp : A → A → comparison) : RelDecision (cmp_le cmp).
Proof. intros x y. unfold cmp_le. apply _. Defined.
Definition sort_by {A} (cmp : A → A → comparison) : list A → list A := merge_sort (cmp_le cmp).
(** [Ordering::then_with] *)
Definition then_with (a b : comparison) : comparison := match a with Eq => b | _ => a end.

(** ** Generic lemmas *)

Lemma forallb_Forall {A} (f : A → bool) (l : list A) :
  forallb f l = true ↔ Forall (λ x, f x = true) l.
Proof.
  induction l as [|x l IH]; simpl; [done|].
  by rewrite andb_true_iff, IH, Forall_cons.
Qed.

(** The text after the last separator is determined by the whole text. *)
Lemma app_last_sep_inj {A} (x : A) (l1 l2 k1 k2 : list A) :
  x ∉ l2 → x ∉ k2 → l1 ++ x :: l2 = k1 ++ x :: k2 → l2 = k2.
Proof.
  revert k1. induction l1 as [|y l1 IH]; intros [|z k1] Hl Hk; simpl; intros; simplify_eq; auto.
  - destruct Hl. set_solver.
  - destruct Hk. set_solver.
  - by eapply IH.
Qed.

Lemma res_mapM_no_panic {E A B} (f : A → Res E B) (l : list A) :
  (∀ x, f x ≠ Panic) → res_mapM f l ≠ Panic.
Proof.
  intros Hf. induction l as [|x l IH]; simpl; [done|].
  specialize (Hf x). destruct (f x); simpl; [|done..]. by destruct (res_mapM f l).
Qed.

(** ** Lookups and searches *)

Lemma contains_key_true {V} `{Countable K} (k : K) (m : gmap K V) :
  contains_key k m = true ↔ is_Some (m !! k).
Proof. unfold contains_key. by rewrite bool_decide_eq_true. Qed.
Lemma contains_key_false {V} `{Countable K} (k : K) (m : gmap K V) :
  contains_key k m = false ↔ m !! k = None.
Proof. unfold contains_key. by rewrite bool_decide_eq_false, eq_None_not_Some. Qed.

Lemma lookup_or_insert_Some {V} `{Countable K} (k k' : K) (v v' : V) (m : gmap K V) :
  or_insert k v m !! k' = Some v' → m !! k' = Some v' ∨ (k' = k ∧ v' = v ∧ m !! k = None).
Proof.
  unfold or_insert. destruct (m !! k) eqn:Hk; [auto|].
  rewrite lookup_insert_Some. intros [[-> ->]|[_ Hk']]; auto.
Qed.
Lemma lookup_or_insert_keep {V} `{Countable K} (k k' : K) (v v' : V) (m : gmap K V) :
  m !! k' = Some v' → or_insert k v m !! k' = Some v'.
Proof.
  unfold or_insert. destruct (m !! k) eqn:Hk; [done|].
  intros Hk'. rewrite lookup_insert_ne; [done|]. by intros ->; rewrite Hk' in Hk.
Qed.

Lemma find_first_Some {A} (p : A → bool) (l : list A) (x : A) :
  find_first p l = Some x →
  ∃ i, l !! i = Some x ∧ p x = true ∧ ∀ j y, j < i → l !! j = Some y → p y = false.
Proof.
  induction l as [|y l IH]; simpl; [done|]. destruct (p y) eqn:Hy; intros Hf; simplify_eq.
  - exists 0. split_and!; [done|done|]. intros. lia.
  - destruct (IH Hf) as (i & Hi & Hp & Hmin). exists (S i). split_and!; [done|done|].
    intros [|j] z Hj Hz; simplify_eq/=; [done|]. apply (Hmin j); [lia|done].
Qed.
Lemma find_first_None {A} (p : A → bool) (l : list A) :
  find_first p l = None ↔ ∀ i x, l !! i = Some x → p x = false.
Proof.
  induction l as [|y l IH]; simpl; [done|]. destruct (p y) eqn:Hy.
  - split; [done|]. intros Hn. by rewrite (Hn 0 y) in Hy.
  - rewrite IH. split; [|intros Hn i; exact (Hn (S i))].
    intros Hn [|i] x Hx; simplify_eq/=; [done|by eapply Hn].
Qed.
(** When one position matches, [modify_first] updates exactly that position. *)
Lemma modify_first_alter {A} (p : A → bool) (f : A → A) (l : list A) (i : nat) (x : A) :
  l !! i = Some x → p x = true →
  (∀ j y, j < i → l !! j = Some y → p y = false) → modify_first p f l = <[i := f x]> l.
Proof.
  revert i. induction l as [|y l IH]; intros [|i] Hi Hp Hmin; simplify_eq/=; [by rewrite Hp|].
  rewrite (Hmin 0 y) by (done || lia). f_equal. apply IH; [done..|].
  intros j z Hj. apply (Hmin (S j)). lia.
Qed.

(** ** Automation *)

(** Turn the boolean tests of the code into propositions. *)
Lemma negb_true b : negb b = true ↔ b = false.
Proof. by destruct b. Qed.
Lemma negb_false b : negb b = false ↔ b = true.
Proof. by destruct b. Qed.

Ltac bool_facts :=
  repeat match goal with
  | H : negb _ = true |- _ => apply negb_true in H
  | H : negb _ = false |- _ => apply negb_false in H
  | H : _ && _ = true |- _ => apply andb_true_iff in H; destruct H
  | H : _ || _ = false |- _ => apply orb_false_iff in H; destruct H
  | H : bool_decide (_ ≠ _) = false |- _ => apply bool_decide_eq_false, dec_stable in H
  | H : bool_decide _ = true |- _ => apply bool_decide_eq_true in H
  | H : bool_decide _ = false |- _ => apply bool_decide_eq_false in H
  | H : contains_key _ _ = true |- _ => apply contains_key_true in H
  | H : contains_key _ _ = false |- _ => apply contains_key_false in H
  end.

(** Run a method symbolically: [H : m s = (r, s')] is split into one goal per
    path, with the tests taken on the path as hypotheses. *)
Ltac st_simpl H :=
  cbv beta iota zeta delta [st_bind st_ret st_lift throw get put ensure gets modify panic ok_or
                            map_err res_bind] in H; simplify_eq.
Ltac st_compute :=
  cbv beta iota zeta delta [st_bind st_ret st_lift throw get put ensure gets modify panic ok_or
                            map_err res_bind].
Ltac run_st H :=
  repeat (st_simpl H;
    match type of H with
    | context [match ?x with _ => _ end] =>
        lazymatch x with context [match _ with _ => _ end] => fail | _ => idtac end;
        let E := fresh "E" in destruct x eqn:E; simplify_eq
    end).

(** Split on the next guard [ensure b e] of a method, [E] naming the test. *)
Ltac st_guard H E :=
  match type of H with
  | context [if ?b then Ok tt else _] => destruct b eqn:E; cbv beta iota zeta in H; simplify_eq
  end.

(** Destruct a case analysis given as a disjunction of existentials. *)
Ltac split_cases H :=
  cbv zeta in H;
  lazymatch type of H with
  | _ ∨ _ => destruct H as [H|H]; split_cases H
  | ∃ _, _ => let x := fresh "x" in destruct H as [x H]; split_cases H
  | _ ∧ _ => let H' := fresh "H" in destruct H as [H' H]; split_cases H'; split_cases H
  | _ => idtac
  end.

(** The result of a run, from its first component. *)
Lemma pair_of_fst {A B} (a : A) (p : A * B) : p.1 = a → p = (a, p.2).
Proof. destruct p. by intros <-. Qed.

(** The lemmas that close the routine goals of the development. *)
Create HintDb sproyt.
#[export] Hint Resolve lookup_or_insert_keep : sproyt.
