(* ===== verification/RustStr.v ===== *)
(** * RustStr: the parts of Rust's [char], [str] and [u64]/[i64] the code uses

    A [String] is valid UTF-8, so it is modelled by the list of its Unicode
    scalar values; [len()] is the number of UTF-8 bytes of that list. *)

From Stdlib Require Import ZifyBool.
From stdpp Require Import base tactics numbers strings pretty list.
From S2P Require Import Prelude.

Abbreviation char := N (only parsing).
Abbreviation str := (list N) (only parsing).

(** An ASCII literal. *)
Definition lit (s : string) : str :=
  (λ a, Ascii.N_of_ascii a) <$> String.list_ascii_of_string s.

(** [format!("{n}")] of an unsigned integer. *)
Definition fmt_dec (n : N) : str := lit (pretty n).

(** ** Characters *)

(** [char::len_utf8] *)
Definition len_utf8 (c : char) : N :=
  if (c <? 128)%N then 1%N else if (c <? 2048)%N then 2%N
  else if (c <? 65536)%N then 3%N else 4%N.

(** [char::is_whitespace]: the Unicode property White_Space. *)
Definition is_whitespace (c : char) : bool :=
  ((9 <=? c) && (c <=? 13) || (c =? 32) || (c =? 133) || (c =? 160)
   || (c =? 5760) || (8192 <=? c) && (c <=? 8202) || (c =? 8232)
   || (c =? 8233) || (c =? 8239) || (c =? 8287) || (c =? 12288))%N.

(** [char::is_control]: the general category Cc. *)
Definition is_control (c : char) : bool :=
  ((c <=? 31) || (127 <=? c) && (c <=? 159))%N.

Definition is_ascii_lowercase (c : char) : bool := ((97 <=? c) && (c <=? 122))%N.
Definition is_ascii_uppercase (c : char) : bool := ((65 <=? c) && (c <=? 90))%N.
Definition is_ascii_digit (c : char) : bool := ((48 <=? c) && (c <=? 57))%N.
Definition to_ascii_lowercase (c : char) : char :=
  if is_ascii_uppercase c then (c + 32)%N else c.
Definition is_ascii_alphanumeric (c : char) : bool :=
  is_ascii_lowercase c || is_ascii_uppercase c || is_ascii_digit c.

(** ** Strings *)

(** [str::len] *)
Definition len (s : str) : N := foldr (λ c n, len_utf8 c + n)%N 0%N s.

(** [str::trim], as [trim_start] followed by [trim_end]. *)
Fixpoint trim_start (s : str) : str :=
  match s with
  | [] => []
  | c :: s' => if is_whitespace c then trim_start s' else s
  end.
Definition trim_end (s : str) : str := reverse (trim_start (reverse s)).
Definition trim (s : str) : str := trim_end (trim_start s).

(** [str::eq_ignore_ascii_case] *)
Definition eq_ignore_ascii_case (s t : str) : bool :=
  bool_decide (to_ascii_lowercase <$> s = to_ascii_lowercase <$> t).

(** [str::starts_with] *)
Fixpoint starts_with (s p : str) : bool :=
  match p, s with
  | [], _ => true
  | c :: p', d :: s' => bool_decide (c = d) && starts_with s' p'
  | _ :: _, [] => false
  end.

(** [str::find(p)] followed by slicing at the match: the text before the first
    occurrence of [p] and the text after it. *)
Fixpoint split_once (s p : str) : option (str * str) :=
  if starts_with s p then Some ([], drop (length p) s)
  else match s with
       | [] => None
       | c :: s' =>
           match split_once s' p with
           | Some (before, after) => Some (c :: before, after)
           | None => None
           end
       end.

(** [str::split_whitespace]: the maximal runs without white space. *)
Fixpoint split_whitespace_aux (s word : str) : list str :=
  match s with
  | [] => if decide (word = []) then [] else [reverse word]
  | c :: s' =>
      if is_whitespace c
      then (if decide (word = []) then [] else [reverse word])
           ++ split_whitespace_aux s' []
      else split_whitespace_aux s' (c :: word)
  end.
Definition split_whitespace (s : str) : list str := split_whitespace_aux s [].

(** [Vec<String>::join] *)
Fixpoint join (sep : str) (ws : list str) : str :=
  match ws with
  | [] => []
  | [w] => w
  | w :: ws' => w ++ sep ++ join sep ws'
  end.

(** [Ord for str]: byte-wise lexicographic order, which on UTF-8 is the
    lexicographic order of scalar values. *)
Fixpoint str_cmp (s t : str) : comparison :=
  match s, t with
  | [], [] => Eq
  | [], _ :: _ => Lt
  | _ :: _, [] => Gt
  | c :: s', d :: t' =>
      match (c ?= d)%N with Eq => str_cmp s' t' | o => o end
  end.
Definition str_le (s t : str) : Prop := str_cmp s t ≠ Gt.
#[export] Instance str_le_dec : RelDecision str_le.
Proof. intros s t. unfold str_le. apply _. Defined.

(** ** Tables of the Unicode Character Database

    [str::to_lowercase] and [char::is_alphanumeric] read tables generated from
    the Unicode Character Database. A [Unicode] instance supplies them; the laws
    are the documented shape of those tables: every character has a one
    character lower case mapping except U+0130, and both functions extend their
    ASCII versions. (The mapping of U+03A3 depends on its position, so
    [to_lowercase] is not a character-wise map.) *)
Definition lowercase_of (c : char) (p : str) : Prop :=
  ((c < 128)%N → p = [to_ascii_lowercase c])
  ∧ (c = 304%N → p = [105; 775]%N)
  ∧ (c ≠ 304%N → ∃ d, p = [d]).

Class Unicode := {
  to_lowercase : str → str;
  is_alphanumeric : char → bool;
  to_lowercase_parts s :
    ∃ parts, to_lowercase s = concat parts ∧ Forall2 lowercase_of s parts;
  is_alphanumeric_ascii c :
    (c < 128)%N → is_alphanumeric c = is_ascii_alphanumeric c;
  is_alphanumeric_not_space c :
    is_alphanumeric c = true → is_whitespace c = false }.

(** A small table: ASCII, U+0130 and the pair U+023A/U+2C65. It shows the laws
    are consistent and lets examples compute. *)
Definition demo_lower (c : char) : str :=
  if (c =? 304)%N then [105; 775]%N
  else if (c =? 570)%N then [11365]%N else [to_ascii_lowercase c].

#[local] Lemma demo_lower_parts s :
  ∃ parts, concat (demo_lower <$> s) = concat parts ∧ Forall2 lowercase_of s parts.
Proof.
  exists (demo_lower <$> s); split; [done|].
  induction s as [|c s IH]; constructor; [|done].
  unfold lowercase_of, demo_lower.
  destruct (N.eqb_spec c 304), (N.eqb_spec c 570); subst; split_and!;
    intros; try lia; eauto.
Qed.

#[local] Lemma demo_alnum_not_space c :
  is_ascii_alphanumeric c || (c =? 570)%N || (c =? 11365)%N = true →
  is_whitespace c = false.
Proof.
  unfold is_ascii_alphanumeric, is_ascii_lowercase, is_ascii_uppercase,
    is_ascii_digit, is_whitespace. lia.
Qed.

#[local] Lemma demo_alnum_ascii c :
  (c < 128)%N →
  is_ascii_alphanumeric c || (c =? 570)%N || (c =? 11365)%N = is_ascii_alphanumeric c.
Proof. intros. lia. Qed.

Definition demo_unicode : Unicode := {|
  to_lowercase s := concat (demo_lower <$> s);
  is_alphanumeric c := is_ascii_alphanumeric c || (c =? 570)%N || (c =? 11365)%N;
  to_lowercase_parts := demo_lower_parts;
  is_alphanumeric_ascii := demo_alnum_ascii;
  is_alphanumeric_not_space := demo_alnum_not_space |}.

(** ** Facts about [trim] and [len] *)

(** No white space at either end. *)
Definition trimmed (s : str) : Prop :=
  (∀ c, head s = Some c → is_whitespace c = false)
  ∧ (∀ c, last s = Some c → is_whitespace c = false).

Lemma trim_start_head s c :
  head (trim_start s) = Some c → is_whitespace c = false.
Proof. induction s as [|d s IH]; simpl; [done|]. destruct (is_whitespace d) eqn:?; naive_solver. Qed.

Lemma trim_start_suffix s : trim_start s `suffix_of` s.
Proof.
  induction s as [|d s IH]; simpl; [done|].
  destruct (is_whitespace d); [by apply suffix_cons_r|done].
Qed.

Lemma trim_start_id s :
  (∀ c, head s = Some c → is_whitespace c = false) → trim_start s = s.
Proof. destruct s as [|c s]; simpl; [done|]. intros H. by rewrite (H c). Qed.

Lemma trim_end_prefix s : trim_end s `prefix_of` s.
Proof.
  unfold trim_end. destruct (trim_start_suffix (reverse s)) as [k Hk].
  exists (reverse k). apply (f_equal reverse) in Hk.
  by rewrite reverse_involutive, reverse_app in Hk.
Qed.

Lemma last_reverse_head (s : str) : last s = head (reverse s).
Proof. by rewrite <- (reverse_involutive s) at 1; rewrite last_reverse. Qed.

Lemma trim_end_last s c : last (trim_end s) = Some c → is_whitespace c = false.
Proof. unfold trim_end. rewrite last_reverse. apply trim_start_head. Qed.

Lemma trim_trimmed s : trimmed (trim s).
Proof.
  split; intros c Hc; [|by eapply trim_end_last].
  destruct (trim_end_prefix (trim_start s)) as [k Hk].
  apply trim_start_head with s. rewrite Hk. unfold trim in Hc.
  by destruct (trim_end (trim_start s)).
Qed.

Lemma trimmed_trim s : trimmed s → trim s = s.
Proof.
  intros [Hh Hl]. unfold trim. rewrite (trim_start_id s Hh). unfold trim_end.
  rewrite trim_start_id; [apply reverse_involutive|].
  intros c. rewrite <- last_reverse_head. apply Hl.
Qed.

Lemma trim_idemp s : trim (trim s) = trim s.
Proof. apply trimmed_trim, trim_trimmed. Qed.

Lemma trim_start_app l s :
  Forall (λ c, is_whitespace c = true) l → trim_start (l ++ s) = trim_start s.
Proof. induction 1 as [|c l Hc _ IH]; simpl; [done|]. by rewrite Hc. Qed.

(** Padding a trimmed text does not change what [trim] gives. *)
Lemma trim_padded l s r :
  Forall (λ c, is_whitespace c = true) l → Forall (λ c, is_whitespace c = true) r →
  trimmed s → s ≠ [] → trim (l ++ s ++ r) = s.
Proof.
  intros Hl Hr [Hh Hlast] Hne. unfold trim, trim_end.
  rewrite trim_start_app, (trim_start_id (s ++ r)) by (done || by destruct s).
  rewrite reverse_app, trim_start_app by by apply Forall_reverse.
  rewrite trim_start_id, reverse_involutive; [done|].
  intros c. rewrite <- last_reverse_head. apply Hlast.
Qed.

Lemma no_space_trimmed s :
  Forall (λ c, is_whitespace c = false) s → trimmed s.
Proof.
  intros Hs; split; intros c Hc.
  - destruct s; simplify_eq/=. by inversion Hs.
  - apply last_Some_elem_of in Hc. by eapply Forall_forall in Hs.
Qed.

Lemma len_app s t : len (s ++ t) = (len s + len t)%N.
Proof. induction s; simpl; lia. Qed.

Lemma len_utf8_pos c : (1 ≤ len_utf8 c)%N.
Proof. unfold len_utf8. repeat case_match; lia. Qed.

Lemma len_length s : (N.of_nat (length s) ≤ len s)%N.
Proof. induction s as [|c s IH]; simpl; [done|]. pose proof (len_utf8_pos c). lia. Qed.

Lemma len_ascii s : Forall (λ c, c < 128)%N s → len s = N.of_nat (length s).
Proof.
  induction 1 as [|c s Hc Hs IH]; [done|]. cbn [len foldr length].
  fold (len s). rewrite IH. unfold len_utf8. apply N.ltb_lt in Hc. rewrite Hc. lia.
Qed.

Lemma len_trim s : (len (trim s) ≤ len s)%N.
Proof.
  unfold trim. destruct (trim_start_suffix s) as [k Hk].
  destruct (trim_end_prefix (trim_start s)) as [k' Hk'].
  apply (f_equal len) in Hk, Hk'. rewrite len_app in Hk, Hk'. lia.
Qed.

Lemma len_nil_inv s : len s = 0%N → s = [].
Proof. destruct s as [|c s]; [done|]. simpl. pose proof (len_utf8_pos c). lia. Qed.

(** ** Facts about the lower case mapping *)

Section unicode.
Context `{Unicode}.

Lemma to_lowercase_ascii s :
  Forall (λ c, c < 128)%N s → to_lowercase s = to_ascii_lowercase <$> s.
Proof.
  intros Hs. destruct (to_lowercase_parts s) as (parts & -> & Hp).
  induction Hp as [|c p s parts [Hc _] Hp IH]; [done|].
  inversion Hs; subst. simpl. rewrite Hc by done. simpl. f_equal. by apply IH.
Qed.

(** When the result is ASCII, no character can have been U+0130, so lower
    casing keeps the number of characters and cannot grow the text. *)
Lemma to_lowercase_len_ascii s :
  Forall (λ c, c < 128)%N (to_lowercase s) → (len (to_lowercase s) ≤ len s)%N.
Proof.
  destruct (to_lowercase_parts s) as (parts & -> & Hp). intros Ha.
  rewrite len_ascii by done. etrans; [|apply len_length].
  assert (length (concat parts) = length s) as ->; [|done].
  clear -Hp Ha. induction Hp as [|c p s parts (_ & Hi & Hc) Hp IH]; [done|].
  simpl in *. apply Forall_app in Ha as [Ha1 Ha2]. rewrite length_app, IH by done.
  destruct (decide (c = 304%N)) as [->|Hne].
  - rewrite Hi in Ha1 by done. inversion Ha1 as [|??? Ha3]; inversion Ha3; subst. lia.
  - destruct (Hc Hne) as [d ->]. done.
Qed.

Lemma to_lowercase_nonempty s : s ≠ [] → to_lowercase s ≠ [].
Proof.
  intros Hs. destruct (to_lowercase_parts s) as (parts & -> & Hp).
  destruct Hp as [|c p s parts (_ & Hi & Hc) Hp]; [done|]. simpl.
  destruct (decide (c = 304%N)) as [->|Hne]; [by rewrite Hi|].
  by destruct (Hc Hne) as [d ->].
Qed.
End unicode.
