(* ===== verification/Text.v ===== *)
(** * Text: validated text of the chat protocol

    Models [crates/sproyt-protocol/src/text.rs]: the error type, the bounded and
    trimmed message body, the channel slug, the display name and the public
    handle with its collision suffixes. *)

From Stdlib Require Import ZifyBool.
From stdpp Require Import base tactics numbers strings pretty countable list.
From S2P Require Import Prelude RustStr.

(** ** Errors *)

Inductive TextValidationError : Type :=
  | Empty (field : string)
  | InvalidSlug
  | InvalidHandle
  | InvalidSequence
  | InvalidReaction
  | InvalidCircleName
  | SequenceOverflow
  | InvalidUuid (field : string)
  | TooLarge (field : string) (max : N).

#[export] Instance TextValidationError_eq_dec : EqDecision TextValidationError.
Proof. solve_decision. Defined.

Definition bounded_non_empty (value : str) (field : string) (max : N)
    : Res TextValidationError str :=
  let value := trim value in
  if decide (value = []) then Err (Empty field)
  else if (max <? len value)%N then Err (TooLarge field max)
  else Ok value.

(** ** MessageBody *)

Record MessageBody : Type := mk_MessageBody { MessageBody_as_str : str }.

Definition MessageBody_MAX_BYTES : N := 64 * 1024.
Definition MessageBody_new (value : str) : Res TextValidationError MessageBody :=
  res_map mk_MessageBody (bounded_non_empty value "message body" MessageBody_MAX_BYTES).

(** ** ChannelSlug *)

Record ChannelSlug : Type := mk_ChannelSlug { ChannelSlug_as_str : str }.

Definition ChannelSlug_MAX_BYTES : N := 80.

(** The bytes allowed in a slug. A UTF-8 byte above 127 is never allowed, so the
    test on bytes is this test on scalar values. *)
Definition slug_char (c : char) : bool :=
  is_ascii_lowercase c || is_ascii_digit c || (c =? 45)%N || (c =? 95)%N.

Definition ChannelSlug_new `{Unicode} (value : str) : Res TextValidationError ChannelSlug :=
  let? value := bounded_non_empty value "channel slug" ChannelSlug_MAX_BYTES in
  let normalized := to_lowercase value in
  if forallb slug_char normalized then Ok (mk_ChannelSlug normalized)
  else Err InvalidSlug.

(** ** DisplayName *)

Record DisplayName : Type := mk_DisplayName { DisplayName_as_str : str }.

Definition DisplayName_circle_name (value : str) : Res TextValidationError DisplayName :=
  let value := trim value in
  if bool_decide (value = []) || (120 <? N.of_nat (length value))%N
  then Err InvalidCircleName
  else Ok (mk_DisplayName value).

Definition DisplayName_MAX_BYTES : N := 120.
Definition DisplayName_new (value : str) : Res TextValidationError DisplayName :=
  res_map mk_DisplayName (bounded_non_empty value "display name" DisplayName_MAX_BYTES).

(** ** Handle *)

Record Handle : Type := mk_Handle { Handle_as_str : str }.

Definition Handle_MAX_BYTES : N := 80.

(** The loop of [with_suffix]: push characters until the next one would pass
    the limit. *)
Fixpoint push_within (limit : N) (base rest : str) : str :=
  match rest with
  | [] => base
  | c :: rest' =>
      if (limit <? len base + len_utf8 c)%N then base
      else push_within limit (base ++ [c]) rest'
  end.

Definition Handle_with_suffix (h : Handle) (ordinal : N) : Handle :=
  if (ordinal <=? 1)%N then h
  else
    let suffix := lit "-" ++ fmt_dec ordinal in
    let limit := (Handle_MAX_BYTES - len suffix)%N in
    mk_Handle (push_within limit [] (Handle_as_str h) ++ suffix).

Definition handle_char `{Unicode} (c : char) : bool :=
  is_alphanumeric c || (c =? 95)%N || (c =? 45)%N || (c =? 46)%N.

Definition Handle_new `{Unicode} (value : str) : Res TextValidationError Handle :=
  let? value := bounded_non_empty value "handle" Handle_MAX_BYTES in
  let normalized := to_lowercase value in
  if forallb handle_char normalized then Ok (mk_Handle normalized)
  else Err InvalidHandle.

(** The loop of [from_external]: skip characters outside the handle alphabet,
    stop at the first one that does not fit. *)
Fixpoint external_loop `{Unicode} (normalized rest : str) : str :=
  match rest with
  | [] => normalized
  | c :: rest' =>
      if negb (handle_char c) then external_loop normalized rest'
      else if (Handle_MAX_BYTES <? len normalized + len_utf8 c)%N then normalized
      else external_loop (normalized ++ [c]) rest'
  end.

Definition Handle_from_external `{Unicode} (value : str) : Handle :=
  let normalized := external_loop [] (to_lowercase (trim value)) in
  mk_Handle (if decide (normalized = []) then lit "user" else normalized).

(** ** Decidable equality and countability of the text newtypes *)

#[export] Instance MessageBody_eq_dec : EqDecision MessageBody.
Proof. solve_decision. Defined.
#[export] Instance ChannelSlug_eq_dec : EqDecision ChannelSlug.
Proof. solve_decision. Defined.
#[export] Instance DisplayName_eq_dec : EqDecision DisplayName.
Proof. solve_decision. Defined.
#[export] Instance Handle_eq_dec : EqDecision Handle.
Proof. solve_decision. Defined.
#[export] Program Instance ChannelSlug_countable : Countable ChannelSlug :=
  inj_countable' ChannelSlug_as_str mk_ChannelSlug _.
Next Obligation. by intros []. Qed.

(** ** Well-formed values *)

(** What each constructor promises about the text it wraps. *)
Definition valid_body (b : MessageBody) : Prop :=
  MessageBody_as_str b ≠ [] ∧ trimmed (MessageBody_as_str b)
  ∧ (len (MessageBody_as_str b) ≤ MessageBody_MAX_BYTES)%N.
Definition valid_slug (s : ChannelSlug) : Prop :=
  ChannelSlug_as_str s ≠ [] ∧ Forall (λ c, slug_char c = true) (ChannelSlug_as_str s)
  ∧ (len (ChannelSlug_as_str s) ≤ ChannelSlug_MAX_BYTES)%N.
Definition valid_name (n : DisplayName) : Prop :=
  DisplayName_as_str n ≠ [] ∧ trimmed (DisplayName_as_str n)
  ∧ (len (DisplayName_as_str n) ≤ DisplayName_MAX_BYTES)%N.
Definition handle_text `{Unicode} (s : str) : Prop :=
  s ≠ [] ∧ Forall (λ c, handle_char c = true) s ∧ (len s ≤ Handle_MAX_BYTES)%N.

(** ** Lemmas *)

Lemma bounded_non_empty_ok value field max v :
  bounded_non_empty value field max = Ok v ↔
  v = trim value ∧ v ≠ [] ∧ (len v ≤ max)%N.
Proof.
  unfold bounded_non_empty.
  destruct (decide (trim value = [])), (N.ltb_spec max (len (trim value)));
    split; intros; destruct_and?; simplify_eq; auto; lia.
Qed.

Lemma slug_char_ascii c : slug_char c = true → (c < 128)%N ∧ is_whitespace c = false
  ∧ to_ascii_lowercase c = c.
Proof.
  unfold slug_char, is_ascii_lowercase, is_ascii_digit, is_whitespace,
    to_ascii_lowercase, is_ascii_uppercase. intros; split_and!; [lia..|].
  case_match; lia.
Qed.

Lemma MessageBody_new_valid value b : MessageBody_new value = Ok b → valid_body b.
Proof.
  unfold MessageBody_new. destruct (bounded_non_empty _ _ _) eqn:E; simpl; intros; simplify_eq.
  apply bounded_non_empty_ok in E as (-> & ? & ?).
  split_and!; simpl; auto using trim_trimmed.
Qed.

Lemma MessageBody_new_as_str b : valid_body b → MessageBody_new (MessageBody_as_str b) = Ok b.
Proof.
  intros (Hne & Ht & Hl). unfold MessageBody_new.
  rewrite (proj2 (bounded_non_empty_ok _ _ _ (MessageBody_as_str b))); [by destruct b|].
  by rewrite trimmed_trim.
Qed.

Lemma DisplayName_new_valid value n : DisplayName_new value = Ok n → valid_name n.
Proof.
  unfold DisplayName_new. destruct (bounded_non_empty _ _ _) eqn:E; simpl; intros; simplify_eq.
  apply bounded_non_empty_ok in E as (-> & ? & ?).
  split_and!; simpl; auto using trim_trimmed.
Qed.

Lemma DisplayName_new_as_str n : valid_name n → DisplayName_new (DisplayName_as_str n) = Ok n.
Proof.
  intros (Hne & Ht & Hl). unfold DisplayName_new.
  rewrite (proj2 (bounded_non_empty_ok _ _ _ (DisplayName_as_str n))); [by destruct n|].
  by rewrite trimmed_trim.
Qed.

Section slug.
Context `{Unicode}.

Lemma ChannelSlug_new_valid value s : ChannelSlug_new value = Ok s → valid_slug s.
Proof.
  unfold ChannelSlug_new. destruct (bounded_non_empty _ _ _) as [v| |] eqn:E; simpl; [|done..].
  apply bounded_non_empty_ok in E as (-> & Hne & Hl).
  destruct (forallb _ _) eqn:Hf; intros; simplify_eq; simpl.
  apply forallb_Forall in Hf.
  split_and!; simpl; [by apply to_lowercase_nonempty|done|].
  etrans; [apply to_lowercase_len_ascii|done].
  eapply List.Forall_impl; [|exact Hf]. intros c Hc. by apply slug_char_ascii.
Qed.

Lemma ChannelSlug_new_as_str s : valid_slug s → ChannelSlug_new (ChannelSlug_as_str s) = Ok s.
Proof.
  intros (Hne & Hc & Hl). unfold ChannelSlug_new.
  rewrite (proj2 (bounded_non_empty_ok _ _ _ (ChannelSlug_as_str s))); simpl.
  - rewrite to_lowercase_ascii by (eapply List.Forall_impl; [|done]; apply slug_char_ascii).
    assert (to_ascii_lowercase <$> ChannelSlug_as_str s = ChannelSlug_as_str s) as ->.
    { clear Hne Hl. induction Hc as [|c l Hc _ IH]; [done|]. simpl. f_equal; [|done].
      by apply slug_char_ascii. }
    rewrite (proj2 (forallb_Forall _ _) Hc). by destruct s.
  - rewrite trimmed_trim; [done|]. apply no_space_trimmed.
    eapply List.Forall_impl; [|done]. intros c ?. by apply slug_char_ascii.
Qed.
End slug.

(** ** Decimal suffixes *)

Lemma lit_inj s t : lit s = lit t → s = t.
Proof.
  unfold lit. intros Heq.
  assert (String.list_ascii_of_string s = String.list_ascii_of_string t) as Hl.
  { revert Heq. generalize (String.list_ascii_of_string s) (String.list_ascii_of_string t).
    induction l as [|a l IH]; intros [|b k]; simpl; intros; simplify_eq; [done|].
    f_equal; [|by apply IH].
    by rewrite <- (Ascii.ascii_N_embedding a), <- (Ascii.ascii_N_embedding b), H. }
  by rewrite <- (String.string_of_list_ascii_of_string s),
    <- (String.string_of_list_ascii_of_string t), Hl.
Qed.

Lemma fmt_dec_inj n m : fmt_dec n = fmt_dec m → n = m.
Proof. unfold fmt_dec. intros ?%lit_inj. by apply (inj pretty). Qed.

Lemma pretty_N_char_digit x : is_ascii_digit (Ascii.N_of_ascii (pretty_N_char x)) = true.
Proof. unfold pretty_N_char. repeat case_match; done. Qed.

(** The digits [pretty_N_go] adds in front of its accumulator. *)
Lemma pretty_N_go_digits (k : nat) : ∀ x s, (x < 10 ^ N.of_nat k)%N →
  ∃ ds, lit (pretty_N_go x s) = ds ++ lit s
        ∧ Forall (λ c, is_ascii_digit c = true) ds ∧ length ds ≤ k.
Proof.
  induction k as [|k IH]; intros x s Hx.
  { exists []. rewrite N.lt_1_r in Hx by done. subst. by rewrite pretty_N_go_0. }
  destruct (decide (x = 0%N)) as [->|Hx0].
  { exists []. rewrite pretty_N_go_0. split_and!; simpl; [done..|lia]. }
  rewrite pretty_N_go_step by lia.
  destruct (IH (x `div` 10)%N (String (pretty_N_char (x `mod` 10)) s)) as (ds & Hds & Hd & Hl).
  { apply N.Div0.div_lt_upper_bound. rewrite Nat2N.inj_succ, N.pow_succ_r' in Hx. lia. }
  exists (ds ++ [Ascii.N_of_ascii (pretty_N_char (x `mod` 10))]). split_and!.
  - rewrite Hds. unfold lit. simpl. by rewrite <- app_assoc.
  - apply Forall_app; split; [done|]. repeat constructor. apply pretty_N_char_digit.
  - rewrite length_app. simpl. lia.
Qed.

Lemma fmt_dec_digits (k : nat) n : (0 < n < 10 ^ N.of_nat k)%N →
  Forall (λ c, is_ascii_digit c = true) (fmt_dec n) ∧ length (fmt_dec n) ≤ k.
Proof.
  intros [Hn Hk]. unfold fmt_dec, pretty, pretty_N.
  rewrite decide_False by lia.
  destruct (pretty_N_go_digits k n "" Hk) as (ds & -> & ? & ?).
  unfold lit. simpl. by rewrite app_nil_r.
Qed.

Lemma fmt_dec_no_dash n : (0 < n)%N → 45%N ∉ fmt_dec n.
Proof.
  intros Hn Hin. destruct (fmt_dec_digits (N.to_nat n) n) as [Hd _].
  { split; [done|]. rewrite N2Nat.id. apply N.pow_gt_lin_r. lia. }
  rewrite Forall_forall in Hd. by specialize (Hd _ Hin).
Qed.

Lemma push_within_spec limit base rest :
  (len base ≤ limit)%N →
  ∃ kept, push_within limit base rest = base ++ kept ∧ kept `prefix_of` rest
          ∧ (len (base ++ kept) ≤ limit)%N.
Proof.
  revert base. induction rest as [|c rest IH]; intros base Hb; simpl.
  { exists []. by rewrite app_nil_r. }
  case_match eqn:E.
  { exists []. rewrite app_nil_r. split_and!; [done|apply prefix_nil|done]. }
  destruct (IH (base ++ [c])) as (kept & -> & ? & ?).
  { rewrite len_app. simpl. lia. }
  exists (c :: kept). rewrite <- app_assoc in *. split_and!; [done|by apply prefix_cons|done].
Qed.

(** A collision suffix never lets a handle outgrow its limit: for every
    [u32] ordinal from 2 on, [with_suffix] keeps a prefix of the handle, appends
    ["-<ordinal>"] and stays within 80 bytes. *)
Theorem handle_with_suffix_bounded (h : Handle) (ordinal : N) :
  (2 ≤ ordinal < 2 ^ 32)%N →
  ∃ kept, kept `prefix_of` Handle_as_str h
    ∧ Handle_as_str (Handle_with_suffix h ordinal) = kept ++ lit "-" ++ fmt_dec ordinal
    ∧ (len (Handle_as_str (Handle_with_suffix h ordinal)) ≤ Handle_MAX_BYTES)%N.
Proof.
  intros Ho. unfold Handle_with_suffix.
  destruct (N.leb_spec ordinal 1); [lia|]. cbn [Handle_as_str].
  destruct (fmt_dec_digits 10 ordinal) as [Hd Hl]; [simpl; lia|].
  assert (len (fmt_dec ordinal) ≤ 10)%N as Hlen.
  { rewrite len_ascii; [lia|]. eapply List.Forall_impl; [|exact Hd].
    unfold is_ascii_digit. lia. }
  set (suffix := lit "-" ++ fmt_dec ordinal).
  assert (len suffix ≤ 11)%N as Hs
    by (unfold suffix; rewrite len_app; change (len (lit "-")) with 1%N; lia).
  destruct (push_within_spec (Handle_MAX_BYTES - len suffix) [] (Handle_as_str h))
    as (kept & -> & Hp & Hk); [simpl; lia|].
  exists kept. split_and!; [done|done|].
  rewrite app_nil_l, len_app in *. unfold Handle_MAX_BYTES in *. lia.
Qed.

(** Two different ordinals from 2 on give two different candidate handles,
    whatever the truncation does, so the search for a free handle in
    [upsert_user] never tries the same candidate twice. *)
Theorem handle_with_suffix_inj (h h' : Handle) (i j : N) :
  (2 ≤ i)%N → (2 ≤ j)%N →
  Handle_with_suffix h i = Handle_with_suffix h' j → i = j.
Proof.
  intros Hi Hj. unfold Handle_with_suffix.
  destruct (N.leb_spec i 1), (N.leb_spec j 1); [lia..|].
  intros [= Heq]. apply fmt_dec_inj.
  eapply app_last_sep_inj, Heq; apply fmt_dec_no_dash; lia.
Qed.

Lemma handle_with_suffix_bounded_witness :
  ∃ kept, kept `prefix_of` lit "kari"
    ∧ Handle_as_str (Handle_with_suffix (mk_Handle (lit "kari")) 12) = kept ++ lit "-" ++ fmt_dec 12
    ∧ (len (Handle_as_str (Handle_with_suffix (mk_Handle (lit "kari")) 12)) ≤ Handle_MAX_BYTES)%N.
Proof. apply (handle_with_suffix_bounded (mk_Handle (lit "kari")) 12). lia. Defined.

Lemma handle_with_suffix_inj_witness :
  Handle_with_suffix (mk_Handle (lit "kari")) 3 = Handle_with_suffix (mk_Handle (lit "kari")) 3
  ∧ 3%N = 3%N.
Proof.
  split; [reflexivity|].
  apply (handle_with_suffix_inj (mk_Handle (lit "kari")) (mk_Handle (lit "kari")) 3 3);
    [lia|lia|reflexivity].
Defined.

Section handles.
Context `{Unicode}.

Lemma external_loop_spec normalized rest :
  Forall (λ c, handle_char c = true) normalized → (len normalized ≤ Handle_MAX_BYTES)%N →
  Forall (λ c, handle_char c = true) (external_loop normalized rest)
  ∧ (len (external_loop normalized rest) ≤ Handle_MAX_BYTES)%N.
Proof.
  revert normalized. induction rest as [|c rest IH]; intros normalized Hn Hl; simpl; [done|].
  destruct (handle_char c) eqn:Hc; simpl; [|by apply IH].
  case_match eqn:E; [done|]. apply IH.
  - apply Forall_app; split; [done|by constructor].
  - rewrite len_app. simpl. lia.
Qed.

(** C40: canonicalising an external username never fails: whatever the identity
    provider sends, [Handle::from_external] gives a non-empty handle of at most
    80 bytes over the handle alphabet. *)
Theorem handle_from_external_valid (value : str) :
  handle_text (Handle_as_str (Handle_from_external value)).
Proof.
  unfold Handle_from_external, handle_text.
  destruct (external_loop_spec [] (to_lowercase (trim value))) as [Hc Hl]; [constructor|done|].
  simpl. case_decide; [|done]. split_and!; [done| |done].
  repeat constructor; unfold handle_char; by rewrite is_alphanumeric_ascii.
Qed.

(** A slug is canonical text: whatever [ChannelSlug::new] accepts comes out
    as 1 to 80 bytes of lower case ASCII letters, digits, ['-'] and ['_'], and
    parsing that text again gives the same slug (so a slug read back from a
    database or the wire is the slug that was stored). *)
Theorem channel_slug_canonical (value : str) (s : ChannelSlug) :
  ChannelSlug_new value = Ok s →
  valid_slug s ∧ ChannelSlug_new (ChannelSlug_as_str s) = Ok s.
Proof. intros Hs%ChannelSlug_new_valid. eauto using ChannelSlug_new_as_str. Qed.

(** The same for message bodies and display names: an accepted value is
    trimmed, non-empty and within its byte limit, and is a fixed point of its
    own constructor. *)
Theorem body_and_name_canonical (value : str) :
  (∀ b, MessageBody_new value = Ok b →
     valid_body b ∧ MessageBody_new (MessageBody_as_str b) = Ok b)
  ∧ (∀ n, DisplayName_new value = Ok n →
     valid_name n ∧ DisplayName_new (DisplayName_as_str n) = Ok n).
Proof.
  split; intros x Hx;
    eauto using MessageBody_new_valid, MessageBody_new_as_str,
      DisplayName_new_valid, DisplayName_new_as_str.
Qed.
End handles.

Lemma channel_slug_canonical_witness :
  ChannelSlug_new (H := demo_unicode) (lit "  Circle-42 ") = Ok (mk_ChannelSlug (lit "circle-42"))
  ∧ ChannelSlug_new (H := demo_unicode) (lit "circle-42") = Ok (mk_ChannelSlug (lit "circle-42")).
Proof.
  split; [reflexivity|].
  refine (proj2 (channel_slug_canonical (H := demo_unicode) (lit "  Circle-42 ")
    (mk_ChannelSlug (lit "circle-42")) _)).
  reflexivity.
Defined.

Lemma body_and_name_canonical_witness :
  MessageBody_new (lit " hei ") = Ok (mk_MessageBody (lit "hei"))
  ∧ MessageBody_new (lit "hei") = Ok (mk_MessageBody (lit "hei")).
Proof.
  split; [reflexivity|].
  refine (proj2 (proj1 (body_and_name_canonical (lit " hei ")) (mk_MessageBody (lit "hei")) _)).
  reflexivity.
Defined.

(** The byte limit of a handle is checked before lower casing, and lower
    casing can make text longer: 40 copies of U+023A (two bytes each, 80 in all)
    are accepted by [Handle::new], but their lower case form takes 120 bytes, so
    the stored handle is over [MAX_BYTES] and is rejected when it is read back
    through the same constructor. *)
Theorem handle_new_can_exceed_limit `{Unicode} :
  to_lowercase (replicate 40 570%N) = replicate 40 11365%N →
  is_alphanumeric 11365 = true →
  let h := mk_Handle (replicate 40 11365%N) in
  Handle_new (replicate 40 570%N) = Ok h
  ∧ (Handle_MAX_BYTES < len (Handle_as_str h))%N
  ∧ Handle_new (Handle_as_str h) = Err (TooLarge "handle" Handle_MAX_BYTES).
Proof.
  intros Hl Ha. unfold Handle_new.
  replace (bounded_non_empty (replicate 40 570%N) "handle" Handle_MAX_BYTES)
    with (@Ok TextValidationError _ (replicate 40 570%N)) by reflexivity.
  cbn [res_bind]. rewrite Hl. split_and!; [|reflexivity..].
  rewrite (proj2 (forallb_Forall _ _)); [done|].
  apply Forall_replicate. unfold handle_char. by rewrite Ha.
Qed.

Lemma handle_new_can_exceed_limit_witness :
  Handle_new (H := demo_unicode) (replicate 40 570%N) = Ok (mk_Handle (replicate 40 11365%N)).
Proof.
  refine (proj1 (handle_new_can_exceed_limit (H := demo_unicode) _ _)); reflexivity.
Defined.
