(* ===== verification/Ids.v ===== *)
(** * Ids: identifiers and channel sequence numbers

    Models [crates/sproyt-protocol/src/ids.rs]. Each identifier is a newtype
    over a UUID, so the wrong kind of identifier is a type error here as it is
    in the source. *)

From Stdlib Require Import ZifyBool.
From stdpp Require Import base tactics numbers strings countable list.
From S2P Require Import Prelude RustStr Text.

(** A UUID as its 128-bit number. *)
Abbreviation Uuid := N (only parsing).

(** ** The [uuid] crate

    Parsing, formatting and version 5 hashing come from the [uuid] crate; a
    [UuidLib] instance supplies them with their documented properties: the
    simple format is 32 lower case hexadecimal digits, and the hyphenated format
    is 36 ASCII characters without white space that parse back to the UUID. *)
Definition hex_char (c : char) : bool :=
  is_ascii_digit c || ((97 <=? c) && (c <=? 102))%N.

Class UuidLib := {
  uuid_parse_str : str → option Uuid;
  uuid_simple : Uuid → str;
  uuid_display : Uuid → str;
  uuid_NAMESPACE_URL : Uuid;
  uuid_new_v5 : Uuid → str → Uuid;
  uuid_simple_length u : length (uuid_simple u) = 32;
  uuid_simple_hex u : Forall (λ c, hex_char c = true) (uuid_simple u);
  uuid_display_length u : length (uuid_display u) = 36;
  uuid_display_chars u : Forall (λ c, hex_char c = true ∨ c = 45%N) (uuid_display u);
  uuid_parse_display u : (u < 2 ^ 128)%N → uuid_parse_str (uuid_display u) = Some u }.

(** A stand-in for the crate, to show the laws are consistent and to let
    examples compute: the hexadecimal digits with the least significant one
    first, and four dashes before them in the longer format. *)
Definition demo_digit (d : N) : char := if (d <? 10)%N then (48 + d)%N else (87 + d)%N.
Definition demo_digit_value (c : char) : N := if (c <? 58)%N then (c - 48)%N else (c - 87)%N.
Fixpoint demo_digits (n : nat) (u : Uuid) : str :=
  match n with O => [] | S n => demo_digit (u mod 16) :: demo_digits n (u / 16) end.
Definition demo_value (s : str) : Uuid := foldr (λ c v, demo_digit_value c + 16 * v)%N 0%N s.
Definition demo_hex (u : Uuid) : str := demo_digits 32 u.
Definition demo_display (u : Uuid) : str := lit "----" ++ demo_hex u.
Definition demo_parse (s : str) : option Uuid := Some (demo_value (drop 4 s)).

#[local] Lemma demo_digits_hex n u : Forall (λ c, hex_char c = true) (demo_digits n u).
Proof.
  revert u. induction n as [|n IH]; intros u; simpl; constructor; [|apply IH].
  assert (u mod 16 < 16)%N as Hd by (by apply N.mod_lt).
  revert Hd. generalize (u mod 16)%N. intros d Hd.
  unfold hex_char, is_ascii_digit, demo_digit. destruct (N.ltb_spec d 10); lia.
Qed.
#[local] Lemma demo_display_chars u : Forall (λ c, hex_char c = true ∨ c = 45%N) (demo_display u).
Proof.
  apply Forall_app. split; [repeat constructor; by right|].
  eapply List.Forall_impl; [|apply demo_digits_hex]. by left.
Qed.
#[local] Lemma demo_value_digits n u : demo_value (demo_digits n u) = (u mod 16 ^ N.of_nat n)%N.
Proof.
  revert u. induction n as [|n IH]; intros u; [by rewrite N.mod_1_r|].
  change (demo_value (demo_digits (S n) u))
    with (demo_digit_value (demo_digit (u mod 16)) + 16 * demo_value (demo_digits n (u / 16)))%N.
  assert (demo_digit_value (demo_digit (u mod 16)) = u mod 16)%N as ->.
  { assert (u mod 16 < 16)%N as Hd by (by apply N.mod_lt).
    revert Hd. generalize (u mod 16)%N. intros d Hd.
    unfold demo_digit_value, demo_digit. repeat case_match; lia. }
  rewrite IH, Nat2N.inj_succ, N.pow_succ_r'.
  by rewrite N.Div0.mod_mul_r.
Qed.
#[local] Lemma demo_parse_display u : (u < 2 ^ 128)%N → demo_parse (demo_display u) = Some u.
Proof.
  intros Hu. unfold demo_parse, demo_display, demo_hex. rewrite drop_app_length' by done.
  rewrite demo_value_digits. f_equal. by apply N.mod_small.
Qed.

Definition demo_uuid : UuidLib := {|
  uuid_parse_str := demo_parse; uuid_simple := demo_hex; uuid_display := demo_display;
  uuid_NAMESPACE_URL := 7; uuid_new_v5 ns s := (ns + len s)%N;
  uuid_simple_length _ := eq_refl; uuid_simple_hex := demo_digits_hex 32;
  uuid_display_length _ := eq_refl; uuid_display_chars := demo_display_chars;
  uuid_parse_display := demo_parse_display |}.

(** ** Newtypes *)

Record UserId : Type := mk_UserId { UserId_as_uuid : Uuid }.
Record ChannelId : Type := mk_ChannelId { ChannelId_as_uuid : Uuid }.
Record CircleId : Type := mk_CircleId { CircleId_as_uuid : Uuid }.
Record InvitationId : Type := mk_InvitationId { InvitationId_as_uuid : Uuid }.
Record MessageId : Type := mk_MessageId { MessageId_as_uuid : Uuid }.
Record MediaId : Type := mk_MediaId { MediaId_as_uuid : Uuid }.

#[export] Instance UserId_eq_dec : EqDecision UserId.
Proof. solve_decision. Defined.
#[export] Instance ChannelId_eq_dec : EqDecision ChannelId.
Proof. solve_decision. Defined.
#[export] Instance CircleId_eq_dec : EqDecision CircleId.
Proof. solve_decision. Defined.
#[export] Instance InvitationId_eq_dec : EqDecision InvitationId.
Proof. solve_decision. Defined.
#[export] Instance MessageId_eq_dec : EqDecision MessageId.
Proof. solve_decision. Defined.
#[export] Instance MediaId_eq_dec : EqDecision MediaId.
Proof. solve_decision. Defined.

#[export] Program Instance UserId_countable : Countable UserId :=
  inj_countable' UserId_as_uuid mk_UserId _.
Next Obligation. by intros []. Qed.
#[export] Program Instance ChannelId_countable : Countable ChannelId :=
  inj_countable' ChannelId_as_uuid mk_ChannelId _.
Next Obligation. by intros []. Qed.
#[export] Program Instance CircleId_countable : Countable CircleId :=
  inj_countable' CircleId_as_uuid mk_CircleId _.
Next Obligation. by intros []. Qed.
#[export] Program Instance MessageId_countable : Countable MessageId :=
  inj_countable' MessageId_as_uuid mk_MessageId _.
Next Obligation. by intros []. Qed.
#[export] Program Instance MediaId_countable : Countable MediaId :=
  inj_countable' MediaId_as_uuid mk_MediaId _.
Next Obligation. by intros []. Qed.

(** [Ord for UserId], derived: the order of the UUID bytes. *)
Definition UserId_lt (a b : UserId) : bool := (UserId_as_uuid a <? UserId_as_uuid b)%N.
Definition UserId_le (a b : UserId) : Prop := (UserId_as_uuid a ≤ UserId_as_uuid b)%N.
#[export] Instance UserId_le_dec : RelDecision UserId_le.
Proof. intros a b. unfold UserId_le. apply _. Defined.

(** ** Parsing *)

Definition non_empty (value : str) (field : string) : Res TextValidationError str :=
  let value := trim value in
  if decide (value = []) then Err (Empty field) else Ok value.

Definition parse_uuid `{UuidLib} (value : str) (field : string) : Res TextValidationError Uuid :=
  let? value := non_empty value field in
  ok_or (uuid_parse_str value) (InvalidUuid field).

Definition UserId_new `{UuidLib} (value : str) : Res TextValidationError UserId :=
  res_map mk_UserId (parse_uuid value "user id").
Definition ChannelId_new `{UuidLib} (value : str) : Res TextValidationError ChannelId :=
  res_map mk_ChannelId (parse_uuid value "channel id").
Definition MediaId_new `{UuidLib} (value : str) : Res TextValidationError MediaId :=
  res_map mk_MediaId (parse_uuid value "media id").

Definition UserId_named `{UuidLib} (value : str) : UserId :=
  mk_UserId (uuid_new_v5 uuid_NAMESPACE_URL value).
Definition UserId_from_oidc `{UuidLib} (issuer subject : str) : UserId :=
  UserId_named (issuer ++ lit ":" ++ subject).

(** ** Channel sequences *)

(** [u64] values are kept below [2^64]. *)
Definition u64_max : N := 2 ^ 64 - 1.

Record ChannelSequence : Type := mk_ChannelSequence { seq_u64 : N }.
#[export] Instance ChannelSequence_eq_dec : EqDecision ChannelSequence.
Proof. solve_decision. Defined.

Definition ChannelSequence_first : ChannelSequence := mk_ChannelSequence 1.
Definition ChannelSequence_new (value : N) : ChannelSequence := mk_ChannelSequence value.
Definition ChannelSequence_default : ChannelSequence := ChannelSequence_new 0.

Definition ChannelSequence_checked_next (s : ChannelSequence)
    : Res TextValidationError ChannelSequence :=
  if (seq_u64 s <? u64_max)%N then Ok (mk_ChannelSequence (seq_u64 s + 1))
  else Err SequenceOverflow.

(** [TryFrom<i64>] *)
Definition ChannelSequence_try_from (value : Z) : Res TextValidationError ChannelSequence :=
  if (value <? 0)%Z then Err InvalidSequence else Ok (mk_ChannelSequence (Z.to_N value)).

(** [PartialOrd for ChannelSequence] *)
Definition seq_lt (a b : ChannelSequence) : bool := (seq_u64 a <? seq_u64 b)%N.
Definition seq_le (a b : ChannelSequence) : Prop := (seq_u64 a ≤ seq_u64 b)%N.
#[export] Instance seq_le_dec : RelDecision seq_le.
Proof. intros a b. unfold seq_le. apply _. Defined.

(** ** Lemmas *)

Lemma uuid_char_ascii c :
  hex_char c = true ∨ c = 45%N → (c < 128)%N ∧ is_whitespace c = false.
Proof. unfold hex_char, is_ascii_digit, is_whitespace. lia. Qed.

Lemma uuid_display_trimmed `{UuidLib} u : trimmed (uuid_display u) ∧ uuid_display u ≠ [].
Proof.
  split.
  - apply no_space_trimmed. eapply List.Forall_impl; [|apply uuid_display_chars].
    intros c Hc. by apply uuid_char_ascii.
  - intros Hn. assert (length (uuid_display u) = 36) as Hl by apply uuid_display_length.
    by rewrite Hn in Hl.
Qed.

Lemma len_uuid_display `{UuidLib} u : len (uuid_display u) = 36%N.
Proof.
  rewrite len_ascii, uuid_display_length; [done|].
  eapply List.Forall_impl; [|apply uuid_display_chars]. intros c Hc. by apply uuid_char_ascii.
Qed.

(** A slug made of a short prefix and a UUID always validates. *)
Lemma slug_of_uuid `{Unicode, UuidLib} (prefix : str) (u : Uuid) :
  forallb slug_char prefix = true → length prefix ≤ 40 →
  ChannelSlug_new (prefix ++ uuid_simple u) = Ok (mk_ChannelSlug (prefix ++ uuid_simple u)).
Proof.
  intros Hp Hl. apply forallb_Forall in Hp.
  assert (Forall (λ c, slug_char c = true) (prefix ++ uuid_simple u)) as Hs.
  { apply Forall_app. split; [done|]. eapply List.Forall_impl; [|apply uuid_simple_hex].
    intros c. unfold hex_char, slug_char, is_ascii_lowercase, is_ascii_digit. lia. }
  apply (ChannelSlug_new_as_str (mk_ChannelSlug _)).
  assert (length (uuid_simple u) = 32) by apply uuid_simple_length.
  split_and!; simpl.
  - intros Hn. apply (f_equal length) in Hn. rewrite length_app in Hn. simpl in Hn. lia.
  - done.
  - rewrite len_ascii; [rewrite length_app; unfold ChannelSlug_MAX_BYTES; lia|].
    eapply List.Forall_impl; [|exact Hs]. intros c Hc. by destruct (slug_char_ascii c Hc).
Qed.

(** ** Theorems *)

(** Identifiers survive their text form, surrounding white space included:
    printing a user, channel or media identifier and parsing it again gives the
    same identifier. *)
Theorem ids_parse_display `{UuidLib} (u : Uuid) (l r : str) :
  (u < 2 ^ 128)%N →
  Forall (λ c, is_whitespace c = true) l → Forall (λ c, is_whitespace c = true) r →
  UserId_new (l ++ uuid_display u ++ r) = Ok (mk_UserId u)
  ∧ ChannelId_new (l ++ uuid_display u ++ r) = Ok (mk_ChannelId u)
  ∧ MediaId_new (l ++ uuid_display u ++ r) = Ok (mk_MediaId u).
Proof.
  intros Hu Hl Hr. destruct (uuid_display_trimmed u) as [Ht Hne].
  assert (∀ field, parse_uuid (l ++ uuid_display u ++ r) field = Ok u) as Hp.
  { intros field. unfold parse_uuid, non_empty.
    rewrite trim_padded by done. rewrite decide_False by done. simpl.
    by rewrite (uuid_parse_display u Hu). }
  unfold UserId_new, ChannelId_new, MediaId_new. by rewrite !Hp.
Qed.

Lemma ids_parse_display_witness :
  ChannelId_new (H := demo_uuid) (lit " " ++ demo_display 5 ++ lit " ") = Ok (mk_ChannelId 5).
Proof.
  refine (proj1 (proj2 (ids_parse_display (H := demo_uuid) 5 (lit " ") (lit " ") _ _ _)));
    [done|repeat constructor..].
Defined.

(** Sequence numbers never wrap: [checked_next] gives exactly the successor
    below [u64::MAX] and the explicit overflow error at it, and the database's
    [i64] converts exactly when it is not negative. *)
Theorem channel_sequence_exact (s : ChannelSequence) (z : Z) :
  (seq_u64 s ≤ u64_max)%N →
  (match ChannelSequence_checked_next s with
   | Ok s' => seq_u64 s' = N.succ (seq_u64 s) ∧ (seq_u64 s' ≤ u64_max)%N
              ∧ seq_lt s s' = true
   | Err e => e = SequenceOverflow ∧ seq_u64 s = u64_max
   | Panic => False
   end)
  ∧ (match ChannelSequence_try_from z with
     | Ok t => Z.of_N (seq_u64 t) = z
     | Err e => e = InvalidSequence ∧ (z < 0)%Z
     | Panic => False
     end).
Proof.
  intros Hs. unfold ChannelSequence_checked_next, ChannelSequence_try_from, seq_lt.
  destruct (N.ltb_spec (seq_u64 s) u64_max), (Z.ltb_spec z 0);
    simpl; split_and!; done || lia.
Qed.

Lemma channel_sequence_exact_witness :
  ChannelSequence_checked_next (mk_ChannelSequence u64_max) = Err SequenceOverflow
  ∧ SequenceOverflow = SequenceOverflow ∧ u64_max = u64_max.
Proof.
  split; [reflexivity|].
  refine (proj1 (channel_sequence_exact (mk_ChannelSequence u64_max) (-1) _)). done.
Defined.
