(* ===== verification/Models.v ===== *)
(** * Models: the data of the chat protocol

    Models [crates/sproyt-protocol/src/models.rs], [commands.rs] and
    [events.rs]: principals, circles, channels, memberships, messages and the
    commands and events built from them. A [DateTime<Utc>] is the number of
    nanoseconds since the Unix epoch. *)

From stdpp Require Import base tactics numbers strings countable list.
From S2P Require Import Prelude RustStr Text Ids.

Abbreviation DateTime := Z (only parsing).

(** [serde_json::Value], for the fields that carry free-form JSON. *)
Inductive Json : Type :=
  | JNull | JBool (b : bool) | JNumber (z : Z) | JString (s : str)
  | JArray (l : list Json) | JObject (fields : list (str * Json)).

(** ** Principals and roles *)

Inductive PrincipalKind : Type := Human | Agent.
Inductive ChannelKind : Type := Public | Local | Private.
Inductive MembershipRole : Type :=
  | MembershipRole_Owner | MembershipRole_Moderator
  | MembershipRole_Member | MembershipRole_Observer.
Inductive CircleRole : Type :=
  | CircleRole_Owner | CircleRole_Moderator | CircleRole_Member.

#[export] Instance PrincipalKind_eq_dec : EqDecision PrincipalKind.
Proof. solve_decision. Defined.
#[export] Instance ChannelKind_eq_dec : EqDecision ChannelKind.
Proof. solve_decision. Defined.
#[export] Instance MembershipRole_eq_dec : EqDecision MembershipRole.
Proof. solve_decision. Defined.
#[export] Instance CircleRole_eq_dec : EqDecision CircleRole.
Proof. solve_decision. Defined.

(** [match value { "..." => Some(..), .. , _ => None }] *)
Fixpoint match_str {A} (value : str) (arms : list (string * A)) : option A :=
  match arms with
  | [] => None
  | (s, a) :: arms' => if decide (value = lit s) then Some a else match_str value arms'
  end.

Definition PrincipalKind_as_str (k : PrincipalKind) : str :=
  lit match k with Human => "human" | Agent => "agent" end.
Definition PrincipalKind_parse (value : str) : option PrincipalKind :=
  match_str value [("human", Human); ("agent", Agent)].

Definition ChannelKind_as_str (k : ChannelKind) : str :=
  lit match k with Public => "public" | Local => "local" | Private => "private" end.
Definition ChannelKind_parse (value : str) : option ChannelKind :=
  match_str value [("public", Public); ("local", Local); ("private", Private)].

Definition CircleRole_as_str (r : CircleRole) : str :=
  lit match r with
      | CircleRole_Owner => "owner" | CircleRole_Moderator => "moderator"
      | CircleRole_Member => "member"
      end.
Definition CircleRole_parse (value : str) : option CircleRole :=
  match_str value [("owner", CircleRole_Owner); ("moderator", CircleRole_Moderator);
                   ("member", CircleRole_Member)].

Definition MembershipRole_as_str (r : MembershipRole) : str :=
  lit match r with
      | MembershipRole_Owner => "owner" | MembershipRole_Moderator => "moderator"
      | MembershipRole_Member => "member" | MembershipRole_Observer => "observer"
      end.
Definition MembershipRole_parse (value : str) : option MembershipRole :=
  match_str value [("owner", MembershipRole_Owner); ("moderator", MembershipRole_Moderator);
                   ("member", MembershipRole_Member); ("observer", MembershipRole_Observer)].

(** ** Users *)

Record User : Type := mk_User {
  User_id : UserId;
  User_kind : PrincipalKind;
  User_display_name : DisplayName;
  User_handle : option Handle;
  User_external_provider : option str;
  User_external_subject : option str;
  User_created_at : DateTime }.
#[export] Instance User_eta : Eta User := λ u,
  mk_User (User_id u) (User_kind u) (User_display_name u) (User_handle u)
    (User_external_provider u) (User_external_subject u) (User_created_at u).

Record UserProfile : Type := mk_UserProfile {
  UserProfile_user : User;
  UserProfile_early_adopter : bool;
  UserProfile_status_text : str;
  UserProfile_status_emoji : str;
  UserProfile_status_expires_at : option DateTime }.

Record SavedStatus : Type := mk_SavedStatus {
  SavedStatus_text : str;
  SavedStatus_emoji : str;
  SavedStatus_save_count : Z;
  SavedStatus_last_used_at : DateTime }.

Record PersonalNote : Type := mk_PersonalNote {
  PersonalNote_markdown : str;
  PersonalNote_revision : Z }.

(** ** Circles *)

Record Circle : Type := mk_Circle {
  Circle_id : CircleId;
  Circle_slug : ChannelSlug;
  Circle_name : DisplayName;
  Circle_created_by : UserId;
  Circle_created_at : DateTime }.
#[export] Instance Circle_eta : Eta Circle := λ c,
  mk_Circle (Circle_id c) (Circle_slug c) (Circle_name c) (Circle_created_by c)
    (Circle_created_at c).

Record CircleMembership : Type := mk_CircleMembership {
  CircleMembership_circle_id : CircleId;
  CircleMembership_user_id : UserId;
  CircleMembership_role : CircleRole;
  CircleMembership_joined_at : DateTime }.
#[export] Instance CircleMembership_eta : Eta CircleMembership := λ m,
  mk_CircleMembership (CircleMembership_circle_id m) (CircleMembership_user_id m)
    (CircleMembership_role m) (CircleMembership_joined_at m).

Record CircleInvitation : Type := mk_CircleInvitation {
  CircleInvitation_id : InvitationId;
  CircleInvitation_circle_id : CircleId;
  CircleInvitation_invited_by : UserId;
  CircleInvitation_expires_at : DateTime }.

Record IssuedInvitation : Type := mk_IssuedInvitation {
  IssuedInvitation_invitation : CircleInvitation;
  IssuedInvitation_token : str }.

(** ** Channels and messages *)

Record Channel : Type := mk_Channel {
  Channel_id : ChannelId;
  Channel_slug : ChannelSlug;
  Channel_name : DisplayName;
  Channel_kind : ChannelKind;
  Channel_circle_id : option CircleId;
  Channel_created_by : UserId }.

Record DiscoverableChannel : Type := mk_DiscoverableChannel {
  DiscoverableChannel_channel : Channel;
  DiscoverableChannel_description : str }.

Record Membership : Type := mk_Membership {
  Membership_channel_id : ChannelId;
  Membership_user_id : UserId;
  Membership_role : MembershipRole;
  Membership_last_read_sequence : ChannelSequence }.
#[export] Instance Membership_eta : Eta Membership := λ m,
  mk_Membership (Membership_channel_id m) (Membership_user_id m) (Membership_role m)
    (Membership_last_read_sequence m).

Record ChatMessage : Type := mk_ChatMessage {
  ChatMessage_id : MessageId;
  ChatMessage_channel_id : ChannelId;
  ChatMessage_parent_message_id : option MessageId;
  ChatMessage_sender_id : UserId;
  ChatMessage_sender_display_name : DisplayName;
  ChatMessage_body : MessageBody;
  ChatMessage_sequence : ChannelSequence;
  ChatMessage_sent_at : DateTime;
  ChatMessage_edited_at : option DateTime;
  ChatMessage_deleted_at : option DateTime }.
#[export] Instance ChatMessage_eta : Eta ChatMessage := λ m,
  mk_ChatMessage (ChatMessage_id m) (ChatMessage_channel_id m)
    (ChatMessage_parent_message_id m) (ChatMessage_sender_id m)
    (ChatMessage_sender_display_name m) (ChatMessage_body m) (ChatMessage_sequence m)
    (ChatMessage_sent_at m) (ChatMessage_edited_at m) (ChatMessage_deleted_at m).

Record ThreadSummary : Type := mk_ThreadSummary {
  ThreadSummary_root_message_id : MessageId;
  ThreadSummary_reply_count : N;
  ThreadSummary_unread_count : N;
  ThreadSummary_latest_sequence : ChannelSequence }.

Record MessageReactionSummary : Type := mk_MessageReactionSummary {
  MessageReactionSummary_message_id : MessageId;
  MessageReactionSummary_emoji : str;
  MessageReactionSummary_count : N;
  MessageReactionSummary_reacted_by_me : bool;
  MessageReactionSummary_user_ids : list UserId }.

Record MessageReactionChange : Type := mk_MessageReactionChange {
  MessageReactionChange_message_id : MessageId;
  MessageReactionChange_channel_id : ChannelId;
  MessageReactionChange_user_id : UserId;
  MessageReactionChange_emoji : str;
  MessageReactionChange_added : bool;
  MessageReactionChange_count : N }.

(** ** Media *)

Record MediaObject : Type := mk_MediaObject {
  MediaObject_id : MediaId;
  MediaObject_owner_id : UserId;
  MediaObject_channel_id : ChannelId;
  MediaObject_original_filename : str;
  MediaObject_content_type : str;
  MediaObject_size_bytes : N;
  MediaObject_sha256 : str;
  MediaObject_width : option N;
  MediaObject_height : option N;
  MediaObject_duration_ms : option N;
  MediaObject_alt_text : str;
  MediaObject_analysis_status : str;
  MediaObject_analysis_metadata : Json;
  MediaObject_created_at : DateTime }.

Record MediaVariant : Type := mk_MediaVariant {
  MediaVariant_content_type : str;
  MediaVariant_width : N;
  MediaVariant_height : N;
  MediaVariant_content : list N }.

Record MediaUpload : Type := mk_MediaUpload {
  MediaUpload_actor : UserId;
  MediaUpload_channel_id : ChannelId;
  MediaUpload_filename : str;
  MediaUpload_content_type : str;
  MediaUpload_content : list N;
  MediaUpload_dimensions : option (N * N);
  MediaUpload_preview : option MediaVariant }.

(** ** Commands *)

Record CreateChannel : Type := mk_CreateChannel {
  CreateChannel_actor : UserId;
  CreateChannel_slug : ChannelSlug;
  CreateChannel_name : DisplayName;
  CreateChannel_kind : ChannelKind;
  CreateChannel_circle_id : option CircleId }.

Record CreateCircle : Type := mk_CreateCircle {
  CreateCircle_actor : UserId;
  CreateCircle_slug : ChannelSlug;
  CreateCircle_name : DisplayName }.

Record RenameCircle : Type := mk_RenameCircle {
  RenameCircle_actor : UserId;
  RenameCircle_circle_id : CircleId;
  RenameCircle_name : DisplayName }.

Record DeleteCircle : Type := mk_DeleteCircle {
  DeleteCircle_actor : UserId;
  DeleteCircle_circle_id : CircleId }.

Record LeaveCircle : Type := mk_LeaveCircle {
  LeaveCircle_actor : UserId;
  LeaveCircle_circle_id : CircleId }.

Record CreateCircleInvitation : Type := mk_CreateCircleInvitation {
  CreateCircleInvitation_actor : UserId;
  CreateCircleInvitation_circle_id : CircleId }.

Record AcceptCircleInvitation : Type := mk_AcceptCircleInvitation {
  AcceptCircleInvitation_actor : UserId;
  AcceptCircleInvitation_token : str }.

Record SetCircleMemberRole : Type := mk_SetCircleMemberRole {
  SetCircleMemberRole_actor : UserId;
  SetCircleMemberRole_circle_id : CircleId;
  SetCircleMemberRole_user_id : UserId;
  SetCircleMemberRole_role : CircleRole }.

Inductive ChannelRef : Type :=
  | ChannelRef_Id (channel_id : ChannelId)
  | ChannelRef_Slug (slug : ChannelSlug).

Record JoinChannel : Type := mk_JoinChannel {
  JoinChannel_actor : UserId;
  JoinChannel_channel : ChannelRef }.

Record AddChannelMember : Type := mk_AddChannelMember {
  AddChannelMember_actor : UserId;
  AddChannelMember_channel_id : ChannelId;
  AddChannelMember_user_id : UserId }.

Record UpdateChannelDescription : Type := mk_UpdateChannelDescription {
  UpdateChannelDescription_actor : UserId;
  UpdateChannelDescription_channel_id : ChannelId;
  UpdateChannelDescription_description : str }.

Record LeaveChannel : Type := mk_LeaveChannel {
  LeaveChannel_actor : UserId;
  LeaveChannel_channel_id : ChannelId }.

(** [MessageLimit] is a [u16] capped at 200. *)
Record MessageLimit : Type := mk_MessageLimit { MessageLimit_usize : N }.
Definition MessageLimit_DEFAULT : MessageLimit := mk_MessageLimit 50.
Definition MessageLimit_MAX : N := 200.
Definition MessageLimit_new (value : N) : MessageLimit :=
  if (MessageLimit_MAX <? value)%N then mk_MessageLimit MessageLimit_MAX
  else mk_MessageLimit value.

Record LoadRecentMessages : Type := mk_LoadRecentMessages {
  LoadRecentMessages_actor : UserId;
  LoadRecentMessages_channel_id : ChannelId;
  LoadRecentMessages_limit : MessageLimit;
  LoadRecentMessages_after : option ChannelSequence;
  LoadRecentMessages_before : option ChannelSequence }.

Record SendMessage : Type := mk_SendMessage {
  SendMessage_actor : UserId;
  SendMessage_channel_id : ChannelId;
  SendMessage_parent_message_id : option MessageId;
  SendMessage_body : MessageBody }.

Record EditMessage : Type := mk_EditMessage {
  EditMessage_actor : UserId;
  EditMessage_message_id : MessageId;
  EditMessage_body : MessageBody }.

Record DeleteMessage : Type := mk_DeleteMessage {
  DeleteMessage_actor : UserId;
  DeleteMessage_message_id : MessageId }.

Record MarkRead : Type := mk_MarkRead {
  MarkRead_actor : UserId;
  MarkRead_channel_id : ChannelId;
  MarkRead_sequence : ChannelSequence }.

(** ** Events *)

Inductive ChatEvent : Type :=
  | ChannelCreated (channel_id : ChannelId) (created_by : UserId)
      (source_channel_id : option ChannelId)
  | ParticipantJoined (channel_id : ChannelId) (participant_id : UserId)
  | ParticipantLeft (channel_id : ChannelId) (participant_id : UserId)
  | MessageAccepted (message : ChatMessage)
  | MessageEdited (message : ChatMessage)
  | MessageDeleted (message : ChatMessage)
  | MessageReactionChanged (change : MessageReactionChange)
  | ReadMarkerUpdated (channel_id : ChannelId) (user_id : UserId) (sequence : ChannelSequence).

#[export] Instance ChatMessage_eq_dec : EqDecision ChatMessage.
Proof. solve_decision. Defined.

(** ** Enrollment invitations ([src/domain/onboarding.rs]) *)

Inductive EnrollmentInvitationState : Type := Inactive | Active | Consumed.
#[export] Instance EnrollmentInvitationState_eq_dec : EqDecision EnrollmentInvitationState.
Proof. solve_decision. Defined.

Record EnrollmentInvitation : Type := mk_EnrollmentInvitation {
  EnrollmentInvitation_id : Uuid;
  EnrollmentInvitation_circle_id : option CircleId;
  EnrollmentInvitation_invited_by : UserId;
  EnrollmentInvitation_expires_at : DateTime;
  EnrollmentInvitation_state : EnrollmentInvitationState;
  EnrollmentInvitation_authentik_invitation_id : option Uuid }.
#[export] Instance EnrollmentInvitation_eta : Eta EnrollmentInvitation := λ i,
  mk_EnrollmentInvitation (EnrollmentInvitation_id i) (EnrollmentInvitation_circle_id i)
    (EnrollmentInvitation_invited_by i) (EnrollmentInvitation_expires_at i)
    (EnrollmentInvitation_state i) (EnrollmentInvitation_authentik_invitation_id i).

Record PrepareEnrollmentInvitation : Type := mk_PrepareEnrollmentInvitation {
  PrepareEnrollmentInvitation_actor : UserId;
  PrepareEnrollmentInvitation_circle_id : option CircleId;
  PrepareEnrollmentInvitation_email : str;
  PrepareEnrollmentInvitation_expires_at : DateTime }.

Record IssuedEnrollmentInvitation : Type := mk_IssuedEnrollmentInvitation {
  IssuedEnrollmentInvitation_invitation : EnrollmentInvitation;
  IssuedEnrollmentInvitation_token : str }.

Record ActivateEnrollmentInvitation : Type := mk_ActivateEnrollmentInvitation {
  ActivateEnrollmentInvitation_token : str;
  ActivateEnrollmentInvitation_authentik_invitation_id : Uuid }.

Record AcceptEnrollmentInvitation : Type := mk_AcceptEnrollmentInvitation {
  AcceptEnrollmentInvitation_actor : UserId;
  AcceptEnrollmentInvitation_email : str;
  AcceptEnrollmentInvitation_token : str }.

(** ** Theorems *)

(** The database text of every role and kind determines it: [parse] inverts
    [as_str], and accepts nothing else (so an unknown or empty database value is
    never read as a role). *)
Theorem kinds_and_roles_roundtrip (value : str) :
  (∀ k, PrincipalKind_parse value = Some k ↔ value = PrincipalKind_as_str k)
  ∧ (∀ k, ChannelKind_parse value = Some k ↔ value = ChannelKind_as_str k)
  ∧ (∀ r, CircleRole_parse value = Some r ↔ value = CircleRole_as_str r)
  ∧ (∀ r, MembershipRole_parse value = Some r ↔ value = MembershipRole_as_str r).
Proof.
  unfold PrincipalKind_parse, ChannelKind_parse, CircleRole_parse, MembershipRole_parse.
  split_and!; intros x; simpl; repeat case_decide; subst;
    destruct x; split; intros; simplify_eq/=; done.
Qed.
