(* ===== verification/Policy.v ===== *)
(** * Policy: the authorization matrix ([src/domain/policy.rs]) *)

From stdpp Require Import base tactics list.
From S2P Require Import Prelude Models.

Definition can_invite_to_circle (role : option CircleRole) : bool :=
  match role with Some (CircleRole_Owner | CircleRole_Moderator) => true | _ => false end.
Definition can_rename_circle (role : option CircleRole) : bool :=
  match role with Some CircleRole_Owner => true | _ => false end.
Definition can_delete_circle (role : option CircleRole) : bool := can_rename_circle role.
Definition can_leave_circle (role : option CircleRole) : bool :=
  match role with Some (CircleRole_Member | CircleRole_Moderator) => true | _ => false end.
Definition can_create_channel_in_circle (role : option CircleRole) : bool :=
  match role with
  | Some (CircleRole_Owner | CircleRole_Moderator | CircleRole_Member) => true
  | _ => false
  end.
Definition can_read_channel (role : option MembershipRole) : bool :=
  match role with Some _ => true | None => false end.
Definition can_send_to_channel (role : option MembershipRole) : bool :=
  match role with
  | Some (MembershipRole_Owner | MembershipRole_Moderator | MembershipRole_Member) => true
  | _ => false
  end.
Definition can_leave_channel (role : option MembershipRole) : bool :=
  match role with Some _ => true | None => false end.
Definition can_moderate_channel (role : option MembershipRole) : bool :=
  match role with
  | Some (MembershipRole_Owner | MembershipRole_Moderator) => true
  | _ => false
  end.
Definition can_complete_process_work (role : option MembershipRole) : bool :=
  can_send_to_channel role.
Definition can_start_process (role : option MembershipRole) : bool :=
  can_complete_process_work role.
Definition can_invite_agent_to_channel (role : option MembershipRole) : bool :=
  can_moderate_channel role.
Definition can_invite_agent_to_circle (role : option CircleRole) : bool :=
  match role with Some CircleRole_Owner => true | _ => false end.

(** ** The matrix as a privilege order *)

(** Roles by increasing privilege; a non-member is below every role. *)
Definition membership_rank (role : option MembershipRole) : nat :=
  match role with
  | None => 0 | Some MembershipRole_Observer => 1 | Some MembershipRole_Member => 2
  | Some MembershipRole_Moderator => 3 | Some MembershipRole_Owner => 4
  end.
Definition circle_rank (role : option CircleRole) : nat :=
  match role with
  | None => 0 | Some CircleRole_Member => 1 | Some CircleRole_Moderator => 2
  | Some CircleRole_Owner => 3
  end.

(** The channel permissions form a ladder: every permission is exactly a
    threshold on the role order (read from observer, send and process work from
    member, moderate and invite agents from moderator), so a promotion never
    takes a permission away and a non-member has none. *)
Theorem channel_policy_thresholds (role : option MembershipRole) :
  can_read_channel role = (1 <=? membership_rank role)
  ∧ can_leave_channel role = (1 <=? membership_rank role)
  ∧ can_send_to_channel role = (2 <=? membership_rank role)
  ∧ can_start_process role = (2 <=? membership_rank role)
  ∧ can_complete_process_work role = (2 <=? membership_rank role)
  ∧ can_moderate_channel role = (3 <=? membership_rank role)
  ∧ can_invite_agent_to_channel role = (3 <=? membership_rank role).
Proof. by destruct role as [[]|]. Qed.

(** The circle permissions are thresholds too (create channels from member,
    invite from moderator, rename, delete and invite agents as owner), except
    leaving: every member but the owner may leave, so no circle loses its last
    owner by a departure. *)
Theorem circle_policy_thresholds (role : option CircleRole) :
  can_create_channel_in_circle role = (1 <=? circle_rank role)
  ∧ can_invite_to_circle role = (2 <=? circle_rank role)
  ∧ can_rename_circle role = (3 <=? circle_rank role)
  ∧ can_delete_circle role = (3 <=? circle_rank role)
  ∧ can_invite_agent_to_circle role = (3 <=? circle_rank role)
  ∧ can_leave_circle role = ((1 <=? circle_rank role) && (circle_rank role <? 3)).
Proof. by destruct role as [[]|]. Qed.
