(* ===== verification/ClientCore.v ===== *)
(** * ClientCore: durable sends and session recovery of the browser client

    Models [crates/sproyt-client-core]: the admission decision for a persisted
    send, the durable-send state machine ([lib.rs]) and the session refresh and
    recovery policy with its integer ABI ([session.rs]). A [u32] is an [N]. *)

From stdpp Require Import base tactics numbers strings list relations.
From S2P Require Import Prelude RustStr.

(** ** Send admission *)

Record TransportReadiness : Type := mk_TransportReadiness {
  connected : bool;
  subscribed_channel_id : option str;
  handoff_active : bool }.

Inductive SendAdmission : Type := DispatchNow | QueueUntilSubscribed.

Definition admit_persisted_send (channel_id : str) (readiness : TransportReadiness)
    : SendAdmission :=
  if connected readiness && negb (handoff_active readiness)
     && bool_decide (subscribed_channel_id readiness = Some channel_id)
  then DispatchNow else QueueUntilSubscribed.

Definition sproyt_admit_persisted_send (connected channel_matches handoff_active : N) : N :=
  match admit_persisted_send (lit "channel")
          {| connected := negb (connected =? 0)%N;
             subscribed_channel_id :=
               if negb (channel_matches =? 0)%N then Some (lit "channel") else None;
             handoff_active := negb (handoff_active =? 0)%N |} with
  | QueueUntilSubscribed => 0
  | DispatchNow => 1
  end.

(** ** The durable-send state machine *)

Inductive DurableSendState : Type :=
  | Persisting | Queued | Dispatching | Uncertain | Acknowledged | Rejected.

Inductive DurableSendEvent : Type :=
  | Persisted (admission : SendAdmission)
  | DispatchFailed
  | SocketLost
  | EventAcknowledged
  | EventRejected.

Definition transition (state : DurableSendState) (event : DurableSendEvent)
    : DurableSendState :=
  match state, event with
  | Persisting, Persisted DispatchNow
  | Queued, Persisted DispatchNow => Dispatching
  | Persisting, Persisted QueueUntilSubscribed
  | Dispatching, (DispatchFailed | SocketLost)
  | Uncertain, (DispatchFailed | SocketLost) => Queued
  | (Dispatching | Uncertain), EventAcknowledged => Acknowledged
  | (Dispatching | Uncertain), EventRejected => Rejected
  | _, _ => state
  end.

(** ** Session policy *)

Inductive RefreshOutcome : Type := Rotated | RetryableFailure | AuthenticationRejected.
Inductive CurrentSession : Type :=
  | NotChecked | SessionValid | SessionAuthenticationRejected | SessionRetryableFailure.
Inductive RefreshDisposition : Type :=
  | ScheduleServerDeadline | RetryShortly | RetryAfterAuthenticationRejection.

Definition refresh_disposition (outcome : RefreshOutcome) : RefreshDisposition :=
  match outcome with
  | Rotated => ScheduleServerDeadline
  | RetryableFailure => RetryShortly
  | AuthenticationRejected => RetryAfterAuthenticationRejection
  end.

Inductive RecoveryDecision : Type :=
  | SessionRotated | WaitForNetwork | ProbeCurrentSession | UseCurrentSession
  | WaitForReauthentication | RequireLogin.

Definition recovery_decision (refresh : RefreshOutcome) (current_session : CurrentSession)
    (foreground recently_active : bool) : RecoveryDecision :=
  match refresh with
  | Rotated => SessionRotated
  | RetryableFailure => WaitForNetwork
  | AuthenticationRejected =>
      match current_session with
      | NotChecked => ProbeCurrentSession
      | SessionValid => UseCurrentSession
      | SessionRetryableFailure => WaitForNetwork
      | SessionAuthenticationRejected =>
          if foreground && recently_active then WaitForReauthentication else RequireLogin
      end
  end.

Inductive SessionProbe : Type :=
  | ProbeValid | ProbeAuthenticationRejected | ProbeRetryableFailure.
Inductive StartDecision : Type :=
  | StartScheduleServerDeadline | StartRefreshNow | StartRetryShortly.

Definition start_decision (probe : SessionProbe) : StartDecision :=
  match probe with
  | ProbeValid => StartScheduleServerDeadline
  | ProbeAuthenticationRejected => StartRefreshNow
  | ProbeRetryableFailure => StartRetryShortly
  end.

(** ** The integer ABI *)

Definition refresh_outcome_from_abi (value : N) : RefreshOutcome :=
  match value with
  | 0%N => Rotated | 2%N => AuthenticationRejected | _ => RetryableFailure
  end.
Definition refresh_disposition_to_abi (value : RefreshDisposition) : N :=
  match value with
  | ScheduleServerDeadline => 0 | RetryShortly => 1 | RetryAfterAuthenticationRejection => 2
  end.
Definition current_session_from_abi (value : N) : CurrentSession :=
  match value with
  | 1%N => SessionValid | 2%N => SessionAuthenticationRejected
  | 3%N => SessionRetryableFailure | _ => NotChecked
  end.
Definition recovery_decision_to_abi (value : RecoveryDecision) : N :=
  match value with
  | SessionRotated => 0 | WaitForNetwork => 1 | ProbeCurrentSession => 2
  | UseCurrentSession => 3 | WaitForReauthentication => 4 | RequireLogin => 5
  end.
Definition start_decision_to_abi (value : StartDecision) : N :=
  match value with
  | StartScheduleServerDeadline => 0 | StartRefreshNow => 1 | StartRetryShortly => 2
  end.

Definition sproyt_refresh_disposition (refresh_outcome : N) : N :=
  refresh_disposition_to_abi (refresh_disposition (refresh_outcome_from_abi refresh_outcome)).
Definition sproyt_recovery_decision
    (refresh_outcome current_session foreground recently_active : N) : N :=
  recovery_decision_to_abi (recovery_decision
    (refresh_outcome_from_abi refresh_outcome) (current_session_from_abi current_session)
    (negb (foreground =? 0)%N) (negb (recently_active =? 0)%N)).
Definition sproyt_start_session_decision (probe : N) : N :=
  let probe := match refresh_outcome_from_abi probe with
               | Rotated => ProbeValid
               | AuthenticationRejected => ProbeAuthenticationRejected
               | RetryableFailure => ProbeRetryableFailure
               end in
  start_decision_to_abi (start_decision probe).

(** ** Runs of the durable-send machine *)

Definition send_step (s s' : DurableSendState) : Prop := ∃ e, s' = transition s e.
Definition run_events (s : DurableSendState) (es : list DurableSendEvent)
  : DurableSendState := foldl transition s es.
Definition terminal (s : DurableSendState) : bool :=
  match s with Acknowledged | Rejected => true | _ => false end.

#[export] Instance DurableSendState_eq_dec : EqDecision DurableSendState.
Proof. solve_decision. Defined.

Lemma run_events_terminal s es : terminal s = true → run_events s es = s.
Proof. induction es as [|e es IH] using rev_ind; intros Hs; [done|].
  unfold run_events. rewrite foldl_app. fold (run_events s es). rewrite IH by done.
  by destruct s, e as [[]| | | |]. Qed.

(** A durable send is settled only by the server: along any run of events
    from the moment it is persisted, if it ends acknowledged (rejected) then the
    run contains an acknowledgement (rejection) received right in the
    dispatching state, and everything after that leaves it unchanged. *)
Theorem durable_send_settled_by_receipt (es : list DurableSendEvent) :
  terminal (run_events Persisting es) = true →
  ∃ before e after, es = before ++ e :: after
    ∧ run_events Persisting before = Dispatching
    ∧ (e = EventAcknowledged ∧ run_events Persisting es = Acknowledged
       ∨ e = EventRejected ∧ run_events Persisting es = Rejected).
Proof.
  induction es as [|e es IH] using rev_ind; [done|]. unfold run_events in *.
  rewrite foldl_app. simpl. intros Ht.
  destruct (terminal (foldl transition Persisting es)) eqn:Hes.
  - destruct (IH eq_refl) as (b & e' & a & -> & Hb & Hcase).
    exists b, e', (a ++ [e]). rewrite <- app_assoc. split_and!; [done|done|].
    destruct Hcase as [[-> ->]|[-> ->]]; [left|right]; by destruct e as [[]| | | |].
  - exists es, e, [].
    assert (foldl transition Persisting es ≠ Uncertain) as Hu.
    { clear. induction es as [|e es IH] using rev_ind; [done|]. rewrite foldl_app. simpl.
      destruct (foldl transition Persisting es), e as [[]| | | |]; done. }
    destruct (foldl transition Persisting es), e as [[]| | | |]; simplify_eq/=; naive_solver.
Qed.

Lemma durable_send_settled_by_receipt_witness :
  ∃ before e after,
    [Persisted DispatchNow; SocketLost; Persisted DispatchNow; EventAcknowledged]
      = before ++ e :: after
    ∧ run_events Persisting before = Dispatching
    ∧ (e = EventAcknowledged ∧ Acknowledged = Acknowledged
       ∨ e = EventRejected ∧ Acknowledged = Rejected).
Proof.
  exact (durable_send_settled_by_receipt
    [Persisted DispatchNow; SocketLost; Persisted DispatchNow; EventAcknowledged] eq_refl).
Defined.

(** No send is ever stuck or lost: from every state reachable from
    [Persisting] that is not terminal, losing the socket, being re-admitted and
    getting a receipt leads to [Acknowledged]; a lost socket or failed dispatch
    never leaves it dispatching. The state [Uncertain] is unreachable. *)
Theorem durable_send_recoverable (s : DurableSendState) :
  rtc send_step Persisting s →
  s ≠ Uncertain
  ∧ transition s SocketLost ≠ Dispatching ∧ transition s DispatchFailed ≠ Dispatching
  ∧ (terminal s = false →
     run_events s [SocketLost; Persisted DispatchNow; EventAcknowledged] = Acknowledged).
Proof.
  intros Hr. assert (s ≠ Uncertain) as Hu.
  { refine (rtc_ind_r (R := send_step) (λ s, s ≠ Uncertain) Persisting _ _ s Hr); [done|].
    intros y z _ [e ->] Hy. by destruct y, e as [[]| | | |]. }
  split; [done|]. by destruct s.
Qed.

Lemma durable_send_recoverable_witness :
  Queued ≠ Uncertain ∧ transition Queued SocketLost ≠ Dispatching
  ∧ transition Queued DispatchFailed ≠ Dispatching
  ∧ (terminal Queued = false →
     run_events Queued [SocketLost; Persisted DispatchNow; EventAcknowledged] = Acknowledged).
Proof.
  refine (durable_send_recoverable Queued (rtc_once _ _ _)).
  exists (Persisted QueueUntilSubscribed). reflexivity.
Defined.

(** A [bool] and the [u32] that encodes it. *)
Lemma flag_abi (b : bool) (n : N) : (b = true ↔ n ≠ 0%N) → b = negb (n =? 0)%N.
Proof. destruct b, (N.eqb_spec n 0); simpl; intuition congruence. Qed.

(** The WebAssembly export decides exactly what the native policy decides:
    for every channel, readiness and encoding of its flags as [u32]s, it returns
    1 when the native call dispatches and 0 when it queues; and dispatching
    needs an open socket, no handoff and a subscription to that very channel. *)
Theorem admission_abi_faithful (channel_id : str) (r : TransportReadiness) (c m h : N) :
  (connected r = true ↔ c ≠ 0%N) →
  (subscribed_channel_id r = Some channel_id ↔ m ≠ 0%N) →
  (handoff_active r = true ↔ h ≠ 0%N) →
  (sproyt_admit_persisted_send c m h = 1%N ↔ admit_persisted_send channel_id r = DispatchNow)
  ∧ (sproyt_admit_persisted_send c m h = 0%N
     ↔ admit_persisted_send channel_id r = QueueUntilSubscribed)
  ∧ (admit_persisted_send channel_id r = DispatchNow
     ↔ connected r = true ∧ handoff_active r = false
       ∧ subscribed_channel_id r = Some channel_id).
Proof.
  intros Hc Hm Hh. unfold sproyt_admit_persisted_send, admit_persisted_send. simpl.
  rewrite <- (flag_abi _ _ Hc), <- (flag_abi _ _ Hh).
  rewrite <- (flag_abi (bool_decide (subscribed_channel_id r = Some channel_id)) m)
    by by rewrite bool_decide_eq_true.
  destruct (connected r), (handoff_active r),
    (decide (subscribed_channel_id r = Some channel_id)) as [Hd|Hd]; simpl;
    rewrite ?(bool_decide_eq_true_2 _ Hd), ?(bool_decide_eq_false_2 _ Hd); simpl;
    split_and!; split; intros; destruct_and?; done.
Qed.

Lemma admission_abi_faithful_witness :
  sproyt_admit_persisted_send 1 7 0 = 1%N
  ↔ admit_persisted_send (lit "prat")
      {| connected := true; subscribed_channel_id := Some (lit "prat");
         handoff_active := false |} = DispatchNow.
Proof.
  refine (proj1 (admission_abi_faithful (lit "prat")
    {| connected := true; subscribed_channel_id := Some (lit "prat");
       handoff_active := false |} 1 7 0 _ _ _)); done.
Defined.

(** A login is forced only on explicit evidence: for every [u32] input the
    exported recovery decision is [5] (require login) exactly when the refresh
    was rejected (2), the current session was probed and rejected (2), and the
    user is not both in the foreground and recently active; a network failure in
    either step always waits for the network (1). *)
Theorem login_only_when_rejected (refresh session foreground active : N) :
  (sproyt_recovery_decision refresh session foreground active = 5%N ↔
     refresh = 2%N ∧ session = 2%N ∧ (foreground = 0%N ∨ active = 0%N))
  ∧ (refresh ≠ 0%N → refresh ≠ 2%N →
     sproyt_recovery_decision refresh session foreground active = 1%N)
  ∧ sproyt_recovery_decision 2 3 foreground active = 1%N
  ∧ (sproyt_refresh_disposition refresh = 0%N ↔ refresh = 0%N)
  ∧ (sproyt_start_session_decision refresh = 1%N ↔ refresh = 2%N).
Proof.
  assert (refresh = 0%N ∨ refresh = 2%N ∨
    refresh_outcome_from_abi refresh = RetryableFailure ∧ refresh ≠ 0%N ∧ refresh ≠ 2%N)
    as [->|[->|(Hr & ? & ?)]]
    by (destruct refresh as [|[|[]|]]; auto).
  - split_and!; try done; split; intros; destruct_and?; done.
  - unfold sproyt_recovery_decision. simpl.
    assert (session = 2%N ∨ current_session_from_abi session ≠ SessionAuthenticationRejected)
      as [->|Hs] by (destruct session as [|[[]|[]|]]; auto).
    + destruct (N.eqb_spec foreground 0), (N.eqb_spec active 0); simpl; subst;
        split_and!; try done; split; intros; destruct_and?; auto; try done.
      destruct_or?; done.
    + split_and!; try done.
      split; [by destruct (current_session_from_abi session)|].
      intros (_ & -> & _). by destruct Hs.
  - unfold sproyt_recovery_decision, sproyt_refresh_disposition,
      sproyt_start_session_decision. rewrite Hr.
    simpl. split_and!; try done; split; intros; destruct_and?; done.
Qed.
