(* ===== verification/RepoState.v ===== *)
(** * RepoState: the state of the chat repository

    Models the data of [src/domain/repository.rs]: the error type, the state
    behind [InMemoryChatRepository] (the reference implementation of the
    [ChatRepository] contract) with its private helpers, and the previews of
    thread roots. A method of the repository is a function of type [Repo A]: it
    runs under the state's mutex, so it is one atomic step. Generated values
    (UUIDs, random secrets) and the clock are arguments of the methods that read
    them. *)

From Stdlib Require Import ZifyBool.
From stdpp Require Import base tactics numbers strings countable sorting gmap list.
From S2P Require Import Prelude RustStr Text Ids Models Policy.

(** ** Errors *)

Inductive RepositoryError : Type :=
  | Quota | Conflict | NotFound | PermissionDenied | Storage (message : str).
#[export] Instance RepositoryError_eq_dec : EqDecision RepositoryError.
Proof. solve_decision. Defined.

Definition RepositoryError_kind (e : RepositoryError) : string :=
  match e with
  | Quota => "quota" | Conflict => "conflict" | NotFound => "not_found"
  | PermissionDenied => "permission_denied" | Storage _ => "storage"
  end.
Definition RepositoryError_public_message (e : RepositoryError) : string :=
  match e with
  | Quota => "media storage budget is full" | Conflict => "resource conflict"
  | NotFound => "resource not found" | PermissionDenied => "permission denied"
  | Storage _ => "internal storage error"
  end.

(** [impl fmt::Display for TextValidationError] *)
Definition TextValidationError_fmt (e : TextValidationError) : str :=
  match e with
  | Empty field => lit field ++ lit " cannot be empty"
  | InvalidSlug =>
      lit "channel slug can only contain lowercase letters, numbers, '-' and '_'"
  | InvalidHandle => lit "handle can only contain letters, numbers, '.', '-' and '_'"
  | InvalidSequence => lit "channel sequence cannot be negative"
  | InvalidCircleName => lit "circle name must contain 1 to 120 characters"
  | InvalidReaction => lit "reaction emoji is not supported"
  | SequenceOverflow => lit "channel sequence is exhausted"
  | InvalidUuid field => lit field ++ lit " must be a UUID"
  | TooLarge field max => lit field ++ lit " cannot exceed " ++ fmt_dec max ++ lit " bytes"
  end.
Definition storage_of_text (e : TextValidationError) : RepositoryError :=
  Storage (TextValidationError_fmt e).

(** ** State *)

Record StoredEnrollmentInvitation : Type := mk_StoredEnrollmentInvitation {
  stored_invitation : EnrollmentInvitation;
  expected_email_hash : list N;
  consumed_by : option UserId }.

(** The fields of [RepositoryState], in order, and after them the [circle_updates]
    sender of [InMemoryChatRepository], as the number of notifications sent. *)
Record RepositoryState : Type := mk_RepositoryState {
  circles : gmap CircleId Circle;
  circles_by_slug : gmap ChannelSlug CircleId;
  circle_memberships : gmap (CircleId * UserId) CircleMembership;
  favorite_circles : gset (CircleId * UserId);
  circle_invitations : gmap (list N) CircleInvitation;
  enrollment_invitations : gmap (list N) StoredEnrollmentInvitation;
  channels : gmap ChannelId Channel;
  channels_by_slug : gmap ChannelSlug ChannelId;
  channel_descriptions : gmap ChannelId str;
  personal_spaces : gmap UserId (ChannelId * PersonalNote);
  personal_saved_links : gmap (UserId * MessageId) MessageId;
  direct_conversations : gmap (UserId * UserId) ChannelId;
  direct_group_conversations : gmap ChannelId ChannelId;
  direct_expansions : gmap (ChannelId * UserId) ChannelId;
  memberships : gmap (ChannelId * UserId) Membership;
  messages : gmap ChannelId (list ChatMessage);
  next_sequences : gmap ChannelId ChannelSequence;
  users : gmap UserId User;
  signup_ordinals : gmap UserId N;
  next_signup_ordinal : N;
  saved_emojis : gmap UserId (list str);
  saved_statuses : gmap UserId (list SavedStatus);
  user_statuses : gmap UserId (str * str * option DateTime);
  media : gmap MediaId (MediaObject * list N);
  media_previews : gmap MediaId MediaVariant;
  command_receipts : gmap (UserId * str) MessageId;
  message_reactions : gset (MessageId * UserId * str);
  thread_read_markers : gmap (MessageId * UserId) ChannelSequence;
  circle_updates : nat }.

#[export] Instance RepositoryState_eta : Eta RepositoryState := λ s,
  mk_RepositoryState (circles s) (circles_by_slug s) (circle_memberships s)
    (favorite_circles s) (circle_invitations s) (enrollment_invitations s) (channels s)
    (channels_by_slug s) (channel_descriptions s) (personal_spaces s)
    (personal_saved_links s) (direct_conversations s) (direct_group_conversations s)
    (direct_expansions s) (memberships s) (messages s) (next_sequences s) (users s)
    (signup_ordinals s) (next_signup_ordinal s) (saved_emojis s) (saved_statuses s)
    (user_statuses s) (media s) (media_previews s) (command_receipts s)
    (message_reactions s) (thread_read_markers s) (circle_updates s).

(** [InMemoryChatRepository::default] *)
Definition RepositoryState_default : RepositoryState :=
  mk_RepositoryState ∅ ∅ ∅ ∅ ∅ ∅ ∅ ∅ ∅ ∅ ∅ ∅ ∅ ∅ ∅ ∅ ∅ ∅ ∅ 0 ∅ ∅ ∅ ∅ ∅ ∅ ∅ ∅ 0.

Definition Repo (A : Type) : Type := ST RepositoryState RepositoryError A.

(** ** Access to messages *)

(** [state.messages.values().flatten()] *)
Definition all_messages (st : RepositoryState) : list ChatMessage := concat (values (messages st)).

(** [state.messages.get(&channel_id).into_iter().flatten()] *)
Definition channel_messages (st : RepositoryState) (c : ChannelId) : list ChatMessage :=
  default [] (messages st !! c).

(** [state.messages.values().flatten().find(p)], with the key of the list it is in. *)
Fixpoint find_in_entries (p : ChatMessage → bool) (entries : list (ChannelId * list ChatMessage))
    : option (ChannelId * ChatMessage) :=
  match entries with
  | [] => None
  | (c, ms) :: entries' =>
      match find_first p ms with Some m => Some (c, m) | None => find_in_entries p entries' end
  end.
Definition find_message_entry (p : ChatMessage → bool) (st : RepositoryState)
  : option (ChannelId * ChatMessage) := find_in_entries p (map_to_list (messages st)).
Definition find_message (p : ChatMessage → bool) (st : RepositoryState) : option ChatMessage :=
  snd <$> find_message_entry p st.
Definition has_id (id : MessageId) (m : ChatMessage) : bool := bool_decide (ChatMessage_id m = id).

(** The mutation through [values_mut().flatten().find(p)]. *)
Definition modify_message (c : ChannelId) (p : ChatMessage → bool)
    (f : ChatMessage → ChatMessage) (st : RepositoryState) : RepositoryState :=
  st <| messages := alter (modify_first p f) c (messages st) |>.

(** [state.messages.entry(c).or_default().push(m)] *)
Definition push_message (c : ChannelId) (m : ChatMessage) (st : RepositoryState)
  : RepositoryState := st <| messages := <[c := channel_messages st c ++ [m]]> (messages st) |>.

(** The sequence of the last message of a channel, 0 without messages. *)
Definition last_sequence (st : RepositoryState) (c : ChannelId) : ChannelSequence :=
  match last (channel_messages st c) with
  | Some m => ChatMessage_sequence m
  | None => ChannelSequence_new 0
  end.

(** [persisted_now]: the clock truncated to microseconds. *)
Definition persisted_now (now : DateTime) : DateTime := (now / 1000 * 1000)%Z.

(** ** Helpers of [RepositoryState] *)

Definition resolve_channel_ref (st : RepositoryState) (channel : ChannelRef)
    : Res RepositoryError ChannelId :=
  match channel with
  | ChannelRef_Id channel_id =>
      if contains_key channel_id (channels st) then Ok channel_id else Err NotFound
  | ChannelRef_Slug slug => ok_or (channels_by_slug st !! slug) NotFound
  end.

Definition next_sequence (channel_id : ChannelId) : Repo ChannelSequence :=
  let! st := get in
  let! sequence := st_lift (map_err storage_of_text
    match next_sequences st !! channel_id with
    | None => Ok ChannelSequence_first
    | Some sequence => ChannelSequence_checked_next sequence
    end) in
  put (st <| next_sequences := <[channel_id := sequence]> (next_sequences st) |>) ;;;
  st_ret sequence.

Definition is_human (st : RepositoryState) (u : UserId) : bool :=
  match users st !! u with
  | Some user => bool_decide (User_kind user = Human)
  | None => false
  end.

(** ** Personal channels and saved links *)

Section ids.
Context `{Unicode, UuidLib}.

(** [personal_channel]: the slug and the name are parsed with [expect]. The name
    is "Området mitt". *)
Definition personal_channel (id : ChannelId) (owner : UserId) : Res RepositoryError Channel :=
  let? slug := expect (ChannelSlug_new (lit "personal-" ++ uuid_simple (ChannelId_as_uuid id))) in
  let? name := expect (DisplayName_new (lit "Omr" ++ [229%N] ++ lit "det mitt")) in
  Ok {| Channel_slug := slug; Channel_name := name; Channel_kind := Private;
        Channel_circle_id := None; Channel_id := id; Channel_created_by := owner |}.

Definition personal_link_body (channel_id : ChannelId) (message_id : MessageId)
    (sequence : ChannelSequence) (parent_id : option MessageId)
    : Res RepositoryError MessageBody :=
  let link := lit "/?channel=" ++ uuid_display (ChannelId_as_uuid channel_id)
              ++ lit "&message=" ++ uuid_display (MessageId_as_uuid message_id)
              ++ lit "&sequence=" ++ fmt_dec (seq_u64 sequence)
              ++ match parent_id with
                 | Some parent_id => lit "&thread=" ++ uuid_display (MessageId_as_uuid parent_id)
                 | None => []
                 end in
  expect (MessageBody_new (lit "[[[Lagra melding](" ++ link ++ lit ")]]")).
End ids.

(** ** Thread root previews *)

Record ThreadRootPreview : Type := mk_ThreadRootPreview {
  ThreadRootPreview_id : MessageId;
  ThreadRootPreview_author : option str;
  ThreadRootPreview_preview : str;
  ThreadRootPreview_sent_at : option DateTime;
  ThreadRootPreview_deleted : bool }.

(** The [while let Some(start) = input.find("[[")] loop. Every round drops at
    least the two characters it matched, so [length input] rounds are enough. *)
Fixpoint preview_loop (fuel : nat) (text input : str) : str :=
  match fuel with
  | O => text ++ input
  | S fuel =>
      match split_once input (lit "[[") with
      | None => text ++ input
      | Some (before, tail) =>
          let text := text ++ before
            ++ (if starts_with tail (lit "media:") then lit " Vedlegg " else lit " Innhald ") in
          preview_loop fuel text
            match split_once tail (lit "]]") with Some (_, rest) => rest | None => [] end
      end
  end.

Definition ThreadRootPreview_from_parts (id : MessageId) (author body : option str)
    (sent_at : option DateTime) (deleted : bool) : ThreadRootPreview :=
  if deleted then mk_ThreadRootPreview id None (lit "Meldinga er sletta") None deleted
  else
    let input := default [] body in
    let text := preview_loop (length input) [] input in
    let normalized := join (lit " ") (split_whitespace text) in
    let preview := take 180 normalized ++ (if decide (drop 180 normalized = []) then [] else [8230%N]) in
    let preview := if decide (preview = []) then lit "Innhald" else preview in
    mk_ThreadRootPreview id author preview sent_at deleted.
