(* ===== verification/RepoMessages.v ===== *)
(** * RepoMessages: messages, threads, reactions and read markers

    The message operations of [InMemoryChatRepository]
    ([src/domain/repository.rs]), one definition per method. *)

From Stdlib Require Import ZifyBool.
From stdpp Require Import base tactics numbers strings countable sorting gmap list.
From S2P Require Import Prelude RustStr Text Ids Models Policy RepoState.

(** The role of a user in a channel: [memberships.get(..).map(|m| &m.role)]. *)
Definition role_in (st : RepositoryState) (c : ChannelId) (u : UserId) : option MembershipRole :=
  Membership_role <$> memberships st !! (c, u).

(** ** Reading *)

Definition load_recent_messages (query : LoadRecentMessages) : Repo (list ChatMessage) :=
  let! st := get in
  let role := role_in st (LoadRecentMessages_channel_id query) (LoadRecentMessages_actor query) in
  ensure (can_read_channel role) PermissionDenied ;;;
  let limit := N.to_nat (MessageLimit_usize (LoadRecentMessages_limit query)) in
  ensure (negb (bool_decide (is_Some (LoadRecentMessages_after query))
                && bool_decide (is_Some (LoadRecentMessages_before query)))) Conflict ;;;
  let msgs := channel_messages st (LoadRecentMessages_channel_id query) in
  let msgs := List.filter (λ m, match LoadRecentMessages_after query with
                                | None => true
                                | Some after => seq_lt after (ChatMessage_sequence m)
                                end) msgs in
  let msgs := List.filter (λ m, match LoadRecentMessages_before query with
                                | None => true
                                | Some before => seq_lt (ChatMessage_sequence m) before
                                end) msgs in
  if decide (is_Some (LoadRecentMessages_after query)) then st_ret (take limit msgs)
  else st_ret (drop (length msgs - limit) msgs).

Definition load_message (id : MessageId) : Repo ChatMessage :=
  let! st := get in
  st_lift (ok_or (find_message (has_id id) st) NotFound).

Definition latest_sequence (channel_id : ChannelId) : Repo ChannelSequence :=
  gets (λ st, last_sequence st channel_id).

(** ** Writing *)

(** The parent of a reply is a live root message of the same channel. *)
Definition check_parent (st : RepositoryState) (c : ChannelId) (parent : option MessageId)
    : Res RepositoryError unit :=
  match parent with
  | None => Ok tt
  | Some parent_id =>
      let? parent := ok_or (find_first (has_id parent_id) (channel_messages st c)) NotFound in
      if bool_decide (is_Some (ChatMessage_parent_message_id parent))
         || bool_decide (is_Some (ChatMessage_deleted_at parent))
      then Err Conflict else Ok tt
  end.

(** [id] is the generated message identifier, [now] the clock. *)
Definition append_message (id : MessageId) (now : DateTime) (command : SendMessage)
    : Repo ChatMessage :=
  let! st := get in
  let role := role_in st (SendMessage_channel_id command) (SendMessage_actor command) in
  ensure (can_send_to_channel role) PermissionDenied ;;;
  st_lift (check_parent st (SendMessage_channel_id command)
             (SendMessage_parent_message_id command)) ;;;
  let! next := next_sequence (SendMessage_channel_id command) in
  let! sender_display_name := st_lift (ok_or
    (User_display_name <$> users st !! SendMessage_actor command) NotFound) in
  let message := {|
    ChatMessage_id := id;
    ChatMessage_channel_id := SendMessage_channel_id command;
    ChatMessage_parent_message_id := SendMessage_parent_message_id command;
    ChatMessage_sender_id := SendMessage_actor command;
    ChatMessage_sender_display_name := sender_display_name;
    ChatMessage_body := SendMessage_body command;
    ChatMessage_sequence := next;
    ChatMessage_sent_at := persisted_now now;
    ChatMessage_edited_at := None;
    ChatMessage_deleted_at := None |} in
  modify (push_message (SendMessage_channel_id command) message) ;;;
  st_ret message.

Definition append_message_idempotent (id : MessageId) (now : DateTime)
    (command : SendMessage) (request_id : str) : Repo ChatMessage :=
  let! st := get in
  let key := (SendMessage_actor command, request_id) in
  match command_receipts st !! key with
  | Some message_id =>
      let! message := st_lift (ok_or (find_message (has_id message_id) st) NotFound) in
      ensure (negb (bool_decide (ChatMessage_channel_id message ≠ SendMessage_channel_id command)
              || bool_decide (ChatMessage_parent_message_id message
                              ≠ SendMessage_parent_message_id command)
              || bool_decide (ChatMessage_body message ≠ SendMessage_body command))) Conflict ;;;
      st_ret message
  | None =>
      let role := role_in st (SendMessage_channel_id command) (SendMessage_actor command) in
      ensure (can_send_to_channel role) PermissionDenied ;;;
      st_lift (check_parent st (SendMessage_channel_id command)
                 (SendMessage_parent_message_id command)) ;;;
      let! next := next_sequence (SendMessage_channel_id command) in
      let! sender_display_name := st_lift (ok_or
        (User_display_name <$> users st !! SendMessage_actor command) NotFound) in
      let message := {|
        ChatMessage_id := id;
        ChatMessage_channel_id := SendMessage_channel_id command;
        ChatMessage_parent_message_id := SendMessage_parent_message_id command;
        ChatMessage_sender_id := SendMessage_actor command;
        ChatMessage_sender_display_name := sender_display_name;
        ChatMessage_body := SendMessage_body command;
        ChatMessage_sequence := next;
        ChatMessage_sent_at := persisted_now now;
        ChatMessage_edited_at := None;
        ChatMessage_deleted_at := None |} in
      modify (λ st, st <| command_receipts := <[key := id]> (command_receipts st) |>) ;;;
      modify (push_message (SendMessage_channel_id command) message) ;;;
      st_ret message
  end.

Definition edit_message (now : DateTime) (command : EditMessage) : Repo ChatMessage :=
  let! st := get in
  let p := has_id (EditMessage_message_id command) in
  let! (c, message) := st_lift (ok_or (find_message_entry p st) NotFound) in
  ensure (bool_decide (ChatMessage_sender_id message = EditMessage_actor command))
    PermissionDenied ;;;
  ensure (negb (bool_decide (is_Some (ChatMessage_deleted_at message)))) Conflict ;;;
  let edit m := m <| ChatMessage_body := EditMessage_body command |>
                  <| ChatMessage_edited_at := Some (persisted_now now) |> in
  modify (modify_message c p edit) ;;;
  st_ret (edit message).

(** The static text of a deleted message. *)
Definition tombstone : str := lit "Meldinga er sletta.".

(** [allowed] in [delete_message]: the sender, a moderator of the channel, or a
    moderator of the circle of a channel that is not private, where they may also
    send. *)
Definition may_delete (st : RepositoryState) (actor : UserId) (original : ChatMessage) : bool :=
  let membership := memberships st !! (ChatMessage_channel_id original, actor) in
  let circle_moderates :=
    match channels st !! ChatMessage_channel_id original with
    | Some channel =>
        bool_decide (Channel_kind channel ≠ Private)
        && match Channel_circle_id channel with
           | Some id =>
               match CircleMembership_role <$> circle_memberships st !! (id, actor) with
               | Some (CircleRole_Owner | CircleRole_Moderator) => true
               | _ => false
               end
           | None => false
           end
    | None => false
    end in
  bool_decide (ChatMessage_sender_id original = actor)
  || match membership with
     | Some m => can_moderate_channel (Some (Membership_role m))
                 || circle_moderates && can_send_to_channel (Some (Membership_role m))
     | None => false
     end.

Definition delete_message (now : DateTime) (command : DeleteMessage) : Repo ChatMessage :=
  let! st := get in
  let p := has_id (DeleteMessage_message_id command) in
  let! (c, original) := st_lift (ok_or (find_message_entry p st) NotFound) in
  ensure (may_delete st (DeleteMessage_actor command) original) PermissionDenied ;;;
  if decide (ChatMessage_deleted_at original = None) then
    let! body := st_lift (expect (MessageBody_new tombstone)) in
    let delete m := m <| ChatMessage_body := body |>
                      <| ChatMessage_edited_at := None |>
                      <| ChatMessage_deleted_at := Some (persisted_now now) |> in
    modify (modify_message c p delete) ;;;
    modify (λ st, st <| message_reactions :=
      filter (λ r, r.1.1 ≠ DeleteMessage_message_id command) (message_reactions st) |>) ;;;
    st_ret (delete original)
  else st_ret original.

Definition mark_read (command : MarkRead) : Repo Membership :=
  let! st := get in
  let latest := last_sequence st (MarkRead_channel_id command) in
  ensure (negb (seq_lt latest (MarkRead_sequence command))) NotFound ;;;
  let key := (MarkRead_channel_id command, MarkRead_actor command) in
  let! membership := st_lift (ok_or (memberships st !! key) PermissionDenied) in
  let membership :=
    if seq_lt (Membership_last_read_sequence membership) (MarkRead_sequence command)
    then membership <| Membership_last_read_sequence := MarkRead_sequence command |>
    else membership in
  put (st <| memberships := <[key := membership]> (memberships st) |>) ;;;
  st_ret membership.

(** ** Threads *)

(** The root message of a thread: found by id among messages without a parent. *)
Definition is_root (root_message_id : MessageId) (m : ChatMessage) : bool :=
  bool_decide (ChatMessage_id m = root_message_id)
  && bool_decide (ChatMessage_parent_message_id m = None).
Definition replies_to (st : RepositoryState) (c : ChannelId) (root : MessageId)
  : list ChatMessage :=
  List.filter (λ m, bool_decide (ChatMessage_parent_message_id m = Some root))
    (channel_messages st c).

Definition load_thread (actor : UserId) (root_message_id : MessageId) : Repo (list ChatMessage) :=
  let! st := get in
  let! root := st_lift (ok_or (find_message (is_root root_message_id) st) NotFound) in
  ensure (contains_key (ChatMessage_channel_id root, actor) (memberships st)) PermissionDenied ;;;
  st_ret (root :: replies_to st (ChatMessage_channel_id root) root_message_id).

(** The [grouped] map of [list_thread_summaries]. *)
Definition group_replies (msgs : list ChatMessage) : gmap MessageId (list ChatMessage) :=
  foldl (λ g m, match ChatMessage_parent_message_id m with
                | Some root => <[root := default [] (g !! root) ++ [m]]> g
                | None => g
                end) ∅ msgs.

Definition live (m : ChatMessage) : bool := bool_decide (ChatMessage_deleted_at m = None).
Definition unread_by (actor : UserId) (last_read : ChannelSequence) (m : ChatMessage) : bool :=
  live m && seq_lt last_read (ChatMessage_sequence m)
  && bool_decide (ChatMessage_sender_id m ≠ actor).

Definition list_thread_summaries (actor : UserId) (channel_id : ChannelId)
    : Repo (list ThreadSummary) :=
  let! st := get in
  ensure (contains_key (channel_id, actor) (memberships st)) PermissionDenied ;;;
  let! summaries := st_lift (res_mapM (λ '(root_message_id, replies),
    let last_read := default (ChannelSequence_new 0)
                       (thread_read_markers st !! (root_message_id, actor)) in
    let? latest := match last replies with Some m => Ok m | None => Panic end in
    Ok {| ThreadSummary_root_message_id := root_message_id;
          ThreadSummary_reply_count := as_u32 (length (List.filter live replies));
          ThreadSummary_unread_count :=
            as_u32 (length (List.filter (unread_by actor last_read) replies));
          ThreadSummary_latest_sequence := ChatMessage_sequence latest |})
    (map_to_list (group_replies (channel_messages st channel_id)))) in
  st_ret (sort_by_key seq_le ThreadSummary_latest_sequence summaries).

Definition THREAD_ROOT_PREVIEW_BATCH_MAX : nat := 30.

Definition thread_root_previews (actor : UserId) (channel_id : ChannelId)
    (root_ids : list MessageId) : Repo (list ThreadRootPreview) :=
  ensure (negb (THREAD_ROOT_PREVIEW_BATCH_MAX <? length root_ids)) Conflict ;;;
  let! st := get in
  ensure (contains_key (channel_id, actor) (memberships st)) PermissionDenied ;;;
  let msgs := channel_messages st channel_id in
  let requested : gset MessageId := list_to_set root_ids in
  let roots_with_replies : gset MessageId :=
    list_to_set (omap ChatMessage_parent_message_id msgs) in
  let roots := List.filter (λ m, bool_decide (ChatMessage_parent_message_id m = None)
                                 && bool_decide (ChatMessage_id m ∈ requested)
                                 && bool_decide (ChatMessage_id m ∈ roots_with_replies)) msgs in
  st_ret ((λ m,
    let deleted := bool_decide (is_Some (ChatMessage_deleted_at m)) in
    ThreadRootPreview_from_parts (ChatMessage_id m)
      (if deleted then None else Some (DisplayName_as_str (ChatMessage_sender_display_name m)))
      (if deleted then None else Some (MessageBody_as_str (ChatMessage_body m)))
      (if deleted then None else Some (ChatMessage_sent_at m)) deleted) <$> roots).

Definition mark_thread_read (actor : UserId) (root_message_id : MessageId)
    (sequence : ChannelSequence) : Repo ThreadSummary :=
  let! st := get in
  let! root := st_lift (ok_or (find_message (is_root root_message_id) st) NotFound) in
  let channel_id := ChatMessage_channel_id root in
  ensure (contains_key (channel_id, actor) (memberships st)) PermissionDenied ;;;
  let replies := replies_to st channel_id root_message_id in
  let! latest := st_lift (ok_or (ChatMessage_sequence <$> last replies) NotFound) in
  ensure (negb (seq_lt latest sequence)) NotFound ;;;
  let key := (root_message_id, actor) in
  let marker := default (ChannelSequence_new 0) (thread_read_markers st !! key) in
  let marker := if seq_lt marker sequence then sequence else marker in
  put (st <| thread_read_markers := <[key := marker]> (thread_read_markers st) |>) ;;;
  st_ret {| ThreadSummary_root_message_id := root_message_id;
            ThreadSummary_reply_count := as_u32 (length (List.filter live replies));
            ThreadSummary_unread_count :=
              as_u32 (length (List.filter (unread_by actor marker) replies));
            ThreadSummary_latest_sequence := latest |}.

(** ** Reactions *)

Definition group_reactions (ids : gset MessageId) (rs : list (MessageId * UserId * str))
    : gmap (MessageId * str) (list UserId) :=
  foldl (λ g '(message_id, user_id, emoji),
           if decide (message_id ∈ ids)
           then <[(message_id, emoji) := default [] (g !! (message_id, emoji)) ++ [user_id]]> g
           else g) ∅ rs.

Definition reaction_cmp (l r : MessageReactionSummary) : comparison :=
  then_with (MessageId_as_uuid (MessageReactionSummary_message_id l)
             ?= MessageId_as_uuid (MessageReactionSummary_message_id r))%N
    (str_cmp (MessageReactionSummary_emoji l) (MessageReactionSummary_emoji r)).

Definition list_channel_reactions (actor : UserId) (channel_id : ChannelId)
    : Repo (list MessageReactionSummary) :=
  let! st := get in
  ensure (contains_key (channel_id, actor) (memberships st)) PermissionDenied ;;;
  let message_ids : gset MessageId :=
    list_to_set (ChatMessage_id <$> channel_messages st channel_id) in
  let grouped := group_reactions message_ids (elements (message_reactions st)) in
  let summaries := (λ '((message_id, emoji), user_ids),
    let user_ids := merge_sort UserId_le user_ids in
    {| MessageReactionSummary_message_id := message_id;
       MessageReactionSummary_emoji := emoji;
       MessageReactionSummary_count := as_u32 (length user_ids);
       MessageReactionSummary_reacted_by_me := bool_decide (actor ∈ user_ids);
       MessageReactionSummary_user_ids := user_ids |}) <$> map_to_list grouped in
  st_ret (sort_by reaction_cmp summaries).

Definition toggle_message_reaction (actor : UserId) (message_id : MessageId) (emoji : str)
    : Repo MessageReactionChange :=
  let! st := get in
  let! message := st_lift (ok_or (find_message (has_id message_id) st) NotFound) in
  ensure (negb (bool_decide (is_Some (ChatMessage_deleted_at message)))) Conflict ;;;
  let channel_id := ChatMessage_channel_id message in
  ensure (contains_key (channel_id, actor) (memberships st)) PermissionDenied ;;;
  let key := (message_id, actor, emoji) in
  let added := negb (bool_decide (key ∈ message_reactions st)) in
  let reactions := if added then {[key]} ∪ message_reactions st
                   else message_reactions st ∖ {[key]} in
  put (st <| message_reactions := reactions |>) ;;;
  let count := as_u32 (size (filter (λ r, r.1.1 = message_id ∧ r.2 = emoji) reactions)) in
  st_ret {| MessageReactionChange_message_id := message_id;
            MessageReactionChange_channel_id := channel_id;
            MessageReactionChange_user_id := actor;
            MessageReactionChange_emoji := emoji;
            MessageReactionChange_added := added;
            MessageReactionChange_count := count |}.
