(* ===== verification/RepoChannels.v ===== *)
(** * RepoChannels: channels and memberships

    The channel operations of [InMemoryChatRepository]
    ([src/domain/repository.rs]): personal spaces, direct conversations, shared
    channels and their members. *)

From Stdlib Require Import ZifyBool.
From stdpp Require Import base tactics numbers strings countable sorting gmap list.
From S2P Require Import Prelude RustStr Text Ids Models Policy RepoState RepoMessages.

Definition new_member (c : ChannelId) (role : MembershipRole) (u : UserId) : Membership :=
  {| Membership_channel_id := c; Membership_user_id := u; Membership_role := role;
     Membership_last_read_sequence := ChannelSequence_new 0 |}.

Section channels.
Context `{Unicode, UuidLib}.

(** ** Personal spaces *)

(** [fresh] is the identifier [personal_channel] generates. *)
Definition open_personal_space (fresh : ChannelId) (owner : UserId) : Repo Channel :=
  let! st := get in
  ensure (is_human st owner) PermissionDenied ;;;
  match personal_spaces st !! owner with
  | Some (channel_id, _) => st_lift (ok_or (channels st !! channel_id) NotFound)
  | None =>
      let! channel := st_lift (personal_channel fresh owner) in
      modify (λ st, st <| channels := <[Channel_id channel := channel]> (channels st) |>) ;;;
      modify (λ st, st <| channels_by_slug :=
        <[Channel_slug channel := Channel_id channel]> (channels_by_slug st) |>) ;;;
      modify (λ st, st <| memberships :=
        <[(Channel_id channel, owner) :=
            {| Membership_channel_id := Channel_id channel; Membership_user_id := owner;
               Membership_role := MembershipRole_Member;
               Membership_last_read_sequence := ChannelSequence_default |}]> (memberships st) |>) ;;;
      modify (λ st, st <| personal_spaces :=
        <[owner := (Channel_id channel, mk_PersonalNote [] 0)]> (personal_spaces st) |>) ;;;
      st_ret channel
  end.

Definition personal_note (owner : UserId) : Repo PersonalNote :=
  let! st := get in
  st_lift (ok_or (snd <$> personal_spaces st !! owner) NotFound).

(** The revision is an [i64]: incrementing the largest one panics. *)
Definition save_personal_note (owner : UserId) (note : PersonalNote) : Repo PersonalNote :=
  let! st := get in
  let! (channel_id, current) := st_lift (ok_or (personal_spaces st !! owner) Conflict) in
  ensure (bool_decide (PersonalNote_revision current = PersonalNote_revision note)) Conflict ;;;
  if (PersonalNote_revision note <? i64_max)%Z then
    let saved := mk_PersonalNote (PersonalNote_markdown note) (PersonalNote_revision note + 1) in
    put (st <| personal_spaces := <[owner := (channel_id, saved)]> (personal_spaces st) |>) ;;;
    st_ret saved
  else panic.

(** [fresh_channel] is used when the personal space is opened by this call,
    [fresh] is the identifier of the new log message. *)
Definition save_personal_link (fresh_channel : ChannelId) (fresh : MessageId) (now : DateTime)
    (owner : UserId) (source_id : MessageId) : Repo (option MessageId) :=
  let! st := get in
  let! source := st_lift (ok_or (find_message (λ m,
    has_id source_id m && live m
    && contains_key (ChatMessage_channel_id m, owner) (memberships st)) st) NotFound) in
  let! channel := open_personal_space fresh_channel owner in
  let channel_id := Channel_id channel in
  let key := (owner, source_id) in
  let! st := get in
  if match personal_saved_links st !! key with
     | Some existing => any (λ m, has_id existing m && live m) (channel_messages st channel_id)
     | None => false
     end
  then st_ret None
  else
    let! name := st_lift (ok_or (User_display_name <$> users st !! owner) NotFound) in
    let! sequence := next_sequence channel_id in
    let! body := st_lift (personal_link_body (ChatMessage_channel_id source)
      (ChatMessage_id source) (ChatMessage_sequence source)
      (ChatMessage_parent_message_id source)) in
    let message := {|
      ChatMessage_id := fresh;
      ChatMessage_channel_id := channel_id;
      ChatMessage_parent_message_id := None;
      ChatMessage_sender_id := owner;
      ChatMessage_sender_display_name := name;
      ChatMessage_sequence := sequence;
      ChatMessage_body := body;
      ChatMessage_sent_at := persisted_now now;
      ChatMessage_edited_at := None;
      ChatMessage_deleted_at := None |} in
    modify (push_message channel_id message) ;;;
    modify (λ st, st <| personal_saved_links := <[key := fresh]> (personal_saved_links st) |>) ;;;
    st_ret (Some fresh).

(** ** Direct conversations *)

(** Register a channel under its slug and its identifier. *)
Definition insert_channel (channel : Channel) (st : RepositoryState) : RepositoryState :=
  st <| channels_by_slug := <[Channel_slug channel := Channel_id channel]> (channels_by_slug st) |>
     <| channels := <[Channel_id channel := channel]> (channels st) |>.

(** [for (user_id, role) in members { state.memberships.insert(..) }] *)
Definition insert_members (c : ChannelId) (members : list (UserId * MembershipRole))
    (ms : gmap (ChannelId * UserId) Membership) : gmap (ChannelId * UserId) Membership :=
  foldl (λ ms '(user_id, role), <[(c, user_id) := new_member c role user_id]> ms) ms members.

(** [fresh] and [fresh_slug] are the channel identifier and the UUID of the slug. *)
Definition open_direct_channel (fresh : ChannelId) (fresh_slug : Uuid)
    (actor other : UserId) : Repo Channel :=
  ensure (negb (bool_decide (actor = other))) Conflict ;;;
  let! st := get in
  let! other_user := st_lift (ok_or (users st !! other) NotFound) in
  ensure (contains_key actor (users st)) PermissionDenied ;;;
  let pair := if UserId_lt actor other then (actor, other) else (other, actor) in
  match direct_conversations st !! pair with
  | Some channel_id =>
      st_lift (ok_or (channels st !! channel_id) (Storage (lit "direct channel is missing")))
  | None =>
      let! slug := st_lift (map_err storage_of_text
        (ChannelSlug_new (lit "dm-" ++ uuid_simple fresh_slug))) in
      let channel := {|
        Channel_id := fresh; Channel_slug := slug;
        Channel_name := User_display_name other_user; Channel_kind := Private;
        Channel_circle_id := None; Channel_created_by := actor |} in
      modify (insert_channel channel) ;;;
      modify (λ st, st <| direct_conversations := <[pair := fresh]> (direct_conversations st) |>) ;;;
      modify (λ st, st <| memberships :=
        insert_members fresh [(actor, MembershipRole_Owner); (other, MembershipRole_Member)]
          (memberships st) |>) ;;;
      st_ret channel
  end.

Definition is_direct (st : RepositoryState) (c : ChannelId) : bool :=
  any (λ id, bool_decide (id = c)) (values (direct_conversations st))
  || contains_key c (direct_group_conversations st).

(** The members of a channel, in the order of the membership map. *)
Definition members_of (st : RepositoryState) (c : ChannelId) : list UserId :=
  Membership_user_id <$>
    List.filter (λ m, bool_decide (Membership_channel_id m = c)) (values (memberships st)).

Definition expand_direct_channel (fresh : ChannelId) (fresh_slug : Uuid) (actor : UserId)
    (source_channel_id : ChannelId) (other : UserId) : Repo Channel :=
  let! st := get in
  ensure (contains_key other (users st) && negb (bool_decide (other = actor))) NotFound ;;;
  ensure (contains_key (source_channel_id, actor) (memberships st)) PermissionDenied ;;;
  ensure (is_direct st source_channel_id) PermissionDenied ;;;
  ensure (negb (contains_key (source_channel_id, other) (memberships st))) Conflict ;;;
  match direct_expansions st !! (source_channel_id, other) with
  | Some channel_id =>
      st_lift (ok_or (channels st !! channel_id)
                 (Storage (lit "expanded direct channel is missing")))
  | None =>
      let participants := merge_sort UserId_le (members_of st source_channel_id ++ [other]) in
      let! names := st_lift (res_mapM (λ id,
        ok_or ((DisplayName_as_str ∘ User_display_name) <$> users st !! id) NotFound)
        participants) in
      let! slug := st_lift (map_err storage_of_text
        (ChannelSlug_new (lit "dm-group-" ++ uuid_simple fresh_slug))) in
      let! name := st_lift (map_err storage_of_text (DisplayName_new
        (if 3 <? length names
         then join (lit ", ") (take 3 names) ++ lit ", + " ++ fmt_dec (N.of_nat (length names - 3))
         else join (lit ", ") names))) in
      let channel := {|
        Channel_id := fresh; Channel_slug := slug; Channel_name := name;
        Channel_kind := Private; Channel_circle_id := None; Channel_created_by := actor |} in
      modify (insert_channel channel) ;;;
      modify (λ st, st <| direct_group_conversations :=
        <[fresh := source_channel_id]> (direct_group_conversations st) |>) ;;;
      modify (λ st, st <| direct_expansions :=
        <[(source_channel_id, other) := fresh]> (direct_expansions st) |>) ;;;
      modify (λ st, st <| memberships :=
        insert_members fresh ((λ u, (u, MembershipRole_Member)) <$> participants)
          (memberships st) |>) ;;;
      st_ret channel
  end.

(** ** Shared channels *)

(** The role of a user in a circle. *)
Definition circle_role_in (st : RepositoryState) (c : CircleId) (u : UserId) : option CircleRole :=
  CircleMembership_role <$> circle_memberships st !! (c, u).

(** The membership loop of [create_channel]: an occupied entry is overwritten
    only by an owner. *)
Definition add_created_members (c : ChannelId) (members : list (UserId * MembershipRole))
    (ms : gmap (ChannelId * UserId) Membership) : gmap (ChannelId * UserId) Membership :=
  foldl (λ ms '(user_id, role),
    match ms !! (c, user_id) with
    | Some _ => if decide (role = MembershipRole_Owner)
                then <[(c, user_id) := new_member c role user_id]> ms else ms
    | None => <[(c, user_id) := new_member c role user_id]> ms
    end) ms members.

Definition create_channel (fresh : ChannelId) (command : CreateChannel) : Repo Channel :=
  let! st := get in
  let actor := CreateChannel_actor command in
  ensure (contains_key actor (users st)) PermissionDenied ;;;
  ensure (negb (contains_key (CreateChannel_slug command) (channels_by_slug st))) Conflict ;;;
  ensure match CreateChannel_circle_id command with
         | Some circle_id => can_create_channel_in_circle (circle_role_in st circle_id actor)
         | None => true
         end PermissionDenied ;;;
  let is_general :=
    bool_decide (ChannelSlug_as_str (CreateChannel_slug command) = lit "general")
    && bool_decide (CreateChannel_circle_id command = None) in
  let general_users := if is_general then (map_to_list (users st)).*1 else [] in
  let channel := {|
    Channel_id := fresh;
    Channel_slug := CreateChannel_slug command;
    Channel_name := CreateChannel_name command;
    Channel_kind := CreateChannel_kind command;
    Channel_circle_id := CreateChannel_circle_id command;
    Channel_created_by := actor |} in
  modify (insert_channel channel) ;;;
  let members := ((λ u, (u, MembershipRole_Member)) <$> general_users)
                 ++ [(actor, MembershipRole_Owner)] in
  modify (λ st, st <| memberships := add_created_members fresh members (memberships st) |>) ;;;
  st_ret channel.

Definition join_channel (command : JoinChannel) : Repo Membership :=
  let! st := get in
  let actor := JoinChannel_actor command in
  ensure (contains_key actor (users st)) PermissionDenied ;;;
  let! channel_id := st_lift (resolve_channel_ref st (JoinChannel_channel command)) in
  let! channel := st_lift (ok_or (channels st !! channel_id) NotFound) in
  ensure match Channel_circle_id channel with
         | Some circle_id => contains_key (circle_id, actor) (circle_memberships st)
         | None => true
         end PermissionDenied ;;;
  ensure (negb (bool_decide (Channel_kind channel = Private)
                && negb (bool_decide (ChannelSlug_as_str (Channel_slug channel) = lit "general"))))
    PermissionDenied ;;;
  let membership := new_member channel_id MembershipRole_Member actor in
  put (st <| memberships := <[(channel_id, actor) := membership]> (memberships st) |>) ;;;
  st_ret membership.

Definition list_joinable_channels (actor : UserId) (circle_id : option CircleId)
    : Repo (list DiscoverableChannel) :=
  let! st := get in
  ensure (contains_key actor (users st)
          && match circle_id with
             | Some id => contains_key (id, actor) (circle_memberships st)
             | None => true
             end) PermissionDenied ;;;
  let found := List.filter (λ channel,
    bool_decide (Channel_circle_id channel = circle_id)
    && negb (bool_decide (Channel_kind channel = Private))
    && negb (contains_key (Channel_id channel, actor) (memberships st))) (values (channels st)) in
  let found := (λ channel, {|
    DiscoverableChannel_channel := channel;
    DiscoverableChannel_description :=
      default [] (channel_descriptions st !! Channel_id channel) |}) <$> found in
  st_ret (sort_by_key str_le
    (ChannelSlug_as_str ∘ Channel_slug ∘ DiscoverableChannel_channel) found).

Record ResolvedChannelReference : Type := mk_ResolvedChannelReference {
  ResolvedChannelReference_id : ChannelId;
  ResolvedChannelReference_slug : ChannelSlug;
  ResolvedChannelReference_name : DisplayName;
  ResolvedChannelReference_is_member : bool }.

(** [Vec::dedup]: drop an element equal to the one before it. *)
Fixpoint dedup (l : list ChannelSlug) : list ChannelSlug :=
  match l with
  | x :: ((y :: _) as l') => if decide (x = y) then dedup l' else x :: dedup l'
  | _ => l
  end.

Definition resolve_channel_references (actor : UserId) (source : ChannelId)
    (slugs : list ChannelSlug) : Repo (list ResolvedChannelReference) :=
  let! st := get in
  let! source := st_lift (ok_or (channels st !! source) PermissionDenied) in
  ensure (contains_key (Channel_id source, actor) (memberships st)
          && match Channel_circle_id source with
             | Some circle => contains_key (circle, actor) (circle_memberships st)
             | None => true
             end) PermissionDenied ;;;
  let slugs := dedup (sort_by_key str_le ChannelSlug_as_str slugs) in
  st_ret (omap (λ slug,
    let alias :=
      match Channel_circle_id source with
      | Some circle =>
          match ChannelSlug_new (uuid_simple (CircleId_as_uuid circle) ++ lit "-"
                                 ++ ChannelSlug_as_str slug) with
          | Ok alias => [alias] | _ => []
          end
      | None => []
      end in
    let targets := List.filter (λ target,
        bool_decide (Channel_circle_id target = Channel_circle_id source)
        && negb (bool_decide (Channel_kind target = Private)))
      (omap (λ id, channels st !! id)
        (omap (λ slug, channels_by_slug st !! slug) (slug :: alias))) in
    match targets with
    | [target] => Some {|
        ResolvedChannelReference_id := Channel_id target;
        ResolvedChannelReference_slug := slug;
        ResolvedChannelReference_name := Channel_name target;
        ResolvedChannelReference_is_member :=
          contains_key (Channel_id target, actor) (memberships st) |}
    | _ => None
    end) slugs).

Definition add_channel_member (command : AddChannelMember) : Repo Membership :=
  let! st := get in
  let c := AddChannelMember_channel_id command in
  let u := AddChannelMember_user_id command in
  let! channel := st_lift (ok_or (channels st !! c) NotFound) in
  let actor_role := role_in st c (AddChannelMember_actor command) in
  let target_allowed :=
    match Channel_circle_id channel with
    | Some circle_id => contains_key (circle_id, u) (circle_memberships st)
    | None => match Channel_kind channel with Public | Local => is_human st u | Private => false end
    end in
  ensure (can_moderate_channel actor_role && target_allowed) PermissionDenied ;;;
  let membership := new_member c MembershipRole_Member u in
  put (st <| memberships := or_insert (c, u) membership (memberships st) |>) ;;;
  st_ret (default membership (memberships st !! (c, u))).

Definition leave_channel (command : LeaveChannel) : Repo unit :=
  let! st := get in
  let key := (LeaveChannel_channel_id command, LeaveChannel_actor command) in
  let! channel := st_lift (ok_or (channels st !! key.1) NotFound) in
  ensure (negb (match personal_spaces st !! key.2 with
                | Some (id, _) => bool_decide (id = key.1)
                | None => false
                end
                || bool_decide (is_Some (Channel_circle_id channel))
                   && eq_ignore_ascii_case (DisplayName_as_str (Channel_name channel)) (lit "Prat")))
    PermissionDenied ;;;
  ensure (can_leave_channel (role_in st key.1 key.2)) NotFound ;;;
  ensure (contains_key key (memberships st)) NotFound ;;;
  put (st <| memberships := delete key (memberships st) |>).

Definition update_channel_description (command : UpdateChannelDescription) : Repo str :=
  let description := trim (UpdateChannelDescription_description command) in
  ensure (negb (2000 <? len description)%N) Conflict ;;;
  let! st := get in
  let c := UpdateChannelDescription_channel_id command in
  ensure (bool_decide (role_in st c (UpdateChannelDescription_actor command)
                       = Some MembershipRole_Owner)) PermissionDenied ;;;
  put (st <| channel_descriptions := <[c := description]> (channel_descriptions st) |>) ;;;
  st_ret description.
End channels.
