(* ===== verification/RepoCircles.v ===== *)
(** * RepoCircles: circles, favorites and invitations

    The circle operations of [InMemoryChatRepository]
    ([src/domain/repository.rs]) and the hashing helpers of
    [src/domain/onboarding.rs]. *)

From Stdlib Require Import ZifyBool.
From stdpp Require Import base tactics numbers strings countable sorting gmap list.
From S2P Require Import Prelude RustStr Text Ids Models Policy RepoState RepoMessages RepoChannels.

(** ** Cryptographic libraries

    SHA-256 ([sha2]) and the URL-safe base64 encoding without padding
    ([base64]); a secret is 32 bytes from [getrandom], or its error. *)
Class CryptoLib := {
  sha256_digest : str → list N;
  url_safe_no_pad : list N → str }.

(** A stand-in for the libraries, to let examples compute. *)
Definition demo_crypto : CryptoLib := {| sha256_digest s := s; url_safe_no_pad b := b |}.

(** ** Circles *)

Definition create_circle (fresh : CircleId) (now : DateTime) (command : CreateCircle)
    : Repo Circle :=
  let! st := get in
  let actor := CreateCircle_actor command in
  ensure (contains_key actor (users st)) PermissionDenied ;;;
  ensure (negb (contains_key (CreateCircle_slug command) (circles_by_slug st))) Conflict ;;;
  let circle := {|
    Circle_id := fresh; Circle_slug := CreateCircle_slug command;
    Circle_name := CreateCircle_name command; Circle_created_by := actor;
    Circle_created_at := now |} in
  put (st <| circles_by_slug := <[Circle_slug circle := fresh]> (circles_by_slug st) |>
          <| circles := <[fresh := circle]> (circles st) |>
          <| circle_memberships := <[(fresh, actor) := {|
               CircleMembership_circle_id := fresh; CircleMembership_user_id := actor;
               CircleMembership_role := CircleRole_Owner;
               CircleMembership_joined_at := now |}]> (circle_memberships st) |>) ;;;
  st_ret circle.

Definition list_circles_for_user (actor : UserId) : Repo (list (Circle * CircleRole)) :=
  let! st := get in
  let found := omap (λ m,
      (λ circle, (circle, CircleMembership_role m)) <$> circles st !! CircleMembership_circle_id m)
    (List.filter (λ m, bool_decide (CircleMembership_user_id m = actor))
       (values (circle_memberships st))) in
  st_ret (sort_by_key str_le (λ p, ChannelSlug_as_str (Circle_slug p.1)) found).

Definition circle_member_roles (actor : UserId) (circle_id : CircleId)
    : Repo (list (UserId * CircleRole)) :=
  let! st := get in
  ensure (contains_key (circle_id, actor) (circle_memberships st)) PermissionDenied ;;;
  st_ret ((λ m, (CircleMembership_user_id m, CircleMembership_role m)) <$>
    List.filter (λ m, bool_decide (CircleMembership_circle_id m = circle_id))
      (values (circle_memberships st))).

Definition set_circle_member_role (command : SetCircleMemberRole) : Repo CircleMembership :=
  let! st := get in
  let c := SetCircleMemberRole_circle_id command in
  let key := (c, SetCircleMemberRole_user_id command) in
  ensure (negb (bool_decide (SetCircleMemberRole_role command = CircleRole_Owner)
                || negb (bool_decide (circle_role_in st c (SetCircleMemberRole_actor command)
                                      = Some CircleRole_Owner))
                || negb (is_human st (SetCircleMemberRole_user_id command)))) PermissionDenied ;;;
  let! member := st_lift (ok_or (circle_memberships st !! key) PermissionDenied) in
  ensure (negb (bool_decide (CircleMembership_role member = CircleRole_Owner))) PermissionDenied ;;;
  let member := member <| CircleMembership_role := SetCircleMemberRole_role command |> in
  put (st <| circle_memberships := <[key := member]> (circle_memberships st) |>
          <| circle_updates := S (circle_updates st) |>) ;;;
  st_ret member.

Definition rename_circle (command : RenameCircle) : Repo Circle :=
  let! st := get in
  let c := RenameCircle_circle_id command in
  ensure (can_rename_circle (circle_role_in st c (RenameCircle_actor command))) PermissionDenied ;;;
  let! circle := st_lift (ok_or (circles st !! c) NotFound) in
  let circle := circle <| Circle_name := RenameCircle_name command |> in
  put (st <| circles := <[c := circle]> (circles st) |>
          <| circle_updates := S (circle_updates st) |>) ;;;
  st_ret circle.

(** The channels of a circle. *)
Definition circle_channel_ids (st : RepositoryState) (c : CircleId) : list ChannelId :=
  Channel_id <$> List.filter (λ channel, bool_decide (Channel_circle_id channel = Some c))
                   (values (channels st)).

(** The body of [for channel_id in &channel_ids]. *)
Definition remove_channel (channel_id : ChannelId) (st : RepositoryState) : RepositoryState :=
  let st := match channels st !! channel_id with
            | Some channel =>
                st <| channels := delete channel_id (channels st) |>
                   <| channels_by_slug := delete (Channel_slug channel) (channels_by_slug st) |>
            | None => st
            end in
  st <| memberships := filter (λ kv, kv.1.1 ≠ channel_id) (memberships st) |>
     <| messages := delete channel_id (messages st) |>
     <| next_sequences := delete channel_id (next_sequences st) |>.

Definition delete_circle (command : DeleteCircle) : Repo unit :=
  let! st := get in
  let c := DeleteCircle_circle_id command in
  ensure (can_delete_circle (circle_role_in st c (DeleteCircle_actor command))) PermissionDenied ;;;
  let! circle := st_lift (ok_or (circles st !! c) NotFound) in
  let st := st <| circles := delete c (circles st) |>
               <| circles_by_slug := delete (Circle_slug circle) (circles_by_slug st) |>
               <| favorite_circles := filter (λ f, f.1 ≠ c) (favorite_circles st) |>
               <| circle_memberships := filter (λ kv, kv.1.1 ≠ c) (circle_memberships st) |>
               <| circle_invitations :=
                    filter (λ kv, CircleInvitation_circle_id kv.2 ≠ c) (circle_invitations st) |> in
  let channel_ids := circle_channel_ids st c in
  let message_ids : gset MessageId :=
    list_to_set (ChatMessage_id <$> concat (channel_messages st <$> channel_ids)) in
  let st := foldl (λ st channel_id, remove_channel channel_id st) st channel_ids in
  put (st <| command_receipts := filter (λ kv, kv.2 ∉ message_ids) (command_receipts st) |>).

Definition leave_circle (command : LeaveCircle) : Repo unit :=
  let! st := get in
  let c := LeaveCircle_circle_id command in
  let actor := LeaveCircle_actor command in
  let key := (c, actor) in
  ensure (can_leave_circle (circle_role_in st c actor)) PermissionDenied ;;;
  let st := st <| circle_memberships := delete key (circle_memberships st) |>
               <| favorite_circles := favorite_circles st ∖ {[key]} |> in
  let channel_ids : gset ChannelId := list_to_set (circle_channel_ids st c) in
  put (st <| memberships :=
         filter (λ kv, kv.1.2 ≠ actor ∨ kv.1.1 ∉ channel_ids) (memberships st) |>).

(** ** Favorites *)

(** The favorites of one user. *)
Definition favorites_of (st : RepositoryState) (actor : UserId) : list CircleId :=
  fst <$> List.filter (λ f, bool_decide (f.2 = actor)) (elements (favorite_circles st)).

Definition list_favorite_circles `{UuidLib} (actor : UserId) : Repo (list CircleId) :=
  let! st := get in
  st_ret (sort_by_key str_le (uuid_display ∘ CircleId_as_uuid) (favorites_of st actor)).

Definition set_circle_favorite (actor : UserId) (circle : CircleId) (favorite : bool) : Repo unit :=
  let! st := get in
  let key := (circle, actor) in
  if negb favorite then put (st <| favorite_circles := favorite_circles st ∖ {[key]} |>)
  else
    ensure (contains_key key (circle_memberships st)) PermissionDenied ;;;
    ensure (negb (negb (bool_decide (key ∈ favorite_circles st))
                  && (12 <=? length (favorites_of st actor)))) Conflict ;;;
    put (st <| favorite_circles := {[key]} ∪ favorite_circles st |>).

(** ** Circle invitations *)

Section invitations.
Context `{Unicode, CryptoLib}.

Definition seven_days : Z := 7 * 86400 * 1000000000.

Definition create_circle_invitation (secret : Res str (list N)) (fresh : InvitationId)
    (now : DateTime) (command : CreateCircleInvitation) : Repo IssuedInvitation :=
  let! st := get in
  let actor := CreateCircleInvitation_actor command in
  let c := CreateCircleInvitation_circle_id command in
  ensure (is_human st actor) PermissionDenied ;;;
  ensure (can_invite_to_circle (circle_role_in st c actor)) PermissionDenied ;;;
  let! secret := st_lift (map_err Storage secret) in
  let token := url_safe_no_pad secret in
  let token_hash := sha256_digest token in
  let invitation := {|
    CircleInvitation_id := fresh; CircleInvitation_circle_id := c;
    CircleInvitation_invited_by := actor;
    CircleInvitation_expires_at := (now + seven_days)%Z |} in
  put (st <| circle_invitations := <[token_hash := invitation]> (circle_invitations st) |>) ;;;
  st_ret (mk_IssuedInvitation invitation token).

(** The clock is read twice, for the expiry test and for [joined_at]. The
    invitation is removed before the expiry test. *)
Definition accept_circle_invitation (now joined_at : DateTime) (command : AcceptCircleInvitation)
    : Repo CircleMembership :=
  let! st := get in
  let actor := AcceptCircleInvitation_actor command in
  ensure (contains_key actor (users st)) PermissionDenied ;;;
  let token_hash := sha256_digest (AcceptCircleInvitation_token command) in
  let! invitation := st_lift (ok_or (circle_invitations st !! token_hash) NotFound) in
  modify (λ st, st <| circle_invitations := delete token_hash (circle_invitations st) |>) ;;;
  ensure (negb (CircleInvitation_expires_at invitation <? now)%Z) NotFound ;;;
  let c := CircleInvitation_circle_id invitation in
  let membership := {|
    CircleMembership_circle_id := c; CircleMembership_user_id := actor;
    CircleMembership_role := CircleRole_Member; CircleMembership_joined_at := joined_at |} in
  modify (λ st, st <| circle_memberships :=
    <[(c, actor) := membership]> (circle_memberships st) |>) ;;;
  st_ret membership.

(** ** Enrollment invitations *)

Definition enrollment_token_hash (token : str) : list N := sha256_digest token.
Definition enrollment_email_hash (email : str) : list N :=
  sha256_digest (to_lowercase (trim email)).
Definition generate_enrollment_token (secret : Res str (list N)) : Res str str :=
  res_map url_safe_no_pad secret.

Definition prepare_enrollment_invitation (secret : Res str (list N)) (fresh : Uuid)
    (command : PrepareEnrollmentInvitation) : Repo IssuedEnrollmentInvitation :=
  let! st := get in
  let actor := PrepareEnrollmentInvitation_actor command in
  ensure (is_human st actor) PermissionDenied ;;;
  ensure match PrepareEnrollmentInvitation_circle_id command with
         | Some circle_id => can_invite_to_circle (circle_role_in st circle_id actor)
         | None => true
         end PermissionDenied ;;;
  let! token := st_lift (map_err Storage (generate_enrollment_token secret)) in
  let invitation := {|
    EnrollmentInvitation_id := fresh;
    EnrollmentInvitation_circle_id := PrepareEnrollmentInvitation_circle_id command;
    EnrollmentInvitation_invited_by := actor;
    EnrollmentInvitation_expires_at := PrepareEnrollmentInvitation_expires_at command;
    EnrollmentInvitation_state := Inactive;
    EnrollmentInvitation_authentik_invitation_id := None |} in
  put (st <| enrollment_invitations := <[enrollment_token_hash token :=
         mk_StoredEnrollmentInvitation invitation
           (enrollment_email_hash (PrepareEnrollmentInvitation_email command)) None]>
         (enrollment_invitations st) |>) ;;;
  st_ret (mk_IssuedEnrollmentInvitation invitation token).

Definition activate_enrollment_invitation (now : DateTime) (command : ActivateEnrollmentInvitation)
    : Repo EnrollmentInvitation :=
  let! st := get in
  let key := enrollment_token_hash (ActivateEnrollmentInvitation_token command) in
  let! stored := st_lift (ok_or (enrollment_invitations st !! key) NotFound) in
  let invitation := stored_invitation stored in
  ensure (negb (negb (bool_decide (EnrollmentInvitation_state invitation = Inactive))
                || (EnrollmentInvitation_expires_at invitation <=? now)%Z)) NotFound ;;;
  let invitation := invitation
    <| EnrollmentInvitation_state := Active |>
    <| EnrollmentInvitation_authentik_invitation_id :=
         Some (ActivateEnrollmentInvitation_authentik_invitation_id command) |> in
  put (st <| enrollment_invitations := <[key :=
         mk_StoredEnrollmentInvitation invitation (expected_email_hash stored)
           (consumed_by stored)]> (enrollment_invitations st) |>) ;;;
  st_ret invitation.

Definition accept_enrollment_invitation (now joined_at : DateTime)
    (command : AcceptEnrollmentInvitation) : Repo (option CircleMembership) :=
  let! st := get in
  let actor := AcceptEnrollmentInvitation_actor command in
  ensure (contains_key actor (users st)) PermissionDenied ;;;
  let key := enrollment_token_hash (AcceptEnrollmentInvitation_token command) in
  let! stored := st_lift (ok_or (enrollment_invitations st !! key) NotFound) in
  let invitation := stored_invitation stored in
  ensure (negb (negb (bool_decide (EnrollmentInvitation_state invitation = Active))
                || (EnrollmentInvitation_expires_at invitation <=? now)%Z
                || negb (bool_decide (expected_email_hash stored
                     = enrollment_email_hash (AcceptEnrollmentInvitation_email command))))) NotFound ;;;
  modify (λ st, st <| enrollment_invitations := <[key :=
    mk_StoredEnrollmentInvitation (invitation <| EnrollmentInvitation_state := Consumed |>)
      (expected_email_hash stored) (Some actor)]> (enrollment_invitations st) |>) ;;;
  match EnrollmentInvitation_circle_id invitation with
  | None => st_ret None
  | Some circle_id =>
      let membership := {|
        CircleMembership_circle_id := circle_id; CircleMembership_user_id := actor;
        CircleMembership_role := CircleRole_Member; CircleMembership_joined_at := joined_at |} in
      modify (λ st, st <| circle_memberships :=
        or_insert (circle_id, actor) membership (circle_memberships st) |>) ;;;
      st_ret (Some (default membership (circle_memberships st !! (circle_id, actor))))
  end.
End invitations.
