(* ===== verification/RepoUsers.v ===== *)
(** * RepoUsers: accounts, profiles, statuses and media

    The account operations of [InMemoryChatRepository]
    ([src/domain/repository.rs]). *)

From Stdlib Require Import ZifyBool.
From stdpp Require Import base tactics numbers strings countable sorting gmap list.
From S2P Require Import Prelude RustStr Text Ids Models Policy RepoState RepoMessages RepoChannels.

(** ** Accounts *)

(** What [upsert_user] keeps of an existing account. *)
Definition keep_local_identity (existing : option User) (user : User) : User :=
  match existing with
  | Some existing =>
      let user := user <| User_display_name := User_display_name existing |> in
      if decide (is_Some (User_handle existing))
      then user <| User_handle := User_handle existing |> else user
  | None => user
  end.

(** [state.channels.values().find(|channel| channel.slug == "general")] *)
Definition general_channel (st : RepositoryState) : option ChannelId :=
  Channel_id <$> find_first (λ channel,
    bool_decide (ChannelSlug_as_str (Channel_slug channel) = lit "general")) (values (channels st)).

Definition assign_signup_ordinal (user : User) : Repo unit :=
  let! st := get in
  if bool_decide (User_kind user = Human) && negb (contains_key (User_id user) (signup_ordinals st))
  then
    if (next_signup_ordinal st <? u64_max)%N then
      let ordinal := (next_signup_ordinal st + 1)%N in
      put (st <| next_signup_ordinal := ordinal |>
              <| signup_ordinals := <[User_id user := ordinal]> (signup_ordinals st) |>)
    else panic
  else st_ret tt.

Definition upsert_user (user : User) : Repo User :=
  let! st := get in
  let user := keep_local_identity (users st !! User_id user) user in
  assign_signup_ordinal user ;;;
  modify (λ st, st <| users := <[User_id user := user]> (users st) |>) ;;;
  let! st := get in
  match general_channel st with
  | Some channel_id =>
      put (st <| memberships := or_insert (channel_id, User_id user)
             (new_member channel_id MembershipRole_Member (User_id user)) (memberships st) |>)
  | None => st_ret tt
  end ;;;
  st_ret user.

Definition signup_ordinal (actor : UserId) : Repo (option N) :=
  let! st := get in
  ensure (contains_key actor (users st)) PermissionDenied ;;;
  st_ret (signup_ordinals st !! actor).

Definition list_human_users (actor : UserId) : Repo (list User) :=
  let! st := get in
  ensure (contains_key actor (users st)) PermissionDenied ;;;
  st_ret (sort_by_key str_le (DisplayName_as_str ∘ User_display_name)
    (List.filter (λ user, bool_decide (User_kind user = Human)) (values (users st)))).

(** ** Profiles *)

Definition early_adopter (st : RepositoryState) (u : UserId) : bool :=
  match signup_ordinals st !! u with Some ordinal => (ordinal <=? 50)%N | None => false end.

Definition profile_at (st : RepositoryState) (now : DateTime) (user : User) : UserProfile :=
  let '(text, emoji, expires_at) := default ([], [], None) (user_statuses st !! User_id user) in
  let active := match expires_at with None => true | Some expiry => (now <? expiry)%Z end in
  {| UserProfile_early_adopter := early_adopter st (User_id user);
     UserProfile_user := user;
     UserProfile_status_text := if active then text else [];
     UserProfile_status_emoji := if active then emoji else [];
     UserProfile_status_expires_at := if active then expires_at else None |}.

Definition list_user_profiles (now : DateTime) (actor : UserId) : Repo (list UserProfile) :=
  let! st := get in
  ensure (contains_key actor (users st)) PermissionDenied ;;;
  st_ret (sort_by_key str_le (DisplayName_as_str ∘ User_display_name ∘ UserProfile_user)
    (profile_at st now <$>
       List.filter (λ user, bool_decide (User_kind user = Human)) (values (users st)))).

(** The two member lists release the lock between reading the member set and
    listing the profiles; [list_user_profiles] is the second step. *)
Definition list_circle_user_profiles (now : DateTime) (actor : UserId) (circle_id : CircleId)
    : Repo (list UserProfile) :=
  let! st := get in
  ensure (contains_key (circle_id, actor) (circle_memberships st)) PermissionDenied ;;;
  let member_ids : gset UserId :=
    list_to_set (snd <$> List.filter (λ k, bool_decide (k.1 = circle_id))
                           (map_to_list (circle_memberships st)).*1) in
  let! profiles := list_user_profiles now actor in
  st_ret (List.filter (λ p, bool_decide (User_id (UserProfile_user p) ∈ member_ids)) profiles).

Definition list_channel_user_profiles (now : DateTime) (actor : UserId) (channel_id : ChannelId)
    : Repo (list UserProfile) :=
  let! st := get in
  ensure (contains_key (channel_id, actor) (memberships st)) PermissionDenied ;;;
  let member_ids : gset UserId :=
    list_to_set (snd <$> List.filter (λ k, bool_decide (k.1 = channel_id))
                           (map_to_list (memberships st)).*1) in
  let! profiles := list_user_profiles now actor in
  st_ret (List.filter (λ p, bool_decide (User_id (UserProfile_user p) ∈ member_ids)) profiles).

Definition update_profile (actor : UserId) (display_name : DisplayName) : Repo UserProfile :=
  let! st := get in
  let! user := st_lift (ok_or (users st !! actor) PermissionDenied) in
  ensure (bool_decide (User_kind user = Human)) PermissionDenied ;;;
  let user := user <| User_display_name := display_name |> in
  put (st <| users := <[actor := user]> (users st) |>) ;;;
  let '(text, emoji, expires_at) := default ([], [], None) (user_statuses st !! actor) in
  st_ret {| UserProfile_early_adopter := early_adopter st (User_id user);
            UserProfile_user := user; UserProfile_status_text := text;
            UserProfile_status_emoji := emoji; UserProfile_status_expires_at := expires_at |}.

(** ** Statuses *)

Definition status_cmp (left right : SavedStatus) : comparison :=
  then_with (SavedStatus_save_count right ?= SavedStatus_save_count left)%Z
    (then_with (SavedStatus_last_used_at right ?= SavedStatus_last_used_at left)%Z
      (then_with (str_cmp (SavedStatus_text left) (SavedStatus_text right))
        (str_cmp (SavedStatus_emoji left) (SavedStatus_emoji right)))).
Definition sort_saved_statuses (statuses : list SavedStatus) : list SavedStatus :=
  sort_by status_cmp statuses.

Definition same_status (text emoji : str) (s : SavedStatus) : bool :=
  bool_decide (SavedStatus_text s = text) && bool_decide (SavedStatus_emoji s = emoji).

(** The saved statuses of a user after using one. *)
Definition record_status (now : DateTime) (text emoji : str) (statuses : list SavedStatus)
    : list SavedStatus :=
  let statuses :=
    if any (same_status text emoji) statuses
    then modify_first (same_status text emoji)
           (λ s, mk_SavedStatus (SavedStatus_text s) (SavedStatus_emoji s)
                   (i64_saturating_succ (SavedStatus_save_count s)) now) statuses
    else statuses ++ [mk_SavedStatus text emoji 1 now] in
  take 20 (sort_saved_statuses statuses).

Definition set_user_status (now : DateTime) (actor : UserId) (text emoji : str)
    (expires_at : option DateTime) : Repo UserProfile :=
  let! st := get in
  let! user := st_lift (ok_or (users st !! actor) PermissionDenied) in
  ensure (bool_decide (User_kind user = Human)) PermissionDenied ;;;
  (if negb (bool_decide (text = [])) || negb (bool_decide (emoji = []))
   then modify (λ st, st <| saved_statuses :=
          <[actor := record_status now text emoji (default [] (saved_statuses st !! actor))]>
            (saved_statuses st) |>)
   else st_ret tt) ;;;
  modify (λ st, st <| user_statuses :=
    <[actor := (text, emoji, expires_at)]> (user_statuses st) |>) ;;;
  st_ret {| UserProfile_early_adopter := early_adopter st (User_id user);
            UserProfile_user := user; UserProfile_status_text := text;
            UserProfile_status_emoji := emoji; UserProfile_status_expires_at := expires_at |}.

Definition list_saved_statuses (actor : UserId) : Repo (list SavedStatus) :=
  gets (λ st, default [] (saved_statuses st !! actor)).

Definition remove_saved_status (actor : UserId) (text emoji : str) : Repo unit :=
  let! st := get in
  ensure (is_human st actor) PermissionDenied ;;;
  put (st <| saved_statuses :=
    alter (List.filter (λ s, negb (same_status text emoji s))) actor (saved_statuses st) |>).

(** ** Saved emojis *)

Definition list_saved_emojis (actor : UserId) : Repo (list str) :=
  gets (λ st, default [] (saved_emojis st !! actor)).

(** [entry(actor).or_default()] leaves an entry also when the call fails. *)
Definition save_emoji (actor : UserId) (emoji : str) (saved : bool) : Repo unit :=
  let! st := get in
  ensure (contains_key actor (users st)) PermissionDenied ;;;
  let choices := default [] (saved_emojis st !! actor) in
  modify (λ st, st <| saved_emojis := or_insert actor [] (saved_emojis st) |>) ;;;
  if saved && negb (bool_decide (emoji ∈ choices)) then
    ensure (negb (50 <=? length choices)) Conflict ;;;
    modify (λ st, st <| saved_emojis := <[actor := choices ++ [emoji]]> (saved_emojis st) |>)
  else if negb saved then
    modify (λ st, st <| saved_emojis :=
      <[actor := List.filter (λ item, negb (bool_decide (item = emoji))) choices]>
        (saved_emojis st) |>)
  else st_ret tt.

(** ** Media *)

Definition MEDIA_READ_BLOCK_BYTES : N := 1024 * 1024.

Definition store_media (fresh : MediaId) (now : DateTime) (upload : MediaUpload) (sha256 : str)
    : Repo MediaObject :=
  let! st := get in
  ensure (contains_key (MediaUpload_channel_id upload, MediaUpload_actor upload) (memberships st))
    PermissionDenied ;;;
  let object := {|
    MediaObject_id := fresh; MediaObject_owner_id := MediaUpload_actor upload;
    MediaObject_channel_id := MediaUpload_channel_id upload;
    MediaObject_original_filename := MediaUpload_filename upload;
    MediaObject_content_type := MediaUpload_content_type upload;
    MediaObject_size_bytes := N.of_nat (length (MediaUpload_content upload));
    MediaObject_sha256 := sha256;
    MediaObject_width := fst <$> MediaUpload_dimensions upload;
    MediaObject_height := snd <$> MediaUpload_dimensions upload;
    MediaObject_duration_ms := None; MediaObject_alt_text := [];
    MediaObject_analysis_status := lit "pending";
    MediaObject_analysis_metadata := JObject [];
    MediaObject_created_at := now |} in
  match MediaUpload_preview upload with
  | Some preview =>
      modify (λ st, st <| media_previews := <[fresh := preview]> (media_previews st) |>)
  | None => st_ret tt
  end ;;;
  modify (λ st, st <| media := <[fresh := (object, MediaUpload_content upload)]> (media st) |>) ;;;
  st_ret object.

Definition media_metadata (actor : UserId) (media_id : MediaId) : Repo MediaObject :=
  let! st := get in
  let! (object, _) := st_lift (ok_or (media st !! media_id) NotFound) in
  ensure (contains_key (MediaObject_channel_id object, actor) (memberships st)) NotFound ;;;
  st_ret object.

(** [usize] is 64 bits wide, so the conversion of the offset never fails. *)
Definition read_media_slice (actor : UserId) (media_id : MediaId) (offset length : N)
    : Repo (list N) :=
  ensure (negb ((length =? 0)%N || (MEDIA_READ_BLOCK_BYTES <? length)%N)) Conflict ;;;
  let! st := get in
  let! (object, bytes) := st_lift (ok_or (media st !! media_id) NotFound) in
  ensure (contains_key (MediaObject_channel_id object, actor) (memberships st)) NotFound ;;;
  let size := N.of_nat (base.length bytes) in
  let finish := N.min (N.min (offset + length) u64_max) size in
  st_ret (if (offset <=? finish)%N
          then take (N.to_nat (finish - offset)) (drop (N.to_nat offset) bytes) else []).

Definition load_media_preview (actor : UserId) (media_id : MediaId) : Repo (option MediaVariant) :=
  let! st := get in
  let! (object, _) := st_lift (ok_or (media st !! media_id) NotFound) in
  ensure (contains_key (MediaObject_channel_id object, actor) (memberships st)) PermissionDenied ;;;
  st_ret (media_previews st !! media_id).
