(* ===== verification/RepoWf.v ===== *)
(** * RepoWf: the well-formedness invariant of the repository

    One predicate per group of tables, each over the fields it constrains, so
    that an operation that leaves those fields alone preserves it by definition.
    [wf] collects them. This file holds the predicates and how each primitive
    update of a table preserves them; [RepoReach] shows that every method of the
    repository preserves [wf]. *)

From Stdlib Require Import ZifyBool.
From stdpp Require Import base tactics numbers strings countable sorting gmap list.
From S2P Require Import Prelude RustStr Text Ids Models Policy RepoState RepoMessages RepoChannels RepoCircles RepoUsers.

Abbreviation MessageTable := (gmap ChannelId (list ChatMessage)) (only parsing).

(** ** Predicates *)

(** The message at position [i] of the log of channel [c]. *)
Definition logged (msgs : MessageTable) (c : ChannelId) (i : nat) (m : ChatMessage) : Prop :=
  default [] (msgs !! c) !! i = Some m.
Definition log_length (msgs : MessageTable) (c : ChannelId) : nat := length (default [] (msgs !! c)).

(** The logs: a log belongs to a channel, its messages are numbered 1, 2, ...
    without gaps and within a [u64], the counter agrees with the log, identifiers are unique over
    all channels, replies point back to a root of the same channel, and a deleted
    message keeps nothing but the tombstone. *)
Record log_ok (chs : gmap ChannelId Channel) (msgs : MessageTable)
    (next : gmap ChannelId ChannelSequence) : Prop := {
  log_known c : is_Some (msgs !! c) ∨ is_Some (next !! c) → is_Some (chs !! c);
  log_channel c i m : logged msgs c i m → ChatMessage_channel_id m = c;
  log_sequence c i m :
    logged msgs c i m → ChatMessage_sequence m = mk_ChannelSequence (N.of_nat (S i));
  log_bound c : (N.of_nat (log_length msgs c) ≤ u64_max)%N;
  log_next c : default 0%N (seq_u64 <$> next !! c) = N.of_nat (log_length msgs c);
  log_unique c i m c' i' m' :
    logged msgs c i m → logged msgs c' i' m' → ChatMessage_id m = ChatMessage_id m' →
    c = c' ∧ i = i';
  log_parent c i m p :
    logged msgs c i m → ChatMessage_parent_message_id m = Some p →
    ∃ j root, j < i ∧ logged msgs c j root ∧ ChatMessage_id root = p
              ∧ ChatMessage_parent_message_id root = None;
  log_deleted c i m :
    logged msgs c i m → is_Some (ChatMessage_deleted_at m) →
    ChatMessage_body m = mk_MessageBody tombstone ∧ ChatMessage_edited_at m = None }.

(** A table indexed by slug: entries are stored under their own identifier and
    the slug index is exactly the inverse of the slugs. *)
Record indexed {K V} `{Countable K} (id : V → K) (slug : V → ChannelSlug) (m : gmap K V)
    (ix : gmap ChannelSlug K) : Prop := {
  indexed_id k v : m !! k = Some v → id v = k;
  indexed_slug k v : m !! k = Some v → ix !! slug v = Some k;
  indexed_back s k : ix !! s = Some k → ∃ v, m !! k = Some v ∧ slug v = s }.

(** Channel members are known users of existing channels who have read no
    further than the log. *)
Record member_ok (us : gmap UserId User) (chs : gmap ChannelId Channel) (msgs : MessageTable)
    (c : ChannelId) (u : UserId) (m : Membership) : Prop := {
  member_channel_id : Membership_channel_id m = c;
  member_user_id : Membership_user_id m = u;
  member_user : is_Some (us !! u);
  member_channel : is_Some (chs !! c);
  member_read :
    (seq_u64 (Membership_last_read_sequence m) ≤ N.of_nat (log_length msgs c))%N }.
Definition members_ok (us : gmap UserId User) (chs : gmap ChannelId Channel) (msgs : MessageTable)
    (ms : gmap (ChannelId * UserId) Membership) : Prop :=
  ∀ c u m, ms !! (c, u) = Some m → member_ok us chs msgs c u m.

(** Receipts answer for a logged message of the sender; a reaction is never on a
    deleted message. *)
Definition receipts_ok (msgs : MessageTable) (rs : gmap (UserId * str) MessageId) : Prop :=
  ∀ u rid id, rs !! (u, rid) = Some id →
    ∃ c i m, logged msgs c i m ∧ ChatMessage_id m = id ∧ ChatMessage_sender_id m = u.
Definition reactions_ok (msgs : MessageTable) (rs : gset (MessageId * UserId * str)) : Prop :=
  ∀ c i m u e, logged msgs c i m → (ChatMessage_id m, u, e) ∈ rs → ChatMessage_deleted_at m = None.

(** Accounts: the signup ordinals of the humans are 1, ..., [next] without
    repetition. *)
Record accounts_ok (us : gmap UserId User) (ords : gmap UserId N) (next : N) : Prop := {
  accounts_id u x : us !! u = Some x → User_id x = u;
  accounts_known u n : ords !! u = Some n → is_Some (us !! u);
  accounts_range u n : ords !! u = Some n → (1 ≤ n ≤ next)%N;
  accounts_inj u v n : ords !! u = Some n → ords !! v = Some n → u = v;
  accounts_size : N.of_nat (size ords) = next;
  accounts_human u x : us !! u = Some x → User_kind x = Human → is_Some (ords !! u) }.

(** Circle members are known users, and favorites are circles of the user, at
    most 12 of them. *)
Record circle_members_ok (us : gmap UserId User) (cms : gmap (CircleId * UserId) CircleMembership)
    (favs : gset (CircleId * UserId)) : Prop := {
  circle_members_key c u m :
    cms !! (c, u) = Some m → CircleMembership_circle_id m = c ∧ CircleMembership_user_id m = u;
  circle_members_user c u m : cms !! (c, u) = Some m → is_Some (us !! u);
  circle_members_favorite c u : (c, u) ∈ favs → is_Some (cms !! (c, u));
  circle_members_cap u : size (filter (λ f, f.2 = u) favs) ≤ 12 }.

(** A closed channel is private, outside every circle and not the general
    channel: personal spaces and direct conversations. *)
Definition is_general_slug (s : ChannelSlug) : bool :=
  bool_decide (ChannelSlug_as_str s = lit "general").
Definition closed (chs : gmap ChannelId Channel) (c : ChannelId) : Prop :=
  ∃ ch, chs !! c = Some ch ∧ Channel_kind ch = Private ∧ Channel_circle_id ch = None
        ∧ is_general_slug (Channel_slug ch) = false.

(** Personal spaces and direct conversations are closed channels without
    outsiders. *)
Record private_ok (chs : gmap ChannelId Channel) (personal : gmap UserId (ChannelId * PersonalNote))
    (direct : gmap (UserId * UserId) ChannelId) (groups : gmap ChannelId ChannelId)
    (expansions : gmap (ChannelId * UserId) ChannelId)
    (ms : gmap (ChannelId * UserId) Membership) : Prop := {
  private_personal u c n : personal !! u = Some (c, n) → closed chs c;
  private_personal_only u c n v :
    personal !! u = Some (c, n) → is_Some (ms !! (c, v)) → v = u;
  private_direct a b c : direct !! (a, b) = Some c → closed chs c ∧ UserId_lt a b = true;
  private_direct_only a b c v :
    direct !! (a, b) = Some c → is_Some (ms !! (c, v)) → v = a ∨ v = b;
  private_group c src : groups !! c = Some src → closed chs c;
  private_expansion src u c : expansions !! (src, u) = Some c → closed chs c }.

(** The members of a circle's channel are members of the circle, the general
    channel excepted. *)
Definition circle_channels_ok (chs : gmap ChannelId Channel)
    (cms : gmap (CircleId * UserId) CircleMembership)
    (ms : gmap (ChannelId * UserId) Membership) : Prop :=
  ∀ c ch k u, chs !! c = Some ch → Channel_circle_id ch = Some k →
    is_general_slug (Channel_slug ch) = false →
    is_Some (ms !! (c, u)) → is_Some (cms !! (k, u)).

(** The bounded collections of a user, and the enrollment invitations. *)
Definition emojis_ok (es : gmap UserId (list str)) : Prop :=
  ∀ u l, es !! u = Some l → length l ≤ 50 ∧ NoDup l.
Definition status_key (s : SavedStatus) : str * str := (SavedStatus_text s, SavedStatus_emoji s).
Definition statuses_ok (ss : gmap UserId (list SavedStatus)) : Prop :=
  ∀ u l, ss !! u = Some l → length l ≤ 20 ∧ NoDup (status_key <$> l).
Definition enrollments_ok (es : gmap (list N) StoredEnrollmentInvitation) : Prop :=
  ∀ k s, es !! k = Some s →
    (is_Some (consumed_by s) ↔ EnrollmentInvitation_state (stored_invitation s) = Consumed).

Record wf (st : RepositoryState) : Prop := {
  wf_log : log_ok (channels st) (messages st) (next_sequences st);
  wf_channels : indexed Channel_id Channel_slug (channels st) (channels_by_slug st);
  wf_circles : indexed Circle_id Circle_slug (circles st) (circles_by_slug st);
  wf_members : members_ok (users st) (channels st) (messages st) (memberships st);
  wf_receipts : receipts_ok (messages st) (command_receipts st);
  wf_reactions : reactions_ok (messages st) (message_reactions st);
  wf_accounts : accounts_ok (users st) (signup_ordinals st) (next_signup_ordinal st);
  wf_circle_members :
    circle_members_ok (users st) (circle_memberships st) (favorite_circles st);
  wf_private : private_ok (channels st) (personal_spaces st) (direct_conversations st)
                 (direct_group_conversations st) (direct_expansions st) (memberships st);
  wf_circle_channels :
    circle_channels_ok (channels st) (circle_memberships st) (memberships st);
  wf_emojis : emojis_ok (saved_emojis st);
  wf_statuses : statuses_ok (saved_statuses st);
  wf_enrollments : enrollments_ok (enrollment_invitations st) }.

(** ** The logs under updates *)

Definition pushed (msgs : MessageTable) (c : ChannelId) (m : ChatMessage) : MessageTable :=
  <[c := default [] (msgs !! c) ++ [m]]> msgs.

Lemma logged_pushed msgs c m c' i m' :
  logged (pushed msgs c m) c' i m' ↔
    logged msgs c' i m' ∨ (c' = c ∧ i = log_length msgs c ∧ m' = m).
Proof.
  unfold logged, pushed, log_length. destruct (decide (c' = c)) as [->|Hc].
  - rewrite lookup_insert_eq. simpl. rewrite lookup_app_Some, list_lookup_singleton_Some.
    split; [intros [?|[? [? ?]]]; [by left|right; split_and!; [done|lia|done]]|].
    intros [?|(_&->&->)]; [by left|right]. split_and!; [lia|lia|done].
  - rewrite lookup_insert_ne by done. naive_solver.
Qed.
Lemma log_length_pushed msgs c m c' :
  log_length (pushed msgs c m) c' = log_length msgs c' + (if decide (c' = c) then 1 else 0).
Proof.
  unfold log_length, pushed. case_decide as Hc; subst.
  - rewrite lookup_insert_eq. simpl. by rewrite length_app.
  - rewrite lookup_insert_ne by done. lia.
Qed.
Lemma logged_lt msgs c i m : logged msgs c i m → i < log_length msgs c.
Proof. apply lookup_lt_Some. Qed.
Lemma logged_fun msgs c i m m' : logged msgs c i m → logged msgs c i m' → m = m'.
Proof. unfold logged. congruence. Qed.

Lemma logged_delete msgs c c' i m :
  logged (delete c msgs) c' i m ↔ c' ≠ c ∧ logged msgs c' i m.
Proof.
  unfold logged. destruct (decide (c' = c)) as [->|Hc].
  - rewrite lookup_delete_eq. simpl. naive_solver.
  - rewrite lookup_delete_ne by done. naive_solver.
Qed.

(** The update of the message at one position. *)
Definition updated (msgs : MessageTable) (c : ChannelId) (i : nat) (m : ChatMessage) : MessageTable :=
  <[c := <[i := m]> (default [] (msgs !! c))]> msgs.
Lemma logged_updated msgs c i m m0 c' i' m' :
  logged msgs c i m0 →
  logged (updated msgs c i m) c' i' m' ↔
    (c' = c ∧ i' = i ∧ m' = m) ∨ (¬ (c' = c ∧ i' = i) ∧ logged msgs c' i' m').
Proof.
  intros Hi. assert (i < log_length msgs c) by by eapply logged_lt.
  unfold logged, updated, log_length in *. destruct (decide (c' = c)) as [->|Hc].
  - rewrite lookup_insert_eq. simpl. destruct (decide (i' = i)) as [->|Hi'].
    + rewrite list_lookup_insert_eq by done. naive_solver.
    + rewrite list_lookup_insert_ne by done. naive_solver.
  - rewrite lookup_insert_ne by done. naive_solver.
Qed.
Lemma log_length_updated msgs c i m c' : log_length (updated msgs c i m) c' = log_length msgs c'.
Proof.
  unfold log_length, updated. destruct (decide (c' = c)) as [->|Hc].
  - rewrite lookup_insert_eq. simpl. by rewrite length_insert.
  - by rewrite lookup_insert_ne.
Qed.

Lemma log_length_delete msgs c c' : c' ≠ c → log_length (delete c msgs) c' = log_length msgs c'.
Proof. unfold log_length. intros Hc. by rewrite lookup_delete_ne. Qed.

(** Two messages with one identifier are one message. *)
Lemma log_same chs msgs next c i m c' i' m' :
  log_ok chs msgs next → logged msgs c i m → logged msgs c' i' m' →
  ChatMessage_id m = ChatMessage_id m' → c = c' ∧ i = i' ∧ m = m'.
Proof.
  intros Hok H1 H2 Hid. destruct (log_unique _ _ _ Hok _ _ _ _ _ _ H1 H2 Hid) as [-> ->].
  split_and!; [done..|]. by eapply logged_fun.
Qed.

Lemma log_ok_push chs msgs next c m :
  log_ok chs msgs next → is_Some (chs !! c) →
  (∀ c' i m', logged msgs c' i m' → ChatMessage_id m' ≠ ChatMessage_id m) →
  ChatMessage_channel_id m = c →
  ChatMessage_sequence m = mk_ChannelSequence (N.of_nat (S (log_length msgs c))) →
  (N.of_nat (S (log_length msgs c)) ≤ u64_max)%N →
  ChatMessage_deleted_at m = None →
  (∀ p, ChatMessage_parent_message_id m = Some p →
     ∃ j root, logged msgs c j root ∧ ChatMessage_id root = p
               ∧ ChatMessage_parent_message_id root = None) →
  log_ok chs (pushed msgs c m) (<[c := ChatMessage_sequence m]> next).
Proof.
  intros Hok Hc Hfresh Hch Hseq Hbound Hlive Hpar. constructor.
  - intros c'. unfold pushed. destruct (decide (c' = c)) as [->|]; [done|].
    rewrite !lookup_insert_ne by done. apply Hok.
  - intros c' i m'. rewrite logged_pushed. intros [?|(->&->&->)]; [by eapply log_channel|done].
  - intros c' i m'. rewrite logged_pushed. intros [?|(->&->&->)]; [by eapply log_sequence|done].
  - intros c'. assert (Hb := log_bound _ _ _ Hok c'). rewrite log_length_pushed.
    case_decide; subst; lia.
  - intros c'. rewrite log_length_pushed. case_decide as Heq; subst.
    + rewrite lookup_insert_eq. simpl. rewrite Hseq. simpl. lia.
    + rewrite lookup_insert_ne by done. rewrite Nat.add_0_r. apply Hok.
  - intros c1 i1 m1 c2 i2 m2. rewrite !logged_pushed.
    intros [H1|(->&->&->)] [H2|(->&->&->)] Hid; [by eapply Hok|..|done].
    + by destruct (Hfresh _ _ _ H1).
    + by destruct (Hfresh _ _ _ H2).
  - intros c' i m' p. rewrite logged_pushed. intros [Hl|(->&->&->)] Hp.
    + destruct (log_parent _ _ _ Hok _ _ _ _ Hl Hp) as (j&root&?&?&?&?).
      exists j, root. rewrite logged_pushed. auto.
    + destruct (Hpar _ Hp) as (j&root&Hl&?&?). exists j, root. rewrite logged_pushed.
      split_and!; [by eapply logged_lt|auto..].
  - intros c' i m'. rewrite logged_pushed. intros [?|(->&->&->)]; [by eapply log_deleted|].
    rewrite Hlive. by intros [].
Qed.

(** What an update of a message in place may change. *)
Definition same_place (m m' : ChatMessage) : Prop :=
  ChatMessage_id m' = ChatMessage_id m
  ∧ ChatMessage_channel_id m' = ChatMessage_channel_id m
  ∧ ChatMessage_sender_id m' = ChatMessage_sender_id m
  ∧ ChatMessage_parent_message_id m' = ChatMessage_parent_message_id m
  ∧ ChatMessage_sequence m' = ChatMessage_sequence m.

Lemma log_ok_update chs msgs next c i m m' :
  log_ok chs msgs next → logged msgs c i m → same_place m m' →
  (is_Some (ChatMessage_deleted_at m') →
     ChatMessage_body m' = mk_MessageBody tombstone ∧ ChatMessage_edited_at m' = None) →
  log_ok chs (updated msgs c i m') next.
Proof.
  intros Hok Hl (Hid&Hch&_&Hpar&Hseq) Hdel.
  assert (∀ c' i' x, logged (updated msgs c i m') c' i' x → ∃ y, logged msgs c' i' y
    ∧ ChatMessage_id x = ChatMessage_id y
    ∧ ChatMessage_channel_id x = ChatMessage_channel_id y
    ∧ ChatMessage_parent_message_id x = ChatMessage_parent_message_id y
    ∧ ChatMessage_sequence x = ChatMessage_sequence y) as Hback.
  { intros c' i' x. rewrite logged_updated by done.
    intros [(->&->&->)|[_ ?]]; [exists m|exists x]; split_and!; done. }
  constructor.
  - intros c'. unfold updated. destruct (decide (c' = c)) as [->|].
    + intros _. apply (log_known _ _ _ Hok). left. unfold logged in Hl. by destruct (msgs !! c).
    + rewrite lookup_insert_ne by done. apply Hok.
  - intros c' i' x Hx. destruct (Hback _ _ _ Hx) as (y&Hy&_&->&_). by eapply log_channel.
  - intros c' i' x Hx. destruct (Hback _ _ _ Hx) as (y&Hy&_&_&_&->). by eapply log_sequence.
  - intros c'. rewrite log_length_updated. apply Hok.
  - intros c'. rewrite log_length_updated. apply Hok.
  - intros c1 i1 x1 c2 i2 x2 H1 H2. destruct (Hback _ _ _ H1) as (y1&?&->&_).
    destruct (Hback _ _ _ H2) as (y2&?&->&_). by eapply log_unique.
  - intros c' i' x p Hx. destruct (Hback _ _ _ Hx) as (y&Hy&_&_&->&_). intros Hp.
    destruct (log_parent _ _ _ Hok _ _ _ _ Hy Hp) as (j&root&Hj&Hroot&?&?).
    destruct (decide (c' = c ∧ j = i)) as [[-> ->]|Hne].
    + rewrite (logged_fun _ _ _ _ _ Hroot Hl) in *. exists i, m'.
      rewrite logged_updated by done. split_and!; [done|by left|congruence..].
    + exists j, root. rewrite logged_updated by done. auto.
  - intros c' i' x. rewrite logged_updated by done.
    intros [(->&->&->)|[_ ?]]; [done|by eapply log_deleted].
Qed.

Lemma log_ok_channels chs chs' msgs next :
  (∀ c, is_Some (chs !! c) → is_Some (chs' !! c)) → log_ok chs msgs next → log_ok chs' msgs next.
Proof. intros Hsub []. constructor; auto. Qed.

Lemma log_ok_delete chs msgs next c :
  log_ok chs msgs next → log_ok (delete c chs) (delete c msgs) (delete c next).
Proof.
  intros Hok. constructor.
  - intros c'. destruct (decide (c' = c)) as [->|].
    + rewrite !lookup_delete_eq. by intros [[]|[]].
    + rewrite !lookup_delete_ne by done. apply Hok.
  - intros c' i m [_ Hl]%logged_delete. by eapply log_channel.
  - intros c' i m [_ Hl]%logged_delete. by eapply log_sequence.
  - intros c'. destruct (decide (c' = c)) as [->|Hc].
    + unfold log_length. by rewrite lookup_delete_eq.
    + rewrite log_length_delete by done. apply Hok.
  - intros c'. destruct (decide (c' = c)) as [->|Hc].
    + rewrite lookup_delete_eq. unfold log_length. by rewrite lookup_delete_eq.
    + rewrite lookup_delete_ne, log_length_delete by done. apply Hok.
  - intros c1 i1 m1 c2 i2 m2 [_ H1]%logged_delete [_ H2]%logged_delete. by eapply log_unique.
  - intros c' i m p [Hc Hl]%logged_delete Hp.
    destruct (log_parent _ _ _ Hok _ _ _ _ Hl Hp) as (j&root&?&?&?&?).
    exists j, root. rewrite logged_delete. auto.
  - intros c' i m [_ Hl]%logged_delete. by eapply log_deleted.
Qed.

(** ** The other tables under updates *)

Lemma indexed_insert {K V} `{Countable K} (id : V → K) slug (m : gmap K V) ix v :
  indexed id slug m ix → m !! id v = None → ix !! slug v = None →
  indexed id slug (<[id v := v]> m) (<[slug v := id v]> ix).
Proof.
  intros Hok Hid Hslug. constructor.
  - intros k w. rewrite lookup_insert_Some. intros [[<- <-]|[_ ?]]; [done|by eapply Hok].
  - intros k w. rewrite lookup_insert_Some. intros [[<- <-]|[Hk Hw]]; [by rewrite lookup_insert_eq|].
    apply (indexed_slug _ _ _ _ Hok) in Hw. rewrite lookup_insert_ne; [done|].
    intros Hs. by rewrite Hs, Hw in Hslug.
  - intros s k. rewrite lookup_insert_Some. intros [[<- <-]|[Hs Hk]].
    + exists v. by rewrite lookup_insert_eq.
    + destruct (indexed_back _ _ _ _ Hok _ _ Hk) as (w&Hw&<-). exists w. split; [|done].
      rewrite lookup_insert_ne; [done|]. intros <-. by rewrite Hw in Hid.
Qed.
Lemma indexed_delete {K V} `{Countable K} (id : V → K) slug (m : gmap K V) ix k v :
  indexed id slug m ix → m !! k = Some v →
  indexed id slug (delete k m) (delete (slug v) ix).
Proof.
  intros Hok Hv. constructor.
  - intros k' w. rewrite lookup_delete_Some. intros [_ ?]. by eapply Hok.
  - intros k' w. rewrite lookup_delete_Some. intros [Hk Hw].
    apply lookup_delete_Some. split; [|by eapply Hok]. intros Hs.
    apply (indexed_slug _ _ _ _ Hok) in Hv, Hw. rewrite Hs in Hv. congruence.
  - intros s k'. rewrite lookup_delete_Some. intros [Hs Hk].
    destruct (indexed_back _ _ _ _ Hok _ _ Hk) as (w&Hw&<-). exists w. split; [|done].
    apply lookup_delete_Some. split; [|done]. intros <-. congruence.
Qed.
(** An entry may change under its key when it keeps its identifier and slug. *)
Lemma indexed_update {K V} `{Countable K} (id : V → K) slug (m : gmap K V) ix k v v' :
  indexed id slug m ix → m !! k = Some v → id v' = id v → slug v' = slug v →
  indexed id slug (<[k := v']> m) ix.
Proof.
  intros Hok Hv Hid Hslug. constructor.
  - intros k' w. rewrite lookup_insert_Some. intros [[<- <-]|[_ ?]]; [|by eapply Hok].
    rewrite Hid. by eapply Hok.
  - intros k' w. rewrite lookup_insert_Some. intros [[<- <-]|[_ ?]]; [|by eapply Hok].
    rewrite Hslug. by eapply Hok.
  - intros s k' Hk. destruct (indexed_back _ _ _ _ Hok _ _ Hk) as (w&Hw&<-).
    destruct (decide (k = k')) as [<-|]; [|exists w; by rewrite lookup_insert_ne].
    exists v'. rewrite lookup_insert_eq. by simplify_eq.
Qed.

Lemma member_ok_mono us us' chs chs' msgs msgs' c u m :
  member_ok us chs msgs c u m → (is_Some (us !! u) → is_Some (us' !! u)) →
  (is_Some (chs !! c) → is_Some (chs' !! c)) → log_length msgs c ≤ log_length msgs' c →
  member_ok us' chs' msgs' c u m.
Proof. intros [] ???. constructor; auto. lia. Qed.
Lemma member_ok_new us chs msgs c u role :
  is_Some (us !! u) → is_Some (chs !! c) → member_ok us chs msgs c u (new_member c role u).
Proof. intros. constructor; simpl; auto. lia. Qed.

Lemma private_ok_change chs personal direct groups expansions ms chs' ms' :
  private_ok chs personal direct groups expansions ms →
  (∀ c, closed chs c → closed chs' c) →
  (∀ c v, closed chs c → is_Some (ms' !! (c, v)) → is_Some (ms !! (c, v))) →
  private_ok chs' personal direct groups expansions ms'.
Proof.
  intros Hok Hclosed Hms. constructor.
  - intros. by eapply Hclosed, private_personal.
  - intros. eapply private_personal_only; [done..|]. eapply Hms; [|done].
    by eapply private_personal.
  - intros a b c Hd. destruct (private_direct _ _ _ _ _ _ Hok _ _ _ Hd). auto.
  - intros. eapply private_direct_only; [done..|]. eapply Hms; [|done].
    by eapply private_direct.
  - intros. by eapply Hclosed, private_group.
  - intros. by eapply Hclosed, private_expansion.
Qed.
Lemma closed_lookup chs c ch :
  closed chs c → chs !! c = Some ch → Channel_kind ch = Private ∧ Channel_circle_id ch = None
                                       ∧ is_general_slug (Channel_slug ch) = false.
Proof. intros (ch'&?&?&?&?) ?. by simplify_eq. Qed.

#[export] Hint Resolve logged_lt log_ok_channels : sproyt.
