(* ===== verification/WfMessages.v ===== *)
(** * WfMessages: the message operations preserve the invariant

    For each method of [RepoMessages] that writes, its case analysis (the error,
    with the state unchanged, or the exact effect) and the preservation of [wf]
    on every path. Generated identifiers are assumed unused, as UUIDs are. *)

From Stdlib Require Import ZifyBool.
From stdpp Require Import base tactics numbers strings countable sorting gmap list.
From S2P Require Import Prelude RustStr Text Ids Models Policy RepoState RepoMessages RepoChannels RepoCircles RepoUsers RepoWf.

(** Split [wf] into its tables and keep the goals about tables that change. *)
Ltac wf_frame Hwf :=
  first [exact (wf_log _ Hwf) | exact (wf_channels _ Hwf) | exact (wf_circles _ Hwf)
        | exact (wf_members _ Hwf) | exact (wf_receipts _ Hwf) | exact (wf_reactions _ Hwf)
        | exact (wf_accounts _ Hwf) | exact (wf_circle_members _ Hwf)
        | exact (wf_private _ Hwf) | exact (wf_circle_channels _ Hwf)
        | exact (wf_emojis _ Hwf) | exact (wf_statuses _ Hwf) | exact (wf_enrollments _ Hwf)].
Ltac wf_tables Hwf := constructor; simpl; try first [assumption | wf_frame Hwf].

(** ** Searches in the log *)

Lemma find_in_entries_Some p es c m :
  find_in_entries p es = Some (c, m) → ∃ ms, (c, ms) ∈ es ∧ find_first p ms = Some m.
Proof.
  induction es as [|[c' ms] es IH]; simpl; [done|].
  destruct (find_first p ms) eqn:E; intros; simplify_eq; [exists ms; set_solver|].
  destruct (IH ltac:(done)) as (ms'&?&?). exists ms'. set_solver.
Qed.
Lemma find_in_entries_None p es c ms :
  find_in_entries p es = None → (c, ms) ∈ es → find_first p ms = None.
Proof.
  induction es as [|[c' ms'] es IH]; simpl; [set_solver|].
  destruct (find_first p ms') eqn:E; [done|]. rewrite elem_of_cons. intros Hn [?|?]; [|auto].
  by simplify_eq.
Qed.

Lemma find_entry_Some p st c m :
  find_message_entry p st = Some (c, m) →
  ∃ i, logged (messages st) c i m ∧ p m = true
       ∧ ∀ j y, j < i → logged (messages st) c j y → p y = false.
Proof.
  intros (ms&Hms&Hf)%find_in_entries_Some. apply elem_of_map_to_list in Hms.
  destruct (find_first_Some _ _ _ Hf) as (i&Hi&Hp&Hmin). exists i.
  unfold logged. rewrite Hms. auto.
Qed.
Lemma find_entry_None p st :
  find_message_entry p st = None → ∀ c i m, logged (messages st) c i m → p m = false.
Proof.
  intros Hn c i m. unfold logged. destruct (messages st !! c) as [ms|] eqn:E; simpl; [|done].
  apply elem_of_map_to_list in E. eapply find_first_None, find_in_entries_None; done.
Qed.
Lemma find_message_Some p st m :
  find_message p st = Some m → ∃ c i, logged (messages st) c i m ∧ p m = true.
Proof.
  unfold find_message. destruct (find_message_entry p st) as [[c m']|] eqn:E; simpl; [|done].
  intros; simplify_eq. destruct (find_entry_Some _ _ _ _ E) as (i&?&?&_). by exists c, i.
Qed.
Lemma find_message_None p st :
  find_message p st = None → ∀ c i m, logged (messages st) c i m → p m = false.
Proof.
  unfold find_message. destruct (find_message_entry p st) eqn:E; [done|]. intros _.
  by apply find_entry_None.
Qed.
Lemma has_id_true id m : has_id id m = true ↔ ChatMessage_id m = id.
Proof. unfold has_id. by rewrite bool_decide_eq_true. Qed.

(** Identifiers are unique, so a search by identifier finds the message. *)
Lemma find_message_id st c i m :
  wf st → logged (messages st) c i m →
  find_message_entry (has_id (ChatMessage_id m)) st = Some (c, m).
Proof.
  intros Hwf Hl. destruct (find_message_entry _ _) as [[c' m']|] eqn:E.
  - destruct (find_entry_Some _ _ _ _ E) as (i'&Hl'&Hid&_). apply has_id_true in Hid.
    by destruct (log_same _ _ _ _ _ _ _ _ _ (wf_log _ Hwf) Hl' Hl Hid) as (->&_&->).
  - apply (find_entry_None _ _ E) in Hl. unfold has_id in Hl. by bool_facts.
Qed.

(** A search for a root finds it. *)
Lemma find_root st c i m :
  wf st → logged (messages st) c i m → ChatMessage_parent_message_id m = None →
  find_message (is_root (ChatMessage_id m)) st = Some m.
Proof.
  intros Hwf Hl Hp. destruct (find_message _ st) as [m'|] eqn:E.
  - destruct (find_message_Some _ _ _ E) as (c'&i'&Hl'&Hr). unfold is_root in Hr. bool_facts.
    by destruct (log_same _ _ _ _ _ _ _ _ _ (wf_log _ Hwf) Hl' Hl ltac:(done)) as (_&_&->).
  - apply (find_message_None _ _ E) in Hl. unfold is_root in Hl.
    by rewrite !bool_decide_true in Hl.
Qed.

(** The in-place mutation of the message a search by identifier found. *)
Lemma modify_message_updated st id c m f :
  find_message_entry (has_id id) st = Some (c, m) →
  ∃ i, logged (messages st) c i m ∧ ChatMessage_id m = id
       ∧ modify_message c (has_id id) f st
         = st <| messages := updated (messages st) c i (f m) |>.
Proof.
  intros (i&Hl&Hid&Hmin)%find_entry_Some. exists i. split; [done|].
  split; [by apply has_id_true|]. unfold modify_message.
  assert (alter (modify_first (has_id id) f) c (messages st)
          = updated (messages st) c i (f m)) as ->; [|done].
  unfold updated, logged in *. destruct (messages st !! c) as [ms|] eqn:E; simpl in *; [|done].
  apply map_eq. intros c'. destruct (decide (c' = c)) as [->|].
  - rewrite lookup_alter_eq, E, lookup_insert_eq. simpl. f_equal. by apply modify_first_alter.
  - by rewrite lookup_alter_ne, lookup_insert_ne.
Qed.

Lemma last_sequence_length st c :
  wf st → last_sequence st c = mk_ChannelSequence (N.of_nat (log_length (messages st) c)).
Proof.
  intros Hwf. unfold last_sequence, channel_messages, log_length.
  destruct (last _) as [m|] eqn:E.
  - rewrite last_lookup in E. rewrite (log_sequence _ _ _ (wf_log _ Hwf) c _ _ E).
    apply lookup_lt_Some in E. do 2 f_equal. lia.
  - apply last_None in E. by rewrite E.
Qed.

(** [next_sequence] gives the position after the log, or fails without effect. *)
Lemma next_sequence_cases st c r st' :
  wf st → next_sequence c st = (r, st') →
  (∃ e, r = Err e ∧ st' = st) ∨
  (let q := mk_ChannelSequence (N.of_nat (S (log_length (messages st) c))) in
   (N.of_nat (S (log_length (messages st) c)) ≤ u64_max)%N
   ∧ r = Ok q ∧ st' = st <| next_sequences := <[c := q]> (next_sequences st) |>).
Proof.
  intros Hwf H. assert (Hn := log_next _ _ _ (wf_log _ Hwf) c).
  unfold next_sequence in H. st_simpl H. destruct (next_sequences st !! c) as [q|]; simpl in Hn.
  - unfold ChannelSequence_checked_next in H. destruct (_ <? _)%N eqn:Hlt; simplify_eq; [right|left; eauto].
    rewrite Hn in *. replace (N.of_nat (log_length (messages st) c) + 1)%N
      with (N.of_nat (S (log_length (messages st) c))) by lia. split; [lia|done].
  - simplify_eq. right. rewrite <-(Nat2N.id (log_length _ c)), <-Hn. done.
Qed.

Lemma next_sequence_exhausted st c e st' :
  wf st → next_sequence c st = (Err e, st') → (u64_max ≤ N.of_nat (log_length (messages st) c))%N.
Proof.
  intros Hwf H. assert (Hn := log_next _ _ _ (wf_log _ Hwf) c).
  unfold next_sequence in H. st_simpl H. destruct (next_sequences st !! c) as [q|]; simpl in Hn;
    simplify_eq. unfold ChannelSequence_checked_next in H. destruct (_ <? _)%N eqn:E; simplify_eq. lia.
Qed.

(** ** Messages *)

(** The parent test finds a live root in the channel. *)
Lemma check_parent_ok st c p :
  check_parent st c p = Ok tt → ∀ id, p = Some id →
  ∃ j root, logged (messages st) c j root ∧ ChatMessage_id root = id
            ∧ ChatMessage_parent_message_id root = None ∧ ChatMessage_deleted_at root = None.
Proof.
  intros H id ->. simpl in H. destruct (find_first _ _) as [root|] eqn:E; [|done].
  simpl in H. destruct (_ || _) eqn:Eb; [done|]. bool_facts.
  destruct (find_first_Some _ _ _ E) as (j&?&?%has_id_true&_).
  exists j, root. split_and!; [done|done|..]; by apply eq_None_not_Some.
Qed.

Lemma role_in_Some st c u role :
  role_in st c u = Some role → ∃ m, memberships st !! (c, u) = Some m ∧ Membership_role m = role.
Proof. unfold role_in. by intros (m&?&?)%fmap_Some; exists m. Qed.
Lemma can_send_member st c u :
  can_send_to_channel (role_in st c u) = true → is_Some (memberships st !! (c, u)).
Proof. unfold role_in. by destruct (memberships st !! (c, u)). Qed.
Lemma can_read_member st c u :
  can_read_channel (role_in st c u) = true ↔ is_Some (memberships st !! (c, u)).
Proof. unfold role_in. destruct (memberships st !! (c, u)); simpl; naive_solver. Qed.

Definition fresh_message (st : RepositoryState) (id : MessageId) : Prop :=
  ∀ c i m, logged (messages st) c i m → ChatMessage_id m ≠ id.

(** Appending a new live message at the end of a channel, with its receipt. *)
Lemma wf_push st c m rs :
  wf st → is_Some (channels st !! c) → fresh_message st (ChatMessage_id m) →
  ChatMessage_channel_id m = c →
  ChatMessage_sequence m = mk_ChannelSequence (N.of_nat (S (log_length (messages st) c))) →
  (N.of_nat (S (log_length (messages st) c)) ≤ u64_max)%N →
  ChatMessage_deleted_at m = None →
  (∀ p, ChatMessage_parent_message_id m = Some p →
     ∃ j root, logged (messages st) c j root ∧ ChatMessage_id root = p
               ∧ ChatMessage_parent_message_id root = None) →
  receipts_ok (pushed (messages st) c m) rs →
  wf (st <| next_sequences := <[c := ChatMessage_sequence m]> (next_sequences st) |>
         <| command_receipts := rs |>
         <| messages := pushed (messages st) c m |>).
Proof.
  intros Hwf Hc Hfresh Hch Hseq Hbound Hlive Hpar Hrs. wf_tables Hwf.
  - apply log_ok_push; [apply Hwf|done..].
  - intros c' u m' Hm'. eapply member_ok_mono; [by eapply (wf_members _ Hwf)|done..|].
    rewrite log_length_pushed. lia.
  - intros c' i m' u e. rewrite logged_pushed.
    intros [Hl|(->&->&->)]; [by eapply (wf_reactions _ Hwf)|done].
Qed.
Lemma receipts_ok_push msgs c m rs : receipts_ok msgs rs → receipts_ok (pushed msgs c m) rs.
Proof.
  intros Hrs u rid id (c'&i&m'&?&?&?)%Hrs. exists c', i, m'. rewrite logged_pushed. auto.
Qed.

(** Updating one message in place. *)
Lemma wf_update st c i m m' rs :
  wf st → logged (messages st) c i m → same_place m m' →
  (is_Some (ChatMessage_deleted_at m') →
     ChatMessage_body m' = mk_MessageBody tombstone ∧ ChatMessage_edited_at m' = None) →
  rs ⊆ message_reactions st →
  (is_Some (ChatMessage_deleted_at m') → ∀ u e, (ChatMessage_id m, u, e) ∉ rs) →
  wf (st <| messages := updated (messages st) c i m' |> <| message_reactions := rs |>).
Proof.
  intros Hwf Hl Hsame Hdel Hsub Hrs. wf_tables Hwf.
  - eapply log_ok_update; [apply Hwf|done..].
  - intros c' u x Hx. eapply member_ok_mono; [by eapply (wf_members _ Hwf)|done..|].
    by rewrite log_length_updated.
  - intros u rid id (c'&j&x&Hx&<-&<-)%(wf_receipts _ Hwf).
    destruct Hsame as (Hid&_&Hs&_). destruct (decide (c' = c ∧ j = i)) as [[-> ->]|Hne].
    + rewrite (logged_fun _ _ _ _ _ Hx Hl). exists c, i, m'. rewrite logged_updated by done. auto.
    + exists c', j, x. rewrite logged_updated by done. auto.
  - intros c' j x u e. rewrite logged_updated by done. intros [(->&->&->)|[_ Hx]] Hin.
    + destruct (ChatMessage_deleted_at m') eqn:E; [|done]. destruct Hsame as (Hid&_).
      rewrite Hid in Hin. by destruct (Hrs ltac:(done) u e).
    + eapply (wf_reactions _ Hwf); [done|]. by apply Hsub.
Qed.

(** The sender of an accepted message is a known user. *)
Lemma sender_known st c u :
  wf st → can_send_to_channel (role_in st c u) = true → is_Some (users st !! u).
Proof. intros Hwf [m Hm]%can_send_member. by eapply member_user, (wf_members _ Hwf). Qed.
Lemma sender_channel st c u :
  wf st → can_send_to_channel (role_in st c u) = true → is_Some (channels st !! c).
Proof. intros Hwf [m Hm]%can_send_member. by eapply member_channel, (wf_members _ Hwf). Qed.

(** The message a send appends. *)
Definition sent_message (st : RepositoryState) (id : MessageId) (now : DateTime)
    (cmd : SendMessage) (name : DisplayName) : ChatMessage := {|
  ChatMessage_id := id;
  ChatMessage_channel_id := SendMessage_channel_id cmd;
  ChatMessage_parent_message_id := SendMessage_parent_message_id cmd;
  ChatMessage_sender_id := SendMessage_actor cmd;
  ChatMessage_sender_display_name := name;
  ChatMessage_body := SendMessage_body cmd;
  ChatMessage_sequence :=
    mk_ChannelSequence (N.of_nat (S (log_length (messages st) (SendMessage_channel_id cmd))));
  ChatMessage_sent_at := persisted_now now;
  ChatMessage_edited_at := None;
  ChatMessage_deleted_at := None |}.

(** The state after a send: the message, its number and its receipts. *)
Definition sent_state (st : RepositoryState) (m : ChatMessage)
    (rs : gmap (UserId * str) MessageId) : RepositoryState :=
  let c := ChatMessage_channel_id m in
  st <| next_sequences := <[c := ChatMessage_sequence m]> (next_sequences st) |>
     <| command_receipts := rs |>
     <| messages := pushed (messages st) c m |>.

(** A send either fails and changes nothing, or appends its message. *)
Definition may_send (st : RepositoryState) (cmd : SendMessage) : Prop :=
  can_send_to_channel (role_in st (SendMessage_channel_id cmd) (SendMessage_actor cmd)) = true
  ∧ check_parent st (SendMessage_channel_id cmd) (SendMessage_parent_message_id cmd) = Ok tt
  ∧ (N.of_nat (S (log_length (messages st) (SendMessage_channel_id cmd))) ≤ u64_max)%N.

Lemma check_parent_no_panic st c p : check_parent st c p ≠ Panic.
Proof.
  destruct p as [p|]; simpl; [|done]. destruct (find_first _ _); simpl; [|done].
  by destruct (_ || _).
Qed.

(** Close the failing paths of a send, and number the successful one. *)
Ltac send_paths Hwf :=
  try match goal with E : next_sequence _ _ = _ |- _ =>
    destruct (next_sequence_cases _ _ _ _ Hwf E) as [(?&?&?)|(?&?&?)]; simplify_eq end;
  try match goal with E : check_parent _ _ _ = Panic |- _ =>
    by destruct (check_parent_no_panic _ _ _ E) end;
  try (left; eauto; fail).

Lemma append_message_cases id now cmd st r st' :
  wf st → append_message id now cmd st = (r, st') →
  (∃ e, r = Err e ∧ st' = st) ∨
  (∃ name, let m := sent_message st id now cmd name in
     User_display_name <$> users st !! SendMessage_actor cmd = Some name ∧ may_send st cmd
     ∧ r = Ok m ∧ st' = sent_state st m (command_receipts st)).
Proof.
  intros Hwf H. unfold append_message in H. run_st H; send_paths Hwf.
  - right. eexists. split; [done|]. by destruct a.
  - destruct (sender_known _ _ _ Hwf E) as [x Hx]. by rewrite Hx in *.
Qed.

Lemma append_message_idempotent_cases id now cmd rid st r st' :
  wf st → append_message_idempotent id now cmd rid st = (r, st') →
  let key := (SendMessage_actor cmd, rid) in
  (∃ e, r = Err e ∧ st' = st) ∨
  (∃ m, command_receipts st !! key = Some (ChatMessage_id m)
     ∧ find_message (has_id (ChatMessage_id m)) st = Some m
     ∧ ChatMessage_channel_id m = SendMessage_channel_id cmd
     ∧ ChatMessage_parent_message_id m = SendMessage_parent_message_id cmd
     ∧ ChatMessage_body m = SendMessage_body cmd ∧ r = Ok m ∧ st' = st) ∨
  (∃ name, let m := sent_message st id now cmd name in
     command_receipts st !! key = None
     ∧ User_display_name <$> users st !! SendMessage_actor cmd = Some name ∧ may_send st cmd
     ∧ r = Ok m ∧ st' = sent_state st m (<[key := id]> (command_receipts st))).
Proof.
  intros Hwf H. unfold append_message_idempotent in H. run_st H; send_paths Hwf.
  - right. left. exists c. bool_facts. destruct (find_message_Some _ _ _ E0) as (?&?&_&Hid).
    apply has_id_true in Hid. subst m. by split_and!.
  - right. right. eexists. split; [done|]. split; [done|]. by destruct a.
  - destruct (sender_known _ _ _ Hwf E0) as [x Hx]. by rewrite Hx in *.
Qed.

(** Sending preserves the invariant when the generated identifier is unused. *)
Lemma sent_state_wf st id now cmd name rs :
  wf st → fresh_message st id → may_send st cmd →
  receipts_ok (pushed (messages st) (SendMessage_channel_id cmd) (sent_message st id now cmd name)) rs →
  wf (sent_state st (sent_message st id now cmd name) rs).
Proof.
  intros Hwf Hfresh (Hsend & Hpar & Hbound) Hrs. apply wf_push; try done.
  - by eapply sender_channel.
  - intros p Hp. destruct (check_parent_ok _ _ _ Hpar p Hp) as (j&root&?&?&?&_). eauto.
Qed.
Lemma append_message_wf id now cmd st r st' :
  wf st → fresh_message st id → append_message id now cmd st = (r, st') → wf st'.
Proof.
  intros Hwf Hfresh [(e&_&->)|(name&_&Hmay&_&->)]%append_message_cases; [done| |done].
  apply sent_state_wf; [done..|]. apply receipts_ok_push, Hwf.
Qed.
Lemma append_message_idempotent_wf id now cmd rid st r st' :
  wf st → fresh_message st id → append_message_idempotent id now cmd rid st = (r, st') → wf st'.
Proof.
  intros Hwf Hfresh [(e&_&->)|[(m&_&_&_&_&_&_&->)|(name&_&_&Hmay&_&->)]]%append_message_idempotent_cases;
    [done|done| |done].
  apply sent_state_wf; [done..|]. intros u rid' id'. rewrite lookup_insert_Some.
  intros [[? <-]|[_ Hr]]; simplify_eq.
  - do 3 eexists. split; [apply logged_pushed; right; eauto|done].
  - by eapply receipts_ok_push; [apply Hwf|].
Qed.

Lemma edit_message_cases now cmd st r st' :
  edit_message now cmd st = (r, st') →
  (∃ e, r = Err e ∧ st' = st) ∨
  (∃ c i m, let m' := m <| ChatMessage_body := EditMessage_body cmd |>
                        <| ChatMessage_edited_at := Some (persisted_now now) |> in
     logged (messages st) c i m ∧ ChatMessage_id m = EditMessage_message_id cmd
     ∧ ChatMessage_sender_id m = EditMessage_actor cmd ∧ ChatMessage_deleted_at m = None
     ∧ r = Ok m' ∧ st' = st <| messages := updated (messages st) c i m' |>).
Proof.
  intros H. unfold edit_message in H. run_st H; try (left; eauto; fail). bool_facts. right.
  destruct (modify_message_updated _ _ _ _ (λ m, m <| ChatMessage_body := EditMessage_body cmd |>
    <| ChatMessage_edited_at := Some (persisted_now now) |>) E) as (i&Hl&Hid&Hst).
  exists c, i, c0. split_and!; [done..|by apply eq_None_not_Some|done|exact Hst].
Qed.
Lemma edit_message_wf now cmd st r st' :
  wf st → edit_message now cmd st = (r, st') → wf st'.
Proof.
  intros Hwf [(e&_&->)|(c&i&m&Hl&Hid&_&Hlive&_&->)]%edit_message_cases; [done|].
  apply (wf_update st c i m _ (message_reactions st)); [done..|simpl|done|simpl];
    rewrite Hlive; by intros [].
Qed.

Lemma tombstone_body : MessageBody_new tombstone = Ok (mk_MessageBody tombstone).
Proof. reflexivity. Qed.
Lemma delete_message_cases now cmd st r st' :
  delete_message now cmd st = (r, st') →
  (∃ e, r = Err e ∧ st' = st) ∨
  (∃ c i m, logged (messages st) c i m ∧ ChatMessage_id m = DeleteMessage_message_id cmd
     ∧ may_delete st (DeleteMessage_actor cmd) m = true
     ∧ is_Some (ChatMessage_deleted_at m) ∧ r = Ok m ∧ st' = st) ∨
  (∃ c i m, let m' := m <| ChatMessage_body := mk_MessageBody tombstone |>
                        <| ChatMessage_edited_at := None |>
                        <| ChatMessage_deleted_at := Some (persisted_now now) |> in
     logged (messages st) c i m ∧ ChatMessage_id m = DeleteMessage_message_id cmd
     ∧ may_delete st (DeleteMessage_actor cmd) m = true
     ∧ ChatMessage_deleted_at m = None ∧ r = Ok m'
     ∧ st' = st <| messages := updated (messages st) c i m' |>
                <| message_reactions := filter (λ x, x.1.1 ≠ DeleteMessage_message_id cmd)
                                          (message_reactions st) |>).
Proof.
  intros H. unfold delete_message in H. rewrite tombstone_body in H.
  cbv beta iota zeta delta [st_bind get st_lift ensure st_ret modify expect] in H.
  destruct (find_message_entry _ st) as [[c m]|] eqn:E; simpl in H; [|left; simplify_eq; eauto].
  destruct (modify_message_updated _ _ _ _ (λ m, m <| ChatMessage_body := mk_MessageBody tombstone |>
    <| ChatMessage_edited_at := None |>
    <| ChatMessage_deleted_at := Some (persisted_now now) |>) E) as (i&Hl&Hid&Hst).
  destruct (may_delete _ _ _) eqn:Hmay in H; [|left; simplify_eq; eauto].
  case_decide as Hd; simplify_eq; right; [right|left].
  - exists c, i, m. split_and!; [done..|]. by rewrite Hst.
  - exists c, i, m. split_and!; [done..| |done|done]. by apply not_eq_None_Some.
Qed.
Lemma delete_message_wf now cmd st r st' :
  wf st → delete_message now cmd st = (r, st') → wf st'.
Proof.
  intros Hwf [(e&_&->)|[(c&i&m&_&_&_&_&_&->)|(c&i&m&Hl&Hid&_&_&_&->)]]%delete_message_cases; [done..|].
  apply (wf_update st c i m); [done..|set_solver|]. intros _ u e. set_solver.
Qed.

Lemma mark_read_cases cmd st r st' :
  mark_read cmd st = (r, st') →
  (∃ e, r = Err e ∧ st' = st) ∨
  (∃ m, let key := (MarkRead_channel_id cmd, MarkRead_actor cmd) in
     let m' := if seq_lt (Membership_last_read_sequence m) (MarkRead_sequence cmd)
               then m <| Membership_last_read_sequence := MarkRead_sequence cmd |> else m in
     memberships st !! key = Some m
     ∧ (seq_u64 (MarkRead_sequence cmd) ≤ seq_u64 (last_sequence st (MarkRead_channel_id cmd)))%N
     ∧ r = Ok m' ∧ st' = st <| memberships := <[key := m']> (memberships st) |>).
Proof.
  intros H. unfold mark_read in H. st_simpl H.
  destruct (negb _) eqn:E; simplify_eq; [|left; eauto].
  destruct (memberships st !! _) as [m|] eqn:Em; simplify_eq; [right|left; eauto].
  exists m. bool_facts. unfold seq_lt in E. split_and!; [done|lia|done|done].
Qed.
(** Replacing a membership by one that keeps its key. *)
Lemma wf_member st c u m m' :
  wf st → memberships st !! (c, u) = Some m →
  member_ok (users st) (channels st) (messages st) c u m' →
  wf (st <| memberships := <[(c, u) := m']> (memberships st) |>).
Proof.
  intros Hwf Hm Hm'. wf_tables Hwf.
  - intros c' u' x. rewrite lookup_insert_Some. intros [[? <-]|[_ Hx]]; simplify_eq; [done|].
    by eapply (wf_members _ Hwf).
  - eapply private_ok_change; [apply Hwf|done|]. intros c' v _.
    destruct (decide ((c', v) = (c, u))); simplify_eq; [done|by rewrite lookup_insert_ne].
  - intros c' ch k v Hch Hk Hg. destruct (decide ((c', v) = (c, u))); simplify_eq.
    + intros _. by eapply (wf_circle_channels _ Hwf).
    + rewrite lookup_insert_ne by done. by eapply (wf_circle_channels _ Hwf).
Qed.
Lemma mark_read_wf cmd st r st' : wf st → mark_read cmd st = (r, st') → wf st'.
Proof.
  intros Hwf [(e&_&->)|(m&Hm&Hle&_&->)]%mark_read_cases; [done|].
  apply (wf_member _ _ _ m); [done..|]. destruct (wf_members _ Hwf _ _ _ Hm).
  rewrite last_sequence_length in Hle by done. by case_match; constructor.
Qed.

Lemma mark_thread_read_wf actor root seq st r st' :
  wf st → mark_thread_read actor root seq st = (r, st') → wf st'.
Proof. intros Hwf H. unfold mark_thread_read in H. run_st H; try done; wf_tables Hwf. Qed.

Lemma toggle_cases actor id emoji st r st' :
  toggle_message_reaction actor id emoji st = (r, st') →
  (∃ e, r = Err e ∧ st' = st) ∨
  (∃ c i m x, let key := (id, actor, emoji) in
     let rs := if decide (key ∈ message_reactions st) then message_reactions st ∖ {[key]}
               else {[key]} ∪ message_reactions st in
     logged (messages st) c i m ∧ ChatMessage_id m = id ∧ ChatMessage_deleted_at m = None
     ∧ is_Some (memberships st !! (ChatMessage_channel_id m, actor))
     ∧ r = Ok x ∧ MessageReactionChange_message_id x = id
     ∧ MessageReactionChange_channel_id x = ChatMessage_channel_id m
     ∧ MessageReactionChange_user_id x = actor ∧ MessageReactionChange_emoji x = emoji
     ∧ MessageReactionChange_added x = bool_decide (key ∉ message_reactions st)
     ∧ MessageReactionChange_count x
       = as_u32 (size (filter (λ r, r.1.1 = id ∧ r.2 = emoji) rs))
     ∧ st' = st <| message_reactions := rs |>).
Proof.
  intros H. unfold toggle_message_reaction in H. st_simpl H.
  destruct (find_message _ st) as [m|] eqn:E; simplify_eq; [|left; eauto].
  destruct (negb (bool_decide (is_Some (ChatMessage_deleted_at m)))) eqn:Ed; simplify_eq; [|left; eauto].
  destruct (contains_key _ _) eqn:Em; simplify_eq; [|left; eauto].
  right. destruct (find_message_Some _ _ _ E) as (c&i&Hl&Hid). apply has_id_true in Hid.
  bool_facts. apply eq_None_not_Some in Ed.
  exists c, i, m. eexists. simpl. split_and!; try done.
  - simpl. by rewrite bool_decide_not.
  - simpl. by case_decide; [rewrite bool_decide_true|rewrite bool_decide_false].
  - by case_decide; [rewrite bool_decide_true|rewrite bool_decide_false].
Qed.
Lemma toggle_message_reaction_wf actor id emoji st r st' :
  wf st → toggle_message_reaction actor id emoji st = (r, st') → wf st'.
Proof.
  intros Hwf [(e&_&->)|(c&i&m&x&Hl&Hid&Hlive&_&_&_&_&_&_&_&_&->)]%toggle_cases; [done|].
  wf_tables Hwf. intros c' i' m' u e Hl' Hin.
  destruct (decide (ChatMessage_id m' = id)) as [Heq|Hne].
  - rewrite <-Hid in Heq. by destruct (log_same _ _ _ _ _ _ _ _ _ (wf_log _ Hwf) Hl' Hl Heq) as (_&_&->).
  - apply (wf_reactions _ Hwf _ _ _ u e Hl'). case_decide; set_solver.
Qed.
