(* ===== verification/WfChannels.v ===== *)
(** * WfChannels: the channel operations preserve the invariant

    Personal spaces, direct conversations, shared channels and their members. *)

From Stdlib Require Import ZifyBool.
From stdpp Require Import base tactics numbers strings countable sorting gmap list.
From S2P Require Import Prelude RustStr Text Ids Models Policy RepoState RepoMessages RepoChannels RepoWf WfMessages.

(** ** Channels *)

(** Registering a new channel together with its first members. *)
Lemma wf_new_channel st ch ms' :
  wf st → channels st !! Channel_id ch = None → channels_by_slug st !! Channel_slug ch = None →
  (∀ c u, c ≠ Channel_id ch → ms' !! (c, u) = memberships st !! (c, u)) →
  (∀ u m, ms' !! (Channel_id ch, u) = Some m →
     ∃ role, m = new_member (Channel_id ch) role u ∧ is_Some (users st !! u)
             ∧ ∀ k, Channel_circle_id ch = Some k → is_Some (circle_memberships st !! (k, u))) →
  wf (insert_channel ch st <| memberships := ms' |>).
Proof.
  intros Hwf Hid Hslug Hother Hnew.
  assert (∀ c, is_Some (channels st !! c) → is_Some (<[Channel_id ch := ch]> (channels st) !! c))
    as Hgrow by (intros c Hc; apply lookup_insert_is_Some'; auto).
  assert (∀ c, closed (channels st) c → c ≠ Channel_id ch) as Hne.
  { by intros c (ch'&Hc&_) ->; rewrite Hid in Hc. }
  wf_tables Hwf.
  - eapply log_ok_channels; [exact Hgrow|apply Hwf].
  - apply indexed_insert; [apply Hwf|done..].
  - intros c u m Hm. destruct (decide (c = Channel_id ch)) as [->|Hc].
    + destruct (Hnew u m Hm) as (role&->&Hu&_). apply member_ok_new; [done|].
      by rewrite lookup_insert_eq.
    + rewrite Hother in Hm by done. eapply member_ok_mono; [by eapply (wf_members _ Hwf)|auto..].
  - eapply private_ok_change; [apply Hwf|..].
    + intros c Hc. assert (Hc' := Hne c Hc). destruct Hc as (ch'&?&?). exists ch'.
      by rewrite lookup_insert_ne.
    + intros c v Hc. by rewrite Hother by auto.
  - intros c ch' k u. rewrite lookup_insert_Some. intros [[<- <-]|[Hc Hch]] Hk Hg.
    + intros [m Hm]. by destruct (Hnew u m Hm) as (role&_&_&?); auto.
    + rewrite Hother by done. by eapply (wf_circle_channels _ Hwf).
Qed.

(** Recording a closed channel as a personal space or a conversation. *)
Lemma wf_personal st u c n :
  wf st → closed (channels st) c → (∀ v, is_Some (memberships st !! (c, v)) → v = u) →
  wf (st <| personal_spaces := <[u := (c, n)]> (personal_spaces st) |>).
Proof.
  intros Hwf Hc Honly. wf_tables Hwf. destruct (wf_private _ Hwf). constructor; try done.
  - intros u' c' n'. rewrite lookup_insert_Some. intros [[-> ?]|[_ ?]]; simplify_eq; eauto.
  - intros u' c' n' v. rewrite lookup_insert_Some. intros [[-> ?]|[_ ?]]; simplify_eq; eauto.
Qed.
Lemma wf_direct st a b c :
  wf st → closed (channels st) c → UserId_lt a b = true →
  (∀ v, is_Some (memberships st !! (c, v)) → v = a ∨ v = b) →
  wf (st <| direct_conversations := <[(a, b) := c]> (direct_conversations st) |>).
Proof.
  intros Hwf Hc Hlt Honly. wf_tables Hwf. destruct (wf_private _ Hwf). constructor; try done.
  - intros a' b' c'. rewrite lookup_insert_Some. intros [[? ?]|[_ ?]]; simplify_eq; eauto.
  - intros a' b' c' v. rewrite lookup_insert_Some. intros [[? ?]|[_ ?]]; simplify_eq; eauto.
Qed.
Lemma wf_group st c src u :
  wf st → closed (channels st) c →
  wf (st <| direct_group_conversations := <[c := src]> (direct_group_conversations st) |>
         <| direct_expansions := <[(src, u) := c]> (direct_expansions st) |>).
Proof.
  intros Hwf Hc. wf_tables Hwf. destruct (wf_private _ Hwf). constructor; try done.
  - intros c' src'. rewrite lookup_insert_Some. intros [[? ?]|[_ ?]]; simplify_eq; eauto.
  - intros a b c'. rewrite lookup_insert_Some. intros [[? ?]|[_ ?]]; simplify_eq; eauto.
Qed.
Lemma closed_new st ch ms :
  Channel_kind ch = Private → Channel_circle_id ch = None →
  is_general_slug (Channel_slug ch) = false →
  closed (channels (insert_channel ch st <| memberships := ms |>)) (Channel_id ch).
Proof. intros. exists ch. simpl. by rewrite lookup_insert_eq. Qed.

(** The membership loops touch one channel only, and add fresh members to it. *)
Lemma insert_members_other c members ms c' u :
  c' ≠ c → insert_members c members ms !! (c', u) = ms !! (c', u).
Proof.
  intros Hc. unfold insert_members. revert ms.
  induction members as [|[v role] members IH]; intros ms; simpl; [done|].
  rewrite IH. apply lookup_insert_ne. congruence.
Qed.
Lemma insert_members_new c members ms u m :
  insert_members c members ms !! (c, u) = Some m →
  ms !! (c, u) = Some m ∨ ∃ role, (u, role) ∈ members ∧ m = new_member c role u.
Proof.
  unfold insert_members. revert ms.
  induction members as [|[v role] members IH]; intros ms Hm; simpl in *; [auto|].
  destruct (IH _ Hm) as [Hin|(role'&?&->)]; [|right; exists role'; set_solver].
  apply lookup_insert_Some in Hin as [[? <-]|[_ ?]]; [|auto]. simplify_eq. right.
  exists role. set_solver.
Qed.
Lemma add_created_members_other c members ms c' u :
  c' ≠ c → add_created_members c members ms !! (c', u) = ms !! (c', u).
Proof.
  intros Hc. unfold add_created_members. revert ms.
  induction members as [|[v role] members IH]; intros ms; simpl; [done|].
  rewrite IH. repeat case_match; try done; apply lookup_insert_ne; congruence.
Qed.
Lemma add_created_members_new c members ms u m :
  add_created_members c members ms !! (c, u) = Some m →
  ms !! (c, u) = Some m ∨ ∃ role, (u, role) ∈ members ∧ m = new_member c role u.
Proof.
  unfold add_created_members. revert ms.
  induction members as [|[v role] members IH]; intros ms Hm; simpl in *; [auto|].
  destruct (IH _ Hm) as [Hin|(role'&?&->)]; [|right; exists role'; set_solver].
  repeat case_match; try (by left);
    (apply lookup_insert_Some in Hin as [[? <-]|[_ ?]]; [|auto]; simplify_eq; right;
     eexists; split; [apply elem_of_cons; by left|done]).
Qed.
(** A channel identifier that names no channel has no members. *)
Lemma fresh_no_members st c u : wf st → channels st !! c = None → memberships st !! (c, u) = None.
Proof.
  intros Hwf Hc. apply eq_None_not_Some. intros [m Hm].
  destruct (wf_members _ Hwf _ _ _ Hm) as [_ _ _ [] _]. congruence.
Qed.

(** Compute the sizes of literals. *)
Ltac eval_lits :=
  repeat match goal with
  | |- context [len (lit ?s)] => let n := eval vm_compute in (len (lit s)) in
                                 change (len (lit s)) with n
  end.

Definition fresh_channel (st : RepositoryState) (c : ChannelId) (slug : ChannelSlug) : Prop :=
  channels st !! c = None ∧ channels_by_slug st !! slug = None.

Section with_libs.
Context `{Unicode, UuidLib}.

(** ** Personal spaces *)

Definition personal_slug (c : ChannelId) : ChannelSlug :=
  mk_ChannelSlug (lit "personal-" ++ uuid_simple (ChannelId_as_uuid c)).
Definition personal_channel_value (c : ChannelId) (owner : UserId) : Channel := {|
  Channel_id := c; Channel_slug := personal_slug c;
  Channel_name := mk_DisplayName (lit "Omr" ++ [229%N] ++ lit "det mitt");
  Channel_kind := Private; Channel_circle_id := None; Channel_created_by := owner |}.
Lemma personal_channel_ok c owner :
  personal_channel c owner = Ok (personal_channel_value c owner).
Proof. unfold personal_channel. by rewrite slug_of_uuid by (done || simpl; lia). Qed.

(** The state after opening a personal space. *)
Definition opened_personal (st : RepositoryState) (c : ChannelId) (owner : UserId) : RepositoryState :=
  insert_channel (personal_channel_value c owner) st
    <| memberships := insert_members c [(owner, MembershipRole_Member)] (memberships st) |>
    <| personal_spaces := <[owner := (c, mk_PersonalNote [] 0)]> (personal_spaces st) |>.

Lemma open_personal_space_cases fresh owner st r st' :
  wf st → open_personal_space fresh owner st = (r, st') →
  (r = Err PermissionDenied ∧ is_human st owner = false ∧ st' = st) ∨
  (∃ c n ch, is_human st owner = true ∧ personal_spaces st !! owner = Some (c, n)
     ∧ channels st !! c = Some ch ∧ r = Ok ch ∧ st' = st) ∨
  (is_human st owner = true ∧ personal_spaces st !! owner = None
     ∧ r = Ok (personal_channel_value fresh owner) ∧ st' = opened_personal st fresh owner).
Proof.
  intros Hwf Hrun. unfold open_personal_space in Hrun. rewrite personal_channel_ok in Hrun.
  st_simpl Hrun. destruct (is_human st owner) eqn:Eh; simplify_eq; [right|by left].
  destruct (personal_spaces st !! owner) as [[c n]|] eqn:Ep.
  - left. destruct (private_personal _ _ _ _ _ _ (wf_private _ Hwf) _ _ _ Ep) as (ch&Hch&_).
    rewrite Hch in Hrun. simplify_eq. exists c, n, ch. by split_and!.
  - right. simplify_eq. by split_and!.
Qed.
Lemma is_human_user st u : is_human st u = true → is_Some (users st !! u).
Proof. unfold is_human. by destruct (users st !! u). Qed.

Lemma opened_personal_wf st fresh owner :
  wf st → fresh_channel st fresh (personal_slug fresh) → is_human st owner = true →
  wf (opened_personal st fresh owner).
Proof.
  intros Hwf [Hid Hslug] Hh.
  assert (wf (insert_channel (personal_channel_value fresh owner) st
    <| memberships := insert_members fresh [(owner, MembershipRole_Member)] (memberships st) |>))
    as Hnew.
  { apply wf_new_channel; [done..| |].
    - intros c u Hc. by apply insert_members_other.
    - intros u m [Hm|(role&Hin&->)]%insert_members_new; simpl in *.
      + by rewrite fresh_no_members in Hm.
      + exists role. apply list_elem_of_singleton in Hin. simplify_eq.
        split_and!; [done|by apply is_human_user|done]. }
  apply (wf_personal _ owner fresh _ Hnew).
  - by apply (closed_new _ (personal_channel_value fresh owner)).
  - intros v [m [Hm|(role&Hin&->)]%insert_members_new]; simpl in *.
    + by rewrite fresh_no_members in Hm.
    + apply list_elem_of_singleton in Hin. by simplify_eq.
Qed.
Lemma open_personal_space_wf fresh owner st r st' :
  wf st → fresh_channel st fresh (personal_slug fresh) →
  open_personal_space fresh owner st = (r, st') → wf st'.
Proof.
  intros Hwf Hfresh [(_&_&->)|[(c&n&ch&_&_&_&_&->)|(Hh&_&_&->)]]%open_personal_space_cases;
    [done..| |done]. by apply opened_personal_wf.
Qed.

Lemma save_personal_note_cases owner note st r st' :
  save_personal_note owner note st = (r, st') →
  (∃ e, r = Err e ∧ st' = st) ∨
  (r = Panic ∧ (i64_max ≤ PersonalNote_revision note)%Z ∧ st' = st) ∨
  (∃ c n, let n' := mk_PersonalNote (PersonalNote_markdown note) (PersonalNote_revision note + 1) in
     personal_spaces st !! owner = Some (c, n)
     ∧ PersonalNote_revision n = PersonalNote_revision note ∧ r = Ok n'
     ∧ st' = st <| personal_spaces := <[owner := (c, n')]> (personal_spaces st) |>).
Proof.
  intros Hrun. unfold save_personal_note in Hrun. run_st Hrun; try (left; eauto; fail).
  - right. right. bool_facts. eauto 10.
  - right. left. split_and!; [done|lia|done].
Qed.
Lemma save_personal_note_wf owner note st r st' :
  wf st → save_personal_note owner note st = (r, st') → wf st'.
Proof.
  intros Hwf [(e&_&->)|[(_&_&->)|(c&n&Hp&_&_&->)]]%save_personal_note_cases; [done..|].
  apply wf_personal; [done|by eapply (private_personal _ _ _ _ _ _ (wf_private _ Hwf))|].
  intros v. by eapply (private_personal_only _ _ _ _ _ _ (wf_private _ Hwf)).
Qed.

(** ** Saved links *)

Definition personal_link_text (c : ChannelId) (id : MessageId) (q : ChannelSequence)
    (parent : option MessageId) : str :=
  lit "[[[Lagra melding](" ++
  (lit "/?channel=" ++ uuid_display (ChannelId_as_uuid c)
   ++ lit "&message=" ++ uuid_display (MessageId_as_uuid id)
   ++ lit "&sequence=" ++ fmt_dec (seq_u64 q)
   ++ match parent with
      | Some p => lit "&thread=" ++ uuid_display (MessageId_as_uuid p)
      | None => []
      end) ++ lit ")]]".

(** The body of a saved link always validates: the [expect] never fires. *)
Lemma personal_link_body_ok c id q parent :
  (0 < seq_u64 q ≤ u64_max)%N →
  personal_link_body c id q parent = Ok (mk_MessageBody (personal_link_text c id q parent)).
Proof.
  intros Hq. change (personal_link_body c id q parent)
    with (expect (F := RepositoryError) (MessageBody_new (personal_link_text c id q parent))).
  set (text := personal_link_text c id q parent).
  assert (trim text = text) as Ht.
  { apply trimmed_trim. split; [by intros ? [= <-]|].
    intros c'. unfold text, personal_link_text. rewrite !last_app. simpl. by intros [= <-]. }
  assert (len text ≤ 1000)%N as Hlen.
  { destruct (fmt_dec_digits 20 (seq_u64 q)) as [Hd Hl]; [split; [lia|]|].
    { apply N.le_lt_trans with u64_max; [lia|done]. }
    assert (len (fmt_dec (seq_u64 q)) ≤ 20)%N.
    { rewrite len_ascii; [lia|]. eapply List.Forall_impl; [|exact Hd].
      unfold is_ascii_digit. intros; lia. }
    unfold text, personal_link_text. rewrite !len_app, !len_uuid_display.
    destruct parent; [rewrite len_app, len_uuid_display|]; eval_lits; simpl; lia. }
  unfold MessageBody_new, bounded_non_empty. rewrite Ht, decide_False by done.
  assert ((MessageBody_MAX_BYTES <? len text)%N = false) as ->; [|done].
  apply N.ltb_ge. unfold MessageBody_MAX_BYTES. lia.
Qed.

Definition saved_link_message (st : RepositoryState) (c : ChannelId) (fresh : MessageId)
    (now : DateTime) (owner : UserId) (name : DisplayName) (source : ChatMessage) : ChatMessage := {|
  ChatMessage_id := fresh; ChatMessage_channel_id := c; ChatMessage_parent_message_id := None;
  ChatMessage_sender_id := owner; ChatMessage_sender_display_name := name;
  ChatMessage_sequence := mk_ChannelSequence (N.of_nat (S (log_length (messages st) c)));
  ChatMessage_body := mk_MessageBody (personal_link_text (ChatMessage_channel_id source)
    (ChatMessage_id source) (ChatMessage_sequence source) (ChatMessage_parent_message_id source));
  ChatMessage_sent_at := persisted_now now;
  ChatMessage_edited_at := None; ChatMessage_deleted_at := None |}.

Lemma logged_sequence_range st c i m :
  wf st → logged (messages st) c i m → (0 < seq_u64 (ChatMessage_sequence m) ≤ u64_max)%N.
Proof.
  intros Hwf Hl. rewrite (log_sequence _ _ _ (wf_log _ Hwf) _ _ _ Hl). simpl.
  assert (i < log_length (messages st) c) by by eapply logged_lt.
  assert (Hb := log_bound _ _ _ (wf_log _ Hwf) c). lia.
Qed.

Lemma save_personal_link_cases fresh_c fresh now owner source st r st' :
  wf st → fresh_channel st fresh_c (personal_slug fresh_c) →
  save_personal_link fresh_c fresh now owner source st = (r, st') →
  (∃ e, r = Err e ∧ st' = st) ∨
  (∃ ch st1, open_personal_space fresh_c owner st = (Ok ch, st1) ∧ wf st1
     ∧ messages st1 = messages st ∧ is_Some (channels st1 !! Channel_id ch)
     ∧ ((∃ e, r = Err e ∧ st' = st1) ∨ (r = Ok None ∧ st' = st1) ∨
        (∃ name m, let x := saved_link_message st1 (Channel_id ch) fresh now owner name m in
           (N.of_nat (S (log_length (messages st1) (Channel_id ch))) ≤ u64_max)%N ∧ r = Ok (Some fresh)
           ∧ st' = (sent_state st1 x (command_receipts st1))
                     <| personal_saved_links :=
                          <[(owner, source) := fresh]> (personal_saved_links st1) |>))).
Proof.
  intros Hwf Hfresh Hrun. unfold save_personal_link in Hrun.
  cbv beta iota zeta delta [st_bind get st_lift] in Hrun.
  destruct (find_message _ st) as [m|] eqn:Em; simpl in Hrun; [|left; simplify_eq; eauto].
  destruct (find_message_Some _ _ _ Em) as (c&i&Hl&Hp). bool_facts.
  destruct (open_personal_space fresh_c owner st) as [r1 st1] eqn:Eo.
  assert (wf st1) as Hwf1 by by eapply open_personal_space_wf.
  assert (∀ ch, r1 = Ok ch → messages st1 = messages st ∧ is_Some (channels st1 !! Channel_id ch)
          ∧ is_human st1 owner = true) as Hopen.
  { intros ch ->. destruct (open_personal_space_cases _ _ _ _ _ Hwf Eo)
      as [(?&_)|[(c'&n&ch'&Hh&_&Hch&?&->)|(Hh&_&?&->)]]; simplify_eq.
    - rewrite (indexed_id _ _ _ _ (wf_channels _ Hwf) _ _ Hch). eauto.
    - split_and!; [done| |done]. simpl. by rewrite lookup_insert_eq. }
  destruct r1 as [ch|e|].
  - right. destruct (Hopen ch eq_refl) as (Hmsgs&Hch&Hh). exists ch, st1. split_and!; [done..|].
    rewrite personal_link_body_ok in Hrun by exact (logged_sequence_range _ _ _ _ Hwf Hl).
    destruct (is_human_user _ _ Hh) as [x Hx]. rewrite Hx in Hrun. simpl in Hrun.
    match type of Hrun with (if ?b then _ else _) _ = _ => destruct b end;
      [st_simpl Hrun; auto|].
    destruct (next_sequence (Channel_id ch) st1) as [r2 st2] eqn:En.
    destruct (next_sequence_cases _ _ _ _ Hwf1 En) as [(e&->&->)|(Hb&->&->)]; st_simpl Hrun; [eauto|].
    right. right. exists (User_display_name x), m. by split_and!.
  - left. destruct (open_personal_space_cases _ _ _ _ _ Hwf Eo)
      as [(?&_&->)|[(?&?&?&_&_&_&?&_)|(_&_&?&_)]]; simplify_eq. eauto.
  - destruct (open_personal_space_cases _ _ _ _ _ Hwf Eo)
      as [(?&_&->)|[(?&?&?&_&_&_&?&_)|(_&_&?&_)]]; by simplify_eq.
Qed.
Lemma save_personal_link_wf fresh_c fresh now owner source st r st' :
  wf st → fresh_channel st fresh_c (personal_slug fresh_c) → fresh_message st fresh →
  save_personal_link fresh_c fresh now owner source st = (r, st') → wf st'.
Proof.
  intros Hwf Hfc Hfm Hrun. destruct (save_personal_link_cases _ _ _ _ _ _ _ _ Hwf Hfc Hrun)
    as [(e&_&->)|(ch&st1&_&Hwf1&Hmsgs&Hch&[(e&_&->)|[[_ ->]|(name&m&Hb&_&->)]])]; [done..|].
  set (x := saved_link_message _ _ _ _ _ _ _).
  assert (wf (sent_state st1 x (command_receipts st1))) as Hwf2.
  { apply wf_push; try done; simpl.
    - intros c' i m' Hl. rewrite Hmsgs in Hl. by eapply Hfm.
    - apply receipts_ok_push, Hwf1. }
  wf_tables Hwf2.
Qed.

(** ** Direct conversations *)

Definition direct_slug (u : Uuid) : ChannelSlug := mk_ChannelSlug (lit "dm-" ++ uuid_simple u).
Definition group_slug (u : Uuid) : ChannelSlug := mk_ChannelSlug (lit "dm-group-" ++ uuid_simple u).
(** The key of a conversation does not depend on who opens it. *)
Definition direct_key (a b : UserId) : UserId * UserId := if UserId_lt a b then (a, b) else (b, a).
Lemma direct_key_sorted a b :
  a ≠ b → UserId_lt (direct_key a b).1 (direct_key a b).2 = true.
Proof.
  intros Hne. unfold direct_key. destruct (UserId_lt a b) eqn:E; [done|]. simpl.
  unfold UserId_lt in *. assert (UserId_as_uuid a ≠ UserId_as_uuid b); [|lia].
  destruct a, b; simpl in *. congruence.
Qed.
Lemma direct_key_comm a b : direct_key a b = direct_key b a.
Proof.
  unfold direct_key, UserId_lt. repeat case_match; try done; [lia|].
  destruct a as [a], b as [b]. simpl in *. by assert (a = b) as -> by lia.
Qed.

Definition direct_channel (c : ChannelId) (u : Uuid) (actor : UserId) (name : DisplayName) : Channel := {|
  Channel_id := c; Channel_slug := direct_slug u; Channel_name := name; Channel_kind := Private;
  Channel_circle_id := None; Channel_created_by := actor |}.
Definition opened_direct (st : RepositoryState) (ch : Channel) (actor other : UserId) : RepositoryState :=
  insert_channel ch st
    <| memberships := insert_members (Channel_id ch)
         [(actor, MembershipRole_Owner); (other, MembershipRole_Member)] (memberships st) |>
    <| direct_conversations := <[direct_key actor other := Channel_id ch]> (direct_conversations st) |>.

Lemma open_direct_cases fresh u actor other st r st' :
  wf st → open_direct_channel fresh u actor other st = (r, st') →
  (∃ e, r = Err e ∧ st' = st) ∨
  (∃ c ch, actor ≠ other ∧ direct_conversations st !! direct_key actor other = Some c
     ∧ channels st !! c = Some ch ∧ r = Ok ch ∧ st' = st) ∨
  (∃ x, let ch := direct_channel fresh u actor (User_display_name x) in
     actor ≠ other ∧ users st !! other = Some x ∧ is_Some (users st !! actor)
     ∧ direct_conversations st !! direct_key actor other = None
     ∧ r = Ok ch ∧ st' = opened_direct st ch actor other).
Proof.
  intros Hwf Hrun. unfold open_direct_channel in Hrun. rewrite slug_of_uuid in Hrun by (done || simpl; lia).
  fold (direct_key actor other) in Hrun. st_simpl Hrun.
  destruct (negb _) eqn:Ene; simplify_eq; [|left; eauto]. bool_facts.
  destruct (users st !! other) as [x|] eqn:Ex; simplify_eq; [|left; eauto].
  destruct (contains_key actor _) eqn:Ea; simplify_eq; [|left; eauto]. bool_facts. right.
  destruct (direct_conversations st !! direct_key actor other) as [c|] eqn:Ed; simpl in Hrun.
  - left. destruct (direct_key actor other) as [a b] eqn:Ek.
    destruct (private_direct _ _ _ _ _ _ (wf_private _ Hwf) _ _ _ Ed) as [(ch&Hch&_) _].
    rewrite Hch in Hrun. simplify_eq. exists c, ch. by split_and!.
  - right. simplify_eq. exists x. by split_and!.
Qed.
Lemma open_direct_channel_wf fresh u actor other st r st' :
  wf st → fresh_channel st fresh (direct_slug u) →
  open_direct_channel fresh u actor other st = (r, st') → wf st'.
Proof.
  intros Hwf [Hid Hslug] [(e&_&->)|[(c&ch&_&_&_&_&->)|(x&Hne&Hx&Ha&_&_&->)]]%open_direct_cases;
    [done..| |done].
  set (ch := direct_channel fresh u actor (User_display_name x)).
  set (ms := insert_members fresh [(actor, MembershipRole_Owner); (other, MembershipRole_Member)]
               (memberships st)).
  assert (∀ v m, ms !! (fresh, v) = Some m → (v = actor ∨ v = other) ∧
    ∃ role, m = new_member fresh role v) as Hms.
  { intros v m [Hm|(role&Hin&->)]%insert_members_new; [by rewrite fresh_no_members in Hm|].
    split; [set_solver|eauto]. }
  assert (wf (insert_channel ch st <| memberships := ms |>)) as Hnew.
  { apply wf_new_channel; [done..| |].
    - intros c v Hc. by apply insert_members_other.
    - intros v m Hm. destruct (Hms _ _ Hm) as [Hv [role ->]]. exists role.
      split_and!; [done| |done]. destruct Hv; subst; eauto. }
  assert (Hlt := direct_key_sorted _ _ Hne).
  unfold opened_direct. destruct (direct_key actor other) as [a b] eqn:Ek.
  apply (wf_direct _ a b fresh Hnew).
  - by apply (closed_new _ ch).
  - done.
  - intros v [m Hm]. destruct (Hms _ _ Hm) as [Hv _]. unfold direct_key in Ek.
    case_match; simplify_eq; tauto.
Qed.

(** The members of an expanded conversation. *)
Lemma members_of_user st c u : wf st → u ∈ members_of st c → is_Some (memberships st !! (c, u)).
Proof.
  intros Hwf. unfold members_of, values. rewrite list_elem_of_fmap.
  intros (m&->&Hm). apply list_elem_of_In, filter_In in Hm as [Hm Hc].
  apply list_elem_of_In, list_elem_of_fmap in Hm as ([[c' u'] m']&->&Hm%elem_of_map_to_list).
  simpl in *. bool_facts. destruct (wf_members _ Hwf _ _ _ Hm). simplify_eq. by rewrite Hm.
Qed.
Lemma expand_direct_cases fresh u actor src other st r st' :
  wf st → expand_direct_channel fresh u actor src other st = (r, st') →
  (∃ e, r = Err e ∧ st' = st) ∨
  (∃ c ch, direct_expansions st !! (src, other) = Some c ∧ channels st !! c = Some ch
     ∧ r = Ok ch ∧ st' = st) ∨
  (∃ name, let ch := {|
       Channel_id := fresh; Channel_slug := group_slug u; Channel_name := name;
       Channel_kind := Private; Channel_circle_id := None; Channel_created_by := actor |} in
     let members := merge_sort UserId_le (members_of st src ++ [other]) in
     is_Some (memberships st !! (src, actor)) ∧ memberships st !! (src, other) = None
     ∧ is_Some (users st !! other) ∧ is_direct st src = true
     ∧ direct_expansions st !! (src, other) = None ∧ r = Ok ch
     ∧ st' = insert_channel ch st
               <| direct_group_conversations := <[fresh := src]> (direct_group_conversations st) |>
               <| direct_expansions := <[(src, other) := fresh]> (direct_expansions st) |>
               <| memberships := insert_members fresh
                    ((λ u, (u, MembershipRole_Member)) <$> members) (memberships st) |>).
Proof.
  intros Hwf Hrun. unfold expand_direct_channel in Hrun. rewrite slug_of_uuid in Hrun by (done || simpl; lia).
  cbv beta iota zeta delta [st_bind get ensure] in Hrun.
  destruct (_ && _) eqn:E1 in Hrun; [|left; simplify_eq; eauto].
  destruct (contains_key (src, actor) _) eqn:E2 in Hrun; [|left; simplify_eq; eauto].
  destruct (is_direct st src) eqn:E3 in Hrun; [|left; simplify_eq; eauto].
  destruct (negb _) eqn:E4 in Hrun; [|left; simplify_eq; eauto]. bool_facts.
  destruct (direct_expansions st !! (src, other)) as [c|] eqn:Ed; simpl in Hrun.
  - right. left. destruct (private_expansion _ _ _ _ _ _ (wf_private _ Hwf) _ _ _ Ed) as (ch&Hch&_).
    unfold st_lift in Hrun. rewrite Hch in Hrun. simpl in Hrun. simplify_eq. eauto 10.
  - st_simpl Hrun. destruct (res_mapM _ _) as [names|e|] eqn:En; simplify_eq; [|left; eauto|].
    + destruct (DisplayName_new _) as [name|e|] eqn:Edn; simplify_eq; [|left; eauto|].
      * right. right. exists name. by split_and!.
      * unfold DisplayName_new, bounded_non_empty in Edn. by repeat case_match.
    + apply res_mapM_no_panic in En; [done|]. intros id. by destruct (_ <$> _).
Qed.
Lemma expand_direct_channel_wf fresh u actor src other st r st' :
  wf st → fresh_channel st fresh (group_slug u) →
  expand_direct_channel fresh u actor src other st = (r, st') → wf st'.
Proof.
  intros Hwf [Hid Hslug] [(e&_&->)|[(c&ch&_&_&_&->)|(name&_&_&Ho&_&_&_&->)]]%expand_direct_cases;
    [done..| |done].
  set (ch := {| Channel_id := fresh |}). set (ms := insert_members fresh _ _).
  assert (wf (insert_channel ch st <| memberships := ms |>)) as Hnew.
  { apply wf_new_channel; [done..| |].
    - intros c v Hc. by apply insert_members_other.
    - intros v m [Hm|(role&Hin&->)]%insert_members_new; [by rewrite fresh_no_members in Hm|].
      exists role. split_and!; [done| |done].
      apply list_elem_of_fmap in Hin as (v'&?&Hin). simplify_eq.
      rewrite merge_sort_Permutation, elem_of_app, list_elem_of_singleton in Hin.
      destruct Hin as [[m Hm]%members_of_user| ->]; [|done..].
      by eapply member_user, (wf_members _ Hwf). }
  apply (wf_group _ fresh src other Hnew). by apply (closed_new _ ch).
Qed.

(** ** Shared channels *)

Lemma can_create_circle_member st k u :
  can_create_channel_in_circle (circle_role_in st k u) = true → is_Some (circle_memberships st !! (k, u)).
Proof. unfold circle_role_in. by destruct (circle_memberships st !! (k, u)). Qed.

Lemma create_channel_cases fresh cmd st r st' :
  create_channel fresh cmd st = (r, st') →
  let ch := {| Channel_id := fresh; Channel_slug := CreateChannel_slug cmd;
               Channel_name := CreateChannel_name cmd; Channel_kind := CreateChannel_kind cmd;
               Channel_circle_id := CreateChannel_circle_id cmd;
               Channel_created_by := CreateChannel_actor cmd |} in
  let general := is_general_slug (CreateChannel_slug cmd)
                 && bool_decide (CreateChannel_circle_id cmd = None) in
  let members := ((λ u, (u, MembershipRole_Member)) <$>
                    (if general then (map_to_list (users st)).*1 else []))
                 ++ [(CreateChannel_actor cmd, MembershipRole_Owner)] in
  (∃ e, r = Err e ∧ st' = st) ∨
  (is_Some (users st !! CreateChannel_actor cmd)
   ∧ channels_by_slug st !! CreateChannel_slug cmd = None
   ∧ (∀ k, CreateChannel_circle_id cmd = Some k →
        is_Some (circle_memberships st !! (k, CreateChannel_actor cmd)))
   ∧ r = Ok ch
   ∧ st' = insert_channel ch st
             <| memberships := add_created_members fresh members (memberships st) |>).
Proof.
  intros Hrun. unfold create_channel in Hrun. st_simpl Hrun.
  destruct (contains_key (CreateChannel_actor cmd) _) eqn:E1; simplify_eq; [|left; eauto].
  destruct (negb _) eqn:E2; simplify_eq; [|left; eauto].
  st_guard Hrun E3; [|left; eauto].
  right. bool_facts. split_and!; try done.
  intros k Hk. rewrite Hk in E3. by apply can_create_circle_member.
Qed.
Lemma create_channel_wf fresh cmd st r st' :
  wf st → channels st !! fresh = None → create_channel fresh cmd st = (r, st') → wf st'.
Proof.
  intros Hwf Hid [(e&_&->)|(Ha&Hslug&Hcircle&_&->)]%create_channel_cases; [done|].
  apply wf_new_channel; [done..| |].
  - intros c v Hc. by apply add_created_members_other.
  - intros v m [Hm|(role&Hin&->)]%add_created_members_new; [by rewrite fresh_no_members in Hm|].
    exists role. split; [done|]. apply elem_of_app in Hin as [Hin|Hin%list_elem_of_singleton].
    + apply list_elem_of_fmap in Hin as (v'&?&Hin). simplify_eq/=. case_match; [|set_solver].
      bool_facts. apply list_elem_of_fmap in Hin as ([v x]&->&Hin%elem_of_map_to_list).
      split; [by exists x|]. congruence.
    + by simplify_eq.
Qed.

(** Adding a member to a channel that is not closed. *)
Lemma wf_join st c ch u m' :
  wf st → channels st !! c = Some ch →
  (Channel_kind ch ≠ Private ∨ Channel_circle_id ch ≠ None ∨ is_general_slug (Channel_slug ch) = true) →
  (is_general_slug (Channel_slug ch) = false → ∀ k, Channel_circle_id ch = Some k →
     is_Some (circle_memberships st !! (k, u))) →
  member_ok (users st) (channels st) (messages st) c u m' →
  wf (st <| memberships := <[(c, u) := m']> (memberships st) |>).
Proof.
  intros Hwf Hch Hopen Hcircle Hm'. wf_tables Hwf.
  - intros c' u' x. rewrite lookup_insert_Some. intros [[? <-]|[_ Hx]]; simplify_eq; [done|].
    by eapply (wf_members _ Hwf).
  - eapply private_ok_change; [apply Hwf|done|]. intros c' v Hc'.
    rewrite lookup_insert_ne; [done|]. intros ?; simplify_eq.
    destruct (closed_lookup _ _ _ Hc' Hch) as (?&?&?). destruct Hopen as [?|[?|?]]; congruence.
  - intros c' ch' k v Hch' Hk Hg. destruct (decide ((c', v) = (c, u))); simplify_eq.
    + intros _. by eapply Hcircle.
    + rewrite lookup_insert_ne by done. by eapply (wf_circle_channels _ Hwf).
Qed.
Lemma resolve_channel_ref_known st ref c :
  wf st → resolve_channel_ref st ref = Ok c → is_Some (channels st !! c).
Proof.
  intros Hwf Hr. destruct ref as [c'|slug]; simpl in Hr.
  - destruct (contains_key c' _) eqn:E; simplify_eq. by bool_facts.
  - destruct (channels_by_slug st !! slug) eqn:E; simplify_eq/=.
    destruct (indexed_back _ _ _ _ (wf_channels _ Hwf) _ _ E) as (ch&?&_). eauto.
Qed.
Lemma join_channel_cases cmd st r st' :
  join_channel cmd st = (r, st') →
  (∃ e, r = Err e ∧ st' = st) ∨
  (∃ c ch, let m := new_member c MembershipRole_Member (JoinChannel_actor cmd) in
     resolve_channel_ref st (JoinChannel_channel cmd) = Ok c ∧ channels st !! c = Some ch
     ∧ is_Some (users st !! JoinChannel_actor cmd)
     ∧ (∀ k, Channel_circle_id ch = Some k → is_Some (circle_memberships st !! (k, JoinChannel_actor cmd)))
     ∧ (Channel_kind ch ≠ Private ∨ is_general_slug (Channel_slug ch) = true)
     ∧ r = Ok m
     ∧ st' = st <| memberships := <[(c, JoinChannel_actor cmd) := m]> (memberships st) |>).
Proof.
  intros Hrun. unfold join_channel in Hrun. st_simpl Hrun.
  destruct (contains_key (JoinChannel_actor cmd) _) eqn:E1; simplify_eq; [|left; eauto].
  destruct (resolve_channel_ref _ _) as [c|e|] eqn:E2; simplify_eq; [|left; eauto|].
  2: { unfold resolve_channel_ref, ok_or in E2. by repeat case_match. }
  destruct (channels st !! c) as [ch|] eqn:E3; simplify_eq; [|left; eauto].
  st_guard Hrun E4; [|left; eauto].
  destruct (negb _) eqn:E5; simplify_eq; [|left; eauto].
  right. exists c, ch. apply negb_true, andb_false_iff in E5. bool_facts. split_and!; try done.
  - intros k Hk. rewrite Hk in E4. by bool_facts.
  - destruct E5; bool_facts; [by left|right]. unfold is_general_slug. by apply bool_decide_eq_true.
Qed.
Lemma join_channel_wf cmd st r st' : wf st → join_channel cmd st = (r, st') → wf st'.
Proof.
  intros Hwf [(e&_&->)|(c&ch&Hr&Hch&Hu&Hcircle&Hopen&_&->)]%join_channel_cases; [done|].
  apply (wf_join _ _ ch); [done..|tauto|auto|]. apply member_ok_new; [done|]. by rewrite Hch.
Qed.

Lemma add_channel_member_wf cmd st r st' :
  wf st → add_channel_member cmd st = (r, st') → wf st'.
Proof.
  intros Hwf Hrun. unfold add_channel_member in Hrun. st_simpl Hrun.
  destruct (channels st !! _) as [ch|] eqn:Ech; simplify_eq; [|done].
  destruct (_ && _) eqn:Ea in Hrun; simplify_eq; [|done]. apply andb_true_iff in Ea as [Hmod Ht].
  unfold or_insert. destruct (memberships st !! _) eqn:Em; [by destruct st|].
  apply (wf_join _ _ ch); [done..| | |].
  - destruct (Channel_circle_id ch); [by right; left|]. left. by destruct (Channel_kind ch).
  - intros _ k Hk. rewrite Hk in Ht. by bool_facts.
  - apply member_ok_new; [|by rewrite Ech]. destruct (Channel_circle_id ch).
    + apply contains_key_true in Ht as [m Hm]. by eapply (circle_members_user _ _ _ (wf_circle_members _ Hwf)).
    + apply is_human_user. by destruct (Channel_kind ch).
Qed.

(** Removing members never breaks the invariant. *)
Lemma wf_fewer_members st ms' :
  wf st → ms' ⊆ memberships st → wf (st <| memberships := ms' |>).
Proof.
  intros Hwf Hsub.
  assert (∀ k, is_Some (ms' !! k) → is_Some (memberships st !! k)) as Hsome.
  { intros k [m Hm]. exists m. by eapply lookup_weaken. }
  wf_tables Hwf.
  - intros c u m Hm. eapply (wf_members _ Hwf). by eapply lookup_weaken.
  - eapply private_ok_change; [apply Hwf|done|]. auto.
  - intros c ch k u ? ? ? ?. eapply (wf_circle_channels _ Hwf); eauto.
Qed.
Lemma leave_channel_wf cmd st r st' : wf st → leave_channel cmd st = (r, st') → wf st'.
Proof.
  intros Hwf Hrun. unfold leave_channel in Hrun. st_simpl Hrun.
  destruct (channels st !! _); simplify_eq; [|done].
  st_guard Hrun E1; [|done]. st_guard Hrun E2; [|done]. st_guard Hrun E3; [|done].
  apply wf_fewer_members; [done|apply delete_subseteq].
Qed.
Lemma update_channel_description_wf cmd st r st' :
  wf st → update_channel_description cmd st = (r, st') → wf st'.
Proof. intros Hwf Hrun. unfold update_channel_description in Hrun. run_st Hrun; try done; wf_tables Hwf. Qed.
End with_libs.
