(* ===== verification/WfCircles.v ===== *)
(** * WfCircles: the circle operations preserve the invariant

    Circles and their members, favorites, circle invitations and enrollment
    invitations; deleting a circle with all its channels. *)

From Stdlib Require Import ZifyBool.
From stdpp Require Import base tactics numbers strings countable sorting gmap list.
From S2P Require Import Prelude RustStr Text Ids Models Policy RepoState RepoMessages RepoChannels RepoCircles RepoWf WfMessages WfChannels.

(** ** Circle members *)

(** Adding or updating the membership of a known user. *)
Lemma wf_circle_member st k u m :
  wf st → CircleMembership_circle_id m = k → CircleMembership_user_id m = u →
  is_Some (users st !! u) →
  wf (st <| circle_memberships := <[(k, u) := m]> (circle_memberships st) |>).
Proof.
  intros Hwf Hk Hu Hknown.
  assert (∀ x, is_Some (circle_memberships st !! x) →
               is_Some (<[(k, u) := m]> (circle_memberships st) !! x)) as Hgrow
    by (intros x Hx; apply lookup_insert_is_Some'; auto).
  wf_tables Hwf.
  - destruct (wf_circle_members _ Hwf). constructor; [..|done].
    + intros c v m'. rewrite lookup_insert_Some. intros [[? <-]|[_ ?]]; simplify_eq; eauto.
    + intros c v m'. rewrite lookup_insert_Some. intros [[? <-]|[_ ?]]; simplify_eq; eauto.
    + eauto.
  - intros c ch k' v ? ? ? ?. eapply Hgrow, (wf_circle_channels _ Hwf); eauto.
Qed.

Lemma create_circle_wf fresh now cmd st r st' :
  wf st → circles st !! fresh = None → create_circle fresh now cmd st = (r, st') → wf st'.
Proof.
  intros Hwf Hid Hrun. unfold create_circle in Hrun. st_simpl Hrun.
  st_guard Hrun Ea; [|done]. st_guard Hrun Es; [|done]. bool_facts.
  set (m := mk_CircleMembership _ _ _ _). set (ci := mk_Circle _ _ _ _ _).
  assert (wf (st <| circle_memberships :=
            <[(fresh, CreateCircle_actor cmd) := m]> (circle_memberships st) |>)) as Hwf'
    by by apply wf_circle_member.
  wf_tables Hwf'. apply (indexed_insert Circle_id Circle_slug _ _ ci); [apply Hwf|done..].
Qed.

Lemma set_circle_member_role_cases cmd st r st' :
  set_circle_member_role cmd st = (r, st') →
  let key := (SetCircleMemberRole_circle_id cmd, SetCircleMemberRole_user_id cmd) in
  (∃ e, r = Err e ∧ st' = st) ∨
  (∃ m, let m' := m <| CircleMembership_role := SetCircleMemberRole_role cmd |> in
     circle_memberships st !! key = Some m ∧ CircleMembership_role m ≠ CircleRole_Owner
     ∧ SetCircleMemberRole_role cmd ≠ CircleRole_Owner
     ∧ circle_role_in st (SetCircleMemberRole_circle_id cmd) (SetCircleMemberRole_actor cmd)
       = Some CircleRole_Owner
     ∧ is_human st (SetCircleMemberRole_user_id cmd) = true ∧ r = Ok m'
     ∧ st' = st <| circle_memberships := <[key := m']> (circle_memberships st) |>
                <| circle_updates := S (circle_updates st) |>).
Proof.
  intros Hrun. unfold set_circle_member_role in Hrun. st_simpl Hrun.
  st_guard Hrun E1; [|left; eauto].
  destruct (circle_memberships st !! _) as [m|] eqn:Em; simplify_eq; [|left; eauto].
  st_guard Hrun E2; [|left; eauto]. bool_facts. right. exists m. by split_and!.
Qed.
Lemma set_circle_member_role_wf cmd st r st' :
  wf st → set_circle_member_role cmd st = (r, st') → wf st'.
Proof.
  intros Hwf [(e&_&->)|(m&Hm&_&_&_&_&_&->)]%set_circle_member_role_cases; [done|].
  set (m' := m <| CircleMembership_role := _ |>).
  assert (wf (st <| circle_memberships := <[(SetCircleMemberRole_circle_id cmd,
     SetCircleMemberRole_user_id cmd) := m']> (circle_memberships st) |>)) as Hwf'.
  { destruct (circle_members_key _ _ _ (wf_circle_members _ Hwf) _ _ _ Hm).
    apply wf_circle_member; [done..|]. by eapply (circle_members_user _ _ _ (wf_circle_members _ Hwf)). }
  wf_tables Hwf'.
Qed.

Lemma rename_circle_wf cmd st r st' : wf st → rename_circle cmd st = (r, st') → wf st'.
Proof.
  intros Hwf Hrun. unfold rename_circle in Hrun. st_simpl Hrun. st_guard Hrun E1; [|done].
  destruct (circles st !! _) as [ci|] eqn:Ec; simplify_eq; [|done].
  wf_tables Hwf. eapply indexed_update; [apply Hwf|done..].
Qed.

(** ** Leaving and deleting circles *)

Lemma elem_of_circle_channels st k c :
  wf st → c ∈ circle_channel_ids st k ↔
    ∃ ch, channels st !! c = Some ch ∧ Channel_circle_id ch = Some k.
Proof.
  intros Hwf. unfold circle_channel_ids, values. rewrite list_elem_of_fmap. split.
  - intros (ch&->&Hin). apply list_elem_of_In, filter_In in Hin as [Hin Hk].
    apply list_elem_of_In, list_elem_of_fmap in Hin as ([c' ch']&->&Hc%elem_of_map_to_list).
    simpl in *. bool_facts. rewrite (indexed_id _ _ _ _ (wf_channels _ Hwf) _ _ Hc). eauto.
  - intros (ch&Hc&Hk). exists ch. split; [by rewrite (indexed_id _ _ _ _ (wf_channels _ Hwf) _ _ Hc)|].
    apply list_elem_of_In, filter_In. split; [|by apply bool_decide_eq_true].
    apply list_elem_of_In, list_elem_of_fmap. exists (c, ch). by rewrite elem_of_map_to_list.
Qed.

Lemma leave_circle_cases cmd st r st' :
  leave_circle cmd st = (r, st') →
  let key := (LeaveCircle_circle_id cmd, LeaveCircle_actor cmd) in
  let ids : gset ChannelId := list_to_set (circle_channel_ids st (LeaveCircle_circle_id cmd)) in
  (r = Err PermissionDenied ∧ st' = st) ∨
  (can_leave_circle (circle_role_in st key.1 key.2) = true ∧ r = Ok tt
   ∧ st' = st <| circle_memberships := delete key (circle_memberships st) |>
              <| favorite_circles := favorite_circles st ∖ {[key]} |>
              <| memberships := filter (λ kv, kv.1.2 ≠ LeaveCircle_actor cmd ∨ kv.1.1 ∉ ids)
                                  (memberships st) |>).
Proof.
  intros Hrun. unfold leave_circle in Hrun. st_simpl Hrun. st_guard Hrun E1; [right|by left].
  by split_and!.
Qed.
Lemma leave_circle_wf cmd st r st' : wf st → leave_circle cmd st = (r, st') → wf st'.
Proof.
  intros Hwf [[_ ->]|(_&_&->)]%leave_circle_cases; [done|].
  set (key := (LeaveCircle_circle_id cmd, LeaveCircle_actor cmd)).
  set (ids := list_to_set _).
  assert (wf (st <| memberships := filter (λ kv, kv.1.2 ≠ LeaveCircle_actor cmd ∨ kv.1.1 ∉ ids)
                                     (memberships st) |>)) as Hwf'
    by (apply wf_fewer_members; [done|apply map_filter_subseteq]).
  wf_tables Hwf'.
  - destruct (wf_circle_members _ Hwf). constructor.
    + intros c u m. rewrite lookup_delete_Some. intros [_ ?]. eauto.
    + intros c u m. rewrite lookup_delete_Some. intros [_ ?]. eauto.
    + intros c u Hin. rewrite lookup_delete_ne by set_solver. set_solver.
    + intros u. etrans; [|apply (circle_members_cap u)]. apply subseteq_size. set_solver.
  - intros c ch k u Hch Hk Hg [m Hm]. rewrite lookup_delete_ne.
    + eapply (wf_circle_channels _ Hwf); [done..|]. apply map_lookup_filter_Some in Hm as [? _]. eauto.
    + unfold key. intros ?. simplify_eq. apply map_lookup_filter_Some in Hm as [_ [Hm|Hm]]; [done|].
      apply Hm. simpl. unfold ids. rewrite elem_of_list_to_set. apply (elem_of_circle_channels st); eauto.
Qed.

(** Removing one channel of a circle, once no receipt refers to its messages. *)
Lemma wf_remove_channel st c ch k :
  wf st → channels st !! c = Some ch → Channel_circle_id ch = Some k →
  (∀ u rid i m, logged (messages st) c i m →
     command_receipts st !! (u, rid) ≠ Some (ChatMessage_id m)) →
  wf (remove_channel c st).
Proof.
  intros Hwf Hch Hk Hrs. unfold remove_channel. rewrite Hch.
  assert (∀ c', closed (channels st) c' → c' ≠ c) as Hne.
  { intros c' Hc' ->. destruct (closed_lookup _ _ _ Hc' Hch) as (_&?&_). congruence. }
  assert (∀ c' u, is_Some (filter (λ kv, kv.1.1 ≠ c) (memberships st) !! (c', u)) →
            c' ≠ c ∧ is_Some (memberships st !! (c', u))) as Hms.
  { intros c' u [m [Hm Hc]%map_lookup_filter_Some]. eauto. }
  wf_tables Hwf.
  - apply log_ok_delete, Hwf.
  - eapply indexed_delete; [apply Hwf|done].
  - intros c' u m [Hm Hc]%map_lookup_filter_Some. simpl in Hc.
    eapply member_ok_mono; [by eapply (wf_members _ Hwf)|done|..].
    + by rewrite lookup_delete_ne.
    + by rewrite log_length_delete.
  - intros u rid id Hr. destruct (wf_receipts _ Hwf _ _ _ Hr) as (c'&i&m&Hl&<-&Hs).
    exists c', i, m. rewrite logged_delete. split_and!; [|done..].
    intros ->. by apply (Hrs u rid i m).
  - intros c' i m u e [_ Hl]%logged_delete. by eapply (wf_reactions _ Hwf).
  - eapply private_ok_change; [apply Hwf|..].
    + intros c' Hc. assert (Hc' := Hne c' Hc). destruct Hc as (ch'&?&?). exists ch'.
      by rewrite lookup_delete_ne.
    + intros c' v _ ?. by apply Hms.
  - intros c' ch' k' u [_ ?]%lookup_delete_Some ? ? [_ ?]%Hms. by eapply (wf_circle_channels _ Hwf).
Qed.

Definition remove_channels (ids : list ChannelId) (st : RepositoryState) : RepositoryState :=
  foldl (λ st c, remove_channel c st) st ids.
(** Removing channels commutes with updates of the tables it does not touch. *)
Lemma remove_channels_comm (g : RepositoryState → RepositoryState) ids st :
  (∀ c st, remove_channel c (g st) = g (remove_channel c st)) →
  remove_channels ids (g st) = g (remove_channels ids st).
Proof.
  intros Hg. unfold remove_channels. revert st.
  induction ids as [|c ids IH]; intros st; simpl; [done|]. by rewrite Hg, IH.
Qed.
Lemma channels_remove c st : channels (remove_channel c st) = delete c (channels st).
Proof.
  unfold remove_channel. destruct (channels st !! c) eqn:E; simpl; [done|].
  by rewrite delete_id.
Qed.
Lemma messages_remove c st : messages (remove_channel c st) = delete c (messages st).
Proof. unfold remove_channel. by destruct (channels st !! c). Qed.
Lemma receipts_remove c st : command_receipts (remove_channel c st) = command_receipts st.
Proof. unfold remove_channel. by destruct (channels st !! c). Qed.

Lemma wf_remove_channels st ids k :
  wf st → NoDup ids →
  (∀ c, c ∈ ids → ∃ ch, channels st !! c = Some ch ∧ Channel_circle_id ch = Some k) →
  (∀ c u rid i m, c ∈ ids → logged (messages st) c i m →
     command_receipts st !! (u, rid) ≠ Some (ChatMessage_id m)) →
  wf (remove_channels ids st)
  ∧ ∀ c ch, channels (remove_channels ids st) !! c = Some ch → (c ∉ ids) ∧ channels st !! c = Some ch.
Proof.
  unfold remove_channels. revert st. induction ids as [|c ids IH]; intros st Hwf Hnd Hin Hrs; simpl.
  { split; [done|]. set_solver. }
  apply NoDup_cons in Hnd as [Hc Hnd]. destruct (Hin c ltac:(set_solver)) as (ch&Hch&Hk).
  destruct (IH (remove_channel c st)) as [Hwf' Hchs].
  - eapply wf_remove_channel; [done..|]. intros. eapply Hrs; [|done]. set_solver.
  - done.
  - intros c' Hc'. rewrite channels_remove. destruct (Hin c' ltac:(set_solver)) as (ch'&?&?).
    exists ch'. by rewrite lookup_delete_ne by set_solver.
  - intros c' u rid i m Hc'. rewrite messages_remove, receipts_remove.
    intros [_ Hl]%logged_delete. eapply Hrs; [|done]. set_solver.
  - split; [done|]. intros c' ch' Hc'. apply Hchs in Hc' as [? Hl].
    rewrite channels_remove in Hl. apply lookup_delete_Some in Hl as [??]. set_solver.
Qed.

(** The circle tables without circle [k]. *)
Definition drop_circle (k : CircleId) (slug : ChannelSlug) (st : RepositoryState) : RepositoryState :=
  st <| circles := delete k (circles st) |>
     <| circles_by_slug := delete slug (circles_by_slug st) |>
     <| favorite_circles := filter (λ f, f.1 ≠ k) (favorite_circles st) |>
     <| circle_memberships := filter (λ kv, kv.1.1 ≠ k) (circle_memberships st) |>
     <| circle_invitations := filter (λ kv, CircleInvitation_circle_id kv.2 ≠ k) (circle_invitations st) |>.
Lemma wf_drop_circle st k ci :
  wf st → circles st !! k = Some ci →
  (∀ c ch, channels st !! c = Some ch → Channel_circle_id ch ≠ Some k) →
  wf (drop_circle k (Circle_slug ci) st).
Proof.
  intros Hwf Hci Hno. wf_tables Hwf.
  - eapply indexed_delete; [apply Hwf|done].
  - destruct (wf_circle_members _ Hwf). constructor.
    + intros c u m [? _]%map_lookup_filter_Some. eauto.
    + intros c u m [? _]%map_lookup_filter_Some. eauto.
    + intros c u [Hc Hin]%elem_of_filter. destruct (circle_members_favorite _ _ Hin) as [m Hm].
      exists m. by apply map_lookup_filter_Some.
    + intros u. etrans; [|apply (circle_members_cap u)]. apply subseteq_size. set_solver.
  - intros c ch k' u Hch Hk Hg Hm.
    destruct (wf_circle_channels _ Hwf _ _ _ _ Hch Hk Hg Hm) as [m Hm'].
    exists m. apply map_lookup_filter_Some. split; [done|]. simpl. intros ->. by eapply Hno.
Qed.

Lemma circle_channel_ids_NoDup st k : wf st → NoDup (circle_channel_ids st k).
Proof.
  intros Hwf. unfold circle_channel_ids, values.
  assert (NoDup (Channel_id <$> (map_to_list (channels st)).*2)) as Hnd.
  { rewrite <-list_fmap_compose.
    rewrite (list_fmap_ext _ fst); [apply NoDup_fst_map_to_list|].
    intros i [c ch] Hi. simpl. apply (indexed_id _ _ _ _ (wf_channels _ Hwf)).
    apply elem_of_map_to_list. by eapply list_elem_of_lookup_2. }
  revert Hnd. generalize ((map_to_list (channels st)).*2). intros l.
  induction l as [|ch l IH]; simpl; [done|]. intros [Hn Hnd]%NoDup_cons.
  case_match; [|auto]. apply NoDup_cons. split; [|auto]. intros Hin. apply Hn.
  apply list_elem_of_fmap in Hin as (ch'&->&Hin). apply list_elem_of_fmap_2.
  apply list_elem_of_In, filter_In in Hin as [Hin _]. by apply list_elem_of_In.
Qed.
Lemma circles_remove_channels ids st : circles (remove_channels ids st) = circles st.
Proof.
  unfold remove_channels. revert st. induction ids as [|c ids IH]; intros st; simpl; [done|].
  rewrite IH. unfold remove_channel. by destruct (channels st !! c).
Qed.
Lemma delete_circle_cases cmd st r st' :
  delete_circle cmd st = (r, st') →
  let k := DeleteCircle_circle_id cmd in
  let ids := circle_channel_ids st k in
  let message_ids : gset MessageId :=
    list_to_set (ChatMessage_id <$> concat (channel_messages st <$> ids)) in
  (∃ e, r = Err e ∧ st' = st) ∨
  (∃ ci, can_delete_circle (circle_role_in st k (DeleteCircle_actor cmd)) = true
     ∧ circles st !! k = Some ci ∧ r = Ok tt
     ∧ st' = drop_circle k (Circle_slug ci) (remove_channels ids
               (st <| command_receipts := filter (λ kv, kv.2 ∉ message_ids) (command_receipts st) |>))).
Proof.
  intros Hrun. unfold delete_circle in Hrun. st_simpl Hrun. st_guard Hrun E1; [|left; eauto].
  destruct (circles st !! _) as [ci|] eqn:Eci; simplify_eq; [right|left; eauto].
  exists ci. split_and!; [done..|].
  set (k := DeleteCircle_circle_id cmd). set (ids := circle_channel_ids st k).
  set (message_ids := list_to_set (ChatMessage_id <$> concat (channel_messages st <$> ids)) : gset MessageId).
  set (f := λ s : RepositoryState,
    s <| command_receipts := filter (λ kv, kv.2 ∉ message_ids) (command_receipts s) |>).
  change (f (remove_channels ids (drop_circle k (Circle_slug ci) st))
          = drop_circle k (Circle_slug ci) (remove_channels ids (f st))).
  rewrite !remove_channels_comm; [done|..].
  - intros c s. unfold f, remove_channel. simpl. by destruct (channels s !! c).
  - intros c s. unfold drop_circle, remove_channel. simpl. by destruct (channels s !! c).
Qed.
Lemma wf_fewer_receipts st rs :
  wf st → rs ⊆ command_receipts st → wf (st <| command_receipts := rs |>).
Proof.
  intros Hwf Hsub. wf_tables Hwf. intros u rid id Hr. eapply (wf_receipts _ Hwf).
  by eapply lookup_weaken.
Qed.
Lemma delete_circle_wf cmd st r st' : wf st → delete_circle cmd st = (r, st') → wf st'.
Proof.
  intros Hwf [(e&_&->)|(ci&_&Hci&_&->)]%delete_circle_cases; [done|].
  set (k := DeleteCircle_circle_id cmd) in *. set (ids := circle_channel_ids st k).
  set (message_ids := list_to_set _).
  set (st1 := st <| command_receipts := _ |>).
  assert (wf st1) as Hwf1 by (apply wf_fewer_receipts; [done|apply map_filter_subseteq]).
  destruct (wf_remove_channels st1 ids k) as [Hwf2 Hchs].
  - done.
  - by apply circle_channel_ids_NoDup.
  - intros c Hc. by apply elem_of_circle_channels in Hc.
  - intros c u rid i m Hc Hl [_ Hr]%map_lookup_filter_Some. apply Hr. simpl. unfold message_ids.
    apply elem_of_list_to_set, list_elem_of_fmap. exists m. split; [done|].
    apply list_elem_of_In, in_concat. exists (channel_messages st c).
    split; apply list_elem_of_In; [by apply list_elem_of_fmap_2|]. by eapply list_elem_of_lookup_2.
  - apply wf_drop_circle; [done|..].
    + by rewrite circles_remove_channels.
    + intros c ch Hc Hk. apply Hchs in Hc as [Hn Hc]. apply Hn, elem_of_circle_channels; eauto.
Qed.

(** ** Favorites and invitations *)

(** The favorites of a user, counted as a set. *)
Lemma favorites_of_size st u :
  length (favorites_of st u) = size (filter (λ f, f.2 = u) (favorite_circles st)).
Proof.
  unfold favorites_of. rewrite length_fmap. set (l := List.filter _ _).
  assert (NoDup l) as Hnd.
  { unfold l. rewrite NoDup_ListNoDup. apply List.NoDup_filter, NoDup_ListNoDup, NoDup_elements. }
  rewrite <-(size_list_to_set (C := gset _) l Hnd). apply set_size_proper. intros f.
  rewrite elem_of_list_to_set, elem_of_filter. unfold l.
  rewrite list_elem_of_In, filter_In, <-list_elem_of_In, elem_of_elements, bool_decide_eq_true.
  tauto.
Qed.
Lemma favorites_cap (favs : gset (CircleId * UserId)) key u :
  size (filter (λ f, f.2 = u) favs) ≤ 12 →
  (key ∈ favs ∨ size (filter (λ f, f.2 = key.2) favs) < 12) →
  size (filter (λ f, f.2 = u) ({[key]} ∪ favs)) ≤ 12.
Proof.
  intros Hu [Hin|Hlt].
  - replace ({[key]} ∪ favs) with favs by set_solver. done.
  - destruct (decide (key.2 = u)) as [<-|Hne].
    + rewrite (filter_union _), size_union_alt. set (A := filter _ favs) in *.
      set (B := filter _ {[key]}).
      assert (size B ≤ 1) by (rewrite <-(size_singleton (C := gset _) key); apply subseteq_size; set_solver).
      assert (size (A ∖ B) ≤ size A) by (apply subseteq_size; set_solver). lia.
    + etrans; [|exact Hu]. apply subseteq_size. set_solver.
Qed.

Lemma set_circle_favorite_wf actor k favorite st r st' :
  wf st → set_circle_favorite actor k favorite st = (r, st') → wf st'.
Proof.
  intros Hwf Hrun. unfold set_circle_favorite in Hrun. st_simpl Hrun.
  destruct (negb favorite); simplify_eq.
  - wf_tables Hwf. destruct (wf_circle_members _ Hwf). constructor; [done..| |].
    + intros c u Hin. apply circle_members_favorite. set_solver.
    + intros u. etrans; [|apply (circle_members_cap u)]. apply subseteq_size. set_solver.
  - st_guard Hrun E1; [|done]. st_guard Hrun E2; [|done]. bool_facts.
    wf_tables Hwf. destruct (wf_circle_members _ Hwf). constructor; [done..| |].
    + intros c u [?%elem_of_singleton|Hin]%elem_of_union; simplify_eq; eauto.
    + intros u. apply favorites_cap; [done|]. apply andb_false_iff in E2 as [E2|E2]; bool_facts.
      * by left.
      * right. simpl. rewrite <-favorites_of_size. lia.
Qed.

Section with_libs.
Context `{Unicode, CryptoLib}.

Lemma create_circle_invitation_wf secret fresh now cmd st r st' :
  wf st → create_circle_invitation secret fresh now cmd st = (r, st') → wf st'.
Proof.
  intros Hwf Hrun. unfold create_circle_invitation in Hrun. run_st Hrun; try done; wf_tables Hwf.
Qed.

(** The state left by an attempt to accept an invitation: the invitation is gone
    in any case, and the actor is a plain member when it was still valid. *)
Lemma accept_circle_invitation_cases now joined cmd st r st' :
  accept_circle_invitation now joined cmd st = (r, st') →
  let key := sha256_digest (AcceptCircleInvitation_token cmd) in
  let st1 := st <| circle_invitations := delete key (circle_invitations st) |> in
  (∃ e, r = Err e ∧ st' = st) ∨
  (∃ inv, circle_invitations st !! key = Some inv ∧ is_Some (users st !! AcceptCircleInvitation_actor cmd)
     ∧ ((r = Err NotFound ∧ (CircleInvitation_expires_at inv < now)%Z ∧ st' = st1) ∨
        (let m := {| CircleMembership_circle_id := CircleInvitation_circle_id inv;
                     CircleMembership_user_id := AcceptCircleInvitation_actor cmd;
                     CircleMembership_role := CircleRole_Member;
                     CircleMembership_joined_at := joined |} in
         r = Ok m ∧ (now ≤ CircleInvitation_expires_at inv)%Z
         ∧ st' = st1 <| circle_memberships :=
             <[(CircleInvitation_circle_id inv, AcceptCircleInvitation_actor cmd) := m]>
               (circle_memberships st) |>))).
Proof.
  intros Hrun. unfold accept_circle_invitation in Hrun. st_simpl Hrun. st_guard Hrun E1; [|left; eauto].
  destruct (circle_invitations st !! _) as [inv|] eqn:Ei; simplify_eq; [right|left; eauto].
  bool_facts. exists inv. split_and!; [done..|]. st_guard Hrun E2.
  - right. split_and!; [done|lia|done].
  - left. split_and!; [done|lia|done].
Qed.
Lemma accept_circle_invitation_wf now joined cmd st r st' :
  wf st → accept_circle_invitation now joined cmd st = (r, st') → wf st'.
Proof.
  intros Hwf [(e&_&->)|(inv&Hi&Hu&Hcase)]%accept_circle_invitation_cases; [done|].
  set (st1 := st <| circle_invitations := _ |>) in *.
  assert (wf st1) as Hwf1 by wf_tables Hwf.
  destruct Hcase as [(_&_&->)|(_&_&->)]; [done|]. by apply (wf_circle_member st1).
Qed.

Lemma wf_enrollment st k s :
  wf st → (is_Some (consumed_by s) ↔ EnrollmentInvitation_state (stored_invitation s) = Consumed) →
  wf (st <| enrollment_invitations := <[k := s]> (enrollment_invitations st) |>).
Proof.
  intros Hwf Hs. wf_tables Hwf. intros k' s'. rewrite lookup_insert_Some.
  intros [[<- <-]|[_ ?]]; [done|]. by eapply (wf_enrollments _ Hwf).
Qed.
Lemma prepare_enrollment_invitation_wf secret fresh cmd st r st' :
  wf st → prepare_enrollment_invitation secret fresh cmd st = (r, st') → wf st'.
Proof.
  intros Hwf Hrun. unfold prepare_enrollment_invitation in Hrun. st_simpl Hrun.
  st_guard Hrun E1; [|done]. st_guard Hrun E2; [|done].
  destruct (generate_enrollment_token secret); simplify_eq; try done.
  apply wf_enrollment; [done|]. simpl. split; [by intros []|done].
Qed.
Lemma activate_enrollment_invitation_wf now cmd st r st' :
  wf st → activate_enrollment_invitation now cmd st = (r, st') → wf st'.
Proof.
  intros Hwf Hrun. unfold activate_enrollment_invitation in Hrun. st_simpl Hrun.
  destruct (enrollment_invitations st !! _) as [s|] eqn:Es; simplify_eq; [|done].
  st_guard Hrun E1; [|done]. bool_facts. apply wf_enrollment; [done|]. simpl.
  apply (wf_enrollments _ Hwf) in Es. rewrite Es. split; [congruence|done].
Qed.

Lemma accept_enrollment_cases now joined cmd st r st' :
  accept_enrollment_invitation now joined cmd st = (r, st') →
  let key := enrollment_token_hash (AcceptEnrollmentInvitation_token cmd) in
  let actor := AcceptEnrollmentInvitation_actor cmd in
  (∃ e, r = Err e ∧ st' = st) ∨
  (∃ s, let inv := stored_invitation s in
     let s' := mk_StoredEnrollmentInvitation (inv <| EnrollmentInvitation_state := Consumed |>)
                 (expected_email_hash s) (Some actor) in
     let st1 := st <| enrollment_invitations := <[key := s']> (enrollment_invitations st) |> in
     enrollment_invitations st !! key = Some s ∧ is_Some (users st !! actor)
     ∧ EnrollmentInvitation_state inv = Active ∧ (now < EnrollmentInvitation_expires_at inv)%Z
     ∧ expected_email_hash s = enrollment_email_hash (AcceptEnrollmentInvitation_email cmd)
     ∧ match EnrollmentInvitation_circle_id inv with
       | None => r = Ok None ∧ st' = st1
       | Some k =>
           let m := {| CircleMembership_circle_id := k; CircleMembership_user_id := actor;
                       CircleMembership_role := CircleRole_Member;
                       CircleMembership_joined_at := joined |} in
           r = Ok (Some (default m (circle_memberships st !! (k, actor))))
           ∧ st' = st1 <| circle_memberships := or_insert (k, actor) m (circle_memberships st) |>
       end).
Proof.
  intros Hrun. unfold accept_enrollment_invitation in Hrun. st_simpl Hrun.
  st_guard Hrun E1; [|left; eauto].
  destruct (enrollment_invitations st !! _) as [s|] eqn:Es; simplify_eq; [|left; eauto].
  st_guard Hrun E2; [|left; eauto]. right. exists s. bool_facts. split_and!; [done..|lia|done|].
  destruct (EnrollmentInvitation_circle_id _) as [k|]; simplify_eq; done.
Qed.
Lemma accept_enrollment_invitation_wf now joined cmd st r st' :
  wf st → accept_enrollment_invitation now joined cmd st = (r, st') → wf st'.
Proof.
  intros Hwf [(e&_&->)|(s&Hs&Hu&_&_&_&Hcase)]%accept_enrollment_cases; [done|].
  set (st1 := st <| enrollment_invitations := _ |>) in *.
  assert (wf st1) as Hwf1 by (apply wf_enrollment; [done|]; simpl; split; eauto).
  destruct (EnrollmentInvitation_circle_id _) as [k|]; destruct Hcase as [_ ->]; [|done].
  unfold or_insert. destruct (circle_memberships st !! _) eqn:E; [exact Hwf1|].
  by apply (wf_circle_member st1).
Qed.
End with_libs.
