(* ===== verification/WfUsers.v ===== *)
(** * WfUsers: the account operations preserve the invariant

    Accounts and signup ordinals, profiles, statuses, saved emojis and media. *)

From Stdlib Require Import ZifyBool.
From stdpp Require Import base tactics numbers strings countable sorting gmap list.
From S2P Require Import Prelude RustStr Text Ids Models Policy RepoState RepoMessages RepoChannels RepoUsers RepoWf WfMessages WfChannels.

(** ** Accounts *)

Lemma keep_local_identity_id existing user :
  User_id (keep_local_identity existing user) = User_id user
  ∧ User_kind (keep_local_identity existing user) = User_kind user.
Proof. unfold keep_local_identity. destruct existing; [|done]. by case_decide. Qed.

(** Storing an account that needs no new ordinal, or with the next one. *)
Lemma accounts_ok_keep us ords next x :
  accounts_ok us ords next → (User_kind x = Human → is_Some (ords !! User_id x)) →
  accounts_ok (<[User_id x := x]> us) ords next.
Proof.
  intros [Hid Hknown Hrange Hinj Hsize Hhuman] Hx. constructor; try done.
  - intros v y. rewrite lookup_insert_Some. intros [[<- <-]|[_ ?]]; eauto.
  - intros v n Hv. apply lookup_insert_is_Some'. eauto.
  - intros v y. rewrite lookup_insert_Some. intros [[<- <-]|[_ ?]]; eauto.
Qed.
Lemma accounts_ok_assign us ords next x :
  accounts_ok us ords next → ords !! User_id x = None →
  accounts_ok (<[User_id x := x]> us) (<[User_id x := (next + 1)%N]> ords) (next + 1)%N.
Proof.
  intros [Hid Hknown Hrange Hinj Hsize Hhuman] Hx. constructor.
  - intros v y. rewrite lookup_insert_Some. intros [[<- <-]|[_ ?]]; eauto.
  - intros v n. rewrite lookup_insert_Some. intros [[<- <-]|[_ ?]];
      apply lookup_insert_is_Some'; eauto.
  - intros v n. rewrite lookup_insert_Some. intros [[<- <-]|[_ Hv]]; [lia|].
    apply Hrange in Hv. lia.
  - intros u v n. rewrite !lookup_insert_Some.
    intros [[<- <-]|[_ Hu]] [[<- ?]|[_ Hv]]; simplify_eq; eauto; first [apply Hrange in Hu|apply Hrange in Hv]; lia.
  - rewrite map_size_insert_None by done. lia.
  - intros v y. rewrite lookup_insert_Some. intros [[<- <-]|[_ ?]] Hk; apply lookup_insert_is_Some'; eauto.
Qed.

(** A larger user table keeps the tables that refer to it. *)
Lemma wf_users st us ords next :
  wf st → (∀ u, is_Some (users st !! u) → is_Some (us !! u)) → accounts_ok us ords next →
  wf (st <| users := us |> <| signup_ordinals := ords |> <| next_signup_ordinal := next |>).
Proof.
  intros Hwf Hgrow Hacc. wf_tables Hwf.
  - intros c u m Hm. eapply member_ok_mono; [by eapply (wf_members _ Hwf)|auto..].
  - destruct (wf_circle_members _ Hwf). constructor; [done| |done..]. eauto.
Qed.

Lemma general_channel_Some st c :
  wf st → general_channel st = Some c →
  ∃ ch, channels st !! c = Some ch ∧ is_general_slug (Channel_slug ch) = true.
Proof.
  intros Hwf. unfold general_channel, values.
  destruct (find_first _ _) as [ch|] eqn:E; simpl; [|done]. intros; simplify_eq.
  destruct (find_first_Some _ _ _ E) as (i&Hi&Hp&_). exists ch. split; [|done].
  apply list_lookup_fmap_Some in Hi as ([c' ch']&->&Hi). simpl in *.
  apply list_elem_of_lookup_2, elem_of_map_to_list in Hi.
  by rewrite (indexed_id _ _ _ _ (wf_channels _ Hwf) _ _ Hi).
Qed.

(** The state between storing the account and joining the general channel. *)
Definition stored_user (st : RepositoryState) (user : User) : RepositoryState :=
  let st1 :=
    if bool_decide (User_kind user = Human) && negb (contains_key (User_id user) (signup_ordinals st))
    then st <| next_signup_ordinal := (next_signup_ordinal st + 1)%N |>
            <| signup_ordinals :=
                 <[User_id user := (next_signup_ordinal st + 1)%N]> (signup_ordinals st) |>
    else st in
  st1 <| users := <[User_id user := user]> (users st) |>.
Lemma upsert_user_cases user st r st' :
  upsert_user user st = (r, st') →
  let user' := keep_local_identity (users st !! User_id user) user in
  let st1 := stored_user st user' in
  (r = Panic ∧ (u64_max ≤ next_signup_ordinal st)%N ∧ st' = st) ∨
  (r = Ok user' ∧
   st' = match general_channel st1 with
         | Some c => st1 <| memberships := or_insert (c, User_id user')
                       (new_member c MembershipRole_Member (User_id user')) (memberships st1) |>
         | None => st1
         end).
Proof.
  intros Hrun. unfold upsert_user, assign_signup_ordinal in Hrun. st_simpl Hrun.
  unfold stored_user. destruct (_ && _).
  - destruct (_ <? _)%N eqn:E; [right|left; simplify_eq; split_and!; [done|lia|done]].
    match type of Hrun with context [general_channel ?s] =>
      change (general_channel _) with (general_channel s); destruct (general_channel s) end;
      by simplify_eq.
  - right. match type of Hrun with context [general_channel ?s] =>
      change (general_channel _) with (general_channel s); destruct (general_channel s) end;
      by simplify_eq.
Qed.
Lemma stored_user_wf st user : wf st → wf (stored_user st user).
Proof.
  intros Hwf. unfold stored_user.
  assert (∀ u, is_Some (users st !! u) → is_Some (<[User_id user := user]> (users st) !! u)) as Hgrow
    by (intros u Hu; apply lookup_insert_is_Some'; auto).
  destruct (_ && _) eqn:E.
  - bool_facts. apply (wf_users st _ _ _ Hwf Hgrow). apply accounts_ok_assign; [apply Hwf|done].
  - apply (wf_users st _ _ _ Hwf Hgrow). apply accounts_ok_keep; [apply Hwf|]. intros Hk.
    apply andb_false_iff in E as [E|E]; bool_facts; done.
Qed.
Lemma upsert_user_wf user st r st' : wf st → upsert_user user st = (r, st') → wf st'.
Proof.
  intros Hwf [(_&_&->)|(_&->)]%upsert_user_cases; [done|].
  set (user' := keep_local_identity _ _). set (st1 := stored_user st user').
  assert (wf st1) as Hwf1 by by apply stored_user_wf.
  destruct (general_channel st1) as [c|] eqn:Ec; [|done].
  destruct (general_channel_Some _ _ Hwf1 Ec) as (ch&Hch&Hg).
  unfold or_insert. destruct (memberships st1 !! _) eqn:Em; [by destruct st1|].
  apply (wf_join st1 _ ch); [done..|auto|congruence|]. apply member_ok_new; [|by rewrite Hch].
  assert (users st1 = <[User_id user' := user']> (users st)) as ->
    by (unfold st1, stored_user; by destruct (_ && _)).
  by rewrite lookup_insert_eq.
Qed.

Lemma update_profile_wf actor name st r st' :
  wf st → update_profile actor name st = (r, st') → wf st'.
Proof.
  intros Hwf Hrun. unfold update_profile in Hrun. st_simpl Hrun.
  destruct (users st !! actor) as [x|] eqn:Ex; simplify_eq; [|done].
  st_guard Hrun Eh; [|done]. bool_facts.
  assert (User_id x = actor) as <- by by eapply (accounts_id _ _ _ (wf_accounts _ Hwf)).
  destruct (default _ _) as [[text emoji] expires_at]; simplify_eq.
  set (x' := x <| User_display_name := name |>).
  apply (wf_users st (<[User_id x := x']> (users st)) (signup_ordinals st) (next_signup_ordinal st) Hwf).
  - intros u Hu. apply lookup_insert_is_Some'. auto.
  - apply (accounts_ok_keep _ _ _ x'); [apply Hwf|]. intros _.
    by eapply (accounts_human _ _ _ (wf_accounts _ Hwf)).
Qed.

(** ** Statuses *)

Lemma merge_sort_fmap_perm {A B} (R : relation A) `{!RelDecision R} (f : A → B) l :
  f <$> merge_sort R l ≡ₚ f <$> l.
Proof. by rewrite merge_sort_Permutation. Qed.
Lemma modify_first_keys {A B} (k : A → B) p f (l : list A) :
  (∀ x, k (f x) = k x) → k <$> modify_first p f l = k <$> l.
Proof.
  intros Hf. induction l as [|x l IH]; simpl; [done|]. case_match; csimpl; by rewrite ?Hf, ?IH.
Qed.
Lemma same_status_key text emoji s : same_status text emoji s = true ↔ status_key s = (text, emoji).
Proof.
  unfold same_status, status_key. rewrite andb_true_iff, !bool_decide_eq_true. naive_solver.
Qed.
Lemma record_status_ok now text emoji l :
  NoDup (status_key <$> l) →
  length (record_status now text emoji l) ≤ 20
  ∧ NoDup (status_key <$> record_status now text emoji l).
Proof.
  intros Hnd. unfold record_status. split; [rewrite length_take; lia|].
  match goal with |- context [sort_saved_statuses ?x] => set (l' := x) end.
  assert (NoDup (status_key <$> l')) as Hnd'.
  { unfold l'. case_match eqn:E; [by rewrite modify_first_keys|].
    rewrite fmap_app, NoDup_app. simpl. split_and!; [done| |apply NoDup_singleton].
    intros k Hk ->%list_elem_of_singleton. apply list_elem_of_fmap in Hk as (s&Hs&Hin).
    assert (any (same_status text emoji) l = true) as Hany; [|by rewrite Hany in E].
    apply existsb_exists. exists s. split; [by apply list_elem_of_In|]. by apply same_status_key. }
  rewrite <-(merge_sort_fmap_perm (cmp_le status_cmp)) in Hnd'.
  unfold sort_saved_statuses, sort_by. rewrite <-(take_drop 20 (merge_sort _ _)), fmap_app in Hnd'.
  by apply NoDup_app in Hnd' as [? _].
Qed.

Lemma wf_statuses_insert st u l :
  wf st → length l ≤ 20 → NoDup (status_key <$> l) →
  wf (st <| saved_statuses := <[u := l]> (saved_statuses st) |>).
Proof.
  intros Hwf Hl Hnd. wf_tables Hwf. intros u' l'. rewrite lookup_insert_Some.
  intros [[<- <-]|[_ ?]]; [done|]. by eapply (wf_statuses _ Hwf).
Qed.
Lemma statuses_NoDup st u : wf st → NoDup (status_key <$> default [] (saved_statuses st !! u)).
Proof.
  intros Hwf. destruct (saved_statuses st !! u) as [l|] eqn:E; simpl; [|by apply NoDup_nil_2].
  by apply (wf_statuses _ Hwf) in E as [_ ?].
Qed.
Lemma set_user_status_wf now actor text emoji expires st r st' :
  wf st → set_user_status now actor text emoji expires st = (r, st') → wf st'.
Proof.
  intros Hwf Hrun. unfold set_user_status in Hrun. st_simpl Hrun.
  destruct (users st !! actor) as [x|] eqn:Ex; simplify_eq; [|done].
  st_guard Hrun Eh; [|done]. destruct (negb _ || negb _); simplify_eq.
  - destruct (record_status_ok now text emoji _ (statuses_NoDup st actor Hwf)) as [Hl Hnd].
    assert (Hwf' := wf_statuses_insert st actor _ Hwf Hl Hnd). wf_tables Hwf'.
  - wf_tables Hwf.
Qed.
Lemma remove_saved_status_wf actor text emoji st r st' :
  wf st → remove_saved_status actor text emoji st = (r, st') → wf st'.
Proof.
  intros Hwf Hrun. unfold remove_saved_status in Hrun. st_simpl Hrun. st_guard Hrun Eh; [|done].
  wf_tables Hwf. intros u l Hl. apply lookup_alter_Some in Hl as [(->&l0&Hl0&->)|[_ Hl]].
  - apply (wf_statuses _ Hwf) in Hl0 as [Hlen Hnd]. split.
    + etrans; [apply List.filter_length_le|done].
    + revert Hnd. clear. induction l0 as [|s l IH]; simpl; [done|]. intros [Hn Hnd]%NoDup_cons.
      case_match; [|auto]. apply NoDup_cons. split; [|auto]. intros Hin. apply Hn.
      apply list_elem_of_fmap in Hin as (s'&->&Hin). apply list_elem_of_fmap_2.
      apply list_elem_of_In, filter_In in Hin as [Hin _]. by apply list_elem_of_In.
  - by eapply (wf_statuses _ Hwf).
Qed.

(** ** Saved emojis and media *)

Lemma wf_emojis_insert st u l :
  wf st → length l ≤ 50 → NoDup l → wf (st <| saved_emojis := <[u := l]> (saved_emojis st) |>).
Proof.
  intros Hwf Hl Hnd. wf_tables Hwf. intros u' l'. rewrite lookup_insert_Some.
  intros [[<- <-]|[_ ?]]; [done|]. by eapply (wf_emojis _ Hwf).
Qed.
Lemma emojis_default st u :
  wf st → length (default [] (saved_emojis st !! u)) ≤ 50 ∧ NoDup (default [] (saved_emojis st !! u)).
Proof.
  intros Hwf. destruct (saved_emojis st !! u) eqn:E; simpl; [by eapply (wf_emojis _ Hwf)|].
  split; [lia|apply NoDup_nil_2].
Qed.
Lemma save_emoji_wf actor emoji saved st r st' :
  wf st → save_emoji actor emoji saved st = (r, st') → wf st'.
Proof.
  intros Hwf Hrun. unfold save_emoji in Hrun. st_simpl Hrun. st_guard Hrun Ea; [|done].
  set (st1 := st <| saved_emojis := or_insert actor [] (saved_emojis st) |>) in *.
  assert (wf st1) as Hwf1.
  { unfold st1, or_insert. destruct (saved_emojis st !! actor) eqn:E; [by destruct st|].
    apply wf_emojis_insert; [done|simpl; lia|apply NoDup_nil_2]. }
  destruct (emojis_default st actor Hwf) as [Hlen Hnd].
  destruct (saved && _) eqn:E1; simplify_eq.
  - st_guard Hrun E2; [|done]. bool_facts. apply (wf_emojis_insert st1); [done|..].
    + rewrite length_app. simpl. lia.
    + apply NoDup_app. split_and!; [done|set_solver|apply NoDup_singleton].
  - destruct (negb saved); simplify_eq; [|done]. apply (wf_emojis_insert st1); [done|..].
    + etrans; [apply List.filter_length_le|done].
    + apply NoDup_ListNoDup, List.NoDup_filter, NoDup_ListNoDup, Hnd.
Qed.
Lemma store_media_wf fresh now upload sha st r st' :
  wf st → store_media fresh now upload sha st = (r, st') → wf st'.
Proof. intros Hwf Hrun. unfold store_media in Hrun. run_st Hrun; try done; wf_tables Hwf. Qed.
