(* ===== verification/RepoReach.v ===== *)
(** * RepoReach: the repository as a state machine

    [Op] lists the writing methods of the repository with the values they are
    given by the caller, the clock and the identifier generators; [outcome] runs
    one. The reachable states are those of any sequence of calls that starts from
    the empty repository and generates unused identifiers. *)

From Stdlib Require Import ZifyBool.
From stdpp Require Import base tactics numbers strings countable sorting gmap list.
From S2P Require Import Prelude RustStr Text Ids Models Policy RepoState RepoMessages RepoChannels RepoCircles RepoUsers RepoWf WfMessages WfChannels WfCircles WfUsers.

(** Forget the value a method returns. *)
Definition void {A} (m : Repo A) : Repo unit := λ st,
  let '(r, st') := m st in (res_map (λ _, tt) r, st').

Section machine.
Context `{Unicode, UuidLib, CryptoLib}.

Inductive Op : Type :=
  | AppendMessage (id : MessageId) (now : DateTime) (cmd : SendMessage)
  | AppendMessageIdempotent (id : MessageId) (now : DateTime) (cmd : SendMessage) (rid : str)
  | EditMessageOp (now : DateTime) (cmd : EditMessage)
  | DeleteMessageOp (now : DateTime) (cmd : DeleteMessage)
  | MarkReadOp (cmd : MarkRead)
  | MarkThreadRead (actor : UserId) (root : MessageId) (sequence : ChannelSequence)
  | ToggleMessageReaction (actor : UserId) (id : MessageId) (emoji : str)
  | OpenPersonalSpace (fresh : ChannelId) (owner : UserId)
  | SavePersonalNote (owner : UserId) (note : PersonalNote)
  | SavePersonalLink (fresh_channel : ChannelId) (fresh : MessageId) (now : DateTime)
      (owner : UserId) (source : MessageId)
  | OpenDirectChannel (fresh : ChannelId) (slug : Uuid) (actor other : UserId)
  | ExpandDirectChannel (fresh : ChannelId) (slug : Uuid) (actor : UserId)
      (source : ChannelId) (other : UserId)
  | CreateChannelOp (fresh : ChannelId) (cmd : CreateChannel)
  | JoinChannelOp (cmd : JoinChannel)
  | AddChannelMemberOp (cmd : AddChannelMember)
  | LeaveChannelOp (cmd : LeaveChannel)
  | UpdateChannelDescriptionOp (cmd : UpdateChannelDescription)
  | CreateCircleOp (fresh : CircleId) (now : DateTime) (cmd : CreateCircle)
  | SetCircleMemberRoleOp (cmd : SetCircleMemberRole)
  | RenameCircleOp (cmd : RenameCircle)
  | DeleteCircleOp (cmd : DeleteCircle)
  | LeaveCircleOp (cmd : LeaveCircle)
  | SetCircleFavorite (actor : UserId) (circle : CircleId) (favorite : bool)
  | CreateCircleInvitationOp (secret : Res str (list N)) (fresh : InvitationId) (now : DateTime)
      (cmd : CreateCircleInvitation)
  | AcceptCircleInvitationOp (now joined : DateTime) (cmd : AcceptCircleInvitation)
  | PrepareEnrollment (secret : Res str (list N)) (fresh : Uuid) (cmd : PrepareEnrollmentInvitation)
  | ActivateEnrollment (now : DateTime) (cmd : ActivateEnrollmentInvitation)
  | AcceptEnrollment (now joined : DateTime) (cmd : AcceptEnrollmentInvitation)
  | UpsertUser (user : User)
  | UpdateProfile (actor : UserId) (name : DisplayName)
  | SetUserStatus (now : DateTime) (actor : UserId) (text emoji : str) (expires : option DateTime)
  | RemoveSavedStatus (actor : UserId) (text emoji : str)
  | SaveEmoji (actor : UserId) (emoji : str) (saved : bool)
  | StoreMedia (fresh : MediaId) (now : DateTime) (upload : MediaUpload) (sha256 : str).

Definition outcome (op : Op) : Repo unit :=
  match op with
  | AppendMessage id now cmd => void (append_message id now cmd)
  | AppendMessageIdempotent id now cmd rid => void (append_message_idempotent id now cmd rid)
  | EditMessageOp now cmd => void (edit_message now cmd)
  | DeleteMessageOp now cmd => void (delete_message now cmd)
  | MarkReadOp cmd => void (mark_read cmd)
  | MarkThreadRead actor root sequence => void (mark_thread_read actor root sequence)
  | ToggleMessageReaction actor id emoji => void (toggle_message_reaction actor id emoji)
  | OpenPersonalSpace fresh owner => void (open_personal_space fresh owner)
  | SavePersonalNote owner note => void (save_personal_note owner note)
  | SavePersonalLink fresh_channel fresh now owner source =>
      void (save_personal_link fresh_channel fresh now owner source)
  | OpenDirectChannel fresh slug actor other => void (open_direct_channel fresh slug actor other)
  | ExpandDirectChannel fresh slug actor source other =>
      void (expand_direct_channel fresh slug actor source other)
  | CreateChannelOp fresh cmd => void (create_channel fresh cmd)
  | JoinChannelOp cmd => void (join_channel cmd)
  | AddChannelMemberOp cmd => void (add_channel_member cmd)
  | LeaveChannelOp cmd => leave_channel cmd
  | UpdateChannelDescriptionOp cmd => void (update_channel_description cmd)
  | CreateCircleOp fresh now cmd => void (create_circle fresh now cmd)
  | SetCircleMemberRoleOp cmd => void (set_circle_member_role cmd)
  | RenameCircleOp cmd => void (rename_circle cmd)
  | DeleteCircleOp cmd => delete_circle cmd
  | LeaveCircleOp cmd => leave_circle cmd
  | SetCircleFavorite actor circle favorite => set_circle_favorite actor circle favorite
  | CreateCircleInvitationOp secret fresh now cmd =>
      void (create_circle_invitation secret fresh now cmd)
  | AcceptCircleInvitationOp now joined cmd => void (accept_circle_invitation now joined cmd)
  | PrepareEnrollment secret fresh cmd => void (prepare_enrollment_invitation secret fresh cmd)
  | ActivateEnrollment now cmd => void (activate_enrollment_invitation now cmd)
  | AcceptEnrollment now joined cmd => void (accept_enrollment_invitation now joined cmd)
  | UpsertUser user => void (upsert_user user)
  | UpdateProfile actor name => void (update_profile actor name)
  | SetUserStatus now actor text emoji expires =>
      void (set_user_status now actor text emoji expires)
  | RemoveSavedStatus actor text emoji => remove_saved_status actor text emoji
  | SaveEmoji actor emoji saved => save_emoji actor emoji saved
  | StoreMedia fresh now upload sha256 => void (store_media fresh now upload sha256)
  end.

(** The values an operation generates: identifiers are unused, and the source of
    random secrets returns bytes or an error. *)
Definition unused_message (st : RepositoryState) (id : MessageId) : bool :=
  match find_message (has_id id) st with None => true | Some _ => false end.
Definition unused_channel (st : RepositoryState) (c : ChannelId) (slug : ChannelSlug) : bool :=
  negb (contains_key c (channels st)) && negb (contains_key slug (channels_by_slug st)).
Definition fresh_op (st : RepositoryState) (op : Op) : bool :=
  match op with
  | AppendMessage id _ _ | AppendMessageIdempotent id _ _ _ => unused_message st id
  | OpenPersonalSpace c _ => unused_channel st c (personal_slug c)
  | SavePersonalLink c id _ _ _ => unused_channel st c (personal_slug c) && unused_message st id
  | OpenDirectChannel c u _ _ => unused_channel st c (direct_slug u)
  | ExpandDirectChannel c u _ _ _ => unused_channel st c (group_slug u)
  | CreateChannelOp c _ => negb (contains_key c (channels st))
  | CreateCircleOp k _ _ => negb (contains_key k (circles st))
  | CreateCircleInvitationOp Panic _ _ _ | PrepareEnrollment Panic _ _ => false
  | _ => true
  end.

Inductive step (st : RepositoryState) : RepositoryState → Prop :=
  | step_op op : fresh_op st op = true → step st (outcome op st).2.
Definition reachable (st : RepositoryState) : Prop := rtc step RepositoryState_default st.

(** Running a list of operations, for examples. *)
Fixpoint run_ops (ops : list Op) (st : RepositoryState) : RepositoryState :=
  match ops with [] => st | op :: ops => run_ops ops (outcome op st).2 end.
Fixpoint fresh_ops (ops : list Op) (st : RepositoryState) : bool :=
  match ops with [] => true | op :: ops => fresh_op st op && fresh_ops ops (outcome op st).2 end.
Lemma run_ops_rtc ops st : fresh_ops ops st = true → rtc step st (run_ops ops st).
Proof.
  revert st. induction ops as [|op ops IH]; intros st Hf; simpl in *; [done|].
  apply andb_true_iff in Hf as [??]. eapply rtc_l; [by apply step_op|auto].
Qed.
Lemma run_ops_reachable ops :
  fresh_ops ops RepositoryState_default = true → reachable (run_ops ops RepositoryState_default).
Proof. apply run_ops_rtc. Qed.

(** ** Every reachable state is well formed *)

Lemma unused_message_fresh st id : unused_message st id = true → fresh_message st id.
Proof.
  unfold unused_message. destruct (find_message _ st) eqn:E; [done|]. intros _ c i m Hl Hid.
  apply (find_message_None _ _ E) in Hl. by rewrite <-Hid, (proj2 (has_id_true _ _)) in Hl.
Qed.
Lemma unused_channel_fresh st c slug : unused_channel st c slug = true → fresh_channel st c slug.
Proof. unfold unused_channel, fresh_channel. intros. by bool_facts. Qed.

Lemma default_wf : wf RepositoryState_default.
Proof.
  assert (∀ c i m, ¬ logged ∅ c i m) as Hno.
  { intros c i m. unfold logged. by rewrite lookup_empty. }
  constructor; simpl.
  - constructor; try (by intros * ?%Hno).
    + intros c. rewrite !lookup_empty. by intros [[]|[]].
    + intros c. unfold log_length. by rewrite lookup_empty.
    + intros c. unfold log_length. by rewrite !lookup_empty.
  - constructor; intros *; by rewrite lookup_empty.
  - constructor; intros *; by rewrite lookup_empty.
  - intros c u m. by rewrite lookup_empty.
  - intros u rid id. by rewrite lookup_empty.
  - by intros c i m u e ?%Hno.
  - constructor; try (intros *; by rewrite lookup_empty). done.
  - constructor; try (intros *; by rewrite lookup_empty). intros u.
    rewrite (filter_empty _), size_empty. lia.
  - constructor; intros *; by rewrite lookup_empty.
  - intros c ch k u. by rewrite lookup_empty.
  - intros u l. by rewrite lookup_empty.
  - intros u l. by rewrite lookup_empty.
  - intros k s. by rewrite lookup_empty.
Qed.

Lemma void_run {A} (m : Repo A) st : (void m st).2 = (m st).2.
Proof. unfold void. by destruct (m st). Qed.

Lemma outcome_wf op st : wf st → fresh_op st op = true → wf (outcome op st).2.
Proof.
  intros Hwf Hf.
  destruct op; simpl in Hf |- *; rewrite ?void_run;
    match goal with |- wf ?p.2 => destruct p as [r st'] eqn:E; simpl end;
    bool_facts; repeat match goal with
    | Hu : unused_message _ _ = true |- _ => apply unused_message_fresh in Hu
    | Hu : unused_channel _ _ _ = true |- _ => apply unused_channel_fresh in Hu
    end;
    [ eapply append_message_wf | eapply append_message_idempotent_wf | eapply edit_message_wf
    | eapply delete_message_wf | eapply mark_read_wf | eapply mark_thread_read_wf
    | eapply toggle_message_reaction_wf | eapply open_personal_space_wf
    | eapply save_personal_note_wf | eapply save_personal_link_wf | eapply open_direct_channel_wf
    | eapply expand_direct_channel_wf | eapply create_channel_wf | eapply join_channel_wf
    | eapply add_channel_member_wf | eapply leave_channel_wf
    | eapply update_channel_description_wf | eapply create_circle_wf
    | eapply set_circle_member_role_wf | eapply rename_circle_wf | eapply delete_circle_wf
    | eapply leave_circle_wf | eapply set_circle_favorite_wf | eapply create_circle_invitation_wf
    | eapply accept_circle_invitation_wf | eapply prepare_enrollment_invitation_wf
    | eapply activate_enrollment_invitation_wf | eapply accept_enrollment_invitation_wf
    | eapply upsert_user_wf | eapply update_profile_wf | eapply set_user_status_wf
    | eapply remove_saved_status_wf | eapply save_emoji_wf | eapply store_media_wf ];
    eassumption.
Qed.

Lemma reachable_wf st : reachable st → wf st.
Proof.
  assert (∀ a b, rtc step a b → wf a → wf b) as Hind.
  { intros a b Hr. induction Hr as [|a b c [op Hf] _ IH]; [done|]. intros. by apply IH, outcome_wf. }
  intros Hr. apply (Hind _ _ Hr), default_wf.
Qed.
End machine.

(** Case analysis of one method call [E : m st = (r, st')]: the methods with a
    case lemma by the lemma, and the others path by path. *)
Ltac op_cases E :=
  first [ apply append_message_cases in E | apply append_message_idempotent_cases in E
        | apply edit_message_cases in E | apply delete_message_cases in E
        | apply mark_read_cases in E | apply toggle_cases in E
        | apply open_personal_space_cases in E | apply save_personal_note_cases in E
        | apply open_direct_cases in E | apply expand_direct_cases in E
        | apply create_channel_cases in E | apply join_channel_cases in E
        | apply set_circle_member_role_cases in E | apply leave_circle_cases in E
        | apply delete_circle_cases in E | apply accept_circle_invitation_cases in E
        | apply accept_enrollment_cases in E | apply upsert_user_cases in E | idtac ]; try done.
Ltac op_paths E :=
  unfold mark_thread_read, leave_channel, update_channel_description, create_circle,
    rename_circle, set_circle_favorite, create_circle_invitation, prepare_enrollment_invitation,
    activate_enrollment_invitation, update_profile, set_user_status, remove_saved_status,
    save_emoji, store_media, add_channel_member in E; run_st E.
