(* ===== verification/RepoHistory.v ===== *)
(** * RepoHistory: the message history is append-only and sends are idempotent

    How the logs and the receipts evolve along sequences of operations, and what
    a client can read of them. *)

From Stdlib Require Import ZifyBool.
From stdpp Require Import base tactics numbers strings countable sorting gmap list.
From S2P Require Import Prelude RustStr Text Ids Models Policy RepoState RepoMessages RepoChannels RepoCircles RepoUsers RepoWf WfMessages WfChannels WfCircles WfUsers RepoReach.

(** ** Evolution of the logs *)

(** A message keeps its channel, position, identity and thread, and a deleted
    message is frozen. *)
Definition evolves (m m' : ChatMessage) : Prop :=
  same_place m m' ∧ (is_Some (ChatMessage_deleted_at m) → m' = m).
#[export] Instance evolves_preorder : PreOrder evolves.
Proof.
  split; [intros m; split; [by split_and!|done]|].
  intros m1 m2 m3 [(?&?&?&?&?) Hf] [(?&?&?&?&?) Hf']. split; [split_and!; congruence|].
  intros Hd. specialize (Hf Hd) as ->. auto.
Qed.
Definition extends (msgs msgs' : MessageTable) : Prop :=
  ∀ c i m, logged msgs c i m → ∃ m', logged msgs' c i m' ∧ evolves m m'.

#[export] Instance extends_preorder : PreOrder extends.
Proof.
  split.
  - intros msgs c i m Hl. by exists m.
  - intros m1 m2 m3 H12 H23 c i m Hl. destruct (H12 _ _ _ Hl) as (m'&Hl'&Hs).
    destruct (H23 _ _ _ Hl') as (m''&?&Hs'). exists m''. split; [done|]. by etrans.
Qed.
Lemma extends_push msgs c m : extends msgs (pushed msgs c m).
Proof. intros c' i m' Hl. exists m'. rewrite logged_pushed. split; [by left|done]. Qed.
Lemma extends_update msgs c i m m' :
  logged msgs c i m → evolves m m' → extends msgs (updated msgs c i m').
Proof.
  intros Hl Hs c' i' x Hx. destruct (decide (c' = c ∧ i' = i)) as [[-> ->]|Hne].
  - rewrite (logged_fun _ _ _ _ _ Hx Hl). exists m'. rewrite logged_updated by done. auto.
  - exists x. rewrite logged_updated by done. split; [by right|done].
Qed.
Lemma evolves_live m m' : same_place m m' → ChatMessage_deleted_at m = None → evolves m m'.
Proof. intros Hs Hd. split; [done|]. rewrite Hd. by intros []. Qed.

Section history.
Context `{Unicode, UuidLib, CryptoLib}.

(** The operations that leave logs and receipts alone. *)
Definition quiet (op : Op) : bool :=
  match op with
  | AppendMessage _ _ _ | AppendMessageIdempotent _ _ _ _ | EditMessageOp _ _
  | DeleteMessageOp _ _ | SavePersonalLink _ _ _ _ _ | DeleteCircleOp _ => false
  | _ => true
  end.
Definition same_history (st st' : RepositoryState) : Prop :=
  messages st' = messages st ∧ command_receipts st' = command_receipts st.

Lemma quiet_history op st : wf st → quiet op = true → same_history st (outcome op st).2.
Proof.
  intros Hwf Hq.
  destruct op; try discriminate Hq; clear Hq; unfold outcome; rewrite ?void_run;
    match goal with |- same_history _ ?p.2 => destruct p as [r st'] eqn:E; simpl end.
  all: try (op_paths E; by split).
  all: op_cases E.
  all: split_cases E; subst; try by split.
  - destruct (EnrollmentInvitation_circle_id _); destruct E as [_ ->]; by split.
  - unfold stored_user. destruct (general_channel _); split; by repeat case_match.
Qed.

(** The only operation that removes messages is the deletion of a circle. *)
Definition keeps_history (op : Op) : bool := match op with DeleteCircleOp _ => false | _ => true end.

Lemma outcome_history op st :
  wf st → fresh_op st op = true → keeps_history op = true →
  extends (messages st) (messages (outcome op st).2)
  ∧ command_receipts st ⊆ command_receipts (outcome op st).2.
Proof.
  intros Hwf Hf Hk. destruct (quiet op) eqn:Hq.
  { destruct (quiet_history op st Hwf Hq) as [-> ->]. by split. }
  destruct op; try done; unfold outcome; rewrite void_run;
    match goal with |- context [(?p).2] => destruct p as [r st'] eqn:E; simpl end.
  - apply append_message_cases in E; [|done]. split_cases E; subst; [done|].
    split; [apply extends_push|done].
  - apply append_message_idempotent_cases in E; [|done]. split_cases E; subst; [done..|].
    split; [apply extends_push|]. by apply insert_subseteq.
  - apply edit_message_cases in E. split_cases E; subst; [done|].
    split; [|done]. eapply extends_update; [done|]. by apply evolves_live.
  - apply delete_message_cases in E. split_cases E; subst; [done..|].
    split; [|done]. eapply extends_update; [done|]. by apply evolves_live.
  - simpl in Hf. bool_facts. apply save_personal_link_cases in E; [|done|by apply unused_channel_fresh].
    assert (∀ ch st1, open_personal_space fresh_channel owner st = (Ok ch, st1) →
              command_receipts st1 = command_receipts st) as Hrs.
    { intros ch st1 Eo. apply open_personal_space_cases in Eo; [|done].
      split_cases Eo; by subst. }
    split_cases E; subst; try done;
      match goal with Eo : open_personal_space _ _ _ = _, Hm : messages _ = messages _ |- _ =>
        apply Hrs in Eo; simpl; rewrite ?Eo, ?Hm end; try done.
    split; [apply extends_push|done].
Qed.

Lemma run_history ops st :
  wf st → fresh_ops ops st = true → forallb keeps_history ops = true →
  wf (run_ops ops st) ∧ extends (messages st) (messages (run_ops ops st))
  ∧ command_receipts st ⊆ command_receipts (run_ops ops st).
Proof.
  revert st. induction ops as [|op ops IH]; intros st Hwf Hf Hk; simpl in *; [done|]. bool_facts.
  destruct (outcome_history op st) as [Hext Hrs]; [done..|].
  destruct (IH (outcome op st).2) as (?&?&?); [by apply outcome_wf|done..|].
  split_and!; [done|by etrans|by etrans].
Qed.

(** ** Sends *)

(** What a receipt answers: the message logged under it, unless its text was
    edited since. *)
Lemma replay_receipt st c i m id now cmd rid :
  wf st → logged (messages st) c i m →
  command_receipts st !! (SendMessage_actor cmd, rid) = Some (ChatMessage_id m) →
  ChatMessage_channel_id m = SendMessage_channel_id cmd →
  ChatMessage_parent_message_id m = SendMessage_parent_message_id cmd →
  append_message_idempotent id now cmd rid st
  = (if decide (ChatMessage_body m = SendMessage_body cmd) then Ok m else Err Conflict, st).
Proof.
  intros Hwf Hl Hr Hc Hp. unfold append_message_idempotent, st_bind, get. rewrite Hr.
  unfold st_lift, ok_or, find_message. rewrite (find_message_id _ _ _ _ Hwf Hl). simpl.
  unfold ensure. rewrite Hc, Hp, !bool_decide_false by auto. simpl.
  case_decide as Hb; [rewrite bool_decide_false by auto|rewrite bool_decide_true by auto]; done.
Qed.

(** After a send succeeded, its receipt and its message are in place. *)
Lemma sent_receipt st id now cmd rid m st1 :
  wf st → fresh_message st id → append_message_idempotent id now cmd rid st = (Ok m, st1) →
  wf st1 ∧ ∃ c i, logged (messages st1) c i m
    ∧ command_receipts st1 !! (SendMessage_actor cmd, rid) = Some (ChatMessage_id m)
    ∧ ChatMessage_channel_id m = SendMessage_channel_id cmd
    ∧ ChatMessage_parent_message_id m = SendMessage_parent_message_id cmd.
Proof.
  intros Hwf Hfresh Hrun. split; [by eapply append_message_idempotent_wf|].
  apply append_message_idempotent_cases in Hrun; [|done]. split_cases Hrun; simplify_eq.
  - match goal with Hf : find_message _ _ = Some _ |- _ =>
      destruct (find_message_Some _ _ _ Hf) as (c&i&?&_) end. by exists c, i.
  - do 2 eexists. split; [apply logged_pushed; right; eauto|].
    split_and!; [simpl; by rewrite lookup_insert_eq|done..].
Qed.
End history.

(** ** Reading a log page by page *)

(** In a list numbered from [k], the numbers select prefixes and suffixes. *)
Definition numbered (k : nat) (l : list ChatMessage) : Prop :=
  ∀ i m, l !! i = Some m → ChatMessage_sequence m = mk_ChannelSequence (N.of_nat (S (k + i))).
Lemma numbered_cons k m l : numbered k (m :: l) → numbered (S k) l.
Proof. intros Hn i x Hi. rewrite (Hn (S i) x Hi). do 3 f_equal. lia. Qed.
Lemma filter_after k l q :
  numbered k l →
  List.filter (λ m, seq_lt q (ChatMessage_sequence m)) l = drop (N.to_nat (seq_u64 q) - k) l.
Proof.
  revert k. induction l as [|m l IH]; intros k Hn; [by rewrite drop_nil|].
  simpl. rewrite (Hn 0 m eq_refl), (IH (S k)) by by eapply numbered_cons. unfold seq_lt. simpl.
  destruct (_ <? _)%N eqn:E.
  - assert (N.to_nat (seq_u64 q) - k = 0) as -> by lia.
    by assert (N.to_nat (seq_u64 q) - S k = 0) as -> by lia.
  - by assert (N.to_nat (seq_u64 q) - k = S (N.to_nat (seq_u64 q) - S k)) as -> by lia.
Qed.
Lemma filter_before k l q :
  numbered k l →
  List.filter (λ m, seq_lt (ChatMessage_sequence m) q) l = take (N.to_nat (seq_u64 q) - S k) l.
Proof.
  revert k. induction l as [|m l IH]; intros k Hn; [by rewrite take_nil|].
  simpl. rewrite (Hn 0 m eq_refl), (IH (S k)) by by eapply numbered_cons. unfold seq_lt. simpl.
  destruct (_ <? _)%N eqn:E.
  - by assert (N.to_nat (seq_u64 q) - S k = S (N.to_nat (seq_u64 q) - S (S k))) as -> by lia.
  - assert (N.to_nat (seq_u64 q) - S k = 0) as -> by lia.
    by assert (N.to_nat (seq_u64 q) - S (S k) = 0) as -> by lia.
Qed.
Lemma filter_all {A} (l : list A) : List.filter (λ _, true) l = l.
Proof. induction l; simpl; congruence. Qed.
Lemma log_numbered st c : wf st → numbered 0 (channel_messages st c).
Proof. intros Hwf i m Hi. exact (log_sequence _ _ _ (wf_log _ Hwf) c i m Hi). Qed.

(** The last [n] elements. *)
Definition last_n {A} (n : nat) (l : list A) : list A := drop (length l - n) l.

(** What a query returns to a member, as a slice of the log. *)
Definition page (st : RepositoryState) (q : LoadRecentMessages) : Res RepositoryError (list ChatMessage) :=
  let log := channel_messages st (LoadRecentMessages_channel_id q) in
  let limit := N.to_nat (MessageLimit_usize (LoadRecentMessages_limit q)) in
  match LoadRecentMessages_after q, LoadRecentMessages_before q with
  | Some a, Some b => Err Conflict
  | Some a, None => Ok (take limit (drop (N.to_nat (seq_u64 a)) log))
  | None, Some b => Ok (last_n limit (take (N.to_nat (seq_u64 b) - 1) log))
  | None, None => Ok (last_n limit log)
  end.
Lemma load_recent_page st q :
  wf st → load_recent_messages q st =
    (if decide (is_Some (memberships st !! (LoadRecentMessages_channel_id q, LoadRecentMessages_actor q)))
     then page st q else Err PermissionDenied, st).
Proof.
  intros Hwf. unfold load_recent_messages. st_compute.
  destruct (decide (is_Some (memberships st !! _))) as [Hm|Hm].
  - rewrite (proj2 (can_read_member _ _ _) Hm). unfold page.
    assert (Hn := log_numbered st (LoadRecentMessages_channel_id q) Hwf).
    destruct (LoadRecentMessages_after q) as [a|], (LoadRecentMessages_before q) as [b|]; simpl; [done|..].
    + rewrite filter_all, (filter_after 0), Nat.sub_0_r by done. done.
    + rewrite filter_all, (filter_before 0) by done. done.
    + by rewrite !filter_all.
  - destruct (can_read_channel _) eqn:E; [|done]. by apply can_read_member in E.
Qed.

(** A client that reads forward from a cursor, page by page, until a page is
    empty. *)
Fixpoint read_forward (fuel : nat) (actor : UserId) (c : ChannelId) (limit : MessageLimit)
    (after : ChannelSequence) (st : RepositoryState) : list ChatMessage :=
  match fuel with
  | O => []
  | S fuel =>
      match load_recent_messages (mk_LoadRecentMessages actor c limit (Some after) None) st with
      | (Ok page, st') =>
          match last page with
          | Some m => page ++ read_forward fuel actor c limit (ChatMessage_sequence m) st'
          | None => []
          end
      | _ => []
      end
  end.
Lemma read_forward_log fuel actor c limit after st :
  wf st → is_Some (memberships st !! (c, actor)) → (0 < MessageLimit_usize limit)%N →
  log_length (messages st) c ≤ fuel + N.to_nat (seq_u64 after) →
  read_forward fuel actor c limit after st
  = drop (N.to_nat (seq_u64 after)) (channel_messages st c).
Proof.
  intros Hwf Hm Hlimit. revert after. induction fuel as [|fuel IH]; intros after Hfuel.
  { simpl. symmetry. apply drop_ge. unfold log_length in Hfuel. unfold channel_messages. lia. }
  simpl. rewrite load_recent_page, decide_True by done. unfold page. simpl.
  set (n := N.to_nat (MessageLimit_usize limit)). set (a := N.to_nat (seq_u64 after)) in *.
  set (log := channel_messages st c).
  destruct (last (take n (drop a log))) as [m|] eqn:E.
  - rewrite last_lookup, length_take, length_drop in E.
    apply lookup_take_Some in E as [E Hn]. rewrite lookup_drop in E.
    assert (Hlt := lookup_lt_Some _ _ _ E).
    rewrite (log_numbered st c Hwf _ _ E). rewrite IH; simpl.
    + rewrite Nat2N.id. fold log.
      set (k := n `min` (length log - a)) in *. assert (S (a + pred k) = a + k) as -> by lia.
      rewrite <-drop_drop. destruct (decide (n ≤ length log - a)).
      * assert (k = n) as -> by lia. apply take_drop.
      * rewrite take_ge by (rewrite length_drop; lia).
        rewrite (drop_ge (drop a log) k) by (rewrite length_drop; lia). apply app_nil_r.
    + rewrite Nat2N.id. fold log a in Hfuel. lia.
  - apply last_None in E. symmetry. destruct (drop a log) as [|x l]; [done|].
    destruct n eqn:En; [lia|done].
Qed.
