(* ===== verification/RepoDemo.v ===== *)
(** * RepoDemo: a concrete run of the repository

    Three users, a general channel, a circle with a channel, a direct
    conversation and a personal space, with messages, replies, reactions and
    receipts: the state the examples of the theorems are evaluated in. *)

From stdpp Require Import base tactics numbers strings countable sorting gmap list.
From S2P Require Import Prelude RustStr Text Ids Models RepoState RepoCircles RepoReach.

#[local] Existing Instances demo_unicode demo_uuid demo_crypto.

Definition alice : UserId := mk_UserId 1.
Definition bob : UserId := mk_UserId 2.
Definition carol : UserId := mk_UserId 3.
Definition general : ChannelId := mk_ChannelId 10.
Definition direct : ChannelId := mk_ChannelId 11.
Definition personal : ChannelId := mk_ChannelId 12.
Definition prat : ChannelId := mk_ChannelId 13.
Definition circle : CircleId := mk_CircleId 20.
Definition hello : MessageId := mk_MessageId 100.
Definition reply : MessageId := mk_MessageId 101.
Definition secret_note : MessageId := mk_MessageId 102.
Definition second : MessageId := mk_MessageId 103.

Definition demo_user (u : UserId) (name : string) : User := {|
  User_id := u; User_kind := Human; User_display_name := mk_DisplayName (lit name);
  User_handle := None; User_external_provider := None; User_external_subject := None;
  User_created_at := 0 |}.
Definition body (s : string) : MessageBody := mk_MessageBody (lit s).
Definition slug (s : string) : ChannelSlug := mk_ChannelSlug (lit s).
Definition send_hello : SendMessage := mk_SendMessage alice general None (body "hello").

Definition demo_ops : list Op := [
  UpsertUser (demo_user alice "Alice"); UpsertUser (demo_user bob "Bob");
  UpsertUser (demo_user carol "Carol");
  CreateChannelOp general
    (mk_CreateChannel alice (slug "general") (mk_DisplayName (lit "General")) Public None);
  OpenDirectChannel direct 77 alice bob;
  OpenPersonalSpace personal alice;
  CreateCircleOp circle 5 (mk_CreateCircle alice (slug "crew") (mk_DisplayName (lit "Crew")));
  CreateChannelOp prat
    (mk_CreateChannel alice (slug "crew-prat") (mk_DisplayName (lit "Prat")) Private (Some circle));
  AppendMessageIdempotent hello 1000 send_hello (lit "r1");
  AppendMessage reply 2000 (mk_SendMessage bob general (Some hello) (body "hi"));
  AppendMessage secret_note 3000 (mk_SendMessage bob direct None (body "secret"));
  AppendMessage second 4000 (mk_SendMessage carol general None (body "good day"));
  ToggleMessageReaction bob hello (lit "+1");
  SavePersonalLink (mk_ChannelId 99) (mk_MessageId 104) 5000 alice hello;
  SetCircleFavorite alice circle true;
  SaveEmoji alice (lit "+1") true;
  SetUserStatus 6000 alice (lit "away") (lit "zz") None;
  PrepareEnrollment (Ok [1; 2; 3]%N) 55
    (mk_PrepareEnrollmentInvitation alice (Some circle) (lit "bob@example.org") 90000);
  ActivateEnrollment 7000 (mk_ActivateEnrollmentInvitation [1; 2; 3]%N 66) ].

Definition demo_state : RepositoryState := run_ops demo_ops RepositoryState_default.
Lemma demo_reachable : reachable demo_state.
Proof. apply run_ops_reachable. vm_compute. reflexivity. Qed.
