(* ===== verification/MessageProps.v ===== *)
(** * MessageProps: what the message operations guarantee

    Theorems about every reachable state of the repository: the invariant, the
    append-only history, exactly-once sends, exact pages, deletion, reactions,
    read markers and threads. *)

From Stdlib Require Import ZifyBool.
From stdpp Require Import base tactics numbers strings countable sorting gmap list.
From S2P Require Import Prelude RustStr Text Ids Models Policy RepoState RepoMessages RepoChannels RepoCircles RepoUsers RepoWf WfMessages WfChannels WfCircles WfUsers RepoReach RepoDemo RepoHistory.

#[local] Existing Instances demo_unicode demo_uuid demo_crypto.

(** ** The invariant *)

(** C1: every state the repository can reach, by any sequence of its writing
    methods, failing calls included, is well formed: message numbers are dense
    and identifiers unique, replies point to roots of their channel, deleted
    messages keep only the tombstone, slug indexes are exact, members are known
    users who read no further than the log, receipts and reactions refer to
    suitable messages, signup ordinals are 1..n, private conversations have no
    outsiders, and the bounded collections stay within their bounds. *)
Theorem repository_invariant `{Unicode, UuidLib, CryptoLib} (st : RepositoryState) :
  reachable st → wf st.
Proof. apply reachable_wf. Qed.
Lemma repository_invariant_witness : wf demo_state.
Proof. apply (repository_invariant demo_state). exact demo_reachable. Defined.

(** ** History *)

(** C20: the history is append-only: along any sequence of operations other than
    the deletion of a circle, every message keeps its channel, its position and
    number, its identifier, its sender and its thread, and a deleted message
    never changes again. *)
Theorem history_append_only `{Unicode, UuidLib, CryptoLib} (st : RepositoryState) (ops : list Op)
    (c : ChannelId) (i : nat) (m : ChatMessage) :
  reachable st → fresh_ops ops st = true → forallb keeps_history ops = true →
  logged (messages st) c i m →
  ∃ m', logged (messages (run_ops ops st)) c i m' ∧ evolves m m'.
Proof.
  intros Hr Hf Hk Hl. destruct (run_history ops st (reachable_wf _ Hr) Hf Hk) as (_&Hext&_).
  by apply Hext.
Qed.
Lemma history_append_only_witness :
  ∃ m m', logged (messages demo_state) general 1 m
    ∧ logged (messages (run_ops [DeleteMessageOp 9 (mk_DeleteMessage bob reply)] demo_state)) general 1 m'
    ∧ evolves m m'.
Proof.
  eexists.
  destruct (history_append_only demo_state [DeleteMessageOp 9 (mk_DeleteMessage bob reply)] general 1
    (default (sent_message demo_state reply 0 send_hello (mk_DisplayName []))
       (channel_messages demo_state general !! 1))) as (m'&Hl&Hs).
  - exact demo_reachable.
  - vm_compute. reflexivity.
  - reflexivity.
  - vm_compute. reflexivity.
  - exists m'. split; [|split; [exact Hl|exact Hs]]. vm_compute. reflexivity.
Defined.

(** C19: a send with a request identifier takes effect at most once: after it
    succeeded with message [m], and whatever operations follow (short of deleting
    a circle), repeating the command leaves the state unchanged and answers with
    that same message, in its current form, or with a conflict when its text was
    edited meanwhile. *)
Theorem idempotent_send_exactly_once `{Unicode, UuidLib, CryptoLib} (st st1 : RepositoryState)
    (id id' : MessageId) (now now' : DateTime) (cmd : SendMessage) (rid : str) (m : ChatMessage)
    (ops : list Op) :
  reachable st → fresh_message st id →
  append_message_idempotent id now cmd rid st = (Ok m, st1) →
  fresh_ops ops st1 = true → forallb keeps_history ops = true →
  let st2 := run_ops ops st1 in
  ∃ m', find_message (has_id (ChatMessage_id m)) st2 = Some m' ∧ evolves m m'
    ∧ append_message_idempotent id' now' cmd rid st2
      = (if decide (ChatMessage_body m' = SendMessage_body cmd) then Ok m' else Err Conflict, st2).
Proof.
  intros Hr Hfresh Hrun Hf Hk.
  destruct (sent_receipt _ _ _ _ _ _ _ (reachable_wf _ Hr) Hfresh Hrun)
    as (Hwf1&c&i&Hl&Hrec&Hc&Hp).
  destruct (run_history ops st1 Hwf1 Hf Hk) as (Hwf2&Hext&Hrs).
  destruct (Hext _ _ _ Hl) as (m'&Hl'&Hs). exists m'. assert (Hs' := Hs).
  destruct Hs' as [(Hid&Hch&_&Hpar&_) _]. split; [|split; [done|]].
  - unfold find_message. rewrite <-Hid. by rewrite (find_message_id _ _ _ _ Hwf2 Hl').
  - eapply replay_receipt; [done..| | |]; [|congruence..].
    rewrite Hid. by eapply lookup_weaken.
Qed.
Lemma idempotent_send_exactly_once_witness :
  let '(r, st1) := append_message_idempotent (mk_MessageId 200) 1 send_hello (lit "r2") demo_state in
  match r with
  | Ok m => ∃ m', find_message (has_id (ChatMessage_id m)) st1 = Some m' ∧ evolves m m'
      ∧ append_message_idempotent (mk_MessageId 201) 2 send_hello (lit "r2") st1
        = (if decide (ChatMessage_body m' = SendMessage_body send_hello) then Ok m' else Err Conflict, st1)
  | _ => False
  end.
Proof.
  destruct (append_message_idempotent (mk_MessageId 200) 1 send_hello (lit "r2") demo_state)
    as [r st1] eqn:E.
  destruct r as [m|e|].
  - refine (idempotent_send_exactly_once demo_state st1 (mk_MessageId 200) (mk_MessageId 201) 1 2
      send_hello (lit "r2") m [] demo_reachable _ E eq_refl eq_refl).
    apply unused_message_fresh. vm_compute. reflexivity.
  - exfalso. vm_compute in E. discriminate E.
  - exfalso. vm_compute in E. discriminate E.
Defined.

(** [append_message] on every path: it succeeds exactly when the sender may
    write, the parent (if any) is a live root of the channel and the channel's
    numbers are not exhausted; then the message carries the next number, is the
    new end of that log, and no other log changes. A failure changes nothing and
    reports permission before parent before storage; it never panics. *)
Theorem append_message_exact `{Unicode, UuidLib, CryptoLib} (st : RepositoryState) (id : MessageId)
    (now : DateTime) (cmd : SendMessage) :
  reachable st →
  let c := SendMessage_channel_id cmd in
  let '(r, st') := append_message id now cmd st in
  match r with
  | Ok m => may_send st cmd
      ∧ channel_messages st' c = channel_messages st c ++ [m]
      ∧ seq_u64 (ChatMessage_sequence m) = N.of_nat (S (length (channel_messages st c)))
      ∧ (∀ c', c' ≠ c → channel_messages st' c' = channel_messages st c')
      ∧ ChatMessage_id m = id ∧ ChatMessage_sender_id m = SendMessage_actor cmd
      ∧ ChatMessage_body m = SendMessage_body cmd ∧ ChatMessage_deleted_at m = None
  | Err e => st' = st ∧
      (if can_send_to_channel (role_in st c (SendMessage_actor cmd))
       then match check_parent st c (SendMessage_parent_message_id cmd) with
            | Err e' => e = e'
            | _ => (u64_max ≤ N.of_nat (length (channel_messages st c)))%N
            end
       else e = PermissionDenied)
  | Panic => False
  end.
Proof.
  intros Hr. assert (Hwf := reachable_wf _ Hr). cbv zeta.
  destruct (append_message id now cmd st) as [r st'] eqn:E. assert (E' := E).
  apply append_message_cases in E as [(e&->&->)|(name&_&Hmay&->&->)]; [| |done].
  - split; [done|]. unfold append_message in E'. run_st E'; try done.
    + destruct (sender_known _ _ _ Hwf E) as [x Hx]. by rewrite Hx in *.
    + by eapply next_sequence_exhausted in E1.
  - split; [done|]. unfold channel_messages, sent_state, pushed. simpl. split_and!; try done.
    + by rewrite lookup_insert_eq.
    + intros c' Hc'. by rewrite lookup_insert_ne.
Qed.
Lemma append_message_exact_witness :
  ∃ m st', append_message (mk_MessageId 200) 1 send_hello demo_state = (Ok m, st')
    ∧ channel_messages st' general = channel_messages demo_state general ++ [m].
Proof.
  pose proof (append_message_exact demo_state (mk_MessageId 200) 1 send_hello demo_reachable) as Ht.
  cbv zeta in Ht.
  destruct (append_message (mk_MessageId 200) 1 send_hello demo_state) as [r st'] eqn:E.
  destruct r as [m|e|].
  - exists m, st'. split; [reflexivity|]. exact (proj1 (proj2 Ht)).
  - exfalso. vm_compute in E. discriminate E.
  - exfalso. exact Ht.
Defined.

(** ** Reading *)

(** A page is exactly a slice of the log, for every combination of cursors:
    after a number, the next messages in order; before a number, the last ones
    below it; without a cursor, the last ones; both cursors are a conflict; and
    who is not a member gets nothing. Reading changes nothing. *)
Theorem load_recent_messages_exact `{Unicode, UuidLib, CryptoLib} (st : RepositoryState)
    (q : LoadRecentMessages) :
  reachable st →
  let log := channel_messages st (LoadRecentMessages_channel_id q) in
  let limit := N.to_nat (MessageLimit_usize (LoadRecentMessages_limit q)) in
  load_recent_messages q st =
  (if decide (is_Some (memberships st !! (LoadRecentMessages_channel_id q, LoadRecentMessages_actor q)))
   then match LoadRecentMessages_after q, LoadRecentMessages_before q with
        | Some _, Some _ => Err Conflict
        | Some a, None => Ok (take limit (drop (N.to_nat (seq_u64 a)) log))
        | None, Some b => Ok (last_n limit (take (N.to_nat (seq_u64 b) - 1) log))
        | None, None => Ok (last_n limit log)
        end
   else Err PermissionDenied, st).
Proof. intros Hr. apply load_recent_page, reachable_wf, Hr. Qed.
Lemma load_recent_messages_exact_witness :
  load_recent_messages
    (mk_LoadRecentMessages carol general (MessageLimit_new 1) (Some (ChannelSequence_new 1)) None)
    demo_state
  = (Ok (take 1 (drop 1 (channel_messages demo_state general))), demo_state).
Proof.
  rewrite (load_recent_messages_exact demo_state _ demo_reachable).
  rewrite decide_True; [reflexivity|]. vm_compute. eexists. reflexivity.
Defined.

(** C37: paging loses and repeats nothing: a member who reads forward from a
    cursor, with any positive page size, until an empty page, has read every
    message after the cursor exactly once and in order; as many rounds as there
    are messages are enough. *)
Theorem paging_complete `{Unicode, UuidLib, CryptoLib} (st : RepositoryState) (fuel : nat)
    (actor : UserId) (c : ChannelId) (limit : MessageLimit) (after : ChannelSequence) :
  reachable st → is_Some (memberships st !! (c, actor)) → (0 < MessageLimit_usize limit)%N →
  length (channel_messages st c) ≤ fuel →
  read_forward fuel actor c limit after st
  = drop (N.to_nat (seq_u64 after)) (channel_messages st c).
Proof.
  intros Hr Hm Hlimit Hfuel. apply read_forward_log; [by apply reachable_wf|done..|].
  unfold log_length. unfold channel_messages in Hfuel. lia.
Qed.
Lemma paging_complete_witness :
  read_forward 3 carol general (MessageLimit_new 2) ChannelSequence_default demo_state
  = channel_messages demo_state general.
Proof.
  refine (paging_complete demo_state 3 carol general (MessageLimit_new 2) ChannelSequence_default
            demo_reachable _ _ _).
  - vm_compute. eexists. reflexivity.
  - reflexivity.
  - vm_compute. repeat constructor.
Defined.

(** ** Editing and deleting *)

(** [edit_message] on every path: an unknown message is not found, only the
    sender may edit, a deleted message is a conflict; otherwise exactly that
    message gets the new text and an edit time, in place. *)
Theorem edit_message_exact `{Unicode, UuidLib, CryptoLib} (st : RepositoryState) (now : DateTime)
    (cmd : EditMessage) :
  reachable st →
  match find_message_entry (has_id (EditMessage_message_id cmd)) st with
  | None => edit_message now cmd st = (Err NotFound, st)
            ∧ fresh_message st (EditMessage_message_id cmd)
  | Some (c, m) => ∃ i, logged (messages st) c i m ∧
      let m' := m <| ChatMessage_body := EditMessage_body cmd |>
                  <| ChatMessage_edited_at := Some (persisted_now now) |> in
      edit_message now cmd st =
      if decide (ChatMessage_sender_id m = EditMessage_actor cmd) then
        if decide (ChatMessage_deleted_at m = None)
        then (Ok m', st <| messages := updated (messages st) c i m' |>)
        else (Err Conflict, st)
      else (Err PermissionDenied, st)
  end.
Proof.
  intros Hr. unfold edit_message. st_compute.
  destruct (find_message_entry _ st) as [[c m]|] eqn:E.
  - destruct (modify_message_updated _ _ _ _ (λ m, m <| ChatMessage_body := EditMessage_body cmd |>
      <| ChatMessage_edited_at := Some (persisted_now now) |>) E) as (i&Hl&Hid&Hst).
    exists i. split; [done|]. case_decide; [rewrite bool_decide_true by done|by rewrite bool_decide_false].
    case_decide as Hd; rewrite Hst.
    + by rewrite bool_decide_false by (rewrite Hd; by intros []).
    + by rewrite bool_decide_true by by apply not_eq_None_Some.
  - split; [done|]. intros c i m Hl Hid. apply (find_entry_None _ _ E) in Hl.
    by rewrite <-Hid, (proj2 (has_id_true _ _)) in Hl.
Qed.
Lemma edit_message_exact_witness :
  edit_message 9 (mk_EditMessage carol hello (body "mine")) demo_state
  = (Err PermissionDenied, demo_state).
Proof.
  pose proof (edit_message_exact demo_state 9 (mk_EditMessage carol hello (body "mine"))
                demo_reachable) as Ht.
  destruct (find_message_entry _ demo_state) as [[c m]|] eqn:E.
  - destruct Ht as (i&_&Ht). rewrite Ht. rewrite decide_False; [reflexivity|].
    vm_compute in E. injection E as <- <-. intros Hs. discriminate Hs.
  - exfalso. vm_compute in E. discriminate E.
Defined.

(** A deletion that succeeded leaves a deleted message without reactions. *)
Lemma delete_message_deleted now cmd st m st1 :
  wf st → delete_message now cmd st = (Ok m, st1) →
  ∃ c i, logged (messages st1) c i m ∧ ChatMessage_id m = DeleteMessage_message_id cmd
         ∧ is_Some (ChatMessage_deleted_at m).
Proof.
  intros Hwf Hrun. apply delete_message_cases in Hrun. split_cases Hrun; simplify_eq.
  - by do 2 eexists.
  - do 2 eexists. split; [simpl; rewrite logged_updated by done; by left|]. by split_and!.
Qed.

(** Deletion is final and leaves no content: once [delete_message] has
    succeeded, in every later state (short of the deletion of a circle) the
    message found under the identifier is that same tombstone, it carries no
    reaction, and editing it, reacting to it or answering it fails without
    effect. *)
Theorem deletion_is_final `{Unicode, UuidLib, CryptoLib} (st st1 : RepositoryState) (now : DateTime)
    (cmd : DeleteMessage) (m : ChatMessage) (ops : list Op) :
  reachable st → delete_message now cmd st = (Ok m, st1) →
  fresh_ops ops st1 = true → forallb keeps_history ops = true →
  let st2 := run_ops ops st1 in
  let id := DeleteMessage_message_id cmd in
  find_message (has_id id) st2 = Some m
  ∧ MessageBody_as_str (ChatMessage_body m) = tombstone
  ∧ (∀ u e, (id, u, e) ∉ message_reactions st2)
  ∧ (∀ now' actor text, ∃ e, edit_message now' (mk_EditMessage actor id text) st2 = (Err e, st2))
  ∧ (∀ actor emoji, toggle_message_reaction actor id emoji st2 = (Err Conflict, st2))
  ∧ (∀ id' now' actor c text, ∃ e,
       append_message id' now' (mk_SendMessage actor c (Some id) text) st2 = (Err e, st2)).
Proof.
  intros Hr Hrun Hf Hk st2 id.
  destruct (delete_message_deleted _ _ _ _ _ (reachable_wf _ Hr) Hrun) as (c&i&Hl&Hid&Hdel).
  assert (wf st1) as Hwf1 by (eapply delete_message_wf; [by apply reachable_wf|done]).
  destruct (run_history ops st1 Hwf1 Hf Hk) as (Hwf2&Hext&_). fold st2 in Hwf2, Hext.
  destruct (Hext _ _ _ Hl) as (m'&Hl'&_&Hfix). rewrite (Hfix Hdel) in Hl'.
  fold id in Hid.
  assert (find_message_entry (has_id id) st2 = Some (c, m)) as Hfind
    by (rewrite <-Hid; by apply (find_message_id _ _ i)).
  split_and!.
  - unfold find_message. by rewrite Hfind.
  - by destruct (log_deleted _ _ _ (wf_log _ Hwf2) _ _ _ Hl' Hdel) as [-> _].
  - intros u e Hin. rewrite <-Hid in Hin.
    apply (wf_reactions _ Hwf2 _ _ _ _ _ Hl') in Hin. rewrite Hin in Hdel. by destruct Hdel.
  - intros now' actor text. unfold edit_message. st_compute. simpl. rewrite Hfind.
    rewrite (bool_decide_true (is_Some _)) by done. destruct (bool_decide _); eauto.
  - intros actor emoji. unfold toggle_message_reaction, find_message. st_compute. rewrite Hfind. simpl.
    by rewrite bool_decide_true.
  - intros id' now' actor c' text. destruct (append_message _ _ _ _) as [r st3] eqn:E.
    apply append_message_cases in E as [(e&->&->)|(name&_&(_&Hpar&_)&_)]; [by exists e| |done].
    destruct (check_parent_ok _ _ _ Hpar id eq_refl) as (j&root&Hroot&Hrid&_&Hlive).
    rewrite <-Hid in Hrid.
    destruct (log_same _ _ _ _ _ _ _ _ _ (wf_log _ Hwf2) Hroot Hl' Hrid) as (_&_&->).
    rewrite Hlive in Hdel. by destruct Hdel.
Qed.
Lemma deletion_is_final_witness :
  match delete_message 9 (mk_DeleteMessage alice hello) demo_state with
  | (Ok m, st1) => find_message (has_id hello) st1 = Some m
      ∧ toggle_message_reaction carol hello (lit "+1") st1 = (Err Conflict, st1)
  | _ => False
  end.
Proof.
  destruct (delete_message 9 (mk_DeleteMessage alice hello) demo_state) as [r st1] eqn:E.
  destruct r as [m|e|].
  - pose proof (deletion_is_final demo_state st1 9 (mk_DeleteMessage alice hello) m []
                  demo_reachable E eq_refl eq_refl) as (Hfind&_&_&_&Htoggle&_).
    split; [exact Hfind|apply Htoggle].
  - exfalso. vm_compute in E. discriminate E.
  - exfalso. vm_compute in E. discriminate E.
Defined.

(** ** Reactions and read markers *)

(** The number of users who reacted to a message with an emoji. *)
Definition reaction_count (st : RepositoryState) (id : MessageId) (emoji : str) : nat :=
  size (filter (λ r, r.1.1 = id ∧ r.2 = emoji) (message_reactions st)).
Lemma reaction_count_add (rs : gset (MessageId * UserId * str)) id u e :
  (id, u, e) ∉ rs →
  size (filter (λ r, r.1.1 = id ∧ r.2 = e) ({[(id, u, e)]} ∪ rs))
  = S (size (filter (λ r, r.1.1 = id ∧ r.2 = e) rs)).
Proof.
  intros Hn. rewrite (filter_union _).
  rewrite (size_union _ (filter (λ r, r.1.1 = id ∧ r.2 = e) rs)) by set_solver.
  rewrite (set_size_proper _ {[(id, u, e)]}); [by rewrite size_singleton|]. set_solver.
Qed.

Definition toggled (key : MessageId * UserId * str) (rs : gset (MessageId * UserId * str))
    : gset (MessageId * UserId * str) :=
  if decide (key ∈ rs) then rs ∖ {[key]} else {[key]} ∪ rs.
Lemma toggled_twice key rs : toggled key (toggled key rs) = rs.
Proof.
  unfold toggled. destruct (decide (key ∈ rs)) as [Hin|Hin].
  - rewrite decide_False by set_solver. apply set_eq. intros x.
    destruct (decide (x = key)); set_solver.
  - rewrite decide_True by set_solver. set_solver.
Qed.
Lemma elem_of_toggled key rs : key ∈ toggled key rs ↔ key ∉ rs.
Proof. unfold toggled. case_decide; set_solver. Qed.
Lemma toggled_count st id u e :
  let n := size (filter (λ r, r.1.1 = id ∧ r.2 = e) (toggled (id, u, e) (message_reactions st))) in
  if bool_decide ((id, u, e) ∉ message_reactions st)
  then n = S (reaction_count st id e) else reaction_count st id e = S n.
Proof.
  unfold toggled, reaction_count. case_decide as Hin.
  - rewrite bool_decide_false by tauto. rewrite <-(reaction_count_add _ _ u) by set_solver.
    do 2 f_equal. apply set_eq. intros x. destruct (decide (x = (id, u, e))); set_solver.
  - rewrite bool_decide_true by done. by apply reaction_count_add.
Qed.

(** A toggle by a member on a live message. *)
Lemma toggle_ok st c i m actor emoji :
  wf st → logged (messages st) c i m → ChatMessage_deleted_at m = None →
  is_Some (memberships st !! (ChatMessage_channel_id m, actor)) →
  let key := (ChatMessage_id m, actor, emoji) in
  let rs := toggled key (message_reactions st) in
  toggle_message_reaction actor (ChatMessage_id m) emoji st
  = (Ok {| MessageReactionChange_message_id := ChatMessage_id m;
           MessageReactionChange_channel_id := ChatMessage_channel_id m;
           MessageReactionChange_user_id := actor; MessageReactionChange_emoji := emoji;
           MessageReactionChange_added := bool_decide (key ∉ message_reactions st);
           MessageReactionChange_count :=
             as_u32 (size (filter (λ r, r.1.1 = ChatMessage_id m ∧ r.2 = emoji) rs)) |},
     st <| message_reactions := rs |>).
Proof.
  intros Hwf Hl Hd Hm. unfold toggle_message_reaction, find_message. st_compute.
  rewrite (find_message_id _ _ _ _ Hwf Hl). simpl.
  rewrite Hd, bool_decide_false by by intros []. simpl.
  rewrite (proj2 (contains_key_true _ _) Hm), bool_decide_not. unfold toggled.
  by case_decide; [rewrite bool_decide_true|rewrite bool_decide_false].
Qed.

(** A reaction is a toggle: a successful call adds the reaction exactly when
    the user had not given it, and reports the number of users now giving that
    emoji (as a [u32]), which moved by one; the same call again restores the
    whole state. *)
Theorem toggle_reaction_involutive `{Unicode, UuidLib, CryptoLib} (st st1 : RepositoryState)
    (actor : UserId) (id : MessageId) (emoji : str) (x : MessageReactionChange) :
  reachable st → toggle_message_reaction actor id emoji st = (Ok x, st1) →
  MessageReactionChange_added x = bool_decide ((id, actor, emoji) ∉ message_reactions st)
  ∧ MessageReactionChange_count x = as_u32 (reaction_count st1 id emoji)
  ∧ (if MessageReactionChange_added x
     then reaction_count st1 id emoji = S (reaction_count st id emoji)
     else reaction_count st id emoji = S (reaction_count st1 id emoji))
  ∧ ∃ x', toggle_message_reaction actor id emoji st1 = (Ok x', st)
          ∧ MessageReactionChange_added x' = negb (MessageReactionChange_added x).
Proof.
  intros Hr Hrun. assert (Hwf := reachable_wf _ Hr).
  assert (wf st1) as Hwf1 by by eapply toggle_message_reaction_wf.
  destruct (toggle_cases _ _ _ _ _ _ Hrun) as [(e&?&_)|(c&i&m&x'&Hl&<-&Hd&Hm&_)]; [done|].
  rewrite (toggle_ok _ _ _ _ _ _ Hwf Hl Hd Hm) in Hrun. simplify_eq. simpl.
  split; [done|]. split; [done|]. split; [apply (toggled_count st)|].
  rewrite (toggle_ok _ c i m _ _ Hwf1) by done. simpl. eexists. split.
  - f_equal. rewrite toggled_twice. by destruct st.
  - simpl. rewrite !bool_decide_not. f_equal. rewrite <-bool_decide_not.
    apply bool_decide_ext. apply elem_of_toggled.
Qed.
Lemma toggle_reaction_involutive_witness :
  match toggle_message_reaction carol hello (lit "+1") demo_state with
  | (Ok x, st1) => ∃ x', toggle_message_reaction carol hello (lit "+1") st1 = (Ok x', demo_state)
      ∧ MessageReactionChange_added x' = negb (MessageReactionChange_added x)
  | _ => False
  end.
Proof.
  destruct (toggle_message_reaction carol hello (lit "+1") demo_state) as [r st1] eqn:E.
  destruct r as [x|e|].
  - exact (proj2 (proj2 (proj2 (toggle_reaction_involutive demo_state st1 carol hello (lit "+1") x
      demo_reachable E)))).
  - exfalso. vm_compute in E. discriminate E.
  - exfalso. vm_compute in E. discriminate E.
Defined.

(** A read marker never moves back and never passes the log: [mark_read]
    refuses a number beyond the last message, refuses strangers, and otherwise
    stores the larger of the old marker and the request, for that member only. *)
Theorem mark_read_exact `{Unicode, UuidLib, CryptoLib} (st : RepositoryState) (cmd : MarkRead) :
  reachable st →
  let key := (MarkRead_channel_id cmd, MarkRead_actor cmd) in
  mark_read cmd st =
  if decide (N.of_nat (length (channel_messages st key.1)) < seq_u64 (MarkRead_sequence cmd))%N
  then (Err NotFound, st)
  else match memberships st !! key with
       | None => (Err PermissionDenied, st)
       | Some m =>
           let m' := m <| Membership_last_read_sequence := mk_ChannelSequence
             (N.max (seq_u64 (Membership_last_read_sequence m)) (seq_u64 (MarkRead_sequence cmd))) |> in
           (Ok m', st <| memberships := <[key := m']> (memberships st) |>)
       end.
Proof.
  intros Hr key. unfold mark_read. st_compute.
  rewrite last_sequence_length by by apply reachable_wf. unfold seq_lt, log_length. simpl.
  fold (channel_messages st (MarkRead_channel_id cmd)). case_decide as Hlt.
  - by rewrite (proj2 (N.ltb_lt _ _) Hlt).
  - rewrite (proj2 (N.ltb_ge _ _)) by lia. simpl. fold key.
    destruct (memberships st !! key) as [m|]; [|done].
    assert ((if (seq_u64 (Membership_last_read_sequence m) <? seq_u64 (MarkRead_sequence cmd))%N
             then m <| Membership_last_read_sequence := MarkRead_sequence cmd |> else m)
            = m <| Membership_last_read_sequence := mk_ChannelSequence
                (N.max (seq_u64 (Membership_last_read_sequence m)) (seq_u64 (MarkRead_sequence cmd))) |>)
      as ->; [|done].
    destruct (N.ltb_spec (seq_u64 (Membership_last_read_sequence m)) (seq_u64 (MarkRead_sequence cmd))).
    + rewrite N.max_r by lia. by destruct (MarkRead_sequence cmd).
    + rewrite N.max_l by lia. by destruct m as [? ? ? []].
Qed.
Lemma mark_read_exact_witness :
  mark_read (mk_MarkRead bob general (ChannelSequence_new 4)) demo_state = (Err NotFound, demo_state).
Proof.
  rewrite (mark_read_exact demo_state _ demo_reachable). cbv zeta.
  rewrite decide_True; [reflexivity|]. vm_compute. reflexivity.
Defined.

(** ** Threads *)

Definition in_thread (root : MessageId) (m : ChatMessage) : bool :=
  bool_decide (ChatMessage_id m = root) || bool_decide (ChatMessage_parent_message_id m = Some root).

Lemma filter_false {A} (p : A → bool) l : (∀ i x, l !! i = Some x → p x = false) → List.filter p l = [].
Proof.
  induction l as [|x l IH]; intros Hp; simpl; [done|].
  rewrite (Hp 0 x eq_refl). apply IH. intros i. apply (Hp (S i)).
Qed.
Lemma filter_same {A} (p q : A → bool) l :
  (∀ i x, l !! i = Some x → p x = q x) → List.filter p l = List.filter q l.
Proof.
  induction l as [|x l IH]; intros Hp; simpl; [done|].
  rewrite (Hp 0 x eq_refl), IH; [done|]. intros i. apply (Hp (S i)).
Qed.
(** A thread read in log order starts with its root. *)
Lemma thread_in_order st c j root :
  wf st → logged (messages st) c j root → ChatMessage_parent_message_id root = None →
  root :: replies_to st c (ChatMessage_id root)
  = List.filter (in_thread (ChatMessage_id root)) (channel_messages st c).
Proof.
  intros Hwf Hl Hp. set (r := ChatMessage_id root).
  assert (∀ i m, logged (messages st) c i m → ChatMessage_id m = r → i = j) as Hid.
  { intros i m Hm Heq. by destruct (log_unique _ _ _ (wf_log _ Hwf) _ _ _ _ _ _ Hm Hl Heq). }
  assert (∀ i m, logged (messages st) c i m → ChatMessage_parent_message_id m = Some r → j < i) as Hpar.
  { intros i m Hm Heq. destruct (log_parent _ _ _ (wf_log _ Hwf) _ _ _ _ Hm Heq) as (j'&x&?&Hx&Hxr&_).
    by rewrite <-(Hid j' x Hx Hxr). }
  unfold replies_to. set (log := channel_messages st c).
  assert (log = take j log ++ root :: drop (S j) log) as Hsplit by (symmetry; by apply take_drop_middle).
  rewrite Hsplit, !List.filter_app. simpl. fold r. unfold in_thread at 2.
  rewrite Hp, (bool_decide_true (ChatMessage_id root = r)), bool_decide_false by done. simpl.
  rewrite !(filter_false _ (take j log)); simpl.
  - f_equal. apply filter_same. intros i x Hx. rewrite lookup_drop in Hx.
    unfold in_thread. rewrite (bool_decide_false (ChatMessage_id x = r)); [done|].
    intros Heq. specialize (Hid _ _ Hx Heq). lia.
  - intros i x Hx. apply lookup_take_Some in Hx as [Hx Hi]. unfold in_thread.
    rewrite !bool_decide_false; [done|..].
    + intros Heq. specialize (Hpar _ _ Hx Heq). lia.
    + intros Heq. specialize (Hid _ _ Hx Heq). lia.
  - intros i x Hx. apply lookup_take_Some in Hx as [Hx Hi].
    rewrite bool_decide_false; [done|]. intros Heq. specialize (Hpar _ _ Hx Heq). lia.
Qed.

(** A thread is exactly its messages: for a root of the log, a member of the
    channel gets the root and all its replies, in the order of the log; a
    stranger gets nothing. *)
Theorem load_thread_exact `{Unicode, UuidLib, CryptoLib} (st : RepositoryState) (actor : UserId)
    (c : ChannelId) (i : nat) (root : ChatMessage) :
  reachable st → logged (messages st) c i root → ChatMessage_parent_message_id root = None →
  load_thread actor (ChatMessage_id root) st
  = (if decide (is_Some (memberships st !! (c, actor)))
     then Ok (List.filter (in_thread (ChatMessage_id root)) (channel_messages st c))
     else Err PermissionDenied, st).
Proof.
  intros Hr Hl Hp. assert (Hwf := reachable_wf _ Hr). unfold load_thread. st_compute.
  rewrite (find_root _ _ _ _ Hwf Hl Hp), (log_channel _ _ _ (wf_log _ Hwf) _ _ _ Hl).
  case_decide as Hm.
  - rewrite (proj2 (contains_key_true _ _) Hm). by rewrite (thread_in_order _ _ i).
  - by rewrite (proj2 (contains_key_false _ _)) by by apply eq_None_not_Some.
Qed.
Lemma load_thread_exact_witness :
  match channel_messages demo_state general !! 0 with
  | Some root => load_thread carol (ChatMessage_id root) demo_state
      = (Ok (List.filter (in_thread (ChatMessage_id root)) (channel_messages demo_state general)), demo_state)
  | None => False
  end.
Proof.
  destruct (channel_messages demo_state general !! 0) as [root|] eqn:E.
  - rewrite (load_thread_exact demo_state carol general 0 root demo_reachable E).
    + rewrite decide_True; [reflexivity|]. vm_compute. eexists. reflexivity.
    + vm_compute in E. injection E as <-. reflexivity.
  - vm_compute in E. discriminate E.
Defined.
