(* ===== verification/AccessProps.v ===== *)
(** * AccessProps: who can read, write and govern

    Theorems about every reachable state: private conversations and circles keep
    outsiders out, roles are only granted by those entitled to, failed calls
    leave no trace and no call panics. *)

From Stdlib Require Import ZifyBool.
From stdpp Require Import base tactics numbers strings countable sorting gmap list.
From S2P Require Import Prelude RustStr Text Ids Models Policy RepoState RepoMessages RepoChannels RepoCircles RepoUsers RepoWf WfMessages WfChannels WfCircles WfUsers RepoReach RepoHistory RepoDemo.

#[local] Existing Instances demo_unicode demo_uuid demo_crypto.

(** ** Senders *)

Section senders.
Context `{Unicode, UuidLib, CryptoLib}.

(** The private channels of a state are those of the earlier one, or new. *)
Definition private_from (st st' : RepositoryState) : Prop :=
  (∀ k c, direct_conversations st' !! k = Some c →
     direct_conversations st !! k = Some c
     ∨ channels st !! c = None ∧ personal_spaces st' = personal_spaces st)
  ∧ (∀ u c n, personal_spaces st' !! u = Some (c, n) →
       (∃ n', personal_spaces st !! u = Some (c, n'))
       ∨ channels st !! c = None ∧ direct_conversations st' = direct_conversations st).
(** A message was there before, or its sender was a member, or it is in their personal space. *)
Definition sent_from (st st' : RepositoryState) : Prop :=
  ∀ c i m, logged (messages st') c i m →
    (∃ m0, logged (messages st) c i m0 ∧ ChatMessage_sender_id m = ChatMessage_sender_id m0)
    ∨ is_Some (memberships st !! (c, ChatMessage_sender_id m))
    ∨ ∃ n, personal_spaces st' !! ChatMessage_sender_id m = Some (c, n).

Lemma private_from_same st st' :
  direct_conversations st' = direct_conversations st → personal_spaces st' = personal_spaces st → private_from st st'.
Proof. intros Hd Hp. split; rewrite ?Hd, ?Hp; eauto. Qed.
Lemma sent_from_same st st' : messages st' = messages st → sent_from st st'.
Proof. intros Hm c i m. rewrite Hm. eauto. Qed.
Lemma sent_from_update st st' c i m0 m :
  logged (messages st) c i m0 → ChatMessage_sender_id m = ChatMessage_sender_id m0 →
  messages st' = updated (messages st) c i m → sent_from st st'.
Proof.
  intros Hl0 Hs Hm c' i' m'. rewrite Hm, logged_updated by done.
  intros [(->&->&->)|[_ Hl]]; [left; by exists m0|left; by exists m'].
Qed.
Lemma remove_channels_private ids st :
  direct_conversations (remove_channels ids st) = direct_conversations st
  ∧ personal_spaces (remove_channels ids st) = personal_spaces st
  ∧ ∀ c i m, logged (messages (remove_channels ids st)) c i m → logged (messages st) c i m.
Proof.
  unfold remove_channels. revert st. induction ids as [|d ids IH]; intros st; simpl; [done|].
  destruct (IH (remove_channel d st)) as (Hd&Hp&Hl). split_and!.
  - rewrite Hd. unfold remove_channel. by destruct (channels st !! d).
  - rewrite Hp. unfold remove_channel. by destruct (channels st !! d).
  - intros c i m Hc%Hl. unfold logged in *. rewrite messages_remove in Hc.
    destruct (decide (c = d)) as [->|Hne]; [by rewrite lookup_delete_eq in Hc|by rewrite lookup_delete_ne in Hc].
Qed.
Lemma open_personal_from fresh owner st r st' :
  wf st → fresh_channel st fresh (personal_slug fresh) → open_personal_space fresh owner st = (r, st') →
  private_from st st' ∧ (∀ ch, r = Ok ch → ∃ n, personal_spaces st' !! owner = Some (Channel_id ch, n)).
Proof.
  intros Hwf [Hid _] [(->&_&->)|[(c&n&ch&_&Hp&Hch&->&->)|(_&_&->&->)]]%open_personal_space_cases; [| | |done].
  - split; [by apply private_from_same|done].
  - split; [by apply private_from_same|]. intros ch' [= <-]. exists n.
    by rewrite (indexed_id _ _ _ _ (wf_channels _ Hwf) _ _ Hch).
  - split.
    + split; [by left|]. simpl. intros u c n [[<- [= <- <-]]|[_ Hu]]%lookup_insert_Some; [by right|eauto].
    + intros ch [= <-]. simpl. rewrite lookup_insert_eq. by eexists.
Qed.
Lemma save_link_from fresh_c fresh now owner source st r st' :
  wf st → fresh_channel st fresh_c (personal_slug fresh_c) →
  save_personal_link fresh_c fresh now owner source st = (r, st') → private_from st st' ∧ sent_from st st'.
Proof.
  intros Hwf Hfresh E. apply save_personal_link_cases in E; [|done..].
  destruct E as [(e&_&->)|(ch&st1&Eo&_&Hm&_&E)]; [by split; [apply private_from_same|apply sent_from_same]|].
  destruct (open_personal_from _ _ _ _ _ Hwf Hfresh Eo) as [Hpf Hown]. destruct (Hown ch eq_refl) as [n Hn].
  destruct E as [(e&_&->)|[[_ ->]|(name&m&_&_&->)]]; [by split; [|apply sent_from_same]..|].
  split; [done|]. intros c i x. simpl. rewrite Hm, logged_pushed. intros [Hl|(->&_&->)]; [eauto|].
  right. right. simpl. by exists n.
Qed.
Lemma outcome_private op st : wf st → fresh_op st op = true → private_from st (outcome op st).2.
Proof.
  intros Hwf Hf. destruct op; unfold outcome; rewrite ?void_run;
    match goal with |- private_from _ ?p.2 => destruct p as [r st'] eqn:E; simpl end.
  all: try (op_paths E; by apply private_from_same).
  all: try (by simpl in Hf; bool_facts; eapply save_link_from; [done|by apply unused_channel_fresh|done]).
  all: try (by eapply open_personal_from; [done|apply unused_channel_fresh|done]).
  all: op_cases E; split_cases E; subst; try by apply private_from_same.
  - split; [by left|]. simpl. intros u c n [[<- [= <- <-]]|[_ Hu]]%lookup_insert_Some; eauto.
  - split; [|by left; eexists]. simpl. apply unused_channel_fresh in Hf as [Hid _].
    intros k c [[<- <-]|[_ Hk]]%lookup_insert_Some; [by right|by left].
  - match goal with |- private_from _ (drop_circle _ _ (remove_channels ?ids ?s)) =>
      destruct (remove_channels_private ids s) as (Hd&Hp&_) end. by apply private_from_same.
  - destruct (EnrollmentInvitation_circle_id _); destruct E as [_ ->]; by apply private_from_same.
  - unfold stored_user. destruct (general_channel _); apply private_from_same; by repeat case_match.
Qed.
Lemma outcome_sent op st : wf st → fresh_op st op = true → sent_from st (outcome op st).2.
Proof.
  intros Hwf Hf. destruct (quiet op) eqn:Hq; [apply sent_from_same; by apply quiet_history|].
  destruct op; try done; unfold outcome; rewrite ?void_run;
    match goal with |- context [(?p).2] => destruct p as [r st'] eqn:E; simpl end.
  - apply append_message_cases in E; [|done]. split_cases E; subst; [by apply sent_from_same|].
    intros c i m. simpl. rewrite logged_pushed. intros [Hl|(->&_&->)]; [eauto|]. right. left. simpl.
    by apply can_send_member; match goal with Hs : may_send _ _ |- _ => apply Hs end.
  - apply append_message_idempotent_cases in E; [|done]. split_cases E; subst; [by apply sent_from_same..|].
    intros c i m. simpl. rewrite logged_pushed. intros [Hl|(->&_&->)]; [eauto|]. right. left. simpl.
    by apply can_send_member; match goal with Hs : may_send _ _ |- _ => apply Hs end.
  - apply edit_message_cases in E. split_cases E; subst; [by apply sent_from_same|]. by eapply sent_from_update; [| |done].
  - apply delete_message_cases in E. split_cases E; subst; [by apply sent_from_same..|]. by eapply sent_from_update; [| |done].
  - simpl in Hf; bool_facts; eapply save_link_from; [done|by apply unused_channel_fresh|done].
  - apply delete_circle_cases in E. split_cases E; subst; [by apply sent_from_same|]. intros c i m. simpl.
    intros Hl%remove_channels_private. eauto.
Qed.

(** In every reachable state the messages of a direct conversation are from its participants. *)
Record direct_ok (st : RepositoryState) : Prop := {
  direct_senders a b c i m :
    direct_conversations st !! (a, b) = Some c → logged (messages st) c i m →
    ChatMessage_sender_id m = a ∨ ChatMessage_sender_id m = b;
  direct_personal k u c n :
    direct_conversations st !! k = Some c → personal_spaces st !! u = Some (c, n) → False }.
Lemma direct_ok_step st st' : wf st → direct_ok st → private_from st st' → sent_from st st' → direct_ok st'.
Proof.
  intros Hwf Hok [Hd Hp] Hs. assert (∀ c, channels st !! c = None → ∀ v, memberships st !! (c, v) = None
    ∧ ∀ i m, ¬ logged (messages st) c i m) as Hnew.
  { intros c Hc v. split.
    - apply eq_None_not_Some. intros [m Hm]. destruct (member_channel _ _ _ _ _ _ (wf_members _ Hwf _ _ _ Hm)). congruence.
    - intros i m Hl. destruct (log_known _ _ _ (wf_log _ Hwf) c); [|congruence]. left.
      unfold logged in Hl. by destruct (messages st !! c). }
  assert (∀ k u c n, direct_conversations st' !! k = Some c → personal_spaces st' !! u = Some (c, n) → False) as Hdp.
  { intros k u c n Hk Hu. destruct (Hd k c Hk) as [Hk0|[Hc Heq]].
    - destruct (Hp u c n Hu) as [[n' Hn]|[Hc _]]; [by eapply direct_personal|].
      destruct k as [a b]. destruct (private_direct _ _ _ _ _ _ (wf_private _ Hwf) _ _ _ Hk0) as [(ch&Hch&_) _]. congruence.
    - rewrite Heq in Hu. destruct (private_personal _ _ _ _ _ _ (wf_private _ Hwf) _ _ _ Hu) as (ch&Hch&_). congruence. }
  constructor; [|exact Hdp]. intros a b c i m Hk Hl.
  destruct (Hs c i m Hl) as [(m0&Hl0&->)|[Hm|[n Hn]]]; [| |by destruct (Hdp _ _ _ _ Hk Hn)].
  - destruct (Hd _ _ Hk) as [Hk0|[Hc _]]; [by eapply direct_senders|]. by destruct (proj2 (Hnew c Hc a) i m0).
  - destruct (Hd _ _ Hk) as [Hk0|[Hc _]].
    + by eapply (private_direct_only _ _ _ _ _ _ (wf_private _ Hwf)).
    + destruct (Hnew c Hc (ChatMessage_sender_id m)) as [Hno _]. rewrite Hno in Hm. by destruct Hm.
Qed.
Lemma reachable_direct st : reachable st → direct_ok st.
Proof.
  intros Hr. assert (wf st ∧ direct_ok st) as [_ ?]; [|done]. revert Hr. unfold reachable.
  assert (wf RepositoryState_default ∧ direct_ok RepositoryState_default) as Hstart by (split; [apply default_wf|done]).
  intros Hr. revert Hstart. induction Hr as [|st1 st2 st3 [op Hf] _ IH]; [done|]. intros [Hwf Hok]. apply IH.
  split; [by apply outcome_wf|]. eapply direct_ok_step; [done..|by apply outcome_private|by apply outcome_sent].
Qed.
End senders.

(** ** Confidentiality *)

(** User [u], who is not a member, in channel [c]: every method that takes an actor is
    refused, with the state as it was. A repeated request is answered from its receipt,
    and the sender of a message may still edit and delete it. *)
Record no_access `{Unicode, UuidLib, CryptoLib} (st : RepositoryState) (u : UserId) (c : ChannelId) : Prop := {
  no_page limit after before :
    load_recent_messages (mk_LoadRecentMessages u c limit after before) st
    = (Err PermissionDenied, st);
  no_send id now parent text :
    append_message id now (mk_SendMessage u c parent text) st = (Err PermissionDenied, st);
  no_request id now parent text rid :
    let '(r, st') := append_message_idempotent id now (mk_SendMessage u c parent text) rid st in
    st' = st ∧ r ≠ Panic ∧ (command_receipts st !! (u, rid) = None → r = Err PermissionDenied)
    ∧ ∀ m, r = Ok m → ChatMessage_sender_id m = u ∧ ∃ i, logged (messages st) c i m;
  no_summaries : list_thread_summaries u c st = (Err PermissionDenied, st);
  no_previews roots : ∃ e, thread_root_previews u c roots st = (Err e, st);
  no_reactions : list_channel_reactions u c st = (Err PermissionDenied, st);
  no_profiles now : list_channel_user_profiles now u c st = (Err PermissionDenied, st);
  no_references slugs : resolve_channel_references u c slugs st = (Err PermissionDenied, st);
  no_read_marker seq : ∃ e, mark_read (mk_MarkRead u c seq) st = (Err e, st);
  no_description text :
    ∃ e, update_channel_description (mk_UpdateChannelDescription u c text) st = (Err e, st);
  no_adding v : ∃ e, add_channel_member (mk_AddChannelMember u c v) st = (Err e, st);
  no_expansion fresh slug v : ∃ e, expand_direct_channel fresh slug u c v st = (Err e, st);
  no_upload fresh now name ty content dims preview sha :
    store_media fresh now (mk_MediaUpload u c name ty content dims preview) sha st
    = (Err PermissionDenied, st);
  no_media id object bytes :
    media st !! id = Some (object, bytes) → MediaObject_channel_id object = c →
    media_metadata u id st = (Err NotFound, st)
    ∧ (∀ offset length, ∃ e, read_media_slice u id offset length st = (Err e, st))
    ∧ load_media_preview u id st = (Err PermissionDenied, st);
  no_thread i root :
    logged (messages st) c i root → ChatMessage_parent_message_id root = None →
    load_thread u (ChatMessage_id root) st = (Err PermissionDenied, st);
  no_thread_marker i root seq :
    logged (messages st) c i root → ChatMessage_parent_message_id root = None →
    mark_thread_read u (ChatMessage_id root) seq st = (Err PermissionDenied, st);
  no_reaction i m emoji :
    logged (messages st) c i m → ∃ e, toggle_message_reaction u (ChatMessage_id m) emoji st = (Err e, st);
  no_link i m fresh_channel fresh now :
    logged (messages st) c i m →
    save_personal_link fresh_channel fresh now u (ChatMessage_id m) st = (Err NotFound, st);
  no_edit i m now text :
    logged (messages st) c i m → ChatMessage_sender_id m ≠ u →
    edit_message now (mk_EditMessage u (ChatMessage_id m) text) st = (Err PermissionDenied, st);
  no_delete i m now :
    logged (messages st) c i m → ChatMessage_sender_id m ≠ u →
    delete_message now (mk_DeleteMessage u (ChatMessage_id m)) st = (Err PermissionDenied, st) }.

Section stranger.
Context `{Unicode, UuidLib, CryptoLib} (st : RepositoryState) (u : UserId) (c : ChannelId).
Context (Hwf : wf st) (Hm : memberships st !! (c, u) = None).
Lemma stranger_key : contains_key (c, u) (memberships st) = false.
Proof. by apply contains_key_false. Qed.
Lemma stranger_role : role_in st c u = None.
Proof. unfold role_in. by rewrite Hm. Qed.
Lemma stranger_channel i m : logged (messages st) c i m → ChatMessage_channel_id m = c.
Proof. apply (log_channel _ _ _ (wf_log _ Hwf)). Qed.

Lemma stranger_request id now parent text rid :
  let '(r, st') := append_message_idempotent id now (mk_SendMessage u c parent text) rid st in
  st' = st ∧ r ≠ Panic ∧ (command_receipts st !! (u, rid) = None → r = Err PermissionDenied)
  ∧ ∀ m, r = Ok m → ChatMessage_sender_id m = u ∧ ∃ i, logged (messages st) c i m.
Proof.
  unfold append_message_idempotent. st_compute. simpl.
  destruct (command_receipts st !! (u, rid)) as [mid|] eqn:Er; [|by rewrite stranger_role].
  destruct (wf_receipts _ Hwf _ _ _ Er) as (d&i&m&Hl&Hid&Hs). subst mid. unfold find_message.
  rewrite (find_message_id _ _ _ _ Hwf Hl). simpl. destruct (negb _) eqn:E; [|done].
  split_and!; [done..|]. intros m' [= <-]. split; [done|]. exists i.
  apply negb_true_iff, orb_false_iff in E as [[E _]%orb_false_iff _]. apply bool_decide_eq_false, dec_stable in E.
  by rewrite <-E, (log_channel _ _ _ (wf_log _ Hwf) _ _ _ Hl).
Qed.
Lemma stranger_media id object bytes :
  media st !! id = Some (object, bytes) → MediaObject_channel_id object = c →
  media_metadata u id st = (Err NotFound, st)
  ∧ (∀ offset length, ∃ e, read_media_slice u id offset length st = (Err e, st))
  ∧ load_media_preview u id st = (Err PermissionDenied, st).
Proof.
  intros Ho Hc. unfold media_metadata, read_media_slice, load_media_preview. st_compute. rewrite Ho. simpl.
  rewrite Hc, stranger_key. split_and!; [done| |done]. intros. destruct (negb _); eauto.
Qed.
Lemma stranger_link i m fresh_channel fresh now :
  logged (messages st) c i m →
  save_personal_link fresh_channel fresh now u (ChatMessage_id m) st = (Err NotFound, st).
Proof.
  intros Hl. unfold save_personal_link. st_compute. destruct (find_message _ st) as [m'|] eqn:E; [|done].
  destruct (find_message_Some _ _ _ E) as (c'&i'&Hl'&Hp).
  apply andb_true_iff in Hp as [[Hp%has_id_true _]%andb_true_iff Hk]. destruct (log_same _ _ _ _ _ _ _ _ _ (wf_log _ Hwf) Hl' Hl Hp) as (_&_&->).
  by rewrite (stranger_channel _ _ Hl), stranger_key in Hk.
Qed.
Lemma stranger_no_access : no_access st u c.
Proof.
  assert (Hk := stranger_key). assert (Hrole := stranger_role).
  constructor.
  - intros. unfold load_recent_messages. st_compute. simpl. by rewrite Hrole.
  - intros. unfold append_message. st_compute. simpl. by rewrite Hrole.
  - apply stranger_request.
  - unfold list_thread_summaries. st_compute. by rewrite Hk.
  - intros. unfold thread_root_previews. st_compute. rewrite Hk. destruct (negb _); eauto.
  - unfold list_channel_reactions. st_compute. by rewrite Hk.
  - intros. unfold list_channel_user_profiles. st_compute. by rewrite Hk.
  - intros. unfold resolve_channel_references. st_compute. destruct (channels st !! c) as [ch|] eqn:Ech; [|done].
    simpl. by rewrite (indexed_id _ _ _ _ (wf_channels _ Hwf) _ _ Ech), Hk.
  - intros. unfold mark_read. st_compute. simpl. rewrite Hm. destruct (negb _); eauto.
  - intros. unfold update_channel_description. st_compute. simpl. rewrite Hrole. destruct (negb _); simpl; eauto.
  - intros. unfold add_channel_member. st_compute. simpl. rewrite Hrole. destruct (channels st !! c); simpl; eauto.
  - intros. unfold expand_direct_channel. st_compute. rewrite Hk. destruct (_ && _); eauto.
  - intros. unfold store_media. st_compute. simpl. by rewrite Hk.
  - apply stranger_media.
  - intros i root Hl Hp. unfold load_thread. st_compute. rewrite (find_root _ c i root) by done.
    by rewrite (stranger_channel _ _ Hl), Hk.
  - intros i root seq Hl Hp. unfold mark_thread_read. st_compute. rewrite (find_root _ c i root) by done. simpl.
    by rewrite (stranger_channel _ _ Hl), Hk.
  - intros i m emoji Hl. unfold toggle_message_reaction, find_message. st_compute.
    rewrite (find_message_id _ _ _ _ Hwf Hl). simpl.
    rewrite (stranger_channel _ _ Hl), Hk. destruct (negb _); eauto.
  - apply stranger_link.
  - intros i m now text Hl Hs. unfold edit_message. st_compute. simpl.
    rewrite (find_message_id _ _ _ _ Hwf Hl). simpl. by rewrite bool_decide_false.
  - intros i m now Hl Hs. unfold delete_message, may_delete. st_compute. simpl.
    rewrite (find_message_id _ _ _ _ Hwf Hl). simpl. rewrite (stranger_channel _ _ Hl), Hm.
    by rewrite bool_decide_false.
Qed.
End stranger.

(** Nobody enters a closed channel. *)
Lemma closed_no_entry `{Unicode, UuidLib} st c u :
  closed (channels st) c →
  join_channel (mk_JoinChannel u (ChannelRef_Id c)) st = (Err PermissionDenied, st)
  ∧ ∀ actor, add_channel_member (mk_AddChannelMember actor c u) st = (Err PermissionDenied, st).
Proof.
  intros (ch&Hch&Hkind&Hcircle&Hgen). unfold is_general_slug in Hgen. split.
  - unfold join_channel. st_compute. simpl.
    destruct (contains_key u (users st)); [|done].
    unfold resolve_channel_ref. rewrite (proj2 (contains_key_true _ _)) by (by rewrite Hch).
    rewrite Hch, Hcircle, Hgen. by rewrite bool_decide_true.
  - intros actor. unfold add_channel_member. st_compute. simpl. rewrite Hch, Hcircle, Hkind.
    by rewrite andb_false_r.
Qed.

(** C21: a direct conversation belongs to its two participants. In every reachable state every
    method of the repository that takes an actor is refused to anybody else, and changes
    nothing: reading messages, threads, summaries, previews, reactions and profiles, sending,
    with or without a request identifier, reacting, setting read positions of the channel and
    of a thread, uploading and reading media, saving a link to a message, editing and deleting
    messages, changing the description, adding a member, expanding and joining; and nobody,
    participants included, can add them to it. *)
Theorem direct_conversation_confidential `{Unicode, UuidLib, CryptoLib} (st : RepositoryState)
    (a b u : UserId) (c : ChannelId) :
  reachable st → direct_conversations st !! (a, b) = Some c → u ≠ a → u ≠ b →
  no_access st u c
  ∧ (∀ id now parent text rid,
       ∃ e, append_message_idempotent id now (mk_SendMessage u c parent text) rid st = (Err e, st))
  ∧ (∀ i m now text, logged (messages st) c i m →
       edit_message now (mk_EditMessage u (ChatMessage_id m) text) st = (Err PermissionDenied, st)
       ∧ delete_message now (mk_DeleteMessage u (ChatMessage_id m)) st = (Err PermissionDenied, st))
  ∧ join_channel (mk_JoinChannel u (ChannelRef_Id c)) st = (Err PermissionDenied, st)
  ∧ ∀ actor, add_channel_member (mk_AddChannelMember actor c u) st = (Err PermissionDenied, st).
Proof.
  intros Hr Hd Hua Hub. assert (Hwf := reachable_wf _ Hr).
  destruct (private_direct _ _ _ _ _ _ (wf_private _ Hwf) _ _ _ Hd) as [Hclosed _].
  assert (no_access st u c) as Hno.
  { apply stranger_no_access; [done|]. apply eq_None_not_Some. intros Hm.
    by destruct (private_direct_only _ _ _ _ _ _ (wf_private _ Hwf) _ _ _ _ Hd Hm). }
  assert (∀ i m, logged (messages st) c i m → ChatMessage_sender_id m ≠ u) as Hs.
  { intros i m Hl ?. subst u. by destruct (direct_senders _ (reachable_direct _ Hr) _ _ _ _ _ Hd Hl). }
  split; [done|]. split; [|split; [|by apply closed_no_entry]].
  - intros id now parent text rid. assert (Hq := no_request _ _ _ Hno id now parent text rid).
    destruct (append_message_idempotent _ _ _ _ st) as [[m|e|] st']; destruct Hq as (->&Hp&_&Hok); [|by eexists|done].
    destruct (Hok m eq_refl) as [Hu [i Hl]]. by destruct (Hs i m Hl Hu).
  - intros i m now text Hl. split; [apply (no_edit _ _ _ Hno i)|apply (no_delete _ _ _ Hno i)]; eauto.
Qed.
Lemma direct_conversation_confidential_witness :
  no_access demo_state carol direct
  ∧ join_channel (mk_JoinChannel carol (ChannelRef_Id direct)) demo_state
    = (Err PermissionDenied, demo_state)
  ∧ ∀ actor, add_channel_member (mk_AddChannelMember actor direct carol) demo_state
             = (Err PermissionDenied, demo_state).
Proof.
  destruct (direct_conversation_confidential demo_state alice bob carol direct) as (Hno&_&_&Hentry).
  - exact demo_reachable.
  - vm_compute. reflexivity.
  - discriminate.
  - discriminate.
  - exact (conj Hno Hentry).
Defined.

(** A personal space belongs to its owner: in every reachable state nobody
    else can read it, write to it, react in it or join it, and nobody can be
    added to it. *)
Theorem personal_space_confidential `{Unicode, UuidLib, CryptoLib} (st : RepositoryState)
    (owner u : UserId) (c : ChannelId) (note : PersonalNote) :
  reachable st → personal_spaces st !! owner = Some (c, note) → u ≠ owner →
  no_access st u c
  ∧ join_channel (mk_JoinChannel u (ChannelRef_Id c)) st = (Err PermissionDenied, st)
  ∧ ∀ actor, add_channel_member (mk_AddChannelMember actor c u) st = (Err PermissionDenied, st).
Proof.
  intros Hr Hp Hu. assert (Hwf := reachable_wf _ Hr). split.
  - apply stranger_no_access; [done|]. apply eq_None_not_Some. intros Hm.
    by apply Hu, (private_personal_only _ _ _ _ _ _ (wf_private _ Hwf) _ _ _ _ Hp).
  - apply closed_no_entry. by eapply (private_personal _ _ _ _ _ _ (wf_private _ Hwf)).
Qed.
Lemma personal_space_confidential_witness :
  no_access demo_state bob personal
  ∧ join_channel (mk_JoinChannel bob (ChannelRef_Id personal)) demo_state
    = (Err PermissionDenied, demo_state)
  ∧ ∀ actor, add_channel_member (mk_AddChannelMember actor personal bob) demo_state
             = (Err PermissionDenied, demo_state).
Proof.
  apply (personal_space_confidential demo_state alice bob personal (mk_PersonalNote [] 0)).
  - exact demo_reachable.
  - vm_compute. reflexivity.
  - discriminate.
Defined.

(** C22: the channels of a circle are for its members. In every reachable state, to who is not
    a member of the circle every method that takes an actor is refused in its channels, the one
    with the slug "general" excepted, and changes nothing; and so right after leaving the circle
    in all of its channels: reading messages, threads, summaries, previews, reactions, profiles
    and media, sending, reacting, setting read positions, uploading, saving a link, changing
    the description, adding a member, and editing and deleting the messages of others. What a
    former member keeps is what they wrote: repeating a request answers with the stored message,
    and the sender of a message may still edit and delete it. *)
Theorem circle_channels_confidential `{Unicode, UuidLib, CryptoLib} (st st1 : RepositoryState)
    (u : UserId) (k : CircleId) (c : ChannelId) (ch : Channel) :
  reachable st → channels st !! c = Some ch → Channel_circle_id ch = Some k →
  (is_general_slug (Channel_slug ch) = false → circle_memberships st !! (k, u) = None →
     no_access st u c)
  ∧ (leave_circle (mk_LeaveCircle u k) st = (Ok tt, st1) → no_access st1 u c).
Proof.
  intros Hr Hch Hk. assert (Hwf := reachable_wf _ Hr). split.
  - intros Hg Hn. apply stranger_no_access; [done|]. apply eq_None_not_Some. intros Hm.
    destruct (wf_circle_channels _ Hwf _ _ _ _ Hch Hk Hg Hm). congruence.
  - intros Hrun. apply stranger_no_access; [by eapply leave_circle_wf|].
    apply leave_circle_cases in Hrun as [[? _]|(_&_&->)]; [done|]. simpl.
    apply map_lookup_filter_None. right. intros m Hm [Hne|Hne]; [done|]. apply Hne. simpl.
    apply elem_of_list_to_set, elem_of_circle_channels; eauto.
Qed.
Lemma circle_channels_confidential_witness : no_access demo_state bob prat.
Proof.
  destruct (channels demo_state !! prat) as [ch|] eqn:E.
  - refine (proj1 (circle_channels_confidential demo_state demo_state bob circle prat ch
                     demo_reachable E _) _ _);
      vm_compute in E; injection E as <-; vm_compute; reflexivity.
  - exfalso. vm_compute in E. discriminate E.
Defined.
