(* ===== verification/RoleProps.v ===== *)
(** * RoleProps: how roles are gained

    The effect of every operation on the roles of circles and channels. *)

From Stdlib Require Import ZifyBool.
From stdpp Require Import base tactics numbers strings countable sorting gmap list.
From S2P Require Import Prelude RustStr Text Ids Models Policy RepoState RepoMessages RepoChannels RepoCircles RepoUsers RepoWf WfMessages WfChannels WfCircles WfUsers RepoReach RepoDemo.

#[local] Existing Instances demo_unicode demo_uuid demo_crypto.

Section roles.
Context `{Unicode, UuidLib, CryptoLib}.

(** ** Circles *)

(** What an operation may grant beyond plain membership. *)
Definition grants_circle_role (st : RepositoryState) (op : Op) (k : CircleId) (u : UserId)
    (role : CircleRole) : Prop :=
  match op with
  | CreateCircleOp fresh _ cmd => fresh = k ∧ CreateCircle_actor cmd = u ∧ role = CircleRole_Owner
  | SetCircleMemberRoleOp cmd =>
      SetCircleMemberRole_circle_id cmd = k ∧ SetCircleMemberRole_user_id cmd = u
      ∧ SetCircleMemberRole_role cmd = role ∧ role ≠ CircleRole_Owner
      ∧ circle_role_in st k (SetCircleMemberRole_actor cmd) = Some CircleRole_Owner
      ∧ circle_role_in st k u ≠ Some CircleRole_Owner
  | _ => False
  end.
Definition circle_roles_ok (st st' : RepositoryState) (op : Op) : Prop :=
  ∀ k u role, circle_role_in st' k u = Some role →
    circle_role_in st k u = Some role ∨ role = CircleRole_Member ∨ grants_circle_role st op k u role.
Lemma circle_roles_same st st' op :
  circle_memberships st' = circle_memberships st → circle_roles_ok st st' op.
Proof. intros Heq k u role. unfold circle_role_in. rewrite Heq. auto. Qed.

Lemma circle_roles_sub st st' op :
  circle_memberships st' ⊆ circle_memberships st → circle_roles_ok st st' op.
Proof.
  intros Hsub k u role (m&Hm&Hrole)%fmap_Some. left. unfold circle_role_in.
  by rewrite (lookup_weaken _ _ _ _ Hm Hsub), Hrole.
Qed.
Lemma circle_roles_insert st st' op k u m :
  circle_memberships st' = <[(k, u) := m]> (circle_memberships st) →
  CircleMembership_role m = CircleRole_Member ∨ grants_circle_role st op k u (CircleMembership_role m) →
  circle_roles_ok st st' op.
Proof.
  intros Heq Hm k' u' role. unfold circle_role_in. rewrite Heq.
  destruct (decide ((k', u') = (k, u))) as [?|Hne]; simplify_eq.
  - rewrite lookup_insert_eq. simpl. intros ?; simplify_eq. tauto.
  - rewrite lookup_insert_ne by done. auto.
Qed.

(** The tables of the circles and the channels under the two calls that other
    operations make. *)
Lemma save_personal_link_circles fresh_c fresh now owner source st r st' :
  wf st → fresh_channel st fresh_c (personal_slug fresh_c) →
  save_personal_link fresh_c fresh now owner source st = (r, st') →
  circle_memberships st' = circle_memberships st
  ∧ (st' = st ∨ ∃ st1, wf st1 ∧ (open_personal_space fresh_c owner st).2 = st1
       ∧ memberships st' = memberships st1).
Proof.
  intros Hwf Hf E. apply save_personal_link_cases in E; [|done..].
  assert (∀ ch st1, open_personal_space fresh_c owner st = (Ok ch, st1) →
            circle_memberships st1 = circle_memberships st) as Ho.
  { intros ch st1 Eo. apply open_personal_space_cases in Eo; [|done]. split_cases Eo; by subst. }
  split_cases E; subst; [by auto|..];
    match goal with Eo : open_personal_space _ _ _ = (_, ?st1) |- _ =>
      split; [by apply Ho in Eo|right; exists st1; by rewrite Eo] end.
Qed.
Lemma upsert_user_circles user st r st' :
  upsert_user user st = (r, st') → circle_memberships st' = circle_memberships st.
Proof.
  intros E. apply upsert_user_cases in E. split_cases E; subst; [done|].
  unfold stored_user. destruct (general_channel _); by case_match.
Qed.
Lemma remove_channels_circles ids st :
  circle_memberships (remove_channels ids st) = circle_memberships st.
Proof.
  unfold remove_channels. revert st. induction ids as [|c ids IH]; intros st; simpl; [done|].
  rewrite IH. unfold remove_channel. by destruct (channels st !! c).
Qed.

Lemma outcome_circle_roles op st :
  wf st → fresh_op st op = true → circle_roles_ok st (outcome op st).2 op.
Proof.
  intros Hwf Hf.
  destruct op; unfold outcome; rewrite ?void_run;
    match goal with |- circle_roles_ok _ ?p.2 _ => destruct p as [r st'] eqn:E; simpl end.
  all: try (op_paths E; by apply circle_roles_same).
  all: try (by apply circle_roles_same, (upsert_user_circles _ _ _ _ E)).
  all: try (simpl in Hf; bool_facts;
    by apply circle_roles_same, (save_personal_link_circles _ _ _ _ _ _ _ _ Hwf
         (unused_channel_fresh _ _ _ ltac:(eassumption)) E)).
  all: op_cases E; try (unfold create_circle in E; run_st E).
  all: try (split_cases E; subst); try by apply circle_roles_same.
  - eapply circle_roles_insert; [done|]. right. by simpl.
  - eapply circle_roles_insert; [done|]. right. simpl. split_and!; try done.
    unfold circle_role_in. match goal with Hm : circle_memberships _ !! _ = Some _ |- _ => rewrite Hm end.
    simpl. congruence.
  - apply circle_roles_sub. simpl. rewrite remove_channels_circles. apply map_filter_subseteq.
  - apply circle_roles_sub. simpl. apply delete_subseteq.
  - eapply circle_roles_insert; [done|]. by left.
  - destruct (EnrollmentInvitation_circle_id _) as [k|]; destruct E as [_ ->];
      [|by apply circle_roles_same].
    unfold or_insert. destruct (circle_memberships st !! _) eqn:Em; [by apply circle_roles_same|].
    eapply circle_roles_insert; [done|]. by left.
Qed.

(** ** Channels *)

Definition grants_channel_owner (op : Op) (c : ChannelId) (u : UserId) : Prop :=
  match op with
  | CreateChannelOp fresh cmd => fresh = c ∧ CreateChannel_actor cmd = u
  | OpenDirectChannel fresh _ actor _ => fresh = c ∧ actor = u
  | _ => False
  end.
Definition channel_roles_ok (st st' : RepositoryState) (op : Op) : Prop :=
  ∀ c u role, role_in st' c u = Some role →
    role_in st c u = Some role ∨ role = MembershipRole_Member
    ∨ (role = MembershipRole_Owner ∧ grants_channel_owner op c u).
(** Every membership is an old one or has a role the operation may give. *)
Lemma channel_roles_intro st st' op :
  (∀ c u m, memberships st' !! (c, u) = Some m →
     role_in st c u = Some (Membership_role m) ∨ Membership_role m = MembershipRole_Member
     ∨ (Membership_role m = MembershipRole_Owner ∧ grants_channel_owner op c u)) →
  channel_roles_ok st st' op.
Proof. intros Hm c u role (m&Hl&<-)%role_in_Some. by apply Hm. Qed.
Lemma channel_roles_sub st st' op :
  memberships st' ⊆ memberships st → channel_roles_ok st st' op.
Proof.
  intros Hsub. apply channel_roles_intro. intros c u m Hm. left. unfold role_in.
  by rewrite (lookup_weaken _ _ _ _ Hm Hsub).
Qed.
Lemma channel_roles_same st st' op : memberships st' = memberships st → channel_roles_ok st st' op.
Proof. intros Heq. apply channel_roles_sub. by rewrite Heq. Qed.
Lemma channel_roles_insert st st' op c u m :
  memberships st' = <[(c, u) := m]> (memberships st) →
  role_in st c u = Some (Membership_role m) ∨ Membership_role m = MembershipRole_Member →
  channel_roles_ok st st' op.
Proof.
  intros Heq Hm. apply channel_roles_intro. intros c' u' m'. rewrite Heq, lookup_insert_Some.
  intros [[? <-]|[_ Hl]]; simplify_eq; [tauto|]. left. unfold role_in. by rewrite Hl.
Qed.
Lemma channel_roles_members st st' op c (members : list (UserId * MembershipRole)) ms' :
  memberships st' = ms' →
  (∀ c' u, c' ≠ c → ms' !! (c', u) = memberships st !! (c', u)) →
  (∀ u m, ms' !! (c, u) = Some m →
     memberships st !! (c, u) = Some m ∨ ∃ role, (u, role) ∈ members ∧ m = new_member c role u) →
  (∀ u role, (u, role) ∈ members →
     role = MembershipRole_Member ∨ (role = MembershipRole_Owner ∧ grants_channel_owner op c u)) →
  channel_roles_ok st st' op.
Proof.
  intros <- Hother Hnew Hroles. apply channel_roles_intro. intros c' u m Hm.
  assert (memberships st !! (c', u) = Some m → role_in st c' u = Some (Membership_role m)) as Hold
    by (unfold role_in; by intros ->).
  destruct (decide (c' = c)) as [->|Hc]; [|left; apply Hold; by rewrite <-Hother].
  destruct (Hnew u m Hm) as [?|(role&Hin&->)]; [auto|]. simpl. right. by apply Hroles.
Qed.

Lemma open_personal_space_roles fresh owner st r st' op :
  wf st → open_personal_space fresh owner st = (r, st') → channel_roles_ok st st' op.
Proof.
  intros Hwf E. apply open_personal_space_cases in E; [|done].
  split_cases E; subst; try by apply channel_roles_same.
  eapply (channel_roles_members _ _ _ fresh); [done|..].
  - intros. by apply insert_members_other.
  - intros u m. apply insert_members_new.
  - intros u role Hin%list_elem_of_singleton. simplify_eq. by left.
Qed.
Lemma remove_channels_members ids st : memberships (remove_channels ids st) ⊆ memberships st.
Proof.
  unfold remove_channels. revert st. induction ids as [|c ids IH]; intros st; simpl; [done|].
  etrans; [apply IH|]. unfold remove_channel. destruct (channels st !! c); apply map_filter_subseteq.
Qed.
Lemma upsert_user_roles user st r st' op :
  upsert_user user st = (r, st') → channel_roles_ok st st' op.
Proof.
  intros E. apply upsert_user_cases in E. split_cases E; subst; [by apply channel_roles_same|].
  set (st1 := stored_user _ _). assert (memberships st1 = memberships st) as Hms
    by (unfold st1, stored_user; by case_match).
  destruct (general_channel st1) as [c|]; [|by apply channel_roles_same].
  rewrite Hms. unfold or_insert. destruct (memberships st !! _) eqn:Em; [by apply channel_roles_same|].
  eapply channel_roles_insert; [done|]. by right.
Qed.

Lemma outcome_channel_roles op st :
  wf st → fresh_op st op = true → channel_roles_ok st (outcome op st).2 op.
Proof.
  intros Hwf Hf.
  destruct op; unfold outcome; rewrite ?void_run;
    match goal with |- channel_roles_ok _ ?p.2 _ => destruct p as [r st'] eqn:E; simpl end.
  all: try (op_paths E; by apply channel_roles_same).
  all: try (by eapply upsert_user_roles).
  all: try (by eapply open_personal_space_roles).
  all: try (op_paths E; apply channel_roles_sub; first [done|apply delete_subseteq]).
  all: op_cases E.
  all: try (split_cases E; subst); try by apply channel_roles_same.
  - eapply channel_roles_insert; [done|]. left. unfold role_in.
    match goal with Hm : memberships _ !! _ = Some _ |- _ => rewrite Hm end. by case_match.
  - simpl in Hf. bool_facts.
    destruct (save_personal_link_circles _ _ _ _ _ _ _ _ Hwf (unused_channel_fresh _ _ _ ltac:(eassumption)) E)
      as [_ [->|(st1&_&Ho&Hms)]]; [by apply channel_roles_same|].
    destruct (open_personal_space fresh_channel owner st) as [r1 st2] eqn:Eo. simpl in Ho. subst st2.
    intros c u role. unfold role_in at 1. rewrite Hms. by apply (open_personal_space_roles _ _ _ _ _ _ Hwf Eo).
  - eapply (channel_roles_members _ _ _ fresh); [done|..].
    + intros. by apply insert_members_other.
    + intros u m. apply insert_members_new.
    + intros u role. rewrite !elem_of_cons. intros [?|[?|?%elem_of_nil]]; simplify_eq; [right|left]; done.
  - eapply (channel_roles_members _ _ _ fresh); [done|..].
    + intros. by apply insert_members_other.
    + intros u m. apply insert_members_new.
    + intros u role (v&?&_)%list_elem_of_fmap. simplify_eq. by left.
  - eapply (channel_roles_members _ _ _ fresh); [done|..].
    + intros. by apply add_created_members_other.
    + intros u m. apply add_created_members_new.
    + intros u role [(v&?&_)%list_elem_of_fmap|?%list_elem_of_singleton]%elem_of_app;
        simplify_eq; [by left|by right].
  - eapply channel_roles_insert; [done|]. by right.
  - eapply channel_roles_insert; [done|]. by right.
  - unfold add_channel_member in E. st_simpl E. destruct (channels st !! _); simplify_eq;
      [|by apply channel_roles_same]. st_guard E Ea; [|by apply channel_roles_same].
    unfold or_insert. destruct (memberships st !! _); [by apply channel_roles_same|].
    eapply channel_roles_insert; [done|]. by right.
  - apply channel_roles_sub. simpl. etrans; [apply remove_channels_members|done].
  - apply channel_roles_sub. simpl. apply map_filter_subseteq.
  - destruct (EnrollmentInvitation_circle_id _) as [k|]; destruct E as [_ ->]; by apply channel_roles_same.
Qed.
End roles.

(** C23: no privilege escalation: whatever operation runs in a reachable state, a
    user who afterwards has a circle role has had it before, or has become a plain
    member, or owns the circle they just created, or was made moderator or member
    by an owner of that circle; and a user who afterwards has a channel role has
    had it before, is a plain member, or owns the channel they just opened. *)
Theorem no_privilege_escalation `{Unicode, UuidLib, CryptoLib} (st : RepositoryState) (op : Op) :
  reachable st → fresh_op st op = true →
  let st' := (outcome op st).2 in
  (∀ k u role, circle_role_in st' k u = Some role →
     circle_role_in st k u = Some role ∨ role = CircleRole_Member ∨ grants_circle_role st op k u role)
  ∧ (∀ c u role, role_in st' c u = Some role →
     role_in st c u = Some role ∨ role = MembershipRole_Member
     ∨ (role = MembershipRole_Owner ∧ grants_channel_owner op c u)).
Proof.
  intros Hr Hf. assert (Hwf := reachable_wf _ Hr).
  split; [by apply outcome_circle_roles|by apply outcome_channel_roles].
Qed.
Definition promote_bob : Op :=
  SetCircleMemberRoleOp (mk_SetCircleMemberRole bob circle bob CircleRole_Moderator).
Lemma no_privilege_escalation_witness :
  circle_role_in (outcome promote_bob demo_state).2 circle alice = Some CircleRole_Owner
  ∧ (circle_role_in demo_state circle alice = Some CircleRole_Owner
     ∨ CircleRole_Owner = CircleRole_Member
     ∨ grants_circle_role demo_state promote_bob circle alice CircleRole_Owner).
Proof.
  split; [vm_compute; reflexivity|].
  apply (proj1 (no_privilege_escalation demo_state promote_bob demo_reachable eq_refl) circle alice).
  vm_compute. reflexivity.
Defined.

(** ** Failures *)

Section faults.
Context `{Unicode, UuidLib, CryptoLib}.

(** The calls that may leave a trace when they fail: an expired invitation is
    dropped, an emoji list may be created empty, and the personal space may have
    been opened. *)
Definition atomic (op : Op) : bool :=
  match op with
  | AcceptCircleInvitationOp _ _ _ | SaveEmoji _ _ _ | SavePersonalLink _ _ _ _ _ => false
  | _ => true
  end.
(** The two counters whose overflow check can fire. *)
Definition exhausted (st : RepositoryState) (op : Op) : Prop :=
  match op with
  | UpsertUser _ => (u64_max ≤ next_signup_ordinal st)%N
  | SavePersonalNote _ note => (i64_max ≤ PersonalNote_revision note)%Z
  | _ => False
  end.
Definition fault_free {A} (st : RepositoryState) (op : Op) (p : Res RepositoryError A * RepositoryState) : Prop :=
  match p.1 with
  | Ok _ => True
  | Err _ => atomic op = true → p.2 = st
  | Panic => exhausted st op ∧ p.2 = st
  end.
Lemma fault_free_void {A} st op (m : Repo A) : fault_free st op (m st) → fault_free st op (void m st).
Proof. unfold fault_free, void. by destruct (m st) as [[] ?]. Qed.

Lemma outcome_fault_free op st :
  wf st → fresh_op st op = true → fault_free st op (outcome op st).
Proof.
  intros Hwf Hf.
  destruct op; unfold outcome; try apply fault_free_void;
    match goal with |- fault_free _ _ ?p => destruct p as [r st'] eqn:E end.
  all: try (op_paths E; done).
  all: op_cases E.
  all: try (split_cases E; subst; done).
  - simpl in Hf. bool_facts. apply save_personal_link_cases in E; [|done|by apply unused_channel_fresh].
    split_cases E; by subst.
  - unfold prepare_enrollment_invitation, generate_enrollment_token in E.
    destruct secret; [..|done]; by run_st E.
  - split_cases E; subst; [done|].
    by destruct (EnrollmentInvitation_circle_id _); destruct E as [-> _].
Qed.
End faults.

(** C38: calls are total and failures are clean: in a reachable state no method
    panics, save for the exhaustion of the signup counter or of a note's revision
    counter; and when a method reports an error, the state is exactly what it was
    before, for every method but the three that document a partial effect. *)
Theorem failures_leave_no_trace `{Unicode, UuidLib, CryptoLib} (st : RepositoryState) (op : Op) :
  reachable st → fresh_op st op = true →
  match outcome op st with
  | (Ok _, _) => True
  | (Err _, st') => atomic op = true → st' = st
  | (Panic, st') => exhausted st op ∧ st' = st
  end.
Proof.
  intros Hr Hf. assert (Ho := outcome_fault_free op st (reachable_wf _ Hr) Hf).
  unfold fault_free in Ho. by destruct (outcome op st) as [[] ?].
Qed.
Lemma failures_leave_no_trace_witness :
  let op := DeleteCircleOp (mk_DeleteCircle bob circle) in
  match outcome op demo_state with
  | (Ok _, _) => True
  | (Err _, st') => atomic op = true → st' = demo_state
  | (Panic, st') => exhausted demo_state op ∧ st' = demo_state
  end.
Proof.
  exact (failures_leave_no_trace demo_state (DeleteCircleOp (mk_DeleteCircle bob circle))
           demo_reachable eq_refl).
Defined.
