(* ===== verification/AccountProps.v ===== *)
(** * AccountProps: accounts, enrollment and media

    Theorems about signup ordinals, repeated sign-ins, single-use enrollment
    invitations and stored media. *)

From Stdlib Require Import ZifyBool.
From stdpp Require Import base tactics numbers strings countable sorting gmap list.
From S2P Require Import Prelude RustStr Text Ids Models Policy RepoState RepoMessages RepoChannels RepoCircles RepoUsers RepoWf WfMessages WfChannels WfCircles WfUsers RepoReach RepoDemo.

#[local] Existing Instances demo_unicode demo_uuid demo_crypto.

(** ** Accounts *)

(** The ordinals, listed, are a permutation of 1..n. *)
Lemma ordinals_permutation us ords next :
  accounts_ok us ords next →
  (map_to_list ords).*2 ≡ₚ (λ i, N.of_nat (S i)) <$> seq 0 (N.to_nat next).
Proof.
  intros Hok. apply submseteq_length_Permutation.
  - apply NoDup_submseteq.
    + apply NoDup_fmap_2_strong; [|apply NoDup_map_to_list].
      intros [u n] [v n'] Hu%elem_of_map_to_list Hv%elem_of_map_to_list Heq. simpl in *. subst.
      by rewrite (accounts_inj _ _ _ Hok _ _ _ Hu Hv).
    + intros n ([u n']&->&Hu%elem_of_map_to_list)%list_elem_of_fmap. simpl.
      apply (accounts_range _ _ _ Hok) in Hu. apply list_elem_of_fmap.
      exists (N.to_nat n' - 1). split; [lia|]. apply elem_of_seq. lia.
  - rewrite !length_fmap, length_seq, length_map_to_list.
    rewrite <-(accounts_size _ _ _ Hok), Nat2N.id. done.
Qed.

(** Signup ordinals number the humans without gaps or repetition: in every
    reachable state each number from 1 to the counter belongs to exactly one
    account, no other number is in use, and every human has one. *)
Theorem signup_ordinals_dense `{Unicode, UuidLib, CryptoLib} (st : RepositoryState) (n : N) :
  reachable st →
  ((1 ≤ n ≤ next_signup_ordinal st)%N ↔ ∃ u, signup_ordinals st !! u = Some n)
  ∧ (∀ u v, signup_ordinals st !! u = Some n → signup_ordinals st !! v = Some n → u = v)
  ∧ (∀ u, is_human st u = true → is_Some (signup_ordinals st !! u)).
Proof.
  intros Hr. assert (Hok := wf_accounts _ (reachable_wf _ Hr)). split_and!.
  - split; [|intros [u Hu]; by eapply accounts_range].
    intros Hn. assert (n ∈ (map_to_list (signup_ordinals st)).*2) as Hin.
    { rewrite (ordinals_permutation _ _ _ Hok). apply list_elem_of_fmap. exists (N.to_nat n - 1).
      split; [lia|]. apply elem_of_seq. lia. }
    apply list_elem_of_fmap in Hin as ([u n']&->&Hu%elem_of_map_to_list). eauto.
  - intros u v. apply (accounts_inj _ _ _ Hok).
  - intros u Hu. unfold is_human in Hu. destruct (users st !! u) as [x|] eqn:E; [|done].
    bool_facts. by eapply accounts_human.
Qed.
Lemma signup_ordinals_dense_witness :
  ∃ u, signup_ordinals demo_state !! u = Some 2%N.
Proof.
  apply (proj1 (signup_ordinals_dense demo_state 2 demo_reachable)). vm_compute.
  split; discriminate.
Defined.

(** Signing in again is harmless: [upsert_user] on a known account keeps its
    display name, its handle when it has one, its signup ordinal and its channel
    memberships, and refreshes the rest; a new human gets the next ordinal; and
    nobody else's account changes. *)
Theorem upsert_user_exact `{Unicode, UuidLib, CryptoLib} (st st' : RepositoryState) (user x : User) :
  reachable st → upsert_user user st = (Ok x, st') →
  users st' = <[User_id user := x]> (users st)
  ∧ User_id x = User_id user ∧ User_kind x = User_kind user
  ∧ match users st !! User_id user with
    | Some old => User_display_name x = User_display_name old
        ∧ (is_Some (User_handle old) → User_handle x = User_handle old)
        ∧ (User_handle old = None → User_handle x = User_handle user)
    | None => x = user
    end
  ∧ signup_ordinals st' =
      (if decide (User_kind user = Human ∧ signup_ordinals st !! User_id user = None)
       then <[User_id user := (next_signup_ordinal st + 1)%N]> (signup_ordinals st)
       else signup_ordinals st)
  ∧ memberships st ⊆ memberships st'.
Proof.
  intros Hr Hrun. apply upsert_user_cases in Hrun as [(?&_)|([= ->]&Hst)]; [done|].
  set (x := keep_local_identity (users st !! User_id user) user) in *.
  destruct (keep_local_identity_id (users st !! User_id user) user) as [Hid Hk]. fold x in Hid, Hk.
  set (st1 := stored_user st x) in *.
  assert (users st' = users st1 ∧ signup_ordinals st' = signup_ordinals st1
          ∧ memberships st1 ⊆ memberships st') as (->&->&Hms).
  { rewrite Hst. destruct (general_channel st1); [|done]. split_and!; [done..|]. simpl.
    apply map_subseteq_spec. intros k m. apply lookup_or_insert_keep. }
  assert (users st1 = <[User_id user := x]> (users st)) as ->
    by (unfold st1, stored_user; case_match; simpl; by rewrite Hid).
  assert (memberships st1 = memberships st) as Heq by (unfold st1, stored_user; by destruct (_ && _)).
  rewrite Heq in Hms. split_and!; [done..| | |done].
  - unfold x, keep_local_identity. destruct (users st !! User_id user) as [old|]; [|done].
    case_decide as Hh; split_and!; try done.
    intros Hn. rewrite Hn in Hh. by destruct Hh.
  - unfold st1, stored_user. rewrite Hid, Hk. case_decide as Hd.
    + destruct Hd as [Hd1 Hd2]. rewrite bool_decide_true by done.
      by rewrite (proj2 (contains_key_false _ _) Hd2).
    + destruct (_ && _) eqn:E; [|done]. bool_facts. tauto.
Qed.
Definition renamed_alice : User := demo_user alice "Somebody else".
Lemma upsert_user_exact_witness :
  match upsert_user renamed_alice demo_state, users demo_state !! User_id renamed_alice with
  | (Ok x, st'), Some old => User_display_name x = User_display_name old
  | _, _ => False
  end.
Proof.
  destruct (upsert_user renamed_alice demo_state) as [r st'] eqn:E. destruct r as [x|e|].
  - pose proof (upsert_user_exact demo_state st' renamed_alice x demo_reachable E) as (_&_&_&Hx&_).
    destruct (users demo_state !! User_id renamed_alice) as [old|] eqn:Eo.
    + exact (proj1 Hx).
    + vm_compute in Eo. discriminate Eo.
  - vm_compute in E. discriminate E.
  - vm_compute in E. discriminate E.
Defined.

(** ** Enrollment *)

Section enrollment.
Context `{Unicode, UuidLib, CryptoLib}.

(** The token hash under which an operation stores a new invitation. *)
Definition prepares (op : Op) : option (list N) :=
  match op with
  | PrepareEnrollment (Ok secret) _ _ => Some (enrollment_token_hash (url_safe_no_pad secret))
  | _ => None
  end.
(** A consumed invitation stays as it is. *)
Definition consumed_kept (st st' : RepositoryState) (op : Op) : Prop :=
  ∀ k s, enrollment_invitations st !! k = Some s →
    EnrollmentInvitation_state (stored_invitation s) = Consumed → prepares op ≠ Some k →
    enrollment_invitations st' !! k = Some s.
Lemma consumed_same st st' op :
  enrollment_invitations st' = enrollment_invitations st → consumed_kept st st' op.
Proof. intros Heq k s. by rewrite Heq. Qed.
Lemma consumed_insert st st' op k0 s0 s' :
  enrollment_invitations st' = <[k0 := s']> (enrollment_invitations st) →
  enrollment_invitations st !! k0 = Some s0 →
  EnrollmentInvitation_state (stored_invitation s0) ≠ Consumed → consumed_kept st st' op.
Proof.
  intros Heq Hk0 Hs0 k s Hk Hs _. rewrite Heq, lookup_insert_ne; [done|]. intros ->. congruence.
Qed.
Lemma remove_channels_enrollments ids st :
  enrollment_invitations (remove_channels ids st) = enrollment_invitations st.
Proof.
  unfold remove_channels. revert st. induction ids as [|c ids IH]; intros st; simpl; [done|].
  rewrite IH. unfold remove_channel. by destruct (channels st !! c).
Qed.

Lemma outcome_consumed op st : wf st → fresh_op st op = true → consumed_kept st (outcome op st).2 op.
Proof.
  intros Hwf Hf.
  destruct op; unfold outcome; rewrite ?void_run;
    match goal with |- consumed_kept _ ?p.2 _ => destruct p as [r st'] eqn:E; simpl end.
  all: try (op_paths E; by apply consumed_same).
  all: op_cases E.
  all: try (split_cases E; subst); try by apply consumed_same.
  - simpl in Hf. bool_facts. apply save_personal_link_cases in E; [|done|by apply unused_channel_fresh].
    assert (∀ ch st1, open_personal_space fresh_channel owner st = (Ok ch, st1) →
              enrollment_invitations st1 = enrollment_invitations st) as Ho.
    { intros ch st1 Eo. apply open_personal_space_cases in Eo; [|done]. split_cases Eo; by subst. }
    split_cases E; subst; [by apply consumed_same|..];
      match goal with Eo : open_personal_space _ _ _ = _ |- _ =>
        apply consumed_same; by apply Ho in Eo end.
  - apply consumed_same. simpl. by rewrite remove_channels_enrollments.
  - unfold prepare_enrollment_invitation, generate_enrollment_token in E.
    destruct secret as [secret|e|]; simpl in Hf; [| |done]; run_st E; (try by apply consumed_same);
      intros k s Hk _ Hne; simplify_eq/=; rewrite lookup_insert_ne; congruence.
  - unfold activate_enrollment_invitation in E. st_simpl E.
    destruct (enrollment_invitations st !! _) as [s|] eqn:Es; simplify_eq; [|by apply consumed_same].
    st_guard E Eg; [|by apply consumed_same]. bool_facts.
    eapply consumed_insert; [done|done|]. congruence.
  - match goal with Hs : EnrollmentInvitation_state _ = Active |- _ => rename Hs into Hactive end.
    destruct (EnrollmentInvitation_circle_id _) as [k|]; destruct E as [_ ->];
      (eapply consumed_insert; [done|done|congruence]).
  - apply consumed_same. unfold stored_user. destruct (general_channel _); by case_match.
Qed.

Lemma run_consumed ops st k s :
  wf st → fresh_ops ops st = true → Forall (λ op, prepares op ≠ Some k) ops →
  enrollment_invitations st !! k = Some s →
  EnrollmentInvitation_state (stored_invitation s) = Consumed →
  enrollment_invitations (run_ops ops st) !! k = Some s.
Proof.
  revert st. induction ops as [|op ops IH]; intros st Hwf Hf Hp Hk Hs; simpl in *; [done|].
  bool_facts. apply Forall_cons in Hp as [Hop Hp].
  apply IH; [by apply outcome_wf|done..| |done]. by eapply outcome_consumed.
Qed.
End enrollment.

(** An enrollment invitation admits one account, once: acceptance needs an
    active invitation, before its expiry, for the invited e-mail address (up to
    case and surrounding space); it consumes the invitation and gives the circle
    membership; and in every later state, until a new invitation is stored under
    the same token, nobody can use the token again. *)
Theorem enrollment_single_use `{Unicode, UuidLib, CryptoLib} (st st1 : RepositoryState)
    (now joined now' joined' : DateTime) (cmd cmd' : AcceptEnrollmentInvitation)
    (m : option CircleMembership) (ops : list Op) :
  let key := enrollment_token_hash (AcceptEnrollmentInvitation_token cmd) in
  reachable st → accept_enrollment_invitation now joined cmd st = (Ok m, st1) →
  fresh_ops ops st1 = true → Forall (λ op, prepares op ≠ Some key) ops →
  AcceptEnrollmentInvitation_token cmd' = AcceptEnrollmentInvitation_token cmd →
  (∃ s, enrollment_invitations st !! key = Some s
     ∧ EnrollmentInvitation_state (stored_invitation s) = Active
     ∧ (now < EnrollmentInvitation_expires_at (stored_invitation s))%Z
     ∧ expected_email_hash s = enrollment_email_hash (AcceptEnrollmentInvitation_email cmd)
     ∧ ∀ k, EnrollmentInvitation_circle_id (stored_invitation s) = Some k →
         is_Some (circle_memberships st1 !! (k, AcceptEnrollmentInvitation_actor cmd)))
  ∧ ∃ e, accept_enrollment_invitation now' joined' cmd' (run_ops ops st1) = (Err e, run_ops ops st1).
Proof.
  intros key Hr Hrun Hf Hp Htok.
  assert (wf st1) as Hwf1 by (eapply accept_enrollment_invitation_wf; [by apply reachable_wf|done]).
  apply accept_enrollment_cases in Hrun as [(e&?&_)|(s&Hs&Hu&Hact&Hexp&Hmail&Hres)]; [done|].
  set (s' := mk_StoredEnrollmentInvitation _ _ _) in Hres.
  assert (enrollment_invitations st1 !! key = Some s') as Hkey.
  { destruct (EnrollmentInvitation_circle_id _); destruct Hres as [_ ->]; simpl; apply lookup_insert_eq. }
  split.
  - exists s. split_and!; [done..|]. intros k Hk. rewrite Hk in Hres. destruct Hres as [_ ->]. simpl.
    unfold or_insert. destruct (circle_memberships st !! _) eqn:E; [by rewrite E|].
    by rewrite lookup_insert_eq.
  - set (st2 := run_ops ops st1).
    assert (enrollment_invitations st2 !! key = Some s') as Hkey2 by by apply run_consumed.
    destruct (accept_enrollment_invitation now' joined' cmd' st2) as [r st3] eqn:E.
    apply accept_enrollment_cases in E as [(e&->&->)|(s2&Hs2&_&Hact2&_)]; [eauto|].
    rewrite Htok in Hs2. fold key in Hs2. rewrite Hkey2 in Hs2. by simplify_eq.
Qed.
Definition demo_accept : AcceptEnrollmentInvitation :=
  mk_AcceptEnrollmentInvitation bob (lit " Bob@example.org") [1; 2; 3]%N.
Lemma enrollment_single_use_witness :
  match accept_enrollment_invitation 8000 8001 demo_accept demo_state with
  | (Ok _, st1) => ∃ e, accept_enrollment_invitation 8002 8003 demo_accept st1 = (Err e, st1)
  | _ => False
  end.
Proof.
  destruct (accept_enrollment_invitation 8000 8001 demo_accept demo_state) as [r st1] eqn:E.
  destruct r as [m|e|].
  - exact (proj2 (enrollment_single_use demo_state st1 8000 8001 8002 8003 demo_accept demo_accept m []
             demo_reachable E eq_refl (Forall_nil_2 _) eq_refl)).
  - vm_compute in E. discriminate E.
  - vm_compute in E. discriminate E.
Defined.

(** ** Media *)

(** A slice is a window of the content. *)
Lemma read_media_slice_window st reader id obj bytes off n :
  media st !! id = Some (obj, bytes) → is_Some (memberships st !! (MediaObject_channel_id obj, reader)) →
  (0 < n ≤ MEDIA_READ_BLOCK_BYTES)%N → (N.of_nat (length bytes) ≤ u64_max)%N →
  read_media_slice reader id off n st
  = (Ok (take (N.to_nat n) (drop (N.to_nat off) bytes)), st).
Proof.
  intros Hobj Hm Hn Hlen. unfold read_media_slice. st_compute.
  assert ((n =? 0)%N || (MEDIA_READ_BLOCK_BYTES <? n)%N = false) as -> by lia. simpl.
  rewrite Hobj, (proj2 (contains_key_true _ _) Hm). f_equal. f_equal.
  destruct (_ <=? _)%N eqn:E.
  - destruct (decide (off + n ≤ N.of_nat (length bytes))%N).
    + do 2 f_equal. lia.
    + rewrite !take_ge; [done|rewrite length_drop; lia..].
  - rewrite drop_ge by lia. by rewrite take_nil.
Qed.

(** A reader that fetches blocks from an offset until one is empty. *)
Fixpoint read_blocks (fuel : nat) (reader : UserId) (id : MediaId) (block off : N)
    (st : RepositoryState) : list N :=
  match fuel with
  | O => []
  | S fuel =>
      match read_media_slice reader id off block st with
      | (Ok (b :: bytes), st') => b :: bytes ++ read_blocks fuel reader id block (off + block) st'
      | _ => []
      end
  end.
Lemma read_blocks_rest fuel st reader id obj bytes off n :
  media st !! id = Some (obj, bytes) → is_Some (memberships st !! (MediaObject_channel_id obj, reader)) →
  (0 < n ≤ MEDIA_READ_BLOCK_BYTES)%N → (N.of_nat (length bytes) ≤ u64_max)%N →
  length bytes ≤ fuel + N.to_nat off →
  read_blocks fuel reader id n off st = drop (N.to_nat off) bytes.
Proof.
  intros Hobj Hm Hn Hlen. revert off. induction fuel as [|fuel IH]; intros off Hfuel; simpl.
  { symmetry. apply drop_ge. lia. }
  rewrite (read_media_slice_window _ _ _ _ _ _ _ Hobj Hm Hn Hlen).
  destruct (take (N.to_nat n) (drop (N.to_nat off) bytes)) as [|b l] eqn:E.
  - destruct (drop (N.to_nat off) bytes); [done|]. by destruct (N.to_nat n) eqn:En; [lia|].
  - rewrite IH by lia. rewrite app_comm_cons, <-E.
    assert (N.to_nat (off + n) = N.to_nat off + N.to_nat n) as -> by lia.
    rewrite <-drop_drop. apply take_drop.
Qed.

(** Media survive storage: after [store_media] succeeded, the object's size is
    that of the upload, every member of the channel reads back its metadata, any
    slice of it is that window of the uploaded bytes, and reading block after
    block until an empty one returns exactly the upload; as many rounds as there
    are bytes are enough, whatever the block size up to the limit. *)
Theorem media_roundtrip `{Unicode, UuidLib, CryptoLib} (st st1 : RepositoryState) (fresh : MediaId)
    (now : DateTime) (upload : MediaUpload) (sha : str) (obj : MediaObject) (reader : UserId)
    (off block : N) (fuel : nat) :
  reachable st → store_media fresh now upload sha st = (Ok obj, st1) →
  is_Some (memberships st !! (MediaUpload_channel_id upload, reader)) →
  (N.of_nat (length (MediaUpload_content upload)) ≤ u64_max)%N →
  (0 < block ≤ MEDIA_READ_BLOCK_BYTES)%N → length (MediaUpload_content upload) ≤ fuel →
  MediaObject_size_bytes obj = N.of_nat (length (MediaUpload_content upload))
  ∧ media_metadata reader fresh st1 = (Ok obj, st1)
  ∧ read_media_slice reader fresh off block st1
    = (Ok (take (N.to_nat block) (drop (N.to_nat off) (MediaUpload_content upload))), st1)
  ∧ read_blocks fuel reader fresh block 0 st1 = MediaUpload_content upload
  ∧ (∀ preview, MediaUpload_preview upload = Some preview →
       load_media_preview reader fresh st1 = (Ok (Some preview), st1)).
Proof.
  intros Hr Hrun Hm Hlen Hblock Hfuel. unfold store_media in Hrun. st_simpl Hrun.
  st_guard Hrun Ea. set (obj0 := {| MediaObject_id := fresh |}) in *.
  assert (obj = obj0 ∧ media st1 !! fresh = Some (obj0, MediaUpload_content upload)
          ∧ memberships st1 = memberships st
          ∧ ∀ preview, MediaUpload_preview upload = Some preview →
              media_previews st1 !! fresh = Some preview) as (->&Hobj&Hms&Hpre).
  { destruct (MediaUpload_preview upload) as [p|] eqn:Ep; simplify_eq; simpl;
      rewrite lookup_insert_eq; split_and!; try done.
    intros ? [= <-]. apply lookup_insert_eq. }
  rewrite <-Hms in Hm. split_and!; [done|..].
  - unfold media_metadata. st_compute. rewrite Hobj. by rewrite (proj2 (contains_key_true _ _)).
  - by eapply read_media_slice_window.
  - rewrite (read_blocks_rest _ _ _ _ _ _ _ _ Hobj Hm) by (done || lia). by rewrite drop_0.
  - intros preview Hp. unfold load_media_preview. st_compute. rewrite Hobj.
    rewrite (proj2 (contains_key_true _ _)) by done. by rewrite (Hpre _ Hp).
Qed.
Definition demo_upload : MediaUpload :=
  mk_MediaUpload alice general (lit "a.png") (lit "image/png") [1; 2; 3; 4; 5]%N None None.
Lemma media_roundtrip_witness :
  match store_media (mk_MediaId 7) 1 demo_upload (lit "00") demo_state with
  | (Ok _, st1) => read_blocks 5 bob (mk_MediaId 7) 2 0 st1 = [1; 2; 3; 4; 5]%N
  | _ => False
  end.
Proof.
  destruct (store_media (mk_MediaId 7) 1 demo_upload (lit "00") demo_state) as [r st1] eqn:E.
  destruct r as [obj|e|].
  - refine (proj1 (proj2 (proj2 (proj2 (media_roundtrip demo_state st1 (mk_MediaId 7) 1 demo_upload
      (lit "00") obj bob 0 2 5 demo_reachable E _ _ _ _))))).
    + vm_compute. eexists. reflexivity.
    + vm_compute. discriminate.
    + vm_compute. split; [reflexivity|discriminate].
    + vm_compute. repeat constructor.
  - vm_compute in E. discriminate E.
  - vm_compute in E. discriminate E.
Defined.
