(* ===== verification/Divergences.v ===== *)
(** * Divergences: behaviours the code does not intend

    Concrete runs of the model in which the in-memory repository departs from its
    SQL counterparts in [src/db], or in which an operation fails on ordinary
    input. *)

From stdpp Require Import base tactics numbers strings countable sorting gmap list.
From S2P Require Import Prelude RustStr Text Ids Models Policy RepoState RepoMessages RepoChannels RepoCircles RepoUsers RepoReach RepoDemo.

#[local] Existing Instances demo_unicode demo_uuid demo_crypto.

(** Alice's circle has a private channel with the slug "general"; Bob signs in. *)
Definition leak_ops : list Op := [
  UpsertUser (demo_user alice "Alice");
  CreateCircleOp circle 5 (mk_CreateCircle alice (slug "crew") (mk_DisplayName (lit "Crew")));
  CreateChannelOp prat
    (mk_CreateChannel alice (slug "general") (mk_DisplayName (lit "Board")) Private (Some circle));
  AppendMessage hello 1000 (mk_SendMessage alice prat None (body "for the circle"));
  UpsertUser (demo_user bob "Bob") ].

(** Signing in can open a circle's private channel: [upsert_user] adds every
    account to the channel with the slug "general" even when that channel belongs
    to a circle, so a user outside the circle reads it. The SQL repositories add
    only to a general channel without a circle. *)
Theorem general_channel_of_circle_leaks :
  let st := run_ops leak_ops RepositoryState_default in
  reachable st
  ∧ circle_memberships st !! (circle, bob) = None
  ∧ match load_recent_messages
            (mk_LoadRecentMessages bob prat MessageLimit_DEFAULT None None) st with
    | (Ok [m], _) => ChatMessage_body m = body "for the circle"
    | _ => False
    end.
Proof. split; [apply run_ops_reachable|split]; vm_compute; reflexivity. Qed.

(** Joining again is a demotion: [join_channel] overwrites the membership of
    the channel's owner with a plain one and resets the read marker; the SQL
    repositories leave an existing membership alone. *)
Theorem rejoining_demotes_owner :
  let st := run_ops [MarkReadOp (mk_MarkRead alice general (ChannelSequence_new 2))] demo_state in
  let st' := run_ops [JoinChannelOp (mk_JoinChannel alice (ChannelRef_Id general))] st in
  role_in st general alice = Some MembershipRole_Owner
  ∧ role_in st' general alice = Some MembershipRole_Member
  ∧ Membership_last_read_sequence <$> memberships st !! (general, alice) = Some (ChannelSequence_new 2)
  ∧ Membership_last_read_sequence <$> memberships st' !! (general, alice) = Some (ChannelSequence_new 0).
Proof. vm_compute. repeat split. Qed.

(** An owner who accepts an invitation to their own circle loses it: the
    membership is overwritten with a plain one and nobody can rename, delete or
    govern the circle any more. The SQL repositories keep the stored role. *)
Theorem invitation_demotes_circle_owner :
  let st := run_ops [CreateCircleInvitationOp (Ok [9]%N) (mk_InvitationId 1) 0
                       (mk_CreateCircleInvitation alice circle)] demo_state in
  let st' := run_ops [AcceptCircleInvitationOp 1 1 (mk_AcceptCircleInvitation alice [9]%N)] st in
  circle_role_in st circle alice = Some CircleRole_Owner
  ∧ circle_role_in st' circle alice = Some CircleRole_Member
  ∧ (delete_circle (mk_DeleteCircle alice circle) st').1 = Err PermissionDenied.
Proof. vm_compute. repeat split. Qed.

(** Users whose display names have the greatest length allowed for a name. *)
Definition long_name (c : char) : DisplayName := mk_DisplayName (repeat c 120).
Definition long_ops : list Op :=
  [ UpsertUser ((demo_user alice "Alice") <| User_display_name := long_name 65 |>);
    UpsertUser ((demo_user bob "Bob") <| User_display_name := long_name 66 |>);
    UpsertUser ((demo_user carol "Carol") <| User_display_name := long_name 67 |>);
    OpenDirectChannel direct 77 alice bob ].
(** A direct conversation between users with long names cannot be expanded:
    the name of the group joins up to three display names without shortening, so
    it exceeds the limit of a display name and the call ends in a storage error
    (as it does in the SQL repositories). *)
Theorem expanding_long_names_fails :
  let st := run_ops long_ops RepositoryState_default in
  Forall (λ c, valid_name (long_name c)) [65; 66; 67]%N
  ∧ match expand_direct_channel (mk_ChannelId 14) 78 alice direct carol st with
    | (Err (Storage _), _) => True
    | _ => False
    end.
Proof.
  split; [|vm_compute; exact I].
  repeat constructor; try (vm_compute; discriminate); by intros c [= <-].
Qed.
