(* ===== verification/ChatActor.v ===== *)
(** * ChatActor: the actor that orders and broadcasts chat events

    Models [ChatActor], [ChannelState], [Command] and [ChatError] of
    [src/chat.rs]. The actor owns the live state of the channels and calls the
    repository through the [ChatRepository] trait; here the trait is a class over
    the repository's state, so the actor is modelled, and verified, for any
    implementation. The broadcast sender of a channel is the list of the events
    sent through it, and a receiver is the position at which it subscribed.
    Generated identifiers and the clock are arguments of the commands. *)

From Stdlib Require Import ZifyBool.
From stdpp Require Import base tactics numbers strings countable sorting gmap list.
From S2P Require Import Prelude RustStr Text Ids Models RepoState RepoMessages.

(** ** Errors *)

Inductive ChatError : Type :=
  | EngineStopped
  | Repository (error : RepositoryError)
  | Validation (error : TextValidationError).

Definition ChatError_kind (e : ChatError) : string :=
  match e with
  | EngineStopped => "engine_stopped"
  | Repository error => RepositoryError_kind error
  | Validation _ => "validation"
  end.
Definition ChatError_public_message (e : ChatError) : str :=
  match e with
  | EngineStopped => lit "chat service unavailable"
  | Repository error => lit (RepositoryError_public_message error)
  | Validation error => TextValidationError_fmt error
  end.

(** ** The repository, as the actor sees it *)

Record ConnectionId : Type := mk_ConnectionId { ConnectionId_uuid : Uuid }.
#[export] Instance ConnectionId_eq_dec : EqDecision ConnectionId.
Proof. solve_decision. Defined.
#[export] Program Instance ConnectionId_countable : Countable ConnectionId :=
  inj_countable' ConnectionId_uuid mk_ConnectionId _.
Next Obligation. by intros []. Qed.

Record PresenceLease : Type := mk_PresenceLease {
  PresenceLease_channel_id : ChannelId;
  PresenceLease_participant_id : UserId;
  PresenceLease_connection_id : Uuid }.

(** The methods of the [ChatRepository] trait the actor calls. The identifier and
    the time of a new message are generated inside the method. *)
Class ChatRepository (S : Type) := {
  repo_load_recent_messages : LoadRecentMessages → ST S RepositoryError (list ChatMessage);
  repo_load_message : MessageId → ST S RepositoryError ChatMessage;
  repo_append_message : MessageId → DateTime → SendMessage → ST S RepositoryError ChatMessage;
  repo_append_message_idempotent :
    MessageId → DateTime → SendMessage → str → ST S RepositoryError ChatMessage;
  repo_toggle_message_reaction :
    UserId → MessageId → str → ST S RepositoryError MessageReactionChange;
  repo_edit_message : DateTime → EditMessage → ST S RepositoryError ChatMessage;
  repo_delete_message : DateTime → DeleteMessage → ST S RepositoryError ChatMessage;
  repo_register_presence : PresenceLease → ST S RepositoryError unit;
  repo_unregister_presence : PresenceLease → ST S RepositoryError unit;
  repo_expire_presence : ST S RepositoryError unit }.

(** ** State *)

Definition PUBLISHED_MESSAGE_CACHE : nat := 4096.

Record ChannelState : Type := mk_ChannelState {
  participants : gmap UserId (gset ConnectionId);
  events : list ChatEvent }.
#[export] Instance ChannelState_eta : Eta ChannelState := λ c,
  mk_ChannelState (participants c) (events c).
Definition ChannelState_new : ChannelState := mk_ChannelState ∅ [].
Definition ChannelState_publish (event : ChatEvent) (channel : ChannelState) : ChannelState :=
  channel <| events := events channel ++ [event] |>.

Record ChannelSubscription : Type := mk_ChannelSubscription {
  ChannelSubscription_connection_id : ConnectionId;
  ChannelSubscription_receiver : nat;
  ChannelSubscription_history : list ChatMessage }.

Record ChatActor (S : Type) : Type := mk_ChatActor {
  actor_channels : gmap ChannelId ChannelState;
  published_messages : gset MessageId;
  published_order : list MessageId;
  repository : S;
  distributed_presence : bool }.
Arguments mk_ChatActor {S}.
Arguments actor_channels {S}.
Arguments published_messages {S}.
Arguments published_order {S}.
Arguments repository {S}.
Arguments distributed_presence {S}.
#[export] Instance ChatActor_eta S : Eta (ChatActor S) := λ a,
  mk_ChatActor (actor_channels a) (published_messages a) (published_order a) (repository a)
    (distributed_presence a).
Definition ChatActor_new {S} (repository : S) (distributed_presence : bool) : ChatActor S :=
  mk_ChatActor ∅ ∅ [] repository distributed_presence.

(** ** Commands and their replies *)

Inductive Command : Type :=
  | CChannelCreated (source_channel_id channel_id : ChannelId) (created_by : UserId)
  | CSubscribe (connection_id : ConnectionId) (channel_id : ChannelId) (participant_id : UserId)
  | CLeave (channel_id : ChannelId) (participant_id : UserId) (connection_id : ConnectionId)
  | CSendMessage (id : MessageId) (now : DateTime) (channel_id : ChannelId) (sender_id : UserId)
      (parent_message_id : option MessageId) (body : MessageBody) (request_id : option str)
  | CToggleReaction (actor : UserId) (message_id : MessageId) (emoji : str)
  | CEditMessage (now : DateTime) (actor : UserId) (message_id : MessageId) (body : MessageBody)
  | CDeleteMessage (now : DateTime) (actor : UserId) (message_id : MessageId)
  | CExternalMessage (message_id : MessageId)
  | CExternalReaction (event : ChatEvent)
  | CExternalUpdate (event : ChatEvent)
  | CExternalChannel (event : ChatEvent)
  | CExternalPresence (event : ChatEvent)
  | CExpirePresence.

(** What comes of a command: nothing, what is sent on its reply channel, or the
    end of the actor's task when the handler panics. *)
Inductive Reply : Type :=
  | NoReply
  | ReplyUnit
  | Stopped
  | ReplySubscription (response : Res ChatError ChannelSubscription)
  | ReplyMessage (response : Res ChatError ChatMessage)
  | ReplyReaction (response : Res ChatError MessageReactionChange).

(** ** Handlers *)

Section actor.
Context {S : Type} `{!ChatRepository S}.

Abbreviation Actor A := (ST (ChatActor S) ChatError A) (only parsing).

(** [self.repository.method(..).await.map_err(ChatError::from)] *)
Definition call {A} (m : ST S RepositoryError A) : Actor A := λ a,
  let '(r, s') := m (repository a) in (map_err Repository r, a <| repository := s' |>).

(** [self.channel_mut(channel_id)] with the mutation made through it. *)
Definition channel_mut (channel_id : ChannelId) (f : ChannelState → ChannelState)
    (a : ChatActor S) : ChatActor S :=
  a <| actor_channels := <[channel_id :=
         f (default ChannelState_new (actor_channels a !! channel_id))]> (actor_channels a) |>.
Definition publish_to (channel_id : ChannelId) (event : ChatEvent) : Actor unit :=
  modify (channel_mut channel_id (ChannelState_publish event)).

Definition publish_message (message : ChatMessage) : Actor unit := λ a,
  if bool_decide (ChatMessage_id message ∈ published_messages a) then (Ok tt, a)
  else
    let a := a <| published_messages := {[ChatMessage_id message]} ∪ published_messages a |> in
    let a := match published_order a with
             | expired :: order =>
                 if length (published_order a) =? PUBLISHED_MESSAGE_CACHE
                 then a <| published_order := order |>
                        <| published_messages := published_messages a ∖ {[expired]} |>
                 else a
             | [] => a
             end in
    let a := a <| published_order := published_order a ++ [ChatMessage_id message] |> in
    publish_to (ChatMessage_channel_id message) (MessageAccepted message) a.

Definition publish_presence (event : ChatEvent) : Actor unit :=
  match event with
  | ParticipantJoined channel_id _ | ParticipantLeft channel_id _ => publish_to channel_id event
  | _ => st_ret tt
  end.

(** The connections of a participant, when the channel and the entry exist. *)
Definition drop_connection (channel_id : ChannelId) (participant_id : UserId)
    (connection_id : ConnectionId) (a : ChatActor S) : ChatActor S :=
  match actor_channels a !! channel_id with
  | Some channel =>
      match participants channel !! participant_id with
      | Some connections =>
          let connections := connections ∖ {[connection_id]} in
          let ps := <[participant_id := connections]> (participants channel) in
          let ps := if bool_decide (connections = ∅) then delete participant_id ps else ps in
          a <| actor_channels := <[channel_id := channel <| participants := ps |>]>
                                   (actor_channels a) |>
      | None => a
      end
  | None => a
  end.

Definition subscribe (connection_id : ConnectionId) (channel_id : ChannelId)
    (participant_id : UserId) : Actor ChannelSubscription :=
  let! history := call (repo_load_recent_messages {|
    LoadRecentMessages_actor := participant_id; LoadRecentMessages_channel_id := channel_id;
    LoadRecentMessages_limit := MessageLimit_new 50;
    LoadRecentMessages_after := None; LoadRecentMessages_before := None |}) in
  let! a := get in
  let channel := default ChannelState_new (actor_channels a !! channel_id) in
  let connections := default ∅ (participants channel !! participant_id) in
  let is_new_participant := bool_decide (connections = ∅) in
  let receiver := length (events channel) in
  put (channel_mut channel_id (λ channel, channel <| participants :=
    <[participant_id := {[connection_id]} ∪ connections]> (participants channel) |>) a) ;;;
  (if distributed_presence a then
     on_err (call (repo_register_presence {|
         PresenceLease_channel_id := channel_id; PresenceLease_participant_id := participant_id;
         PresenceLease_connection_id := ConnectionId_uuid connection_id |}))
       (λ error, modify (drop_connection channel_id participant_id connection_id) ;;; throw error)
   else if is_new_participant then
     publish_to channel_id (ParticipantJoined channel_id participant_id)
   else st_ret tt) ;;;
  st_ret (mk_ChannelSubscription connection_id receiver history).

Definition leave (channel_id : ChannelId) (participant_id : UserId)
    (connection_id : ConnectionId) : Actor unit :=
  let! a := get in
  match actor_channels a !! channel_id with
  | None => st_ret tt
  | Some channel =>
      let remaining := (λ connections, connections ∖ {[connection_id]}) <$>
                         participants channel !! participant_id in
      let should_publish_left := match remaining with
                                 | Some connections => bool_decide (connections = ∅)
                                 | None => false
                                 end in
      let channel := match remaining with
                     | Some connections => channel <| participants :=
                         <[participant_id := connections]> (participants channel) |>
                     | None => channel
                     end in
      put (a <| actor_channels := <[channel_id := channel]> (actor_channels a) |>) ;;;
      if distributed_presence a then
        ignore_err (call (repo_unregister_presence {|
          PresenceLease_channel_id := channel_id; PresenceLease_participant_id := participant_id;
          PresenceLease_connection_id := ConnectionId_uuid connection_id |}))
      else if should_publish_left then
        modify (channel_mut channel_id (λ channel, channel <| participants :=
          delete participant_id (participants channel) |>)) ;;;
        publish_to channel_id (ParticipantLeft channel_id participant_id)
      else st_ret tt
  end.

Definition send_message (id : MessageId) (now : DateTime) (channel_id : ChannelId)
    (sender_id : UserId) (parent_message_id : option MessageId) (body : MessageBody)
    (request_id : option str) : Actor ChatMessage :=
  let command := mk_SendMessage sender_id channel_id parent_message_id body in
  let! message := match request_id with
                  | Some request_id =>
                      call (repo_append_message_idempotent id now command request_id)
                  | None => call (repo_append_message id now command)
                  end in
  publish_message message ;;;
  st_ret message.

(** The arms of [ToggleReaction], [EditMessage] and [DeleteMessage]. *)
Definition toggle_reaction (actor : UserId) (message_id : MessageId) (emoji : str)
    : Actor MessageReactionChange :=
  let! change := call (repo_toggle_message_reaction actor message_id emoji) in
  publish_to (MessageReactionChange_channel_id change) (MessageReactionChanged change) ;;;
  st_ret change.
Definition edit (now : DateTime) (actor : UserId) (message_id : MessageId) (body : MessageBody)
    : Actor ChatMessage :=
  let! message := call (repo_edit_message now (mk_EditMessage actor message_id body)) in
  publish_to (ChatMessage_channel_id message) (MessageEdited message) ;;;
  st_ret message.
Definition delete_msg (now : DateTime) (actor : UserId) (message_id : MessageId)
    : Actor ChatMessage :=
  let! message := call (repo_delete_message now (mk_DeleteMessage actor message_id)) in
  publish_to (ChatMessage_channel_id message) (MessageDeleted message) ;;;
  st_ret message.

(** What comes of a handler whose result is not sent, and of one whose end is. *)
Definition silently {A} (r : Res ChatError A) : Reply :=
  match r with Panic => Stopped | _ => NoReply end.
Definition acknowledged {A} (r : Res ChatError A) : Reply :=
  match r with Panic => Stopped | _ => ReplyUnit end.
(** Run a handler and wrap its result as the reply. *)
Definition reply_with {A} (wrap : Res ChatError A → Reply) (m : Actor A) (a : ChatActor S)
    : Reply * ChatActor S :=
  let '(r, a') := m a in (wrap r, a').

(** One iteration of [run]. *)
Definition handle (command : Command) : ChatActor S → Reply * ChatActor S :=
  match command with
  | CChannelCreated source_channel_id channel_id created_by =>
      reply_with silently (publish_to source_channel_id
        (ChannelCreated channel_id created_by (Some source_channel_id)))
  | CSubscribe connection_id channel_id participant_id =>
      reply_with ReplySubscription (subscribe connection_id channel_id participant_id)
  | CLeave channel_id participant_id connection_id =>
      reply_with acknowledged (leave channel_id participant_id connection_id)
  | CSendMessage id now channel_id sender_id parent_message_id body request_id =>
      reply_with ReplyMessage
        (send_message id now channel_id sender_id parent_message_id body request_id)
  | CToggleReaction actor message_id emoji =>
      reply_with ReplyReaction (toggle_reaction actor message_id emoji)
  | CEditMessage now actor message_id body =>
      reply_with ReplyMessage (edit now actor message_id body)
  | CDeleteMessage now actor message_id =>
      reply_with ReplyMessage (delete_msg now actor message_id)
  | CExternalMessage message_id =>
      reply_with silently
        (let! message := call (repo_load_message message_id) in publish_message message)
  | CExternalReaction event =>
      reply_with silently
        match event with
        | MessageReactionChanged change =>
            publish_to (MessageReactionChange_channel_id change) event
        | _ => st_ret tt
        end
  | CExternalUpdate event =>
      reply_with silently
        match event with
        | MessageEdited message | MessageDeleted message =>
            publish_to (ChatMessage_channel_id message) event
        | _ => st_ret tt
        end
  | CExternalChannel event =>
      reply_with silently
        match event with
        | ChannelCreated _ _ (Some source) => publish_to source event
        | _ => st_ret tt
        end
  | CExternalPresence event => reply_with silently (publish_presence event)
  | CExpirePresence => reply_with silently (ignore_err (call repo_expire_presence))
  end.

(** Whether the handler panicked, which ends the task. *)
Definition panicked (r : Reply) : bool :=
  match r with
  | Stopped | ReplySubscription Panic | ReplyMessage Panic | ReplyReaction Panic => true
  | _ => false
  end.
(** [run] on a mailbox: the commands are handled in the order they were posted,
    up to the first that panics; and whether the task is still running. *)
Fixpoint handle_all (cmds : list Command) (a : ChatActor S) : bool * ChatActor S :=
  match cmds with
  | [] => (true, a)
  | cmd :: rest =>
      let '(r, a') := handle cmd a in
      if panicked r then (false, a') else handle_all rest a'
  end.
End actor.
