(* ===== verification/ActorLaws.v ===== *)
(** * ActorLaws: what the actor relies on, and its invariant

    [ChatRepositoryLaws] states what the actor needs from a repository: where a
    message is stored never changes, and what a method returns is stored. The
    in-memory repository meets it ([in_memory_laws]). The invariant of the actor
    is proved against the laws alone, over any interleaving of commands with
    other activity on the shared repository. *)

From Stdlib Require Import ZifyBool.
From stdpp Require Import base tactics numbers strings countable sorting gmap list.
From S2P Require Import Prelude RustStr Text Ids Models RepoState RepoMessages RepoWf WfMessages ChatActor.

(** ** The interface *)

(** [stored s id] is the channel of the message with identifier [id], if there is
    one. Repository states evolve by [moved]: nothing stored is lost. *)
Class ChatRepositoryLaws (S : Type) `{ChatRepository S} := {
  repo_inv : S → Prop;
  stored : S → MessageId → option ChannelId;
  append_law id now cmd s r s' :
    repo_inv s → stored s id = None → repo_append_message id now cmd s = (r, s') →
    repo_inv s' ∧ (∀ x c, stored s x = Some c → stored s' x = Some c)
    ∧ ∀ m, r = Ok m → ChatMessage_id m = id ∧ ChatMessage_channel_id m = SendMessage_channel_id cmd
                      ∧ stored s' id = Some (SendMessage_channel_id cmd);
  append_idempotent_law id now cmd rid s r s' :
    repo_inv s → stored s id = None → repo_append_message_idempotent id now cmd rid s = (r, s') →
    repo_inv s' ∧ (∀ x c, stored s x = Some c → stored s' x = Some c)
    ∧ ∀ m, r = Ok m → ChatMessage_channel_id m = SendMessage_channel_id cmd
        ∧ stored s' (ChatMessage_id m) = Some (SendMessage_channel_id cmd)
        ∧ (ChatMessage_id m = id ∨ (s' = s ∧ stored s (ChatMessage_id m) = Some (SendMessage_channel_id cmd)));
  edit_law now cmd s r s' :
    repo_inv s → repo_edit_message now cmd s = (r, s') →
    repo_inv s' ∧ (∀ x, stored s' x = stored s x)
    ∧ ∀ m, r = Ok m → stored s (ChatMessage_id m) = Some (ChatMessage_channel_id m);
  delete_law now cmd s r s' :
    repo_inv s → repo_delete_message now cmd s = (r, s') →
    repo_inv s' ∧ (∀ x, stored s' x = stored s x)
    ∧ ∀ m, r = Ok m → stored s (ChatMessage_id m) = Some (ChatMessage_channel_id m);
  toggle_law actor id emoji s r s' :
    repo_inv s → repo_toggle_message_reaction actor id emoji s = (r, s') →
    repo_inv s' ∧ (∀ x, stored s' x = stored s x)
    ∧ ∀ x, r = Ok x → stored s (MessageReactionChange_message_id x)
                      = Some (MessageReactionChange_channel_id x);
  load_message_law id s r s' :
    repo_inv s → repo_load_message id s = (r, s') →
    s' = s ∧ r ≠ Panic
    ∧ ∀ m, r = Ok m → ChatMessage_id m = id ∧ stored s id = Some (ChatMessage_channel_id m);
  load_recent_law q s r s' : repo_inv s → repo_load_recent_messages q s = (r, s') → s' = s;
  presence_law s r s' :
    repo_inv s →
    (∃ lease, repo_register_presence lease s = (r, s') ∨ repo_unregister_presence lease s = (r, s'))
      ∨ repo_expire_presence s = (r, s') →
    repo_inv s' ∧ (∀ x, stored s' x = stored s x) }.

(** ** The in-memory repository *)

#[export] Instance in_memory : ChatRepository RepositoryState := {|
  repo_load_recent_messages := load_recent_messages;
  repo_load_message := load_message;
  repo_append_message := append_message;
  repo_append_message_idempotent := append_message_idempotent;
  repo_toggle_message_reaction := toggle_message_reaction;
  repo_edit_message := edit_message;
  repo_delete_message := delete_message;
  repo_register_presence _ := st_ret tt;
  repo_unregister_presence _ := st_ret tt;
  repo_expire_presence := st_ret tt |}.

Definition stored_in (st : RepositoryState) (id : MessageId) : option ChannelId :=
  ChatMessage_channel_id <$> find_message (has_id id) st.
Lemma stored_in_Some st id c :
  wf st → stored_in st id = Some c ↔ ∃ i m, logged (messages st) c i m ∧ ChatMessage_id m = id.
Proof.
  intros Hwf. unfold stored_in. split.
  - intros (m&Hf&->)%fmap_Some. destruct (find_message_Some _ _ _ Hf) as (c&i&Hl&Hid).
    apply has_id_true in Hid. rewrite (log_channel _ _ _ (wf_log _ Hwf) _ _ _ Hl). eauto.
  - intros (i&m&Hl&<-). unfold find_message. rewrite (find_message_id _ _ _ _ Hwf Hl). simpl.
    by rewrite (log_channel _ _ _ (wf_log _ Hwf) _ _ _ Hl).
Qed.
Lemma stored_in_None st id : stored_in st id = None → fresh_message st id.
Proof.
  unfold stored_in. intros Hf%fmap_None c i m Hl Hid. apply (find_message_None _ _ Hf) in Hl.
  by rewrite <-Hid, (proj2 (has_id_true _ _)) in Hl.
Qed.
(** States with the same places store the same. *)
Lemma stored_in_ext st st' :
  wf st → wf st' →
  (∀ c id, (∃ i m, logged (messages st) c i m ∧ ChatMessage_id m = id)
           ↔ (∃ i m, logged (messages st') c i m ∧ ChatMessage_id m = id)) →
  ∀ id, stored_in st' id = stored_in st id.
Proof.
  intros Hwf Hwf' Hsame id. destruct (stored_in st id) as [c|] eqn:E.
  - apply stored_in_Some; [done|]. apply Hsame, stored_in_Some; done.
  - destruct (stored_in st' id) as [c|] eqn:E'; [|done].
    apply stored_in_Some, Hsame, stored_in_Some in E'; [|done..]. congruence.
Qed.
Lemma stored_in_updated st st' c i m m' :
  wf st → wf st' → messages st' = updated (messages st) c i m' → logged (messages st) c i m →
  ChatMessage_id m' = ChatMessage_id m → ∀ id, stored_in st' id = stored_in st id.
Proof.
  intros Hwf Hwf' Hms Hl Hid. apply stored_in_ext; [done..|]. intros c' id. rewrite Hms. split.
  - intros (j&x&Hx&<-). destruct (decide (c' = c ∧ j = i)) as [[-> ->]|Hne].
    + exists i, m'. rewrite logged_updated by done. rewrite (logged_fun _ _ _ _ _ Hx Hl). auto.
    + exists j, x. rewrite logged_updated by done. auto.
  - intros (j&x&Hx&<-). apply (logged_updated _ _ _ _ _ _ _ _ Hl) in Hx as [(->&->&->)|[_ Hx]]; eauto.
Qed.
Lemma stored_in_same st st' : messages st' = messages st → ∀ id, stored_in st' id = stored_in st id.
Proof. intros Heq id. unfold stored_in, find_message, find_message_entry. by rewrite Heq. Qed.

Lemma sent_stored st m rs :
  wf st → wf (sent_state st m rs) →
  (∀ x c, stored_in st x = Some c → stored_in (sent_state st m rs) x = Some c)
  ∧ stored_in (sent_state st m rs) (ChatMessage_id m) = Some (ChatMessage_channel_id m).
Proof.
  intros Hwf Hwf'. split.
  - intros x c (i&y&Hl&<-)%stored_in_Some; [|done]. apply stored_in_Some; [done|].
    exists i, y. simpl. rewrite logged_pushed. auto.
  - apply stored_in_Some; [done|]. eexists _, m. simpl. rewrite logged_pushed. split; [by right|done].
Qed.

#[export] Program Instance in_memory_laws : ChatRepositoryLaws RepositoryState := {|
  repo_inv := wf; stored := stored_in |}.
Next Obligation.
  intros id now cmd st r st' Hwf Hf%stored_in_None Hrun. simpl in Hrun.
  assert (wf st') as Hwf' by by eapply append_message_wf. split; [done|].
  apply append_message_cases in Hrun as [(e&->&->)|(name&_&_&->&->)]; [| |done].
  - split; [done|]. intros; simplify_eq.
  - destruct (sent_stored _ _ _ Hwf Hwf') as [Hold Hnew]. split; [done|]. intros ? [= <-]. by split_and!.
Qed.
Next Obligation.
  intros id now cmd rid st r st' Hwf Hf%stored_in_None Hrun. simpl in Hrun.
  assert (wf st') as Hwf' by by eapply append_message_idempotent_wf. split; [done|].
  apply append_message_idempotent_cases in Hrun
    as [(e&->&->)|[(m&_&Hfind&Hc&_&_&->&->)|(name&_&_&_&->&->)]]; [| | |done].
  - split; [done|]. intros; simplify_eq.
  - split; [done|]. intros ? [= <-]. assert (stored_in st (ChatMessage_id m) = Some (SendMessage_channel_id cmd))
      by (unfold stored_in; by rewrite Hfind, <-Hc). by split_and!; [..|right].
  - destruct (sent_stored _ _ _ Hwf Hwf') as [Hold Hnew]. split; [done|]. intros ? [= <-].
    by split_and!; [..|left].
Qed.
Next Obligation.
  intros now cmd st r st' Hwf Hrun. simpl in Hrun.
  assert (wf st') as Hwf' by by eapply edit_message_wf. split; [done|].
  apply edit_message_cases in Hrun as [(e&->&->)|(c&i&m&Hl&Hid&_&_&->&->)].
  - split; [done|]. intros; simplify_eq.
  - split; [by eapply stored_in_updated|]. intros ? [= <-]. simpl.
    apply stored_in_Some; [done|]. exists i, m. by rewrite (log_channel _ _ _ (wf_log _ Hwf) _ _ _ Hl).
Qed.
Next Obligation.
  intros now cmd st r st' Hwf Hrun. simpl in Hrun.
  assert (wf st') as Hwf' by by eapply delete_message_wf. split; [done|].
  apply delete_message_cases in Hrun
    as [(e&->&->)|[(c&i&m&Hl&_&_&_&->&->)|(c&i&m&Hl&_&_&_&->&->)]].
  - split; [done|]. intros; simplify_eq.
  - split; [done|]. intros ? [= <-].
    apply stored_in_Some; [done|]. exists i, m. by rewrite (log_channel _ _ _ (wf_log _ Hwf) _ _ _ Hl).
  - split; [by eapply stored_in_updated|]. intros ? [= <-]. simpl.
    apply stored_in_Some; [done|]. exists i, m. by rewrite (log_channel _ _ _ (wf_log _ Hwf) _ _ _ Hl).
Qed.
Next Obligation.
  intros actor id emoji st r st' Hwf Hrun. simpl in Hrun.
  assert (wf st') as Hwf' by by eapply toggle_message_reaction_wf. split; [done|].
  apply toggle_cases in Hrun
    as [(e&->&->)|(c&i&m&x&Hl&Hid&_&_&->&Hx&Hc&_&_&_&_&->)].
  - split; [done|]. intros; simplify_eq.
  - split; [by apply stored_in_same|]. intros ? [= <-]. rewrite Hx, Hc.
    apply stored_in_Some; [done|]. exists i, m. by rewrite (log_channel _ _ _ (wf_log _ Hwf) _ _ _ Hl).
Qed.
Next Obligation.
  intros id st r st' Hwf Hrun. simpl in Hrun. unfold load_message in Hrun.
  st_simpl Hrun. destruct (find_message _ _) as [m|] eqn:E; simplify_eq; (split; [done|]; split; [done|]); [|done].
  intros ? [= <-]. destruct (find_message_Some _ _ _ E) as (c&i&_&Hid%has_id_true).
  split; [done|]. unfold stored_in. by rewrite E.
Qed.
Next Obligation.
  intros q st r st' Hwf Hrun. simpl in Hrun. unfold load_recent_messages in Hrun. by run_st Hrun.
Qed.
Next Obligation.
  intros st r st' Hwf [(lease&[Hrun|Hrun])|Hrun]; simpl in Hrun; by st_simpl Hrun.
Qed.
