(* ===== verification/ActorInvariant.v ===== *)
(** * ActorInvariant: the invariant of the chat actor

    Proved against [ChatRepositoryLaws], for any interleaving of the actor's
    commands with other activity on the repository that loses no message. *)

From Stdlib Require Import ZifyBool.
From stdpp Require Import base tactics numbers strings countable sorting gmap list.
From S2P Require Import Prelude RustStr Text Ids Models RepoState ChatActor ActorLaws.

(** ** Observations *)

(** The message an event is about. *)
Definition event_message (e : ChatEvent) : option MessageId :=
  match e with
  | MessageAccepted m | MessageEdited m | MessageDeleted m => Some (ChatMessage_id m)
  | MessageReactionChanged x => Some (MessageReactionChange_message_id x)
  | _ => None
  end.
Definition accepted_id (e : ChatEvent) : option MessageId :=
  match e with MessageAccepted m => Some (ChatMessage_id m) | _ => None end.
(** The arrivals ([true]) and departures ([false]) of a user. *)
Definition presence_change (u : UserId) (e : ChatEvent) : option bool :=
  match e with
  | ParticipantJoined _ v => if decide (v = u) then Some true else None
  | ParticipantLeft _ v => if decide (v = u) then Some false else None
  | _ => None
  end.
Definition presence_of (u : UserId) (es : list ChatEvent) : list bool := omap (presence_change u) es.

(** Arrivals and departures alternate, starting with an arrival. *)
Definition alternates (l : list bool) : Prop := ∀ i x, l !! i = Some x → x = Nat.even i.
Lemma alternates_snoc l b : alternates l → b = Nat.even (length l) → alternates (l ++ [b]).
Proof.
  intros Hl -> i x [Hx|[Hi Hx]]%lookup_app_Some; [by apply Hl|].
  apply list_lookup_singleton_Some in Hx as [Heq <-]. by replace i with (length l) by lia.
Qed.

(** A channel lists a participant exactly when their last event was an arrival,
    and never without a connection. *)
Record presence_ok (cs : ChannelState) (u : UserId) : Prop := {
  presence_alternates : alternates (presence_of u (events cs));
  presence_listed : is_Some (participants cs !! u) ↔ Nat.odd (length (presence_of u (events cs))) = true;
  presence_connected : participants cs !! u ≠ Some ∅ }.
Lemma presence_ok_new u : presence_ok ChannelState_new u.
Proof. split; simpl; [done| |done]. rewrite lookup_empty. split; [by intros []|done]. Qed.
Lemma presence_of_snoc u es e :
  presence_of u (es ++ [e]) = presence_of u es ++ match presence_change u e with Some b => [b] | None => [] end.
Proof. unfold presence_of. rewrite omap_app. simpl. by destruct (presence_change u e). Qed.
(** A state that keeps a user's entry and adds no presence event of theirs. *)
Lemma presence_ok_frame cs cs' u :
  presence_ok cs u → participants cs' !! u = participants cs !! u →
  presence_of u (events cs') = presence_of u (events cs) → presence_ok cs' u.
Proof. intros [] Hp He. split; by rewrite ?Hp, ?He. Qed.

(** The identifiers of all accepted messages, channel by channel. *)
Definition accepted_ids (es : list ChatEvent) : list MessageId := omap accepted_id es.
Definition accepted_in (m : gmap ChannelId ChannelState) : list MessageId :=
  concat ((λ p, accepted_ids (events p.2)) <$> map_to_list m).
Lemma accepted_insert_new m c cs :
  m !! c = None → accepted_in (<[c := cs]> m) ≡ₚ accepted_ids (events cs) ++ accepted_in m.
Proof. intros Hc. unfold accepted_in. by rewrite map_to_list_insert. Qed.
Lemma accepted_insert m c cs' ids :
  accepted_ids (events cs') = accepted_ids (events (default ChannelState_new (m !! c))) ++ ids →
  accepted_in (<[c := cs']> m) ≡ₚ accepted_in m ++ ids.
Proof.
  intros Heq. destruct (m !! c) as [cs|] eqn:E; simpl in Heq.
  - assert (accepted_in m ≡ₚ accepted_ids (events cs) ++ accepted_in (delete c m)) as ->.
    { rewrite <-(insert_delete_id m c cs E) at 1. apply accepted_insert_new, lookup_delete_eq. }
    rewrite <-(insert_delete_eq m c cs'). rewrite accepted_insert_new, Heq by apply lookup_delete_eq.
    rewrite <-!app_assoc. apply Permutation_app_head, Permutation_app_comm.
  - rewrite accepted_insert_new, Heq by done. simpl. apply Permutation_app_comm.
Qed.

(** Channels that only gained events accepted at least as much. *)
Lemma accepted_in_prefix m m' :
  (∀ c, events (default ChannelState_new (m !! c)) `prefix_of`
        events (default ChannelState_new (m' !! c))) →
  accepted_in m ⊆+ accepted_in m'.
Proof.
  revert m'. induction m as [|c cs m Hc IH] using map_ind; intros m' Hpre.
  { unfold accepted_in at 1. rewrite map_to_list_empty. apply submseteq_nil_l. }
  rewrite accepted_insert_new by done.
  assert (accepted_in m ⊆+ accepted_in (delete c m')) as Hm.
  { apply IH. intros c'. destruct (decide (c' = c)) as [->|Hne].
    - rewrite Hc. apply prefix_nil.
    - specialize (Hpre c'). rewrite lookup_insert_ne in Hpre by done. by rewrite lookup_delete_ne. }
  specialize (Hpre c). rewrite lookup_insert_eq in Hpre. destruct (m' !! c) as [cs'|] eqn:E; simpl in Hpre.
  - rewrite <-(insert_delete_id m' c cs' E), accepted_insert_new by apply lookup_delete_eq.
    destruct Hpre as [es ->]. unfold accepted_ids. rewrite omap_app, <-app_assoc.
    apply submseteq_app; [done|]. by apply submseteq_inserts_l.
  - apply prefix_nil_inv in Hpre as ->. simpl. by rewrite delete_id in Hm.
Qed.
Lemma accepted_in_elem m c msg :
  MessageAccepted msg ∈ events (default ChannelState_new (m !! c)) → ChatMessage_id msg ∈ accepted_in m.
Proof.
  intros Hin. destruct (m !! c) as [cs|] eqn:E; simpl in Hin; [|by apply elem_of_nil in Hin].
  rewrite <-(insert_delete_id m c cs E), accepted_insert_new by apply lookup_delete_eq.
  apply elem_of_app. left. apply list_elem_of_omap. by eexists.
Qed.

(** ** The invariant *)

Section invariant.
Context {S : Type} `{!ChatRepository S, !ChatRepositoryLaws S}.
(** The channels that are deleted, with their circle, at some point of the run. *)
Context (deleted : ChannelId → Prop).

Definition chan_events (a : ChatActor S) (c : ChannelId) : list ChatEvent :=
  events (default ChannelState_new (actor_channels a !! c)).
Definition chan_participants (a : ChatActor S) (c : ChannelId) : gmap UserId (gset ConnectionId) :=
  participants (default ChannelState_new (actor_channels a !! c)).

(** The cache holds the identifiers published last, each once. *)
Record cache_ok (order : list MessageId) (pub : gset MessageId)
    (chs : gmap ChannelId ChannelState) : Prop := {
  cache_nodup : NoDup order;
  cache_same id : id ∈ pub ↔ id ∈ order;
  cache_bound : length order ≤ PUBLISHED_MESSAGE_CACHE;
  cache_window : length (accepted_in chs) ≤ PUBLISHED_MESSAGE_CACHE → order ≡ₚ accepted_in chs }.

(** The message is stored in the channel, or the channel is deleted at some point. *)
Definition stored_or_deleted (s : S) (id : MessageId) (c : ChannelId) : Prop :=
  stored s id = Some c ∨ deleted c.
(** Every event is about a message stored in the channel it is sent to. *)
Definition events_ok (s : S) (chs : gmap ChannelId ChannelState) : Prop :=
  ∀ c e id, e ∈ events (default ChannelState_new (chs !! c)) → event_message e = Some id →
            stored_or_deleted s id c.

Record actor_ok (a : ChatActor S) : Prop := {
  ok_repository : repo_inv (repository a);
  ok_cache : cache_ok (published_order a) (published_messages a) (actor_channels a);
  ok_events : events_ok (repository a) (actor_channels a);
  ok_presence : distributed_presence a = false →
    ∀ c u, presence_ok (default ChannelState_new (actor_channels a !! c)) u }.

(** A repository that moved on, having lost at most deleted channels. *)
Definition moved (s s' : S) : Prop :=
  repo_inv s' ∧ ∀ x c, stored s x = Some c → stored_or_deleted s' x c.
Lemma moved_more s s' :
  repo_inv s' → (∀ x c, stored s x = Some c → stored s' x = Some c) → moved s s'.
Proof. intros Hi Heq. split; [done|]. intros x c Hx. left. auto. Qed.
Lemma moved_same s s' : repo_inv s' → (∀ x, stored s' x = stored s x) → moved s s'.
Proof. intros Hi Heq. apply moved_more; [done|]. intros x c. by rewrite Heq. Qed.
Lemma moved_refl s : repo_inv s → moved s s.
Proof. intros Hi. by apply moved_more. Qed.

Lemma ok_moved a s' : actor_ok a → moved (repository a) s' → actor_ok (a <| repository := s' |>).
Proof.
  intros [Hi Hc He Hpr] [Hi' Hm]. split; simpl; try done.
  intros c e id Hin Hid. destruct (He c e id Hin Hid) as [Hs|Hd]; [by apply Hm|by right].
Qed.

(** A channel that gains events other than acceptances. *)
Lemma ok_channel a c cs es :
  actor_ok a → events cs = events (default ChannelState_new (actor_channels a !! c)) ++ es →
  Forall (λ e, accepted_id e = None
               ∧ ∀ id, event_message e = Some id → stored_or_deleted (repository a) id c) es →
  (distributed_presence a = false → ∀ u, presence_ok cs u) →
  actor_ok (a <| actor_channels := <[c := cs]> (actor_channels a) |>).
Proof.
  intros [Hi Hc He Hpr] Hes Hall Hcs. split; simpl; try done.
  - destruct Hc as [H1 H2 H3 H4]. split; simpl; try done.
    assert (accepted_in (<[c := cs]> (actor_channels a)) ≡ₚ accepted_in (actor_channels a)) as ->; [|done].
    rewrite (accepted_insert _ _ _ []); [by rewrite app_nil_r|].
    unfold accepted_ids. rewrite Hes, omap_app. f_equal.
    clear -Hall. induction Hall as [|e es' [Ha _] _ IH]; simpl; [done|]. by rewrite Ha.
  - intros c' e' id. destruct (decide (c' = c)) as [->|Hne].
    + rewrite lookup_insert_eq. simpl. rewrite Hes, elem_of_app.
      intros [Hin|Hin]; [by apply He|]. rewrite Forall_forall in Hall. by apply Hall.
    + rewrite lookup_insert_ne by done. by apply He.
  - intros Hd c' u. destruct (decide (c' = c)) as [->|Hne].
    + rewrite lookup_insert_eq. by apply Hcs.
    + rewrite lookup_insert_ne by done. by apply Hpr.
Qed.
(** An event that is neither an acceptance nor a presence event. *)
Lemma ok_publish a c e :
  actor_ok a → accepted_id e = None → (∀ u, presence_change u e = None) →
  (∀ id, event_message e = Some id → stored_or_deleted (repository a) id c) →
  actor_ok (channel_mut c (ChannelState_publish e) a).
Proof.
  intros Hok Ha Hu Hs. apply (ok_channel a c _ [e]); [done|done|by apply Forall_singleton|].
  intros Hd u. eapply presence_ok_frame; [by apply (ok_presence _ Hok Hd c)|done|].
  simpl. rewrite presence_of_snoc, Hu. apply app_nil_r.
Qed.
(** With distributed presence, presence events are someone else's business. *)
Lemma ok_publish_distributed a c e :
  actor_ok a → distributed_presence a = true → accepted_id e = None → event_message e = None →
  actor_ok (channel_mut c (ChannelState_publish e) a).
Proof.
  intros Hok Hd Ha Hm. apply (ok_channel a c _ [e]); [done|done| |congruence].
  apply Forall_singleton. by rewrite Hm.
Qed.

(** The cache [publish_message] leaves for a message that is not in it. *)
Definition cached_order (order : list MessageId) (id : MessageId) : list MessageId :=
  (if length order =? PUBLISHED_MESSAGE_CACHE then tail order else order) ++ [id].
Definition cached_set (order : list MessageId) (pub : gset MessageId) (id : MessageId) : gset MessageId :=
  match order with
  | expired :: _ => if length order =? PUBLISHED_MESSAGE_CACHE
                    then ({[id]} ∪ pub) ∖ {[expired]} else {[id]} ∪ pub
  | [] => {[id]} ∪ pub
  end.
Lemma cache_ok_add order pub chs chs' id :
  cache_ok order pub chs → id ∉ pub → accepted_in chs' ≡ₚ accepted_in chs ++ [id] →
  cache_ok (cached_order order id) (cached_set order pub id) chs'.
Proof.
  intros [Hnd Hsame Hbound Hwin] Hid Hacc. assert (id ∉ order) as Hnew by by rewrite <-Hsame.
  unfold cached_order, cached_set. destruct order as [|x l].
  - split; simpl.
    + apply NoDup_singleton.
    + set_solver.
    + unfold PUBLISHED_MESSAGE_CACHE. lia.
    + intros Hlen. rewrite Hacc in Hlen |- *. rewrite length_app in Hlen. rewrite <-Hwin by lia. done.
  - destruct (Nat.eqb_spec (length (x :: l)) PUBLISHED_MESSAGE_CACHE) as [Heq|Hne]; simpl tail.
    + apply NoDup_cons in Hnd as [Hx Hnd]. split.
      * apply NoDup_app. split_and!; [done| |apply NoDup_singleton]. set_solver.
      * intros id'. specialize (Hsame id'). set_solver.
      * rewrite length_app. simpl in *. lia.
      * intros Hlen. exfalso. rewrite Hacc, length_app in Hlen. simpl in Hlen.
        rewrite <-Hwin in Hlen by lia. lia.
    + split.
      * apply NoDup_app. split_and!; [done| |apply NoDup_singleton]. set_solver.
      * intros id'. specialize (Hsame id'). set_solver.
      * rewrite length_app. simpl in *. lia.
      * intros Hlen. rewrite Hacc in Hlen |- *. rewrite length_app in Hlen. by rewrite <-Hwin by lia.
Qed.
Lemma publish_message_run m (a : ChatActor S) :
  publish_message m a =
  (Ok tt, if decide (ChatMessage_id m ∈ published_messages a) then a
          else channel_mut (ChatMessage_channel_id m) (ChannelState_publish (MessageAccepted m))
                 (a <| published_order := cached_order (published_order a) (ChatMessage_id m) |>
                    <| published_messages :=
                         cached_set (published_order a) (published_messages a) (ChatMessage_id m) |>)).
Proof.
  unfold publish_message, cached_order, cached_set. case_decide as Hin.
  - by rewrite bool_decide_true.
  - rewrite bool_decide_false by done. unfold publish_to, modify. f_equal.
    simpl. destruct (published_order a) as [|x l] eqn:E; simpl; rewrite ?E; [done|].
    destruct (_ =? _) eqn:El; simpl; rewrite ?E; done.
Qed.
Lemma ok_publish_message a m :
  actor_ok a → stored_or_deleted (repository a) (ChatMessage_id m) (ChatMessage_channel_id m) →
  ∃ a', publish_message m a = (Ok tt, a') ∧ actor_ok a'.
Proof.
  intros Hok Hs. rewrite publish_message_run. case_decide as Hin; [by exists a|].
  eexists. split; [done|]. destruct Hok as [Hi Hc He Hpr].
  set (id := ChatMessage_id m) in *. set (c := ChatMessage_channel_id m) in *.
  split; simpl; try done.
  - apply (cache_ok_add _ _ _ _ _ Hc Hin), accepted_insert.
    unfold accepted_ids. simpl. by rewrite omap_app.
  - intros c' e' id'. destruct (decide (c' = c)) as [->|Hne].
    + rewrite lookup_insert_eq. simpl. rewrite elem_of_app, list_elem_of_singleton.
      intros [?| ->]; [by apply He|]. simpl. by intros [= <-].
    + rewrite lookup_insert_ne by done. by apply He.
  - intros Hd c' u. destruct (decide (c' = c)) as [->|Hne].
    + rewrite lookup_insert_eq. simpl. eapply presence_ok_frame; [by apply Hpr|done|].
      simpl. rewrite presence_of_snoc. apply app_nil_r.
    + rewrite lookup_insert_ne by done. by apply Hpr.
Qed.

(** ** The handlers *)

Lemma call_run {A} (m : ST S RepositoryError A) a r s' :
  m (repository a) = (r, s') → call m a = (map_err Repository r, a <| repository := s' |>).
Proof. unfold call. by intros ->. Qed.

(** What the environment guarantees of a command: a generated identifier was never
    used, a database notification describes a stored message, and presence
    notifications arrive only with distributed presence. *)
Definition unused_id (a : ChatActor S) (id : MessageId) : Prop :=
  stored (repository a) id = None ∧ id ∉ published_messages a.
Definition cmd_ok (a : ChatActor S) (cmd : Command) : Prop :=
  match cmd with
  | CSendMessage id _ _ _ _ _ _ => unused_id a id
  | CExternalReaction (MessageReactionChanged x) =>
      stored_or_deleted (repository a) (MessageReactionChange_message_id x)
        (MessageReactionChange_channel_id x)
  | CExternalUpdate (MessageEdited m | MessageDeleted m) =>
      stored_or_deleted (repository a) (ChatMessage_id m) (ChatMessage_channel_id m)
  | CExternalPresence _ => distributed_presence a = true
  | _ => True
  end.

Lemma send_message_ok a id now c u parent body rid r a' :
  actor_ok a → stored (repository a) id = None →
  send_message id now c u parent body rid a = (r, a') → actor_ok a'.
Proof.
  intros Hok Hid Hrun. unfold send_message, st_bind in Hrun.
  set (cmd := mk_SendMessage u c parent body) in *.
  set (m := match rid with Some rid => repo_append_message_idempotent id now cmd rid
                         | None => repo_append_message id now cmd end).
  assert (match rid with Some rid => call (repo_append_message_idempotent id now cmd rid)
                       | None => call (repo_append_message id now cmd) end a = call m a) as Hm
    by (unfold m; by destruct rid).
  rewrite Hm in Hrun. destruct (m (repository a)) as [r1 s1] eqn:E.
  assert (moved (repository a) s1 ∧ ∀ x, r1 = Ok x →
            stored s1 (ChatMessage_id x) = Some (ChatMessage_channel_id x)) as [Hmoved Hst].
  { unfold m in E. destruct rid.
    - destruct (append_idempotent_law _ _ _ _ _ _ _ (ok_repository _ Hok) Hid E) as (?&?&Hx).
      split; [by apply moved_more|]. intros x Hr. destruct (Hx x Hr) as (->&?&_). done.
    - destruct (append_law _ _ _ _ _ _ (ok_repository _ Hok) Hid E) as (?&?&Hx).
      split; [by apply moved_more|]. intros x Hr. by destruct (Hx x Hr) as (->&->&?). }
  rewrite (call_run _ _ _ _ E) in Hrun. assert (Hok1 := ok_moved _ _ Hok Hmoved).
  destruct r1 as [x|e|]; simpl in Hrun; [|by simplify_eq..].
  destruct (ok_publish_message _ x Hok1 (or_introl (Hst x eq_refl))) as (a2&Hp&Hok2).
  rewrite Hp in Hrun. unfold st_ret in Hrun. by simplify_eq.
Qed.

(** The three handlers that call the repository and announce what it returns. *)
Lemma announce_ok {A} (m : ST S RepositoryError A) (chan : A → ChannelId) (ev : A → ChatEvent) a r a' :
  actor_ok a → (∀ r s', m (repository a) = (r, s') → moved (repository a) s'
    ∧ ∀ x, r = Ok x → ∀ id, event_message (ev x) = Some id → stored_or_deleted s' id (chan x)) →
  (∀ x, accepted_id (ev x) = None ∧ ∀ u, presence_change u (ev x) = None) →
  (let! x := call m in publish_to (chan x) (ev x) ;;; st_ret x) a = (r, a') → actor_ok a'.
Proof.
  intros Hok Hm Hev Hrun. unfold st_bind in Hrun.
  destruct (m (repository a)) as [r1 s1] eqn:E. destruct (Hm _ _ eq_refl) as [Hmoved Hst].
  rewrite (call_run _ _ _ _ E) in Hrun. assert (Hok1 := ok_moved _ _ Hok Hmoved).
  destruct r1 as [x|e|]; simpl in Hrun; [|by simplify_eq..].
  unfold publish_to, modify, st_ret in Hrun. simplify_eq. destruct (Hev x) as [Ha Hu].
  apply ok_publish; [done..|]. intros id Hid. by apply (Hst x).
Qed.
Lemma toggle_reaction_ok a actor id emoji r a' :
  actor_ok a → toggle_reaction actor id emoji a = (r, a') → actor_ok a'.
Proof.
  intros Hok. apply announce_ok; [done| |done]. intros r1 s1 E.
  destruct (toggle_law _ _ _ _ _ _ (ok_repository _ Hok) E) as (Hi&Hsame&Hx).
  split; [by apply moved_same|]. intros x Hr id' [= <-]. left. rewrite Hsame. by apply Hx.
Qed.
Lemma edit_ok a now actor id body r a' :
  actor_ok a → edit now actor id body a = (r, a') → actor_ok a'.
Proof.
  intros Hok. apply announce_ok; [done| |done]. intros r1 s1 E.
  destruct (edit_law _ _ _ _ _ (ok_repository _ Hok) E) as (Hi&Hsame&Hx).
  split; [by apply moved_same|]. intros x Hr id' [= <-]. left. rewrite Hsame. by apply Hx.
Qed.
Lemma delete_msg_ok a now actor id r a' :
  actor_ok a → delete_msg now actor id a = (r, a') → actor_ok a'.
Proof.
  intros Hok. apply announce_ok; [done| |done]. intros r1 s1 E.
  destruct (delete_law _ _ _ _ _ (ok_repository _ Hok) E) as (Hi&Hsame&Hx).
  split; [by apply moved_same|]. intros x Hr id' [= <-]. left. rewrite Hsame. by apply Hx.
Qed.

(** An arrival of someone who was away, and a departure of someone present. *)
Lemma presence_ok_joined cs u conns :
  presence_ok cs u → participants cs !! u = None → conns ≠ ∅ → ∀ cs' c,
  participants cs' !! u = Some conns → events cs' = events cs ++ [ParticipantJoined c u] →
  presence_ok cs' u.
Proof.
  intros [Ha Hl _] Hu Hne cs' c Hu' He'.
  assert (Nat.odd (length (presence_of u (events cs))) = false) as Hodd.
  { apply not_true_is_false. rewrite <-Hl, Hu. by intros []. }
  split; [| |rewrite Hu'; congruence]; rewrite He', presence_of_snoc; simpl; rewrite decide_True by done.
  - apply alternates_snoc; [done|]. by rewrite <-Nat.negb_odd, Hodd.
  - rewrite Hu', length_app, Nat.add_1_r, Nat.odd_succ, <-Nat.negb_odd, Hodd. done.
Qed.
Lemma presence_ok_left cs u :
  presence_ok cs u → is_Some (participants cs !! u) → ∀ cs' c,
  participants cs' !! u = None → events cs' = events cs ++ [ParticipantLeft c u] →
  presence_ok cs' u.
Proof.
  intros [Ha Hl _] Hu%Hl cs' c Hu' He'.
  split; [| |by rewrite Hu']; rewrite He', presence_of_snoc; simpl; rewrite decide_True by done.
  - apply alternates_snoc; [done|]. by rewrite <-Nat.negb_odd, Hu.
  - rewrite Hu', length_app, Nat.add_1_r, Nat.odd_succ, <-Nat.negb_odd, Hu. simpl.
    split; [by intros []|done].
Qed.
(** The connections change, but not from or to none. *)
Lemma presence_ok_connections cs u conns :
  presence_ok cs u → is_Some (participants cs !! u) → conns ≠ ∅ → ∀ cs',
  participants cs' !! u = Some conns → events cs' = events cs → presence_ok cs' u.
Proof.
  intros [Ha Hl _] Hu Hne cs' Hu' He'. split; rewrite ?He', ?Hu'; [done| |congruence].
  rewrite <-Hl. by split.
Qed.

(** A channel whose event list stays. *)
Lemma ok_participants a c cs :
  actor_ok a → events cs = chan_events a c → (distributed_presence a = false → ∀ u, presence_ok cs u) →
  actor_ok (a <| actor_channels := <[c := cs]> (actor_channels a) |>).
Proof. intros Hok He. apply (ok_channel a c cs []); [done| |done]. by rewrite app_nil_r. Qed.
Lemma drop_connection_ok a c u conn :
  actor_ok a → distributed_presence a = true → actor_ok (drop_connection c u conn a).
Proof.
  intros Hok Hd. unfold drop_connection. destruct (actor_channels a !! c) as [ch|] eqn:E; [|done].
  destruct (participants ch !! u); [|done]. apply ok_participants; [done| |congruence].
  unfold chan_events. by rewrite E.
Qed.
Lemma presence_call_ok a m r a' :
  actor_ok a →
  (∀ s r s', m s = (r, s') →
     (∃ lease, repo_register_presence lease s = (r, s') ∨ repo_unregister_presence lease s = (r, s'))
       ∨ repo_expire_presence s = (r, s')) →
  call m a = (r, a') → actor_ok a' ∧ actor_channels a' = actor_channels a
                       ∧ distributed_presence a' = distributed_presence a.
Proof.
  intros Hok Hm Hrun. destruct (m (repository a)) as [r1 s1] eqn:E. rewrite (call_run _ _ _ _ E) in Hrun.
  simplify_eq. split; [|done]. apply ok_moved; [done|].
  destruct (presence_law _ _ _ (ok_repository _ Hok) (Hm _ _ _ E)). by apply moved_same.
Qed.

Lemma load_history_run a q r a' :
  repo_inv (repository a) → call (repo_load_recent_messages q) a = (r, a') → a' = a.
Proof.
  intros Hi. destruct (repo_load_recent_messages q (repository a)) as [r1 s1] eqn:E.
  rewrite (call_run _ _ _ _ E). apply load_recent_law in E as ->; [|done].
  intros [= _ <-]. by destruct a.
Qed.
Lemma subscribe_ok a conn c u r a' :
  actor_ok a → subscribe conn c u a = (r, a') → actor_ok a'.
Proof.
  intros Hok Hrun. unfold subscribe in Hrun. unfold st_bind in Hrun at 1.
  destruct (call _ a) as [r1 a1] eqn:E in Hrun.
  assert (a1 = a) as -> by by eapply load_history_run; [apply ok_repository|].
  destruct r1 as [history|e|]; [|by simplify_eq..].
  st_simpl Hrun. destruct (distributed_presence a) eqn:Hd.
  - unfold on_err in Hrun.
    destruct (call _ _) as [r2 a2] eqn:Ec in Hrun.
    apply presence_call_ok in Ec as (Hok2&_&Hd2); [|by apply ok_participants; [..|rewrite Hd]|eauto].
    destruct r2; simplify_eq; [done| |done]. apply drop_connection_ok; [done|by rewrite Hd2].
  - set (cs := default ChannelState_new (actor_channels a !! c)) in *.
    assert (∀ v, presence_ok cs v) as Hpr by by apply ok_presence.
    case_bool_decide as Hnew; unfold publish_to in Hrun; st_simpl Hrun; unfold channel_mut; simpl.
    + rewrite lookup_insert_eq, insert_insert_eq. simpl. fold cs.
      assert (participants cs !! u = None) as Hnone.
      { destruct (participants cs !! u) eqn:Eu; [|done]. simpl in Hnew. subst. by destruct (Hpr u). }
      apply (ok_channel a c _ [ParticipantJoined c u]); [done|done|by apply Forall_singleton|].
      intros _ v. destruct (decide (v = u)) as [->|Hne].
      * eapply (presence_ok_joined cs u _ (Hpr u) Hnone); [|simpl; apply lookup_insert_eq|done]. set_solver.
      * apply (presence_ok_frame cs); [done|by apply lookup_insert_ne|].
        simpl. rewrite presence_of_snoc. simpl. by rewrite decide_False, app_nil_r.
    + apply ok_participants; [done|done|]. intros _ v. destruct (decide (v = u)) as [->|Hne].
      * eapply (presence_ok_connections cs u _ (Hpr u)); [| |simpl; apply lookup_insert_eq|done].
        -- destruct (participants cs !! u); [done|by destruct Hnew].
        -- set_solver.
      * apply (presence_ok_frame cs); [done|by apply lookup_insert_ne|done].
Qed.

Lemma leave_ok a c u conn r a' :
  actor_ok a → leave c u conn a = (r, a') → actor_ok a'.
Proof.
  intros Hok Hrun. unfold leave in Hrun. st_simpl Hrun.
  destruct (actor_channels a !! c) as [cs|] eqn:Ecs; [|by simplify_eq].
  destruct (distributed_presence a) eqn:Hd.
  - unfold ignore_err in Hrun. destruct (call _ _) as [r2 a2] eqn:Ec in Hrun.
    assert (a' = a2) as -> by by destruct r2; simplify_eq.
    apply presence_call_ok in Ec as (Hok2&_); [done| |eauto].
    apply ok_participants; [done| |by rewrite Hd]. unfold chan_events. rewrite Ecs.
    by destruct (_ <$> _).
  - assert (∀ v, presence_ok cs v) as Hpr by (intros v; generalize (ok_presence _ Hok Hd c v); by rewrite Ecs).
    destruct (participants cs !! u) as [conns|] eqn:Eu; simpl in Hrun.
    + case_bool_decide as Hlast; unfold publish_to in Hrun; st_simpl Hrun; unfold channel_mut; simpl.
      * rewrite !lookup_insert_eq, !insert_insert_eq. simpl. rewrite delete_insert_eq.
        apply (ok_channel a c _ [ParticipantLeft c u]);
          [done|by rewrite Ecs|by apply Forall_singleton|]. intros _ v.
        destruct (decide (v = u)) as [->|Hne].
        -- eapply (presence_ok_left cs u (Hpr u)); [by rewrite Eu|simpl; apply lookup_delete_eq|done].
        -- apply (presence_ok_frame cs); [done|by apply lookup_delete_ne|].
           simpl. rewrite presence_of_snoc. simpl. by rewrite decide_False, app_nil_r.
      * apply ok_participants; [done|unfold chan_events; by rewrite Ecs|]. intros _ v.
        destruct (decide (v = u)) as [->|Hne].
        -- eapply (presence_ok_connections cs u _ (Hpr u)); [by rewrite Eu| |simpl; apply lookup_insert_eq|done]. done.
        -- apply (presence_ok_frame cs); [done|by apply lookup_insert_ne|done].
    + simplify_eq. apply ok_participants; [done|unfold chan_events; by rewrite Ecs|done].
Qed.

Lemma handle_ok a cmd reply a' :
  actor_ok a → cmd_ok a cmd → handle cmd a = (reply, a') → actor_ok a'.
Proof.
  intros Hok Hcmd Hrun. destruct cmd; simpl in Hcmd, Hrun; unfold reply_with in Hrun.
  - unfold publish_to, modify in Hrun. simplify_eq. by apply ok_publish.
  - destruct (subscribe _ _ _ a) eqn:E. simplify_eq. by eapply subscribe_ok.
  - destruct (leave _ _ _ a) eqn:E. simplify_eq. by eapply leave_ok.
  - destruct (send_message _ _ _ _ _ _ _ a) eqn:E. simplify_eq. destruct Hcmd. by eapply send_message_ok.
  - destruct (toggle_reaction _ _ _ a) eqn:E. simplify_eq. by eapply toggle_reaction_ok.
  - destruct (edit _ _ _ _ a) eqn:E. simplify_eq. by eapply edit_ok.
  - destruct (delete_msg _ _ _ a) eqn:E. simplify_eq. by eapply delete_msg_ok.
  - unfold st_bind in Hrun. destruct (repo_load_message message_id (repository a)) as [r1 s1] eqn:E.
    rewrite (call_run _ _ _ _ E) in Hrun.
    destruct (load_message_law _ _ _ _ (ok_repository _ Hok) E) as (->&_&Hm).
    assert (Hok1 := ok_moved _ _ Hok (moved_refl _ (ok_repository _ Hok))).
    destruct r1 as [m|e|]; simpl in Hrun; [|by simplify_eq..].
    destruct (Hm m eq_refl) as [Hid Hst].
    destruct (ok_publish_message _ m Hok1) as (a2&Hp&?); [left; by rewrite Hid|].
    rewrite Hp in Hrun. by simplify_eq.
  - unfold publish_to, modify, st_ret in Hrun. destruct event; simplify_eq; try done. apply ok_publish; [done..|]. by intros id [= <-].
  - unfold publish_to, modify, st_ret in Hrun. destruct event; simplify_eq; try done; (apply ok_publish; [done..|]; by intros id [= <-]).
  - unfold publish_to, modify, st_ret in Hrun. destruct event as [? ? [source|]| | | | | | |]; simplify_eq; try done; by apply ok_publish.
  - unfold publish_presence, publish_to, modify, st_ret in Hrun.
    destruct event; simplify_eq; try done; by apply ok_publish_distributed.
  - unfold ignore_err in Hrun. destruct (call _ a) as [r2 a2] eqn:Ec in Hrun.
    apply presence_call_ok in Ec as (Hok2&_); [|done|eauto]. by destruct r2; simplify_eq.
Qed.

(** ** The system: commands interleaved with other users of the repository *)

Inductive sys_step : ChatActor S → ChatActor S → Prop :=
  | step_command a cmd : cmd_ok a cmd → sys_step a (handle cmd a).2
  | step_repository a s' : moved (repository a) s' → sys_step a (a <| repository := s' |>).
Definition sys_reachable (distributed : bool) (a : ChatActor S) : Prop :=
  ∃ s, repo_inv s ∧ rtc sys_step (ChatActor_new s distributed) a.

Lemma init_ok s distributed : repo_inv s → actor_ok (ChatActor_new s distributed).
Proof.
  intros Hi. split; simpl; [done| | |].
  - split; simpl; [by apply NoDup_nil|set_solver| |].
    + unfold PUBLISHED_MESSAGE_CACHE. lia.
    + unfold accepted_in. by rewrite map_to_list_empty.
  - intros c e id. rewrite lookup_empty. by intros Hin%elem_of_nil.
  - intros _ c u. rewrite lookup_empty. apply presence_ok_new.
Qed.
Lemma sys_step_ok a a' : actor_ok a → sys_step a a' → actor_ok a'.
Proof.
  intros Hok Hstep. destruct Hstep as [a cmd Hcmd|a s' Hs]; [|by apply ok_moved].
  destruct (handle cmd a) eqn:E. by eapply handle_ok.
Qed.
Lemma sys_steps_ok a a' : actor_ok a → rtc sys_step a a' → actor_ok a'.
Proof. intros Hok Hsteps. induction Hsteps; eauto using sys_step_ok. Qed.
Lemma sys_reachable_ok distributed a : sys_reachable distributed a → actor_ok a.
Proof. intros (s&Hi&Hsteps). eapply sys_steps_ok; [|done]. by apply init_ok. Qed.

(** ** What a command adds to the channels *)

(** Channel [c] gains the events [es], no other channel gains anything. *)
Definition announced (a a' : ChatActor S) (c : ChannelId) (es : list ChatEvent) : Prop :=
  ∀ c', chan_events a' c' = chan_events a c' ++ if decide (c' = c) then es else [].
Definition silent (a a' : ChatActor S) : Prop := ∀ c, chan_events a' c = chan_events a c.
Lemma announced_channel a c cs es :
  events cs = chan_events a c ++ es →
  announced a (a <| actor_channels := <[c := cs]> (actor_channels a) |>) c es.
Proof.
  intros He c'. unfold chan_events in *. simpl. case_decide as Hc; subst.
  - by rewrite lookup_insert_eq.
  - by rewrite lookup_insert_ne, app_nil_r.
Qed.
Lemma announced_nil a a' c : announced a a' c [] ↔ silent a a'.
Proof.
  unfold announced, silent. split; intros H c'.
  - rewrite H. case_decide; apply app_nil_r.
  - rewrite H. case_decide; by rewrite app_nil_r.
Qed.
Lemma announced_same a1 a2 a' c es :
  actor_channels a1 = actor_channels a2 → announced a1 a' c es → announced a2 a' c es.
Proof. unfold announced, chan_events. by intros ->. Qed.
Lemma silent_channels a a' : actor_channels a' = actor_channels a → silent a a'.
Proof. unfold silent, chan_events. by intros ->. Qed.
Lemma call_channels {A} (m : ST S RepositoryError A) a r a' :
  call m a = (r, a') → actor_channels a' = actor_channels a
                       ∧ published_messages a' = published_messages a
                       ∧ distributed_presence a' = distributed_presence a.
Proof. unfold call. destruct (m _). by intros [= <- <-]. Qed.
Lemma publish_message_announced m a :
  announced a (publish_message m a).2 (ChatMessage_channel_id m)
    (if decide (ChatMessage_id m ∈ published_messages a) then [] else [MessageAccepted m]).
Proof.
  rewrite publish_message_run. simpl. case_decide; [by apply announced_nil|].
  unfold channel_mut. eapply announced_same; [|by apply announced_channel]. done.
Qed.
Lemma announce_announced {A} (m : ST S RepositoryError A) (chan : A → ChannelId) (ev : A → ChatEvent) a r a' :
  (let! x := call m in publish_to (chan x) (ev x) ;;; st_ret x) a = (r, a') →
  match r with Ok x => announced a a' (chan x) [ev x] | _ => silent a a' end.
Proof.
  intros Hrun. unfold st_bind in Hrun. destruct (call m a) as [r1 a1] eqn:E.
  apply call_channels in E as (Hc&_). destruct r1 as [y|e|]; simplify_eq; [|by apply silent_channels..].
  unfold publish_to, modify, st_ret in Hrun. simplify_eq. unfold channel_mut.
  eapply announced_same; [done|]. by apply announced_channel.
Qed.

Lemma drop_connection_silent c u conn a : silent a (drop_connection c u conn a).
Proof.
  unfold drop_connection. destruct (actor_channels a !! c) as [ch|] eqn:E; [|done].
  destruct (participants ch !! u); [|done].
  apply (announced_nil _ _ c), announced_channel. unfold chan_events. by rewrite E, app_nil_r.
Qed.
Lemma silent_trans a1 a2 a3 : silent a1 a2 → silent a2 a3 → silent a1 a3.
Proof. unfold silent. intros H1 H2 c. by rewrite H2. Qed.
(** A subscription announces an arrival, or nothing. *)
Lemma subscribe_announced conn c u a r a' :
  subscribe conn c u a = (r, a') →
  match r with
  | Ok sub => announced a a' c
      (if distributed_presence a then []
       else if decide (default ∅ (chan_participants a c !! u) = ∅) then [ParticipantJoined c u] else [])
  | _ => silent a a'
  end.
Proof.
  intros Hrun. unfold subscribe in Hrun. unfold st_bind in Hrun at 1.
  destruct (call _ a) as [r1 a1] eqn:E in Hrun. apply call_channels in E as (Hc&_&Hd).
  destruct r1 as [history|e|]; simplify_eq; [|by apply silent_channels..].
  st_simpl Hrun. rewrite Hc, Hd in Hrun. fold (chan_participants a c) in Hrun.
  set (a2 := channel_mut _ _ _) in Hrun.
  assert (announced a a2 c []) as Ha2.
  { eapply announced_same; [by apply Hc|]. apply announced_channel. by rewrite app_nil_r. }
  destruct (distributed_presence a); [|case_bool_decide as Hnew].
  - unfold on_err in Hrun. destruct (call _ a2) as [r2 a3] eqn:E2 in Hrun.
    apply call_channels in E2 as (Hc2&_).
    assert (silent a a3) by (eapply silent_trans; [by apply announced_nil in Ha2|by apply silent_channels]).
    destruct r2; simplify_eq; [by apply announced_nil| |done].
    eapply silent_trans; [done|apply drop_connection_silent].
  - unfold publish_to in Hrun. st_simpl Hrun. rewrite decide_True by done. intros c'.
    apply announced_nil in Ha2. rewrite <-Ha2. by apply announced_channel.
  - rewrite decide_False by done. by simplify_eq.
Qed.
Lemma subscribe_receiver conn c u a sub a' :
  subscribe conn c u a = (Ok sub, a') → ChannelSubscription_receiver sub = length (chan_events a c).
Proof.
  intros Hrun. unfold subscribe in Hrun. unfold st_bind in Hrun at 1.
  destruct (call _ a) as [r1 a1] eqn:E in Hrun. apply call_channels in E as (Hc&_).
  destruct r1 as [history|e|]; [|done..]. st_simpl Hrun.
  destruct (match distributed_presence a1 with _ => _ end _) as [r2 a2] in Hrun.
  destruct r2; simplify_eq. simpl. unfold chan_events. by rewrite Hc.
Qed.
(** Every command adds events to at most one channel, at its end. *)
Lemma leave_announced c u conn a r a' : leave c u conn a = (r, a') → ∃ es, announced a a' c es.
Proof.
  intros Hrun. unfold leave in Hrun. st_simpl Hrun.
  destruct (actor_channels a !! c) as [ch|] eqn:E; [|exists []; simplify_eq; by apply announced_nil].
  set (a2 := a <| actor_channels := _ |>) in Hrun.
  assert (announced a a2 c []) as Ha2.
  { apply announced_channel. unfold chan_events. rewrite E, app_nil_r. by destruct (_ <$> _). }
  apply announced_nil in Ha2. destruct (distributed_presence a).
  - unfold ignore_err in Hrun. destruct (call _ a2) as [r2 a3] eqn:E2 in Hrun.
    apply call_channels in E2 as (Hc2&_). exists []. apply announced_nil.
    assert (a' = a3) as -> by by destruct r2; simplify_eq.
    eapply silent_trans; [done|by apply silent_channels].
  - lazymatch type of Hrun with (if ?b then _ else _) _ = _ => destruct b end.
    + unfold publish_to in Hrun. st_simpl Hrun. set (a3 := channel_mut _ _ a2).
      assert (silent a a3) as Ha3.
      { eapply silent_trans; [done|]. apply (announced_nil _ _ c), announced_channel. by rewrite app_nil_r. }
      exists [ParticipantLeft c u]. intros c'. rewrite <-Ha3. by apply announced_channel.
    + exists []. simplify_eq. by apply announced_nil.
Qed.
Lemma announced_publish a c e : announced a (channel_mut c (ChannelState_publish e) a) c [e].
Proof. by apply announced_channel. Qed.
Lemma announced_none a a' : silent a a' → ∃ c es, announced a a' c es.
Proof. exists (mk_ChannelId inhabitant), []. by apply announced_nil. Qed.
Lemma send_message_announced id now c u parent body rid a r a' :
  send_message id now c u parent body rid a = (r, a') →
  match r with
  | Ok m => announced a a' (ChatMessage_channel_id m)
              (if decide (ChatMessage_id m ∈ published_messages a) then [] else [MessageAccepted m])
  | _ => silent a a'
  end.
Proof.
  intros Hrun. unfold send_message, st_bind in Hrun.
  destruct (match rid with _ => _ end a) as [r1 a1] eqn:E.
  assert (actor_channels a1 = actor_channels a ∧ published_messages a1 = published_messages a) as [Hc Hp].
  { destruct rid; by apply call_channels in E as (?&?&_). }
  destruct r1 as [m|e|]; simplify_eq; [|by apply silent_channels..].
  assert (Hm := publish_message_announced m a1). rewrite publish_message_run in Hrun, Hm.
  unfold st_ret in Hrun. simplify_eq. rewrite <-Hp. by apply (announced_same a1).
Qed.
Lemma publish_message_repository m (a : ChatActor S) :
  repository (publish_message m a).2 = repository a.
Proof. rewrite publish_message_run. simpl. by case_decide. Qed.
(** A sent message is stored in the channel of the request, and is either new or,
    for a repeated request, the one stored before. *)
Lemma send_message_stored a id now c u parent body rid m a' :
  actor_ok a → stored (repository a) id = None →
  send_message id now c u parent body rid a = (Ok m, a') →
  ChatMessage_channel_id m = c ∧ stored (repository a') (ChatMessage_id m) = Some c
  ∧ (ChatMessage_id m = id
     ∨ rid ≠ None ∧ repository a' = repository a ∧ stored (repository a) (ChatMessage_id m) = Some c).
Proof.
  intros Hok Hid Hrun. unfold send_message, st_bind, call in Hrun.
  destruct rid as [rid|].
  - destruct (repo_append_message_idempotent _ _ _ _ _) as [r1 s1] eqn:E in Hrun.
    apply append_idempotent_law in E as (_&_&Hx); [|apply ok_repository, Hok|done].
    destruct r1 as [x|e|]; simpl in Hrun; [|done..]. destruct (Hx x eq_refl) as (Hc&Hst&Hor).
    assert (Hp := publish_message_repository x (a <| repository := s1 |>)).
    destruct (publish_message x _) as [[[]| |] a2] in Hrun, Hp; [|done..]. injection Hrun as <- <-.
    simpl in Hp. rewrite Hp.
    split_and!; [done|done|]. destruct Hor as [Hnew|[-> Hold]]; [by left|by right].
  - destruct (repo_append_message _ _ _ _) as [r1 s1] eqn:E in Hrun.
    apply append_law in E as (_&_&Hx); [|apply ok_repository, Hok|done].
    destruct r1 as [x|e|]; simpl in Hrun; [|done..]. destruct (Hx x eq_refl) as (Heq&Hc&Hst).
    assert (Hp := publish_message_repository x (a <| repository := s1 |>)).
    destruct (publish_message x _) as [[[]| |] a2] in Hrun, Hp; [|done..]. injection Hrun as <- <-.
    simpl in Hp. rewrite Hp.
    split_and!; [done|by rewrite Heq|by left].
Qed.
Lemma handle_announced cmd a reply a' : handle cmd a = (reply, a') → ∃ c es, announced a a' c es.
Proof.
  intros Hrun. destruct cmd; simpl in Hrun; unfold reply_with in Hrun.
  - unfold publish_to, modify in Hrun. simplify_eq. eauto using announced_publish.
  - destruct (subscribe _ _ _ a) as [r1 a1] eqn:E. simplify_eq. apply subscribe_announced in E.
    destruct r1; eauto using announced_none.
  - destruct (leave _ _ _ a) as [r1 a1] eqn:E. simplify_eq. exists channel_id. by eapply leave_announced.
  - destruct (send_message _ _ _ _ _ _ _ a) as [r1 a1] eqn:E. simplify_eq.
    apply send_message_announced in E. destruct r1; eauto using announced_none.
  - destruct (toggle_reaction _ _ _ a) as [r1 a1] eqn:E. simplify_eq.
    apply announce_announced in E. destruct r1; eauto using announced_none.
  - destruct (edit _ _ _ _ a) as [r1 a1] eqn:E. simplify_eq.
    apply announce_announced in E. destruct r1; eauto using announced_none.
  - destruct (delete_msg _ _ _ a) as [r1 a1] eqn:E. simplify_eq.
    apply announce_announced in E. destruct r1; eauto using announced_none.
  - unfold st_bind in Hrun. destruct (call _ a) as [r1 a1] eqn:E in Hrun.
    apply call_channels in E as (Hc&_). destruct r1 as [m|e|]; simplify_eq;
      [|by apply announced_none, silent_channels..].
    destruct (publish_message m a1) eqn:Ep. simplify_eq.
    eexists _, _. eapply announced_same; [done|].
    assert (Hm := publish_message_announced m a1). by rewrite Ep in Hm.
  - destruct event; unfold publish_to, modify, st_ret in Hrun; simplify_eq;
      eauto using announced_publish, announced_none, silent_channels.
  - destruct event; unfold publish_to, modify, st_ret in Hrun; simplify_eq;
      eauto using announced_publish, announced_none, silent_channels.
  - destruct event as [? ? [?|]| | | | | | |]; unfold publish_to, modify, st_ret in Hrun; simplify_eq;
      eauto using announced_publish, announced_none, silent_channels.
  - destruct event; unfold publish_presence, publish_to, modify, st_ret in Hrun; simplify_eq;
      eauto using announced_publish, announced_none, silent_channels.
  - unfold ignore_err in Hrun. destruct (call _ a) as [r1 a1] eqn:E in Hrun.
    apply call_channels in E as (Hc&_). apply announced_none, silent_channels. by destruct r1; simplify_eq.
Qed.

Lemma handle_distributed cmd a reply a' :
  handle cmd a = (reply, a') → distributed_presence a' = distributed_presence a.
Proof.
  destruct cmd; simpl; unfold reply_with, subscribe, leave, send_message, toggle_reaction, edit, delete_msg,
    publish_presence, on_err, ignore_err; intros Hrun; rewrite ?publish_message_run in Hrun;
  unfold publish_to, call in Hrun; run_st Hrun; rewrite ?publish_message_run in *; simplify_eq/=;
  unfold drop_connection; repeat case_match; by simplify_eq/=.
Qed.
Lemma sys_reachable_distributed distributed a :
  sys_reachable distributed a → distributed_presence a = distributed.
Proof.
  intros (s&_&Hsteps). change distributed with (distributed_presence (ChatActor_new s distributed)).
  induction Hsteps as [|a1 a2 a3 Hstep _ IH]; [done|]. rewrite IH.
  destruct Hstep as [a1 cmd _|]; [|done].
  destruct (handle cmd a1) eqn:E. by eapply handle_distributed.
Qed.
(** A published identifier is remembered while the cache has room for all. *)
Lemma remembered (a : ChatActor S) id :
  actor_ok a → length (accepted_in (actor_channels a)) ≤ PUBLISHED_MESSAGE_CACHE →
  id ∈ published_messages a ↔ id ∈ accepted_in (actor_channels a).
Proof. intros Hok Hlen. destruct (ok_cache _ Hok) as [_ Hsame _ Hwin]. by rewrite Hsame, (Hwin Hlen). Qed.
Lemma external_known (a : ChatActor S) id :
  actor_ok a → id ∈ published_messages a → handle (CExternalMessage id) a = (NoReply, a).
Proof.
  intros Hok Hin. simpl. unfold reply_with, st_bind.
  destruct (repo_load_message id (repository a)) as [r1 s1] eqn:E. rewrite (call_run _ _ _ _ E).
  destruct (load_message_law _ _ _ _ (ok_repository _ Hok) E) as (->&Hnp&Hm).
  assert (a <| repository := repository a |> = a) as Hid by by destruct a.
  rewrite Hid. destruct r1 as [m|e|]; simpl; [|done..]. destruct (Hm m eq_refl) as [<- _].
  by rewrite publish_message_run, decide_True.
Qed.
Lemma announced_prefix a a' c es c' : announced a a' c es → chan_events a c' `prefix_of` chan_events a' c'.
Proof. intros Ha. rewrite (Ha c'). by apply prefix_app_r. Qed.

(** Events are only ever added. *)
Lemma sys_step_events a a' c : sys_step a a' → chan_events a c `prefix_of` chan_events a' c.
Proof.
  intros Hstep. destruct Hstep as [a cmd Hcmd|a s' Hs]; [|by apply reflexivity].
  destruct (handle cmd a) as [reply a'] eqn:E. simpl. destruct (handle_announced _ _ _ _ E) as (c'&es&Ha).
  by eapply announced_prefix.
Qed.
Lemma sys_steps_events a a' c : rtc sys_step a a' → chan_events a c `prefix_of` chan_events a' c.
Proof. induction 1; [done|]. etrans; [by apply sys_step_events|done]. Qed.
End invariant.
