(* ===== verification/ActorProps.v ===== *)
(** * ActorProps: what the chat actor guarantees

    Theorems about every state the actor can reach by its commands, interleaved
    with other activity on the repository, for any repository that meets
    [ChatRepositoryLaws]; the examples run the actor on the in-memory repository. *)

From Stdlib Require Import ZifyBool.
From stdpp Require Import base tactics numbers strings countable sorting gmap list.
From S2P Require Import Prelude RustStr Text Ids Models RepoState RepoMessages RepoCircles RepoWf WfMessages RepoReach RepoHistory RepoDemo ChatActor ActorLaws ActorInvariant.

#[local] Existing Instances demo_unicode demo_uuid demo_crypto.

(** ** A running actor *)

Definition conn1 : ConnectionId := mk_ConnectionId 501.
Definition conn2 : ConnectionId := mk_ConnectionId 502.
Definition fresh_id : MessageId := mk_MessageId 200.
Definition demo_cmds : list Command := [
  CSubscribe conn1 general alice; CSubscribe conn2 general bob;
  CSendMessage fresh_id 8000 general alice None (body "live") (Some (lit "r2"));
  CEditMessage 8100 alice fresh_id (body "edited");
  CToggleReaction bob fresh_id (lit "+1");
  CExternalMessage second;
  CLeave general bob conn2 ].
Definition run_cmds (cmds : list Command) (a : ChatActor RepositoryState) : ChatActor RepositoryState :=
  fold_left (λ a cmd, (handle cmd a).2) cmds a.
Definition actor0 : ChatActor RepositoryState := ChatActor_new demo_state false.
Definition demo_actor : ChatActor RepositoryState := run_cmds demo_cmds actor0.

Lemma run_cmds_steps cmds a :
  (∀ i cmd, cmds !! i = Some cmd → cmd_ok (λ _, False) (run_cmds (take i cmds) a) cmd) →
  rtc (sys_step (λ _, False)) a (run_cmds cmds a).
Proof.
  revert a. induction cmds as [|cmd cmds IH]; intros a Hcmds; [done|]. simpl.
  eapply rtc_l; [apply step_command, (Hcmds 0 cmd eq_refl)|]. apply IH.
  intros i cmd' Hi. apply (Hcmds (S i) cmd' Hi).
Qed.
Ltac demo_cmd := lazymatch goal with
  | |- cmd_ok _ _ (CSendMessage _ _ _ _ _ _ _) =>
      split; [vm_compute; reflexivity|apply (bool_decide_eq_false_1 _); vm_compute; reflexivity]
  | _ => exact I
  end.
Lemma actor0_reachable : sys_reachable (λ _, False) false actor0.
Proof. exists demo_state. split; [apply reachable_wf, demo_reachable|done]. Qed.
Lemma demo_actor_reachable : sys_reachable (λ _, False) false demo_actor.
Proof.
  exists demo_state. split; [apply reachable_wf, demo_reachable|]. apply run_cmds_steps.
  intros i cmd Hi. do 7 (destruct i as [|i]; [injection Hi as <-; demo_cmd|]). done.
Qed.

Section props.
Context {S : Type} `{!ChatRepository S, !ChatRepositoryLaws S} (deleted : ChannelId → Prop).

(** ** Broadcasting *)

(** C31: what is broadcast is durable and stays in its channel: in every state the
    actor can reach, each accepted, edited, deleted or reacted-to message in the
    event stream of a channel is stored in the repository, in that channel, unless
    the channel's circle is deleted in the run. *)
Theorem broadcast_only_stored_messages distributed (a : ChatActor S) (c : ChannelId) (e : ChatEvent)
    (id : MessageId) :
  sys_reachable deleted distributed a → ¬ deleted c →
  e ∈ chan_events a c → event_message e = Some id → stored (repository a) id = Some c.
Proof.
  intros Hok%sys_reachable_ok Hc Hin Hid. by destruct (ok_events _ _ Hok c e id Hin Hid).
Qed.

(** No message is announced as accepted twice, in any channel, by any mix of
    sends, retries and database notifications, as long as the number of accepted
    messages is within the cache of published identifiers. *)
Theorem messages_accepted_once distributed (a : ChatActor S) :
  sys_reachable deleted distributed a → length (accepted_in (actor_channels a)) ≤ PUBLISHED_MESSAGE_CACHE →
  NoDup (accepted_in (actor_channels a)).
Proof.
  intros Hok%sys_reachable_ok Hlen. destruct (ok_cache _ _ Hok) as [Hnd _ _ Hwin].
  by rewrite <-(Hwin Hlen).
Qed.

(** The cache of published identifiers never exceeds its bound, its set and
    its queue hold the same identifiers, each once. *)
Theorem published_cache_consistent distributed (a : ChatActor S) :
  sys_reachable deleted distributed a →
  length (published_order a) ≤ PUBLISHED_MESSAGE_CACHE ∧ NoDup (published_order a)
  ∧ size (published_messages a) = length (published_order a)
  ∧ ∀ id, id ∈ published_order a ↔ id ∈ published_messages a.
Proof.
  intros Hok%sys_reachable_ok. destruct (ok_cache _ _ Hok) as [Hnd Hsame Hbound _].
  split_and!; [done|done| |].
  - rewrite <-(size_list_to_set (C := gset MessageId) (published_order a)) by done. f_equal.
    apply set_eq. intros id. by rewrite Hsame, elem_of_list_to_set.
  - intros id. by rewrite Hsame.
Qed.

(** C30: a successful send is stored in the channel of the request before it is
    announced there; a new message is announced exactly once, at the end of that
    channel's stream and nowhere else; a repeated request, which stores nothing, is
    announced only if its message is not in the cache of published ones; a failed
    send announces nothing. *)
Theorem send_announced_exactly_once distributed (a : ChatActor S) id now c u parent body rid r a' :
  sys_reachable deleted distributed a → unused_id a id →
  send_message id now c u parent body rid a = (r, a') →
  match r with
  | Ok m => ChatMessage_channel_id m = c ∧ stored (repository a') (ChatMessage_id m) = Some c
            ∧ (ChatMessage_id m = id ∧ announced a a' c [MessageAccepted m]
               ∨ rid ≠ None ∧ repository a' = repository a
                 ∧ announced a a' c (if decide (ChatMessage_id m ∈ published_messages a)
                                     then [] else [MessageAccepted m]))
  | _ => silent a a'
  end.
Proof.
  intros Hok%sys_reachable_ok [Hid Hpub] Hrun. assert (Ha := send_message_announced _ _ _ _ _ _ _ _ _ _ Hrun).
  destruct r as [m|e|]; [|done..].
  destruct (send_message_stored _ _ _ _ _ _ _ _ _ _ _ Hok Hid Hrun) as (Hc&Hst&Hor).
  rewrite Hc in Ha. split_and!; [done|done|]. destruct Hor as [Heq|(?&?&_)]; [left|by right].
  split; [done|]. rewrite decide_False in Ha; [done|]. by rewrite Heq.
Qed.

(** An edit, a deletion or a reaction that succeeds is announced exactly once,
    at the end of the stream of the message's channel, with what the repository
    returned; one that fails announces nothing. *)
Theorem changes_announced_exactly_once (a : ChatActor S) now actor id body emoji :
  (let '(r, a') := edit now actor id body a in
   match r with Ok m => announced a a' (ChatMessage_channel_id m) [MessageEdited m]
              | _ => silent a a' end)
  ∧ (let '(r, a') := delete_msg now actor id a in
     match r with Ok m => announced a a' (ChatMessage_channel_id m) [MessageDeleted m]
                | _ => silent a a' end)
  ∧ (let '(r, a') := toggle_reaction actor id emoji a in
     match r with Ok x => announced a a' (MessageReactionChange_channel_id x) [MessageReactionChanged x]
                | _ => silent a a' end).
Proof.
  split_and!.
  - destruct (edit _ _ _ _ a) eqn:E. by apply announce_announced in E.
  - destruct (delete_msg _ _ _ a) eqn:E. by apply announce_announced in E.
  - destruct (toggle_reaction _ _ _ a) eqn:E. by apply announce_announced in E.
Qed.

(** The database notification of a message the instance sent itself is
    suppressed: whatever happened since the send, as long as no more messages were
    accepted than the cache holds, handling the notification changes nothing. *)
Theorem own_notification_suppressed distributed (a a1 a2 : ChatActor S) id now c u parent body rid m :
  sys_reachable deleted distributed a → unused_id a id →
  send_message id now c u parent body rid a = (Ok m, a1) → rtc (sys_step deleted) a1 a2 →
  length (accepted_in (actor_channels a2)) ≤ PUBLISHED_MESSAGE_CACHE →
  handle (CExternalMessage (ChatMessage_id m)) a2 = (NoReply, a2).
Proof.
  intros Hok%sys_reachable_ok [Hid _] Hrun Hsteps Hlen.
  assert (actor_ok deleted a1) as Hok1 by by eapply send_message_ok.
  assert (actor_ok deleted a2) as Hok2 by by eapply sys_steps_ok.
  eapply external_known; [done|]. eapply remembered; [done..|].
  assert (Ha := send_message_announced _ _ _ _ _ _ _ _ _ _ Hrun). simpl in Ha.
  assert (∀ c, chan_events a1 c `prefix_of` chan_events a2 c) as H12 by (intros ?; by eapply sys_steps_events).
  case_decide as Hpub.
  - assert (accepted_in (actor_channels a) ⊆+ accepted_in (actor_channels a2)) as Hsub.
    { apply accepted_in_prefix. intros c'. etrans; [by eapply announced_prefix|apply H12]. }
    eapply elem_of_submseteq; [|exact Hsub].
    eapply remembered; [done| |done]. apply submseteq_length in Hsub. lia.
  - apply (accepted_in_elem _ (ChatMessage_channel_id m) m).
    eapply elem_of_prefix; [|apply H12]. rewrite (Ha _), decide_True by done. apply elem_of_app. right. by apply list_elem_of_singleton.
Qed.

(** ** Presence *)

(** With local presence, the arrivals and departures of a user alternate in
    the stream of every channel, starting with an arrival, the user is listed as a
    participant exactly when the last event was an arrival, and nobody is listed
    without a connection. *)
Theorem presence_alternates_and_listed (a : ChatActor S) (c : ChannelId) (u : UserId) :
  sys_reachable deleted false a →
  alternates (presence_of u (chan_events a c))
  ∧ (is_Some (chan_participants a c !! u) ↔ Nat.odd (length (presence_of u (chan_events a c))) = true)
  ∧ chan_participants a c !! u ≠ Some ∅.
Proof.
  intros Hr. assert (Hok := sys_reachable_ok _ _ _ Hr).
  assert (distributed_presence a = false) as Hd by by eapply sys_reachable_distributed.
  destruct (ok_presence _ _ Hok Hd c u). by split_and!.
Qed.

(** ** Subscriptions *)


End props.

(** A subscription whose presence lease cannot be registered leaves no trace:
    the error is returned, and no channel has gained an event or a connection. *)
Theorem failed_registration_rolls_back {S : Type} `{!ChatRepository S} (a a' : ChatActor S) conn c u e :
  distributed_presence a = true → subscribe conn c u a = (Err e, a') →
  chan_participants a c !! u ≠ Some ∅ → conn ∉ default ∅ (chan_participants a c !! u) →
  silent a a' ∧ ∀ c', chan_participants a' c' = chan_participants a c'.
Proof.
  intros Hd Hrun Hne Hconn. split; [by apply subscribe_announced in Hrun|].
  unfold subscribe in Hrun. unfold st_bind in Hrun at 1.
  destruct (call _ a) as [r1 a1] eqn:E in Hrun. apply call_channels in E as (Hc&_&Hd1).
  destruct r1 as [history|e'|]; simplify_eq; [|by intros c'; unfold chan_participants; rewrite Hc].
  st_simpl Hrun. rewrite Hd1, Hd in Hrun. unfold on_err in Hrun.
  destruct (call _ (channel_mut _ _ _)) as [r2 a2] eqn:E2 in Hrun. apply call_channels in E2 as (Hc2&_).
  destruct r2 as [| |]; simplify_eq. intros c'. unfold chan_participants, drop_connection in *.
  simpl in Hc2. rewrite Hc in *. rewrite Hc2, lookup_insert_eq. simpl. rewrite lookup_insert_eq.
  destruct (decide (c' = c)) as [->|Hcc].
  - simpl. rewrite lookup_insert_eq. simpl.
    destruct (participants (default ChannelState_new (actor_channels a !! c)) !! u) as [conns|] eqn:Eu; simpl in *.
    + assert (({[conn]} ∪ conns) ∖ {[conn]} = conns) as -> by set_solver.
      rewrite bool_decide_false by congruence. rewrite insert_insert_eq. by rewrite insert_id.
    + assert (({[conn]} ∪ ∅) ∖ {[conn]} = (∅ : gset ConnectionId)) as -> by set_solver.
      rewrite bool_decide_true by done. by rewrite !delete_insert_eq, delete_id.
  - simpl. by rewrite !lookup_insert_ne.
Qed.

(** On the in-memory repository, only a member of the channel can subscribe;
    a member gets the last fifty messages, is registered with the connection, and
    the arrival is announced only with the user's first connection; for others
    nothing changes. *)
Theorem subscribe_in_memory_exact (deleted : ChannelId → Prop) (a : ChatActor RepositoryState) conn c u :
  sys_reachable deleted false a →
  (is_Some (memberships (repository a) !! (c, u)) →
   ∃ a', subscribe conn c u a = (Ok (mk_ChannelSubscription conn (length (chan_events a c))
             (last_n 50 (channel_messages (repository a) c))), a')
     ∧ chan_participants a' c !! u = Some ({[conn]} ∪ default ∅ (chan_participants a c !! u))
     ∧ announced a a' c (if decide (chan_participants a c !! u = None) then [ParticipantJoined c u] else []))
  ∧ (memberships (repository a) !! (c, u) = None →
     subscribe conn c u a = (Err (Repository PermissionDenied), a)).
Proof.
  intros Hr. assert (Hok := sys_reachable_ok _ _ _ Hr).
  assert (distributed_presence a = false) as Hd by by eapply sys_reachable_distributed.
  assert (Hwf := ok_repository _ _ Hok). simpl in Hwf.
  set (q := mk_LoadRecentMessages u c (MessageLimit_new 50) None None).
  assert (call (repo_load_recent_messages q) a
          = (map_err Repository (load_recent_messages q (repository a)).1, a)) as Hcall.
  { unfold call. simpl. rewrite (load_recent_page _ q Hwf). by destruct a. }
  rewrite (load_recent_page _ q Hwf) in Hcall. unfold subscribe, st_bind. fold q.
  setoid_rewrite Hcall. simpl. split; intros Hmem.
  - rewrite decide_True by done. simpl. unfold put, get, st_ret. rewrite Hd.
    fold (chan_participants a c). fold (chan_events a c).
    assert (presence_connected := presence_connected _ _ (ok_presence _ _ Hok Hd c u)).
    fold (chan_participants a c) in presence_connected.
    set (a2 := channel_mut c _ a).
    assert (chan_participants a2 c !! u = Some ({[conn]} ∪ default ∅ (chan_participants a c !! u))) as Hp.
    { unfold chan_participants, a2, channel_mut. simpl. rewrite lookup_insert_eq. apply lookup_insert_eq. }
    assert (announced a a2 c []) as Ha2 by (apply announced_channel; by rewrite app_nil_r).
    destruct (decide (chan_participants a c !! u = None)) as [Hnone|Hsome].
    + rewrite bool_decide_true by by rewrite Hnone. unfold publish_to, modify.
      eexists. split; [done|]. split.
      * rewrite <-Hp. unfold chan_participants, channel_mut. simpl. by rewrite lookup_insert_eq.
      * apply announced_nil in Ha2. intros c'. rewrite <-Ha2. apply announced_publish.
    + rewrite bool_decide_false; [by exists a2|].
      destruct (chan_participants a c !! u); simpl; congruence.
  - rewrite decide_False; [done|]. rewrite Hmem. by intros [].
Qed.

(** ** Examples *)

Definition sent_live : Res ChatError ChatMessage * ChatActor RepositoryState :=
  send_message fresh_id 8000 general alice None (body "live") (Some (lit "r2")) actor0.
Definition live : ChatMessage :=
  match sent_live.1 with Ok m => m | _ => sent_message demo_state fresh_id 0 send_hello (mk_DisplayName []) end.

Lemma fresh_unused : unused_id actor0 fresh_id.
Proof. split; [vm_compute; reflexivity|]. apply (bool_decide_eq_false_1 _). vm_compute. reflexivity. Qed.
Lemma broadcast_only_stored_messages_witness :
  stored (repository demo_actor) fresh_id = Some general.
Proof.
  apply (broadcast_only_stored_messages (λ _, False) false demo_actor general
    (default (ChannelCreated general alice None) (chan_events demo_actor general !! 2))).
  - exact demo_actor_reachable.
  - intros [].
  - apply (list_elem_of_lookup_2 _ 2). vm_compute. reflexivity.
  - vm_compute. reflexivity.
Defined.
Lemma messages_accepted_once_witness : NoDup (accepted_in (actor_channels demo_actor)).
Proof.
  apply (messages_accepted_once (λ _, False) false demo_actor demo_actor_reachable).
  apply Nat.leb_le. vm_compute. reflexivity.
Defined.
Lemma published_cache_consistent_witness :
  size (published_messages demo_actor) = length (published_order demo_actor).
Proof. apply (published_cache_consistent (λ _, False) false demo_actor demo_actor_reachable). Defined.
Lemma send_announced_exactly_once_witness :
  stored (repository sent_live.2) (ChatMessage_id live) = Some general
  ∧ chan_events sent_live.2 general = [MessageAccepted live].
Proof.
  destruct (send_announced_exactly_once (λ _, False) false actor0 fresh_id 8000 general alice None (body "live")
    (Some (lit "r2")) (Ok live) sent_live.2 actor0_reachable) as (_&Hs&_).
  - exact fresh_unused.
  - vm_compute. reflexivity.
  - split; [exact Hs|]. vm_compute. reflexivity.
Defined.
Lemma own_notification_suppressed_witness :
  handle (CExternalMessage fresh_id) sent_live.2 = (NoReply, sent_live.2).
Proof.
  apply (own_notification_suppressed (λ _, False) false actor0 sent_live.2 sent_live.2 fresh_id 8000 general alice None
    (body "live") (Some (lit "r2")) live actor0_reachable fresh_unused).
  - vm_compute. reflexivity.
  - apply rtc_refl.
  - apply Nat.leb_le. vm_compute. reflexivity.
Defined.
Lemma presence_alternates_and_listed_witness :
  presence_of bob (chan_events demo_actor general) = [true; false]
  ∧ chan_participants demo_actor general !! alice ≠ Some ∅.
Proof.
  split; [vm_compute; reflexivity|].
  apply (presence_alternates_and_listed (λ _, False) demo_actor general alice demo_actor_reachable).
Defined.
Lemma subscribe_in_memory_exact_witness :
  subscribe conn1 direct carol actor0 = (Err (Repository PermissionDenied), actor0).
Proof.
  apply (subscribe_in_memory_exact (λ _, False) actor0 conn1 direct carol actor0_reachable). vm_compute. reflexivity.
Defined.

(** A repository whose presence table is unavailable. *)
#[local] Instance no_presence : ChatRepository RepositoryState | 100 := {|
  repo_load_recent_messages := load_recent_messages;
  repo_load_message := load_message;
  repo_append_message := append_message;
  repo_append_message_idempotent := append_message_idempotent;
  repo_toggle_message_reaction := toggle_message_reaction;
  repo_edit_message := edit_message;
  repo_delete_message := delete_message;
  repo_register_presence _ := throw (Storage []);
  repo_unregister_presence _ := throw (Storage []);
  repo_expire_presence := throw (Storage []) |}.
Definition offline : ChatActor RepositoryState := ChatActor_new demo_state true.
Lemma failed_registration_rolls_back_witness :
  silent offline (@subscribe _ no_presence conn1 general alice offline).2.
Proof.
  apply (@failed_registration_rolls_back _ no_presence offline _ conn1 general alice (Repository (Storage []))).
  - reflexivity.
  - vm_compute. reflexivity.
  - vm_compute. discriminate.
  - vm_compute. intros H. inversion H.
Defined.
