(* ===== verification/ChatEngine.v ===== *)
(** * ChatEngine: the service in front of the actor and the repository

    Models [ChatEngine] of [src/chat.rs]: the methods the web layer calls. Most go
    to the repository, some after validating their input; those that concern live
    channels go through the mailbox of the actor. The engine is modelled on the
    in-memory repository, which the actor and the engine share.

    A call that waits for its reply is one step: the actor first handles what is
    in its mailbox, in order. A call that only posts a command leaves it there,
    and [deliver] is the actor's next turn. A full mailbox makes the sender wait,
    which the model does not show. Generated identifiers, the clock and random
    secrets are arguments. *)

From Stdlib Require Import ZifyBool.
From stdpp Require Import base tactics numbers strings countable sorting gmap list.
From S2P Require Import Prelude RustStr Text Ids Models Policy RepoState RepoMessages RepoChannels RepoCircles RepoUsers ChatActor ActorLaws.

(** ** Libraries *)

(** [unicode_segmentation]: the extended grapheme clusters of a string, which are
    not empty and make up the string; and the SHA-256 digest of a byte sequence in
    lower case hexadecimal. *)
Class EngineLib := {
  graphemes : str → list str;
  graphemes_concat s : concat (graphemes s) = s;
  graphemes_non_empty s g : g ∈ graphemes s → g ≠ [];
  sha256_hex : list N → str }.
(** A stand-in: one cluster per character. *)
Program Definition demo_engine_lib : EngineLib := {|
  graphemes s := (λ c, [c]) <$> s; sha256_hex content := content |}.
Next Obligation. intros s. induction s as [|c s IH]; [done|]. exact (f_equal (cons c) IH). Qed.
Next Obligation. intros s g (c&->&_)%list_elem_of_fmap. done. Qed.

(** ** State *)

Record ChatEngine : Type := mk_ChatEngine {
  engine_actor : ChatActor RepositoryState;
  mailbox : list Command;
  running : bool }.
#[export] Instance ChatEngine_eta : Eta ChatEngine := λ e,
  mk_ChatEngine (engine_actor e) (mailbox e) (running e).

(** The in-memory repository sends no notifications, so presence is local. *)
Definition ChatEngine_start (repository : RepositoryState) : ChatEngine :=
  mk_ChatEngine (ChatActor_new repository false) [] true.

Definition Engine (A : Type) : Type := ST ChatEngine ChatError A.

(** [self.repository.method(..).await.map_err(ChatError::from)] *)
Definition repo {A} (m : Repo A) : Engine A := λ e,
  let '(r, a') := call m (engine_actor e) in (r, e <| engine_actor := a' |>).

(** The actor's next turn. A task that panics is gone, with its mailbox. *)
Definition deliver (e : ChatEngine) : ChatEngine :=
  match mailbox e with
  | cmd :: rest =>
      let '(r, a') := handle cmd (engine_actor e) in
      if panicked r then mk_ChatEngine a' [] false
      else e <| engine_actor := a' |> <| mailbox := rest |>
  | [] => e
  end.
(** [self.mailbox.send(command).await] *)
Definition post (cmd : Command) : Engine unit := λ e,
  if running e then (Ok tt, e <| mailbox := mailbox e ++ [cmd] |>) else (Err EngineStopped, e).
(** Post a command and wait for its reply, while the actor handles what is in the
    mailbox before it. A task that panics drops the reply channels of its mailbox
    and takes no further commands. *)
Definition ask {A} (cmd : Command) (reply : Reply → Res ChatError A) : Engine A := λ e,
  if running e then
    match handle_all (mailbox e) (engine_actor e) with
    | (false, a') => (Err EngineStopped, mk_ChatEngine a' [] false)
    | (true, a) =>
        let '(r, a') := handle cmd a in
        if panicked r then (Err EngineStopped, mk_ChatEngine a' [] false)
        else (reply r, mk_ChatEngine a' [] true)
    end
  else (Err EngineStopped, e).

Definition message_reply (r : Reply) : Res ChatError ChatMessage :=
  match r with ReplyMessage response => response | _ => Err EngineStopped end.
Definition reaction_reply (r : Reply) : Res ChatError MessageReactionChange :=
  match r with ReplyReaction response => response | _ => Err EngineStopped end.
Definition subscription_reply (r : Reply) : Res ChatError ChannelSubscription :=
  match r with ReplySubscription response => response | _ => Err EngineStopped end.
Definition unit_reply (r : Reply) : Res ChatError unit :=
  match r with ReplyUnit => Ok tt | _ => Err EngineStopped end.

(** ** Validation *)

(** The characters that make a string an emoji. *)
Definition is_emoji_char (c : char) : bool :=
  (existsb (N.eqb c) [169; 174; 8252; 8265; 8482; 8505; 12336; 12349; 12951; 12953]
   || (8592 <=? c) && (c <=? 8703) || (8960 <=? c) && (c <=? 9215)
   || (9312 <=? c) && (c <=? 9471) || (9632 <=? c) && (c <=? 10175)
   || (126976 <=? c) && (c <=? 129791) || (130048 <=? c) && (c <=? 131071)
   || (c =? 8419))%N.

(** The bounds of a status, shared by [set_status] and [remove_saved_status]. *)
Definition status_ok (text emoji : str) : bool :=
  negb ((100 <? length text) || (16 <? length emoji) || existsb is_control text || existsb is_control emoji).

Definition CHANNEL_REFERENCE_BATCH_MAX : nat := 64.

Module Engine.
Section methods.
Context `{Unicode, UuidLib, CryptoLib, EngineLib}.

Definition is_reaction_emoji (value : str) : bool :=
  let value := trim value in
  if bool_decide (value = []) || (32 <? len value)%N || negb (length (graphemes value) =? 1) then false
  else existsb is_emoji_char value.

(** ** Accounts and profiles *)

Definition ensure_user (user : User) : Engine unit :=
  let! _ := repo (upsert_user user) in st_ret tt.
Definition signup_ordinal (actor : UserId) : Engine (option N) :=
  repo (RepoUsers.signup_ordinal actor).
Definition list_users (now : DateTime) (actor : UserId) : Engine (list UserProfile) :=
  repo (list_user_profiles now actor).
Definition list_circle_members (now : DateTime) (actor : UserId) (circle_id : CircleId)
    : Engine (list (UserProfile * CircleRole)) :=
  let! profiles := repo (list_circle_user_profiles now actor circle_id) in
  let! roles := repo (circle_member_roles actor circle_id) in
  let roles : gmap UserId CircleRole := foldl (λ m '(u, r), <[u := r]> m) ∅ roles in
  st_ret (omap (λ profile, (λ role, (profile, role)) <$> roles !! User_id (UserProfile_user profile)) profiles).
Definition set_circle_member_role (command : SetCircleMemberRole) : Engine CircleMembership :=
  repo (RepoCircles.set_circle_member_role command).
Definition list_circle_users (now : DateTime) (actor : UserId) (circle_id : CircleId)
    : Engine (list UserProfile) := repo (list_circle_user_profiles now actor circle_id).

Definition set_status (now : DateTime) (actor : UserId) (text emoji : str)
    (expires_at : option DateTime) : Engine UserProfile :=
  let text := trim text in
  let emoji := trim emoji in
  ensure (status_ok text emoji) (Validation (TooLarge "status" 100)) ;;;
  repo (set_user_status now actor text emoji expires_at).
Definition saved_statuses (actor : UserId) : Engine (list SavedStatus) :=
  repo (list_saved_statuses actor).
Definition remove_saved_status (actor : UserId) (text emoji : str) : Engine unit :=
  let text := trim text in
  let emoji := trim emoji in
  ensure (status_ok text emoji) (Validation (TooLarge "status" 100)) ;;;
  ensure (negb (bool_decide (text = []) && bool_decide (emoji = []))) (Validation (Empty "status")) ;;;
  repo (RepoUsers.remove_saved_status actor text emoji).
Definition update_profile (actor : UserId) (display_name : str) : Engine UserProfile :=
  let! display_name := st_lift (map_err Validation (DisplayName_new display_name)) in
  repo (RepoUsers.update_profile actor display_name).

(** ** Media *)

Definition store_media (fresh : MediaId) (now : DateTime) (upload : MediaUpload) : Engine MediaObject :=
  let sha256 := sha256_hex (MediaUpload_content upload) in
  repo (RepoUsers.store_media fresh now upload sha256).
Definition media_metadata (actor : UserId) (media_id : MediaId) : Engine MediaObject :=
  repo (RepoUsers.media_metadata actor media_id).
Definition read_media_slice (actor : UserId) (media_id : MediaId) (offset length : N) : Engine (list N) :=
  repo (RepoUsers.read_media_slice actor media_id offset length).
(** The trait's default: the metadata must be readable. *)
Definition media_preview_state (actor : UserId) (media_id : MediaId) : Engine str :=
  repo (let! _ := RepoUsers.media_metadata actor media_id in st_ret (lit "legacy")).
Definition load_media_preview (actor : UserId) (media_id : MediaId) : Engine (option MediaVariant) :=
  repo (RepoUsers.load_media_preview actor media_id).

(** ** Direct conversations and personal spaces *)

Definition open_direct_channel (fresh : ChannelId) (fresh_slug : Uuid) (actor other : UserId)
    : Engine Channel := repo (RepoChannels.open_direct_channel fresh fresh_slug actor other).
Definition expand_direct_channel (fresh : ChannelId) (fresh_slug : Uuid) (actor : UserId)
    (source_channel_id : ChannelId) (other : UserId) : Engine Channel :=
  let! channel :=
    repo (RepoChannels.expand_direct_channel fresh fresh_slug actor source_channel_id other) in
  ignore_err (post (CChannelCreated source_channel_id (Channel_id channel) (Channel_created_by channel))) ;;;
  st_ret channel.
Definition open_personal_space (fresh : ChannelId) (owner : UserId) : Engine Channel :=
  repo (RepoChannels.open_personal_space fresh owner).
Definition personal_note (owner : UserId) : Engine PersonalNote := repo (RepoChannels.personal_note owner).
Definition save_personal_note (owner : UserId) (note : PersonalNote) : Engine PersonalNote :=
  repo (RepoChannels.save_personal_note owner note).
Definition announce_persisted_message (message_id : MessageId) : Engine unit :=
  post (CExternalMessage message_id).
Definition save_personal_link (fresh_channel : ChannelId) (fresh : MessageId) (now : DateTime)
    (owner : UserId) (source : MessageId) : Engine bool :=
  let! saved := repo (RepoChannels.save_personal_link fresh_channel fresh now owner source) in
  match saved with
  | None => st_ret false
  | Some message_id => announce_persisted_message message_id ;;; st_ret true
  end.

(** ** Favorites and emojis *)

Definition favorite_circles (actor : UserId) : Engine (list CircleId) := repo (list_favorite_circles actor).
Definition set_circle_favorite (actor : UserId) (circle : CircleId) (favorite : bool) : Engine unit :=
  repo (RepoCircles.set_circle_favorite actor circle favorite).
Definition saved_emojis (actor : UserId) : Engine (list str) := repo (list_saved_emojis actor).
Definition save_emoji (actor : UserId) (emoji : str) (saved : bool) : Engine unit :=
  let emoji := trim emoji in
  ensure (is_reaction_emoji emoji) (Validation InvalidReaction) ;;;
  repo (RepoUsers.save_emoji actor emoji saved).

(** ** Circles *)

Definition create_circle (fresh : CircleId) (now : DateTime) (actor : UserId) (slug : ChannelSlug)
    (name : DisplayName) : Engine Circle :=
  repo (RepoCircles.create_circle fresh now (mk_CreateCircle actor slug name)).
Definition list_circles (actor : UserId) : Engine (list (Circle * CircleRole)) :=
  repo (list_circles_for_user actor).
Definition rename_circle (actor : UserId) (circle_id : CircleId) (name : DisplayName) : Engine Circle :=
  repo (RepoCircles.rename_circle (mk_RenameCircle actor circle_id name)).
Definition delete_circle (actor : UserId) (circle_id : CircleId) : Engine unit :=
  repo (RepoCircles.delete_circle (mk_DeleteCircle actor circle_id)).
Definition leave_circle (actor : UserId) (circle_id : CircleId) : Engine unit :=
  repo (RepoCircles.leave_circle (mk_LeaveCircle actor circle_id)).
Definition create_circle_invitation (secret : Res str (list N)) (fresh : InvitationId) (now : DateTime)
    (actor : UserId) (circle_id : CircleId) : Engine IssuedInvitation :=
  repo (RepoCircles.create_circle_invitation secret fresh now (mk_CreateCircleInvitation actor circle_id)).
Definition accept_circle_invitation (now joined_at : DateTime) (actor : UserId) (token : str)
    : Engine CircleMembership :=
  repo (RepoCircles.accept_circle_invitation now joined_at (mk_AcceptCircleInvitation actor token)).
Definition prepare_enrollment_invitation (secret : Res str (list N)) (fresh : Uuid) (actor : UserId)
    (circle_id : option CircleId) (email : str) (expires_at : DateTime)
    : Engine IssuedEnrollmentInvitation :=
  repo (RepoCircles.prepare_enrollment_invitation secret fresh
          (mk_PrepareEnrollmentInvitation actor circle_id email expires_at)).
Definition activate_enrollment_invitation (now : DateTime) (token : str) (authentik_invitation_id : Uuid)
    : Engine EnrollmentInvitation :=
  repo (RepoCircles.activate_enrollment_invitation now
          (mk_ActivateEnrollmentInvitation token authentik_invitation_id)).
Definition accept_enrollment_invitation (now joined_at : DateTime) (actor : UserId) (email token : str)
    : Engine (option CircleMembership) :=
  repo (RepoCircles.accept_enrollment_invitation now joined_at
          (mk_AcceptEnrollmentInvitation actor email token)).

(** ** Channels *)

Definition create_channel (fresh : ChannelId) (actor : UserId) (slug : ChannelSlug) (name : DisplayName)
    (kind : ChannelKind) (circle_id : option CircleId) : Engine Channel :=
  repo (RepoChannels.create_channel fresh (mk_CreateChannel actor slug name kind circle_id)).
Definition join_channel (actor : UserId) (channel : ChannelRef) : Engine Membership :=
  repo (RepoChannels.join_channel (mk_JoinChannel actor channel)).
Definition leave_channel (actor : UserId) (channel_id : ChannelId) : Engine unit :=
  repo (RepoChannels.leave_channel (mk_LeaveChannel actor channel_id)).
Definition list_channel_users (now : DateTime) (actor : UserId) (channel_id : ChannelId)
    : Engine (list UserProfile) := repo (list_channel_user_profiles now actor channel_id).
Definition update_channel_description (actor : UserId) (channel_id : ChannelId) (description : str)
    : Engine str :=
  repo (RepoChannels.update_channel_description (mk_UpdateChannelDescription actor channel_id description)).
Definition list_joinable_channels (actor : UserId) (circle_id : option CircleId)
    : Engine (list DiscoverableChannel) := repo (RepoChannels.list_joinable_channels actor circle_id).
Definition resolve_channel_references (actor : UserId) (source : ChannelId) (slugs : list ChannelSlug)
    : Engine (list ResolvedChannelReference) :=
  ensure (negb (CHANNEL_REFERENCE_BATCH_MAX <? length slugs)) (Repository Conflict) ;;;
  repo (RepoChannels.resolve_channel_references actor source slugs).
Definition add_channel_member (actor : UserId) (channel_id : ChannelId) (user_id : UserId)
    : Engine Membership :=
  repo (RepoChannels.add_channel_member (mk_AddChannelMember actor channel_id user_id)).

(** ** Messages *)

Definition load_messages (actor : UserId) (channel_id : ChannelId) (limit : MessageLimit)
    (after before : option ChannelSequence) : Engine (list ChatMessage) :=
  repo (load_recent_messages (mk_LoadRecentMessages actor channel_id limit after before)).
Definition mark_read (actor : UserId) (channel_id : ChannelId) (sequence : ChannelSequence)
    : Engine Membership := repo (RepoMessages.mark_read (mk_MarkRead actor channel_id sequence)).
Definition latest_sequence (channel_id : ChannelId) : Engine ChannelSequence :=
  repo (RepoMessages.latest_sequence channel_id).
Definition load_thread (actor : UserId) (root_message_id : MessageId) : Engine (list ChatMessage) :=
  repo (RepoMessages.load_thread actor root_message_id).
Definition list_thread_summaries (actor : UserId) (channel_id : ChannelId) : Engine (list ThreadSummary) :=
  repo (RepoMessages.list_thread_summaries actor channel_id).
Definition thread_root_previews (actor : UserId) (channel_id : ChannelId) (root_ids : list MessageId)
    : Engine (list ThreadRootPreview) := repo (RepoMessages.thread_root_previews actor channel_id root_ids).
Definition mark_thread_read (actor : UserId) (root_message_id : MessageId) (sequence : ChannelSequence)
    : Engine ThreadSummary := repo (RepoMessages.mark_thread_read actor root_message_id sequence).
Definition list_channel_reactions (actor : UserId) (channel_id : ChannelId)
    : Engine (list MessageReactionSummary) := repo (RepoMessages.list_channel_reactions actor channel_id).

(** ** Live channels *)

Definition subscribe (connection_id : ConnectionId) (channel_id : ChannelId) (participant_id : UserId)
    : Engine ChannelSubscription :=
  ask (CSubscribe connection_id channel_id participant_id) subscription_reply.
Definition leave (channel_id : ChannelId) (participant_id : UserId) (connection_id : ConnectionId)
    : Engine unit := ask (CLeave channel_id participant_id connection_id) unit_reply.
Definition send_message_command (id : MessageId) (now : DateTime) (channel_id : ChannelId)
    (sender_id : UserId) (parent_message_id : option MessageId) (body : MessageBody)
    (request_id : option str) : Engine ChatMessage :=
  ask (CSendMessage id now channel_id sender_id parent_message_id body request_id) message_reply.
Definition send_message (id : MessageId) (now : DateTime) (channel_id : ChannelId) (sender_id : UserId)
    (body : MessageBody) : Engine ChatMessage :=
  send_message_command id now channel_id sender_id None body None.
Definition send_message_idempotent (id : MessageId) (now : DateTime) (channel_id : ChannelId)
    (sender_id : UserId) (body : MessageBody) (request_id : str) : Engine ChatMessage :=
  send_message_command id now channel_id sender_id None body (Some request_id).
Definition send_thread_reply_idempotent (id : MessageId) (now : DateTime) (channel_id : ChannelId)
    (sender_id : UserId) (parent_message_id : MessageId) (body : MessageBody) (request_id : str)
    : Engine ChatMessage :=
  send_message_command id now channel_id sender_id (Some parent_message_id) body (Some request_id).
Definition toggle_reaction (actor : UserId) (message_id : MessageId) (emoji : str)
    : Engine MessageReactionChange :=
  let emoji := trim emoji in
  ensure (is_reaction_emoji emoji) (Validation InvalidReaction) ;;;
  ask (CToggleReaction actor message_id emoji) reaction_reply.
Definition edit_message (now : DateTime) (actor : UserId) (message_id : MessageId) (body : MessageBody)
    : Engine ChatMessage := ask (CEditMessage now actor message_id body) message_reply.
Definition delete_message (now : DateTime) (actor : UserId) (message_id : MessageId)
    : Engine ChatMessage := ask (CDeleteMessage now actor message_id) message_reply.
(** The periodic sweep of presence leases. *)
Definition sweep : Engine unit := post CExpirePresence.
End methods.
End Engine.
