(* ===== verification/EngineReach.v ===== *)
(** * EngineReach: the engine refines the repository and the actor

    [perform] runs the engine's method for an operation of the repository. Every
    state of the engine is reached by such calls, subscriptions, departures, sweeps
    and the actor's turns; in each of them the repository is in a reachable state
    of the repository and the actor in a reachable state of the actor. [perform_exact]
    gives every method in one equation. The repository is the in-memory one, which the
    program compiles for its tests; the SQL repositories implement the same trait. *)

From Stdlib Require Import ZifyBool.
From stdpp Require Import base tactics numbers strings countable sorting gmap list.
From S2P Require Import Prelude RustStr Text Ids Models Policy RepoState RepoMessages RepoChannels RepoCircles RepoUsers RepoWf WfMessages WfChannels WfCircles WfUsers RepoReach RepoHistory ChatActor ActorLaws ActorInvariant ChatEngine.

(** ** Calls *)

Definition discard {A} (m : Engine A) : Engine unit := λ e,
  let '(r, e') := m e in (res_map (λ _, tt) r, e').

Section reach.
Context `{Unicode, UuidLib, CryptoLib, EngineLib}.

(** The method for an operation, with the operation's arguments as the input. *)
Definition perform (op : Op) : Engine unit :=
  match op with
  | AppendMessage id now (mk_SendMessage actor c parent body) =>
      discard (Engine.send_message_command id now c actor parent body None)
  | AppendMessageIdempotent id now (mk_SendMessage actor c None body) rid =>
      discard (Engine.send_message_idempotent id now c actor body rid)
  | AppendMessageIdempotent id now (mk_SendMessage actor c (Some parent) body) rid =>
      discard (Engine.send_thread_reply_idempotent id now c actor parent body rid)
  | EditMessageOp now (mk_EditMessage actor id body) => discard (Engine.edit_message now actor id body)
  | DeleteMessageOp now (mk_DeleteMessage actor id) => discard (Engine.delete_message now actor id)
  | MarkReadOp (mk_MarkRead actor c seq) => discard (Engine.mark_read actor c seq)
  | MarkThreadRead actor root seq => discard (Engine.mark_thread_read actor root seq)
  | ToggleMessageReaction actor id emoji => discard (Engine.toggle_reaction actor id emoji)
  | OpenPersonalSpace fresh owner => discard (Engine.open_personal_space fresh owner)
  | SavePersonalNote owner note => discard (Engine.save_personal_note owner note)
  | SavePersonalLink fresh_channel fresh now owner source =>
      discard (Engine.save_personal_link fresh_channel fresh now owner source)
  | OpenDirectChannel fresh slug actor other => discard (Engine.open_direct_channel fresh slug actor other)
  | ExpandDirectChannel fresh slug actor source other =>
      discard (Engine.expand_direct_channel fresh slug actor source other)
  | CreateChannelOp fresh (mk_CreateChannel actor slug name kind circle) =>
      discard (Engine.create_channel fresh actor slug name kind circle)
  | JoinChannelOp (mk_JoinChannel actor channel) => discard (Engine.join_channel actor channel)
  | AddChannelMemberOp (mk_AddChannelMember actor c u) => discard (Engine.add_channel_member actor c u)
  | LeaveChannelOp (mk_LeaveChannel actor c) => Engine.leave_channel actor c
  | UpdateChannelDescriptionOp (mk_UpdateChannelDescription actor c description) =>
      discard (Engine.update_channel_description actor c description)
  | CreateCircleOp fresh now (mk_CreateCircle actor slug name) =>
      discard (Engine.create_circle fresh now actor slug name)
  | SetCircleMemberRoleOp cmd => discard (Engine.set_circle_member_role cmd)
  | RenameCircleOp (mk_RenameCircle actor c name) => discard (Engine.rename_circle actor c name)
  | DeleteCircleOp (mk_DeleteCircle actor c) => Engine.delete_circle actor c
  | LeaveCircleOp (mk_LeaveCircle actor c) => Engine.leave_circle actor c
  | SetCircleFavorite actor circle favorite => Engine.set_circle_favorite actor circle favorite
  | CreateCircleInvitationOp secret fresh now (mk_CreateCircleInvitation actor c) =>
      discard (Engine.create_circle_invitation secret fresh now actor c)
  | AcceptCircleInvitationOp now joined (mk_AcceptCircleInvitation actor token) =>
      discard (Engine.accept_circle_invitation now joined actor token)
  | PrepareEnrollment secret fresh (mk_PrepareEnrollmentInvitation actor c email expires) =>
      discard (Engine.prepare_enrollment_invitation secret fresh actor c email expires)
  | ActivateEnrollment now (mk_ActivateEnrollmentInvitation token external) =>
      discard (Engine.activate_enrollment_invitation now token external)
  | AcceptEnrollment now joined (mk_AcceptEnrollmentInvitation actor email token) =>
      discard (Engine.accept_enrollment_invitation now joined actor email token)
  | UpsertUser user => Engine.ensure_user user
  | UpdateProfile actor name => discard (Engine.update_profile actor (DisplayName_as_str name))
  | SetUserStatus now actor text emoji expires =>
      discard (Engine.set_status now actor text emoji expires)
  | RemoveSavedStatus actor text emoji => Engine.remove_saved_status actor text emoji
  | SaveEmoji actor emoji saved => Engine.save_emoji actor emoji saved
  | StoreMedia fresh now upload _ => discard (Engine.store_media fresh now upload)
  end.

(** ** What the repository may hold *)

Definition emoji_valid (e : str) : Prop := trim e = e ∧ Engine.is_reaction_emoji e = true.
Definition status_valid (text emoji : str) : Prop :=
  trim text = text ∧ trim emoji = emoji ∧ status_ok text emoji = true.
(** Reactions, saved emojis and statuses have passed the engine's validation. *)
Record validated (st : RepositoryState) : Prop := {
  valid_reactions id u e : (id, u, e) ∈ message_reactions st → emoji_valid e;
  valid_emojis u l e : saved_emojis st !! u = Some l → e ∈ l → emoji_valid e;
  valid_status u text emoji x :
    user_statuses st !! u = Some (text, emoji, x) → status_valid text emoji;
  valid_saved u l s :
    saved_statuses st !! u = Some l → s ∈ l → status_valid (SavedStatus_text s) (SavedStatus_emoji s) }.

(** The operation that reaches the repository, if the input passes. *)
Definition sanitized (op : Op) : option Op :=
  match op with
  | ToggleMessageReaction actor id emoji =>
      if Engine.is_reaction_emoji (trim emoji)
      then Some (ToggleMessageReaction actor id (trim emoji)) else None
  | SaveEmoji actor emoji saved =>
      if Engine.is_reaction_emoji (trim emoji) then Some (SaveEmoji actor (trim emoji) saved) else None
  | SetUserStatus now actor text emoji expires =>
      if status_ok (trim text) (trim emoji)
      then Some (SetUserStatus now actor (trim text) (trim emoji) expires) else None
  | RemoveSavedStatus actor text emoji =>
      if status_ok (trim text) (trim emoji)
         && negb (bool_decide (trim text = []) && bool_decide (trim emoji = []))
      then Some (RemoveSavedStatus actor (trim text) (trim emoji)) else None
  | UpdateProfile actor name =>
      match DisplayName_new (DisplayName_as_str name) with
      | Ok name => Some (UpdateProfile actor name) | _ => None
      end
  | StoreMedia fresh now upload _ => Some (StoreMedia fresh now upload (sha256_hex (MediaUpload_content upload)))
  | _ => Some op
  end.
Definition op_valid (op : Op) : Prop :=
  match op with
  | ToggleMessageReaction _ _ emoji | SaveEmoji _ emoji _ => emoji_valid emoji
  | SetUserStatus _ _ text emoji _ => status_valid text emoji
  | _ => True
  end.
Lemma sanitized_valid op op' : sanitized op = Some op' → op_valid op'.
Proof.
  destruct op; simpl; intros Hs; simplify_eq; try done; repeat case_match; simplify_eq; try done.
  - split; [apply trim_idemp|done].
  - split_and!; [apply trim_idemp..|done].
  - split; [apply trim_idemp|done].
Qed.
Lemma sanitized_fresh op op' st : sanitized op = Some op' → fresh_op st op' = fresh_op st op.
Proof. destruct op; simpl; intros Hs; simplify_eq; try done; by repeat case_match; simplify_eq. Qed.

Lemma validated_default : validated RepositoryState_default.
Proof. split; simpl; intros *; [set_solver|by rewrite lookup_empty..]. Qed.
(** The tables [validated] speaks of. *)
Definition same_inputs (st st' : RepositoryState) : Prop :=
  message_reactions st' ⊆ message_reactions st ∧ saved_emojis st' = saved_emojis st
  ∧ user_statuses st' = user_statuses st ∧ saved_statuses st' = saved_statuses st.
Lemma validated_same st st' : validated st → same_inputs st st' → validated st'.
Proof.
  intros [] (Hr&He&Hu&Hs). split; rewrite ?He, ?Hu, ?Hs; try done. set_solver.
Qed.
Definition sets_inputs (op : Op) : bool :=
  match op with
  | ToggleMessageReaction _ _ _ | SetUserStatus _ _ _ _ _ | RemoveSavedStatus _ _ _ | SaveEmoji _ _ _ => true
  | _ => false
  end.
Lemma remove_channels_inputs ids st : same_inputs st (remove_channels ids st).
Proof.
  unfold remove_channels. revert st. induction ids as [|c ids IH]; intros st; simpl; [done|].
  destruct (IH (remove_channel c st)) as (Hr&He&Hu&Hs). unfold same_inputs. rewrite He, Hu, Hs.
  unfold remove_channel in *. by destruct (channels st !! c).
Qed.
Lemma outcome_inputs op st :
  wf st → fresh_op st op = true → sets_inputs op = false → same_inputs st (outcome op st).2.
Proof.
  intros Hwf Hf Hq.
  destruct op; try discriminate Hq; clear Hq; unfold outcome; rewrite ?void_run;
    match goal with |- same_inputs _ ?p.2 => destruct p as [r st'] eqn:E; simpl end.
  all: try (op_paths E; by split_and!).
  all: simpl in Hf; op_cases E.
  all: split_cases E; subst; try by split_and!.
  - split_and!; try done. simpl. set_solver.
  - bool_facts. apply save_personal_link_cases in E; [|done|by apply unused_channel_fresh].
    assert (∀ ch st1, open_personal_space fresh_channel owner st = (Ok ch, st1) →
              same_inputs st st1) as Hrs.
    { intros ch st1 Eo. apply open_personal_space_cases in Eo; [|done]. split_cases Eo; by subst. }
    split_cases E; subst; try done;
      match goal with Eo : open_personal_space _ _ _ = _ |- _ => by apply Hrs in Eo end.
  - lazymatch goal with |- same_inputs _ (drop_circle _ _ (remove_channels ?ids ?s)) =>
      exact (remove_channels_inputs ids s) end.
  - destruct (EnrollmentInvitation_circle_id _); destruct E as [_ ->]; by split_and!.
  - unfold stored_user. destruct (general_channel _); split_and!; by repeat case_match.
Qed.
Lemma record_status_Forall (P : str → str → Prop) now text emoji l :
  P text emoji → Forall (λ s, P (SavedStatus_text s) (SavedStatus_emoji s)) l →
  Forall (λ s, P (SavedStatus_text s) (SavedStatus_emoji s)) (record_status now text emoji l).
Proof.
  intros HP Hl. unfold record_status, sort_saved_statuses, sort_by. apply Forall_take.
  rewrite (merge_sort_Permutation _ _). destruct (any _ l).
  - induction Hl as [|s l Hs Hl IH]; simpl; [done|]. by destruct (same_status text emoji s); constructor.
  - apply Forall_app. by split; [|apply Forall_singleton].
Qed.
Lemma outcome_validated op st :
  wf st → fresh_op st op = true → op_valid op → validated st → validated (outcome op st).2.
Proof.
  intros Hwf Hf Hop Hv. destruct (sets_inputs op) eqn:Hq.
  2:{ eapply validated_same; [done|]. by apply outcome_inputs. }
  destruct op; try discriminate Hq; clear Hq Hf; unfold outcome; rewrite ?void_run;
    match goal with |- validated ?p.2 => destruct p as [r st'] eqn:E; simpl end.
  - apply toggle_cases in E. split_cases E; subst; [done|].
    destruct Hv as [Hr He Hu Hs]. split; simpl; [|done..].
    intros id u e Hin. case_decide; [apply elem_of_difference in Hin as [Hin _]; by eapply Hr|].
    apply elem_of_union in Hin as [[= -> -> ->]%elem_of_singleton|Hin]; [done|by eapply Hr].
  - op_paths E; try done.
    all: destruct Hv as [Hr He Hu Hs]; split; simpl; [done|done| |].
    all: try (intros v t e x [[<- [= -> -> ->]]|[_ Hx]]%lookup_insert_Some; [done|by eapply Hu]).
    all: try done.
    all: intros v l s [[<- <-]|[_ Hl]]%lookup_insert_Some Hin; [|by eapply Hs].
    all: revert s Hin; apply Forall_forall, record_status_Forall; [done|].
    all: apply Forall_forall; intros s Hin.
    all: destruct (saved_statuses st !! actor) eqn:Es; simpl in Hin; [by eapply Hs|by apply elem_of_nil in Hin].
  - op_paths E; try done. destruct Hv as [Hr He Hu Hs]. split; simpl; [done..|].
    intros v l s [(_&l0&Hl&->)|[_ Hl]]%lookup_alter_Some Hin; [|by eapply Hs].
    apply list_elem_of_In, filter_In in Hin as [Hin%list_elem_of_In _]. by eapply Hs.
  - destruct Hv as [Hr He Hu Hs].
    assert (∀ m, (∀ v l e, m !! v = Some l → e ∈ l → emoji_valid e) →
      validated (st <| saved_emojis := m |>)) as Hins by (intros m Hm; by split).
    assert (∀ e, e ∈ default [] (saved_emojis st !! actor) → emoji_valid e) as Hold.
    { intros e Hin. destruct (saved_emojis st !! actor) eqn:Es; [by eapply He|by apply elem_of_nil in Hin]. }
    assert (∀ v l e, or_insert actor [] (saved_emojis st) !! v = Some l → e ∈ l → emoji_valid e) as Hor.
    { intros v l e [Hl|(_&->&_)]%lookup_or_insert_Some Hin; [by eapply He|by apply elem_of_nil in Hin]. }
    op_paths E; try done; apply Hins; simpl; try done.
    + intros v l e [[<- <-]|[_ Hl]]%lookup_insert_Some Hin; [|by eapply Hor].
      apply elem_of_app in Hin as [Hin| ->%list_elem_of_singleton]; auto.
    + intros v l e [[<- <-]|[_ Hl]]%lookup_insert_Some Hin; [|by eapply Hor].
      apply list_elem_of_In, filter_In in Hin as [Hin%list_elem_of_In _]. auto.
Qed.

(** ** Nothing is lost but deleted channels *)

Context (deleted : ChannelId → Prop).

Lemma remove_channels_messages ids st c :
  c ∉ ids → messages (remove_channels ids st) !! c = messages st !! c.
Proof.
  unfold remove_channels. revert st. induction ids as [|x ids IH]; intros st Hc; simpl; [done|].
  rewrite IH by set_solver. unfold remove_channel. destruct (channels st !! x); simpl;
    (rewrite lookup_delete_ne; [done|set_solver]).
Qed.
(** What a caller guarantees of a call: generated identifiers were never used, and
    the channels of a circle that is deleted are among the deleted ones. *)
Definition allowed (a : ChatActor RepositoryState) (op : Op) : Prop :=
  fresh_op (repository a) op = true ∧
  match op with
  | AppendMessage id _ _ | AppendMessageIdempotent id _ _ _ => id ∉ published_messages a
  | DeleteCircleOp cmd =>
      ∀ c, c ∈ circle_channel_ids (repository a) (DeleteCircle_circle_id cmd) → deleted c
  | _ => True
  end.

Lemma outcome_moved a op :
  wf (repository a) → allowed a op → moved deleted (repository a) (outcome op (repository a)).2.
Proof.
  intros Hwf [Hf Hop]. assert (wf (outcome op (repository a)).2) as Hwf' by by apply outcome_wf.
  split; [done|]. intros x c (i&m&Hl&Hid)%stored_in_Some; [|done].
  destruct (keeps_history op) eqn:Hk.
  - left. destruct (outcome_history op _ Hwf Hf Hk) as [Hext _].
    destruct (Hext _ _ _ Hl) as (m'&Hl'&(Hid'&_)&_). apply stored_in_Some; [done|].
    exists i, m'. by rewrite Hid'.
  - destruct op as [| | | | | | | | | | | | | | | | | | | |cmd| | | | | | | | | | | | |]; try discriminate Hk.
    unfold outcome in *. destruct (delete_circle cmd (repository a)) as [r st'] eqn:E. simpl in *.
    apply delete_circle_cases in E as [(e&->&->)|(ci&_&_&_&Hst')]; [left; apply stored_in_Some; eauto|].
    destruct (decide (c ∈ circle_channel_ids (repository a) (DeleteCircle_circle_id cmd))) as [Hin|Hout];
      [right; auto|]. left. apply stored_in_Some; [done|]. exists i, m. split; [|done].
    rewrite Hst'. unfold logged. simpl. by rewrite remove_channels_messages.
Qed.

(** ** The repository under the actor's commands *)

Definition cmd_op (cmd : Command) : option Op :=
  match cmd with
  | CSendMessage id now c u parent body None =>
      Some (AppendMessage id now (mk_SendMessage u c parent body))
  | CSendMessage id now c u parent body (Some rid) =>
      Some (AppendMessageIdempotent id now (mk_SendMessage u c parent body) rid)
  | CToggleReaction actor id emoji => Some (ToggleMessageReaction actor id emoji)
  | CEditMessage now actor id body => Some (EditMessageOp now (mk_EditMessage actor id body))
  | CDeleteMessage now actor id => Some (DeleteMessageOp now (mk_DeleteMessage actor id))
  | _ => None
  end.
Lemma load_recent_reads q st r st' : load_recent_messages q st = (r, st') → st' = st.
Proof. intros Hrun. unfold load_recent_messages in Hrun. by run_st Hrun. Qed.
Lemma load_message_reads id st r st' : load_message id st = (r, st') → st' = st.
Proof. intros Hrun. unfold load_message, st_bind, get, st_lift in Hrun. by simplify_eq. Qed.
Lemma handle_repository cmd a :
  repository (handle cmd a).2
  = match cmd_op cmd with Some op => (outcome op (repository a)).2 | None => repository a end.
Proof.
  destruct (handle cmd a) as [reply a'] eqn:Hrun. simpl. destruct cmd; simpl in Hrun;
    unfold reply_with, subscribe, leave, send_message, toggle_reaction, edit, delete_msg,
      publish_presence, on_err, ignore_err in Hrun; rewrite ?publish_message_run in Hrun;
    unfold publish_to, call in Hrun; run_st Hrun; rewrite ?publish_message_run in *; simplify_eq/=.
  all: repeat match goal with
    | E : load_recent_messages _ _ = (_, _) |- _ => apply load_recent_reads in E
    | E : load_message _ _ = (_, _) |- _ => apply load_message_reads in E
    end; subst; try done.
  all: unfold void, st_ret, drop_connection in *; repeat case_match; by simplify_eq/=.
Qed.

(** ** The actor does not panic *)

Lemma send_message_no_panic id now c u parent body rid a :
  wf (repository a) → unused_message (repository a) id = true →
  (send_message id now c u parent body rid a).1 ≠ Panic.
Proof.
  intros Hwf Hf%unused_message_fresh Hp. unfold send_message, st_bind, call in Hp. simpl in Hp.
  destruct rid as [rid|].
  - destruct (append_message_idempotent _ _ _ _ _) as [r1 s1] eqn:E in Hp.
    apply append_message_idempotent_cases in E; [|done].
    split_cases E; subst; simpl in Hp; rewrite ?publish_message_run in Hp; done.
  - destruct (append_message _ _ _ _) as [r1 s1] eqn:E in Hp. apply append_message_cases in E; [|done].
    split_cases E; subst; simpl in Hp; rewrite ?publish_message_run in Hp; done.
Qed.
Lemma subscribe_no_panic conn c u a : wf (repository a) → (subscribe conn c u a).1 ≠ Panic.
Proof.
  intros Hwf Hp. unfold subscribe in Hp. unfold st_bind at 1 in Hp. unfold call in Hp. simpl in Hp.
  rewrite load_recent_page in Hp by done. case_decide; [|done]. unfold page in Hp. simpl in Hp.
  unfold st_bind, on_err, publish_to, modify, st_ret, get, put in Hp. simpl in Hp.
  by repeat case_match.
Qed.
Lemma leave_no_panic c u conn (a : ChatActor RepositoryState) : (leave c u conn a).1 ≠ Panic.
Proof.
  unfold leave, st_bind, get, put, ignore_err, publish_to, modify, st_ret. simpl.
  by repeat case_match; simplify_eq/=.
Qed.
Lemma announce_no_panic {A} (m : Repo A) (chan : A → ChannelId) (ev : A → ChatEvent) a :
  (∀ r st', m (repository a) = (r, st') → r ≠ Panic) →
  ((let! x := call m in publish_to (chan x) (ev x) ;;; st_ret x) a).1 ≠ Panic.
Proof.
  intros Hm Hp. unfold st_bind, call in Hp. destruct (m (repository a)) as [[x|e|] st'] eqn:E; try done.
  by eapply Hm.
Qed.
Lemma handle_no_panic cmd a :
  wf (repository a) → (∀ op, cmd_op cmd = Some op → fresh_op (repository a) op = true) →
  panicked (handle cmd a).1 = false.
Proof.
  intros Hwf Hf. destruct cmd; simpl; unfold reply_with; try done.
  - assert (Hp := subscribe_no_panic connection_id channel_id participant_id a Hwf).
    destruct (subscribe _ _ _ a) as [[]?]; done.
  - assert (Hp := leave_no_panic channel_id participant_id connection_id a).
    destruct (leave _ _ _ a) as [[]?]; done.
  - assert (unused_message (repository a) id = true) by (destruct request_id; exact (Hf _ eq_refl)).
    assert (Hp := send_message_no_panic id now channel_id sender_id parent_message_id body request_id a).
    destruct (send_message _ _ _ _ _ _ _ a) as [[]?]; [done|done|by destruct Hp].
  - assert ((toggle_reaction actor message_id emoji a).1 ≠ Panic) as Hp.
    { apply announce_no_panic. intros r st' E. apply toggle_cases in E. by split_cases E; subst. }
    destruct (toggle_reaction _ _ _ a) as [[]?]; done.
  - assert ((edit now actor message_id body a).1 ≠ Panic) as Hp.
    { apply announce_no_panic. intros r st' E. apply edit_message_cases in E. by split_cases E; subst. }
    destruct (edit _ _ _ _ a) as [[]?]; done.
  - assert ((delete_msg now actor message_id a).1 ≠ Panic) as Hp.
    { apply announce_no_panic. intros r st' E. apply delete_message_cases in E. by split_cases E; subst. }
    destruct (delete_msg _ _ _ a) as [[]?]; done.
  - unfold st_bind, call. simpl. unfold load_message, st_bind, get, st_lift.
    destruct (find_message _ _) as [m|]; simpl; [|done]. by rewrite publish_message_run.
  - by destruct event.
  - by destruct event.
  - by destruct event as [? ? []| | | | | | |].
  - by destruct event.
Qed.

(** ** The invariant of the engine *)

Definition actor_fine (a : ChatActor RepositoryState) : Prop :=
  reachable (repository a) ∧ validated (repository a) ∧ sys_reachable deleted false a.
(** The commands that are posted without waiting. *)
Definition posted (cmd : Command) : Prop :=
  match cmd with CChannelCreated _ _ _ | CExternalMessage _ | CExpirePresence => True | _ => False end.
Definition engine_ok (e : ChatEngine) : Prop := Forall posted (mailbox e) ∧ actor_fine (engine_actor e).
(** The actor once it has handled its mailbox. *)
Definition drained (e : ChatEngine) : ChatActor RepositoryState := (handle_all (mailbox e) (engine_actor e)).2.

Lemma sys_reachable_step a a' :
  sys_reachable deleted false a → sys_step deleted a a' → sys_reachable deleted false a'.
Proof. intros (s&Hi&Hr) Hstep. exists s. split; [done|]. by eapply rtc_r. Qed.
Lemma fine_op a op :
  actor_fine a → allowed a op → op_valid op → actor_fine (a <| repository := (outcome op (repository a)).2 |>).
Proof.
  intros (Hr&Hv&Hs) Hal Hop. assert (Hwf := reachable_wf _ Hr). destruct Hal as [Hf Hal'] eqn:E.
  split_and!; simpl.
  - eapply rtc_r; [exact Hr|]. by apply step_op.
  - by apply outcome_validated.
  - eapply sys_reachable_step; [exact Hs|]. by apply step_repository, outcome_moved.
Qed.
Lemma fine_handle a cmd :
  actor_fine a → cmd_ok deleted a cmd →
  (∀ op, cmd_op cmd = Some op → fresh_op (repository a) op = true ∧ op_valid op) →
  actor_fine (handle cmd a).2.
Proof.
  intros (Hr&Hv&Hs) Hcmd Hop. assert (Hwf := reachable_wf _ Hr). unfold actor_fine.
  rewrite handle_repository.
  split_and!; [| |by eapply sys_reachable_step; [|apply step_command]].
  - destruct (cmd_op cmd) as [op|]; [|done]. destruct (Hop op eq_refl).
    eapply rtc_r; [exact Hr|]. by apply step_op.
  - destruct (cmd_op cmd) as [op|]; [|done]. destruct (Hop op eq_refl). by apply outcome_validated.
Qed.
Lemma posted_no_panic cmd a : posted cmd → panicked (handle cmd a).1 = false.
Proof.
  destruct cmd; intros Hc; try done. simpl. unfold reply_with, st_bind, call. simpl.
  unfold load_message, st_bind, get, st_lift. destruct (find_message _ _) as [m|]; simpl; [|done].
  by rewrite publish_message_run.
Qed.
(** The commands posted without waiting never end the task. *)
Lemma handle_all_cons cmd cmds a :
  posted cmd → handle_all (cmd :: cmds) a = handle_all cmds (handle cmd a).2.
Proof. intros Hc. simpl. assert (Hp := posted_no_panic cmd a Hc). destruct (handle cmd a). simpl in *. by rewrite Hp. Qed.
Lemma handle_all_survives cmds a : Forall posted cmds → (handle_all cmds a).1 = true.
Proof. intros Hp. revert a. induction Hp; intros a; [done|]. by rewrite handle_all_cons. Qed.
Lemma posted_fine cmd a : posted cmd → actor_fine a → actor_fine (handle cmd a).2.
Proof. destruct cmd; try done; intros _ Ha; (apply fine_handle; done). Qed.
Lemma handle_all_fine cmds a :
  Forall posted cmds → actor_fine a →
  actor_fine (handle_all cmds a).2 ∧ repository (handle_all cmds a).2 = repository a.
Proof.
  intros Hp. revert a.
  induction Hp as [|cmd cmds Hc _ IH]; intros a Ha; [done|]. rewrite handle_all_cons by done.
  destruct (IH (handle cmd a).2) as [Hf Heq].
  - by apply posted_fine.
  - split; [done|]. rewrite Heq, handle_repository. by destruct cmd.
Qed.
Lemma drained_fine e : engine_ok e → actor_fine (drained e) ∧ repository (drained e) = repository (engine_actor e).
Proof. intros [Hm Ha]. by apply handle_all_fine. Qed.

Lemma ask_run {A} cmd (reply : Reply → Res ChatError A) e :
  Forall posted (mailbox e) → running e = true →
  ask cmd reply e
  = let '(r, a') := handle cmd (drained e) in
    if panicked r then (Err EngineStopped, mk_ChatEngine a' [] false)
    else (reply r, mk_ChatEngine a' [] true).
Proof.
  intros Hm Hr. unfold ask, drained. rewrite Hr. assert (Hs := handle_all_survives _ (engine_actor e) Hm).
  destruct (handle_all _ _) as [b a]. simpl in *. by subst.
Qed.
Lemma deliver_run e cmd rest :
  mailbox e = cmd :: rest → posted cmd →
  deliver e = e <| engine_actor := (handle cmd (engine_actor e)).2 |> <| mailbox := rest |>.
Proof.
  intros Hm Hc. unfold deliver. rewrite Hm. assert (Hp := posted_no_panic cmd (engine_actor e) Hc).
  destruct (handle cmd _). simpl in *. by rewrite Hp.
Qed.
Lemma ask_ok {A} cmd (reply : Reply → Res ChatError A) e :
  engine_ok e → cmd_ok deleted (drained e) cmd →
  (∀ op, cmd_op cmd = Some op → fresh_op (repository (drained e)) op = true ∧ op_valid op) →
  engine_ok (ask cmd reply e).2.
Proof.
  intros Hok Hcmd Hop. destruct (running e) eqn:Er; [|unfold ask; by rewrite Er].
  rewrite ask_run by (done || apply Hok).
  assert (Hf := fine_handle _ _ (proj1 (drained_fine _ Hok)) Hcmd Hop).
  destruct (handle cmd (drained e)) as [r a']. by destruct (panicked r).
Qed.
Lemma post_ok cmd e : engine_ok e → posted cmd → engine_ok (post cmd e).2.
Proof.
  intros [Hm Ha] Hc. unfold post. destruct (running e); [|done]. split; [|done]. simpl.
  apply Forall_app. by split; [|apply Forall_singleton].
Qed.
Lemma repo_run {A} (m : Repo A) e :
  (repo m e).2 = e <| engine_actor := (engine_actor e) <| repository := (m (repository (engine_actor e))).2 |> |>.
Proof. unfold repo, call. by destruct (m _). Qed.
Lemma repo_ok {A} (m : Repo A) op e :
  engine_ok e → (∀ st, (m st).2 = (outcome op st).2) → allowed (engine_actor e) op → op_valid op →
  engine_ok (repo m e).2.
Proof. intros [Hm Ha] Heq Hal Hop. rewrite repo_run. split; [done|]. simpl. rewrite Heq. by apply fine_op. Qed.
Lemma discard_run {A} (m : Engine A) e : (discard m e).2 = (m e).2.
Proof. unfold discard. by destruct (m e). Qed.
Lemma ensure_bind_run {A} b err (m : Engine A) e :
  (st_bind (ensure b err) (λ _, m) e).2 = if b then (m e).2 else e.
Proof. by destruct b. Qed.

(** The mailbox does not change what a call on the repository may do. *)
Lemma allowed_drained e op :
  engine_ok e → allowed (drained e) op →
  (match op with AppendMessage _ _ _ | AppendMessageIdempotent _ _ _ _ => False | _ => True end) →
  allowed (engine_actor e) op.
Proof.
  intros Hok [Hf Hop] Hno. destruct (drained_fine _ Hok) as [_ Heq]. unfold allowed.
  rewrite Heq in Hf. split; [done|]. destruct op; try done. by rewrite Heq in Hop.
Qed.
Lemma allowed_sanitized a op op' :
  allowed a op → sanitized op = Some op' →
  (match op with DeleteCircleOp _ | AppendMessage _ _ _ | AppendMessageIdempotent _ _ _ _ => False | _ => True end) →
  allowed a op'.
Proof.
  intros [Hf _] Hs Hno. unfold allowed. rewrite (sanitized_fresh _ _ _ Hs).
  split; [done|]. destruct op; try done; simpl in Hs; repeat case_match; by simplify_eq.
Qed.
Lemma unused_drained e id :
  engine_ok e → unused_message (repository (drained e)) id = true → id ∉ published_messages (drained e) →
  unused_id (drained e) id.
Proof.
  intros Hok Hf Hp. split; [|done]. unfold unused_message in Hf. simpl. unfold stored_in.
  by destruct (find_message _ _).
Qed.
(** A method that sanitizes its input, then calls the repository. *)
Lemma repo_sanitized_ok {A} (m : Repo A) op op' e :
  engine_ok e → allowed (drained e) op → sanitized op = Some op' →
  (match op with DeleteCircleOp _ | AppendMessage _ _ _ | AppendMessageIdempotent _ _ _ _ => False | _ => True end) →
  (∀ st, (m st).2 = (outcome op' st).2) → engine_ok (repo m e).2.
Proof.
  intros Hok Hal Hs Hno Heq. eapply repo_ok; [done|done| |by eapply sanitized_valid].
  eapply allowed_sanitized; [|done|done]. apply allowed_drained; [done|done|]. by destruct op.
Qed.
(** A method that calls the repository, then posts or returns. *)
Lemma repo_bind_ok {A B} (m : Repo A) (k : A → Engine B) e :
  engine_ok (repo m e).2 → (∀ x e', engine_ok e' → engine_ok (k x e').2) →
  engine_ok (st_bind (repo m) k e).2.
Proof.
  intros Hr Hk. unfold st_bind. destruct (repo m e) as [[x|err|] e']; simpl in *; auto.
Qed.
Ltac repo_plain Hal :=
  eapply repo_ok; [done| |eapply allowed_drained; [done|exact Hal|done]|done]; intros st;
  unfold outcome; rewrite ?void_run.
Lemma perform_ok op e : engine_ok e → allowed (drained e) op → engine_ok (perform op e).2.
Proof.
  intros Hok Hal. destruct op; simpl;
    repeat match goal with |- context [match ?x with _ => _ end] => destruct x end;
    rewrite ?discard_run;
    try (unfold Engine.send_message_command, Engine.send_message_idempotent, Engine.send_thread_reply_idempotent;
         destruct Hal as [Hf Hp]; apply ask_ok; [done|by apply unused_drained|by intros op [= <-]]);
    try (destruct Hal as [Hf Hp]; apply ask_ok; [done|done|by intros op [= <-]]);
    try by repo_plain Hal.
  - unfold Engine.toggle_reaction. rewrite ensure_bind_run. case_match eqn:Ev; [|done].
    destruct Hal as [Hf _]. apply ask_ok; [done|done|]. intros op [= <-].
    split; [done|]. eapply (sanitized_valid (ToggleMessageReaction actor id emoji)). simpl. by rewrite Ev.
  - apply repo_bind_ok.
    + by repo_plain Hal.
    + intros [id|] e' Hok'; [|done]. unfold st_bind.
      assert (Hp := post_ok (CExternalMessage id) e' Hok' I). unfold Engine.announce_persisted_message.
      by destruct (post _ e') as [[]?].
  - apply repo_bind_ok.
    + by repo_plain Hal.
    + intros ch e' Hok'. unfold st_bind, ignore_err.
      assert (Hp := post_ok (CChannelCreated source (Channel_id ch) (Channel_created_by ch)) e' Hok' I).
      by destruct (post _ e') as [[]?].
  - apply repo_bind_ok; [|done].
    by repo_plain Hal.
  - unfold Engine.update_profile. simpl. destruct (DisplayName_new _) as [name'| |] eqn:En; [|done..].
    simpl. eapply repo_sanitized_ok; [done|exact Hal|simpl; by rewrite En|done|].
    intros st. unfold outcome. by rewrite void_run.
  - unfold Engine.set_status. rewrite ensure_bind_run. case_match eqn:Ev; [|done].
    eapply repo_sanitized_ok; [done|exact Hal|simpl; by rewrite Ev|done|].
    intros st. unfold outcome. by rewrite void_run.
  - unfold Engine.remove_saved_status. rewrite ensure_bind_run.
    destruct (status_ok _ _) eqn:Ev; [|done]. rewrite ?ensure_bind_run. case_match eqn:Ev2; [|done].
    eapply repo_sanitized_ok; [done|exact Hal|simpl; by rewrite Ev, Ev2|done|done].
  - unfold Engine.save_emoji. rewrite ensure_bind_run. case_match eqn:Ev; [|done].
    eapply repo_sanitized_ok; [done|exact Hal|simpl; by rewrite Ev|done|done].
  - eapply repo_sanitized_ok; [done|exact Hal|done|done|]. intros st. unfold outcome. by rewrite void_run.
Qed.

(** ** The engine as a state machine *)

Inductive engine_step : ChatEngine → ChatEngine → Prop :=
  | estep_perform e op : allowed (drained e) op → engine_step e (perform op e).2
  | estep_subscribe e conn c u : engine_step e (Engine.subscribe conn c u e).2
  | estep_leave e c u conn : engine_step e (Engine.leave c u conn e).2
  | estep_sweep e : engine_step e (Engine.sweep e).2
  | estep_deliver e : engine_step e (deliver e).
Definition engine_reachable (e : ChatEngine) : Prop :=
  rtc engine_step (ChatEngine_start RepositoryState_default) e.

(** The actor is alive as long as no reply is a panic. *)
Lemma ask_running {A} cmd (reply : Reply → Res ChatError A) e :
  engine_ok e → (∀ op, cmd_op cmd = Some op → fresh_op (repository (drained e)) op = true) →
  running (ask cmd reply e).2 = running e.
Proof.
  intros Hok Hop. destruct (running e) eqn:Er; [|unfold ask; by rewrite Er].
  rewrite ask_run by (done || apply Hok).
  assert (Hp := handle_no_panic cmd (drained e) (reachable_wf _ (proj1 (proj1 (drained_fine _ Hok)))) Hop).
  destruct (handle cmd (drained e)) as [r a']. simpl in Hp. by rewrite Hp.
Qed.
Lemma repo_running {A} (m : Repo A) e : running (repo m e).2 = running e.
Proof. by rewrite repo_run. Qed.
Lemma post_running cmd e : running (post cmd e).2 = running e.
Proof. unfold post. by destruct (running e) eqn:E. Qed.
Lemma repo_bind_running {A B} (m : Repo A) (k : A → Engine B) e :
  (∀ x e', running (k x e').2 = running e') → running (st_bind (repo m) k e).2 = running e.
Proof.
  intros Hk. rewrite <-(repo_running m e). unfold st_bind.
  destruct (repo m e) as [[x|err|] e']; simpl; auto.
Qed.
Lemma perform_running op e : engine_ok e → allowed (drained e) op → running (perform op e).2 = running e.
Proof.
  intros Hok [Hf _]. destruct op; simpl;
    repeat match goal with |- context [match ?x with _ => _ end] => destruct x end;
    rewrite ?discard_run; try apply repo_running;
    try (apply ask_running; [done|by intros op [= <-]]).
  - unfold Engine.toggle_reaction. rewrite ensure_bind_run. case_match; [|done].
    apply ask_running; [done|by intros op [= <-]].
  - apply repo_bind_running. intros [id|] e'; [|done]. unfold st_bind, Engine.announce_persisted_message.
    assert (Hp := post_running (CExternalMessage id) e'). by destruct (post _ e') as [[]?].
  - apply repo_bind_running. intros ch e'. unfold st_bind, ignore_err.
    assert (Hp := post_running (CChannelCreated source (Channel_id ch) (Channel_created_by ch)) e').
    by destruct (post _ e') as [[]?].
  - by apply repo_bind_running.
  - unfold Engine.update_profile, st_bind, st_lift. destruct (DisplayName_new _); [|done..]. apply repo_running.
  - unfold Engine.set_status. rewrite ensure_bind_run. case_match; [|done]. apply repo_running.
  - unfold Engine.remove_saved_status. rewrite ensure_bind_run. destruct (status_ok _ _); [|done].
    rewrite ensure_bind_run. case_match; [|done]. apply repo_running.
  - unfold Engine.save_emoji. rewrite ensure_bind_run. case_match; [|done]. apply repo_running.
Qed.
Lemma engine_step_running e e' : engine_ok e → engine_step e e' → running e' = running e.
Proof.
  intros Hok Hstep. destruct Hstep as [e op Hal|e conn c u|e c u conn|e|e].
  - by apply perform_running.
  - by apply ask_running.
  - by apply ask_running.
  - apply post_running.
  - destruct (mailbox e) as [|cmd rest] eqn:E; [unfold deliver; by rewrite E|].
    destruct Hok as [Hm _]. rewrite E in Hm. apply Forall_cons in Hm as [Hc _]. by rewrite (deliver_run _ _ _ E Hc).
Qed.
Lemma engine_step_ok e e' : engine_ok e → engine_step e e' → engine_ok e'.
Proof.
  intros Hok Hstep. destruct Hstep as [e op Hal|e conn c u|e c u conn|e|e].
  - by apply perform_ok.
  - by apply ask_ok.
  - by apply ask_ok.
  - by apply post_ok.
  - destruct Hok as [Hm Ha]. destruct (mailbox e) as [|cmd rest] eqn:E; [unfold deliver; rewrite E; by split; rewrite ?E|].
    apply Forall_cons in Hm as [Hc Hm]. rewrite (deliver_run _ _ _ E Hc). split; [done|]. simpl.
    by apply posted_fine.
Qed.
Lemma engine_start_ok : engine_ok (ChatEngine_start RepositoryState_default).
Proof.
  split; [by constructor|]. split_and!; simpl; [constructor|apply validated_default|].
  exists RepositoryState_default. split; [apply default_wf|constructor].
Qed.
Lemma engine_reachable_ok e : engine_reachable e → engine_ok e.
Proof. unfold engine_reachable. generalize engine_start_ok. induction 2; eauto using engine_step_ok. Qed.
Lemma engine_steps_running e e' : engine_ok e → rtc engine_step e e' → running e' = running e.
Proof.
  intros Hok Hr. induction Hr as [|e1 e2 e3 Hstep _ IH]; [done|].
  rewrite IH by by eapply engine_step_ok. by apply engine_step_running.
Qed.

(** ** What a method does *)

(** The command of an operation that goes through the actor. *)
Definition op_command (op : Op) : option Command :=
  match op with
  | AppendMessage id now (mk_SendMessage u c parent body) =>
      Some (CSendMessage id now c u parent body None)
  | AppendMessageIdempotent id now (mk_SendMessage u c parent body) rid =>
      Some (CSendMessage id now c u parent body (Some rid))
  | ToggleMessageReaction actor id emoji => Some (CToggleReaction actor id emoji)
  | EditMessageOp now (mk_EditMessage actor id body) => Some (CEditMessage now actor id body)
  | DeleteMessageOp now (mk_DeleteMessage actor id) => Some (CDeleteMessage now actor id)
  | _ => None
  end.
(** What a method posts behind the mailbox once the repository has answered. *)
Definition posts (op : Op) (st : RepositoryState) : list Command :=
  match op with
  | ExpandDirectChannel fresh slug actor source other =>
      match (expand_direct_channel fresh slug actor source other st).1 with
      | Ok channel => [CChannelCreated source (Channel_id channel) (Channel_created_by channel)]
      | _ => []
      end
  | SavePersonalLink fresh_channel fresh now owner source =>
      match (save_personal_link fresh_channel fresh now owner source st).1 with
      | Ok (Some message_id) => [CExternalMessage message_id]
      | _ => []
      end
  | _ => []
  end.
(** The engine after a method that goes to the repository, and after one that goes
    through the actor. *)
Definition stored_engine (op : Op) (e : ChatEngine) : ChatEngine :=
  let st := repository (engine_actor e) in
  mk_ChatEngine ((engine_actor e) <| repository := (outcome op st).2 |>) (mailbox e ++ posts op st) (running e).
Definition asked_engine (cmd : Command) (e : ChatEngine) : ChatEngine :=
  mk_ChatEngine (handle cmd (drained e)).2 [] true.
Definition answer (op : Op) (e : ChatEngine) : Res ChatError unit :=
  map_err Repository (outcome op (repository (engine_actor e))).1.

Lemma repo_void {A} (m : Repo A) op e :
  (∀ st, outcome op st = void m st) → posts op (repository (engine_actor e)) = [] →
  discard (repo m) e = (answer op e, stored_engine op e).
Proof.
  intros Ho Hp. unfold answer, stored_engine. rewrite Ho, Hp, app_nil_r. unfold discard, repo, call, void, st_bind.
  destruct (m _) as [[] st']; by destruct e.
Qed.
Lemma repo_plain (m : Repo unit) op e :
  (∀ st, outcome op st = m st) → posts op (repository (engine_actor e)) = [] →
  repo m e = (answer op e, stored_engine op e).
Proof.
  intros Ho Hp. unfold answer, stored_engine. rewrite Ho, Hp, app_nil_r. unfold repo, call.
  destruct (m _) as [[] st']; by destruct e.
Qed.
(** The reply of the actor is the repository's answer. *)
Definition reply_outcome (r : Reply) : Res ChatError unit :=
  match r with
  | ReplyMessage response => res_map (λ _, tt) response
  | ReplyReaction response => res_map (λ _, tt) response
  | _ => Err EngineStopped
  end.
Lemma announce_answer {A} (m : Repo A) (chan : A → ChannelId) (ev : A → ChatEvent) a :
  res_map (λ _, tt) ((let! x := call m in publish_to (chan x) (ev x) ;;; st_ret x) a).1
  = map_err Repository (void m (repository a)).1.
Proof. unfold st_bind, call, void, st_bind. by destruct (m (repository a)) as [[] st']. Qed.
Lemma send_answer id now c u parent body rid a :
  res_map (λ _, tt) (send_message id now c u parent body rid a).1
  = map_err Repository (match rid with
      | Some rid => void (append_message_idempotent id now (mk_SendMessage u c parent body) rid)
      | None => void (append_message id now (mk_SendMessage u c parent body))
      end (repository a)).1.
Proof.
  unfold send_message, st_bind, call, void, st_bind. simpl. destruct rid as [rid|].
  - destruct (append_message_idempotent _ _ _ _ _) as [[] st']; simpl; by rewrite ?publish_message_run.
  - destruct (append_message _ _ _ _) as [[] st']; simpl; by rewrite ?publish_message_run.
Qed.
Lemma op_command_cmd op cmd : op_command op = Some cmd → cmd_op cmd = Some op.
Proof. intros Hc. destruct op; simpl in Hc; repeat case_match; by simplify_eq. Qed.
Lemma handle_answer op cmd a :
  op_command op = Some cmd → reply_outcome (handle cmd a).1 = map_err Repository (outcome op (repository a)).1.
Proof.
  intros Hc. destruct op; simpl in Hc; repeat case_match; simplify_eq/=; unfold reply_with;
    match goal with |- context [let '(_, _) := ?m in _] => destruct m eqn:E end; simpl;
    apply (f_equal fst) in E; simpl in E; subst.
  - apply (send_answer _ _ _ _ _ _ None).
  - apply (send_answer _ _ _ _ _ _ (Some rid)).
  - apply announce_answer.
  - apply announce_answer.
  - apply announce_answer.
Qed.
Lemma ask_exact {A} op cmd (reply : Reply → Res ChatError A) e :
  engine_ok e → running e = true → fresh_op (repository (drained e)) op = true →
  op_command op = Some cmd →
  res_map (λ _, tt) (reply (handle cmd (drained e)).1) = reply_outcome (handle cmd (drained e)).1 →
  discard (ask cmd reply) e = (answer op e, asked_engine cmd e).
Proof.
  intros Hok Hr Hf Hcmd Hreply. assert (Hop := op_command_cmd _ _ Hcmd). destruct (drained_fine _ Hok) as [Hfine Heq].
  assert (Hp := handle_no_panic cmd (drained e) (reachable_wf _ (proj1 Hfine))).
  assert (Ha := handle_answer op cmd (drained e) Hcmd). unfold answer, asked_engine. rewrite <-Heq, <-Ha.
  unfold discard. rewrite ask_run by (done || apply Hok). destruct (handle cmd (drained e)) as [r a']. simpl in *.
  rewrite Hp by (intros op' ?; by simplify_eq). by rewrite Hreply.
Qed.
Lemma reply_with_reply {A} (wrap : Res ChatError A → Reply) (reply : Reply → Res ChatError A) m
    (a : ChatActor RepositoryState) :
  (∀ r, reply (wrap r) = r) → (∀ r, reply_outcome (wrap r) = res_map (λ _, tt) r) →
  res_map (λ _, tt) (reply (reply_with wrap m a).1) = reply_outcome (reply_with wrap m a).1.
Proof. intros Hr Ho. unfold reply_with. destruct (m a). simpl. by rewrite Hr, Ho. Qed.

(** Every method in one equation: input that does not pass changes nothing; else the
    repository answers the sanitized operation, in the actor's turn or directly. *)
Lemma ensure_bind_exact {A} b err (m : Engine A) e :
  st_bind (ensure b err) (λ _, m) e = if b then m e else (Err err, e).
Proof. by destruct b. Qed.
Lemma discard_ensure {A} b err (m : Engine A) e :
  discard (st_bind (ensure b err) (λ _, m)) e = if b then discard m e else (Err err, e).
Proof. by destruct b. Qed.
Ltac asked := apply ask_exact; [done|done|done|done|]; cbn [handle]; by apply reply_with_reply.
Lemma save_link_exact fresh_channel fresh now owner source e :
  running e = true →
  discard (Engine.save_personal_link fresh_channel fresh now owner source) e
  = (answer (SavePersonalLink fresh_channel fresh now owner source) e,
     stored_engine (SavePersonalLink fresh_channel fresh now owner source) e).
Proof.
  intros Hr. unfold discard, Engine.save_personal_link, Engine.announce_persisted_message, st_bind, repo, call,
    answer, stored_engine, outcome, void, st_bind, post. simpl.
  destruct (save_personal_link _ _ _ _ _ _) as [[[id|]| |] st']; 
    destruct e; simpl in *; subst; by rewrite ?app_nil_r.
Qed.
Lemma expand_exact fresh slug actor source other e :
  running e = true →
  discard (Engine.expand_direct_channel fresh slug actor source other) e
  = (answer (ExpandDirectChannel fresh slug actor source other) e,
     stored_engine (ExpandDirectChannel fresh slug actor source other) e).
Proof.
  intros Hr. unfold discard, Engine.expand_direct_channel, ignore_err, st_bind, repo, call,
    answer, stored_engine, outcome, void, st_bind, post. simpl.
  destruct (expand_direct_channel _ _ _ _ _ _) as [[ch| |] st']; 
    destruct e; simpl in *; subst; by rewrite ?app_nil_r.
Qed.
Lemma perform_exact op e :
  engine_ok e → running e = true → allowed (drained e) op →
  match sanitized op with
  | None => (∃ err, (perform op e).1 = Err (Validation err)) ∧ (perform op e).2 = e
  | Some op' =>
      perform op e = (answer op' e,
        match op_command op' with Some cmd => asked_engine cmd e | None => stored_engine op' e end)
  end.
Proof.
  intros Hok Hr [Hf _].
  destruct op; cbn [sanitized perform op_command];
    repeat match goal with |- context [match ?x with mk_SendMessage _ _ _ _ => _ end] => destruct x as [? ? [] ?]
      | |- context [match ?x with _ => _ end] => is_var x; destruct x end; cbn [op_command];
    try (by apply repo_void); try (by apply repo_plain); try (by apply save_link_exact); try (by apply expand_exact);
    try asked.
  - unfold Engine.toggle_reaction. cbv zeta. rewrite discard_ensure.
    destruct (Engine.is_reaction_emoji _); [asked|by split; [eexists|]].
  - unfold answer, stored_engine, Engine.ensure_user, outcome, void, st_bind, repo, call. simpl.
    destruct (upsert_user user _) as [[] st']; simpl; rewrite app_nil_r; by destruct e.
  - unfold Engine.update_profile. destruct (DisplayName_new _) as [name'|err|] eqn:E.
    + by apply repo_void.
    + by split; [eexists|].
    + unfold DisplayName_new, bounded_non_empty in E. by repeat case_match.
  - unfold Engine.set_status. cbv zeta. rewrite discard_ensure.
    destruct (status_ok _ _); [by apply repo_void|by split; [eexists|]].
  - unfold Engine.remove_saved_status. cbv zeta. rewrite !ensure_bind_exact.
    destruct (status_ok _ _); [|by split; [eexists|]]. simpl.
    destruct (negb _); [by apply repo_plain|by split; [eexists|]].
  - unfold Engine.save_emoji. cbv zeta. rewrite ensure_bind_exact.
    destruct (Engine.is_reaction_emoji _); [by apply repo_plain|by split; [eexists|]].
Qed.
End reach.
