(* ===== verification/EngineProps.v ===== *)
(** * EngineProps: what the engine guarantees

    Theorems about every state the engine over the in-memory repository can reach:
    each method is the repository's operation on validated input, in the actor's turn
    or directly; what is stored was validated; the actor never stops; and the
    announcements the engine posts are delivered. *)

From Stdlib Require Import ZifyBool.
From stdpp Require Import base tactics numbers strings countable sorting gmap list.
From S2P Require Import Prelude RustStr Text Ids Models Policy RepoState RepoMessages RepoChannels RepoCircles RepoUsers RepoWf WfMessages WfChannels WfCircles WfUsers RepoReach RepoHistory RepoDemo ChatActor ActorLaws ActorInvariant ChatEngine EngineReach.

#[local] Existing Instances demo_unicode demo_uuid demo_crypto demo_engine_lib.

(** ** A running engine *)

Definition thumbs_up : str := [128077]%N.
Definition engine_ops : list Op :=
  demo_ops ++ [ToggleMessageReaction bob hello (lit " " ++ thumbs_up)].
Definition demo_engine : ChatEngine :=
  foldl (λ e op, (perform op e).2) (ChatEngine_start RepositoryState_default) engine_ops.
Definition allowedb (a : ChatActor RepositoryState) (op : Op) : bool :=
  fresh_op (repository a) op &&
  match op with
  | AppendMessage id _ _ | AppendMessageIdempotent id _ _ _ => bool_decide (id ∉ published_messages a)
  | DeleteCircleOp _ => false
  | _ => true
  end.
Lemma allowedb_allowed deleted a op : allowedb a op = true → allowed deleted a op.
Proof.
  unfold allowedb, allowed. intros [Hf Hop]%andb_true_iff. split; [done|].
  destruct op; try done; by apply bool_decide_eq_true in Hop.
Qed.
Fixpoint all_allowed (ops : list Op) (e : ChatEngine) : bool :=
  match ops with [] => true | op :: ops => allowedb (drained e) op && all_allowed ops (perform op e).2 end.
Lemma all_allowed_steps deleted ops e :
  all_allowed ops e = true → rtc (engine_step deleted) e (foldl (λ e op, (perform op e).2) e ops).
Proof.
  revert e. induction ops as [|op ops IH]; intros e Hal; simpl in *; [done|].
  apply andb_true_iff in Hal as [Hal Hops]. eapply rtc_l; [by apply estep_perform, allowedb_allowed|auto].
Qed.
Lemma demo_engine_reachable deleted : engine_reachable deleted demo_engine.
Proof. apply all_allowed_steps. vm_compute. reflexivity. Qed.

(** ** Refinement *)


(** What the engine stores was validated: in every state it can reach, each
    reaction and each saved emoji is trimmed, one grapheme cluster of at most 32
    bytes with an emoji character, and each status, current or saved, is trimmed,
    at most 100 characters of text and 16 of emoji, without control characters. *)
Theorem stored_inputs_validated `{Unicode, UuidLib, CryptoLib, EngineLib} deleted (e : ChatEngine) :
  engine_reachable deleted e →
  let st := repository (engine_actor e) in
  (∀ emoji, (∃ id u, (id, u, emoji) ∈ message_reactions st)
            ∨ (∃ u l, RepoState.saved_emojis st !! u = Some l ∧ emoji ∈ l) →
     trim emoji = emoji ∧ (len emoji ≤ 32)%N ∧ length (graphemes emoji) = 1
     ∧ existsb is_emoji_char emoji = true)
  ∧ (∀ text emoji, (∃ u x, user_statuses st !! u = Some (text, emoji, x))
                   ∨ (∃ u l s, RepoState.saved_statuses st !! u = Some l ∧ s ∈ l
                        ∧ SavedStatus_text s = text ∧ SavedStatus_emoji s = emoji) →
     trim text = text ∧ trim emoji = emoji ∧ length text ≤ 100 ∧ length emoji ≤ 16
     ∧ existsb is_control text = false ∧ existsb is_control emoji = false).
Proof.
  intros (_&_&[Hr He Hu Hs]&_)%engine_reachable_ok st. split.
  - intros emoji Hin. assert (emoji_valid emoji) as [Ht Hv] by (destruct Hin as [(?&?&?)|(?&?&?&?)]; eauto).
    unfold Engine.is_reaction_emoji in Hv. rewrite Ht in Hv.
    destruct (_ || _) eqn:Eb in Hv; [done|]. apply orb_false_iff in Eb as [[_ Hl]%orb_false_iff Hg].
    apply negb_false, Nat.eqb_eq in Hg. split_and!; [done|lia|done..].
  - intros text emoji Hin. assert (status_valid text emoji) as (Ht&Hm&Hv).
    { destruct Hin as [(?&?&?)|(?&?&?&?&?&<-&<-)]; eauto. }
    unfold status_ok in Hv. bool_facts. split_and!; [done|done|lia|lia|done..].
Qed.
Lemma stored_inputs_validated_witness :
  trim thumbs_up = thumbs_up ∧ (len thumbs_up ≤ 32)%N ∧ length (graphemes thumbs_up) = 1
  ∧ existsb is_emoji_char thumbs_up = true.
Proof.
  destruct (stored_inputs_validated (λ _, False) demo_engine (demo_engine_reachable _)) as [Hemoji _].
  apply Hemoji. left. exists hello, bob. apply (bool_decide_eq_true_1 _). vm_compute. reflexivity.
Defined.

(** ** The actor *)

(** C39: the actor's task never stops: in every state the engine over the in-memory
    repository can reach, no method, subscription, departure, sweep or turn of the actor
    has ended it, so no caller meets a stopped engine; and there no command whatever (a
    leave, a sweep, a notification of the database as well as a send with a new
    identifier) makes its handler panic, which would end the task with its mailbox. *)
Theorem actor_never_stops `{Unicode, UuidLib, CryptoLib, EngineLib} deleted (e : ChatEngine) :
  engine_reachable deleted e →
  running e = true
  ∧ ∀ cmd, (∀ op, cmd_op cmd = Some op → fresh_op (repository (engine_actor e)) op = true) →
      panicked (handle cmd (engine_actor e)).1 = false.
Proof.
  intros Hr. split; [by rewrite (engine_steps_running _ _ _ (engine_start_ok _) Hr)|].
  intros cmd. apply handle_no_panic, reachable_wf. by destruct (engine_reachable_ok _ _ Hr) as (_&?&_).
Qed.
Lemma actor_never_stops_witness :
  running demo_engine = true ∧ panicked (handle (CLeave general bob (mk_ConnectionId 1)) (engine_actor demo_engine)).1 = false.
Proof.
  destruct (actor_never_stops (λ _, False) demo_engine (demo_engine_reachable _)) as [Hr Hp].
  split; [exact Hr|]. by apply Hp.
Defined.

Lemma expand_direct_new `{Unicode, UuidLib} fresh u actor src other st ch st' :
  wf st → fresh_channel st fresh (group_slug u) →
  expand_direct_channel fresh u actor src other st = (Ok ch, st') →
  messages st' = messages st ∧ (Channel_id ch = fresh → messages st' !! fresh = None).
Proof.
  intros Hwf [Hfresh _] Hrun. assert (messages st !! fresh = None) as Hnone.
  { destruct (messages st !! fresh) eqn:E; [|done].
    destruct (log_known _ _ _ (wf_log _ Hwf) fresh) as [? ?]; [by left|congruence]. }
  apply expand_direct_cases in Hrun; [|done]. split_cases Hrun; simplify_eq; simpl; done.
Qed.
Lemma handle_all_snoc cmds cmd (a : ChatActor RepositoryState) :
  Forall posted cmds → posted cmd → (handle_all (cmds ++ [cmd]) a).2 = (handle cmd (handle_all cmds a).2).2.
Proof.
  intros Hp Hc. revert a. induction Hp as [|cmd' cmds Hc' _ IH]; intros a; [exact (f_equal snd (handle_all_cons cmd [] a Hc))|].
  rewrite <-app_comm_cons, !handle_all_cons by done. apply IH.
Qed.
(** What is posted reads only the messages of the repository. *)
Lemma handle_posted_repository `{Unicode, UuidLib, CryptoLib} cmd (a : ChatActor RepositoryState) st :
  posted cmd → messages st = messages (repository a) →
  (handle cmd (a <| repository := st |>)).2 = (handle cmd a).2 <| repository := st |>.
Proof.
  intros Hp Hms. destruct cmd; try done. simpl. unfold reply_with, st_bind, call. simpl.
  unfold load_message, st_bind, get, st_lift, find_message, find_message_entry. rewrite Hms.
  destruct (snd <$> find_in_entries _ _) as [m|]; simpl; [|by destruct a].
  rewrite !publish_message_run. simpl. case_decide; by destruct a.
Qed.
Lemma handle_all_repository `{Unicode, UuidLib, CryptoLib} cmds (a : ChatActor RepositoryState) st :
  Forall posted cmds → messages st = messages (repository a) →
  (handle_all cmds (a <| repository := st |>)).2 = (handle_all cmds a).2 <| repository := st |>.
Proof.
  intros Hp. revert a.
  induction Hp as [|cmd cmds Hc _ IH]; intros a Hms; [done|].
  rewrite !handle_all_cons, handle_posted_repository by done. apply IH. rewrite Hms, handle_repository. by destruct cmd.
Qed.

(** The participants of a direct conversation learn of the group that grows
    out of it: a successful expansion posts the announcement behind what is
    already in the mailbox, the actor's turn adds exactly that event to the
    source conversation's stream, and the new group starts without messages when
    it is new. *)
Theorem expansion_announced `{Unicode, UuidLib, CryptoLib, EngineLib} deleted (e e' : ChatEngine)
    fresh slug actor source other ch :
  engine_reachable deleted e → fresh_op (repository (engine_actor e)) (ExpandDirectChannel fresh slug actor source other) = true →
  Engine.expand_direct_channel fresh slug actor source other e = (Ok ch, e') →
  announced (drained e) (drained e') source
    [ChannelCreated (Channel_id ch) (Channel_created_by ch) (Some source)]
  ∧ (Channel_id ch = fresh → channel_messages (repository (engine_actor e')) fresh = []).
Proof.
  intros Hr Hf Hrun. assert (Hok := engine_reachable_ok _ _ Hr).
  assert (Hrunning := engine_steps_running _ _ _ (engine_start_ok _) Hr). simpl in Hrunning.
  destruct Hok as (Hm&Hreach&_&_). assert (Hwf := reachable_wf _ Hreach).
  unfold Engine.expand_direct_channel, st_bind, repo, call in Hrun.
  destruct (expand_direct_channel fresh slug actor source other (repository (engine_actor e)))
    as [r st1] eqn:E. destruct r as [ch'|err|]; simpl in Hrun; [|done..].
  unfold ignore_err, post in Hrun. simpl in Hrun. rewrite Hrunning in Hrun. unfold st_ret in Hrun. simplify_eq.
  assert (messages st1 = messages (repository (engine_actor e))
          ∧ (Channel_id ch = fresh → messages st1 !! fresh = None)) as [Hms Hnew].
  { apply expand_direct_new in E; [done|done|]. by apply unused_channel_fresh. }
  unfold drained. simpl. rewrite handle_all_snoc, (handle_all_repository _ _ st1) by done. split.
  - simpl. eapply announced_same; [|apply announced_publish]. done.
  - intros Hid. unfold channel_messages. simpl. by rewrite Hnew.
Qed.
Definition expanded : Res ChatError Channel * ChatEngine :=
  Engine.expand_direct_channel (mk_ChannelId 30) 88 alice direct carol demo_engine.
Definition expanded_channel : Channel :=
  match expanded.1 with
  | Ok ch => ch | _ => mk_Channel general (slug "x") (mk_DisplayName []) Public None alice
  end.
Lemma expansion_announced_witness :
  chan_events (drained expanded.2) direct
  = chan_events (drained demo_engine) direct ++ [ChannelCreated (mk_ChannelId 30) alice (Some direct)].
Proof.
  destruct (expansion_announced (λ _, False) demo_engine expanded.2 (mk_ChannelId 30) 88 alice direct carol
    expanded_channel (demo_engine_reachable _)) as [Ha _].
  - vm_compute. reflexivity.
  - vm_compute. reflexivity.
  - rewrite (Ha direct), decide_True by reflexivity. f_equal; vm_compute; reflexivity.
Defined.

(** ** Members of a circle *)

Lemma profile_user st now x : UserProfile_user (profile_at st now x) = x.
Proof. unfold profile_at. by destruct (default _ _) as [[??]?]. Qed.
Lemma values_elem {V} `{Countable K} (m : gmap K V) v : v ∈ values m ↔ ∃ k, m !! k = Some v.
Proof.
  unfold values. rewrite list_elem_of_fmap. split.
  - intros ([k' v']&->&Hin). exists k'. by apply elem_of_map_to_list.
  - intros [k Hk]. exists (k, v). split; [done|]. by apply elem_of_map_to_list.
Qed.
Lemma filter_elem {A} (p : A → bool) l x : x ∈ List.filter p l ↔ x ∈ l ∧ p x = true.
Proof. by rewrite !list_elem_of_In, filter_In. Qed.
Lemma list_circle_profiles_run st now actor k :
  wf st → is_Some (circle_memberships st !! (k, actor)) →
  ∃ ps, list_circle_user_profiles now actor k st = (Ok ps, st)
    ∧ ∀ p, p ∈ ps ↔ ∃ u x, users st !! u = Some x ∧ User_kind x = Human ∧ p = profile_at st now x
                           ∧ is_Some (circle_memberships st !! (k, u)).
Proof.
  intros Hwf Hmem. assert (is_Some (users st !! actor)) as Hactor.
  { destruct Hmem as [m Hm]. by eapply circle_members_user; [apply wf_circle_members|]. }
  unfold list_circle_user_profiles, list_user_profiles, st_bind, get, ensure.
  rewrite !(proj2 (contains_key_true _ _)) by done. unfold st_ret. eexists. split; [done|].
  intros p. rewrite filter_elem, bool_decide_eq_true. unfold sort_by_key.
  rewrite (merge_sort_Permutation _ _), list_elem_of_fmap, elem_of_list_to_set, list_elem_of_fmap. split.
  - intros [(x&->&[(u&Hx)%values_elem Hh%bool_decide_eq_true]%filter_elem) ([k' u']&Hu&[Hin Hk%bool_decide_eq_true]%filter_elem)].
    rewrite profile_user in Hu. simpl in *. subst. apply list_elem_of_fmap in Hin as ([? m]&[= <-]&Hm%elem_of_map_to_list).
    exists u, x. rewrite <-(accounts_id _ _ _ (wf_accounts _ Hwf) _ _ Hx) at 2. eauto.
  - intros (u&x&Hx&Hh&->&[m Hm]). assert (User_id x = u) as Hid by by eapply accounts_id; [apply wf_accounts|].
    split.
    + exists x. split; [done|]. apply filter_elem. split; [apply values_elem; eauto|by apply bool_decide_eq_true].
    + exists (k, u). rewrite profile_user. split; [done|]. apply filter_elem. split; [|by apply bool_decide_eq_true].
      apply list_elem_of_fmap. exists ((k, u), m). split; [done|]. by apply elem_of_map_to_list.
Qed.
Lemma circle_roles_run st actor k :
  wf st → is_Some (circle_memberships st !! (k, actor)) →
  ∃ rs, circle_member_roles actor k st = (Ok rs, st)
    ∧ (∀ u r, (u, r) ∈ rs ↔ ∃ m, circle_memberships st !! (k, u) = Some m ∧ CircleMembership_role m = r)
    ∧ ∀ u r r', (u, r) ∈ rs → (u, r') ∈ rs → r = r'.
Proof.
  intros Hwf Hmem. unfold circle_member_roles, st_bind, get, ensure.
  rewrite (proj2 (contains_key_true _ _)) by done. unfold st_ret. eexists. split; [done|].
  assert (∀ u r, (u, r) ∈ ((λ m, (CircleMembership_user_id m, CircleMembership_role m)) <$>
      List.filter (λ m, bool_decide (CircleMembership_circle_id m = k)) (values (circle_memberships st)))
    ↔ ∃ m, circle_memberships st !! (k, u) = Some m ∧ CircleMembership_role m = r) as Hin.
  { intros u r. rewrite list_elem_of_fmap. split.
    - intros (m&[= -> ->]&[([k' u']&Hm)%values_elem Hk%bool_decide_eq_true]%filter_elem).
      destruct (circle_members_key _ _ _ (wf_circle_members _ Hwf) _ _ _ Hm) as [<- <-]. subst. eauto.
    - intros (m&Hm&<-). destruct (circle_members_key _ _ _ (wf_circle_members _ Hwf) _ _ _ Hm) as [Hk Hu].
      exists m. split; [by rewrite Hu|]. apply filter_elem. split; [apply values_elem; eauto|].
      by apply bool_decide_eq_true. }
  split; [exact Hin|]. intros u r r' (m&Hm&<-)%Hin (m'&Hm'&<-)%Hin. congruence.
Qed.
(** Collecting pairs into a map. *)
Lemma roles_map_Some rs u (r : CircleRole) :
  foldl (λ m '(u, r), <[u := r]> m) (∅ : gmap UserId CircleRole) rs !! u = Some r → (u, r) ∈ rs.
Proof.
  intros Hl. assert (∀ m0 : gmap UserId CircleRole,
    foldl (λ m '(u, r), <[u := r]> m) m0 rs !! u = Some r → (u, r) ∈ rs ∨ m0 !! u = Some r) as Hgen.
  { clear. induction rs as [|[v s] rs IH]; simpl; [auto|]. intros m0 [Hin|[[-> ->]|[_ Hm]]%lookup_insert_Some]%IH;
      [left; by right|left; by left|auto]. }
  destruct (Hgen ∅ Hl) as [?|Hn]; [done|]. by rewrite lookup_empty in Hn.
Qed.
Lemma roles_map_elem rs u (r : CircleRole) :
  (∀ u r r', (u, r) ∈ rs → (u, r') ∈ rs → r = r') → (u, r) ∈ rs →
  foldl (λ m '(u, r), <[u := r]> m) (∅ : gmap UserId CircleRole) rs !! u = Some r.
Proof.
  intros Hfun. induction rs as [|[v s] rs IH] using rev_ind; intros Hin; [by apply elem_of_nil in Hin|].
  rewrite foldl_app. simpl. destruct (decide (v = u)) as [->|Hne].
  - rewrite lookup_insert_eq. f_equal. apply (Hfun u); [|done]. set_solver.
  - rewrite lookup_insert_ne by done. apply IH.
    + intros w x y Hx Hy. apply (Hfun w); set_solver.
    + apply elem_of_app in Hin as [?|[= -> ->]%list_elem_of_singleton]; done.
Qed.

(** The member list of a circle, put together from two reads, is exact: a
    member of the circle gets every human member with their profile and their
    role, and nobody else; who is not a member is refused; nothing changes. *)
Theorem list_circle_members_exact `{Unicode, UuidLib, CryptoLib, EngineLib} deleted (e : ChatEngine)
    now actor k :
  engine_reachable deleted e →
  let st := repository (engine_actor e) in
  if decide (is_Some (circle_memberships st !! (k, actor))) then
    ∃ members, Engine.list_circle_members now actor k e = (Ok members, e)
      ∧ ∀ p role, (p, role) ∈ members ↔
          ∃ u x m, users st !! u = Some x ∧ User_kind x = Human ∧ p = profile_at st now x
                   ∧ circle_memberships st !! (k, u) = Some m ∧ CircleMembership_role m = role
  else Engine.list_circle_members now actor k e = (Err (Repository PermissionDenied), e).
Proof.
  intros Hr st. assert (Hok := engine_reachable_ok _ _ Hr). destruct Hok as (_&Hreach&_&_).
  assert (Hwf := reachable_wf _ Hreach). fold st in Hwf.
  assert (∀ A (m : Repo A) r, m st = (r, st) → repo m e = (map_err Repository r, e)) as Hrepo.
  { intros A m r Hm. unfold repo, call. fold st. rewrite Hm. unfold st. by destruct e as [[]]. }
  unfold Engine.list_circle_members, st_bind. case_decide as Hmem.
  - destruct (list_circle_profiles_run st now actor k Hwf Hmem) as (ps&Hps&Hin).
    destruct (circle_roles_run st actor k Hwf Hmem) as (rs&Hrs&Hroles).
    rewrite (Hrepo _ _ _ Hps). simpl. rewrite (Hrepo _ _ _ Hrs). simpl.
    eexists. split; [done|]. intros p role. rewrite list_elem_of_omap. split.
    + intros (p'&(u&x&Hx&Hh&->&_)%Hin&(r&Hr'&[= -> ->])%fmap_Some).
      rewrite profile_user, (accounts_id _ _ _ (wf_accounts _ Hwf) _ _ Hx) in Hr'.
      apply roles_map_Some, Hroles in Hr' as (m&?&?). eauto 10.
    + intros (u&x&m&Hx&Hh&->&Hm&<-). exists (profile_at st now x). split; [apply Hin; eauto 10|].
      rewrite profile_user, (accounts_id _ _ _ (wf_accounts _ Hwf) _ _ Hx).
      assert ((u, CircleMembership_role m) ∈ rs) as Hu by (apply Hroles; eauto).
      by rewrite (roles_map_elem rs u _ (proj2 Hroles) Hu).
  - rewrite (Hrepo _ _ (Err PermissionDenied)); [done|].
    unfold list_circle_user_profiles, st_bind, get, ensure. by rewrite (proj2 (contains_key_false _ _)) by by apply eq_None_not_Some.
Qed.
Lemma list_circle_members_exact_witness :
  Engine.list_circle_members 0 carol circle demo_engine
  = (Err (Repository PermissionDenied), demo_engine).
Proof.
  assert (Ht := list_circle_members_exact (λ _, False) demo_engine 0 carol circle (demo_engine_reachable _)).
  cbv zeta in Ht. rewrite decide_False in Ht; [exact Ht|]. vm_compute. intros [? ?]. discriminate.
Defined.
