(* ===== verification/Attachments.v ===== *)
(** * Attachments: streaming validation of uploaded documents

    Models [src/media_store/attachments.rs], the UTF-8 validation of the standard
    library it is built on, and [detected_media_type] of [src/web/media.rs]. An
    upload is validated chunk by chunk, with at most an incomplete character or the
    last bytes of the file kept between chunks; the theorem at the end compares
    that with a definition that sees the whole file at once. *)

From Stdlib Require Import ZifyBool.
From stdpp Require Import base tactics numbers strings list.
From S2P Require Import Prelude RustStr.

(** Bytes are numbers below 256. *)
Abbreviation bytes := (list N) (only parsing).
Definition is_u8 (b : N) : Prop := (b < 256)%N.
Definition u64_modulus : Z := 2 ^ 64.

(** ** [std::str::from_utf8] *)

(** The outcome of validation after the valid prefix: the whole input is valid, it
    ends inside a character ([error_len()] is [None]; the bytes of that character
    are kept), or it has an invalid byte. *)
Inductive Utf8End : Type := Utf8_ok | Utf8_incomplete (remaining : bytes) | Utf8_invalid.

(** [core::str::validations::utf8_char_width], with 0 for bytes that start nothing. *)
Definition utf8_char_width (b : N) : nat :=
  if (b <? 128)%N then 1 else if (b <? 194)%N then 0 else if (b <? 224)%N then 2
  else if (b <? 240)%N then 3 else if (b <? 245)%N then 4 else 0.
Definition between (lo b hi : N) : bool := ((lo <=? b) && (b <=? hi))%N.
Definition continuation (b : N) : bool := between 128 b 191.

(** The second byte of a three or four byte character: neither overlong, nor a
    surrogate, nor above U+10FFFF. *)
Definition second_of_three (b0 b1 : N) : bool :=
  (b0 =? 224)%N && between 160 b1 191
  || between 225 b0 236 && between 128 b1 191
  || (b0 =? 237)%N && between 128 b1 159
  || between 238 b0 239 && between 128 b1 191.
Definition second_of_four (b0 b1 : N) : bool :=
  (b0 =? 240)%N && between 144 b1 191
  || between 241 b0 243 && between 128 b1 191
  || (b0 =? 244)%N && between 128 b1 143.

Definition utf8_push (c : char) (r : list char * Utf8End) : list char * Utf8End := (c :: r.1, r.2).

(** The characters of the valid prefix and what follows it. *)
Fixpoint from_utf8 (v : bytes) : list char * Utf8End :=
  match v with
  | [] => ([], Utf8_ok)
  | b0 :: v1 =>
      match utf8_char_width b0 with
      | 1 => utf8_push b0 (from_utf8 v1)
      | 2 =>
          match v1 with
          | [] => ([], Utf8_incomplete v)
          | b1 :: v2 =>
              if continuation b1
              then utf8_push ((b0 - 192) * 64 + (b1 - 128))%N (from_utf8 v2)
              else ([], Utf8_invalid)
          end
      | 3 =>
          match v1 with
          | [] => ([], Utf8_incomplete v)
          | b1 :: v2 =>
              if second_of_three b0 b1 then
                match v2 with
                | [] => ([], Utf8_incomplete v)
                | b2 :: v3 =>
                    if continuation b2
                    then utf8_push ((b0 - 224) * 4096 + (b1 - 128) * 64 + (b2 - 128))%N
                           (from_utf8 v3)
                    else ([], Utf8_invalid)
                end
              else ([], Utf8_invalid)
          end
      | 4 =>
          match v1 with
          | [] => ([], Utf8_incomplete v)
          | b1 :: v2 =>
              if second_of_four b0 b1 then
                match v2 with
                | [] => ([], Utf8_incomplete v)
                | b2 :: v3 =>
                    if continuation b2 then
                      match v3 with
                      | [] => ([], Utf8_incomplete v)
                      | b3 :: v4 =>
                          if continuation b3
                          then utf8_push ((b0 - 240) * 262144 + (b1 - 128) * 4096
                                          + (b2 - 128) * 64 + (b3 - 128))%N (from_utf8 v4)
                          else ([], Utf8_invalid)
                      end
                    else ([], Utf8_invalid)
                end
              else ([], Utf8_invalid)
          end
      | _ => ([], Utf8_invalid)
      end
  end.

(** ** The validator *)

Definition ZIP_TAIL : N := 65557.

Inductive Kind : Type := Kind_None | Kind_Pdf | Kind_Zip | Kind_Text.
#[export] Instance Kind_eq_dec : EqDecision Kind.
Proof. solve_decision. Defined.

Record Validator : Type := mk_Validator {
  kind : Kind;
  carry : bytes;
  tail : bytes;
  total_length : Z }.
#[export] Instance Validator_eta : Eta Validator := λ v,
  mk_Validator (kind v) (carry v) (tail v) (total_length v).

Definition Kind_of (content_type : str) : Kind :=
  if decide (content_type = lit "application/pdf") then Kind_Pdf
  else if decide (content_type = lit "application/zip") then Kind_Zip
  else if decide (content_type = lit "text/plain" ∨ content_type = lit "text/csv") then Kind_Text
  else Kind_None.
Definition Validator_new (content_type : str) : Validator :=
  mk_Validator (Kind_of content_type) [] [] 0.

(** The control characters a text may not hold: all but line feed, carriage return
    and tabulation. *)
Definition forbidden_control (ch : char) : bool :=
  is_control ch && negb ((ch =? 10)%N || (ch =? 13)%N || (ch =? 9)%N).

(** The text branch of [push]: the carried bytes are taken, and what an incomplete
    last character leaves is carried on. *)
Definition push_text (input : bytes) (v : Validator) : bool * Validator :=
  let next := carry v ++ input in
  let v := v <| carry := [] |> in
  match from_utf8 next with
  | (_, Utf8_invalid) => (false, v)
  | (valid, Utf8_ok) => (negb (existsb forbidden_control valid), v)
  | (valid, Utf8_incomplete remaining) =>
      if existsb forbidden_control valid then (false, v)
      else (true, v <| carry := remaining |>)
  end.

(** The tail branch of [push]: the last [budget] bytes seen so far. *)
Definition push_tail (budget : nat) (input : bytes) (v : Validator) : Validator :=
  if budget <=? length input then v <| tail := drop (length input - budget) input |>
  else
    let discard := length (tail v) + length input - budget in
    v <| tail := drop discard (tail v) ++ input |>.

Definition push (input : bytes) (v : Validator) : bool * Validator :=
  let v := v <| total_length := ((total_length v + Z.of_nat (length input)) `mod` u64_modulus)%Z |> in
  match kind v with
  | Kind_Text => push_text input v
  | Kind_Pdf => (true, push_tail 1024 input v)
  | Kind_Zip => (true, push_tail (N.to_nat ZIP_TAIL) input v)
  | Kind_None => (true, v)
  end.

(** [slice::trim_ascii_end] and [slice::ends_with]. *)
Definition is_ascii_whitespace (b : N) : bool :=
  ((b =? 32) || (b =? 9) || (b =? 10) || (b =? 12) || (b =? 13))%N.
Fixpoint trim_ascii_start (s : bytes) : bytes :=
  match s with [] => [] | b :: s' => if is_ascii_whitespace b then trim_ascii_start s' else s end.
Definition trim_ascii_end (s : bytes) : bytes := reverse (trim_ascii_start (reverse s)).
Definition ends_with (s p : bytes) : bool := starts_with (reverse s) (reverse p).

(** [u16::from_le_bytes] and [u32::from_le_bytes] of the bytes at a position. *)
Definition le_u16 (s : bytes) (at_ : nat) : Z :=
  (Z.of_N (s !!! at_) + 256 * Z.of_N (s !!! (at_ + 1)%nat))%Z.
Definition le_u32 (s : bytes) (at_ : nat) : Z :=
  (le_u16 s at_ + 65536 * le_u16 s (at_ + 2)%nat)%Z.

Definition u64_max_Z : Z := (u64_modulus - 1)%Z.
Definition PK56 : bytes := [80; 75; 5; 6]%N.

(** The test of [finish] on the bytes [end] from a candidate end-of-central-directory
    record to the end of the file. *)
Definition eocd (file_length : Z) (end_ : bytes) : bool :=
  starts_with end_ PK56
  && let entries := le_u16 end_ 10 in
     let directory_size := le_u32 end_ 12 in
     let directory_at := le_u32 end_ 16 in
     (Z.of_nat (length end_) =? 22 + le_u16 end_ 20)%Z
     && (le_u16 end_ 4 =? 0)%Z
     && (le_u16 end_ 6 =? 0)%Z
     && (le_u16 end_ 8 =? entries)%Z
     && negb (entries =? 65535)%Z
     && (Z.min u64_max_Z (directory_at + directory_size)
           <=? (file_length - Z.of_nat (length end_)) `mod` u64_modulus)%Z
     && ((entries =? 0)%Z || (0 <? directory_size)%Z).

Definition finish (v : Validator) : bool :=
  match kind v with
  | Kind_None => true
  | Kind_Text => bool_decide (carry v = [])
  | Kind_Pdf => ends_with (trim_ascii_end (tail v)) (lit "%%EOF")
  | Kind_Zip =>
      existsb (λ offset, eocd (total_length v) (drop offset (tail v)))
        (reverse (seq 0 (length (tail v) - 21)))
  end.

(** The loop of [MediaStore::complete] around it: all chunks, then [finish]. *)
Fixpoint push_all (chunks : list bytes) (v : Validator) : bool * Validator :=
  match chunks with
  | [] => (true, v)
  | c :: chunks' =>
      match push c v with
      | (true, v') => push_all chunks' v'
      | r => r
      end
  end.
Definition accepts (content_type : str) (chunks : list bytes) : bool :=
  match push_all chunks (Validator_new content_type) with
  | (true, v) => finish v
  | (false, _) => false
  end.

(** ** The type of a file from its first bytes *)

Definition slice_is (content : bytes) (from to : nat) (expected : bytes) : bool :=
  bool_decide (to ≤ length content ∧ take (to - from) (drop from content) = expected).
Definition byte_is (p : N → bool) (content : bytes) (i : nat) : bool :=
  match content !! i with Some b => p b | None => false end.

Definition detected_media_type (content : bytes) (declared : str) : option str :=
  let brand := λ names, existsb (λ n, slice_is content 8 12 (lit n)) names in
  if starts_with content ([137] ++ lit "PNG" ++ [13; 10; 26; 10])%N then Some (lit "image/png")
  else if starts_with content [255; 216; 255]%N then Some (lit "image/jpeg")
  else if starts_with content (lit "GIF87a") || starts_with content (lit "GIF89a")
  then Some (lit "image/gif")
  else if starts_with content (lit "RIFF") && slice_is content 8 12 (lit "WEBP")
  then Some (lit "image/webp")
  else if slice_is content 4 8 (lit "ftyp") then
    if brand ["heic"; "heix"; "hevc"; "hevx"; "mif1"; "msf1"]%string then Some (lit "image/heic")
    else if brand ["avif"; "avis"]%string then Some (lit "image/avif")
    else if brand ["qt  "]%string then Some (lit "video/quicktime")
    else Some (lit "video/mp4")
  else if starts_with content [26; 69; 223; 163]%N then
    Some (if decide (declared = lit "video/webm") then lit "video/webm" else lit "video/x-matroska")
  else if starts_with content (lit "%PDF-") && byte_is is_ascii_digit content 5
          && byte_is (N.eqb 46) content 6 && byte_is is_ascii_digit content 7
  then Some (lit "application/pdf")
  else if starts_with content (lit "PK" ++ [3; 4])%N || starts_with content PK56
  then Some (lit "application/zip")
  else if decide (declared = lit "text/plain" ∨ declared = lit "text/csv") then Some declared
  else None.

(** ** The whole file at once *)

(** What [accepts] is meant to decide, on the file rather than on its chunks: text
    is UTF-8 without forbidden control characters, a PDF ends (within its last 1024
    bytes) with its end marker, and a ZIP archive has, anywhere in the file, an
    end-of-central-directory record whose comment runs to the end of the file and
    whose directory lies before it. *)
Definition document_valid (content_type : str) (file : bytes) : bool :=
  match Kind_of content_type with
  | Kind_None => true
  | Kind_Text =>
      match from_utf8 file with
      | (chars, Utf8_ok) => negb (existsb forbidden_control chars)
      | _ => false
      end
  | Kind_Pdf => ends_with (trim_ascii_end (drop (length file - 1024) file)) (lit "%%EOF")
  | Kind_Zip =>
      existsb (λ offset, eocd (Z.of_nat (length file)) (drop offset file))
        (seq 0 (length file - 21))
  end.

(** *** UTF-8 across a boundary *)

(** Validation of [a ++ b] continues where validation of [a] stopped. *)
Definition utf8_continue (r : list char * Utf8End) (b : bytes) : list char * Utf8End :=
  match r.2 with
  | Utf8_ok => (r.1 ++ (from_utf8 b).1, (from_utf8 b).2)
  | Utf8_incomplete rest => (r.1 ++ (from_utf8 (rest ++ b)).1, (from_utf8 (rest ++ b)).2)
  | Utf8_invalid => r
  end.

Lemma utf8_continue_push c r b : utf8_continue (utf8_push c r) b = utf8_push c (utf8_continue r b).
Proof. by destruct r as [cs [| |]]. Qed.
Lemma utf8_continue_incomplete rest b : utf8_continue ([], Utf8_incomplete rest) b = from_utf8 (rest ++ b).
Proof. unfold utf8_continue. simpl. by destruct (from_utf8 (rest ++ b)). Qed.

Lemma from_utf8_app a b : from_utf8 (a ++ b) = utf8_continue (from_utf8 a) b.
Proof.
  remember (length a) as n eqn:Hn. revert a Hn.
  induction n as [n IH] using lt_wf_ind. intros a ->.
  assert (∀ a', length a' < length a → from_utf8 (a' ++ b) = utf8_continue (from_utf8 a') b)
    as IH' by (intros a' Ha'; by eapply IH). clear IH.
  destruct a as [|b0 v1]; [unfold utf8_continue; simpl; by destruct (from_utf8 b)|].
  cbn [app from_utf8].
  destruct (utf8_char_width b0) as [|[|[|[|[|n]]]]] eqn:Hw; [done| | | | |done].
  - rewrite utf8_continue_push, IH'; [done|simpl; lia].
  - destruct v1 as [|b1 v2]; [rewrite utf8_continue_incomplete; simpl; by rewrite Hw|].
    cbn [app]. destruct (continuation b1); [|done].
    rewrite utf8_continue_push, IH'; [done|simpl; lia].
  - destruct v1 as [|b1 v2]; [rewrite utf8_continue_incomplete; simpl; by rewrite Hw|].
    cbn [app]. destruct (second_of_three b0 b1) eqn:H1; [|done].
    destruct v2 as [|b2 v3]; [rewrite utf8_continue_incomplete; simpl; by rewrite Hw, H1|].
    cbn [app]. destruct (continuation b2); [|done].
    rewrite utf8_continue_push, IH'; [done|simpl; lia].
  - destruct v1 as [|b1 v2]; [rewrite utf8_continue_incomplete; simpl; by rewrite Hw|].
    cbn [app]. destruct (second_of_four b0 b1) eqn:H1; [|done].
    destruct v2 as [|b2 v3]; [rewrite utf8_continue_incomplete; simpl; by rewrite Hw, H1|].
    cbn [app]. destruct (continuation b2) eqn:H2; [|done].
    destruct v3 as [|b3 v4]; [rewrite utf8_continue_incomplete; simpl; by rewrite Hw, H1, H2|].
    cbn [app]. destruct (continuation b3); [|done].
    rewrite utf8_continue_push, IH'; [done|simpl; lia].
Qed.

Lemma from_utf8_incomplete_nonempty a cs rest :
  from_utf8 a = (cs, Utf8_incomplete rest) → rest ≠ [].
Proof.
  remember (length a) as n eqn:Hn. revert a cs Hn.
  induction n as [n IH] using lt_wf_ind. intros a cs -> H.
  assert (∀ c a' r', length a' < length a →
            utf8_push c (from_utf8 a') = (r', Utf8_incomplete rest) → rest ≠ []) as IH'.
  { intros c a' r' Ha' H'. destruct (from_utf8 a') as [cs' e] eqn:E.
    injection H' as _ ->. by eapply IH. }
  clear IH. destruct a as [|b0 v1]; [done|].
  cbn [from_utf8] in H.
  repeat case_match; simplify_eq; try done; (eapply IH'; [|exact H]; simpl; lia).
Qed.

Definition text_valid (file : bytes) : bool :=
  match from_utf8 file with
  | (chars, Utf8_ok) => negb (existsb forbidden_control chars)
  | _ => false
  end.

(** What is carried after [seen]. *)
Definition utf8_rest (e : Utf8End) : bytes :=
  match e with Utf8_incomplete rest => rest | _ => [] end.

Lemma from_utf8_app_invalid a b cs :
  from_utf8 a = (cs, Utf8_invalid) → text_valid (a ++ b) = false.
Proof. intros H. unfold text_valid. by rewrite from_utf8_app, H. Qed.
Lemma text_valid_app_forbidden a b :
  existsb forbidden_control (from_utf8 a).1 = true → text_valid (a ++ b) = false.
Proof.
  intros H. unfold text_valid. rewrite from_utf8_app. unfold utf8_continue.
  destruct (from_utf8 a) as [cs e]; simpl in *.
  destruct e as [|rest|]; simpl; [| |done].
  - destruct (from_utf8 b) as [cs' []]; simpl; try done. by rewrite existsb_app, H.
  - destruct (from_utf8 (rest ++ b)) as [cs' []]; simpl; try done. by rewrite existsb_app, H.
Qed.

Lemma text_stream chunks seen v :
  kind v = Kind_Text → carry v = utf8_rest (from_utf8 seen).2 →
  (from_utf8 seen).2 ≠ Utf8_invalid → existsb forbidden_control (from_utf8 seen).1 = false →
  match push_all chunks v with (true, v') => finish v' | (false, _) => false end
  = text_valid (seen ++ concat chunks).
Proof.
  revert seen v. induction chunks as [|c chunks IH]; intros seen v Hk Hc He Hf.
  - simpl. unfold finish. rewrite Hk, Hc, app_nil_r. unfold text_valid.
    destruct (from_utf8 seen) as [cs e] eqn:Hs. simpl in *. destruct e as [|rest|]; simpl.
    + by rewrite Hf.
    + rewrite bool_decide_false; [done|]. by eapply from_utf8_incomplete_nonempty.
    + done.
  - assert (from_utf8 (seen ++ c) = (((from_utf8 seen).1 ++ (from_utf8 (carry v ++ c)).1),
                                      (from_utf8 (carry v ++ c)).2)) as Hcont.
    { rewrite from_utf8_app, Hc. unfold utf8_continue.
      destruct (from_utf8 seen) as [cs [|rest|]]; simpl in *; done. }
    cbn [push_all concat]. unfold push. cbn [kind set Validator_eta]. 
    change (kind (v <| total_length := _ |>)) with (kind v). rewrite Hk.
    rewrite app_assoc. unfold push_text.
    change (carry (v <| total_length := _ |>)) with (carry v).
    destruct (from_utf8 (carry v ++ c)) as [cs e] eqn:Hnext. simpl in Hcont.
    destruct e as [|rest|].
    + destruct (existsb forbidden_control cs) eqn:Hbad; simpl.
      * symmetry. apply text_valid_app_forbidden. rewrite Hcont. simpl.
        by rewrite existsb_app, Hbad, orb_true_r.
      * apply IH; rewrite ?Hcont; simpl; [done..|]. by rewrite existsb_app, Hf, Hbad.
    + destruct (existsb forbidden_control cs) eqn:Hbad; simpl.
      * symmetry. apply text_valid_app_forbidden. rewrite Hcont. simpl.
        by rewrite existsb_app, Hbad, orb_true_r.
      * apply IH; rewrite ?Hcont; simpl; [done..|]. by rewrite existsb_app, Hf, Hbad.
    + symmetry. by eapply from_utf8_app_invalid.
Qed.

(** *** The end of the file *)

Definition lastn (n : nat) (l : bytes) : bytes := drop (length l - n) l.

Lemma lastn_app_long n l k : n ≤ length k → lastn n (l ++ k) = lastn n k.
Proof.
  intros Hn. unfold lastn. rewrite length_app, drop_app_ge by lia. f_equal. lia.
Qed.
Lemma lastn_app_short n l k :
  length k < n → lastn n (l ++ k) = drop (length (lastn n l) + length k - n) (lastn n l) ++ k.
Proof.
  intros Hn. unfold lastn. rewrite length_app, length_drop, drop_drop.
  rewrite drop_app_le by lia. f_equal. f_equal. lia.
Qed.

Lemma tail_stream budget chunks seen v :
  (kind v = Kind_Pdf ∧ budget = 1024 ∨ kind v = Kind_Zip ∧ budget = N.to_nat ZIP_TAIL) →
  tail v = lastn budget seen → total_length v = (Z.of_nat (length seen) `mod` u64_modulus)%Z →
  ∃ v', push_all chunks v = (true, v') ∧ kind v' = kind v
        ∧ tail v' = lastn budget (seen ++ concat chunks)
        ∧ total_length v' = (Z.of_nat (length (seen ++ concat chunks)) `mod` u64_modulus)%Z.
Proof.
  revert seen v. induction chunks as [|c chunks IH]; intros seen v Hk Ht Hl.
  { exists v. simpl. by rewrite app_nil_r. }
  set (v1 := v <| total_length :=
    ((total_length v + Z.of_nat (length c)) `mod` u64_modulus)%Z |>).
  assert (push c v = (true, push_tail budget c v1)) as Hpush.
  { unfold push. fold v1. change (kind v1) with (kind v).
    destruct Hk as [[-> ->]|[-> ->]]; done. }
  cbn [push_all concat]. rewrite Hpush, app_assoc.
  assert (kind (push_tail budget c v1) = kind v ∧ total_length (push_tail budget c v1) = total_length v1)
    as [Hk1 Hl1] by (unfold push_tail; by case_match).
  destruct (IH (seen ++ c) (push_tail budget c v1)) as (v' & Hv' & Hkv & Htv & Hlv).
  - by rewrite Hk1.
  - unfold push_tail. change (tail v1) with (tail v). rewrite Ht.
    destruct (Nat.leb_spec budget (length c)); simpl.
    + by rewrite lastn_app_long.
    + by rewrite lastn_app_short.
  - rewrite Hl1. unfold v1; simpl. rewrite Hl, length_app, Nat2Z.inj_add.
    by rewrite Zplus_mod_idemp_l.
  - exists v'. rewrite Hk1 in Hkv. by split_and!.
Qed.

(** *** The end-of-central-directory record lies in the tail *)

Lemma le_u16_bounds s i : Forall is_u8 s → (0 ≤ le_u16 s i < 65536)%Z.
Proof.
  intros Hs. unfold le_u16.
  assert (∀ j, (s !!! j < 256)%N) as Hb.
  { intros j. rewrite list_lookup_total_alt. destruct (s !! j) eqn:E; simpl; [|done].
    by eapply Forall_lookup in Hs. }
  pose proof (Hb i). pose proof (Hb (i + 1)). lia.
Qed.

Lemma eocd_length n e : eocd n e = true → Z.of_nat (length e) = (22 + le_u16 e 20)%Z.
Proof. unfold eocd. intros H. bool_facts. lia. Qed.

Lemma existsb_seq (f : nat → bool) n k l :
  (∀ i, n ≤ i < n + l → f i = true → n + k ≤ i) → k ≤ l →
  existsb f (seq n l) = existsb f (seq (n + k) (l - k)).
Proof.
  intros Hf Hk. apply eq_true_iff_eq. rewrite !existsb_exists.
  split; intros (i & Hi & H); exists i; (split; [|done]); apply in_seq; apply in_seq in Hi; [|lia].
  pose proof (Hf i ltac:(lia) H). lia.
Qed.
Lemma existsb_reverse {A} (f : A → bool) (l : list A) : existsb f (reverse l) = existsb f l.
Proof.
  induction l as [|x l IH]; [done|]. rewrite reverse_cons, existsb_app, IH. simpl.
  rewrite orb_false_r. apply orb_comm.
Qed.
Lemma existsb_seq_shift (f : nat → bool) n k l :
  existsb f (seq (n + k) l) = existsb (λ i, f (i + k)) (seq n l).
Proof. revert n. induction l as [|l IH]; intros n; simpl; [done|]. by rewrite <- IH. Qed.

Lemma zip_tail_suffices file :
  Forall is_u8 file → (Z.of_nat (length file) < u64_modulus)%Z →
  existsb (λ offset, eocd (Z.of_nat (length file)) (drop offset (lastn (N.to_nat ZIP_TAIL) file)))
    (reverse (seq 0 (length (lastn (N.to_nat ZIP_TAIL) file) - 21)))
  = existsb (λ offset, eocd (Z.of_nat (length file)) (drop offset file)) (seq 0 (length file - 21)).
Proof.
  intros Hb _. rewrite existsb_reverse. unfold lastn at 2. rewrite length_drop.
  set (k := length file - N.to_nat ZIP_TAIL).
  rewrite (existsb_seq (λ offset, eocd _ (drop offset file)) 0 k).
  - rewrite existsb_seq_shift. replace (length file - k - 21) with (length file - 21 - k) by lia.
    apply eq_true_iff_eq. rewrite !existsb_exists. unfold lastn. fold k.
    split; intros (i & Hi & H); exists i; (split; [done|]); rewrite drop_drop in *;
      [by rewrite Nat.add_comm|by rewrite Nat.add_comm in H].
  - intros i Hi H%eocd_length. rewrite length_drop in H.
    pose proof (le_u16_bounds (drop i file) 20 ltac:(by apply Forall_drop)) as Hw.
    unfold k, ZIP_TAIL. lia.
  - unfold k, ZIP_TAIL. lia.
Qed.

(** C33: however a file is cut into chunks, streaming validation accepts it exactly when
    the file as a whole is valid: characters that straddle chunks are neither lost nor
    accepted twice, and the bounded tail always holds the whole end-of-central-directory
    record with the longest comment. *)
Theorem chunked_validation_exact content_type chunks :
  Forall is_u8 (concat chunks) → (Z.of_nat (length (concat chunks)) < u64_modulus)%Z →
  accepts content_type chunks = document_valid content_type (concat chunks).
Proof.
  intros Hb Hl. unfold accepts, document_valid.
  destruct (Kind_of content_type) eqn:Hk.
  - assert (∀ v, kind v = Kind_None → ∃ v', push_all chunks v = (true, v') ∧ kind v' = Kind_None)
      as Hnone.
    { clear. induction chunks as [|c chunks IH]; intros v Hv; [by exists v|].
      cbn [push_all]. unfold push. change (kind (v <| total_length := _ |>)) with (kind v).
      rewrite Hv. by apply IH. }
    destruct (Hnone (Validator_new content_type)) as (v' & -> & Hv'); [done|].
    unfold finish. by rewrite Hv'.
  - destruct (tail_stream 1024 chunks [] (Validator_new content_type)) as (v' & -> & Hv' & Ht & _);
      [left; by rewrite <- Hk|done..|].
    unfold finish. by rewrite Hv', Ht; simpl; rewrite Hk.
  - destruct (tail_stream (N.to_nat ZIP_TAIL) chunks [] (Validator_new content_type))
      as (v' & -> & Hv' & Ht & Hlen); [right; by rewrite <- Hk|done..|].
    unfold finish. rewrite Hv'; simpl; rewrite Hk, Ht, Hlen. simpl.
    rewrite Z.mod_small by lia. by apply zip_tail_suffices.
  - by apply (text_stream chunks [] (Validator_new content_type)).
Qed.
Lemma chunked_validation_exact_witness :
  let chunks := [[104; 226]; [130; 172; 10]]%N in
  accepts (lit "text/plain") chunks = document_valid (lit "text/plain") (concat chunks)
  ∧ accepts (lit "text/plain") chunks = true
  ∧ accepts (lit "text/plain") [[104; 226]; [130]]%N = false.
Proof.
  split_and!; [|by vm_compute..].
  apply chunked_validation_exact; [repeat constructor|by vm_compute].
Defined.
