(* ===== verification/Sql.v ===== *)
(** * Sql: the parts of a database the services use

    A table is a [gmap] from its primary key to its rows. A transaction is a method
    whose writes are kept only when it commits: every early return ([?], [return
    Err(..)]) drops the transaction and with it the writes made so far. *)

From Stdlib Require Import ZifyBool.
From stdpp Require Import base tactics numbers sorting gmap list.
From S2P Require Import Prelude.

(** [let mut tx = pool.begin()?; ..; tx.commit()] *)
Definition transaction {S E A} (m : ST S E A) : ST S E A := λ s,
  match m s with
  | (Ok a, s') => (Ok a, s')
  | (Err e, _) => (Err e, s)
  | (Panic, _) => (Panic, s)
  end.

(** A transaction that commits and then returns the result its body computed, also
    when that is an error ([tx.commit()?; return Err(error)]). *)
Definition transaction_with {S E A} (m : ST S E (Res E A)) : ST S E A := λ s,
  match transaction m s with
  | (Ok r, s') => (r, s')
  | (Err e, s') => (Err e, s')
  | (Panic, s') => (Panic, s')
  end.

(** ** Methods that fail without a trace *)

Definition atomic {S E A} (m : ST S E A) : Prop :=
  ∀ s, match m s with (Ok _, _) => True | (_, s') => s' = s end.

Lemma atomic_inv {S E A} (m : ST S E A) s r s' :
  atomic m → m s = (r, s') → (∃ a, r = Ok a ∧ m s = (Ok a, s')) ∨ s' = s ∧ ∀ a, r ≠ Ok a.
Proof.
  intros Hm Hr. specialize (Hm s). rewrite Hr in Hm. destruct r; [left; eauto|right; done..].
Qed.
Lemma atomic_transaction {S E A} (m : ST S E A) : atomic (transaction m).
Proof. intros s. unfold transaction. by destruct (m s) as [[] ?]. Qed.
Lemma atomic_ensure {S E A} (b : bool) (e : E) (k : unit → ST S E A) :
  atomic (k tt) → atomic (st_bind (ensure b e) k).
Proof. intros Hk s. unfold st_bind, ensure. destruct b; [apply Hk|done]. Qed.
Lemma atomic_get {S E A} (k : S → ST S E A) : (∀ s, atomic (k s)) → atomic (st_bind get k).
Proof. intros Hk s. apply Hk. Qed.
Lemma atomic_lift {S E A B} (r : Res E A) (k : A → ST S E B) :
  (∀ a, r = Ok a → atomic (k a)) → atomic (st_bind (st_lift r) k).
Proof. intros Hk s. unfold st_bind, st_lift. destruct r; [by apply Hk|done..]. Qed.
Lemma atomic_put {S E} (s : S) : atomic (E := E) (put s).
Proof. by intros ?. Qed.
Lemma atomic_ret {S E A} (a : A) : atomic (S := S) (E := E) (st_ret a).
Proof. by intros ?. Qed.
#[export] Hint Resolve atomic_transaction atomic_ensure atomic_get atomic_lift atomic_put atomic_ret
  : sproyt.

(** ** Successful runs

    A transaction changes the state only when it succeeds, so it is enough to follow
    its successful paths; [ok_inv] does that for a hypothesis [m s = (Ok a, s')]. *)

Lemma transaction_inv {S E A} (m : ST S E A) s r s' :
  transaction m s = (r, s') →
  (∃ a, r = Ok a ∧ m s = (Ok a, s')) ∨ s' = s ∧ ∀ a, r ≠ Ok a.
Proof. unfold transaction. destruct (m s) as [[] ?]; intros; simplify_eq; eauto. Qed.
Lemma transaction_with_inv {S E A} (m : ST S E (Res E A)) s r s' :
  transaction_with m s = (r, s') → m s = (Ok r, s') ∨ s' = s ∧ ∀ a, r ≠ Ok a.
Proof.
  unfold transaction_with. destruct (transaction m s) as [r0 s0] eqn:Hm.
  apply transaction_inv in Hm as [(r1 & -> & Hm)|[-> Hne]]; [intros; simplify_eq; eauto|].
  destruct r0; [by destruct (Hne a)|intros; simplify_eq; eauto..].
Qed.
Lemma ensure_then_inv {S E A} b (e : E) (k : unit → ST S E A) s r s' :
  st_bind (ensure b e) k s = (r, s') → b = true ∧ k tt s = (r, s') ∨ r = Err e ∧ s' = s.
Proof. unfold st_bind, ensure. destruct b; intros; simplify_eq; eauto. Qed.
Lemma lift_then_inv {S E A B} (r : Res E A) (k : A → ST S E B) s x s' :
  st_bind (st_lift r) k s = (x, s') →
  (∃ a, r = Ok a ∧ k a s = (x, s')) ∨ (∀ y, x ≠ Ok y) ∧ s' = s.
Proof. unfold st_bind, st_lift. destruct r; intros; simplify_eq; eauto. Qed.
Lemma transaction_Ok {S E A} (m : ST S E A) s a s' :
  transaction m s = (Ok a, s') ↔ m s = (Ok a, s').
Proof. unfold transaction. destruct (m s) as [[] ?]; split; intros; simplify_eq; done. Qed.
Lemma st_bind_Ok {S E A B} (m : ST S E A) (k : A → ST S E B) s b s' :
  st_bind m k s = (Ok b, s') ↔ ∃ a s1, m s = (Ok a, s1) ∧ k a s1 = (Ok b, s').
Proof.
  unfold st_bind. destruct (m s) as [[] ?]; split; intros; try match goal with H : ∃ _, _ |- _ =>
    destruct H as (? & ? & ? & ?) end; simplify_eq; eauto.
Qed.
Lemma ensure_Ok {S E} (b : bool) (e : E) (s s' : S) u :
  ensure b e s = (Ok u, s') ↔ b = true ∧ s' = s.
Proof. unfold ensure. destruct u, b; split; intros; destruct_and?; simplify_eq; done. Qed.
Lemma st_lift_ok_or_Ok {S E A} (o : option A) (e : E) (s s' : S) a :
  st_lift (ok_or o e) s = (Ok a, s') ↔ o = Some a ∧ s' = s.
Proof. unfold st_lift, ok_or. destruct o; split; intros; destruct_and?; simplify_eq; done. Qed.
Lemma st_lift_Ok {S E A} (r : Res E A) (s s' : S) a :
  st_lift r s = (Ok a, s') ↔ r = Ok a ∧ s' = s.
Proof. unfold st_lift. split; intros; destruct_and?; simplify_eq; done. Qed.

Ltac ok_inv H :=
  cbv zeta in H;
  lazymatch type of H with
  | transaction _ _ = (Ok _, _) => rewrite transaction_Ok in H; ok_inv H
  | st_bind _ _ _ = (Ok _, _) =>
      let a := fresh "x" in let s := fresh "s" in let H1 := fresh "H" in
      apply st_bind_Ok in H; destruct H as (a & s & H1 & H); ok_inv H1; cbv beta in H; ok_inv H
  | ensure _ _ _ = (Ok _, _) =>
      let E := fresh in apply ensure_Ok in H; destruct H as [H E]; subst
  | st_lift (ok_or _ _) _ = (Ok _, _) =>
      let E := fresh in apply st_lift_ok_or_Ok in H; destruct H as [H E]; subst
  | st_lift _ _ = (Ok _, _) =>
      let E := fresh in apply st_lift_Ok in H; destruct H as [H E]; subst
  | get _ = (Ok _, _) => unfold get in H; simplify_eq
  | put _ _ = (Ok _, _) => unfold put in H; simplify_eq
  | modify _ _ = (Ok _, _) => unfold modify in H; simplify_eq
  | st_ret _ _ = (Ok _, _) => unfold st_ret in H; simplify_eq
  | (Ok _, _) = (Ok _, _) => simplify_eq
  | (Err _, _) = (Ok _, _) => discriminate H
  | (match ?x with _ => _ end) _ = (Ok _, _) =>
      let E := fresh "E" in destruct x eqn:E; ok_inv H
  | _ => idtac
  end.

Section tables.
Context `{Countable K} {V : Type}.
Implicit Types (m : gmap K V) (p : K → V → bool).

(** [update t set .. where p], [delete from t where p], [select count] and
    [select coalesce(sum(f), 0)] with the rows of [p]. *)
Definition update_where p (f : V → V) m : gmap K V :=
  map_imap (λ k v, Some (if p k v then f v else v)) m.
Definition delete_where p m : gmap K V := filter (λ kv, p kv.1 kv.2 = false) m.
Definition rows_where p m : gmap K V := filter (λ kv, p kv.1 kv.2 = true) m.
Definition sum_where p (f : V → Z) m : Z :=
  map_fold (λ k v acc, ((if p k v then f v else 0) + acc)%Z) 0%Z m.
Definition count_where p m : Z := sum_where p (λ _, 1%Z) m.
(** [select .. where p] with [fetch_optional]. *)
Definition fetch_where p m : option (K * V) := head (map_to_list (rows_where p m)).

Lemma lookup_update_where p f m k :
  update_where p f m !! k = (λ v, if p k v then f v else v) <$> m !! k.
Proof. unfold update_where. rewrite map_lookup_imap. by destruct (m !! k). Qed.
Lemma lookup_delete_where p m k :
  delete_where p m !! k
  = match m !! k with Some v => if p k v then None else Some v | None => None end.
Proof.
  unfold delete_where. destruct (m !! k) as [v|] eqn:Hk.
  - destruct (p k v) eqn:Hp.
    + apply map_lookup_filter_None. right. intros v' Hv' Hp'. simplify_eq/=. congruence.
    + apply map_lookup_filter_Some. done.
  - apply map_lookup_filter_None. by left.
Qed.
Lemma lookup_delete_where_Some p m k v :
  delete_where p m !! k = Some v ↔ m !! k = Some v ∧ p k v = false.
Proof. unfold delete_where. by rewrite map_lookup_filter_Some. Qed.
Lemma lookup_rows_where_Some p m k v :
  rows_where p m !! k = Some v ↔ m !! k = Some v ∧ p k v = true.
Proof. unfold rows_where. by rewrite map_lookup_filter_Some. Qed.

Lemma rows_where_empty p m k v : rows_where p m = ∅ → m !! k = Some v → p k v = false.
Proof.
  intros He Hk. destruct (p k v) eqn:E; [|done].
  assert (rows_where p m !! k = Some v) as Hr by by apply lookup_rows_where_Some.
  by rewrite He, lookup_empty in Hr.
Qed.
Lemma rows_where_inhabited p m : rows_where p m ≠ ∅ → ∃ k v, m !! k = Some v ∧ p k v = true.
Proof.
  intros Hne. apply map_choose in Hne as (k & v & Hkv). exists k, v. by apply lookup_rows_where_Some.
Qed.
Lemma fetch_where_Some p m k v :
  fetch_where p m = Some (k, v) → m !! k = Some v ∧ p k v = true.
Proof.
  unfold fetch_where. intros Hh. apply lookup_rows_where_Some, elem_of_map_to_list.
  apply list_elem_of_lookup. exists 0. by rewrite <- head_lookup.
Qed.
Lemma fetch_where_None p m k v :
  fetch_where p m = None → m !! k = Some v → p k v = false.
Proof.
  unfold fetch_where. intros Hh Hk. apply not_true_is_false. intros Hp.
  assert (rows_where p m !! k = Some v) as Hr by by apply lookup_rows_where_Some.
  apply elem_of_map_to_list in Hr. by destruct (map_to_list (rows_where p m)); [set_solver|].
Qed.

(** The query finds the row when at most one matches. *)
Lemma fetch_where_unique p m k v :
  m !! k = Some v → p k v = true →
  (∀ k' v', m !! k' = Some v' → p k' v' = true → k' = k) →
  fetch_where p m = Some (k, v).
Proof.
  intros Hk Hp Hu. destruct (fetch_where p m) as [[k' v']|] eqn:E.
  - apply fetch_where_Some in E as [Hk' Hp']. pose proof (Hu _ _ Hk' Hp'). by simplify_eq.
  - by rewrite (fetch_where_None _ _ _ _ E Hk) in Hp.
Qed.

Lemma sum_where_insert p f m k v :
  m !! k = None →
  sum_where p f (<[k := v]> m) = ((if p k v then f v else 0) + sum_where p f m)%Z.
Proof.
  intros Hk. unfold sum_where. rewrite map_fold_insert_L; [done| |done].
  intros. lia.
Qed.
Lemma sum_where_delete p f m k v :
  m !! k = Some v →
  sum_where p f m = ((if p k v then f v else 0) + sum_where p f (delete k m))%Z.
Proof.
  intros Hk. rewrite <- (insert_delete_id m k v) at 1 by done.
  apply sum_where_insert, lookup_delete_eq.
Qed.
(** Replacing a row changes the sum by the difference of the two rows. *)
Lemma sum_where_update p f m k v v' :
  m !! k = Some v →
  sum_where p f (<[k := v']> m)
  = (sum_where p f m - (if p k v then f v else 0) + (if p k v' then f v' else 0))%Z.
Proof.
  intros Hk. rewrite <- insert_delete_eq, sum_where_insert by apply lookup_delete_eq.
  rewrite (sum_where_delete p f m k v Hk). lia.
Qed.
Lemma sum_where_nonneg p f m : (∀ k v, m !! k = Some v → (0 ≤ f v)%Z) → (0 ≤ sum_where p f m)%Z.
Proof.
  induction m as [|k v m Hk IH] using map_ind; intros Hf; [done|].
  rewrite sum_where_insert by done.
  assert (0 ≤ f v)%Z by (apply (Hf k); apply lookup_insert_eq).
  assert (0 ≤ sum_where p f m)%Z; [|destruct (p k v); lia].
  apply IH. intros k' v' Hk'. apply (Hf k'). rewrite lookup_insert_ne; [done|].
  intros ->. by rewrite Hk in Hk'.
Qed.
(** Fewer rows, or rows that weigh less, do not weigh more. *)
Lemma sum_where_mono p f m m' :
  (∀ k v, m !! k = Some v → (0 ≤ f v)%Z) → m' ⊆ m → (sum_where p f m' ≤ sum_where p f m)%Z.
Proof.
  revert m'. induction m as [|k v m Hk IH] using map_ind; intros m' Hf Hsub.
  - assert (m' = ∅) as ->; [|done]. apply map_eq. intros k. rewrite lookup_empty.
    destruct (m' !! k) eqn:E; [|done]. eapply lookup_weaken in E; [|exact Hsub].
    by rewrite lookup_empty in E.
  - assert (0 ≤ f v)%Z by (apply (Hf k); apply lookup_insert_eq).
    assert (∀ k' v', m !! k' = Some v' → (0 ≤ f v')%Z) as Hf'.
    { intros k' v' Hk'. apply (Hf k'). rewrite lookup_insert_ne; [done|].
      intros ->. by rewrite Hk in Hk'. }
    rewrite sum_where_insert by done. destruct (m' !! k) as [v'|] eqn:Hk'.
    + assert (v' = v) as ->.
      { eapply lookup_weaken in Hk'; [|exact Hsub]. by rewrite lookup_insert_eq in Hk'; simplify_eq. }
      rewrite (sum_where_delete _ _ m' k v) by done.
      enough (sum_where p f (delete k m') ≤ sum_where p f m)%Z by lia. apply IH; [done|].
      rewrite <- (delete_insert_id m k v) by done. by apply delete_mono.
    + enough (sum_where p f m' ≤ sum_where p f m)%Z by (destruct (p k v); lia). apply IH; [done|].
      rewrite <- (delete_id m' k) by done. rewrite <- (delete_insert_id m k v) by done.
      by apply delete_mono.
Qed.
Lemma sum_where_none p f m : (∀ k v, m !! k = Some v → p k v = false) → sum_where p f m = 0%Z.
Proof.
  induction m as [|k v m Hk IH] using map_ind; intros Hp; [done|].
  rewrite sum_where_insert, (Hp k v) by (done || apply lookup_insert_eq).
  rewrite IH; [done|]. intros k' v' Hk'. apply Hp. rewrite lookup_insert_ne; [done|].
  intros ->. congruence.
Qed.
(** A query that matches one row. *)
Lemma sum_where_single p f m k v :
  m !! k = Some v → p k v = true → (∀ k' v', m !! k' = Some v' → p k' v' = true → k' = k) →
  sum_where p f m = f v.
Proof.
  intros Hk Hp Hu. rewrite (sum_where_delete p f m k v Hk), Hp, sum_where_none; [lia|].
  intros k' v' [Hne Hk']%lookup_delete_Some. apply not_true_is_false. intros Hp'.
  by destruct (Hu k' v' Hk' Hp').
Qed.
Lemma delete_where_subseteq p m : delete_where p m ⊆ m.
Proof. apply map_filter_subseteq. Qed.
End tables.
Arguments update_where {K _ _ V} p f m : simpl never.
Arguments delete_where {K _ _ V} p m : simpl never.
Arguments rows_where {K _ _ V} p m : simpl never.
Arguments sum_where {K _ _ V} p f m : simpl never.
Arguments fetch_where {K _ _ V} p m : simpl never.

(** ** Sorted lists with distinct keys *)

Lemma sorted_by_unique {A B} (R : relation B) (f : A → B) `{!Transitive R, !AntiSymm (=) R} (l1 l2 : list A) :
  Sorted (on_key R f) l1 → Sorted (on_key R f) l2 → l1 ≡ₚ l2 → NoDup (f <$> l1) → l1 = l2.
Proof.
  intros H1 H2 Hp Hnd.
  assert (f <$> l1 = f <$> l2) as E.
  { apply (Sorted_unique R); [..|by rewrite Hp]; by apply (Sorted_fmap f (on_key R f)). }
  apply list_eq. intros i. destruct (l1 !! i) as [x|] eqn:Hx, (l2 !! i) as [y|] eqn:Hy; try done.
  - f_equal. assert (y ∈ l1) as [j Hj]%list_elem_of_lookup_1
      by (rewrite Hp; by eapply list_elem_of_lookup_2).
    assert (f x = f y) as Hf.
    { assert ((f <$> l1) !! i = (f <$> l2) !! i) as Hi by by rewrite E.
      rewrite !list_lookup_fmap, Hx, Hy in Hi. by injection Hi. }
    assert (i = j); [|by simplify_eq].
    eapply (NoDup_lookup (f <$> l1)); [done|rewrite list_lookup_fmap, Hx; done|].
    rewrite list_lookup_fmap, Hj, Hf. done.
  - apply lookup_lt_Some in Hx. apply lookup_ge_None in Hy. apply Permutation_length in Hp. lia.
  - apply lookup_lt_Some in Hy. apply lookup_ge_None in Hx. apply Permutation_length in Hp. lia.
Qed.

Lemma NoDup_fmap_filter {A B} (f : A → B) (P : A → Prop) `{∀ x, Decision (P x)} (l : list A) :
  NoDup (f <$> l) → NoDup (f <$> filter P l).
Proof. intros Hl. by eapply sublist_NoDup; [|apply fmap_sublist, sublist_filter]. Qed.

#[export] Instance on_key_total {A B} (R : relation B) (f : A → B) `{!Total R} : Total (on_key R f).
Proof. intros x y. apply (total R (f x) (f y)). Qed.

(** [order by] a column without repetitions. *)
Section sort_by_key.
Context {A B : Type} {R : relation B} `{!RelDecision R, !Transitive R, !AntiSymm (=) R, !Total R}.
Lemma sort_by_key_unique (f : A → B) (l1 l2 : list A) :
  l1 ≡ₚ l2 → NoDup (f <$> l1) → sort_by_key R f l1 = sort_by_key R f l2.
Proof.
  intros Hp Hnd. unfold sort_by_key. apply (sorted_by_unique R f).
  - apply Sorted_merge_sort. apply _.
  - apply Sorted_merge_sort. apply _.
  - by rewrite !merge_sort_Permutation.
  - by rewrite merge_sort_Permutation.
Qed.
Lemma sort_by_key_sorted (f : A → B) (l : list A) :
  Sorted (on_key R f) l → NoDup (f <$> l) → sort_by_key R f l = l.
Proof.
  intros Hs Hnd. unfold sort_by_key.
  apply (sorted_by_unique R f); [|done|apply merge_sort_Permutation|].
  - apply Sorted_merge_sort. apply _.
  - by rewrite merge_sort_Permutation.
Qed.
End sort_by_key.
