(* ===== verification/MediaStore.v ===== *)
(** * MediaStore: resumable uploads

    Models [src/media_store.rs] with its preview jobs ([src/media_store/preview.rs]),
    the tables and triggers of [migrations/sqlite/0064_media_upload_chunks.sql] and
    [0065_media_budget_policy.sql], and the methods of [src/db/sqlite.rs] that write
    and read media. A file is created, sent in chunks of one mebibyte, sealed and
    completed; completing validates the stored chunks and publishes a media object
    without copying them. [complete] runs in several transactions, so its parts are
    definitions of their own ([seal], [scan_chunk], [scan_finish], [publish]) that
    other work can come between. A method reads the clock once. *)

From Stdlib Require Import ZifyBool.
From stdpp Require Import base tactics numbers strings countable gmap list.
From S2P Require Import Prelude RustStr Text Ids Models Policy RepoState RepoUsers Sql Attachments.

(** [Sha256::digest] formatted with [{:x}]. Feeding the hasher piece by piece gives
    the digest of the concatenation. *)
Class Sha256Lib := {
  sha256_hex : bytes → str;
  sha256_hex_length b : length (sha256_hex b) = 64 }.

(** A stand-in for the library, to let examples compute. *)
#[local] Lemma demo_sha256_length (b : bytes) : length (take 64 (b ++ replicate 64 48%N)) = 64.
Proof. rewrite length_take, length_app, length_replicate. lia. Qed.
Definition demo_sha256 : Sha256Lib := {|
  sha256_hex b := take 64 (b ++ replicate 64 48%N);
  sha256_hex_length := demo_sha256_length |}.

(** ** Data *)

Definition CHUNK_BYTES : N := 1048576.
Definition UPLOAD_TTL : Z := 24 * 60 * 60.

Abbreviation UploadId := N (only parsing).

Record UploadLimits : Type := mk_UploadLimits {
  max_file_bytes : N;
  owner_bytes : N;
  total_bytes : N }.
Record MediaStore : Type := mk_MediaStore {
  limits : UploadLimits;
  allowed_channels : option (list ChannelId) }.

Record NewUpload : Type := mk_NewUpload {
  NewUpload_request_id : Uuid;
  NewUpload_filename : str;
  NewUpload_content_type : str;
  NewUpload_size_bytes : N }.

Inductive UploadState : Type := Open_ | Sealed | Complete.
#[export] Instance UploadState_eq_dec : EqDecision UploadState.
Proof. solve_decision. Defined.

Inductive UploadError : Type :=
  | UploadError_NotFound | UploadError_Conflict | UploadError_Quota | UploadError_Invalid
  | UploadError_Unsupported | UploadError_Storage.

(** A row of [media_uploads]. *)
Record Upload : Type := mk_Upload {
  owner_id : UserId;
  channel_id : ChannelId;
  request_id : Uuid;
  original_filename : str;
  declared_type : str;
  expected_bytes : N;
  received_bytes : N;
  next_chunk : N;
  state : UploadState;
  created_at : Z;
  expires_at : Z;
  media_id : option MediaId }.
#[export] Instance Upload_eta : Eta Upload := λ u,
  mk_Upload (owner_id u) (channel_id u) (request_id u) (original_filename u) (declared_type u)
    (expected_bytes u) (received_bytes u) (next_chunk u) (state u) (created_at u) (expires_at u)
    (media_id u).

(** [UploadStatus] is the row with its identifier. *)
Record UploadStatus : Type := mk_UploadStatus { status_id : UploadId; status_row : Upload }.

(** A row of [media_upload_chunks], and the two formats of [media_objects.storage_key]:
    [db:{id}] and [chunks:v1:{id}]. *)
Record Chunk : Type := mk_Chunk { content : bytes; chunk_sha256 : str }.
Inductive StorageKey : Type := Key_db (id : MediaId) | Key_chunks (id : UploadId).
#[export] Instance StorageKey_eq_dec : EqDecision StorageKey.
Proof. solve_decision. Defined.

(** A row of [media_preview_jobs]. *)
Inductive PreviewState : Type := Preview_pending | Preview_running | Preview_ready | Preview_failed.
#[export] Instance PreviewState_eq_dec : EqDecision PreviewState.
Proof. solve_decision. Defined.
Record PreviewRow : Type := mk_PreviewRow {
  preview_state : PreviewState;
  attempts : N;
  available_at : Z;
  lease : option (Uuid * Z);
  last_error : str }.

(** The policy row of [media_upload_budget]. *)
Record BudgetRow : Type := mk_BudgetRow {
  budget_max_file_bytes : option N;
  budget_owner_bytes : option N;
  budget_total_bytes : option N }.

Record MediaDb : Type := mk_MediaDb {
  budget : BudgetRow;
  channel_memberships : gset (ChannelId * UserId);
  media_uploads : gmap UploadId Upload;
  media_upload_chunks : gmap (UploadId * N) Chunk;
  media_objects : gmap MediaId (MediaObject * StorageKey);
  media_blobs : gmap MediaId bytes;
  media_preview_jobs : gmap MediaId PreviewRow;
  media_variants : gmap MediaId MediaVariant }.
#[export] Instance MediaDb_eta : Eta MediaDb := λ d,
  mk_MediaDb (budget d) (channel_memberships d) (media_uploads d) (media_upload_chunks d)
    (media_objects d) (media_blobs d) (media_preview_jobs d) (media_variants d).

Definition Media (A : Type) : Type := ST MediaDb UploadError A.

(** ** Constraints and triggers of the schema *)

(** The row constraints of [media_uploads]. *)
Definition upload_checks (u : Upload) : bool :=
  let n := length (original_filename u) in
  let t := length (declared_type u) in
  (1 <=? n) && (n <=? 255) && (1 <=? t) && (t <=? 127)
  && (1 <=? expected_bytes u)%N && (expected_bytes u <=? 1073741824)%N
  && (received_bytes u <=? expected_bytes u)%N
  && (created_at u <? expires_at u)%Z
  && Bool.eqb (bool_decide (state u = Complete)) (bool_decide (is_Some (media_id u))).

(** [case when size_bytes<1048576 then 1048576 else size_bytes end] *)
Definition charge (size : N) : Z := Z.of_N (N.max size 1048576).
Definition object_charge (o : MediaObject * StorageKey) : Z := charge (MediaObject_size_bytes o.1).
Definition upload_charge (u : Upload) : Z := charge (expected_bytes u).
Definition active (u : Upload) : bool := negb (bool_decide (state u = Complete)).
Definition owned_upload (owner : UserId) (u : Upload) : bool := bool_decide (owner_id u = owner).
Definition owned_object (owner : UserId) (o : MediaObject * StorageKey) : bool :=
  bool_decide (MediaObject_owner_id o.1 = owner).

(** The bytes charged in all, and to one owner. *)
Definition total_charge (db : MediaDb) : Z :=
  (sum_where (λ _ _, true) object_charge (media_objects db)
   + sum_where (λ _ u, active u) upload_charge (media_uploads db))%Z.
Definition owner_charge (owner : UserId) (db : MediaDb) : Z :=
  (sum_where (λ _ o, owned_object owner o) object_charge (media_objects db)
   + sum_where (λ _ u, owned_upload owner u && active u) upload_charge (media_uploads db))%Z.

(** The sealed upload a new object is published from, whose reservation the trigger
    [media_object_budget] gives back. *)
Definition published_from (object : MediaObject) (key : StorageKey) (id : UploadId) (u : Upload)
    : bool :=
  bool_decide (key = Key_chunks id)
  && owned_upload (MediaObject_owner_id object) u
  && bool_decide (channel_id u = MediaObject_channel_id object)
  && (expected_bytes u =? MediaObject_size_bytes object)%N
  && (received_bytes u =? expected_bytes u)%N
  && bool_decide (state u = Sealed)
  && bool_decide (media_id u = None).

(** The trigger [media_object_budget]; [false] raises [SPROYT_MEDIA_QUOTA]. *)
Definition media_object_budget (object : MediaObject) (key : StorageKey) (db : MediaDb) : bool :=
  match budget_total_bytes (budget db) with
  | None => true
  | Some total =>
      let size := MediaObject_size_bytes object in
      let released := sum_where (published_from object key) upload_charge (media_uploads db) in
      let over (limit : option N) (n : Z) : bool :=
        match limit with Some l => (Z.of_N l <? n)%Z | None => false end in
      negb (over (budget_max_file_bytes (budget db)) (Z.of_N size)
            || over (Some total) (total_charge db + charge size - released)%Z
            || over (budget_owner_bytes (budget db))
                 (owner_charge (MediaObject_owner_id object) db + charge size - released)%Z)
  end.

(** The row constraints of [media_objects] on the columns that vary. *)
Definition object_checks (o : MediaObject) : bool :=
  let n := length (MediaObject_original_filename o) in
  let t := length (MediaObject_content_type o) in
  (1 <=? n) && (n <=? 255) && (1 <=? t) && (t <=? 127).

(** [insert into media_objects]: the trigger, the row constraints, the primary key
    and the unique storage key, with the errors [quota], [storage] and [conflict]. *)
Definition key_taken (key : StorageKey) (db : MediaDb) : bool :=
  bool_decide (is_Some (fetch_where (λ _ (o : MediaObject * StorageKey), bool_decide (o.2 = key))
                          (media_objects db))).
Definition insert_object {E} (quota storage conflict : E) (object : MediaObject) (key : StorageKey)
    : ST MediaDb E unit :=
  let! db := get in
  ensure (media_object_budget object key db) quota ;;;
  ensure (object_checks object) storage ;;;
  ensure (negb (contains_key (MediaObject_id object) (media_objects db)) && negb (key_taken key db))
    conflict ;;;
  put (db <| media_objects := <[MediaObject_id object := (object, key)]> (media_objects db) |>).

(** Deleting uploads deletes their chunks ([on delete cascade]). *)
Definition delete_uploads (p : UploadId → Upload → bool) (db : MediaDb) : MediaDb :=
  let gone id := match media_uploads db !! id with Some u => p id u | None => false end in
  db <| media_uploads := delete_where p (media_uploads db) |>
     <| media_upload_chunks := delete_where (λ k _, gone k.1) (media_upload_chunks db) |>.
(** Deleting media objects deletes the uploads, blobs, jobs and previews that
    reference them. *)
Definition delete_objects (p : MediaId → MediaObject * StorageKey → bool) (db : MediaDb)
    : MediaDb :=
  let gone id := match media_objects db !! id with Some o => p id o | None => false end in
  let db := delete_uploads (λ _ u, match media_id u with Some m => gone m | None => false end) db in
  db <| media_objects := delete_where p (media_objects db) |>
     <| media_blobs := delete_where (λ m _, gone m) (media_blobs db) |>
     <| media_preview_jobs := delete_where (λ m _, gone m) (media_preview_jobs db) |>
     <| media_variants := delete_where (λ m _, gone m) (media_variants db) |>.
(** Deleting a channel deletes its memberships, uploads and media. *)
Definition delete_channel_rows (c : ChannelId) (db : MediaDb) : MediaDb :=
  let db := delete_objects (λ _ o, bool_decide (MediaObject_channel_id o.1 = c)) db in
  let db := delete_uploads (λ _ u, bool_decide (channel_id u = c)) db in
  db <| channel_memberships := filter (λ m, m.1 ≠ c) (channel_memberships db) |>.

(** ** The store *)

(** [MediaStore::connect], up to opening the database. *)
Definition limits_valid (l : UploadLimits) : bool :=
  negb ((max_file_bytes l =? 0)%N || (1073741824 <? max_file_bytes l)%N
        || (owner_bytes l <? max_file_bytes l)%N || (total_bytes l <? owner_bytes l)%N
        || (i64_max <? Z.of_N (total_bytes l))%Z).

Section store.
Context `{Sha256Lib} (self : MediaStore).

Definition channel_enabled (channel : ChannelId) : bool :=
  match allowed_channels self with
  | None => true
  | Some ids => bool_decide (channel ∈ ids)
  end.

(** The trigger [media_budget_policy_update] accepts valid limits, so the update of
    the policy does not fail. *)
Definition check_policy (initialize : bool) : Media unit :=
  transaction (
    let! db := get in
    let row := budget db in
    let wanted := mk_BudgetRow (Some (max_file_bytes (limits self)))
                    (Some (owner_bytes (limits self))) (Some (total_bytes (limits self))) in
    if bool_decide (budget_total_bytes row = None) && initialize
    then put (db <| budget := wanted |>)
    else
      ensure (bool_decide (budget_total_bytes row = budget_total_bytes wanted)
              && bool_decide (budget_max_file_bytes row = budget_max_file_bytes wanted)
              && bool_decide (budget_owner_bytes row = budget_owner_bytes wanted))
        UploadError_Conflict).

(** [read_upload!]: the row of the actor's upload, while the actor is a member. *)
Definition read_upload (now : Z) (actor : UserId) (id : UploadId) : Media UploadStatus :=
  let! db := get in
  let! u := st_lift (ok_or (media_uploads db !! id) UploadError_NotFound) in
  ensure (bool_decide (owner_id u = actor)
          && bool_decide ((channel_id u, owner_id u) ∈ channel_memberships db))
    UploadError_NotFound ;;;
  ensure (negb (active u && (expires_at u <=? now)%Z)) UploadError_NotFound ;;;
  ensure (channel_enabled (channel_id u)) UploadError_NotFound ;;;
  st_ret (mk_UploadStatus id u).

Definition accepted_types : list string :=
  ["application/octet-stream"; "image/jpeg"; "image/jpg"; "image/png"; "image/gif";
   "image/webp"; "image/heic"; "image/heif"; "image/avif"; "video/mp4"; "video/quicktime";
   "video/webm"; "video/x-matroska"; "application/pdf"; "application/zip";
   "application/x-zip-compressed"; "text/plain"; "text/csv"]%string.
Definition accepted_type (t : str) : bool := existsb (λ a, bool_decide (t = lit a)) accepted_types.

(** The guard of [create] on its input. *)
Definition valid_new_upload (input : NewUpload) : bool :=
  let size := NewUpload_size_bytes input in
  let filename := NewUpload_filename input in
  let content_type := NewUpload_content_type input in
  negb ((size =? 0)%N || (max_file_bytes (limits self) <? size)%N
        || bool_decide (filename = []) || (255 <? length filename)
        || existsb is_control filename
        || bool_decide (content_type = []) || (127 <? len content_type)%N
        || existsb is_control content_type).

(** [insert into media_uploads]. *)
Definition insert_upload (id : UploadId) (u : Upload) : Media unit :=
  let! db := get in
  ensure (upload_checks u && negb (contains_key id (media_uploads db))
          && negb (bool_decide (is_Some (fetch_where
               (λ _ v, owned_upload (owner_id u) v && (request_id v =? request_id u)%N)
               (media_uploads db))))) UploadError_Storage ;;;
  put (db <| media_uploads := <[id := u]> (media_uploads db) |>).
(** [update media_uploads set .. where id=?] *)
Definition update_upload (id : UploadId) (f : Upload → Upload) : Media unit :=
  let! db := get in
  match media_uploads db !! id with
  | Some u =>
      ensure (upload_checks (f u)) UploadError_Storage ;;;
      put (db <| media_uploads := <[id := f u]> (media_uploads db) |>)
  | None => st_ret tt
  end.

(** The new row of [create], admitted within the counts and the budgets. *)
Definition admit_upload (fresh : UploadId) (now : Z) (actor : UserId) (channel : ChannelId)
    (input : NewUpload) : Media UploadId :=
  let! db := get in
  let active_count := count_where (λ _ u, active u) (media_uploads db) in
  let owner_active := count_where (λ _ u, owned_upload actor u && active u) (media_uploads db) in
  ensure (negb ((64 <=? active_count)%Z || (8 <=? owner_active)%Z)) UploadError_Quota ;;;
  let reservation := N.max (NewUpload_size_bytes input) CHUNK_BYTES in
  let saturating_add (a : Z) : N := N.min (Z.to_N a + reservation) u64_max in
  ensure (negb ((total_bytes (limits self) <? saturating_add (total_charge db))%N
                || (owner_bytes (limits self) <? saturating_add (owner_charge actor db))%N))
    UploadError_Quota ;;;
  insert_upload fresh {|
    owner_id := actor; channel_id := channel; request_id := NewUpload_request_id input;
    original_filename := NewUpload_filename input; declared_type := NewUpload_content_type input;
    expected_bytes := NewUpload_size_bytes input; received_bytes := 0; next_chunk := 0;
    state := Open_; created_at := now; expires_at := now + UPLOAD_TTL; media_id := None |} ;;;
  st_ret fresh.

Definition create (fresh : UploadId) (now : Z) (actor : UserId) (channel : ChannelId)
    (input : NewUpload) : Media UploadStatus :=
  ensure (channel_enabled channel) UploadError_NotFound ;;;
  ensure (accepted_type (NewUpload_content_type input)) UploadError_Unsupported ;;;
  ensure (valid_new_upload input) UploadError_Invalid ;;;
  transaction (
    let! db := get in
    ensure (bool_decide ((channel, actor) ∈ channel_memberships db)) UploadError_NotFound ;;;
    let! id := match fetch_where (λ _ u, owned_upload actor u
                                   && (request_id u =? NewUpload_request_id input)%N)
                       (media_uploads db) with
      | Some (id, _) =>
          let! previous := read_upload now actor id in
          let row := status_row previous in
          ensure (bool_decide (channel_id row = channel)
                  && (expected_bytes row =? NewUpload_size_bytes input)%N
                  && bool_decide (original_filename row = NewUpload_filename input)
                  && bool_decide (declared_type row = NewUpload_content_type input))
            UploadError_Conflict ;;;
          st_ret id
      | None => admit_upload fresh now actor channel input
      end in
    read_upload now actor id).

Definition status (now : Z) (actor : UserId) (id : UploadId) : Media UploadStatus :=
  read_upload now actor id.

(** The length a chunk must have. *)
Definition chunk_length (size index : N) : N := N.min (size - index * CHUNK_BYTES) CHUNK_BYTES.

Definition put_chunk (now : Z) (actor : UserId) (id : UploadId) (index : N) (input : bytes)
    (claimed_hash : str) : Media UploadStatus :=
  let n := N.of_nat (length input) in
  ensure (negb ((n =? 0)%N || (CHUNK_BYTES <? n)%N)) UploadError_Invalid ;;;
  let hash := sha256_hex input in
  ensure (bool_decide (hash = claimed_hash)) UploadError_Invalid ;;;
  transaction (
    let! current := read_upload now actor id in
    let row := status_row current in
    ensure (bool_decide (state row = Open_) && negb (next_chunk row <? index)%N)
      UploadError_Conflict ;;;
    let offset := (index * CHUNK_BYTES)%N in
    ensure (negb ((expected_bytes row <=? offset)%N
                  || negb (n =? chunk_length (expected_bytes row) index)%N)) UploadError_Invalid ;;;
    (if (index <? next_chunk row)%N then
       let! db := get in
       ensure (bool_decide ((content <$> media_upload_chunks db !! (id, index)) = Some input))
         UploadError_Conflict
     else
       let! db := get in
       ensure (negb (contains_key (id, index) (media_upload_chunks db))) UploadError_Storage ;;;
       put (db <| media_upload_chunks :=
              <[(id, index) := mk_Chunk input hash]> (media_upload_chunks db) |>) ;;;
       update_upload id (λ u, u <| next_chunk := (next_chunk u + 1)%N |>
                                <| received_bytes := (received_bytes u + n)%N |>)) ;;;
    read_upload now actor id).

Definition seal (now : Z) (actor : UserId) (id : UploadId) : Media UploadStatus :=
  transaction (
    let! current := read_upload now actor id in
    let row := status_row current in
    ensure (received_bytes row =? expected_bytes row)%N UploadError_Conflict ;;;
    (if bool_decide (state row = Open_) then update_upload id (λ u, u <| state := Sealed |>)
     else st_ret tt) ;;;
    read_upload now actor id).

Definition read_sealed_chunk (now : Z) (actor : UserId) (id : UploadId) (index : N) : Media bytes :=
  let! db := get in
  let! u := st_lift (ok_or (media_uploads db !! id) UploadError_NotFound) in
  ensure (bool_decide (owner_id u = actor)
          && bool_decide ((channel_id u, owner_id u) ∈ channel_memberships db)
          && (bool_decide (state u = Complete)
              || bool_decide (state u = Sealed) && (now <? expires_at u)%Z)) UploadError_NotFound ;;;
  let! chunk := st_lift (ok_or (media_upload_chunks db !! (id, index)) UploadError_NotFound) in
  st_ret (content chunk).

(** *** Completion *)

(** The local variables of the scan in [complete]; [hashed] is what the hasher has
    been fed. *)
Record Scan : Type := mk_Scan {
  hashed : bytes;
  detected_type : option str;
  attachment : option Validator;
  scan_length : N }.
Definition Scan_new : Scan := mk_Scan [] None None 0.

(** A declared document is never promoted to another type. *)
Definition classify (first : bytes) (declared : str) : option str :=
  let detected := detected_media_type first declared in
  let only (t : string) := match detected with
    | Some k => if decide (k = lit t) then Some k else None | None => None end in
  if decide (declared = lit "text/plain" ∨ declared = lit "text/csv") then Some declared
  else if decide (declared = lit "application/pdf") then only "application/pdf"%string
  else if decide (declared = lit "application/zip" ∨ declared = lit "application/x-zip-compressed")
  then only "application/zip"%string
  else detected.

(** The body of the loop over the chunks. *)
Definition scan_chunk (declared : str) (index : N) (input : bytes) (scan : Scan)
    : Res UploadError Scan :=
  let scan := if (index =? 0)%N
    then let kind := classify input declared in
         mk_Scan (hashed scan) kind (Validator_new <$> kind) (scan_length scan)
    else scan in
  let next v := Ok (mk_Scan (hashed scan ++ input) (detected_type scan) v
                      (scan_length scan + N.of_nat (length input))) in
  match attachment scan with
  | Some v =>
      match push input v with
      | (true, v') => next (Some v')
      | (false, _) => Err UploadError_Unsupported
      end
  | None => next None
  end.

(** The tests after the loop: the type and the digest of the file. *)
Definition scan_finish (size : N) (scan : Scan) : Res UploadError (str * str) :=
  if negb (scan_length scan =? size)%N then Err UploadError_Conflict
  else match detected_type scan with
  | None => Err UploadError_Unsupported
  | Some content_type =>
      match attachment scan with
      | Some v => if finish v then Ok (content_type, sha256_hex (hashed scan))
                  else Err UploadError_Unsupported
      | None => Err UploadError_Unsupported
      end
  end.

(** The last transaction of [complete]. *)
Definition publish (fresh : MediaId) (now : Z) (actor : UserId) (id : UploadId)
    (content_type sha256 : str) : Media MediaId :=
  transaction (
    let! current := read_upload now actor id in
    let row := status_row current in
    match media_id row with
    | Some m => st_ret m
    | None =>
        ensure (bool_decide (state row = Sealed)) UploadError_Conflict ;;;
        insert_object UploadError_Quota UploadError_Storage UploadError_Storage {|
          MediaObject_id := fresh; MediaObject_owner_id := actor;
          MediaObject_channel_id := channel_id row;
          MediaObject_original_filename := original_filename row;
          MediaObject_content_type := content_type; MediaObject_size_bytes := expected_bytes row;
          MediaObject_sha256 := sha256; MediaObject_width := None; MediaObject_height := None;
          MediaObject_duration_ms := None; MediaObject_alt_text := [];
          MediaObject_analysis_status := lit "pending"; MediaObject_analysis_metadata := JObject [];
          MediaObject_created_at := now |} (Key_chunks id) ;;;
        update_upload id (λ u, u <| state := Complete |> <| media_id := Some fresh |>) ;;;
        (if starts_with content_type (lit "image/") then
           let! db := get in
           ensure (negb (contains_key fresh (media_preview_jobs db))) UploadError_Storage ;;;
           put (db <| media_preview_jobs :=
                  <[fresh := mk_PreviewRow Preview_pending 0 now None []]> (media_preview_jobs db) |>)
         else st_ret tt) ;;;
        st_ret fresh
    end).

(** [complete] without interruption: [indices] are the numbers of the chunks. *)
Fixpoint scan_chunks (now : Z) (actor : UserId) (id : UploadId) (declared : str)
    (indices : list N) (scan : Scan) : Media Scan :=
  match indices with
  | [] => st_ret scan
  | index :: indices' =>
      let! input := read_sealed_chunk now actor id index in
      let! scan := st_lift (scan_chunk declared index input scan) in
      scan_chunks now actor id declared indices' scan
  end.
Definition chunk_indices (n : N) : list N := N.of_nat <$> seq 0 (N.to_nat n).

Definition complete (fresh : MediaId) (now : Z) (actor : UserId) (id : UploadId) : Media MediaId :=
  let! sealed := seal now actor id in
  let row := status_row sealed in
  match media_id row with
  | Some m => st_ret m
  | None =>
      let! scan := scan_chunks now actor id (declared_type row) (chunk_indices (next_chunk row))
                     Scan_new in
      let! (content_type, sha256) := st_lift (scan_finish (expected_bytes row) scan) in
      publish fresh now actor id content_type sha256
  end.

Definition abort (now : Z) (actor : UserId) (id : UploadId) : Media unit :=
  transaction (
    let! current := read_upload now actor id in
    ensure (active (status_row current)) UploadError_Conflict ;;;
    modify (delete_uploads (λ k _, (k =? id)%N))).

Definition cleanup_expired (now : Z) : Media Z :=
  let! db := get in
  let expired (_ : UploadId) u := active u && (expires_at u <=? now)%Z in
  put (delete_uploads expired db) ;;;
  st_ret (count_where expired (media_uploads db)).
End store.
