(* ===== verification/MediaPreview.v ===== *)
(** * MediaPreview: preview jobs, and the media methods of the SQL repository

    Models the preview worker's operations ([src/media_store/preview.rs]) and
    [store_media], [media_metadata], [read_media_slice], [media_preview_state] and
    [load_media_preview] of [src/db/sqlite.rs], on the tables of [MediaStore]. *)

From Stdlib Require Import ZifyBool.
From stdpp Require Import base tactics numbers strings countable sorting gmap list.
From S2P Require Import Prelude RustStr Text Ids Models Policy RepoState RepoUsers Sql Attachments MediaStore.

(** ** Preview jobs *)

Definition PREVIEW_MAX_BYTES : N := 4 * CHUNK_BYTES.
Definition LEASE_SECONDS : Z := 180.
Definition MAX_ATTEMPTS : N := 3.

Record PreviewJob : Type := mk_PreviewJob {
  job_media_id : MediaId;
  job_token : Uuid;
  job_size_bytes : N;
  job_sha256 : str }.

(** [lease_until<=?] and [lease_token=? and lease_until>?] of a running job. *)
Definition lease_over (now : Z) (j : PreviewRow) : bool :=
  match lease j with Some (_, until) => (until <=? now)%Z | None => false end.
Definition holds_lease (now : Z) (token : Uuid) (j : PreviewRow) : bool :=
  bool_decide (preview_state j = Preview_running)
  && match lease j with
     | Some (t, until) => (t =? token)%N && (now <? until)%Z
     | None => false
     end.

(** The first update of [claim_preview]: jobs that used up their attempts fail. *)
Definition exhausted (now : Z) (_ : MediaId) (j : PreviewRow) : bool :=
  (MAX_ATTEMPTS <=? attempts j)%N
  && (bool_decide (preview_state j = Preview_running) && lease_over now j
      || bool_decide (preview_state j = Preview_pending)).
Definition give_up_exhausted (j : PreviewRow) : PreviewRow :=
  mk_PreviewRow Preview_failed (attempts j) (available_at j) None (lit "preview attempts exhausted").

(** The candidates of the claim and their order: [available_at], then [media_id]. *)
Definition claimable (now : Z) (_ : MediaId) (j : PreviewRow) : bool :=
  (attempts j <? MAX_ATTEMPTS)%N
  && (bool_decide (preview_state j = Preview_pending) && (available_at j <=? now)%Z
      || bool_decide (preview_state j = Preview_running) && lease_over now j).
Definition claim_le (a b : MediaId * PreviewRow) : Prop :=
  (available_at a.2 < available_at b.2)%Z
  ∨ available_at a.2 = available_at b.2 ∧ (MediaId_as_uuid a.1 ≤ MediaId_as_uuid b.1)%N.
#[export] Instance claim_le_dec : RelDecision claim_le.
Proof. intros a b. unfold claim_le. apply _. Defined.

Definition claim_preview (token : Uuid) (now : Z) : Media (option PreviewJob) :=
  transaction (
    modify (λ db, db <| media_preview_jobs :=
      update_where (exhausted now) give_up_exhausted (media_preview_jobs db) |>) ;;;
    let! db := get in
    let candidates := rows_where (λ m j, claimable now m j && contains_key m (media_objects db))
                        (media_preview_jobs db) in
    match head (merge_sort claim_le (map_to_list candidates)) with
    | None => st_ret None
    | Some (m, j) =>
        match media_objects db !! m with
        | None => st_ret None
        | Some (object, _) =>
            put (db <| media_preview_jobs :=
              <[m := mk_PreviewRow Preview_running (attempts j + 1) (available_at j)
                       (Some (token, now + LEASE_SECONDS)%Z) (last_error j)]>
                (media_preview_jobs db) |>) ;;;
            st_ret (Some (mk_PreviewJob m token (MediaObject_size_bytes object)
                            (MediaObject_sha256 object)))
        end
    end).

(** The completed upload of a media object. *)
Definition upload_of (m : MediaId) (db : MediaDb) : option (UploadId * Upload) :=
  fetch_where (λ _ u, bool_decide (media_id u = Some m) && bool_decide (state u = Complete))
    (media_uploads db).

Definition preview_chunk (now : Z) (job : PreviewJob) (index : N) : Media bytes :=
  let! db := get in
  let held := match media_preview_jobs db !! job_media_id job with
    | Some j => holds_lease now (job_token job) j | None => false end in
  ensure held UploadError_Conflict ;;;
  let! (id, _) := st_lift (ok_or (upload_of (job_media_id job) db) UploadError_Conflict) in
  let! chunk := st_lift (ok_or (media_upload_chunks db !! (id, index)) UploadError_Conflict) in
  st_ret (content chunk).

(** [update media_preview_jobs set .. where media_id=? and state='running' and
    lease_token=? and lease_until>?], with the number of rows it changes. *)
Definition update_leased (now : Z) (job : PreviewJob) (f : PreviewRow → PreviewRow)
    : Media bool :=
  let! db := get in
  match media_preview_jobs db !! job_media_id job with
  | Some j =>
      if holds_lease now (job_token job) j then
        put (db <| media_preview_jobs := <[job_media_id job := f j]> (media_preview_jobs db) |>) ;;;
        st_ret true
      else st_ret false
  | None => st_ret false
  end.

Definition publish_preview (now : Z) (job : PreviewJob) (input : bytes) (width height : N)
    : Media unit :=
  let n := N.of_nat (length input) in
  ensure (negb ((n =? 0)%N || (PREVIEW_MAX_BYTES <? n)%N || (width =? 0)%N || (height =? 0)%N
                || (720 <? width)%N || (720 <? height)%N)) UploadError_Invalid ;;;
  transaction (
    let! changed := update_leased now job
      (λ j, mk_PreviewRow Preview_ready (attempts j) (available_at j) None []) in
    ensure changed UploadError_Conflict ;;;
    modify (λ db, db <| media_variants :=
      <[job_media_id job := mk_MediaVariant (lit "image/jpeg") width height input]>
        (media_variants db) |>)).

Definition fail_preview (now : Z) (job : PreviewJob) : Media unit :=
  transaction (
    update_leased now job
      (λ j, mk_PreviewRow (if (MAX_ATTEMPTS <=? attempts j)%N then Preview_failed else Preview_pending)
              (attempts j) (now + 30) None (lit "preview processing failed")) ;;;
    st_ret tt).

(** ** The media methods of the SQL repository *)

(** The text of a storage error is the database driver's; the model leaves it empty. *)
Definition SqlMedia (A : Type) : Type := ST MediaDb RepositoryError A.

(** The object [store_media] builds from an upload. *)
Definition stored_object (fresh : MediaId) (now : DateTime) (upload : MediaUpload) (sha256 : str)
    : MediaObject := {|
  MediaObject_id := fresh; MediaObject_owner_id := MediaUpload_actor upload;
  MediaObject_channel_id := MediaUpload_channel_id upload;
  MediaObject_original_filename := MediaUpload_filename upload;
  MediaObject_content_type := MediaUpload_content_type upload;
  MediaObject_size_bytes := N.of_nat (length (MediaUpload_content upload));
  MediaObject_sha256 := sha256;
  MediaObject_width := fst <$> MediaUpload_dimensions upload;
  MediaObject_height := snd <$> MediaUpload_dimensions upload;
  MediaObject_duration_ms := None; MediaObject_alt_text := [];
  MediaObject_analysis_status := lit "pending";
  MediaObject_analysis_metadata := JObject [];
  MediaObject_created_at := now |}.
Definition sql_store_media (fresh : MediaId) (now : DateTime) (upload : MediaUpload) (sha256 : str)
    : SqlMedia MediaObject :=
  let! db := get in
  ensure (bool_decide ((MediaUpload_channel_id upload, MediaUpload_actor upload)
                         ∈ channel_memberships db)) PermissionDenied ;;;
  let object := stored_object fresh now upload sha256 in
  transaction (
    insert_object Quota (Storage []) Conflict object (Key_db fresh) ;;;
    modify (λ db, db <| media_blobs := <[fresh := MediaUpload_content upload]> (media_blobs db) |>) ;;;
    match MediaUpload_preview upload with
    | Some preview =>
        ensure ((0 <? MediaVariant_width preview)%N && (0 <? MediaVariant_height preview)%N)
          (Storage []) ;;;
        modify (λ db, db <| media_variants := <[fresh := preview]> (media_variants db) |>)
    | None => st_ret tt
    end ;;;
    st_ret object).

(** [media_objects m join channel_memberships cm on .. and cm.user_id=? where m.id=?] *)
Definition visible_object (actor : UserId) (m : MediaId) (db : MediaDb) : option MediaObject :=
  match media_objects db !! m with
  | Some (object, _) =>
      if decide ((MediaObject_channel_id object, actor) ∈ channel_memberships db)
      then Some object else None
  | None => None
  end.

Definition sql_media_metadata (actor : UserId) (m : MediaId) : SqlMedia MediaObject :=
  let! db := get in
  st_lift (ok_or (visible_object actor m db) NotFound).

(** SQL's [substr(content, start, count)] for a positive [start]. *)
Definition substr (l : bytes) (start count : N) : bytes :=
  take (N.to_nat count) (drop (N.to_nat (start - 1)) l).

(** One round of the loop of [read_media_slice]: the query of a piece of a chunk. *)
Definition read_piece (actor : UserId) (m : MediaId) (position count : N) (db : MediaDb)
    : Res RepositoryError bytes :=
  let index := (position / CHUNK_BYTES)%N in
  let local_offset := (position `mod` CHUNK_BYTES)%N in
  match upload_of m db with
  | Some (id, u) =>
      if decide ((channel_id u, actor) ∈ channel_memberships db) then
        match media_upload_chunks db !! (id, index) with
        | Some chunk =>
            let piece := substr (content chunk) (local_offset + 1) count in
            if (N.of_nat (length piece) =? count)%N then Ok piece
            else Err (Storage (lit "incomplete stored media chunk"))
        | None => Err NotFound
        end
      else Err NotFound
  | None => Err NotFound
  end.

(** The loop of [read_media_slice]. Every round adds at least a byte, so [wanted]
    rounds are enough. *)
Fixpoint read_pieces (fuel : nat) (actor : UserId) (m : MediaId) (position wanted : N)
    (result : bytes) (db : MediaDb) : Res RepositoryError bytes :=
  let have := N.of_nat (length result) in
  if (wanted <=? have)%N then Ok result
  else match fuel with
  | O => Panic
  | S fuel =>
      let count := N.min (wanted - have) (CHUNK_BYTES - position `mod` CHUNK_BYTES)%N in
      let? piece := read_piece actor m position count db in
      read_pieces fuel actor m (position + N.of_nat (length piece)) wanted (result ++ piece) db
  end.

Definition sql_read_media_slice (actor : UserId) (m : MediaId) (offset length : N)
    : SqlMedia bytes :=
  ensure (negb ((length =? 0)%N || (MEDIA_READ_BLOCK_BYTES <? length)%N)) Conflict ;;;
  ensure (Z.of_N offset + 1 <=? i64_max)%Z Conflict ;;;
  let! db := get in
  match visible_object actor m db, media_blobs db !! m with
  | Some _, Some blob => st_ret (substr blob (offset + 1) length)
  | _, _ =>
      let! metadata := sql_media_metadata actor m in
      let wanted := N.min (MediaObject_size_bytes metadata - offset) length in
      st_lift (read_pieces (N.to_nat wanted) actor m offset wanted [] db)
  end.

Definition PreviewState_str (s : PreviewState) : string :=
  match s with
  | Preview_pending => "pending" | Preview_running => "running" | Preview_ready => "ready"
  | Preview_failed => "failed"
  end.
Definition sql_media_preview_state (actor : UserId) (m : MediaId) : SqlMedia string :=
  let! db := get in
  let! _ := st_lift (ok_or (visible_object actor m db) NotFound) in
  st_ret (match media_preview_jobs db !! m with
          | Some j => PreviewState_str (preview_state j)
          | None => "legacy"%string
          end).

Definition sql_load_media_preview (actor : UserId) (m : MediaId) : SqlMedia (option MediaVariant) :=
  let! db := get in
  st_ret (match visible_object actor m db with
          | Some _ => media_variants db !! m
          | None => None
          end).
