(* ===== verification/MediaWf.v ===== *)
(** * MediaWf: the invariant of the media tables

    [media_wf]: the stored chunks of an upload are exactly the first [next_chunk] pieces
    of the file, a completed upload and its media object describe the same file, and
    the charged bytes stay within the budgets. One lemma per kind of write shows that
    it is kept. *)

From Stdlib Require Import ZifyBool.
From stdpp Require Import base tactics numbers strings countable sorting gmap list.
From S2P Require Import Prelude RustStr Text Ids Models Policy RepoState RepoUsers Sql Attachments MediaStore MediaPreview.

Section wf.
Context `{Sha256Lib}.

(** The stored pieces of an upload, and the file they make. *)
Definition file_chunks (db : MediaDb) (id : UploadId) (n : N) : list bytes :=
  (λ i, default [] (content <$> media_upload_chunks db !! (id, i))) <$> chunk_indices n.
Definition file_of (db : MediaDb) (id : UploadId) (n : N) : bytes := concat (file_chunks db id n).

(** Chunk [i] is stored with the length it must have. *)
Definition chunk_stored (db : MediaDb) (id : UploadId) (u : Upload) (i : N) : Prop :=
  ∃ c, media_upload_chunks db !! (id, i) = Some c
       ∧ N.of_nat (length (content c)) = chunk_length (expected_bytes u) i
       ∧ chunk_sha256 c = sha256_hex (content c) ∧ Forall is_u8 (content c).

Record upload_ok (L : UploadLimits) (db : MediaDb) (id : UploadId) (u : Upload) : Prop := {
  ok_checks : upload_checks u = true;
  ok_size : (expected_bytes u ≤ max_file_bytes L)%N;
  ok_received : received_bytes u = N.min (next_chunk u * CHUNK_BYTES) (expected_bytes u);
  ok_next : (next_chunk u * CHUNK_BYTES < expected_bytes u + CHUNK_BYTES)%N;
  ok_stored i : (i < next_chunk u)%N → chunk_stored db id u i;
  ok_beyond i : (next_chunk u ≤ i)%N → media_upload_chunks db !! (id, i) = None;
  ok_sealed : state u ≠ Open_ → received_bytes u = expected_bytes u;
  ok_media m : media_id u = Some m →
    ∃ o, media_objects db !! m = Some (o, Key_chunks id) }.

(** A media object published from the upload [id]. *)
Record published (db : MediaDb) (m : MediaId) (o : MediaObject) (id : UploadId) (u : Upload)
    : Prop := {
  pub_media : media_id u = Some m;
  pub_owner : MediaObject_owner_id o = owner_id u;
  pub_channel : MediaObject_channel_id o = channel_id u;
  pub_filename : MediaObject_original_filename o = original_filename u;
  pub_size : MediaObject_size_bytes o = expected_bytes u;
  pub_sha256 : MediaObject_sha256 o = sha256_hex (file_of db id (next_chunk u));
  pub_type : ∃ first, head (file_chunks db id (next_chunk u)) = Some first
    ∧ classify first (declared_type u) = Some (MediaObject_content_type o);
  pub_valid : document_valid (MediaObject_content_type o) (file_of db id (next_chunk u)) = true }.

Definition object_ok (db : MediaDb) (m : MediaId) (o : MediaObject) (k : StorageKey) : Prop :=
  MediaObject_id o = m
  ∧ match k with
    | Key_db m' => m' = m ∧ ∃ blob, media_blobs db !! m = Some blob
                     ∧ MediaObject_size_bytes o = N.of_nat (length blob)
    | Key_chunks id => media_blobs db !! m = None
                       ∧ ∃ u, media_uploads db !! id = Some u ∧ published db m o id u
    end.

Record media_wf (L : UploadLimits) (db : MediaDb) : Prop := {
  wf_budget : budget db = mk_BudgetRow (Some (max_file_bytes L)) (Some (owner_bytes L))
                            (Some (total_bytes L));
  wf_uploads id u : media_uploads db !! id = Some u → upload_ok L db id u;
  wf_chunks id i c : media_upload_chunks db !! (id, i) = Some c → is_Some (media_uploads db !! id);
  wf_requests id u id' u' :
    media_uploads db !! id = Some u → media_uploads db !! id' = Some u' →
    owner_id u = owner_id u' → request_id u = request_id u' → id = id';
  wf_objects m o k : media_objects db !! m = Some (o, k) → object_ok db m o k;
  wf_blobs m : is_Some (media_blobs db !! m) → is_Some (media_objects db !! m);
  wf_total : (total_charge db ≤ Z.of_N (total_bytes L))%Z;
  wf_owner o : (owner_charge o db ≤ Z.of_N (owner_bytes L))%Z;
  wf_active : (count_where (λ _ u, active u) (media_uploads db) ≤ 64)%Z;
  wf_owner_active o :
    (count_where (λ _ u, owned_upload o u && active u) (media_uploads db) ≤ 8)%Z;
  wf_object_size m o k :
    media_objects db !! m = Some (o, k) → (MediaObject_size_bytes o ≤ max_file_bytes L)%N }.

(** ** Files *)

Lemma chunk_indices_elem i n : i ∈ chunk_indices n ↔ (i < n)%N.
Proof.
  unfold chunk_indices. rewrite list_elem_of_fmap. split.
  - intros (k & -> & Hk%elem_of_seq). lia.
  - intros Hi. exists (N.to_nat i). rewrite N2Nat.id. split; [done|].
    apply elem_of_seq. lia.
Qed.
Lemma chunk_indices_succ n : chunk_indices (n + 1) = chunk_indices n ++ [n].
Proof.
  unfold chunk_indices. replace (N.to_nat (n + 1)) with (S (N.to_nat n)) by lia.
  rewrite seq_S, fmap_app. simpl. by rewrite N2Nat.id.
Qed.
Lemma length_chunk_indices n : length (chunk_indices n) = N.to_nat n.
Proof. unfold chunk_indices. by rewrite length_fmap, length_seq. Qed.
Lemma file_chunks_succ db id n :
  file_chunks db id (n + 1)
  = file_chunks db id n ++ [default [] (content <$> media_upload_chunks db !! (id, n))].
Proof. unfold file_chunks. by rewrite chunk_indices_succ, fmap_app. Qed.
Lemma length_file_chunks db id n : length (file_chunks db id n) = N.to_nat n.
Proof. unfold file_chunks. by rewrite length_fmap, length_chunk_indices. Qed.

(** The pieces do not depend on other rows. *)
Lemma file_chunks_ext db db' id n :
  (∀ i, (i < n)%N → media_upload_chunks db' !! (id, i) = media_upload_chunks db !! (id, i)) →
  file_chunks db' id n = file_chunks db id n.
Proof.
  intros Hext. unfold file_chunks. apply list_fmap_ext. intros k i Hi.
  assert (i ∈ chunk_indices n) as Hin by by eapply list_elem_of_lookup_2.
  apply chunk_indices_elem in Hin. by rewrite Hext.
Qed.

(** The stored pieces of a sealed upload make a file of the declared size. *)
Lemma length_file_of_prefix db id u n :
  (∀ i, (i < n)%N → chunk_stored db id u i) →
  ((n - 1) * CHUNK_BYTES < expected_bytes u)%N →
  N.of_nat (length (file_of db id n)) = N.min (n * CHUNK_BYTES) (expected_bytes u).
Proof.
  induction n as [|n IH] using N.peano_ind; intros Hs Hn; [by rewrite N.mul_0_l, N.min_0_l|].
  rewrite <- N.add_1_r in Hs, Hn |- *. unfold file_of. rewrite file_chunks_succ, concat_app, length_app.
  fold (file_of db id n). rewrite Nat2N.inj_add, IH; [|intros; apply Hs; lia|unfold CHUNK_BYTES in *; lia].
  destruct (Hs n ltac:(lia)) as (c & -> & Hlen & _). simpl. rewrite app_nil_r, Hlen.
  unfold chunk_length, CHUNK_BYTES in *. lia.
Qed.
Lemma file_of_u8 db id u n :
  (∀ i, (i < n)%N → chunk_stored db id u i) → Forall is_u8 (file_of db id n).
Proof.
  intros Hs. unfold file_of. apply Forall_concat, Forall_fmap, Forall_forall.
  intros i Hi%chunk_indices_elem. simpl. destruct (Hs i Hi) as (c & -> & _ & _ & Hc). done.
Qed.
Lemma length_file_of L db id u :
  upload_ok L db id u → N.of_nat (length (file_of db id (next_chunk u))) = received_bytes u.
Proof.
  intros Hok. rewrite (ok_received _ _ _ _ Hok). apply length_file_of_prefix.
  - apply Hok.
  - pose proof (ok_next _ _ _ _ Hok). unfold upload_checks in *.
    pose proof (ok_checks _ _ _ _ Hok). unfold upload_checks in *. bool_facts.
    unfold CHUNK_BYTES in *. lia.
Qed.

Lemma upload_checks_complete u m :
  upload_checks u = true → upload_checks (u <| state := Complete |> <| media_id := Some m |>) = true.
Proof. unfold upload_checks. simpl. intros Hck. bool_facts. lia. Qed.

(** ** Rows that other writes do not touch *)

Lemma chunk_stored_ext db db' id u u' i :
  media_upload_chunks db' !! (id, i) = media_upload_chunks db !! (id, i) →
  expected_bytes u' = expected_bytes u → chunk_stored db id u i → chunk_stored db' id u' i.
Proof. intros Hc He (c & Hlookup & Hrest). exists c. by rewrite Hc, He. Qed.

Lemma upload_ok_ext L db db' id u :
  upload_ok L db id u →
  (∀ i, media_upload_chunks db' !! (id, i) = media_upload_chunks db !! (id, i)) →
  (∀ m o, media_id u = Some m → media_objects db !! m = Some (o, Key_chunks id) →
     media_objects db' !! m = Some (o, Key_chunks id)) →
  upload_ok L db' id u.
Proof.
  intros [] Hc Ho. split; try done.
  - intros i Hi. eapply chunk_stored_ext; eauto.
  - intros i Hi. rewrite Hc. auto.
  - intros m Hm. destruct (ok_media0 m Hm) as [o Hmo]. eauto.
Qed.

Lemma published_ext db db' m o id u :
  published db m o id u →
  (∀ i, media_upload_chunks db' !! (id, i) = media_upload_chunks db !! (id, i)) →
  published db' m o id u.
Proof.
  intros [] Hc.
  assert (file_chunks db' id (next_chunk u) = file_chunks db id (next_chunk u)) as Hf
    by (apply file_chunks_ext; auto).
  split; unfold file_of in *; rewrite ?Hf; done.
Qed.

Lemma active_media_None L db id u : upload_ok L db id u → active u = true → media_id u = None.
Proof.
  intros Hok Ha. pose proof (ok_checks _ _ _ _ Hok) as Hc.
  unfold upload_checks in Hc. unfold active in Ha. bool_facts.
  destruct (media_id u) eqn:E; [|done]. repeat case_bool_decide; simplify_eq; try done.
  exfalso. by eauto.
Qed.
Lemma complete_iff L db id u :
  upload_ok L db id u → state u = Complete ↔ is_Some (media_id u).
Proof.
  intros Hok. pose proof (ok_checks _ _ _ _ Hok) as Hc. unfold upload_checks in Hc. bool_facts.
  repeat case_bool_decide; naive_solver.
Qed.

Lemma charge_pos size : (0 ≤ charge size)%Z.
Proof. unfold charge. lia. Qed.

(** The charges and counts only depend on the two tables they sum over, and do not
    grow when rows go. *)
Lemma charges_mono db db' :
  media_uploads db' ⊆ media_uploads db → media_objects db' ⊆ media_objects db →
  (total_charge db' ≤ total_charge db)%Z
  ∧ (∀ o, owner_charge o db' ≤ owner_charge o db)%Z
  ∧ (∀ p, count_where p (media_uploads db') ≤ count_where p (media_uploads db))%Z.
Proof.
  intros Hu Ho. unfold total_charge, owner_charge, count_where.
  split_and!; intros;
    repeat apply Z.add_le_mono; apply sum_where_mono; try done;
    intros; apply charge_pos || lia.
Qed.

(** ** Deleting rows *)

Lemma lookup_chunks_delete_uploads p db id i :
  media_upload_chunks (delete_uploads p db) !! (id, i)
  = match media_uploads db !! id with
    | Some u => if p id u then None else media_upload_chunks db !! (id, i)
    | None => media_upload_chunks db !! (id, i)
    end.
Proof.
  unfold delete_uploads. simpl. rewrite lookup_delete_where. simpl.
  destruct (media_uploads db !! id) as [u|]; [destruct (p id u)|];
    by destruct (media_upload_chunks db !! (id, i)).
Qed.
Lemma lookup_delete_uploads p db id u :
  media_uploads (delete_uploads p db) !! id = Some u →
  media_uploads db !! id = Some u ∧ p id u = false
  ∧ ∀ i, media_upload_chunks (delete_uploads p db) !! (id, i) = media_upload_chunks db !! (id, i).
Proof.
  intros Hu. unfold delete_uploads in Hu. simpl in Hu.
  apply lookup_delete_where_Some in Hu as [Hu Hp]. split_and!; [done..|].
  intros i. by rewrite lookup_chunks_delete_uploads, Hu, Hp.
Qed.

Lemma wf_delete_uploads L p db :
  media_wf L db → (∀ id u, media_uploads db !! id = Some u → p id u = true → active u = true) →
  media_wf L (delete_uploads p db).
Proof.
  intros Hwf Hp.
  destruct (charges_mono db (delete_uploads p db)) as (Ht & Ho & Hc);
    [apply delete_where_subseteq|done|].
  split.
  - apply Hwf.
  - intros id u Hu. apply lookup_delete_uploads in Hu as (Hu & _ & Hch).
    eapply upload_ok_ext; [by eapply wf_uploads|done|done].
  - intros id i c Hch. rewrite lookup_chunks_delete_uploads in Hch.
    pose proof (wf_chunks _ _ Hwf id i) as Hw. unfold delete_uploads. simpl.
    rewrite lookup_delete_where. destruct (media_uploads db !! id) as [u|].
    + destruct (p id u); [done|eauto].
    + by apply Hw in Hch as [? ?].
  - intros id u id' u' Hu Hu'. apply lookup_delete_uploads in Hu as [Hu _], Hu' as [Hu' _].
    by eapply wf_requests.
  - intros m o k Hm. destruct (wf_objects _ _ Hwf m o k Hm) as [Hid Hk]. split; [done|].
    destruct k as [m'|id]; [done|]. destruct Hk as (Hblob & u & Hu & Hpub). split; [done|].
    assert (p id u = false) as Hpu.
    { apply not_true_is_false. intros Hpt. pose proof (Hp id u Hu Hpt) as Ha.
      pose proof (active_media_None L db id u ltac:(by eapply wf_uploads) Ha).
      destruct Hpub. congruence. }
    exists u. split.
    + unfold delete_uploads. simpl. by apply lookup_delete_where_Some.
    + eapply published_ext; [done|]. intros i. by rewrite lookup_chunks_delete_uploads, Hu, Hpu.
  - apply Hwf.
  - etrans; [apply Ht|apply Hwf].
  - intros o. etrans; [apply Ho|apply Hwf].
  - etrans; [apply Hc|apply Hwf].
  - intros o. etrans; [apply Hc|apply Hwf].
  - apply (wf_object_size _ _ Hwf).
Qed.

Definition gone (p : MediaId → MediaObject * StorageKey → bool) (db : MediaDb) (m : MediaId) : bool :=
  match media_objects db !! m with Some o => p m o | None => false end.
Definition of_gone_object (p : MediaId → MediaObject * StorageKey → bool) (db : MediaDb)
    (_ : UploadId) (u : Upload) : bool :=
  match media_id u with Some m => gone p db m | None => false end.

Lemma wf_delete_objects L p db : media_wf L db → media_wf L (delete_objects p db).
Proof.
  intros Hwf. set (q := of_gone_object p db).
  assert (media_uploads (delete_objects p db) = media_uploads (delete_uploads q db)) as Eu by done.
  assert (media_upload_chunks (delete_objects p db)
          = media_upload_chunks (delete_uploads q db)) as Ec by done.
  assert (media_objects (delete_objects p db) = delete_where p (media_objects db)) as Eo by done.
  assert (media_blobs (delete_objects p db)
          = delete_where (λ m _, gone p db m) (media_blobs db)) as Eb by done.
  destruct (charges_mono db (delete_objects p db)) as (Ht & Ho & Hc);
    [rewrite Eu; apply delete_where_subseteq|rewrite Eo; apply delete_where_subseteq|].
  split.
  - apply Hwf.
  - intros id u Hu. rewrite Eu in Hu. apply lookup_delete_uploads in Hu as (Hu & Hq & Hch).
    eapply upload_ok_ext; [by eapply wf_uploads|by rewrite Ec|].
    intros m o Hm Hmo. rewrite Eo. apply lookup_delete_where_Some. split; [done|].
    unfold q, of_gone_object, gone in Hq. by rewrite Hm, Hmo in Hq.
  - intros id i c Hch. rewrite Ec, lookup_chunks_delete_uploads in Hch. rewrite Eu.
    pose proof (wf_chunks _ _ Hwf id i) as Hw. unfold delete_uploads. simpl.
    rewrite lookup_delete_where. destruct (media_uploads db !! id) as [u|].
    + destruct (q id u); [done|eauto].
    + by apply Hw in Hch as [? ?].
  - intros id u id' u' Hu Hu'. rewrite Eu in Hu, Hu'.
    apply lookup_delete_uploads in Hu as [Hu _], Hu' as [Hu' _]. by eapply wf_requests.
  - intros m o k Hm. rewrite Eo in Hm. apply lookup_delete_where_Some in Hm as [Hm Hp].
    assert (gone p db m = false) as Hg by (unfold gone; by rewrite Hm).
    destruct (wf_objects _ _ Hwf m o k Hm) as [Hid Hk]. split; [done|].
    rewrite Eb, lookup_delete_where, Hg.
    destruct k as [m'|id].
    + destruct Hk as (-> & blob & Hb & Hs). rewrite Hb. eauto.
    + destruct Hk as (-> & u & Hu & Hpub). split; [done|].
      assert (q id u = false) as Hq
        by (unfold q, of_gone_object; by rewrite (pub_media _ _ _ _ _ Hpub)).
      exists u. rewrite Eu. split; [by apply lookup_delete_where_Some|].
      eapply published_ext; [done|]. intros i. by rewrite Ec, lookup_chunks_delete_uploads, Hu, Hq.
  - intros m [b Hb]. rewrite Eb in Hb. apply lookup_delete_where_Some in Hb as [Hb Hg].
    rewrite Eo, lookup_delete_where. destruct (wf_blobs _ _ Hwf m) as [o Hm]; [by eexists|].
    unfold gone in Hg. rewrite Hm in Hg |- *. by rewrite Hg.
  - etrans; [apply Ht|apply Hwf].
  - intros o. etrans; [apply Ho|apply Hwf].
  - etrans; [apply Hc|apply Hwf].
  - intros o. etrans; [apply Hc|apply Hwf].
  - intros m o k Hm. rewrite Eo in Hm. apply lookup_delete_where_Some in Hm as [Hm _]. by eapply wf_object_size.
Qed.

(** [media_wf] reads these tables only. *)
Lemma wf_same_tables L db db' :
  media_wf L db → budget db' = budget db → media_uploads db' = media_uploads db →
  media_upload_chunks db' = media_upload_chunks db → media_objects db' = media_objects db →
  media_blobs db' = media_blobs db → media_wf L db'.
Proof.
  intros Hwf Eb Eu Ec Eo Ebl.
  assert (∀ id n, file_chunks db' id n = file_chunks db id n) as Ef
    by (intros; unfold file_chunks; by rewrite Ec).
  destruct Hwf. split; unfold total_charge, owner_charge in *; rewrite ?Eb, ?Eu, ?Ec, ?Eo, ?Ebl; auto.
  - intros id u Hu. eapply upload_ok_ext; [by apply wf_uploads0|by rewrite Ec|by rewrite Eo].
  - intros m o k Hm. destruct (wf_objects0 m o k Hm) as [Hid Hk]. split; [done|].
    rewrite Ebl, Eu. destruct k as [|id]; [done|]. destruct Hk as (Hb & u & Hu & Hpub).
    split; [done|]. exists u. split; [done|]. eapply published_ext; [done|]. by rewrite Ec.
Qed.

Lemma wf_delete_channel L c db : media_wf L db → media_wf L (delete_channel_rows c db).
Proof.
  intros Hwf. unfold delete_channel_rows.
  set (db1 := delete_objects (λ _ o, bool_decide (MediaObject_channel_id o.1 = c)) db).
  assert (media_wf L db1) as Hwf1 by by apply wf_delete_objects.
  assert (media_wf L (delete_uploads (λ _ u, bool_decide (channel_id u = c)) db1)) as Hwf2.
  { apply wf_delete_uploads; [done|]. intros id u Hu Hc. bool_facts.
    apply not_false_is_true. intros Ha. unfold active in Ha. bool_facts.
    apply (complete_iff L db1 id) in Ha as [m Hm]; [|by eapply wf_uploads].
    destruct (ok_media _ _ _ _ (wf_uploads _ _ Hwf1 _ _ Hu) m Hm) as [o Ho].
    destruct (wf_objects _ _ Hwf1 _ _ _ Ho) as (_ & _ & u' & Hu' & Hpub). simplify_eq.
    unfold db1, delete_objects in Ho. simpl in Ho. apply lookup_delete_where_Some in Ho as [_ Ho].
    apply bool_decide_eq_false in Ho. destruct Ho. simpl. by rewrite (pub_channel _ _ _ _ _ Hpub). }
  by eapply wf_same_tables.
Qed.

(** ** Adding and changing rows *)

Lemma no_chunks L db id i :
  media_wf L db → media_uploads db !! id = None → media_upload_chunks db !! (id, i) = None.
Proof.
  intros Hwf Hid. destruct (media_upload_chunks db !! (id, i)) eqn:E; [|done].
  apply (wf_chunks _ _ Hwf) in E as [? ?]. congruence.
Qed.

Lemma wf_new_upload L db id u :
  media_wf L db → media_uploads db !! id = None →
  upload_checks u = true → (expected_bytes u ≤ max_file_bytes L)%N →
  state u = Open_ → received_bytes u = 0%N → next_chunk u = 0%N →
  (∀ id' u', media_uploads db !! id' = Some u' → owner_id u' = owner_id u →
     request_id u' = request_id u → False) →
  (total_charge db + upload_charge u ≤ Z.of_N (total_bytes L))%Z →
  (owner_charge (owner_id u) db + upload_charge u ≤ Z.of_N (owner_bytes L))%Z →
  (count_where (λ _ u, active u) (media_uploads db) < 64)%Z →
  (count_where (λ _ v, owned_upload (owner_id u) v && active v) (media_uploads db) < 8)%Z →
  media_wf L (db <| media_uploads := <[id := u]> (media_uploads db) |>).
Proof.
  intros Hwf Hid Hck Hsz Hst Hr Hn Hreq Ht Ho Ha Hoa.
  assert (active u = true) as Hact by (unfold active; by rewrite Hst).
  assert (media_id u = None) as Hmedia.
  { unfold upload_checks in Hck. rewrite Hst in Hck. bool_facts.
    destruct (media_id u); [|done]. repeat case_bool_decide; simplify_eq; try done; naive_solver. }
  split; simpl.
  - apply Hwf.
  - intros id' u' [[<- <-]|[Hne Hu']]%lookup_insert_Some; cycle 1.
    { eapply upload_ok_ext; [by eapply wf_uploads|done|done]. }
    split; try done.
    + rewrite Hr, Hn. by rewrite N.mul_0_l, N.min_0_l.
    + rewrite Hn. unfold upload_checks in Hck. unfold CHUNK_BYTES. bool_facts. lia.
    + rewrite Hn. lia.
    + intros i _. exact (no_chunks L db id i Hwf Hid).
    + by rewrite Hmedia.
  - intros id' i c Hc. apply lookup_insert_is_Some'. right. by eapply wf_chunks.
  - intros i1 u1 i2 u2 [[<- <-]|[Hne1 H1]]%lookup_insert_Some
      [[<- <-]|[Hne2 H2]]%lookup_insert_Some Hown Hrq; [done| | |by eapply wf_requests].
    + by destruct (Hreq i2 u2).
    + by destruct (Hreq i1 u1).
  - intros m o k Hm. destruct (wf_objects _ _ Hwf m o k Hm) as [Hmid Hk]. split; [done|].
    destruct k as [|id']; [done|]. destruct Hk as (Hb & u' & Hu' & Hpub). split; [done|].
    exists u'. split; [simpl; rewrite lookup_insert_ne; [done|congruence]|].
    by eapply published_ext.
  - apply Hwf.
  - unfold total_charge in *. simpl. rewrite sum_where_insert by done. rewrite Hact. lia.
  - intros o. unfold owner_charge in *. simpl. rewrite sum_where_insert, Hact by done.
    pose proof (wf_owner _ _ Hwf o) as Hold. unfold owner_charge in Hold.
    unfold owned_upload at 1. case_bool_decide; subst; simpl; lia.
  - unfold count_where in *. rewrite sum_where_insert by done. rewrite Hact. lia.
  - intros o. unfold count_where in *. rewrite sum_where_insert, Hact by done.
    pose proof (wf_owner_active _ _ Hwf o) as Hold. unfold count_where in Hold.
    unfold owned_upload at 1. case_bool_decide; subst; simpl; lia.
  - apply (wf_object_size _ _ Hwf).
Qed.

(** The parts of a row that no update changes. *)
Definition same_upload (u u' : Upload) : Prop :=
  owner_id u' = owner_id u ∧ channel_id u' = channel_id u ∧ request_id u' = request_id u
  ∧ original_filename u' = original_filename u ∧ declared_type u' = declared_type u
  ∧ expected_bytes u' = expected_bytes u ∧ created_at u' = created_at u
  ∧ expires_at u' = expires_at u.

(** Changing the row of an active upload and storing chunks of it. *)
Lemma wf_update_active L db db' id u u' :
  media_wf L db → media_uploads db !! id = Some u → active u = true → active u' = true →
  same_upload u u' → upload_ok L db' id u' →
  budget db' = budget db → media_uploads db' = <[id := u']> (media_uploads db) →
  (∀ id' i, id' ≠ id → media_upload_chunks db' !! (id', i) = media_upload_chunks db !! (id', i)) →
  media_objects db' = media_objects db → media_blobs db' = media_blobs db →
  media_wf L db'.
Proof.
  intros Hwf Hu Ha Ha' Hs Hok Eb Eu Ec Eo Ebl.
  destruct Hs as (Sowner & Schan & Sreq & _ & _ & Sexp & _ & _).
  assert (∀ (p : UserId → Upload → bool) o f, (p o u' = p o u) → f u' = f u →
    sum_where (λ _ v, p o v && active v) f (media_uploads db')
    = sum_where (λ _ v, p o v && active v) f (media_uploads db)) as Hsum.
  { intros p o f Hp Hf. rewrite Eu, (sum_where_update _ _ _ _ u) by done.
    rewrite Ha, Ha', Hp, Hf. destruct (p o u); simpl; lia. }
  assert (∀ o, owned_upload o u' = owned_upload o u) as Hown
    by (intros; unfold owned_upload; by rewrite Sowner).
  assert (upload_charge u' = upload_charge u) as Hcharge by (unfold upload_charge; by rewrite Sexp).
  pose proof (λ f, Hsum (λ _ _, true) (owner_id u) f eq_refl) as Hall. simpl in Hall.
  split.
  - rewrite Eb. apply Hwf.
  - intros id' v. rewrite Eu. intros [[<- <-]|[Hne Hv]]%lookup_insert_Some; [done|].
    eapply upload_ok_ext; [by eapply wf_uploads|intros i; apply Ec; congruence|by rewrite Eo].
  - intros id' i c Hc. rewrite Eu. apply lookup_insert_is_Some'.
    destruct (decide (id' = id)) as [->|Hne]; [by left|]. right.
    rewrite Ec in Hc by done. by eapply wf_chunks.
  - intros i1 u1 i2 u2. rewrite Eu. intros [[<- <-]|[Hne1 H1]]%lookup_insert_Some
      [[<- <-]|[Hne2 H2]]%lookup_insert_Some; rewrite ?Sowner, ?Sreq; [done|..];
      intros; by eapply wf_requests.
  - intros m o k Hm. rewrite Eo in Hm. destruct (wf_objects _ _ Hwf m o k Hm) as [Hmid Hk].
    split; [done|]. rewrite Ebl. destruct k as [|id']; [done|].
    destruct Hk as (Hb & v & Hv & Hpub). split; [done|].
    assert (id' ≠ id) as Hne.
    { intros ->. assert (v = u) as -> by congruence. pose proof (active_media_None L db id u ltac:(by eapply wf_uploads) Ha).
      destruct Hpub. congruence. }
    exists v. rewrite Eu, lookup_insert_ne by done. split; [done|].
    eapply published_ext; [done|]. intros i. by apply Ec.
  - intros m. rewrite Ebl, Eo. apply Hwf.
  - unfold total_charge. rewrite Eo, Hall by done. apply Hwf.
  - intros o. unfold owner_charge. rewrite Eo, Hsum by auto. apply Hwf.
  - unfold count_where. rewrite Hall by done. apply Hwf.
  - intros o. unfold count_where. rewrite Hsum by auto. apply Hwf.
  - intros m o k. rewrite Eo. apply Hwf.
Qed.

(** Sealing. *)
Lemma wf_seal_row L db id u :
  media_wf L db → media_uploads db !! id = Some u → state u = Open_ →
  received_bytes u = expected_bytes u →
  media_wf L (db <| media_uploads := <[id := u <| state := Sealed |>]> (media_uploads db) |>).
Proof.
  intros Hwf Hu Hst Hr. pose proof (wf_uploads _ _ Hwf _ _ Hu) as Hok.
  assert (active u = true) as Ha by (unfold active; by rewrite Hst).
  assert (media_id u = None) as Hm by by eapply active_media_None.
  eapply (wf_update_active L db _ id u (u <| state := Sealed |>)); try done.
  pose proof (ok_checks _ _ _ _ Hok) as Hck.
  destruct Hok. split; simpl; try done.
  unfold upload_checks in *. simpl in *. by rewrite Hst in Hck.
Qed.

(** Storing the next chunk. *)
Lemma wf_next_chunk L db id u input :
  media_wf L db → media_uploads db !! id = Some u → state u = Open_ →
  (next_chunk u * CHUNK_BYTES < expected_bytes u)%N →
  N.of_nat (length input) = chunk_length (expected_bytes u) (next_chunk u) →
  Forall is_u8 input →
  let u' := u <| next_chunk := (next_chunk u + 1)%N |>
              <| received_bytes := (received_bytes u + N.of_nat (length input))%N |> in
  upload_checks u' = true
  ∧ media_wf L (db <| media_upload_chunks :=
                  <[(id, next_chunk u) := mk_Chunk input (sha256_hex input)]>
                    (media_upload_chunks db) |>
                 <| media_uploads := <[id := u']> (media_uploads db) |>).
Proof.
  intros Hwf Hu Hst Hoff Hlen Hb u'. pose proof (wf_uploads _ _ Hwf _ _ Hu) as Hok.
  assert (active u = true) as Ha by (unfold active; by rewrite Hst).
  pose proof (ok_received _ _ _ _ Hok) as Hrec. pose proof (ok_checks _ _ _ _ Hok) as Hck.
  unfold chunk_length in Hlen.
  assert (received_bytes u' = N.min (next_chunk u' * CHUNK_BYTES) (expected_bytes u')) as Hrec'
    by (simpl; unfold CHUNK_BYTES in *; lia).
  assert (upload_checks u' = true) as Hck'.
  { unfold upload_checks in *. change (received_bytes u') with
      (received_bytes u + N.of_nat (length input))%N in Hrec'. simpl in *. lia. }
  split; [done|]. eapply (wf_update_active L db _ id u u'); try done.
  - destruct Hok. split; try done.
    + simpl. unfold CHUNK_BYTES in *. lia.
    + intros i Hi. simpl in Hi. destruct (decide (i = next_chunk u)) as [->|Hne].
      * eexists. simpl. rewrite lookup_insert_eq. split; [done|]. simpl. by rewrite Hlen.
      * eapply chunk_stored_ext; [|done|apply ok_stored0; lia]. simpl.
        rewrite lookup_insert_ne; [done|congruence].
    + intros i Hi. simpl in *. rewrite lookup_insert_ne by (intros [=]; lia). apply ok_beyond0. lia.
  - intros id' i Hne. simpl. rewrite lookup_insert_ne; [done|congruence].
Qed.

Lemma media_object_budget_true L object key db :
  media_wf L db → media_object_budget object key db = true →
  let released := sum_where (published_from object key) upload_charge (media_uploads db) in
  let size := MediaObject_size_bytes object in
  (size ≤ max_file_bytes L)%N
  ∧ (total_charge db + charge size - released ≤ Z.of_N (total_bytes L))%Z
  ∧ (owner_charge (MediaObject_owner_id object) db + charge size - released
     ≤ Z.of_N (owner_bytes L))%Z.
Proof.
  intros Hwf Hb. unfold media_object_budget in Hb. rewrite (wf_budget _ _ Hwf) in Hb. simpl in Hb.
  cbv zeta. bool_facts. split_and!; lia.
Qed.

(** A media object stored as one blob. *)
Lemma wf_store_blob L db m o blob :
  media_wf L db → media_objects db !! m = None → MediaObject_id o = m →
  MediaObject_size_bytes o = N.of_nat (length blob) →
  media_object_budget o (Key_db m) db = true →
  media_wf L (db <| media_objects := <[m := (o, Key_db m)]> (media_objects db) |>
                 <| media_blobs := <[m := blob]> (media_blobs db) |>).
Proof.
  intros Hwf Hm Hid Hsz Hb. apply (media_object_budget_true L) in Hb as (Hmax & Ht & Ho); [|done].
  rewrite sum_where_none in Ht, Ho by
    (intros; unfold published_from; by rewrite bool_decide_false).
  split; simpl.
  - apply Hwf.
  - intros id u Hu. eapply upload_ok_ext; [by eapply wf_uploads|done|].
    intros m' o' _ Hm'. simpl. rewrite lookup_insert_ne; [done|congruence].
  - apply Hwf.
  - apply Hwf.
  - intros m' o' k [[<- [= <- <-]]|[Hne Hm']]%lookup_insert_Some.
    + split; [done|]. split; [done|]. exists blob. simpl. by rewrite lookup_insert_eq.
    + destruct (wf_objects _ _ Hwf m' o' k Hm') as [Hid' Hk]. split; [done|]. simpl.
      rewrite lookup_insert_ne by done. destruct k as [|id]; [done|].
      destruct Hk as (Hbl & u & Hu & Hpub). split; [done|]. exists u. split; [done|].
      by eapply published_ext.
  - intros m' Hm'. apply lookup_insert_is_Some'. apply lookup_insert_is_Some' in Hm' as [->|Hm'];
      [by left|]. right. by apply Hwf.
  - unfold total_charge in *. simpl. rewrite sum_where_insert by done.
    unfold object_charge at 1. simpl. lia.
  - intros owner. unfold owner_charge in *. simpl. rewrite sum_where_insert by done.
    pose proof (wf_owner _ _ Hwf owner) as Hold. unfold owner_charge in Hold.
    unfold owned_object at 1, object_charge at 1. simpl.
    case_bool_decide; subst; simpl; lia.
  - apply Hwf.
  - apply Hwf.
  - intros m' o' k [[<- [= <- <-]]|[_ Hm']]%lookup_insert_Some; [done|by eapply wf_object_size].
Qed.

(** ** Publication *)

Lemma released_on_publish L db id u o :
  media_wf L db → media_uploads db !! id = Some u → state u = Sealed →
  MediaObject_owner_id o = owner_id u → MediaObject_channel_id o = channel_id u →
  MediaObject_size_bytes o = expected_bytes u →
  sum_where (published_from o (Key_chunks id)) upload_charge (media_uploads db) = upload_charge u.
Proof.
  intros Hwf Hu Hst Ho Hc Hs. pose proof (wf_uploads _ _ Hwf _ _ Hu) as Hok.
  apply (sum_where_single _ _ _ id); [done| |].
  - unfold published_from, owned_upload. rewrite Ho, Hc, Hs, Hst.
    rewrite (ok_sealed _ _ _ _ Hok) by by rewrite Hst.
    rewrite (active_media_None _ _ _ _ Hok) by (unfold active; by rewrite Hst).
    rewrite !bool_decide_true by done. by rewrite !N.eqb_refl.
  - intros k' v' _ Hp. unfold published_from in Hp. bool_facts. by simplify_eq.
Qed.

(** Publishing a sealed upload is quota neutral, so the trigger never refuses it. *)
Lemma publish_within_budget L db id u o :
  media_wf L db → media_uploads db !! id = Some u → state u = Sealed →
  MediaObject_owner_id o = owner_id u → MediaObject_channel_id o = channel_id u →
  MediaObject_size_bytes o = expected_bytes u →
  media_object_budget o (Key_chunks id) db = true.
Proof.
  intros Hwf Hu Hst Ho Hc Hs. unfold media_object_budget.
  rewrite (released_on_publish L db id u) by done. rewrite (wf_budget _ _ Hwf). simpl.
  pose proof (wf_total _ _ Hwf). pose proof (wf_owner _ _ Hwf (MediaObject_owner_id o)).
  pose proof (ok_size _ _ _ _ (wf_uploads _ _ Hwf _ _ Hu)). unfold upload_charge. rewrite Hs. lia.
Qed.

(** The storage key of an upload that is not complete is free. *)
Lemma key_free L db id u :
  media_wf L db → media_uploads db !! id = Some u → active u = true →
  key_taken (Key_chunks id) db = false.
Proof.
  intros Hwf Hu Ha. unfold key_taken. apply bool_decide_eq_false. intros [[m [o k]] Hf].
  apply fetch_where_Some in Hf as [Hm Hk]. simpl in Hk. bool_facts. subst.
  destruct (wf_objects _ _ Hwf _ _ _ Hm) as (_ & _ & u' & Hu' & Hpub). simplify_eq.
  pose proof (active_media_None _ _ _ _ (wf_uploads _ _ Hwf _ _ Hu) Ha). destruct Hpub. congruence.
Qed.

Lemma wf_publish_row L db id u m o :
  media_wf L db → media_uploads db !! id = Some u → state u = Sealed →
  media_objects db !! m = None → MediaObject_id o = m →
  published db m o id (u <| state := Complete |> <| media_id := Some m |>) →
  media_wf L (db <| media_objects := <[m := (o, Key_chunks id)]> (media_objects db) |>
                 <| media_uploads :=
                      <[id := u <| state := Complete |> <| media_id := Some m |>]> (media_uploads db) |>).
Proof.
  intros Hwf Hu Hst Hm Hid Hpub. set (u' := u <| state := Complete |> <| media_id := Some m |>) in *.
  pose proof (wf_uploads _ _ Hwf _ _ Hu) as Hok.
  assert (active u = true) as Ha by (unfold active; by rewrite Hst).
  assert (active u' = false) as Ha' by done.
  assert (object_charge (o, Key_chunks id) = upload_charge u) as Hch
    by (unfold object_charge, upload_charge; simpl; by rewrite (pub_size _ _ _ _ _ Hpub)).
  split; simpl.
  - apply Hwf.
  - intros id' v [[<- <-]|[Hne Hv]]%lookup_insert_Some.
    + destruct Hok. split; try done.
      * by apply upload_checks_complete.
      * simpl. intros _. apply ok_sealed0. by rewrite Hst.
      * intros m' [= <-]. exists o. simpl. by rewrite lookup_insert_eq.
    + eapply upload_ok_ext; [by eapply wf_uploads|done|].
      intros m' o' _ Hm'. simpl. rewrite lookup_insert_ne; [done|congruence].
  - intros id' i c Hc. apply lookup_insert_is_Some'. right. by eapply wf_chunks.
  - intros i1 u1 i2 u2 [[<- <-]|[Hne1 H1]]%lookup_insert_Some
      [[<- <-]|[Hne2 H2]]%lookup_insert_Some; simpl; intros; try done; by eapply wf_requests.
  - intros m' o' k [[<- [= <- <-]]|[Hne Hm']]%lookup_insert_Some.
    + split; [done|]. split.
      * simpl. destruct (media_blobs db !! m) eqn:E; [|done].
        destruct (wf_blobs _ _ Hwf m) as [? ?]; [by eexists|congruence].
      * exists u'. simpl. rewrite lookup_insert_eq. split; [done|]. by eapply published_ext.
    + destruct (wf_objects _ _ Hwf m' o' k Hm') as [Hid' Hk]. split; [done|].
      destruct k as [|id']; [done|]. destruct Hk as (Hbl & v & Hv & Hpub'). split; [done|].
      assert (id' ≠ id) as Hne'.
      { intros ->. assert (v = u) as -> by congruence.
        pose proof (active_media_None _ _ _ _ Hok Ha). destruct Hpub'. congruence. }
      exists v. simpl. rewrite lookup_insert_ne by done. split; [done|]. by eapply published_ext.
  - intros m' Hm'. apply lookup_insert_is_Some'. right. by apply Hwf.
  - pose proof (wf_total _ _ Hwf) as Hold. unfold total_charge in *. simpl.
    rewrite sum_where_insert, (sum_where_update _ _ _ _ u) by done. rewrite Ha, Ha', Hch. lia.
  - intros owner. pose proof (wf_owner _ _ Hwf owner) as Hold. unfold owner_charge in *. simpl.
    rewrite sum_where_insert, (sum_where_update _ _ _ _ u) by done. rewrite Ha, Ha', Hch.
    unfold owned_object at 1. unfold owned_upload at 2 3. simpl.
    rewrite (pub_owner _ _ _ _ _ Hpub). simpl. case_bool_decide; simpl; lia.
  - pose proof (wf_active _ _ Hwf) as Hold. unfold count_where in *.
    rewrite (sum_where_update _ _ _ _ u) by done. rewrite Ha, Ha'. lia.
  - intros owner. pose proof (wf_owner_active _ _ Hwf owner) as Hold. unfold count_where in *.
    rewrite (sum_where_update _ _ _ _ u) by done. rewrite Ha, Ha', !andb_true_r, !andb_false_r.
    destruct (owned_upload owner u); lia.
  - intros m' o' k [[<- [= <- <-]]|[_ Hm']]%lookup_insert_Some; [|by eapply wf_object_size].
    rewrite (pub_size _ _ _ _ _ Hpub). apply Hok.
Qed.
End wf.
