(* ===== verification/MediaReach.v ===== *)
(** * MediaReach: the media store as a state machine

    Operations of clients and workers in any order, with the transactions of running
    completions between them: [media_reachable]. The invariant [sys_ok] adds to
    [media_wf] that a running completion has scanned exactly the stored pieces of its
    upload, which no other operation can change any more. *)

From Stdlib Require Import ZifyBool.
From stdpp Require Import base tactics numbers strings countable sorting gmap list relations.
From S2P Require Import Prelude RustStr Text Ids Models Policy RepoState RepoUsers Sql Attachments MediaStore MediaPreview MediaWf.

(** ** Scanning the pieces *)

Section scan.
Context `{Sha256Lib}.

Fixpoint scan_from (declared : str) (i : N) (pieces : list bytes) (scan : Scan)
    : Res UploadError Scan :=
  match pieces with
  | [] => Ok scan
  | c :: pieces' =>
      let? scan' := scan_chunk declared i c scan in
      scan_from declared (i + 1) pieces' scan'
  end.
Definition scan_all (declared : str) (pieces : list bytes) : Res UploadError Scan :=
  scan_from declared 0 pieces Scan_new.

Lemma scan_from_app declared i l k scan :
  scan_from declared i (l ++ k) scan
  = let? s := scan_from declared i l scan in scan_from declared (i + N.of_nat (length l)) k s.
Proof.
  revert i scan. induction l as [|c l IH]; intros i scan; simpl; [by rewrite N.add_0_r|].
  destruct (scan_chunk declared i c scan); simpl; [|done..]. rewrite IH.
  by replace (i + 1 + N.of_nat (length l))%N with (i + N.of_nat (S (length l)))%N by lia.
Qed.
Lemma scan_all_snoc declared l c :
  scan_all declared (l ++ [c])
  = let? s := scan_all declared l in scan_chunk declared (N.of_nat (length l)) c s.
Proof.
  unfold scan_all. rewrite scan_from_app. destruct (scan_from declared 0 l Scan_new); simpl; [|done..].
  by destruct (scan_chunk declared _ c a).
Qed.

(** The scan runs the validator over the pieces. *)
Lemma scan_from_validates declared i pieces scan :
  (0 < i)%N →
  scan_from declared i pieces scan
  = match attachment scan with
    | Some v =>
        match push_all pieces v with
        | (true, v') => Ok (mk_Scan (hashed scan ++ concat pieces) (detected_type scan) (Some v')
                              (scan_length scan + N.of_nat (length (concat pieces))))
        | (false, _) => Err UploadError_Unsupported
        end
    | None => Ok (mk_Scan (hashed scan ++ concat pieces) (detected_type scan) None
                    (scan_length scan + N.of_nat (length (concat pieces))))
    end.
Proof.
  revert i scan. induction pieces as [|c pieces IH]; intros i [h d v n] Hi; simpl.
  - rewrite app_nil_r, N.add_0_r. by destruct v.
  - unfold scan_chunk. assert ((i =? 0)%N = false) as -> by lia. simpl.
    destruct v as [v|]; simpl.
    + destruct (push c v) as [[] v'] eqn:Hp; simpl; [|done]. rewrite IH by lia. simpl.
      destruct (push_all pieces v') as [[] v'']; [|done].
      rewrite <- app_assoc, length_app. do 2 f_equal. lia.
    + rewrite IH by lia. simpl. rewrite <- app_assoc, length_app. do 2 f_equal. lia.
Qed.

(** A completed scan publishes exactly the files that the whole-file test accepts. *)
Lemma scan_accepts declared first pieces size content_type sha :
  (let? s := scan_all declared (first :: pieces) in scan_finish size s) = Ok (content_type, sha)
  ↔ N.of_nat (length (concat (first :: pieces))) = size
    ∧ classify first declared = Some content_type
    ∧ accepts content_type (first :: pieces) = true
    ∧ sha = sha256_hex (concat (first :: pieces)).
Proof.
  unfold scan_all. cbn [scan_from]. unfold scan_chunk at 1. simpl.
  destruct (classify first declared) as [ct|] eqn:Hc; simpl.
  - unfold accepts. cbn [push_all]. destruct (push first (Validator_new ct)) as [[] v] eqn:Hp; simpl.
    + rewrite scan_from_validates by lia. simpl.
      destruct (push_all pieces v) as [[] v'] eqn:Hpa; simpl.
      * unfold scan_finish. simpl.
        match goal with |- context [N.eqb ?n size] =>
          replace n with (N.of_nat (length (first ++ concat pieces))) by (rewrite length_app; lia) end.
        destruct (N.eqb_spec (N.of_nat (length (first ++ concat pieces))) size) as [Hs|Hs]; simpl;
          [|split; [done|by intros [? _]]].
        split.
        -- destruct (finish v') eqn:Hf; [|done]. intros [= <- <-]. cbn [push_all].
           by rewrite Hp, Hpa.
        -- intros (_ & [= <-] & Ha & ->). cbn [push_all] in Ha. rewrite Hp, Hpa in Ha. by rewrite Ha.
      * split; [done|]. intros (_ & [= <-] & Ha & _).
        cbn [push_all] in Ha. by rewrite Hp, Hpa in Ha.
    + split; [done|]. intros (_ & [= <-] & Ha & _). cbn [push_all] in Ha. by rewrite Hp in Ha.
  - rewrite scan_from_validates by lia. simpl. unfold scan_finish. simpl.
    case_match; (split; [done|by intros (_ & ? & _)]).
Qed.
End scan.

(** ** Steps *)

(** A completion between its transactions: what [complete] holds in local variables. *)
Record Completion : Type := mk_Completion {
  comp_actor : UserId;
  comp_id : UploadId;
  comp_row : Upload;
  comp_next : N;
  comp_scan : Scan }.

Record MediaSys : Type := mk_MediaSys {
  sys_db : MediaDb;
  sys_running : gmap N Completion }.

(** Single transactions, by clients, the workers, the repository and the rest of the
    service. [channels] are the allowed channels of the instance that runs it. *)
Inductive MediaOp : Type :=
  | Op_create (channels : option (list ChannelId)) (fresh : UploadId) (now : Z) (actor : UserId)
      (channel : ChannelId) (input : NewUpload)
  | Op_put_chunk (channels : option (list ChannelId)) (now : Z) (actor : UserId) (id : UploadId)
      (index : N) (input : bytes) (claimed_hash : str)
  | Op_seal (channels : option (list ChannelId)) (now : Z) (actor : UserId) (id : UploadId)
  | Op_abort (channels : option (list ChannelId)) (now : Z) (actor : UserId) (id : UploadId)
  | Op_cleanup (now : Z)
  | Op_claim_preview (token : Uuid) (now : Z)
  | Op_publish_preview (now : Z) (job : PreviewJob) (input : bytes) (width height : N)
  | Op_fail_preview (now : Z) (job : PreviewJob)
  | Op_store_media (fresh : MediaId) (now : DateTime) (upload : MediaUpload) (sha256 : str)
  | Op_join (channel : ChannelId) (user : UserId)
  | Op_leave (channel : ChannelId) (user : UserId)
  | Op_delete_media (which : gset MediaId)
  | Op_delete_channel (channel : ChannelId).

Section reach.
Context `{Sha256Lib} (L : UploadLimits).

Definition media_run (op : MediaOp) (db : MediaDb) : MediaDb :=
  match op with
  | Op_create channels fresh now actor channel input =>
      (create (mk_MediaStore L channels) fresh now actor channel input db).2
  | Op_put_chunk channels now actor id index input claimed =>
      (put_chunk (mk_MediaStore L channels) now actor id index input claimed db).2
  | Op_seal channels now actor id => (seal (mk_MediaStore L channels) now actor id db).2
  | Op_abort channels now actor id => (abort (mk_MediaStore L channels) now actor id db).2
  | Op_cleanup now => (cleanup_expired now db).2
  | Op_claim_preview token now => (claim_preview token now db).2
  | Op_publish_preview now job input w h => (publish_preview now job input w h db).2
  | Op_fail_preview now job => (fail_preview now job db).2
  | Op_store_media fresh now upload sha256 => (sql_store_media fresh now upload sha256 db).2
  | Op_join c u => db <| channel_memberships := {[ (c, u) ]} ∪ channel_memberships db |>
  | Op_leave c u => db <| channel_memberships := channel_memberships db ∖ {[ (c, u) ]} |>
  | Op_delete_media which => delete_objects (λ m _, bool_decide (m ∈ which)) db
  | Op_delete_channel c => delete_channel_rows c db
  end.

(** A generated upload identifier is not one a running completion still works on, and
    the bytes of a chunk are bytes. *)
Definition op_allowed (s : MediaSys) (op : MediaOp) : Prop :=
  match op with
  | Op_create _ fresh _ _ _ _ => ∀ k c, sys_running s !! k = Some c → comp_id c ≠ fresh
  | Op_put_chunk _ _ _ _ _ input _ => Forall is_u8 input
  | _ => True
  end.

(** One step, labelled with its operation; the steps of completions have no label. *)
Inductive media_step_by : option MediaOp → MediaSys → MediaSys → Prop :=
  | step_op s op :
      op_allowed s op →
      media_step_by (Some op) s (mk_MediaSys (media_run op (sys_db s)) (sys_running s))
  | step_begin s k channels now actor id st db' :
      sys_running s !! k = None →
      seal (mk_MediaStore L channels) now actor id (sys_db s) = (Ok st, db') →
      media_id (status_row st) = None →
      media_step_by None s (mk_MediaSys db'
        (<[k := mk_Completion actor id (status_row st) 0 Scan_new]> (sys_running s)))
  | step_read s k c now input scan :
      sys_running s !! k = Some c →
      (comp_next c < next_chunk (comp_row c))%N →
      (read_sealed_chunk now (comp_actor c) (comp_id c) (comp_next c) (sys_db s)).1 = Ok input →
      scan_chunk (declared_type (comp_row c)) (comp_next c) input (comp_scan c) = Ok scan →
      media_step_by None s (mk_MediaSys (sys_db s)
        (<[k := mk_Completion (comp_actor c) (comp_id c) (comp_row c) (comp_next c + 1) scan]>
           (sys_running s)))
  | step_publish s k c channels now fresh content_type sha r db' :
      sys_running s !! k = Some c →
      comp_next c = next_chunk (comp_row c) →
      scan_finish (expected_bytes (comp_row c)) (comp_scan c) = Ok (content_type, sha) →
      publish (mk_MediaStore L channels) fresh now (comp_actor c) (comp_id c) content_type sha
        (sys_db s) = (r, db') →
      media_step_by None s (mk_MediaSys db' (delete k (sys_running s)))
  | step_fail s k : media_step_by None s (mk_MediaSys (sys_db s) (delete k (sys_running s))).

Definition media_step (s s' : MediaSys) : Prop := ∃ label, media_step_by label s s'.

(** The store after [check_policy(true)] on empty tables. *)
Definition media_start : MediaDb :=
  mk_MediaDb (mk_BudgetRow (Some (max_file_bytes L)) (Some (owner_bytes L)) (Some (total_bytes L)))
    ∅ ∅ ∅ ∅ ∅ ∅ ∅.
Definition media_reachable (s : MediaSys) : Prop := rtc media_step (mk_MediaSys media_start ∅) s.

(** ** What the steps leave alone *)

(** An upload that is no longer open keeps its row and its pieces until it is deleted,
    and an identifier other than [new] does not come back. *)
Definition keeps_sealed (new : option UploadId) (db db' : MediaDb) : Prop :=
  ∀ id u', media_uploads db' !! id = Some u' →
    match media_uploads db !! id with
    | None => Some id = new
    | Some u => state u ≠ Open_ →
        same_upload u u' ∧ next_chunk u' = next_chunk u ∧ state u' ≠ Open_
        ∧ ∀ i, media_upload_chunks db' !! (id, i) = media_upload_chunks db !! (id, i)
    end.

Definition comp_ok (db : MediaDb) (c : Completion) : Prop :=
  ∀ u, media_uploads db !! comp_id c = Some u →
    same_upload (comp_row c) u ∧ next_chunk u = next_chunk (comp_row c) ∧ state u ≠ Open_
    ∧ owner_id u = comp_actor c ∧ (comp_next c ≤ next_chunk u)%N
    ∧ scan_all (declared_type u) (file_chunks db (comp_id c) (comp_next c)) = Ok (comp_scan c).

Definition sys_ok (s : MediaSys) : Prop :=
  media_wf L (sys_db s) ∧ ∀ k c, sys_running s !! k = Some c → comp_ok (sys_db s) c.

Lemma same_upload_refl u : same_upload u u.
Proof. by unfold same_upload. Qed.
Lemma same_upload_trans u v w : same_upload u v → same_upload v w → same_upload u w.
Proof. unfold same_upload. intros. destruct_and?. split_and!; congruence. Qed.

Lemma keeps_sealed_refl db : keeps_sealed None db db.
Proof. intros id u Hu. rewrite Hu. intros Ho. split_and!; try done. Qed.
Lemma keeps_sealed_same db db' :
  media_uploads db' = media_uploads db → media_upload_chunks db' = media_upload_chunks db →
  keeps_sealed None db db'.
Proof. intros Eu Ec id u Hu. rewrite Eu in Hu. rewrite Hu, Ec. intros Ho. split_and!; try done. Qed.
Lemma keeps_sealed_delete p db : keeps_sealed None db (delete_uploads p db).
Proof.
  intros id u Hu. apply lookup_delete_uploads in Hu as (Hu & _ & Hc). rewrite Hu.
  intros Hs. split_and!; try done.
Qed.
Lemma keeps_sealed_trans db1 db2 db3 :
  keeps_sealed None db1 db2 → keeps_sealed None db2 db3 → keeps_sealed None db1 db3.
Proof.
  intros H12 H23 id u3 Hu3. specialize (H23 id u3 Hu3).
  destruct (media_uploads db2 !! id) as [u2|] eqn:Hu2; [|done]. specialize (H12 id u2 Hu2).
  destruct (media_uploads db1 !! id) as [u1|]; [|done]. intros Hs.
  destruct (H12 Hs) as (S12 & N12 & O12 & C12). destruct (H23 O12) as (S23 & N23 & O23 & C23).
  split_and!; [by eapply same_upload_trans|congruence|done|]. intros i. by rewrite C23.
Qed.

Lemma comp_ok_step new db db' c :
  keeps_sealed new db db' → new ≠ Some (comp_id c) → comp_ok db c → comp_ok db' c.
Proof.
  intros Hk Hnew Hc u' Hu'. specialize (Hk _ _ Hu').
  destruct (media_uploads db !! comp_id c) as [u|] eqn:Hu; [|congruence].
  destruct (Hc u Hu) as (Hs & Hn & Ho & Hown & Hle & Hscan).
  destruct (Hk Ho) as (Hs' & Hn' & Ho' & Hch).
  split_and!; [by eapply same_upload_trans|congruence|done| |lia|].
  - destruct Hs' as (-> & _). done.
  - destruct Hs' as (_ & _ & _ & _ & -> & _).
    by rewrite (file_chunks_ext db db').
Qed.
End reach.
