(* ===== verification/MediaSteps.v ===== *)
(** * MediaSteps: every step of the media store keeps its invariant

    For each method, what it does when it succeeds; then the invariant [sys_ok] of
    every reachable state. *)

From Stdlib Require Import ZifyBool.
From stdpp Require Import base tactics numbers strings countable sorting gmap list relations.
From S2P Require Import Prelude RustStr Text Ids Models Policy RepoState RepoUsers Sql Attachments MediaStore MediaPreview MediaWf MediaReach.

Section methods.
Context `{Sha256Lib} (self : MediaStore).
Let L := limits self.

(** ** Reading and updating rows *)

Definition upload_visible (db : MediaDb) (now : Z) (actor : UserId) (id : UploadId) (u : Upload)
    : Prop :=
  media_uploads db !! id = Some u ∧ owner_id u = actor
  ∧ (channel_id u, actor) ∈ channel_memberships db
  ∧ (state u = Complete ∨ (now < expires_at u)%Z) ∧ channel_enabled self (channel_id u) = true.

Lemma read_upload_Ok now actor id db st db' :
  read_upload self now actor id db = (Ok st, db') ↔
  db' = db ∧ ∃ u, st = mk_UploadStatus id u ∧ upload_visible db now actor id u.
Proof.
  split.
  - intros Hr. unfold read_upload in Hr. ok_inv Hr. split; [done|]. exists x0. split; [done|].
    unfold active in *. bool_facts. subst. split_and!; try done.
    match goal with H : _ && _ = false |- _ => apply andb_false_iff in H as [H|H] end;
      bool_facts; [by left|right; lia].
  - intros (-> & u & -> & Hu & Ho & Hm & Hs & Hc). unfold read_upload. st_compute.
    rewrite Hu. simpl. rewrite Ho, !bool_decide_true by done. simpl.
    assert (negb (active u && (expires_at u <=? now)%Z) = true) as ->.
    { unfold active. destruct Hs as [->|Hs]; [done|]. case_bool_decide; lia. }
    by rewrite Hc.
Qed.

Lemma update_upload_Ok id f db u v db' :
  media_uploads db !! id = Some u → update_upload id f db = (Ok v, db') →
  upload_checks (f u) = true
  ∧ db' = db <| media_uploads := <[id := f u]> (media_uploads db) |>.
Proof. intros Hu Hr. unfold update_upload in Hr. ok_inv Hr; by simplify_eq. Qed.

(** ** Failures leave no trace *)

Lemma create_atomic fresh now actor channel input :
  atomic (create self fresh now actor channel input).
Proof. unfold create. auto with sproyt. Qed.
Lemma put_chunk_atomic now actor id index input claimed :
  atomic (put_chunk self now actor id index input claimed).
Proof. unfold put_chunk. auto with sproyt. Qed.
Lemma seal_atomic now actor id : atomic (seal self now actor id).
Proof. unfold seal. auto with sproyt. Qed.
Lemma publish_atomic fresh now actor id content_type sha :
  atomic (publish self fresh now actor id content_type sha).
Proof. unfold publish. auto with sproyt. Qed.
Lemma abort_atomic now actor id : atomic (abort self now actor id).
Proof. unfold abort. auto with sproyt. Qed.
Lemma store_media_atomic fresh now upload sha : atomic (sql_store_media fresh now upload sha).
Proof. unfold sql_store_media. auto with sproyt. Qed.

(** ** Creating *)

Lemma admit_upload_Ok fresh now actor channel input db id db' :
  admit_upload self fresh now actor channel input db = (Ok id, db') →
  id = fresh ∧ media_uploads db !! fresh = None
  ∧ ∃ u, db' = db <| media_uploads := <[fresh := u]> (media_uploads db) |>
     ∧ upload_checks u = true ∧ expected_bytes u = NewUpload_size_bytes input
     ∧ state u = Open_ ∧ received_bytes u = 0%N ∧ next_chunk u = 0%N ∧ owner_id u = actor
     ∧ (∀ id' u', media_uploads db !! id' = Some u' → owner_id u' = owner_id u →
          request_id u' = request_id u → False)
     ∧ ((count_where (λ _ u, active u) (media_uploads db) < 64)%Z
        ∧ (count_where (λ _ v, owned_upload actor v && active v) (media_uploads db) < 8)%Z)
     ∧ (Z.to_N (total_charge db) + N.max (expected_bytes u) CHUNK_BYTES ≤ total_bytes L
        ∨ u64_max ≤ total_bytes L)%N
     ∧ (Z.to_N (owner_charge actor db) + N.max (expected_bytes u) CHUNK_BYTES ≤ owner_bytes L
        ∨ u64_max ≤ owner_bytes L)%N.
Proof.
  intros Hr. unfold admit_upload in Hr. ok_inv Hr. unfold insert_upload in *.
  repeat match goal with H : _ = (Ok _, _) |- _ => progress ok_inv H end.
  bool_facts. split; [done|]. split; [done|]. eexists. split; [done|].
  split; [done|]. cbn [expected_bytes state received_bytes next_chunk owner_id].
  do 5 (split; [done|]). split.
  - intros id' u' Hu' Ho Hq. simpl in *.
    match goal with H : ¬ is_Some ?f |- _ =>
      destruct f as [r|] eqn:E; [by destruct H; eexists|];
      pose proof (fetch_where_None _ _ id' u' E Hu') as Hf end.
    simpl in Hf. unfold owned_upload in Hf. by rewrite bool_decide_true, Hq, N.eqb_refl in Hf.
  - unfold L. split; [lia|]. split; lia.
Qed.

Lemma create_effect fresh now actor channel input db r db' :
  (total_bytes L < u64_max)%N → (owner_bytes L < u64_max)%N →
  create self fresh now actor channel input db = (r, db') → media_wf L db →
  media_wf L db' ∧ keeps_sealed (Some fresh) db db'.
Proof.
  intros Hl1 Hl2 Hr Hwf.
  assert (media_wf L db ∧ keeps_sealed (Some fresh) db db) as Hsame.
  { split; [done|]. intros id u Hu. rewrite Hu. intros. by split_and!. }
  apply atomic_inv in Hr as [(st & -> & Ht)|[-> _]]; [|done|by apply create_atomic].
  unfold create in Ht.
  apply st_bind_Ok in Ht as ([] & s & [_ ->]%ensure_Ok & Ht).
  apply st_bind_Ok in Ht as ([] & s & [_ ->]%ensure_Ok & Ht).
  apply st_bind_Ok in Ht as ([] & s & [Hvalid ->]%ensure_Ok & Ht).
  rewrite transaction_Ok in Ht.
  apply st_bind_Ok in Ht as (db0 & s & Hget & Ht). unfold get in Hget. simplify_eq.
  apply st_bind_Ok in Ht as ([] & s & [Hm ->]%ensure_Ok & Ht).
  apply st_bind_Ok in Ht as (id & s1 & Hid & [-> _]%read_upload_Ok).
  destruct (fetch_where _ _) as [[id' u']|].
  - apply st_bind_Ok in Hid as (st' & s & [-> _]%read_upload_Ok & Hid).
    apply st_bind_Ok in Hid as ([] & s & [_ ->]%ensure_Ok & Hid). unfold st_ret in Hid.
    by simplify_eq.
  - apply admit_upload_Ok in Hid as (-> & Hf & u & -> & Hck & Hsz & Hst & Hrc & Hnx & Hown & Hrq
      & [Hca Hcb] & Ht' & Ho').
    unfold valid_new_upload in Hvalid. bool_facts.
    split.
    + eapply wf_new_upload; try done.
      * rewrite Hsz. unfold L. lia.
      * unfold upload_charge, charge, CHUNK_BYTES in *.
        assert (0 ≤ total_charge db0)%Z by
          (unfold total_charge; apply Z.add_nonneg_nonneg; apply sum_where_nonneg; intros; apply charge_pos).
        lia.
      * rewrite Hown. unfold upload_charge, charge, CHUNK_BYTES in *.
        assert (0 ≤ owner_charge actor db0)%Z by
          (unfold owner_charge; apply Z.add_nonneg_nonneg; apply sum_where_nonneg; intros; apply charge_pos).
        lia.
      * by rewrite Hown.
    + intros id u0 Hu0. simpl in Hu0. apply lookup_insert_Some in Hu0 as [[<- <-]|[Hne Hu0]].
      * by rewrite Hf.
      * rewrite Hu0. intros. by split_and!.
Qed.

(** ** Storing chunks *)

(** The three ways [put_chunk] succeeds are two: the chunk is there already, with the
    same bytes, or it is the next one. *)
Lemma put_chunk_Ok now actor id index input claimed db st db' :
  put_chunk self now actor id index input claimed db = (Ok st, db') →
  ∃ u, upload_visible db now actor id u ∧ state u = Open_
    ∧ sha256_hex input = claimed ∧ (0 < length input)
    ∧ N.of_nat (length input) = chunk_length (expected_bytes u) index
    ∧ (index * CHUNK_BYTES < expected_bytes u)%N
    ∧ ((index < next_chunk u)%N ∧ (content <$> media_upload_chunks db !! (id, index)) = Some input
         ∧ db' = db ∧ st = mk_UploadStatus id u
       ∨ index = next_chunk u
         ∧ let u' := u <| next_chunk := (next_chunk u + 1)%N |>
                      <| received_bytes := (received_bytes u + N.of_nat (length input))%N |> in
           upload_checks u' = true ∧ st = mk_UploadStatus id u'
           ∧ db' = db <| media_upload_chunks :=
                    <[(id, index) := mk_Chunk input (sha256_hex input)]> (media_upload_chunks db) |>
                   <| media_uploads := <[id := u']> (media_uploads db) |>).
Proof.
  intros Hr. unfold put_chunk in Hr.
  apply st_bind_Ok in Hr as ([] & s & [Hn ->]%ensure_Ok & Hr). cbv zeta in Hr.
  apply st_bind_Ok in Hr as ([] & s & [Hh ->]%ensure_Ok & Hr). rewrite transaction_Ok in Hr.
  apply st_bind_Ok in Hr as (st0 & s & Hread & Hr).
  apply read_upload_Ok in Hread as (-> & u & -> & Hv). cbn [status_row] in Hr. cbv zeta in Hr.
  apply st_bind_Ok in Hr as ([] & s & [Hst ->]%ensure_Ok & Hr).
  apply st_bind_Ok in Hr as ([] & s & [Hoff ->]%ensure_Ok & Hr).
  apply st_bind_Ok in Hr as ([] & s & Hw & Hread2).
  apply read_upload_Ok in Hread2 as (-> & u2 & -> & Hv2). bool_facts.
  exists u. split; [done|]. split; [done|]. split; [done|]. split; [lia|].
  split; [lia|]. split; [lia|].
  destruct (N.ltb_spec index (next_chunk u)) as [Hlt|Hge].
  - left. ok_inv Hw. bool_facts. destruct Hv as [Hu _], Hv2 as [Hu2 _].
    split; [done|]. split; [done|]. split; [done|]. congruence.
  - right. assert (index = next_chunk u) as -> by lia. split; [done|].
    apply st_bind_Ok in Hw as (db0 & s0 & Hg & Hw). unfold get in Hg. simplify_eq.
    apply st_bind_Ok in Hw as ([] & s0 & [_ ->]%ensure_Ok & Hw).
    apply st_bind_Ok in Hw as ([] & s0 & Hp & Hw). unfold put in Hp. simplify_eq.
    destruct Hv as [Hu _].
    apply (update_upload_Ok id _ _ u) in Hw as [Hck ->]; [|done].
    destruct Hv2 as [Hu2 _]. simpl in Hu2. rewrite lookup_insert_eq in Hu2. simplify_eq.
    cbv zeta. split; [exact Hck|]. done.
Qed.

Lemma put_chunk_effect now actor id index input claimed db r db' :
  Forall is_u8 input →
  put_chunk self now actor id index input claimed db = (r, db') → media_wf L db →
  media_wf L db' ∧ keeps_sealed None db db'.
Proof.
  intros Hb Hr Hwf.
  apply atomic_inv in Hr as [(st & -> & Hr)|[-> _]];
    [|by split; [|apply keeps_sealed_refl]|by apply put_chunk_atomic].
  apply put_chunk_Ok in Hr as (u & (Hu & _) & Hst & _ & _ & Hlen & Hoff & Hcase).
  destruct Hcase as [(_ & _ & -> & _)|(-> & Hck & _ & ->)];
    [by split; [|apply keeps_sealed_refl]|].
  split; [by apply (wf_next_chunk L db id u input)|].
  intros id' v Hv. simpl in Hv. apply lookup_insert_Some in Hv as [[<- <-]|[Hne Hv]].
  - rewrite Hu. by rewrite Hst.
  - rewrite Hv. intros Ho. split_and!; [done..|]. intros i. simpl.
    rewrite lookup_insert_ne; [done|congruence].
Qed.

(** ** Sealing *)

Lemma seal_Ok now actor id db st db' :
  seal self now actor id db = (Ok st, db') →
  ∃ u, upload_visible db now actor id u ∧ received_bytes u = expected_bytes u
    ∧ (state u = Open_ ∧ st = mk_UploadStatus id (u <| state := Sealed |>)
         ∧ db' = db <| media_uploads := <[id := u <| state := Sealed |>]> (media_uploads db) |>
       ∨ state u ≠ Open_ ∧ st = mk_UploadStatus id u ∧ db' = db).
Proof.
  intros Hr. unfold seal in Hr. rewrite transaction_Ok in Hr.
  apply st_bind_Ok in Hr as (st0 & s & Hread & Hr).
  apply read_upload_Ok in Hread as (-> & u & -> & Hv). cbn [status_row] in Hr. cbv zeta in Hr.
  apply st_bind_Ok in Hr as ([] & s & [Hrec ->]%ensure_Ok & Hr).
  apply st_bind_Ok in Hr as ([] & s & Hw & Hread2).
  apply read_upload_Ok in Hread2 as (-> & u2 & -> & Hv2). exists u. split; [done|].
  split; [by apply N.eqb_eq|]. case_bool_decide as Hst.
  - left. split; [done|]. apply (update_upload_Ok id _ _ u) in Hw as [_ ->]; [|apply Hv].
    destruct Hv2 as [Hu2 _]. simpl in Hu2. rewrite lookup_insert_eq in Hu2. by simplify_eq.
  - right. unfold st_ret in Hw. simplify_eq. destruct Hv as [Hu _], Hv2 as [Hu2 _].
    by simplify_eq.
Qed.

Lemma seal_effect now actor id db r db' :
  seal self now actor id db = (r, db') → media_wf L db →
  media_wf L db' ∧ keeps_sealed None db db'.
Proof.
  intros Hr Hwf.
  apply atomic_inv in Hr as [(st & -> & Hr)|[-> _]];
    [|by split; [|apply keeps_sealed_refl]|by apply seal_atomic].
  apply seal_Ok in Hr as (u & (Hu & _) & Hrec & [(Hst & _ & ->)|(_ & _ & ->)]);
    [|by split; [|apply keeps_sealed_refl]].
  split; [by apply wf_seal_row|].
  intros id' v Hv. simpl in Hv. apply lookup_insert_Some in Hv as [[<- <-]|[Hne Hv]].
  - rewrite Hu. by rewrite Hst.
  - rewrite Hv. intros Ho. by split_and!.
Qed.

(** ** Publishing *)

Definition media_of (fresh : MediaId) (now : Z) (actor : UserId) (u : Upload)
    (content_type sha : str) : MediaObject := {|
  MediaObject_id := fresh; MediaObject_owner_id := actor;
  MediaObject_channel_id := channel_id u; MediaObject_original_filename := original_filename u;
  MediaObject_content_type := content_type; MediaObject_size_bytes := expected_bytes u;
  MediaObject_sha256 := sha; MediaObject_width := None; MediaObject_height := None;
  MediaObject_duration_ms := None; MediaObject_alt_text := [];
  MediaObject_analysis_status := lit "pending"; MediaObject_analysis_metadata := JObject [];
  MediaObject_created_at := now |}.

(** The database after a publication, up to the preview job. *)
Definition published_db (fresh : MediaId) (id : UploadId) (u : Upload) (o : MediaObject)
    (db : MediaDb) : MediaDb :=
  db <| media_objects := <[fresh := (o, Key_chunks id)]> (media_objects db) |>
     <| media_uploads := <[id := u <| state := Complete |> <| media_id := Some fresh |>]>
                           (media_uploads db) |>.
Definition with_preview_job (fresh : MediaId) (now : Z) (content_type : str) (db : MediaDb)
    : MediaDb :=
  if starts_with content_type (lit "image/")
  then db <| media_preview_jobs :=
         <[fresh := mk_PreviewRow Preview_pending 0 now None []]> (media_preview_jobs db) |>
  else db.

Lemma publish_Ok fresh now actor id content_type sha db m db' :
  publish self fresh now actor id content_type sha db = (Ok m, db') →
  ∃ u, upload_visible db now actor id u
    ∧ (media_id u = Some m ∧ db' = db
       ∨ media_id u = None ∧ state u = Sealed ∧ m = fresh ∧ media_objects db !! fresh = None
         ∧ (starts_with content_type (lit "image/") = true → media_preview_jobs db !! fresh = None)
         ∧ let o := media_of fresh now actor u content_type sha in
           media_object_budget o (Key_chunks id) db = true
           ∧ db' = with_preview_job fresh now content_type (published_db fresh id u o db)).
Proof.
  intros Hr. unfold publish in Hr. rewrite transaction_Ok in Hr.
  apply st_bind_Ok in Hr as (st0 & s & Hread & Hr).
  apply read_upload_Ok in Hread as (-> & u & -> & Hv). cbn [status_row] in Hr. cbv zeta in Hr.
  exists u. split; [done|]. destruct (media_id u) as [m'|] eqn:Hm.
  { left. unfold st_ret in Hr. by simplify_eq. }
  right. apply st_bind_Ok in Hr as ([] & s & [Hst ->]%ensure_Ok & Hr).
  apply st_bind_Ok in Hr as ([] & s & Hins & Hr). unfold insert_object in Hins. ok_inv Hins.
  apply st_bind_Ok in Hr as ([] & s & Hup & Hr).
  apply (update_upload_Ok id _ _ u) in Hup as [_ ->]; [|apply Hv].
  apply st_bind_Ok in Hr as ([] & s & Hjob & Hr). unfold st_ret in Hr. simplify_eq. bool_facts.
  do 4 (split; [done|]). unfold with_preview_job. cbv zeta.
  destruct (starts_with content_type (lit "image/")); ok_inv Hjob; [|done]. bool_facts.
  by split.
Qed.

Lemma publish_effect fresh now actor id content_type sha db r db' :
  publish self fresh now actor id content_type sha db = (r, db') → media_wf L db →
  (∀ u, media_uploads db !! id = Some u → owner_id u = actor ∧
     ∃ first pieces, file_chunks db id (next_chunk u) = first :: pieces
       ∧ classify first (declared_type u) = Some content_type
       ∧ accepts content_type (first :: pieces) = true
       ∧ sha = sha256_hex (concat (first :: pieces))) →
  media_wf L db' ∧ keeps_sealed None db db'.
Proof.
  intros Hr Hwf Hfile.
  apply atomic_inv in Hr as [(m & -> & Hr)|[-> _]];
    [|by split; [|apply keeps_sealed_refl]|by apply publish_atomic].
  apply publish_Ok in Hr as (u & Hv & [[_ ->]|(Hm & Hst & -> & Hf & _ & _ & Hdb)]);
    [by split; [|apply keeps_sealed_refl]|].
  destruct Hv as (Hu & Hown & _). destruct (Hfile u Hu) as (_ & first & pieces & Hch & Hcl & Hacc & Hsha).
  pose proof (wf_uploads _ _ Hwf _ _ Hu) as Hok.
  set (o := media_of fresh now actor u content_type sha) in *.
  assert (media_wf L (published_db fresh id u o db)) as Hwf'.
  { apply wf_publish_row; [done..|]. split; try done.
    - simpl. unfold file_of. by rewrite Hch.
    - exists first. simpl. by rewrite Hch.
    - simpl. unfold file_of. rewrite Hch, <- chunked_validation_exact; [done|..].
      + rewrite <- Hch. eapply file_of_u8. apply Hok.
      + rewrite <- Hch. pose proof (length_file_of _ _ _ _ Hok) as Hl. unfold file_of in Hl.
        pose proof (ok_checks _ _ _ _ Hok) as Hck. unfold upload_checks in Hck. bool_facts.
        unfold u64_modulus. lia. }
  assert (∀ p, media_uploads (with_preview_job fresh now content_type p) = media_uploads p
    ∧ media_upload_chunks (with_preview_job fresh now content_type p) = media_upload_chunks p
    ∧ media_objects (with_preview_job fresh now content_type p) = media_objects p
    ∧ media_blobs (with_preview_job fresh now content_type p) = media_blobs p
    ∧ budget (with_preview_job fresh now content_type p) = budget p) as Hjob
    by (intros; unfold with_preview_job; by case_match).
  destruct (Hjob (published_db fresh id u o db)) as (Eu & Ec & Eo & Eb & Ebu).
  subst db'. split; [by eapply wf_same_tables|].
  intros id' v Hv'. rewrite Eu in Hv'. simpl in Hv'. rewrite Ec.
  apply lookup_insert_Some in Hv' as [[<- <-]|[Hne Hv']].
  - rewrite Hu. intros _. by split_and!.
  - rewrite Hv'. intros Ho. by split_and!.
Qed.

(** ** Deleting, and the other writers *)

Lemma abort_effect now actor id db r db' :
  abort self now actor id db = (r, db') → media_wf L db →
  media_wf L db' ∧ keeps_sealed None db db'.
Proof.
  intros Hr Hwf.
  apply atomic_inv in Hr as [(a & -> & Hr)|[-> _]];
    [|by split; [|apply keeps_sealed_refl]|by apply abort_atomic].
  unfold abort in Hr. rewrite transaction_Ok in Hr.
  apply st_bind_Ok in Hr as (st0 & s & Hread & Hr).
  apply read_upload_Ok in Hread as (-> & u & -> & Hu & _). cbn [status_row] in Hr.
  apply st_bind_Ok in Hr as ([] & s & [Hact ->]%ensure_Ok & Hr). unfold modify in Hr. simplify_eq.
  split; [|apply keeps_sealed_delete]. apply wf_delete_uploads; [done|].
  intros id' u' Hu' Heq. apply N.eqb_eq in Heq as ->. by simplify_eq.
Qed.

(** The tables after [store_media]. *)
Definition stored_db (fresh : MediaId) (now : DateTime) (upload : MediaUpload) (sha : str)
    (db : MediaDb) : MediaDb :=
  db <| media_objects :=
         <[fresh := (stored_object fresh now upload sha, Key_db fresh)]> (media_objects db) |>
     <| media_blobs := <[fresh := MediaUpload_content upload]> (media_blobs db) |>
     <| media_variants := match MediaUpload_preview upload with
                          | Some preview => <[fresh := preview]> (media_variants db)
                          | None => media_variants db
                          end |>.

Lemma store_media_Ok fresh now upload sha db o db' :
  sql_store_media fresh now upload sha db = (Ok o, db') →
  (MediaUpload_channel_id upload, MediaUpload_actor upload) ∈ channel_memberships db
  ∧ o = stored_object fresh now upload sha ∧ media_objects db !! fresh = None
  ∧ media_object_budget o (Key_db fresh) db = true
  ∧ db' = stored_db fresh now upload sha db.
Proof.
  intros Hr. unfold sql_store_media in Hr.
  apply st_bind_Ok in Hr as (db0 & s & Hget & Hr). injection Hget as <- <-.
  apply st_bind_Ok in Hr as ([] & s & [Hm ->]%ensure_Ok & Hr). cbv zeta in Hr.
  rewrite transaction_Ok in Hr.
  apply st_bind_Ok in Hr as ([] & s & Hins & Hr). unfold insert_object in Hins.
  apply st_bind_Ok in Hins as (db0 & s' & Hget & Hins). injection Hget as <- <-.
  apply st_bind_Ok in Hins as ([] & s' & [Hbudget ->]%ensure_Ok & Hins).
  apply st_bind_Ok in Hins as ([] & s' & [_ ->]%ensure_Ok & Hins).
  apply st_bind_Ok in Hins as ([] & s' & [Hfree ->]%ensure_Ok & Hins). injection Hins as <-.
  apply st_bind_Ok in Hr as ([] & s' & Hblob & Hr). injection Hblob as <-.
  apply st_bind_Ok in Hr as ([] & s' & Hprev & Hr). injection Hr as <- ->.
  bool_facts. split_and!; try done. unfold stored_db.
  destruct (MediaUpload_preview upload) as [preview|].
  - apply st_bind_Ok in Hprev as ([] & s'' & [_ ->]%ensure_Ok & Hprev). by injection Hprev as <-.
  - injection Hprev as <-. by destruct db.
Qed.

Lemma store_media_effect fresh now upload sha db r db' :
  sql_store_media fresh now upload sha db = (r, db') → media_wf L db →
  media_wf L db' ∧ keeps_sealed None db db'.
Proof.
  intros Hr Hwf.
  apply atomic_inv in Hr as [(o & -> & Hr)|[-> _]];
    [|by split; [|apply keeps_sealed_refl]|by apply store_media_atomic].
  apply store_media_Ok in Hr as (_ & -> & Hf & Hb & ->).
  split; [|by apply keeps_sealed_same].
  eapply wf_same_tables; [apply (wf_store_blob L db fresh (stored_object fresh now upload sha)
    (MediaUpload_content upload)); done|done..].
Qed.
End methods.

(** The preview worker's operations write to its own tables. *)
Definition same_but_previews (db db' : MediaDb) : Prop :=
  budget db' = budget db ∧ channel_memberships db' = channel_memberships db
  ∧ media_uploads db' = media_uploads db ∧ media_upload_chunks db' = media_upload_chunks db
  ∧ media_objects db' = media_objects db ∧ media_blobs db' = media_blobs db.

Lemma claim_preview_frame token now db : same_but_previews db (claim_preview token now db).2.
Proof.
  unfold claim_preview, transaction. st_compute. destruct (head _) as [[m j]|]; [|done].
  simpl. destruct (media_objects db !! m) as [[o k]|]; done.
Qed.
Lemma update_leased_frame now job f db : same_but_previews db (update_leased now job f db).2.
Proof. unfold update_leased. st_compute. by repeat case_match. Qed.
Lemma publish_preview_frame now job input w h db :
  same_but_previews db (publish_preview now job input w h db).2.
Proof.
  unfold publish_preview, transaction. st_compute.
  match goal with |- context [if ?b then Ok tt else _] => destruct b end; [|done].
  pose proof (update_leased_frame now job
    (λ j, mk_PreviewRow Preview_ready (attempts j) (available_at j) None []) db) as Hf.
  destruct (update_leased _ _ _ _) as [[[]| |] db']; done.
Qed.
Lemma fail_preview_frame now job db : same_but_previews db (fail_preview now job db).2.
Proof.
  unfold fail_preview, transaction. st_compute.
  match goal with |- context [update_leased ?n ?j ?f ?d] =>
    pose proof (update_leased_frame n j f d) as Hf; destruct (update_leased n j f d) as [[] ?] end; done.
Qed.

Section invariant.
Context `{Sha256Lib} (L : UploadLimits).
Hypothesis limits_ok : limits_valid L = true.

Lemma previews_effect db db' :
  same_but_previews db db' → media_wf L db → media_wf L db' ∧ keeps_sealed None db db'.
Proof.
  intros (Eb & Em & Eu & Ec & Eo & Ebl) Hwf.
  split; [by eapply wf_same_tables|by apply keeps_sealed_same].
Qed.

Definition op_new (op : MediaOp) : option UploadId :=
  match op with Op_create _ fresh _ _ _ _ => Some fresh | _ => None end.

Lemma media_run_effect s op :
  op_allowed s op → media_wf L (sys_db s) →
  media_wf L (media_run L op (sys_db s)) ∧ keeps_sealed (op_new op) (sys_db s) (media_run L op (sys_db s)).
Proof.
  intros Hop Hwf. pose proof limits_ok as Hl. unfold limits_valid, i64_max in Hl. bool_facts.
  destruct op; simpl in *.
  - destruct (create _ _ _ _ _ _ _) as [r db'] eqn:E.
    eapply (create_effect (mk_MediaStore L channels)) in E; try done; simpl; unfold u64_max; lia.
  - destruct (put_chunk _ _ _ _ _ _ _ _) as [r db'] eqn:E.
    by eapply (put_chunk_effect (mk_MediaStore L channels)) in E.
  - destruct (seal _ _ _ _ _) as [r db'] eqn:E.
    by eapply (seal_effect (mk_MediaStore L channels)) in E.
  - destruct (abort _ _ _ _ _) as [r db'] eqn:E.
    by eapply (abort_effect (mk_MediaStore L channels)) in E.
  - split; [|apply keeps_sealed_delete]. apply wf_delete_uploads; [done|].
    intros id u _ Hp. bool_facts. done.
  - by apply previews_effect; [apply claim_preview_frame|].
  - by apply previews_effect; [apply publish_preview_frame|].
  - by apply previews_effect; [apply fail_preview_frame|].
  - destruct (sql_store_media _ _ _ _ _) as [r db'] eqn:E.
    by eapply (store_media_effect (mk_MediaStore L None)) in E.
  - split; [by eapply wf_same_tables|by apply keeps_sealed_same].
  - split; [by eapply wf_same_tables|by apply keeps_sealed_same].
  - split; [by apply wf_delete_objects|].
    eapply keeps_sealed_trans; [apply keeps_sealed_delete|by apply keeps_sealed_same].
  - split; [by apply wf_delete_channel|]. unfold delete_channel_rows.
    eapply keeps_sealed_trans; [|eapply keeps_sealed_trans; [apply keeps_sealed_delete|by apply keeps_sealed_same]].
    eapply keeps_sealed_trans; [apply keeps_sealed_delete|by apply keeps_sealed_same].
Qed.

(** What a running completion has read, when its scan is finished. *)
Lemma scanned_file db c u content_type sha :
  media_wf L db → comp_ok db c → media_uploads db !! comp_id c = Some u →
  comp_next c = next_chunk (comp_row c) →
  scan_finish (expected_bytes (comp_row c)) (comp_scan c) = Ok (content_type, sha) →
  owner_id u = comp_actor c ∧ ∃ first pieces,
    file_chunks db (comp_id c) (next_chunk u) = first :: pieces
    ∧ classify first (declared_type u) = Some content_type
    ∧ accepts content_type (first :: pieces) = true
    ∧ sha = sha256_hex (concat (first :: pieces)).
Proof.
  intros Hwf Hc Hu Hnext Hfin. destruct (Hc u Hu) as (Hs & Hn & Ho & Hown & Hle & Hscan).
  split; [done|]. pose proof (wf_uploads _ _ Hwf _ _ Hu) as Hok.
  rewrite Hnext, <- Hn in Hscan.
  destruct (file_chunks db (comp_id c) (next_chunk u)) as [|first pieces] eqn:Hf.
  - exfalso. assert (next_chunk u = 0%N) as Hz.
    { apply (f_equal length) in Hf. rewrite length_file_chunks in Hf. simpl in Hf. lia. }
    pose proof (ok_sealed _ _ _ _ Hok Ho). pose proof (ok_received _ _ _ _ Hok).
    pose proof (ok_checks _ _ _ _ Hok) as Hck. unfold upload_checks in Hck. bool_facts.
    rewrite Hz in *. rewrite N.mul_0_l, N.min_0_l in *. lia.
  - exists first, pieces. split; [done|].
    assert ((let? s := scan_all (declared_type u) (first :: pieces) in
             scan_finish (expected_bytes (comp_row c)) s) = Ok (content_type, sha)) as Hall
      by by rewrite Hscan.
    apply scan_accepts in Hall as (_ & Hcl & Hacc & Hsha). done.
Qed.

Lemma comp_ok_frame new db db' (running : gmap N Completion) :
  keeps_sealed new db db' → (∀ k c, running !! k = Some c → new ≠ Some (comp_id c)) →
  (∀ k c, running !! k = Some c → comp_ok db c) →
  ∀ k c, running !! k = Some c → comp_ok db' c.
Proof. intros Hk Hn Hc k c Hkc. eapply comp_ok_step; eauto. Qed.

Lemma media_step_ok s s' : media_step L s s' → sys_ok L s → sys_ok L s'.
Proof.
  intros [label Hstep] [Hwf Hrun]. destruct Hstep as
    [s op Hop|s k channels now actor id st db' Hk Hseal Hm|s k c now input scan Hk Hlt Hread Hscan
    |s k c channels now fresh ct sha r db' Hk Hnext Hfin Hpub|s k]; simpl in *.
  - destruct (media_run_effect s op Hop Hwf) as [Hwf' Hkeep]. split; [done|].
    eapply comp_ok_frame; [done| |done]. intros k c Hkc. destruct op; simpl in *; try done.
    intros [=]. by eapply Hop.
  - pose proof Hseal as Hs. apply (seal_effect (mk_MediaStore L channels)) in Hs as [Hwf' Hkeep];
      [|done]. split; [done|]. simpl.
    intros k' c [[<- <-]|[Hne Hc]]%lookup_insert_Some; [|eapply comp_ok_frame; eauto].
    apply seal_Ok in Hseal as (u & (Hu & Hown & _) & _ & Hcase).
    intros v Hv. simpl in Hv. destruct Hcase as [(Hst & -> & ->)|(Hst & -> & ->)]; simpl in *.
    + rewrite lookup_insert_eq in Hv. simplify_eq. simpl. split_and!; try done. lia.
    + simplify_eq. split_and!; try done. lia.
  - split; [done|]. simpl. intros k' c' [[<- <-]|[Hne Hc]]%lookup_insert_Some; [|by eapply Hrun].
    intros u Hu. simpl in *. destruct (Hrun k c Hk u Hu) as (Hs & Hn & Ho & Hown & Hle & Hsc).
    split_and!; try done; [lia|]. rewrite file_chunks_succ, scan_all_snoc, Hsc. simpl.
    rewrite length_file_chunks, N2Nat.id.
    assert (content <$> media_upload_chunks (sys_db s) !! (comp_id c, comp_next c) = Some input)
      as ->.
    { destruct (read_sealed_chunk _ _ _ _ _) as [r db''] eqn:E. simpl in Hread. subst r.
      unfold read_sealed_chunk in E. ok_inv E. match goal with H : media_upload_chunks _ !! _ = Some _ |- _ => by rewrite H end. }
    destruct Hs as (_ & _ & _ & _ & -> & _).
    exact Hscan.
  - apply (publish_effect (mk_MediaStore L channels)) in Hpub as [Hwf' Hkeep]; [|done|].
    + split; [done|]. simpl. intros k' c' [Hne Hc]%lookup_delete_Some. eapply comp_ok_frame; eauto.
    + intros u Hu. eapply scanned_file; eauto.
  - split; [done|]. simpl. intros k' c' [Hne Hc]%lookup_delete_Some. eauto.
Qed.

Lemma media_start_ok : sys_ok L (mk_MediaSys (media_start L) ∅).
Proof.
  split; [|done]. split; try done.
  - intros m [? ?]. done.
  - unfold total_charge. simpl. unfold sum_where. rewrite !map_fold_empty. lia.
  - intros o. unfold owner_charge. simpl. unfold sum_where. rewrite !map_fold_empty. lia.
Qed.

Lemma media_reachable_ok s : media_reachable L s → sys_ok L s.
Proof.
  unfold media_reachable. generalize media_start_ok.
  generalize (mk_MediaSys (media_start L) ∅). intros s0 H0 Hr.
  induction Hr as [s0|s1 s2 s3 Hstep _ IH]; [done|]. apply IH. by eapply media_step_ok.
Qed.
End invariant.
