(* ===== verification/MediaProps.v ===== *)
(** * MediaProps: theorems about uploads and media

    For every reachable state of the media store: published media are the bytes that
    were uploaded and validated, the budgets hold, uploads round-trip through the
    chunked storage, retries change nothing, and the SQL media methods behave as those
    of the in-memory repository. *)

From Stdlib Require Import ZifyBool.
From stdpp Require Import base tactics numbers strings countable sorting gmap list relations.
From S2P Require Import Prelude RustStr Text Ids Models Policy RepoState RepoUsers Sql Attachments MediaStore MediaPreview MediaWf MediaReach MediaSteps.

(** ** Reading chunked files *)

Section reading.
Context `{Sha256Lib}.

Lemma chunk_indices_split i n :
  (i < n)%N →
  chunk_indices n = chunk_indices i ++ i :: (N.of_nat <$> seq (S (N.to_nat i)) (N.to_nat (n - i - 1))).
Proof.
  intros Hi. unfold chunk_indices.
  replace (N.to_nat n) with (N.to_nat i + S (N.to_nat (n - i - 1))) by lia.
  rewrite seq_app, fmap_app. f_equal. cbn [seq fmap list_fmap]. f_equal. lia.
Qed.

(** A stored chunk is the slice of the file at its position. *)
Lemma chunk_of_file L db id u i c :
  upload_ok L db id u → (i < next_chunk u)%N → media_upload_chunks db !! (id, i) = Some c →
  content c = take (N.to_nat (chunk_length (expected_bytes u) i))
                (drop (N.to_nat (i * CHUNK_BYTES)) (file_of db id (next_chunk u))).
Proof.
  intros Hok Hi Hc. unfold file_of, file_chunks.
  rewrite (chunk_indices_split i) by done. rewrite fmap_app, fmap_cons, concat_app. simpl.
  fold (file_chunks db id i). fold (file_of db id i). rewrite Hc. simpl.
  assert (i * CHUNK_BYTES < expected_bytes u)%N as Hlt.
  { pose proof (ok_next _ _ _ _ Hok). unfold CHUNK_BYTES in *. lia. }
  assert (N.of_nat (length (file_of db id i)) = i * CHUNK_BYTES)%N as Hlen.
  { rewrite (length_file_of_prefix db id u).
    - unfold CHUNK_BYTES in *. lia.
    - intros j Hj. apply Hok. lia.
    - unfold CHUNK_BYTES in *. lia. }
  rewrite drop_app_length' by lia.
  destruct (ok_stored _ _ _ _ Hok i Hi) as (c' & Hc' & Hl & _). simplify_eq.
  by rewrite take_app_length' by lia.
Qed.

Context (L : UploadLimits) (db : MediaDb) (actor : UserId) (m : MediaId) (o : MediaObject)
  (id : UploadId) (u : Upload).
Hypotheses (Hwf : media_wf L db) (Hm : media_objects db !! m = Some (o, Key_chunks id))
  (Hu : media_uploads db !! id = Some u) (Hpub : published db m o id u)
  (Hmem : (channel_id u, actor) ∈ channel_memberships db).
Let file := file_of db id (next_chunk u).

Lemma upload_of_media : upload_of m db = Some (id, u).
Proof.
  apply fetch_where_unique; [done| |].
  - rewrite (pub_media _ _ _ _ _ Hpub). rewrite !bool_decide_true; [done| |done].
    eapply complete_iff; [by eapply wf_uploads|]. by rewrite (pub_media _ _ _ _ _ Hpub).
  - intros id' u' Hu' Hp. bool_facts.
    destruct (ok_media _ _ _ _ (wf_uploads _ _ Hwf _ _ Hu') m) as [o' Ho']; [done|]. congruence.
Qed.

Lemma length_published : N.of_nat (length file) = expected_bytes u.
Proof.
  unfold file. pose proof (wf_uploads _ _ Hwf _ _ Hu) as Hok.
  rewrite (length_file_of L) by done. apply (ok_sealed _ _ _ _ Hok).
  assert (state u = Complete) as ->; [|done].
  eapply complete_iff; [done|]. by rewrite (pub_media _ _ _ _ _ Hpub).
Qed.

Lemma read_piece_window position count :
  (0 < count)%N → (count ≤ CHUNK_BYTES - position `mod` CHUNK_BYTES)%N →
  (position + count ≤ expected_bytes u)%N →
  read_piece actor m position count db = Ok (take (N.to_nat count) (drop (N.to_nat position) file)).
Proof.
  intros Hc0 Hc1 Hc2. unfold read_piece. rewrite upload_of_media, decide_True by done.
  pose proof (wf_uploads _ _ Hwf _ _ Hu) as Hok.
  assert (position / CHUNK_BYTES < next_chunk u)%N as Hi.
  { assert (received_bytes u = expected_bytes u) as Hrec.
    { rewrite <- (length_file_of _ _ _ _ Hok). apply length_published. }
    rewrite (ok_received _ _ _ _ Hok) in Hrec.
    apply N.Div0.div_lt_upper_bound. unfold CHUNK_BYTES in *. lia. }
  destruct (ok_stored _ _ _ _ Hok _ Hi) as (c & Hc & Hl & _). rewrite Hc.
  assert (position = CHUNK_BYTES * (position / CHUNK_BYTES) + position `mod` CHUNK_BYTES)%N as Hpos
    by (apply N.div_mod'; done).
  set (q := (position / CHUNK_BYTES)%N) in *. set (r := (position `mod` CHUNK_BYTES)%N) in *.
  clearbody q r.
  assert (substr (content c) (r + 1) count
          = take (N.to_nat count) (drop (N.to_nat position) file)) as ->.
  { unfold substr. rewrite (chunk_of_file L db id u _ c) by done. fold file.
    replace (r + 1 - 1)%N with r by lia.
    rewrite skipn_firstn_comm, take_take, drop_drop. unfold chunk_length, CHUNK_BYTES in *.
    f_equal; [lia|f_equal; lia]. }
  rewrite length_take, length_drop. pose proof length_published.
  assert ((N.of_nat (N.to_nat count `min` (length file - N.to_nat position)) =? count)%N = true) as ->
    by lia. done.
Qed.

Lemma read_pieces_window fuel position wanted result :
  (N.of_nat (length result) ≤ wanted)%N → (wanted ≤ N.of_nat fuel + N.of_nat (length result))%N →
  (position + (wanted - N.of_nat (length result)) ≤ expected_bytes u)%N →
  read_pieces fuel actor m position wanted result db
  = Ok (result ++ take (N.to_nat (wanted - N.of_nat (length result))) (drop (N.to_nat position) file)).
Proof.
  revert position result. induction fuel as [|fuel IH]; intros position result Hr Hf Hp.
  - assert (wanted = N.of_nat (length result)) as -> by lia. unfold read_pieces.
    rewrite N.leb_refl, N.sub_diag. simpl. by rewrite app_nil_r.
  - cbn [read_pieces]. destruct (N.leb_spec wanted (N.of_nat (length result))) as [Hle|Hgt].
    + replace (wanted - N.of_nat (length result))%N with 0%N by lia. simpl. by rewrite app_nil_r.
    + set (count := N.min (wanted - N.of_nat (length result))
                      (CHUNK_BYTES - position `mod` CHUNK_BYTES)).
      assert (position `mod` CHUNK_BYTES < CHUNK_BYTES)%N as Hmod by by apply N.mod_lt.
      assert (0 < count ∧ count ≤ CHUNK_BYTES - position `mod` CHUNK_BYTES
              ∧ count ≤ wanted - N.of_nat (length result))%N as (Hc0 & Hc1 & Hc2).
      { revert Hmod. unfold count. generalize (position `mod` CHUNK_BYTES)%N. intros. lia. }
      clearbody count. rewrite read_piece_window by (done || lia). cbn [res_bind].
      assert (length (take (N.to_nat count) (drop (N.to_nat position) file)) = N.to_nat count) as Hlen.
      { rewrite length_take, length_drop. pose proof length_published. lia. }
      rewrite IH; rewrite ?length_app, Hlen; try lia.
      rewrite <- app_assoc. do 2 f_equal.
      replace (N.to_nat (position + N.of_nat (N.to_nat count)))
        with (N.to_nat position + N.to_nat count) by lia.
      rewrite <- drop_drop.
      replace (N.to_nat (wanted - N.of_nat (length result)))
        with (N.to_nat count + N.to_nat (wanted - N.of_nat (length result + N.to_nat count))) by lia.
      apply take_take_drop.
Qed.
End reading.

(** ** Refinement of the in-memory repository *)

(** The object and the bytes of a media identifier, however they are stored. *)
Definition media_contents (db : MediaDb) (m : MediaId) : option (MediaObject * bytes) :=
  match media_objects db !! m with
  | Some (o, Key_db _) => (λ blob, (o, blob)) <$> media_blobs db !! m
  | Some (o, Key_chunks id) =>
      (λ u, (o, file_of db id (next_chunk u))) <$> media_uploads db !! id
  | None => None
  end.

(** The tables stand for the maps of the in-memory repository. *)
Definition media_rel (db : MediaDb) (st : RepositoryState) : Prop :=
  (∀ c u, (c, u) ∈ channel_memberships db ↔ is_Some (memberships st !! (c, u)))
  ∧ (∀ m, media st !! m = media_contents db m)
  ∧ (∀ m, media_previews st !! m = media_variants db !! m).

Lemma window_min (l : bytes) (offset n : N) :
  (offset + n ≤ u64_max)%N →
  (if (offset <=? N.min (N.min (offset + n) u64_max) (N.of_nat (length l)))%N
   then take (N.to_nat (N.min (N.min (offset + n) u64_max) (N.of_nat (length l)) - offset))
          (drop (N.to_nat offset) l) else [])
  = take (N.to_nat n) (drop (N.to_nat offset) l).
Proof.
  intros Hn. destruct (N.leb_spec offset (N.of_nat (length l))) as [Hle|Hgt].
  - assert ((offset <=? N.min (N.min (offset + n) u64_max) (N.of_nat (length l)))%N = true) as -> by lia.
    destruct (N.leb_spec (offset + n) (N.of_nat (length l))).
    + f_equal. lia.
    + rewrite !take_ge by (rewrite length_drop; lia). done.
  - assert ((offset <=? N.min (N.min (offset + n) u64_max) (N.of_nat (length l)))%N = false) as -> by lia.
    by rewrite drop_ge, take_nil by lia.
Qed.

Section contents.
Context `{Sha256Lib} (L : UploadLimits) (db : MediaDb).
Hypothesis Hwf : media_wf L db.

(** Every stored object has contents. *)
Lemma contents_of_object m o k :
  media_objects db !! m = Some (o, k) →
  ∃ file, media_contents db m = Some (o, file) ∧ MediaObject_size_bytes o = N.of_nat (length file)
    ∧ match k with
      | Key_db _ => media_blobs db !! m = Some file
      | Key_chunks id => media_blobs db !! m = None ∧ ∃ u, media_uploads db !! id = Some u
          ∧ published db m o id u ∧ file = file_of db id (next_chunk u)
      end.
Proof.
  intros Hm. unfold media_contents. rewrite Hm.
  destruct (wf_objects _ _ Hwf _ _ _ Hm) as [_ Hk]. destruct k as [m'|id].
  - destruct Hk as (_ & blob & Hb & Hs). rewrite Hb. simpl. eauto.
  - destruct Hk as (Hb & u & Hu & Hpub). rewrite Hu. simpl. eexists. split; [done|].
    split; [|by eauto 10]. rewrite (length_published L db m o id u) by done. apply Hpub.
Qed.

(** A member reads the requested window of the contents. *)
Lemma read_contents actor m o file offset n :
  media_contents db m = Some (o, file) →
  (MediaObject_channel_id o, actor) ∈ channel_memberships db →
  (0 < n ≤ MEDIA_READ_BLOCK_BYTES)%N → (Z.of_N offset + 1 ≤ i64_max)%Z →
  sql_read_media_slice actor m offset n db
  = (Ok (take (N.to_nat n) (drop (N.to_nat offset) file)), db).
Proof.
  intros Hc Hin Hn Hoff. unfold sql_read_media_slice, sql_media_metadata, visible_object. st_compute.
  assert (negb ((n =? 0)%N || (MEDIA_READ_BLOCK_BYTES <? n)%N) = true) as -> by lia.
  assert ((Z.of_N offset + 1 <=? i64_max)%Z = true) as -> by lia.
  destruct (media_objects db !! m) as [[o' k]|] eqn:Hm;
    [|unfold media_contents in Hc; by rewrite Hm in Hc].
  destruct (contents_of_object m o' k Hm) as (file' & Hc' & Hsz & Hk).
  rewrite Hc in Hc'. injection Hc' as <- <-. rewrite decide_True by done. destruct k as [m'|id].
  - rewrite Hk. unfold substr. do 5 f_equal. lia.
  - destruct Hk as (-> & u & Hu & Hpub & ->). simpl. rewrite Hm, decide_True by done. simpl.
    pose proof (length_published L db m o id u Hwf Hu Hpub) as Hlen. rewrite Hsz, Hlen.
    destruct (N.leb_spec offset (expected_bytes u)) as [Hle|Hgt].
    + rewrite (read_pieces_window L db actor m o id u) with (result := []); simpl; try done; try lia.
      * rewrite N.sub_0_r. do 2 f_equal. destruct (N.leb_spec n (expected_bytes u - offset));
          [f_equal; lia|]. rewrite !take_ge by (rewrite length_drop; lia). done.
      * by rewrite <- (pub_channel _ _ _ _ _ Hpub).
    + replace (expected_bytes u - offset)%N with 0%N by lia. rewrite N.min_0_l. simpl.
      by rewrite drop_ge, take_nil by lia.
Qed.
End contents.

Section refinement.
Context `{Sha256Lib} (L : UploadLimits) (db : MediaDb) (st : RepositoryState).
Hypotheses (Hwf : media_wf L db) (Hrel : media_rel db st).

Lemma member_rel c u :
  contains_key (c, u) (memberships st) = bool_decide ((c, u) ∈ channel_memberships db).
Proof.
  destruct Hrel as [Hm _]. unfold contains_key. apply bool_decide_ext. by rewrite Hm.
Qed.

Lemma no_object m : media_objects db !! m = None → media st !! m = None.
Proof. intros Hm. destruct Hrel as (_ & Hc & _). rewrite Hc. unfold media_contents. by rewrite Hm. Qed.

Lemma media_of_object m o k :
  media_objects db !! m = Some (o, k) →
  ∃ file, media st !! m = Some (o, file) ∧ media_contents db m = Some (o, file).
Proof.
  intros Hm. destruct (contents_of_object L db Hwf m o k Hm) as (file & Hc & _). exists file.
  destruct Hrel as (_ & Hmedia & _). by rewrite Hmedia.
Qed.

Lemma read_refines actor m offset n :
  (Z.of_N offset + 1 ≤ i64_max)%Z →
  (sql_read_media_slice actor m offset n db).1 = (RepoUsers.read_media_slice actor m offset n st).1.
Proof.
  intros Hoff. unfold RepoUsers.read_media_slice. st_compute.
  destruct ((n =? 0)%N || (MEDIA_READ_BLOCK_BYTES <? n)%N) eqn:Hn.
  { unfold sql_read_media_slice. st_compute. by rewrite Hn. }
  assert (offset + n ≤ u64_max)%N as Hsum.
  { unfold MEDIA_READ_BLOCK_BYTES, u64_max, i64_max in *. lia. }
  assert (∀ r, r = visible_object actor m db → r = None →
    (sql_read_media_slice actor m offset n db).1 = Err NotFound) as Hnone.
  { intros r -> Hv. unfold sql_read_media_slice, sql_media_metadata. st_compute.
    assert ((Z.of_N offset + 1 <=? i64_max)%Z = true) as -> by lia. rewrite Hn, Hv. simpl. by rewrite Hv. }
  simpl. destruct (media_objects db !! m) as [[o k]|] eqn:Hm.
  - destruct (media_of_object m o k Hm) as (file & -> & Hc). rewrite member_rel.
    destruct (decide ((MediaObject_channel_id o, actor) ∈ channel_memberships db)) as [Hin|Hout].
    + rewrite bool_decide_true by done. cbn [fst]. rewrite window_min by done.
      rewrite (read_contents L db Hwf actor m o file) by (done || lia). done.
    + rewrite bool_decide_false by done. eapply Hnone; [done|]. unfold visible_object.
      by rewrite Hm, decide_False by done.
  - rewrite (no_object m Hm). eapply Hnone; [done|]. unfold visible_object. by rewrite Hm.
Qed.

Lemma metadata_refines actor m :
  (sql_media_metadata actor m db).1 = (RepoUsers.media_metadata actor m st).1.
Proof.
  unfold sql_media_metadata, RepoUsers.media_metadata, visible_object. st_compute.
  destruct (media_objects db !! m) as [[o k]|] eqn:Hm; [|by rewrite (no_object m Hm)].
  destruct (media_of_object m o k Hm) as (file & -> & _). rewrite member_rel.
  by destruct (decide _); [rewrite bool_decide_true|rewrite bool_decide_false].
Qed.

Lemma store_media_result fresh now upload sha r db' :
  (MediaUpload_channel_id upload, MediaUpload_actor upload) ∈ channel_memberships db →
  sql_store_media fresh now upload sha db = (r, db') →
  (∃ o, r = Ok o) ∨ ∃ e, r = Err e ∧ (e = Quota ∨ e = Conflict ∨ e = Storage []).
Proof.
  intros Hmem Hr. unfold sql_store_media, insert_object in Hr.
  cbv [st_bind get ensure transaction put modify st_ret] in Hr.
  rewrite bool_decide_true in Hr by done.
  repeat match type of Hr with
  | context [if ?b then Ok tt else _] => destruct b
  | context [match MediaUpload_preview ?u with _ => _ end] => destruct (MediaUpload_preview u)
  end; simplify_eq; eauto 6.
Qed.

(** Storing a file: the SQL method does what the in-memory one does, or refuses for
    the budget or a constraint and changes nothing. *)
Lemma store_refines fresh now upload sha :
  let (r, db') := sql_store_media fresh now upload sha db in
  let (r', st') := RepoUsers.store_media fresh now upload sha st in
  r = r' ∧ media_rel db' st'
  ∨ db' = db ∧ ∃ e, r = Err e ∧ (e = Quota ∨ e = Conflict ∨ e = Storage []).
Proof.
  destruct (sql_store_media fresh now upload sha db) as [r db'] eqn:Hr.
  destruct (RepoUsers.store_media fresh now upload sha st) as [r' st'] eqn:Hs.
  unfold RepoUsers.store_media in Hs. cbv [st_bind get ensure st_ret] in Hs.
  rewrite member_rel in Hs.
  destruct (decide ((MediaUpload_channel_id upload, MediaUpload_actor upload)
                      ∈ channel_memberships db)) as [Hmem|Hmem]; cycle 1.
  { rewrite bool_decide_false in Hs by done. unfold sql_store_media in Hr.
    cbv [st_bind get ensure] in Hr. rewrite bool_decide_false in Hr by done. left. by simplify_eq. }
  rewrite bool_decide_true in Hs by done.
  pose proof (store_media_result _ _ _ _ _ _ Hmem Hr) as Hres.
  apply atomic_inv in Hr as [(o & -> & Hr)|[-> Hne]]; [| |by apply store_media_atomic].
  - left. apply store_media_Ok in Hr as (_ & -> & Hf & _ & ->).
    destruct Hrel as (Hm & Hc & Hp).
    assert (∀ m, media_contents (stored_db fresh now upload sha db) m
      = if decide (m = fresh) then Some (stored_object fresh now upload sha, MediaUpload_content upload)
        else media_contents db m) as Hnew.
    { intros m. unfold media_contents, stored_db. simpl.
      destruct (decide (m = fresh)) as [->|Hne]; [by rewrite !lookup_insert_eq|].
      rewrite !lookup_insert_ne by done. done. }
    destruct (MediaUpload_preview upload) as [preview|] eqn:Hprev; unfold modify in Hs; simplify_eq;
      (split; [done|]); unfold media_rel; (split; [done|]); (split; [intros m; rewrite Hnew; simpl|]).
    all: unfold stored_db; rewrite ?Hprev; simpl.
    all: try (destruct (decide (m = fresh)) as [->|Hne];
              [by rewrite lookup_insert_eq|by rewrite lookup_insert_ne, Hc by done]).
    + intros m. destruct (decide (m = fresh)) as [->|Hne]; [by rewrite !lookup_insert_eq|].
      by rewrite !lookup_insert_ne, Hp by done.
    + done.
  - right. split; [done|]. by destruct Hres as [[o ->]|He]; [destruct (Hne o)|].
Qed.
End refinement.

(** C8: over the tables of any reachable state, the media methods of the SQL repository
    behave as those of the in-memory repository on the state the tables stand for: reads
    (of files stored whole or in chunks, from offsets below [i64::MAX]) and metadata agree, and
    storing a file leads to related states, unless the budget or a constraint refuses it, which
    changes nothing. *)
Theorem sql_media_refines_memory `{Sha256Lib} L s st actor m offset n fresh now upload sha :
  limits_valid L = true → media_reachable L s → media_rel (sys_db s) st →
  (Z.of_N offset + 1 ≤ i64_max)%Z →
  (sql_read_media_slice actor m offset n (sys_db s)).1
    = (RepoUsers.read_media_slice actor m offset n st).1
  ∧ (sql_media_metadata actor m (sys_db s)).1 = (RepoUsers.media_metadata actor m st).1
  ∧ let (r, db') := sql_store_media fresh now upload sha (sys_db s) in
    let (r', st') := RepoUsers.store_media fresh now upload sha st in
    r = r' ∧ media_rel db' st'
    ∨ db' = sys_db s ∧ ∃ e, r = Err e ∧ (e = Quota ∨ e = Conflict ∨ e = Storage []).
Proof.
  intros Hl Hr Hrel Hoff. destruct (media_reachable_ok L Hl s Hr) as [Hwf _].
  split; [by eapply read_refines|]. split; [by eapply metadata_refines|].
  by eapply store_refines.
Qed.

(** ** Safety *)

(** C24: however many completions run at once, and whatever else happens between their
    transactions, a media object that is stored in chunks is the uploaded file: its size
    and digest are those of the stored bytes, its type was determined from their
    beginning, the whole file passed the validation of that type, and it belongs to the
    owner and channel of the upload. *)
Theorem published_media_verified `{Sha256Lib} L s m o id :
  limits_valid L = true → media_reachable L s →
  media_objects (sys_db s) !! m = Some (o, Key_chunks id) →
  ∃ u first, let file := file_of (sys_db s) id (next_chunk u) in
    media_uploads (sys_db s) !! id = Some u ∧ media_id u = Some m
    ∧ MediaObject_size_bytes o = N.of_nat (length file) ∧ MediaObject_sha256 o = sha256_hex file
    ∧ first `prefix_of` file ∧ classify first (declared_type u) = Some (MediaObject_content_type o)
    ∧ document_valid (MediaObject_content_type o) file = true
    ∧ MediaObject_owner_id o = owner_id u ∧ MediaObject_channel_id o = channel_id u.
Proof.
  intros Hl Hr Hm. destruct (media_reachable_ok L Hl s Hr) as [Hwf _].
  destruct (wf_objects _ _ Hwf _ _ _ Hm) as (_ & _ & u & Hu & Hpub).
  pose proof (length_published L _ m o id u Hwf Hu Hpub) as Hlen.
  destruct (pub_type _ _ _ _ _ Hpub) as (first & Hfirst & Hcl). exists u, first. cbv zeta.
  split_and!; try apply Hpub; try done; [by rewrite Hlen; apply Hpub|]. unfold file_of.
  destruct (file_chunks _ _ _); simplify_eq/=. by apply prefix_app_r.
Qed.

(** C34: the bytes charged for stored media and reserved for uploads never exceed the total
    budget, nor any owner's share; no stored media object, and no upload as announced, is
    larger than the limit for one file; at most 64 uploads are under way, at most 8 of one
    owner. *)
Theorem media_within_budget `{Sha256Lib} L s :
  limits_valid L = true → media_reachable L s →
  (total_charge (sys_db s) ≤ Z.of_N (total_bytes L))%Z
  ∧ (∀ owner, owner_charge owner (sys_db s) ≤ Z.of_N (owner_bytes L))%Z
  ∧ (∀ id u, media_uploads (sys_db s) !! id = Some u → (expected_bytes u ≤ max_file_bytes L)%N)
  ∧ (∀ m o k, media_objects (sys_db s) !! m = Some (o, k) → (MediaObject_size_bytes o ≤ max_file_bytes L)%N)
  ∧ (count_where (λ _ u, active u) (media_uploads (sys_db s)) ≤ 64)%Z
  ∧ (∀ owner, count_where (λ _ u, owned_upload owner u && active u) (media_uploads (sys_db s)) ≤ 8)%Z.
Proof.
  intros Hl Hr. destruct (media_reachable_ok L Hl s Hr) as [Hwf _].
  split_and!; apply Hwf.
Qed.

(** ** Uploading a file *)

(** A client that sends a file: the pieces, one after the other. *)
Definition chunk_count (size : N) : N := ((size + CHUNK_BYTES - 1) / CHUNK_BYTES)%N.
Definition piece_of (file : bytes) (i : N) : bytes :=
  take (N.to_nat CHUNK_BYTES) (drop (N.to_nat (i * CHUNK_BYTES)) file).
Definition pieces_of (file : bytes) : list bytes :=
  piece_of file <$> chunk_indices (chunk_count (N.of_nat (length file))).

Section upload.
Context `{Sha256Lib} (self : MediaStore) (now : Z) (actor : UserId) (id : UploadId).
Let L := limits self.

Fixpoint put_all (i : N) (pieces : list bytes) : Media unit :=
  match pieces with
  | [] => st_ret tt
  | p :: pieces' =>
      let! _ := put_chunk self now actor id i p (sha256_hex p) in
      put_all (i + 1) pieces'
  end.

Lemma chunk_count_bounds size :
  (0 < size)%N →
  ((chunk_count size - 1) * CHUNK_BYTES < size ∧ size ≤ chunk_count size * CHUNK_BYTES)%N.
Proof.
  intros Hs. unfold chunk_count.
  assert (CHUNK_BYTES ≠ 0)%N as Hne by done.
  pose proof (N.div_mod' (size + CHUNK_BYTES - 1) CHUNK_BYTES) as Hdm.
  pose proof (N.mod_lt (size + CHUNK_BYTES - 1) CHUNK_BYTES Hne) as Hlt.
  set (q := ((size + CHUNK_BYTES - 1) / CHUNK_BYTES)%N) in *.
  set (r := ((size + CHUNK_BYTES - 1) `mod` CHUNK_BYTES)%N) in *. clearbody q r.
  unfold CHUNK_BYTES in *. lia.
Qed.

Lemma length_piece_of file i :
  N.of_nat (length (piece_of file i)) = chunk_length (N.of_nat (length file)) i.
Proof. unfold piece_of, chunk_length. rewrite length_take, length_drop. lia. Qed.

Lemma concat_pieces_prefix file n :
  concat (piece_of file <$> chunk_indices n) = take (N.to_nat (n * CHUNK_BYTES)) file.
Proof.
  induction n as [|n IH] using N.peano_ind; [done|]. rewrite <- N.add_1_r.
  rewrite chunk_indices_succ, fmap_app, concat_app, IH. simpl. rewrite app_nil_r. unfold piece_of.
  replace (N.to_nat ((n + 1) * CHUNK_BYTES)) with (N.to_nat (n * CHUNK_BYTES) + N.to_nat CHUNK_BYTES) by lia.
  by rewrite take_take_drop.
Qed.
Lemma concat_pieces_of file : file ≠ [] → concat (pieces_of file) = file.
Proof.
  intros Hne. unfold pieces_of. rewrite concat_pieces_prefix. apply take_ge.
  assert (0 < N.of_nat (length file))%N as Hpos by (destruct file; simpl; [done|lia]).
  pose proof (chunk_count_bounds _ Hpos). lia.
Qed.

Lemma pieces_of_cons file : file ≠ [] → ∃ rest, pieces_of file = piece_of file 0 :: rest.
Proof.
  intros Hne. assert (0 < N.of_nat (length file))%N as Hpos by (destruct file; simpl; [done|lia]).
  pose proof (chunk_count_bounds _ Hpos) as [_ Hcb]. unfold pieces_of.
  rewrite (chunk_indices_split 0); [by eexists|]. unfold CHUNK_BYTES in *. lia.
Qed.

(** The next chunk of an open upload is accepted. *)
Lemma put_chunk_next db u input :
  media_wf L db → upload_visible self db now actor id u → state u = Open_ →
  (next_chunk u * CHUNK_BYTES < expected_bytes u)%N →
  N.of_nat (length input) = chunk_length (expected_bytes u) (next_chunk u) → Forall is_u8 input →
  let u' := u <| next_chunk := (next_chunk u + 1)%N |>
              <| received_bytes := (received_bytes u + N.of_nat (length input))%N |> in
  put_chunk self now actor id (next_chunk u) input (sha256_hex input) db
  = (Ok (mk_UploadStatus id u'),
     db <| media_upload_chunks :=
             <[(id, next_chunk u) := mk_Chunk input (sha256_hex input)]> (media_upload_chunks db) |>
        <| media_uploads := <[id := u']> (media_uploads db) |>).
Proof.
  intros Hwf Hv Hst Hoff Hlen Hb u'. pose proof Hv as (Hu & Hown & Hmem & Hexp & Hen).
  destruct (wf_next_chunk L db id u input) as [Hck _]; [done..|]. fold u' in Hck.
  unfold put_chunk. apply st_bind_Ok. eexists tt, db. rewrite ensure_Ok. split.
  { split; [|done]. unfold chunk_length, CHUNK_BYTES in *. lia. }
  cbv zeta. apply st_bind_Ok. eexists tt, db. rewrite ensure_Ok, bool_decide_true by done.
  split; [done|]. rewrite transaction_Ok. apply st_bind_Ok. exists (mk_UploadStatus id u), db.
  rewrite read_upload_Ok. split; [split; [done|by exists u]|]. cbn [status_row].
  apply st_bind_Ok. eexists tt, db. rewrite ensure_Ok, Hst, N.ltb_irrefl. split; [done|].
  apply st_bind_Ok. eexists tt, db. rewrite ensure_Ok. split; [split; [|done]; rewrite Hlen, N.eqb_refl; lia|].
  apply st_bind_Ok. exists tt. eexists. split.
  { apply st_bind_Ok. eexists db, db. split; [done|]. apply st_bind_Ok. eexists tt, db. split.
    - apply ensure_Ok. split; [|done]. apply negb_true, contains_key_false.
      eapply ok_beyond; [by eapply wf_uploads|lia].
    - apply st_bind_Ok. exists tt. eexists. split; [done|]. unfold update_upload. st_compute.
      simpl. rewrite Hu. fold u'. by rewrite Hck. }
  apply read_upload_Ok. split; [done|]. exists u'. split; [done|].
  split; [simpl; by rewrite lookup_insert_eq|]. done.
Qed.

(** An upload of [file] of which the first [i] pieces are stored. *)
Definition uploading (file : bytes) (i : N) (db : MediaDb) (u : Upload) : Prop :=
  media_wf L db ∧ upload_visible self db now actor id u ∧ state u = Open_
  ∧ expected_bytes u = N.of_nat (length file) ∧ next_chunk u = i
  ∧ file_chunks db id i = piece_of file <$> chunk_indices i.

Lemma put_all_rest file k i db u :
  Forall is_u8 file → uploading file i db u →
  (i + N.of_nat k)%N = chunk_count (N.of_nat (length file)) →
  ∃ db' u', put_all i (piece_of file <$> (N.of_nat <$> seq (N.to_nat i) k)) db = (Ok tt, db')
    ∧ uploading file (i + N.of_nat k) db' u' ∧ same_upload u u'
    ∧ media_objects db' = media_objects db ∧ media_preview_jobs db' = media_preview_jobs db
    ∧ channel_memberships db' = channel_memberships db.
Proof.
  intros Hb. revert i db u. induction k as [|k IH]; intros i db u Hup Hk.
  { exists db, u. rewrite N.add_0_r. done. }
  destruct Hup as (Hwf & Hv & Hst & Hexp & Hn & Hfc).
  assert (0 < expected_bytes u)%N as Hpos.
  { pose proof (ok_checks _ _ _ _ (wf_uploads _ _ Hwf _ _ (proj1 Hv))) as Hck.
    unfold upload_checks in Hck. bool_facts. lia. }
  rewrite Hexp in Hpos. pose proof (chunk_count_bounds _ Hpos) as [Hcb _].
  assert (i * CHUNK_BYTES < expected_bytes u)%N as Hoff.
  { rewrite Hexp. rewrite <- Hk in Hcb. unfold CHUNK_BYTES in *. lia. }
  assert (N.of_nat (length (piece_of file i)) = chunk_length (expected_bytes u) (next_chunk u))
    as Hlen by by rewrite length_piece_of, Hexp, Hn.
  assert (Forall is_u8 (piece_of file i)) as Hb' by (unfold piece_of; by apply Forall_take, Forall_drop).
  cbn [seq fmap list_fmap put_all]. rewrite N2Nat.id.
  pose proof (put_chunk_next db u (piece_of file i) Hwf Hv Hst) as Hput. rewrite Hn in Hput.
  rewrite Hn in Hlen. specialize (Hput Hoff Hlen Hb'). cbv zeta in Hput.
  destruct (wf_next_chunk L db id u (piece_of file i)) as [_ Hwf']; [done|apply Hv|done|by rewrite Hn..|done|].
  rewrite Hn in Hwf'.
  set (u' := u <| next_chunk := (i + 1)%N |> <| received_bytes := _ |>) in *.
  match type of Hput with _ = (_, ?d) => set (db1 := d) in * end.
  unfold st_bind at 1. rewrite Hput.
  destruct (IH (i + 1)%N db1 u') as (db' & u'' & Hrun & Hup' & Hs & Ho & Hp & Hmm).
  - split_and!; try done.
    + destruct Hv as (Hu & Hr). split; [|done]. unfold db1. simpl. by rewrite lookup_insert_eq.
    + rewrite file_chunks_succ, chunk_indices_succ, fmap_app. f_equal.
      * rewrite <- Hfc. apply file_chunks_ext. intros j Hj. unfold db1. simpl.
        rewrite lookup_insert_ne; [done|]. intros [=]; lia.
      * unfold db1. simpl. by rewrite lookup_insert_eq.
  - lia.
  - exists db', u''. replace (S (N.to_nat i)) with (N.to_nat (i + 1)) by lia. split; [done|].
    replace (i + N.of_nat (S k))%N with (i + 1 + N.of_nat k)%N by lia. by split_and!.
Qed.

Lemma put_all_pieces file db u :
  Forall is_u8 file → uploading file 0 db u →
  ∃ db' u', put_all 0 (pieces_of file) db = (Ok tt, db')
    ∧ uploading file (chunk_count (N.of_nat (length file))) db' u' ∧ same_upload u u'
    ∧ media_objects db' = media_objects db ∧ media_preview_jobs db' = media_preview_jobs db
    ∧ channel_memberships db' = channel_memberships db.
Proof.
  intros Hb Hup.
  destruct (put_all_rest file (N.to_nat (chunk_count (N.of_nat (length file)))) 0 db u)
    as (db' & u' & Hrun & Hup' & Hrest); [done..|lia|].
  exists db', u'. rewrite N2Nat.id, N.add_0_l in Hup'. done.
Qed.
End upload.

Section completing.
Context `{Sha256Lib} (self : MediaStore) (now : Z) (actor : UserId) (id : UploadId).
Let L := limits self.

Lemma scan_chunks_reads declared (pc : N → bytes) k n scan db :
  (∀ i, (N.of_nat k ≤ i < N.of_nat (k + n))%N →
     read_sealed_chunk now actor id i db = (Ok (pc i), db)) →
  scan_chunks now actor id declared (N.of_nat <$> seq k n) scan db
  = (scan_from declared (N.of_nat k) (pc <$> (N.of_nat <$> seq k n)) scan, db).
Proof.
  revert k scan. induction n as [|n IH]; intros k scan Hread; [done|].
  cbn [seq fmap list_fmap scan_chunks scan_from]. unfold st_bind, st_lift.
  rewrite Hread by lia. destruct (scan_chunk declared (N.of_nat k) (pc (N.of_nat k)) scan) as [s| |];
    simpl; [|done..]. rewrite IH by (intros; apply Hread; lia).
  by replace (N.of_nat k + 1)%N with (N.of_nat (S k)) by lia.
Qed.

Lemma classify_length first declared ct :
  classify first declared = Some ct → 1 ≤ length ct ≤ 127.
Proof.
  assert (∀ ct', detected_media_type first declared = Some ct' →
            (declared = lit "text/plain" ∨ declared = lit "text/csv") ∧ ct' = declared
            ∨ 1 ≤ length ct' ≤ 127) as Hd.
  { intros ct' Hd. unfold detected_media_type in Hd. cbv zeta in Hd.
    repeat match type of Hd with context [if ?b then _ else _] => destruct b end;
      try discriminate Hd; injection Hd as <-; (right; vm_compute; lia) || (left; done). }
  unfold classify. intros Hc. destruct (decide _) as [[->| ->]|Htext]; [simplify_eq; simpl; lia..|].
  destruct (detected_media_type first declared) as [k|] eqn:Ek; [|by repeat case_match].
  assert (ct = k) as -> by (repeat case_match; by simplify_eq).
  by destruct (Hd k eq_refl) as [[Ht _]|?]; [destruct Htext|].
Qed.

(** A sealed upload of [file]. *)
Definition uploaded (file : bytes) (db : MediaDb) (u : Upload) : Prop :=
  media_wf L db ∧ upload_visible self db now actor id u ∧ state u = Sealed
  ∧ expected_bytes u = N.of_nat (length file)
  ∧ file_chunks db id (next_chunk u) = pieces_of file.

Lemma upload_size_bounds db u :
  media_wf L db → media_uploads db !! id = Some u →
  (0 < expected_bytes u ≤ 1073741824)%N.
Proof.
  intros Hwf Hu. pose proof (ok_checks _ _ _ _ (wf_uploads _ _ Hwf _ _ Hu)) as Hck.
  unfold upload_checks in Hck. bool_facts. lia.
Qed.

Lemma seal_uploading file db u :
  uploading self now actor id file (chunk_count (N.of_nat (length file))) db u →
  let u1 := u <| state := Sealed |> in
  let db1 := db <| media_uploads := <[id := u1]> (media_uploads db) |> in
  seal self now actor id db = (Ok (mk_UploadStatus id u1), db1) ∧ uploaded file db1 u1.
Proof.
  intros (Hwf & Hv & Hst & Hexp & Hn & Hfc) u1 db1.
  pose proof Hv as (Hu & Hown & Hmem & Htime & Hen).
  pose proof (wf_uploads _ _ Hwf _ _ Hu) as Hok.
  destruct (upload_size_bounds db u Hwf Hu) as [Hpos _].
  rewrite Hexp in Hpos. pose proof (chunk_count_bounds _ Hpos) as [_ Hcb].
  assert (received_bytes u = expected_bytes u) as Hrec.
  { rewrite (ok_received _ _ _ _ Hok), Hn, Hexp. lia. }
  assert (media_wf L db1) as Hwf1 by by apply wf_seal_row.
  assert (media_uploads db1 !! id = Some u1) as Hu1 by (simpl; by rewrite lookup_insert_eq).
  assert (upload_visible self db1 now actor id u1) as Hv1.
  { split_and!; try done. right. destruct Htime as [Ht|]; [by rewrite Hst in Ht|done]. }
  split.
  - unfold seal. rewrite transaction_Ok. apply st_bind_Ok. exists (mk_UploadStatus id u), db.
    rewrite read_upload_Ok. split; [by split; [|exists u]|]. cbn [status_row]. cbv zeta.
    apply st_bind_Ok. exists tt, db. rewrite ensure_Ok, Hrec, N.eqb_refl. split; [done|].
    apply st_bind_Ok. exists tt, db1. split; [|apply read_upload_Ok; by split; [|exists u1]].
    rewrite bool_decide_true by done. unfold update_upload. st_compute. rewrite Hu. fold u1.
    by rewrite (ok_checks _ _ _ _ (wf_uploads _ _ Hwf1 _ _ Hu1)).
  - split_and!; try done. change (next_chunk u1) with (next_chunk u). rewrite Hn.
    unfold pieces_of. rewrite <- Hfc. by apply file_chunks_ext.
Qed.

Lemma next_chunk_uploaded file db u :
  uploaded file db u → next_chunk u = chunk_count (N.of_nat (length file)).
Proof.
  intros (_ & _ & _ & _ & Hfc). apply (f_equal length) in Hfc.
  rewrite length_file_chunks in Hfc. unfold pieces_of in Hfc.
  rewrite length_fmap, length_chunk_indices in Hfc. lia.
Qed.

Lemma read_uploaded file db u i :
  uploaded file db u → (i < next_chunk u)%N →
  read_sealed_chunk now actor id i db = (Ok (piece_of file i), db).
Proof.
  intros Hup Hi. pose proof (next_chunk_uploaded _ _ _ Hup) as Hn.
  destruct Hup as (Hwf & Hv & Hst & Hexp & Hfc). pose proof Hv as (Hu & Hown & Hmem & Htime & _).
  destruct (ok_stored _ _ _ _ (wf_uploads _ _ Hwf _ _ Hu) i Hi) as (c & Hc & _).
  assert (content c = piece_of file i) as Hpiece.
  { apply (f_equal (.!! N.to_nat i)) in Hfc. unfold file_chunks, pieces_of, chunk_indices in Hfc.
    rewrite <- Hn in Hfc. rewrite !list_lookup_fmap, lookup_seq_lt in Hfc by lia.
    simpl in Hfc. rewrite N2Nat.id, Hc in Hfc. by simplify_eq/=. }
  unfold read_sealed_chunk. st_compute. rewrite Hu, Hc. rewrite Hst, Hown, Hpiece.
  rewrite !bool_decide_true by done. destruct Htime as [Ht|Ht]; [by rewrite Hst in Ht|].
  assert ((now <? expires_at u)%Z = true) as -> by lia. done.
Qed.

Lemma scan_uploaded file db u ct :
  Forall is_u8 file → uploaded file db u →
  classify (piece_of file 0) (declared_type u) = Some ct → document_valid ct file = true →
  (let? s := scan_all (declared_type u) (pieces_of file) in scan_finish (expected_bytes u) s)
  = Ok (ct, sha256_hex file).
Proof.
  intros Hb Hup Hcl Hvalid. pose proof (next_chunk_uploaded _ _ _ Hup) as Hn.
  destruct Hup as (Hwf & Hv & Hst & Hexp & Hfc).
  destruct (upload_size_bounds db u Hwf (proj1 Hv)) as [Hpos Hmax].
  assert (file ≠ []) as Hne by (intros ->; simpl in Hexp; lia).
  destruct (pieces_of_cons file Hne) as [rest Hpieces].
  rewrite Hpieces. apply scan_accepts. rewrite <- Hpieces, concat_pieces_of by done.
  split_and!; try done. rewrite chunked_validation_exact; rewrite concat_pieces_of; try done.
  unfold u64_modulus. lia.
Qed.

Lemma publish_sealed db u fresh ct sha :
  media_wf L db → upload_visible self db now actor id u → state u = Sealed →
  1 ≤ length ct ≤ 127 → media_objects db !! fresh = None → media_preview_jobs db !! fresh = None →
  publish self fresh now actor id ct sha db
  = (Ok fresh, with_preview_job fresh now ct
                 (published_db fresh id u (media_of fresh now actor u ct sha) db)).
Proof.
  intros Hwf Hv Hst Hct Hfresh Hjob. pose proof Hv as (Hu & Hown & _).
  pose proof (wf_uploads _ _ Hwf _ _ Hu) as Hok. pose proof (ok_checks _ _ _ _ Hok) as Hck.
  set (o := media_of fresh now actor u ct sha).
  set (u' := u <| state := Complete |> <| media_id := Some fresh |>).
  assert (media_id u = None) as Hm by (eapply active_media_None; [done|unfold active; by rewrite Hst]).
  unfold publish. rewrite transaction_Ok. apply st_bind_Ok. exists (mk_UploadStatus id u), db.
  rewrite read_upload_Ok. split; [by split; [|exists u]|]. cbn [status_row]. cbv zeta. rewrite Hm.
  apply st_bind_Ok. exists tt, db. rewrite ensure_Ok, bool_decide_true by done. split; [done|].
  apply st_bind_Ok. exists tt. eexists. split.
  { change (insert_object _ _ _ _ _) with (insert_object (E := UploadError) UploadError_Quota
      UploadError_Storage UploadError_Storage o (Key_chunks id)).
    unfold insert_object. st_compute.
    assert (media_object_budget o (Key_chunks id) db = true) as ->
      by (eapply publish_within_budget; (done || by rewrite <- Hown)).
    assert (object_checks o = true) as ->
      by (unfold object_checks, upload_checks in *;
          change (MediaObject_original_filename o) with (original_filename u);
          change (MediaObject_content_type o) with ct; bool_facts; lia).
    assert (key_taken (Key_chunks id) db = false) as ->
      by (eapply key_free; [done..|unfold active; by rewrite Hst]).
    change (MediaObject_id o) with fresh.
    assert (contains_key fresh (media_objects db) = false) as -> by by apply contains_key_false.
    reflexivity. }
  apply st_bind_Ok. exists tt. eexists. split.
  { unfold update_upload. st_compute. simpl. rewrite Hu. fold u'.
    assert (upload_checks u' = true) as ->; [|reflexivity].
    by apply upload_checks_complete. }
  apply st_bind_Ok. exists tt. eexists. split; [|reflexivity].
  unfold with_preview_job. destruct (starts_with ct (lit "image/")); [|reflexivity].
  st_compute. simpl. assert (contains_key fresh (media_preview_jobs db) = false) as ->
    by by apply contains_key_false. reflexivity.
Qed.

(** Completing an upload whose pieces are all stored. *)
Lemma complete_uploading file db u fresh ct :
  Forall is_u8 file → uploading self now actor id file (chunk_count (N.of_nat (length file))) db u →
  classify (piece_of file 0) (declared_type u) = Some ct → document_valid ct file = true →
  media_objects db !! fresh = None → media_preview_jobs db !! fresh = None →
  ∃ db' o, complete self fresh now actor id db = (Ok fresh, db')
    ∧ media_wf L db' ∧ media_contents db' fresh = Some (o, file)
    ∧ MediaObject_channel_id o = channel_id u ∧ MediaObject_content_type o = ct
    ∧ MediaObject_sha256 o = sha256_hex file ∧ channel_memberships db' = channel_memberships db.
Proof.
  intros Hb Hup Hcl Hvalid Hfresh Hjob.
  destruct (seal_uploading file db u Hup) as [Hseal Hup1].
  set (u1 := u <| state := Sealed |>) in *. set (db1 := db <| media_uploads := _ |>) in *.
  pose proof Hup1 as (Hwf1 & Hv1 & Hst1 & Hexp1 & Hfc1). destruct (Hv1) as (Hu1 & Hown1 & _).
  pose proof (scan_uploaded file db1 u1 ct Hb Hup1 Hcl Hvalid) as Hscan.
  pose proof (publish_sealed db1 u1 fresh ct (sha256_hex file) Hwf1 Hv1 Hst1
    (classify_length _ _ _ Hcl) Hfresh Hjob) as Hpub.
  set (o := media_of fresh now actor u1 ct (sha256_hex file)) in *.
  set (db' := with_preview_job _ _ _ _) in *.
  assert (file ≠ []) as Hne.
  { pose proof (upload_size_bounds db1 u1 Hwf1 Hu1) as [Hpos _]. rewrite Hexp1 in Hpos.
    intros ->. simpl in Hpos. lia. }
  exists db', o.
  assert (media_uploads db' = media_uploads (published_db fresh id u1 o db1)
    ∧ media_upload_chunks db' = media_upload_chunks db1
    ∧ media_objects db' = media_objects (published_db fresh id u1 o db1)
    ∧ channel_memberships db' = channel_memberships db) as (Eu & Ec & Eo & Em)
    by (unfold db', with_preview_job; by case_match).
  split_and!; try done.
  - unfold complete, st_bind. rewrite Hseal. cbn [status_row].
    rewrite (active_media_None L db1 id u1) by (done || by eapply wf_uploads).
    unfold chunk_indices. rewrite (scan_chunks_reads _ (piece_of file)) by
      (intros i Hi; eapply read_uploaded; [done|lia]).
    change (piece_of file <$> _) with (piece_of file <$> chunk_indices (next_chunk u1)).
    rewrite (next_chunk_uploaded _ _ _ Hup1). fold (pieces_of file).
    change (scan_from _ _ _ _) with (scan_all (declared_type u1) (pieces_of file)).
    change (declared_type u) with (declared_type u1) in Hscan.
    destruct (scan_all (declared_type u1) (pieces_of file)) as [scan| |]; simpl in Hscan; [|done..].
    unfold st_lift. change (expected_bytes u) with (expected_bytes u1) in Hscan. by rewrite Hscan.
  - eapply (publish_effect self); [exact Hpub|done|]. intros v Hv. simplify_eq. split; [done|].
    destruct (pieces_of_cons file Hne) as [rest Hrest]. exists (piece_of file 0), rest.
    rewrite Hrest in Hscan. apply scan_accepts in Hscan as (_ & ? & ? & ?). by rewrite Hfc1, Hrest.
  - unfold media_contents. rewrite Eo, Eu. simpl. rewrite !lookup_insert_eq. simpl. do 2 f_equal.
    assert (file_chunks db' id (next_chunk u1) = pieces_of file) as Hf
      by (rewrite <- Hfc1; apply file_chunks_ext; by rewrite Ec).
    change (concat (file_chunks db' id (next_chunk u1)) = file). rewrite Hf. by apply concat_pieces_of.
Qed.
End completing.

(** ** Round trip *)

(** The row that a [create] which is not a retry leaves. *)
Lemma create_new_Ok `{Sha256Lib} self fresh now actor channel input db st db1 :
  create self fresh now actor channel input db = (Ok st, db1) →
  media_uploads db !! status_id st = None →
  ∃ u, st = mk_UploadStatus fresh u ∧ upload_visible self db1 now actor fresh u
    ∧ state u = Open_ ∧ next_chunk u = 0%N ∧ expected_bytes u = NewUpload_size_bytes input
    ∧ declared_type u = NewUpload_content_type input ∧ channel_id u = channel
    ∧ media_objects db1 = media_objects db ∧ media_preview_jobs db1 = media_preview_jobs db
    ∧ channel_memberships db1 = channel_memberships db.
Proof.
  intros Hr Hnew. unfold create in Hr.
  apply st_bind_Ok in Hr as ([] & s & [_ ->]%ensure_Ok & Hr).
  apply st_bind_Ok in Hr as ([] & s & [_ ->]%ensure_Ok & Hr).
  apply st_bind_Ok in Hr as ([] & s & [_ ->]%ensure_Ok & Hr).
  rewrite transaction_Ok in Hr.
  apply st_bind_Ok in Hr as (db0 & s & Hget & Hr). injection Hget as <- <-.
  apply st_bind_Ok in Hr as ([] & s & [_ ->]%ensure_Ok & Hr).
  apply st_bind_Ok in Hr as (id & s1 & Hid & Hread).
  apply read_upload_Ok in Hread as (-> & u & -> & Hv). cbn [status_id] in Hnew.
  destruct (fetch_where _ _) as [[id' u']|].
  - apply st_bind_Ok in Hid as (st' & s & Hp & Hid).
    apply st_bind_Ok in Hid as ([] & s' & [_ ->]%ensure_Ok & Hid). injection Hid as -> ->.
    apply read_upload_Ok in Hp as (-> & u'' & _ & Hu'' & _). congruence.
  - unfold admit_upload, insert_upload in Hid.
    apply st_bind_Ok in Hid as (db0 & s & Hget & Hid). injection Hget as <- <-.
    apply st_bind_Ok in Hid as ([] & s & [_ ->]%ensure_Ok & Hid).
    apply st_bind_Ok in Hid as ([] & s & [_ ->]%ensure_Ok & Hid).
    apply st_bind_Ok in Hid as ([] & s & Hins & Hid). injection Hid as <- ->.
    apply st_bind_Ok in Hins as (db0 & s' & Hget & Hins). injection Hget as <- <-.
    apply st_bind_Ok in Hins as ([] & s' & [_ ->]%ensure_Ok & Hins). injection Hins as <-.
    exists u. split; [done|]. split; [done|]. destruct Hv as (Hu & _). simpl in Hu.
    rewrite lookup_insert_eq in Hu. by injection Hu as <-.
Qed.

(** C35: from any reachable state, an admitted upload of a valid file goes through when the
    client works alone: if the upload was created with the length of the file, the first piece
    classifies as content type [ct] under the declared type, and the file passes the
    validation of documents of type [ct], then sending its pieces in order and completing,
    all at the same moment and without other operations in between, succeed; and right
    afterwards every member of the channel reads exactly the bytes of the file, in windows of
    any offset, with [ct] and the digest of the whole file in its metadata. The identifiers
    of the upload and of the object are new. *)
Theorem upload_roundtrip `{Sha256Lib} L channels s id m now actor channel input file ct st db1 :
  let self := mk_MediaStore L channels in
  limits_valid L = true → media_reachable L s →
  create self id now actor channel input (sys_db s) = (Ok st, db1) →
  media_uploads (sys_db s) !! status_id st = None →
  NewUpload_size_bytes input = N.of_nat (length file) → Forall is_u8 file →
  classify (piece_of file 0) (NewUpload_content_type input) = Some ct →
  document_valid ct file = true →
  media_objects (sys_db s) !! m = None → media_preview_jobs (sys_db s) !! m = None →
  ∃ db2 db3 o,
    put_all self now actor id 0 (pieces_of file) db1 = (Ok tt, db2)
    ∧ complete self m now actor id db2 = (Ok m, db3)
    ∧ MediaObject_content_type o = ct ∧ MediaObject_sha256 o = sha256_hex file
    ∧ ∀ reader offset n,
        (channel, reader) ∈ channel_memberships (sys_db s) →
        (0 < n ≤ MEDIA_READ_BLOCK_BYTES)%N → (Z.of_N offset + 1 ≤ i64_max)%Z →
        (sql_media_metadata reader m db3).1 = Ok o
        ∧ (sql_read_media_slice reader m offset n db3).1
          = Ok (take (N.to_nat n) (drop (N.to_nat offset) file)).
Proof.
  intros self Hl Hr Hcreate Hnew Hsize Hb Hcl Hvalid Hm Hj.
  destruct (media_reachable_ok L Hl s Hr) as [Hwf _].
  pose proof Hcreate as Hc. pose proof Hl as Hl'. unfold limits_valid, i64_max in Hl'. bool_facts.
  apply create_effect in Hc as [Hwf1 _]; [|simpl; unfold u64_max; lia..|done].
  apply create_new_Ok in Hcreate as (u & -> & Hv & Hst & Hn & Hexp & Hd & Hch & Eo & Ej & Em); [|done].
  destruct (put_all_pieces self now actor id file db1 u) as (db2 & u2 & Hput & Hup & Hs & Eo2 & Ej2 & Em2);
    [done|by split_and!; rewrite ?Hexp|].
  destruct Hs as (_ & Hch2 & _ & _ & Hd2 & _).
  destruct (complete_uploading self now actor id file db2 u2 m ct) as
    (db3 & o & Hcomp & Hwf3 & Hcont & Hoc & Hot & Hosha & Em3);
    [done|done|by rewrite Hd2, Hd|done|by rewrite Eo2, Eo|by rewrite Ej2, Ej|].
  exists db2, db3, o. split_and!; try done. intros reader offset n Hin Hn' Hoff.
  assert ((MediaObject_channel_id o, reader) ∈ channel_memberships db3) as Hin3
    by by rewrite Em3, Em2, Em, Hoc, Hch2, Hch.
  split; [|by rewrite (read_contents L db3 Hwf3 reader m o file)].
  unfold sql_media_metadata, visible_object. st_compute.
  destruct (media_objects db3 !! m) as [[o' k]|] eqn:Hobj;
    [|unfold media_contents in Hcont; by rewrite Hobj in Hcont].
  destruct (contents_of_object L db3 Hwf3 m o' k Hobj) as (file' & Hc' & _). simplify_eq.
  by rewrite decide_True by done.
Qed.

(** ** Retries *)

Section retries.
Context `{Sha256Lib} (self : MediaStore).
Let L := limits self.

(** What a successful [create] returns: the row of this request, now visible. *)
Lemma create_Ok fresh now actor channel input db st db1 :
  create self fresh now actor channel input db = (Ok st, db1) →
  channel_enabled self channel = true ∧ accepted_type (NewUpload_content_type input) = true
  ∧ valid_new_upload self input = true ∧ (channel, actor) ∈ channel_memberships db1
  ∧ upload_visible self db1 now actor (status_id st) (status_row st)
  ∧ request_id (status_row st) = NewUpload_request_id input
  ∧ channel_id (status_row st) = channel
  ∧ expected_bytes (status_row st) = NewUpload_size_bytes input
  ∧ original_filename (status_row st) = NewUpload_filename input
  ∧ declared_type (status_row st) = NewUpload_content_type input.
Proof.
  intros Hr. unfold create in Hr.
  apply st_bind_Ok in Hr as ([] & s & [He ->]%ensure_Ok & Hr).
  apply st_bind_Ok in Hr as ([] & s & [Ha ->]%ensure_Ok & Hr).
  apply st_bind_Ok in Hr as ([] & s & [Hvn ->]%ensure_Ok & Hr).
  rewrite transaction_Ok in Hr.
  apply st_bind_Ok in Hr as (db0 & s & Hget & Hr). injection Hget as <- <-.
  apply st_bind_Ok in Hr as ([] & s & [Hmem ->]%ensure_Ok & Hr). apply bool_decide_eq_true in Hmem.
  apply st_bind_Ok in Hr as (id & s1 & Hid & Hread).
  apply read_upload_Ok in Hread as (-> & u & -> & Hv). cbn [status_id status_row].
  do 3 (split; [done|]).
  destruct (fetch_where _ _) as [[id' u']|] eqn:Hf.
  - apply fetch_where_Some in Hf as [Hu' Hq].
    apply st_bind_Ok in Hid as (st' & s & Hp & Hid).
    apply read_upload_Ok in Hp as (-> & u'' & -> & Hu'' & _).
    apply st_bind_Ok in Hid as ([] & s' & [Hg ->]%ensure_Ok & Hid). injection Hid as -> ->.
    cbn [status_row] in Hg. unfold owned_upload in Hq. bool_facts.
    assert (u = u'' ∧ u' = u'') as [-> ->] by (destruct Hv; split; congruence).
    split_and!; try done; lia.
  - unfold admit_upload, insert_upload in Hid.
    apply st_bind_Ok in Hid as (db0 & s & Hget & Hid). injection Hget as <- <-.
    apply st_bind_Ok in Hid as ([] & s & [_ ->]%ensure_Ok & Hid).
    apply st_bind_Ok in Hid as ([] & s & [_ ->]%ensure_Ok & Hid).
    apply st_bind_Ok in Hid as ([] & s & Hins & Hid). injection Hid as <- ->.
    apply st_bind_Ok in Hins as (db0 & s' & Hget & Hins). injection Hget as <- <-.
    apply st_bind_Ok in Hins as ([] & s' & [_ ->]%ensure_Ok & Hins). injection Hins as <-.
    split; [done|]. split; [done|]. destruct Hv as (Hu & _). simpl in Hu.
    rewrite lookup_insert_eq in Hu. by injection Hu as <-.
Qed.

Lemma create_again fresh fresh' now now' actor channel input db st db1 :
  media_wf L db1 → create self fresh now actor channel input db = (Ok st, db1) →
  (state (status_row st) = Complete ∨ (now' < expires_at (status_row st))%Z) →
  create self fresh' now' actor channel input db1 = (Ok st, db1).
Proof.
  intros Hwf Hr Htime. destruct st as [id u].
  apply create_Ok in Hr as (He & Ha & Hvn & Hmem & Hv & Hrq & Hch & Hsz & Hfn & Hty).
  cbn [status_id status_row] in *.
  assert (upload_visible self db1 now' actor id u) as Hv'
    by (destruct Hv as (? & ? & ? & ? & ?); by split_and!).
  assert (read_upload self now' actor id db1 = (Ok (mk_UploadStatus id u), db1)) as Hread
    by (apply read_upload_Ok; split; [done|by exists u]).
  unfold create. do 3 (apply st_bind_Ok; exists tt, db1; rewrite ensure_Ok; split; [done|]).
  rewrite transaction_Ok. apply st_bind_Ok. exists db1, db1. split; [done|].
  apply st_bind_Ok. exists tt, db1. rewrite ensure_Ok, bool_decide_true by done. split; [done|].
  apply st_bind_Ok. exists id, db1. split; [|done].
  rewrite (fetch_where_unique _ _ id u); [| apply Hv| |].
  - apply st_bind_Ok. exists (mk_UploadStatus id u), db1. split; [done|]. cbn [status_row].
    apply st_bind_Ok. exists tt, db1. split; [|done]. apply ensure_Ok. split; [|done].
    rewrite !bool_decide_true by done. rewrite Hsz, N.eqb_refl. done.
  - unfold owned_upload. rewrite bool_decide_true by apply Hv. by rewrite Hrq, N.eqb_refl.
  - intros id' u' Hu' Hq. unfold owned_upload in Hq. bool_facts.
    eapply (wf_requests _ _ Hwf id' u' id u); [done|apply Hv| |by rewrite Hrq; apply N.eqb_eq].
    destruct Hv as (_ & -> & _). done.
Qed.

(** A chunk that is stored can be sent again; other bytes in its place are refused. *)
Lemma put_chunk_stored now actor id index input other db u :
  upload_visible self db now actor id u → state u = Open_ → (index < next_chunk u)%N →
  content <$> media_upload_chunks db !! (id, index) = Some input →
  (index * CHUNK_BYTES < expected_bytes u)%N → 0 < length input →
  N.of_nat (length input) = chunk_length (expected_bytes u) index →
  length other = length input →
  put_chunk self now actor id index other (sha256_hex other) db
  = (if decide (other = input) then Ok (mk_UploadStatus id u) else Err UploadError_Conflict, db).
Proof.
  intros Hv Hst Hi Hc Hoff Hpos Hlen Hsame.
  assert (read_upload self now actor id db = (Ok (mk_UploadStatus id u), db)) as Hread
    by (apply read_upload_Ok; split; [done|by exists u]).
  unfold put_chunk. st_compute. rewrite Hsame.
  assert (negb ((N.of_nat (length input) =? 0)%N || (CHUNK_BYTES <? N.of_nat (length input))%N) = true)
    as -> by (rewrite Hlen; unfold chunk_length in *; lia).
  rewrite bool_decide_true by done. unfold transaction. rewrite Hread. cbn [status_row].
  rewrite Hst, bool_decide_true by done.
  assert ((next_chunk u <? index)%N = false) as -> by lia. cbn [negb andb].
  assert ((expected_bytes u <=? index * CHUNK_BYTES)%N = false) as -> by lia.
  rewrite Hlen, N.eqb_refl. cbn [negb orb].
  assert ((index <? next_chunk u)%N = true) as -> by lia. rewrite Hc.
  destruct (decide (other = input)) as [->|Hne].
  - rewrite bool_decide_true by done. by rewrite Hread.
  - rewrite bool_decide_false by congruence. done.
Qed.
End retries.

(** Retries are harmless. Repeating a [create] that succeeded, under any generated
    identifier and until the upload expires, returns the same upload and changes
    nothing; and repeating a [put_chunk] that succeeded returns the same status and
    changes nothing, while other bytes for that chunk are a conflict. *)
Theorem upload_retries_idempotent `{Sha256Lib} L channels s now now' actor :
  let self := mk_MediaStore L channels in
  limits_valid L = true → media_reachable L s →
  (∀ fresh fresh' channel input st db1,
     create self fresh now actor channel input (sys_db s) = (Ok st, db1) →
     (now' < expires_at (status_row st))%Z →
     create self fresh' now' actor channel input db1 = (Ok st, db1))
  ∧ (∀ id index input other claimed st db1,
     Forall is_u8 input →
     put_chunk self now actor id index input claimed (sys_db s) = (Ok st, db1) →
     (now' < expires_at (status_row st))%Z → length other = length input →
     put_chunk self now' actor id index other (sha256_hex other) db1
     = (if decide (other = input) then Ok st else Err UploadError_Conflict, db1)).
Proof.
  intros self Hl Hr. destruct (media_reachable_ok L Hl s Hr) as [Hwf _].
  pose proof Hl as Hl'. unfold limits_valid, i64_max in Hl'. bool_facts. split.
  - intros fresh fresh' channel input st db1 Hc Ht. eapply create_again; [|done|by right].
    eapply create_effect in Hc as [? _]; [done|simpl; unfold u64_max; lia..|done].
  - intros id index input other claimed st db1 Hb Hput Ht Hlen.
    apply put_chunk_Ok in Hput as (u & Hv & Hst & _ & Hpos & Hsz & Hoff & Hcase).
    destruct Hv as (Hu & Hown & Hmem & _ & Hen).
    destruct Hcase as [(Hi & Hc & -> & ->)|(-> & _ & -> & ->)]; cbn [status_row] in Ht.
    + eapply put_chunk_stored; try done. split_and!; try done. by right.
    + eapply put_chunk_stored; try done; simpl; [|lia|by rewrite lookup_insert_eq].
      split_and!; try done; [simpl; by rewrite lookup_insert_eq|by right].
Qed.

(** A run to evaluate the theorems in: a channel with two members. *)
#[local] Existing Instance demo_sha256.
Definition demo_limits : UploadLimits := mk_UploadLimits 2097152 8388608 16777216.
Definition media_alice : UserId := mk_UserId 1.
Definition media_bob : UserId := mk_UserId 2.
Definition media_channel : ChannelId := mk_ChannelId 10.
Definition demo_media : MediaSys :=
  mk_MediaSys (media_run demo_limits (Op_join media_channel media_bob)
    (media_run demo_limits (Op_join media_channel media_alice)
       (media_start demo_limits))) ∅.
Lemma demo_media_reachable : media_reachable demo_limits demo_media.
Proof.
  eapply rtc_l; [eexists; apply (step_op _ _ (Op_join media_channel media_alice)); exact I|].
  eapply rtc_l; [eexists; apply (step_op _ _ (Op_join media_channel media_bob)); exact I|].
  apply rtc_refl.
Qed.
Definition demo_file : bytes := lit "hello, world".
Definition demo_upload : NewUpload := mk_NewUpload 77 (lit "hello.txt") (lit "text/plain") 12.
Definition demo_store : MediaStore := mk_MediaStore demo_limits None.
Definition demo_created := create demo_store 5 100 media_alice media_channel
  demo_upload (sys_db demo_media).

Lemma upload_roundtrip_witness :
  ∃ st db1 db2 db3 o,
    demo_created = (Ok st, db1)
    ∧ put_all demo_store 100 media_alice 5 0 (pieces_of demo_file) db1 = (Ok tt, db2)
    ∧ complete demo_store (mk_MediaId 9) 100 media_alice 5 db2
      = (Ok (mk_MediaId 9), db3)
    ∧ MediaObject_content_type o = lit "text/plain"
    ∧ (sql_read_media_slice media_bob (mk_MediaId 9) 7 5 db3).1 = Ok (lit "world").
Proof.
  destruct demo_created as [[st| |] db1] eqn:E;
    [|exfalso; revert E; vm_compute; discriminate..].
  assert (status_id st = 5%N) as Hid.
  { apply (f_equal (λ r, match r.1 with Ok st => Some (status_id st) | _ => None end)) in E.
    simpl in E. assert (Some 5%N = Some (status_id st)) as [=] by (rewrite <- E; vm_compute; reflexivity).
    congruence. }
  destruct (upload_roundtrip demo_limits None demo_media 5 (mk_MediaId 9) 100
    media_alice media_channel demo_upload demo_file (lit "text/plain") st db1)
    as (db2 & db3 & o & Hput & Hcomp & Hty & _ & Hread).
  - reflexivity.
  - apply demo_media_reachable.
  - exact E.
  - rewrite Hid. vm_compute. reflexivity.
  - reflexivity.
  - repeat constructor.
  - vm_compute. reflexivity.
  - vm_compute. reflexivity.
  - vm_compute. reflexivity.
  - vm_compute. reflexivity.
  - exists st, db1, db2, db3, o. split; [reflexivity|].
    split; [exact Hput|]. split; [exact Hcomp|]. split; [exact Hty|].
    assert ((media_channel, media_bob) ∈ channel_memberships (sys_db demo_media)) as Hin
      by (apply (bool_decide_unpack _); vm_compute; exact I).
    refine (proj2 (Hread media_bob 7%N 5%N Hin _ _)); vm_compute; [split; [reflexivity|]|]; discriminate.
Defined.

(** The same upload with its completion as separate steps. *)
Definition demo_stored : MediaDb :=
  media_run demo_limits (Op_put_chunk None 100 media_alice 5 0 demo_file (sha256_hex demo_file))
    (media_run demo_limits (Op_create None 5 100 media_alice media_channel demo_upload)
       (sys_db demo_media)).
Definition demo_row : Upload :=
  mk_Upload media_alice media_channel 77 (lit "hello.txt") (lit "text/plain") 12 12 1 Sealed 100
    86500 None.
Definition demo_sealed : MediaDb := (seal demo_store 100 media_alice 5 demo_stored).2.
Definition demo_scan : Scan :=
  match scan_chunk (lit "text/plain") 0 demo_file Scan_new with Ok s => s | _ => Scan_new end.
Definition demo_published : MediaDb :=
  (publish demo_store (mk_MediaId 9) 100 media_alice 5 (lit "text/plain") (sha256_hex demo_file)
     demo_sealed).2.

Lemma demo_published_reachable :
  media_reachable demo_limits (mk_MediaSys demo_published (delete 0%N
    (<[0%N := mk_Completion media_alice 5 demo_row 1 demo_scan]>
       (<[0%N := mk_Completion media_alice 5 demo_row 0 Scan_new]> ∅)))).
Proof.
  unfold media_reachable. etrans; [apply demo_media_reachable|].
  eapply rtc_l; [eexists; apply (step_op _ _ (Op_create None 5 100 media_alice media_channel demo_upload));
    intros k c Hk; simpl in Hk; by rewrite lookup_empty in Hk|].
  eapply rtc_l; [eexists; apply (step_op _ _ (Op_put_chunk None 100 media_alice 5 0 demo_file
    (sha256_hex demo_file))); repeat constructor|].
  eapply rtc_l; [eexists; apply (step_begin _ _ 0 None 100 media_alice 5 (mk_UploadStatus 5 demo_row)
    demo_sealed); [reflexivity|vm_compute; reflexivity|reflexivity]|].
  eapply rtc_l; [eexists; eapply (step_read _ _ 0 _ 100 demo_file demo_scan);
    [apply lookup_insert_eq|reflexivity|vm_compute; reflexivity|vm_compute; reflexivity]|].
  eapply rtc_l; [eexists; eapply (step_publish _ _ 0 _ None 100 (mk_MediaId 9) (lit "text/plain")
    (sha256_hex demo_file) (Ok (mk_MediaId 9)) demo_published);
    [apply lookup_insert_eq|reflexivity|vm_compute; reflexivity|vm_compute; reflexivity]|].
  apply rtc_refl.
Qed.

Definition demo_object : MediaObject :=
  media_of (mk_MediaId 9) 100 media_alice demo_row (lit "text/plain") (sha256_hex demo_file).
Lemma demo_published_object :
  media_objects demo_published !! mk_MediaId 9 = Some (demo_object, Key_chunks 5).
Proof. vm_compute. reflexivity. Qed.

Lemma published_media_verified_witness :
  ∃ u first, let file := file_of demo_published 5 (next_chunk u) in
    media_uploads demo_published !! 5%N = Some u ∧ media_id u = Some (mk_MediaId 9)
    ∧ MediaObject_size_bytes demo_object = N.of_nat (length file)
    ∧ MediaObject_sha256 demo_object = sha256_hex file
    ∧ first `prefix_of` file ∧ classify first (declared_type u) = Some (lit "text/plain")
    ∧ document_valid (lit "text/plain") file = true
    ∧ media_alice = owner_id u ∧ media_channel = channel_id u.
Proof.
  exact (published_media_verified demo_limits _ (mk_MediaId 9) demo_object 5 eq_refl
    demo_published_reachable demo_published_object).
Defined.

Lemma media_within_budget_witness :
  (total_charge demo_published ≤ 16777216)%Z
  ∧ (owner_charge media_alice demo_published ≤ 8388608)%Z
  ∧ total_charge demo_published = 1048576%Z.
Proof.
  destruct (media_within_budget demo_limits _ eq_refl demo_published_reachable) as (Ht & Ho & _).
  split; [exact Ht|]. split; [exact (Ho media_alice)|]. vm_compute. reflexivity.
Defined.

(** The in-memory state that the tables of [demo_published] stand for. *)
Definition demo_memory : RepositoryState :=
  let member user := mk_Membership media_channel user MembershipRole_Member ChannelSequence_default in
  RepositoryState_default
    <| memberships := {[ (media_channel, media_alice) := member media_alice;
                         (media_channel, media_bob) := member media_bob ]} |>
    <| media := {[ mk_MediaId 9 := (demo_object, demo_file) ]} |>.

Lemma demo_media_rel : media_rel demo_published demo_memory.
Proof.
  assert (channel_memberships demo_published
          = {[ (media_channel, media_bob); (media_channel, media_alice) ]}) as Em
    by (vm_compute; reflexivity).
  assert (media_objects demo_published = {[ mk_MediaId 9 := (demo_object, Key_chunks 5) ]}) as Eo
    by (vm_compute; reflexivity).
  assert (media_contents demo_published (mk_MediaId 9) = Some (demo_object, demo_file)) as Ec
    by (vm_compute; reflexivity).
  assert (media_variants demo_published = ∅) as Ev by (vm_compute; reflexivity).
  split_and!.
  - intros c u. rewrite Em, elem_of_union, !elem_of_singleton. simpl.
    rewrite lookup_insert_is_Some', lookup_singleton_is_Some. split; intros [E|E]; rewrite E; auto.
  - intros m. change (media demo_memory !! m) with
      (({[ mk_MediaId 9 := (demo_object, demo_file) ]} : gmap _ _) !! m).
    destruct (decide (m = mk_MediaId 9)) as [->|Hne].
    + rewrite Ec. apply lookup_singleton_eq.
    + rewrite lookup_singleton_ne by done. unfold media_contents. rewrite Eo.
      by rewrite lookup_singleton_ne by done.
  - intros m. by rewrite Ev.
Qed.

Lemma sql_media_refines_memory_witness :
  (sql_read_media_slice media_bob (mk_MediaId 9) 7 5 demo_published).1
  = (RepoUsers.read_media_slice media_bob (mk_MediaId 9) 7 5 demo_memory).1.
Proof.
  assert (Z.of_N 7 + 1 ≤ i64_max)%Z as Hoff by (vm_compute; discriminate).
  exact (proj1 (sql_media_refines_memory demo_limits _ demo_memory media_bob (mk_MediaId 9) 7 5
    (mk_MediaId 11) 0 (mk_MediaUpload media_bob media_channel (lit "x") (lit "image/png") [] None None)
    (lit "x") eq_refl demo_published_reachable demo_media_rel Hoff)).
Defined.

Lemma upload_retries_idempotent_witness :
  ∃ st db1, demo_created = (Ok st, db1)
    ∧ create demo_store 6 200 media_alice media_channel demo_upload db1 = (Ok st, db1).
Proof.
  destruct demo_created as [[st| |] db1] eqn:E; [|exfalso; revert E; vm_compute; discriminate..].
  exists st, db1. split; [reflexivity|].
  refine (proj1 (upload_retries_idempotent demo_limits None demo_media 100 200 media_alice eq_refl
    demo_media_reachable) 5%N 6%N media_channel demo_upload st db1 E _).
  apply (f_equal (λ r, match r.1 with Ok st => expires_at (status_row st) | _ => 0%Z end)) in E.
  simpl in E. rewrite <- E. vm_compute. reflexivity.
Defined.
