(* ===== verification/PreviewProps.v ===== *)
(** * PreviewProps: theorems about preview jobs

    A preview job is handed out under a lease. The theorems: a job is handed out at
    most [MAX_ATTEMPTS] times, to one worker at a time, and a worker whose lease was
    taken over can neither read nor publish nor fail the job any more. *)

From Stdlib Require Import ZifyBool.
From stdpp Require Import base tactics numbers strings countable sorting gmap list relations.
From S2P Require Import Prelude RustStr Text Ids Models Policy RepoState RepoUsers Sql Attachments MediaStore MediaPreview MediaWf MediaReach MediaSteps MediaProps.

(** A job is running exactly when it has a lease, and has not been handed out more
    often than allowed. *)
Definition job_ok (j : PreviewRow) : Prop :=
  (attempts j ≤ MAX_ATTEMPTS)%N ∧ (preview_state j = Preview_running ↔ is_Some (lease j)).
Definition jobs_ok (db : MediaDb) : Prop := ∀ m j, media_preview_jobs db !! m = Some j → job_ok j.
(** The lease of media [m] does not carry [token]. *)
Definition fenced (m : MediaId) (token : Uuid) (db : MediaDb) : Prop :=
  ∀ j until, media_preview_jobs db !! m = Some j → lease j ≠ Some (token, until).

(** ** What each operation does to the jobs *)

(** A row changes to one without a lease or to a new claim; or it disappears. *)
Inductive job_change (claimed : option (MediaId * Uuid)) (m : MediaId)
    : option PreviewRow → option PreviewRow → Prop :=
  | job_same o : job_change claimed m o o
  | job_gone o : job_change claimed m o None
  | job_new j : lease j = None → preview_state j ≠ Preview_running → attempts j = 0%N →
      job_change claimed m None (Some j)
  | job_released j j' : lease j' = None → preview_state j' ≠ Preview_running →
      attempts j' = attempts j → job_change claimed m (Some j) (Some j')
  | job_claimed j j' token until : claimed = Some (m, token) → lease j' = Some (token, until) →
      preview_state j' = Preview_running → (attempts j < MAX_ATTEMPTS)%N →
      attempts j' = (attempts j + 1)%N → job_change claimed m (Some j) (Some j').

Definition jobs_change (claimed : option (MediaId * Uuid)) (db db' : MediaDb) : Prop :=
  ∀ m, job_change claimed m (media_preview_jobs db !! m) (media_preview_jobs db' !! m).

Lemma jobs_change_same claimed db db' :
  media_preview_jobs db' = media_preview_jobs db → jobs_change claimed db db'.
Proof. intros E m. rewrite E. constructor. Qed.

Lemma jobs_change_ok claimed db db' : jobs_change claimed db db' → jobs_ok db → jobs_ok db'.
Proof.
  intros Hch Hok m j' Hj'. specialize (Hch m). rewrite Hj' in Hch.
  inversion Hch as [o E|?|j Hl Hs Ha|j j0 Hl Hs Ha E|j j0 tok until Hc Hl Hs Ha Ha' E]; subst.
  - by eapply Hok.
  - unfold job_ok. rewrite Hl, Ha. split; [done|]. split; [done|]. by intros [? ?].
  - destruct (Hok m j) as [Hb _]; [done|]. unfold job_ok. rewrite Hl, Ha.
    split; [done|]. split; [done|]. by intros [? ?].
  - unfold job_ok. rewrite Hl, Hs, Ha'. split; [lia|]. split; [by eexists|done].
Qed.
Lemma jobs_change_fenced claimed m token db db' :
  jobs_change claimed db db' → claimed ≠ Some (m, token) → fenced m token db → fenced m token db'.
Proof.
  intros Hch Hne Hf j' until Hj'. specialize (Hch m). rewrite Hj' in Hch.
  inversion Hch; subst; try congruence. by eapply Hf.
Qed.

(** *** Claiming *)

Lemma exhausted_change now db m :
  job_change None m (media_preview_jobs db !! m)
    (update_where (exhausted now) give_up_exhausted (media_preview_jobs db) !! m).
Proof.
  rewrite lookup_update_where. destruct (media_preview_jobs db !! m) as [j|]; simpl; [|constructor].
  destruct (exhausted now m j); [by constructor|constructor].
Qed.

Lemma claim_preview_Ok token now db r db' :
  claim_preview token now db = (Ok r, db') →
  let jobs := update_where (exhausted now) give_up_exhausted (media_preview_jobs db) in
  match r with
  | None => media_preview_jobs db' = jobs
  | Some job => ∃ j, jobs !! job_media_id job = Some j ∧ claimable now (job_media_id job) j = true
      ∧ job_token job = token
      ∧ media_preview_jobs db' = <[job_media_id job := mk_PreviewRow Preview_running
          (attempts j + 1) (available_at j) (Some (token, now + LEASE_SECONDS)%Z) (last_error j)]> jobs
  end.
Proof.
  intros Hr. unfold claim_preview in Hr. rewrite transaction_Ok in Hr.
  apply st_bind_Ok in Hr as ([] & s & Hm & Hr). injection Hm as <-.
  apply st_bind_Ok in Hr as (db0 & s & Hget & Hr). injection Hget as <- <-. cbv zeta in Hr.
  match type of Hr with context [head (merge_sort claim_le ?l)] => set (cands := l) in Hr end.
  destruct (head (merge_sort claim_le cands)) as [[m j]|] eqn:Hh;
    [|injection Hr as <- <-; done].
  assert ((m, j) ∈ cands) as Hin.
  { rewrite <- (merge_sort_Permutation claim_le cands). apply list_elem_of_lookup. exists 0.
    by rewrite <- head_lookup. }
  unfold cands in Hin. apply elem_of_map_to_list, lookup_rows_where_Some in Hin as [Hj Hc].
  bool_facts.
  destruct (media_objects _ !! m) as [[o k]|] eqn:Ho; simpl in Ho;
    [|destruct H0; simpl in *; congruence].
  apply st_bind_Ok in Hr as ([] & s & Hput & Hr). injection Hput as <-. injection Hr as <- <-.
  exists j. done.
Qed.
Lemma claim_preview_total token now db : ∃ r db', claim_preview token now db = (Ok r, db').
Proof.
  unfold claim_preview, transaction. st_compute. destruct (head _) as [[m j]|]; [|eauto].
  destruct (media_objects _ !! m) as [[o k]|]; eauto.
Qed.

Definition claimed_by (r : option PreviewJob) : option (MediaId * Uuid) :=
  (λ job, (job_media_id job, job_token job)) <$> r.

Lemma claim_preview_change token now db r db' :
  claim_preview token now db = (Ok r, db') → jobs_change (claimed_by r) db db'.
Proof.
  intros Hr. apply claim_preview_Ok in Hr. cbv zeta in Hr. intros m.
  pose proof (exhausted_change now db m) as He.
  destruct r as [job|]; [|rewrite Hr; inversion He; subst; by econstructor].
  destruct Hr as (j & Hj & Hc & Ht & ->). destruct (decide (m = job_media_id job)) as [->|Hne].
  - rewrite lookup_insert_eq. rewrite Hj in He.
    assert (attempts j < MAX_ATTEMPTS)%N as Ha by (unfold claimable in Hc; bool_facts; lia).
    rewrite lookup_update_where in Hj.
    destruct (media_preview_jobs db !! job_media_id job) as [j0|] eqn:E; [|done]. simpl in Hj.
    assert (attempts j0 = attempts j) as Ha0 by (destruct (exhausted _ _ _); by simplify_eq).
    eapply job_claimed; simpl; try done; [by rewrite <- Ht|lia|lia].
  - rewrite lookup_insert_ne by done. inversion He; subst; by econstructor.
Qed.

(** *** The other operations *)

Lemma update_leased_change now job f db r db' :
  (∀ j, lease (f j) = None ∧ preview_state (f j) ≠ Preview_running ∧ attempts (f j) = attempts j) →
  update_leased now job f db = (r, db') → jobs_change None db db'.
Proof.
  intros Hf Hr m. unfold update_leased in Hr. cbv [st_bind get put st_ret] in Hr.
  destruct (media_preview_jobs db !! job_media_id job) as [j|] eqn:Hj;
    [|injection Hr as _ <-; constructor].
  destruct (holds_lease now (job_token job) j); injection Hr as _ <-; [|constructor]. simpl.
  destruct (decide (m = job_media_id job)) as [->|Hne].
  - rewrite lookup_insert_eq, Hj. destruct (Hf j) as (? & ? & ?). by apply job_released.
  - rewrite lookup_insert_ne by done. constructor.
Qed.

Lemma publish_preview_change now job input w h db r db' :
  publish_preview now job input w h db = (r, db') → jobs_change None db db'.
Proof.
  intros Hr. apply atomic_inv in Hr as [(a & -> & Hr)|[-> _]];
    [|by apply jobs_change_same|unfold publish_preview; auto with sproyt].
  unfold publish_preview in Hr.
  apply st_bind_Ok in Hr as ([] & s & [_ ->]%ensure_Ok & Hr). rewrite transaction_Ok in Hr.
  apply st_bind_Ok in Hr as (changed & s & Hup & Hr).
  apply update_leased_change in Hup; [|done].
  apply st_bind_Ok in Hr as ([] & s' & [_ ->]%ensure_Ok & Hr). injection Hr as _ <-. exact Hup.
Qed.
Lemma fail_preview_change now job db r db' :
  fail_preview now job db = (r, db') → jobs_change None db db'.
Proof.
  intros Hr. apply atomic_inv in Hr as [(a & -> & Hr)|[-> _]];
    [|by apply jobs_change_same|unfold fail_preview; auto with sproyt].
  unfold fail_preview in Hr. rewrite transaction_Ok in Hr.
  apply st_bind_Ok in Hr as (changed & s & Hup & Hr). injection Hr as _ <-.
  eapply update_leased_change; [|exact Hup]. intros j. simpl. by case_match.
Qed.

Section steps.
Context `{Sha256Lib} (L : UploadLimits).

(** Uploads and other media do not touch the jobs. *)
Lemma create_jobs self fresh now actor channel input db :
  media_preview_jobs (create self fresh now actor channel input db).2 = media_preview_jobs db.
Proof.
  destruct (create self fresh now actor channel input db) as [r db'] eqn:E. simpl.
  apply atomic_inv in E as [(st & -> & E)|[-> _]]; [|done|apply create_atomic].
  unfold create in E.
  do 3 (apply st_bind_Ok in E as ([] & s & [_ ->]%ensure_Ok & E)).
  rewrite transaction_Ok in E. apply st_bind_Ok in E as (db0 & s & Hget & E). injection Hget as <- <-.
  apply st_bind_Ok in E as ([] & s & [_ ->]%ensure_Ok & E).
  apply st_bind_Ok in E as (id & s1 & Hid & [-> _]%read_upload_Ok).
  destruct (fetch_where _ _) as [[id' u']|].
  - apply st_bind_Ok in Hid as (st' & s & [-> _]%read_upload_Ok & Hid).
    apply st_bind_Ok in Hid as ([] & s & [_ ->]%ensure_Ok & Hid). by injection Hid as _ <-.
  - by apply admit_upload_Ok in Hid as (_ & _ & u & -> & _).
Qed.
Lemma put_chunk_jobs self now actor id index input claimed db :
  media_preview_jobs (put_chunk self now actor id index input claimed db).2 = media_preview_jobs db.
Proof.
  destruct (put_chunk self now actor id index input claimed db) as [r db'] eqn:E. simpl.
  apply atomic_inv in E as [(st & -> & E)|[-> _]]; [|done|apply put_chunk_atomic].
  by apply put_chunk_Ok in E as (u & _ & _ & _ & _ & _ & _ & [(_ & _ & -> & _)|(_ & _ & _ & ->)]).
Qed.
Lemma seal_jobs self now actor id db :
  media_preview_jobs (seal self now actor id db).2 = media_preview_jobs db.
Proof.
  destruct (seal self now actor id db) as [r db'] eqn:E. simpl.
  apply atomic_inv in E as [(st & -> & E)|[-> _]]; [|done|apply seal_atomic].
  by apply seal_Ok in E as (u & _ & _ & [(_ & _ & ->)|(_ & _ & ->)]).
Qed.
Lemma abort_jobs self now actor id db :
  media_preview_jobs (abort self now actor id db).2 = media_preview_jobs db.
Proof.
  destruct (abort self now actor id db) as [r db'] eqn:E. simpl.
  apply atomic_inv in E as [(st & -> & E)|[-> _]]; [|done|apply abort_atomic].
  unfold abort in E. rewrite transaction_Ok in E.
  apply st_bind_Ok in E as (st0 & s & [-> _]%read_upload_Ok & E).
  apply st_bind_Ok in E as ([] & s & [_ ->]%ensure_Ok & E). by injection E as _ <-.
Qed.
Lemma store_media_jobs fresh now upload sha db :
  media_preview_jobs (sql_store_media fresh now upload sha db).2 = media_preview_jobs db.
Proof.
  destruct (sql_store_media fresh now upload sha db) as [r db'] eqn:E. simpl.
  apply atomic_inv in E as [(o & -> & E)|[-> _]]; [|done|apply store_media_atomic].
  by apply store_media_Ok in E as (_ & _ & _ & _ & ->).
Qed.
Lemma delete_objects_change p db : jobs_change None db (delete_objects p db).
Proof.
  intros m. unfold delete_objects. simpl. rewrite lookup_delete_where.
  destruct (media_preview_jobs db !! m) as [j|]; [|constructor]. case_match; constructor.
Qed.
Lemma publish_change self fresh now actor id ct sha db r db' :
  publish self fresh now actor id ct sha db = (r, db') → jobs_change None db db'.
Proof.
  intros Hr. apply atomic_inv in Hr as [(m & -> & Hr)|[-> _]];
    [|by apply jobs_change_same|apply publish_atomic].
  apply publish_Ok in Hr as (u & _ & [[_ ->]|(_ & _ & _ & _ & Hj & _ & ->)]);
    [by apply jobs_change_same|].
  unfold with_preview_job. destruct (starts_with ct (lit "image/")); [|by apply jobs_change_same].
  intros m'. simpl. destruct (decide (m' = fresh)) as [->|Hne].
  - rewrite lookup_insert_eq, Hj by done. by apply job_new.
  - rewrite lookup_insert_ne by done. constructor.
Qed.

(** The media and token an operation claims. *)
Definition claims (op : option MediaOp) (db : MediaDb) : option (MediaId * Uuid) :=
  match op with
  | Some (Op_claim_preview token now) =>
      match (claim_preview token now db).1 with Ok r => claimed_by r | _ => None end
  | _ => None
  end.

Lemma step_change label s s' :
  media_step_by L label s s' → jobs_change (claims label (sys_db s)) (sys_db s) (sys_db s').
Proof.
  destruct 1 as [s op Hop|s k channels now actor id st db' Hk Hseal Hm|
    |s k c channels now fresh ct sha r db' Hk Hnext Hfin Hpub|]; simpl;
    try by apply jobs_change_same.
  - destruct op; simpl; try (apply jobs_change_same; done || apply create_jobs || apply put_chunk_jobs
      || apply seal_jobs || apply abort_jobs || apply store_media_jobs).
    + destruct (claim_preview_total token now (sys_db s)) as (r & db' & E). rewrite E. simpl.
      by eapply claim_preview_change.
    + destruct (publish_preview _ _ _ _ _ _) as [r db'] eqn:E. by eapply publish_preview_change.
    + destruct (fail_preview _ _ _) as [r db'] eqn:E. by eapply fail_preview_change.
    + apply delete_objects_change.
    + unfold delete_channel_rows. apply delete_objects_change.
  - apply jobs_change_same. pose proof (seal_jobs (mk_MediaStore L channels) now actor id (sys_db s)) as E.
    by rewrite Hseal in E.
  - by eapply publish_change.
Qed.

Lemma media_reachable_jobs s : media_reachable L s → jobs_ok (sys_db s).
Proof.
  unfold media_reachable. assert (jobs_ok (sys_db (mk_MediaSys (media_start L) ∅))) as H0 by done.
  revert H0. generalize (mk_MediaSys (media_start L) ∅). intros s0 H0 Hr.
  induction Hr as [s0|s1 s2 s3 [label Hstep] _ IH]; [done|]. apply IH.
  eapply jobs_change_ok; [by eapply step_change|done].
Qed.
End steps.

(** ** Theorems *)

(** A claimed job is held by one worker: until the lease runs out, no other claim
    returns the same media, and every job is handed out at most three times in all. *)
Theorem preview_lease_exclusive `{Sha256Lib} L s token now job db1 :
  media_reachable L s → claim_preview token now (sys_db s) = (Ok (Some job), db1) →
  (∃ j, media_preview_jobs db1 !! job_media_id job = Some j ∧ (attempts j ≤ MAX_ATTEMPTS)%N
        ∧ ∀ t, holds_lease t (job_token job) j = (t <? now + LEASE_SECONDS)%Z)
  ∧ ∀ token' now' job' db2, (now' < now + LEASE_SECONDS)%Z →
      claim_preview token' now' db1 = (Ok (Some job'), db2) → job_media_id job' ≠ job_media_id job.
Proof.
  intros Hr Hc. pose proof (claim_preview_Ok _ _ _ _ _ Hc) as (j & _ & _ & Ht & Hdb).
  assert (jobs_ok db1) as Hok
    by (eapply jobs_change_ok; [by eapply claim_preview_change|by eapply media_reachable_jobs]).
  set (j1 := mk_PreviewRow Preview_running _ _ _ _) in Hdb.
  assert (media_preview_jobs db1 !! job_media_id job = Some j1) as Hj1
    by (rewrite Hdb; apply lookup_insert_eq).
  split.
  - exists j1. split; [done|]. split; [by eapply Hok|]. intros t. unfold holds_lease, j1. simpl.
    by rewrite Ht, N.eqb_refl.
  - intros token' now' job' db2 Hlt Hc' Heq.
    apply claim_preview_Ok in Hc' as (j' & Hj' & Hcl & _). rewrite Heq in Hj', Hcl.
    rewrite lookup_update_where, Hj1 in Hj'. simpl in Hj'.
    unfold exhausted, claimable, lease_over in *. unfold j1 in Hj'. simpl in Hj'.
    assert ((now + LEASE_SECONDS <=? now')%Z = false) as Hno by lia.
    rewrite Hno, andb_false_r in Hj'. simplify_eq/=. by rewrite Hno, andb_false_r in Hcl.
Qed.

(** Steps of everyone who does not hold [token]. *)
Definition step_without `{Sha256Lib} (L : UploadLimits) (token : Uuid) (s s' : MediaSys) : Prop :=
  ∃ label, media_step_by L label s s' ∧ ∀ now, label ≠ Some (Op_claim_preview token now).

Lemma step_without_fenced `{Sha256Lib} L m token s s' :
  rtc (step_without L token) s s' → fenced m token (sys_db s) → fenced m token (sys_db s').
Proof.
  induction 1 as [|s1 s2 s3 (label & Hstep & Hne) _ IH]; [done|]. intros Hf. apply IH.
  eapply jobs_change_fenced; [by eapply step_change| |done].
  unfold claims. destruct label as [[]|]; try done.
  destruct (claim_preview_total token0 now (sys_db s1)) as (r & db' & E). rewrite E. simpl.
  destruct r as [job|]; [|done]. apply claim_preview_Ok in E as (j & _ & _ & Ht & _).
  simpl. intros [= _ Htok]. rewrite Ht in Htok. subst. by eapply Hne.
Qed.

Lemma fenced_not_held m token now db j :
  fenced m token db → media_preview_jobs db !! m = Some j → holds_lease now token j = false.
Proof.
  intros Hf Hj. unfold holds_lease. specialize (Hf j). destruct (lease j) as [[t until]|] eqn:E;
    [|by rewrite andb_false_r].
  destruct (N.eqb_spec t token) as [->|Hne]; [by destruct (Hf until Hj)|]. by rewrite andb_false_r.
Qed.

(** A worker whose job another worker has claimed is fenced off for good: whatever
    happens later (short of a claim under its own token), it can read no chunk of the
    file, and publishing or failing the job changes nothing. *)
Theorem stale_preview_fenced `{Sha256Lib} L s token now job job' db1 s' :
  claim_preview token now (sys_db s) = (Ok (Some job'), db1) →
  job_media_id job' = job_media_id job → job_token job ≠ token →
  rtc (step_without L (job_token job)) (mk_MediaSys db1 (sys_running s)) s' →
  ∀ now' index input width height,
    (preview_chunk now' job index (sys_db s')).1 = Err UploadError_Conflict
    ∧ (∃ e, publish_preview now' job input width height (sys_db s') = (Err e, sys_db s'))
    ∧ fail_preview now' job (sys_db s') = (Ok tt, sys_db s').
Proof.
  intros Hc Heq Hne Hsteps now' index input width height.
  assert (fenced (job_media_id job) (job_token job) (sys_db s')) as Hf.
  { eapply step_without_fenced; [done|]. apply claim_preview_Ok in Hc as (j & _ & _ & _ & Hdb).
    intros j' until Hj'. simpl in Hj'. rewrite Hdb, Heq, lookup_insert_eq in Hj'.
    simplify_eq/=. congruence. }
  assert (∀ f, update_leased now' job f (sys_db s') = (Ok false, sys_db s')) as Hup.
  { intros f. unfold update_leased. st_compute.
    destruct (media_preview_jobs (sys_db s') !! job_media_id job) as [j|] eqn:Hj; [|done].
    by rewrite (fenced_not_held _ _ now' _ _ Hf Hj). }
  split_and!.
  - unfold preview_chunk. st_compute.
    destruct (media_preview_jobs (sys_db s') !! job_media_id job) as [j|] eqn:Hj; [|done].
    by rewrite (fenced_not_held _ _ now' _ _ Hf Hj).
  - unfold publish_preview, transaction. st_compute.
    match goal with |- context [if ?b then Ok tt else _] => destruct b end; [|eauto].
    rewrite Hup. eauto.
  - unfold fail_preview, transaction. st_compute. by rewrite Hup.
Qed.

(** ** Examples *)

#[local] Existing Instance demo_sha256.
(** [demo_published] with a picture and its pending preview job. *)
Definition demo_image : bytes := ([137] ++ lit "PNG" ++ [13; 10; 26; 10; 0])%N.
Definition demo_image_upload : NewUpload := mk_NewUpload 78 (lit "a.png") (lit "image/png") 9.
Definition demo_image_row : Upload :=
  mk_Upload media_alice media_channel 78 (lit "a.png") (lit "image/png") 9 9 1 Sealed 100 86500 None.
Definition demo_image_sealed : MediaDb :=
  (seal demo_store 100 media_alice 5
     (media_run demo_limits (Op_put_chunk None 100 media_alice 5 0 demo_image (sha256_hex demo_image))
        (media_run demo_limits (Op_create None 5 100 media_alice media_channel demo_image_upload)
           (sys_db demo_media)))).2.
Definition demo_image_scan : Scan :=
  match scan_chunk (lit "image/png") 0 demo_image Scan_new with Ok s => s | _ => Scan_new end.
Definition demo_image_db : MediaDb :=
  (publish demo_store (mk_MediaId 9) 100 media_alice 5 (lit "image/png") (sha256_hex demo_image)
     demo_image_sealed).2.
Definition demo_image_sys : MediaSys := mk_MediaSys demo_image_db (delete 0%N
  (<[0%N := mk_Completion media_alice 5 demo_image_row 1 demo_image_scan]>
     (<[0%N := mk_Completion media_alice 5 demo_image_row 0 Scan_new]> ∅))).
Lemma demo_image_reachable : media_reachable demo_limits demo_image_sys.
Proof.
  unfold media_reachable. etrans; [apply demo_media_reachable|].
  eapply rtc_l; [eexists; apply (step_op _ _ (Op_create None 5 100 media_alice media_channel
    demo_image_upload)); intros k c Hk; simpl in Hk; by rewrite lookup_empty in Hk|].
  eapply rtc_l; [eexists; apply (step_op _ _ (Op_put_chunk None 100 media_alice 5 0 demo_image
    (sha256_hex demo_image))); repeat constructor|].
  eapply rtc_l; [eexists; apply (step_begin _ _ 0 None 100 media_alice 5
    (mk_UploadStatus 5 demo_image_row) demo_image_sealed);
    [reflexivity|vm_compute; reflexivity|reflexivity]|].
  eapply rtc_l; [eexists; eapply (step_read _ _ 0 _ 100 demo_image demo_image_scan);
    [apply lookup_insert_eq|reflexivity|vm_compute; reflexivity|vm_compute; reflexivity]|].
  eapply rtc_l; [eexists; eapply (step_publish _ _ 0 _ None 100 (mk_MediaId 9) (lit "image/png")
    (sha256_hex demo_image) (Ok (mk_MediaId 9)) demo_image_db);
    [apply lookup_insert_eq|reflexivity|vm_compute; reflexivity|vm_compute; reflexivity]|].
  apply rtc_refl.
Qed.
Definition demo_job (token : Uuid) : PreviewJob :=
  mk_PreviewJob (mk_MediaId 9) token 9 (sha256_hex demo_image).
Definition demo_claimed : MediaDb := (claim_preview 70 200 demo_image_db).2.
Definition demo_reclaimed : MediaDb := (claim_preview 71 400 demo_claimed).2.

Lemma preview_lease_exclusive_witness :
  claim_preview 70 200 demo_image_db = (Ok (Some (demo_job 70)), demo_claimed)
  ∧ ∀ job' db2, claim_preview 71 300 demo_claimed = (Ok (Some job'), db2) →
      job_media_id job' ≠ mk_MediaId 9.
Proof.
  assert (claim_preview 70 200 demo_image_db = (Ok (Some (demo_job 70)), demo_claimed)) as E
    by (vm_compute; reflexivity).
  split; [exact E|]. intros job' db2.
  exact (proj2 (preview_lease_exclusive demo_limits demo_image_sys 70 200 (demo_job 70) demo_claimed
    demo_image_reachable E) 71%N 300%Z job' db2 eq_refl).
Defined.

Lemma stale_preview_fenced_witness :
  ∃ e, publish_preview 401 (demo_job 70) [1%N] 10 10 demo_reclaimed = (Err e, demo_reclaimed).
Proof.
  assert (claim_preview 71 400 demo_claimed = (Ok (Some (demo_job 71)), demo_reclaimed)) as E
    by (vm_compute; reflexivity).
  assert (job_token (demo_job 70) ≠ 71%N) as Hne by (vm_compute; discriminate).
  revert E. generalize demo_claimed demo_reclaimed. intros claimed reclaimed E.
  exact (proj1 (proj2 (stale_preview_fenced demo_limits (mk_MediaSys claimed ∅) 71 400
    (demo_job 70) (demo_job 71) reclaimed (mk_MediaSys reclaimed ∅) E eq_refl Hne
    (rtc_refl _ _) 401%Z 0%N [1%N] 10%N 10%N))).
Defined.
