(* ===== verification/NativeCodec.v ===== *)
(** * NativeCodec: sealed values of native sessions

    Models [src/native_sessions/codec.rs] and the pure helpers of
    [src/native_sessions.rs]: the AES-GCM key ring that seals the secrets, and the
    checks on proofs, states, verifiers and cookies. Hashing, encryption, base64 and
    JSON come from crates and enter as the classes [NativeLib] and [Serde]; the random
    nonces and tokens are arguments. *)

From Stdlib Require Import ZifyBool.
From stdpp Require Import base tactics numbers strings countable gmap list.
From S2P Require Import Prelude RustStr Text Ids Models Attachments.

Inductive NativeError : Type :=
  | NativeError_Unauthorized | NativeError_Invalid | NativeError_Unavailable
  | NativeError_Configuration.
#[export] Instance NativeError_eq_dec : EqDecision NativeError.
Proof. solve_decision. Defined.
(** [NativeError::status], the HTTP status code. *)
Definition NativeError_status (e : NativeError) : N :=
  match e with
  | NativeError_Unauthorized => 401
  | NativeError_Invalid => 400
  | NativeError_Unavailable | NativeError_Configuration => 503
  end.

(** ** Libraries *)

(** [str::as_bytes]: UTF-8. *)
Definition utf8_char (c : char) : bytes :=
  (if c <? 128 then [c]
   else if c <? 2048 then [192 + c / 64; 128 + c mod 64]
   else if c <? 65536 then [224 + c / 4096; 128 + c / 64 mod 64; 128 + c mod 64]
   else [240 + c / 262144; 128 + c / 4096 mod 64; 128 + c / 64 mod 64; 128 + c mod 64])%N.
Definition as_bytes (s : str) : bytes := s ≫= utf8_char.

(** SHA-256, unpadded URL-safe base64 and AES-256-GCM: decoding undoes encoding,
    decryption undoes encryption, and encryption adds a tag of 16 bytes. *)
Class NativeLib := {
  sha256_digest : bytes → bytes;
  base64_encode : bytes → str;
  base64_decode : str → option bytes;
  base64_decode_encode b : base64_decode (base64_encode b) = Some b;
  Aes256Gcm : Type;
  aes_new_from_slice : bytes → option Aes256Gcm;
  aes_encrypt : Aes256Gcm → bytes → bytes → bytes → option bytes;
  aes_decrypt : Aes256Gcm → bytes → bytes → bytes → option bytes;
  aes_decrypt_encrypt c nonce msg aad e :
    aes_encrypt c nonce msg aad = Some e → aes_decrypt c nonce e aad = Some msg;
  aes_encrypt_length c nonce msg aad e :
    aes_encrypt c nonce msg aad = Some e → length e = length msg + 16 }.

(** [serde_json::to_vec] and [from_slice] at a type. *)
Class Serde (T : Type) := {
  to_vec : T → option bytes;
  from_slice : bytes → option T;
  from_slice_to_vec v raw : to_vec v = Some raw → from_slice raw = Some v }.

(** ** Helpers *)

Section helpers.
Context `{NativeLib}.

Definition hash (value : str) : str := base64_encode (sha256_digest (as_bytes value)).
Definition proof (value : str) : bool :=
  (len value =? 43)%N
  && match base64_decode value with
     | Some b => (length b =? 32)%nat && bool_decide (base64_encode b = value)
     | None => false
     end.
Definition state_valid (value : str) : bool :=
  (16 <=? len value)%N && (len value <=? 256)%N
  && forallb (λ c, is_ascii_alphanumeric c || bool_decide (c ∈ lit "-_")) value.
Definition verifier (value : str) : bool :=
  (43 <=? len value)%N && (len value <=? 128)%N
  && forallb (λ c, is_ascii_alphanumeric c || bool_decide (c ∈ lit "-._~")) value.
Definition is_ascii_hexdigit (c : char) : bool :=
  is_ascii_digit c || ((97 <=? c) && (c <=? 102))%N || ((65 <=? c) && (c <=? 70))%N.
Definition operation (value : str) : bool :=
  (len value =? 32)%N && forallb is_ascii_hexdigit value.
Definition canonical_user `{UuidLib} (value : str) : bool :=
  match uuid_parse_str value with
  | Some id => bool_decide (uuid_display id = value)
  | None => false
  end.

(** Text columns that hold a number hold the decimal form of a [u64], or an empty
    string before they are set. [number] parses one. *)
Definition number (value : option N) : Res NativeError N :=
  ok_or value NativeError_Unavailable.

(** [str::strip_prefix] and [str::split] at a character. *)
Definition strip_prefix (s p : str) : option str :=
  if starts_with s p then Some (drop (length p) s) else None.
Fixpoint split_char (sep : char) (s : str) : list str :=
  match s with
  | [] => [[]]
  | c :: s' =>
      if (c =? sep)%N then [] :: split_char sep s'
      else match split_char sep s' with
           | w :: ws => (c :: w) :: ws
           | [] => [[c]]
           end
  end.

Definition cookie_pair (value name : str) : Res NativeError str :=
  let? first := ok_or (head (split_char 59 value)) NativeError_Unauthorized in
  match strip_prefix first (name ++ lit "=") with
  | None | Some [] => Err NativeError_Unauthorized
  | Some _ => Ok first
  end.
Definition cookie_value (header : option str) (name : str) : Res NativeError str :=
  let? header := ok_or header NativeError_Unauthorized in
  let values :=
    (filter (λ kv, kv.1 = name)
       (omap (λ part, split_once (trim part) (lit "=")) (split_char 59 header))).*2 in
  match values with
  | [] => Err NativeError_Unauthorized
  | value :: rest =>
      if bool_decide (rest ≠ []) || negb (proof value) then Err NativeError_Unauthorized
      else Ok value
  end.

(** ** The key ring *)

Record Codec : Type := mk_Codec {
  primary : Aes256Gcm;
  readers : list Aes256Gcm;
  codec_instance : str }.

Definition cipher (key : str) : Res NativeError Aes256Gcm :=
  let? b := ok_or (base64_decode key) NativeError_Configuration in
  if negb (length b =? 32)%nat then Err NativeError_Configuration
  else ok_or (aes_new_from_slice b) NativeError_Configuration.
Definition Codec_new (key : str) (previous : list str) (instance : str) : Res NativeError Codec :=
  let? primary := cipher key in
  let? readers := res_mapM cipher (key :: previous) in
  Ok (mk_Codec primary readers instance).

Definition aad (self : Codec) (purpose : str) : bytes :=
  as_bytes (lit "sproyt-native-v1|" ++ codec_instance self ++ lit "|" ++ purpose).

Definition seal `{Serde T} (self : Codec) (nonce : bytes) (purpose : str) (value : T)
    : Res NativeError str :=
  let? raw := ok_or (to_vec value) NativeError_Unavailable in
  let? encrypted := ok_or (aes_encrypt (primary self) nonce raw (aad self purpose))
                      NativeError_Unavailable in
  Ok (base64_encode (nonce ++ encrypted)).

Definition find_map {A B} (f : A → option B) (l : list A) : option B := head (omap f l).
Definition open `{Serde T} (self : Codec) (purpose value : str) : Res NativeError T :=
  let? b := ok_or (base64_decode value) NativeError_Unauthorized in
  if (length b <=? 12)%nat || (65536 <? N.of_nat (length b))%N then Err NativeError_Unauthorized
  else
    let raw := find_map (λ c, aes_decrypt c (take 12 b) (drop 12 b) (aad self purpose))
                 (readers self) in
    ok_or (raw ≫= from_slice) NativeError_Unauthorized.

(** ** Sealing and opening *)

(** The largest plain text that can be opened again. *)
Definition seal_limit : N := 65536 - 12 - 16.

Lemma find_map_app {A B} (f : A → option B) before x y after :
  (∀ z, z ∈ before → f z = None) → f x = Some y → find_map f (before ++ x :: after) = Some y.
Proof.
  unfold find_map. intros Hb Hx. rewrite omap_app. simpl. rewrite Hx.
  assert (omap f before = []) as ->; [|done]. induction before as [|z before IH]; [done|]. simpl.
  rewrite (Hb z) by constructor. apply IH. intros. apply Hb. by constructor.
Qed.

Lemma res_mapM_app_inv {E A B} (f : A → Res E B) before x after ys :
  res_mapM f (before ++ x :: after) = Ok ys →
  ∃ ys1 y ys2, ys = ys1 ++ y :: ys2 ∧ res_mapM f before = Ok ys1 ∧ f x = Ok y.
Proof.
  revert ys. induction before as [|z before IH]; simpl; intros ys Hys.
  - destruct (f x) as [y| |] eqn:Hx; [|done..]. simpl in Hys.
    destruct (res_mapM f after) as [ys2| |]; [|done..]. simplify_eq/=. by exists [], y, ys2.
  - destruct (f z) as [y0| |] eqn:Hz; [|done..]. simpl in *.
    destruct (res_mapM f (before ++ x :: after)) as [ys0| |]; [|done..]. simplify_eq/=.
    destruct (IH ys0 eq_refl) as (ys1 & y & ys2 & -> & Hb & Hx).
    exists (y0 :: ys1), y, ys2. by rewrite Hb.
Qed.

Lemma res_mapM_elem_of {E A B} (f : A → Res E B) xs ys :
  res_mapM f xs = Ok ys → ∀ y, y ∈ ys → ∃ x, x ∈ xs ∧ f x = Ok y.
Proof.
  revert ys. induction xs as [|x xs IH]; simpl; intros ys Hys y Hin.
  - simplify_eq. by apply elem_of_nil in Hin.
  - destruct (f x) as [y0| |] eqn:Hx; [|done..]. simpl in Hys.
    destruct (res_mapM f xs) as [ys0| |]; [|done..]. simplify_eq/=.
    apply elem_of_cons in Hin as [->|Hin]; [exists x; split; [constructor|done]|].
    destruct (IH ys0 eq_refl y Hin) as (x' & ? & ?). exists x'. split; [by constructor|done].
Qed.

Lemma Codec_new_Ok key previous instance c :
  Codec_new key previous instance = Ok c →
  cipher key = Ok (primary c) ∧ codec_instance c = instance
  ∧ res_mapM cipher (key :: previous) = Ok (readers c).
Proof.
  unfold Codec_new. destruct (cipher key) as [p| |] eqn:Hp; [|done..]. cbn [res_bind].
  destruct (res_mapM cipher (key :: previous)) as [rs| |] eqn:Hrs; cbn [res_bind]; [|done..].
  by intros [= <-].
Qed.
Lemma Codec_new_primary key previous instance c :
  Codec_new key previous instance = Ok c → ∃ rest, readers c = primary c :: rest.
Proof.
  intros (Hp & _ & Hrs)%Codec_new_Ok. apply (res_mapM_app_inv _ []) in Hrs as
    (ys1 & y & ys2 & -> & [= <-] & Hy). exists ys2. simpl. congruence.
Qed.

Lemma codec_seal_Ok `{Serde T} c nonce purpose (v : T) s :
  seal c nonce purpose v = Ok s →
  ∃ raw e, to_vec v = Some raw ∧ aes_encrypt (primary c) nonce raw (aad c purpose) = Some e
           ∧ s = base64_encode (nonce ++ e).
Proof.
  unfold seal. destruct (to_vec v) as [raw|]; [|done]. simpl.
  destruct (aes_encrypt _ _ _ _) as [e|] eqn:E; [|done]. simpl. intros [= <-]. eauto.
Qed.
End helpers.

Section roundtrip.
Context `{NativeLib, Serde T}.

(** A sealed value opens under any codec of the same instance whose readers before
    the sealing key refuse it, exactly when it is small enough. *)
Lemma open_sealed c c' before after nonce purpose (v : T) s raw :
  length nonce = 12 → codec_instance c' = codec_instance c → to_vec v = Some raw →
  seal c nonce purpose v = Ok s → readers c' = before ++ primary c :: after →
  (∀ r e, r ∈ before → aes_encrypt (primary c) nonce raw (aad c purpose) = Some e →
     aes_decrypt r nonce e (aad c purpose) = None) →
  open c' purpose s
  = if (N.of_nat (length raw) <=? seal_limit)%N then Ok v else Err NativeError_Unauthorized.
Proof.
  intros Hn Hi Hraw Hs Hrs Hother. apply codec_seal_Ok in Hs as (raw' & e & Hraw' & He & ->).
  simplify_eq. unfold open. rewrite base64_decode_encode. cbn [ok_or res_bind].
  pose proof (aes_encrypt_length _ _ _ _ _ He) as Hlen. rewrite length_app, Hn, Hlen.
  replace (12 + (length raw + 16) <=? 12)%nat with false by lia. cbn [orb].
  unfold seal_limit.
  destruct (N.leb_spec (N.of_nat (length raw)) (65536 - 12 - 16)) as [Hle|Hgt].
  - replace (65536 <? N.of_nat (12 + (length raw + 16)))%N with false by lia.
    assert (aad c' purpose = aad c purpose) as -> by (unfold aad; by rewrite Hi).
    rewrite <- Hn, take_app_length, drop_app_length, Hrs.
    rewrite (find_map_app _ before (primary c) raw after); [|by eauto|by apply aes_decrypt_encrypt].
    simpl. by rewrite (from_slice_to_vec v raw).
  - by replace (65536 <? N.of_nat (12 + (length raw + 16)))%N with true by lia.
Qed.

(** The codec that sealed a value opens it. *)
Lemma open_sealed_same c rest nonce purpose (v : T) s raw :
  readers c = primary c :: rest → length nonce = 12 → to_vec v = Some raw →
  seal c nonce purpose v = Ok s → (N.of_nat (length raw) ≤ seal_limit)%N →
  open c purpose s = Ok v.
Proof.
  intros Hrs Hn Hraw Hs Hle. rewrite (open_sealed c c [] rest nonce purpose v s raw); try done.
  - by replace (N.of_nat (length raw) <=? seal_limit)%N with true by lia.
  - by intros r e Hr%elem_of_nil.
Qed.
(** What the codec opens is what it sealed. *)
Lemma open_seal_eq c rest nonce purpose (v v' : T) s :
  readers c = primary c :: rest → length nonce = 12 → seal c nonce purpose v = Ok s →
  open c purpose s = Ok v' → v' = v.
Proof.
  intros Hrs Hn Hs Ho. pose proof (codec_seal_Ok _ _ _ _ _ Hs) as (raw & e & Hraw & _).
  rewrite (open_sealed c c [] rest nonce purpose v s raw) in Ho; try done.
  - destruct (_ <=? _)%N; by simplify_eq.
  - by intros r e' Hr%elem_of_nil.
Qed.
End roundtrip.

(** ** Theorems *)

(** A sealed value opens again, also after the keys were rotated: under any key ring
    of the same instance that still lists the sealing key and whose keys listed before
    it refuse the value, opening returns the value, unless its JSON is longer than
    65508 bytes, in which case it is refused for good. *)
Theorem native_codec_roundtrip `{NativeLib, Serde T} key previous instance c
    key' previous' c' before after nonce purpose (v : T) raw s :
  Codec_new key previous instance = Ok c → Codec_new key' previous' instance = Ok c' →
  key' :: previous' = before ++ key :: after → length nonce = 12 → to_vec v = Some raw →
  seal c nonce purpose v = Ok s →
  (∀ k r e, k ∈ before → cipher k = Ok r →
     aes_encrypt (primary c) nonce raw (aad c purpose) = Some e →
     aes_decrypt r nonce e (aad c purpose) = None) →
  open c' purpose s
  = if (N.of_nat (length raw) <=? 65508)%N then Ok v else Err NativeError_Unauthorized.
Proof.
  intros Hc Hc' Hkeys Hn Hraw Hs Hother. apply Codec_new_Ok in Hc as (Hp & Hi & _).
  apply Codec_new_Ok in Hc' as (_ & Hi' & Hrs). rewrite Hkeys in Hrs.
  apply res_mapM_app_inv in Hrs as (ys1 & y & ys2 & Hrs & Hb & Hy).
  assert (y = primary c) as -> by congruence.
  apply (open_sealed c c' ys1 ys2 nonce purpose v s raw); try congruence.
  intros r e Hr He. apply (res_mapM_elem_of _ _ _ Hb) in Hr as (k & Hk & Hkr). by eapply Hother.
Qed.

(** ** A stand-in for the libraries *)

Definition demo_pad (n : nat) (b : bytes) : bytes := take n (b ++ replicate n 65%N).
Definition demo_unpad (s : str) : option bytes :=
  let b := take (length s - 11) s in
  if bool_decide (s = b ++ replicate 11 65%N) then Some b else None.
Definition demo_encrypt (c nonce msg aad : bytes) : option bytes := Some (demo_pad 16 c ++ msg).
Definition demo_decrypt (c nonce msg aad : bytes) : option bytes :=
  if bool_decide (take 16 msg = demo_pad 16 c) then Some (drop 16 msg) else None.

#[local] Lemma length_demo_pad n b : length (demo_pad n b) = n.
Proof. unfold demo_pad. rewrite length_take, length_app, length_replicate. lia. Qed.
#[local] Lemma demo_unpad_pad b : demo_unpad (b ++ replicate 11 65%N) = Some b.
Proof.
  unfold demo_unpad. rewrite length_app, length_replicate, Nat.add_sub, take_app_length.
  by rewrite bool_decide_true.
Qed.
#[local] Lemma demo_decrypt_encrypt c nonce msg aad e :
  demo_encrypt c nonce msg aad = Some e → demo_decrypt c nonce e aad = Some msg.
Proof.
  intros [= <-]. unfold demo_decrypt.
  rewrite (take_app_length' _ _ 16), (drop_app_length' _ _ 16) by by rewrite length_demo_pad.
  by rewrite bool_decide_true.
Qed.
#[local] Lemma demo_encrypt_length c nonce msg aad e :
  demo_encrypt c nonce msg aad = Some e → length e = length msg + 16.
Proof. intros [= <-]. rewrite length_app, length_demo_pad. lia. Qed.
Definition demo_native : NativeLib := {|
  sha256_digest := demo_pad 32;
  base64_encode b := b ++ replicate 11 65%N;
  base64_decode := demo_unpad;
  base64_decode_encode := demo_unpad_pad;
  Aes256Gcm := bytes;
  aes_new_from_slice b := Some b;
  aes_encrypt := demo_encrypt;
  aes_decrypt := demo_decrypt;
  aes_decrypt_encrypt := demo_decrypt_encrypt;
  aes_encrypt_length := demo_encrypt_length |}.

(** A value as a list of fields, each with its length in front. *)
Fixpoint demo_fields (fs : list str) : bytes :=
  match fs with [] => [] | f :: fs => N.of_nat (length f) :: f ++ demo_fields fs end.
Fixpoint demo_parse_fields (n : nat) (b : bytes) : option (list str) :=
  match n, b with
  | O, [] => Some []
  | S n, k :: b => cons (take (N.to_nat k) b) <$> demo_parse_fields n (drop (N.to_nat k) b)
  | _, _ => None
  end.
Lemma demo_parse_fields_of fs : demo_parse_fields (length fs) (demo_fields fs) = Some fs.
Proof.
  induction fs as [|f fs IH]; [done|]. cbn [length demo_fields demo_parse_fields].
  by rewrite Nat2N.id, take_app_length, drop_app_length, IH.
Qed.
Program Definition demo_serde {T} (n : nat) (to : T → list str) (from : list str → option T)
    (Hto : ∀ v, length (to v) = n) (Hfrom : ∀ v, from (to v) = Some v) : Serde T := {|
  to_vec v := Some (demo_fields (to v));
  from_slice b := demo_parse_fields n b ≫= from |}.
Next Obligation.
  intros T n to from Hto Hfrom v raw [= <-]. simpl. rewrite <- (Hto v), demo_parse_fields_of. apply Hfrom.
Qed.

#[local] Existing Instance demo_native.
#[local] Instance demo_serde_str : Serde str :=
  demo_serde 1 (λ s, [s]) head (λ _, eq_refl) (λ _, eq_refl).
Definition demo_key (c : char) : str := base64_encode (replicate 32 c).
Definition demo_codec : Codec := match Codec_new (demo_key 66) [] (lit "i") with Ok c => c | _ => mk_Codec [] [] [] end.
Definition demo_rotated : Codec :=
  match Codec_new (demo_key 67) [demo_key 66] (lit "i") with Ok c => c | _ => mk_Codec [] [] [] end.
Lemma native_codec_roundtrip_witness :
  let s := base64_encode (replicate 12 0%N ++ demo_pad 16 (replicate 32 66%N) ++ 2%N :: lit "hi") in
  seal demo_codec (replicate 12 0%N) (lit "p") (lit "hi") = Ok s
  ∧ open demo_rotated (lit "p") s = Ok (lit "hi").
Proof.
  intros s. assert (seal demo_codec (replicate 12 0%N) (lit "p") (lit "hi") = Ok s) as Hs
    by (vm_compute; reflexivity).
  split; [exact Hs|].
  refine (native_codec_roundtrip (demo_key 66) [] (lit "i") demo_codec (demo_key 67) [demo_key 66]
    demo_rotated [demo_key 67] [] (replicate 12 0%N) (lit "p") (lit "hi") (2%N :: lit "hi") s
    _ _ eq_refl eq_refl eq_refl Hs _); [vm_compute; reflexivity..|].
  intros k r e ->%list_elem_of_singleton Hr. vm_compute in Hr. injection Hr as <-.
  intros He. vm_compute in He. injection He as <-. vm_compute. reflexivity.
Defined.
