(* ===== verification/NativeSessions.v ===== *)
(** * NativeSessions: logins and token families of the native client

    Models [src/native_sessions.rs] with the tables of
    [migrations/sqlite/0068_native_sessions.sql]. A login attempt goes through the
    browser and the identity provider and ends in a token family; a family is refreshed
    under a lease. [AuthService] answers, random strings, nonces and the clock are
    arguments; each transaction reads the clock once. [callback] and [refresh] call the
    identity provider between two transactions, so each is a claim and a finish that
    other work can come between. *)

From Stdlib Require Import ZifyBool.
From stdpp Require Import base tactics numbers strings countable gmap list.
From S2P Require Import Prelude RustStr Text Ids Models Sql Attachments NativeCodec.

Definition SCOPE : str := lit "sproyt_native_v1".
Definition ENVIRONMENT : str := lit "canary".
Definition LOGIN_COOKIE : str := lit "sproyt_oidc_tx".
Definition SESSION_COOKIE : str := lit "sproyt_session".
Definition REFRESH_COOKIE : str := lit "sproyt_refresh".

(** ** Requests and results *)

Record LoginRequest : Type := mk_LoginRequest {
  login_challenge : str;
  login_destination_id : str;
  login_callback_port : N;
  login_expected_user_id : option str }.
Record LoginStarted : Type := mk_LoginStarted {
  started_transaction_id : str;
  started_authorization_url : str }.
Record ExchangeRequest : Type := mk_ExchangeRequest {
  exchange_transaction_id : str;
  exchange_code : str;
  exchange_verifier : str;
  exchange_redemption_id : str;
  exchange_environment : str;
  exchange_destination_id : str }.
Record CancelRequest : Type := mk_CancelRequest {
  cancel_transaction_id : str;
  cancel_verifier : str;
  cancel_environment : str;
  cancel_destination_id : str }.
Record RefreshRequest : Type := mk_RefreshRequest {
  refresh_operation_id : str;
  refresh_generation : N }.
Record Grant : Type := mk_Grant {
  grant_scope : str;
  grant_environment : str;
  grant_instance_id : str;
  grant_user_id : str;
  grant_family : str;
  grant_generation : N;
  grant_epoch : N;
  access_token : str;
  refresh_token : str;
  revoke_token : str;
  grant_expires_at : N;
  grant_display_name : str }.
#[export] Instance Grant_eta : Eta Grant := λ g,
  mk_Grant (grant_scope g) (grant_environment g) (grant_instance_id g) (grant_user_id g)
    (grant_family g) (grant_generation g) (grant_epoch g) (access_token g) (refresh_token g)
    (revoke_token g) (grant_expires_at g) (grant_display_name g).
Record ExchangeResult : Type := mk_ExchangeResult {
  result_user_id : str;
  native_session : Grant;
  result_display_name : str }.
Record NativeSessionRef : Type := mk_NativeSessionRef {
  ref_family : str;
  ref_access_hash : str;
  ref_generation : N;
  ref_epoch : N }.
Record SessionInfo : Type := mk_SessionInfo {
  session_user_id : str;
  session_family : str;
  session_generation : N;
  session_epoch : N;
  session_display_name : str }.
Record AttemptSecret : Type := mk_AttemptSecret {
  authorization_url : str;
  login_cookie : str;
  browser_cookie : str;
  confirmation_nonce : str;
  provider_cookies : str;
  provider_expires : N;
  secret_display_name : str;
  handoff_code : str }.
#[export] Instance AttemptSecret_eta : Eta AttemptSecret := λ s,
  mk_AttemptSecret (authorization_url s) (login_cookie s) (browser_cookie s)
    (confirmation_nonce s) (provider_cookies s) (provider_expires s) (secret_display_name s)
    (handoff_code s).
Record FamilySecret : Type := mk_FamilySecret { family_cookies : str; family_grant : Grant }.

(** ** [AuthService] as the sessions see it *)

Inductive AuthError : Type :=
  | AuthError_InvalidIdentity (e : TextValidationError) | AuthError_InvalidSessionKey
  | AuthError_Unauthorized | AuthError_Unsupported (m : str) | AuthError_External (m : str).
Record AuthenticatedPrincipal : Type := mk_AuthenticatedPrincipal {
  principal_user : User;
  principal_issuer : str;
  principal_subject : str;
  principal_email : option str }.
Record LoginStart : Type := mk_LoginStart {
  start_authorization_url : str;
  start_set_cookie : str }.
Record LoginComplete : Type := mk_LoginComplete {
  complete_principal : AuthenticatedPrincipal;
  complete_set_cookie : str;
  complete_set_refresh_cookie : option str;
  complete_clear_transaction_cookie : str;
  complete_return_to : str;
  complete_enrollment_token : option str }.
Record SessionRenewal : Type := mk_SessionRenewal {
  renewal_set_cookie : str;
  renewal_set_refresh_cookie : str;
  renewal_refresh_after_seconds : N }.
Record Confirmation : Type := mk_Confirmation {
  confirmation_transaction_id : str;
  confirmation_callback_port : N;
  confirmation_nonce_of : str;
  confirmation_principal : AuthenticatedPrincipal }.
(** What the service answers to the calls one operation makes. *)
Record AuthService : Type := mk_AuthService {
  auth_login : option str → Res AuthError LoginStart;
  auth_callback : str → str → option str → Res AuthError LoginComplete;
  auth_authenticate_session : option str → Res AuthError AuthenticatedPrincipal;
  auth_renew_native_session : option str → Res AuthError SessionRenewal;
  auth_native_session_expires_at : str → Res AuthError N }.

Definition auth_error (e : AuthError) : NativeError :=
  match e with
  | AuthError_Unauthorized => NativeError_Unauthorized
  | _ => NativeError_Unavailable
  end.

(** ** Tables *)

Inductive AttemptPhase : Type :=
  | Attempt_new | Attempt_authorizing | Attempt_verifying | Attempt_confirm | Attempt_ready
  | Attempt_redeemed | Attempt_failed | Attempt_cancelled.
#[export] Instance AttemptPhase_eq_dec : EqDecision AttemptPhase.
Proof. solve_decision. Defined.
Inductive FamilyPhase : Type :=
  | Family_active | Family_refreshing | Family_reauth | Family_revoked.
#[export] Instance FamilyPhase_eq_dec : EqDecision FamilyPhase.
Proof. solve_decision. Defined.

(** A row of [native_attempts], whose key is the column [id]. *)
Record Attempt : Type := mk_Attempt {
  a_state_hash : str;
  a_challenge : str;
  a_expected_user_id : str;
  a_start_epoch : option N;
  a_epoch : option N;
  a_user_id : str;
  a_callback_port : option N;
  a_created_at : option N;
  a_expires_at : option N;
  a_phase : AttemptPhase;
  a_cookie_hash : str;
  a_confirm_hash : str;
  a_code_hash : str;
  a_handoff_expires : option N;
  a_redemption_id : str;
  a_receipt_expires : option N;
  a_family : str;
  a_secret : str;
  a_receipt : str }.
#[export] Instance Attempt_eta : Eta Attempt := λ a,
  mk_Attempt (a_state_hash a) (a_challenge a) (a_expected_user_id a) (a_start_epoch a)
    (a_epoch a) (a_user_id a) (a_callback_port a) (a_created_at a) (a_expires_at a) (a_phase a)
    (a_cookie_hash a) (a_confirm_hash a) (a_code_hash a) (a_handoff_expires a)
    (a_redemption_id a) (a_receipt_expires a) (a_family a) (a_secret a) (a_receipt a).

(** A row of [native_families], whose key is the column [family]. *)
Record Family : Type := mk_Family {
  f_user_id : str;
  f_epoch : option N;
  f_generation : option N;
  f_phase : FamilyPhase;
  f_access_hash : str;
  f_refresh_hash : str;
  f_revoke_hash : str;
  f_expires_at : option N;
  f_secret : str;
  f_lease_id : str;
  f_lease_expires : option N }.
#[export] Instance Family_eta : Eta Family := λ f,
  mk_Family (f_user_id f) (f_epoch f) (f_generation f) (f_phase f) (f_access_hash f)
    (f_refresh_hash f) (f_revoke_hash f) (f_expires_at f) (f_secret f) (f_lease_id f)
    (f_lease_expires f).

(** Rows of [native_epochs], [native_refresh_receipts] and [native_service]. *)
Record Epoch : Type := mk_Epoch { e_epoch : option N; e_changed_at : option N }.
Record Receipt : Type := mk_Receipt {
  r_family : str; r_expires_at : option N; r_result : str }.

Record Service : Type := mk_Service {
  s_origin : str; s_issuer : str; s_schema_version : str }.

Record NativeDb : Type := mk_NativeDb {
  native_service : gmap str Service;
  native_epochs : gmap str Epoch;
  native_attempts : gmap str Attempt;
  native_families : gmap str Family;
  native_refresh_receipts : gmap (str * str * N) Receipt }.
#[export] Instance NativeDb_eta : Eta NativeDb := λ db,
  mk_NativeDb (native_service db) (native_epochs db) (native_attempts db) (native_families db)
    (native_refresh_receipts db).

Record NativeSessions `{NativeLib} : Type := mk_NativeSessions {
  native_codec : Codec;
  native_origin : str;
  native_issuer : str;
  native_instance : str }.

Abbreviation NativeM := (ST NativeDb NativeError).

(** ** Statements *)

(** [UPDATE native_attempts SET .. WHERE id=$1 AND ..] and the same for families: the
    answer tells whether a row was written. *)
Definition exec_attempt (id : str) (p : Attempt → bool) (f : Attempt → Attempt) : NativeM bool :=
  let! db := get in
  match native_attempts db !! id with
  | Some a =>
      if p a then put (db <| native_attempts := <[id := f a]> (native_attempts db) |>);;; st_ret true
      else st_ret false
  | None => st_ret false
  end.
Definition exec_family (id : str) (p : Family → bool) (f : Family → Family) : NativeM bool :=
  let! db := get in
  match native_families db !! id with
  | Some r =>
      if p r then put (db <| native_families := <[id := f r]> (native_families db) |>);;; st_ret true
      else st_ret false
  | None => st_ret false
  end.

(** The unique columns of [native_families]. *)
Definition family_clash (id : str) (r : Family) (db : NativeDb) : bool :=
  any (λ kr, bool_decide (kr.1 ≠ id)
             && (bool_decide (f_access_hash kr.2 = f_access_hash r)
                 || bool_decide (f_refresh_hash kr.2 = f_refresh_hash r)
                 || bool_decide (f_revoke_hash kr.2 = f_revoke_hash r)))
    (map_to_list (native_families db)).
Definition insert_attempt (id : str) (a : Attempt) : NativeM unit :=
  let! db := get in
  ensure (negb (contains_key id (native_attempts db))
          && negb (any (λ ka, bool_decide (a_state_hash ka.2 = a_state_hash a))
                     (map_to_list (native_attempts db)))) NativeError_Unavailable;;;
  put (db <| native_attempts := <[id := a]> (native_attempts db) |>).
Definition insert_family (id : str) (r : Family) : NativeM unit :=
  let! db := get in
  ensure (negb (contains_key id (native_families db)) && negb (family_clash id r db))
    NativeError_Unavailable;;;
  put (db <| native_families := <[id := r]> (native_families db) |>).
Definition insert_receipt (key : str * str * N) (r : Receipt) : NativeM unit :=
  let! db := get in
  ensure (negb (contains_key key (native_refresh_receipts db))
          && contains_key (r_family r) (native_families db)) NativeError_Unavailable;;;
  put (db <| native_refresh_receipts := <[key := r]> (native_refresh_receipts db) |>).
(** An update that writes unique columns. *)
Definition exec_family_unique (id : str) (p : Family → bool) (f : Family → Family)
    : NativeM bool :=
  let! db := get in
  match native_families db !! id with
  | Some r => ensure (negb (p r) || negb (family_clash id (f r) db)) NativeError_Unavailable
  | None => st_ret tt
  end;;;
  exec_family id p f.

(** ** Operations *)

Section operations.
Context `{NativeLib, UuidLib, Serde AttemptSecret, Serde FamilySecret, Serde ExchangeResult,
  Serde Grant}.
Implicit Types (self : NativeSessions) (auth : AuthService) (now : N).

Definition attempt_purpose (id : str) : str := lit "attempt:" ++ id.
Definition family_purpose (id : str) : str := lit "family:" ++ id.
Definition handoff_purpose (id : str) : str := lit "handoff:" ++ id.
Definition refresh_purpose (old_hash operation_id : str) (generation : N) : str :=
  lit "refresh:" ++ old_hash ++ lit ":" ++ operation_id ++ lit ":" ++ fmt_dec generation.

(** [NativeSessions::new]: the service registers itself under its origin, or finds
    that it is registered there. *)
Definition NativeSessions_new (origin issuer key : str) (previous : list str)
    : NativeM NativeSessions :=
  let instance := hash (lit "sproyt-native-v1" ++ [10%N] ++ origin ++ [10%N] ++ issuer) in
  let! codec := st_lift (Codec_new key previous instance) in
  transaction (
    let! db := get in
    let taken := contains_key instance (native_service db)
                 || any (λ kr, bool_decide (s_origin kr.2 = origin)) (map_to_list (native_service db)) in
    let services :=
      if taken then native_service db
      else <[instance := mk_Service origin issuer (lit "1")]> (native_service db) in
    put (db <| native_service := services |>);;;
    ensure (match map_to_list (rows_where (λ _ r, bool_decide (s_origin r = origin)) services) with
            | [(i, r)] => bool_decide (i = instance) && bool_decide (s_issuer r = issuer)
                          && bool_decide (s_schema_version r = lit "1")
            | _ => false
            end) NativeError_Configuration);;;
  st_ret (mk_NativeSessions _ codec origin issuer instance).

Definition attempt (id : str) : NativeM Attempt :=
  let! db := get in st_lift (ok_or (native_attempts db !! id) NativeError_Unauthorized).
Definition locked_attempt (id : str) : NativeM Attempt :=
  let! locked := exec_attempt id (λ _, true) (λ a, a) in
  ensure locked NativeError_Unauthorized;;;
  attempt id.
Definition family (id : str) : NativeM Family :=
  let! db := get in st_lift (ok_or (native_families db !! id) NativeError_Unauthorized).
Definition epoch (user : str) : NativeM (N * N) :=
  let! db := get in
  match native_epochs db !! user with
  | Some row => let! e := st_lift (number (e_epoch row)) in
                let! c := st_lift (number (e_changed_at row)) in st_ret (e, c)
  | None => st_ret (0, 0)%N
  end.

Definition live_phase (p : FamilyPhase) : bool :=
  match p with Family_active | Family_refreshing => true | _ => false end.
(** [phase='refreshing' AND lease_id=$2], and what a fenced family becomes. *)
Definition leased (lease : str) (r : Family) : bool :=
  bool_decide (f_phase r = Family_refreshing) && bool_decide (f_lease_id r = lease).
Definition to_reauth (r : Family) : Family := r <| f_phase := Family_reauth |> <| f_secret := [] |>.
Definition to_revoked (r : Family) : Family :=
  r <| f_phase := Family_revoked |> <| f_secret := [] |>.

Definition fence now (id : str) (r : Family) : NativeM unit :=
  ensure (live_phase (f_phase r)) NativeError_Unauthorized;;;
  let! e := epoch (f_user_id r) in
  let! fe := st_lift (number (f_epoch r)) in
  ensure (e.1 =? fe)%N NativeError_Unauthorized;;;
  if bool_decide (f_phase r = Family_refreshing) then
    let! until := st_lift (number (f_lease_expires r)) in
    if (until <=? now)%N then
      let! _ := exec_family id (leased (f_lease_id r)) to_reauth in
      throw NativeError_Unauthorized
    else st_ret tt
  else st_ret tt.
(** [if let Err(error) = self.fence(..) { tx.commit()?; return Err(error); }] *)
Definition fenced_or_commit {A} now (id : str) (r : Family) (k : NativeM (Res NativeError A))
    : NativeM (Res NativeError A) := λ db,
  match fence now id r db with
  | (Ok _, db') => k db'
  | (Err e, db') => (Ok (Err e), db')
  | (Panic, db') => (Panic, db')
  end.

Definition reject (b : bool) : Res NativeError unit :=
  if b then Err NativeError_Unauthorized else Ok tt.
Definition family_secret self (id : str) (r : Family) : Res NativeError FamilySecret :=
  let? secret := open (native_codec self) (family_purpose id) (f_secret r) in
  let grant := family_grant secret in
  let? _ := reject (bool_decide (grant_scope grant ≠ SCOPE)
                    || bool_decide (grant_environment grant ≠ ENVIRONMENT)
                    || bool_decide (grant_instance_id grant ≠ native_instance self)
                    || bool_decide (grant_user_id grant ≠ f_user_id r)
                    || bool_decide (grant_family grant ≠ id)) in
  let? e := number (f_epoch r) in
  let? _ := reject (bool_decide (grant_epoch grant ≠ e)) in
  let? g := number (f_generation r) in
  let? _ := reject (bool_decide (grant_generation grant ≠ g)
                    || bool_decide (hash (access_token grant) ≠ f_access_hash r)
                    || bool_decide (hash (refresh_token grant) ≠ f_refresh_hash r)
                    || bool_decide (hash (revoke_token grant) ≠ f_revoke_hash r)) in
  let? expires := number (f_expires_at r) in
  let? _ := reject (bool_decide (grant_expires_at grant ≠ expires)) in
  Ok secret.

(** [query_pairs] parses a URL and returns its query parameters. *)
Definition login self auth (query_pairs : str → option (list (str * str)))
    (fresh_id fresh_cookie : Res NativeError str) (nonce : bytes) now (input : LoginRequest)
    : NativeM LoginStarted :=
  ensure (proof (login_challenge input)
          && bool_decide (login_destination_id input = lit "windows-loopback")
          && (1024 <=? login_callback_port input)%N
          && match login_expected_user_id input with Some id => canonical_user id | None => true end)
    NativeError_Invalid;;;
  let! started := st_lift (map_err auth_error (auth_login auth (Some (lit "/auth/native/confirmed")))) in
  let! pairs := st_lift (ok_or (query_pairs (start_authorization_url started))
                           NativeError_Unavailable) in
  let states := (filter (λ kv, kv.1 = lit "state") pairs).*2 in
  let! st := st_lift (match states with
                      | [s] => if state_valid s then Ok s else Err NativeError_Unavailable
                      | _ => Err NativeError_Unavailable
                      end) in
  let! id := st_lift fresh_id in
  let expected := default [] (login_expected_user_id input) in
  let! cookie := st_lift (cookie_pair (start_set_cookie started) LOGIN_COOKIE) in
  let! browser := st_lift fresh_cookie in
  let payload := mk_AttemptSecret (start_authorization_url started) cookie browser [] [] 0 [] [] in
  let! secret := st_lift (seal (native_codec self) nonce (attempt_purpose id) payload) in
  transaction (
    let! e := epoch expected in
    let! db := get in
    ensure (negb (4096 <=? N.of_nat (size (native_attempts db)))%N) NativeError_Unavailable;;;
    insert_attempt id (mk_Attempt (hash st) (login_challenge input) expected (Some e.1) None []
      None (Some now) (Some (now + 600)%N) Attempt_new [] [] [] None [] None [] secret []);;;
    let! _ := exec_attempt id (λ _, true)
                (λ a, a <| a_callback_port := Some (login_callback_port input) |>) in
    st_ret tt);;;
  st_ret (mk_LoginStarted id (native_origin self ++ lit "/auth/native/browser/" ++ id)).

Definition native_cookie (id : str) : str := lit "sproyt_native_" ++ id.

Definition browser self now (id : str) : NativeM (str * str) :=
  ensure (proof id) NativeError_Unauthorized;;;
  transaction (
    let! a := locked_attempt id in
    ensure (bool_decide (a_phase a = Attempt_new)) NativeError_Unauthorized;;;
    let! expires := st_lift (number (a_expires_at a)) in
    ensure (negb (expires <=? now)%N) NativeError_Unauthorized;;;
    let! secret := st_lift (open (T := AttemptSecret) (native_codec self) (attempt_purpose id) (a_secret a)) in
    let! done := exec_attempt id (λ a, bool_decide (a_phase a = Attempt_new))
                   (λ a, a <| a_phase := Attempt_authorizing |>
                           <| a_cookie_hash := hash (browser_cookie secret) |>) in
    ensure done NativeError_Unauthorized;;;
    st_ret (authorization_url secret,
            native_cookie id ++ lit "=" ++ browser_cookie secret
              ++ lit "; Path=/auth; HttpOnly; Secure; SameSite=Lax; Max-Age=600")).

Definition owns_state (st : str) : NativeM bool :=
  let! db := get in
  st_ret (any (λ ka, bool_decide (a_state_hash ka.2 = hash st)) (map_to_list (native_attempts db))).

(** *** The callback from the identity provider *)

(** A claimed callback: the attempt as it was read, and its secret. *)
Record CallbackJob : Type := mk_CallbackJob {
  callback_id : str; callback_attempt : Attempt; callback_secret : AttemptSecret }.
Definition callback_claim self now (code st : str) (header : option str) : NativeM CallbackJob :=
  ensure (bool_decide (code ≠ []) && (len code <=? 4096)%N && state_valid st)
    NativeError_Unauthorized;;;
  let! db := get in
  let! found := st_lift (ok_or (fetch_where (λ _ a, bool_decide (a_state_hash a = hash st))
                                  (native_attempts db)) NativeError_Unauthorized) in
  let id := found.1 in
  transaction (
    let! a := locked_attempt id in
    let! cookie := st_lift (cookie_value header (native_cookie id)) in
    ensure (bool_decide (a_phase a = Attempt_authorizing)) NativeError_Unauthorized;;;
    let! expires := st_lift (number (a_expires_at a)) in
    ensure (negb (expires <=? now)%N && bool_decide (hash cookie = a_cookie_hash a))
      NativeError_Unauthorized;;;
    let! secret := st_lift (open (native_codec self) (attempt_purpose id) (a_secret a)) in
    let! done := exec_attempt id (λ a, bool_decide (a_phase a = Attempt_authorizing))
                   (λ a, a <| a_phase := Attempt_verifying |>) in
    ensure done NativeError_Unauthorized;;;
    st_ret (mk_CallbackJob id a secret)).

(** The secret after the provider's answer. *)
Definition verified_secret auth (fresh_nonce : Res NativeError str) (job : CallbackJob)
    (login : LoginComplete) : Res NativeError AttemptSecret :=
  let user := uuid_display (UserId_as_uuid (User_id (principal_user (complete_principal login)))) in
  let a := callback_attempt job in
  if (bool_decide (a_expected_user_id a ≠ []) && bool_decide (a_expected_user_id a ≠ user))
     || bool_decide (complete_set_refresh_cookie login = None)
  then Err NativeError_Unauthorized
  else
    let? session := cookie_pair (complete_set_cookie login) SESSION_COOKIE in
    let? set_refresh := ok_or (complete_set_refresh_cookie login) NativeError_Unauthorized in
    let? refresh := cookie_pair set_refresh REFRESH_COOKIE in
    let cookies := session ++ lit "; " ++ refresh in
    let? expires := map_err auth_error (auth_native_session_expires_at auth cookies) in
    let? nonce := fresh_nonce in
    Ok (mk_AttemptSecret [] [] (browser_cookie (callback_secret job)) nonce cookies expires
          (DisplayName_as_str (User_display_name (principal_user (complete_principal login))))
          (handoff_code (callback_secret job))).

Definition callback_finish self auth (fresh_nonce : Res NativeError str) (nonce : bytes)
    (code st : str) (job : CallbackJob) : NativeM Confirmation :=
  let id := callback_id job in
  let a := callback_attempt job in
  match auth_callback auth code st (Some (login_cookie (callback_secret job))) with
  | Err error =>
      transaction (
        let! _ := exec_attempt id (λ a, bool_decide (a_phase a = Attempt_verifying))
                    (λ a, a <| a_phase := Attempt_failed |> <| a_secret := [] |>) in st_ret tt);;;
      throw (auth_error error)
  | Panic => panic
  | Ok login =>
      let principal := complete_principal login in
      let user := uuid_display (UserId_as_uuid (User_id (principal_user principal))) in
      let! secret := st_lift (verified_secret auth fresh_nonce job login) in
      transaction (
        let! e := epoch user in
        (if bool_decide (a_expected_user_id a ≠ []) then
           let! start := st_lift (number (a_start_epoch a)) in
           ensure (start =? e.1)%N NativeError_Unauthorized
         else
           let! created := st_lift (number (a_created_at a)) in
           ensure (negb ((created <=? e.2)%N && (0 <? e.2)%N)) NativeError_Unauthorized);;;
        let! sealed := st_lift (seal (native_codec self) nonce (attempt_purpose id) secret) in
        let! done := exec_attempt id (λ a, bool_decide (a_phase a = Attempt_verifying))
          (λ a, a <| a_phase := Attempt_confirm |> <| a_user_id := user |>
                  <| a_epoch := Some e.1 |> <| a_confirm_hash := hash (confirmation_nonce secret) |>
                  <| a_secret := sealed |>) in
        ensure done NativeError_Unauthorized);;;
      let! port := st_lift (ok_or (a_callback_port a) NativeError_Unavailable) in
      st_ret (mk_Confirmation id port (confirmation_nonce secret) principal)
  end.
Definition callback self auth now (fresh_nonce : Res NativeError str) (nonce : bytes)
    (code st : str) (header : option str) : NativeM Confirmation :=
  let! job := callback_claim self now code st header in
  callback_finish self auth fresh_nonce nonce code st job.

(** *** Confirmation in the browser *)

Definition confirm self now (fresh_code : Res NativeError str) (nonce : bytes)
    (id confirm_nonce : str) (header : option str) : NativeM str :=
  ensure (proof id && proof confirm_nonce) NativeError_Unauthorized;;;
  transaction (
    let! a := locked_attempt id in
    ensure (match a_phase a with Attempt_confirm | Attempt_ready => true | _ => false end)
      NativeError_Unauthorized;;;
    let! expires := st_lift (number (a_expires_at a)) in
    ensure (negb (expires <=? now)%N) NativeError_Unauthorized;;;
    let! cookie := st_lift (cookie_value header (native_cookie id)) in
    ensure (bool_decide (hash cookie = a_cookie_hash a)
            && bool_decide (hash confirm_nonce = a_confirm_hash a)) NativeError_Unauthorized;;;
    let! e := epoch (a_user_id a) in
    let! ae := st_lift (number (a_epoch a)) in
    ensure (e.1 =? ae)%N NativeError_Unauthorized;;;
    let! secret := st_lift (open (native_codec self) (attempt_purpose id) (a_secret a)) in
    ensure (negb (provider_expires secret <=? now)%N) NativeError_Unauthorized;;;
    let! secret :=
      (if bool_decide (a_phase a = Attempt_confirm) then
         let! code := st_lift fresh_code in
         let secret := secret <| handoff_code := code |> in
         let! sealed := st_lift (seal (native_codec self) nonce (attempt_purpose id) secret) in
         let! done := exec_attempt id (λ a, bool_decide (a_phase a = Attempt_confirm))
           (λ a, a <| a_phase := Attempt_ready |> <| a_code_hash := hash code |>
                   <| a_handoff_expires := Some (N.min (now + 60) expires) |>
                   <| a_secret := sealed |>) in
         ensure done NativeError_Unauthorized;;;
         st_ret secret
       else
         let! handoff := st_lift (number (a_handoff_expires a)) in
         ensure (negb (handoff <=? now)%N) NativeError_Unauthorized;;;
         st_ret secret) in
    st_ret (lit "http://127.0.0.1:" ++ default [] (fmt_dec <$> a_callback_port a)
              ++ lit "/return?transaction_id=" ++ id ++ lit "&code=" ++ handoff_code secret)).

(** *** Handing the grant to the client *)

Definition new_grant self now (a : Attempt) (attempt_epoch : N) (secret : AttemptSecret)
    (fresh_family fresh_access fresh_refresh fresh_revoke : str) : Grant :=
  mk_Grant SCOPE ENVIRONMENT (native_instance self) (a_user_id a) fresh_family 0 attempt_epoch
    (lit "sproyt-access." ++ fresh_access) (lit "sproyt-refresh." ++ fresh_refresh)
    (lit "sproyt-revoke." ++ fresh_revoke) (N.min (now + 300) (provider_expires secret))
    (secret_display_name secret).
(** The row of a family whose grant is [g]. *)
Definition family_row (g : Grant) (sealed : str) : Family :=
  mk_Family (grant_user_id g) (Some (grant_epoch g)) (Some (grant_generation g)) Family_active
    (hash (access_token g)) (hash (refresh_token g)) (hash (revoke_token g))
    (Some (grant_expires_at g)) sealed [] (Some 0%N).

Definition exchange self now
    (fresh_family fresh_access fresh_refresh fresh_revoke : Res NativeError str)
    (nonce_family nonce_receipt : bytes) (input : ExchangeRequest) : NativeM ExchangeResult :=
  ensure (proof (exchange_transaction_id input) && proof (exchange_code input)
          && verifier (exchange_verifier input) && operation (exchange_redemption_id input)
          && bool_decide (exchange_environment input = ENVIRONMENT)
          && bool_decide (exchange_destination_id input = lit "windows-loopback"))
    NativeError_Unauthorized;;;
  let id := exchange_transaction_id input in
  transaction_with (
    let! a := locked_attempt id in
    ensure (bool_decide (hash (exchange_verifier input) = a_challenge a)
            && bool_decide (hash (exchange_code input) = a_code_hash a)) NativeError_Unauthorized;;;
    let! e := epoch (a_user_id a) in
    let! ae := st_lift (number (a_epoch a)) in
    ensure (e.1 =? ae)%N NativeError_Unauthorized;;;
    if bool_decide (a_phase a = Attempt_redeemed) then
      ensure (bool_decide (a_redemption_id a = exchange_redemption_id input))
        NativeError_Unauthorized;;;
      let! until := st_lift (number (a_receipt_expires a)) in
      ensure (negb (until <=? now)%N) NativeError_Unauthorized;;;
      let! r := family (a_family a) in
      fenced_or_commit now (a_family a) r (
        let! result := st_lift (open (native_codec self) (handoff_purpose id) (a_receipt a)) in
        st_ret (Ok result))
    else
      ensure (bool_decide (a_phase a = Attempt_ready)) NativeError_Unauthorized;;;
      let! handoff := st_lift (number (a_handoff_expires a)) in
      ensure (negb (handoff <=? now)%N) NativeError_Unauthorized;;;
      let! secret := st_lift (open (T := AttemptSecret) (native_codec self) (attempt_purpose id) (a_secret a)) in
      let! fam := st_lift fresh_family in
      let! acc := st_lift fresh_access in
      let! ref := st_lift fresh_refresh in
      let! rev := st_lift fresh_revoke in
      let g := new_grant self now a ae secret fam acc ref rev in
      ensure (negb (grant_expires_at g <=? now)%N) NativeError_Unauthorized;;;
      let! sealed := st_lift (seal (native_codec self) nonce_family (family_purpose fam)
                                (mk_FamilySecret (provider_cookies secret) g)) in
      let result := mk_ExchangeResult (grant_user_id g) g (grant_display_name g) in
      let! receipt := st_lift (seal (native_codec self) nonce_receipt (handoff_purpose id) result) in
      let! done := exec_attempt id (λ a, bool_decide (a_phase a = Attempt_ready))
        (λ a, a <| a_phase := Attempt_redeemed |>
                <| a_redemption_id := exchange_redemption_id input |>
                <| a_receipt_expires := Some (now + 60)%N |> <| a_family := fam |>
                <| a_secret := [] |> <| a_receipt := receipt |>) in
      ensure done NativeError_Unauthorized;;;
      insert_family fam (family_row g sealed);;;
      st_ret (Ok result)).

Definition cancel_login (input : CancelRequest) : NativeM unit :=
  ensure (proof (cancel_transaction_id input) && verifier (cancel_verifier input)
          && bool_decide (cancel_environment input = ENVIRONMENT)
          && bool_decide (cancel_destination_id input = lit "windows-loopback"))
    NativeError_Unauthorized;;;
  let id := cancel_transaction_id input in
  transaction (
    let! a := locked_attempt id in
    ensure (bool_decide (hash (cancel_verifier input) = a_challenge a)) NativeError_Unauthorized;;;
    let! _ := exec_attempt id (λ _, true)
                (λ a, a <| a_phase := Attempt_cancelled |> <| a_secret := [] |>) in
    if bool_decide (a_family a ≠ []) then
      let! _ := exec_family (a_family a) (λ _, true) to_revoked in st_ret tt
    else st_ret tt).

Definition token_of (prefix : str) (token : str) : bool :=
  match strip_prefix token prefix with Some rest => proof rest | None => false end.

Definition revoke (token : str) : NativeM unit :=
  ensure (token_of (lit "sproyt-revoke.") token) NativeError_Unauthorized;;;
  transaction (
    let! db := get in
    let p (_ : str) r := bool_decide (f_revoke_hash r = hash token) in
    put (db <| native_families := update_where p to_revoked (native_families db) |>);;;
    ensure (count_where p (native_families db) =? 1)%Z NativeError_Unauthorized).

(** *** Authenticating *)

Definition referenced self now (reference : NativeSessionRef) : NativeM FamilySecret :=
  let id := ref_family reference in
  transaction_with (
    let! r := family id in
    fenced_or_commit now id r (
      ensure (bool_decide (f_access_hash r = ref_access_hash reference)
              && bool_decide (f_generation r = Some (ref_generation reference))
              && bool_decide (f_epoch r = Some (ref_epoch reference))) NativeError_Unauthorized;;;
      let! expires := st_lift (number (f_expires_at r)) in
      ensure (negb (expires <=? now)%N) NativeError_Unauthorized;;;
      let! secret := st_lift (family_secret self id r) in
      st_ret (Ok secret))).

(** [recheck] is two transactions with the call of the provider between them, and a
    token's family is found by a statement of its own before. Each is a definition, so that
    they can run on the databases of different moments; [recheck] and [authenticate_ref]
    are the runs that nothing disturbs, with the looks at times [now] and [now']. *)
Definition recheck_first self auth now (reference : NativeSessionRef) : NativeM AuthenticatedPrincipal :=
  let! secret := referenced self now reference in
  let! principal := st_lift (map_err auth_error
                       (auth_authenticate_session auth (Some (family_cookies secret)))) in
  ensure (bool_decide (uuid_display (UserId_as_uuid (User_id (principal_user principal)))
                       = grant_user_id (family_grant secret))) NativeError_Unauthorized;;;
  st_ret principal.
Definition recheck_second self now (reference : NativeSessionRef) : NativeM unit :=
  let! _ := referenced self now reference in st_ret tt.
Definition recheck self auth now now' (reference : NativeSessionRef)
    : NativeM AuthenticatedPrincipal :=
  let! principal := recheck_first self auth now reference in
  recheck_second self now' reference;;;
  st_ret principal.

Definition token_reference (token : str) : NativeM NativeSessionRef :=
  ensure (token_of (lit "sproyt-access.") token) NativeError_Unauthorized;;;
  let! db := get in
  let! row := st_lift (ok_or (fetch_where (λ _ r, bool_decide (f_access_hash r = hash token))
                                (native_families db)) NativeError_Unauthorized) in
  let! g := st_lift (number (f_generation row.2)) in
  let! e := st_lift (number (f_epoch row.2)) in
  st_ret (mk_NativeSessionRef row.1 (hash token) g e).
Definition authenticate_ref self auth now now' (token : str)
    : NativeM (AuthenticatedPrincipal * NativeSessionRef) :=
  let! reference := token_reference token in
  let! principal := recheck self auth now now' reference in
  st_ret (principal, reference).
Definition authenticate self auth now now' (token : str) : NativeM AuthenticatedPrincipal :=
  let! pr := authenticate_ref self auth now now' token in st_ret pr.1.
Definition session self auth now now' (token : str) : NativeM SessionInfo :=
  let! pr := authenticate_ref self auth now now' token in
  st_ret (mk_SessionInfo (uuid_display (UserId_as_uuid (User_id (principal_user pr.1))))
    (ref_family pr.2) (ref_generation pr.2) (ref_epoch pr.2)
    (DisplayName_as_str (User_display_name (principal_user pr.1)))).

(** *** Refreshing *)

Definition require_reauthentication (id lease : str) : NativeM unit :=
  transaction (let! _ := exec_family id (leased lease) to_reauth in st_ret tt).

(** A claimed refresh: the family, the secret it had, the lease and the request. *)
Record RefreshJob : Type := mk_RefreshJob {
  job_family : str; job_user : str; job_secret : FamilySecret; job_lease : str;
  job_old_hash : str; job_input : RefreshRequest }.
Inductive RefreshStart : Type :=
  | Refresh_replayed (g : Grant) | Refresh_claimed (job : RefreshJob).

Definition refresh_claim self now (fresh_lease : Res NativeError str) (token : str)
    (input : RefreshRequest) : NativeM RefreshStart :=
  ensure (token_of (lit "sproyt-refresh.") token && operation (refresh_operation_id input)
          && negb (refresh_generation input =? u64_max)%N) NativeError_Unauthorized;;;
  let old_hash := hash token in
  let op := refresh_operation_id input in
  let generation := refresh_generation input in
  transaction_with (
    let! db := get in
    match native_refresh_receipts db !! (old_hash, op, generation) with
    | Some row =>
        let! r := family (r_family row) in
        fenced_or_commit now (r_family row) r (
          let! until := st_lift (number (r_expires_at row)) in
          ensure (negb (until <=? now)%N) NativeError_Unauthorized;;;
          let! g := st_lift (open (native_codec self) (refresh_purpose old_hash op generation)
                               (r_result row)) in
          st_ret (Ok (Refresh_replayed g)))
    | None =>
        let! found := st_lift (ok_or (fetch_where (λ _ r, bool_decide (f_refresh_hash r = old_hash))
                                        (native_families db)) NativeError_Unauthorized) in
        let (id, r) := found : str * Family in
        fenced_or_commit now id r (
          let! g := st_lift (number (f_generation r)) in
          ensure (g =? generation)%N NativeError_Unauthorized;;;
          ensure (negb (bool_decide (f_phase r = Family_refreshing))) NativeError_Unavailable;;;
          let! secret := st_lift (family_secret self id r) in
          let! lease := st_lift fresh_lease in
          let! done := exec_family id
            (λ r, bool_decide (f_phase r = Family_active) && bool_decide (f_refresh_hash r = old_hash)
                  && bool_decide (f_generation r = Some generation))
            (λ r, r <| f_phase := Family_refreshing |> <| f_lease_id := lease |>
                    <| f_lease_expires := Some (now + 30)%N |>) in
          ensure done NativeError_Unavailable;;;
          st_ret (Ok (Refresh_claimed (mk_RefreshJob id (f_user_id r) secret lease old_hash input))))
    end).

Definition refreshed_grant now (g : Grant) (fresh_access fresh_refresh : str)
    (provider_expires : N) (principal : AuthenticatedPrincipal) : Grant :=
  g <| grant_generation := (grant_generation g + 1)%N |>
    <| access_token := lit "sproyt-access." ++ fresh_access |>
    <| refresh_token := lit "sproyt-refresh." ++ fresh_refresh |>
    <| grant_expires_at := N.min (now + 300) provider_expires |>
    <| grant_display_name := DisplayName_as_str (User_display_name (principal_user principal)) |>.

(** The last transaction of a refresh. *)
Definition store_refresh now (job : RefreshJob) (g : Grant) (sealed receipt : str)
    : NativeM Grant :=
  let id := job_family job in
  transaction_with (
    let! current := family id in
    fenced_or_commit now id current (
      ensure (bool_decide (f_lease_id current = job_lease job)
              && bool_decide (f_phase current = Family_refreshing)) NativeError_Unauthorized;;;
      let! done := exec_family_unique id (leased (job_lease job))
        (λ r, r <| f_phase := Family_active |> <| f_generation := Some (grant_generation g) |>
                <| f_access_hash := hash (access_token g) |>
                <| f_refresh_hash := hash (refresh_token g) |>
                <| f_expires_at := Some (grant_expires_at g) |> <| f_secret := sealed |>
                <| f_lease_id := [] |> <| f_lease_expires := Some 0%N |>) in
      ensure done NativeError_Unauthorized;;;
      insert_receipt (job_old_hash job, refresh_operation_id (job_input job),
                      refresh_generation (job_input job))
        (mk_Receipt id (Some (now + 60)%N) receipt);;;
      st_ret (Ok g))).

Definition refresh_finish self auth now (fresh_access fresh_refresh : Res NativeError str)
    (nonce_family nonce_receipt : bytes) (job : RefreshJob) : NativeM Grant :=
  let id := job_family job in
  match auth_renew_native_session auth (Some (family_cookies (job_secret job))) with
  | Err error => require_reauthentication id (job_lease job);;; throw (auth_error error)
  | Panic => panic
  | Ok renewal =>
      let! session := st_lift (cookie_pair (renewal_set_cookie renewal) SESSION_COOKIE) in
      let! refresh := st_lift (cookie_pair (renewal_set_refresh_cookie renewal) REFRESH_COOKIE) in
      let cookies := session ++ lit "; " ++ refresh in
      let! principal := st_lift (map_err auth_error (auth_authenticate_session auth (Some cookies))) in
      if bool_decide (uuid_display (UserId_as_uuid (User_id (principal_user principal)))
                      ≠ job_user job)
      then require_reauthentication id (job_lease job);;; throw NativeError_Unauthorized
      else
        let! acc := st_lift fresh_access in
        let! ref := st_lift fresh_refresh in
        let! expires := st_lift (map_err auth_error (auth_native_session_expires_at auth cookies)) in
        let g := refreshed_grant now (family_grant (job_secret job)) acc ref expires principal in
        let! sealed := st_lift (seal (native_codec self) nonce_family (family_purpose id)
                                  (mk_FamilySecret cookies g)) in
        let! receipt := st_lift (seal (native_codec self) nonce_receipt
          (refresh_purpose (job_old_hash job) (refresh_operation_id (job_input job))
             (refresh_generation (job_input job))) g) in
        store_refresh now job g sealed receipt
  end.
Definition refresh self auth now now' (fresh_lease fresh_access fresh_refresh : Res NativeError str)
    (nonce_family nonce_receipt : bytes) (token : str) (input : RefreshRequest) : NativeM Grant :=
  let! start := refresh_claim self now fresh_lease token input in
  match start with
  | Refresh_replayed g => st_ret g
  | Refresh_claimed job =>
      refresh_finish self auth now' fresh_access fresh_refresh nonce_family nonce_receipt job
  end.
End operations.
