(* ===== verification/NativeWrites.v ===== *)
(** * NativeWrites: what each native session method writes

    A method that neither issues nor refreshes a grant leaves the tables alone or makes
    one of the writes of [native_write]; [exchange_cases], [refresh_claim_cases] and
    [refresh_finish_cases] say what the others do. The lemmas follow each method
    through its transactions. *)

From Stdlib Require Import ZifyBool.
From stdpp Require Import base tactics numbers strings countable gmap list.
From S2P Require Import Prelude RustStr Text Ids Models Sql Attachments NativeCodec NativeSessions.

(** ** Reading *)

Definition current_epoch (db : NativeDb) (user : str) : Res NativeError (N * N) :=
  match native_epochs db !! user with
  | Some row => let? e := number (e_epoch row) in let? c := number (e_changed_at row) in Ok (e, c)
  | None => Ok (0, 0)%N
  end.
Lemma epoch_eq user db : epoch user db = (current_epoch db user, db).
Proof.
  unfold epoch, current_epoch, number. st_compute. destruct (native_epochs db !! user) as [[e c]|];
    [|done]. by destruct e, c.
Qed.

Lemma set_attempts_id db : db <| native_attempts := native_attempts db |> = db.
Proof. by destruct db. Qed.

Lemma exec_attempt_inv id p f db b db' :
  exec_attempt id p f db = (b, db') →
  (b = Ok false ∧ db' = db)
  ∨ ∃ a, b = Ok true ∧ native_attempts db !! id = Some a ∧ p a = true
         ∧ db' = db <| native_attempts := <[id := f a]> (native_attempts db) |>.
Proof.
  unfold exec_attempt. st_compute. destruct (native_attempts db !! id) as [a|] eqn:Ha;
    [|intros [= <- <-]; by left].
  destruct (p a) eqn:Hp; intros [= <- <-]; [right; by eauto|by left].
Qed.
Lemma exec_family_inv id p f db b db' :
  exec_family id p f db = (b, db') →
  (b = Ok false ∧ db' = db)
  ∨ ∃ r, b = Ok true ∧ native_families db !! id = Some r ∧ p r = true
         ∧ db' = db <| native_families := <[id := f r]> (native_families db) |>.
Proof.
  unfold exec_family. st_compute. destruct (native_families db !! id) as [r|] eqn:Hr;
    [|intros [= <- <-]; by left].
  destruct (p r) eqn:Hp; intros [= <- <-]; [right; by eauto|by left].
Qed.
Lemma exec_attempt_Ok id p f db db' :
  exec_attempt id p f db = (Ok true, db') →
  ∃ a, native_attempts db !! id = Some a ∧ p a = true
       ∧ db' = db <| native_attempts := <[id := f a]> (native_attempts db) |>.
Proof. intros [[? _]|(a & _ & ?)]%exec_attempt_inv; [done|]. eauto. Qed.
Lemma exec_family_Ok id p f db db' :
  exec_family id p f db = (Ok true, db') →
  ∃ r, native_families db !! id = Some r ∧ p r = true
       ∧ db' = db <| native_families := <[id := f r]> (native_families db) |>.
Proof. intros [[? _]|(r & _ & ?)]%exec_family_inv; [done|]. eauto. Qed.

Lemma locked_attempt_Ok id db a db' :
  locked_attempt id db = (Ok a, db') → db' = db ∧ native_attempts db !! id = Some a.
Proof.
  unfold locked_attempt, attempt. intros Hr.
  apply st_bind_Ok in Hr as ([] & s & Hx & Hr); [|apply st_bind_Ok in Hr as ([] & ? & [? _]%ensure_Ok & _); done].
  apply exec_attempt_Ok in Hx as (a0 & Ha & _ & ->).
  rewrite insert_id, set_attempts_id in Hr by done. ok_inv Hr. done.
Qed.
Lemma family_Ok id db r db' :
  family id db = (Ok r, db') → db' = db ∧ native_families db !! id = Some r.
Proof. unfold family. intros Hr. by ok_inv Hr. Qed.
Lemma epoch_Ok user db e db' :
  epoch user db = (Ok e, db') → db' = db ∧ current_epoch db user = Ok e.
Proof. rewrite epoch_eq. by intros [= -> ->]. Qed.
Lemma number_Ok (o : option N) (db db' : NativeDb) n :
  st_lift (number o) db = (Ok n, db') → db' = db ∧ o = Some n.
Proof. unfold number. intros Hr. by ok_inv Hr. Qed.

Lemma insert_family_Ok id r db u db' :
  insert_family id r db = (Ok u, db') →
  native_families db !! id = None ∧ family_clash id r db = false
  ∧ db' = db <| native_families := <[id := r]> (native_families db) |>.
Proof. unfold insert_family. intros Hr. ok_inv Hr. by bool_facts. Qed.
Lemma insert_receipt_Ok key r db u db' :
  insert_receipt key r db = (Ok u, db') →
  native_refresh_receipts db !! key = None
  ∧ db' = db <| native_refresh_receipts := <[key := r]> (native_refresh_receipts db) |>.
Proof. unfold insert_receipt. intros Hr. ok_inv Hr. by bool_facts. Qed.

(** [nat_inv H] follows a successful native method through its reads and guards. *)
Ltac nat_inv H :=
  cbv zeta in H;
  lazymatch type of H with
  | transaction _ _ = (Ok _, _) => rewrite transaction_Ok in H; nat_inv H
  | st_bind _ _ _ = (Ok _, _) =>
      let a := fresh "x" in let s := fresh "s" in let H1 := fresh "H" in
      apply st_bind_Ok in H; destruct H as (a & s & H1 & H); nat_inv H1; cbv beta in H; nat_inv H
  | locked_attempt _ _ = (Ok _, _) =>
      let E := fresh in apply locked_attempt_Ok in H; destruct H as [E H]; subst
  | family _ _ = (Ok _, _) =>
      let E := fresh in apply family_Ok in H; destruct H as [E H]; subst
  | epoch _ _ = (Ok _, _) =>
      let E := fresh in apply epoch_Ok in H; destruct H as [E H]; subst
  | insert_family _ _ _ = (Ok _, _) =>
      let H1 := fresh in let H2 := fresh in
      apply insert_family_Ok in H; destruct H as (H1 & H2 & H); subst
  | insert_receipt _ _ _ = (Ok _, _) =>
      let H1 := fresh in apply insert_receipt_Ok in H; destruct H as (H1 & H); subst
  | st_lift (number _) _ = (Ok _, _) =>
      let E := fresh in apply number_Ok in H; destruct H as [E H]; subst
  | (match ?x with _ => _ end) _ = (Ok _, _) =>
      let E := fresh "E" in destruct x eqn:E; nat_inv H
  | _ => ok_inv H
  end.

(** ** The fence *)

(** A family can be used at time [now]. *)
Definition live_at (now : N) (db : NativeDb) (r : Family) : Prop :=
  live_phase (f_phase r) = true
  ∧ (∃ e c, current_epoch db (f_user_id r) = Ok (e, c) ∧ f_epoch r = Some e)
  ∧ (f_phase r = Family_refreshing → ∃ until, f_lease_expires r = Some until ∧ (now < until)%N).

Definition reauth_write (id : str) (r : Family) (db : NativeDb) : NativeDb :=
  db <| native_families := <[id := to_reauth r]> (native_families db) |>.

Lemma exec_family_eq id p f db r :
  native_families db !! id = Some r → p r = true →
  exec_family id p f db = (Ok true, db <| native_families := <[id := f r]> (native_families db) |>).
Proof. intros Hr Hp. unfold exec_family. st_compute. by rewrite Hr, Hp. Qed.
Lemma exec_family_none id p f db :
  native_families db !! id = None → exec_family id p f db = (Ok false, db).
Proof. intros Hr. unfold exec_family. st_compute. by rewrite Hr. Qed.
Lemma exec_attempt_eq id p f db a :
  native_attempts db !! id = Some a → p a = true →
  exec_attempt id p f db
  = (Ok true, db <| native_attempts := <[id := f a]> (native_attempts db) |>).
Proof. intros Ha Hp. unfold exec_attempt. st_compute. by rewrite Ha, Hp. Qed.
Lemma current_epoch_no_panic db user : current_epoch db user ≠ Panic.
Proof. unfold current_epoch, number. by destruct (native_epochs db !! user) as [[[] []]|]. Qed.

Lemma fence_cases now id r db res db' :
  native_families db !! id = Some r → fence now id r db = (res, db') →
  (res = Ok tt ∧ db' = db ∧ live_at now db r)
  ∨ (∃ e, res = Err e) ∧ ¬ live_at now db r
    ∧ (db' = db ∨ f_phase r = Family_refreshing ∧ db' = reauth_write id r db).
Proof.
  intros Hid Hf. unfold fence in Hf. cbv [st_bind ensure] in Hf.
  assert (∀ e, ¬ live_at now db r → (Err e, db) = (res, db') →
    (∃ e, res = Err e) ∧ ¬ live_at now db r
    ∧ (db' = db ∨ f_phase r = Family_refreshing ∧ db' = reauth_write id r db)) as Hbad
    by (intros e Hno [= <- <-]; eauto).
  destruct (live_phase (f_phase r)) eqn:Hp;
    [|right; eapply Hbad; [|exact Hf]; intros [? _]; congruence].
  rewrite epoch_eq in Hf. destruct (current_epoch db (f_user_id r)) as [[e c]|e|] eqn:He;
    [|right; eapply Hbad; [|exact Hf]; intros (_ & (? & ? & ? & _) & _); congruence
     |by destruct (current_epoch_no_panic _ _ He)].
  unfold number in Hf. destruct (f_epoch r) as [fe|] eqn:Hfe; cbn [st_lift ok_or fst] in Hf;
    [|right; eapply Hbad; [|exact Hf]; intros (_ & (? & ? & _ & ?) & _); congruence].
  destruct (N.eqb_spec e fe) as [<-|Hne];
    [|right; eapply Hbad; [|exact Hf]; intros (_ & (? & ? & ? & ?) & _); congruence].
  destruct (bool_decide (f_phase r = Family_refreshing)) eqn:Hr; bool_facts;
    [|injection Hf as <- <-; left; split_and!; [done..|split_and!; [done|by eauto|congruence]]].
  destruct (f_lease_expires r) as [until|] eqn:Hu; cbn [st_lift ok_or] in Hf;
    [|right; eapply Hbad; [|exact Hf]; intros (_ & _ & Hl); destruct (Hl Hr) as (? & ? & _); congruence].
  destruct (N.leb_spec until now) as [Hle|Hlt].
  - rewrite (exec_family_eq _ _ _ _ r) in Hf; [|done|unfold leased; by rewrite !bool_decide_true].
    injection Hf as <- <-. right. split_and!; [by eauto| |by right].
    intros (_ & _ & Hl). destruct (Hl Hr) as (? & ? & ?). simplify_eq. lia.
  - injection Hf as <- <-. left. split_and!; [done..|]. split_and!; [done|by eauto|eauto].
Qed.

(** [db'] is [db], or [db] with a lapsed refresh fenced off. *)
Definition fenced_off (db db' : NativeDb) : Prop :=
  db' = db ∨ ∃ id r, native_families db !! id = Some r ∧ f_phase r = Family_refreshing
                     ∧ db' = reauth_write id r db.

Lemma fenced_or_commit_inv {A} now id r (k : NativeM (Res NativeError A)) db res db' :
  native_families db !! id = Some r → fenced_or_commit now id r k db = (Ok res, db') →
  (live_at now db r ∧ k db = (Ok res, db')) ∨ (∃ e, res = Err e) ∧ ¬ live_at now db r ∧ fenced_off db db'.
Proof.
  intros Hid. unfold fenced_or_commit. destruct (fence now id r db) as [fr db0] eqn:Hf.
  apply (fence_cases _ _ _ _ _ _ Hid) in Hf as [(-> & -> & Hl)|((e & ->) & Hno & Hdb)].
  - by left.
  - intros [= <- <-]. right. split_and!; [by eauto|done|].
    destruct Hdb as [->|[Hr ->]]; [by left|right; by eauto].
Qed.

(** ** Writes *)

(** The columns of an attempt that never change. *)
Definition same_login (a a' : Attempt) : Prop :=
  a_state_hash a' = a_state_hash a ∧ a_challenge a' = a_challenge a
  ∧ a_expected_user_id a' = a_expected_user_id a ∧ a_start_epoch a' = a_start_epoch a
  ∧ a_created_at a' = a_created_at a ∧ a_expires_at a' = a_expires_at a.
Definition next_phase (p p' : AttemptPhase) : Prop :=
  match p, p' with
  | Attempt_new, Attempt_authorizing | Attempt_authorizing, Attempt_verifying
  | Attempt_verifying, Attempt_failed | Attempt_verifying, Attempt_confirm
  | Attempt_confirm, Attempt_ready => True
  | _, _ => False
  end.
(** The user an attempt is for is set once, when the provider has verified it. *)
Definition sets_user (a a' : Attempt) : Prop :=
  a_phase a' = Attempt_confirm ∧ (a_expected_user_id a = [] ∨ a_user_id a' = a_expected_user_id a)
  ∨ a_phase a' ≠ Attempt_confirm ∧ a_user_id a' = a_user_id a ∧ a_epoch a' = a_epoch a.

Definition cancel_family (id : str) (fams : gmap str Family) : gmap str Family :=
  if bool_decide (id ≠ []) then
    match fams !! id with Some r => <[id := to_revoked r]> fams | None => fams end
  else fams.

Inductive native_write (db : NativeDb) : NativeDb → Prop :=
  | write_other db' :
      native_attempts db' = native_attempts db → native_families db' = native_families db →
      native_refresh_receipts db' = native_refresh_receipts db → native_write db db'
  | write_attempt_new id a :
      native_attempts db !! id = None → a_phase a = Attempt_new → a_family a = [] →
      native_write db (db <| native_attempts := <[id := a]> (native_attempts db) |>)
  | write_attempt id a a' :
      native_attempts db !! id = Some a → next_phase (a_phase a) (a_phase a') → same_login a a' →
      a_family a' = a_family a → sets_user a a' →
      native_write db (db <| native_attempts := <[id := a']> (native_attempts db) |>)
  | write_cancel id a a' :
      native_attempts db !! id = Some a → a_phase a' = Attempt_cancelled → same_login a a' →
      a_user_id a' = a_user_id a → a_family a' = a_family a →
      native_write db (db <| native_attempts := <[id := a']> (native_attempts db) |>
                          <| native_families := cancel_family (a_family a) (native_families db) |>)
  | write_revoke p :
      native_write db (db <| native_families := update_where p to_revoked (native_families db) |>)
  | write_reauth id r :
      native_families db !! id = Some r → f_phase r = Family_refreshing →
      native_write db (reauth_write id r db).

Lemma write_same db : native_write db db.
Proof. by apply write_other. Qed.
Lemma write_fenced_off db db' : fenced_off db db' → native_write db db'.
Proof.
  intros [->|(id & r & ? & ? & ->)]; [apply write_same|by apply write_reauth].
Qed.
#[export] Hint Resolve write_same write_fenced_off : sproyt.

(** A method outside the token refresh makes one write at most. *)
Definition writes_at {A} (db : NativeDb) (m : NativeM A) : Prop := native_write db (m db).2.

Lemma writes_transaction {A} db (m : NativeM A) :
  (∀ a db', m db = (Ok a, db') → native_write db db') → writes_at db (transaction m).
Proof.
  intros Hm. unfold writes_at. destruct (transaction m db) as [r db'] eqn:E. simpl.
  apply transaction_inv in E as [(a & _ & E)|[-> _]]; [by eapply Hm|apply write_same].
Qed.
Lemma writes_transaction_with {A} db (m : NativeM (Res NativeError A)) :
  (∀ r db', m db = (Ok r, db') → native_write db db') → writes_at db (transaction_with m).
Proof.
  intros Hm. unfold writes_at. destruct (transaction_with m db) as [r db'] eqn:E. simpl.
  apply transaction_with_inv in E as [E|[-> _]]; [by eapply Hm|apply write_same].
Qed.
Lemma writes_ensure {A} db b e (k : unit → NativeM A) :
  writes_at db (k tt) → writes_at db (st_bind (ensure b e) k).
Proof. intros Hk. unfold writes_at, st_bind, ensure. destruct b; [apply Hk|apply write_same]. Qed.
Lemma writes_get {A} db (k : NativeDb → NativeM A) :
  writes_at db (k db) → writes_at db (st_bind get k).
Proof. intros Hk. apply Hk. Qed.
Lemma writes_lift {A B} db (r : Res NativeError A) (k : A → NativeM B) :
  (∀ a, r = Ok a → writes_at db (k a)) → writes_at db (st_bind (st_lift r) k).
Proof.
  intros Hk. unfold writes_at, st_bind, st_lift. destruct r; [by apply Hk|apply write_same..].
Qed.
(** What follows the transaction writes nothing. *)
Lemma writes_then {A B} db (m : NativeM A) (k : A → NativeM B) :
  writes_at db m → (∀ a s, (k a s).2 = s) → writes_at db (st_bind m k).
Proof.
  unfold writes_at. intros Hm Hk. unfold st_bind.
  destruct (m db) as [[a|e|] db']; simpl in *; [by rewrite Hk|done..].
Qed.

Section operations.
Context `{NativeLib, UuidLib, Serde AttemptSecret, Serde FamilySecret, Serde ExchangeResult,
  Serde Grant}.
Implicit Types (self : NativeSessions) (auth : AuthService) (now : N).

(** [random] returns 32 random bytes in base64, which pass [proof]. *)
Definition random_ok (fresh : Res NativeError str) : Prop := ∀ s, fresh = Ok s → proof s = true.
Lemma random_nonempty fresh s : random_ok fresh → fresh = Ok s → s ≠ [].
Proof. intros Hr Hs ->. by specialize (Hr [] Hs). Qed.

Lemma NativeSessions_new_writes origin issuer key previous db :
  writes_at db (NativeSessions_new origin issuer key previous).
Proof.
  apply writes_lift. intros c _. apply writes_then; [|done]. apply writes_transaction.
  intros a db' Hr. nat_inv Hr. by apply write_other.
Qed.

Lemma login_writes self auth qp fresh_id fresh_cookie nonce now input db :
  writes_at db (login self auth qp fresh_id fresh_cookie nonce now input).
Proof.
  apply writes_ensure. do 3 (apply writes_lift; intros ? _). cbv zeta.
  do 4 (apply writes_lift; intros ? _). apply writes_then; [|done]. apply writes_transaction.
  intros u db' Hr. unfold insert_attempt in Hr. nat_inv Hr. bool_facts.
  match goal with Hx : exec_attempt _ _ _ _ = _ |- _ => apply exec_attempt_inv in Hx as
    [[_ ->]|(row & _ & Hrow & _ & ->)] end; [by apply write_attempt_new|].
  simpl in Hrow. rewrite lookup_insert_eq in Hrow. simplify_eq.
  unfold set, Setter. simpl. rewrite insert_insert_eq.
  by apply write_attempt_new.
Qed.

(** The row an attempt update writes, when it wrote one. *)
Ltac attempt_written :=
  match goal with
  | Hx : exec_attempt _ _ _ _ = (Ok true, _) |- _ =>
      apply exec_attempt_Ok in Hx; destruct Hx as (? & ? & ? & ->); simplify_eq; bool_facts
  end.

Ltac by_phase :=
  simpl; repeat match goal with E : a_phase ?a = _ |- context [a_phase ?a] => rewrite E end; done.

Lemma browser_writes self now id db : writes_at db (browser self now id).
Proof.
  apply writes_ensure, writes_transaction. intros r db' Hr. nat_inv Hr. bool_facts.
  attempt_written. eapply write_attempt; [done|by_phase|done..|by right].
Qed.

Lemma callback_claim_writes self now code st header db :
  writes_at db (callback_claim self now code st header).
Proof.
  apply writes_ensure, writes_get, writes_lift. intros found _. cbv zeta.
  apply writes_transaction. intros r db' Hr. nat_inv Hr. bool_facts.
  attempt_written. eapply write_attempt; [done|by_phase|done..|by right].
Qed.
(** A claimed callback has read the attempt it claimed. *)
Lemma callback_claim_Ok self now code st header db job db' :
  callback_claim self now code st header db = (Ok job, db') →
  native_attempts db !! callback_id job = Some (callback_attempt job)
  ∧ a_phase (callback_attempt job) = Attempt_authorizing
  ∧ db' = db <| native_attempts := <[callback_id job :=
             (callback_attempt job) <| a_phase := Attempt_verifying |>]> (native_attempts db) |>.
Proof.
  intros Hr. unfold callback_claim in Hr. nat_inv Hr. bool_facts. by attempt_written.
Qed.

(** The callback knows whom the attempt expects. *)
Definition callback_reads (db : NativeDb) (job : CallbackJob) : Prop :=
  ∃ a, native_attempts db !! callback_id job = Some a ∧ same_login (callback_attempt job) a.

Lemma verified_secret_user auth fresh job login secret :
  verified_secret auth fresh job login = Ok secret →
  a_expected_user_id (callback_attempt job) = []
  ∨ uuid_display (UserId_as_uuid (User_id (principal_user (complete_principal login))))
    = a_expected_user_id (callback_attempt job).
Proof.
  unfold verified_secret. destruct (_ || _) eqn:E; [done|]. intros _. bool_facts.
  apply andb_false_iff in H5 as [?|?]; bool_facts; [by left|right; congruence].
Qed.

Lemma callback_finish_writes self auth fresh nonce code st job db :
  callback_reads db job → writes_at db (callback_finish self auth fresh nonce code st job).
Proof.
  intros (a & Ha & Hlogin). unfold callback_finish. cbv zeta.
  destruct (auth_callback _ _ _ _) as [login|e|]; [| |apply write_same].
  - apply writes_lift. intros secret Hs%verified_secret_user. apply writes_then;
      [|intros; unfold st_bind, st_lift; by destruct (ok_or _ _)].
    destruct Hlogin as (_ & _ & Hexp & _). rewrite <- Hexp in Hs.
    apply writes_transaction. intros u db' Hr. nat_inv Hr; bool_facts; attempt_written;
      (eapply write_attempt; [done|by_phase|done..|by left]).
  - apply writes_then; [|done]. apply writes_transaction. intros u db' Hr. nat_inv Hr.
    match goal with Hx : exec_attempt _ _ _ _ = _ |- _ => apply exec_attempt_inv in Hx as
      [[_ ->]|(row & _ & Hrow & ? & ->)] end; [apply write_same|]. bool_facts.
    eapply write_attempt; [done|by_phase|done..|by right].
Qed.

Lemma confirm_writes self now fresh nonce id confirm_nonce header db :
  writes_at db (confirm self now fresh nonce id confirm_nonce header).
Proof.
  apply writes_ensure, writes_transaction. intros r db' Hr. nat_inv Hr; bool_facts;
    [attempt_written|apply write_same].
  eapply write_attempt; [done|by_phase|done..|by right].
Qed.

(** *** Exchange *)

(** A ready attempt is redeemed. *)
Definition redeemed (input : ExchangeRequest) now (fam receipt : str) (a : Attempt) : Attempt :=
  a <| a_phase := Attempt_redeemed |> <| a_redemption_id := exchange_redemption_id input |>
    <| a_receipt_expires := Some (now + 60)%N |> <| a_family := fam |>
    <| a_secret := [] |> <| a_receipt := receipt |>.
Definition grant_result (g : Grant) : ExchangeResult :=
  mk_ExchangeResult (grant_user_id g) g (grant_display_name g).
Definition first_exchange self now (ff fa fr fv : Res NativeError str) n1 n2
    (input : ExchangeRequest) db (r : Res NativeError ExchangeResult) db' : Prop :=
  ∃ a e secret fam acc ref rev sealed receipt,
    let id := exchange_transaction_id input in
    let g := new_grant self now a e secret fam acc ref rev in
    native_attempts db !! id = Some a ∧ a_phase a = Attempt_ready
    ∧ hash (exchange_verifier input) = a_challenge a ∧ hash (exchange_code input) = a_code_hash a
    ∧ a_epoch a = Some e ∧ (∃ c, current_epoch db (a_user_id a) = Ok (e, c))
    ∧ open (native_codec self) (attempt_purpose id) (a_secret a) = Ok secret
    ∧ ff = Ok fam ∧ fa = Ok acc ∧ fr = Ok ref ∧ fv = Ok rev
    ∧ (now < grant_expires_at g)%N
    ∧ seal (native_codec self) n1 (family_purpose fam) (mk_FamilySecret (provider_cookies secret) g)
      = Ok sealed
    ∧ seal (native_codec self) n2 (handoff_purpose id) (grant_result g) = Ok receipt
    ∧ native_families db !! fam = None ∧ family_clash fam (family_row g sealed) db = false
    ∧ r = Ok (grant_result g)
    ∧ db' = db <| native_attempts := <[id := redeemed input now fam receipt a]> (native_attempts db) |>
               <| native_families := <[fam := family_row g sealed]> (native_families db) |>.
Definition repeated_exchange self now (input : ExchangeRequest) db
    (r : Res NativeError ExchangeResult) db' : Prop :=
  ∃ a until row result,
    let id := exchange_transaction_id input in
    native_attempts db !! id = Some a ∧ a_phase a = Attempt_redeemed
    ∧ hash (exchange_verifier input) = a_challenge a ∧ hash (exchange_code input) = a_code_hash a
    ∧ a_redemption_id a = exchange_redemption_id input
    ∧ a_receipt_expires a = Some until ∧ (now < until)%N
    ∧ native_families db !! a_family a = Some row ∧ live_at now db row
    ∧ open (native_codec self) (handoff_purpose id) (a_receipt a) = Ok result
    ∧ r = Ok result ∧ db' = db.

Lemma exchange_cases self now ff fa fr fv n1 n2 input db r db' :
  exchange self now ff fa fr fv n1 n2 input db = (r, db') →
  first_exchange self now ff fa fr fv n1 n2 input db r db'
  ∨ repeated_exchange self now input db r db'
  ∨ (∀ x, r ≠ Ok x) ∧ fenced_off db db'.
Proof.
  unfold exchange. intros [[_ Hr]|[-> ->]]%ensure_then_inv; [|right; right; split; [done|by left]].
  cbv zeta in Hr. apply transaction_with_inv in Hr as [Hr|[-> Hne]];
    [|right; right; split; [done|by left]].
  nat_inv Hr; bool_facts.
  - match goal with Hx : fenced_or_commit _ _ _ _ _ = _, Hf : native_families _ !! _ = _ |- _ =>
      apply (fenced_or_commit_inv _ _ _ _ _ _ _ Hf) in Hx as [[Hl Hx]|((e & ->) & _ & Hx)];
      [nat_inv Hx|by right; right] end.
    right; left. do 4 eexists. split_and!; first [eassumption|lia|reflexivity].
  - attempt_written. left. do 9 eexists. cbv zeta. split_and!; try first [eassumption|reflexivity|lia].
    match goal with He : current_epoch _ _ = Ok ?e |- _ =>
      exists e.2; rewrite He; destruct e; simpl in *; by repeat f_equal; lia end.
Qed.
(** *** Ending sessions *)

Lemma cancel_login_Ok input db u db' :
  cancel_login input db = (Ok u, db') →
  ∃ a a', native_attempts db !! cancel_transaction_id input = Some a
    ∧ a' = a <| a_phase := Attempt_cancelled |> <| a_secret := [] |>
    ∧ db' = db <| native_attempts := <[cancel_transaction_id input := a']> (native_attempts db) |>
               <| native_families := cancel_family (a_family a) (native_families db) |>.
Proof.
  unfold cancel_login. intros Hr. nat_inv Hr; bool_facts.
  all: match goal with Hx : exec_attempt _ _ _ _ = _, Ha : native_attempts _ !! _ = Some ?a |- _ =>
    rewrite (exec_attempt_eq _ _ _ _ a) in Hx by done; exists a; injection Hx as <- <- end.
  all: eexists; split_and!; [done..|]; unfold cancel_family.
  - rewrite bool_decide_true by done.
    match goal with Hx : exec_family ?fam _ _ ?db1 = _ |- _ =>
      change (native_families db !! fam) with (native_families db1 !! fam);
      destruct (native_families db1 !! fam) as [row|] eqn:Hrow;
      [rewrite (exec_family_eq _ _ _ _ row Hrow) in Hx by done|rewrite exec_family_none in Hx by done];
      injection Hx as <- <- end; [done|by destruct db].
  - rewrite bool_decide_false by naive_solver. by destruct db.
Qed.
Lemma cancel_login_writes input db : writes_at db (cancel_login input).
Proof.
  unfold writes_at. destruct (cancel_login input db) as [r db'] eqn:E. simpl.
  assert (atomic (cancel_login input)) as Hat by (unfold cancel_login; auto with sproyt).
  apply (atomic_inv _ _ _ _ Hat) in E as [(u & -> & E)|[-> _]]; [|apply write_same].
  apply cancel_login_Ok in E as (a & a' & Ha & -> & ->). by eapply write_cancel.
Qed.

Lemma revoke_writes token db : writes_at db (revoke token).
Proof.
  apply writes_ensure, writes_transaction. intros u db' Hr. nat_inv Hr. apply write_revoke.
Qed.

(** *** Authenticating *)

Lemma referenced_cases self now reference db r db' :
  referenced self now reference db = (r, db') →
  (∃ secret row until, r = Ok secret ∧ db' = db
     ∧ native_families db !! ref_family reference = Some row ∧ live_at now db row
     ∧ f_access_hash row = ref_access_hash reference
     ∧ f_generation row = Some (ref_generation reference)
     ∧ f_epoch row = Some (ref_epoch reference)
     ∧ f_expires_at row = Some until ∧ (now < until)%N
     ∧ family_secret self (ref_family reference) row = Ok secret)
  ∨ (∀ x, r ≠ Ok x) ∧ fenced_off db db'.
Proof.
  unfold referenced. cbv zeta. intros Hr.
  apply transaction_with_inv in Hr as [Hr|[-> Hne]]; [|right; split; [done|by left]].
  nat_inv Hr.
  match goal with Hx : fenced_or_commit _ _ _ _ _ = _, Hf : native_families _ !! _ = _ |- _ =>
    apply (fenced_or_commit_inv _ _ _ _ _ _ _ Hf) in Hx as [[Hl Hx]|((e & ->) & _ & Hx)];
    [nat_inv Hx|by right] end.
  bool_facts. left. do 3 eexists. split_and!; first [reflexivity|eassumption|lia].
Qed.
Lemma referenced_writes self now reference db : writes_at db (referenced self now reference).
Proof.
  unfold writes_at. destruct (referenced self now reference db) as [r db'] eqn:E. simpl.
  apply referenced_cases in E as [(? & ? & ? & _ & -> & _)|[_ Hf]]; auto with sproyt.
Qed.

(** *** Refreshing *)

Definition claimed_row (lease : str) now (r : Family) : Family :=
  r <| f_phase := Family_refreshing |> <| f_lease_id := lease |>
    <| f_lease_expires := Some (now + 30)%N |>.
Definition refresh_key (job : RefreshJob) : str * str * N :=
  (job_old_hash job, refresh_operation_id (job_input job), refresh_generation (job_input job)).
Definition claims_refresh self now (fresh_lease : Res NativeError str) (token : str)
    (input : RefreshRequest) db (job : RefreshJob) db' : Prop :=
  ∃ row, native_families db !! job_family job = Some row ∧ f_phase row = Family_active
    ∧ f_refresh_hash row = hash token ∧ f_generation row = Some (refresh_generation input)
    ∧ (refresh_generation input ≠ u64_max) ∧ live_at now db row
    ∧ family_secret self (job_family job) row = Ok (job_secret job) ∧ fresh_lease = Ok (job_lease job)
    ∧ job_user job = f_user_id row ∧ job_old_hash job = hash token ∧ job_input job = input
    ∧ native_refresh_receipts db !! refresh_key job = None
    ∧ db' = db <| native_families :=
                    <[job_family job := claimed_row (job_lease job) now row]> (native_families db) |>.
Definition repeated_refresh self now (token : str) (input : RefreshRequest) db (g : Grant) : Prop :=
  let key := (hash token, refresh_operation_id input, refresh_generation input) in
  ∃ receipt row until, native_refresh_receipts db !! key = Some receipt
    ∧ native_families db !! r_family receipt = Some row ∧ live_at now db row
    ∧ r_expires_at receipt = Some until ∧ (now < until)%N
    ∧ open (native_codec self) (refresh_purpose (hash token) (refresh_operation_id input)
        (refresh_generation input)) (r_result receipt) = Ok g.

Lemma refresh_claim_cases self now fresh_lease token input db r db' :
  refresh_claim self now fresh_lease token input db = (r, db') →
  (∃ job, r = Ok (Refresh_claimed job) ∧ claims_refresh self now fresh_lease token input db job db')
  ∨ (∃ g, r = Ok (Refresh_replayed g) ∧ repeated_refresh self now token input db g ∧ db' = db)
  ∨ (∀ x, r ≠ Ok x) ∧ fenced_off db db'.
Proof.
  unfold refresh_claim. intros [[Hg Hr]|[-> ->]]%ensure_then_inv;
    [|right; right; split; [done|by left]].
  cbv zeta in Hr. apply transaction_with_inv in Hr as [Hr|[-> Hne]];
    [|right; right; split; [done|by left]].
  apply st_bind_Ok in Hr as (db0 & s & Hget & Hr). injection Hget as <- <-.
  destruct (native_refresh_receipts db !! _) as [receipt|] eqn:Hrec; nat_inv Hr.
  - match goal with Hx : fenced_or_commit _ _ _ _ _ = _, Hf : native_families _ !! _ = _ |- _ =>
      apply (fenced_or_commit_inv _ _ _ _ _ _ _ Hf) in Hx as [[Hl Hx]|((e & ->) & _ & Hx)];
      [nat_inv Hx|by right; right] end. bool_facts.
    right; left. eexists. split_and!; [done| |done]. do 3 eexists.
    split_and!; first [eassumption|lia].
  - match goal with Hx : fetch_where _ _ = Some _ |- _ => apply fetch_where_Some in Hx as [Hf Hh] end.
    match goal with Hx : fenced_or_commit _ _ _ _ _ = _ |- _ =>
      apply (fenced_or_commit_inv _ _ _ _ _ _ _ Hf) in Hx as [[Hl Hx]|((e & ->) & _ & Hx)];
      [nat_inv Hx|by right; right] end. bool_facts.
    match goal with Hx : exec_family _ _ _ _ = _ |- _ =>
      apply exec_family_Ok in Hx as (row & Hrow & Hp & ->) end. simplify_eq. bool_facts.
    left. eexists. split; [reflexivity|]. eexists. simpl. split_and!; first [eassumption|done|lia].
Qed.

Definition stored_row (g : Grant) (sealed : str) (r : Family) : Family :=
  r <| f_phase := Family_active |> <| f_generation := Some (grant_generation g) |>
    <| f_access_hash := hash (access_token g) |> <| f_refresh_hash := hash (refresh_token g) |>
    <| f_expires_at := Some (grant_expires_at g) |> <| f_secret := sealed |>
    <| f_lease_id := [] |> <| f_lease_expires := Some 0%N |>.
Definition stores_refresh self now (fa fr : Res NativeError str) n1 n2 db (job : RefreshJob)
    (g : Grant) db' : Prop :=
  ∃ row acc ref cookies expires principal sealed receipt,
    native_families db !! job_family job = Some row ∧ f_phase row = Family_refreshing
    ∧ f_lease_id row = job_lease job ∧ live_at now db row ∧ fa = Ok acc ∧ fr = Ok ref
    ∧ g = refreshed_grant now (family_grant (job_secret job)) acc ref expires principal
    ∧ seal (native_codec self) n1 (family_purpose (job_family job)) (mk_FamilySecret cookies g)
      = Ok sealed
    ∧ seal (native_codec self) n2 (refresh_purpose (job_old_hash job)
        (refresh_operation_id (job_input job)) (refresh_generation (job_input job))) g = Ok receipt
    ∧ native_refresh_receipts db !! refresh_key job = None
    ∧ family_clash (job_family job) (stored_row g sealed row) db = false
    ∧ db' = db <| native_families :=
                    <[job_family job := stored_row g sealed row]> (native_families db) |>
               <| native_refresh_receipts := <[refresh_key job :=
                    mk_Receipt (job_family job) (Some (now + 60)%N) receipt]>
                    (native_refresh_receipts db) |>.

Lemma require_reauthentication_off id lease db r db' :
  require_reauthentication id lease db = (r, db') → fenced_off db db'.
Proof.
  unfold require_reauthentication. intros [(u & _ & Hr)|[-> _]]%transaction_inv; [|by left].
  nat_inv Hr. match goal with Hx : exec_family _ _ _ _ = _ |- _ =>
    apply exec_family_inv in Hx as [[_ ->]|(row & _ & Hrow & Hp & ->)] end; [by left|right].
  unfold leased in Hp. bool_facts. by eauto.
Qed.

Lemma store_refresh_cases now job g sealed receipt db r db' :
  store_refresh now job g sealed receipt db = (r, db') →
  (∃ row, r = Ok g ∧ native_families db !! job_family job = Some row
     ∧ f_phase row = Family_refreshing ∧ f_lease_id row = job_lease job ∧ live_at now db row
     ∧ native_refresh_receipts db !! refresh_key job = None
     ∧ family_clash (job_family job) (stored_row g sealed row) db = false
     ∧ db' = db <| native_families :=
                     <[job_family job := stored_row g sealed row]> (native_families db) |>
                <| native_refresh_receipts := <[refresh_key job :=
                     mk_Receipt (job_family job) (Some (now + 60)%N) receipt]>
                     (native_refresh_receipts db) |>)
  ∨ (∀ x, r ≠ Ok x) ∧ fenced_off db db'.
Proof.
  unfold store_refresh. cbv zeta. intros Hr.
  apply transaction_with_inv in Hr as [Hr|[-> Hne]]; [|right; split; [done|by left]].
  nat_inv Hr.
  match goal with Hx : fenced_or_commit _ _ _ _ _ = _, Hf : native_families _ !! _ = _ |- _ =>
    apply (fenced_or_commit_inv _ _ _ _ _ _ _ Hf) in Hx as [[Hl Hx]|((e & ->) & _ & Hx)];
    [|by right]; unfold exec_family_unique in Hx; nat_inv Hx; simplify_eq end; bool_facts.
  all: match goal with Hx : exec_family _ _ _ _ = _ |- _ =>
    apply exec_family_Ok in Hx as (row & Hrow & Hp & ->) end; simplify_eq.
  left. eexists. split_and!; first [reflexivity|eassumption|idtac].
  match goal with Hc : negb _ || negb _ = true |- _ => rewrite Hp in Hc; by apply negb_true in Hc end.
Qed.

Lemma refresh_finish_cases self auth now fa fr n1 n2 job db r db' :
  refresh_finish self auth now fa fr n1 n2 job db = (r, db') →
  (∃ g, r = Ok g ∧ stores_refresh self now fa fr n1 n2 db job g db')
  ∨ (∀ x, r ≠ Ok x) ∧ fenced_off db db'.
Proof.
  unfold refresh_finish. cbv zeta.
  assert (∀ e, st_bind (require_reauthentication (job_family job) (job_lease job))
    (λ _, throw e) db = (r, db') → (∀ x : Grant, r ≠ Ok x) ∧ fenced_off db db') as Hre.
  { intros e. unfold st_bind. destruct (require_reauthentication _ _ db) as [r0 db0] eqn:E.
    apply require_reauthentication_off in E. destruct r0; by intros [= <- <-]. }
  destruct (auth_renew_native_session _ _) as [renewal|e|];
    [|intros E; right; by eapply Hre|intros [= <- <-]; right; split; [done|by left]].
  intros E.
  assert ((∀ x : Grant, r ≠ Ok x) ∧ db' = db → (∃ g, r = Ok g ∧
    stores_refresh self now fa fr n1 n2 db job g db') ∨ (∀ x, r ≠ Ok x) ∧ fenced_off db db') as Hno
    by (intros [? ->]; right; split; [done|by left]).
  do 3 (apply lift_then_inv in E as [(? & _ & E)|E]; [|by apply Hno]).
  destruct (bool_decide _); [right; by eapply Hre|].
  apply lift_then_inv in E as [(acc & -> & E)|E]; [|by apply Hno].
  apply lift_then_inv in E as [(ref & -> & E)|E]; [|by apply Hno].
  apply lift_then_inv in E as [(ex & _ & E)|E]; [|by apply Hno].
  apply lift_then_inv in E as [(sealed & Hs1 & E)|E]; [|by apply Hno].
  apply lift_then_inv in E as [(receipt & Hs2 & E)|E]; [|by apply Hno].
  apply store_refresh_cases in E as [(row & -> & Hrow & Hp & Hl & Hlive & Hnone & Hc & ->)|[? ?]];
    [|by right].
  left. eexists. split; [done|]. do 8 eexists. split_and!; done.
Qed.
End operations.
