(* ===== verification/NativeReach.v ===== *)
(** * NativeReach: native sessions over time

    The service as a step relation: methods run in any order, and the calls to the
    identity provider that [callback] and [refresh] make run between other steps, may
    fail, and may never return. The state keeps the calls under way and, to state the
    theorems, which attempts and which generations of a family were sent to the
    provider and which grants clients received. *)

From Stdlib Require Import ZifyBool.
From stdpp Require Import base tactics numbers strings countable gmap list relations.
From S2P Require Import Prelude RustStr Text Ids Models Sql Attachments NativeCodec NativeSessions NativeWrites.

(** ** Steps *)

Record NativeSys : Type := mk_NativeSys {
  ns_db : NativeDb;
  ns_callbacks : gmap N CallbackJob;
  ns_refreshes : gmap N RefreshJob;
  ns_verified : list str;
  ns_renewed : list (str * N);
  ns_granted : list Grant }.
#[export] Instance NativeSys_eta : Eta NativeSys := λ s,
  mk_NativeSys (ns_db s) (ns_callbacks s) (ns_refreshes s) (ns_verified s) (ns_renewed s)
    (ns_granted s).
Definition native_start : NativeSys := mk_NativeSys (mk_NativeDb ∅ ∅ ∅ ∅ ∅) ∅ ∅ [] [] [].

(** The methods that are one transaction and hand out no grant, and the operator
    writing [native_epochs]. *)
Inductive NativeOp : Type :=
  | NOp_new (origin issuer key : str) (previous : list str)
  | NOp_login (auth : AuthService) (query_pairs : str → option (list (str * str)))
      (fresh_id fresh_cookie : Res NativeError str) (nonce : bytes) (now : N) (input : LoginRequest)
  | NOp_browser (now : N) (id : str)
  | NOp_confirm (now : N) (fresh_code : Res NativeError str) (nonce : bytes) (id confirm_nonce : str)
      (header : option str)
  | NOp_cancel (input : CancelRequest)
  | NOp_revoke (token : str)
  | NOp_referenced (now : N) (reference : NativeSessionRef)
  | NOp_set_epoch (user : str) (row : Epoch).

Section reach.
Context `{NativeLib, UuidLib, Serde AttemptSecret, Serde FamilySecret, Serde ExchangeResult,
  Serde Grant}.
Context (self : NativeSessions).

Definition native_run (op : NativeOp) (db : NativeDb) : NativeDb :=
  match op with
  | NOp_new origin issuer key previous => (NativeSessions_new origin issuer key previous db).2
  | NOp_login auth qp id cookie nonce now input => (login self auth qp id cookie nonce now input db).2
  | NOp_browser now id => (browser self now id db).2
  | NOp_confirm now code nonce id cn header => (confirm self now code nonce id cn header db).2
  | NOp_cancel input => (cancel_login input db).2
  | NOp_revoke token => (revoke token db).2
  | NOp_referenced now reference => (referenced self now reference db).2
  | NOp_set_epoch user row => db <| native_epochs := <[user := row]> (native_epochs db) |>
  end.

Definition granted {A} (f : A → list Grant) (r : Res NativeError A) : list Grant :=
  match r with Ok a => f a | _ => [] end.
Definition start_grant (start : RefreshStart) : list Grant :=
  match start with Refresh_replayed g => [g] | Refresh_claimed _ => [] end.
(** A claimed refresh is now with the provider. *)
Definition start_refresh (k : N) (r : Res NativeError RefreshStart) (s : NativeSys) : NativeSys :=
  match r with
  | Ok (Refresh_claimed job) =>
      s <| ns_refreshes := <[k := job]> (ns_refreshes s) |>
        <| ns_renewed := (job_family job, refresh_generation (job_input job)) :: ns_renewed s |>
  | _ => s
  end.

(** A nonce has 12 bytes. *)
Definition nonce_ok (n : bytes) : Prop := length n = 12.

Inductive native_step (s : NativeSys) : NativeSys → Prop :=
  | nstep_op op : native_step s (s <| ns_db := native_run op (ns_db s) |>)
  | nstep_exchange now ff fa fr fv n1 n2 input r db' :
      random_ok ff → nonce_ok n2 → exchange self now ff fa fr fv n1 n2 input (ns_db s) = (r, db') →
      native_step s (s <| ns_db := db' |>
                       <| ns_granted := granted (λ x, [native_session x]) r ++ ns_granted s |>)
  | nstep_callback_claim k now code st header job db' :
      ns_callbacks s !! k = None →
      callback_claim self now code st header (ns_db s) = (Ok job, db') →
      native_step s (s <| ns_db := db' |> <| ns_callbacks := <[k := job]> (ns_callbacks s) |>
                       <| ns_verified := callback_id job :: ns_verified s |>)
  | nstep_callback_finish k job auth fresh nonce code st :
      ns_callbacks s !! k = Some job →
      native_step s (s <| ns_db := (callback_finish self auth fresh nonce code st job (ns_db s)).2 |>
                       <| ns_callbacks := delete k (ns_callbacks s) |>)
  | nstep_refresh_claim k now fresh_lease token input r db' :
      ns_refreshes s !! k = None →
      refresh_claim self now fresh_lease token input (ns_db s) = (r, db') →
      native_step s (start_refresh k r
        (s <| ns_db := db' |> <| ns_granted := granted start_grant r ++ ns_granted s |>))
  | nstep_refresh_finish k job auth now fa fr n1 n2 r db' :
      ns_refreshes s !! k = Some job → nonce_ok n2 →
      refresh_finish self auth now fa fr n1 n2 job (ns_db s) = (r, db') →
      native_step s (s <| ns_db := db' |> <| ns_refreshes := delete k (ns_refreshes s) |>
                       <| ns_granted := granted (λ g, [g]) r ++ ns_granted s |>)
  | nstep_lost k :
      native_step s (s <| ns_callbacks := delete k (ns_callbacks s) |>
                       <| ns_refreshes := delete k (ns_refreshes s) |>).
Definition native_reachable (s : NativeSys) : Prop := rtc native_step native_start s.

Lemma native_run_write op db : native_write db (native_run op db).
Proof.
  destruct op; simpl; [apply NativeSessions_new_writes|apply login_writes|apply browser_writes
    |apply confirm_writes|apply cancel_login_writes|apply revoke_writes|apply referenced_writes
    |by apply write_other].
Qed.

(** ** Families under a write *)

Definition dead (r : Family) : Prop := live_phase (f_phase r) = false.
(** Outside a refresh a row stays, or dies. *)
Definition fades (r r' : Family) : Prop :=
  r' = r ∨ f_phase r = Family_refreshing ∧ r' = to_reauth r ∨ r' = to_revoked r.

Lemma fades_refl r : fades r r.
Proof. by left. Qed.
Lemma fades_fields r r' : fades r r' →
  f_user_id r' = f_user_id r ∧ f_epoch r' = f_epoch r ∧ f_generation r' = f_generation r
  ∧ f_refresh_hash r' = f_refresh_hash r ∧ f_access_hash r' = f_access_hash r
  ∧ f_lease_id r' = f_lease_id r ∧ (f_phase r' = f_phase r ∨ dead r').
Proof. intros [->|[[_ ->]| ->]]; unfold dead; simpl; tauto. Qed.
Lemma fades_dead r r' : fades r r' → dead r → dead r'.
Proof. intros [->|[[_ ->]| ->]]; done. Qed.

Lemma fades_revoked r r' : fades r r' → f_phase r = Family_revoked → f_phase r' = Family_revoked.
Proof. intros [->|[[? ->]| ->]]; [done|congruence|done]. Qed.

Lemma write_family db db' id :
  native_write db db' → match native_families db !! id with
                        | Some r => ∃ r', native_families db' !! id = Some r' ∧ fades r r'
                        | None => native_families db' !! id = None
                        end.
Proof.
  intros Hw.
  assert (∀ o : option Family, match o with
    | Some r => ∃ r', o = Some r' ∧ fades r r' | None => o = None end) as Hsame
    by (intros []; eauto using fades_refl).
  destruct Hw as [db' _ Ef _|i a _ _ _|i a a' _ _ _ _ _|i a a' _ _ _ _ _|p|i row Hi Hp]; simpl;
    try apply Hsame.
  - rewrite Ef. apply Hsame.
  - unfold cancel_family. case_bool_decide; [|apply Hsame].
    destruct (native_families db !! a_family a) as [row|] eqn:Hrow; [|apply Hsame].
    destruct (decide (a_family a = id)) as [<-|Hne]; [|rewrite lookup_insert_ne by done; apply Hsame].
    rewrite Hrow, lookup_insert_eq. eexists. split; [done|]. by right; right.
  - rewrite lookup_update_where. destruct (native_families db !! id) as [r|]; [|done]. simpl.
    eexists. split; [done|]. destruct (p id r); [by right; right|by left].
  - destruct (decide (i = id)) as [<-|Hne]; [|rewrite lookup_insert_ne by done; apply Hsame].
    rewrite Hi, lookup_insert_eq. eexists. split; [done|]. by right; left.
Qed.
Lemma write_family_Some db db' id r :
  native_write db db' → native_families db !! id = Some r →
  ∃ r', native_families db' !! id = Some r' ∧ fades r r'.
Proof. intros Hw Hr. pose proof (write_family _ _ id Hw) as Hf. by rewrite Hr in Hf. Qed.
Lemma write_family_back db db' id r' :
  native_write db db' → native_families db' !! id = Some r' →
  ∃ r, native_families db !! id = Some r ∧ fades r r'.
Proof.
  intros Hw Hr'. pose proof (write_family _ _ id Hw) as Hf.
  destruct (native_families db !! id) as [r|]; [|congruence].
  destruct Hf as (r0 & ? & ?). simplify_eq. eauto.
Qed.

(** ** Families and running refreshes *)

(** The refresh [job] holds the lease of its family, unless the family is dead. *)
Definition job_ok (fams : gmap str Family) (job : RefreshJob) : Prop :=
  (refresh_generation (job_input job) < u64_max)%N
  ∧ grant_generation (family_grant (job_secret job)) = refresh_generation (job_input job)
  ∧ grant_family (family_grant (job_secret job)) = job_family job
  ∧ ∃ r, fams !! job_family job = Some r
     ∧ (dead r ∨ f_phase r = Family_refreshing ∧ f_lease_id r = job_lease job
                 ∧ f_generation r = Some (refresh_generation (job_input job))).
(** Generation [g] of family [id] was used up. *)
Definition spent (fams : gmap str Family) (id : str) (g : N) : Prop :=
  ∃ r g', fams !! id = Some r ∧ f_generation r = Some g'
          ∧ ((g < g')%N ∨ g = g' ∧ f_phase r ≠ Family_active).
Definition reached (fams : gmap str Family) (id : str) (g : N) : Prop :=
  ∃ r g', fams !! id = Some r ∧ f_generation r = Some g' ∧ (g ≤ g')%N.

Record refresh_inv (s : NativeSys) : Prop := {
  ri_generation id r : native_families (ns_db s) !! id = Some r →
    ∃ g, f_generation r = Some g ∧ (g ≤ u64_max)%N;
  ri_job k job : ns_refreshes s !! k = Some job → job_ok (native_families (ns_db s)) job;
  ri_unique k1 k2 j1 j2 r : ns_refreshes s !! k1 = Some j1 → ns_refreshes s !! k2 = Some j2 →
    job_family j1 = job_family j2 → native_families (ns_db s) !! job_family j1 = Some r →
    ¬ dead r → k1 = k2;
  ri_renewed id g : (id, g) ∈ ns_renewed s → spent (native_families (ns_db s)) id g;
  ri_once : NoDup (ns_renewed s) }.

(** Rows fade, and new families start at generation 0. *)
Definition evolves (fams fams' : gmap str Family) : Prop :=
  (∀ id r, fams !! id = Some r → ∃ r', fams' !! id = Some r' ∧ fades r r')
  ∧ ∀ id r', fams !! id = None → fams' !! id = Some r' → f_generation r' = Some 0%N.

Lemma write_evolves db db' :
  native_write db db' → evolves (native_families db) (native_families db').
Proof.
  intros Hw. split; [intros id r; by apply write_family_Some|].
  intros id r' Hn Hr'. destruct (write_family_back _ _ _ _ Hw Hr') as (r & ? & _). congruence.
Qed.
Lemma insert_evolves fams id r :
  fams !! id = None → f_generation r = Some 0%N → evolves fams (<[id := r]> fams).
Proof.
  intros Hn Hg. split.
  - intros id' r' Hr'. rewrite lookup_insert_ne by congruence. eauto using fades_refl.
  - intros id' r' Hn' [[_ <-]|[_ ?]]%lookup_insert_Some; [done|congruence].
Qed.

Lemma evolves_spent fams fams' id g : evolves fams fams' → spent fams id g → spent fams' id g.
Proof.
  intros [Hev _] (r & g' & Hr & Hg & Hlt). destruct (Hev id r Hr) as (r' & Hr' & Hf).
  exists r', g'. destruct (fades_fields _ _ Hf) as (_ & _ & Hgen & _ & _ & _ & Hp).
  split_and!; [done|congruence|]. destruct Hlt as [?|[-> ?]]; [by left|right; split; [done|]].
  destruct Hp as [->|Hd]; [done|]. intros E. unfold dead in Hd. by rewrite E in Hd.
Qed.
Lemma evolves_reached fams fams' id g : evolves fams fams' → reached fams id g → reached fams' id g.
Proof.
  intros [Hev _] (r & g' & Hr & Hg & Hle). destruct (Hev id r Hr) as (r' & Hr' & Hf).
  exists r', g'. apply fades_fields in Hf as (_ & _ & Hgen & _). split_and!; [done|congruence|done].
Qed.
Lemma evolves_job fams fams' job : evolves fams fams' → job_ok fams job → job_ok fams' job.
Proof.
  intros [Hev _] (Hlt & Hg & Hf & r & Hr & Hst). split_and!; [done..|].
  destruct (Hev _ r Hr) as (r' & Hr' & Hfd). exists r'. split; [done|].
  destruct (fades_fields _ _ Hfd) as (_ & _ & Hgen & _ & _ & Hl & Hp).
  destruct Hst as [Hd|(Hph & Hle & Hge)]; [left; by eapply fades_dead|].
  destruct Hp as [Hp|Hd]; [right; split_and!; congruence|by left].
Qed.

Lemma refresh_inv_evolves s s' :
  refresh_inv s → evolves (native_families (ns_db s)) (native_families (ns_db s')) →
  ns_refreshes s' ⊆ ns_refreshes s → ns_renewed s' = ns_renewed s → refresh_inv s'.
Proof.
  intros [Hgen Hjob Huq Hren Honce] Hev Hsub Hlog. split.
  - intros id r' Hr'. destruct (native_families (ns_db s) !! id) as [r|] eqn:Hr.
    + destruct Hev as [Hev _]. destruct (Hev id r Hr) as (r0 & ? & Hf). simplify_eq.
      destruct (Hgen id r Hr) as (g & Hg & Hle). exists g.
      apply fades_fields in Hf as (_ & _ & -> & _). done.
    + destruct Hev as [_ Hnew]. exists 0%N. split; [by eapply Hnew|done].
  - intros k job Hk. eapply evolves_job; [done|]. eapply Hjob, lookup_weaken; done.
  - intros k1 k2 j1 j2 r' Hk1 Hk2 Hfam Hr' Hlive.
    destruct (Hjob k1 j1) as (_ & _ & _ & r & Hr & _); [by eapply lookup_weaken|].
    destruct Hev as [Hev _]. destruct (Hev _ r Hr) as (r0 & ? & Hf). simplify_eq.
    eapply (Huq k1 k2 j1 j2 r); [by eapply lookup_weaken..|done|done|].
    intros Hd. by apply Hlive, (fades_dead r).
  - intros id g Hin. rewrite Hlog in Hin. eapply evolves_spent; eauto.
  - by rewrite Hlog.
Qed.

(** What the check of a family's secret establishes. *)
Lemma family_secret_Ok id r secret :
  family_secret self id r = Ok secret →
  let g := family_grant secret in
  grant_scope g = SCOPE ∧ grant_environment g = ENVIRONMENT
  ∧ grant_instance_id g = native_instance self ∧ grant_user_id g = f_user_id r
  ∧ grant_family g = id ∧ f_epoch r = Some (grant_epoch g) ∧ f_generation r = Some (grant_generation g)
  ∧ hash (access_token g) = f_access_hash r ∧ hash (refresh_token g) = f_refresh_hash r
  ∧ hash (revoke_token g) = f_revoke_hash r ∧ f_expires_at r = Some (grant_expires_at g)
  ∧ open (native_codec self) (family_purpose id) (f_secret r) = Ok secret.
Proof.
  unfold family_secret, number, reject. destruct (open _ _ _) as [sec| |]; [|done..]. simpl.
  destruct (bool_decide (grant_scope _ ≠ _) || _ || _ || _ || _) eqn:E1; [done|]. simpl. destruct (f_epoch r); [|done]. simpl.
  destruct (bool_decide (grant_epoch _ ≠ _)) eqn:E2; [done|]. simpl. destruct (f_generation r); [|done]. simpl.
  destruct (bool_decide (grant_generation _ ≠ _) || _ || _ || _) eqn:E3; [done|]. simpl. destruct (f_expires_at r); [|done]. simpl.
  destruct (bool_decide (grant_expires_at _ ≠ _)) eqn:E4; [done|]. simpl. intros [= ->]. bool_facts.
  split_and!; congruence.
Qed.

(** A claim finds the family active: no other refresh is running, and this generation
    was not sent to the provider before. *)
Lemma refresh_inv_claim s k now lease token input job db' log :
  refresh_inv s → ns_refreshes s !! k = None →
  claims_refresh self now lease token input (ns_db s) job db' →
  refresh_inv (start_refresh k (Ok (Refresh_claimed job))
    (s <| ns_db := db' |> <| ns_granted := log |>)).
Proof.
  intros [Hgen Hjob Huq Hren Honce] Hk (row & Hrow & Hact & Hh & Hg & Hmax & Hlive & Hsec & _ & _ & _ & Hin & _ & ->).
  destruct (Hgen _ row Hrow) as (g & ? & Hle). simplify_eq.
  assert (∀ k' j, ns_refreshes s !! k' = Some j → job_family j ≠ job_family job) as Hother.
  { intros k' j Hj Heq. destruct (Hjob k' j Hj) as (_ & _ & _ & r & Hr & Hst).
    rewrite Heq, Hrow in Hr. simplify_eq. unfold dead in Hst. rewrite Hact in Hst.
    destruct Hst as [?|[? _]]; done. }
  apply family_secret_Ok in Hsec as (_ & _ & _ & _ & Hfam & _ & Hgg & _).
  split; simpl.
  - intros id r [[<- <-]|[_ Hr]]%lookup_insert_Some; [by exists (refresh_generation (job_input job))|eauto].
  - intros k' j [[<- <-]|[Hne Hj]]%lookup_insert_Some.
    + split_and!; [lia|congruence|done|]. rewrite lookup_insert_eq. eexists. split; [done|]. by right.
    + destruct (Hjob k' j Hj) as (? & ? & ? & r & Hr & Hst). split_and!; [done..|]. exists r.
      rewrite lookup_insert_ne by (by apply not_eq_sym, (Hother k')). done.
  - intros k1 k2 j1 j2 r Hk1 Hk2 Hf Hr Hl.
    apply lookup_insert_Some in Hk1 as [[<- <-]|[Hn1 Hk1]], Hk2 as [[<- <-]|[Hn2 Hk2]]; try done.
    + by destruct (Hother _ _ Hk2).
    + by destruct (Hother _ _ Hk1).
    + rewrite lookup_insert_ne in Hr by (by apply not_eq_sym, (Hother k1)). by eapply Huq.
  - intros id g [[= -> ->]|Hin]%elem_of_cons.
    + exists (claimed_row (job_lease job) now row), (refresh_generation (job_input job)).
      rewrite lookup_insert_eq. split_and!; [done..|]. by right.
    + destruct (Hren id g Hin) as (r & g' & Hr & Hg' & Hsp). unfold spent.
      destruct (decide (id = job_family job)) as [->|Hne].
      * rewrite Hrow in Hr. injection Hr as <-. rewrite Hg in Hg'. injection Hg' as <-.
        eexists _, _. rewrite lookup_insert_eq. split_and!; [done|exact Hg|].
        destruct Hsp as [?|[? ?]]; [by left|by right].
      * rewrite lookup_insert_ne by done. eauto 10.
  - constructor; [|done]. intros Hin. destruct (Hren _ _ Hin) as (r & g' & Hr & Hg' & Hsp).
    simplify_eq. destruct Hsp as [?|[_ ?]]; [lia|done].
Qed.

(** Storing moves the family to the next generation and ends the only refresh. *)
Lemma refresh_inv_store s k job now fa fr n1 n2 g db' log :
  refresh_inv s → ns_refreshes s !! k = Some job →
  stores_refresh self now fa fr n1 n2 (ns_db s) job g db' →
  refresh_inv (s <| ns_db := db' |> <| ns_refreshes := delete k (ns_refreshes s) |>
                 <| ns_granted := log |>).
Proof.
  intros [Hgen Hjob Huq Hren Honce] Hk (row & acc & ref & ck & ex & pr & sealed & rc & Hrow & Href & Hlease
    & _ & _ & _ & -> & _ & _ & _ & _ & ->).
  assert (¬ dead row) as Hnd by (unfold dead; by rewrite Href).
  destruct (Hjob k job Hk) as (Hlt & Hgg & Hfam & r & ? & Hst). simplify_eq.
  destruct Hst as [Hd|(_ & _ & Hgr)]; [done|].
  assert (∀ k' j, delete k (ns_refreshes s) !! k' = Some j → job_family j ≠ job_family job) as Hother.
  { intros k' j [Hne Hj]%lookup_delete_Some Heq. apply Hne.
    by eapply (Huq k k' job j row). }
  split; simpl.
  - intros id r [[<- <-]|[_ Hr]]%lookup_insert_Some; [|eauto]. simpl. rewrite Hgg. eexists.
    split; [done|]. lia.
  - intros k' j Hj. pose proof (Hother k' j Hj) as Hne. apply lookup_delete_Some in Hj as [_ Hj].
    destruct (Hjob k' j Hj) as (? & ? & ? & r & Hr & Hst). split_and!; [done..|]. exists r.
    by rewrite lookup_insert_ne.
  - intros k1 k2 j1 j2 r Hk1 Hk2 Hf Hr Hl. pose proof (Hother k1 j1 Hk1) as Hne.
    rewrite lookup_insert_ne in Hr by done.
    apply lookup_delete_Some in Hk1 as [_ Hk1], Hk2 as [_ Hk2]. by eapply Huq.
  - intros id g Hin. destruct (Hren id g Hin) as (r & g' & Hr & Hg' & Hsp). unfold spent.
    destruct (decide (id = job_family job)) as [->|Hne].
    + rewrite lookup_insert_eq. simplify_eq. do 2 eexists. split_and!; [done..|]. left. simpl.
      rewrite Hgg. destruct Hsp as [?|[-> _]]; lia.
    + rewrite lookup_insert_ne by done. eauto 10.
  - done.
Qed.

Lemma first_exchange_evolves now ff fa fr fv n1 n2 input db r db' :
  first_exchange self now ff fa fr fv n1 n2 input db r db' →
  evolves (native_families db) (native_families db').
Proof.
  intros (a & e & secret & fam & acc & ref & rev & sealed & receipt & _ & _ & _ & _ & _ & _ & _ & _ & _
    & _ & _ & _ & _ & _ & Hn & _ & _ & ->). simpl. by apply insert_evolves.
Qed.
Lemma exchange_evolves now ff fa fr fv n1 n2 input db r db' :
  exchange self now ff fa fr fv n1 n2 input db = (r, db') →
  evolves (native_families db) (native_families db').
Proof.
  intros [Hf|[Hf|[_ Hf]]]%exchange_cases; [by eapply first_exchange_evolves| |].
  - destruct Hf as (? & ? & ? & ? & _ & _ & _ & _ & _ & _ & _ & _ & _ & _ & _ & ->).
    apply write_evolves, write_same.
  - by apply write_evolves, write_fenced_off.
Qed.

Lemma native_step_refresh s s' :
  native_step s s' → (∀ k job, ns_callbacks s !! k = Some job → callback_reads (ns_db s) job) →
  refresh_inv s → refresh_inv s'.
Proof.
  intros Hstep Hcb Hinv. destruct Hstep as [op|now ff fa fr fv n1 n2 input r db' _ _ E
    |k now code st header job db' _ E|k job auth fresh nonce code st Hk
    |k now fl token input r db' Hk E|k job auth now fa fr n1 n2 r db' Hk _ E|k].
  - eapply refresh_inv_evolves; [exact Hinv|apply write_evolves, native_run_write|done..].
  - eapply refresh_inv_evolves; [exact Hinv|by eapply exchange_evolves|done..].
  - eapply refresh_inv_evolves; [exact Hinv| |done..]. apply write_evolves.
    pose proof (callback_claim_writes self now code st header (ns_db s)) as Hw.
    unfold writes_at in Hw. by rewrite E in Hw.
  - eapply refresh_inv_evolves; [exact Hinv| |done..]. by apply write_evolves, callback_finish_writes, (Hcb k).
  - apply refresh_claim_cases in E as [(job & -> & Hc)|[(g & -> & _ & ->)|[Hne Hf]]].
    + by eapply refresh_inv_claim.
    + eapply refresh_inv_evolves; [exact Hinv|apply write_evolves, write_same|done..].
    + destruct r as [start| |]; [by destruct (Hne start)|..];
        (eapply refresh_inv_evolves; [exact Hinv|by apply write_evolves, write_fenced_off|done..]).
  - apply refresh_finish_cases in E as [(g & -> & Hs)|[_ Hf]]; [by eapply refresh_inv_store|].
    eapply refresh_inv_evolves; [exact Hinv|by apply write_evolves, write_fenced_off| |done].
    apply delete_subseteq.
  - eapply refresh_inv_evolves; [exact Hinv|apply write_evolves, write_same| |done].
    apply delete_subseteq.
Qed.

(** ** Attempts *)

(** The provider was asked about the attempt. *)
Definition past_provider (p : AttemptPhase) : Prop := p ≠ Attempt_new ∧ p ≠ Attempt_authorizing.
Definition for_expected (a : Attempt) : Prop :=
  a_expected_user_id a = [] ∨ a_user_id a = a_expected_user_id a.

(** Only a redeemed or cancelled attempt has a family: the redeemed one's belongs to
    the user the attempt was for, the cancelled one's is revoked. *)
Definition attempt_ok (fams : gmap str Family) (a : Attempt) : Prop :=
  match a_phase a with
  | Attempt_redeemed =>
      a_family a ≠ [] ∧ for_expected a
      ∧ ∃ r, fams !! a_family a = Some r ∧ f_user_id r = a_user_id a
  | Attempt_cancelled =>
      a_family a ≠ [] → ∃ r, fams !! a_family a = Some r ∧ f_phase r = Family_revoked
  | Attempt_confirm | Attempt_ready => a_family a = [] ∧ for_expected a
  | _ => a_family a = []
  end.
Lemma attempt_ok_family fams a :
  attempt_ok fams a → a_family a ≠ [] → ∃ r, fams !! a_family a = Some r.
Proof.
  unfold attempt_ok. intros Hok Hne. destruct (a_phase a); try done; try by destruct Hok as [? _].
  - destruct Hok as (_ & _ & r & Hr & _). eauto.
  - destruct (Hok Hne) as (r & Hr & _). eauto.
Qed.

(** Families fade or are new; a revoked family stays revoked. *)
Definition keeps (fams fams' : gmap str Family) : Prop :=
  ∀ id r, fams !! id = Some r → ∃ r', fams' !! id = Some r' ∧ f_user_id r' = f_user_id r
    ∧ (dead r → dead r') ∧ (f_phase r = Family_revoked → f_phase r' = Family_revoked).
Lemma evolves_keeps fams fams' : evolves fams fams' → keeps fams fams'.
Proof.
  intros [Hev _] id r Hr. destruct (Hev id r Hr) as (r' & Hr' & Hf). exists r'.
  split_and!; [done|by apply fades_fields in Hf as [? _]|by apply fades_dead|by apply fades_revoked].
Qed.
Lemma insert_keeps fams id r r' :
  fams !! id = Some r → f_user_id r' = f_user_id r → ¬ dead r → keeps fams (<[id := r']> fams).
Proof.
  intros Hr Hu Hl id0 r0 Hr0. destruct (decide (id0 = id)) as [->|Hne].
  - simplify_eq. rewrite lookup_insert_eq. exists r'. split_and!; [done..|].
    intros E. destruct Hl. unfold dead. by rewrite E.
  - rewrite lookup_insert_ne by done. eauto.
Qed.
Lemma keeps_attempt_ok fams fams' a : keeps fams fams' → attempt_ok fams a → attempt_ok fams' a.
Proof.
  intros Hk. unfold attempt_ok. destruct (a_phase a); try done.
  - intros (Hne & Hx & r & Hr & Hu). split_and!; [done..|].
    destruct (Hk _ r Hr) as (r' & ? & ? & _). exists r'. split; [done|congruence].
  - intros Ha Hne. destruct (Ha Hne) as (r & Hr & Hp). destruct (Hk _ r Hr) as (r' & ? & _ & _ & ?).
    eauto.
Qed.

(** A write moves at most one attempt along. *)
Lemma write_attempts db db' :
  native_write db db' →
  native_attempts db' = native_attempts db
  ∨ (∃ id a, native_attempts db !! id = None ∧ a_phase a = Attempt_new ∧ a_family a = []
     ∧ native_attempts db' = <[id := a]> (native_attempts db))
  ∨ ∃ id a a', native_attempts db !! id = Some a ∧ same_login a a' ∧ a_family a' = a_family a
     ∧ native_attempts db' = <[id := a']> (native_attempts db)
     ∧ (next_phase (a_phase a) (a_phase a') ∧ sets_user a a'
        ∨ a_phase a' = Attempt_cancelled
          ∧ native_families db' = cancel_family (a_family a) (native_families db)).
Proof.
  intros Hw. destruct Hw as [db' E _ _|i a Hn Hp Hf|i a a' Ha Hnext Hl Hf Hu|i a a' Ha Hp Hl Hu Hf|p|i row Hi Hp];
    simpl.
  - by left.
  - right; left. eauto 10.
  - right; right. exists i, a, a'. split_and!; [done..|]. by left.
  - right; right. exists i, a, a'. split_and!; [done..|]. by right.
  - by left.
  - by left.
Qed.

Record attempts_inv (s : NativeSys) : Prop := {
  ai_ok id a : native_attempts (ns_db s) !! id = Some a → attempt_ok (native_families (ns_db s)) a;
  ai_owner id1 id2 a1 a2 : native_attempts (ns_db s) !! id1 = Some a1 →
    native_attempts (ns_db s) !! id2 = Some a2 → a_family a1 ≠ [] → a_family a1 = a_family a2 →
    id1 = id2;
  ai_callback k job : ns_callbacks s !! k = Some job → callback_reads (ns_db s) job;
  ai_verified id : id ∈ ns_verified s →
    ∃ a, native_attempts (ns_db s) !! id = Some a ∧ past_provider (a_phase a);
  ai_once : NoDup (ns_verified s) }.

Lemma moved_attempt_ok db db' a a' :
  keeps (native_families db) (native_families db') → attempt_ok (native_families db) a →
  same_login a a' → a_family a' = a_family a →
  next_phase (a_phase a) (a_phase a') ∧ sets_user a a'
  ∨ a_phase a' = Attempt_cancelled
    ∧ native_families db' = cancel_family (a_family a) (native_families db) →
  attempt_ok (native_families db') a'.
Proof.
  intros Hk Hok (_ & _ & Hexp & _) Hf [[Hnext Hu]|[Hp Hfam]].
  - unfold attempt_ok, for_expected in *. unfold sets_user in Hu. rewrite Hexp, Hf.
    destruct (a_phase a), (a_phase a'); try done; destruct Hu as [[? Hu]|(? & Hu & _)]; try done;
      try rewrite Hu; first [done|by split].
  - unfold attempt_ok. rewrite Hp, Hf. intros Hne.
    destruct (attempt_ok_family _ _ Hok Hne) as (r & Hr). rewrite Hfam. unfold cancel_family.
    rewrite bool_decide_true, Hr by done. rewrite lookup_insert_eq. eauto.
Qed.
Lemma next_past p p' : next_phase p p' → past_provider p → past_provider p'.
Proof. unfold past_provider. by destruct p, p'; intros [] []. Qed.

(** A state change that moves one attempt along, and families along [keeps]. *)
Lemma attempts_inv_write s s' :
  attempts_inv s → native_write (ns_db s) (ns_db s') → ns_callbacks s' ⊆ ns_callbacks s →
  ns_verified s' = ns_verified s → attempts_inv s'.
Proof.
  intros [Hok Hown Hcb Hver Honce] Hw Hsub Hlog.
  pose proof (evolves_keeps _ _ (write_evolves _ _ Hw)) as Hk.
  assert (∀ id a', native_attempts (ns_db s') !! id = Some a' →
    attempt_ok (native_families (ns_db s')) a'
    ∧ (a_family a' ≠ [] → ∃ a, native_attempts (ns_db s) !! id = Some a ∧ a_family a = a_family a')) as Hback.
  { intros id a' Ha'. apply write_attempts in Hw as [E|[(i & a & Hn & Hp & Hf & E)|(i & a & a0 & Ha & Hl & Hf & E & Hm)]];
      rewrite E in Ha'; [|apply lookup_insert_Some in Ha' as [[<- <-]|[_ Ha']]..].
    - split; [eapply keeps_attempt_ok; eauto|eauto].
    - split; [unfold attempt_ok; by rewrite Hp|done].
    - split; [eapply keeps_attempt_ok; eauto|eauto].
    - split; [eapply (moved_attempt_ok (ns_db s)); eauto|]. eauto.
    - split; [eapply keeps_attempt_ok; eauto|eauto]. }
  assert (∀ id a, native_attempts (ns_db s) !! id = Some a → ∃ a', native_attempts (ns_db s') !! id = Some a'
    ∧ same_login a a' ∧ (past_provider (a_phase a) → past_provider (a_phase a'))) as Hfwd.
  { intros id a0 Ha0. apply write_attempts in Hw as [E|[(i & a & Hn & Hp & Hf & E)|(i & a & a1 & Ha & Hl & Hf & E & Hm)]];
      rewrite E.
    - exists a0. done.
    - rewrite lookup_insert_ne by congruence. exists a0. done.
    - destruct (decide (i = id)) as [->|Hne]; [|rewrite lookup_insert_ne by done; exists a0; done].
      simplify_eq. rewrite lookup_insert_eq. exists a1. split_and!; [done..|].
      destruct Hm as [[Hm _]|[Hm _]]; [by apply next_past|by rewrite Hm]. }
  split.
  - intros id a Ha. by apply (Hback id).
  - intros id1 id2 a1 a2 H1' H2' Hne Heq.
    destruct (proj2 (Hback id1 a1 H1') Hne) as (b1 & Hb1 & E1).
    destruct (proj2 (Hback id2 a2 H2')) as (b2 & Hb2 & E2); [congruence|].
    apply (Hown id1 id2 b1 b2); congruence.
  - intros k job Hj. destruct (Hcb k job) as (a & Ha & Hl); [by eapply lookup_weaken|].
    destruct (Hfwd _ _ Ha) as (a' & Ha' & Hl' & _). exists a'. split; [done|].
    unfold same_login in *. destruct_and!. split_and!; congruence.
  - intros id Hin. rewrite Hlog in Hin. destruct (Hver id Hin) as (a & Ha & Hp).
    destruct (Hfwd _ _ Ha) as (a' & Ha' & _ & Hp'). eauto.
  - by rewrite Hlog.
Qed.
Lemma attempts_inv_keeps s s' :
  attempts_inv s → native_attempts (ns_db s') = native_attempts (ns_db s) →
  keeps (native_families (ns_db s)) (native_families (ns_db s')) →
  ns_callbacks s' ⊆ ns_callbacks s → ns_verified s' = ns_verified s → attempts_inv s'.
Proof.
  intros [Hok Hown Hcb Hver Honce] Ha Hk Hsub Hlog.
  split; unfold callback_reads; rewrite ?Ha, ?Hlog; try done.
  - intros id a Hid. eapply keeps_attempt_ok; eauto.
  - intros k job Hj. by eapply Hcb, lookup_weaken.
Qed.

(** The first exchange gives the attempt a family of its own. *)
Lemma attempts_inv_exchange s now ff fa fr fv n1 n2 input r db' log :
  attempts_inv s → random_ok ff → first_exchange self now ff fa fr fv n1 n2 input (ns_db s) r db' →
  attempts_inv (s <| ns_db := db' |> <| ns_granted := log |>).
Proof.
  intros [Hok Hown Hcb Hver Honce] Hff Hfirst.
  pose proof (evolves_keeps _ _ (first_exchange_evolves _ _ _ _ _ _ _ _ _ _ _ Hfirst)) as Hk.
  destruct Hfirst as (a & e & secret & fam & acc & ref & rev & sealed & receipt & Ha & Hp & _ & _ & _ & _
    & _ & Hfam & _ & _ & _ & _ & _ & _ & Hn & _ & _ & ->).
  pose proof (random_nonempty _ _ Hff Hfam) as Hne. simpl in Hk.
  pose proof (Hok _ a Ha) as Hready. unfold attempt_ok in Hready. rewrite Hp in Hready.
  destruct Hready as [_ Hexp].
  assert (∀ id b, native_attempts (ns_db s) !! id = Some b → a_family b ≠ fam) as Hfresh.
  { intros id b Hb E. destruct (attempt_ok_family _ _ (Hok id b Hb)); [congruence|].
    rewrite E in *. congruence. }
  split; simpl.
  - intros id b [[<- <-]|[_ Hb]]%lookup_insert_Some; [|eapply keeps_attempt_ok; eauto].
    unfold attempt_ok. simpl. split_and!; [done..|]. rewrite lookup_insert_eq. eauto.
  - intros id1 id2 a1 a2 H1' H2' Hne1 Heq.
    apply lookup_insert_Some in H1' as [[<- <-]|[Hn1 H1']], H2' as [[<- <-]|[Hn2 H2']]; try done.
    + by destruct (Hfresh _ _ H2').
    + by destruct (Hfresh _ _ H1').
    + by eapply Hown.
  - intros k job Hj. destruct (Hcb k job Hj) as (b & Hb & Hl). unfold callback_reads. simpl.
    destruct (decide (callback_id job = exchange_transaction_id input)) as [E|Hd];
      [|rewrite lookup_insert_ne by done; eauto].
    rewrite E in *. simplify_eq. rewrite lookup_insert_eq. eexists. split; [done|]. exact Hl.
  - intros id Hin. destruct (Hver id Hin) as (b & Hb & Hpast).
    destruct (decide (id = exchange_transaction_id input)) as [->|Hd];
      [|rewrite lookup_insert_ne by done; eauto].
    rewrite lookup_insert_eq. eexists. split; done.
  - done.
Qed.

(** A claimed callback was not claimed before. *)
Lemma attempts_inv_callback s k now code st header job db' :
  attempts_inv s → callback_claim self now code st header (ns_db s) = (Ok job, db') →
  attempts_inv (s <| ns_db := db' |> <| ns_callbacks := <[k := job]> (ns_callbacks s) |>
                  <| ns_verified := callback_id job :: ns_verified s |>).
Proof.
  intros Hinv E. pose proof (callback_claim_Ok _ _ _ _ _ _ _ _ E) as (Ha & Hp & Hdb).
  assert (attempts_inv (s <| ns_db := db' |>)) as Hinv'.
  { eapply attempts_inv_write; [exact Hinv| |done..].
    pose proof (callback_claim_writes self now code st header (ns_db s)) as Hw.
    unfold writes_at in Hw. by rewrite E in Hw. }
  destruct Hinv' as [Hok Hown Hcb Hver Honce]. simpl in *. split; simpl; try done.
  - intros k' j [[<- <-]|[_ Hj]]%lookup_insert_Some; [|by eapply Hcb].
    unfold callback_reads. rewrite Hdb. simpl. rewrite lookup_insert_eq. eexists. split; done.
  - intros id [->|Hin]%elem_of_cons; [|by apply Hver]. rewrite Hdb. simpl.
    rewrite lookup_insert_eq. eexists. split; done.
  - constructor; [|done]. intros Hin. destruct Hinv as [_ _ _ Hver0 _].
    destruct (Hver0 _ Hin) as (a & ? & ? & ?). simplify_eq.
Qed.

Lemma native_step_attempts s s' : native_step s s' → attempts_inv s → attempts_inv s'.
Proof.
  intros Hstep Hinv. destruct Hstep as [op|now ff fa fr fv n1 n2 input r db' Hff _ E
    |k now code st header job db' _ E|k job auth fresh nonce code st Hk
    |k now fl token input r db' Hk E|k job auth now fa fr n1 n2 r db' Hk _ E|k].
  - eapply attempts_inv_write; [exact Hinv|apply native_run_write|done..].
  - apply exchange_cases in E as [Hf|[Hf|[_ Hf]]]; [by eapply attempts_inv_exchange| |].
    + destruct Hf as (? & ? & ? & ? & _ & _ & _ & _ & _ & _ & _ & _ & _ & _ & _ & ->).
      by eapply attempts_inv_write; [exact Hinv|apply write_same|..].
    + by eapply attempts_inv_write; [exact Hinv|apply write_fenced_off|..].
  - by eapply attempts_inv_callback.
  - eapply attempts_inv_write; [exact Hinv| |apply delete_subseteq|done].
    by apply callback_finish_writes, (ai_callback _ Hinv k).
  - apply refresh_claim_cases in E as [(job & -> & Hc)|[(g & -> & _ & ->)|[Hne Hf]]].
    + destruct Hc as (row & Hrow & Hact & _ & _ & _ & _ & _ & _ & _ & _ & _ & _ & ->).
      eapply attempts_inv_keeps; [exact Hinv|done| |done..].
      eapply insert_keeps; [done..|]. unfold dead. by rewrite Hact.
    + by eapply attempts_inv_write; [exact Hinv|apply write_same|..].
    + destruct r as [start| |]; [by destruct (Hne start)|..];
        by eapply attempts_inv_write; [exact Hinv|apply write_fenced_off|..].
  - apply refresh_finish_cases in E as [(g & -> & Hs)|[_ Hf]];
      [|by eapply attempts_inv_write; [exact Hinv|apply write_fenced_off|..]].
    destruct Hs as (row & ? & ? & ? & ? & ? & ? & ? & Hrow & Href & _ & _ & _ & _ & _ & _ & _ & _ & _ & ->).
    eapply attempts_inv_keeps; [exact Hinv|done| |done..].
    eapply insert_keeps; [done..|]. unfold dead. by rewrite Href.
  - by eapply attempts_inv_write; [exact Hinv|apply write_same|apply delete_subseteq|].
Qed.

(** ** Grants *)

Definition codec_ok : Prop :=
  ∃ rest, readers (native_codec self) = primary (native_codec self) :: rest.

(** Clients hold at most one grant per generation of a family, and what is kept for a
    repeated request is a grant that was handed out. *)
Record grants_inv (s : NativeSys) : Prop := {
  gi_reached g : g ∈ ns_granted s →
    reached (native_families (ns_db s)) (grant_family g) (grant_generation g);
  gi_unique g g' : g ∈ ns_granted s → g' ∈ ns_granted s → grant_family g = grant_family g' →
    grant_generation g = grant_generation g' → g = g';
  gi_receipt old op gen rec :
    native_refresh_receipts (ns_db s) !! (old, op, gen) = Some rec →
    ∃ n g, nonce_ok n ∧ g ∈ ns_granted s ∧ grant_family g = r_family rec
      ∧ seal (native_codec self) n (refresh_purpose old op gen) g = Ok (r_result rec);
  gi_handoff id a : native_attempts (ns_db s) !! id = Some a → a_phase a = Attempt_redeemed →
    ∃ n g, nonce_ok n ∧ g ∈ ns_granted s ∧ grant_family g = a_family a
      ∧ seal (native_codec self) n (handoff_purpose id) (grant_result g) = Ok (a_receipt a) }.

Lemma grants_inv_more s s' :
  grants_inv s →
  (∀ id g, reached (native_families (ns_db s)) id g → reached (native_families (ns_db s')) id g) →
  native_refresh_receipts (ns_db s') = native_refresh_receipts (ns_db s) →
  (∀ id a, native_attempts (ns_db s') !! id = Some a → a_phase a = Attempt_redeemed →
     native_attempts (ns_db s) !! id = Some a) →
  (∀ g, g ∈ ns_granted s' ↔ g ∈ ns_granted s) → grants_inv s'.
Proof.
  intros [Hre Huq Hrc Hho] Hmono Hrec Hatt Hlog. split.
  - intros g Hg%Hlog. auto.
  - intros g g' Hg%Hlog Hg'%Hlog. auto.
  - intros old op gen rec. rewrite Hrec. intros Hr. destruct (Hrc _ _ _ _ Hr) as (n & g & ? & ? & ? & ?).
    exists n, g. by rewrite Hlog.
  - intros id a Ha Hp. destruct (Hho id a) as (n & g & ? & ? & ? & ?); [by apply Hatt|done|].
    exists n, g. by rewrite Hlog.
Qed.

Lemma write_redeemed db db' id a :
  native_write db db' → native_attempts db' !! id = Some a → a_phase a = Attempt_redeemed →
  native_attempts db !! id = Some a.
Proof.
  intros [E|[(i & b & _ & Hp & _ & E)|(i & b & b' & _ & _ & _ & E & Hm)]]%write_attempts; rewrite E;
    [done|..]; intros [[<- <-]|[_ ?]]%lookup_insert_Some; try done; intros Hr; rewrite Hr in *;
    [done|]. destruct Hm as [[Hn _]|[? _]]; [|done]. by destruct (a_phase b).
Qed.
Lemma write_receipts db db' :
  native_write db db' → native_refresh_receipts db' = native_refresh_receipts db.
Proof. by destruct 1. Qed.
Lemma grants_inv_write s s' :
  grants_inv s → native_write (ns_db s) (ns_db s') → (∀ g, g ∈ ns_granted s' ↔ g ∈ ns_granted s) →
  grants_inv s'.
Proof.
  intros Hinv Hw Hlog. eapply grants_inv_more; [exact Hinv| | |by intros; eapply write_redeemed|done].
  - intros id g. apply evolves_reached. by apply write_evolves.
  - by apply write_receipts.
Qed.

Lemma grants_inv_exchange s now ff fa fr fv n1 n2 input r db' :
  grants_inv s → nonce_ok n2 →
  first_exchange self now ff fa fr fv n1 n2 input (ns_db s) r db' →
  grants_inv (s <| ns_db := db' |>
                <| ns_granted := granted (λ x, [native_session x]) r ++ ns_granted s |>).
Proof.
  intros [Hre Huq Hrc Hho] Hn2 Hfirst.
  pose proof (first_exchange_evolves _ _ _ _ _ _ _ _ _ _ _ Hfirst) as Hev.
  destruct Hfirst as (a & e & secret & fam & acc & ref & rev & sealed & receipt & Ha & Hp & _ & _ & _ & _
    & _ & _ & _ & _ & _ & _ & _ & Hs2 & Hn & _ & -> & ->). simpl in *.
  set (g0 := new_grant self now a e secret fam acc ref rev) in *.
  assert (∀ g, g ∈ ns_granted s → grant_family g ≠ fam) as Hfresh.
  { intros g Hg E. destruct (Hre g Hg) as (row & ? & Hrow & _). congruence. }
  split; simpl.
  - intros g [->|Hg]%elem_of_cons; [|eapply evolves_reached; eauto].
    exists (family_row g0 sealed), 0%N. simpl. by rewrite lookup_insert_eq.
  - intros g g' [->|Hg]%elem_of_cons [->|Hg']%elem_of_cons Hf Hgen; [done| | |auto].
    + by destruct (Hfresh g' Hg').
    + by destruct (Hfresh g Hg).
  - intros old op gen rec Hr. destruct (Hrc _ _ _ _ Hr) as (n & g & ? & ? & ? & ?).
    exists n, g. split_and!; [done|by right|done..].
  - intros id b [[<- <-]|[_ Hb]]%lookup_insert_Some Hred.
    + exists n2, g0. split_and!; [done|by left|done..].
    + destruct (Hho id b Hb Hred) as (n & g & ? & ? & ? & ?). exists n, g. split_and!; [done|by right|done..].
Qed.

Lemma grants_inv_store s k job now fa fr n1 n2 g db' :
  refresh_inv s → grants_inv s → ns_refreshes s !! k = Some job → nonce_ok n2 →
  stores_refresh self now fa fr n1 n2 (ns_db s) job g db' →
  grants_inv (s <| ns_db := db' |> <| ns_refreshes := delete k (ns_refreshes s) |>
                <| ns_granted := g :: ns_granted s |>).
Proof.
  intros Hri [Hre Huq Hrc Hho] Hk Hn2 (row & acc & ref & ck & ex & pr & sealed & rc & Hrow & Href & Hlease
    & _ & _ & _ & Hg & _ & Hs2 & _ & _ & ->).
  destruct (ri_job _ Hri k job Hk) as (Hlt & Hgg & Hfam & r & ? & Hst). simplify_eq.
  destruct Hst as [Hd|(_ & _ & Hgr)]; [unfold dead in Hd; by rewrite Href in Hd|].
  set (g0 := refreshed_grant _ _ _ _ _ _) in *.
  assert (grant_generation g0 = refresh_generation (job_input job) + 1)%N as Hgen0
    by (unfold g0; simpl; lia).
  assert (grant_family g0 = job_family job) as Hfam0 by done.
  assert (∀ g, g ∈ ns_granted s → grant_family g = job_family job →
    (grant_generation g < grant_generation g0)%N) as Hfresh.
  { intros g Hg E. destruct (Hre g Hg) as (r & g' & Hr & Hg' & Hle). rewrite E in Hr. simplify_eq. lia. }
  split; simpl.
  - intros g [->|Hg]%elem_of_cons.
    + exists (stored_row g0 sealed row), (grant_generation g0). rewrite Hfam0, lookup_insert_eq. done.
    + destruct (decide (grant_family g = job_family job)) as [E|Hne].
      * exists (stored_row g0 sealed row), (grant_generation g0). rewrite E, lookup_insert_eq.
        split_and!; [done..|]. pose proof (Hfresh g Hg E). lia.
      * destruct (Hre g Hg) as (r & g' & Hr & Hx). exists r, g'. by rewrite lookup_insert_ne.
  - intros g g' [->|Hg]%elem_of_cons [->|Hg']%elem_of_cons Hf Hgen; [done| | |auto].
    + rewrite Hfam0 in Hf. pose proof (Hfresh g' Hg' (eq_sym Hf)). lia.
    + rewrite Hfam0 in Hf. pose proof (Hfresh g Hg Hf). lia.
  - intros old op gen rec [[Hkey <-]|[_ Hr]]%lookup_insert_Some.
    + unfold refresh_key in Hkey. simplify_eq. exists n2, g0. split_and!; [done|by left|done..].
    + destruct (Hrc _ _ _ _ Hr) as (n & g & ? & ? & ? & ?). exists n, g. split_and!; [done|by right|done..].
  - intros id b Hb Hred. destruct (Hho id b Hb Hred) as (n & g & ? & ? & ? & ?).
    exists n, g. split_and!; [done|by right|done..].
Qed.

(** A repeated request gets a grant that was handed out before. *)
Lemma repeated_exchange_granted s now input r db' :
  codec_ok → grants_inv s → repeated_exchange self now input (ns_db s) r db' →
  ∃ x row, r = Ok x ∧ native_session x ∈ ns_granted s ∧ db' = ns_db s
    ∧ native_families (ns_db s) !! grant_family (native_session x) = Some row ∧ live_at now (ns_db s) row.
Proof.
  intros [rest Hc] Hinv (a & until & row & x & Ha & Hp & _ & _ & _ & _ & _ & Hrow & Hl & Ho & -> & ->).
  destruct (gi_handoff _ Hinv _ a Ha Hp) as (n & g & Hn & Hg & Hf & Hs).
  pose proof (open_seal_eq _ _ _ _ _ _ _ Hc Hn Hs Ho) as ->. exists (grant_result g), row.
  split_and!; [done..| |done]. simpl. by rewrite Hf.
Qed.
Lemma repeated_refresh_granted s now token input g :
  codec_ok → grants_inv s → repeated_refresh self now token input (ns_db s) g →
  g ∈ ns_granted s
  ∧ ∃ row, native_families (ns_db s) !! grant_family g = Some row ∧ live_at now (ns_db s) row.
Proof.
  intros [rest Hc] Hinv (rec & row & until & Hr & Hrow & Hl & _ & _ & Ho).
  destruct (gi_receipt _ Hinv _ _ _ rec Hr) as (n & g' & Hn & Hg & Hf & Hs).
  pose proof (open_seal_eq _ _ _ _ _ _ _ Hc Hn Hs Ho) as ->. rewrite Hf. eauto.
Qed.
Lemma elem_of_again {A} (x : A) l : x ∈ l → ∀ y, y ∈ x :: l ↔ y ∈ l.
Proof. intros Hx y. rewrite elem_of_cons. split; [by intros [->|]|by right]. Qed.

Lemma native_step_grants s s' :
  codec_ok → native_step s s' → attempts_inv s → refresh_inv s → grants_inv s → grants_inv s'.
Proof.
  intros Hcodec Hstep Hai Hri Hinv. destruct Hstep as [op|now ff fa fr fv n1 n2 input r db' Hff Hn2 E
    |k now code st header job db' _ E|k job auth fresh nonce code st Hk
    |k now fl token input r db' Hk E|k job auth now fa fr n1 n2 r db' Hk Hn2 E|k].
  - eapply grants_inv_write; [exact Hinv|apply native_run_write|done].
  - apply exchange_cases in E as [Hf|[Hf|[Hne Hf]]]; [by eapply grants_inv_exchange| |].
    + apply repeated_exchange_granted in Hf as (x & row & -> & Hx & -> & _); [|done..].
      eapply grants_inv_write; [exact Hinv|apply write_same|]. by apply elem_of_again.
    + destruct r as [x| |]; [by destruct (Hne x)|..];
        by eapply grants_inv_write; [exact Hinv|apply write_fenced_off|].
  - eapply grants_inv_write; [exact Hinv| |done].
    pose proof (callback_claim_writes self now code st header (ns_db s)) as Hw.
    unfold writes_at in Hw. by rewrite E in Hw.
  - eapply grants_inv_write; [exact Hinv| |done].
    by apply callback_finish_writes, (ai_callback _ Hai k).
  - apply refresh_claim_cases in E as [(job & -> & Hc)|[(g & -> & Hrep & ->)|[Hne Hf]]].
    + destruct Hc as (row & Hrow & Hact & _ & Hg & _ & _ & _ & _ & _ & _ & _ & _ & ->).
      eapply grants_inv_more; [exact Hinv| |done..]. simpl.
      intros id g (r & g' & Hr & Hg' & Hle). unfold reached.
      destruct (decide (id = job_family job)) as [->|Hd];
        [|rewrite lookup_insert_ne by done; eauto].
      simplify_eq. rewrite lookup_insert_eq. eauto.
    + apply repeated_refresh_granted in Hrep as [Hx _]; [|done..].
      eapply grants_inv_write; [exact Hinv|apply write_same|]. by apply elem_of_again.
    + destruct r as [start| |]; [by destruct (Hne start)|..];
        by eapply grants_inv_write; [exact Hinv|apply write_fenced_off|].
  - apply refresh_finish_cases in E as [(g & -> & Hs)|[Hne Hf]]; [by eapply grants_inv_store|].
    destruct r as [x| |]; [by destruct (Hne x)|..];
      by eapply grants_inv_write; [exact Hinv|apply write_fenced_off|].
  - by eapply grants_inv_write; [exact Hinv|apply write_same|].
Qed.

Lemma native_start_inv : refresh_inv native_start ∧ attempts_inv native_start ∧ grants_inv native_start.
Proof.
  split_and!; split; simpl; intros *; try (rewrite lookup_empty; done);
    try (by intros ?%elem_of_nil); constructor.
Qed.
Lemma native_reachable_inv s :
  codec_ok → native_reachable s → refresh_inv s ∧ attempts_inv s ∧ grants_inv s.
Proof.
  intros Hc. unfold native_reachable. generalize native_start_inv. generalize native_start.
  intros s0 H0' Hr. induction Hr as [s0|s1 s2 s3 Hstep _ IH]; [done|]. apply IH.
  destruct H0' as (Hri & Hai & Hgi). split_and!.
  - eapply native_step_refresh; [done|apply Hai|done].
  - by eapply native_step_attempts.
  - by eapply native_step_grants.
Qed.
End reach.
