(* ===== verification/NativeDemo.v ===== *)
(** * NativeDemo: a login and a refresh, step by step

    The stand-in libraries of [NativeCodec] run a whole login: the witnesses of the
    theorems about native sessions use the states it goes through. *)

From stdpp Require Import base tactics numbers strings countable gmap list relations.
From S2P Require Import Prelude RustStr Text Ids Models Sql Attachments NativeCodec NativeSessions NativeWrites NativeReach.

(** ** JSON as lists of fields *)

Definition grant_fields (g : Grant) : list str :=
  [grant_scope g; grant_environment g; grant_instance_id g; grant_user_id g; grant_family g;
   [grant_generation g]; [grant_epoch g]; access_token g; refresh_token g; revoke_token g;
   [grant_expires_at g]; grant_display_name g].
Definition grant_parse (fs : list str) : option Grant :=
  match fs with
  | [a; b; c; d; e; [f]; [g]; h; i; j; [k]; l] => Some (mk_Grant a b c d e f g h i j k l)
  | _ => None
  end.
Lemma grant_parse_fields g : grant_parse (grant_fields g) = Some g.
Proof. by destruct g. Qed.
Definition demo_serde_grant : Serde Grant :=
  demo_serde 12 grant_fields grant_parse (λ _, eq_refl) grant_parse_fields.

Definition family_fields (s : FamilySecret) : list str :=
  family_cookies s :: grant_fields (family_grant s).
Definition family_parse (fs : list str) : option FamilySecret :=
  match fs with c :: fs => mk_FamilySecret c <$> grant_parse fs | [] => None end.
Lemma family_parse_fields s : family_parse (family_fields s) = Some s.
Proof. by destruct s as [? []]. Qed.
Definition demo_serde_family : Serde FamilySecret :=
  demo_serde 13 family_fields family_parse (λ _, eq_refl) family_parse_fields.

Definition result_fields (x : ExchangeResult) : list str :=
  result_user_id x :: result_display_name x :: grant_fields (native_session x).
Definition result_parse (fs : list str) : option ExchangeResult :=
  match fs with u :: n :: fs => (λ g, mk_ExchangeResult u g n) <$> grant_parse fs | _ => None end.
Lemma result_parse_fields x : result_parse (result_fields x) = Some x.
Proof. by destruct x as [? [] ?]. Qed.
Definition demo_serde_result : Serde ExchangeResult :=
  demo_serde 14 result_fields result_parse (λ _, eq_refl) result_parse_fields.

Definition secret_fields (s : AttemptSecret) : list str :=
  [authorization_url s; login_cookie s; browser_cookie s; confirmation_nonce s; provider_cookies s;
   [provider_expires s]; secret_display_name s; handoff_code s].
Definition secret_parse (fs : list str) : option AttemptSecret :=
  match fs with
  | [a; b; c; d; e; [f]; g; h] => Some (mk_AttemptSecret a b c d e f g h)
  | _ => None
  end.
Lemma secret_parse_fields s : secret_parse (secret_fields s) = Some s.
Proof. by destruct s. Qed.
Definition demo_serde_secret : Serde AttemptSecret :=
  demo_serde 8 secret_fields secret_parse (λ _, eq_refl) secret_parse_fields.

#[local] Existing Instances demo_native demo_uuid demo_serde_grant demo_serde_family
  demo_serde_result demo_serde_secret.

(** ** The run *)

Definition demo_self : NativeSessions :=
  mk_NativeSessions demo_native
    (match Codec_new (demo_key 66) [] (lit "i") with Ok c => c | _ => mk_Codec [] [] [] end)
    (lit "https://o") (lit "https://issuer") (lit "i").
Definition demo_nonce : bytes := replicate 12 0%N.
Definition demo_principal : AuthenticatedPrincipal :=
  mk_AuthenticatedPrincipal
    (mk_User (mk_UserId 7) Human (mk_DisplayName (lit "Alice")) None None None 0%Z)
    (lit "https://issuer") (lit "alice") None.
Definition demo_auth : AuthService := mk_AuthService
  (λ _, Ok (mk_LoginStart (lit "https://issuer/auth") (lit "sproyt_oidc_tx=t; Path=/")))
  (λ _ _ _, Ok (mk_LoginComplete demo_principal (lit "sproyt_session=s; Path=/")
                  (Some (lit "sproyt_refresh=r; Path=/")) (lit "sproyt_oidc_tx=") (lit "/") None))
  (λ _, Ok demo_principal)
  (λ _, Ok (mk_SessionRenewal (lit "sproyt_session=s2; Path=/") (lit "sproyt_refresh=r2; Path=/") 270))
  (λ _, Ok 5000%N).
Definition demo_state : str := lit "state-state-state-state".
Definition demo_pairs (_ : str) : option (list (str * str)) := Some [(lit "state", demo_state)].
Definition demo_verifier : str := replicate 43 122%N.
Definition demo_id : str := demo_key 67.
Definition demo_header : option str :=
  Some (lit "a=b; " ++ native_cookie demo_id ++ lit "=" ++ demo_key 68).

Definition demo_op_login : NativeOp := NOp_login demo_auth demo_pairs (Ok demo_id) (Ok (demo_key 68))
  demo_nonce 1000 (mk_LoginRequest (hash demo_verifier) (lit "windows-loopback") 19092
                     (Some (uuid_display 7))).
Definition demo_run (op : NativeOp) (s : NativeSys) : NativeSys :=
  s <| ns_db := native_run demo_self op (ns_db s) |>.
Definition demo_sent : NativeSys :=
  demo_run (NOp_browser 1001 demo_id) (demo_run demo_op_login native_start).
Definition demo_claim : Res NativeError CallbackJob * NativeDb :=
  callback_claim demo_self 1002 (lit "code") demo_state demo_header (ns_db demo_sent).
Definition demo_job : CallbackJob :=
  match demo_claim.1 with
  | Ok job => job
  | _ => mk_CallbackJob [] (mk_Attempt [] [] [] None None [] None None None Attempt_new [] [] [] None []
           None [] [] []) (mk_AttemptSecret [] [] [] [] [] 0 [] [])
  end.
Definition demo_claimed : NativeSys :=
  demo_sent <| ns_db := demo_claim.2 |> <| ns_callbacks := <[0%N := demo_job]> (ns_callbacks demo_sent) |>
            <| ns_verified := callback_id demo_job :: ns_verified demo_sent |>.
Definition demo_verified : NativeSys :=
  demo_claimed <| ns_db := (callback_finish demo_self demo_auth (Ok (demo_key 69)) demo_nonce (lit "code")
                              demo_state demo_job (ns_db demo_claimed)).2 |>
               <| ns_callbacks := delete 0%N (ns_callbacks demo_claimed) |>.
Definition demo_ready : NativeSys :=
  demo_run (NOp_confirm 1003 (Ok (demo_key 70)) demo_nonce demo_id (demo_key 69) demo_header) demo_verified.

Definition demo_request : ExchangeRequest :=
  mk_ExchangeRequest demo_id (demo_key 70) demo_verifier (replicate 32 97%N) ENVIRONMENT
    (lit "windows-loopback").
Definition demo_exchange : Res NativeError ExchangeResult * NativeDb :=
  exchange demo_self 1004 (Ok (demo_key 71)) (Ok (demo_key 72)) (Ok (demo_key 73)) (Ok (demo_key 74))
    demo_nonce demo_nonce demo_request (ns_db demo_ready).
Definition demo_redeemed : NativeSys :=
  demo_ready <| ns_db := demo_exchange.2 |>
             <| ns_granted := granted (λ x, [native_session x]) demo_exchange.1 ++ ns_granted demo_ready |>.
Definition demo_grant : Grant :=
  mk_Grant SCOPE ENVIRONMENT (lit "i") (uuid_display 7) (demo_key 71) 0 0
    (lit "sproyt-access." ++ demo_key 72) (lit "sproyt-refresh." ++ demo_key 73)
    (lit "sproyt-revoke." ++ demo_key 74) 1304 (lit "Alice").
Definition demo_revoked : NativeSys := demo_run (NOp_revoke (revoke_token demo_grant)) demo_redeemed.
Definition demo_refresh (db : NativeDb) : Res NativeError Grant * NativeDb :=
  refresh demo_self demo_auth 1005 1006 (Ok (demo_key 75)) (Ok (demo_key 76)) (Ok (demo_key 77))
    demo_nonce demo_nonce (refresh_token demo_grant) (mk_RefreshRequest (replicate 32 98%N) 0) db.

Definition demo_refreshed : Grant :=
  demo_grant <| grant_generation := 1%N |> <| access_token := lit "sproyt-access." ++ demo_key 76 |>
    <| refresh_token := lit "sproyt-refresh." ++ demo_key 77 |> <| grant_expires_at := 1306%N |>.
Definition demo_refreshed_db : NativeDb := (demo_refresh (ns_db demo_redeemed)).2.

Lemma demo_codec_ok : codec_ok demo_self.
Proof. eexists. vm_compute. reflexivity. Qed.
Lemma demo_random_ok c : proof (demo_key c) = true → random_ok (Ok (demo_key c)).
Proof. intros Hp s [= <-]. exact Hp. Qed.

Lemma demo_exchange_Ok : demo_exchange = (Ok (grant_result demo_grant), ns_db demo_redeemed).
Proof.
  change (demo_exchange = (Ok (grant_result demo_grant), demo_exchange.2)).
  assert (demo_exchange.1 = Ok (grant_result demo_grant)) as E by (vm_compute; reflexivity).
  revert E. generalize demo_exchange. apply pair_of_fst.
Qed.

Lemma demo_ready_reachable : native_reachable demo_self demo_ready.
Proof.
  unfold native_reachable.
  eapply rtc_l; [apply (nstep_op _ _ demo_op_login)|].
  eapply rtc_l; [apply (nstep_op _ _ (NOp_browser 1001 demo_id))|].
  eapply rtc_l; [apply (nstep_callback_claim demo_self demo_sent 0 1002 (lit "code") demo_state demo_header
    demo_job demo_claim.2); [reflexivity|vm_compute; reflexivity]|].
  eapply rtc_l; [apply (nstep_callback_finish demo_self demo_claimed 0 demo_job demo_auth
    (Ok (demo_key 69)) demo_nonce (lit "code") demo_state); reflexivity|].
  eapply rtc_l; [apply (nstep_op _ _ (NOp_confirm 1003 (Ok (demo_key 70)) demo_nonce demo_id (demo_key 69)
    demo_header))|].
  apply rtc_refl.
Qed.
Lemma demo_redeemed_reachable : native_reachable demo_self demo_redeemed.
Proof.
  eapply rtc_r; [exact demo_ready_reachable|].
  apply (nstep_exchange demo_self demo_ready 1004 (Ok (demo_key 71)) (Ok (demo_key 72)) (Ok (demo_key 73))
    (Ok (demo_key 74)) demo_nonce demo_nonce demo_request demo_exchange.1 demo_exchange.2).
  - apply demo_random_ok. vm_compute. reflexivity.
  - reflexivity.
  - apply surjective_pairing.
Qed.
Lemma demo_revoked_reachable : native_reachable demo_self demo_revoked.
Proof. eapply rtc_r; [exact demo_redeemed_reachable|apply nstep_op]. Qed.
Lemma demo_refresh_fst : (demo_refresh (ns_db demo_redeemed)).1 = Ok demo_refreshed.
Proof. vm_compute. reflexivity. Qed.
Lemma demo_refresh_Ok : demo_refresh (ns_db demo_redeemed) = (Ok demo_refreshed, demo_refreshed_db).
Proof.
  unfold demo_refreshed_db. generalize demo_refresh_fst. generalize (demo_refresh (ns_db demo_redeemed)).
  apply pair_of_fst.
Qed.
Lemma demo_redeemed_receipts : native_refresh_receipts (ns_db demo_redeemed) = ∅.
Proof. vm_compute. reflexivity. Qed.
