(* ===== verification/NativeProps.v ===== *)
(** * NativeProps: theorems about native sessions

    Authentication accepts live families only; ended families stay ended; however
    requests are repeated and interleaved, a login code and a refresh grant reach the
    identity provider at most once, and a generation of a family has one grant; a
    grant handed out works until it expires, and repeating the request returns it. *)

From Stdlib Require Import ZifyBool.
From stdpp Require Import base tactics numbers strings countable gmap list relations.
From S2P Require Import Prelude RustStr Text Ids Models Sql Attachments NativeCodec NativeSessions NativeWrites NativeReach NativeDemo.

Section props.
Context `{NativeLib, UuidLib, Serde AttemptSecret, Serde FamilySecret, Serde ExchangeResult,
  Serde Grant}.
Context (self : NativeSessions).

(** ** Families that ended *)

Lemma step_keeps s s' :
  attempts_inv s → native_step self s s' →
  keeps (native_families (ns_db s)) (native_families (ns_db s')).
Proof.
  intros Hai Hstep. destruct Hstep as [op|now ff fa fr fv n1 n2 input r db' _ _ E
    |k now code st header job db' _ E|k job auth fresh nonce code st Hk
    |k now fl token input r db' Hk E|k job auth now fa fr n1 n2 r db' Hk _ E|k].
  - apply evolves_keeps, write_evolves, native_run_write.
  - by eapply evolves_keeps, exchange_evolves.
  - apply evolves_keeps, write_evolves.
    pose proof (callback_claim_writes self now code st header (ns_db s)) as Hw.
    unfold writes_at in Hw. by rewrite E in Hw.
  - by apply evolves_keeps, write_evolves, callback_finish_writes, (ai_callback _ Hai k).
  - apply refresh_claim_cases in E as [(job & -> & Hc)|[(g & -> & _ & ->)|[Hne Hf]]].
    + destruct Hc as (row & Hrow & Hact & _ & _ & _ & _ & _ & _ & _ & _ & _ & _ & ->).
      eapply insert_keeps; [done..|]. unfold dead. by rewrite Hact.
    + apply evolves_keeps, write_evolves, write_same.
    + destruct r as [start| |]; [by destruct (Hne start)|..];
        by apply evolves_keeps, write_evolves, write_fenced_off.
  - apply refresh_finish_cases in E as [(g & -> & Hs)|[_ Hf]];
      [|by apply evolves_keeps, write_evolves, write_fenced_off].
    destruct Hs as (row & ? & ? & ? & ? & ? & ? & ? & Hrow & Href & _ & _ & _ & _ & _ & _ & _ & _ & _ & ->).
    eapply insert_keeps; [done..|]. unfold dead. by rewrite Href.
  - apply evolves_keeps, write_evolves, write_same.
Qed.

Definition dead_family (id : str) (s : NativeSys) : Prop :=
  ∃ r, native_families (ns_db s) !! id = Some r ∧ dead r.

Lemma live_not_dead now db r : live_at now db r → ¬ dead r.
Proof. intros [Hl _]. unfold dead. congruence. Qed.

(** A dead family gets no more grants. *)
Lemma step_dead_grants id s s' :
  codec_ok self → refresh_inv s → grants_inv self s → native_step self s s' → dead_family id s →
  ∀ g, g ∈ ns_granted s' → grant_family g = id → g ∈ ns_granted s.
Proof.
  intros Hc Hri Hgi Hstep (r0 & Hr0 & Hd) g Hg Hid.
  destruct Hstep as [op|now ff fa fr fv n1 n2 input r db' _ _ E
    |k now code st header job db' _ E|k job auth fresh nonce code st Hk
    |k now fl token input r db' Hk E|k job auth now fa fr n1 n2 r db' Hk _ E|k]; simpl in Hg; try done.
  - apply exchange_cases in E as [Hf|[Hf|[Hne Hf]]].
    + destruct Hf as (a & e & secret & fam & acc & ref & rev & sealed & receipt & _ & _ & _ & _ & _ & _ & _ & _ & _
        & _ & _ & _ & _ & _ & Hn & _ & -> & ->). simpl in Hg.
      apply elem_of_cons in Hg as [->|Hg]; [|done]. simpl in Hid. congruence.
    + apply repeated_exchange_granted in Hf as (x & row & -> & Hx & -> & _); [|done..].
      by apply elem_of_again in Hg.
    + destruct r as [x| |]; [by destruct (Hne x)|done..].
  - apply refresh_claim_cases in E as [(job & -> & Hcl)|[(g' & -> & Hrep & ->)|[Hne Hf]]]; [done| |].
    + apply repeated_refresh_granted in Hrep as [Hx _]; [|done..]. by apply elem_of_again in Hg.
    + destruct r as [start| |]; [by destruct (Hne start)|done..].
  - apply refresh_finish_cases in E as [(g' & -> & Hs)|[Hne Hf]];
      [|by destruct r as [x| |]; [destruct (Hne x)|..]].
    simpl in Hg. apply elem_of_cons in Hg as [->|Hg]; [|done].
    destruct Hs as (row & acc & ref & ck & ex & pr & sealed & rc & Hrow & Href & _ & _ & _ & _ & -> & _).
    destruct (ri_job _ Hri k job Hk) as (_ & _ & Hfam & _). simpl in Hid. rewrite <- Hid, Hfam in Hr0.
    simplify_eq. unfold dead in Hd. by rewrite Href in Hd.
Qed.

Lemma steps_dead id s s' :
  codec_ok self → native_reachable self s → rtc (native_step self) s s' → dead_family id s →
  dead_family id s' ∧ ∀ g, g ∈ ns_granted s' → grant_family g = id → g ∈ ns_granted s.
Proof.
  intros Hc Hr Hsteps. induction Hsteps as [s|s1 s2 s3 Hstep _ IH]; [eauto|]. intros Hd.
  destruct (native_reachable_inv self s1 Hc Hr) as (Hri & Hai & Hgi).
  destruct IH as [Hd3 Hg3].
  - eapply rtc_r; done.
  - destruct Hd as (r & Hrow & Hd). destruct (step_keeps _ _ Hai Hstep id r Hrow) as (r' & Hr' & _ & Hd' & _).
    exists r'. auto.
  - split; [done|]. intros g Hg Hid. eapply step_dead_grants; eauto.
Qed.

Lemma fence_dead now id r db :
  dead r → fence now id r db = (Err NativeError_Unauthorized, db).
Proof. intros Hd. unfold fence, st_bind, ensure. unfold dead in Hd. by rewrite Hd. Qed.
Lemma referenced_dead now reference db r :
  native_families db !! ref_family reference = Some r → dead r →
  referenced self now reference db = (Err NativeError_Unauthorized, db).
Proof.
  intros Hr Hd. unfold referenced, transaction_with, transaction, family, fenced_or_commit.
  cbv [st_bind get st_lift ok_or]. rewrite Hr. by rewrite fence_dead.
Qed.

(** ** Live families *)

Lemma fence_live now id r db :
  native_families db !! id = Some r → live_at now db r → fence now id r db = (Ok tt, db).
Proof.
  intros Hr Hl. destruct (fence now id r db) as [res db'] eqn:E.
  by apply (fence_cases _ _ _ _ _ _ Hr) in E as [(-> & -> & _)|(_ & Hno & _)].
Qed.
Lemma fenced_or_commit_live {A} now id r (k : NativeM (Res NativeError A)) db :
  native_families db !! id = Some r → live_at now db r → fenced_or_commit now id r k db = k db.
Proof. intros Hr Hl. unfold fenced_or_commit. by rewrite fence_live. Qed.

(** A row that agrees with the secret sealed in it. *)
Definition row_agrees (id : str) (r : Family) (secret : FamilySecret) : Prop :=
  let g := family_grant secret in
  grant_scope g = SCOPE ∧ grant_environment g = ENVIRONMENT
  ∧ grant_instance_id g = native_instance self ∧ grant_user_id g = f_user_id r
  ∧ grant_family g = id ∧ f_epoch r = Some (grant_epoch g) ∧ f_generation r = Some (grant_generation g)
  ∧ hash (access_token g) = f_access_hash r ∧ hash (refresh_token g) = f_refresh_hash r
  ∧ hash (revoke_token g) = f_revoke_hash r ∧ f_expires_at r = Some (grant_expires_at g)
  ∧ open (native_codec self) (family_purpose id) (f_secret r) = Ok secret.
Lemma family_secret_iff id r secret :
  family_secret self id r = Ok secret ↔ row_agrees id r secret.
Proof.
  split; [apply family_secret_Ok|].
  intros (E1 & E2 & E3 & E4 & E5 & E6 & E7 & E8 & E9 & E10 & E11 & Ho). unfold family_secret.
  rewrite Ho. cbn [res_bind]. rewrite E6, E7, E11. cbn [number ok_or res_bind].
  by rewrite !bool_decide_false by congruence.
Qed.

Lemma referenced_live now reference db r secret expires :
  native_families db !! ref_family reference = Some r → live_at now db r →
  f_access_hash r = ref_access_hash reference → f_generation r = Some (ref_generation reference) →
  f_epoch r = Some (ref_epoch reference) → f_expires_at r = Some expires → (now < expires)%N →
  family_secret self (ref_family reference) r = Ok secret →
  referenced self now reference db = (Ok secret, db).
Proof.
  intros Hr Hl Ha Hg He Hx Hlt Hs. unfold referenced, transaction_with, transaction, family.
  cbv [st_bind get]. rewrite Hr. cbv [st_lift ok_or].
  rewrite (fenced_or_commit_live _ _ _ _ _ Hr Hl). cbv [ensure number ok_or st_ret].
  rewrite !bool_decide_true by done. rewrite Hx, Hs. simpl.
  by replace (expires <=? now)%N with false by lia.
Qed.

(** The session behind an access token is found when its family is live. *)
Lemma authenticate_live auth now now' token id r secret principal db :
  token_of (lit "sproyt-access.") token = true →
  native_families db !! id = Some r → f_access_hash r = hash token →
  (∀ id' r', native_families db !! id' = Some r' → f_access_hash r' = hash token → id' = id) →
  live_at now db r → live_at now' db r → family_secret self id r = Ok secret →
  (now < grant_expires_at (family_grant secret))%N →
  (now' < grant_expires_at (family_grant secret))%N →
  auth_authenticate_session auth (Some (family_cookies secret)) = Ok principal →
  uuid_display (UserId_as_uuid (User_id (principal_user principal)))
    = grant_user_id (family_grant secret) →
  authenticate_ref self auth now now' token db
  = (Ok (principal, mk_NativeSessionRef id (hash token) (grant_generation (family_grant secret))
                      (grant_epoch (family_grant secret))), db).
Proof.
  intros Ht Hr Hh Huq Hl Hl' Hs Hlt Hlt' Hauth Huser.
  pose proof (family_secret_Ok _ _ _ _ Hs) as (_ & _ & _ & _ & _ & He & Hg & _ & _ & _ & Hx & _).
  unfold authenticate_ref, token_reference, recheck, recheck_first, recheck_second. rewrite Ht.
  assert (fetch_where (λ _ r, bool_decide (f_access_hash r = hash token)) (native_families db)
          = Some (id, r)) as Hfetch.
  { apply fetch_where_unique; [done|by apply bool_decide_true|].
    intros k' v' Hk' Hp. apply bool_decide_eq_true in Hp. eauto. }
  set (reference := mk_NativeSessionRef _ _ _ _).
  assert (∀ t, (t < grant_expires_at (family_grant secret))%N → live_at t db r →
    referenced self t reference db = (Ok secret, db)) as Href
    by (intros t Ht' Hlt0; eapply (referenced_live t reference); done).
  cbv [st_bind ensure get st_lift st_ret ok_or number map_err]. rewrite Hfetch. cbn [fst snd]. rewrite Hg, He.
  fold reference. rewrite Href by done. rewrite Hauth. rewrite bool_decide_true by done.
  by rewrite Href by done.
Qed.

(** ** The unique columns *)

Definition hashes_unique (fams : gmap str Family) : Prop :=
  ∀ id1 id2 r1 r2, fams !! id1 = Some r1 → fams !! id2 = Some r2 →
    f_access_hash r1 = f_access_hash r2 ∨ f_refresh_hash r1 = f_refresh_hash r2 → id1 = id2.

Lemma family_clash_false id r db :
  family_clash id r db = false →
  ∀ id' r', native_families db !! id' = Some r' → id' ≠ id →
    f_access_hash r' ≠ f_access_hash r ∧ f_refresh_hash r' ≠ f_refresh_hash r.
Proof.
  unfold family_clash, any. intros Hc id' r' Hr' Hne. rewrite <- not_true_iff_false, existsb_exists in Hc.
  split; intros E; apply Hc; exists (id', r');
    (split; [by apply list_elem_of_In, elem_of_map_to_list|]); simpl;
    rewrite !andb_true_iff, !orb_true_iff, !bool_decide_eq_true; tauto.
Qed.
Lemma evolves_unique db db' :
  native_write db db' → hashes_unique (native_families db) → hashes_unique (native_families db').
Proof.
  intros Hw Hu id1 id2 r1 r2 Hr1 Hr2 E.
  destruct (write_family_back _ _ _ _ Hw Hr1) as (q1 & Hq1 & (_ & _ & _ & ? & ? & _)%fades_fields).
  destruct (write_family_back _ _ _ _ Hw Hr2) as (q2 & Hq2 & (_ & _ & _ & ? & ? & _)%fades_fields).
  apply (Hu id1 id2 q1 q2 Hq1 Hq2). destruct E; [left|right]; congruence.
Qed.
Lemma insert_unique id r db :
  family_clash id r db = false → hashes_unique (native_families db) →
  hashes_unique (<[id := r]> (native_families db)).
Proof.
  intros Hc Hu id1 id2 r1 r2 [[<- <-]|[Hn1 Hr1]]%lookup_insert_Some [[<- <-]|[Hn2 Hr2]]%lookup_insert_Some E;
    [done| | |by eapply Hu].
  - destruct (family_clash_false _ _ _ Hc id2 r2 Hr2); [done|]. destruct E; congruence.
  - destruct (family_clash_false _ _ _ Hc id1 r1 Hr1); [done|]. destruct E; congruence.
Qed.

Lemma step_unique s s' :
  attempts_inv s → native_step self s s' → hashes_unique (native_families (ns_db s)) →
  hashes_unique (native_families (ns_db s')).
Proof.
  intros Hai Hstep. destruct Hstep as [op|now ff fa fr fv n1 n2 input r db' _ _ E
    |k now code st header job db' _ E|k job auth fresh nonce code st Hk
    |k now fl token input r db' Hk E|k job auth now fa fr n1 n2 r db' Hk _ E|k]; simpl.
  - apply evolves_unique, native_run_write.
  - apply exchange_cases in E as [Hf|[Hf|[_ Hf]]]; [| |by apply evolves_unique, write_fenced_off].
    + destruct Hf as (a & e & secret & fam & acc & ref & rev & sealed & receipt & _ & _ & _ & _ & _ & _ & _ & _ & _
        & _ & _ & _ & _ & _ & Hn & Hc & _ & ->). by apply insert_unique.
    + by destruct Hf as (? & ? & ? & ? & _ & _ & _ & _ & _ & _ & _ & _ & _ & _ & _ & ->).
  - apply evolves_unique. pose proof (callback_claim_writes self now code st header (ns_db s)) as Hw.
    unfold writes_at in Hw. by rewrite E in Hw.
  - by apply evolves_unique, callback_finish_writes, (ai_callback _ Hai k).
  - apply refresh_claim_cases in E as [(job & -> & Hc)|[(g & -> & _ & ->)|[Hne Hf]]]; [|done|].
    + destruct Hc as (row & Hrow & _ & _ & _ & _ & _ & _ & _ & _ & _ & _ & _ & ->). simpl.
      intros Hu id1 id2 r1 r2 Hr1 Hr2 E.
      assert (∀ id' r', <[job_family job := claimed_row (job_lease job) now row]> (native_families (ns_db s)) !! id' = Some r' →
        ∃ q, native_families (ns_db s) !! id' = Some q ∧ f_access_hash q = f_access_hash r'
          ∧ f_refresh_hash q = f_refresh_hash r') as Hback
        by (intros id' r' [[<- <-]|[_ Hr']]%lookup_insert_Some; eauto).
      destruct (Hback _ _ Hr1) as (q1 & Hq1 & E1 & E2), (Hback _ _ Hr2) as (q2 & Hq2 & E3 & E4).
      apply (Hu id1 id2 q1 q2 Hq1 Hq2). destruct E; [left|right]; congruence.
    + destruct r as [start| |]; [by destruct (Hne start)|..]; by apply evolves_unique, write_fenced_off.
  - apply refresh_finish_cases in E as [(g & -> & Hs)|[_ Hf]]; [|by apply evolves_unique, write_fenced_off].
    destruct Hs as (row & ? & ? & ? & ? & ? & ? & ? & _ & _ & _ & _ & _ & _ & _ & _ & _ & _ & Hc & ->).
    by apply insert_unique.
  - done.
Qed.
Lemma native_reachable_unique s :
  codec_ok self → native_reachable self s → hashes_unique (native_families (ns_db s)).
Proof.
  intros Hc Hr. apply rtc_ind_r with (P := λ s, hashes_unique (native_families (ns_db s))) in Hr; [done| |].
  - intros id1 id2 r1 r2 Hr1. simpl in Hr1. by rewrite lookup_empty in Hr1.
  - intros s1 s2 Hr1 Hstep Hu. eapply step_unique; [|done..].
    by destruct (native_reachable_inv self s1 Hc Hr1) as (_ & ? & _).
Qed.
End props.

(** ** Theorems *)

(** What must hold of the row of a family when a token is accepted. *)
Definition session_good `{NativeLib} (now : N) (token : str) (reference : NativeSessionRef)
    (db : NativeDb) (r : Family) : Prop :=
  native_families db !! ref_family reference = Some r ∧ live_at now db r
  ∧ f_access_hash r = hash token ∧ f_generation r = Some (ref_generation reference)
  ∧ f_epoch r = Some (ref_epoch reference) ∧ ∃ until, f_expires_at r = Some until ∧ (now < until)%N.

Lemma referenced_good `{NativeLib, UuidLib, Serde AttemptSecret, Serde FamilySecret, Serde ExchangeResult,
    Serde Grant} self now reference db secret db' token :
  ref_access_hash reference = hash token → referenced self now reference db = (Ok secret, db') →
  db' = db ∧ ∃ r, session_good now token reference db r ∧ grant_user_id (family_grant secret) = f_user_id r.
Proof.
  intros Hh [(secret' & r & until & ? & ?)|[Hno _]]%referenced_cases; [|by destruct (Hno secret eq_refl)].
  destruct_and!; simplify_eq/=. split; [done|]. exists r.
  match goal with Hs : family_secret _ _ _ = Ok _ |- _ =>
    apply family_secret_Ok in Hs as (_ & _ & _ & Hu & _) end.
  split; [|done]. unfold session_good. rewrite <- Hh. eauto 10.
Qed.
Lemma steps_user `{NativeLib, UuidLib, Serde AttemptSecret, Serde FamilySecret, Serde ExchangeResult,
    Serde Grant} self s s' id r r' :
  codec_ok self → native_reachable self s → rtc (native_step self) s s' →
  native_families (ns_db s) !! id = Some r → native_families (ns_db s') !! id = Some r' →
  f_user_id r' = f_user_id r.
Proof.
  intros Hc Hr Hsteps. revert r. induction Hsteps as [s|s s1 s' Hstep _ IH]; intros r Hid Hid'; [congruence|].
  destruct (native_reachable_inv self s Hc Hr) as (_ & Hai & _).
  destruct (step_keeps self s s1 Hai Hstep id r Hid) as (r1 & Hr1 & Hu & _).
  rewrite (IH (rtc_r _ _ _ Hr Hstep) r1 Hr1 Hid'). done.
Qed.

(** C9: an access token is accepted only while its session is good. An authentication finds
    the token's family, looks at it and asks the provider, and looks again, in three
    transactions; whatever refreshes, revocations and other steps come between them, when it
    succeeds then at both looks, each at its own time and in the database of its own moment,
    the token's hash is the family's current one, the family has the generation and the epoch
    that were found, it is active or its refresh lease still runs, its epoch is the user's
    current epoch and the grant has not expired; the principal the provider confirmed is the
    family's user; and nothing was written. *)
Theorem native_authentication_sound `{NativeLib, UuidLib, Serde AttemptSecret, Serde FamilySecret,
    Serde ExchangeResult, Serde Grant} self auth now now' token s0 s1 s2 reference principal db0 db1 db2 :
  codec_ok self → native_reachable self s0 →
  rtc (native_step self) s0 s1 → rtc (native_step self) s1 s2 →
  token_reference token (ns_db s0) = (Ok reference, db0) →
  recheck_first self auth now reference (ns_db s1) = (Ok principal, db1) →
  recheck_second self now' reference (ns_db s2) = (Ok tt, db2) →
  (db0 = ns_db s0 ∧ db1 = ns_db s1 ∧ db2 = ns_db s2)
  ∧ ∃ r r', session_good now token reference (ns_db s1) r
      ∧ session_good now' token reference (ns_db s2) r'
      ∧ f_user_id r = f_user_id r'
      ∧ f_user_id r = uuid_display (UserId_as_uuid (User_id (principal_user principal))).
Proof.
  intros Hc Hr0 H01 H12 Hlook Hfirst Hsecond.
  unfold token_reference in Hlook. nat_inv Hlook.
  unfold recheck_first in Hfirst. nat_inv Hfirst. unfold recheck_second in Hsecond. nat_inv Hsecond.
  repeat match goal with Hx : referenced _ _ _ _ = (Ok _, _) |- _ =>
    apply (referenced_good _ _ _ _ _ _ token) in Hx as [? (? & ? & ?)]; [|done] end.
  subst. split; [done|]. bool_facts. do 2 eexists. split_and!; [eassumption|eassumption| |congruence].
  symmetry. eapply (steps_user self s1 s2); [done|unfold native_reachable; by etrans|done| |];
    match goal with Hg : session_good _ _ _ ?db _ |- native_families ?db !! _ = _ => apply Hg end.
Qed.

(** C25: however clients repeat their requests and the steps interleave: an attempt's login
    code and a generation's refresh grant reach the identity provider at most once,
    clients never receive two different grants for one generation of a family, and a
    running refresh of a live family holds its lease alone. *)
Theorem native_requests_once `{NativeLib, UuidLib, Serde AttemptSecret, Serde FamilySecret,
    Serde ExchangeResult, Serde Grant} self s :
  codec_ok self → native_reachable self s →
  NoDup (ns_verified s) ∧ NoDup (ns_renewed s)
  ∧ (∀ g g', g ∈ ns_granted s → g' ∈ ns_granted s → grant_family g = grant_family g' →
       grant_generation g = grant_generation g' → g = g')
  ∧ ∀ k1 k2 job1 job2 r, ns_refreshes s !! k1 = Some job1 → ns_refreshes s !! k2 = Some job2 →
      job_family job1 = job_family job2 → native_families (ns_db s) !! job_family job1 = Some r →
      live_phase (f_phase r) = true →
      k1 = k2 ∧ f_phase r = Family_refreshing ∧ f_lease_id r = job_lease job1.
Proof.
  intros Hc Hr. destruct (native_reachable_inv self s Hc Hr) as (Hri & Hai & Hgi).
  split_and!; [apply Hai|apply Hri|apply (gi_unique _ _ Hgi)|].
  intros k1 k2 job1 job2 r Hk1 Hk2 Hf Hrow Hl.
  assert (¬ dead r) as Hnd by (unfold dead; congruence).
  split; [by eapply (ri_unique _ Hri k1 k2)|].
  destruct (ri_job _ Hri k1 job1 Hk1) as (_ & _ & _ & r' & ? & [Hd|(? & ? & _)]); by simplify_eq.
Qed.

(** A family that was revoked or must log in again has ended for good: whatever
    happens later, no look at it succeeds and no client receives a grant for it that
    was not handed out before. *)
Theorem native_ended_final `{NativeLib, UuidLib, Serde AttemptSecret, Serde FamilySecret,
    Serde ExchangeResult, Serde Grant} self s id r s' :
  codec_ok self → native_reachable self s → native_families (ns_db s) !! id = Some r →
  live_phase (f_phase r) = false → rtc (native_step self) s s' →
  (∀ now reference, ref_family reference = id →
     referenced self now reference (ns_db s') = (Err NativeError_Unauthorized, ns_db s'))
  ∧ (∀ g, g ∈ ns_granted s' → grant_family g = id → g ∈ ns_granted s).
Proof.
  intros Hc Hr Hrow Hd Hsteps.
  destruct (steps_dead self id s s' Hc Hr Hsteps) as [(r' & Hr' & Hd') Hg]; [by exists r|].
  split; [|done]. intros now reference <-. by eapply referenced_dead.
Qed.

(** In every reachable state the families are bound to their logins: a redeemed
    attempt has a family of its own, which belongs to the user the client expected (if
    it named one); the family of a cancelled attempt is revoked; and an attempt that
    was never redeemed has none. The generation of a family fits a [u64]. *)
Theorem native_attempts_bound `{NativeLib, UuidLib, Serde AttemptSecret, Serde FamilySecret,
    Serde ExchangeResult, Serde Grant} self s :
  codec_ok self → native_reachable self s →
  (∀ id a, native_attempts (ns_db s) !! id = Some a → attempt_ok (native_families (ns_db s)) a)
  ∧ (∀ id1 id2 a1 a2, native_attempts (ns_db s) !! id1 = Some a1 →
       native_attempts (ns_db s) !! id2 = Some a2 → a_family a1 ≠ [] →
       a_family a1 = a_family a2 → id1 = id2)
  ∧ (∀ id r, native_families (ns_db s) !! id = Some r →
       ∃ g, f_generation r = Some g ∧ (g ≤ u64_max)%N).
Proof.
  intros Hc Hr. destruct (native_reachable_inv self s Hc Hr) as (Hri & Hai & _).
  split_and!; [apply (ai_ok _ Hai)|apply (ai_owner _ Hai)|apply (ri_generation _ Hri)].
Qed.

Section usable.
Context `{NativeLib, UuidLib, Serde AttemptSecret, Serde FamilySecret, Serde ExchangeResult,
  Serde Grant}.
Context (self : NativeSessions).

(** JSON that can be sealed and opened. *)
Definition fits {T} `{Serde T} (v : T) : Prop :=
  ∀ raw, to_vec v = Some raw → (N.of_nat (length raw) ≤ seal_limit)%N.

Lemma open_fits {T} `{Serde T} nonce purpose (v : T) s :
  codec_ok self → nonce_ok nonce → seal (native_codec self) nonce purpose v = Ok s → fits v →
  open (native_codec self) purpose s = Ok v.
Proof.
  intros [rest Hc] Hn Hs Hf. pose proof (codec_seal_Ok _ _ _ _ _ Hs) as (raw & e & Hraw & _).
  by eapply open_sealed_same; [..|apply Hf].
Qed.

(** The current grant of a family works: with the provider confirming the user, its
    access token is accepted until it expires. *)
Definition grant_works (db : NativeDb) (secret : FamilySecret) : Prop :=
  let g := family_grant secret in
  ∀ auth t t' principal,
    (t < grant_expires_at g)%N → (t' < grant_expires_at g)%N →
    auth_authenticate_session auth (Some (family_cookies secret)) = Ok principal →
    uuid_display (UserId_as_uuid (User_id (principal_user principal))) = grant_user_id g →
    authenticate_ref self auth t t' (access_token g) db
    = (Ok (principal, mk_NativeSessionRef (grant_family g) (hash (access_token g))
                        (grant_generation g) (grant_epoch g)), db).

Lemma strip_prefix_app p s : strip_prefix (p ++ s) p = Some s.
Proof.
  unfold strip_prefix. assert (starts_with (p ++ s) p = true) as ->.
  - induction p as [|c p IH]; [by destruct s|]. simpl. by rewrite bool_decide_true.
  - by rewrite drop_app_length.
Qed.
Lemma token_of_app p s : token_of p (p ++ s) = proof s.
Proof. unfold token_of. by rewrite strip_prefix_app. Qed.

Lemma active_live db r e c t :
  f_phase r = Family_active → current_epoch db (f_user_id r) = Ok (e, c) → f_epoch r = Some e →
  live_at t db r.
Proof. intros Hp He Hf. unfold live_at. rewrite Hp. split_and!; [done|by eauto|done]. Qed.

Lemma locked_attempt_eq id db a :
  native_attempts db !! id = Some a → locked_attempt id db = (Ok a, db).
Proof.
  intros Ha. unfold locked_attempt, attempt. unfold st_bind at 1.
  rewrite (exec_attempt_eq id _ _ db a) by done. rewrite insert_id, set_attempts_id by done.
  cbv [st_bind ensure get]. by rewrite Ha.
Qed.

(** What a request for a grant must look like. *)
Definition exchange_valid (input : ExchangeRequest) : bool :=
  proof (exchange_transaction_id input) && proof (exchange_code input)
  && verifier (exchange_verifier input) && operation (exchange_redemption_id input)
  && bool_decide (exchange_environment input = ENVIRONMENT)
  && bool_decide (exchange_destination_id input = lit "windows-loopback").
Lemma exchange_Ok_valid now ff fa fr fv n1 n2 input db x db' :
  exchange self now ff fa fr fv n1 n2 input db = (Ok x, db') → exchange_valid input = true.
Proof. unfold exchange. by intros [[? _]|[? _]]%ensure_then_inv. Qed.

Lemma exchange_again t ff fa fr fv n1 n2 input db a e c until row x :
  exchange_valid input = true → native_attempts db !! exchange_transaction_id input = Some a →
  a_phase a = Attempt_redeemed → hash (exchange_verifier input) = a_challenge a →
  hash (exchange_code input) = a_code_hash a → a_epoch a = Some e →
  current_epoch db (a_user_id a) = Ok (e, c) → a_redemption_id a = exchange_redemption_id input →
  a_receipt_expires a = Some until → (t < until)%N → native_families db !! a_family a = Some row →
  live_at t db row →
  open (native_codec self) (handoff_purpose (exchange_transaction_id input)) (a_receipt a) = Ok x →
  exchange self t ff fa fr fv n1 n2 input db = (Ok x, db).
Proof.
  intros Hv Ha Hp Hc Hh He Hep Hr Hu Hlt Hrow Hl Ho. unfold exchange.
  fold (exchange_valid input). rewrite Hv. unfold st_bind at 1, ensure at 1. cbv zeta.
  unfold transaction_with, transaction. unfold st_bind at 1. rewrite (locked_attempt_eq _ _ _ Ha).
  unfold st_bind at 1, ensure at 1. rewrite !bool_decide_true by done.
  unfold st_bind at 1. rewrite epoch_eq, Hep. unfold st_bind at 1. rewrite He. cbn [number ok_or st_lift].
  unfold st_bind at 1, ensure at 1. cbn [fst]. rewrite N.eqb_refl.
  unfold st_bind at 1, ensure at 1. unfold st_bind at 1. rewrite Hu. cbn [number ok_or st_lift].
  unfold st_bind at 1, ensure at 1. replace (until <=? t)%N with false by lia. cbn [negb].
  unfold st_bind at 1, family. cbv [st_bind get]. rewrite Hrow. cbn [ok_or st_lift].
  rewrite (fenced_or_commit_live _ _ _ _ _ Hrow Hl). by rewrite Ho.
Qed.
End usable.

(** A redeemed login works: the access token handed out is accepted until it expires,
    and for 60 seconds repeating the request returns the same grant and changes
    nothing, provided the sealed JSON has at most 65508 bytes. *)
Theorem native_exchange_usable `{NativeLib, UuidLib, Serde AttemptSecret, Serde FamilySecret,
    Serde ExchangeResult, Serde Grant} self now ff fa fr fv n1 n2 input db a x db' :
  codec_ok self → nonce_ok n1 → nonce_ok n2 → random_ok fa →
  native_attempts db !! exchange_transaction_id input = Some a → a_phase a = Attempt_ready →
  exchange self now ff fa fr fv n1 n2 input db = (Ok x, db') →
  (∃ secret, family_grant secret = native_session x ∧ (fits secret → grant_works self db' secret))
  ∧ (fits x → ∀ t ff' fa' fr' fv' n1' n2', (t < now + 60)%N →
       exchange self t ff' fa' fr' fv' n1' n2' input db' = (Ok x, db')).
Proof.
  intros Hc Hn1 Hn2 Hfa Ha Hp Hex. pose proof (exchange_Ok_valid _ _ _ _ _ _ _ _ _ _ _ _ Hex) as Hv.
  apply exchange_cases in Hex as [Hf|[(? & ? & ? & ? & ? & ? & _)|[Hno _]]];
    [|congruence|by destruct (Hno x)].
  destruct Hf as (a0 & e & secret & fam & acc & ref & rev & sealed & receipt & ? & _ & Hve & Hco & He & (c & Hep)
    & Ho & -> & -> & -> & -> & Hx & Hs1 & Hs2 & Hn & Hcl & [= ->] & ->). simplify_eq.
  set (g := new_grant self now a e secret fam acc ref rev) in *. set (row := family_row g sealed).
  set (db' := _ <| native_families := _ |>).
  assert (native_families db' !! fam = Some row) as Hrow by apply lookup_insert_eq.
  assert (∀ t, live_at t db' row) as Hlive by (intros t; by eapply active_live).
  split.
  - exists (mk_FamilySecret (provider_cookies secret) g). split; [done|]. intros Hfits.
    intros auth t t' principal Ht Ht' Hauth Hu.
    apply (authenticate_live self auth t t' (access_token g) fam row); try done.
    + etrans; [apply (token_of_app (lit "sproyt-access.") acc)|by apply Hfa].
    + intros id' r' Hr' E. change (<[fam := row]> (native_families db) !! id' = Some r') in Hr'.
      apply lookup_insert_Some in Hr' as [[? _]|[Hne Hr']]; [done|].
      by destruct (family_clash_false _ _ _ Hcl id' r' Hr' (not_eq_sym Hne)).
    + apply family_secret_iff. unfold row_agrees. split_and!; try done.
      by apply (open_fits self n1 _ _ sealed).
  - intros Hfits t ff' fa' fr' fv' n1' n2' Ht.
    apply (exchange_again self t ff' fa' fr' fv' n1' n2' input db' (redeemed input now fam receipt a)
      e c (now + 60)%N row); try done; [apply lookup_insert_eq|].
    by apply (open_fits self n2).
Qed.

Section refreshing.
Context `{NativeLib, UuidLib, Serde AttemptSecret, Serde FamilySecret, Serde ExchangeResult,
  Serde Grant}.
Context (self : NativeSessions).

Definition refresh_valid (token : str) (input : RefreshRequest) : bool :=
  token_of (lit "sproyt-refresh.") token && operation (refresh_operation_id input)
  && negb (refresh_generation input =? u64_max)%N.
Lemma refresh_claim_Ok_valid now fl token input db x db' :
  refresh_claim self now fl token input db = (Ok x, db') → refresh_valid token input = true.
Proof. unfold refresh_claim. by intros [[? _]|[? _]]%ensure_then_inv. Qed.

(** A request whose result is kept returns it. *)
Lemma refresh_claim_again t fl token input db receipt row until g :
  refresh_valid token input = true →
  native_refresh_receipts db !! (hash token, refresh_operation_id input, refresh_generation input)
    = Some receipt →
  native_families db !! r_family receipt = Some row → live_at t db row →
  r_expires_at receipt = Some until → (t < until)%N →
  open (native_codec self) (refresh_purpose (hash token) (refresh_operation_id input)
    (refresh_generation input)) (r_result receipt) = Ok g →
  refresh_claim self t fl token input db = (Ok (Refresh_replayed g), db).
Proof.
  intros Hv Hr Hrow Hl Hu Hlt Ho. unfold refresh_claim. fold (refresh_valid token input).
  rewrite Hv. unfold st_bind at 1, ensure at 1. cbv zeta. unfold transaction_with, transaction.
  unfold st_bind at 1, get at 1. rewrite Hr. unfold st_bind at 1, family. cbv [st_bind get].
  rewrite Hrow. cbn [ok_or st_lift]. rewrite (fenced_or_commit_live _ _ _ _ _ Hrow Hl).
  rewrite Hu. cbv [st_lift number ok_or ensure]. rewrite Ho. cbv [st_ret].
  by replace (until <=? t)%N with false by lia.
Qed.
(** A token that belongs to no family is refused. *)
Lemma refresh_claim_unknown t fl token input db :
  native_refresh_receipts db !! (hash token, refresh_operation_id input, refresh_generation input)
    = None →
  (∀ id r, native_families db !! id = Some r → f_refresh_hash r ≠ hash token) →
  refresh_claim self t fl token input db = (Err NativeError_Unauthorized, db).
Proof.
  intros Hr Hno. unfold refresh_claim. unfold st_bind at 1, ensure at 1.
  destruct (_ && _ && _); [|done]. cbv zeta. unfold transaction_with, transaction.
  unfold st_bind at 1, get at 1. rewrite Hr.
  assert (fetch_where (λ _ r, bool_decide (f_refresh_hash r = hash token)) (native_families db) = None)
    as Hf; [|unfold st_bind, st_lift; by rewrite Hf].
  destruct (fetch_where _ _) as [[id r]|] eqn:E; [|done]. apply fetch_where_Some in E as [Hid Hp].
  apply bool_decide_eq_true in Hp. by destruct (Hno id r Hid).
Qed.

(** What a whole refresh leaves behind. *)
Definition refreshed_to (now' : N) (fa : Res NativeError str) n1 n2 (token : str)
    (input : RefreshRequest) db (job : RefreshJob) (g : Grant) db' : Prop :=
  ∃ row row' cookies acc receipt,
    let id := job_family job in let secret := mk_FamilySecret cookies g in
    native_families db !! id = Some row ∧ f_refresh_hash row = hash token
    ∧ grant_generation g = (refresh_generation input + 1)%N ∧ grant_family g = id
    ∧ native_families db' = <[id := row']> (native_families db)
    ∧ f_refresh_hash row' = hash (refresh_token g) ∧ (∀ t, live_at t db' row')
    ∧ native_refresh_receipts db' = <[(hash token, refresh_operation_id input, refresh_generation input)
        := mk_Receipt id (Some (now' + 60)%N) receipt]> (native_refresh_receipts db)
    ∧ fa = Ok acc ∧ access_token g = lit "sproyt-access." ++ acc
    ∧ seal (native_codec self) n1 (family_purpose id) secret = Ok (f_secret row')
    ∧ seal (native_codec self) n2 (refresh_purpose (hash token) (refresh_operation_id input)
        (refresh_generation input)) g = Ok receipt
    ∧ (open (native_codec self) (family_purpose id) (f_secret row') = Ok secret →
       row_agrees self id row' secret)
    ∧ f_access_hash row' = hash (access_token g)
    ∧ ∀ id' r', native_families db !! id' = Some r' → id' ≠ id →
        f_access_hash r' ≠ hash (access_token g).

Lemma refresh_effect now now' fl fa fr n1 n2 token input db job g db1 db' :
  claims_refresh self now fl token input db job db1 →
  stores_refresh self now' fa fr n1 n2 db1 job g db' →
  refreshed_to now' fa n1 n2 token input db job g db'.
Proof.
  intros (row & Hrow & Hact & Hh & Hgen & _ & (_ & (e & c & Hep & Hfe) & _) & Hsec & _ & _ & Hold & Hin & _ & ->)
    (row1 & acc & ref & ck & ex & pr & sealed & rc & Hrow1 & _ & _ & _ & Hacc & _ & Hg & Hs1 & Hs2 & _ & Hcl & ->).
  simpl in Hrow1. rewrite lookup_insert_eq in Hrow1. injection Hrow1 as <-.
  apply family_secret_Ok in Hsec as (E1 & E2 & E3 & E4 & E5 & E6 & E7 & E8 & E9 & E10 & E11 & _).
  set (row1 := claimed_row _ _ _) in *. unfold refresh_key. rewrite Hold, Hin in *.
  exists row, (stored_row g sealed row1), ck, acc, rc. cbv zeta. subst g. split_and!; try done.
  - simpl. congruence.
  - simpl. by rewrite insert_insert_eq.
  - intros t. by eapply (active_live _ _ e c).
  - intros id' r' Hr' Hne. eapply (family_clash_false _ _ _ Hcl); [|done].
    simpl. by rewrite lookup_insert_ne.
Qed.
End refreshing.

(** A refresh moves the family on: its grant is the next generation and works until it
    expires; for 60 seconds repeating the request returns the same grant, without the
    provider; and the old refresh token is refused with every other request (unless
    the two tokens have the same hash). *)
Theorem native_refresh_rotates `{NativeLib, UuidLib, Serde AttemptSecret, Serde FamilySecret,
    Serde ExchangeResult, Serde Grant} self s auth now now' fl fa fr n1 n2 token input g db' :
  codec_ok self → native_reachable self s → nonce_ok n1 → nonce_ok n2 → random_ok fa →
  let key i := (hash token, refresh_operation_id i, refresh_generation i) in
  native_refresh_receipts (ns_db s) !! key input = None →
  refresh self auth now now' fl fa fr n1 n2 token input (ns_db s) = (Ok g, db') →
  grant_generation g = (refresh_generation input + 1)%N
  ∧ (∃ secret, family_grant secret = g ∧ (fits secret → grant_works self db' secret))
  ∧ (fits g → ∀ auth' t t' fl' fa' fr' n1' n2', (t < now' + 60)%N →
       refresh self auth' t t' fl' fa' fr' n1' n2' token input db' = (Ok g, db'))
  ∧ (hash (refresh_token g) ≠ hash token → ∀ t fl' input', key input' ≠ key input →
       native_refresh_receipts (ns_db s) !! key input' = None →
       refresh_claim self t fl' token input' db' = (Err NativeError_Unauthorized, db')).
Proof.
  intros Hc Hreach Hn1 Hn2 Hfa key Hnone Hr. unfold refresh in Hr.
  apply st_bind_Ok in Hr as (start & db1 & Hclaim & Hr).
  pose proof (refresh_claim_Ok_valid _ _ _ _ _ _ _ _ Hclaim) as Hv.
  apply refresh_claim_cases in Hclaim as [(job & [= ->] & Hcl)|[(g' & _ & (rec & _ & _ & Hrec & _) & _)|[Hno _]]];
    [|unfold key in Hnone; congruence|by destruct (Hno start)].
  apply refresh_finish_cases in Hr as [(g0 & [= <-] & Hst)|[Hno _]]; [|by destruct (Hno g)].
  destruct (refresh_effect _ _ _ _ _ _ _ _ _ _ _ _ _ _ _ Hcl Hst) as (row & row' & ck & acc & receipt & Hrow & Hh
    & Hgen & Hfam & Hfams & Hh' & Hlive & Hrecs & Hacc & Htok & Hs1 & Hs2 & Hagree & Hha & Hother).
  assert (native_families db' !! job_family job = Some row') as Hrow'
    by (rewrite Hfams; apply lookup_insert_eq).
  split_and!; [done| | |].
  - exists (mk_FamilySecret ck g). split; [done|]. intros Hfits auth' t t' principal Ht Ht' Hauth Hu.
    simpl. rewrite Hfam. apply (authenticate_live self auth' t t' (access_token g) _ row' (mk_FamilySecret ck g)); try done.
    + rewrite Htok. etrans; [apply token_of_app|by apply Hfa].
    + intros id' r' Hr' E. rewrite Hfams in Hr'. apply lookup_insert_Some in Hr' as [[? _]|[Hne Hr']]; [done|].
      by destruct (Hother id' r' Hr' (not_eq_sym Hne)).
    + apply family_secret_iff, Hagree. by apply (open_fits self n1).
  - intros Hfits auth' t t' fl' fa' fr' n1' n2' Ht. unfold refresh, st_bind at 1.
    rewrite (refresh_claim_again self t fl' token input db'
      (mk_Receipt (job_family job) (Some (now' + 60)%N) receipt) row' (now' + 60)%N g); try done.
    + rewrite Hrecs. apply lookup_insert_eq.
    + by apply (open_fits self n2).
  - intros Hdiff t fl' input' Hkey Hnone'. apply refresh_claim_unknown.
    + rewrite Hrecs. by rewrite lookup_insert_ne.
    + intros id r Hr E. rewrite Hfams in Hr. apply lookup_insert_Some in Hr as [[_ <-]|[Hne Hr]]; [congruence|].
      apply Hne. eapply (native_reachable_unique self s Hc Hreach); [exact Hrow|exact Hr|].
      right. congruence.
Qed.

(** ** Examples *)

#[local] Existing Instances demo_native demo_uuid demo_serde_grant demo_serde_family
  demo_serde_result demo_serde_secret.

Definition demo_ref : NativeSessionRef :=
  mk_NativeSessionRef (demo_key 71) (hash (access_token demo_grant)) 0 0.

Lemma native_authentication_sound_witness :
  (∃ r, session_good 1006 (access_token demo_grant) demo_ref (ns_db demo_redeemed) r ∧ f_user_id r = uuid_display 7)
  ∧ (recheck_second demo_self 1006 demo_ref (ns_db demo_revoked)).1 = Err NativeError_Unauthorized.
Proof.
  split; [|vm_compute; reflexivity].
  assert ((token_reference (access_token demo_grant) (ns_db demo_redeemed)).1 = Ok demo_ref) as E0
    by (vm_compute; reflexivity).
  assert ((recheck_first demo_self demo_auth 1005 demo_ref (ns_db demo_redeemed)).1 = Ok demo_principal) as E1
    by (vm_compute; reflexivity).
  assert ((recheck_second demo_self 1006 demo_ref (ns_db demo_redeemed)).1 = Ok tt) as E2
    by (vm_compute; reflexivity).
  revert E0 E1 E2. generalize demo_redeemed_reachable. generalize demo_redeemed.
  intros s Hs E0%pair_of_fst E1%pair_of_fst E2%pair_of_fst.
  destruct (native_authentication_sound _ _ _ _ _ s s s _ _ _ _ _ demo_codec_ok Hs
    (rtc_refl _ _) (rtc_refl _ _) E0 E1 E2) as (_ & r & r' & _ & Hg & Hu & Hp).
  exists r'. split; [exact Hg|]. rewrite <- Hu. exact Hp.
Defined.

Lemma native_requests_once_witness :
  native_reachable demo_self demo_redeemed ∧ NoDup (ns_verified demo_redeemed).
Proof.
  split; [exact demo_redeemed_reachable|].
  exact (proj1 (native_requests_once demo_self demo_redeemed demo_codec_ok demo_redeemed_reachable)).
Defined.

Lemma native_ended_final_witness :
  ∃ r, native_families (ns_db demo_revoked) !! demo_key 71 = Some r
    ∧ referenced demo_self 1007 demo_ref (ns_db demo_revoked)
      = (Err NativeError_Unauthorized, ns_db demo_revoked).
Proof.
  assert (∃ r, native_families (ns_db demo_revoked) !! demo_key 71 = Some r
    ∧ live_phase (f_phase r) = false) as (r & Hr & Hd).
  { eexists. split; [vm_compute; reflexivity|vm_compute; reflexivity]. }
  exists r. split; [exact Hr|]. revert Hr. generalize demo_revoked_reachable.
  generalize demo_revoked. intros s Hs Hr.
  exact (proj1 (native_ended_final demo_self s (demo_key 71) r s demo_codec_ok Hs Hr Hd (rtc_refl _ _))
    1007%N demo_ref eq_refl).
Defined.

Lemma native_attempts_bound_witness :
  ∃ a, native_attempts (ns_db demo_redeemed) !! demo_id = Some a ∧ a_phase a = Attempt_redeemed
    ∧ attempt_ok (native_families (ns_db demo_redeemed)) a.
Proof.
  assert (∃ a, native_attempts (ns_db demo_redeemed) !! demo_id = Some a
    ∧ a_phase a = Attempt_redeemed) as (a & Ha & Hp).
  { eexists. split; vm_compute; reflexivity. }
  exists a. split; [exact Ha|]. split; [exact Hp|]. revert Ha. generalize demo_redeemed_reachable.
  generalize demo_redeemed. intros s Hs Ha.
  exact (proj1 (native_attempts_bound demo_self s demo_codec_ok Hs) demo_id a Ha).
Defined.

Lemma native_exchange_usable_witness :
  demo_exchange = (Ok (grant_result demo_grant), ns_db demo_redeemed)
  ∧ exchange demo_self 1050 (Err NativeError_Unavailable) (Err NativeError_Unavailable)
      (Err NativeError_Unavailable) (Err NativeError_Unavailable) [] [] demo_request (ns_db demo_redeemed)
    = (Ok (grant_result demo_grant), ns_db demo_redeemed).
Proof.
  split; [exact demo_exchange_Ok|]. generalize demo_exchange_Ok. unfold demo_exchange.
  assert (∃ a, native_attempts (ns_db demo_ready) !! demo_id = Some a
    ∧ a_phase a = Attempt_ready) as (a & Ha & Hp).
  { eexists. split; vm_compute; reflexivity. }
  assert (fits (grant_result demo_grant)) as Hfits.
  { intros raw Hraw. vm_compute in Hraw. injection Hraw as <-. vm_compute. discriminate. }
  revert Ha. generalize (ns_db demo_ready) (ns_db demo_redeemed). intros db db' Ha E.
  refine (proj2 (native_exchange_usable demo_self 1004 _ _ _ _ demo_nonce demo_nonce demo_request db a _ db' demo_codec_ok
    eq_refl eq_refl (demo_random_ok 72 _) Ha Hp E) Hfits 1050%N _ _ _ _ _ _ _);
    [vm_compute; reflexivity|lia].
Defined.

Lemma native_refresh_rotates_witness :
  demo_refresh (ns_db demo_redeemed) = (Ok demo_refreshed, demo_refreshed_db)
  ∧ grant_generation demo_refreshed = 1%N
  ∧ refresh_claim demo_self 1007 (Ok (demo_key 78)) (refresh_token demo_grant)
      (mk_RefreshRequest (replicate 32 99%N) 0) demo_refreshed_db
    = (Err NativeError_Unauthorized, demo_refreshed_db).
Proof.
  split; [exact demo_refresh_Ok|]. generalize demo_refresh_Ok. unfold demo_refresh.
  generalize demo_refreshed_db, demo_redeemed_receipts, demo_redeemed_reachable.
  generalize demo_redeemed. intros s db' Hnone Hs E.
  assert (proof (demo_key 76) = true) as Hp by (vm_compute; reflexivity).
  destruct (native_refresh_rotates demo_self s demo_auth 1005 1006 _ _ _ demo_nonce demo_nonce _ _
    demo_refreshed db' demo_codec_ok Hs eq_refl eq_refl (demo_random_ok 76 Hp)
    ltac:(rewrite Hnone; reflexivity) E) as (Hg & _ & _ & Hold).
  split; [exact Hg|]. apply Hold; [vm_compute; discriminate|vm_compute; discriminate|].
  rewrite Hnone. reflexivity.
Defined.
