(* ===== verification/Notifications.v ===== *)
(** * Notifications: preferences, push subscriptions and the outbox

    Models [src/notification.rs] with the tables of [migrations/sqlite/0024_web_push.sql],
    [0032_push_subscription_cursor.sql] and [0034_channel_and_thread_notifications.sql].
    A stored message puts a row into the outbox for every device to notify; a worker
    claims one row at a time, sends it and completes it. The push service itself, URL
    parsing, base64 and key checks are parameters. Identifiers are ordered as numbers,
    as the database orders them. Times are seconds. *)

From Stdlib Require Import ZifyBool.
From stdpp Require Import base tactics numbers strings countable sorting gmap list.
From S2P Require Import Prelude RustStr Text Ids Models RepoState Sql.

(** ** Data *)

Inductive NotificationMode : Type := Mode_Instant | Mode_Weekly | Mode_Muted.
#[export] Instance NotificationMode_eq_dec : EqDecision NotificationMode.
Proof. solve_decision. Defined.
Definition NotificationMode_as_str (m : NotificationMode) : str :=
  match m with
  | Mode_Instant => lit "instant" | Mode_Weekly => lit "weekly" | Mode_Muted => lit "muted"
  end.
Definition NotificationMode_from_str (value : str) : Res RepositoryError NotificationMode :=
  if bool_decide (value = lit "instant") then Ok Mode_Instant
  else if bool_decide (value = lit "weekly") then Ok Mode_Weekly
  else if bool_decide (value = lit "muted") then Ok Mode_Muted
  else Err (Storage (lit "invalid notification mode")).

Record NotificationPreferences : Type := mk_NotificationPreferences {
  pref_mode : NotificationMode;
  pref_direct_messages : bool;
  pref_mentions : bool;
  pref_weekly_weekday : Z }.
Record PushSubscriptionInput : Type := mk_PushSubscriptionInput {
  input_endpoint : str; input_p256dh : str; input_auth : str }.

Inductive NotificationKind : Type :=
  | Kind_mention | Kind_direct_message | Kind_thread_reply | Kind_channel_message.
#[export] Instance NotificationKind_eq_dec : EqDecision NotificationKind.
Proof. solve_decision. Defined.

Abbreviation SubscriptionId := N (only parsing).

(** A row of [push_subscriptions]. *)
Record Subscription : Type := mk_Subscription {
  sub_user_id : UserId;
  sub_endpoint : str;
  sub_p256dh : str;
  sub_auth : str;
  sub_user_agent : option str;
  sub_last_success_at : option Z;
  sub_failure_count : N;
  sub_after : N;
  sub_thread_after : N }.
#[export] Instance Subscription_eta : Eta Subscription := λ s,
  mk_Subscription (sub_user_id s) (sub_endpoint s) (sub_p256dh s) (sub_auth s) (sub_user_agent s)
    (sub_last_success_at s) (sub_failure_count s) (sub_after s) (sub_thread_after s).

(** A row of [notification_outbox], whose key is the subscription and the message. *)
Record OutboxRow : Type := mk_OutboxRow {
  out_recipient_id : UserId;
  out_kind : NotificationKind;
  out_available_at : Z;
  out_leased_until : option Z;
  out_attempts : N;
  out_delivered_at : option Z;
  out_last_error : option str;
  out_created_at : Z }.
#[export] Instance OutboxRow_eta : Eta OutboxRow := λ r,
  mk_OutboxRow (out_recipient_id r) (out_kind r) (out_available_at r) (out_leased_until r)
    (out_attempts r) (out_delivered_at r) (out_last_error r) (out_created_at r).

(** The columns of [messages] that notifications use. *)
Record MessageRow : Type := mk_MessageRow {
  msg_channel_id : ChannelId;
  msg_sender_id : UserId;
  msg_sender_display_name : str;
  msg_sequence : N;
  msg_parent : option MessageId;
  msg_body : str;
  msg_deleted : bool }.
#[export] Instance MessageRow_eta : Eta MessageRow := λ m,
  mk_MessageRow (msg_channel_id m) (msg_sender_id m) (msg_sender_display_name m) (msg_sequence m)
    (msg_parent m) (msg_body m) (msg_deleted m).

(** The columns of [users] that notifications use. *)
Record UserRow : Type := mk_UserRow { user_kind : PrincipalKind; user_handle : option str }.

Record NotifyDb : Type := mk_NotifyDb {
  nt_users : gmap UserId UserRow;
  nt_channels : gmap ChannelId str;
  nt_memberships : gset (ChannelId * UserId);
  nt_direct : gmap ChannelId (UserId * UserId);
  nt_groups : gset ChannelId;
  nt_messages : gmap MessageId MessageRow;
  nt_mentions : gset (MessageId * UserId);
  nt_preferences : gmap UserId NotificationPreferences;
  nt_subscriptions : gmap SubscriptionId Subscription;
  nt_channel_subscriptions : gmap (UserId * ChannelId) N;
  nt_outbox : gmap (SubscriptionId * MessageId) OutboxRow }.
#[export] Instance NotifyDb_eta : Eta NotifyDb := λ d,
  mk_NotifyDb (nt_users d) (nt_channels d) (nt_memberships d) (nt_direct d) (nt_groups d)
    (nt_messages d) (nt_mentions d) (nt_preferences d) (nt_subscriptions d)
    (nt_channel_subscriptions d) (nt_outbox d).

Abbreviation NotifyM := (ST NotifyDb RepositoryError).

(** ** Preferences and subscriptions *)

Definition default_preferences : NotificationPreferences :=
  mk_NotificationPreferences Mode_Instant true true 1.
Definition preferences (user : UserId) : NotifyM NotificationPreferences :=
  gets (λ db, default default_preferences (nt_preferences db !! user)).

Definition constraint_error : RepositoryError := Storage (lit "constraint failed").

Definition save_preferences (user : UserId) (value : NotificationPreferences)
    : NotifyM NotificationPreferences :=
  ensure ((1 <=? pref_weekly_weekday value)%Z && (pref_weekly_weekday value <=? 7)%Z) Conflict;;;
  let! db := get in
  ensure (contains_key user (nt_users db)) constraint_error;;;
  put (db <| nt_preferences := <[user := value]> (nt_preferences db) |>);;;
  st_ret value.

(** [coalesce((select id from messages order by id desc limit 1), ..)] *)
Definition no_messages : N := 0x7000 * 2 ^ 64 + 0x8000 * 2 ^ 48.
Definition high_water (db : NotifyDb) : N :=
  match map_to_list (nt_messages db) with
  | [] => no_messages
  | l => foldr (λ kv n, N.max (MessageId_as_uuid kv.1) n) 0%N l
  end.

Definition is_direct (c : ChannelId) (db : NotifyDb) : bool :=
  contains_key c (nt_direct db) || bool_decide (c ∈ nt_groups db).

Record NotificationSettings : Type := mk_NotificationSettings {
  settings_enabled : bool;
  settings_public_key : option str;
  settings_preferences : NotificationPreferences;
  settings_subscriptions : Z;
  settings_channel_ids : list ChannelId }.

(** [sender] says whether the service can send, [public_key] is its key. *)
Definition settings (sender : bool) (public_key : option str) (user : UserId)
    : NotifyM NotificationSettings :=
  let! prefs := preferences user in
  gets (λ db, mk_NotificationSettings sender public_key prefs
    (count_where (λ _ s, bool_decide (sub_user_id s = user)) (nt_subscriptions db))
    (merge_sort (λ a b, (ChannelId_as_uuid a ≤ ChannelId_as_uuid b)%N)
       (snd <$> filter (λ k, k.1 = user) (fst <$> map_to_list (nt_channel_subscriptions db))))).

Definition set_channel_subscription (user : UserId) (channel : ChannelId) (enabled : bool)
    : NotifyM unit :=
  let! db := get in
  if enabled then
    let key := (user, channel) in
    let eligible := contains_key channel (nt_channels db)
                    && bool_decide ((channel, user) ∈ nt_memberships db) && negb (is_direct channel db) in
    if eligible && negb (contains_key key (nt_channel_subscriptions db)) then
      put (db <| nt_channel_subscriptions :=
                   <[key := high_water db]> (nt_channel_subscriptions db) |>)
    else ensure (contains_key key (nt_channel_subscriptions db)) PermissionDenied
  else
    put (db <| nt_channel_subscriptions := delete (user, channel) (nt_channel_subscriptions db) |>).

(** [reqwest::Url]: the scheme, host and port of a valid URL; base64 and the check of a
    public key. *)
Class PushLib := {
  url_parse : str → option (str * option str * option N);
  push_base64_decode : str → option (list N);
  valid_public_key : list N → bool }.

Definition push_hosts : list str := lit <$>
  ["googleapis.com"; "google.com"; "push.services.mozilla.com"; "push.apple.com";
   "notify.windows.com"; "push.samsungosp.com"]%string.
Definition str_ends_with (s suffix : str) : bool :=
  bool_decide (drop (length s - length suffix) s = suffix).
Definition validate_endpoint `{PushLib} (value : str) : Res RepositoryError unit :=
  if (4096 <? len value)%N then Err Conflict
  else
    let? url := ok_or (url_parse value) Conflict in
    let '(scheme, host, port) := url : str * option str * option N in
    let? host := ok_or host Conflict in
    let allowed_host :=
      any (λ suffix, bool_decide (host = suffix) || str_ends_with host (lit "." ++ suffix)) push_hosts in
    if bool_decide (scheme ≠ lit "https") || bool_decide (port ≠ Some 443%N) || negb allowed_host
    then Err Conflict else Ok tt.
Definition validate_subscription `{PushLib} (input : PushSubscriptionInput)
    : Res RepositoryError unit :=
  let? _ := validate_endpoint (input_endpoint input) in
  let? public_key := ok_or (push_base64_decode (input_p256dh input)) Conflict in
  let? auth := ok_or (push_base64_decode (input_auth input)) Conflict in
  if negb (valid_public_key public_key) || negb (length auth =? 16)%nat then Err Conflict else Ok tt.

Definition with_endpoint (endpoint : str) (_ : SubscriptionId) (s : Subscription) : bool :=
  bool_decide (sub_endpoint s = endpoint).

Definition subscribe `{PushLib} (id : SubscriptionId) (user : UserId) (input : PushSubscriptionInput)
    (user_agent : option str) : NotifyM unit :=
  st_lift (validate_subscription input);;;
  let! db := get in
  match fetch_where (with_endpoint (input_endpoint input)) (nt_subscriptions db) with
  | Some (k, s) =>
      ensure (bool_decide (sub_user_id s = user)) Conflict;;;
      put (db <| nt_subscriptions := <[k := s <| sub_p256dh := input_p256dh input |>
             <| sub_auth := input_auth input |> <| sub_user_agent := user_agent |>]>
             (nt_subscriptions db) |>)
  | None =>
      ensure (contains_key user (nt_users db) && negb (contains_key id (nt_subscriptions db)))
        constraint_error;;;
      put (db <| nt_subscriptions := <[id := mk_Subscription user (input_endpoint input)
             (input_p256dh input) (input_auth input) user_agent None 0 (high_water db) (high_water db)]>
             (nt_subscriptions db) |>)
  end.

Definition has_subscription `{PushLib} (user : UserId) (endpoint : str) : NotifyM bool :=
  st_lift (validate_endpoint endpoint);;;
  gets (λ db, bool_decide (is_Some (fetch_where
    (λ _ s, bool_decide (sub_user_id s = user) && bool_decide (sub_endpoint s = endpoint))
    (nt_subscriptions db)))).

(** Deleting subscriptions deletes their outbox rows ([on delete cascade]). *)
Definition delete_subscriptions (p : SubscriptionId → Subscription → bool) (db : NotifyDb)
    : NotifyDb :=
  let gone id := match nt_subscriptions db !! id with Some s => p id s | None => false end in
  db <| nt_subscriptions := delete_where p (nt_subscriptions db) |>
     <| nt_outbox := delete_where (λ k _, gone k.1) (nt_outbox db) |>.
Definition unsubscribe (user : UserId) (endpoint : str) : NotifyM unit :=
  modify (delete_subscriptions (λ _ s, bool_decide (sub_user_id s = user)
                                       && bool_decide (sub_endpoint s = endpoint))).

(** ** The outbox *)

Definition instant (db : NotifyDb) (user : UserId) : bool :=
  bool_decide (default Mode_Instant (pref_mode <$> nt_preferences db !! user) = Mode_Instant).
Definition wants_mentions (db : NotifyDb) (user : UserId) : bool :=
  default true (pref_mentions <$> nt_preferences db !! user).
Definition wants_direct (db : NotifyDb) (user : UserId) : bool :=
  default true (pref_direct_messages <$> nt_preferences db !! user).
Definition member (db : NotifyDb) (channel : ChannelId) (user : UserId) : bool :=
  bool_decide ((channel, user) ∈ nt_memberships db).
Definition after (id : MessageId) (cursor : N) : bool := (cursor <? MessageId_as_uuid id)%N.

(** The [where] clauses of the six queries: whether subscription [s] is notified of the
    message [id] with row [m]. *)
Section queries.
Context (db : NotifyDb) (id : MessageId) (m : MessageRow) (s : Subscription).

Definition mention_applies : bool :=
  bool_decide ((id, sub_user_id s) ∈ nt_mentions db)
  && negb (bool_decide (sub_user_id s = msg_sender_id m)) && after id (sub_after s)
  && instant db (sub_user_id s) && wants_mentions db (sub_user_id s).
Definition direct_applies : bool :=
  match nt_direct db !! msg_channel_id m with
  | Some (user_a, user_b) =>
      bool_decide (sub_user_id s = if bool_decide (user_a = msg_sender_id m) then user_b else user_a)
      && after id (sub_after s) && instant db (sub_user_id s) && wants_direct db (sub_user_id s)
  | None => false
  end.
Definition group_applies : bool :=
  bool_decide (msg_channel_id m ∈ nt_groups db) && member db (msg_channel_id m) (sub_user_id s)
  && bool_decide (user_kind <$> nt_users db !! sub_user_id s = Some Human)
  && negb (bool_decide (sub_user_id s = msg_sender_id m)) && after id (sub_after s)
  && instant db (sub_user_id s) && wants_direct db (sub_user_id s).
Definition thread_root_applies : bool :=
  match msg_parent m ≫= λ p, nt_messages db !! p with
  | Some root =>
      bool_decide (sub_user_id s = msg_sender_id root) && member db (msg_channel_id m) (sub_user_id s)
      && negb (bool_decide (sub_user_id s = msg_sender_id m)) && after id (sub_thread_after s)
      && instant db (sub_user_id s)
  | None => false
  end.
Definition thread_participant_applies : bool :=
  match msg_parent m with
  | Some p =>
      contains_key p (nt_messages db)
      && any (λ kv, bool_decide (msg_parent kv.2 = Some p) && (msg_sequence kv.2 <? msg_sequence m)%N
                    && bool_decide (msg_sender_id kv.2 = sub_user_id s)) (map_to_list (nt_messages db))
      && member db (msg_channel_id m) (sub_user_id s)
      && negb (bool_decide (sub_user_id s = msg_sender_id m)) && after id (sub_thread_after s)
      && instant db (sub_user_id s)
  | None => false
  end.
Definition channel_applies : bool :=
  match nt_channel_subscriptions db !! (sub_user_id s, msg_channel_id m) with
  | Some cursor =>
      member db (msg_channel_id m) (sub_user_id s)
      && negb (bool_decide (sub_user_id s = msg_sender_id m)) && after id (sub_after s)
      && after id cursor && instant db (sub_user_id s)
  | None => false
  end.
End queries.

(** One [insert into notification_outbox select .. on conflict do nothing] for message
    [id]: the rows that are there stay. *)
Definition new_row (now : Z) (user : UserId) (kind : NotificationKind) : OutboxRow :=
  mk_OutboxRow user kind now None 0 None None now.
Definition insert_rows (now : Z) (kind : NotificationKind) (id : MessageId) (p : Subscription → bool)
    (db : NotifyDb) : NotifyDb :=
  db <| nt_outbox := nt_outbox db ∪
          kmap (λ s, (s, id)) ((λ s, new_row now (sub_user_id s) kind)
                               <$> rows_where (λ _ s, p s) (nt_subscriptions db)) |>.

(** [enqueue_message_sqlite] and [enqueue_message_postgres]. *)
Definition enqueue_message (now : Z) (id : MessageId) (m : MessageRow) (db : NotifyDb) : NotifyDb :=
  let db := insert_rows now Kind_mention id (mention_applies db id m) db in
  let db := insert_rows now Kind_direct_message id (direct_applies db id m) db in
  let db := insert_rows now Kind_direct_message id (group_applies db id m) db in
  let db := if bool_decide (is_Some (msg_parent m)) then
              let db := insert_rows now Kind_thread_reply id (thread_root_applies db id m) db in
              insert_rows now Kind_thread_reply id (thread_participant_applies db id m) db
            else db in
  insert_rows now Kind_channel_message id (channel_applies db id m) db.

(** One query of [backfill_current_cursors_once]: the same insert for every message. *)
Definition backfill_query (now : Z) (kind : NotificationKind)
    (p : NotifyDb → MessageId → MessageRow → Subscription → bool) (db : NotifyDb) : NotifyDb :=
  foldr (λ kv acc, insert_rows now kind kv.1 (p db kv.1 kv.2) acc) db (map_to_list (nt_messages db)).
Definition backfill_current_cursors_once (now : Z) (db : NotifyDb) : NotifyDb :=
  let db := backfill_query now Kind_mention mention_applies db in
  let db := backfill_query now Kind_direct_message direct_applies db in
  let db := backfill_query now Kind_direct_message group_applies db in
  let db := backfill_query now Kind_thread_reply thread_root_applies db in
  let db := backfill_query now Kind_thread_reply thread_participant_applies db in
  backfill_query now Kind_channel_message channel_applies db.

(** ** The worker *)

Record PushJob : Type := mk_PushJob {
  push_subscription_id : SubscriptionId;
  push_message_id : MessageId;
  push_endpoint : str;
  push_p256dh : str;
  push_auth : str;
  push_sender : str;
  push_channel : ChannelId;
  push_channel_name : str;
  push_sequence : N;
  push_parent_message_id : option MessageId;
  push_body : str;
  push_kind : NotificationKind }.
Inductive DeliveryResult : Type := Delivered | Expired | Retry (error : str).

Definition lease_free (now : Z) (r : OutboxRow) : bool :=
  match out_leased_until r with None => true | Some t => (t <? now)%Z end.
Definition pending (r : OutboxRow) : bool := bool_decide (out_delivered_at r = None).
Definition due (now : Z) (r : OutboxRow) : bool :=
  pending r && (out_available_at r <=? now)%Z && lease_free now r.

(** The columns a job takes from the joined tables. *)
Definition push_job (db : NotifyDb) (key : SubscriptionId * MessageId) (r : OutboxRow) : option PushJob :=
  s ← nt_subscriptions db !! key.1;
  m ← nt_messages db !! key.2;
  c ← nt_channels db !! msg_channel_id m;
  Some (mk_PushJob key.1 key.2 (sub_endpoint s) (sub_p256dh s) (sub_auth s)
          (msg_sender_display_name m) (msg_channel_id m) c (msg_sequence m) (msg_parent m) (msg_body m)
          (out_kind r)).
(** [order by o.created_at limit 1]: any of the oldest rows, [choice] says which. *)
Definition oldest_due (now : Z) (db : NotifyDb) : list ((SubscriptionId * MessageId) * OutboxRow) :=
  let rows := filter (λ kr, due now kr.2 = true ∧ is_Some (push_job db kr.1 kr.2))
                (map_to_list (nt_outbox db)) in
  filter (λ kr, Forall (λ kr', out_created_at kr.2 ≤ out_created_at kr'.2)%Z rows) rows.
Definition claim_select (now : Z) (choice : nat) : NotifyM (option PushJob) :=
  let! db := get in
  let rows := oldest_due now db in
  st_ret (kr ← rows !! (choice `mod` length rows); push_job db kr.1 kr.2).
Definition claim_update (now : Z) (job : PushJob) : NotifyM bool :=
  let! db := get in
  let key := (push_subscription_id job, push_message_id job) in
  match nt_outbox db !! key with
  | Some r =>
      if pending r && lease_free now r then
        put (db <| nt_outbox := <[key := r <| out_leased_until := Some (now + 30)%Z |>
               <| out_attempts := (out_attempts r + 1)%N |>]> (nt_outbox db) |>);;;
        st_ret true
      else st_ret false
  | None => st_ret false
  end.
(** The selection and the update are two statements, and the update checks the delivery and
    the lease again but not the time the row is due. [claim] is the run in which nothing comes
    between them; the steps of the workers interleave [claim_update] with everything else. *)
Definition claim (now : Z) (choice : nat) : NotifyM (option PushJob) :=
  let! job := claim_select now choice in
  match job with
  | None => st_ret None
  | Some job =>
      let! claimed := claim_update now job in
      st_ret (if claimed : bool then Some job else None)
  end.

Definition redact_error (error : str) : str := take 240 error.

Definition update_row (key : SubscriptionId * MessageId) (f : OutboxRow → OutboxRow) (db : NotifyDb)
    : NotifyDb :=
  db <| nt_outbox := alter f key (nt_outbox db) |>.
Definition complete (now : Z) (job : PushJob) (result : DeliveryResult) : NotifyM unit :=
  let key := (push_subscription_id job, push_message_id job) in
  match result with
  | Delivered =>
      modify (update_row key (λ r, r <| out_delivered_at := Some now |> <| out_leased_until := None |>
                                     <| out_last_error := None |>));;;
      modify (λ db, db <| nt_subscriptions := alter (λ s, s <| sub_last_success_at := Some now |>
                            <| sub_failure_count := 0%N |>) (push_subscription_id job)
                            (nt_subscriptions db) |>)
  | Expired => modify (delete_subscriptions (λ k _, bool_decide (k = push_subscription_id job)))
  | Retry error =>
      modify (update_row key (λ r, r <| out_leased_until := None |> <| out_available_at := (now + 30)%Z |>
                                     <| out_last_error := Some (redact_error error) |>))
  end.
Definition run_once (now now' : Z) (choice : nat) (deliver : PushJob → DeliveryResult) : NotifyM unit :=
  let! job := claim now choice in
  match job with
  | None => st_ret tt
  | Some job => complete now' job (deliver job)
  end.

(** ** What a notification says *)

Definition notification_path `{UuidLib} (job : PushJob) : str :=
  lit "/?channel=" ++ uuid_display (ChannelId_as_uuid (push_channel job)) ++ lit "&message="
  ++ uuid_display (MessageId_as_uuid (push_message_id job)) ++ lit "&sequence="
  ++ fmt_dec (push_sequence job)
  ++ match push_parent_message_id job with
     | Some root => lit "&thread=" ++ uuid_display (MessageId_as_uuid root)
     | None => []
     end.
Definition notification_body (body : str) : str :=
  let visible := trim (match split_once body (lit "[[media:") with
                       | Some (before, _) => before
                       | None => body
                       end) in
  let value := take 180 visible ++ (if (180 <? length visible)%nat then [8230%N] else []) in
  if bool_decide (value = []) then lit "Vedlegg" else value.

(** ** Writes of the repository that reach the outbox

    The insertion at the end of [append_message], [edit_message] and [delete_message] of [src/db/sqlite.rs]: the
    message, its mentions and the outbox in one transaction. [permitted] is the role check
    of [delete_message]. *)
Definition mention_handle `{Unicode} (value : str) : str :=
  concat ((λ c, to_lowercase [c])
          <$> filter (λ c, is_alphanumeric c || bool_decide (c ∈ lit "_-.")) value).
Definition mention_handles `{Unicode} (body : str) : list str :=
  filter (.≠ []) (mention_handle <$> omap (λ word, match word with
    | c :: rest => if bool_decide ([c] = lit "@") then Some rest else None
    | [] => None
    end) (split_whitespace body)).
Definition mentioned `{Unicode} (db : NotifyDb) (channel : ChannelId) (body : str) : list UserId :=
  let requested := mention_handles body in
  fst <$> filter (λ ur : UserId * UserRow,
    (channel, ur.1) ∈ nt_memberships db ∧ user_kind ur.2 = Human
    ∧ (mention_handle <$> user_handle ur.2) ∈ Some <$> requested) (map_to_list (nt_users db)).
Definition persist_mentions `{Unicode} (id : MessageId) (m : MessageRow) (db : NotifyDb) : NotifyDb :=
  db <| nt_mentions := nt_mentions db
          ∪ list_to_set ((id,.) <$> mentioned db (msg_channel_id m) (msg_body m)) |>.
Definition without_mentions (id : MessageId) (db : NotifyDb) : NotifyDb :=
  db <| nt_mentions := filter (λ mu, mu.1 ≠ id) (nt_mentions db) |>.
Definition with_message (id : MessageId) (m : MessageRow) (db : NotifyDb) : NotifyDb :=
  db <| nt_messages := <[id := m]> (nt_messages db) |>.

Definition persist_message `{Unicode} (now : Z) (id : MessageId) (m : MessageRow) : NotifyM unit :=
  let! db := get in
  ensure (negb (contains_key id (nt_messages db))) constraint_error;;;
  put (enqueue_message now id m (persist_mentions id m (with_message id m db))).

Definition message_of (id : MessageId) (allowed : MessageRow → bool) : NotifyM MessageRow :=
  let! db := get in
  match nt_messages db !! id with
  | Some m => ensure (allowed m) PermissionDenied;;; st_ret m
  | None => st_lift (Err NotFound)
  end.
Definition edit_message `{Unicode} (now : Z) (id : MessageId) (actor : UserId) (body : str)
    : NotifyM unit :=
  let! m := message_of id (λ m, bool_decide (msg_sender_id m = actor) && negb (msg_deleted m)) in
  let m := m <| msg_body := body |> in
  modify (λ db, enqueue_message now id m
                  (persist_mentions id m (without_mentions id (with_message id m db)))).
Definition delete_message (id : MessageId) (permitted : MessageRow → bool) : NotifyM unit :=
  let! m := message_of id permitted in
  let m := m <| msg_body := lit "Meldinga er sletta." |> <| msg_deleted := true |> in
  modify (λ db, without_mentions id (with_message id m db)
                  <| nt_outbox := delete_where (λ k _, bool_decide (k.2 = id)) (nt_outbox db) |>).
