(* ===== verification/NotificationReach.v ===== *)
(** * NotificationReach: what the outbox holds

    The outbox after a message is stored and after the start-up backfill, row by row;
    the steps of a database with its workers, and the invariants every step keeps. *)

From Stdlib Require Import ZifyBool.
From stdpp Require Import base tactics numbers strings countable sorting gmap list relations.
From S2P Require Import Prelude RustStr Text Ids Models RepoState Sql Notifications.

(** ** What is inserted *)

(** The notification a subscription gets for a message: the most specific kind. *)
Definition notification_kind (db : NotifyDb) (id : MessageId) (m : MessageRow) (s : Subscription)
    : option NotificationKind :=
  if mention_applies db id m s then Some Kind_mention
  else if direct_applies db id m s || group_applies db id m s then Some Kind_direct_message
  else if thread_root_applies db id m s || thread_participant_applies db id m s then Some Kind_thread_reply
  else if channel_applies db id m s then Some Kind_channel_message
  else None.
Definition notification (now : Z) (db : NotifyDb) (id : MessageId) (m : MessageRow) (s : SubscriptionId)
    : option OutboxRow :=
  sub ← nt_subscriptions db !! s;
  kind ← notification_kind db id m sub;
  Some (new_row now (sub_user_id sub) kind).

Definition row_if (now : Z) (kind : NotificationKind) (p : Subscription → bool) (o : option Subscription)
    : option OutboxRow :=
  s ← o; if p s then Some (new_row now (sub_user_id s) kind) else None.

#[local] Instance pair_snd_inj {A B} (b : B) : Inj (=) (=) (λ a : A, (a, b)).
Proof. by intros ? ? [= ->]. Qed.

Lemma lookup_insert_rows now kind id p db s i :
  nt_outbox (insert_rows now kind id p db) !! (s, i)
  = match nt_outbox db !! (s, i) with
    | Some r => Some r
    | None => if decide (i = id) then row_if now kind p (nt_subscriptions db !! s) else None
    end.
Proof.
  unfold insert_rows. simpl. destruct (nt_outbox db !! (s, i)) as [r|] eqn:E;
    [by apply lookup_union_Some_l|]. rewrite lookup_union_r by done.
  destruct (decide (i = id)) as [->|Hne].
  - rewrite (lookup_kmap (λ s, (s, id))), lookup_fmap. unfold row_if.
    destruct (nt_subscriptions db !! s) as [sub|] eqn:Hs; simpl.
    + destruct (p sub) eqn:Hp.
      * by rewrite (proj2 (lookup_rows_where_Some (λ _ s, p s) _ s sub)).
      * destruct (rows_where _ _ !! s) as [sub'|] eqn:Hr; [|done].
        apply lookup_rows_where_Some in Hr as [? ?]. congruence.
    + destruct (rows_where _ _ !! s) as [sub'|] eqn:Hr; [|done].
      apply lookup_rows_where_Some in Hr as [? ?]. congruence.
  - apply lookup_kmap_None; [apply _|]. intros s' [= -> ->]. done.
Qed.

(** [insert_rows] leaves the tables the queries read alone. *)
Definition same_tables (db db' : NotifyDb) : Prop := db' = db <| nt_outbox := nt_outbox db' |>.
Lemma same_tables_refl db : same_tables db db.
Proof. by destruct db. Qed.
Lemma same_tables_trans db db' db'' :
  same_tables db db' → same_tables db' db'' → same_tables db db''.
Proof. unfold same_tables. intros E1 E2. rewrite E2, E1. done. Qed.
Lemma insert_rows_same now kind id p db : same_tables db (insert_rows now kind id p db).
Proof. done. Qed.

Lemma insert_rows_subscriptions now kind id p db :
  nt_subscriptions (insert_rows now kind id p db) = nt_subscriptions db.
Proof. done. Qed.

Lemma thread_applies_parent db id m s :
  msg_parent m = None →
  thread_root_applies db id m s = false ∧ thread_participant_applies db id m s = false.
Proof. intros E. unfold thread_root_applies, thread_participant_applies. by rewrite E. Qed.

Lemma lookup_enqueue now id m db s i :
  nt_outbox (enqueue_message now id m db) !! (s, i)
  = match nt_outbox db !! (s, i) with
    | Some r => Some r
    | None => if decide (i = id) then notification now db id m s else None
    end.
Proof.
  set (ins kind p d := insert_rows now kind id p d).
  assert (enqueue_message now id m db =
    let db3 := ins Kind_direct_message (group_applies db id m)
                 (ins Kind_direct_message (direct_applies db id m)
                    (ins Kind_mention (mention_applies db id m) db)) in
    ins Kind_channel_message (channel_applies db id m)
      (if bool_decide (is_Some (msg_parent m)) then
         ins Kind_thread_reply (thread_participant_applies db id m)
           (ins Kind_thread_reply (thread_root_applies db id m) db3)
       else db3)) as ->
    by (unfold enqueue_message, ins; by destruct (bool_decide (is_Some (msg_parent m)))).
  cbv zeta. unfold ins. rewrite lookup_insert_rows.
  assert (∀ b : bool, nt_subscriptions (if b then
    insert_rows now Kind_thread_reply id (thread_participant_applies db id m)
      (insert_rows now Kind_thread_reply id (thread_root_applies db id m)
         (insert_rows now Kind_direct_message id (group_applies db id m)
            (insert_rows now Kind_direct_message id (direct_applies db id m)
               (insert_rows now Kind_mention id (mention_applies db id m) db))))
    else insert_rows now Kind_direct_message id (group_applies db id m)
            (insert_rows now Kind_direct_message id (direct_applies db id m)
               (insert_rows now Kind_mention id (mention_applies db id m) db)))
    = nt_subscriptions db) as -> by by intros [].
  unfold notification, notification_kind. case_bool_decide as Hp.
  - rewrite !lookup_insert_rows. destruct (nt_outbox db !! (s, i)); [done|].
    destruct (decide (i = id)); [|done]. rewrite ?insert_rows_subscriptions. unfold row_if.
    destruct (nt_subscriptions db !! s) as [sub|]; [|done]. cbn [mbind option_bind].
    by destruct (mention_applies db id m sub), (direct_applies db id m sub), (group_applies db id m sub),
      (thread_root_applies db id m sub), (thread_participant_applies db id m sub),
      (channel_applies db id m sub).
  - rewrite !lookup_insert_rows. destruct (nt_outbox db !! (s, i)); [done|].
    destruct (decide (i = id)); [|done]. rewrite ?insert_rows_subscriptions. unfold row_if.
    destruct (nt_subscriptions db !! s) as [sub|]; [|done]. cbn [mbind option_bind].
    destruct (thread_applies_parent db id m sub) as [-> ->]; [by apply eq_None_not_Some|].
    by destruct (mention_applies db id m sub), (direct_applies db id m sub), (group_applies db id m sub),
      (channel_applies db id m sub).
Qed.

Lemma enqueue_same now id m db : same_tables db (enqueue_message now id m db).
Proof. unfold enqueue_message. by destruct (bool_decide _). Qed.
Lemma notification_ignores_outbox now db o id m s :
  notification now (db <| nt_outbox := o |>) id m s = notification now db id m s.
Proof. done. Qed.
Lemma notification_None now now' db id m s :
  notification now db id m s = None → notification now' db id m s = None.
Proof.
  unfold notification. destruct (nt_subscriptions db !! s) as [sub|]; [|done]. simpl.
  by destruct (notification_kind db id m sub).
Qed.

(** ** The backfill *)

Lemma same_tables_fold {A} (f : A → NotifyDb → NotifyDb) l db :
  (∀ a d, same_tables d (f a d)) → same_tables db (foldr f db l).
Proof.
  intros Hf. induction l as [|a l IH]; [apply same_tables_refl|]. simpl.
  by eapply same_tables_trans.
Qed.
Lemma backfill_query_same now kind p db : same_tables db (backfill_query now kind p db).
Proof. apply same_tables_fold. intros. apply insert_rows_same. Qed.

Lemma lookup_fold_insert now kind p (l : list (MessageId * MessageRow)) db s i :
  NoDup l.*1 →
  nt_outbox (foldr (λ kv acc, insert_rows now kind kv.1 (p kv.1 kv.2) acc) db l) !! (s, i)
  = match nt_outbox db !! (s, i) with
    | Some r => Some r
    | None => match (list_to_map l : gmap MessageId MessageRow) !! i with
              | Some m => row_if now kind (p i m) (nt_subscriptions db !! s)
              | None => None
              end
    end.
Proof.
  induction l as [|[k m] l IH]; intros Hnd; [simpl; rewrite lookup_empty; by destruct (nt_outbox db !! (s, i))|].
  apply NoDup_cons in Hnd as [Hk Hnd]. cbn [foldr fst snd]. rewrite lookup_insert_rows, (IH Hnd).
  rewrite (same_tables_fold (λ kv acc, insert_rows now kind kv.1 (p kv.1 kv.2) acc) l db)
    by (intros; apply insert_rows_same).
  destruct (nt_outbox db !! (s, i)); [done|]. rewrite list_to_map_cons.
  destruct (decide (i = k)) as [->|Hne].
  - rewrite lookup_insert_eq, (not_elem_of_list_to_map_1 l k Hk). done.
  - rewrite lookup_insert_ne by done. destruct (list_to_map l !! i) as [m'|]; [|done].
    by destruct (row_if now kind (p i m') _).
Qed.

Lemma lookup_backfill_query now kind p db s i :
  nt_outbox (backfill_query now kind p db) !! (s, i)
  = match nt_outbox db !! (s, i) with
    | Some r => Some r
    | None => match nt_messages db !! i with
              | Some m => row_if now kind (p db i m) (nt_subscriptions db !! s)
              | None => None
              end
    end.
Proof.
  unfold backfill_query. rewrite lookup_fold_insert by apply NoDup_fst_map_to_list.
  by rewrite list_to_map_to_list.
Qed.

(** The queries do not read the outbox. *)
Definition ignores_outbox (p : NotifyDb → MessageId → MessageRow → Subscription → bool) : Prop :=
  ∀ db o id m s, p (db <| nt_outbox := o |>) id m s = p db id m s.

Lemma lookup_backfill_from base now kind p db s i :
  ignores_outbox p → same_tables base db →
  nt_outbox (backfill_query now kind p db) !! (s, i)
  = match nt_outbox db !! (s, i) with
    | Some r => Some r
    | None => match nt_messages base !! i with
              | Some m => row_if now kind (p base i m) (nt_subscriptions base !! s)
              | None => None
              end
    end.
Proof.
  intros Hp E. rewrite lookup_backfill_query.
  assert (nt_messages db = nt_messages base) as -> by by rewrite E.
  assert (nt_subscriptions db = nt_subscriptions base) as -> by by rewrite E.
  destruct (nt_outbox db !! (s, i)), (nt_messages base !! i) as [m|]; try done.
  unfold row_if. destruct (nt_subscriptions base !! s) as [sub|]; [|done]. simpl.
  by rewrite E, Hp.
Qed.

Lemma backfill_same now db : same_tables db (backfill_current_cursors_once now db).
Proof.
  unfold backfill_current_cursors_once. cbv zeta.
  repeat (eapply same_tables_trans; [|apply backfill_query_same]). apply same_tables_refl.
Qed.

Lemma lookup_backfill now db s i :
  nt_outbox (backfill_current_cursors_once now db) !! (s, i)
  = match nt_outbox db !! (s, i) with
    | Some r => Some r
    | None => m ← nt_messages db !! i; notification now db i m s
    end.
Proof.
  unfold backfill_current_cursors_once. cbv zeta.
  repeat (rewrite (lookup_backfill_from db); [|done|
    repeat (eapply same_tables_trans; [|apply backfill_query_same]); apply same_tables_refl]).
  destruct (nt_outbox db !! (s, i)); [done|]. destruct (nt_messages db !! i) as [m|]; [|done].
  unfold notification, notification_kind, row_if.
  destruct (nt_subscriptions db !! s) as [sub|]; [|done]. cbn [mbind option_bind].
  by destruct (mention_applies db i m sub), (direct_applies db i m sub), (group_applies db i m sub),
    (thread_root_applies db i m sub), (thread_participant_applies db i m sub),
    (channel_applies db i m sub).
Qed.

(** ** What every notification satisfies *)

Definition direct_distinct (db : NotifyDb) : Prop :=
  map_Forall (λ _ ab, ab.1 ≠ ab.2) (nt_direct db).

(** What a query asks of every row: not the sender, who wants instant notifications, and
    a message after the device's cursor. *)
Definition admissible (db : NotifyDb) (id : MessageId) (m : MessageRow) (s : Subscription) : Prop :=
  sub_user_id s ≠ msg_sender_id m ∧ instant db (sub_user_id s) = true
  ∧ (sub_after s < MessageId_as_uuid id ∨ sub_thread_after s < MessageId_as_uuid id)%N.

Ltac split_clauses :=
  repeat match goal with
  | H : _ && _ = true |- _ => apply andb_true_iff in H as [? H]
  | H : negb _ = true |- _ => apply negb_true_iff in H
  | H : bool_decide _ = true |- _ => apply bool_decide_eq_true in H
  | H : bool_decide _ = false |- _ => apply bool_decide_eq_false in H
  | H : after _ _ = true |- _ => apply N.ltb_lt in H
  end.

Section admissible.
Context (db : NotifyDb) (id : MessageId) (m : MessageRow) (s : Subscription).

Lemma mention_admissible : mention_applies db id m s = true → admissible db id m s.
Proof. unfold mention_applies. intros H. split_clauses. by repeat split; [..|left]. Qed.
Lemma direct_admissible :
  direct_distinct db → direct_applies db id m s = true → admissible db id m s.
Proof.
  unfold direct_applies. intros Hd. destruct (nt_direct db !! msg_channel_id m) as [[a b]|] eqn:Hab;
    [|done]. apply Hd in Hab. simpl in Hab. intros H. split_clauses.
  repeat split; [|done|by left]. case_bool_decide; congruence.
Qed.
Lemma group_admissible : group_applies db id m s = true → admissible db id m s.
Proof. unfold group_applies. intros H. split_clauses. by repeat split; [..|left]. Qed.
Lemma thread_root_admissible : thread_root_applies db id m s = true → admissible db id m s.
Proof.
  unfold thread_root_applies. destruct (_ ≫= _); [|done]. intros H. split_clauses.
  by repeat split; [..|right].
Qed.
Lemma thread_participant_admissible :
  thread_participant_applies db id m s = true → admissible db id m s.
Proof.
  unfold thread_participant_applies. destruct (msg_parent m); [|done]. intros H. split_clauses.
  by repeat split; [..|right].
Qed.
Lemma channel_admissible : channel_applies db id m s = true → admissible db id m s.
Proof.
  unfold channel_applies. destruct (_ !! _); [|done]. intros H. split_clauses.
  by repeat split; [..|left].
Qed.

Lemma notification_kind_admissible k :
  direct_distinct db → notification_kind db id m s = Some k → admissible db id m s.
Proof.
  intros Hd. unfold notification_kind.
  destruct (mention_applies db id m s) eqn:E1; [intros _; by apply mention_admissible|].
  destruct (direct_applies db id m s) eqn:E2; [intros _; by apply direct_admissible|].
  destruct (group_applies db id m s) eqn:E3; [intros _; by apply group_admissible|].
  destruct (thread_root_applies db id m s) eqn:E4; [intros _; by apply thread_root_admissible|].
  destruct (thread_participant_applies db id m s) eqn:E5;
    [intros _; by apply thread_participant_admissible|].
  destruct (channel_applies db id m s) eqn:E6; [intros _; by apply channel_admissible|done].
Qed.
End admissible.

Lemma notification_sound now db id m s r :
  direct_distinct db → notification now db id m s = Some r →
  ∃ sub, nt_subscriptions db !! s = Some sub ∧ out_recipient_id r = sub_user_id sub
         ∧ admissible db id m sub.
Proof.
  intros Hd. unfold notification. destruct (nt_subscriptions db !! s) as [sub|]; [|done]. simpl.
  destruct (notification_kind db id m sub) as [k|] eqn:Hk; [|done]. intros [= <-].
  exists sub. by split_and!; [..|eapply notification_kind_admissible].
Qed.

(** ** Steps *)

Abbreviation OutboxKey := (SubscriptionId * MessageId)%type (only parsing).

(** What happens to the tables besides the worker's claims. Deleting a channel deletes its
    messages and their outbox rows; accounts, channels, memberships and conversations are
    written by other components. *)
Definition delete_messages (gone : MessageId → MessageRow → bool) (db : NotifyDb) : NotifyDb :=
  let lost i := match nt_messages db !! i with Some m => gone i m | None => false end in
  db <| nt_messages := delete_where gone (nt_messages db) |>
     <| nt_mentions := filter (λ mu, lost mu.1 = false) (nt_mentions db) |>
     <| nt_outbox := delete_where (λ k _, lost k.2) (nt_outbox db) |>.
Definition same_world (db db' : NotifyDb) : Prop :=
  nt_messages db' = nt_messages db ∧ nt_mentions db' = nt_mentions db
  ∧ nt_subscriptions db' = nt_subscriptions db ∧ nt_outbox db' = nt_outbox db.

Inductive notify_op `{PushLib, Unicode} (db : NotifyDb) : NotifyDb → Prop :=
  | Op_world db' : same_world db db' → direct_distinct db' → notify_op db db'
  | Op_preferences user value r db' :
      save_preferences user value db = (Ok r, db') → notify_op db db'
  | Op_channel_subscription user channel enabled db' :
      set_channel_subscription user channel enabled db = (Ok tt, db') → notify_op db db'
  | Op_persist now id m db' : persist_message now id m db = (Ok tt, db') → notify_op db db'
  | Op_edit now id actor body db' : edit_message now id actor body db = (Ok tt, db') → notify_op db db'
  | Op_delete id permitted db' : delete_message id permitted db = (Ok tt, db') → notify_op db db'
  | Op_cascade gone : notify_op db (delete_messages gone db)
  | Op_subscribe id user input agent db' :
      subscribe id user input agent db = (Ok tt, db') → notify_op db db'
  | Op_unsubscribe user endpoint db' :
      unsubscribe user endpoint db = (Ok tt, db') → notify_op db db'
  | Op_backfill now : notify_op db (backfill_current_cursors_once now db).

(** A delivery under way, numbered by the worker that claimed it: the row, the time of the
    claim, and what became of its lease. It is taken over when the row is claimed again, and
    it is lost when the row is deleted, or when the row is completed by a worker whose own
    lease is not the row's any more: completing clears the lease whoever holds it. *)
Inductive LeaseState : Type := Holding | Superseded (at_ : Z) | Robbed.
#[export] Instance LeaseState_eq_dec : EqDecision LeaseState.
Proof. solve_decision. Defined.
Record OpenClaim : Type := mk_OpenClaim { oc_key : OutboxKey; oc_at : Z; oc_state : LeaseState }.
#[export] Instance OpenClaim_eta : Eta OpenClaim := λ c, mk_OpenClaim (oc_key c) (oc_at c) (oc_state c).

(** The database with what its observers know: the messages there were when each device
    subscribed, the deliveries under way, what was delivered. *)
Record Outgoing : Type := mk_Outgoing {
  og_db : NotifyDb;
  og_seen : gmap SubscriptionId (gset MessageId);
  og_claims : gmap N OpenClaim;
  og_delivered : gset OutboxKey }.

Definition seen_after (db db' : NotifyDb) (seen : gmap SubscriptionId (gset MessageId))
    : gmap SubscriptionId (gset MessageId) :=
  gset_to_gmap (dom (nt_messages db)) (dom (nt_subscriptions db') ∖ dom (nt_subscriptions db)) ∪ seen.
Definition in_outbox (db : NotifyDb) (key : OutboxKey) : Prop := is_Some (nt_outbox db !! key).
#[export] Instance in_outbox_dec db key : Decision (in_outbox db key).
Proof. unfold in_outbox. apply _. Defined.

Definition job_key (job : PushJob) : OutboxKey := (push_subscription_id job, push_message_id job).

(** The holder of the lease of [key] becomes [state]. *)
Definition end_hold (p : OutboxKey → bool) (state : LeaseState) (c : OpenClaim) : OpenClaim :=
  if bool_decide (oc_state c = Holding) && p (oc_key c) then c <| oc_state := state |> else c.
Definition rob_gone (db : NotifyDb) : OpenClaim → OpenClaim :=
  end_hold (λ key, bool_decide (¬ in_outbox db key)) Robbed.
Definition by_holder (k : N) (key : OutboxKey) (claims : gmap N OpenClaim) : bool :=
  match claims !! k with
  | Some c => bool_decide (oc_state c = Holding) && bool_decide (oc_key c = key)
  | None => false
  end.
Definition claimed (k : N) (now : Z) (key : OutboxKey) (claims : gmap N OpenClaim) : gmap N OpenClaim :=
  <[k := mk_OpenClaim key now Holding]> (end_hold (λ key', bool_decide (key' = key)) (Superseded now) <$> claims).
Definition completed (k : N) (key : OutboxKey) (db' : NotifyDb) (claims : gmap N OpenClaim) : gmap N OpenClaim :=
  rob_gone db' <$>
    (end_hold (λ key', bool_decide (key' = key) && negb (by_holder k key claims)) Robbed <$> delete k claims).

(** A worker selects a row and claims it in two statements: the step is the second, with any
    job an earlier selection may have returned. *)
Inductive notify_step `{PushLib, Unicode} : Outgoing → Outgoing → Prop :=
  | Step_op db db' seen claims delivered :
      notify_op db db' →
      notify_step (mk_Outgoing db seen claims delivered)
        (mk_Outgoing db' (seen_after db db' seen) (rob_gone db' <$> claims)
           (filter (in_outbox db') delivered))
  | Step_claim k now job db db' seen claims delivered :
      claims !! k = None → claim_update now job db = (Ok true, db') →
      notify_step (mk_Outgoing db seen claims delivered)
        (mk_Outgoing db' seen (claimed k now (job_key job) claims) delivered)
  | Step_complete k now job result db db' seen claims delivered :
      (∀ c, claims !! k = Some c → oc_key c = job_key job) → complete now job result db = (Ok tt, db') →
      notify_step (mk_Outgoing db seen claims delivered)
        (mk_Outgoing db' seen (completed k (job_key job) db' claims)
           (filter (in_outbox db')
              (match result with Delivered => {[job_key job]} | _ => ∅ end ∪ delivered))).

Definition notify_init (w : Outgoing) : Prop :=
  direct_distinct (og_db w) ∧ nt_subscriptions (og_db w) = ∅ ∧ nt_outbox (og_db w) = ∅
  ∧ og_claims w = ∅ ∧ og_delivered w = ∅.
Definition notify_reachable `{PushLib, Unicode} (w : Outgoing) : Prop :=
  ∃ w0, notify_init w0 ∧ rtc notify_step w0 w.

(** ** The invariant *)

(** The lease of a row is that of the one delivery that holds it; a lease that was taken over
    had run out. *)
Record claims_ok (db : NotifyDb) (claims : gmap N OpenClaim) : Prop := {
  claims_state k c : claims !! k = Some c →
    match oc_state c with
    | Holding => ∃ r, nt_outbox db !! oc_key c = Some r ∧ out_leased_until r = Some (oc_at c + 30)%Z
    | Superseded at_ => (oc_at c + 30 < at_)%Z
    | Robbed => True
    end;
  claims_single k k' c c' : claims !! k = Some c → claims !! k' = Some c' →
    oc_state c = Holding → oc_state c' = Holding → oc_key c = oc_key c' → k = k' }.

Record outbox_inv (w : Outgoing) : Prop := {
  inv_direct : direct_distinct (og_db w);
  inv_rows s i r : nt_outbox (og_db w) !! (s, i) = Some r →
    ∃ sub m, nt_subscriptions (og_db w) !! s = Some sub ∧ nt_messages (og_db w) !! i = Some m
      ∧ out_recipient_id r = sub_user_id sub ∧ sub_user_id sub ≠ msg_sender_id m
      ∧ (sub_after sub < MessageId_as_uuid i ∨ sub_thread_after sub < MessageId_as_uuid i)%N;
  inv_seen s sub : nt_subscriptions (og_db w) !! s = Some sub →
    ∃ old, og_seen w !! s = Some old ∧ ∀ i, i ∈ old →
      (MessageId_as_uuid i ≤ sub_after sub ∧ MessageId_as_uuid i ≤ sub_thread_after sub)%N;
  inv_claims : claims_ok (og_db w) (og_claims w);
  inv_delivered key : key ∈ og_delivered w →
    ∃ r, nt_outbox (og_db w) !! key = Some r ∧ is_Some (out_delivered_at r) }.

(** What an operation besides the worker's does to the rows. *)
Definition same_device (sub sub' : Subscription) : Prop :=
  sub_user_id sub' = sub_user_id sub ∧ sub_after sub' = sub_after sub
  ∧ sub_thread_after sub' = sub_thread_after sub.
Definition is_fresh (db db' : NotifyDb) (s : SubscriptionId) (i : MessageId) (r : OutboxRow) : Prop :=
  nt_outbox db !! (s, i) = None ∧ ∃ sub m, nt_subscriptions db' !! s = Some sub
    ∧ nt_messages db' !! i = Some m ∧ out_recipient_id r = sub_user_id sub ∧ admissible db' i m sub.
Record quiet (db db' : NotifyDb) : Prop := {
  quiet_direct : direct_distinct db → direct_distinct db';
  quiet_subs s sub' : nt_subscriptions db' !! s = Some sub' →
    (∃ sub, nt_subscriptions db !! s = Some sub ∧ same_device sub sub')
    ∨ (nt_subscriptions db !! s = None ∧ sub_after sub' = high_water db
       ∧ sub_thread_after sub' = high_water db);
  quiet_senders i m m' : nt_messages db !! i = Some m → nt_messages db' !! i = Some m' →
    msg_sender_id m' = msg_sender_id m;
  quiet_rows s i r : direct_distinct db → nt_outbox db' !! (s, i) = Some r →
    is_fresh db db' s i r
    ∨ (nt_outbox db !! (s, i) = Some r
       ∧ (is_Some (nt_subscriptions db !! s) → is_Some (nt_subscriptions db' !! s))
       ∧ (is_Some (nt_messages db !! i) → is_Some (nt_messages db' !! i))) }.

Lemma high_water_ge db i : i ∈ dom (nt_messages db) → (MessageId_as_uuid i ≤ high_water db)%N.
Proof.
  intros [m Hm]%elem_of_dom. apply elem_of_map_to_list in Hm. unfold high_water.
  destruct (map_to_list (nt_messages db)) as [|kv l]; [by apply elem_of_nil in Hm|].
  revert Hm. generalize (kv :: l). clear kv l. intros l. induction l as [|[k m'] l IH]; simpl;
    [by intros ?%elem_of_nil|]. intros [[= -> ->]|Hl%IH]%elem_of_cons; lia.
Qed.

(** Leases under a change of the rows: [f] says what became of each delivery. *)
Definition lost_only (f : OpenClaim → OpenClaim) : Prop := ∀ c, f c = c ∨ f c = c <| oc_state := Robbed |>.
Lemma claims_ok_fmap f db db' claims :
  lost_only f → claims_ok db claims →
  (∀ k c r, claims !! k = Some c → oc_state (f c) = Holding → nt_outbox db !! oc_key c = Some r →
     out_leased_until r = Some (oc_at c + 30)%Z →
     ∃ r', nt_outbox db' !! oc_key c = Some r' ∧ out_leased_until r' = out_leased_until r) →
  claims_ok db' (f <$> claims).
Proof.
  intros Hf [Hst Hsg] Hrow. split.
  - intros k c'. rewrite lookup_fmap. intros (c & Hc & ->)%fmap_Some. specialize (Hst k c Hc).
    specialize (Hrow k c). destruct (Hf c) as [E|E]; rewrite E in *; [|done]. destruct (oc_state c) eqn:Es; try done.
    destruct Hst as (r & Hr & Hl). destruct (Hrow r) as (r' & Hr' & Hl'); [done..|]. exists r'. by rewrite Hl'.
  - intros k k' c1 c2. rewrite !lookup_fmap. intros (c & Hc & ->)%fmap_Some (c' & Hc' & ->)%fmap_Some.
    destruct (Hf c) as [E|E], (Hf c') as [E'|E']; rewrite E, E'; try done. by apply Hsg.
Qed.
Lemma end_hold_lost p : lost_only (end_hold p Robbed).
Proof. intros c. unfold end_hold. destruct (_ && _); auto. Qed.
Lemma end_hold_holding p state c :
  state ≠ Holding → oc_state (end_hold p state c) = Holding →
  end_hold p state c = c ∧ oc_state c = Holding ∧ p (oc_key c) = false.
Proof.
  intros Hs. unfold end_hold. destruct (oc_state c) eqn:E; simpl; [|by rewrite E..].
  destruct (p (oc_key c)) eqn:Ep; simpl; [done|]. done.
Qed.
Lemma rob_gone_ok db db' claims :
  (∀ key r, nt_outbox db !! key = Some r → in_outbox db' key → nt_outbox db' !! key = Some r) →
  claims_ok db claims → claims_ok db' (rob_gone db' <$> claims).
Proof.
  intros Hkeep Hok. eapply claims_ok_fmap; [apply end_hold_lost|done|].
  intros k c r _ (_ & _ & Hin)%end_hold_holding Hr _; [|done]. exists r. split; [|done].
  apply Hkeep; [done|]. by apply bool_decide_eq_false, dec_stable in Hin.
Qed.
Lemma quiet_inv db db' seen claimed delivered :
  quiet db db' → outbox_inv (mk_Outgoing db seen claimed delivered) →
  outbox_inv (mk_Outgoing db' (seen_after db db' seen) (rob_gone db' <$> claimed)
                (filter (in_outbox db') delivered)).
Proof.
  intros Hq [Hd Hrows Hseen Hclaimed Hdel]. simpl in *.
  assert (∀ key r, nt_outbox db !! key = Some r → in_outbox db' key → nt_outbox db' !! key = Some r)
    as Hkeep.
  { intros [s i] r Hr [r' Hr']. destruct (quiet_rows _ _ Hq s i r' Hd Hr') as [[? _]|[? _]]; congruence. }
  split; simpl.
  - by apply (quiet_direct _ _ Hq).
  - intros s i r Hr. destruct (quiet_rows _ _ Hq s i r Hd Hr) as [[_ (sub & m & ? & ? & ? & ? & _ & ?)]
      |(Hr0 & Hs & Hm)]; [naive_solver|].
    destruct (Hrows s i r Hr0) as (sub & m & Hsub & Hmsg & Hrec & Hne & Hlt).
    destruct Hs as [sub' Hs]; [done|]. destruct Hm as [m' Hm]; [done|]. exists sub', m'.
    rewrite (quiet_senders _ _ Hq i m m') by done.
    destruct (quiet_subs _ _ Hq s sub' Hs) as [(sub0 & ? & -> & -> & ->)|[? _]]; [|congruence].
    simplify_eq. done.
  - intros s sub Hsub. unfold seen_after.
    destruct (quiet_subs _ _ Hq s sub Hsub) as [(sub0 & Hsub0 & _ & -> & ->)|(Hnone & -> & ->)].
    + rewrite lookup_union_r; [by apply Hseen|]. apply lookup_gset_to_gmap_None.
      apply not_elem_of_difference. right. by apply elem_of_dom_2 in Hsub0.
    + eexists. split; [apply lookup_union_Some_l, lookup_gset_to_gmap_Some; split; [|done]|].
      * apply elem_of_difference. split; [by apply elem_of_dom_2 in Hsub|by apply not_elem_of_dom].
      * intros i Hi. by split; apply high_water_ge.
  - by apply (rob_gone_ok db).
  - intros key [Hin Hk]%elem_of_filter. destruct (Hdel key Hk) as (r & Hr & Hl).
    exists r. split; [by apply Hkeep|done].
Qed.

Lemma same_world_quiet db db' : same_world db db' → direct_distinct db' → quiet db db'.
Proof.
  intros (Hm & _ & Hs & Ho) Hd. split.
  - done.
  - intros s sub'. rewrite Hs. intros. left. by exists sub'.
  - intros i m m'. rewrite Hm. congruence.
  - intros s i r _. rewrite Hm, Hs, Ho. intros. by right.
Qed.

(** Storing a message changes the message table and then adds fresh rows. *)
Lemma stored_quiet now id m db db1 :
  nt_direct db1 = nt_direct db → nt_subscriptions db1 = nt_subscriptions db →
  nt_outbox db1 = nt_outbox db → nt_messages db1 = <[id := m]> (nt_messages db) →
  (∀ m0, nt_messages db !! id = Some m0 → msg_sender_id m = msg_sender_id m0) →
  quiet db (enqueue_message now id m db1).
Proof.
  intros Hdir Hsub Hout Hmsg Hsender.
  pose proof (enqueue_same now id m db1) as E. split.
  - unfold direct_distinct. rewrite E. simpl. by rewrite Hdir.
  - intros s sub'. rewrite E. simpl. rewrite Hsub. intros. left. by exists sub'.
  - intros i m0 m'. rewrite E. simpl. rewrite Hmsg.
    destruct (decide (i = id)) as [->|]; [rewrite lookup_insert_eq|rewrite lookup_insert_ne by done];
      naive_solver.
  - intros s i r Hd. rewrite lookup_enqueue, Hout.
    destruct (nt_outbox db !! (s, i)) as [r'|] eqn:Hr; [intros [= ->]; right|].
    + split; [done|]. rewrite E. simpl. rewrite Hsub, Hmsg. split; [done|].
      intros Hm. by apply lookup_insert_is_Some'; right.
    + destruct (decide (i = id)) as [->|]; [|done]. intros Hn. left. split; [done|].
      apply notification_sound in Hn as (sub & Hs & Hrec & Hadm);
        [|unfold direct_distinct; by rewrite Hdir].
      exists sub, m. rewrite E. simpl. rewrite Hmsg, lookup_insert_eq. done.
Qed.

Lemma backfill_quiet now db : quiet db (backfill_current_cursors_once now db).
Proof.
  pose proof (backfill_same now db) as E. split.
  - unfold direct_distinct. by rewrite E.
  - intros s sub'. rewrite E. intros. left. by exists sub'.
  - intros i m m'. rewrite E. simpl. congruence.
  - intros s i r Hd. rewrite lookup_backfill.
    destruct (nt_outbox db !! (s, i)) as [r'|] eqn:Hr; [intros [= ->]; right; by rewrite E|].
    destruct (nt_messages db !! i) as [m|] eqn:Hm; [|done]. simpl. intros Hn. left. split; [done|].
    apply notification_sound in Hn as (sub & Hs & Hrec & Hadm); [|done]. exists sub, m. by rewrite E.
Qed.

Lemma delete_subscriptions_quiet p db : quiet db (delete_subscriptions p db).
Proof.
  split; simpl.
  - done.
  - intros s sub' [Hs _]%lookup_delete_where_Some. left. by exists sub'.
  - congruence.
  - intros s i r _ [Hr Hp]%lookup_delete_where_Some. right. split_and!; [done| |done].
    simpl in Hp. intros [sub Hs]. rewrite Hs in Hp. exists sub. by apply lookup_delete_where_Some.
Qed.
Lemma delete_messages_quiet gone db : quiet db (delete_messages gone db).
Proof.
  split; simpl.
  - done.
  - intros s sub' Hs. left. by exists sub'.
  - intros i m m' Hm [Hm' _]%lookup_delete_where_Some. congruence.
  - intros s i r _ [Hr Hp]%lookup_delete_where_Some. right. split_and!; [done|done|].
    simpl in Hp. intros [m Hm]. rewrite Hm in Hp. exists m. by apply lookup_delete_where_Some.
Qed.

Lemma message_of_Ok id allowed db m db' :
  message_of id allowed db = (Ok m, db') → db' = db ∧ nt_messages db !! id = Some m ∧ allowed m = true.
Proof. unfold message_of. intros H. by ok_inv H. Qed.

Lemma delete_message_quiet id permitted db db' :
  delete_message id permitted db = (Ok tt, db') → quiet db db'.
Proof.
  unfold delete_message. intros H. ok_inv H. apply message_of_Ok in H0 as (-> & Hm & _).
  split; simpl.
  - done.
  - intros s' sub' Hs. left. by exists sub'.
  - intros i m m'. destruct (decide (i = id)) as [->|];
      [rewrite lookup_insert_eq|rewrite lookup_insert_ne by done]; [|congruence].
    intros ? [= <-]. simplify_eq. done.
  - intros s' i r _ [Hr Hp]%lookup_delete_where_Some. right. split_and!; [done|done|].
    intros Hi. by apply lookup_insert_is_Some'; right.
Qed.

Section steps.
Context `{PushLib, Unicode}.

Lemma subscribe_quiet id user input agent db db' :
  subscribe id user input agent db = (Ok tt, db') → quiet db db'.
Proof.
  unfold subscribe. intros Hok. ok_inv Hok;
    [match goal with E : fetch_where _ _ = Some _ |- _ => apply fetch_where_Some in E as [Hk _] end
    |apply andb_true_iff in H2 as [_ Hid]; unfold contains_key in Hid;
     apply negb_true_iff, bool_decide_eq_false, eq_None_not_Some in Hid];
  (split; simpl; [done| |congruence|]).
  - intros s' sub'. destruct (decide (s' = n)) as [->|].
    + rewrite lookup_insert_eq. intros [= <-]. left. eexists. by split.
    + rewrite lookup_insert_ne by done. left. eexists. by split.
  - intros s' i r _ Hr. right. split_and!; [done| |done]. intros. by apply lookup_insert_is_Some'; right.
  - intros s' sub'. destruct (decide (s' = id)) as [->|].
    + rewrite lookup_insert_eq. intros [= <-]. by right.
    + rewrite lookup_insert_ne by done. left. eexists. by split.
  - intros s' i r _ Hr. right. split_and!; [done| |done]. intros. by apply lookup_insert_is_Some'; right.
Qed.

Lemma op_quiet db db' : direct_distinct db → notify_op db db' → quiet db db'.
Proof.
  intros Hd. destruct 1 as [db' Hw Hd'|user value r db' Hr|user channel enabled db' Hr|now id m db' Hr
    |now id actor body db' Hr|id permitted db' Hr|gone|id user input agent db' Hr|user endpoint db' Hr|now].
  - by apply same_world_quiet.
  - unfold save_preferences in Hr. ok_inv Hr. by apply same_world_quiet.
  - unfold set_channel_subscription in Hr. ok_inv Hr; by apply same_world_quiet.
  - unfold persist_message in Hr. ok_inv Hr. apply stored_quiet; try done.
    intros m0 Hm0. unfold contains_key in *. rewrite Hm0 in *. done.
  - unfold edit_message in Hr. ok_inv Hr. apply message_of_Ok in H1 as (-> & Hm & _).
    apply stored_quiet; try done. intros m0 Hm0. by simplify_eq.
  - by eapply delete_message_quiet.
  - apply delete_messages_quiet.
  - by eapply subscribe_quiet.
  - unfold unsubscribe in Hr. ok_inv Hr. apply delete_subscriptions_quiet.
  - apply backfill_quiet.
Qed.
End steps.

(** The worker's updates keep the rows apart from lease, attempts and outcome. *)
Record touched (f : OutboxKey → OutboxRow → OutboxRow) (db db' : NotifyDb) : Prop := {
  touched_direct : nt_direct db' = nt_direct db;
  touched_messages : nt_messages db' = nt_messages db;
  touched_subs s sub' : nt_subscriptions db' !! s = Some sub' →
    ∃ sub, nt_subscriptions db !! s = Some sub ∧ same_device sub sub';
  touched_devices s : is_Some (nt_subscriptions db !! s) → is_Some (nt_subscriptions db' !! s);
  touched_rows key : nt_outbox db' !! key = f key <$> nt_outbox db !! key;
  touched_recipient key r : out_recipient_id (f key r) = out_recipient_id r }.

Lemma touched_inv f db db' seen claimed delivered claimed' delivered' :
  touched f db db' → outbox_inv (mk_Outgoing db seen claimed delivered) →
  claims_ok db' claimed' →
  (∀ key, key ∈ delivered' → ∃ r, nt_outbox db' !! key = Some r ∧ is_Some (out_delivered_at r)) →
  outbox_inv (mk_Outgoing db' seen claimed' delivered').
Proof.
  intros Ht [Hd Hrows Hseen _ _] Hc' Hd'. simpl in *. split; simpl; [| | |done|done].
  - unfold direct_distinct. by rewrite (touched_direct _ _ _ Ht).
  - intros s i r. rewrite (touched_rows _ _ _ Ht). intros (r0 & Hr0 & ->)%fmap_Some.
    rewrite (touched_recipient _ _ _ Ht), (touched_messages _ _ _ Ht).
    destruct (Hrows s i r0 Hr0) as (sub & m & Hs & Hm & ? & ? & ?).
    destruct (touched_devices _ _ _ Ht s) as [sub' Hs']; [done|].
    destruct (touched_subs _ _ _ Ht s sub' Hs') as (sub0 & Hs0 & E1 & E2 & E3). simplify_eq.
    exists sub', m. by rewrite E1, E2, E3.
  - intros s sub' Hs'. destruct (touched_subs _ _ _ Ht s sub' Hs') as (sub & Hs & _ & -> & ->).
    by apply Hseen.
Qed.

Lemma claim_update_true now job db db' :
  claim_update now job db = (Ok true, db') →
  ∃ r, nt_outbox db !! job_key job = Some r ∧ pending r = true ∧ lease_free now r = true
  ∧ db' = db <| nt_outbox := <[job_key job := r <| out_leased_until := Some (now + 30)%Z |>
                 <| out_attempts := (out_attempts r + 1)%N |>]> (nt_outbox db) |>.
Proof.
  unfold claim_update. intros H. ok_inv H. eexists. split_and!; [done|..|done];
    by apply andb_true_iff in E0 as [? ?].
Qed.

Lemma update_row_touched key g db :
  (∀ r, out_recipient_id (g r) = out_recipient_id r) →
  touched (λ k r, if decide (k = key) then g r else r) db (update_row key g db).
Proof.
  intros Hg. split; simpl; [done|done| |done| |].
  - intros s sub' Hs. by exists sub'.
  - intros k. destruct (decide (k = key)) as [->|].
    + by rewrite lookup_alter_eq.
    + rewrite lookup_alter_ne by done. by destruct (nt_outbox db !! k).
  - intros k r. by destruct (decide _).
Qed.

Lemma claim_touched now job db db' :
  claim_update now job db = (Ok true, db') →
  touched (λ k r, if decide (k = job_key job) then
                    r <| out_leased_until := Some (now + 30)%Z |>
                      <| out_attempts := (out_attempts r + 1)%N |>
                  else r) db db'.
Proof.
  intros (r & Hr & _ & _ & ->)%claim_update_true.
  assert (∀ g, <[job_key job := g r]> (nt_outbox db) = alter g (job_key job) (nt_outbox db)) as Ea.
  { intros g. apply map_eq. intros k. destruct (decide (job_key job = k)) as [<-|].
    - by rewrite lookup_insert_eq, lookup_alter_eq, Hr.
    - by rewrite lookup_insert_ne, lookup_alter_ne. }
  pose proof (update_row_touched (job_key job) (λ r, r <| out_leased_until := Some (now + 30)%Z |>
    <| out_attempts := (out_attempts r + 1)%N |>) db) as Ht.
  unfold update_row in Ht. rewrite <-Ea in Ht. by apply Ht.
Qed.

Lemma claimed_ok k now job db db' claims :
  claims !! k = None → claim_update now job db = (Ok true, db') → claims_ok db claims →
  claims_ok db' (claimed k now (job_key job) claims).
Proof.
  intros Hk Hc Hok. pose proof (claim_touched _ _ _ _ Hc) as Ht.
  apply claim_update_true in Hc as (r & Hr & _ & Hfree & _).
  assert (∀ k' c, claims !! k' = Some c → oc_state c = Holding → oc_key c = job_key job → (oc_at c + 30 < now)%Z) as Hout.
  { intros k' c Hc' Hs Hkey. assert (Hst := claims_state _ _ Hok _ _ Hc'). rewrite Hs, Hkey in Hst.
    destruct Hst as (r' & Hr' & Hl). simplify_eq. unfold lease_free in Hfree. rewrite Hl in Hfree. lia. }
  unfold claimed. split.
  - intros k' c' [[<- <-]|[_ Hc']]%lookup_insert_Some.
    + simpl. rewrite (touched_rows _ _ _ Ht), Hr. simpl. rewrite decide_True by done. by eexists.
    + rewrite lookup_fmap in Hc'. apply fmap_Some in Hc' as (c & Hc & ->). assert (Hst := claims_state _ _ Hok _ _ Hc).
      unfold end_hold. destruct (oc_state c) eqn:Es; simpl; [|by rewrite Es..].
      destruct (decide (oc_key c = job_key job)) as [Hkey|Hkey].
      * rewrite bool_decide_true by done. simpl. by eapply Hout.
      * rewrite bool_decide_false by done. simpl. rewrite Es. destruct Hst as (r' & Hr' & Hl). exists r'.
        rewrite (touched_rows _ _ _ Ht), Hr'. simpl. by rewrite decide_False.
  - assert (∀ k' c', (end_hold (λ key', bool_decide (key' = job_key job)) (Superseded now) <$> claims) !! k' = Some c' →
      oc_state c' = Holding → claims !! k' = Some c' ∧ oc_key c' ≠ job_key job) as Hold.
    { intros k' c'. rewrite lookup_fmap. intros (c & Hc & ->)%fmap_Some (-> & _ & Hne)%end_hold_holding; [|done].
      by apply bool_decide_eq_false in Hne. }
    intros k1 k2 c1 c2 [[<- <-]|[_ H1]]%lookup_insert_Some [[<- <-]|[_ H2]]%lookup_insert_Some Hs1 Hs2 Hkey; [done|..].
    + by destruct (Hold _ _ H2 Hs2).
    + by destruct (Hold _ _ H1 Hs1).
    + destruct (Hold _ _ H1 Hs1), (Hold _ _ H2 Hs2). by eapply claims_single.
Qed.
Lemma claim_inv k now job db db' seen claims delivered :
  claims !! k = None → claim_update now job db = (Ok true, db') →
  outbox_inv (mk_Outgoing db seen claims delivered) →
  outbox_inv (mk_Outgoing db' seen (claimed k now (job_key job) claims) delivered).
Proof.
  intros Hk Hc Hinv. pose proof (claim_touched _ _ _ _ Hc) as Ht.
  eapply touched_inv; [done|done|by apply (claimed_ok _ _ _ db); [| |apply (inv_claims _ Hinv)]|].
  intros key Hkey. destruct (inv_delivered _ Hinv key Hkey) as (r & Hr & Hl). simpl in Hr.
  rewrite (touched_rows _ _ _ Ht), Hr. eexists. split; [done|]. by destruct (decide _).
Qed.

(** Completing a delivery changes the one row, which loses its lease. *)
Lemma complete_touched now job result db db' :
  result ≠ Expired → complete now job result db = (Ok tt, db') →
  ∃ g, touched (λ k r, if decide (k = job_key job) then g r else r) db db'
    ∧ (∀ r, is_Some (out_delivered_at r) ∨ result = Delivered → is_Some (out_delivered_at (g r))).
Proof.
  intros Hne Hc. unfold complete in Hc. destruct result as [| |error]; [|done|]; ok_inv Hc.
  - exists (λ r, r <| out_delivered_at := Some now |> <| out_leased_until := None |>
                   <| out_last_error := None |>). split; [|by intros; simpl; eexists].
    pose proof (update_row_touched (job_key job) (λ r, r <| out_delivered_at := Some now |>
      <| out_leased_until := None |> <| out_last_error := None |>) db) as [? ? Hs Hs' ? ?]; [done|].
    split; [done|done| | |done|done]; simpl.
    + intros s sub'. destruct (decide (s = push_subscription_id job)) as [->|].
      * rewrite lookup_alter_eq. intros (sub & ? & ->)%fmap_Some. eexists. by split.
      * rewrite lookup_alter_ne by done. eexists. by split.
    + intros s Hs0. by apply lookup_alter_is_Some.
  - eexists. split; [by apply update_row_touched|]. intros r [?|?]; done.
Qed.

Lemma seen_after_same db db' seen :
  dom (nt_subscriptions db') ⊆ dom (nt_subscriptions db) → seen_after db db' seen = seen.
Proof.
  intros Hsub. unfold seen_after.
  assert (dom (nt_subscriptions db') ∖ dom (nt_subscriptions db) = ∅) as -> by set_solver.
  by rewrite gset_to_gmap_empty, map_empty_union.
Qed.

Lemma claims_ok_delete k db claims : claims_ok db claims → claims_ok db (delete k claims).
Proof.
  intros [Hst Hsg]. split.
  - intros k' c [_ Hc]%lookup_delete_Some. by apply Hst in Hc.
  - intros k1 k2 c1 c2 [_ H1]%lookup_delete_Some [_ H2]%lookup_delete_Some. eauto.
Qed.
Lemma completed_ok k key db db' claims :
  claims_ok db claims →
  (∀ c, claims !! k = Some c → oc_key c = key) →
  (∀ key' r, nt_outbox db !! key' = Some r → key' ≠ key → in_outbox db' key' →
     ∃ r', nt_outbox db' !! key' = Some r' ∧ out_leased_until r' = out_leased_until r) →
  claims_ok db' (completed k key db' claims).
Proof.
  intros Hok Hk Hrow. unfold completed. set (f := end_hold _ Robbed).
  assert (∀ k' c, delete k claims !! k' = Some c → oc_state (f c) = Holding → oc_key c ≠ key) as Hother.
  { intros k' c [Hne Hc]%lookup_delete_Some (_ & Hs & Hp)%end_hold_holding Hkey; [|done].
    rewrite bool_decide_true in Hp by done. simpl in Hp. apply negb_false in Hp. unfold by_holder in Hp.
    destruct (claims !! k) as [c0|] eqn:E0; [|done]. apply andb_true_iff in Hp as [Hs0%bool_decide_eq_true Hk0%bool_decide_eq_true].
    apply Hne. eapply claims_single; [done|exact E0|exact Hc|done|done|congruence]. }
  rewrite <-map_fmap_compose. apply (claims_ok_fmap _ db); [|by apply claims_ok_delete|].
  - intros c. unfold compose. destruct (end_hold_lost (λ key', bool_decide (key' = key) && negb (by_holder k key claims)) c) as [E|E];
      fold f in E; rewrite E.
    + apply end_hold_lost.
    + by right.
  - intros k' c r Hc Hs Hr Hl. simpl in Hs. apply end_hold_holding in Hs as (Es & Hs & Hin); [|done].
    apply bool_decide_eq_false, dec_stable in Hin. assert (Hkey := Hother k' c Hc Hs).
    assert (Robbed ≠ Holding) as Hne by done. destruct (end_hold_holding _ _ _ Hne Hs) as (Ef & _).
    unfold f in Hin. rewrite Ef in Hin. by apply Hrow.
Qed.

Lemma complete_inv k now job result db db' seen claims delivered :
  (∀ c, claims !! k = Some c → oc_key c = job_key job) → complete now job result db = (Ok tt, db') →
  outbox_inv (mk_Outgoing db seen claims delivered) →
  outbox_inv (mk_Outgoing db' seen (completed k (job_key job) db' claims)
    (filter (in_outbox db') (match result with Delivered => {[job_key job]} | _ => ∅ end ∪ delivered))).
Proof.
  intros Hk Hc Hinv. assert (result = Expired ∨ result ≠ Expired) as [->|Hne] by (destruct result; auto).
  - unfold complete in Hc. ok_inv Hc. set (p := λ k _, bool_decide (k = push_subscription_id job)) in *.
    pose proof (delete_subscriptions_quiet p db) as Hq.
    assert (Hinv' := quiet_inv _ _ _ _ _ Hq Hinv). rewrite seen_after_same in Hinv' by (simpl; apply dom_filter_subseteq).
    destruct Hinv' as [? ? ? _ Hdel]. split; simpl in *; [done..| |].
    + apply (completed_ok _ _ db); [apply (inv_claims _ Hinv)|done|].
      intros key' r Hr _ [r' Hr']. exists r'. split; [done|]. simpl in Hr'.
      apply lookup_delete_where_Some in Hr' as [Hr' _]. congruence.
    + intros key Hkey. apply Hdel. set_solver.
  - destruct (complete_touched _ _ _ _ _ Hne Hc) as (g & Ht & Hg). eapply touched_inv; [done|done|..].
    + apply (completed_ok _ _ db); [apply (inv_claims _ Hinv)|done|].
      intros key' r Hr Hkey _. rewrite (touched_rows _ _ _ Ht), Hr. simpl. rewrite decide_False by done. by eexists.
    + intros key [[r Hr] Hkey]%elem_of_filter. exists r. split; [done|].
      rewrite (touched_rows _ _ _ Ht) in Hr. apply fmap_Some in Hr as (r0 & Hr0 & ->).
      apply elem_of_union in Hkey as [Hkey|Hkey].
      * destruct result; [|set_solver..]. apply elem_of_singleton in Hkey as ->.
        rewrite decide_True by done. by apply Hg; right.
      * destruct (inv_delivered _ Hinv key Hkey) as (r1 & Hr1 & Hl). simpl in Hr1. simplify_eq.
        destruct (decide _); [by apply Hg; left|done].
Qed.

Lemma notify_step_inv `{PushLib, Unicode} w w' : outbox_inv w → notify_step w w' → outbox_inv w'.
Proof.
  intros Hinv. destruct 1 as [db db' seen claims delivered Hop|k now job db db' seen claims delivered Hk Hc
    |k now job result db db' seen claims delivered Hk Hc].
  - apply quiet_inv; [|done]. apply op_quiet; [apply (inv_direct _ Hinv)|done].
  - by eapply claim_inv.
  - by eapply complete_inv.
Qed.

Lemma notify_reachable_inv `{PushLib, Unicode} w : notify_reachable w → outbox_inv w.
Proof.
  intros (w0 & (Hd & Hs & Ho & Hc & Hl) & Hrtc). assert (outbox_inv w0) as Hinv
    by (split; [done|rewrite ?Hs, ?Ho; set_solver|rewrite ?Hs, ?Ho; set_solver
         |rewrite Hc; split; intros k; intros *; by rewrite lookup_empty|rewrite Hl; set_solver]).
  clear Hd Hs Ho Hc Hl. induction Hrtc as [|w0 w1 w2 Hstep _ IH]; [done|].
  by eapply IH, notify_step_inv.
Qed.

(** A step takes a lease from its holder only by deleting the row, or by completing it for a
    delivery that does not hold it. *)
Definition lease_lost `{PushLib, Unicode} (w w' : Outgoing) (key : OutboxKey) : Prop :=
  nt_outbox (og_db w') !! key = None
  ∨ ∃ k now job result, job_key job = key ∧ by_holder k key (og_claims w) = false
      ∧ complete now job result (og_db w) = (Ok tt, og_db w').
Lemma robbed_lost `{PushLib, Unicode} w w' k c c' :
  notify_step w w' → og_claims w !! k = Some c → oc_state c = Holding →
  og_claims w' !! k = Some c' → oc_state c' = Robbed → lease_lost w w' (oc_key c).
Proof.
  assert (∀ db c, oc_state c = Holding → oc_state (rob_gone db c) = Robbed → nt_outbox db !! oc_key c = None) as Hgone.
  { intros db c1 Hs. unfold rob_gone, end_hold. rewrite Hs. simpl. case_bool_decide as Hn; [|by rewrite Hs].
    intros _. by apply eq_None_not_Some. }
  destruct 1 as [db db' seen claims delivered Hop|k' now job db db' seen claims delivered Hk Hc
    |k' now job result db db' seen claims delivered Hk Hc]; simpl; intros Hold Hs.
  - rewrite lookup_fmap, Hold. intros [= <-] Hr. left. by apply Hgone.
  - unfold claimed. intros [[-> <-]|[_ Hc']]%lookup_insert_Some Hr; [done|].
    rewrite lookup_fmap, Hold in Hc'. injection Hc' as <-. unfold end_hold in Hr. rewrite Hs in Hr.
    destruct (bool_decide (_ = _) && _) in Hr; simpl in Hr; congruence.
  - unfold completed. rewrite !lookup_fmap. intros (c1 & (c2 & [_ Hc2]%lookup_delete_Some & ->)%fmap_Some & ->)%fmap_Some Hr.
    simplify_eq. unfold end_hold in Hr at 1. rewrite Hs in Hr. simpl in Hr.
    destruct (bool_decide (oc_key c = job_key job) && negb (by_holder k' (job_key job) claims)) eqn:E.
    + apply andb_true_iff in E as [Hkey%bool_decide_eq_true Hh%negb_true_iff].
      right. exists k', now, job, result. by rewrite Hkey.
    + left. by apply Hgone.
Qed.
