(* ===== verification/NotificationProps.v ===== *)
(** * NotificationProps: theorems about the outbox

    A stored message gives every device at most one notification, of the most specific
    kind; the start-up backfill adds what storing the messages would have added; nobody
    is notified of their own messages or of messages older than their subscription; a due
    notification is claimed, by one worker at a time while its lease lasts, and not again once
    delivered. *)

From Stdlib Require Import ZifyBool.
From stdpp Require Import base tactics numbers strings countable sorting gmap list relations.
From S2P Require Import Prelude RustStr Text Ids Models RepoState Sql Notifications NotificationReach.

(** ** Claims *)

Lemma minimum_exists {A} (f : A → Z) (l : list A) :
  l ≠ [] → ∃ x, x ∈ l ∧ Forall (λ y, f x ≤ f y)%Z l.
Proof.
  induction l as [|a l IH]; [done|]. intros _. destruct l as [|b l].
  - exists a. split; [by left|]. by repeat constructor.
  - destruct IH as (x & Hx & Hmin); [done|]. destruct (Z.le_ge_cases (f a) (f x)) as [Hle|Hge].
    + exists a. split; [by left|]. constructor; [done|]. eapply Forall_impl; [done|]. simpl. lia.
    + exists x. split; [by right|]. by constructor.
Qed.

Lemma oldest_due_elem now db key r :
  (key, r) ∈ oldest_due now db →
  nt_outbox db !! key = Some r ∧ due now r = true ∧ is_Some (push_job db key r)
  ∧ ∀ key' r', nt_outbox db !! key' = Some r' → due now r' = true → is_Some (push_job db key' r') →
      (out_created_at r ≤ out_created_at r')%Z.
Proof.
  unfold oldest_due. intros [Hmin [[Hdue Hjob] Hel]%list_elem_of_filter]%list_elem_of_filter. simpl in *.
  apply elem_of_map_to_list in Hel. split_and!; [done..|]. intros key' r' Hr' Hdue' Hjob'.
  rewrite Forall_forall in Hmin. apply (Hmin (key', r')), list_elem_of_filter.
  split; [done|]. by apply elem_of_map_to_list.
Qed.
Lemma oldest_due_nonempty now db key r :
  nt_outbox db !! key = Some r → due now r = true → is_Some (push_job db key r) →
  oldest_due now db ≠ [].
Proof.
  intros Hr Hdue Hjob. unfold oldest_due. set (rows := filter _ (map_to_list (nt_outbox db))).
  destruct (minimum_exists (λ kr : OutboxKey * OutboxRow, out_created_at kr.2) rows)
    as (kr & Hkr & Hmin).
  - apply (elem_of_not_nil (key, r)), list_elem_of_filter. split; [done|]. by apply elem_of_map_to_list.
  - apply (elem_of_not_nil kr), list_elem_of_filter. done.
Qed.
Lemma push_job_key db key r job : push_job db key r = Some job → job_key job = key.
Proof.
  unfold push_job. intros (s & _ & (m & _ & (c & _ & [= <-])%bind_Some)%bind_Some)%bind_Some.
  by destruct key.
Qed.

Lemma claim_Some now choice db job db' :
  claim now choice db = (Ok (Some job), db') →
  claim_update now job db = (Ok true, db')
  ∧ ∃ r, (job_key job, r) ∈ oldest_due now db ∧ push_job db (job_key job) r = Some job.
Proof.
  unfold claim, claim_select. intros Hc. ok_inv Hc.
  match goal with H : claim_update _ _ _ = (Ok ?b, _) |- _ => destruct b; simplify_eq end.
  split; [done|].
  match goal with E : _ ≫= _ = Some _ |- _ => apply bind_Some in E as ([key r] & Hl & Hj) end.
  simpl in Hj. exists r. rewrite (push_job_key _ _ _ _ Hj). split; [|done].
  by eapply list_elem_of_lookup_2.
Qed.

(** When a notification is due, the worker's claim returns one: the oldest, with a
    lease of thirty seconds and one more attempt, and no other row is changed. When none
    is due the claim returns none and changes nothing. *)
Theorem due_notification_claimed now choice db :
  ((∃ key r, nt_outbox db !! key = Some r ∧ due now r = true ∧ is_Some (push_job db key r)) →
   ∃ job r, let key := (push_subscription_id job, push_message_id job) in
     nt_outbox db !! key = Some r ∧ due now r = true ∧ push_job db key r = Some job
     ∧ (∀ key' r', nt_outbox db !! key' = Some r' → due now r' = true →
          is_Some (push_job db key' r') → (out_created_at r ≤ out_created_at r')%Z)
     ∧ claim now choice db = (Ok (Some job), db <| nt_outbox :=
         <[key := r <| out_leased_until := Some (now + 30)%Z |>
                    <| out_attempts := (out_attempts r + 1)%N |>]> (nt_outbox db) |>))
  ∧ ((∀ key r, nt_outbox db !! key = Some r → due now r = true → push_job db key r = None) →
     claim now choice db = (Ok None, db)).
Proof.
  split.
  - intros (key0 & r0 & Hr0 & Hdue0 & Hjob0).
    pose proof (oldest_due_nonempty now db key0 r0 Hr0 Hdue0 Hjob0) as Hne.
    destruct (lookup_lt_is_Some_2 (oldest_due now db) (choice `mod` length (oldest_due now db)))
      as [[key r] Hl]; [apply Nat.mod_upper_bound; by destruct (oldest_due now db)|].
    destruct (oldest_due_elem now db key r) as (Hr & Hdue & [job Hjob] & Hmin);
      [by eapply list_elem_of_lookup_2|].
    pose proof (push_job_key _ _ _ _ Hjob) as Hkey. unfold job_key in Hkey.
    exists job, r. simpl. rewrite Hkey. split_and!; try done.
    unfold claim, claim_select, claim_update, st_bind, get, st_ret. simpl.
    rewrite Hl. simpl. rewrite Hjob. simpl. rewrite Hkey, Hr.
    apply andb_true_iff in Hdue as [[Hp _]%andb_true_iff Hfree]. by rewrite Hp, Hfree.
  - intros Hnone. assert (oldest_due now db = []) as E.
    { destruct (oldest_due now db) as [|[key r] l] eqn:E; [done|].
      destruct (oldest_due_elem now db key r) as (Hr & Hdue & [job Hjob] & _); [rewrite E; by left|].
      rewrite (Hnone key r Hr Hdue) in Hjob. done. }
    unfold claim, claim_select, st_bind, get, st_ret. by rewrite E.
Qed.

(** ** What is enqueued *)

(** Storing a message gives each device at most one outbox row: the row that is there,
    or one for the most specific of the kinds that apply (a mention before a direct
    message, before a thread reply, before a channel message), due at once. Rows of other
    messages and the other tables stay as they are. *)
Theorem enqueue_exact now id m db s i :
  nt_outbox (enqueue_message now id m db) !! (s, i)
  = match nt_outbox db !! (s, i) with
    | Some r => Some r
    | None => if decide (i = id) then notification now db id m s else None
    end
  ∧ enqueue_message now id m db = db <| nt_outbox := nt_outbox (enqueue_message now id m db) |>.
Proof.
  split; [apply lookup_enqueue|apply enqueue_same].
Qed.

(** The start-up backfill, six queries over all messages, puts into the outbox what
    enqueueing each stored message would put there, so a message whose notifications were
    enqueued gets nothing more; it changes no other table. *)
Theorem backfill_equals_enqueue now db s i :
  nt_outbox (backfill_current_cursors_once now db) !! (s, i)
  = match nt_messages db !! i with
    | Some m => nt_outbox (enqueue_message now i m db) !! (s, i)
    | None => nt_outbox db !! (s, i)
    end
  ∧ (∀ now' m, nt_messages db !! i = Some m →
       nt_outbox (backfill_current_cursors_once now' (enqueue_message now i m db)) !! (s, i)
       = nt_outbox (enqueue_message now i m db) !! (s, i))
  ∧ backfill_current_cursors_once now db
    = db <| nt_outbox := nt_outbox (backfill_current_cursors_once now db) |>.
Proof.
  split_and!.
  - rewrite lookup_backfill. destruct (nt_messages db !! i) as [m|]; cbn [mbind option_bind].
    + by rewrite lookup_enqueue, decide_True.
    + by destruct (nt_outbox db !! (s, i)).
  - intros now' m Hm. rewrite lookup_backfill, lookup_enqueue, decide_True by done.
    destruct (nt_outbox db !! (s, i)); [done|].
    destruct (notification now db i m s) as [r|] eqn:Hn; [done|].
    rewrite (enqueue_same now i m db). change (nt_messages (db <| nt_outbox := _ |>)) with (nt_messages db).
    rewrite Hm. cbn [mbind option_bind]. by rewrite notification_ignores_outbox, (notification_None now).
  - apply backfill_same.
Qed.

(** ** Everything reachable *)

Section reachable.
Context `{PushLib, Unicode}.

(** C28: in every reachable state a row of the outbox belongs to the owner of its device,
    who did not send the message, and the message is not one of those that existed when
    the device subscribed. *)
Theorem outbox_sound w s i r :
  notify_reachable w → nt_outbox (og_db w) !! (s, i) = Some r →
  ∃ sub m, nt_subscriptions (og_db w) !! s = Some sub ∧ nt_messages (og_db w) !! i = Some m
  ∧ out_recipient_id r = sub_user_id sub ∧ out_recipient_id r ≠ msg_sender_id m
  ∧ ∃ old, og_seen w !! s = Some old ∧ i ∉ old.
Proof.
  intros Hinv%notify_reachable_inv Hr. destruct (inv_rows _ Hinv s i r Hr)
    as (sub & m & Hs & Hm & Hrec & Hne & Hlt). exists sub, m. rewrite Hrec. split_and!; try done.
  destruct (inv_seen _ Hinv s sub Hs) as (old & Hold & Hle). exists old. split; [done|].
  intros Hi%Hle. lia.
Qed.

(** C29: a delivery that claims a notification has it for itself for thirty seconds. However
    the selections, claims and completions of the workers interleave with everything else,
    when a claim succeeds the row was not delivered, and every other delivery of the row that
    is still under way has run out (its claim is more than thirty seconds old, at this claim
    or at the one that took the row over) or has lost its lease before. A lease is lost only
    if the row is deleted, or if the row is completed for a delivery that does not hold it,
    because its own lease was taken over or lost; and a row has at most one holder. *)
Theorem notification_claims_exclusive w now job db' :
  notify_reachable w → claim_update now job (og_db w) = (Ok true, db') →
  (job_key job ∉ og_delivered w)
  ∧ (∀ k c, og_claims w !! k = Some c → oc_key c = job_key job →
       match oc_state c with
       | Holding => (oc_at c + 30 < now)%Z
       | Superseded at_ => (oc_at c + 30 < at_)%Z
       | Robbed => True
       end)
  ∧ (∀ w' k c c', notify_step w w' → og_claims w !! k = Some c → oc_state c = Holding →
       og_claims w' !! k = Some c' → oc_state c' = Robbed → lease_lost w w' (oc_key c))
  ∧ (∀ k k' c c', og_claims w !! k = Some c → og_claims w !! k' = Some c' →
       oc_state c = Holding → oc_state c' = Holding → oc_key c = oc_key c' → k = k').
Proof.
  intros Hinv%notify_reachable_inv Hc.
  destruct (claim_update_true _ _ _ _ Hc) as (r & Hr & Hp & Hfree & _). split_and!.
  - intros Hk. destruct (inv_delivered _ Hinv _ Hk) as (r' & Hr' & [t Ht]).
    simplify_eq. unfold pending in Hp. by rewrite Ht in Hp.
  - intros k c Hk Hkey. assert (Hst := claims_state _ _ (inv_claims _ Hinv) _ _ Hk). rewrite Hkey in Hst.
    destruct (oc_state c); try done. destruct Hst as (r' & Hr' & Hl). simplify_eq. unfold lease_free in Hfree.
    rewrite Hl in Hfree. lia.
  - intros w' k c c'. apply robbed_lost.
  - apply (claims_single _ _ (inv_claims _ Hinv)).
Qed.
End reachable.

(** Deleting a message removes its outbox rows, delivered ones too, but the backfill
    does not look at the deletion: for a direct message, the next start of a worker puts
    the notification back, to be pushed with the text of the deletion notice. *)
Theorem deleted_message_renotified id permitted now db db' m s sub :
  delete_message id permitted db = (Ok tt, db') → nt_messages db !! id = Some m →
  nt_subscriptions db !! s = Some sub → direct_applies db id m sub = true →
  nt_outbox db' !! (s, id) = None
  ∧ nt_outbox (backfill_current_cursors_once now db') !! (s, id)
    = Some (new_row now (sub_user_id sub) Kind_direct_message)
  ∧ msg_body <$> nt_messages db' !! id = Some (lit "Meldinga er sletta.").
Proof.
  intros Hdel Hm Hs Hdir. unfold delete_message in Hdel. ok_inv Hdel.
  apply message_of_Ok in H as (-> & Hm' & _). simplify_eq. simpl.
  assert (delete_where (λ k _, bool_decide (k.2 = id)) (nt_outbox db) !! (s, id) = None) as Hnone.
  { rewrite lookup_delete_where. destruct (nt_outbox db !! (s, id)); [|done].
    by rewrite bool_decide_eq_true_2. }
  split_and!; [done| |by rewrite lookup_insert_eq].
  rewrite lookup_backfill. simpl. rewrite Hnone, lookup_insert_eq. unfold notification. simpl.
  rewrite Hs. simpl. unfold notification_kind.
  replace (mention_applies _ _ _ _) with false.
  - by replace (direct_applies _ _ _ _) with true.
  - symmetry. unfold mention_applies. simpl. rewrite bool_decide_false; [done|]. set_solver.
Qed.

(** ** Examples *)

Section demo.
#[local] Existing Instance demo_unicode.
#[local] Instance demo_push : PushLib := {|
  url_parse s := Some (lit "https", Some (lit "push.apple.com"), Some 443%N);
  push_base64_decode s := Some (repeat 0%N 16);
  valid_public_key _ := true |}.

Definition notify_alice : UserId := mk_UserId 1.
Definition notify_bob : UserId := mk_UserId 2.
Definition notify_channel : ChannelId := mk_ChannelId 10.
Definition notify_message : MessageId := mk_MessageId (no_messages + 5).
Definition notify_row : MessageRow :=
  mk_MessageRow notify_channel notify_alice (lit "Alice") 1 None (lit "hei @bob") false.
Definition notify_input : PushSubscriptionInput :=
  mk_PushSubscriptionInput (lit "https://push.apple.com/x") (lit "k") (lit "a").

Definition notify_db0 : NotifyDb :=
  mk_NotifyDb (<[notify_bob := mk_UserRow Human (Some (lit "bob"))]> {[notify_alice := mk_UserRow Human None]})
    {[notify_channel := lit "direkte"]} {[(notify_channel, notify_alice); (notify_channel, notify_bob)]}
    {[notify_channel := (notify_alice, notify_bob)]} ∅ ∅ ∅ ∅ ∅ ∅ ∅.
Definition notify_db1 : NotifyDb := (subscribe 7 notify_bob notify_input None notify_db0).2.
Definition notify_db2 : NotifyDb := (persist_message 100 notify_message notify_row notify_db1).2.
Definition notify_job : PushJob :=
  mk_PushJob 7 notify_message (lit "https://push.apple.com/x") (lit "k") (lit "a") (lit "Alice")
    notify_channel (lit "direkte") 1 None (lit "hei @bob") Kind_mention.
Definition notify_db3 : NotifyDb := (claim_update 100 notify_job notify_db2).2.

(** The world after an operation, a claim and a completion. *)
Definition after_op (w : Outgoing) (db' : NotifyDb) : Outgoing :=
  mk_Outgoing db' (seen_after (og_db w) db' (og_seen w))
    (rob_gone db' <$> og_claims w) (filter (in_outbox db') (og_delivered w)).
Definition notify_w0 : Outgoing := mk_Outgoing notify_db0 ∅ ∅ ∅.
Definition notify_w2 : Outgoing := after_op (after_op notify_w0 notify_db1) notify_db2.
Definition after_claim (k : N) (now : Z) (w : Outgoing) : Outgoing :=
  mk_Outgoing (claim_update now notify_job (og_db w)).2 (og_seen w)
    (claimed k now (job_key notify_job) (og_claims w)) (og_delivered w).
Definition after_retry (k : N) (now : Z) (w : Outgoing) : Outgoing :=
  let db' := (complete now notify_job (Retry []) (og_db w)).2 in
  mk_Outgoing db' (og_seen w) (completed k (job_key notify_job) db' (og_claims w))
    (filter (in_outbox db') (∅ ∪ og_delivered w)).
Definition notify_w3 : Outgoing := after_claim 1 100 notify_w2.
Lemma after_op_step w db' : notify_op (og_db w) db' → notify_step w (after_op w db').
Proof. destruct w. apply Step_op. Qed.
Lemma notify_w2_reachable : notify_reachable notify_w2.
Proof.
  exists notify_w0. split.
  - split_and!; [|done..]. by apply map_Forall_singleton.
  - eapply rtc_l; [apply after_op_step|eapply rtc_l; [apply after_op_step|apply rtc_refl]].
    + eapply (Op_subscribe _ 7 notify_bob notify_input None). apply pair_of_fst. vm_compute. reflexivity.
    + eapply (Op_persist _ 100 notify_message notify_row). apply pair_of_fst. vm_compute. reflexivity.
Qed.
Lemma after_claim_reachable k now w :
  notify_reachable w → og_claims w !! k = None → (claim_update now notify_job (og_db w)).1 = Ok true →
  notify_reachable (after_claim k now w).
Proof.
  intros (w0 & Hinit & Hrtc) Hk Hc. exists w0. split; [done|]. eapply rtc_r; [done|].
  destruct w as [db seen claims delivered]. apply Step_claim; [done|]. by apply pair_of_fst.
Qed.
Lemma notify_w3_reachable : notify_reachable notify_w3.
Proof. apply after_claim_reachable; [apply notify_w2_reachable|vm_compute; reflexivity..]. Qed.

(** A completion does not look at the lease: a worker whose lease ran out while it delivered
    and that then reports a failure clears the lease of the worker that took the row over, and
    the next claim, which does not look at the time the row is due again, succeeds while that
    delivery is under way. *)
Definition robbed_world : Outgoing := after_retry 1 131 (after_claim 2 131 notify_w3).
Theorem late_retry_takes_lease :
  notify_reachable robbed_world
  ∧ og_claims robbed_world !! 2%N = Some (mk_OpenClaim (job_key notify_job) 131 Robbed)
  ∧ (claim_update 132 notify_job (og_db robbed_world)).1 = Ok true.
Proof.
  split; [|by split; vm_compute].
  assert (notify_reachable (after_claim 2 131 notify_w3)) as (w0 & Hinit & Hrtc)
    by (apply after_claim_reachable; [apply notify_w3_reachable|vm_compute; reflexivity..]).
  exists w0. split; [done|]. eapply rtc_r; [done|].
  apply (Step_complete 1 131 notify_job (Retry [])); [|apply pair_of_fst; vm_compute; reflexivity].
  intros c Hc. vm_compute in Hc. injection Hc as <-. vm_compute. reflexivity.
Qed.

Lemma due_notification_claimed_witness :
  ∃ job r, nt_outbox notify_db2 !! (push_subscription_id job, push_message_id job) = Some r
  ∧ (claim 100 0 notify_db2).1 = Ok (Some job).
Proof.
  destruct (proj1 (due_notification_claimed 100 0 notify_db2)) as (job & r & Hr & _ & _ & _ & Hc).
  - exists (7%N, notify_message), (new_row 100 notify_bob Kind_mention). split_and!;
      [vm_compute; reflexivity|reflexivity|eexists; vm_compute; reflexivity].
  - exists job, r. split; [exact Hr|]. exact (f_equal fst Hc).
Defined.

Lemma backfill_equals_enqueue_witness :
  nt_outbox (backfill_current_cursors_once 200 (enqueue_message 150 notify_message notify_row notify_db2))
    !! (7%N, notify_message)
  = nt_outbox (enqueue_message 150 notify_message notify_row notify_db2) !! (7%N, notify_message).
Proof.
  apply (proj1 (proj2 (backfill_equals_enqueue 150 notify_db2 7%N notify_message))).
  vm_compute. reflexivity.
Defined.

Lemma outbox_sound_witness :
  notify_bob ≠ notify_alice ∧ ∃ old, og_seen notify_w2 !! 7%N = Some old ∧ notify_message ∉ old.
Proof.
  destruct (outbox_sound notify_w2 7%N notify_message (new_row 100 notify_bob Kind_mention))
    as (sub & m & _ & _ & _ & _ & Hold); [apply notify_w2_reachable|vm_compute; reflexivity|].
  by split.
Defined.

Lemma notification_claims_exclusive_witness :
  (claim_update 131 notify_job (og_db notify_w3)).1 = Ok true ∧ (100 + 30 < 131)%Z.
Proof.
  assert ((claim_update 131 notify_job (og_db notify_w3)).1 = Ok true) as E by (vm_compute; reflexivity).
  split; [exact E|].
  destruct (notification_claims_exclusive notify_w3 131 notify_job _ notify_w3_reachable
    (pair_of_fst _ _ E)) as (_ & Hc & _).
  apply (Hc 1%N (mk_OpenClaim (job_key notify_job) 100 Holding)); vm_compute; reflexivity.
Defined.

Lemma deleted_message_renotified_witness :
  nt_outbox (backfill_current_cursors_once 300
    (delete_message notify_message (λ _, true) notify_db3).2) !! (7%N, notify_message)
  = Some (new_row 300 notify_bob Kind_direct_message).
Proof.
  assert ((delete_message notify_message (λ _, true) notify_db3).1 = Ok tt) as E
    by (vm_compute; reflexivity).
  refine (proj1 (proj2 (deleted_message_renotified notify_message (λ _, true) 300 notify_db3 _ notify_row
    7%N (mk_Subscription notify_bob (input_endpoint notify_input) (lit "k") (lit "a") None None 0
           no_messages no_messages) (pair_of_fst _ _ E) _ _ _))); vm_compute; reflexivity.
Defined.
End demo.
