(* ===== verification/SqlRepo.v ===== *)
(** * SqlRepo: the message methods of the SQLite repository

    Models the message, thread, reaction and read-marker methods of
    [SqliteChatRepository] ([src/db/sqlite.rs]) on the tables they use. A column holds
    its decoded value; that decoding inverts encoding is shown in [Text] and [Ids]. The
    mentions and the outbox, which the writing methods also fill, are tables of
    [Notifications]; the queues of the chatbots are not modelled, and their answer to
    a request under one of their prefixes is an argument. *)

From Stdlib Require Import ZifyBool.
From stdpp Require Import base tactics numbers strings countable sorting gmap list.
From S2P Require Import Prelude RustStr Text Ids Models Policy RepoState RepoMessages Sql.

(** A row of [channel_memberships]. *)
Record MembershipRow : Type := mk_MembershipRow {
  row_role : MembershipRole; row_last_read : ChannelSequence }.

Record SqlDb : Type := mk_SqlDb {
  sq_users : gmap UserId DisplayName;
  sq_channels : gmap ChannelId (ChannelKind * option CircleId);
  sq_circle_roles : gmap (CircleId * UserId) CircleRole;
  sq_memberships : gmap (ChannelId * UserId) MembershipRow;
  sq_sequences : gmap ChannelId Z;
  sq_messages : gmap MessageId ChatMessage;
  sq_receipts : gmap (UserId * str) (option MessageId);
  sq_reactions : gmap (MessageId * UserId * str) DateTime;
  sq_thread_markers : gmap (MessageId * UserId) ChannelSequence;
  sq_media : gmap MediaId (UserId * ChannelId);
  sq_attachments : gmap MediaId (MessageId * N) }.
#[export] Instance SqlDb_eta : Eta SqlDb := λ d,
  mk_SqlDb (sq_users d) (sq_channels d) (sq_circle_roles d) (sq_memberships d) (sq_sequences d)
    (sq_messages d) (sq_receipts d) (sq_reactions d) (sq_thread_markers d) (sq_media d)
    (sq_attachments d).

Abbreviation SqlM := (ST SqlDb RepositoryError).

(** ** Queries *)

(** Rows of [messages] that satisfy [p], [order by sequence]. *)
Definition messages_where (p : ChatMessage → bool) (db : SqlDb) : list ChatMessage :=
  sort_by_key seq_le ChatMessage_sequence
    (snd <$> map_to_list (rows_where (λ _ m, p m) (sq_messages db))).
Definition in_channel (c : ChannelId) (m : ChatMessage) : bool :=
  bool_decide (ChatMessage_channel_id m = c).
(** [select max(sequence) from messages where p] *)
Definition max_sequence (p : ChatMessage → bool) (db : SqlDb) : option Z :=
  (λ m, Z.of_N (seq_u64 (ChatMessage_sequence m))) <$> last (messages_where p db).
Definition is_member (db : SqlDb) (c : ChannelId) (u : UserId) : bool :=
  contains_key (c, u) (sq_memberships db).
Definition sql_role (db : SqlDb) (c : ChannelId) (u : UserId) : option MembershipRole :=
  row_role <$> sq_memberships db !! (c, u).

(** [i64::try_from(u64::from(sequence)).map_err(storage)] *)
Definition to_i64 (s : ChannelSequence) : Res RepositoryError Z :=
  if (Z.of_N (seq_u64 s) <=? i64_max)%Z then Ok (Z.of_N (seq_u64 s)) else Err (Storage []).
Definition from_i64 (z : Z) : Res RepositoryError ChannelSequence :=
  map_err storage_of_text (ChannelSequence_try_from z).
(** [u32::try_from(count).map_err(storage)] *)
Definition count_u32 (n : nat) : Res RepositoryError N :=
  if (N.of_nat n <? 2 ^ 32)%N then Ok (N.of_nat n) else Err (Storage []).

(** ** Reading *)

Definition ensure_membership (c : ChannelId) (actor : UserId) : SqlM unit :=
  let! db := get in ensure (can_read_channel (sql_role db c actor)) PermissionDenied.

Definition sql_load_recent_messages (query : LoadRecentMessages) : SqlM (list ChatMessage) :=
  let c := LoadRecentMessages_channel_id query in
  ensure_membership c (LoadRecentMessages_actor query);;;
  ensure (negb (bool_decide (is_Some (LoadRecentMessages_after query))
                && bool_decide (is_Some (LoadRecentMessages_before query)))) Conflict;;;
  let limit := N.to_nat (MessageLimit_usize (LoadRecentMessages_limit query)) in
  let! db := get in
  match LoadRecentMessages_after query, LoadRecentMessages_before query with
  | Some after, _ =>
      let! after := st_lift (to_i64 after) in
      st_ret (take limit (messages_where (λ m, in_channel c m
        && (after <? Z.of_N (seq_u64 (ChatMessage_sequence m)))%Z) db))
  | None, Some before =>
      let! before := st_lift (to_i64 before) in
      st_ret (reverse (take limit (reverse (messages_where (λ m, in_channel c m
        && (Z.of_N (seq_u64 (ChatMessage_sequence m)) <? before)%Z) db))))
  | None, None =>
      st_ret (reverse (take limit (reverse (messages_where (in_channel c) db))))
  end.

Definition sql_load_message (id : MessageId) : SqlM ChatMessage :=
  let! db := get in st_lift (ok_or (sq_messages db !! id) NotFound).

Definition sql_latest_sequence (c : ChannelId) : SqlM ChannelSequence :=
  let! db := get in st_lift (from_i64 (default 0%Z (max_sequence (in_channel c) db))).

(** ** Writing *)

Definition validate_thread_parent (c : ChannelId) (parent : option MessageId) : SqlM unit :=
  match parent with
  | None => st_ret tt
  | Some parent_id =>
      let! db := get in
      match sq_messages db !! parent_id with
      | Some parent =>
          ensure (in_channel c parent) NotFound;;;
          ensure (negb (bool_decide (is_Some (ChatMessage_parent_message_id parent))
                        || bool_decide (is_Some (ChatMessage_deleted_at parent)))) Conflict
      | None => throw NotFound
      end
  end.

(** [media_ids_from_body]; every round drops the eight characters it matched, so
    [length rest] rounds are enough. *)
Fixpoint media_ids_loop `{Unicode, UuidLib} (fuel : nat) (ids : list MediaId) (rest : str)
    : Res RepositoryError (list MediaId) :=
  match fuel with
  | O => Ok ids
  | S fuel =>
      match split_once rest (lit "[[media:") with
      | None => Ok ids
      | Some (_, rest) =>
          match split_once rest (lit "|") with
          | None => Err Conflict
          | Some (value, rest) =>
              let? id := map_err storage_of_text (MediaId_new value) in
              if bool_decide (id ∈ ids) then Err Conflict
              else media_ids_loop fuel (ids ++ [id]) rest
          end
      end
  end.
Definition media_ids_from_body `{Unicode, UuidLib} (body : MessageBody)
    : Res RepositoryError (list MediaId) :=
  let text := MessageBody_as_str body in
  let? ids := media_ids_loop (length text) [] text in
  if (10 <? length ids)%nat then Err Conflict else Ok ids.

(** The media of a message are the sender's, of the channel, and not attached yet. *)
Fixpoint attach_all (message : ChatMessage) (position : N) (ids : list MediaId) : SqlM unit :=
  match ids with
  | [] => st_ret tt
  | id :: ids =>
      let! db := get in
      ensure (bool_decide (sq_media db !! id = Some (ChatMessage_sender_id message,
                                                     ChatMessage_channel_id message))
              && negb (contains_key id (sq_attachments db))) PermissionDenied;;;
      put (db <| sq_attachments := <[id := (ChatMessage_id message, position)]> (sq_attachments db) |>);;;
      attach_all message (position + 1) ids
  end.
Definition persist_attachments `{Unicode, UuidLib} (message : ChatMessage) : SqlM unit :=
  let! ids := st_lift (media_ids_from_body (ChatMessage_body message)) in
  attach_all message 0 ids.

(** [update channel_sequences set next_sequence = next_sequence + 1 .. returning] *)
Definition allocate_sequence (c : ChannelId) : SqlM Z :=
  let! db := get in
  match sq_sequences db !! c with
  | Some next =>
      put (db <| sq_sequences := <[c := (next + 1)%Z]> (sq_sequences db) |>);;;
      st_ret next
  | None => throw NotFound
  end.

(** [insert into messages], with the constraints of the table. *)
Definition insert_message (m : ChatMessage) : SqlM unit :=
  let! db := get in
  ensure (negb (contains_key (ChatMessage_id m) (sq_messages db))
          && bool_decide (messages_where (λ m', in_channel (ChatMessage_channel_id m) m'
               && bool_decide (ChatMessage_sequence m' = ChatMessage_sequence m)) db = [])) Conflict;;;
  put (db <| sq_messages := <[ChatMessage_id m := m]> (sq_messages db) |>).

(** What the two sending methods share once the sender is authorized. *)
Definition store_message `{Unicode, UuidLib} (id : MessageId) (now : DateTime) (command : SendMessage)
    : SqlM ChatMessage :=
  let c := SendMessage_channel_id command in
  validate_thread_parent c (SendMessage_parent_message_id command);;;
  let! sequence := allocate_sequence c in
  let! db := get in
  let! sender_display_name := st_lift (ok_or (sq_users db !! SendMessage_actor command) (Storage [])) in
  let! seq := st_lift (from_i64 sequence) in
  let message := {|
    ChatMessage_id := id; ChatMessage_channel_id := c;
    ChatMessage_parent_message_id := SendMessage_parent_message_id command;
    ChatMessage_sender_id := SendMessage_actor command;
    ChatMessage_sender_display_name := sender_display_name;
    ChatMessage_body := SendMessage_body command; ChatMessage_sequence := seq;
    ChatMessage_sent_at := persisted_now now;
    ChatMessage_edited_at := None; ChatMessage_deleted_at := None |} in
  insert_message message;;;
  persist_attachments message;;;
  st_ret message.

Definition sql_append_message `{Unicode, UuidLib} (id : MessageId) (now : DateTime)
    (command : SendMessage) : SqlM ChatMessage :=
  transaction (
    let! db := get in
    ensure (can_send_to_channel (sql_role db (SendMessage_channel_id command) (SendMessage_actor command)))
      PermissionDenied;;;
    store_message id now command).

(** Requests of the chatbots, which they authorize themselves. *)
Definition agent_request (request_id : str) : bool :=
  starts_with request_id (lit "circle-agent-image:") || starts_with request_id (lit "circle-place-roll:")
  || starts_with request_id (lit "circle-chat-agent:").

Definition set_receipt (key : UserId * str) (message : option MessageId) : SqlM unit :=
  modify (λ db, db <| sq_receipts := <[key := message]> (sq_receipts db) |>).

Definition sql_append_message_idempotent `{Unicode, UuidLib} (agent : Res RepositoryError unit)
    (id : MessageId) (now : DateTime) (command : SendMessage) (request_id : str) : SqlM ChatMessage :=
  let key := (SendMessage_actor command, request_id) in
  transaction (
    let! db := get in
    match sq_receipts db !! key with
    | Some receipt =>
        let! message := st_lift (ok_or (receipt ≫= λ i, sq_messages db !! i)
                                   (Storage (lit "idempotency receipt has no message"))) in
        ensure (bool_decide (ChatMessage_channel_id message = SendMessage_channel_id command)
                && bool_decide (ChatMessage_parent_message_id message = SendMessage_parent_message_id command)
                && bool_decide (ChatMessage_body message = SendMessage_body command)) Conflict;;;
        (* the query does not select [edited_at] and [deleted_at] *)
        st_ret (message <| ChatMessage_edited_at := None |> <| ChatMessage_deleted_at := None |>)
    | None =>
        ensure ((1 <=? length request_id)%nat && (length request_id <=? 128)%nat) (Storage []);;;
        ensure (contains_key (SendMessage_actor command) (sq_users db)) PermissionDenied;;;
        set_receipt key None;;;
        (if agent_request request_id then st_lift agent
         else ensure (can_send_to_channel
                (sql_role db (SendMessage_channel_id command) (SendMessage_actor command)))
                PermissionDenied);;;
        let! message := store_message id now command in
        set_receipt key (Some (ChatMessage_id message));;;
        st_ret message
    end).

(** The row of a message that [p] admits; otherwise, whether there is such a message
    decides the error. *)
Definition updatable (id : MessageId) (p : SqlDb → ChatMessage → bool) : SqlM ChatMessage :=
  let! db := get in
  match sq_messages db !! id with
  | Some m => ensure (p db m) PermissionDenied;;; st_ret m
  | None => throw NotFound
  end.
Definition write_message (m : ChatMessage) : SqlM unit :=
  modify (λ db, db <| sq_messages := <[ChatMessage_id m := m]> (sq_messages db) |>).

Definition sql_edit_message (now : DateTime) (command : EditMessage) : SqlM ChatMessage :=
  transaction (
    let! m := updatable (EditMessage_message_id command) (λ _ m,
      bool_decide (ChatMessage_sender_id m = EditMessage_actor command)
      && bool_decide (ChatMessage_deleted_at m = None)) in
    let m := m <| ChatMessage_body := EditMessage_body command |>
               <| ChatMessage_edited_at := Some (persisted_now now) |> in
    write_message m;;;
    st_ret m).

(** The [where] clause of [delete_message]. *)
Definition sql_may_delete (actor : UserId) (db : SqlDb) (m : ChatMessage) : bool :=
  bool_decide (ChatMessage_sender_id m = actor)
  || match sq_channels db !! ChatMessage_channel_id m, sql_role db (ChatMessage_channel_id m) actor with
     | Some (kind, circle), Some role =>
         bool_decide (role ∈ [MembershipRole_Owner; MembershipRole_Moderator])
         || bool_decide (kind ≠ Private) && bool_decide (role = MembershipRole_Member)
            && match circle ≫= λ c, sq_circle_roles db !! (c, actor) with
               | Some r => bool_decide (r ∈ [CircleRole_Owner; CircleRole_Moderator])
               | None => false
               end
     | _, _ => false
     end.

Definition sql_delete_message `{Unicode} (now : DateTime) (command : DeleteMessage) : SqlM ChatMessage :=
  transaction (
    let! m := updatable (DeleteMessage_message_id command)
                (sql_may_delete (DeleteMessage_actor command)) in
    let! body := st_lift (map_err storage_of_text (MessageBody_new tombstone)) in
    let m := m <| ChatMessage_body := body |> <| ChatMessage_edited_at := None |>
               <| ChatMessage_deleted_at :=
                    Some (default (persisted_now now) (ChatMessage_deleted_at m)) |> in
    write_message m;;;
    modify (λ db, db <| sq_reactions :=
      delete_where (λ k _, bool_decide (k.1.1 = ChatMessage_id m)) (sq_reactions db) |>);;;
    st_ret m).

Definition load_membership (c : ChannelId) (actor : UserId) : SqlM Membership :=
  let! db := get in
  let! row := st_lift (ok_or (sq_memberships db !! (c, actor)) NotFound) in
  st_ret {| Membership_channel_id := c; Membership_user_id := actor;
            Membership_role := row_role row; Membership_last_read_sequence := row_last_read row |}.

Definition seq_max (a b : ChannelSequence) : ChannelSequence := if seq_lt a b then b else a.

Definition sql_mark_read (command : MarkRead) : SqlM Membership :=
  let c := MarkRead_channel_id command in
  let key := (c, MarkRead_actor command) in
  let! db := get in
  let latest := max_sequence (in_channel c) db in
  let! requested := st_lift (to_i64 (MarkRead_sequence command)) in
  ensure (requested <=? default 0%Z latest)%Z NotFound;;;
  match sq_memberships db !! key with
  | Some row =>
      put (db <| sq_memberships := <[key := mk_MembershipRow (row_role row)
             (seq_max (row_last_read row) (MarkRead_sequence command))]> (sq_memberships db) |>);;;
      load_membership c (MarkRead_actor command)
  | None => throw PermissionDenied
  end.

(** ** Threads *)

Definition replies_of (root : MessageId) (m : ChatMessage) : bool :=
  bool_decide (ChatMessage_parent_message_id m = Some root).

(** [.. from messages root join channel_memberships .. where root.id=? and
    root.parent_message_id is null] *)
Definition visible_root (db : SqlDb) (actor : UserId) (root : MessageId) : option ChatMessage :=
  m ← sq_messages db !! root;
  if bool_decide (ChatMessage_parent_message_id m = None)
     && is_member db (ChatMessage_channel_id m) actor then Some m else None.

(** [order by (parent_message_id is not null), sequence] *)
Definition sql_load_thread (actor : UserId) (root : MessageId) : SqlM (list ChatMessage) :=
  let! db := get in
  ensure (bool_decide (is_Some (visible_root db actor root))) PermissionDenied;;;
  let rows := messages_where (λ m, bool_decide (ChatMessage_id m = root) || replies_of root m) db in
  let reply m := bool_decide (is_Some (ChatMessage_parent_message_id m)) in
  st_ret (List.filter (λ m, negb (reply m)) rows ++ List.filter reply rows).

(** A group of replies as a row of the summary queries. *)
Definition summarize (actor : UserId) (last_read : ChannelSequence) (root : MessageId)
    (replies : list ChatMessage) : Res RepositoryError ThreadSummary :=
  let? latest := ok_or (last replies) (Storage []) in
  let? reply_count := count_u32 (length (List.filter live replies)) in
  let? unread_count := count_u32 (length (List.filter (unread_by actor last_read) replies)) in
  Ok {| ThreadSummary_root_message_id := root; ThreadSummary_reply_count := reply_count;
        ThreadSummary_unread_count := unread_count;
        ThreadSummary_latest_sequence := ChatMessage_sequence latest |}.
Definition last_read_of (db : SqlDb) (root : MessageId) (actor : UserId) : ChannelSequence :=
  default (ChannelSequence_new 0) (sq_thread_markers db !! (root, actor)).

Definition sql_list_thread_summaries (actor : UserId) (c : ChannelId) : SqlM (list ThreadSummary) :=
  let! db := get in
  ensure (is_member db c actor) PermissionDenied;;;
  let groups := map_to_list (group_replies (messages_where (in_channel c) db)) in
  let! summaries := st_lift (res_mapM (λ '(root, replies),
    summarize actor (last_read_of db root actor) root replies) groups) in
  st_ret (sort_by_key seq_le ThreadSummary_latest_sequence summaries).

Definition sql_mark_thread_read (actor : UserId) (root : MessageId) (sequence : ChannelSequence)
    : SqlM ThreadSummary :=
  transaction (
    let! db := get in
    let! _ := st_lift (ok_or (visible_root db actor root) NotFound) in
    let replies := messages_where (replies_of root) db in
    let! latest := st_lift (ok_or (max_sequence (replies_of root) db) NotFound) in
    let! requested := st_lift (to_i64 sequence) in
    ensure (requested <=? latest)%Z NotFound;;;
    let marker := seq_max (last_read_of db root actor) sequence in
    put (db <| sq_thread_markers := <[(root, actor) := marker]> (sq_thread_markers db) |>);;;
    st_lift (summarize actor marker root replies)).

(** ** Reactions *)

(** [where m.channel_id=? order by r.message_id, r.emoji, r.created_at, r.user_id] *)
Definition ReactionRow : Type := MessageId * UserId * str * DateTime.
Definition reaction_row_cmp (l r : ReactionRow) : comparison :=
  let '(ml, ul, el, tl) := l in let '(mr, ur, er, tr) := r in
  then_with (MessageId_as_uuid ml ?= MessageId_as_uuid mr)%N
    (then_with (str_cmp el er) (then_with (tl ?= tr)%Z (UserId_as_uuid ul ?= UserId_as_uuid ur)%N)).
Definition reaction_rows (c : ChannelId) (db : SqlDb) : list ReactionRow :=
  sort_by reaction_row_cmp (map_to_list (rows_where (λ k _,
    match sq_messages db !! k.1.1 with Some m => in_channel c m | None => false end) (sq_reactions db))).
Definition group_rows (rows : list ReactionRow) : gmap (MessageId * str) (list UserId) :=
  foldl (λ g '(message_id, user_id, emoji, _),
    <[(message_id, emoji) := default [] (g !! (message_id, emoji)) ++ [user_id]]> g) ∅ rows.

(** The groups in the order of the [BTreeMap]. *)
Definition sql_list_channel_reactions (actor : UserId) (c : ChannelId) : SqlM (list MessageReactionSummary) :=
  let! db := get in
  ensure (is_member db c actor) PermissionDenied;;;
  st_ret (sort_by reaction_cmp ((λ '((message_id, emoji), user_ids),
    {| MessageReactionSummary_message_id := message_id; MessageReactionSummary_emoji := emoji;
       MessageReactionSummary_count := as_u32 (length user_ids);
       MessageReactionSummary_reacted_by_me := bool_decide (actor ∈ user_ids);
       MessageReactionSummary_user_ids := user_ids |}) <$> map_to_list (group_rows (reaction_rows c db)))).

Definition reactions_with (id : MessageId) (emoji : str) (k : MessageId * UserId * str) (_ : DateTime)
    : bool := bool_decide (k.1.1 = id) && bool_decide (k.2 = emoji).

Definition sql_toggle_message_reaction (now : DateTime) (actor : UserId) (message_id : MessageId)
    (emoji : str) : SqlM MessageReactionChange :=
  transaction_with (
    let! db := get in
    let! channel_id := st_lift (ok_or (
      m ← sq_messages db !! message_id;
      if bool_decide (ChatMessage_deleted_at m = None) && is_member db (ChatMessage_channel_id m) actor
      then Some (ChatMessage_channel_id m) else None) PermissionDenied) in
    let key := (message_id, actor, emoji) in
    let inserted := negb (contains_key key (sq_reactions db)) in
    let reactions := if inserted then <[key := now]> (sq_reactions db) else delete key (sq_reactions db) in
    put (db <| sq_reactions := reactions |>);;;
    st_ret (
      let? count := count_u32 (size (rows_where (reactions_with message_id emoji) reactions)) in
      Ok {| MessageReactionChange_message_id := message_id;
            MessageReactionChange_channel_id := channel_id;
            MessageReactionChange_user_id := actor; MessageReactionChange_emoji := emoji;
            MessageReactionChange_added := inserted; MessageReactionChange_count := count |})).
