(* ===== verification/SqlRefine.v ===== *)
(** * SqlRefine: the SQL tables stand for the in-memory state

    The relation between the tables of [SqlRepo] and the state of the in-memory
    repository, and what the queries compute under it: sorted rows of a channel are its
    log. Each method is compared with its in-memory counterpart. *)

From Stdlib Require Import ZifyBool.
From stdpp Require Import base tactics numbers strings countable sorting gmap list.
From S2P Require Import Prelude RustStr Text Ids Models Policy RepoState RepoMessages RepoWf WfMessages Sql SqlRepo.

(** ** The order of sequences *)

#[export] Instance seq_le_transitive : Transitive seq_le.
Proof. intros x y z. unfold seq_le. lia. Qed.
#[export] Instance seq_le_antisymm : AntiSymm (=) seq_le.
Proof. intros [x] [y]. unfold seq_le. simpl. intros. f_equal. lia. Qed.
#[export] Instance seq_le_total : Total seq_le.
Proof. intros x y. unfold seq_le. lia. Qed.

(** ** The relation *)

Definition membership_row (m : Membership) : MembershipRow :=
  mk_MembershipRow (Membership_role m) (Membership_last_read_sequence m).
Definition channel_row (c : Channel) : ChannelKind * option CircleId :=
  (Channel_kind c, Channel_circle_id c).

Record sql_rel (db : SqlDb) (st : RepositoryState) : Prop := {
  rel_users : sq_users db = User_display_name <$> users st;
  rel_channels : sq_channels db = channel_row <$> channels st;
  rel_circles : sq_circle_roles db = CircleMembership_role <$> circle_memberships st;
  rel_members : sq_memberships db = membership_row <$> memberships st;
  rel_sequences c : is_Some (channels st !! c) →
    sq_sequences db !! c = Some (Z.of_nat (S (log_length (messages st) c)));
  rel_messages id m : sq_messages db !! id = Some m ↔
    ChatMessage_id m = id ∧ ∃ c i, logged (messages st) c i m;
  rel_receipts : sq_receipts db = Some <$> command_receipts st;
  rel_reactions : dom (sq_reactions db) = message_reactions st;
  rel_markers : sq_thread_markers db = thread_read_markers st }.

Section queries.
Context (db : SqlDb) (st : RepositoryState) (Hwf : wf st) (Hrel : sql_rel db st).

Lemma log_sorted c :
  Sorted (on_key seq_le ChatMessage_sequence) (channel_messages st c)
  ∧ NoDup (ChatMessage_sequence <$> channel_messages st c).
Proof.
  assert (∀ i m, channel_messages st c !! i = Some m →
            ChatMessage_sequence m = mk_ChannelSequence (N.of_nat (S i))) as Hseq
    by (intros; by eapply log_sequence; [apply Hwf|]).
  revert Hseq. generalize (channel_messages st c). intros l Hseq. split.
  - apply StronglySorted_Sorted. assert (∀ i j x y, i < j → l !! i = Some x → l !! j = Some y →
      on_key seq_le ChatMessage_sequence x y) as Hlt.
    { intros i j x y Hij Hx Hy. unfold on_key, seq_le. rewrite (Hseq _ _ Hx), (Hseq _ _ Hy). simpl. lia. }
    clear Hseq. induction l as [|x l IH]; constructor.
    + apply IH. intros i j a b Hij Ha Hb. apply (Hlt (S i) (S j)); [lia|done|done].
    + apply Forall_lookup_2. intros i y Hy. apply (Hlt 0 (S i) x y); [lia|done|done].
  - apply NoDup_alt. intros i j s. rewrite !list_lookup_fmap, !fmap_Some.
    intros (x & Hx & ->) (y & Hy & E). rewrite (Hseq _ _ Hx), (Hseq _ _ Hy) in E. injection E. lia.
Qed.

(** The rows of a channel are its log. *)
Lemma channel_rows c p :
  messages_where (λ m, in_channel c m && p m) db = List.filter p (channel_messages st c).
Proof.
  unfold messages_where. destruct (log_sorted c) as [Hs Hnd].
  assert (List.filter p (channel_messages st c) = filter (λ m, p m = true) (channel_messages st c)) as E.
  { clear. induction (channel_messages st c) as [|m l IH]; [done|]. simpl. rewrite IH.
    rewrite filter_cons. destruct (p m) eqn:Hp; by rewrite ?decide_True, ?decide_False by congruence. }
  assert (NoDup (ChatMessage_sequence <$> List.filter p (channel_messages st c))) as Hnd'.
  { rewrite E. by apply NoDup_fmap_filter. }
  rewrite <-(sort_by_key_sorted ChatMessage_sequence (List.filter p (channel_messages st c))); [|..|done].
  - symmetry. apply sort_by_key_unique; [|done].
    apply NoDup_Permutation.
    + by eapply NoDup_fmap_1.
    + apply NoDup_fmap_2_strong; [|apply NoDup_map_to_list].
      intros [k1 m1] [k2 m2] [H1 _]%elem_of_map_to_list%lookup_rows_where_Some
        [H2 _]%elem_of_map_to_list%lookup_rows_where_Some. simpl. intros <-.
      apply (rel_messages _ _ Hrel) in H1 as [<- _], H2 as [<- _]. done.
    + intros m. rewrite E, list_elem_of_filter, list_elem_of_fmap. split.
      * intros [Hp [i Hi]%list_elem_of_lookup_1]. exists (ChatMessage_id m, m). split; [done|].
        apply elem_of_map_to_list, lookup_rows_where_Some. split.
        -- apply (rel_messages _ _ Hrel). split; [done|]. by exists c, i.
        -- unfold in_channel. rewrite (log_channel _ _ _ (wf_log _ Hwf) c i m Hi).
           by rewrite bool_decide_eq_true_2, Hp.
      * intros ([k m'] & -> & [Hk Hc]%elem_of_map_to_list%lookup_rows_where_Some). simpl.
        apply andb_true_iff in Hc as [Hc%bool_decide_eq_true Hp]. split; [done|].
        apply (rel_messages _ _ Hrel) in Hk as (_ & c' & i & Hl).
        pose proof (log_channel _ _ _ (wf_log _ Hwf) _ _ _ Hl) as Hc'.
        eapply list_elem_of_lookup_2 with (i := i). unfold logged in Hl. by rewrite <-Hc, Hc'.
  - rewrite E. clear -Hs. revert Hs. generalize (channel_messages st c). intros l Hs.
    apply StronglySorted_Sorted. apply Sorted_StronglySorted in Hs;
      [|intros ? ? ?; unfold on_key; apply transitivity].
    induction Hs as [|x l Hl IH Hx]; [constructor|]. rewrite filter_cons. destruct (decide _); [|done].
    constructor; [done|]. apply Forall_forall. intros y [_ Hy]%list_elem_of_filter.
    rewrite Forall_forall in Hx. by apply Hx.
Qed.

Lemma messages_where_ext p q :
  (∀ id m, sq_messages db !! id = Some m → p m = q m) → messages_where p db = messages_where q db.
Proof.
  intros Hpq. unfold messages_where. f_equal. f_equal. f_equal. unfold rows_where.
  apply map_filter_ext. intros id m Hm. simpl. by rewrite (Hpq id m Hm).
Qed.
Lemma channel_rows_all c : messages_where (in_channel c) db = channel_messages st c.
Proof.
  rewrite <-(messages_where_ext (λ m, in_channel c m && true)) by (intros; apply andb_true_r).
  rewrite channel_rows. induction (channel_messages st c) as [|m l IH]; [done|]. simpl. by rewrite IH.
Qed.

Lemma sql_find id : sq_messages db !! id = find_message (has_id id) st.
Proof.
  destruct (find_message (has_id id) st) as [m|] eqn:E.
  - apply find_message_Some in E as (c & i & Hl & Hid%has_id_true).
    apply (rel_messages _ _ Hrel). eauto.
  - destruct (sq_messages db !! id) as [m|] eqn:Hm; [|done].
    apply (rel_messages _ _ Hrel) in Hm as (Hid & c & i & Hl).
    apply (find_message_None _ _ E), not_true_iff_false in Hl. by rewrite has_id_true in Hl.
Qed.
Lemma sql_find_entry id : sq_messages db !! id = snd <$> find_message_entry (has_id id) st.
Proof. apply sql_find. Qed.

Lemma sql_role_in c u : sql_role db c u = role_in st c u.
Proof.
  unfold sql_role, role_in. rewrite (rel_members _ _ Hrel), lookup_fmap.
  by destruct (memberships st !! (c, u)).
Qed.
Lemma is_member_in c u : is_member db c u = contains_key (c, u) (memberships st).
Proof.
  unfold is_member, contains_key. rewrite (rel_members _ _ Hrel), lookup_fmap.
  by destruct (memberships st !! (c, u)).
Qed.
Lemma max_sequence_log c :
  default 0%Z (max_sequence (in_channel c) db) = Z.of_N (seq_u64 (last_sequence st c)).
Proof.
  unfold max_sequence, last_sequence. rewrite channel_rows_all. by destruct (last _).
Qed.

(** The replies to a root are in its channel. *)
Lemma reply_rows c i root :
  logged (messages st) c i root →
  messages_where (replies_of (ChatMessage_id root)) db = replies_to st c (ChatMessage_id root).
Proof.
  intros Hl. unfold replies_to. rewrite <-channel_rows. apply messages_where_ext.
  intros id m Hm. unfold replies_of. case_bool_decide as Hp; [|by rewrite andb_false_r].
  apply (rel_messages _ _ Hrel) in Hm as (_ & c' & i' & Hl').
  destruct (log_parent _ _ _ (wf_log _ Hwf) c' i' m _ Hl' Hp) as (j & root' & _ & Hr & Hid & _).
  destruct (log_same _ _ _ _ _ _ _ _ _ (wf_log _ Hwf) Hr Hl Hid) as (-> & _ & _).
  unfold in_channel. rewrite (log_channel _ _ _ (wf_log _ Hwf) _ _ _ Hl').
  by rewrite bool_decide_eq_true_2.
Qed.
End queries.

(** ** Reading *)

Lemma reverse_take_reverse {A} n (l : list A) : reverse (take n (reverse l)) = drop (length l - n) l.
Proof.
  rewrite take_reverse, reverse_involutive. done.
Qed.
Lemma filter_true {A} (l : list A) : List.filter (λ _, true) l = l.
Proof. induction l as [|x l IH]; [done|]. simpl. by rewrite IH. Qed.
Lemma filter_ext_eq {A} (p q : A → bool) (l : list A) :
  (∀ x, p x = q x) → List.filter p l = List.filter q l.
Proof. intros E. induction l as [|x l IH]; [done|]. simpl. by rewrite E, IH. Qed.

Lemma filter_ext_in {A} (p q : A → bool) (l : list A) :
  (∀ x, x ∈ l → p x = q x) → List.filter p l = List.filter q l.
Proof.
  induction l as [|x l IH]; [done|]. intros E. simpl. rewrite E by by left.
  by rewrite IH by (intros; apply E; by right).
Qed.
Lemma filter_filter_bool {A} (p q : A → bool) (l : list A) :
  List.filter p (List.filter q l) = List.filter (λ x, p x && q x) l.
Proof.
  induction l as [|x l IH]; [done|]. simpl. destruct (q x); simpl; rewrite IH;
    by rewrite ?andb_true_r, ?andb_false_r.
Qed.
Lemma filter_singleton {A} (p : A → bool) (l : list A) i x :
  l !! i = Some x → p x = true → (∀ j y, l !! j = Some y → p y = true → j = i) →
  List.filter p l = [x].
Proof.
  revert i. induction l as [|y l IH]; [done|]. intros [|i] Hi Hp Hu; simplify_eq/=.
  - rewrite Hp. f_equal. rewrite (filter_ext_in p (λ _, false)).
    + clear. induction l; [done|]. done.
    + intros z [j Hj]%list_elem_of_lookup_1. destruct (p z) eqn:Hz; [|done].
      by specialize (Hu (S j) z Hj Hz).
  - destruct (p y) eqn:Hy; [by specialize (Hu 0 y eq_refl Hy)|]. apply (IH i); [done..|].
    intros j z Hj Hz. by injection (Hu (S j) z Hj Hz).
Qed.

Definition in_i64 (s : ChannelSequence) : Prop := (Z.of_N (seq_u64 s) ≤ i64_max)%Z.
Lemma to_i64_Ok s : in_i64 s → to_i64 s = Ok (Z.of_N (seq_u64 s)).
Proof. unfold in_i64, to_i64. intros. by rewrite (proj2 (Z.leb_le _ _)). Qed.
Lemma from_i64_of s : in_i64 s → from_i64 (Z.of_N (seq_u64 s)) = Ok s.
Proof.
  unfold in_i64, from_i64, ChannelSequence_try_from. intros. destruct s as [n]. simpl.
  destruct (Z.of_N n <? 0)%Z eqn:E; [lia|]. simpl. by rewrite N2Z.id.
Qed.

Section reads.
Context (db : SqlDb) (st : RepositoryState) (Hwf : wf st) (Hrel : sql_rel db st).

Lemma load_recent_agrees q :
  (∀ s, LoadRecentMessages_after q = Some s ∨ LoadRecentMessages_before q = Some s → in_i64 s) →
  ∃ r, sql_load_recent_messages q db = (r, db) ∧ load_recent_messages q st = (r, st).
Proof.
  intros Hfit. unfold sql_load_recent_messages, load_recent_messages, ensure_membership. st_compute.
  rewrite (sql_role_in db st Hrel). destruct (can_read_channel _); [|by eexists].
  destruct (LoadRecentMessages_after q) as [a|] eqn:Ha, (LoadRecentMessages_before q) as [b|] eqn:Hb;
    cbn [bool_decide decide negb andb]; rewrite ?bool_decide_eq_true_2, ?bool_decide_eq_false_2 by
      (try done; by intros [? ?]); cbn [negb andb].
  - by eexists.
  - rewrite to_i64_Ok by eauto. rewrite (channel_rows db st Hwf Hrel). eexists. split; [done|].
    rewrite decide_True by done. rewrite filter_true. f_equal. f_equal. f_equal.
    apply filter_ext_eq. intros m. unfold seq_lt. lia.
  - rewrite to_i64_Ok by eauto. rewrite (channel_rows db st Hwf Hrel), reverse_take_reverse.
    eexists. split; [done|]. rewrite decide_False by (by intros [? ?]). rewrite filter_true.
    rewrite (filter_ext_eq (λ m, seq_lt (ChatMessage_sequence m) b)
      (λ m, (Z.of_N (seq_u64 (ChatMessage_sequence m)) <? Z.of_N (seq_u64 b))%Z)); [done|].
    intros m. unfold seq_lt. lia.
  - rewrite (channel_rows_all db st Hwf Hrel), reverse_take_reverse.
    eexists. split; [done|]. rewrite decide_False by (by intros [? ?]). by rewrite !filter_true.
Qed.

Lemma load_message_agrees id :
  ∃ r, sql_load_message id db = (r, db) ∧ load_message id st = (r, st).
Proof.
  unfold sql_load_message, load_message. st_compute. rewrite (sql_find db st Hrel). by eexists.
Qed.

Lemma last_sequence_in_i64 c : (Z.of_nat (log_length (messages st) c) ≤ i64_max)%Z →
  in_i64 (last_sequence st c).
Proof. intros. unfold in_i64. rewrite last_sequence_length by done. simpl. lia. Qed.

Lemma latest_sequence_agrees c :
  (Z.of_nat (log_length (messages st) c) ≤ i64_max)%Z →
  ∃ r, sql_latest_sequence c db = (r, db) ∧ latest_sequence c st = (r, st).
Proof.
  intros Hfit. unfold sql_latest_sequence, latest_sequence. st_compute.
  rewrite (max_sequence_log db st Hwf Hrel), from_i64_of by by apply last_sequence_in_i64. by eexists.
Qed.

(** A root a user sees, in the tables and in memory. *)
Lemma visible_root_agrees actor root :
  match visible_root db actor root with
  | Some m => find_message (is_root root) st = Some m ∧ ChatMessage_id m = root
              ∧ contains_key (ChatMessage_channel_id m, actor) (memberships st) = true
              ∧ ∃ i, logged (messages st) (ChatMessage_channel_id m) i m
  | None => match find_message (is_root root) st with
            | Some m => contains_key (ChatMessage_channel_id m, actor) (memberships st) = false
            | None => True
            end
  end.
Proof.
  unfold visible_root. destruct (sq_messages db !! root) as [m|] eqn:Hm.
  - simpl. apply (rel_messages _ _ Hrel) in Hm as (<- & c & i & Hl).
    rewrite (is_member_in db st Hrel). case_bool_decide as Hp.
    + rewrite (find_root st c i m) by done. simpl.
      destruct (contains_key _ _) eqn:Hc; [|done]. split_and!; [done..|].
      exists i. by rewrite (log_channel _ _ _ (wf_log _ Hwf) _ _ _ Hl).
    + simpl. destruct (find_message _ st) as [m'|] eqn:E; [|done].
      apply find_message_Some in E as (c' & i' & Hl' & Hr). unfold is_root in Hr. bool_facts.
      destruct (log_same _ _ _ _ _ _ _ _ _ (wf_log _ Hwf) Hl' Hl) as (_ & _ & ->); done.
  - simpl. destruct (find_message _ st) as [m'|] eqn:E; [|done].
    apply find_message_Some in E as (c' & i' & Hl' & Hr). unfold is_root in Hr. bool_facts.
    assert (sq_messages db !! root = Some m') by (apply (rel_messages _ _ Hrel); eauto). congruence.
Qed.

(** A message with the root's identifier is the root. *)
Lemma log_root c i m j y :
  logged (messages st) c i m → logged (messages st) c j y → ChatMessage_id y = ChatMessage_id m →
  j = i ∧ y = m.
Proof.
  intros Hm Hy E. by destruct (log_same _ _ _ _ _ _ _ _ _ (wf_log _ Hwf) Hy Hm E) as (_ & -> & ->).
Qed.
Lemma thread_rows c i m :
  logged (messages st) c i m → ChatMessage_parent_message_id m = None →
  let rows := messages_where (λ x, bool_decide (ChatMessage_id x = ChatMessage_id m)
                                   || replies_of (ChatMessage_id m) x) db in
  let reply x := bool_decide (is_Some (ChatMessage_parent_message_id x)) in
  List.filter (λ x, negb (reply x)) rows = [m]
  ∧ List.filter reply rows = replies_to st c (ChatMessage_id m).
Proof.
  intros Hl Hp rows reply.
  assert (rows = List.filter (λ x, bool_decide (ChatMessage_id x = ChatMessage_id m)
                                   || replies_of (ChatMessage_id m) x) (channel_messages st c)) as ->.
  { rewrite <-(channel_rows db st Hwf Hrel). apply messages_where_ext. intros id x Hx.
    destruct (bool_decide (ChatMessage_id x = _) || _) eqn:E; [|by rewrite andb_false_r].
    apply (rel_messages _ _ Hrel) in Hx as (_ & c' & i' & Hl'). rewrite andb_true_r. symmetry.
    unfold in_channel. rewrite (log_channel _ _ _ (wf_log _ Hwf) _ _ _ Hl'). apply bool_decide_eq_true.
    apply orb_true_iff in E as [E%bool_decide_eq_true|E%bool_decide_eq_true].
    - by destruct (log_same _ _ _ _ _ _ _ _ _ (wf_log _ Hwf) Hl' Hl E) as (-> & _).
    - destruct (log_parent _ _ _ (wf_log _ Hwf) c' i' x _ Hl' E) as (j & r & _ & Hr & Hid & _).
      by destruct (log_same _ _ _ _ _ _ _ _ _ (wf_log _ Hwf) Hr Hl Hid) as (-> & _). }
  rewrite !filter_filter_bool. split.
  - apply (filter_singleton _ _ i); [done| |].
    { unfold reply. rewrite Hp. by rewrite (bool_decide_eq_true_2 (ChatMessage_id m = ChatMessage_id m)). }
    intros j y Hy Hf. apply andb_true_iff in Hf as [Hr Hf]. unfold reply in Hr. bool_facts.
    apply orb_true_iff in Hf as [Hf%bool_decide_eq_true|Hf%bool_decide_eq_true].
    + by eapply log_root.
    + destruct Hr. by rewrite Hf.
  - apply filter_ext_in. intros y [j Hy]%list_elem_of_lookup_1. unfold reply, replies_of.
    case_bool_decide as Hr; simpl.
    + case_bool_decide as Hid; [|done]. destruct (log_root c i m j y Hl Hy Hid) as [_ ->].
      by rewrite Hp in Hr; destruct Hr.
    + symmetry. apply bool_decide_eq_false. intros E. apply Hr. by rewrite E.
Qed.

Lemma load_thread_agrees actor root :
  (∃ l, sql_load_thread actor root db = (Ok l, db) ∧ load_thread actor root st = (Ok l, st))
  ∨ sql_load_thread actor root db = (Err PermissionDenied, db)
    ∧ ∃ e, load_thread actor root st = (Err e, st) ∧ (e = PermissionDenied ∨ e = NotFound).
Proof.
  unfold sql_load_thread, load_thread. st_compute. pose proof (visible_root_agrees actor root) as Hv.
  destruct (visible_root db actor root) as [m|].
  - destruct Hv as (Hroot & <- & Hc & i & Hl). rewrite Hroot, Hc. left. eexists. split; [|done].
    apply find_message_Some in Hroot as (c' & i' & _ & Hr). unfold is_root in Hr. bool_facts.
    destruct (thread_rows _ _ _ Hl) as [-> ->]; [done|]. done.
  - right. split; [done|]. destruct (find_message (is_root root) st) as [m|]; [rewrite Hv|]; eauto.
Qed.

(** Thread summaries: the groups are never empty. *)
Lemma group_replies_lookup msgs root :
  group_replies msgs !! root
  = match List.filter (replies_of root) msgs with [] => None | l => Some l end.
Proof.
  unfold group_replies. induction msgs as [|m msgs IH] using rev_ind; [done|].
  rewrite foldl_app, List.filter_app. simpl. unfold replies_of at 2.
  destruct (ChatMessage_parent_message_id m) as [p|].
  - destruct (decide (p = root)) as [->|Hne].
    + rewrite lookup_insert_eq, bool_decide_eq_true_2, IH by done.
      by destruct (List.filter (replies_of root) msgs).
    + rewrite lookup_insert_ne by done. rewrite bool_decide_eq_false_2 by congruence.
      by rewrite app_nil_r.
  - rewrite bool_decide_eq_false_2 by done. by rewrite app_nil_r.
Qed.

Lemma count_u32_Ok n m : n ≤ m → (N.of_nat m < 2 ^ 32)%N → count_u32 n = Ok (as_u32 n).
Proof.
  intros Hn Hm. unfold count_u32, as_u32. rewrite (proj2 (N.ltb_lt _ _)) by lia.
  rewrite N.mod_small by lia. done.
Qed.
Lemma summarize_Ok actor last_read root replies x n :
  last replies = Some x → length replies ≤ n → (N.of_nat n < 2 ^ 32)%N →
  summarize actor last_read root replies
  = Ok {| ThreadSummary_root_message_id := root;
          ThreadSummary_reply_count := as_u32 (length (List.filter live replies));
          ThreadSummary_unread_count := as_u32 (length (List.filter (unread_by actor last_read) replies));
          ThreadSummary_latest_sequence := ChatMessage_sequence x |}.
Proof.
  intros Hx Hn Hm. unfold summarize. rewrite Hx. cbn [ok_or res_bind].
  by rewrite !(count_u32_Ok _ n) by first [exact Hm|etrans; [apply List.filter_length_le|exact Hn]].
Qed.
Lemma res_mapM_ext {E A B} (f g : A → Res E B) l :
  (∀ x, x ∈ l → f x = g x) → res_mapM f l = res_mapM g l.
Proof.
  induction l as [|x l IH]; [done|]. intros H. simpl. rewrite H by by left.
  by rewrite IH by (intros; apply H; by right).
Qed.

Lemma list_thread_summaries_agrees actor c :
  (N.of_nat (log_length (messages st) c) < 2 ^ 32)%N →
  ∃ r, sql_list_thread_summaries actor c db = (r, db) ∧ list_thread_summaries actor c st = (r, st).
Proof.
  intros Hfit. unfold sql_list_thread_summaries, list_thread_summaries. st_compute.
  rewrite (is_member_in db st Hrel). destruct (contains_key _ _); [|by eexists].
  rewrite (channel_rows_all db st Hwf Hrel).
  unfold last_read_of. rewrite (rel_markers _ _ Hrel).
  match goal with |- context [match res_mapM ?f ?l with _ => _ end = (_, db)] =>
    match goal with |- context [match res_mapM ?g l with _ => _ end = (_, st)] =>
      rewrite (res_mapM_ext g f l) end end.
  - by destruct (res_mapM _ _); eexists.
  - intros [root replies] Hin%elem_of_map_to_list. rewrite group_replies_lookup in Hin.
    destruct (List.filter _ _) as [|y l] eqn:E; [done|]. injection Hin as <-. rewrite <-E.
    destruct (last (List.filter (replies_of root) (channel_messages st c))) as [x|] eqn:Hx;
      [|apply last_None in Hx; congruence].
    symmetry. apply (summarize_Ok _ _ _ _ _ (log_length (messages st) c)); [done| |done].
    apply List.filter_length_le.
Qed.
End reads.

(** ** Lawful comparisons *)

Class LawfulCmp {A} (cmp : A → A → comparison) : Prop := {
  cmp_eq x y : cmp x y = Eq → x = y;
  cmp_opp x y : cmp y x = CompOpp (cmp x y);
  cmp_trans x y z : cmp x y = Lt → cmp y z = Lt → cmp x z = Lt }.
Lemma cmp_refl {A} (cmp : A → A → comparison) `{!LawfulCmp cmp} x : cmp x x = Eq.
Proof. pose proof (cmp_opp (cmp := cmp) x x) as E. by destruct (cmp x x). Qed.

Section lawful.
Context {A : Type} (cmp : A → A → comparison) `{!LawfulCmp cmp}.
Lemma cmp_le_cases x y : cmp_le cmp x y ↔ x = y ∨ cmp x y = Lt.
Proof.
  unfold cmp_le. destruct (cmp x y) eqn:E.
  - apply cmp_eq in E as ->. naive_solver.
  - naive_solver.
  - split; [done|]. intros [->|?]; [|done]. by rewrite cmp_refl in E.
Qed.
#[export] Instance cmp_le_transitive : Transitive (cmp_le cmp).
Proof.
  intros x y z. rewrite !cmp_le_cases. intros [->|Hxy] [->|Hyz]; eauto. right. by eapply cmp_trans.
Qed.
#[export] Instance cmp_le_antisymm : AntiSymm (=) (cmp_le cmp).
Proof.
  intros x y. rewrite !cmp_le_cases. intros [->|Hxy] [?|Hyx]; [done..|].
  rewrite (cmp_opp (cmp := cmp) x y), Hxy in Hyx. done.
Qed.
#[export] Instance cmp_le_total : Total (cmp_le cmp).
Proof.
  intros x y. unfold cmp_le. rewrite (cmp_opp (cmp := cmp) x y). destruct (cmp x y); simpl; auto.
Qed.
End lawful.

#[export] Instance N_compare_lawful : LawfulCmp N.compare.
Proof.
  split; [apply N.compare_eq|intros; apply N.compare_antisym|].
  intros x y z. rewrite !N.compare_lt_iff. lia.
Qed.
#[export] Instance str_cmp_lawful : LawfulCmp str_cmp.
Proof.
  split.
  - intros x. induction x as [|c s IH]; intros [|d t]; simpl; try done.
    destruct (c ?= d)%N eqn:E; try done. apply N.compare_eq in E as ->. intros H%IH. by f_equal.
  - intros x. induction x as [|c s IH]; intros [|d t]; simpl; try done.
    rewrite (N.compare_antisym c d). destruct (c ?= d)%N; simpl; [apply IH|done..].
  - intros x. induction x as [|c s IH]; intros [|d t] [|e u]; simpl; try done.
    destruct (c ?= d)%N eqn:E1; try done; destruct (d ?= e)%N eqn:E2; try done.
    + apply N.compare_eq in E1 as ->. rewrite E2. apply IH.
    + apply N.compare_eq in E1 as ->. by rewrite E2.
    + apply N.compare_eq in E2 as ->. by rewrite E1.
    + intros _ _. rewrite N.compare_lt_iff in E1, E2. by rewrite (proj2 (N.compare_lt_iff _ _)) by lia.
Qed.

(** The key of a group of reactions. *)
Definition reaction_key_cmp (k k' : MessageId * str) : comparison :=
  then_with (MessageId_as_uuid k.1 ?= MessageId_as_uuid k'.1)%N (str_cmp k.2 k'.2).
#[export] Instance reaction_key_lawful : LawfulCmp reaction_key_cmp.
Proof.
  unfold reaction_key_cmp. split.
  - intros [[m] e] [[m'] e']. simpl. destruct (m ?= m')%N eqn:E; simpl; [|done..].
    apply N.compare_eq in E as ->. by intros ->%cmp_eq.
  - intros [[m] e] [[m'] e']. simpl. rewrite (N.compare_antisym m m').
    destruct (m ?= m')%N; simpl; [apply cmp_opp|done..].
  - intros [[m] e] [[m'] e'] [[m''] e'']. simpl. destruct (m ?= m')%N eqn:E1; try done; simpl;
      destruct (m' ?= m'')%N eqn:E2; try done; simpl; intros H1 H2.
    + apply N.compare_eq in E1 as ->. rewrite E2. simpl. by eapply cmp_trans.
    + apply N.compare_eq in E1 as ->. by rewrite E2.
    + apply N.compare_eq in E2 as ->. by rewrite E1.
    + rewrite N.compare_lt_iff in E1, E2. by rewrite (proj2 (N.compare_lt_iff _ _)) by lia.
Qed.

(** Two sorted lists with the same distinct keys, element by element. *)
Lemma sorted_keys_Forall2 {A B} (R : relation B) (f : A → B) `{!Transitive R, !AntiSymm (=) R}
    (P : A → A → Prop) (l1 l2 : list A) :
  Sorted (on_key R f) l1 → Sorted (on_key R f) l2 → f <$> l1 ≡ₚ f <$> l2 →
  (∀ x y, x ∈ l1 → y ∈ l2 → f x = f y → P x y) → Forall2 P l1 l2.
Proof.
  intros H1 H2 Hp HP. assert (f <$> l1 = f <$> l2) as E.
  { apply (Sorted_unique R); [..|done]; by apply (Sorted_fmap f (on_key R f)). }
  apply Forall2_same_length_lookup_2.
  - apply (f_equal length) in E. by rewrite !length_fmap in E.
  - intros i x y Hx Hy. apply HP; [by eapply list_elem_of_lookup_2..|].
    assert ((f <$> l1) !! i = (f <$> l2) !! i) as Hi by by rewrite E.
    rewrite !list_lookup_fmap, Hx, Hy in Hi. by injection Hi.
Qed.

(** ** Reactions *)

Section grouping.
Context {X V : Type} `{Countable K} (key : X → K) (val : X → V).
Definition group_by (l : list X) : gmap K (list V) :=
  foldl (λ g x, <[key x := default [] (g !! key x) ++ [val x]]> g) ∅ l.
Lemma group_by_lookup l k :
  group_by l !! k = match val <$> filter (λ x, key x = k) l with [] => None | vs => Some vs end.
Proof.
  unfold group_by. induction l as [|x l IH] using rev_ind; [done|].
  rewrite foldl_app, filter_app, fmap_app. simpl. rewrite filter_cons, filter_nil.
  destruct (decide (key x = k)) as [<-|Hne]; simpl.
  - rewrite lookup_insert_eq, IH. by destruct (val <$> filter _ l).
  - by rewrite lookup_insert_ne, app_nil_r.
Qed.
Lemma group_by_dom l k : is_Some (group_by l !! k) ↔ k ∈ key <$> l.
Proof.
  rewrite group_by_lookup, list_elem_of_fmap. split.
  - destruct (filter (λ x, key x = k) l) as [|x l'] eqn:E; simpl; [by intros [? ?]|]. intros _.
    assert (x ∈ filter (λ x, key x = k) l) as [Hx ?]%list_elem_of_filter by (rewrite E; by left). eauto.
  - intros (x & -> & Hx). destruct (filter (λ y, key y = key x) l) as [|y l'] eqn:E; [|by eexists].
    assert (x ∈ filter (λ y, key y = key x) l) as Hin by by apply list_elem_of_filter.
    rewrite E in Hin. by apply elem_of_nil in Hin.
Qed.
End grouping.

Lemma group_rows_by rows :
  group_rows rows = group_by (λ r : ReactionRow, (r.1.1.1, r.1.2)) (λ r, r.1.1.2) rows.
Proof.
  unfold group_rows, group_by. generalize (∅ : gmap (MessageId * str) (list UserId)).
  induction rows as [|[[[m u] e] t] rows IH]; intros g; [done|]. simpl. apply IH.
Qed.
Lemma group_reactions_by ids rs :
  group_reactions ids rs
  = group_by (λ r : MessageId * UserId * str, (r.1.1, r.2)) (λ r, r.1.2) (filter (λ r, r.1.1 ∈ ids) rs).
Proof.
  unfold group_reactions, group_by. generalize (∅ : gmap (MessageId * str) (list UserId)).
  induction rs as [|[[m u] e] rs IH]; intros g; [done|]. rewrite filter_cons. simpl.
  destruct (decide (m ∈ ids)); simpl; apply IH.
Qed.

Definition summary_key (s : MessageReactionSummary) : MessageId * str :=
  (MessageReactionSummary_message_id s, MessageReactionSummary_emoji s).
Definition summary_agrees (s s' : MessageReactionSummary) : Prop :=
  summary_key s = summary_key s' ∧ MessageReactionSummary_count s = MessageReactionSummary_count s'
  ∧ MessageReactionSummary_reacted_by_me s = MessageReactionSummary_reacted_by_me s'
  ∧ MessageReactionSummary_user_ids s ≡ₚ MessageReactionSummary_user_ids s'.

Section reactions.
Context (db : SqlDb) (st : RepositoryState) (Hwf : wf st) (Hrel : sql_rel db st).

Lemma channel_ids c id :
  id ∈ (list_to_set (ChatMessage_id <$> channel_messages st c) : gset MessageId)
  ↔ match sq_messages db !! id with Some m => in_channel c m | None => false end = true.
Proof.
  rewrite elem_of_list_to_set, list_elem_of_fmap. split.
  - intros (m & -> & [i Hi]%list_elem_of_lookup_1).
    rewrite (proj2 (rel_messages _ _ Hrel (ChatMessage_id m) m)) by (split; [done|]; by exists c, i).
    apply bool_decide_eq_true. by eapply log_channel; [apply Hwf|].
  - destruct (sq_messages db !! id) as [m|] eqn:Hm; [|done]. intros Hc%bool_decide_eq_true.
    apply (rel_messages _ _ Hrel) in Hm as (<- & c' & i & Hl). exists m. split; [done|].
    eapply (list_elem_of_lookup_2 _ i). rewrite <-(log_channel _ _ _ (wf_log _ Hwf) _ _ _ Hl) in Hl.
    by rewrite Hc in Hl.
Qed.

Lemma reaction_rows_perm c :
  fst <$> reaction_rows c db
  ≡ₚ filter (λ r, r.1.1 ∈ (list_to_set (ChatMessage_id <$> channel_messages st c) : gset MessageId))
       (elements (message_reactions st)).
Proof.
  unfold reaction_rows, sort_by. rewrite merge_sort_Permutation. apply NoDup_Permutation.
  - apply NoDup_fst_map_to_list.
  - apply NoDup_filter, NoDup_elements.
  - intros k. rewrite list_elem_of_filter, elem_of_elements, channel_ids, <-(rel_reactions _ _ Hrel).
    rewrite elem_of_dom, list_elem_of_fmap. split.
    + intros ([k' t] & -> & [Ht Hc]%elem_of_map_to_list%lookup_rows_where_Some). by split; [|exists t].
    + intros [Hc [t Ht]]. exists (k, t). split; [done|].
      by apply elem_of_map_to_list, lookup_rows_where_Some.
Qed.

Lemma groups_agree c k :
  let G := group_rows (reaction_rows c db) in
  let G' := group_reactions (list_to_set (ChatMessage_id <$> channel_messages st c))
              (elements (message_reactions st)) in
  match G !! k, G' !! k with
  | Some us, Some us' => us ≡ₚ us'
  | None, None => True
  | _, _ => False
  end.
Proof.
  intros G G'. unfold G, G'. rewrite group_rows_by, group_reactions_by, !group_by_lookup.
  pose proof (reaction_rows_perm c) as Hp. revert Hp.
  generalize (reaction_rows c db). set (rs := filter _ (elements _)). generalize rs. clear rs G G'.
  intros rs rows Hp.
  assert ((λ r : ReactionRow, r.1.1.2) <$> filter (λ x, (x.1.1.1, x.1.2) = k) rows
          ≡ₚ (λ r : MessageId * UserId * str, r.1.2) <$> filter (λ x, (x.1.1, x.2) = k) rs) as Hu.
  { rewrite <-Hp. clear. induction rows as [|[[[m u] e] t] rows IH]; [done|]. simpl.
    rewrite !filter_cons. simpl. destruct (decide ((m, e) = k)); [|done]. simpl. by rewrite IH. }
  destruct (_ <$> filter _ rows) as [|u us] eqn:E1, (_ <$> filter _ rs) as [|u' us'] eqn:E2; try done.
  - by apply Permutation_nil_cons in Hu.
  - symmetry in Hu. by apply Permutation_nil_cons in Hu.
Qed.

Lemma sort_reactions_sorted l :
  Sorted (on_key (cmp_le reaction_key_cmp) summary_key) (sort_by reaction_cmp l).
Proof. apply (Sorted_merge_sort (on_key (cmp_le reaction_key_cmp) summary_key)). Qed.

Lemma summaries_keys (f : (MessageId * str) * list UserId → MessageReactionSummary)
    (G : gmap (MessageId * str) (list UserId)) k :
  (∀ kv, summary_key (f kv) = kv.1) →
  k ∈ summary_key <$> sort_by reaction_cmp (f <$> map_to_list G) ↔ is_Some (G !! k).
Proof.
  intros Hf. unfold sort_by. rewrite merge_sort_Permutation, <-list_fmap_compose, list_elem_of_fmap. split.
  - intros ([k' v] & -> & Hk%elem_of_map_to_list). simpl. rewrite Hf. by exists v.
  - intros [v Hv]. exists (k, v). split; [by simpl; rewrite Hf|by apply elem_of_map_to_list].
Qed.
Lemma summaries_nodup (f : (MessageId * str) * list UserId → MessageReactionSummary)
    (G : gmap (MessageId * str) (list UserId)) :
  (∀ kv, summary_key (f kv) = kv.1) →
  NoDup (summary_key <$> sort_by reaction_cmp (f <$> map_to_list G)).
Proof.
  intros Hf. unfold sort_by. rewrite merge_sort_Permutation, <-list_fmap_compose.
  erewrite (list_fmap_ext _ fst); [apply NoDup_fst_map_to_list|]. intros. apply Hf.
Qed.

Lemma list_reactions_agrees actor c :
  (∃ e, sql_list_channel_reactions actor c db = (Err e, db)
        ∧ list_channel_reactions actor c st = (Err e, st))
  ∨ ∃ l l', sql_list_channel_reactions actor c db = (Ok l, db)
            ∧ list_channel_reactions actor c st = (Ok l', st) ∧ Forall2 summary_agrees l l'.
Proof.
  unfold sql_list_channel_reactions, list_channel_reactions. st_compute.
  rewrite (is_member_in db st Hrel). destruct (contains_key _ _); [right|left; eauto].
  do 2 eexists. split; [done|]. split; [done|].
  set (G := group_rows _). set (G' := group_reactions _ _).
  assert (∀ k, match G !! k, G' !! k with
    Some us, Some us' => us ≡ₚ us' | None, None => True | _, _ => False end) as HG
    by (intros; apply groups_agree).
  clearbody G G'. set (f := λ '((message_id, emoji), user_ids), _). set (f' := λ '((message_id, emoji), user_ids), _).
  assert (∀ kv, summary_key (f kv) = kv.1) as Hf by by intros [[? ?] ?].
  assert (∀ kv, summary_key (f' kv) = kv.1) as Hf' by by intros [[? ?] ?].
  apply (sorted_keys_Forall2 (cmp_le reaction_key_cmp) summary_key); [apply sort_reactions_sorted..| |].
  - apply NoDup_Permutation; [by apply summaries_nodup..|]. intros k.
    rewrite !summaries_keys by done. specialize (HG k). by destruct (G !! k), (G' !! k).
  - intros x y Hx Hy. unfold sort_by in Hx, Hy. rewrite merge_sort_Permutation in Hx, Hy.
    apply list_elem_of_fmap in Hx as ([k us] & -> & Hk%elem_of_map_to_list).
    apply list_elem_of_fmap in Hy as ([k' us'] & -> & Hk'%elem_of_map_to_list).
    rewrite Hf, Hf'. cbn [fst]. intros <-. specialize (HG k). rewrite Hk, Hk' in HG.
    split; [by rewrite Hf, Hf'|]. destruct k as [m e]. simpl.
    assert (us ≡ₚ merge_sort UserId_le us') as Hp by by rewrite merge_sort_Permutation.
    split_and!; [by rewrite Hp|by apply bool_decide_ext; rewrite Hp|done].
Qed.
End reactions.

(** ** Sending *)

Lemma st_bind_run {S E A B} (m : ST S E A) (k : A → ST S E B) s a s' :
  m s = (Ok a, s') → st_bind m k s = k a s'.
Proof. unfold st_bind. by intros ->. Qed.

Lemma find_first_lookup {A} (p : A → bool) (l : list A) i x :
  l !! i = Some x → p x = true → (∀ j y, l !! j = Some y → p y = true → y = x) →
  find_first p l = Some x.
Proof.
  intros Hi Hp Hu. destruct (find_first p l) as [y|] eqn:E.
  - apply find_first_Some in E as (j & Hj & Hy & _). f_equal. by eapply Hu.
  - exfalso. pose proof (proj1 (find_first_None _ _) E i x Hi). congruence.
Qed.

Section sends.
Context `{Unicode, UuidLib}.
Context (db : SqlDb) (st : RepositoryState) (Hwf : wf st) (Hrel : sql_rel db st).

Lemma parent_agrees c p rc :
  validate_thread_parent c p (db <| sq_receipts := rc |>)
  = (check_parent st c p, db <| sq_receipts := rc |>).
Proof.
  unfold validate_thread_parent, check_parent. destruct p as [id|]; [|done]. st_compute.
  change (sq_messages (db <| sq_receipts := rc |>)) with (sq_messages db).
  destruct (sq_messages db !! id) as [m|] eqn:Hm.
  - apply (rel_messages _ _ Hrel) in Hm as (<- & c' & i & Hl).
    pose proof (log_channel _ _ _ (wf_log _ Hwf) _ _ _ Hl) as Hc. unfold in_channel. rewrite Hc.
    case_bool_decide as Hcc.
    + rewrite Hcc in Hl. rewrite (find_first_lookup _ (channel_messages st c) i m Hl).
      * by destruct (_ || _).
      * by apply has_id_true.
      * intros j y Hy Hid%has_id_true.
        by destruct (log_same _ _ _ _ _ _ _ _ _ (wf_log _ Hwf) Hy Hl Hid) as (_ & _ & ->).
    + destruct (find_first _ _) as [y|] eqn:E; [|done].
      apply find_first_Some in E as (j & Hy & Hid%has_id_true & _).
      by destruct (log_same _ _ _ _ _ _ _ _ _ (wf_log _ Hwf) Hy Hl Hid) as (-> & _).
  - destruct (find_first _ _) as [y|] eqn:E; [|done].
    apply find_first_Some in E as (j & Hy & Hid%has_id_true & _).
    assert (sq_messages db !! id = Some y) by (apply (rel_messages _ _ Hrel); split; [done|]; by exists c, j).
    congruence.
Qed.

Definition fresh_message (id : MessageId) : Prop :=
  ∀ c i m, logged (messages st) c i m → ChatMessage_id m ≠ id.

(** The tables after a send. *)
Definition sent_db (m : ChatMessage) (receipts : gmap (UserId * str) (option MessageId))
    (attachments : gmap MediaId (MessageId * N)) : SqlDb :=
  let c := ChatMessage_channel_id m in
  db <| sq_sequences := <[c := (Z.of_N (seq_u64 (ChatMessage_sequence m)) + 1)%Z]> (sq_sequences db) |>
     <| sq_messages := <[ChatMessage_id m := m]> (sq_messages db) |>
     <| sq_receipts := receipts |> <| sq_attachments := attachments |>.

Lemma sent_rel m rs attachments :
  fresh_message (ChatMessage_id m) → is_Some (channels st !! ChatMessage_channel_id m) →
  ChatMessage_sequence m = mk_ChannelSequence (N.of_nat (S (log_length (messages st) (ChatMessage_channel_id m)))) →
  sql_rel (sent_db m (Some <$> rs) attachments) (sent_state st m rs).
Proof.
  intros Hf Hc Hs. split; simpl; try apply Hrel; [| |done].
  - intros c' Hc'. rewrite log_length_pushed. destruct (decide (c' = ChatMessage_channel_id m)) as [->|Hne].
    + rewrite lookup_insert_eq, Hs. simpl. f_equal. lia.
    + rewrite lookup_insert_ne by done. rewrite (rel_sequences _ _ Hrel) by done. f_equal. lia.
  - intros id x. setoid_rewrite logged_pushed. destruct (decide (id = ChatMessage_id m)) as [->|Hne].
    + rewrite lookup_insert_eq. split.
      * intros [= <-]. split; [done|]. eauto 10.
      * intros (Hid & c & i & [Hl|(_ & _ & ->)]); [|done]. by destruct (Hf _ _ _ Hl).
    + rewrite lookup_insert_ne by done. rewrite (rel_messages _ _ Hrel). split.
      * intros (<- & c & i & Hl). split; [done|]. exists c, i. by left.
      * intros (<- & c & i & [Hl|(_ & _ & ->)]); [|done]. split; [done|]. by exists c, i.
Qed.

Lemma attach_all_db m pos ids d r d' :
  attach_all m pos ids d = (r, d') → ∃ a, d' = d <| sq_attachments := a |>.
Proof.
  revert pos d. induction ids as [|id ids IH]; intros pos d; simpl.
  - intros [= <- <-]. exists (sq_attachments d). by destruct d.
  - st_compute. destruct (_ && _).
    + intros [a ->]%IH. by exists a.
    + intros [= <- <-]. exists (sq_attachments d). by destruct d.
Qed.
Lemma persist_attachments_db m d r d' :
  persist_attachments m d = (r, d') → ∃ a, d' = d <| sq_attachments := a |>.
Proof.
  unfold persist_attachments. st_compute. destruct (media_ids_from_body _); [apply attach_all_db|..];
    intros [= <- <-]; exists (sq_attachments d); by destruct d.
Qed.

(** The media the message names cannot be attached. *)
Definition media_refused (m : ChatMessage) : Prop :=
  ∀ u, (persist_attachments m (sent_db m (sq_receipts db) (sq_attachments db))).1 ≠ Ok u.

Lemma persist_attachments_receipts m d rc :
  (persist_attachments m (d <| sq_receipts := rc |>)).1 = (persist_attachments m d).1.
Proof.
  unfold persist_attachments. st_compute. destruct (media_ids_from_body _) as [ids| |]; [|done..].
  generalize 0%N. revert d. induction ids as [|id ids IH]; intros d pos; simpl; [done|]. st_compute.
  change (sq_media (d <| sq_receipts := rc |>)) with (sq_media d).
  change (sq_attachments (d <| sq_receipts := rc |>)) with (sq_attachments d).
  destruct (_ && _); [|done].
  exact (IH (d <| sq_attachments := <[id := (ChatMessage_id m, pos)]> (sq_attachments d) |>) (pos + 1)%N).
Qed.

Lemma store_message_agrees id now cmd rc :
  let c := SendMessage_channel_id cmd in
  can_send_to_channel (role_in st c (SendMessage_actor cmd)) = true → fresh_message id →
  (Z.of_nat (S (log_length (messages st) c)) ≤ i64_max)%Z →
  match check_parent st c (SendMessage_parent_message_id cmd) with
  | Ok _ => ∃ name, User_display_name <$> users st !! SendMessage_actor cmd = Some name
      ∧ let m := sent_message st id now cmd name in
        (∃ a, store_message id now cmd (db <| sq_receipts := rc |>) = (Ok m, sent_db m rc a))
        ∨ media_refused m ∧ ∀ x, (store_message id now cmd (db <| sq_receipts := rc |>)).1 ≠ Ok x
  | Err e => store_message id now cmd (db <| sq_receipts := rc |>) = (Err e, db <| sq_receipts := rc |>)
  | Panic => False
  end.
Proof.
  intros c Hsend Hfresh Hfit. destruct (check_parent st c _) as [[]|e|] eqn:Hp;
    [|unfold store_message; fold c; unfold st_bind at 1; by rewrite parent_agrees, Hp
     |by eapply check_parent_no_panic].
  destruct (sender_known _ _ _ Hwf Hsend) as [user Hu].
  exists (User_display_name user). rewrite Hu. split; [done|]. set (m := sent_message _ _ _ _ _).
  assert (store_message id now cmd (db <| sq_receipts := rc |>)
    = st_bind (persist_attachments m) (λ _, st_ret m) (sent_db m rc (sq_attachments db))) as ->.
  { unfold store_message. fold c. cbv zeta.
    rewrite (st_bind_run _ _ _ tt (db <| sq_receipts := rc |>)) by by rewrite parent_agrees, Hp.
    set (db2 := db <| sq_receipts := rc |>
                   <| sq_sequences := <[c := (Z.of_nat (S (log_length (messages st) c)) + 1)%Z]>
                                        (sq_sequences db) |>).
    rewrite (st_bind_run _ _ _ (Z.of_nat (S (log_length (messages st) c))) db2).
    2:{ unfold allocate_sequence. st_compute.
        change (sq_sequences (db <| sq_receipts := rc |>)) with (sq_sequences db).
        by rewrite (rel_sequences _ _ Hrel) by (by eapply sender_channel). }
    rewrite (st_bind_run get _ _ db2 db2) by done.
    rewrite (st_bind_run _ _ _ (User_display_name user) db2)
      by (change (sq_users db2) with (sq_users db); by rewrite (rel_users _ _ Hrel), lookup_fmap, Hu).
    assert (from_i64 (Z.of_nat (S (log_length (messages st) c))) = Ok (ChatMessage_sequence m)) as Hfrom.
    { transitivity (from_i64 (Z.of_N (seq_u64 (ChatMessage_sequence m)))).
      - done.
      - apply from_i64_of. unfold in_i64. simpl. fold c. lia. }
    rewrite (st_bind_run _ _ _ (ChatMessage_sequence m) db2) by (unfold st_lift; by rewrite Hfrom).
    change (st_bind (insert_message m) (λ _, st_bind (persist_attachments m) (λ _, st_ret m)) db2
      = st_bind (persist_attachments m) (λ _, st_ret m) (sent_db m rc (sq_attachments db))).
    rewrite (st_bind_run (insert_message m) _ db2 tt (sent_db m rc (sq_attachments db))); [done|].
    unfold insert_message. st_compute.
    assert (messages_where (λ m', in_channel (ChatMessage_channel_id m) m'
      && bool_decide (ChatMessage_sequence m' = ChatMessage_sequence m)) db2 = []) as ->.
    { change (messages_where (λ m', in_channel (ChatMessage_channel_id m) m'
        && bool_decide (ChatMessage_sequence m' = ChatMessage_sequence m)) db = []).
      rewrite (channel_rows db st Hwf Hrel), (filter_ext_in _ (λ _, false)).
      - by induction (channel_messages st _).
      - intros x [i Hi]%list_elem_of_lookup_1. apply bool_decide_eq_false.
        rewrite (log_sequence _ _ _ (wf_log _ Hwf) _ _ _ Hi). intros [= E].
        apply lookup_lt_Some in Hi. unfold log_length in E. unfold channel_messages in Hi.
        change (ChatMessage_channel_id m) with c in Hi. fold c in E. lia. }
    assert (contains_key (ChatMessage_id m) (sq_messages db2) = false) as ->.
    { unfold contains_key. apply bool_decide_eq_false. intros [x (Hid & c' & i & Hl)%(rel_messages _ _ Hrel)].
      by destruct (Hfresh _ _ _ Hl). }
    rewrite bool_decide_eq_true_2 by done. done. }
  unfold st_bind. destruct (persist_attachments m _) as [r d'] eqn:Ha.
  pose proof (persist_attachments_db _ _ _ _ Ha) as [a ->].
  destruct r as [[]|e|]; [left; by exists a|right..]; (split; [|done]);
    intros u Hr; change (sent_db m rc (sq_attachments db))
      with ((sent_db m (sq_receipts db) (sq_attachments db)) <| sq_receipts := rc |>) in Ha;
    apply (f_equal fst) in Ha; rewrite persist_attachments_receipts in Ha; rewrite Ha in Hr; done.
Qed.

(** The in-memory sends, once the sender is admitted. *)
Lemma memory_sends id now cmd name :
  let c := SendMessage_channel_id cmd in
  can_send_to_channel (role_in st c (SendMessage_actor cmd)) = true →
  (Z.of_nat (S (log_length (messages st) c)) ≤ i64_max)%Z →
  User_display_name <$> users st !! SendMessage_actor cmd = Some name →
  let m := sent_message st id now cmd name in
  (append_message id now cmd st
   = match check_parent st c (SendMessage_parent_message_id cmd) with
     | Ok _ => (Ok m, sent_state st m (command_receipts st))
     | Err e => (Err e, st)
     | Panic => (Panic, st)
     end)
  ∧ ∀ rid, command_receipts st !! (SendMessage_actor cmd, rid) = None →
    append_message_idempotent id now cmd rid st
    = match check_parent st c (SendMessage_parent_message_id cmd) with
      | Ok _ => (Ok m, sent_state st m (<[(SendMessage_actor cmd, rid) := id]> (command_receipts st)))
      | Err e => (Err e, st)
      | Panic => (Panic, st)
      end.
Proof.
  intros c Hsend Hfit Hname m. unfold i64_max in Hfit.
  assert (next_sequence c st
    = (Ok (ChatMessage_sequence m), st <| next_sequences := <[c := ChatMessage_sequence m]> (next_sequences st) |>))
    as Hn.
  { destruct (next_sequence c st) as [r st'] eqn:E.
    destruct (next_sequence_cases _ _ _ _ Hwf E) as [(e & -> & ->)|(_ & -> & ->)]; [|done].
    apply (next_sequence_exhausted _ _ _ _ Hwf) in E. unfold u64_max in E. lia. }
  split.
  - unfold append_message. fold c. st_compute. rewrite Hsend.
    destruct (check_parent st c _) as [[]| |]; [|done..]. rewrite Hn, Hname. done.
  - intros rid Hrid. unfold append_message_idempotent. fold c. st_compute. rewrite Hrid, Hsend.
    destruct (check_parent st c _) as [[]| |]; [|done..]. rewrite Hn, Hname. done.
Qed.

Definition send_fits (cmd : SendMessage) : Prop :=
  (Z.of_nat (S (log_length (messages st) (SendMessage_channel_id cmd))) ≤ i64_max)%Z.

Lemma append_message_agrees id now cmd :
  fresh_message id → send_fits cmd →
  (∃ r db' st', sql_append_message id now cmd db = (r, db') ∧ append_message id now cmd st = (r, st')
     ∧ sql_rel db' st')
  ∨ (∃ m r st', append_message id now cmd st = (Ok m, st') ∧ media_refused m
       ∧ sql_append_message id now cmd db = (r, db) ∧ ∀ x, r ≠ Ok x).
Proof.
  intros Hfresh Hfit. set (c := SendMessage_channel_id cmd).
  assert (sql_append_message id now cmd db
    = if can_send_to_channel (role_in st c (SendMessage_actor cmd))
      then transaction (store_message id now cmd) db else (Err PermissionDenied, db)) as ->.
  { unfold sql_append_message. fold c. rewrite <-(sql_role_in db st Hrel).
    unfold transaction, st_bind, get, ensure. by destruct (can_send_to_channel _). }
  destruct (can_send_to_channel (role_in st c (SendMessage_actor cmd))) eqn:Hsend.
  - unfold transaction. destruct (sender_known _ _ _ Hwf Hsend) as [user Hu].
    destruct (memory_sends id now cmd (User_display_name user) Hsend Hfit) as [Hmem _]; [by rewrite Hu|].
    pose proof (store_message_agrees id now cmd (sq_receipts db) Hsend Hfresh Hfit) as Hst.
    assert (db <| sq_receipts := sq_receipts db |> = db) as Edb by by destruct db. rewrite Edb in Hst.
    fold c in Hst, Hmem. destruct (check_parent st c _) as [[]|e|]; [|rewrite Hst; left; eauto 10|done].
    destruct Hst as (name & Hname & Hst). rewrite Hu in Hname. injection Hname as <-.
    set (m := sent_message _ _ _ _ _) in *. destruct Hst as [[a Hst]|[Href Hst]].
    + rewrite Hst, Hmem. left. do 3 eexists. split_and!; [done..|]. rewrite (rel_receipts _ _ Hrel).
      apply sent_rel; [done|by eapply sender_channel|done].
    + right. exists m. destruct (store_message id now cmd db) as [r d].
      exists (match r with Ok _ => Panic | Err e => Err e | Panic => Panic end). eexists.
      split_and!; [done|done| |by destruct r].
      destruct r as [x| |]; [by destruct (Hst x eq_refl)|done..].
  - left. unfold append_message. fold c. st_compute. rewrite Hsend. eauto 10.
Qed.

(** What a replayed request returns: without the times of an edit or a deletion. *)
Definition replayed (m : ChatMessage) : ChatMessage :=
  m <| ChatMessage_edited_at := None |> <| ChatMessage_deleted_at := None |>.
(** A request identifier the column takes and that is not a chatbot's: SQLite authorizes
    the sends of the three prefixes of [agent_request] by the chatbots' own rules. *)
Definition plain_request (rid : str) : Prop :=
  agent_request rid = false ∧ 1 ≤ length rid ≤ 128.

Lemma sql_idempotent_new agent id now cmd rid :
  let c := SendMessage_channel_id cmd in
  let key := (SendMessage_actor cmd, rid) in
  plain_request rid → command_receipts st !! key = None →
  sql_append_message_idempotent agent id now cmd rid db
  = if can_send_to_channel (role_in st c (SendMessage_actor cmd)) then
      match store_message id now cmd (db <| sq_receipts := <[key := None]> (sq_receipts db) |>) with
      | (Ok m, d) => (Ok m, d <| sq_receipts := <[key := Some (ChatMessage_id m)]> (sq_receipts d) |>)
      | (Err e, _) => (Err e, db)
      | (Panic, _) => (Panic, db)
      end
    else (Err PermissionDenied, db).
Proof.
  intros c key [Hagent Hlen] Hkey. unfold sql_append_message_idempotent. fold key c.
  assert (sq_receipts db !! key = None) as Hk by (rewrite (rel_receipts _ _ Hrel), lookup_fmap; by rewrite Hkey).
  unfold transaction, st_bind, get, st_lift, ensure, set_receipt, modify, st_ret. rewrite Hk, Hagent.
  assert ((1 <=? length rid)%nat && (length rid <=? 128)%nat = true) as -> by lia.
  rewrite (sql_role_in db st Hrel).
  destruct (can_send_to_channel (role_in st c (SendMessage_actor cmd))) eqn:Hsend.
  - assert (contains_key (SendMessage_actor cmd) (sq_users db) = true) as ->.
    { destruct (sender_known _ _ _ Hwf Hsend) as [user Hu]. unfold contains_key.
      rewrite (rel_users _ _ Hrel), lookup_fmap, Hu. done. }
    by destruct (store_message id now cmd _) as [[] ?].
  - by destruct (contains_key _ _).
Qed.

Lemma sql_idempotent_again agent id now cmd rid mid :
  let key := (SendMessage_actor cmd, rid) in
  command_receipts st !! key = Some mid →
  (∃ e, sql_append_message_idempotent agent id now cmd rid db = (Err e, db)
        ∧ append_message_idempotent id now cmd rid st = (Err e, st))
  ∨ ∃ m, append_message_idempotent id now cmd rid st = (Ok m, st)
         ∧ sql_append_message_idempotent agent id now cmd rid db = (Ok (replayed m), db).
Proof.
  intros key Hkey. destruct (wf_receipts _ Hwf _ _ _ Hkey) as (c & i & m & Hl & <- & _).
  unfold sql_append_message_idempotent, append_message_idempotent. fold key.
  unfold transaction. st_compute.
  rewrite (rel_receipts _ _ Hrel), lookup_fmap, Hkey. simpl.
  rewrite (proj2 (rel_messages _ _ Hrel _ m)) by (split; [done|]; by exists c, i).
  unfold find_message. rewrite (find_message_id st c i m Hwf Hl). simpl.
  destruct (decide (ChatMessage_channel_id m = SendMessage_channel_id cmd)) as [E1|E1];
    [|rewrite !(bool_decide_eq_false_2 (ChatMessage_channel_id m = _)) by done;
      rewrite !(bool_decide_eq_true_2 (ChatMessage_channel_id m ≠ _)) by done; left; by eexists].
  destruct (decide (ChatMessage_parent_message_id m = SendMessage_parent_message_id cmd)) as [E2|E2];
    [|rewrite !(bool_decide_eq_false_2 (ChatMessage_parent_message_id m = _)) by done;
      rewrite !(bool_decide_eq_true_2 (ChatMessage_parent_message_id m ≠ _)) by done;
      rewrite !andb_false_r, !orb_true_r; left; by eexists].
  destruct (decide (ChatMessage_body m = SendMessage_body cmd)) as [E3|E3];
    [|rewrite !(bool_decide_eq_false_2 (ChatMessage_body m = _)) by done;
      rewrite !(bool_decide_eq_true_2 (ChatMessage_body m ≠ _)) by done;
      rewrite !andb_false_r, !orb_true_r; left; by eexists].
  rewrite !(bool_decide_eq_true_2 (_ = _)) by done. rewrite !(bool_decide_eq_false_2 (_ ≠ _)) by naive_solver.
  right. by eexists.
Qed.

Lemma append_idempotent_agrees agent id now cmd rid :
  fresh_message id → send_fits cmd → plain_request rid →
  (∃ r db' st', sql_append_message_idempotent agent id now cmd rid db = (r, db')
     ∧ append_message_idempotent id now cmd rid st = (r, st') ∧ sql_rel db' st')
  ∨ (∃ m, append_message_idempotent id now cmd rid st = (Ok m, st)
       ∧ sql_append_message_idempotent agent id now cmd rid db = (Ok (replayed m), db))
  ∨ (∃ m r st', append_message_idempotent id now cmd rid st = (Ok m, st') ∧ media_refused m
       ∧ sql_append_message_idempotent agent id now cmd rid db = (r, db) ∧ ∀ x, r ≠ Ok x).
Proof.
  intros Hfresh Hfit Hrid. set (key := (SendMessage_actor cmd, rid)).
  destruct (command_receipts st !! key) as [mid|] eqn:Hkey.
  { destruct (sql_idempotent_again agent id now cmd rid mid Hkey) as [(e & ? & ?)|?]; eauto 10. }
  rewrite (sql_idempotent_new agent id now cmd rid Hrid Hkey). fold key.
  set (c := SendMessage_channel_id cmd).
  destruct (can_send_to_channel (role_in st c (SendMessage_actor cmd))) eqn:Hsend.
  - destruct (sender_known _ _ _ Hwf Hsend) as [user Hu].
    destruct (memory_sends id now cmd (User_display_name user) Hsend Hfit) as [_ Hmem]; [by rewrite Hu|].
    specialize (Hmem rid Hkey). fold key in Hmem.
    pose proof (store_message_agrees id now cmd (<[key := None]> (sq_receipts db)) Hsend Hfresh Hfit) as Hst.
    fold c in Hst, Hmem.
    destruct (check_parent st c _) as [[]|e|]; [|rewrite Hst; left; eauto 10|done].
    destruct Hst as (name & Hname & Hst). rewrite Hu in Hname. injection Hname as <-.
    set (m := sent_message _ _ _ _ _) in *. destruct Hst as [[a Hst]|[Href Hst]].
    + rewrite Hst, Hmem. left. do 3 eexists. split_and!; [done..|].
      assert (<[key := Some id]> (<[key := None]> (sq_receipts db))
              = Some <$> <[key := id]> (command_receipts st)) as E.
      { by rewrite insert_insert_eq, fmap_insert, (rel_receipts _ _ Hrel). }
      change (sql_rel (sent_db m (<[key := Some id]> (<[key := None]> (sq_receipts db))) a)
        (sent_state st m (<[key := id]> (command_receipts st)))). rewrite E.
      apply sent_rel; [done|by eapply sender_channel|done].
    + right. right. exists m. destruct (store_message id now cmd _) as [r d].
      exists (match r with Ok _ => Panic | Err e => Err e | Panic => Panic end). eexists.
      split_and!; [done|done| |by destruct r].
      destruct r as [x| |]; [by destruct (Hst x eq_refl)|done..].
  - left. unfold append_message_idempotent. fold key c. st_compute. rewrite Hkey, Hsend. eauto 10.
Qed.
End sends.

(** ** Changing messages and markers *)

Section changes.
Context (db : SqlDb) (st : RepositoryState) (Hwf : wf st) (Hrel : sql_rel db st).

Lemma updated_rel c i m0 m :
  logged (messages st) c i m0 → ChatMessage_id m = ChatMessage_id m0 →
  sql_rel (db <| sq_messages := <[ChatMessage_id m := m]> (sq_messages db) |>)
    (st <| messages := updated (messages st) c i m |>).
Proof.
  intros Hl Hid. split; simpl; try apply Hrel.
  - intros c' Hc'. rewrite log_length_updated. by apply (rel_sequences _ _ Hrel).
  - intros id x. setoid_rewrite (logged_updated _ c i m m0); [|done].
    destruct (decide (id = ChatMessage_id m)) as [->|Hne].
    + rewrite lookup_insert_eq. split.
      * intros [= <-]. split; [done|]. exists c, i. by left.
      * intros (Hx & c' & i' & [(_ & _ & ->)|[Hne Hl']]); [done|].
        rewrite Hid in Hx. destruct (log_same _ _ _ _ _ _ _ _ _ (wf_log _ Hwf) Hl' Hl Hx) as (-> & -> & _).
        by destruct Hne.
    + rewrite lookup_insert_ne by done. rewrite (rel_messages _ _ Hrel). split.
      * intros (<- & c' & i' & Hl'). split; [done|]. exists c', i'. right. split; [|done].
        intros [-> ->]. by rewrite (logged_fun _ _ _ _ _ Hl' Hl), Hid in Hne.
      * intros (<- & c' & i' & [(_ & _ & ->)|[_ Hl']]); [done|]. split; [done|]. by exists c', i'.
Qed.

(** A message by its identifier, in the tables and in memory. *)
Lemma message_entry id :
  match sq_messages db !! id with
  | Some m => ChatMessage_id m = id
      ∧ find_message_entry (has_id id) st = Some (ChatMessage_channel_id m, m)
      ∧ ∃ i, logged (messages st) (ChatMessage_channel_id m) i m
        ∧ ∀ f, modify_message (ChatMessage_channel_id m) (has_id id) f st
               = st <| messages := updated (messages st) (ChatMessage_channel_id m) i (f m) |>
  | None => find_message_entry (has_id id) st = None
  end.
Proof.
  pose proof (sql_find_entry db st Hrel id) as E.
  destruct (find_message_entry (has_id id) st) as [[c m]|] eqn:Ef; simpl in E; rewrite E; [|done].
  destruct (find_entry_Some _ _ _ _ Ef) as (i & Hl & Hid%has_id_true & _).
  pose proof (log_channel _ _ _ (wf_log _ Hwf) _ _ _ Hl) as ->. split_and!; [done..|].
  exists i. split; [done|]. intros f. destruct (modify_message_updated st id c m f Ef) as (i' & Hl' & _ & Hm).
  by destruct (log_root st Hwf _ _ _ _ _ Hl Hl' eq_refl) as [<- _].
Qed.

Lemma edit_message_agrees now cmd :
  (∃ r db' st', sql_edit_message now cmd db = (r, db') ∧ edit_message now cmd st = (r, st')
     ∧ sql_rel db' st')
  ∨ sql_edit_message now cmd db = (Err PermissionDenied, db) ∧ edit_message now cmd st = (Err Conflict, st).
Proof.
  unfold sql_edit_message, transaction, updatable, write_message, edit_message. st_compute.
  pose proof (message_entry (EditMessage_message_id cmd)) as Hm.
  destruct (sq_messages db !! EditMessage_message_id cmd) as [m|]; [|rewrite Hm; left; eauto 10].
  destruct Hm as (Hid & Hf & i & Hl & Hmod). rewrite Hf. simpl.
  case_bool_decide as Hs; simpl; [|left; eauto 10].
  destruct (ChatMessage_deleted_at m) as [t|] eqn:Hd.
  - right. rewrite bool_decide_eq_false_2, bool_decide_eq_true_2 by done. done.
  - left. rewrite bool_decide_eq_true_2, bool_decide_eq_false_2 by (done || by intros [? ?]).
    simpl. set (m' := m <| ChatMessage_body := _ |> <| ChatMessage_edited_at := _ |>).
    exists (Ok m'). do 2 eexists. split; [done|]. split; [done|]. rewrite Hmod.
    by apply (updated_rel _ _ m m').
Qed.

(** Who may delete a message is the same by the [where] clause and in memory. *)
Lemma may_delete_agrees actor m :
  is_Some (channels st !! ChatMessage_channel_id m) →
  sql_may_delete actor db m = may_delete st actor m.
Proof.
  intros [ch Hch]. unfold sql_may_delete, may_delete, sql_role. f_equal.
  rewrite (rel_channels _ _ Hrel), (rel_circles _ _ Hrel), (rel_members _ _ Hrel), !lookup_fmap, Hch.
  destruct (memberships st !! _) as [ms|]; [|done]. simpl.
  destruct (Channel_circle_id ch) as [k|]; simpl; [rewrite lookup_fmap|];
    [destruct (circle_memberships st !! (k, actor)) as [[? ? role]|]; [destruct role|]|];
    destruct (Membership_role ms), (Channel_kind ch); done.
Qed.

Lemma without_reactions_rel id :
  sql_rel (db <| sq_reactions := delete_where (λ k _, bool_decide (k.1.1 = id)) (sq_reactions db) |>)
    (st <| message_reactions := filter (λ r, r.1.1 ≠ id) (message_reactions st) |>).
Proof.
  split; simpl; try apply Hrel. rewrite <-(rel_reactions _ _ Hrel). apply set_eq. intros k.
  rewrite elem_of_filter, !elem_of_dom. unfold is_Some. setoid_rewrite lookup_delete_where_Some.
  setoid_rewrite bool_decide_eq_false. naive_solver.
Qed.
End changes.

Section deletions.
Context `{Unicode}.
Context (db : SqlDb) (st : RepositoryState) (Hwf : wf st) (Hrel : sql_rel db st).

(** Deleting again changes nothing, in the tables too. *)
Lemma delete_again c i m t :
  logged (messages st) c i m → ChatMessage_deleted_at m = Some t →
  m <| ChatMessage_body := mk_MessageBody tombstone |> <| ChatMessage_edited_at := None |>
    <| ChatMessage_deleted_at := Some t |> = m
  ∧ <[ChatMessage_id m := m]> (sq_messages db) = sq_messages db
  ∧ delete_where (λ k _, bool_decide (k.1.1 = ChatMessage_id m)) (sq_reactions db) = sq_reactions db.
Proof.
  intros Hl Ht. destruct (log_deleted _ _ _ (wf_log _ Hwf) _ _ _ Hl) as [Hb He]; [by rewrite Ht|].
  split_and!.
  - destruct m; simpl in *; by subst.
  - apply insert_id. apply (rel_messages _ _ Hrel). eauto.
  - apply map_eq. intros [[id u] e]. rewrite lookup_delete_where.
    destruct (sq_reactions db !! (id, u, e)) as [x|] eqn:Hx; [|done]. simpl.
    rewrite bool_decide_eq_false_2; [done|]. intros ->.
    assert ((ChatMessage_id m, u, e) ∈ message_reactions st) as Hin
      by (rewrite <-(rel_reactions _ _ Hrel); by apply elem_of_dom_2 in Hx).
    by rewrite (wf_reactions _ Hwf _ _ _ _ _ Hl Hin) in Ht.
Qed.

Lemma delete_message_agrees now cmd :
  ∃ r db' st', sql_delete_message now cmd db = (r, db') ∧ delete_message now cmd st = (r, st')
    ∧ sql_rel db' st'.
Proof.
  unfold sql_delete_message, transaction, updatable, write_message, delete_message. st_compute.
  rewrite tombstone_body. simpl.
  pose proof (message_entry db st Hwf Hrel (DeleteMessage_message_id cmd)) as Hm.
  destruct (sq_messages db !! DeleteMessage_message_id cmd) as [m|]; [|rewrite Hm; eauto 10].
  destruct Hm as (Hid & Hf & i & Hl & Hmod). rewrite Hf. simpl.
  rewrite (may_delete_agrees db st Hrel) 
    by (apply (log_known _ _ _ (wf_log _ Hwf)); left; apply logged_lt in Hl;
        unfold log_length in Hl; destruct (messages st !! _); [done|simpl in Hl; lia]).
  destruct (may_delete st _ m); [|eauto 10]. case_decide as Hd.
  - rewrite Hd. simpl. set (m' := m <| ChatMessage_body := _ |> <| ChatMessage_edited_at := _ |>
      <| ChatMessage_deleted_at := _ |>).
    exists (Ok m'). do 2 eexists. split; [done|]. split; [done|]. rewrite Hmod. rewrite <-Hid.
    apply (without_reactions_rel (db <| sq_messages := <[ChatMessage_id m' := m']> (sq_messages db) |>)
             (st <| messages := updated (messages st) (ChatMessage_channel_id m) i m' |>)
             (updated_rel db st Hwf Hrel _ _ m m' Hl eq_refl) (ChatMessage_id m)).
  - destruct (ChatMessage_deleted_at m) as [t|] eqn:Ht; [|done]. simpl.
    destruct (delete_again _ _ _ _ Hl Ht) as (Em & Ei & Er). rewrite Em.
    exists (Ok m). do 2 eexists. split; [done|]. split; [done|]. simpl. rewrite Ei, Er. by destruct db.
Qed.
End deletions.

Section markers.
Context (db : SqlDb) (st : RepositoryState) (Hwf : wf st) (Hrel : sql_rel db st).

(** Comparing as [i64] is comparing the sequences. *)
Lemma not_beyond s latest :
  (Z.of_N (seq_u64 s) <=? Z.of_N (seq_u64 latest))%Z = negb (seq_lt latest s).
Proof. unfold seq_lt. lia. Qed.

Lemma mark_read_agrees cmd :
  in_i64 (MarkRead_sequence cmd) →
  ∃ r db' st', sql_mark_read cmd db = (r, db') ∧ mark_read cmd st = (r, st') ∧ sql_rel db' st'.
Proof.
  intros Hs. unfold sql_mark_read, load_membership, mark_read. st_compute.
  rewrite (to_i64_Ok _ Hs), (max_sequence_log db st Hwf Hrel), not_beyond.
  destruct (negb _); [|eauto 10].
  rewrite (rel_members _ _ Hrel), lookup_fmap.
  destruct (memberships st !! (MarkRead_channel_id cmd, MarkRead_actor cmd)) as [m|] eqn:Hm; [|simpl; eauto 10].
  destruct (wf_members _ Hwf _ _ _ Hm) as [Hc Hu _ _ _]. simpl. rewrite lookup_insert_eq. simpl.
  set (m' := if seq_lt (Membership_last_read_sequence m) (MarkRead_sequence cmd) then _ else _).
  exists (Ok m'). do 2 eexists. split_and!; [|done|].
  - do 2 f_equal. unfold m', seq_max. destruct m; simpl in *. subst. by destruct (seq_lt _ _).
  - split; simpl; try apply Hrel. rewrite fmap_insert. f_equal.
    unfold m', seq_max, membership_row. by destruct (seq_lt _ _).
Qed.

Lemma mark_thread_read_agrees actor root sequence :
  in_i64 sequence → (∀ c, (N.of_nat (log_length (messages st) c) < 2 ^ 32)%N) →
  (∃ r db' st', sql_mark_thread_read actor root sequence db = (r, db')
     ∧ mark_thread_read actor root sequence st = (r, st') ∧ sql_rel db' st')
  ∨ sql_mark_thread_read actor root sequence db = (Err NotFound, db)
    ∧ mark_thread_read actor root sequence st = (Err PermissionDenied, st).
Proof.
  intros Hs Hfit. unfold sql_mark_thread_read, transaction, mark_thread_read. st_compute.
  pose proof (visible_root_agrees db st Hwf Hrel actor root) as Hv.
  destruct (visible_root db actor root) as [m|].
  - destruct Hv as (Hroot & <- & Hc & i & Hl). rewrite Hroot, Hc. left. simpl.
    unfold max_sequence, last_read_of. rewrite (reply_rows db st Hwf Hrel _ _ _ Hl), (rel_markers _ _ Hrel).
    set (replies := replies_to _ _ _). destruct (last replies) as [x|] eqn:Hx; [|simpl; eauto 10].
    simpl. rewrite (to_i64_Ok _ Hs), not_beyond. destruct (negb _); [|eauto 10].
    rewrite (summarize_Ok _ _ _ _ x (log_length (messages st) (ChatMessage_channel_id m)));
      [|done|apply List.filter_length_le|apply Hfit].
    do 3 eexists. split; [done|]. split; [done|]. split; simpl; try apply Hrel. done.
  - destruct (find_message (is_root root) st) as [m|]; [rewrite Hv|]; simpl; [by right|left; eauto 10].
Qed.

Lemma reaction_count (m : gmap (MessageId * UserId * str) DateTime) rs id emoji :
  dom m = rs →
  size (rows_where (reactions_with id emoji) m) = size (filter (λ r, r.1.1 = id ∧ r.2 = emoji) rs).
Proof.
  intros <-. rewrite <-size_dom. apply set_size_proper. intros k.
  rewrite elem_of_filter, !elem_of_dom. unfold is_Some. setoid_rewrite lookup_rows_where_Some.
  unfold reactions_with. setoid_rewrite andb_true_iff. setoid_rewrite bool_decide_eq_true. naive_solver.
Qed.

Lemma toggle_agrees now actor id emoji :
  (N.of_nat (S (size (message_reactions st))) < 2 ^ 32)%N →
  (∃ r db' st', sql_toggle_message_reaction now actor id emoji db = (r, db')
     ∧ toggle_message_reaction actor id emoji st = (r, st') ∧ sql_rel db' st')
  ∨ sql_toggle_message_reaction now actor id emoji db = (Err PermissionDenied, db)
    ∧ ∃ e, toggle_message_reaction actor id emoji st = (Err e, st)
        ∧ (e = NotFound ∨ e = Conflict).
Proof.
  intros Hfit. unfold sql_toggle_message_reaction, transaction_with, transaction, toggle_message_reaction.
  st_compute. rewrite <-(sql_find db st Hrel). destruct (sq_messages db !! id) as [m|]; [|right; eauto].
  simpl. rewrite (is_member_in db st Hrel).
  destruct (ChatMessage_deleted_at m) as [t|] eqn:Hd.
  { rewrite bool_decide_eq_false_2, (bool_decide_eq_true_2 (is_Some _)) by done. right. eauto. }
  rewrite bool_decide_eq_true_2, (bool_decide_eq_false_2 (is_Some _)) by (done || by intros [? ?]). simpl.
  destruct (contains_key _ _); [|left; eauto 10]. left. set (key := (id, actor, emoji)). simpl.
  assert (contains_key key (sq_reactions db) = bool_decide (key ∈ message_reactions st)) as Hk.
  { unfold contains_key. apply bool_decide_ext. rewrite <-(rel_reactions _ _ Hrel). by rewrite elem_of_dom. }
  rewrite Hk. set (added := negb (bool_decide (key ∈ message_reactions st))).
  set (rows := if added then <[key := now]> _ else _). set (rs := if added then {[key]} ∪ _ else _).
  assert (dom rows = rs) as Hdom.
  { unfold rows, rs. destruct added; [rewrite dom_insert_L|rewrite dom_delete_L]; by rewrite (rel_reactions _ _ Hrel). }
  rewrite (reaction_count rows rs id emoji Hdom). rewrite (count_u32_Ok _ (S (size (message_reactions st)))); [|
    |done].
  - do 3 eexists. split; [done|]. split; [done|]. split; simpl; try apply Hrel. done.
  - transitivity (size rs); [apply subseteq_size; set_solver|].
    assert (size (message_reactions st ∖ {[key]}) ≤ size (message_reactions st)) by (apply subseteq_size; set_solver).
    unfold rs. destruct added; [rewrite size_union_alt, size_singleton|]; lia.
Qed.
End markers.
