(* ===== verification/SqlProps.v ===== *)
(** * SqlProps: the SQLite message methods refine the in-memory repository

    The methods of [SqlRepo] as one kind of operation, their answers, and when an answer
    of the tables stands for one of the memory: the simulation of whole runs, and who
    owns the media attached to messages. *)

From Stdlib Require Import ZifyBool.
From stdpp Require Import base tactics numbers strings countable sorting gmap list.
From S2P Require Import Prelude RustStr Text Ids Models Policy RepoState RepoMessages RepoCircles RepoWf WfMessages RepoReach RepoDemo Sql SqlRepo SqlRefine.

(** ** Operations and answers *)

Inductive MessageOp : Type :=
  | LoadRecentOp (query : LoadRecentMessages)
  | LoadMessageOp (id : MessageId)
  | LatestOp (c : ChannelId)
  | AppendOp (id : MessageId) (now : DateTime) (cmd : SendMessage)
  | AppendIdempotentOp (agent : Res RepositoryError unit) (id : MessageId) (now : DateTime)
      (cmd : SendMessage) (rid : str)
  | EditOp (now : DateTime) (cmd : EditMessage)
  | DeleteOp (now : DateTime) (cmd : DeleteMessage)
  | ReadOp (cmd : MarkRead)
  | ThreadOp (actor : UserId) (root : MessageId)
  | SummariesOp (actor : UserId) (c : ChannelId)
  | ThreadReadOp (actor : UserId) (root : MessageId) (sequence : ChannelSequence)
  | ReactionsOp (actor : UserId) (c : ChannelId)
  | ToggleOp (now : DateTime) (actor : UserId) (id : MessageId) (emoji : str).

Inductive Answer : Type :=
  | AMessage (m : ChatMessage)
  | AMessages (l : list ChatMessage)
  | ASequence (s : ChannelSequence)
  | AMembership (m : Membership)
  | ASummary (s : ThreadSummary)
  | ASummaries (l : list ThreadSummary)
  | AReactions (l : list MessageReactionSummary)
  | AChange (c : MessageReactionChange).

Definition answer {S E A} (f : A → Answer) (m : ST S E A) : ST S E Answer :=
  let! a := m in st_ret (f a).

Section machine.
Context `{Unicode, UuidLib}.

Definition on_tables (op : MessageOp) : SqlM Answer :=
  match op with
  | LoadRecentOp query => answer AMessages (sql_load_recent_messages query)
  | LoadMessageOp id => answer AMessage (sql_load_message id)
  | LatestOp c => answer ASequence (sql_latest_sequence c)
  | AppendOp id now cmd => answer AMessage (sql_append_message id now cmd)
  | AppendIdempotentOp agent id now cmd rid =>
      answer AMessage (sql_append_message_idempotent agent id now cmd rid)
  | EditOp now cmd => answer AMessage (sql_edit_message now cmd)
  | DeleteOp now cmd => answer AMessage (sql_delete_message now cmd)
  | ReadOp cmd => answer AMembership (sql_mark_read cmd)
  | ThreadOp actor root => answer AMessages (sql_load_thread actor root)
  | SummariesOp actor c => answer ASummaries (sql_list_thread_summaries actor c)
  | ThreadReadOp actor root sequence => answer ASummary (sql_mark_thread_read actor root sequence)
  | ReactionsOp actor c => answer AReactions (sql_list_channel_reactions actor c)
  | ToggleOp now actor id emoji => answer AChange (sql_toggle_message_reaction now actor id emoji)
  end.

Definition in_memory (op : MessageOp) : Repo Answer :=
  match op with
  | LoadRecentOp query => answer AMessages (load_recent_messages query)
  | LoadMessageOp id => answer AMessage (load_message id)
  | LatestOp c => answer ASequence (latest_sequence c)
  | AppendOp id now cmd => answer AMessage (append_message id now cmd)
  | AppendIdempotentOp _ id now cmd rid => answer AMessage (append_message_idempotent id now cmd rid)
  | EditOp now cmd => answer AMessage (edit_message now cmd)
  | DeleteOp now cmd => answer AMessage (delete_message now cmd)
  | ReadOp cmd => answer AMembership (mark_read cmd)
  | ThreadOp actor root => answer AMessages (load_thread actor root)
  | SummariesOp actor c => answer ASummaries (list_thread_summaries actor c)
  | ThreadReadOp actor root sequence => answer ASummary (mark_thread_read actor root sequence)
  | ReactionsOp actor c => answer AReactions (list_channel_reactions actor c)
  | ToggleOp _ actor id emoji => answer AChange (toggle_message_reaction actor id emoji)
  end.

(** An operation within the bounds of the columns: generated identifiers are unused,
    cursors fit an [i64], and a request identifier has 1 to 128 characters and is not a
    chatbot's. *)
Definition op_fits (db : SqlDb) (op : MessageOp) : Prop :=
  match op with
  | LoadRecentOp query => ∀ s,
      LoadRecentMessages_after query = Some s ∨ LoadRecentMessages_before query = Some s → in_i64 s
  | AppendOp id _ _ => sq_messages db !! id = None
  | AppendIdempotentOp _ id _ _ rid => sq_messages db !! id = None ∧ plain_request rid
  | ReadOp cmd => in_i64 (MarkRead_sequence cmd)
  | ThreadReadOp _ _ sequence => in_i64 sequence
  | _ => True
  end.
(** Fewer than [2^32] messages in a channel, and fewer reactions. *)
Definition counts_fit (db : SqlDb) : Prop :=
  map_Forall (λ _ next, (next ≤ 2 ^ 32)%Z) (sq_sequences db)
  ∧ (Z.of_nat (S (size (sq_reactions db))) < 2 ^ 32)%Z.

(** What an answer of the tables says about the memory's: the same, but for the order of
    the users of a reaction, the times a replayed request leaves out, and four errors. *)
Definition values_agree (op : MessageOp) (a a' : Answer) : Prop :=
  match op, a, a' with
  | ReactionsOp _ _, AReactions l, AReactions l' => Forall2 summary_agrees l l'
  | AppendIdempotentOp _ _ _ _ _, AMessage m, AMessage m' => m = m' ∨ m = replayed m'
  | _, _, _ => a = a'
  end.
Definition errors_agree (op : MessageOp) (e e' : RepositoryError) : Prop :=
  e = e' ∨ match op with
           | EditOp _ _ => e = PermissionDenied ∧ e' = Conflict
           | ThreadOp _ _ => e = PermissionDenied ∧ e' = NotFound
           | ThreadReadOp _ _ _ => e = NotFound ∧ e' = PermissionDenied
           | ToggleOp _ _ _ _ => e = PermissionDenied ∧ (e' = NotFound ∨ e' = Conflict)
           | _ => False
           end.
Definition answers_agree (op : MessageOp) (r r' : Res RepositoryError Answer) : Prop :=
  match r, r' with
  | Ok a, Ok a' => values_agree op a a'
  | Err e, Err e' => errors_agree op e e'
  | Panic, Panic => True
  | _, _ => False
  end.

(** A send whose body refers to media. *)
Definition names_media (op : MessageOp) : Prop :=
  match op with
  | AppendOp _ _ cmd | AppendIdempotentOp _ _ _ cmd _ => media_ids_from_body (SendMessage_body cmd) ≠ Ok []
  | _ => False
  end.

(** ** One operation *)

Lemma values_agree_refl op a : values_agree op a a.
Proof.
  destruct op, a; simpl; eauto. induction l; constructor; [|done]. by repeat split.
Qed.
Lemma answers_agree_refl op r : answers_agree op r r.
Proof. destruct r; simpl; [apply values_agree_refl|by left|done]. Qed.
Lemma answer_run {S E A} (f : A → Answer) (m : ST S E A) s r s' :
  m s = (r, s') →
  answer f m s = (match r with Ok a => Ok (f a) | Err e => Err e | Panic => Panic end, s').
Proof. unfold answer, st_bind. intros ->. by destruct r. Qed.

Lemma media_refused_named db m : media_refused db m → media_ids_from_body (ChatMessage_body m) ≠ Ok [].
Proof.
  intros Href E. apply (Href tt). unfold persist_attachments. st_compute. by rewrite E.
Qed.

Definition simulated (op : MessageOp) (db : SqlDb) (st : RepositoryState) : Prop :=
  ∃ r db', on_tables op db = (r, db') ∧
    ((∃ r' st', in_memory op st = (r', st') ∧ answers_agree op r r' ∧ sql_rel db' st' ∧ wf st')
     ∨ db' = db ∧ names_media op ∧ ∀ x, r ≠ Ok x).

Lemma simulated_same {A} op (f : A → Answer) (m : SqlM A) (n : Repo A) db st r db' st' :
  on_tables op = answer f m → in_memory op = answer f n → m db = (r, db') → n st = (r, st') →
  sql_rel db' st' → wf st' → simulated op db st.
Proof.
  intros Hm Hn Em En Hrel Hwf. unfold simulated. rewrite Hm, Hn, (answer_run _ _ _ _ _ Em).
  do 2 eexists. split; [done|]. left. rewrite (answer_run _ _ _ _ _ En). do 2 eexists.
  split; [done|]. split; [apply answers_agree_refl|done].
Qed.
Lemma simulated_errors {A} op (f : A → Answer) (m : SqlM A) (n : Repo A) db st e e' :
  on_tables op = answer f m → in_memory op = answer f n → m db = (Err e, db) → n st = (Err e', st) →
  errors_agree op e e' → sql_rel db st → wf st → simulated op db st.
Proof.
  intros Hm Hn Em En He Hrel Hwf. unfold simulated. rewrite Hm, Hn, (answer_run _ _ _ _ _ Em).
  do 2 eexists. split; [done|]. left. rewrite (answer_run _ _ _ _ _ En). by do 2 eexists.
Qed.
Lemma simulated_refused {A} op (f : A → Answer) (m : SqlM A) db st r :
  on_tables op = answer f m → m db = (r, db) → names_media op → (∀ x, r ≠ Ok x) → simulated op db st.
Proof.
  intros Hm Em Hn Hr. unfold simulated. rewrite Hm, (answer_run _ _ _ _ _ Em).
  do 2 eexists. split; [done|]. right. split_and!; [done..|]. by destruct r as [a| |]; [destruct (Hr a)|..].
Qed.

Lemma counts_fit_log db st c :
  wf st → sql_rel db st → counts_fit db → (N.of_nat (log_length (messages st) c) < 2 ^ 32)%N.
Proof.
  intros Hwf Hrel [Hf _]. destruct (messages st !! c) as [l|] eqn:Hl.
  - assert (is_Some (channels st !! c)) as Hc by (apply (log_known _ _ _ (wf_log _ Hwf)); left; by rewrite Hl).
    pose proof (Hf _ _ (rel_sequences _ _ Hrel c Hc)) as Hle. simpl in Hle. lia.
  - unfold log_length. rewrite Hl. simpl. lia.
Qed.
Lemma counts_fit_i64 db st c :
  wf st → sql_rel db st → counts_fit db → (Z.of_nat (S (log_length (messages st) c)) ≤ i64_max)%Z.
Proof. intros Hwf Hrel Hf. pose proof (counts_fit_log db st c Hwf Hrel Hf). unfold i64_max. lia. Qed.
Lemma counts_fit_reactions db st :
  sql_rel db st → counts_fit db → (N.of_nat (S (size (message_reactions st))) < 2 ^ 32)%N.
Proof. intros Hrel [_ Hf]. rewrite <-(rel_reactions _ _ Hrel), size_dom. lia. Qed.
Lemma unused_row db st id : sql_rel db st → sq_messages db !! id = None → fresh_message st id.
Proof.
  intros Hrel Hid c i m Hl <-. assert (sq_messages db !! ChatMessage_id m = Some m)
    by (apply (rel_messages _ _ Hrel); eauto). congruence.
Qed.

Section steps.
Context (db : SqlDb) (st : RepositoryState) (Hwf : wf st) (Hrel : sql_rel db st) (Hfit : counts_fit db).

Lemma append_simulated id now cmd :
  sq_messages db !! id = None → simulated (AppendOp id now cmd) db st.
Proof.
  intros Hid. apply (unused_row _ _ _ Hrel) in Hid.
  destruct (append_message_agrees db st Hwf Hrel id now cmd Hid (counts_fit_i64 _ _ _ Hwf Hrel Hfit))
    as [(r & db' & st' & E1 & E2 & Hr)|(m & r & st' & E1 & Href & E2 & Hr)].
  - eapply simulated_same; try done. by eapply append_message_wf.
  - eapply simulated_refused; try done. simpl. apply media_refused_named in Href.
    apply append_message_cases in E1 as [(? & ? & _)|(name & ? & _ & ? & _)]; [..|done]; by simplify_eq.
Qed.
Lemma append_idempotent_simulated agent id now cmd rid :
  sq_messages db !! id = None → plain_request rid →
  simulated (AppendIdempotentOp agent id now cmd rid) db st.
Proof.
  intros Hid Hrid. apply (unused_row _ _ _ Hrel) in Hid.
  destruct (append_idempotent_agrees db st Hwf Hrel agent id now cmd rid Hid
    (counts_fit_i64 _ _ _ Hwf Hrel Hfit) Hrid)
    as [(r & db' & st' & E1 & E2 & Hr)|[(m & E1 & E2)|(m & r & st' & E1 & Href & E2 & Hr)]].
  - eapply simulated_same; try done. by eapply append_message_idempotent_wf.
  - unfold simulated. simpl. rewrite (answer_run _ _ _ _ _ E1), (answer_run _ _ _ _ _ E2).
    do 2 eexists. split; [done|]. left. do 2 eexists. split; [done|]. split; [by right|done].
  - eapply simulated_refused; try done. simpl. apply media_refused_named in Href.
    apply append_message_idempotent_cases in E1
      as [(? & ? & _)|[(? & _ & _ & _ & _ & Hb & ? & _)|(name & _ & _ & _ & ? & _)]]; [..|done];
      simplify_eq; [by rewrite <-Hb|done].
Qed.

Lemma op_simulated op : op_fits db op → simulated op db st.
Proof.
  intros Hop. destruct op; simpl in Hop.
  - destruct (load_recent_agrees db st Hwf Hrel query Hop) as (r & E1 & E2). by eapply simulated_same.
  - destruct (load_message_agrees db st Hrel id) as (r & E1 & E2). by eapply simulated_same.
  - destruct (latest_sequence_agrees db st Hwf Hrel c) as (r & E1 & E2); [|by eapply simulated_same].
    pose proof (counts_fit_i64 db st c Hwf Hrel Hfit). lia.
  - by apply append_simulated.
  - destruct Hop. by apply append_idempotent_simulated.
  - destruct (edit_message_agrees db st Hwf Hrel now cmd) as [(r & db' & st' & E1 & E2 & Hr)|[E1 E2]].
    + eapply simulated_same; try done. by eapply edit_message_wf.
    + eapply simulated_errors; try done. by right.
  - destruct (delete_message_agrees db st Hwf Hrel now cmd) as (r & db' & st' & E1 & E2 & Hr).
    eapply simulated_same; try done. by eapply delete_message_wf.
  - destruct (mark_read_agrees db st Hwf Hrel cmd Hop) as (r & db' & st' & E1 & E2 & Hr).
    eapply simulated_same; try done. by eapply mark_read_wf.
  - destruct (load_thread_agrees db st Hwf Hrel actor root) as [(l & E1 & E2)|(E1 & e & E2 & He)].
    + by eapply simulated_same.
    + eapply simulated_errors; try done. destruct He as [->| ->]; [by left|by right].
  - destruct (list_thread_summaries_agrees db st Hwf Hrel actor c) as (r & E1 & E2);
      [by apply (counts_fit_log db)|by eapply simulated_same].
  - destruct (mark_thread_read_agrees db st Hwf Hrel actor root sequence Hop)
      as [(r & db' & st' & E1 & E2 & Hr)|[E1 E2]]; [intros; by apply (counts_fit_log db)|..].
    + eapply simulated_same; try done. by eapply mark_thread_read_wf.
    + eapply simulated_errors; try done. by right.
  - destruct (list_reactions_agrees db st Hwf Hrel actor c) as [(e & E1 & E2)|(l & l' & E1 & E2 & Hl)].
    + by eapply simulated_same.
    + unfold simulated. simpl. rewrite (answer_run _ _ _ _ _ E1), (answer_run _ _ _ _ _ E2).
      do 2 eexists. split; [done|]. left. do 2 eexists. split; [done|]. done.
  - destruct (toggle_agrees db st Hwf Hrel now actor id emoji) as [(r & db' & st' & E1 & E2 & Hr)|(E1 & e & E2 & He)];
      [by apply (counts_fit_reactions db)|..].
    + eapply simulated_same; try done. by eapply toggle_message_reaction_wf.
    + eapply simulated_errors; try done. by right.
Qed.
End steps.

(** ** Runs *)

Fixpoint run_all {S} (run : MessageOp → ST S RepositoryError Answer) (ops : list MessageOp) (s : S)
    : list (Res RepositoryError Answer) * S :=
  match ops with
  | [] => ([], s)
  | op :: ops => let '(r, s) := run op s in let '(rs, s) := run_all run ops s in (r :: rs, s)
  end.
Fixpoint run_fits (ops : list MessageOp) (db : SqlDb) : Prop :=
  match ops with
  | [] => True
  | op :: ops => counts_fit db ∧ op_fits db op ∧ run_fits ops (on_tables op db).2
  end.

(** The answers of a run of the tables beside a run of the memory that leaves out the
    sends the tables refuse for their media. *)
Inductive runs_agree : list MessageOp → list (Res RepositoryError Answer) →
    list MessageOp → list (Res RepositoryError Answer) → Prop :=
  | agree_nil : runs_agree [] [] [] []
  | agree_op op r r' ops rs ops' rs' :
      answers_agree op r r' → runs_agree ops rs ops' rs' →
      runs_agree (op :: ops) (r :: rs) (op :: ops') (r' :: rs')
  | agree_refused op r ops rs ops' rs' :
      names_media op → (∀ x, r ≠ Ok x) → runs_agree ops rs ops' rs' →
      runs_agree (op :: ops) (r :: rs) ops' rs'.

Lemma run_simulated ops db st :
  wf st → sql_rel db st → run_fits ops db →
  ∃ rs db' ops' rs' st', run_all on_tables ops db = (rs, db') ∧ run_all in_memory ops' st = (rs', st')
    ∧ runs_agree ops rs ops' rs' ∧ sql_rel db' st' ∧ wf st'.
Proof.
  revert db st. induction ops as [|op ops IH]; intros db st Hwf Hrel Hf.
  { exists [], db, [], [], st. split_and!; try done. constructor. }
  destruct Hf as (Hc & Hop & Hf). simpl.
  destruct (op_simulated db st Hwf Hrel Hc op Hop) as (r & db1 & E & Hsim). rewrite E in Hf |- *.
  destruct Hsim as [(r' & st1 & E' & Hag & Hrel1 & Hwf1)|(-> & Hn & Hr)].
  - destruct (IH db1 st1 Hwf1 Hrel1 Hf) as (rs & db' & ops' & rs' & st' & R1 & R2 & Ha & ? & ?).
    rewrite R1. exists (r :: rs), db', (op :: ops'), (r' :: rs'), st'. simpl. rewrite E', R2.
    split_and!; try done. by constructor.
  - destruct (IH db st Hwf Hrel Hf) as (rs & db' & ops' & rs' & st' & R1 & R2 & Ha & ? & ?).
    rewrite R1. exists (r :: rs), db', ops', rs', st'. split_and!; try done. by apply agree_refused.
Qed.
End machine.

(** ** Tables for a state *)

Definition all_messages (st : RepositoryState) : list ChatMessage :=
  mjoin (snd <$> map_to_list (messages st)).
Definition sql_of (media : gmap MediaId (UserId * ChannelId)) (st : RepositoryState) : SqlDb := {|
  sq_users := User_display_name <$> users st;
  sq_channels := channel_row <$> channels st;
  sq_circle_roles := CircleMembership_role <$> circle_memberships st;
  sq_memberships := membership_row <$> memberships st;
  sq_sequences := map_imap (λ c _, Some (Z.of_nat (S (log_length (messages st) c)))) (channels st);
  sq_messages := list_to_map ((λ m, (ChatMessage_id m, m)) <$> all_messages st);
  sq_receipts := Some <$> command_receipts st;
  sq_reactions := set_to_map (λ k, (k, 0%Z)) (message_reactions st);
  sq_thread_markers := thread_read_markers st;
  sq_media := media; sq_attachments := ∅ |}.

Lemma all_messages_logged st m : m ∈ all_messages st ↔ ∃ c i, logged (messages st) c i m.
Proof.
  unfold all_messages, logged. rewrite list_elem_of_join. setoid_rewrite list_elem_of_fmap. split.
  - intros (l & [i Hi]%list_elem_of_lookup_1 & [c l'] & -> & Hl%elem_of_map_to_list).
    exists c, i. by rewrite Hl.
  - intros (c & i & Hl). destruct (messages st !! c) as [l|] eqn:Hc; [|done].
    exists l. split; [by eapply list_elem_of_lookup_2|]. exists (c, l). split; [done|].
    by apply elem_of_map_to_list.
Qed.
Lemma list_to_map_unique {K V} `{Countable K} (l : list (K * V)) k v :
  (∀ v', (k, v') ∈ l → v' = v) → (k, v) ∈ l → list_to_map (M := gmap K V) l !! k = Some v.
Proof.
  induction l as [|[k' v'] l IH]; intros Hu Hin; [by apply not_elem_of_nil in Hin|]. simpl.
  destruct (decide (k' = k)) as [->|Hne].
  - rewrite lookup_insert_eq. f_equal. apply Hu. by left.
  - rewrite lookup_insert_ne by done. apply IH; [intros; apply Hu; by right|].
    apply elem_of_cons in Hin as [?|?]; [by simplify_eq|done].
Qed.
Lemma sql_of_rel media st : wf st → sql_rel (sql_of media st) st.
Proof.
  intros Hwf. split; simpl; try done.
  - intros c [ch Hc]. by rewrite map_lookup_imap, Hc.
  - intros id m. split.
    + intros (x & ? & Hx%all_messages_logged)%elem_of_list_to_map_2%list_elem_of_fmap. by simplify_eq.
    + intros [<- Hl]. apply list_to_map_unique.
      * intros m' (x & [= Hid ->] & (c' & i' & Hl')%all_messages_logged)%list_elem_of_fmap.
        destruct Hl as (c & i & Hl). symmetry in Hid.
        by destruct (log_same _ _ _ _ _ _ _ _ _ (wf_log _ Hwf) Hl' Hl Hid) as (_ & _ & ->).
      * apply list_elem_of_fmap. exists m. split; [done|]. by apply all_messages_logged.
  - apply set_eq. intros k. rewrite elem_of_dom. unfold is_Some. setoid_rewrite lookup_set_to_map; [|done].
    naive_solver.
Qed.

(** ** Attached media *)

Section attachments.
Context `{Unicode, UuidLib}.

(** Messages are stored under their identifier, and every attached medium was uploaded
    by the sender of a stored message, for its channel. *)
Record attached_ok (db : SqlDb) : Prop := {
  rows_keyed id m : sq_messages db !! id = Some m → ChatMessage_id m = id;
  rows_attached media id pos : sq_attachments db !! media = Some (id, pos) →
    ∃ m, sq_messages db !! id = Some m
         ∧ sq_media db !! media = Some (ChatMessage_sender_id m, ChatMessage_channel_id m) }.
Definition attachments_kept (db db' : SqlDb) : Prop :=
  attached_ok db' ∧ sq_attachments db ⊆ sq_attachments db'.

(** Storing a message keeps the sender and channel of an earlier one with its identifier. *)
Lemma kept_rows db db' m :
  attached_ok db → sq_media db' = sq_media db → sq_attachments db' = sq_attachments db →
  sq_messages db' = <[ChatMessage_id m := m]> (sq_messages db) →
  (∀ m0, sq_messages db !! ChatMessage_id m = Some m0 →
     ChatMessage_sender_id m = ChatMessage_sender_id m0
     ∧ ChatMessage_channel_id m = ChatMessage_channel_id m0) → attached_ok db'.
Proof.
  intros Hok Hd Ha Hm Hsame. split.
  - intros id x. rewrite Hm, lookup_insert_Some. intros [[<- <-]|[_ Hx]]; [done|]. by eapply rows_keyed.
  - intros media id pos. rewrite Ha, Hd. intros (x & Hx & Hmed)%(rows_attached _ Hok).
    rewrite Hm. destruct (decide (id = ChatMessage_id m)) as [->|Hne].
    + exists m. rewrite lookup_insert_eq. destruct (Hsame _ Hx) as [-> ->]. done.
    + exists x. by rewrite lookup_insert_ne.
Qed.
Lemma attachments_kept_refl db : attached_ok db → attachments_kept db db.
Proof. by split. Qed.

Lemma attach_all_kept m pos ids db db' u :
  attach_all m pos ids db = (Ok u, db') → sq_messages db !! ChatMessage_id m = Some m →
  attached_ok db → attachments_kept db db'.
Proof.
  revert pos db. induction ids as [|id ids IH]; intros pos db Hr Hm Hok; simpl in Hr; ok_inv Hr.
  { by apply attachments_kept_refl. }
  bool_facts. apply IH in Hr as [Hok' Hsub]; [|done|].
  - split; [done|]. etrans; [|exact Hsub]. simpl. by apply insert_subseteq.
  - split; [apply Hok|]. intros media i p. simpl. rewrite lookup_insert_Some.
    intros [[<- [= <- <-]]|[_ Hl]]; [eauto|by eapply rows_attached].
Qed.
Lemma persist_kept m db db' u :
  persist_attachments m db = (Ok u, db') → sq_messages db !! ChatMessage_id m = Some m →
  attached_ok db → attachments_kept db db'.
Proof. unfold persist_attachments. intros Hr. ok_inv Hr. by eapply attach_all_kept. Qed.
Lemma store_kept id now cmd db m db' :
  store_message id now cmd db = (Ok m, db') → attached_ok db → attachments_kept db db'.
Proof.
  unfold store_message, validate_thread_parent, allocate_sequence, insert_message.
  intros Hr Hok. ok_inv Hr.
  all: bool_facts; match goal with Hp : persist_attachments ?m ?d = _ |- _ =>
    apply persist_kept in Hp; [exact Hp| |] end.
  all: simpl; try by rewrite lookup_insert_eq.
  all: match goal with Hp : persist_attachments ?m _ = _ |- _ =>
    apply (kept_rows _ _ m Hok); [done..|] end.
  all: intros y Hy; simpl in *; congruence.
Qed.

Lemma answer_inv {S E A} (f : A → Answer) (m : ST S E A) s r s' :
  answer f m s = (r, s') → ∃ r', m s = (r', s').
Proof. unfold answer, st_bind, st_ret. destruct (m s) as [[] ?]; intros; simplify_eq; eauto. Qed.
(** Editing and deleting write back a row they found. *)
Lemma kept_write db db' id m0 m :
  sq_messages db !! id = Some m0 → ChatMessage_id m = ChatMessage_id m0 →
  ChatMessage_sender_id m = ChatMessage_sender_id m0 →
  ChatMessage_channel_id m = ChatMessage_channel_id m0 → sq_media db' = sq_media db →
  sq_attachments db' = sq_attachments db →
  sq_messages db' = <[ChatMessage_id m := m]> (sq_messages db) →
  attached_ok db → attachments_kept db db'.
Proof.
  intros Hm Hid Hs Hc Hd Ha Hw Hok. split; [|by rewrite Ha]. apply (kept_rows db db' m); [done..|].
  intros x. rewrite Hid, (rows_keyed _ Hok _ _ Hm). intros. by simplify_eq.
Qed.
Lemma transaction_kept {A} (m : SqlM A) db r db' :
  transaction m db = (r, db') → (∀ a, m db = (Ok a, db') → attachments_kept db db') →
  attached_ok db → attachments_kept db db'.
Proof.
  intros [(a & _ & Hm)|[-> _]]%transaction_inv Hk Hok; [by eapply Hk|by apply attachments_kept_refl].
Qed.

(** The methods that write none of the tables concerned. *)
Lemma kept_tables db d :
  sq_messages d = sq_messages db → sq_media d = sq_media db → sq_attachments d = sq_attachments db →
  attached_ok db → attachments_kept db d.
Proof.
  intros Hm Hd Ha Hok. split; [|by rewrite Ha]. split; rewrite Hm, ?Hd, ?Ha; apply Hok.
Qed.
Lemma reads_kept op db r db' :
  on_tables op db = (r, db') →
  match op with
  | LoadRecentOp _ | LoadMessageOp _ | LatestOp _ | ReadOp _ | ThreadOp _ _ | SummariesOp _ _
  | ReactionsOp _ _ => sq_messages db' = sq_messages db ∧ sq_media db' = sq_media db
                       ∧ sq_attachments db' = sq_attachments db
  | _ => True
  end.
Proof.
  intros Hr. destruct op; try done; simpl in Hr; apply answer_inv in Hr as [r' Hr].
  - unfold sql_load_recent_messages, ensure_membership in Hr. by run_st Hr.
  - by unfold sql_load_message in Hr; st_simpl Hr.
  - by unfold sql_latest_sequence in Hr; st_simpl Hr.
  - by unfold sql_mark_read, load_membership in Hr; run_st Hr.
  - by unfold sql_load_thread in Hr; run_st Hr.
  - unfold sql_list_thread_summaries in Hr. run_st Hr; [|done]. by destruct (res_mapM _ _); simplify_eq.
  - by unfold sql_list_channel_reactions in Hr; run_st Hr.
Qed.

Lemma on_tables_kept op db r db' : on_tables op db = (r, db') → attached_ok db → attachments_kept db db'.
Proof.
  intros Hr Hok. pose proof (reads_kept _ _ _ _ Hr) as Hk.
  destruct op; try (destruct Hk as (? & ? & ?); by apply kept_tables);
    simpl in Hr; apply answer_inv in Hr as [r' Hr].
  - refine (transaction_kept _ _ _ _ Hr _ Hok). intros a Ha. ok_inv Ha. by eapply store_kept.
  - refine (transaction_kept _ _ _ _ Hr _ Hok). unfold set_receipt. intros a Ha.
    ok_inv Ha; try by apply attachments_kept_refl.
    all: match goal with Hs : store_message _ _ _ _ = _ |- _ => apply store_kept in Hs as [[? ?] ?] end;
      [by split; [split|]|by destruct Hok].
  - refine (transaction_kept _ _ _ _ Hr _ Hok). unfold updatable, write_message. intros a Ha. ok_inv Ha.
    match goal with |- context [<[ChatMessage_id ?m := ?m]> (sq_messages s)] =>
      by apply (kept_write _ _ _ _ m E) end.
  - refine (transaction_kept _ _ _ _ Hr _ Hok). unfold updatable, write_message. intros a Ha. ok_inv Ha.
    match goal with |- context [<[ChatMessage_id ?m := ?m]> (sq_messages s)] =>
      by apply (kept_write _ _ _ _ m E) end.
  - refine (transaction_kept _ _ _ _ Hr _ Hok). intros a Ha. ok_inv Ha. by apply kept_tables.
  - unfold sql_toggle_message_reaction in Hr. apply transaction_with_inv in Hr as [Ha|[-> _]]; [|by apply attachments_kept_refl].
    ok_inv Ha. by apply kept_tables.
Qed.
End attachments.

(** ** The theorems *)

Section theorems.
Context `{Unicode, UuidLib, CryptoLib}.

(** C3: within the bounds below, the SQLite tables answer the thirteen message methods as
    the in-memory repository does, in any order of calls. From tables that stand for a
    reachable state, every run of operations has a run of the memory with the same
    answers, after which the tables stand for the memory again.
    The bounds: generated message identifiers are unused; cursors and read positions fit
    an [i64]; throughout the run every channel has fewer than [2^32] messages and there
    are fewer than [2^32] reactions; and the request identifier of an idempotent send has
    1 to 128 characters and is not one of the chatbots', that is, does not begin with
    circle-agent-image:, circle-place-roll: or circle-chat-agent: (SQLite authorizes the
    sends of those by the chatbots' own rules, the memory does not tell them apart).
    The run of the memory leaves out the sends that name media the tables refuse. Answers
    may differ in the order of the users of a reaction, in the edit and deletion times of
    a replayed request, which SQLite leaves out, and in which error is given: an edit
    (PermissionDenied for Conflict), a thread (PermissionDenied for NotFound), a thread
    read position (NotFound for PermissionDenied) and a reaction (PermissionDenied for
    NotFound or Conflict). *)
Theorem sql_messages_refine_memory ops db st :
  reachable st → sql_rel db st → run_fits ops db →
  ∃ rs db' ops' rs' st', run_all on_tables ops db = (rs, db') ∧ run_all in_memory ops' st = (rs', st')
    ∧ runs_agree ops rs ops' rs' ∧ sql_rel db' st'.
Proof.
  intros Hr Hrel Hf. apply reachable_wf in Hr.
  destruct (run_simulated ops db st Hr Hrel Hf) as (rs & db' & ops' & rs' & st' & ? & ? & ? & ? & _).
  by exists rs, db', ops', rs', st'.
Qed.

(** C26: media are attached for good to a message of the user who uploaded them, in the
    channel they were uploaded for: however the message methods are used, no attachment
    is moved or lost, and each belongs to a stored message with that sender and channel. *)
Theorem sql_attachments_owned ops db :
  attached_ok db → attachments_kept db (run_all on_tables ops db).2.
Proof.
  revert db. induction ops as [|op ops IH]; intros db Hok; simpl; [by apply attachments_kept_refl|].
  destruct (on_tables op db) as [r d] eqn:E. apply on_tables_kept in E as [Hok' Hsub]; [|done].
  specialize (IH d Hok') as [Hok'' Hsub']. destruct (run_all on_tables ops d) as [rs d'].
  split; [done|]. by etrans.
Qed.
End theorems.

(** ** Examples *)

#[local] Existing Instances demo_unicode demo_uuid demo_crypto.

Definition demo_photo : MediaId := mk_MediaId 300.
Definition demo_tables : SqlDb := sql_of {[demo_photo := (bob, general)]} demo_state.
Definition photo_body : MessageBody :=
  mk_MessageBody (lit "[[media:" ++ uuid_display 300 ++ lit "|photo]]").
Definition demo_run : list MessageOp := [
  AppendOp (mk_MessageId 200) 9000 (mk_SendMessage carol general (Some hello) photo_body);
  AppendOp (mk_MessageId 201) 9000 (mk_SendMessage bob general (Some hello) photo_body);
  ToggleOp 9100 carol hello (lit "+1") ].

(** Carol may not attach Bob's photo. *)
Example demo_run_answers :
  (λ r, match r with Ok _ => None | Err e => Some e | Panic => None end)
    <$> (run_all on_tables demo_run demo_tables).1 = [Some PermissionDenied; None; None].
Proof. vm_compute. reflexivity. Qed.

Lemma counts_fit_computed db :
  forallb (λ kv, kv.2 <=? 2 ^ 32)%Z (map_to_list (sq_sequences db))
  && (Z.of_nat (S (size (sq_reactions db))) <? 2 ^ 32)%Z = true → counts_fit db.
Proof.
  intros [Hs Hr]%andb_true_iff. rewrite List.forallb_forall in Hs. split; [|lia].
  intros c n Hn%elem_of_map_to_list. apply list_elem_of_In, Hs in Hn. simpl in Hn. lia.
Qed.

Lemma sql_messages_refine_memory_witness :
  ∃ rs db' ops' rs' st', run_all on_tables demo_run demo_tables = (rs, db')
    ∧ run_all in_memory ops' demo_state = (rs', st') ∧ runs_agree demo_run rs ops' rs' ∧ sql_rel db' st'.
Proof.
  apply (sql_messages_refine_memory demo_run demo_tables demo_state).
  - apply demo_reachable.
  - apply sql_of_rel, reachable_wf, demo_reachable.
  - unfold demo_run, run_fits, op_fits. split_and!;
      lazymatch goal with
      | |- True => exact I
      | |- counts_fit _ => apply counts_fit_computed; vm_compute; reflexivity
      | |- _ => vm_compute; reflexivity
      end.
Defined.

Lemma sql_attachments_owned_witness :
  sq_attachments (run_all on_tables demo_run demo_tables).2 !! demo_photo = Some (mk_MessageId 201, 0%N)
  ∧ attachments_kept demo_tables (run_all on_tables demo_run demo_tables).2.
Proof.
  split; [vm_compute; reflexivity|]. apply sql_attachments_owned. split; [|done].
  intros id m Hm. apply (sql_of_rel _ demo_state (reachable_wf _ demo_reachable)) in Hm. apply Hm.
Defined.
