(* ===== verification/WorkItems.v ===== *)
(** * WorkItems: cases, their tasks and what was decided about them

    Models [src/work_items.rs] with [supplements.rs], [status_change.rs] and
    [github_export.rs]. A case is registered from a message and reviewed in tasks of an
    external process engine (Heart), whose answers are arguments. Every query is a
    transaction of its own unless the code opens one; the calls to Heart and GitHub
    lie between transactions. The tables of the channels and the configuration are
    [WorkConfig]. Notification rows are in [Notifications]; the audit table, the users
    and profiles that stand for Heart are not modelled. *)

From Stdlib Require Import ZifyBool.
From stdpp Require Import base tactics numbers strings countable sorting gmap list.
From S2P Require Import Prelude RustStr Text Ids Models RepoState Sql.

(** ** Columns *)

Inductive Version : Type := V1_0_0 | V1_1_0.
Inductive ItemStatus : Type :=
  | Item_new | Item_reviewing | Item_needs_information | Item_planned | Item_in_development
  | Item_resolved | Item_rejected | Item_duplicate.
Inductive StartStatus : Type := Start_pending | Start_leased | Start_started | Start_failed.
Inductive ProcessStatus : Type :=
  | Process_starting | Process_waiting | Process_completed | Process_cancelled | Process_failed.
Inductive TaskStatus : Type := Task_pending | Task_completed | Task_cancelled.
Inductive DeliveryStatus : Type := Delivery_ready | Delivery_pending | Delivery_failed.
Inductive Category : Type := Category_bug | Category_change | Category_question.
Inductive Priority : Type :=
  | Priority_untriaged | Priority_low | Priority_normal | Priority_high | Priority_critical.
Inductive NodeId : Type :=
  | Node_review | Node_provide_information | Node_followup_review | Node_publish_github
  | Node_other (name : str).
Inductive ChangeStatus : Type :=
  | Change_pending | Change_waiting | Change_completed | Change_cancelled | Change_failed.
Inductive ExportStatus : Type :=
  | Export_pending | Export_sending | Export_uncertain | Export_sent | Export_skipped | Export_blocked.
#[export] Instance Version_eq_dec : EqDecision Version.
Proof. solve_decision. Defined.
#[export] Instance ItemStatus_eq_dec : EqDecision ItemStatus.
Proof. solve_decision. Defined.
#[export] Instance StartStatus_eq_dec : EqDecision StartStatus.
Proof. solve_decision. Defined.
#[export] Instance ProcessStatus_eq_dec : EqDecision ProcessStatus.
Proof. solve_decision. Defined.
#[export] Instance TaskStatus_eq_dec : EqDecision TaskStatus.
Proof. solve_decision. Defined.
#[export] Instance DeliveryStatus_eq_dec : EqDecision DeliveryStatus.
Proof. solve_decision. Defined.
#[export] Instance Category_eq_dec : EqDecision Category.
Proof. solve_decision. Defined.
#[export] Instance Priority_eq_dec : EqDecision Priority.
Proof. solve_decision. Defined.
#[export] Instance NodeId_eq_dec : EqDecision NodeId.
Proof. solve_decision. Defined.
#[export] Instance ChangeStatus_eq_dec : EqDecision ChangeStatus.
Proof. solve_decision. Defined.
#[export] Instance ExportStatus_eq_dec : EqDecision ExportStatus.
Proof. solve_decision. Defined.

Definition ItemStatus_as_str (s : ItemStatus) : str :=
  match s with
  | Item_new => lit "new" | Item_reviewing => lit "reviewing"
  | Item_needs_information => lit "needs_information" | Item_planned => lit "planned"
  | Item_in_development => lit "in_development" | Item_resolved => lit "resolved"
  | Item_rejected => lit "rejected" | Item_duplicate => lit "duplicate"
  end.
Definition Category_as_str (c : Category) : str :=
  match c with
  | Category_bug => lit "bug" | Category_change => lit "change" | Category_question => lit "question"
  end.
Definition Priority_as_str (p : Priority) : str :=
  match p with
  | Priority_untriaged => lit "untriaged" | Priority_low => lit "low" | Priority_normal => lit "normal"
  | Priority_high => lit "high" | Priority_critical => lit "critical"
  end.
(** A text as one of the values a column admits. *)
Definition value_of {A} (as_str : A → str) (all : list A) (s : str) : option A :=
  find_first (λ a, bool_decide (as_str a = s)) all.
Definition all_categories : list Category := [Category_bug; Category_change; Category_question].
Definition all_priorities : list Priority :=
  [Priority_untriaged; Priority_low; Priority_normal; Priority_high; Priority_critical].
Definition all_statuses : list ItemStatus :=
  [Item_new; Item_reviewing; Item_needs_information; Item_planned; Item_in_development; Item_resolved;
   Item_rejected; Item_duplicate].

(** ** JSON values, as far as the tasks use them *)

Inductive Scalar : Type := S_null | S_bool (b : bool) | S_number (z : Z) | S_string (s : str) | S_other (n : N).
Inductive Value : Type := V_scalar (s : Scalar) | V_object (fields : gmap str Scalar).
#[export] Instance Scalar_eq_dec : EqDecision Scalar.
Proof. solve_decision. Defined.
#[export] Instance Value_eq_dec : EqDecision Value.
Proof. solve_decision. Defined.
Definition text_or_null (s : option str) : Scalar := from_option S_string S_null s.
(** [value[key]] *)
Definition field (key : str) (v : Value) : Scalar :=
  match v with V_object fields => default S_null (fields !! key) | V_scalar _ => S_null end.
(** [Value::to_string] and [serde_json::from_str]. *)
Class JsonText := {
  json_to_string : Value → str;
  json_from_str : str → option Value;
  json_from_to v : json_from_str (json_to_string v) = Some v }.

(** ** Tables *)

Record WorkItem : Type := mk_WorkItem {
  w_source_channel : ChannelId; w_source_message : MessageId; w_source_body : str;
  w_application : Uuid; w_binding : Uuid; w_binding_revision : Z;
  w_title : str; w_description : str; w_revision : Z; w_status : ItemStatus;
  w_requested_by : UserId; w_request_id : Uuid; w_reviewer : UserId; w_task_channel : ChannelId;
  w_heart_instance : option Uuid; w_start_status : StartStatus; w_start_attempts : Z;
  w_lease_until : option Z; w_available_at : Z; w_created_at : Z;
  w_category : option Category; w_priority : option Priority; w_process_status : ProcessStatus;
  w_sync_lease_until : option Z; w_sync_lease_token : option Uuid; w_version : Version }.
#[export] Instance WorkItem_eta : Eta WorkItem := λ w,
  mk_WorkItem (w_source_channel w) (w_source_message w) (w_source_body w) (w_application w) (w_binding w)
    (w_binding_revision w) (w_title w) (w_description w) (w_revision w) (w_status w) (w_requested_by w)
    (w_request_id w) (w_reviewer w) (w_task_channel w) (w_heart_instance w) (w_start_status w)
    (w_start_attempts w) (w_lease_until w) (w_available_at w) (w_created_at w) (w_category w)
    (w_priority w) (w_process_status w) (w_sync_lease_until w) (w_sync_lease_token w) (w_version w).

Record TaskRow : Type := mk_TaskRow {
  t_item : Uuid; t_message : MessageId; t_channel : ChannelId; t_assignee : UserId; t_node : NodeId;
  t_status : TaskStatus; t_request : option Uuid; t_category : option Category;
  t_priority : option Priority; t_decision : option ItemStatus; t_note : option str;
  t_revision : option Z; t_supplement : option Uuid; t_delivery : DeliveryStatus }.
#[export] Instance TaskRow_eta : Eta TaskRow := λ t,
  mk_TaskRow (t_item t) (t_message t) (t_channel t) (t_assignee t) (t_node t) (t_status t) (t_request t)
    (t_category t) (t_priority t) (t_decision t) (t_note t) (t_revision t) (t_supplement t) (t_delivery t).

Record SupplementRow : Type := mk_SupplementRow {
  s_item : Uuid; s_actor : UserId; s_request : Uuid; s_revision : Z; s_body : str; s_created_at : Z }.

Record ChangeRow : Type := mk_ChangeRow {
  c_item : Uuid; c_actor : UserId; c_channel : ChannelId; c_route : Uuid; c_source_task : Uuid;
  c_source_message : MessageId; c_request : Uuid; c_start_revision : Z; c_heart_instance : option Uuid;
  c_task : option Uuid; c_message : option MessageId; c_status : ChangeStatus; c_lease_until : Z;
  c_lease_token : option Uuid; c_decision_request : option Uuid; c_decision_revision : option Z;
  c_decision_status : option str; c_internal_note : option str; c_public_feedback : option str;
  c_no_change : option bool; c_decision_result : option str; c_created_at : Z }.
#[export] Instance ChangeRow_eta : Eta ChangeRow := λ c,
  mk_ChangeRow (c_item c) (c_actor c) (c_channel c) (c_route c) (c_source_task c) (c_source_message c)
    (c_request c) (c_start_revision c) (c_heart_instance c) (c_task c) (c_message c) (c_status c)
    (c_lease_until c) (c_lease_token c) (c_decision_request c) (c_decision_revision c)
    (c_decision_status c) (c_internal_note c) (c_public_feedback c) (c_no_change c)
    (c_decision_result c) (c_created_at c).

Record HistoryRow : Type := mk_HistoryRow {
  h_change : Uuid; h_item : Uuid; h_revision : Z; h_actor : UserId; h_from : ItemStatus; h_to : ItemStatus;
  h_internal_note : str; h_public_feedback : str; h_created_at : Z }.

Record ProcessRow : Type := mk_ProcessRow {
  x_channel : ChannelId; x_assignee : UserId; x_heart_instance : option Uuid; x_status : ChangeStatus;
  x_lease_until : Z; x_lease_token : option Uuid; x_created_at : Z }.
#[export] Instance ProcessRow_eta : Eta ProcessRow := λ x,
  mk_ProcessRow (x_channel x) (x_assignee x) (x_heart_instance x) (x_status x) (x_lease_until x)
    (x_lease_token x) (x_created_at x).

(** The repository an issue goes to, and the revision of the binding that names it. *)
Record Target : Type := mk_Target {
  g_installation : Z; g_repository_id : Z; g_repository : str; g_bot_login : str; g_revision : Z }.
#[export] Instance Target_eq_dec : EqDecision Target.
Proof. solve_decision. Defined.
Record Issue : Type := mk_Issue { issue_id : Z; issue_number : Z; issue_url : str }.

Record ExportRow : Type := mk_ExportRow {
  e_task : Uuid; e_actor : UserId; e_request : Uuid; e_revision : Z; e_send : bool; e_title : str;
  e_body : str; e_target : option Target; e_marker : str; e_status : ExportStatus; e_issue : option Issue;
  e_lease_until : Z; e_lease_token : option Uuid; e_attempted_at : option Z; e_created_at : Z }.
#[export] Instance ExportRow_eta : Eta ExportRow := λ e,
  mk_ExportRow (e_task e) (e_actor e) (e_request e) (e_revision e) (e_send e) (e_title e) (e_body e)
    (e_target e) (e_marker e) (e_status e) (e_issue e) (e_lease_until e) (e_lease_token e)
    (e_attempted_at e) (e_created_at e).

Record ApplicationRow : Type := mk_ApplicationRow { a_key : str; a_name : str; a_enabled : bool }.
Record BindingRow : Type := mk_BindingRow {
  b_channel : ChannelId; b_process_key : str; b_namespace : str; b_definition_name : str; b_version : str;
  b_enabled : bool; b_revision : Z }.
Record RouteRow : Type := mk_RouteRow {
  r_binding : Uuid; r_channel : ChannelId; r_task_key : str; r_role : str; r_enabled : bool }.
Record ProcessorRow : Type := mk_ProcessorRow { can_review : bool; can_export : bool }.
Record GithubRow : Type := mk_GithubRow {
  gh_target : Target; gh_enabled : bool; gh_export_tasks_enabled : bool }.
Record SourceMessage : Type := mk_SourceMessage {
  m_channel : ChannelId; m_sender : UserId; m_sequence : Z; m_body : str; m_deleted : bool }.

(** What the rest of the service owns. *)
Record WorkConfig : Type := mk_WorkConfig {
  f_members : gmap (ChannelId * UserId) MembershipRole;
  f_users : gmap UserId (PrincipalKind * DisplayName);
  f_channels : gmap ChannelId DisplayName;
  f_messages : gmap MessageId SourceMessage;
  f_sequences : gmap ChannelId Z;
  f_applications : gmap Uuid ApplicationRow;
  f_bindings : gmap Uuid BindingRow;
  f_binding_applications : gset (Uuid * Uuid);
  f_routes : gmap Uuid RouteRow;
  f_processors : gmap (Uuid * UserId) ProcessorRow;
  f_roles : gset (Uuid * UserId * str);
  f_github : gmap Uuid GithubRow }.
#[export] Instance WorkConfig_eta : Eta WorkConfig := λ f,
  mk_WorkConfig (f_members f) (f_users f) (f_channels f) (f_messages f) (f_sequences f) (f_applications f)
    (f_bindings f) (f_binding_applications f) (f_routes f) (f_processors f) (f_roles f) (f_github f).

Record WorkDb : Type := mk_WorkDb {
  wi_config : WorkConfig;
  wi_items : gmap Uuid WorkItem;
  wi_tasks : gmap Uuid TaskRow;
  wi_supplements : gmap Uuid SupplementRow;
  wi_changes : gmap Uuid ChangeRow;
  wi_history : gmap Uuid HistoryRow;
  wi_publications : gmap Uuid (MessageId * ChannelId);
  wi_processes : gmap Uuid ProcessRow;
  wi_exports : gmap Uuid ExportRow }.
#[export] Instance WorkDb_eta : Eta WorkDb := λ d,
  mk_WorkDb (wi_config d) (wi_items d) (wi_tasks d) (wi_supplements d) (wi_changes d) (wi_history d)
    (wi_publications d) (wi_processes d) (wi_exports d).

(** [WorkItems]: what is configured. *)
Record Service : Type := mk_Service {
  heart : bool; github : bool; supplements_enabled : bool }.

Abbreviation WorkM := (ST WorkDb RepositoryError).

(** ** Rights *)

(** [role <> 'observer'] *)
Definition participates (f : WorkConfig) (c : ChannelId) (u : UserId) : bool :=
  match f_members f !! (c, u) with
  | Some role => bool_decide (role ≠ MembershipRole_Observer)
  | None => false
  end.
Definition belongs (f : WorkConfig) (c : ChannelId) (u : UserId) : bool := contains_key (c, u) (f_members f).
(** [application_processors] with [application_process_roles] *)
Definition product_handler (f : WorkConfig) (application : Uuid) (u : UserId) : bool :=
  from_option can_review false (f_processors f !! (application, u))
  && bool_decide ((application, u, lit "product-handler") ∈ f_roles f).
Definition application_enabled (f : WorkConfig) (application : Uuid) : bool :=
  from_option a_enabled false (f_applications f !! application).

Definition member (actor : UserId) (c : ChannelId) : WorkM unit :=
  let! db := get in ensure (participates (wi_config db) c actor) PermissionDenied.

Definition reviewing_node (n : NodeId) : bool :=
  bool_decide (n ∈ [Node_review; Node_followup_review; Node_publish_github]).
(** The assignee of a task may still work on it. *)
Definition assigned_allowed (f : WorkConfig) (w : WorkItem) (t : TaskRow) : bool :=
  participates f (t_channel t) (t_assignee t)
  && (bool_decide (t_node t = Node_provide_information) && bool_decide (t_assignee t = w_requested_by w)
      && bool_decide (t_channel t = w_source_channel w)
      || reviewing_node (t_node t) && bool_decide (t_assignee t = w_reviewer w)
         && bool_decide (t_channel t = w_task_channel w)
         && product_handler f (w_application w) (t_assignee t)).

Definition route_for (task_key : str) (binding : Uuid) (r : RouteRow) : bool :=
  bool_decide (r_binding r = binding) && bool_decide (r_task_key r = task_key)
  && bool_decide (r_role r = lit "product-handler") && r_enabled r.

(** ** Registering a case *)

Record Registration : Type := mk_Registration {
  reg_source_message_id : MessageId; reg_application_id : Uuid; reg_title : str; reg_description : str;
  reg_request_id : Uuid; reg_expected_source_body : str }.

Record WorkItemView : Type := mk_WorkItemView {
  view_id : Uuid; view_source_message_id : MessageId; view_application_id : Uuid; view_title : str;
  view_description : str; view_status : ItemStatus; view_start_status : StartStatus;
  view_heart_instance_id : option Uuid }.
Definition work_item_view (id : Uuid) (w : WorkItem) : WorkItemView := {|
  view_id := id; view_source_message_id := w_source_message w; view_application_id := w_application w;
  view_title := w_title w; view_description := w_description w; view_status := w_status w;
  view_start_status := w_start_status w; view_heart_instance_id := w_heart_instance w |}.

Definition is_empty (s : str) : bool := bool_decide (s = []).
Definition registration_valid (command : Registration) : bool :=
  negb (is_empty (trim (reg_title command)) || (160 <? N.of_nat (length (reg_title command)))%N
        || any is_control (reg_title command) || is_empty (trim (reg_description command))
        || (8000 <? N.of_nat (length (reg_description command)))%N
        || (65536 <? len (reg_expected_source_body command))%N).

Definition version_of (s : str) : option Version :=
  if bool_decide (s = lit "1.0.0") then Some V1_0_0
  else if bool_decide (s = lit "1.1.0") then Some V1_1_0 else None.

(** The rows of the policy query, before [order by p.user_id]. *)
Record PolicyRow : Type := mk_PolicyRow {
  p_binding : Uuid; p_revision : Z; p_version : Version; p_task_channel : ChannelId; p_reviewer : UserId }.
Definition binding_version (c : ChannelId) (b : BindingRow) : option Version :=
  if bool_decide (b_channel b = c) && bool_decide (b_process_key b = lit "work-item")
     && bool_decide (b_namespace b = lit "sproyt") && bool_decide (b_definition_name b = lit "work-item-review")
     && b_enabled b
  then version_of (b_version b) else None.
Definition policy_rows (f : WorkConfig) (c : ChannelId) (application : Uuid) : list PolicyRow :=
  '(binding, b) ← map_to_list (f_bindings f);
  '(_, r) ← map_to_list (f_routes f);
  '((a, u), p) ← map_to_list (f_processors f);
  match binding_version c b with
  | Some version =>
      if bool_decide ((binding, application) ∈ f_binding_applications f) && application_enabled f application
         && route_for (lit "review") binding r && bool_decide (a = application)
         && product_handler f application u && participates f (r_channel r) u
      then [mk_PolicyRow binding (b_revision b) version (r_channel r) u] else []
  | None => []
  end.

(** [select m.body .. where u.kind='human' and m.deleted_at is null] *)
Definition source_body (f : WorkConfig) (c : ChannelId) (m : MessageId) : option str :=
  row ← f_messages f !! m;
  sender ← f_users f !! m_sender row;
  if bool_decide (m_channel row = c) && negb (m_deleted row) && bool_decide (sender.1 = Human)
  then Some (m_body row) else None.

Definition new_item (now : Z) (actor : UserId) (c : ChannelId) (body : str) (p : PolicyRow)
    (command : Registration) : WorkItem := {|
  w_source_channel := c; w_source_message := reg_source_message_id command; w_source_body := body;
  w_application := reg_application_id command; w_binding := p_binding p;
  w_binding_revision := p_revision p; w_title := trim (reg_title command);
  w_description := trim (reg_description command); w_revision := 1; w_status := Item_new;
  w_requested_by := actor; w_request_id := reg_request_id command; w_reviewer := p_reviewer p;
  w_task_channel := p_task_channel p; w_heart_instance := None; w_start_status := Start_pending;
  w_start_attempts := 0; w_lease_until := None; w_available_at := now; w_created_at := now;
  w_category := None; w_priority := None; w_process_status := Process_starting;
  w_sync_lease_until := None; w_sync_lease_token := None; w_version := p_version p |}.

Definition same_registration (c : ChannelId) (command : Registration) (w : WorkItem) : bool :=
  bool_decide (w_source_channel w = c)
  && bool_decide (w_source_message w = reg_source_message_id command)
  && bool_decide (w_application w = reg_application_id command)
  && bool_decide (w_source_body w = reg_expected_source_body command)
  && bool_decide (w_title w = trim (reg_title command))
  && bool_decide (w_description w = trim (reg_description command)).
Definition requested (actor : UserId) (request : Uuid) (_ : Uuid) (w : WorkItem) : bool :=
  bool_decide (w_requested_by w = actor) && bool_decide (w_request_id w = request).

Definition register (id : Uuid) (now : Z) (actor : UserId) (c : ChannelId) (command : Registration)
    : WorkM WorkItemView :=
  ensure (registration_valid command) Conflict;;;
  member actor c;;;
  transaction (
    let! db := get in
    match fetch_where (requested actor (reg_request_id command)) (wi_items db) with
    | Some (existing, w) =>
        ensure (same_registration c command w) Conflict;;;
        st_ret (work_item_view existing w)
    | None =>
        let f := wi_config db in
        let rows := sort_by_key UserId_le p_reviewer (policy_rows f c (reg_application_id command)) in
        let! policy := st_lift (ok_or (head rows) PermissionDenied) in
        let! body := st_lift (ok_or (source_body f c (reg_source_message_id command)) NotFound) in
        ensure (bool_decide (body = reg_expected_source_body command)) Conflict;;;
        ensure (negb (contains_key id (wi_items db))) (Storage []);;;
        let w := new_item now actor c body policy command in
        put (db <| wi_items := <[id := w]> (wi_items db) |>);;;
        st_ret (work_item_view id w)
    end).

(** [applications]: what can be chosen in a channel, [distinct .. order by name, id]. *)
Record WorkApplication : Type := mk_WorkApplication { app_id : Uuid; app_key : str; app_name : str }.
Definition application_cmp (a b : WorkApplication) : comparison :=
  then_with (str_cmp (app_name a) (app_name b)) (app_id a ?= app_id b)%N.
Definition applications (actor : UserId) (c : ChannelId) : WorkM (list WorkApplication) :=
  member actor c;;;
  let! db := get in
  let f := wi_config db in
  st_ret (sort_by application_cmp (
    '(id, a) ← map_to_list (f_applications f);
    if bool_decide (policy_rows f c id ≠ []) then [mk_WorkApplication id (a_key a) (a_name a)] else [])).

(** [draft]: a title for a case, from a language model whose answer is an argument. *)
Record Draft : Type := mk_Draft { dr_source_body : str; dr_title : str; dr_suggested_by_model : bool }.
(** [str::contains] and [str::trim_matches] with a character. *)
Fixpoint contains (s p : str) : bool :=
  starts_with s p || match s with [] => false | _ :: s => contains s p end.
Fixpoint drop_char (c : char) (s : str) : str :=
  match s with d :: s' => if (d =? c)%N then drop_char c s' else s | [] => [] end.
Definition trim_matches (c : char) (s : str) : str := reverse (drop_char c (reverse (drop_char c s))).
Definition suggested_title (content : str) : option str :=
  let title := trim_matches 34 (trim content) in
  if is_empty title || (100 <? N.of_nat (length title))%N || contains title [10%N] || contains title (lit "[[")
  then None else Some title.
Fixpoint join_words (words : list str) : str :=
  match words with [] => [] | [w] => w | w :: words => w ++ lit " " ++ join_words words end.
Definition fallback_title (body : str) : str := take 100 (join_words (take 10 (split_whitespace body))).
Definition draft (content : option str) (actor : UserId) (c : ChannelId) (m : MessageId) : WorkM Draft :=
  member actor c;;;
  let! db := get in
  let f := wi_config db in
  ensure (bool_decide (rows_where (λ _ b, bool_decide (b_channel b = c)
    && bool_decide (b_process_key b = lit "work-item") && b_enabled b) (f_bindings f) ≠ ∅)) NotFound;;;
  let! body := st_lift (ok_or (source_body f c m) NotFound) in
  let suggested := content ≫= suggested_title in
  st_ret (mk_Draft body (default (fallback_title body) suggested) (bool_decide (is_Some suggested))).

(** ** Starting the process *)

Definition startable (now : Z) (w : WorkItem) : bool :=
  (bool_decide (w_start_status w = Start_pending)
   || bool_decide (w_start_status w = Start_leased)
      && match w_lease_until w with Some until => (until <? now)%Z | None => false end)
  && (w_available_at w <=? now)%Z.

Definition by_age (a b : Uuid * WorkItem) : comparison :=
  then_with (w_created_at a.2 ?= w_created_at b.2)%Z (a.1 ?= b.1)%N.
(** The ids [tick] starts. *)
Definition startable_items (now : Z) (db : WorkDb) : list Uuid :=
  fst <$> take 10 (sort_by by_age (map_to_list (rows_where (λ _ w, startable now w) (wi_items db)))).

Definition update_item (id : Uuid) (p : WorkItem → bool) (f : WorkItem → WorkItem) : WorkM bool :=
  let! db := get in
  match wi_items db !! id with
  | Some w => if p w then put (db <| wi_items := <[id := f w]> (wi_items db) |>);;; st_ret true
              else st_ret false
  | None => st_ret false
  end.

(** The two updates of [start_one]; the lease is the time it ends. *)
Definition start_claim (id : Uuid) (now : Z) : WorkM bool :=
  update_item id (startable now) (λ w,
    w <| w_start_status := Start_leased |> <| w_lease_until := Some (now + 90)%Z |>
      <| w_start_attempts := (w_start_attempts w + 1)%Z |>).
(** [heart_instance_id] is unique. *)
Definition instance_free (id : Uuid) (instance : option Uuid) (db : WorkDb) : bool :=
  match instance with
  | Some _ => bool_decide (rows_where (λ k w, bool_decide (k ≠ id)
                                              && bool_decide (w_heart_instance w = instance)) (wi_items db) = ∅)
  | None => true
  end.
Definition start_settle (id : Uuid) (now : Z) (outcome : option Uuid) : WorkM bool :=
  let! db := get in
  ensure (instance_free id outcome db) (Storage []);;;
  let started := bool_decide (is_Some outcome) in
  update_item id (λ w, bool_decide (w_start_status w = Start_leased)
                       && bool_decide (w_lease_until w = Some (now + 90)%Z)) (λ w,
    w <| w_start_status := if started then Start_started else Start_pending |>
      <| w_heart_instance := outcome |>
      <| w_available_at := if started then now else (now + 30)%Z |>
      <| w_lease_until := None |>).

(** ** Following the process *)

Record HeartTask : Type := mk_HeartTask {
  ht_id : Uuid; ht_instance : Uuid; ht_node : NodeId; ht_assignee : UserId; ht_status : option TaskStatus;
  ht_result : option Value }.
(** The answer about an instance; a field that is no text or no identifier is [None]. *)
Record HeartInstance : Type := mk_HeartInstance {
  hi_id : option Uuid; hi_namespace : str; hi_runtime : str; hi_work_item : option Uuid;
  hi_reviewer : option UserId; hi_application : option Uuid; hi_requester : option UserId;
  hi_task_channel : option ChannelId; hi_change : option Uuid; hi_handler : option UserId; hi_status : str }.

Definition completion_result `{JsonText} (node : NodeId) (category : option Category)
    (priority : option Priority) (status : option ItemStatus) (note : option str) : Value :=
  match node with
  | Node_publish_github => default (V_scalar S_null) (note ≫= json_from_str)
  | Node_provide_information => V_object {[lit "information" := S_string (default [] note)]}
  | _ => V_object (<[lit "category" := text_or_null (Category_as_str <$> category)]>
                  (<[lit "priority" := text_or_null (Priority_as_str <$> priority)]>
                  (<[lit "status" := text_or_null (ItemStatus_as_str <$> status)]>
                   {[lit "question" := S_string (default [] note)]})))
  end.

Definition syncing (w : WorkItem) : bool :=
  bool_decide (w_start_status w = Start_started)
  && bool_decide (w_process_status w ∈ [Process_starting; Process_waiting]).
Definition sync_free (now : Z) (w : WorkItem) : bool :=
  syncing w && (default 0%Z (w_sync_lease_until w) <? now)%Z.
Definition sync_cmp (a b : Uuid * WorkItem) : comparison :=
  then_with (default 0%Z (w_sync_lease_until a.2) ?= default 0%Z (w_sync_lease_until b.2))%Z (by_age a b).
(** The ids [sync_tasks] visits. *)
Definition sync_items (now : Z) (db : WorkDb) : list Uuid :=
  fst <$> take 10 (sort_by sync_cmp (map_to_list (rows_where (λ _ w, sync_free now w) (wi_items db)))).

Definition sync_claim (id : Uuid) (now : Z) (token : Uuid) : WorkM bool :=
  update_item id (sync_free now) (λ w,
    w <| w_sync_lease_until := Some (now + 90)%Z |> <| w_sync_lease_token := Some token |>).
Definition holds_sync (token : Uuid) (w : WorkItem) : bool :=
  bool_decide (w_sync_lease_token w = Some token).
Definition sync_release (id : Uuid) (next : Z) (token : Uuid) : WorkM bool :=
  update_item id (holds_sync token) (λ w,
    w <| w_sync_lease_until := Some next |> <| w_sync_lease_token := None |>).

(** What [reconcile] sends to Heart: the decisions that Heart has not confirmed. *)
Record HeartCompletion : Type := mk_HeartCompletion {
  hc_id : Uuid; hc_request : Uuid; hc_actor : UserId; hc_result : Value }.
Definition without_question (v : Value) : Value :=
  match v with V_object fields => V_object (delete (lit "question") fields) | V_scalar _ => v end.
Definition heart_completions `{JsonText} (item : Uuid) (db : WorkDb) : list HeartCompletion :=
  '(id, t) ← map_to_list (wi_tasks db);
  match t_request t, wi_items db !! item with
  | Some request, Some w =>
      if bool_decide (t_item t = item) && bool_decide (t_node t ≠ Node_publish_github)
         && bool_decide (t_status t = Task_pending)
      then let result := completion_result (t_node t) (t_category t) (t_priority t) (t_decision t) (t_note t) in
           [mk_HeartCompletion id request (t_assignee t)
              (if bool_decide (w_version w = V1_0_0) then without_question result else result)]
      else []
  | _, _ => []
  end.

Definition process_state (status : str) : option ProcessStatus :=
  if bool_decide (status = lit "running") || bool_decide (status = lit "waiting") then Some Process_waiting
  else if bool_decide (status = lit "completed") then Some Process_completed
  else if bool_decide (status = lit "cancelled") then Some Process_cancelled
  else if bool_decide (status = lit "failed") then Some Process_failed else None.

(** The checks of [reconcile] on what Heart answers, and the tasks in the order of the nodes. *)
Definition instance_expected (id : Uuid) (w : WorkItem) (view : HeartInstance) : bool :=
  bool_decide (hi_id view = w_heart_instance w) && bool_decide (hi_namespace view = lit "sproyt")
  && bool_decide (hi_runtime view = lit "v2") && bool_decide (hi_work_item view = Some id)
  && bool_decide (hi_reviewer view = Some (w_reviewer w))
  && bool_decide (hi_application view = Some (w_application w))
  && (bool_decide (w_version w ≠ V1_1_0) || bool_decide (hi_requester view = Some (w_requested_by w))).
Definition task_expected (w : WorkItem) (task : HeartTask) : bool :=
  bool_decide (Some (ht_instance task) = w_heart_instance w)
  && match ht_node task with
     | Node_review => bool_decide (ht_assignee task = w_reviewer w)
     | Node_provide_information =>
         bool_decide (w_version w = V1_1_0) && bool_decide (ht_assignee task = w_requested_by w)
     | Node_followup_review => bool_decide (w_version w = V1_1_0) && bool_decide (ht_assignee task = w_reviewer w)
     | _ => false
     end
  && bool_decide (is_Some (ht_status task)).
Definition node_rank (n : NodeId) : nat :=
  match n with Node_review => 0 | Node_provide_information => 1 | _ => 2 end.
Definition has_status (s : TaskStatus) (task : HeartTask) : bool := bool_decide (ht_status task = Some s).
Definition check_heart (id : Uuid) (w : WorkItem) (view : HeartInstance) (tasks : list HeartTask)
    : Res RepositoryError (list HeartTask * ProcessStatus) :=
  if negb (instance_expected id w view) then Err Conflict else
  let? state := ok_or (process_state (hi_status view)) Conflict in
  let informed := bool_decide (w_version w = V1_1_0) in
  let completed := bool_decide (state = Process_completed) in
  if ((if informed then 3 else 1) <? length tasks)%nat
     || completed && (bool_decide (length tasks = 0) || any (λ t, negb (has_status Task_completed t)) tasks)
     || (1 <? length (List.filter (has_status Task_pending) tasks))%nat
     || negb (bool_decide (NoDup (ht_node <$> tasks)))
     || any (λ t, negb (task_expected w t)) tasks then Err Conflict else
  let? _ :=
    if informed && completed then
      let? review := ok_or (find_first (λ t, bool_decide (ht_node t = Node_review)) tasks) Conflict in
      let needs_information :=
        from_option (λ v, bool_decide (field (lit "status") v = S_string (lit "needs_information"))) false
          (ht_result review) in
      if bool_decide (length tasks = if needs_information then 3 else 1) then Ok tt else Err Conflict
    else Ok tt in
  Ok (sort_by_key le (λ t, node_rank (ht_node t)) tasks, state).

Definition update_task (id : Uuid) (f : TaskRow → TaskRow) (db : WorkDb) : WorkDb :=
  db <| wi_tasks := alter f id (wi_tasks db) |>.
Definition alter_item (id : Uuid) (f : WorkItem → WorkItem) (db : WorkDb) : WorkDb :=
  db <| wi_items := alter f id (wi_items db) |>.

(** The worker still holds its lease, and the task belongs where it is shown. *)
Definition may_project (db : WorkDb) (item token : Uuid) (c : ChannelId) (task : HeartTask) : bool :=
  match ht_node task with
  | Node_publish_github =>
      match wi_processes db !! item with
      | Some x => bool_decide (x_lease_token x = Some token) && bool_decide (x_channel x = c)
                  && bool_decide (x_assignee x = ht_assignee task) && bool_decide (x_status x = Change_waiting)
      | None => false
      end
  | node =>
      match wi_items db !! item with
      | Some w =>
          holds_sync token w
          && (bool_decide (node = Node_provide_information) && bool_decide (w_source_channel w = c)
              && bool_decide (w_requested_by w = ht_assignee task) && bool_decide (w_version w = V1_1_0)
              || bool_decide (node ∈ [Node_review; Node_followup_review])
                 && bool_decide (w_task_channel w = c) && bool_decide (w_reviewer w = ht_assignee task)
                 && (bool_decide (node = Node_review) || bool_decide (w_version w = V1_1_0)))
      | None => false
      end
  end.

(** [insert into messages] by Heart, with the next sequence of the channel. *)
Definition uuid_NAMESPACE_OID : Uuid := 0x6ba7b8129dad11d180b400c04fd430c8%N.
Definition heart_user `{UuidLib} (item : Uuid) : UserId :=
  mk_UserId (uuid_new_v5 uuid_NAMESPACE_OID (lit "sproyt-work-item:" ++ uuid_display item)).
Definition post_message `{UuidLib} (message : MessageId) (item : Uuid) (c : ChannelId) (body : str)
    : WorkM unit :=
  let! db := get in
  let f := wi_config db in
  let! next := st_lift (ok_or (f_sequences f !! c) (Storage [])) in
  ensure (negb (contains_key message (f_messages f))) (Storage []);;;
  put (db <| wi_config := f <| f_sequences := <[c := (next + 1)%Z]> (f_sequences f) |>
                            <| f_messages := <[message := mk_SourceMessage c (heart_user item) next body false]>
                                               (f_messages f) |> |>).
Definition task_body `{UuidLib} (task : Uuid) : str := lit "[[work-item-task:" ++ uuid_display task ++ lit "]]".

(** A task Heart reports again. *)
Definition confirm_task `{JsonText} (item : Uuid) (version : Version) (task : HeartTask) (t : TaskRow)
    : WorkM unit :=
  let! status := st_lift (ok_or (ht_status task) (Storage [])) in
  ensure (bool_decide (t_status t = Task_pending) || bool_decide (status = t_status t)) Conflict;;;
  let completed := bool_decide (status = Task_completed) in
  let checked := bool_decide (version = V1_1_0) || bool_decide (ht_node task = Node_publish_github) in
  ensure (negb (completed && checked)
          || bool_decide (is_Some (t_request t))
             && bool_decide (ht_result task = Some (completion_result (ht_node task) (t_category t)
                               (t_priority t) (t_decision t) (t_note t)))) Conflict;;;
  modify (update_task (ht_id task) (λ t,
    t <| t_status := status |> <| t_delivery := if completed then Delivery_ready else t_delivery t |>));;;
  if completed then
    match t_category t, t_priority t, t_decision t with
    | Some category, Some priority, Some decision =>
        modify (alter_item item (λ w, w <| w_category := Some category |> <| w_priority := Some priority |>
                                        <| w_status := decision |>))
    | _, _, _ =>
        if bool_decide (ht_node task = Node_provide_information)
        then modify (alter_item item (λ w, w <| w_status := Item_reviewing |>)) else st_ret tt
    end
  else st_ret tt.

(** The task before this one is done. *)
Definition preceded (db : WorkDb) (item : Uuid) (node : NodeId) : bool :=
  let done previous p := bool_decide (rows_where (λ _ t, bool_decide (t_item t = item)
    && bool_decide (t_node t = previous) && bool_decide (t_status t = Task_completed) && p t) (wi_tasks db) ≠ ∅) in
  match node with
  | Node_provide_information => done Node_review (λ t, bool_decide (t_decision t = Some Item_needs_information))
  | Node_followup_review => done Node_provide_information (λ _, true)
  | _ => true
  end.

(** A task Heart reports for the first time becomes a message. *)
Definition show_task `{UuidLib} (message : MessageId) (item : Uuid) (version : Version) (c : ChannelId)
    (task : HeartTask) : WorkM unit :=
  let! status := st_lift (ok_or (ht_status task) (Storage [])) in
  let checked := bool_decide (version = V1_1_0) || bool_decide (ht_node task = Node_publish_github) in
  ensure (negb (checked && bool_decide (status = Task_completed))) Conflict;;;
  let! db := get in
  ensure (preceded db item (ht_node task)) Conflict;;;
  post_message message item c (task_body (ht_id task));;;
  (* the keys of the table *)
  ensure (negb (contains_key (ht_id task) (wi_tasks db))
          && bool_decide (rows_where (λ _ t, bool_decide (t_message t = message)
                            || bool_decide (t_item t = item) && bool_decide (t_node t = ht_node task))
                            (wi_tasks db) = ∅)) (Storage []);;;
  modify (λ db, db <| wi_tasks := <[ht_id task := {|
    t_item := item; t_message := message; t_channel := c; t_assignee := ht_assignee task;
    t_node := ht_node task; t_status := status; t_request := None; t_category := None; t_priority := None;
    t_decision := None; t_note := None; t_revision := None; t_supplement := None;
    t_delivery := Delivery_ready |}]> (wi_tasks db) |>).

Definition project `{JsonText, UuidLib} (message : MessageId) (item token : Uuid) (c : ChannelId)
    (task : HeartTask) : WorkM (option MessageId) :=
  transaction (
    let! db := get in
    ensure (may_project db item token c task) Conflict;;;
    let! w := st_lift (ok_or (wi_items db !! item) (Storage [])) in
    match wi_tasks db !! ht_id task with
    | Some t =>
        if bool_decide (t_item t = item)
        then confirm_task item (w_version w) task t;;; st_ret None
        else show_task message item (w_version w) c task;;; st_ret (Some message)
    | None => show_task message item (w_version w) c task;;; st_ret (Some message)
    end).

(** The channel a task of the review is shown in. *)
Definition task_channel_of (w : WorkItem) (task : HeartTask) : ChannelId :=
  if bool_decide (ht_node task = Node_provide_information) then w_source_channel w else w_task_channel w.

(** The last updates of [reconcile]. *)
Definition sync_finish (id : Uuid) (state : ProcessStatus) (token : Uuid) : WorkM bool :=
  update_item id (holds_sync token) (λ w, w <| w_process_status := state |>).
Definition fail_deliveries (item : Uuid) : WorkM unit :=
  modify (λ db, db <| wi_tasks := update_where (λ _ t, bool_decide (t_item t = item)
    && bool_decide (t_status t = Task_pending) && bool_decide (is_Some (t_request t)))
    (λ t, t <| t_delivery := Delivery_failed |>) (wi_tasks db) |>).

(** ** Supplements *)

Record SupplementCommand : Type := mk_SupplementCommand {
  sc_source_message_id : MessageId; sc_request_id : Uuid; sc_expected_revision : Z; sc_body : str }.

Definition supplements_of (item : Uuid) (db : WorkDb) : list (Uuid * SupplementRow) :=
  sort_by_key Z.le (λ kv, s_revision kv.2) (map_to_list (rows_where (λ _ s, bool_decide (s_item s = item))
    (wi_supplements db))).
(** [order by expected_revision desc limit 1] *)
Definition latest_supplement (item : Uuid) (db : WorkDb) : option Uuid :=
  fst <$> last (supplements_of item db).

(** [OPEN_REVIEW] *)
Definition open_review (db : WorkDb) (id : Uuid) (w : WorkItem) : bool :=
  bool_decide (w_process_status w = Process_waiting) && bool_decide (w_status w ∈ [Item_new; Item_reviewing])
  && bool_decide (rows_where (λ _ t, bool_decide (t_item t = id)
       && bool_decide (t_node t ∈ [Node_review; Node_followup_review])
       && bool_decide (t_status t = Task_pending) && bool_decide (t_delivery t = Delivery_ready)
       && bool_decide (t_request t = None)) (wi_tasks db) ≠ ∅)
  && (length (supplements_of id db) <? 100)%nat.

(** A supplement as it is shown. *)
Record Supplement : Type := mk_Supplement {
  su_id : Uuid; su_actor_name : DisplayName; su_body : str; su_created_at : Z }.
(** What a member of the source channel sees of a case. *)
Record SourceWorkItem : Type := mk_SourceWorkItem {
  si_id : Uuid; si_source_message_id : MessageId; si_revision : Z; si_title : str; si_description : str; si_application_name : str;
  si_status : ItemStatus; si_can_supplement : bool; si_supplements : list Supplement }.

Inductive SupplementScope : Type :=
  | Scope_source (c : ChannelId) (m : MessageId)
  | Scope_task (id : Uuid) (m : MessageId)
  | Scope_status_task (id : Uuid) (m : MessageId).
Definition scope_allows (db : WorkDb) (actor : UserId) (item : Uuid) (scope : SupplementScope) : bool :=
  match scope with
  | Scope_source c m =>
      match wi_items db !! item with
      | Some w => bool_decide (w_source_channel w = c) && bool_decide (w_source_message w = m)
                  && belongs (wi_config db) c actor
      | None => false
      end
  | Scope_task id m =>
      match wi_tasks db !! id with
      | Some t => bool_decide (t_item t = item) && bool_decide (t_message t = m)
                  && belongs (wi_config db) (t_channel t) actor
      | None => false
      end
  | Scope_status_task id m =>
      bool_decide (rows_where (λ _ c, bool_decide (c_item c = item) && bool_decide (c_task c = Some id)
        && bool_decide (c_message c = Some m) && belongs (wi_config db) (c_channel c) actor) (wi_changes db) ≠ ∅)
  end.
Definition supplements (db : WorkDb) (actor : UserId) (item : Uuid) (scope : SupplementScope)
    : list Supplement :=
  if scope_allows db actor item scope then
    take 100 ('(id, s) ← supplements_of item db;
      match f_users (wi_config db) !! s_actor s with
      | Some (_, name) => [mk_Supplement id name (s_body s) (s_created_at s)]
      | None => []
      end)
  else [].

Definition source_cmp (a b : Uuid * WorkItem) : comparison :=
  then_with (w_created_at b.2 ?= w_created_at a.2)%Z (a.1 ?= b.1)%N.
Definition read_source_items (self : Service) (actor : UserId) (c : ChannelId) (m : MessageId)
    (item : option Uuid) : WorkM (list SourceWorkItem) :=
  let! db := get in
  let f := wi_config db in
  ensure (match f_messages f !! m with
          | Some row => bool_decide (m_channel row = c) && belongs f c actor
          | None => false
          end) NotFound;;;
  st_ret (
    '(id, w) ← take 100 (sort_by source_cmp (map_to_list (rows_where (λ k w,
        bool_decide (w_source_channel w = c) && bool_decide (w_source_message w = m)
        && contains_key (w_application w) (f_applications f)
        && from_option (λ i, bool_decide (i = k)) true item) (wi_items db))));
    [{| si_id := id; si_source_message_id := m; si_revision := w_revision w; si_title := w_title w; si_description := w_description w;
        si_application_name := from_option a_name [] (f_applications f !! w_application w);
        si_status := w_status w;
        si_can_supplement := supplements_enabled self && bool_decide (w_requested_by w = actor)
                             && participates f c actor && open_review db id w;
        si_supplements := supplements db actor id (Scope_source c m) |}]).
Definition source_items (self : Service) (actor : UserId) (c : ChannelId) (m : MessageId)
    : WorkM (list SourceWorkItem) := read_source_items self actor c m None.

Definition supplement_valid (command : SupplementCommand) : bool :=
  (1 <=? sc_expected_revision command)%Z && negb (is_empty (trim (sc_body command)))
  && (len (sc_body command) <=? 8000)%N.

Definition save_supplement (self : Service) (id : Uuid) (now : Z) (actor : UserId) (item : Uuid)
    (command : SupplementCommand) : WorkM ChannelId :=
  transaction (
    let! db := get in
    let! w := st_lift (ok_or (wi_items db !! item) PermissionDenied) in
    ensure (bool_decide (w_source_message w = sc_source_message_id command)
            && bool_decide (w_requested_by w = actor)
            && participates (wi_config db) (w_source_channel w) actor) PermissionDenied;;;
    match fetch_where (λ _ s, bool_decide (s_actor s = actor)
                              && bool_decide (s_request s = sc_request_id command)) (wi_supplements db) with
    | Some (_, s) =>
        ensure (bool_decide (s_item s = item) && bool_decide (s_revision s = sc_expected_revision command)
                && bool_decide (s_body s = sc_body command)) Conflict;;;
        st_ret (w_source_channel w)
    | None =>
        ensure (supplements_enabled self) Conflict;;;
        ensure (bool_decide (w_revision w = sc_expected_revision command) && open_review db item w) Conflict;;;
        ensure (negb (contains_key id (wi_supplements db))
                && bool_decide (rows_where (λ _ s, bool_decide (s_item s = item)
                     && bool_decide (s_revision s = sc_expected_revision command)) (wi_supplements db) = ∅))
          (Storage []);;;
        put (alter_item item (λ w, w <| w_revision := (w_revision w + 1)%Z |>) db
               <| wi_supplements := <[id := mk_SupplementRow item actor (sc_request_id command)
                    (sc_expected_revision command) (sc_body command) now]> (wi_supplements db) |>);;;
        st_ret (w_source_channel w)
    end).
Definition add_supplement (self : Service) (id : Uuid) (now : Z) (actor : UserId) (item : Uuid)
    (command : SupplementCommand) : WorkM SourceWorkItem :=
  ensure (supplement_valid command) Conflict;;;
  let! c := save_supplement self id now actor item command in
  let! items := read_source_items self actor c (sc_source_message_id command) (Some item) in
  st_lift (ok_or (head items) NotFound).

(** ** Changing the status of a finished case *)

Definition transitions (from : ItemStatus) : list ItemStatus :=
  match from with
  | Item_planned => [Item_in_development; Item_resolved; Item_rejected]
  | Item_in_development => [Item_planned; Item_resolved; Item_rejected]
  | Item_resolved | Item_rejected => [Item_planned]
  | _ => []
  end.

(** [ROUTE]: where this handler changes the status of the case. *)
Definition route_rows (db : WorkDb) (actor : UserId) (item : Uuid) : list (Uuid * ChannelId * DisplayName) :=
  let f := wi_config db in
  match wi_items db !! item with
  | Some w =>
      '(route, r) ← map_to_list (f_routes f);
      match f_bindings f !! w_binding w, f_channels f !! r_channel r with
      | Some b, Some name =>
          if application_enabled f (w_application w) && b_enabled b
             && bool_decide ((w_binding w, w_application w) ∈ f_binding_applications f)
             && route_for (lit "change-status") (w_binding w) r && participates f (r_channel r) actor
             && product_handler f (w_application w) actor
             && bool_decide (w_process_status w = Process_completed)
             && bool_decide (w_status w ∈ [Item_planned; Item_in_development; Item_resolved; Item_rejected])
          then [(route, r_channel r, name)] else []
      | _, _ => []
      end
  | None => []
  end.
Definition status_route (db : WorkDb) (actor : UserId) (item : Uuid) : option (Uuid * ChannelId * DisplayName) :=
  head (route_rows db actor item).

Record History : Type := mk_History {
  hist_from : ItemStatus; hist_to : ItemStatus; hist_actor : DisplayName; hist_created_at : Z;
  hist_internal_note : option str; hist_public_feedback : option str }.
Record Lifecycle : Type := mk_Lifecycle {
  lc_case_status : ItemStatus; lc_can_start : bool; lc_allowed : list ItemStatus;
  lc_internal_note : option str; lc_public_feedback : option str; lc_history : list History }.
#[export] Instance Lifecycle_eta : Eta Lifecycle := λ l,
  mk_Lifecycle (lc_case_status l) (lc_can_start l) (lc_allowed l) (lc_internal_note l)
    (lc_public_feedback l) (lc_history l).

(** [order by revision desc limit 100] *)
Definition history_of (item : Uuid) (db : WorkDb) : list HistoryRow :=
  sort_by_key Z.le h_revision (values (rows_where (λ _ h, bool_decide (h_item h = item)) (wi_history db))).
Definition recent_history (item : Uuid) (db : WorkDb) : list HistoryRow := take 100 (reverse (history_of item db)).
Definition active_change (c : ChangeRow) : bool := bool_decide (c_status c ∈ [Change_pending; Change_waiting]).
Definition has_active (item : Uuid) (db : WorkDb) : bool :=
  bool_decide (rows_where (λ _ c, bool_decide (c_item c = item) && active_change c) (wi_changes db) ≠ ∅).

Definition lifecycle (actor : UserId) (item : Uuid) : WorkM (option Lifecycle) :=
  let! db := get in
  let! w := st_lift (ok_or (wi_items db !! item) (Storage [])) in
  let handler := bool_decide (is_Some (status_route db actor item)) in
  if negb handler && bool_decide (actor ≠ w_requested_by w) then st_ret None else
  let history := take 100 (h ← reverse (history_of item db);
    match f_users (wi_config db) !! h_actor h with
    | Some (_, name) =>
        [mk_History (h_from h) (h_to h) name (h_created_at h)
           (if handler then Some (h_internal_note h) else None)
           (if handler || bool_decide (actor = w_requested_by w) then Some (h_public_feedback h) else None)]
    | None => []
    end) in
  st_ret (Some {|
    lc_case_status := w_status w; lc_can_start := handler && negb (has_active item db);
    lc_allowed := transitions (w_status w); lc_internal_note := head history ≫= hist_internal_note;
    lc_public_feedback := head history ≫= hist_public_feedback; lc_history := history |}).

(** ** The export of a case, as its task shows it *)

Definition export_route (f : WorkConfig) (w : WorkItem) : bool :=
  bool_decide (rows_where (λ _ r, route_for (lit "publish-github") (w_binding w) r
    && bool_decide (r_channel r = w_task_channel w)) (f_routes f) ≠ ∅).
(** The enabled binding of the application of a case. *)
Definition export_binding (f : WorkConfig) (w : WorkItem) : option Target :=
  b ← f_github f !! w_application w;
  if application_enabled f (w_application w) && gh_enabled b && gh_export_tasks_enabled b && export_route f w
  then Some (gh_target b) else None.
Definition export_allowed (item : Uuid) (actor : UserId) (receipt : option ExportRow) (db : WorkDb) : bool :=
  let f := wi_config db in
  match wi_items db !! item, wi_processes db !! item with
  | Some w, Some x =>
      match export_binding f w with
      | Some target =>
          bool_decide (x_assignee x = actor) && product_handler f (w_application w) actor
          && from_option can_export false (f_processors f !! (w_application w, actor))
          && participates f (x_channel x) actor && bool_decide (w_process_status w = Process_completed)
          && bool_decide (w_status w = Item_planned) && bool_decide (x_status x = Change_waiting)
          && match receipt with Some e => bool_decide (e_target e = Some target) | None => true end
      | None => false
      end
  | _, _ => false
  end.

Definition ExportStatus_as_str (s : ExportStatus) : str :=
  match s with
  | Export_pending => lit "pending" | Export_sending => lit "sending" | Export_uncertain => lit "uncertain"
  | Export_sent => lit "sent" | Export_skipped => lit "skipped" | Export_blocked => lit "blocked"
  end.
Record ExportView : Type := mk_ExportView {
  ev_repository : option str; ev_repository_id : option Z; ev_binding_revision : option Z; ev_can_publish : bool;
  ev_status : str; ev_issue_url : option str; ev_title : option str; ev_body : option str }.
Definition export_view (self : Service) (actor : UserId) (item : Uuid) : WorkM ExportView :=
  let! db := get in
  let! w := st_lift (ok_or (wi_items db !! item) (Storage [])) in
  let e := wi_exports db !! item in
  (* [coalesce] of the columns of the export and of the binding *)
  let target := union (e ≫= e_target) (gh_target <$> f_github (wi_config db) !! w_application w) in
  st_ret {|
    ev_repository := g_repository <$> target; ev_repository_id := g_repository_id <$> target;
    ev_binding_revision := g_revision <$> target;
    ev_can_publish := github self && export_allowed item actor None db;
    ev_status := from_option (λ e, ExportStatus_as_str (e_status e)) (lit "ready") e;
    ev_issue_url := issue_url <$> (e ≫= e_issue); ev_title := e_title <$> e; ev_body := e_body <$> e |}.

(** ** What a task looks like *)

Definition ProcessStatus_as_str (s : ProcessStatus) : str :=
  match s with
  | Process_starting => lit "starting" | Process_waiting => lit "waiting"
  | Process_completed => lit "completed" | Process_cancelled => lit "cancelled"
  | Process_failed => lit "failed"
  end.
Definition ChangeStatus_as_str (s : ChangeStatus) : str :=
  match s with
  | Change_pending => lit "pending" | Change_waiting => lit "waiting" | Change_completed => lit "completed"
  | Change_cancelled => lit "cancelled" | Change_failed => lit "failed"
  end.

Record TaskView : Type := mk_TaskView {
  tv_id : Uuid; tv_message_id : MessageId; tv_item : Uuid; tv_revision : Z; tv_application_name : str; tv_title : str; tv_description : str; tv_status : str;
  tv_process_status : str; tv_delivery : DeliveryStatus; tv_category : option Category;
  tv_priority : option Priority; tv_decision : option str; tv_assignee_name : DisplayName;
  tv_can_decide : bool; tv_blocked : bool; tv_node : NodeId; tv_can_request_information : bool; tv_information_request : option str;
  tv_information_response : option str; tv_supplements : list Supplement;
  tv_github_export : option ExportView; tv_lifecycle : option Lifecycle }.

Definition TaskStatus_as_str (s : TaskStatus) : str :=
  match s with
  | Task_pending => lit "pending" | Task_completed => lit "completed" | Task_cancelled => lit "cancelled"
  end.

Definition status_task (actor : UserId) (task : Uuid) (message : MessageId) : WorkM (option TaskView) :=
  let! db := get in
  let f := wi_config db in
  match fetch_where (λ _ c, bool_decide (c_task c = Some task) && bool_decide (c_message c = Some message)
          && belongs f (c_channel c) actor && contains_key (c_actor c) (f_users f)
          && match wi_items db !! c_item c with
             | Some w => contains_key (w_application w) (f_applications f)
             | None => false
             end) (wi_changes db) with
  | None => st_ret None
  | Some (_, c) =>
      let! w := st_lift (ok_or (wi_items db !! c_item c) (Storage [])) in
      let! a := st_lift (ok_or (f_applications f !! w_application w) (Storage [])) in
      let! u := st_lift (ok_or (f_users f !! c_actor c) (Storage [])) in
      let! lc := lifecycle actor (c_item c) in
      let allowed := match status_route db (c_actor c) (c_item c) with
                     | Some (route, channel, _) => bool_decide (c_route c = route) && bool_decide (c_channel c = channel)
                     | None => false
                     end in
      let accepted := bool_decide (is_Some (c_decision_result c)) in
      let waiting := bool_decide (c_status c = Change_waiting) in
      let private := bool_decide (is_Some (status_route db actor (c_item c))) in
      let lc := (λ l, l <| lc_internal_note := if private then c_internal_note c else None |>
                        <| lc_public_feedback := if private then c_public_feedback c else lc_public_feedback l |>) <$> lc in
      st_ret (Some {|
        tv_id := task; tv_message_id := message; tv_item := c_item c; tv_revision := w_revision w;
        tv_application_name := a_name a; tv_title := w_title w;
        tv_description := w_description w;
        tv_status := (if waiting then lit "pending"
                      else if bool_decide (c_status c = Change_failed) then lit "cancelled"
                      else ChangeStatus_as_str (c_status c));
        tv_process_status := ChangeStatus_as_str (c_status c);
        tv_delivery := (if accepted && bool_decide (c_status c ∈ [Change_failed; Change_cancelled]) then Delivery_failed
                        else if accepted && waiting then Delivery_pending else Delivery_ready);
        tv_category := w_category w; tv_priority := w_priority w; tv_decision := c_decision_status c;
        tv_assignee_name := u.2; tv_can_decide := bool_decide (actor = c_actor c) && allowed && waiting && negb accepted;
        tv_blocked := waiting && negb allowed; tv_node := Node_other (lit "change-status");
        tv_can_request_information := false; tv_information_request := None;
        tv_information_response := None;
        tv_supplements := supplements db actor (c_item c) (Scope_status_task task message);
        tv_github_export := None; tv_lifecycle := lc |})
  end.

(** The note of the task of a case at a node, for a decision that satisfies [p]. *)
Definition note_of (db : WorkDb) (item : Uuid) (node : NodeId) (p : TaskRow → bool) : option str :=
  fetch_where (λ _ t, bool_decide (t_item t = item) && bool_decide (t_node t = node) && p t) (wi_tasks db)
    ≫= λ kv, t_note kv.2.

Definition task (self : Service) (actor : UserId) (id : Uuid) (message : MessageId) : WorkM TaskView :=
  let! status := status_task actor id message in
  match status with
  | Some view => st_ret view
  | None =>
      let! db := get in
      let f := wi_config db in
      let! t := st_lift (ok_or (wi_tasks db !! id) NotFound) in
      let! w := st_lift (ok_or (wi_items db !! t_item t) NotFound) in
      let! a := st_lift (ok_or (f_applications f !! w_application w) NotFound) in
      let! u := st_lift (ok_or (f_users f !! t_assignee t) NotFound) in
      ensure (bool_decide (t_message t = message) && belongs f (t_channel t) actor) NotFound;;;
      let allowed := assigned_allowed f w t in
      let pending := bool_decide (t_status t = Task_pending) in
      let process := if bool_decide (t_node t = Node_publish_github)
                     then from_option (λ x, ChangeStatus_as_str (x_status x)) (lit "failed")
                            (wi_processes db !! t_item t)
                     else ProcessStatus_as_str (w_process_status w) in
      let informing := bool_decide (t_node t = Node_provide_information) in
      let! lc := lifecycle actor (t_item t) in
      let! export := if bool_decide (t_node t = Node_publish_github)
                     then st_bind (export_view self actor (t_item t)) (λ v, st_ret (Some v)) else st_ret None in
      st_ret {|
        tv_id := id; tv_message_id := message; tv_item := t_item t; tv_revision := w_revision w;
        tv_application_name := a_name a; tv_title := w_title w;
        tv_description := w_description w; tv_status := TaskStatus_as_str (t_status t);
        tv_process_status := process; tv_delivery := t_delivery t;
        tv_category := (if informing then None else union (t_category t) (w_category w));
        tv_priority := (if informing then None else union (t_priority t) (w_priority w));
        tv_decision := ItemStatus_as_str <$> t_decision t; tv_assignee_name := u.2;
        tv_can_decide := bool_decide (t_assignee t = actor) && allowed && pending
                         && bool_decide (process = lit "waiting")
                         && bool_decide (t_delivery t = Delivery_ready);
        tv_blocked := pending && negb allowed; tv_node := t_node t;
        tv_can_request_information := bool_decide (t_node t = Node_review)
                                      && bool_decide (w_version w = V1_1_0);
        tv_information_request := note_of db (t_item t) Node_review
          (λ t, bool_decide (t_decision t = Some Item_needs_information));
        tv_information_response := note_of db (t_item t) Node_provide_information (λ _, true);
        tv_supplements := supplements db actor (t_item t) (Scope_task id message);
        tv_github_export := export; tv_lifecycle := lc |}
  end.

(** ** Deciding a task *)

Record Decision : Type := mk_Decision {
  d_message_id : MessageId; d_request_id : Uuid; d_expected_revision : Z;
  d_expected_supplement_id : option Uuid; d_category : str; d_priority : str; d_status : str; d_note : str }.

Definition decided_statuses (can_request : bool) (note : str) : list ItemStatus :=
  [Item_planned; Item_resolved; Item_rejected]
  ++ if can_request && negb (is_empty (trim note)) then [Item_needs_information] else [].

(** The columns a valid decision is stored as. *)
Definition decision_columns (information can_request : bool) (command : Decision)
    : option (option Category * option Priority * option ItemStatus) :=
  if information then
    if is_empty (d_category command) && is_empty (d_priority command) && is_empty (d_status command)
       && negb (is_empty (trim (d_note command))) then Some (None, None, None) else None
  else
    category ← value_of Category_as_str all_categories (d_category command);
    priority ← value_of Priority_as_str all_priorities (d_priority command);
    status ← value_of ItemStatus_as_str (decided_statuses can_request (d_note command)) (d_status command);
    Some (Some category, Some priority, Some status).

Definition same_decision (command : Decision) (t : TaskRow) : bool :=
  bool_decide (t_request t = Some (d_request_id command))
  && bool_decide (from_option Category_as_str [] (t_category t) = d_category command)
  && bool_decide (from_option Priority_as_str [] (t_priority t) = d_priority command)
  && bool_decide (from_option ItemStatus_as_str [] (t_decision t) = d_status command)
  && bool_decide (default [] (t_note t) = d_note command)
  && bool_decide (t_supplement t = d_expected_supplement_id command)
  && from_option (λ r, (r =? d_expected_revision command)%Z) true (t_revision t).

Definition bump (w : WorkItem) : WorkItem := w <| w_revision := (w_revision w + 1)%Z |>.

Definition save_decision (actor : UserId) (id : Uuid) (command : Decision) : WorkM unit :=
  transaction (
    let! db := get in
    let! t := st_lift (ok_or (wi_tasks db !! id) PermissionDenied) in
    let! w := st_lift (ok_or (wi_items db !! t_item t) PermissionDenied) in
    ensure (bool_decide (t_message t = d_message_id command) && bool_decide (t_assignee t = actor)
            && assigned_allowed (wi_config db) w t) PermissionDenied;;;
    ensure (bool_decide (t_node t ≠ Node_publish_github)) Conflict;;;
    let information := bool_decide (t_node t = Node_provide_information) in
    let can_request := bool_decide (t_node t = Node_review) && bool_decide (w_version w = V1_1_0) in
    let! (category, priority, status) := st_lift (ok_or (decision_columns information can_request command) Conflict) in
    if bool_decide (is_Some (t_request t)) then ensure (same_decision command t) Conflict else
    ensure (bool_decide (t_status t = Task_pending) && bool_decide (w_process_status w = Process_waiting)
            && (w_revision w =? d_expected_revision command)%Z) Conflict;;;
    ensure (bool_decide (latest_supplement (t_item t) db = d_expected_supplement_id command)) Conflict;;;
    put (alter_item (t_item t) bump (update_task id (λ t,
      t <| t_request := Some (d_request_id command) |> <| t_category := category |>
        <| t_priority := priority |> <| t_decision := status |> <| t_note := Some (d_note command) |>
        <| t_revision := Some (d_expected_revision command) |>
        <| t_supplement := d_expected_supplement_id command |> <| t_delivery := Delivery_pending |>) db))).

Definition decide_item (self : Service) (actor : UserId) (id : Uuid) (command : Decision) : WorkM TaskView :=
  ensure ((1 <=? d_expected_revision command)%Z && (len (d_note command) <=? 8000)%N) Conflict;;;
  save_decision actor id command;;;
  task self actor id (d_message_id command).

(** ** Status changes: admission and decision *)

Record StatusStart : Type := mk_StatusStart {
  ss_source_task_id : Uuid; ss_source_message_id : MessageId; ss_request_id : Uuid;
  ss_expected_revision : Z }.
Record StatusStartReceipt : Type := mk_StatusStartReceipt {
  sr_id : Uuid; sr_work_item_id : Uuid; sr_channel_name : DisplayName; sr_start_status : ChangeStatus }.

Definition same_start (item : Uuid) (command : StatusStart) (route : Uuid) (channel : ChannelId)
    (c : ChangeRow) : bool :=
  bool_decide (c_item c = item) && bool_decide (c_source_task c = ss_source_task_id command)
  && bool_decide (c_source_message c = ss_source_message_id command)
  && bool_decide (c_start_revision c = ss_expected_revision command)
  && bool_decide (c_route c = route) && bool_decide (c_channel c = channel).

Definition new_change (now : Z) (actor : UserId) (item : Uuid) (command : StatusStart) (route : Uuid)
    (channel : ChannelId) : ChangeRow := {|
  c_item := item; c_actor := actor; c_channel := channel; c_route := route;
  c_source_task := ss_source_task_id command; c_source_message := ss_source_message_id command;
  c_request := ss_request_id command; c_start_revision := ss_expected_revision command;
  c_heart_instance := None; c_task := None; c_message := None; c_status := Change_pending;
  c_lease_until := 0; c_lease_token := None; c_decision_request := None; c_decision_revision := None;
  c_decision_status := None; c_internal_note := None; c_public_feedback := None; c_no_change := None;
  c_decision_result := None; c_created_at := now |}.

Definition accept_status (id : Uuid) (now : Z) (actor : UserId) (item : Uuid) (command : StatusStart)
    : WorkM StatusStartReceipt :=
  transaction (
    let! db := get in
    let! (route, channel, name) := st_lift (ok_or (status_route db actor item) PermissionDenied) in
    match fetch_where (λ _ c, bool_decide (c_actor c = actor) && bool_decide (c_request c = ss_request_id command))
            (wi_changes db) with
    | Some (old, c) =>
        ensure (same_start item command route channel c) Conflict;;;
        st_ret (mk_StatusStartReceipt old item name (c_status c))
    | None =>
        let! w := st_lift (ok_or (wi_items db !! item) (Storage [])) in
        ensure (bool_decide (w_revision w = ss_expected_revision command)) Conflict;;;
        (* [on conflict do nothing]: the keys and one active change of a case *)
        ensure (negb (contains_key id (wi_changes db)) && negb (has_active item db)) Conflict;;;
        put (db <| wi_changes := <[id := new_change now actor item command route channel]> (wi_changes db) |>);;;
        st_ret (mk_StatusStartReceipt id item name Change_pending)
    end).
Definition start_status (self : Service) (id : Uuid) (now : Z) (actor : UserId) (item : Uuid)
    (command : StatusStart) : WorkM StatusStartReceipt :=
  ensure (heart self) (Storage []);;;
  let! source := task self actor (ss_source_task_id command) (ss_source_message_id command) in
  ensure (bool_decide (tv_item source = item) && bool_decide (tv_status source = lit "completed")) Conflict;;;
  accept_status id now actor item command.

Record StatusDecision : Type := mk_StatusDecision {
  sd_message_id : MessageId; sd_request_id : Uuid; sd_expected_revision : Z; sd_status : str;
  sd_internal_note : str; sd_public_feedback : str; sd_no_change : bool }.
Definition status_decision_valid (command : StatusDecision) : bool :=
  (N.of_nat (length (sd_internal_note command)) <=? 2000)%N
  && (N.of_nat (length (sd_public_feedback command)) <=? 2000)%N
  && (negb (sd_no_change command)
      || is_empty (sd_status command) && is_empty (sd_internal_note command)
         && is_empty (sd_public_feedback command)).
Definition same_status_decision (command : StatusDecision) (c : ChangeRow) : bool :=
  bool_decide (c_decision_request c = Some (sd_request_id command))
  && bool_decide (c_decision_revision c = Some (sd_expected_revision command))
  && bool_decide (default [] (c_decision_status c) = sd_status command)
  && bool_decide (default [] (c_internal_note c) = sd_internal_note command)
  && bool_decide (default [] (c_public_feedback c) = sd_public_feedback command)
  && bool_decide (c_no_change c = Some (sd_no_change command)).
Definition status_result `{JsonText, UuidLib} (id : Uuid) (from to : ItemStatus) (revision : Z) (no_change : bool)
    : str :=
  json_to_string (V_object (<[lit "change_id" := S_string (uuid_display id)]>
    (<[lit "from_status" := S_string (ItemStatus_as_str from)]>
    (<[lit "status" := S_string (ItemStatus_as_str to)]>
    (<[lit "case_revision" := S_number revision]> {[lit "no_change" := S_bool no_change]}))))).

(** The status the decision asks for, [None] when the case may not take it. *)
Definition decided_status (from : ItemStatus) (command : StatusDecision) : option ItemStatus :=
  if sd_no_change command then Some from
  else value_of ItemStatus_as_str (transitions from) (sd_status command).

Definition save_status `{JsonText, UuidLib} (now : Z) (history_id : Uuid) (actor : UserId) (task : Uuid)
    (command : StatusDecision) : WorkM unit :=
  transaction (
    let! db := get in
    let! (id, c) := st_lift (ok_or (fetch_where (λ _ c, bool_decide (c_task c = Some task)
      && bool_decide (c_message c = Some (sd_message_id command)) && bool_decide (c_actor c = actor)
      && contains_key (c_item c) (wi_items db)) (wi_changes db)) PermissionDenied) in
    let! (route, channel, _) := st_lift (ok_or (status_route db actor (c_item c)) PermissionDenied) in
    ensure (bool_decide (c_route c = route) && bool_decide (c_channel c = channel)) PermissionDenied;;;
    if bool_decide (is_Some (c_decision_request c)) then ensure (same_status_decision command c) Conflict else
    let! w := st_lift (ok_or (wi_items db !! c_item c) (Storage [])) in
    ensure (bool_decide (c_status c = Change_waiting) && (w_revision w =? sd_expected_revision command)%Z) Conflict;;;
    let! to := st_lift (ok_or (decided_status (w_status w) command) Conflict) in
    let revision := (sd_expected_revision command + if sd_no_change command then 0 else 1)%Z in
    modify (λ db, db <| wi_changes := alter (λ c,
      c <| c_decision_request := Some (sd_request_id command) |>
        <| c_decision_revision := Some (sd_expected_revision command) |>
        <| c_decision_status := Some (sd_status command) |>
        <| c_internal_note := Some (sd_internal_note command) |>
        <| c_public_feedback := Some (sd_public_feedback command) |>
        <| c_no_change := Some (sd_no_change command) |>
        <| c_decision_result := Some (status_result id (w_status w) to revision (sd_no_change command)) |>)
        id (wi_changes db) |>);;;
    if sd_no_change command then st_ret tt else
    modify (alter_item (c_item c) (λ w, bump (w <| w_status := to |>)));;;
    ensure (negb (contains_key history_id (wi_history db))
            && bool_decide (rows_where (λ _ h, bool_decide (h_change h = id)
                 || bool_decide (h_item h = c_item c) && bool_decide (h_revision h = revision)) (wi_history db) = ∅))
      (Storage []);;;
    modify (λ db, db <| wi_history := <[history_id := {|
      h_change := id; h_item := c_item c; h_revision := revision; h_actor := actor; h_from := w_status w;
      h_to := to; h_internal_note := sd_internal_note command;
      h_public_feedback := sd_public_feedback command; h_created_at := now |}]> (wi_history db) |>)).
Definition change_status `{JsonText, UuidLib} (self : Service) (now : Z) (history_id : Uuid) (actor : UserId) (id : Uuid)
    (command : StatusDecision) : WorkM TaskView :=
  ensure (status_decision_valid command) Conflict;;;
  save_status now history_id actor id command;;;
  task self actor id (sd_message_id command).

(** ** Status changes: following the process *)

Definition update_change (id : Uuid) (p : ChangeRow → bool) (f : ChangeRow → ChangeRow) : WorkM bool :=
  let! db := get in
  match wi_changes db !! id with
  | Some c => if p c then put (db <| wi_changes := <[id := f c]> (wi_changes db) |>);;; st_ret true
              else st_ret false
  | None => st_ret false
  end.
Definition change_free (now : Z) (c : ChangeRow) : bool := (c_lease_until c <? now)%Z && active_change c.
Definition change_cmp (a b : Uuid * ChangeRow) : comparison :=
  then_with (c_lease_until a.2 ?= c_lease_until b.2)%Z (c_created_at a.2 ?= c_created_at b.2)%Z.
Definition sync_changes (now : Z) (db : WorkDb) : list Uuid :=
  fst <$> take 10 (sort_by change_cmp (map_to_list (rows_where (λ _ c, change_free now c) (wi_changes db)))).
Definition holds_change (token : Uuid) (c : ChangeRow) : bool := bool_decide (c_lease_token c = Some token).

Definition status_claim (id : Uuid) (now : Z) (token : Uuid) : WorkM bool :=
  update_change id (change_free now) (λ c,
    c <| c_lease_until := (now + 180)%Z |> <| c_lease_token := Some token |>).
Definition status_release (id : Uuid) (next : Z) (token : Uuid) : WorkM bool :=
  update_change id (holds_change token) (λ c, c <| c_lease_until := next |> <| c_lease_token := None |>).
Definition status_instance (id token instance : Uuid) : WorkM unit :=
  let! db := get in
  ensure (bool_decide (rows_where (λ _ c, bool_decide (c_heart_instance c = Some instance)) (wi_changes db) = ∅))
    (Storage []);;;
  let! changed := update_change id (λ c, holds_change token c && bool_decide (c_heart_instance c = None))
                    (λ c, c <| c_heart_instance := Some instance |>) in
  ensure changed Conflict.
Definition status_settle (id : Uuid) (state : ChangeStatus) (token : Uuid) : WorkM bool :=
  update_change id (holds_change token) (λ c, c <| c_status := state |>).

(** Where a decided change goes after Heart's answer; [None] when it waits for Heart. *)
Definition status_next `{JsonText} (c : ChangeRow) (instance_completed : bool) (task : HeartTask)
    : Res RepositoryError (option ChangeStatus) :=
  let next := match ht_status task with
              | Some Task_completed => if instance_completed then Change_completed else Change_waiting
              | Some Task_cancelled => Change_cancelled
              | _ => Change_waiting
              end in
  match c_decision_request c, c_decision_result c with
  | Some _, Some result =>
      let? expected := ok_or (json_from_str result) (Storage []) in
      match ht_status task with
      | Some Task_completed => if bool_decide (ht_result task = Some expected) then Ok (Some next) else Err Conflict
      | Some Task_pending => Ok None
      | Some Task_cancelled => Ok (Some next)
      | None => Err Conflict
      end
  | _, _ => if has_status Task_completed task then Err Conflict else Ok (Some next)
  end.

(** The checks of [sync_status_one] on what Heart answers: the state of a process that
    ended, or the task and whether the process is completed. *)
Definition change_state (status : str) : option ChangeStatus :=
  if bool_decide (status = lit "running") || bool_decide (status = lit "waiting") then Some Change_waiting
  else if bool_decide (status = lit "completed") then Some Change_completed
  else if bool_decide (status = lit "cancelled") then Some Change_cancelled
  else if bool_decide (status = lit "failed") then Some Change_failed else None.
Definition check_status (id : Uuid) (c : ChangeRow) (instance : Uuid) (view : HeartInstance) (tasks : list HeartTask)
    : Res RepositoryError (ChangeStatus + HeartTask * bool) :=
  if negb (bool_decide (hi_id view = Some instance) && bool_decide (hi_namespace view = lit "sproyt")
           && bool_decide (hi_runtime view = lit "v2") && bool_decide (hi_change view = Some id)
           && bool_decide (hi_work_item view = Some (c_item c)) && bool_decide (hi_handler view = Some (c_actor c))
           && bool_decide (hi_task_channel view = Some (c_channel c))) then Err Conflict else
  let? state := ok_or (change_state (hi_status view)) Conflict in
  if bool_decide (state ∈ [Change_failed; Change_cancelled]) then Ok (inl state) else
  match tasks with
  | [task] =>
      let completed := bool_decide (state = Change_completed) in
      if completed && negb (has_status Task_completed task) then Err Conflict else
      if bool_decide (ht_node task = Node_other (lit "change-status"))
         && bool_decide (ht_instance task = instance) && bool_decide (ht_assignee task = c_actor c)
         && bool_decide (is_Some (ht_status task)) then Ok (inr (task, completed)) else Err Conflict
  | _ => Err Conflict
  end.

(** [project_status_message]: the task of a change, or, without a task, the notice in
    the source channel. *)
Definition status_body `{UuidLib} (item : Uuid) : str := lit "[[work-item-status:" ++ uuid_display item ++ lit "]]".
Definition project_status_message `{UuidLib} (message : MessageId) (now : Z) (id token : Uuid)
    (task : option HeartTask) : WorkM (option MessageId) :=
  transaction (
    let! db := get in
    let! c := st_lift (ok_or (wi_changes db !! id) (Storage [])) in
    let! w := st_lift (ok_or (wi_items db !! c_item c) (Storage [])) in
    ensure (holds_change token c && (now <? c_lease_until c)%Z) (Storage []);;;
    match task with
    | Some task =>
        match c_task c with
        | Some old => ensure (bool_decide (old = ht_id task)) Conflict;;; st_ret None
        | None =>
            ensure (has_status Task_pending task) Conflict;;;
            post_message message (c_item c) (c_channel c) (task_body (ht_id task));;;
            (* the keys of the table *)
            ensure (bool_decide (rows_where (λ _ c, bool_decide (c_task c = Some (ht_id task))
                      || bool_decide (c_message c = Some message)) (wi_changes db) = ∅)) (Storage []);;;
            modify (λ db, db <| wi_changes := alter (λ c,
              c <| c_task := Some (ht_id task) |> <| c_message := Some message |>
                <| c_status := Change_waiting |>) id (wi_changes db) |>);;;
            st_ret (Some message)
        end
    | None =>
        if bool_decide (c_no_change c = Some true) || contains_key (c_item c) (wi_publications db) then st_ret None else
        post_message message (c_item c) (w_source_channel w) (status_body (c_item c));;;
        ensure (bool_decide (rows_where (λ _ p, bool_decide (p.1 = message)) (wi_publications db) = ∅)) Conflict;;;
        modify (λ db, db <| wi_publications := <[c_item c := (message, w_source_channel w)]> (wi_publications db) |>);;;
        st_ret (Some message)
    end).

(** [sync_status_one] for the holder of the lease, with what Heart answers. *)
Definition status_one `{JsonText, UuidLib} (notice message : MessageId) (now : Z) (id token : Uuid)
    (started : Res RepositoryError Uuid) (view : Res RepositoryError HeartInstance)
    (tasks : Res RepositoryError (list HeartTask)) : WorkM unit :=
  let! db := get in
  let! c := st_lift (ok_or (wi_changes db !! id) (Storage [])) in
  ensure (holds_change token c) (Storage []);;;
  (if bool_decide (is_Some (c_decision_result c))
   then st_bind (project_status_message notice now id token None) (λ _, st_ret tt) else st_ret tt);;;
  let! instance := match c_heart_instance c with
                   | Some instance => st_ret instance
                   | None => let! instance := st_lift started in status_instance id token instance;;; st_ret instance
                   end in
  let! view := st_lift view in
  let! tasks := st_lift tasks in
  let! answer := st_lift (check_status id c instance view tasks) in
  match answer with
  | inl state => st_bind (status_settle id state token) (λ _, st_ret tt)
  | inr (task, completed) =>
      st_bind (project_status_message message now id token (Some task)) (λ _,
      let! next := st_lift (status_next c completed task) in
      match next with
      | Some state => st_bind (status_settle id state token) (λ _, st_ret tt)
      | None => st_ret tt
      end)
  end.

(** The status as the source channel sees it. *)
Record PublicHistory : Type := mk_PublicHistory {
  ph_from : ItemStatus; ph_to : ItemStatus; ph_created_at : Z; ph_public_feedback : str }.
Record PublicStatus : Type := mk_PublicStatus {
  ps_title : str; ps_application_name : str; ps_status : ItemStatus; ps_public_feedback : option str;
  ps_history : list PublicHistory }.
Definition public_status (actor : UserId) (item : Uuid) (message : MessageId) : WorkM (option PublicStatus) :=
  let! db := get in
  let f := wi_config db in
  let! (m, c) := st_lift (ok_or (wi_publications db !! item) NotFound) in
  let! w := st_lift (ok_or (wi_items db !! item) NotFound) in
  let! a := st_lift (ok_or (f_applications f !! w_application w) NotFound) in
  ensure (bool_decide (m = message) && bool_decide (c = w_source_channel w) && belongs f c actor) NotFound;;;
  if bool_decide (w_requested_by w = actor) || bool_decide (is_Some (status_route db actor item)) then
    let history := (λ h, mk_PublicHistory (h_from h) (h_to h) (h_created_at h) (h_public_feedback h))
                     <$> recent_history item db in
    st_ret (Some (mk_PublicStatus (w_title w) (a_name a) (w_status w) (ph_public_feedback <$> head history) history))
  else st_ret None.

(** ** The export to GitHub: deciding *)

Record ExportCommand : Type := mk_ExportCommand {
  ec_message_id : MessageId; ec_request_id : Uuid; ec_expected_revision : Z; ec_title : str; ec_body : str;
  ec_send : bool; ec_expected_repository_id : option Z; ec_expected_binding_revision : option Z }.

Definition marker_prefix : str := lit "<!-- sproyt-work-item-export:".
Definition export_valid (self : Service) (command : ExportCommand) : bool :=
  (1 <=? ec_expected_revision command)%Z && (N.of_nat (length (ec_title command)) <=? 160)%N
  && (len (ec_body command) <=? 8000)%N
  && (if ec_send command
      then negb (is_empty (trim (ec_title command))) && negb (is_empty (trim (ec_body command))) && github self
           && bool_decide (is_Some (ec_expected_repository_id command))
           && bool_decide (is_Some (ec_expected_binding_revision command))
      else is_empty (ec_title command) && is_empty (ec_body command)
           && bool_decide (ec_expected_repository_id command = None)
           && bool_decide (ec_expected_binding_revision command = None))
  && negb (contains (ec_body command) marker_prefix).

Definition same_export (command : ExportCommand) (e : ExportRow) : bool :=
  bool_decide (e_request e = ec_request_id command) && bool_decide (e_revision e = ec_expected_revision command)
  && bool_decide (e_send e = ec_send command) && bool_decide (e_title e = ec_title command)
  && bool_decide (e_body e = ec_body command)
  && (negb (ec_send command)
      || bool_decide (g_repository_id <$> e_target e = ec_expected_repository_id command)
         && bool_decide (g_revision <$> e_target e = ec_expected_binding_revision command)).

Definition save_export `{JsonText, UuidLib} (now : Z) (actor : UserId) (id : Uuid) (command : ExportCommand)
    : WorkM unit :=
  transaction (
    let! db := get in
    let f := wi_config db in
    let! t := st_lift (ok_or (wi_tasks db !! id) PermissionDenied) in
    let! w := st_lift (ok_or (wi_items db !! t_item t) PermissionDenied) in
    let! x := st_lift (ok_or (wi_processes db !! t_item t) PermissionDenied) in
    ensure (bool_decide (x_assignee x = t_assignee t) && bool_decide (x_channel x = t_channel t)
            && participates f (t_channel t) actor && product_handler f (w_application w) actor
            && bool_decide (t_message t = ec_message_id command) && bool_decide (t_assignee t = actor)
            && bool_decide (t_node t = Node_publish_github)) PermissionDenied;;;
    ensure (negb (ec_send command)
            || from_option can_export false (f_processors f !! (w_application w, actor))) PermissionDenied;;;
    match wi_exports db !! t_item t with
    | Some e => ensure (same_export command e) Conflict
    | None =>
        ensure (bool_decide (t_status t = Task_pending) && bool_decide (x_status x = Change_waiting)
                && bool_decide (w_status w = Item_planned)
                && (w_revision w =? ec_expected_revision command)%Z) Conflict;;;
        let target := export_binding f w in
        ensure (negb (ec_send command) || bool_decide (is_Some target)) PermissionDenied;;;
        ensure (negb (ec_send command)
                || bool_decide (g_repository_id <$> target = ec_expected_repository_id command)
                   && bool_decide (g_revision <$> target = ec_expected_binding_revision command)) Conflict;;;
        let marker := marker_prefix ++ uuid_display (ec_request_id command) ++ lit " -->" in
        (* the keys of the table *)
        ensure (bool_decide (rows_where (λ _ e, bool_decide (e_task e = id) || bool_decide (e_marker e = marker)
                  || bool_decide (e_actor e = actor) && bool_decide (e_request e = ec_request_id command))
                  (wi_exports db) = ∅)) (Storage []);;;
        ensure (bool_decide (t_request t = None)) Conflict;;;
        put (alter_item (t_item t) bump (update_task id (λ t,
          t <| t_request := Some (ec_request_id command) |> <| t_revision := Some (ec_expected_revision command) |>
            <| t_delivery := Delivery_pending |>
            <| t_note := if ec_send command then None
                         else Some (json_to_string (V_object {[lit "github_export" := S_string (lit "skipped")]})) |>) db)
          <| wi_exports := <[t_item t := {|
               e_task := id; e_actor := actor; e_request := ec_request_id command;
               e_revision := ec_expected_revision command; e_send := ec_send command;
               e_title := ec_title command; e_body := ec_body command; e_target := target; e_marker := marker;
               e_status := if ec_send command then Export_pending else Export_skipped; e_issue := None;
               e_lease_until := 0; e_lease_token := None; e_attempted_at := None; e_created_at := now |}]>
               (wi_exports db) |>)
    end).
Definition export_github `{JsonText, UuidLib} (self : Service) (now : Z) (actor : UserId) (id : Uuid)
    (command : ExportCommand) : WorkM TaskView :=
  ensure (export_valid self command) Conflict;;;
  save_export now actor id command;;;
  task self actor id (ec_message_id command).
