(* ===== verification/WorkDelivery.v ===== *)
(** * WorkDelivery: the workers that carry cases to Heart and GitHub

    The workers of [src/work_items.rs] and [github_export.rs] as programs whose steps
    are the transactions between two calls to the outside. A worker may be overtaken
    between any two steps, or never take another one. *)

From Stdlib Require Import ZifyBool.
From stdpp Require Import base tactics numbers strings countable sorting gmap list.
From S2P Require Import Prelude RustStr Text Ids Models RepoState Sql WorkItems.

(** ** Reviews: one visit of [sync_tasks] to a case *)

Inductive SyncPhase : Type :=
  | Sync_claimed
  | Sync_projecting (before after : list HeartTask) (state : ProcessStatus)
  | Sync_finished (state : ProcessStatus)
  | Sync_failed.

(** [reconcile] after the answers of Heart. *)
Definition reconcile_start (item token : Uuid) (view : HeartInstance) (tasks : list HeartTask)
    : WorkM SyncPhase :=
  let! db := get in
  match wi_items db !! item with
  | Some w =>
      if holds_sync token w then
        match check_heart item w view tasks with
        | Ok (tasks, state) => st_ret (Sync_projecting [] tasks state)
        | _ => st_ret Sync_failed
        end
      else st_ret Sync_failed
  | None => st_ret Sync_failed
  end.

(** Its next step: a task is shown or confirmed, or the state of the process is saved. The
    channel of a task is read before the first step, and never changes. *)
Definition reconcile_step `{JsonText, UuidLib} (message : MessageId) (item token : Uuid)
    (channel_of : HeartTask → ChannelId) (phase : SyncPhase) : WorkM SyncPhase :=
  match phase with
  | Sync_projecting before (task :: after) state => λ db,
      match project message item token (channel_of task) task db with
      | (Ok _, db) => (Ok (Sync_projecting (before ++ [task]) after state), db)
      | (_, db) => (Ok Sync_failed, db)
      end
  | Sync_projecting before [] state =>
      let! _ := sync_finish item state token in
      st_ret (Sync_finished state)
  | phase => st_ret phase
  end.

(** ** Exports: the process that asks whether to publish *)

Definition update_process (item : Uuid) (p : ProcessRow → bool) (f : ProcessRow → ProcessRow) : WorkM bool :=
  let! db := get in
  match wi_processes db !! item with
  | Some x => if p x then put (db <| wi_processes := <[item := f x]> (wi_processes db) |>);;; st_ret true
              else st_ret false
  | None => st_ret false
  end.
(** [insert into work_item_export_processes .. select .. on conflict do nothing] *)
Definition exportable (f : WorkConfig) (w : WorkItem) : bool :=
  bool_decide (is_Some (export_binding f w)) && bool_decide (w_process_status w = Process_completed)
  && bool_decide (w_start_status w = Start_started) && bool_decide (w_status w = Item_planned).
Definition new_process (now : Z) (w : WorkItem) : ProcessRow := {|
  x_channel := w_task_channel w; x_assignee := w_reviewer w; x_heart_instance := None;
  x_status := Change_pending; x_lease_until := 0; x_lease_token := None; x_created_at := now |}.
Definition seed_processes (now : Z) : WorkM unit :=
  modify (λ db, db <| wi_processes :=
    wi_processes db ∪ (new_process now <$> rows_where (λ _ w, exportable (wi_config db) w) (wi_items db)) |>).

Definition process_free (now : Z) (x : ProcessRow) : bool :=
  (x_lease_until x <? now)%Z && bool_decide (x_status x ∈ [Change_pending; Change_waiting]).
Definition holds_process (token : Uuid) (x : ProcessRow) : bool := bool_decide (x_lease_token x = Some token).
Definition process_claim (item : Uuid) (now : Z) (token : Uuid) : WorkM bool :=
  update_process item (process_free now) (λ x,
    x <| x_lease_until := (now + 180)%Z |> <| x_lease_token := Some token |>).
Definition process_release (item : Uuid) (next : Z) (token : Uuid) : WorkM bool :=
  update_process item (holds_process token) (λ x, x <| x_lease_until := next |> <| x_lease_token := None |>).
Definition process_instance (item token instance : Uuid) : WorkM unit :=
  let! db := get in
  ensure (bool_decide (rows_where (λ _ x, bool_decide (x_heart_instance x = Some instance)) (wi_processes db) = ∅))
    (Storage []);;;
  let! changed := update_process item (λ x, holds_process token x && bool_decide (x_heart_instance x = None))
                    (λ x, x <| x_heart_instance := Some instance |> <| x_status := Change_waiting |>) in
  ensure changed Conflict.
Definition process_settle (item : Uuid) (state : ChangeStatus) (token : Uuid) : WorkM bool :=
  update_process item (holds_process token) (λ x, x <| x_status := state |>).

(** The checks of [sync_export_process] on what Heart answers. *)
Definition check_export (item : Uuid) (w : WorkItem) (x : ProcessRow) (instance : Uuid) (view : HeartInstance)
    (tasks : list HeartTask) : Res RepositoryError (option HeartTask * ChangeStatus) :=
  if negb (bool_decide (hi_id view = Some instance) && bool_decide (hi_namespace view = lit "sproyt")
           && bool_decide (hi_runtime view = lit "v2") && bool_decide (hi_work_item view = Some item)
           && bool_decide (hi_reviewer view = Some (x_assignee x))
           && bool_decide (hi_application view = Some (w_application w))
           && bool_decide (hi_task_channel view = Some (x_channel x))) then Err Conflict else
  let? state := ok_or (change_state (hi_status view)) Conflict in
  if (1 <? length tasks)%nat
     || bool_decide (state = Change_completed)
        && match tasks with [task] => negb (has_status Task_completed task) | _ => true end
  then Err Conflict else
  match tasks with
  | [] => Ok (None, state)
  | task :: _ =>
      if bool_decide (ht_node task = Node_publish_github) && bool_decide (ht_instance task = instance)
         && bool_decide (ht_assignee task = x_assignee x) && bool_decide (is_Some (ht_status task))
      then Ok (Some task, state) else Err Conflict
  end.
(** What it sends to Heart: the export that is done. *)
Definition export_completion `{JsonText} (item : Uuid) (db : WorkDb) : option (Uuid * option Uuid * option str) :=
  (λ kv, (kv.1, t_request kv.2, t_note kv.2)) <$> fetch_where (λ id t,
    bool_decide (t_item t = item) && bool_decide (t_node t = Node_publish_github)
    && bool_decide (t_status t = Task_pending) && bool_decide (is_Some (t_note t))
    && bool_decide (rows_where (λ _ e, bool_decide (e_task e = id)
         && bool_decide (e_status e ∈ [Export_sent; Export_skipped])) (wi_exports db) ≠ ∅)) (wi_tasks db).
(** [sync_export_process] for the holder of the lease, with what Heart answers. *)
Definition export_one `{JsonText, UuidLib} (message : MessageId) (item token : Uuid)
    (started : Res RepositoryError Uuid) (view : Res RepositoryError HeartInstance)
    (tasks : Res RepositoryError (list HeartTask)) : WorkM unit :=
  let! db := get in
  let! x := st_lift (ok_or (wi_processes db !! item) (Storage [])) in
  let! w := st_lift (ok_or (wi_items db !! item) (Storage [])) in
  ensure (holds_process token x) (Storage []);;;
  let! instance := match x_heart_instance x with
                   | Some instance => st_ret instance
                   | None => let! instance := st_lift started in process_instance item token instance;;; st_ret instance
                   end in
  let! view := st_lift view in
  let! tasks := st_lift tasks in
  let! (task, state) := st_lift (check_export item w x instance view tasks) in
  match task with
  | Some task => st_bind (project message item token (x_channel x) task) (λ _, st_ret tt)
  | None => st_ret tt
  end;;;
  st_bind (process_settle item state token) (λ _, st_ret tt).

(** ** Exports: delivery *)

Definition update_export (item : Uuid) (p : ExportRow → bool) (f : ExportRow → ExportRow) : WorkM bool :=
  let! db := get in
  match wi_exports db !! item with
  | Some e => if p e then put (db <| wi_exports := <[item := f e]> (wi_exports db) |>);;; st_ret true
              else st_ret false
  | None => st_ret false
  end.
Definition deliverable (s : ExportStatus) : bool :=
  bool_decide (s ∈ [Export_pending; Export_blocked; Export_sending; Export_uncertain]).
Definition delivery_free (now : Z) (e : ExportRow) : bool := (e_lease_until e <? now)%Z && deliverable (e_status e).
Definition delivery_cmp (a b : Uuid * ExportRow) : comparison :=
  then_with (e_lease_until a.2 ?= e_lease_until b.2)%Z (e_created_at a.2 ?= e_created_at b.2)%Z.
Definition delivery_items (now : Z) (db : WorkDb) : list Uuid :=
  fst <$> take 5 (sort_by delivery_cmp (map_to_list (rows_where (λ _ e, delivery_free now e) (wi_exports db)))).
Definition holds_export (token : Uuid) (e : ExportRow) : bool := bool_decide (e_lease_token e = Some token).

(** An attempt whose worker is gone is uncertain. *)
Definition deliver_claim (item : Uuid) (now : Z) (token : Uuid) : WorkM bool :=
  update_export item (delivery_free now) (λ e,
    e <| e_lease_until := (now + 600)%Z |> <| e_lease_token := Some token |>
      <| e_status := if bool_decide (e_status e = Export_sending) then Export_uncertain else e_status e |>).
Definition deliver_release (item : Uuid) (now : Z) (token : Uuid) : WorkM bool :=
  update_export item (holds_export token) (λ e, e <| e_lease_until := (now + 60)%Z |> <| e_lease_token := None |>).

(** [Receipt]: the row as the worker read it. *)
Definition read_receipt (item token : Uuid) : WorkM ExportRow :=
  let! db := get in
  let! e := st_lift (ok_or (wi_exports db !! item) (Storage [])) in
  ensure (holds_export token e && bool_decide (is_Some (e_target e))) (Storage []);;;
  st_ret e.
Definition export_state (item token : Uuid) (state : ExportStatus) (attempt : option Z) : WorkM unit :=
  let! changed := update_export item (holds_export token) (λ e,
    e <| e_status := state |> <| e_attempted_at := union attempt (e_attempted_at e) |>) in
  ensure changed Conflict.
(** The issue as the table admits it. *)
Definition issue_valid (issue : Issue) : bool := (0 <? issue_id issue)%Z && (0 <? issue_number issue)%Z.
Definition settle_export `{JsonText} (receipt : ExportRow) (item token : Uuid) (issue : Issue) : WorkM unit :=
  transaction (
    let! changed := update_export item (λ e, holds_export token e
        && bool_decide (e_status e ∈ [Export_sending; Export_uncertain]))
      (λ e, e <| e_status := Export_sent |> <| e_issue := Some issue |>) in
    ensure changed Conflict;;;
    ensure (issue_valid issue) (Storage []);;;
    let note := json_to_string (V_object (<[lit "github_export" := S_string (lit "sent")]>
      (<[lit "issue_number" := S_number (issue_number issue)]>
       {[lit "issue_url" := S_string (issue_url issue)]}))) in
    modify (λ db, db <| wi_tasks := update_where (λ id t, bool_decide (id = e_task receipt)
      && bool_decide (t_item t = item) && bool_decide (is_Some (t_request t)))
      (λ t, t <| t_note := Some note |>) (wi_tasks db) |>)).

(** [deliver_export] between its calls to GitHub. *)
Inductive DeliverPhase : Type :=
  | Deliver_claimed
  | Deliver_check (r : ExportRow)
  | Deliver_find (r : ExportRow)
  | Deliver_verify (r : ExportRow)
  | Deliver_recheck (r : ExportRow)
  | Deliver_send (r : ExportRow)
  | Deliver_post (r : ExportRow)
  | Deliver_settle (r : ExportRow) (issue : Issue)
  | Deliver_block
  | Deliver_doubt
  | Deliver_done.
(** What GitHub answers: a call failed, it succeeded, what the search found, and the
    outcome of creating the issue. *)
Inductive GithubAnswer : Type :=
  | Github_failed
  | Github_ok
  | Github_found (issue : option Issue)
  | Github_created (issue : Issue)
  | Github_rejected
  | Github_uncertain.

Definition deliver_step `{JsonText} (self : Service) (now : Z) (item token : Uuid) (answer : GithubAnswer)
    (phase : DeliverPhase) (db : WorkDb) : DeliverPhase * WorkDb :=
  match phase with
  | Deliver_claimed =>
      match read_receipt item token db with
      | (Ok r, db) => (if github self then Deliver_check r else Deliver_done, db)
      | (_, db) => (Deliver_done, db)
      end
  | Deliver_check r =>
      (if bool_decide (e_status r = Export_uncertain) then Deliver_find r
       else if export_allowed item (e_actor r) (Some r) db then Deliver_verify r else Deliver_block, db)
  | Deliver_find r =>
      (match answer with Github_found (Some issue) => Deliver_settle r issue | _ => Deliver_done end, db)
  | Deliver_verify r => (match answer with Github_ok => Deliver_recheck r | _ => Deliver_done end, db)
  | Deliver_recheck r =>
      (if export_allowed item (e_actor r) (Some r) db then Deliver_send r else Deliver_block, db)
  | Deliver_send r =>
      match export_state item token Export_sending (Some now) db with
      | (Ok _, db) => (Deliver_post r, db)
      | (_, db) => (Deliver_done, db)
      end
  | Deliver_post r =>
      (match answer with
       | Github_created issue => Deliver_settle r issue
       | Github_rejected => Deliver_block
       | _ => Deliver_doubt
       end, db)
  | Deliver_settle r issue => (Deliver_done, (settle_export r item token issue db).2)
  | Deliver_block => (Deliver_done, (export_state item token Export_blocked None db).2)
  | Deliver_doubt => (Deliver_done, (export_state item token Export_uncertain None db).2)
  | Deliver_done => (Deliver_done, (deliver_release item now token db).2)
  end.
