(* ===== verification/WorkReach.v ===== *)
(** * WorkReach: cases under any interleaving of users and workers

    The operations of [WorkItems] and the workers of [WorkDelivery] as a step relation
    with any number of workers, whose steps interleave with everything else, and the
    effects the operations have on the tables the invariants are about. *)

From Stdlib Require Import ZifyBool.
From stdpp Require Import base tactics numbers strings countable sorting gmap list relations.
From S2P Require Import Prelude RustStr Text Ids Models RepoState Sql WorkItems WorkDelivery.

Create HintDb work_reads.

Section machine.
Context `{JsonText, UuidLib}.

(** ** The step relation *)

Inductive WorkOp : Type :=
  | Op_config (f : WorkConfig)
  | Op_register (id : Uuid) (now : Z) (actor : UserId) (c : ChannelId) (command : Registration)
  | Op_supplement (self : Service) (id : Uuid) (now : Z) (actor : UserId) (item : Uuid) (command : SupplementCommand)
  | Op_decide (self : Service) (actor : UserId) (id : Uuid) (command : Decision)
  | Op_start_status (self : Service) (id : Uuid) (now : Z) (actor : UserId) (item : Uuid) (command : StatusStart)
  | Op_change_status (self : Service) (now : Z) (history : Uuid) (actor : UserId) (id : Uuid) (command : StatusDecision)
  | Op_export (self : Service) (now : Z) (actor : UserId) (id : Uuid) (command : ExportCommand)
  | Op_start_claim (id : Uuid) (now : Z)
  | Op_start_settle (id : Uuid) (now : Z) (outcome : option Uuid)
  | Op_fail (item : Uuid)
  | Op_status_claim (id : Uuid) (now : Z) (token : Uuid)
  | Op_status_instance (id token instance : Uuid)
  | Op_status_settle (id : Uuid) (state : ChangeStatus) (token : Uuid)
  | Op_status_release (id : Uuid) (next : Z) (token : Uuid)
  | Op_status_message (message : MessageId) (now : Z) (id token : Uuid) (task : option HeartTask)
  | Op_seed (now : Z)
  | Op_process_claim (item : Uuid) (now : Z) (token : Uuid)
  | Op_process_instance (item token instance : Uuid)
  | Op_process_settle (item : Uuid) (state : ChangeStatus) (token : Uuid)
  | Op_process_release (item : Uuid) (next : Z) (token : Uuid)
  | Op_publish (message : MessageId) (item token : Uuid) (c : ChannelId) (task : HeartTask).

(** The task of an export process. *)
Definition publishing (task : HeartTask) : HeartTask :=
  mk_HeartTask (ht_id task) (ht_instance task) Node_publish_github (ht_assignee task) (ht_status task)
    (ht_result task).

Definition work_op (op : WorkOp) (db : WorkDb) : WorkDb :=
  match op with
  | Op_config f => db <| wi_config := f |>
  | Op_register id now actor c command => (register id now actor c command db).2
  | Op_supplement self id now actor item command => (add_supplement self id now actor item command db).2
  | Op_decide self actor id command => (decide_item self actor id command db).2
  | Op_start_status self id now actor item command => (start_status self id now actor item command db).2
  | Op_change_status self now history actor id command => (change_status self now history actor id command db).2
  | Op_export self now actor id command => (export_github self now actor id command db).2
  | Op_start_claim id now => (start_claim id now db).2
  | Op_start_settle id now outcome => (start_settle id now outcome db).2
  | Op_fail item => (fail_deliveries item db).2
  | Op_status_claim id now token => (status_claim id now token db).2
  | Op_status_instance id token instance => (status_instance id token instance db).2
  | Op_status_settle id state token => (status_settle id state token db).2
  | Op_status_release id next token => (status_release id next token db).2
  | Op_status_message message now id token task => (project_status_message message now id token task db).2
  | Op_seed now => (seed_processes now db).2
  | Op_process_claim item now token => (process_claim item now token db).2
  | Op_process_instance item token instance => (process_instance item token instance db).2
  | Op_process_settle item state token => (process_settle item state token db).2
  | Op_process_release item next token => (process_release item next token db).2
  | Op_publish message item token c task => (project message item token c (publishing task) db).2
  end.

(** The tables, the workers by the token of their lease, and, for each case, the
    requests to create an issue that GitHub may have carried out. *)
Record World : Type := mk_World {
  wd_db : WorkDb;
  wd_syncs : gmap Uuid (Uuid * SyncPhase);
  wd_deliveries : gmap Uuid (Uuid * DeliverPhase);
  wd_posts : gmap Uuid (list ExportRow) }.
#[export] Instance World_eta : Eta World := λ w,
  mk_World (wd_db w) (wd_syncs w) (wd_deliveries w) (wd_posts w).
Definition posts (w : World) (item : Uuid) : list ExportRow := default [] (wd_posts w !! item).

(** GitHub may have created the issue unless it rejected the request. *)
Definition may_create (phase : DeliverPhase) (answer : GithubAnswer) : option ExportRow :=
  match phase, answer with
  | Deliver_post _, Github_rejected => None
  | Deliver_post r, _ => Some r
  | _, _ => None
  end.

(** What the code relies on in Heart: an identifier of a task belongs to one node. *)
Definition heart_keeps_node (db : WorkDb) (task : HeartTask) : Prop :=
  ∀ t, wi_tasks db !! ht_id task = Some t → t_node t = ht_node task.
Definition op_honest (db : WorkDb) (op : WorkOp) : Prop :=
  match op with Op_publish _ _ _ _ task => heart_keeps_node db (publishing task) | _ => True end.
Definition phase_honest (db : WorkDb) (phase : SyncPhase) : Prop :=
  match phase with Sync_projecting _ (task :: _) _ => heart_keeps_node db task | _ => True end.

Inductive work_step (w : World) : World → Prop :=
  | Step_op op : op_honest (wd_db w) op → work_step w (w <| wd_db := work_op op (wd_db w) |>)
  | Step_sync_claim item now token db :
      wd_syncs w !! token = None →
      sync_claim item now token (wd_db w) = (Ok true, db) →
      work_step w (w <| wd_db := db |> <| wd_syncs := <[token := (item, Sync_claimed)]> (wd_syncs w) |>)
  | Step_reconcile_start token item view tasks phase db :
      wd_syncs w !! token = Some (item, Sync_claimed) →
      reconcile_start item token view tasks (wd_db w) = (Ok phase, db) →
      work_step w (w <| wd_db := db |> <| wd_syncs := <[token := (item, phase)]> (wd_syncs w) |>)
  | Step_reconcile message token item channel_of phase phase' db :
      wd_syncs w !! token = Some (item, phase) → phase_honest (wd_db w) phase →
      reconcile_step message item token channel_of phase (wd_db w) = (Ok phase', db) →
      work_step w (w <| wd_db := db |> <| wd_syncs := <[token := (item, phase')]> (wd_syncs w) |>)
  | Step_sync_release token item phase next :
      wd_syncs w !! token = Some (item, phase) →
      work_step w (w <| wd_db := (sync_release item next token (wd_db w)).2 |>
                     <| wd_syncs := delete token (wd_syncs w) |>)
  | Step_deliver_claim item now token db :
      wd_deliveries w !! token = None →
      deliver_claim item now token (wd_db w) = (Ok true, db) →
      work_step w (w <| wd_db := db |> <| wd_deliveries := <[token := (item, Deliver_claimed)]> (wd_deliveries w) |>)
  | Step_deliver self now token item phase answer :
      wd_deliveries w !! token = Some (item, phase) →
      let r := deliver_step self now item token answer phase (wd_db w) in
      work_step w (w <| wd_db := r.2 |> <| wd_deliveries := <[token := (item, r.1)]> (wd_deliveries w) |>
                     <| wd_posts := match may_create phase answer with
                                    | Some r => <[item := r :: posts w item]> (wd_posts w)
                                    | None => wd_posts w
                                    end |>).

Definition empty_world (f : WorkConfig) : World := {|
  wd_db := mk_WorkDb f ∅ ∅ ∅ ∅ ∅ ∅ ∅ ∅; wd_syncs := ∅; wd_deliveries := ∅; wd_posts := ∅ |}.
Definition work_reachable (w : World) : Prop := ∃ f, rtc work_step (empty_world f) w.

(** ** What an operation does to cases, tasks, supplements, history and exports *)

(** The same case but for the fields of its start. *)
Definition same_case (w w' : WorkItem) : Prop :=
  ∃ instance status attempts until available, w' = w <| w_heart_instance := instance |>
    <| w_start_status := status |> <| w_start_attempts := attempts |> <| w_lease_until := until |>
    <| w_available_at := available |>.
Definition fresh_case (w : WorkItem) : Prop :=
  w_revision w = 1%Z ∧ w_status w = Item_new ∧ w_process_status w = Process_starting
  ∧ w_sync_lease_token w = None.

(** The columns of a decision, by the node of the task. *)
Definition final_statuses : list ItemStatus := [Item_planned; Item_resolved; Item_rejected].
Definition decided_columns (t : TaskRow) : Prop :=
  match t_node t with
  | Node_review | Node_followup_review =>
      is_Some (t_category t) ∧ is_Some (t_priority t) ∧ ∃ d, t_decision t = Some d
        ∧ (d ∈ final_statuses ∨ t_node t = Node_review ∧ d = Item_needs_information)
  | _ => t_category t = None ∧ t_priority t = None ∧ t_decision t = None
  end.
Definition undecided_columns (t : TaskRow) : Prop :=
  t_category t = None ∧ t_priority t = None ∧ t_decision t = None ∧ t_revision t = None.
(** The task as it was, with a command of this revision accepted. *)
Definition accepted (w : WorkItem) (t t' : TaskRow) : Prop :=
  t_request t = None ∧ is_Some (t_request t') ∧ t_revision t' = Some (w_revision w)
  ∧ t_item t' = t_item t ∧ t_node t' = t_node t ∧ t_assignee t' = t_assignee t
  ∧ t_status t = Task_pending ∧ t_status t' = Task_pending.
(** The task as it was but for its delivery, note and status. *)
Definition same_task (t t' : TaskRow) : Prop :=
  ∃ status note delivery, t' = t <| t_status := status |> <| t_note := note |> <| t_delivery := delivery |>.

Inductive effect (db db' : WorkDb) : Prop :=
  | Ef_outside :
      wi_items db' = wi_items db → wi_tasks db' = wi_tasks db → wi_supplements db' = wi_supplements db →
      wi_history db' = wi_history db → wi_exports db' = wi_exports db → effect db db'
  | Ef_register id w :
      wi_items db !! id = None → fresh_case w →
      (∀ k x, wi_items db !! k = Some x → requested (w_requested_by w) (w_request_id w) k x = false) →
      wi_items db' = <[id := w]> (wi_items db) →
      wi_tasks db' = wi_tasks db → wi_supplements db' = wi_supplements db →
      wi_history db' = wi_history db → wi_exports db' = wi_exports db → effect db db'
  | Ef_start id w w' :
      wi_items db !! id = Some w → same_case w w' → wi_items db' = <[id := w']> (wi_items db) →
      wi_tasks db' = wi_tasks db → wi_supplements db' = wi_supplements db →
      wi_history db' = wi_history db → wi_exports db' = wi_exports db → effect db db'
  | Ef_supplement id item w s :
      wi_items db !! item = Some w → wi_supplements db !! id = None → s_item s = item →
      s_revision s = w_revision w → w_process_status w = Process_waiting →
      wi_items db' = <[item := bump w]> (wi_items db) → wi_tasks db' = wi_tasks db →
      wi_supplements db' = <[id := s]> (wi_supplements db) →
      wi_history db' = wi_history db → wi_exports db' = wi_exports db → effect db db'
  | Ef_decide id t t' w :
      wi_tasks db !! id = Some t → wi_items db !! t_item t = Some w → accepted w t t' →
      decided_columns t' → t_node t ≠ Node_publish_github → w_process_status w = Process_waiting →
      wi_items db' = <[t_item t := bump w]> (wi_items db) → wi_tasks db' = <[id := t']> (wi_tasks db) →
      wi_supplements db' = wi_supplements db →
      wi_history db' = wi_history db → wi_exports db' = wi_exports db → effect db db'
  | Ef_history id h w :
      wi_items db !! h_item h = Some w → wi_history db !! id = None → h_revision h = (w_revision w + 1)%Z →
      h_from h = w_status w → h_to h ∈ transitions (w_status w) → w_process_status w = Process_completed →
      wi_items db' = <[h_item h := bump (w <| w_status := h_to h |>)]> (wi_items db) →
      wi_tasks db' = wi_tasks db → wi_supplements db' = wi_supplements db →
      wi_history db' = <[id := h]> (wi_history db) → wi_exports db' = wi_exports db → effect db db'
  | Ef_export id t t' w e :
      wi_tasks db !! id = Some t → wi_items db !! t_item t = Some w → accepted w t t' →
      t_node t = Node_publish_github → t_category t' = t_category t → t_priority t' = t_priority t →
      t_decision t' = t_decision t → wi_exports db !! t_item t = None →
      e_status e = (if e_send e then Export_pending else Export_skipped) → e_lease_token e = None →
      wi_items db' = <[t_item t := bump w]> (wi_items db) → wi_tasks db' = <[id := t']> (wi_tasks db) →
      wi_supplements db' = wi_supplements db → wi_history db' = wi_history db →
      wi_exports db' = <[t_item t := e]> (wi_exports db) → effect db db'
  | Ef_tasks f :
      (∀ id t, wi_tasks db !! id = Some t → same_task t (f id t)
         ∧ (t_status (f id t) = t_status t ∨ t_node t = Node_publish_github)) →
      wi_items db' = wi_items db → wi_tasks db' = map_imap (λ id t, Some (f id t)) (wi_tasks db) →
      wi_supplements db' = wi_supplements db →
      wi_history db' = wi_history db → wi_exports db' = wi_exports db → effect db db'
  | Ef_task id t :
      wi_tasks db !! id = None → t_node t = Node_publish_github → t_request t = None → undecided_columns t →
      wi_items db' = wi_items db → wi_tasks db' = <[id := t]> (wi_tasks db) →
      wi_supplements db' = wi_supplements db →
      wi_history db' = wi_history db → wi_exports db' = wi_exports db → effect db db'.

(** ** Methods that only read *)

Definition reads {A} (m : WorkM A) : Prop := ∀ db r db', m db = (r, db') → db' = db.
Lemma reads_bind {A B} (m : WorkM A) (k : A → WorkM B) : reads m → (∀ a, reads (k a)) → reads (st_bind m k).
Proof.
  intros Hm Hk db r db'. unfold st_bind. destruct (m db) as [[a| |] d] eqn:E.
  - intros ->%Hk. by eapply Hm.
  - intros [= _ <-]. by eapply Hm.
  - intros [= _ <-]. by eapply Hm.
Qed.
Lemma reads_get : reads get.
Proof. by intros db r db' [= _ <-]. Qed.
Lemma reads_ensure b e : reads (ensure b e).
Proof. by intros db r db' [= _ <-]. Qed.
Lemma reads_lift {A} (x : Res RepositoryError A) : reads (st_lift x).
Proof. by intros db r db' [= _ <-]. Qed.
Lemma reads_ret {A} (a : A) : reads (st_ret a).
Proof. by intros db r db' [= _ <-]. Qed.
#[local] Hint Resolve reads_get reads_ensure reads_lift reads_ret : work_reads.
Ltac reading := repeat first [ solve [eauto with work_reads] | apply reads_bind; [|intros]
  | match goal with |- reads (let _ := _ in _) => intros ? | |- reads (match ?x with _ => _ end) => destruct x end ].

Lemma lifecycle_reads actor item : reads (lifecycle actor item).
Proof. unfold lifecycle. reading. Qed.
#[local] Hint Resolve lifecycle_reads : work_reads.
Lemma export_view_reads self actor item : reads (export_view self actor item).
Proof. unfold export_view. reading. Qed.
#[local] Hint Resolve export_view_reads : work_reads.
Lemma task_reads self actor id message : reads (task self actor id message).
Proof. unfold task, status_task. reading. Qed.
Lemma source_items_reads self actor c m item : reads (read_source_items self actor c m item).
Proof. unfold read_source_items. reading. Qed.
Lemma member_reads actor c : reads (member actor c).
Proof. unfold member. reading. Qed.

(** Guards before and reads after a transaction. *)
Lemma guarded_effect {A} b e (m : WorkM A) db :
  effect db (m db).2 → effect db (st_bind (ensure b e) (λ _, m) db).2.
Proof. unfold st_bind, ensure. destruct b; [done|]. intros _. by apply Ef_outside. Qed.
Lemma read_after {A B} (m : WorkM A) (k : A → WorkM B) db :
  (∀ a, reads (k a)) → (st_bind m k db).2 = (m db).2.
Proof.
  intros Hk. unfold st_bind. destruct (m db) as [[a| |] d]; [|done..].
  destruct (k a d) as [r d'] eqn:E. by rewrite (Hk a _ _ _ E).
Qed.
Lemma read_before {A B} (m : WorkM A) (k : A → WorkM B) db :
  reads m → (∀ a, effect db (k a db).2) → effect db (st_bind m k db).2.
Proof.
  intros Hm Hk. unfold st_bind. destruct (m db) as [[a| |] d] eqn:E; rewrite (Hm _ _ _ E);
    [apply Hk|by apply Ef_outside..].
Qed.
Lemma transaction_effect {A} (m : WorkM A) db :
  (∀ a db', m db = (Ok a, db') → effect db db') → effect db (transaction m db).2.
Proof.
  intros Hm. unfold transaction. destruct (m db) as [[a| |] d] eqn:E; simpl; [by eapply Hm|by apply Ef_outside..].
Qed.

(** ** The effect of every operation *)

Lemma register_effect id now actor c command db : effect db (register id now actor c command db).2.
Proof.
  apply guarded_effect, read_before; [apply member_reads|]. intros _. apply transaction_effect.
  intros v db' Hr. ok_inv Hr; [by apply Ef_outside|]. bool_facts.
  eapply Ef_register; try reflexivity; [done|by split_and!|].
  intros k old Hk. by eapply fetch_where_None.
Qed.
Lemma alter_lookup {K V} `{Countable K} (f : V → V) (m : gmap K V) k v :
  m !! k = Some v → alter f k m = <[k := f v]> m.
Proof.
  intros Hk. apply map_eq. intros k'. destruct (decide (k' = k)) as [->|Hne].
  - by rewrite lookup_alter_eq, lookup_insert_eq, Hk.
  - by rewrite lookup_alter_ne, lookup_insert_ne.
Qed.
Lemma supplement_effect self id now actor item command db :
  effect db (add_supplement self id now actor item command db).2.
Proof.
  apply guarded_effect. rewrite read_after by (intros; apply reads_bind; [apply source_items_reads|intros; apply reads_lift]).
  apply transaction_effect. intros c db' Hr. ok_inv Hr; [by apply Ef_outside|]. bool_facts.
  unfold open_review in *. bool_facts.
  eapply (Ef_supplement _ _ id item); try reflexivity; try done; by apply alter_lookup.
Qed.

Lemma value_of_Some {A} (as_str : A → str) all s a : value_of as_str all s = Some a → a ∈ all.
Proof.
  unfold value_of. intros (i & Hi & _)%find_first_Some. by eapply list_elem_of_lookup_2.
Qed.
Lemma decision_columns_ok information can_request command category priority status node :
  decision_columns information can_request command = Some (category, priority, status) →
  information = bool_decide (node = Node_provide_information) →
  (can_request = true → node = Node_review) →
  node ∈ [Node_review; Node_followup_review; Node_provide_information] →
  match node with
  | Node_review | Node_followup_review =>
      is_Some category ∧ is_Some priority ∧ ∃ d, status = Some d
        ∧ (d ∈ final_statuses ∨ node = Node_review ∧ d = Item_needs_information)
  | _ => category = None ∧ priority = None ∧ status = None
  end.
Proof.
  intros Hd Hi Hc Hn. unfold decision_columns in Hd. rewrite Hi in Hd. case_bool_decide as Hp.
  - subst node. by destruct (_ && _); simplify_eq.
  - destruct (value_of Category_as_str _ _) as [cat|] eqn:E1; [|done].
    destruct (value_of Priority_as_str _ _) as [pri|] eqn:E2; [|done].
    destruct (value_of ItemStatus_as_str _ _) as [st|] eqn:E3; [|done]. simplify_eq/=.
    assert (is_Some (Some cat) ∧ is_Some (Some pri) ∧ ∃ d, Some st = Some d
      ∧ (d ∈ final_statuses ∨ node = Node_review ∧ d = Item_needs_information)) as Hgoal.
    { split_and!; [done..|]. exists st. split; [done|]. apply value_of_Some in E3.
      unfold decided_statuses in E3. apply elem_of_app in E3 as [?|E3]; [by left|]. right.
      destruct can_request; [|by apply elem_of_nil in E3]. simpl in E3.
      destruct (negb _); [|by apply elem_of_nil in E3]. apply list_elem_of_singleton in E3. auto. }
    destruct node; try exact Hgoal; set_solver.
Qed.

Lemma assigned_node f w t :
  assigned_allowed f w t = true → t_node t ≠ Node_publish_github →
  t_node t ∈ [Node_review; Node_followup_review; Node_provide_information].
Proof.
  unfold assigned_allowed, reviewing_node. intros [_ Ha]%andb_true_iff Hn.
  apply orb_true_iff in Ha as [Ha|Ha]; bool_facts; set_solver.
Qed.
Lemma decide_effect self actor id command db : effect db (decide_item self actor id command db).2.
Proof.
  apply guarded_effect. rewrite read_after by (intros; apply task_reads).
  apply transaction_effect. intros u db' Hr. ok_inv Hr; [by apply Ef_outside|]. bool_facts.
  match goal with Ht : wi_tasks ?db !! id = Some ?t, Hw : wi_items ?db !! t_item ?t = Some ?w |- _ =>
    eapply (Ef_decide _ _ id t _ w Ht Hw); try reflexivity; try done;
      [| |by apply alter_lookup|by apply alter_lookup] end.
  - split_and!; try done; [by apply eq_None_not_Some|]. simpl. f_equal. lia.
  - unfold decided_columns. simpl. eapply decision_columns_ok; [done|done| |by eapply assigned_node].
    intros Hc. by bool_facts.
Qed.
Lemma export_effect self now actor id command db : effect db (export_github self now actor id command db).2.
Proof.
  apply guarded_effect. rewrite read_after by (intros; apply task_reads).
  apply transaction_effect. intros u db' Hr. ok_inv Hr; [by apply Ef_outside|]. bool_facts.
  match goal with Ht : wi_tasks ?db !! id = Some ?t, Hw : wi_items ?db !! t_item ?t = Some ?w
      |- context [update_task id ?f _] =>
    eapply (Ef_export _ _ id t (f t) w _ Ht Hw); try reflexivity; try done;
      [|exact (alter_lookup bump _ _ _ Hw)|exact (alter_lookup f _ _ _ Ht)] end.
  split_and!; try done. simpl. f_equal. lia.
Qed.
Lemma status_route_completed db actor item r :
  status_route db actor item = Some r →
  ∃ w, wi_items db !! item = Some w ∧ w_process_status w = Process_completed.
Proof.
  unfold status_route. intros Hin%head_Some_elem_of.
  unfold route_rows in Hin. destruct (wi_items db !! item) as [w|]; [|by apply elem_of_nil in Hin].
  exists w. split; [done|]. apply list_elem_of_bind in Hin as ([route rr] & Hin & _).
  destruct (f_bindings _ !! _); [|by apply elem_of_nil in Hin].
  destruct (f_channels _ !! _); [|by apply elem_of_nil in Hin].
  destruct (_ && _) eqn:E; [|by apply elem_of_nil in Hin]. by bool_facts.
Qed.
Lemma change_status_effect self now history actor id command db :
  effect db (change_status self now history actor id command db).2.
Proof.
  apply guarded_effect. rewrite read_after by (intros; apply task_reads).
  apply transaction_effect. intros u db' Hr. ok_inv Hr; try by apply Ef_outside.
  bool_facts. match goal with Hs : status_route _ _ _ = Some _ |- _ =>
    apply status_route_completed in Hs as (w & Hw & Hc) end. simplify_eq.
  match goal with Hd : decided_status _ _ = Some _ |- _ => unfold decided_status in Hd end.
  destruct (sd_no_change command); [done|].
  match goal with Hd : value_of _ _ _ = Some ?to |- _ => apply value_of_Some in Hd end.
  eapply Ef_history; try reflexivity; try done; simpl; [lia|].
  by erewrite alter_lookup.
Qed.

Lemma update_item_cases id p f db :
  update_item id p f db = (Ok false, db)
  ∨ ∃ w, wi_items db !! id = Some w ∧ p w = true
         ∧ update_item id p f db = (Ok true, db <| wi_items := <[id := f w]> (wi_items db) |>).
Proof.
  unfold update_item. st_compute. destruct (wi_items db !! id) as [w|] eqn:Hw; [|by left].
  destruct (p w) eqn:Hp; [|by left]. right. eauto.
Qed.
Lemma start_effect id p f db :
  (∀ w, same_case w (f w)) → effect db (update_item id p f db).2.
Proof.
  intros Hf. destruct (update_item_cases id p f db) as [->|(w & Hw & _ & ->)]; [by apply Ef_outside|].
  by eapply Ef_start.
Qed.
Lemma same_case_intro w w' :
  w' = w <| w_heart_instance := w_heart_instance w' |> <| w_start_status := w_start_status w' |>
         <| w_start_attempts := w_start_attempts w' |> <| w_lease_until := w_lease_until w' |>
         <| w_available_at := w_available_at w' |> → same_case w w'.
Proof. intros ->. by eexists _, _, _, _, _. Qed.

Lemma start_status_effect self id now actor item command db :
  effect db (start_status self id now actor item command db).2.
Proof.
  apply guarded_effect, read_before; [apply task_reads|]. intros view. apply guarded_effect.
  apply transaction_effect. intros u db' Hr. ok_inv Hr; by apply Ef_outside.
Qed.
Lemma update_change_outside id p f db : effect db (update_change id p f db).2.
Proof.
  unfold update_change. st_compute. destruct (wi_changes db !! id) as [c|]; [|by apply Ef_outside].
  destruct (p c); by apply Ef_outside.
Qed.
Lemma update_process_outside id p f db : effect db (update_process id p f db).2.
Proof.
  unfold update_process. st_compute. destruct (wi_processes db !! id) as [c|]; [|by apply Ef_outside].
  destruct (p c); by apply Ef_outside.
Qed.
Lemma status_message_effect message now id token task db :
  effect db (project_status_message message now id token task db).2.
Proof.
  apply transaction_effect. unfold post_message. intros m db' Hr. ok_inv Hr; by apply Ef_outside.
Qed.
Lemma fail_effect item db : effect db (fail_deliveries item db).2.
Proof.
  eapply Ef_tasks; [|try reflexivity..]. intros id t _. simpl.
  destruct (_ && _); (split; [|by left]).
  - by exists (t_status t), (t_note t), Delivery_failed; destruct t.
  - by exists (t_status t), (t_note t), (t_delivery t); destruct t.
Qed.

(** What showing or confirming a task does. *)
Definition settled (task : HeartTask) (status : TaskStatus) (t : TaskRow) (w : WorkItem) : WorkItem :=
  if bool_decide (status = Task_completed) then
    match t_category t, t_priority t, t_decision t with
    | Some category, Some priority, Some decision =>
        w <| w_category := Some category |> <| w_priority := Some priority |> <| w_status := decision |>
    | _, _, _ => if bool_decide (ht_node task = Node_provide_information) then w <| w_status := Item_reviewing |> else w
    end
  else w.
Definition confirmed (status : TaskStatus) (t : TaskRow) : TaskRow :=
  t <| t_status := status |>
    <| t_delivery := if bool_decide (status = Task_completed) then Delivery_ready else t_delivery t |>.
Definition shown (message : MessageId) (item : Uuid) (c : ChannelId) (task : HeartTask) (status : TaskStatus)
    : TaskRow := {|
  t_item := item; t_message := message; t_channel := c; t_assignee := ht_assignee task;
  t_node := ht_node task; t_status := status; t_request := None; t_category := None; t_priority := None;
  t_decision := None; t_note := None; t_revision := None; t_supplement := None;
  t_delivery := Delivery_ready |}.
Definition checked_task (w : WorkItem) (task : HeartTask) : bool :=
  bool_decide (w_version w = V1_1_0) || bool_decide (ht_node task = Node_publish_github).

Lemma confirm_task_Ok item w task t db u db' :
  confirm_task item (w_version w) task t db = (Ok u, db') →
  wi_items db !! item = Some w → wi_tasks db !! ht_id task = Some t →
  ∃ status, ht_status task = Some status
    ∧ (t_status t = Task_pending ∨ t_status t = status)
    ∧ (status = Task_completed → checked_task w task = true → is_Some (t_request t)
       ∧ ht_result task = Some (completion_result (ht_node task) (t_category t) (t_priority t)
                                  (t_decision t) (t_note t)))
    ∧ wi_items db' = <[item := settled task status t w]> (wi_items db)
    ∧ wi_tasks db' = <[ht_id task := confirmed status t]> (wi_tasks db)
    ∧ wi_supplements db' = wi_supplements db ∧ wi_history db' = wi_history db ∧ wi_exports db' = wi_exports db.
Proof.
  unfold confirm_task, settled, confirmed, checked_task. intros Hr Hw Ht.
  destruct (ht_status task) as [status|]; [|done]. exists status. st_simpl Hr.
  destruct (bool_decide (t_status t = Task_pending) || _) eqn:E1; [|done].
  destruct (negb _ || _) eqn:E2 in Hr; [|done]. simpl in E1.
  split; [done|]. split.
  { apply orb_true_iff in E1 as [E1|E1]; bool_facts; auto. }
  split.
  { intros -> Hc. rewrite Hc, bool_decide_eq_true_2 in E2 by done. simpl in E2. by bool_facts. }
  destruct (bool_decide (status = Task_completed)).
  - destruct (t_category t), (t_priority t), (t_decision t), (bool_decide (ht_node task = Node_provide_information));
      st_simpl Hr; simpl; rewrite ?(alter_lookup _ _ _ _ Ht), ?(alter_lookup _ _ _ _ Hw);
      rewrite ?(insert_id _ _ _ Hw); done.
  - st_simpl Hr. simpl. rewrite (alter_lookup _ _ _ _ Ht), (insert_id _ _ _ Hw). done.
Qed.
Lemma show_task_Ok message item w c task db u db' :
  show_task message item (w_version w) c task db = (Ok u, db') →
  ∃ status, ht_status task = Some status ∧ wi_tasks db !! ht_id task = None
    ∧ (status = Task_completed → checked_task w task = false) ∧ preceded db item (ht_node task) = true
    ∧ (∀ id t, wi_tasks db !! id = Some t → t_item t = item → t_node t ≠ ht_node task)
    ∧ wi_items db' = wi_items db
    ∧ wi_tasks db' = <[ht_id task := shown message item c task status]> (wi_tasks db)
    ∧ wi_supplements db' = wi_supplements db ∧ wi_history db' = wi_history db ∧ wi_exports db' = wi_exports db.
Proof.
  unfold show_task, post_message, checked_task. intros Hr. ok_inv Hr. bool_facts.
  eexists. split; [done|]. split; [done|]. split.
  { intros ->. match goal with H : context [Task_completed = Task_completed] |- _ => rewrite (bool_decide_eq_true_2 (Task_completed = _)), andb_true_r in H by done; exact H end. }
  split; [done|]. split; [|by split_and!].
  intros id t Ht Hi Hn. match goal with H : rows_where _ _ = ∅ |- _ => pose proof (rows_where_empty _ _ _ _ H Ht) as Hf end.
  cbv beta in Hf. by rewrite (bool_decide_eq_true_2 _ Hi), (bool_decide_eq_true_2 _ Hn), orb_true_r in Hf.
Qed.
Lemma project_cases message item token c task db m db' :
  project message item token c task db = (Ok m, db') →
  may_project db item token c task = true ∧ ∃ w status,
    wi_items db !! item = Some w ∧ ht_status task = Some status
    ∧ wi_supplements db' = wi_supplements db ∧ wi_history db' = wi_history db ∧ wi_exports db' = wi_exports db
    ∧ ((∃ t, wi_tasks db !! ht_id task = Some t ∧ t_item t = item
          ∧ (t_status t = Task_pending ∨ t_status t = status)
          ∧ (status = Task_completed → checked_task w task = true → is_Some (t_request t)
             ∧ ht_result task = Some (completion_result (ht_node task) (t_category t) (t_priority t)
                                        (t_decision t) (t_note t)))
          ∧ wi_items db' = <[item := settled task status t w]> (wi_items db)
          ∧ wi_tasks db' = <[ht_id task := confirmed status t]> (wi_tasks db))
       ∨ (wi_tasks db !! ht_id task = None ∧ (status = Task_completed → checked_task w task = false)
          ∧ preceded db item (ht_node task) = true
          ∧ (∀ id t, wi_tasks db !! id = Some t → t_item t = item → t_node t ≠ ht_node task)
          ∧ wi_items db' = wi_items db
          ∧ wi_tasks db' = <[ht_id task := shown message item c task status]> (wi_tasks db))).
Proof.
  unfold project. rewrite transaction_Ok. intros Hr. ok_inv Hr; bool_facts; (split; [done|]).
  - match goal with H : confirm_task _ _ _ _ _ = _ |- _ => eapply confirm_task_Ok in H; [|done..] end.
    naive_solver.
  - match goal with H : show_task _ _ _ _ _ _ = _ |- _ => apply show_task_Ok in H end. naive_solver.
  - match goal with H : show_task _ _ _ _ _ _ = _ |- _ => apply show_task_Ok in H end. naive_solver.
Qed.

(** An export task carries no decision of its own. *)
Definition publish_undecided (db : WorkDb) : Prop :=
  ∀ id t, wi_tasks db !! id = Some t → t_node t = Node_publish_github →
    t_category t = None ∧ t_priority t = None ∧ t_decision t = None.
Lemma confirmed_same status t : same_task t (confirmed status t).
Proof. by exists status, (t_note t), (if bool_decide (status = Task_completed) then Delivery_ready else t_delivery t); destruct t. Qed.
Lemma same_task_refl t : same_task t t.
Proof. by exists (t_status t), (t_note t), (t_delivery t); destruct t. Qed.
Lemma insert_as_imap {V} (m : gmap Uuid V) k v v' :
  m !! k = Some v → <[k := v']> m = map_imap (λ i x, Some (if bool_decide (i = k) then v' else x)) m.
Proof.
  intros Hk. apply map_eq. intros i. rewrite map_lookup_imap. destruct (decide (i = k)) as [->|Hne].
  - by rewrite lookup_insert_eq, Hk, bool_decide_eq_true_2.
  - rewrite lookup_insert_ne, bool_decide_eq_false_2 by done. by destruct (m !! i).
Qed.
Lemma settled_undecided task status t w :
  t_decision t = None → ht_node task ≠ Node_provide_information → settled task status t w = w.
Proof.
  unfold settled. intros -> Hn. rewrite (bool_decide_eq_false_2 _ Hn).
  by destruct (bool_decide _), (t_category t), (t_priority t).
Qed.
Lemma publish_task_effect message item token c task db :
  ht_node task = Node_publish_github → heart_keeps_node db task → publish_undecided db →
  effect db (project message item token c task db).2.
Proof.
  intros Hn Hk Hu. destruct (project message item token c task db) as [r db'] eqn:E.
  destruct r as [m| |]; [|unfold project, transaction in E; by repeat case_match; simplify_eq; apply Ef_outside..].
  apply project_cases in E as (_ & w & status & Hw & _ & Hs & Hh & He & [(t & Ht & Hi & _ & _ & Hit & Hta)|
    (Hnone & _ & _ & _ & Hit & Hta)]).
  - pose proof (Hk _ Ht) as Hnt. rewrite settled_undecided, (insert_id _ _ _ Hw) in Hit;
      [|by eapply (Hu _ _ Ht); congruence|by rewrite Hn].
    rewrite (insert_as_imap _ _ _ _ Ht) in Hta. apply (Ef_tasks _ _ (λ i x, if bool_decide (i = ht_id task) then confirmed status t else x)); [|done..].
    intros id t' Ht'. simpl. case_bool_decide; [|by split; [apply same_task_refl|left]]. simplify_eq.
    split; [apply confirmed_same|right; congruence].
  - by eapply (Ef_task _ _ (ht_id task)); try done.
Qed.

Lemma op_effect op db : op_honest db op → publish_undecided db → effect db (work_op op db).
Proof.
  intros Hh Hu. destruct op; simpl.
  - by apply Ef_outside.
  - apply register_effect.
  - apply supplement_effect.
  - apply decide_effect.
  - apply start_status_effect.
  - apply change_status_effect.
  - apply export_effect.
  - apply start_effect. intros w. by apply same_case_intro; destruct w.
  - apply read_before; [apply reads_get|]. intros db'. apply guarded_effect, start_effect. intros w. by apply same_case_intro; destruct w.
  - apply fail_effect.
  - apply update_change_outside.
  - apply read_before; [apply reads_get|]. intros db'. apply guarded_effect. rewrite read_after by (intros; apply reads_ensure). apply update_change_outside.
  - apply update_change_outside.
  - apply update_change_outside.
  - apply status_message_effect.
  - by apply Ef_outside.
  - apply update_process_outside.
  - apply read_before; [apply reads_get|]. intros db'. apply guarded_effect. rewrite read_after by (intros; apply reads_ensure). apply update_process_outside.
  - apply update_process_outside.
  - apply update_process_outside.
  - by apply publish_task_effect.
Qed.

(** ** A visit of a worker is a run of the steps *)

Definition visits {A} (w : World) (m : WorkM A) : Prop :=
  rtc work_step w (w <| wd_db := (m (wd_db w)).2 |>).
Lemma with_same_db w : w <| wd_db := wd_db w |> = w.
Proof. by destruct w. Qed.
Lemma visits_read {A} w (m : WorkM A) : reads m → visits w m.
Proof.
  intros Hm. unfold visits. destruct (m (wd_db w)) as [r db] eqn:E. apply Hm in E as ->. simpl.
  by rewrite with_same_db.
Qed.
Lemma visits_op {A} w (m : WorkM A) op :
  (m (wd_db w)).2 = work_op op (wd_db w) → op_honest (wd_db w) op → visits w m.
Proof. intros Hm Hh. unfold visits. rewrite Hm. by apply rtc_once, Step_op. Qed.
Lemma visits_bind {A B} w (m : WorkM A) (k : A → WorkM B) :
  visits w m → (∀ a db, m (wd_db w) = (Ok a, db) → visits (w <| wd_db := db |>) (k a)) → visits w (st_bind m k).
Proof.
  unfold visits, st_bind. intros Hm Hk. destruct (m (wd_db w)) as [[a| |] db] eqn:E; [|done..].
  etrans; [exact Hm|]. by apply Hk.
Qed.
Lemma visits_read_bind {A B} w (m : WorkM A) (k : A → WorkM B) :
  reads m → (∀ a, m (wd_db w) = (Ok a, wd_db w) → visits w (k a)) → visits w (st_bind m k).
Proof.
  intros Hm Hk. apply visits_bind; [by apply visits_read|]. intros a db E. pose proof (Hm _ _ _ E) as ->.
  rewrite with_same_db. by apply Hk.
Qed.
Lemma ignored {A B} (m : WorkM A) (b : B) db : (st_bind m (λ _, st_ret b) db).2 = (m db).2.
Proof. apply read_after. intros a. apply reads_ret. Qed.

Lemma visits_ignored {A B} w (m : WorkM A) (b : B) op :
  (m (wd_db w)).2 = work_op op (wd_db w) → op_honest (wd_db w) op → visits w (st_bind m (λ _, st_ret b)).
Proof. intros Hm Hh. apply (visits_op _ _ op); [|done]. by rewrite ignored. Qed.
Lemma status_one_visits w notice message now id token started view tasks :
  visits w (status_one notice message now id token started view tasks).
Proof.
  unfold status_one. apply visits_read_bind; [apply reads_get|]. intros db _.
  apply visits_read_bind; [apply reads_lift|]. intros c _. apply visits_read_bind; [apply reads_ensure|]. intros _ _.
  apply visits_bind.
  { case_match; [|apply visits_read, reads_ret]. by apply (visits_ignored _ _ _ (Op_status_message notice now id token None)). }
  intros _ db1 _. apply visits_bind.
  { case_match; [apply visits_read, reads_ret|]. apply visits_read_bind; [apply reads_lift|]. intros instance _.
    by apply (visits_ignored _ _ _ (Op_status_instance id token instance)). }
  intros instance db2 _. do 3 (apply visits_read_bind; [apply reads_lift|]; intros ? _).
  assert (∀ w' state, visits w' (st_bind (status_settle id state token) (λ _, st_ret tt))) as Hsettle.
  { intros w' state. by apply (visits_ignored _ _ _ (Op_status_settle id state token)). }
  case_match; [apply Hsettle|]. case_match. apply visits_bind.
  - by apply (visits_op _ _ (Op_status_message message now id token (Some h))).
  - intros _ db3 _. apply visits_read_bind; [apply reads_lift|]. intros next _.
    case_match; [apply Hsettle|apply visits_read, reads_ret].
Qed.
Lemma process_instance_tasks item token instance db r db' :
  process_instance item token instance db = (r, db') → wi_tasks db' = wi_tasks db.
Proof.
  unfold process_instance, update_process. intros Hp. st_simpl Hp. repeat case_match; by simplify_eq.
Qed.
Lemma check_export_node item x p instance view tasks task state :
  check_export item x p instance view tasks = Ok (Some task, state) → ht_node task = Node_publish_github ∧ task ∈ tasks.
Proof.
  unfold check_export. destruct (negb _); [done|]. destruct (change_state _) as [st|]; [|done]. simpl.
  destruct (_ || _); [done|]. destruct tasks as [|t l]; [done|].
  destruct (_ && _) eqn:E; intros Hc; simplify_eq. bool_facts. split; [done|set_solver].
Qed.
Lemma export_one_visits w message item token started view tasks :
  (∀ l, tasks = Ok l → Forall (heart_keeps_node (wd_db w)) l) →
  visits w (export_one message item token started view tasks).
Proof.
  intros Hh. unfold export_one. apply visits_read_bind; [apply reads_get|]. intros db _.
  do 2 (apply visits_read_bind; [apply reads_lift|]; intros ? _). apply visits_read_bind; [apply reads_ensure|]. intros _ _.
  apply visits_bind.
  { case_match; [apply visits_read, reads_ret|]. apply visits_read_bind; [apply reads_lift|]. intros instance _.
    by apply (visits_ignored _ _ _ (Op_process_instance item token instance)). }
  intros instance db1 Hdb1. assert (wi_tasks db1 = wi_tasks (wd_db w)) as Ht.
  { simpl in Hdb1. case_match; ok_inv Hdb1; [done|]. by eapply process_instance_tasks. }
  apply visits_read_bind; [apply reads_lift|]. intros v _.
  apply visits_read_bind; [apply reads_lift|]. intros l Hl.
  apply visits_read_bind; [apply reads_lift|]. intros [task state] Hc. apply visits_bind.
  - destruct task as [task|]; [|apply visits_read, reads_ret].
    ok_inv Hl. ok_inv Hc. match goal with E : check_export _ _ _ _ _ _ = _ |- _ => apply check_export_node in E as [Hn Hin] end.
    assert (publishing task = task) as Hp by (unfold publishing; rewrite <-Hn; by destruct task).
    eapply (visits_ignored _ _ _ (Op_publish message item token _ task)); simpl; rewrite Hp; [done|].
    unfold heart_keeps_node. simpl. rewrite Ht. specialize (Hh _ eq_refl). rewrite Forall_forall in Hh. by apply Hh.
  - intros _ db3 _. by apply (visits_ignored _ _ _ (Op_process_settle item state token)).
Qed.
End machine.
