(* ===== verification/WorkInv.v ===== *)
(** * WorkInv: what every reachable state of the cases satisfies

    The invariants behind the theorems on cases: the columns of a task, the identity of
    a case, the commands a case has accepted and who holds its leases. *)

From Stdlib Require Import ZifyBool.
From stdpp Require Import base tactics numbers strings countable sorting gmap list relations.
From S2P Require Import Prelude RustStr Text Ids Models RepoState Sql WorkItems WorkDelivery WorkReach.

Section invariants.
Context `{JsonText, UuidLib}.
Implicit Types (w : World) (x : WorkItem) (t : TaskRow) (db : WorkDb).

Lemma reachable_ind (P : World → Prop) :
  (∀ f, P (empty_world f)) → (∀ w w', work_reachable w → P w → work_step w w' → P w') →
  ∀ w, work_reachable w → P w.
Proof.
  intros Hinit Hstep w (f & Hr). revert w Hr.
  apply (rtc_ind_r (λ w, P w) (empty_world f)); [done|]. intros w w' Hr Hs HP.
  eapply Hstep; [by exists f|done..].
Qed.

(** ** The steps of the workers on the tables *)

(** The same case but for its process and the lease of its worker. *)
Definition lease_only x x' : Prop :=
  ∃ state until token, x' = x <| w_process_status := state |> <| w_sync_lease_until := until |>
    <| w_sync_lease_token := token |>.
Definition same_content (e e' : ExportRow) : Prop :=
  ∃ status issue until token attempted, e' = e <| e_status := status |> <| e_issue := issue |>
    <| e_lease_until := until |> <| e_lease_token := token |> <| e_attempted_at := attempted |>.

Inductive table_step db db' : Prop :=
  | Ts_effect : effect db db' → table_step db db'
  | Ts_lease item x x' :
      wi_items db !! item = Some x → lease_only x x' → wi_items db' = <[item := x']> (wi_items db) →
      wi_tasks db' = wi_tasks db → wi_supplements db' = wi_supplements db →
      wi_history db' = wi_history db → wi_exports db' = wi_exports db → table_step db db'
  | Ts_confirm item token c x t task status :
      ht_node task ≠ Node_publish_github → may_project db item token c task = true →
      wi_items db !! item = Some x → wi_tasks db !! ht_id task = Some t → t_item t = item →
      t_node t = ht_node task →
      wi_items db' = <[item := settled task status t x]> (wi_items db) →
      wi_tasks db' = <[ht_id task := confirmed status t]> (wi_tasks db) →
      wi_supplements db' = wi_supplements db →
      wi_history db' = wi_history db → wi_exports db' = wi_exports db → table_step db db'
  | Ts_show message item token c x task status :
      ht_node task ≠ Node_publish_github → may_project db item token c task = true →
      wi_items db !! item = Some x → wi_tasks db !! ht_id task = None →
      wi_items db' = wi_items db →
      wi_tasks db' = <[ht_id task := shown message item c task status]> (wi_tasks db) →
      wi_supplements db' = wi_supplements db →
      wi_history db' = wi_history db → wi_exports db' = wi_exports db → table_step db db'
  | Ts_export item e e' f :
      wi_exports db !! item = Some e → same_content e e' →
      (∀ id t, wi_tasks db !! id = Some t → same_task t (f id t) ∧ t_status (f id t) = t_status t) →
      wi_items db' = wi_items db → wi_tasks db' = map_imap (λ id t, Some (f id t)) (wi_tasks db) →
      wi_supplements db' = wi_supplements db → wi_history db' = wi_history db →
      wi_exports db' = <[item := e']> (wi_exports db) → table_step db db'.

Lemma lease_only_intro x x' :
  x' = x <| w_process_status := w_process_status x' |> <| w_sync_lease_until := w_sync_lease_until x' |>
         <| w_sync_lease_token := w_sync_lease_token x' |> → lease_only x x'.
Proof. intros ->. by eexists _, _, _. Qed.
Lemma lease_step item p f db :
  (∀ x, lease_only x (f x)) → table_step db (update_item item p f db).2.
Proof.
  intros Hf. destruct (update_item_cases item p f db) as [->|(x & Hx & _ & ->)];
    [by apply Ts_effect, Ef_outside|by eapply Ts_lease].
Qed.
Lemma same_content_intro e e' :
  e' = e <| e_status := e_status e' |> <| e_issue := e_issue e' |> <| e_lease_until := e_lease_until e' |>
         <| e_lease_token := e_lease_token e' |> <| e_attempted_at := e_attempted_at e' |> → same_content e e'.
Proof. intros ->. by eexists _, _, _, _, _. Qed.
Lemma update_export_cases item p f db :
  update_export item p f db = (Ok false, db)
  ∨ ∃ e, wi_exports db !! item = Some e ∧ p e = true
         ∧ update_export item p f db = (Ok true, db <| wi_exports := <[item := f e]> (wi_exports db) |>).
Proof.
  unfold update_export. st_compute. destruct (wi_exports db !! item) as [e|] eqn:He; [|by left].
  destruct (p e) eqn:Hp; [|by left]. right. eauto.
Qed.
Lemma export_step item p f db :
  (∀ e, same_content e (f e)) → table_step db (update_export item p f db).2.
Proof.
  intros Hf. destruct (update_export_cases item p f db) as [->|(e & He & _ & ->)];
    [by apply Ts_effect, Ef_outside|]. eapply (Ts_export _ _ item e _ (λ _ t, t)); try done.
  - intros id t _. by split; [apply same_task_refl|].
  - simpl. apply map_eq. intros id. rewrite map_lookup_imap. by destruct (wi_tasks db !! id).
Qed.
(** What settling an export does. *)
Lemma settle_cases r item token issue db :
  (settle_export r item token issue db).2 = db
  ∨ ∃ e note, wi_exports db !! item = Some e ∧ holds_export token e = true
      ∧ e_status e ∈ [Export_sending; Export_uncertain]
      ∧ (settle_export r item token issue db).2
        = db <| wi_exports := <[item := e <| e_status := Export_sent |> <| e_issue := Some issue |>]> (wi_exports db) |>
             <| wi_tasks := update_where (λ id t, bool_decide (id = e_task r)
                  && bool_decide (t_item t = item) && bool_decide (is_Some (t_request t)))
                  (λ t, t <| t_note := Some note |>) (wi_tasks db) |>.
Proof.
  unfold settle_export, transaction. match goal with |- context [update_export item ?p ?f] =>
    destruct (update_export_cases item p f db) as [E|(e & He & Hp & E)] end; st_compute; rewrite E; simpl; [by left|].
  destruct (issue_valid issue); simpl; [|by left]. right. bool_facts. eexists e, _. split_and!; done.
Qed.
Lemma settle_step r item token issue db : table_step db (settle_export r item token issue db).2.
Proof.
  destruct (settle_cases r item token issue db) as [->|(e & note & He & _ & _ & ->)]; [by apply Ts_effect, Ef_outside|].
  eapply Ts_export; try reflexivity; [done|by apply same_content_intro; destruct e|].
  intros id t _. simpl. case_match; (split; [|done]); [|apply same_task_refl].
  by exists (t_status t), (Some note), (t_delivery t); destruct t.
Qed.

(** ** The columns of a task *)

Definition task_columns t : Prop :=
  match t_request t with
  | None => undecided_columns t
  | Some _ => decided_columns t ∧ is_Some (t_revision t)
  end.
Definition columns_ok db : Prop := map_Forall (λ _ t, task_columns t) (wi_tasks db).
(** The reviews of Heart have no task of an export. *)
Definition heart_nodes w : Prop :=
  ∀ token item before after state, wd_syncs w !! token = Some (item, Sync_projecting before after state) →
    Forall (λ task, ht_node task ≠ Node_publish_github) after.

Lemma columns_publish db : columns_ok db → publish_undecided db.
Proof.
  intros Hc id t Ht Hn. specialize (Hc id t Ht). unfold task_columns, decided_columns, undecided_columns in Hc.
  rewrite Hn in Hc. destruct (t_request t); naive_solver.
Qed.
Lemma sync_project_step message item token c task db :
  ht_node task ≠ Node_publish_github → heart_keeps_node db task →
  table_step db (project message item token c task db).2.
Proof.
  intros Hn Hk. destruct (project message item token c task db) as [r db'] eqn:E.
  destruct r as [m| |]; simpl;
    [|unfold project, transaction in E; by repeat case_match; simplify_eq; apply Ts_effect, Ef_outside..].
  apply project_cases in E as (Hmay & w & status & Hw & _ & Hs & Hh & He & [(t & Ht & Hi & _ & _ & Hit & Hta)|
    (Hnone & _ & _ & _ & Hit & Hta)]).
  - by eapply Ts_confirm; eauto.
  - by eapply Ts_show.
Qed.
Lemma reconcile_table message item token channel_of phase phase' db db' :
  match phase with Sync_projecting _ (task :: _) _ => ht_node task ≠ Node_publish_github | _ => True end →
  phase_honest db phase →
  reconcile_step message item token channel_of phase db = (Ok phase', db') → table_step db db'.
Proof.
  intros Hn Hh Hr. destruct phase as [|before [|task after] state| |]; simpl in *;
    try by ok_inv Hr; apply Ts_effect, Ef_outside.
  - ok_inv Hr. match goal with H : sync_finish ?i ?s ?t ?d = (_, ?d') |- _ =>
      assert (d' = (sync_finish i s t d).2) as -> by by rewrite H end.
    apply lease_step. intros y. by apply lease_only_intro; destruct y.
  - pose proof (sync_project_step message item token (channel_of task) task db Hn Hh) as Hp.
    by destruct (project _ _ _ _ _ _) as [[]]; simplify_eq.
Qed.
Lemma export_state_step item token state attempt db :
  table_step db (export_state item token state attempt db).2.
Proof.
  unfold export_state. rewrite read_after by (intros; apply reads_ensure).
  apply export_step. intros e. by apply same_content_intro; destruct e.
Qed.
Lemma deliver_table self now item token answer phase db :
  table_step db (deliver_step self now item token answer phase db).2.
Proof.
  destruct phase; simpl; try by apply Ts_effect, Ef_outside.
  - unfold read_receipt. st_compute. destruct (wi_exports db !! item); [|by apply Ts_effect, Ef_outside].
    by destruct (_ && _); apply Ts_effect, Ef_outside.
  - match goal with |- context [export_state ?i ?t ?s ?a ?d] => pose proof (export_state_step i t s a d);
      destruct (export_state i t s a d) as [[]] end; done.
  - apply settle_step.
  - apply export_state_step.
  - apply export_state_step.
  - apply export_step. intros e. by apply same_content_intro; destruct e.
Qed.

Lemma step_table w w' :
  heart_nodes w → publish_undecided (wd_db w) → work_step w w' → table_step (wd_db w) (wd_db w').
Proof.
  intros Hn Hu [op Hh|item now token db Ht Hc|token item view tasks phase db Ht Hr
    |message token item channel_of phase phase' db Ht Hh Hr|token item phase next Ht|item now token db Ht Hc
    |self now token item phase answer Ht r]; simpl.
  - by apply Ts_effect, op_effect.
  - assert (db = (sync_claim item now token (wd_db w)).2) as -> by by rewrite Hc.
    apply lease_step. intros x. by apply lease_only_intro; destruct x.
  - unfold reconcile_start in Hr. apply Ts_effect, Ef_outside; ok_inv Hr; done.
  - eapply reconcile_table; [|done..]. destruct phase as [|before [|task after] state| |]; try done.
    by pose proof (Forall_inv (Hn _ _ _ _ _ Ht)).
  - apply lease_step. intros x. by apply lease_only_intro; destruct x.
  - assert (db = (deliver_claim item now token (wd_db w)).2) as -> by by rewrite Hc.
    apply export_step. intros e. by apply same_content_intro; destruct e.
  - apply deliver_table.
Qed.

(** How the columns of tasks develop. *)
Definition task_develops t t' : Prop :=
  same_task t t' ∨ ∃ x, accepted x t t' ∧ decided_columns t'.
Lemma table_tasks db db' id t' :
  table_step db db' → publish_undecided db → wi_tasks db' !! id = Some t' →
  (wi_tasks db !! id = None ∧ t_request t' = None ∧ undecided_columns t')
  ∨ ∃ t, wi_tasks db !! id = Some t ∧ task_develops t t'.
Proof.
  intros Hs Hu Ht'. assert (wi_tasks db' = wi_tasks db →
    ∃ t, wi_tasks db !! id = Some t ∧ task_develops t t') as Hsame.
  { intros E. rewrite E in Ht'. exists t'. split; [done|]. left. apply same_task_refl. }
  assert (∀ k t1 t2, wi_tasks db !! k = Some t1 → task_develops t1 t2 → wi_tasks db' = <[k := t2]> (wi_tasks db) →
    ∃ t, wi_tasks db !! id = Some t ∧ task_develops t t') as Hins.
  { intros k t1 t2 Hk Hd E. rewrite E in Ht'. apply lookup_insert_Some in Ht' as [[-> ->]|[_ Ht']]; [by eauto|].
    exists t'. split; [done|]. left. apply same_task_refl. }
  assert (∀ k t2, wi_tasks db !! k = None → t_request t2 = None → undecided_columns t2 →
    wi_tasks db' = <[k := t2]> (wi_tasks db) →
    (wi_tasks db !! id = None ∧ t_request t' = None ∧ undecided_columns t')
    ∨ ∃ t, wi_tasks db !! id = Some t ∧ task_develops t t') as Hnew.
  { intros k t2 Hk Hq Hd E. rewrite E in Ht'. apply lookup_insert_Some in Ht' as [[-> ->]|[_ Ht']]; [by left|].
    right. exists t'. split; [done|]. left. apply same_task_refl. }
  assert (∀ f, (∀ id t, wi_tasks db !! id = Some t → same_task t (f id t)) →
    wi_tasks db' = map_imap (λ id t, Some (f id t)) (wi_tasks db) →
    ∃ t, wi_tasks db !! id = Some t ∧ task_develops t t') as Hmap.
  { intros f Hf E. rewrite E, map_lookup_imap in Ht'. destruct (wi_tasks db !! id) as [t|] eqn:Et; simplify_eq/=.
    exists t. split; [done|]. left. by apply Hf. }
  destruct Hs as [[| | | |id' t t2 x Ht _ Ha Hd| |id' t t2 x e Ht _ Ha Hn Hc Hp Hd|f Hf|id' t Hnone Hn Hq Hd]
    | |item tk c x t task status Hn _ _ Ht|message item tk c x task status|item e e' f _ _ Hf];
    try (right; by apply Hsame).
  - right. eapply Hins; [done| |done]. right. eauto.
  - right. eapply Hins; [done| |done]. right. exists x. split; [done|]. unfold decided_columns. destruct Ha as (_ & _ & _ & _ & -> & _). rewrite Hn, Hc, Hp, Hd. by apply (Hu _ _ Ht).
  - right. eapply Hmap; [|done]. naive_solver.
  - by eapply (Hnew id').
  - right. eapply Hins; [done| |done]. left. apply confirmed_same.
  - by eapply (Hnew (ht_id task) (shown message item c task status)); try done; split_and!.
  - right. eapply Hmap; [|done]. naive_solver.
Qed.
Lemma task_develops_columns t t' : task_columns t → task_develops t t' → task_columns t'.
Proof.
  unfold task_columns. intros Hc [(status & note & delivery & ->)|(x & (_ & [q ->] & -> & _) & Hd)]; [|done].
  by destruct t.
Qed.
(** The answer that concludes a review. *)
Definition concluding (task : HeartTask) : Prop :=
  ht_node task = Node_followup_review
  ∨ ht_node task = Node_review
    ∧ ¬ from_option (λ v, field (lit "status") v = S_string (lit "needs_information")) False (ht_result task).
Lemma any_negb {A} (p : A → bool) l : any (λ a, negb (p a)) l = false → Forall (λ a, p a = true) l.
Proof.
  unfold any. induction l as [|a l IH]; simpl; [by constructor|]. intros [Ha%negb_false Hl]%orb_false_iff.
  constructor; auto.
Qed.
Lemma expected_node x task :
  task_expected x task = true → ht_node task ∈ [Node_review; Node_provide_information; Node_followup_review].
Proof. unfold task_expected. intros Ht. bool_facts. destruct (ht_node task); set_solver. Qed.
(** Three tasks end with the second review. *)
Lemma last_of_three x tasks :
  Forall (λ task, task_expected x task = true) tasks → NoDup (ht_node <$> tasks) → length tasks = 3 →
  ∃ task, last (sort_by_key le (λ h, node_rank (ht_node h)) tasks) = Some task
    ∧ ht_node task = Node_followup_review.
Proof.
  set (s := sort_by_key le (λ h, node_rank (ht_node h)) tasks).
  assert (s ≡ₚ tasks) as Hp by apply merge_sort_Permutation.
  assert (Sorted (on_key le (λ h, node_rank (ht_node h))) s) as Hs by (apply Sorted_merge_sort; apply _).
  clearbody s. rewrite <-Hp. clear Hp tasks. intros Hf Hn Hl.
  destruct s as [|a [|b [|c [|]]]]; try done. exists c. split; [done|].
  apply Sorted_inv in Hs as [Hs Hab%HdRel_inv]. apply Sorted_inv in Hs as [_ Hbc%HdRel_inv].
  decompose_Forall_hyps. unfold on_key in *. repeat match goal with H : task_expected _ _ = true |- _ => apply expected_node in H end.
  simpl in Hn. rewrite !NoDup_cons in Hn. destruct Hn as (Ha & Hb & _). set_unfold.
  destruct (ht_node a), (ht_node b), (ht_node c); naive_solver lia.
Qed.
Lemma check_heart_Ok item x view tasks tasks' state :
  check_heart item x view tasks = Ok (tasks', state) →
  Forall (λ task, task_expected x task = true) tasks'
  ∧ (state = Process_completed →
     Forall (λ task, has_status Task_completed task = true) tasks'
     ∧ (w_version x = V1_1_0 → ∃ task, last tasks' = Some task ∧ concluding task)).
Proof.
  unfold check_heart. intros Hr.
  destruct (negb _); [done|]. destruct (process_state _) as [st|]; [|done]. simpl in Hr.
  match type of Hr with context [if ?b then Err _ else _] => destruct b eqn:E end; [done|]. bool_facts.
  assert (Forall (λ task, task_expected x task = true) tasks) as Hex
    by by apply any_negb.
  match type of Hr with context [res_bind ?m _] => destruct m as [u| |] eqn:Em end; [|done..].
  injection Hr as <- <-. split; [by unfold sort_by_key; rewrite merge_sort_Permutation|]. intros ->.
  rewrite (bool_decide_eq_true_2 (Process_completed = _)) in * by done. split.
  - unfold sort_by_key. rewrite merge_sort_Permutation. simpl in *. bool_facts. by apply any_negb.
  - intros Hv. rewrite (bool_decide_eq_true_2 _ Hv) in *. simpl in Em.
    destruct (find_first _ tasks) as [review|] eqn:Ef; [|done]. simpl in Em.
    match type of Em with context [length tasks = ?n] => destruct (decide (length tasks = n)) as [Hl|Hl] end;
      [|by rewrite (bool_decide_eq_false_2 _ Hl) in Em].
    destruct (from_option _ _ _) eqn:Eq in Hl.
    + destruct (last_of_three _ _ Hex) as (task & Hlast & Hn); [done..|]. exists task. split; [done|by left].
    + apply find_first_Some in Ef as (i & Hi & Hrev & _). bool_facts.
      destruct tasks as [|t [|]]; try done. destruct i; [|done]. simplify_eq/=. exists review. split; [done|].
      right. split; [done|]. destruct (ht_result review); simpl in *; [by bool_facts|tauto].
Qed.
Lemma nodes_step w w' : heart_nodes w → work_step w w' → heart_nodes w'.
Proof.
  intros Hn [op Hh|item now token db Ht Hc|token item view tasks phase db Ht Hr
    |message token item channel_of phase phase' db Ht Hh Hr|token item phase next Ht|item now token db Ht Hc
    |self now token item phase answer Ht r] tk it before after state Hl; simpl in Hl; try by eapply Hn.
  - apply lookup_insert_Some in Hl as [[_ Hl]|[_ Hl]]; [done|by eapply Hn].
  - apply lookup_insert_Some in Hl as [[_ Hl]|[_ Hl]]; [|by eapply Hn]. simplify_eq.
    unfold reconcile_start in Hr. ok_inv Hr.
    match goal with H : check_heart _ _ _ _ = Ok _ |- _ => apply check_heart_Ok in H as [Hf _] end.
    eapply Forall_impl; [done|]. simpl. intros task Hex%expected_node Hp. rewrite Hp in Hex.
    rewrite !elem_of_cons, elem_of_nil in Hex. naive_solver.
  - apply lookup_insert_Some in Hl as [[_ Hl]|[_ Hl]]; [|by eapply Hn]. simplify_eq.
    destruct phase as [|before' [|task after'] state'| |]; simpl in Hr; ok_inv Hr.
    + destruct (project _ _ _ _ _ _) as [[]]; simplify_eq. by apply (Forall_inv_tail (Hn _ _ _ _ _ Ht)).
  - apply lookup_delete_Some in Hl as [_ Hl]. by eapply Hn.
Qed.
Lemma columns_reachable w : work_reachable w → heart_nodes w ∧ columns_ok (wd_db w).
Proof.
  revert w. apply reachable_ind.
  - intros f. by split; [intros token|]; unfold heart_nodes; intros; simpl in *; try (by rewrite lookup_empty in *).
  - intros w w' _ [Hn Hc] Hs. split.
    + by eapply nodes_step.
    + pose proof (step_table _ _ Hn (columns_publish _ Hc) Hs) as Ht.
      intros id t Hl. apply (table_tasks _ _ _ _ Ht) in Hl as [(_ & Hq & Hd)|(t0 & Hl & Hd)]; [|by eapply task_develops_columns, Hd; apply (Hc _ _ Hl)|by apply columns_publish].
      unfold task_columns. by rewrite Hq.
Qed.
Lemma step_table_reachable w w' : work_reachable w → work_step w w' → table_step (wd_db w) (wd_db w').
Proof. intros [Hn Hc]%columns_reachable Hs. by apply step_table; [|apply columns_publish|]. Qed.
Lemma publish_undecided_reachable w : work_reachable w → publish_undecided (wd_db w).
Proof. intros [_ Hc]%columns_reachable. by apply columns_publish. Qed.

(** ** The commands a case has accepted *)

Section omaps.
Context {V B : Type} (g : V → option B).
Implicit Types m : gmap Uuid V.
Lemma values_insert (m : gmap Uuid B) k v : m !! k = None → values (<[k := v]> m) ≡ₚ v :: values m.
Proof. intros Hk. unfold values. by rewrite map_to_list_insert. Qed.
Lemma omap_new m k v r :
  m !! k = None → g v = Some r → values (omap g (<[k := v]> m)) ≡ₚ r :: values (omap g m).
Proof.
  intros Hk Hv. rewrite (omap_insert_Some _ _ _ _ _ Hv), values_insert; [done|]. by rewrite lookup_omap, Hk.
Qed.
Lemma omap_accept m k v v' r :
  m !! k = Some v → g v = None → g v' = Some r → values (omap g (<[k := v']> m)) ≡ₚ r :: values (omap g m).
Proof.
  intros Hk Hv Hv'. rewrite (omap_insert_Some _ _ _ _ _ Hv'), values_insert; [done|].
  by rewrite lookup_omap, Hk.
Qed.
Lemma omap_silent m m' : (∀ k, m' !! k ≫= g = m !! k ≫= g) → omap g m' = omap g m.
Proof. intros Hm. apply map_eq. intros k. by rewrite !lookup_omap. Qed.
Lemma omap_silent_insert m k v' : m !! k ≫= g = g v' → omap g (<[k := v']> m) = omap g m.
Proof.
  intros Hk. apply omap_silent. intros i. destruct (decide (i = k)) as [->|Hne].
  - by rewrite lookup_insert_eq, Hk.
  - by rewrite lookup_insert_ne.
Qed.
Lemma omap_silent_imap m f :
  (∀ k v, m !! k = Some v → g (f k v) = g v) → omap g (map_imap (λ k v, Some (f k v)) m) = omap g m.
Proof.
  intros Hf. apply omap_silent. intros i. rewrite map_lookup_imap. destruct (m !! i) eqn:E; simpl; auto.
Qed.
End omaps.

(** The revision each accepted command expected: decisions and exports, supplements, and
    changes of the status. *)
Definition task_command item t : option Z := if bool_decide (t_item t = item) then t_revision t else None.
Definition supplement_command item (s : SupplementRow) : option Z :=
  if bool_decide (s_item s = item) then Some (s_revision s) else None.
Definition status_command item (h : HistoryRow) : option Z :=
  if bool_decide (h_item h = item) then Some (h_revision h - 1)%Z else None.
Definition accepted_revisions item db : list Z :=
  values (omap (task_command item) (wi_tasks db)) ++ values (omap (supplement_command item) (wi_supplements db))
  ++ values (omap (status_command item) (wi_history db)).
Definition serial db : Prop := ∀ item,
  match wi_items db !! item with
  | Some x => (1 ≤ w_revision x)%Z ∧ accepted_revisions item db ≡ₚ seqZ 1 (w_revision x - 1)
  | None => accepted_revisions item db ≡ₚ []
  end.
Lemma seqZ_next n : (1 ≤ n)%Z → n :: seqZ 1 (n - 1) ≡ₚ seqZ 1 (n + 1 - 1).
Proof.
  intros Hn. rewrite Permutation_cons_append. replace (n + 1 - 1)%Z with ((n - 1) + 1)%Z by lia.
  rewrite seqZ_app by lia. by replace (1 + (n - 1))%Z with n by lia.
Qed.
Lemma same_task_command item t t' : same_task t t' → task_command item t' = task_command item t.
Proof. by intros (status & note & delivery & ->); destruct t. Qed.
Lemma serial_silent db db' :
  serial db → (∀ item, w_revision <$> wi_items db' !! item = w_revision <$> wi_items db !! item) →
  (∀ item, omap (task_command item) (wi_tasks db') = omap (task_command item) (wi_tasks db)) →
  wi_supplements db' = wi_supplements db → wi_history db' = wi_history db → serial db'.
Proof.
  intros Hs Hi Ht Hsu Hh item. specialize (Hs item). specialize (Hi item). unfold accepted_revisions in *.
  rewrite Ht, Hsu, Hh. destruct (wi_items db' !! item), (wi_items db !! item); simplify_eq/=; [|done].
  match goal with E : w_revision _ = w_revision _ |- _ => by rewrite E end.
Qed.
Lemma serial_accept db db' item x x' :
  serial db → wi_items db !! item = Some x → w_revision x' = (w_revision x + 1)%Z →
  wi_items db' = <[item := x']> (wi_items db) →
  accepted_revisions item db' ≡ₚ w_revision x :: accepted_revisions item db →
  (∀ i, i ≠ item → accepted_revisions i db' ≡ₚ accepted_revisions i db) → serial db'.
Proof.
  intros Hs Hx Hr Hi Ha Hne i. rewrite Hi. destruct (decide (i = item)) as [->|Hn].
  - specialize (Hs item). rewrite Hx in Hs. destruct Hs as [H1 Hp]. rewrite lookup_insert_eq, Hr. split; [lia|].
    by rewrite Ha, Hp, seqZ_next.
  - rewrite lookup_insert_ne by done. specialize (Hs i). by destruct (wi_items db !! i); rewrite Hne.
Qed.
(** An accepted task adds its revision to its case only. *)
Lemma accept_task db id t t' x i :
  wi_tasks db !! id = Some t → accepted x t t' → task_columns t →
  values (omap (task_command i) (<[id := t']> (wi_tasks db)))
  ≡ₚ option_list (if bool_decide (i = t_item t) then Some (w_revision x) else None)
     ++ values (omap (task_command i) (wi_tasks db)).
Proof.
  intros Ht (Hq & _ & Hr & Hi & _) Hc. unfold task_columns, undecided_columns in Hc. rewrite Hq in Hc.
  destruct Hc as (_ & _ & _ & Hn). case_bool_decide as E.
  - subst i. simpl. eapply omap_accept; [done|..]; unfold task_command; rewrite ?Hi, bool_decide_eq_true_2; done.
  - simpl. rewrite omap_silent_insert; [done|]. rewrite Ht. simpl. unfold task_command.
    by rewrite Hi, Hn, Hr, bool_decide_eq_false_2.
Qed.
Lemma serial_task db db' id t t' x :
  columns_ok db → serial db → wi_tasks db !! id = Some t → wi_items db !! t_item t = Some x → accepted x t t' →
  wi_items db' = <[t_item t := bump x]> (wi_items db) → wi_tasks db' = <[id := t']> (wi_tasks db) →
  wi_supplements db' = wi_supplements db → wi_history db' = wi_history db → serial db'.
Proof.
  intros Hc Hs Ht Hx Ha Hi Hta Hsu Hh.
  apply (serial_accept db db' (t_item t) x (bump x)); [done..| |];
    [|intros i Hne]; unfold accepted_revisions; rewrite Hta, Hsu, Hh, (accept_task _ _ _ _ _ _ Ht Ha (Hc _ _ Ht)).
  - by rewrite bool_decide_eq_true_2.
  - by rewrite bool_decide_eq_false_2.
Qed.
Lemma serial_supplement db db' id item s x :
  serial db → wi_items db !! item = Some x → wi_supplements db !! id = None → s_item s = item →
  s_revision s = w_revision x → wi_items db' = <[item := bump x]> (wi_items db) →
  wi_tasks db' = wi_tasks db → wi_supplements db' = <[id := s]> (wi_supplements db) →
  wi_history db' = wi_history db → serial db'.
Proof.
  intros Hs Hx Hn Hit Hr Hi Hta Hsu Hh.
  apply (serial_accept db db' item x (bump x)); [done..| |]; [|intros i Hne]; unfold accepted_revisions; rewrite Hta, Hsu, Hh.
  - rewrite (omap_new _ _ _ _ (w_revision x)); [by rewrite Permutation_middle|done|].
    unfold supplement_command. by rewrite bool_decide_eq_true_2, Hr.
  - rewrite omap_silent_insert; [done|]. rewrite Hn. unfold supplement_command.
    by rewrite bool_decide_eq_false_2 by congruence.
Qed.
Lemma serial_history db db' id h x :
  serial db → wi_items db !! h_item h = Some x → wi_history db !! id = None →
  h_revision h = (w_revision x + 1)%Z → wi_items db' = <[h_item h := bump (x <| w_status := h_to h |>)]> (wi_items db) →
  wi_tasks db' = wi_tasks db → wi_supplements db' = wi_supplements db →
  wi_history db' = <[id := h]> (wi_history db) → serial db'.
Proof.
  intros Hs Hx Hn Hr Hi Hta Hsu Hh.
  apply (serial_accept db db' (h_item h) x (bump (x <| w_status := h_to h |>))); [done..| |]; [|intros i Hne]; unfold accepted_revisions; rewrite Hta, Hsu, Hh.
  - rewrite (omap_new _ _ _ _ (w_revision x)); [by rewrite !Permutation_middle|done|].
    unfold status_command. rewrite bool_decide_eq_true_2, Hr by done. f_equal. lia.
  - rewrite omap_silent_insert; [done|]. rewrite Hn. unfold status_command.
    by rewrite bool_decide_eq_false_2 by congruence.
Qed.
Lemma serial_register db db' id x :
  serial db → wi_items db !! id = None → w_revision x = 1%Z → wi_items db' = <[id := x]> (wi_items db) →
  wi_tasks db' = wi_tasks db → wi_supplements db' = wi_supplements db → wi_history db' = wi_history db → serial db'.
Proof.
  intros Hs Hn Hr Hi Hta Hsu Hh i. specialize (Hs i). unfold accepted_revisions in *. rewrite Hi, Hta, Hsu, Hh.
  destruct (decide (i = id)) as [->|Hne]; [|by rewrite lookup_insert_ne].
  rewrite Hn in Hs. by rewrite lookup_insert_eq, Hr.
Qed.
Lemma revision_insert (m : gmap Uuid WorkItem) k x x' i :
  m !! k = Some x → w_revision x' = w_revision x → w_revision <$> <[k := x']> m !! i = w_revision <$> m !! i.
Proof.
  intros Hk Hr. destruct (decide (i = k)) as [->|Hne]; [by rewrite lookup_insert_eq, Hk; simpl; f_equal|].
  by rewrite lookup_insert_ne.
Qed.
Lemma settled_revision task status t x : w_revision (settled task status t x) = w_revision x.
Proof. unfold settled. by repeat case_match. Qed.
Lemma undecided_silent db id t item :
  wi_tasks db !! id = None → undecided_columns t → 
  omap (task_command item) (<[id := t]> (wi_tasks db)) = omap (task_command item) (wi_tasks db).
Proof.
  intros Hn (_ & _ & _ & Hr). apply omap_silent_insert. rewrite Hn. unfold task_command. rewrite Hr.
  by case_bool_decide.
Qed.
Lemma serial_step db db' : columns_ok db → serial db → table_step db db' → serial db'.
Proof.
  intros Hc Hs [[|id x Hn (Hr & _)|id x x' Hx (? & ? & ? & ? & ? & ->)|id item x su|id t t' x|id h x|id t t' x e
    |f Hf|id t Hn _ Hq Hu]|item x x' Hx (state & until & token & ->)|item tk c x t task status _ _ Hx Ht
    |message item tk c x task status _ _ Hx Hn|item e e' f _ _ Hf].
  - apply (serial_silent db); [done|intros; congruence..].
  - by eapply serial_register.
  - apply (serial_silent db); [done| |intros; congruence..]. intros i. rewrite H1. by eapply revision_insert.
  - by eapply serial_supplement.
  - by eapply serial_task.
  - by eapply serial_history.
  - by eapply serial_task.
  - apply (serial_silent db); [done|intros; congruence| |done..]. intros i. rewrite H2. apply omap_silent_imap.
    intros k v Hk. by apply same_task_command, Hf.
  - apply (serial_silent db); [done|intros; congruence| |done..]. intros i. rewrite H2. by apply undecided_silent.
  - apply (serial_silent db); [done| |intros; congruence..]. intros i. rewrite H1. by eapply revision_insert.
  - apply (serial_silent db); [done| | |done..]; intros i.
    + rewrite H3. by eapply revision_insert, settled_revision.
    + rewrite H4. apply omap_silent_insert. rewrite Ht. simpl. symmetry. apply same_task_command, confirmed_same.
  - apply (serial_silent db); [done|intros; congruence| |done..]. intros i. rewrite H2. by apply undecided_silent.
  - apply (serial_silent db); [done|intros; congruence| |done..]. intros i. rewrite H2. apply omap_silent_imap.
    intros k v Hk. by apply same_task_command, Hf.
Qed.
Lemma serial_reachable w : work_reachable w → serial (wd_db w).
Proof.
  revert w. apply reachable_ind.
  - intros f item. simpl. rewrite lookup_empty. unfold accepted_revisions. simpl. by rewrite !omap_empty.
  - intros w w' Hr Hs Hst. eapply serial_step; [by apply columns_reachable|done|by apply step_table_reachable].
Qed.

(** ** The identity of a case *)

Definition identity x :=
  (w_source_channel x, w_source_message x, w_source_body x, w_application x, w_title x, w_description x,
   w_requested_by x, w_request_id x, w_reviewer x, w_task_channel x, w_version x).
Lemma settled_identity task status t x : identity (settled task status t x) = identity x.
Proof. unfold settled. by repeat case_match. Qed.
Lemma identity_insert (m : gmap Uuid WorkItem) k y y' i x :
  m !! k = Some y → identity y' = identity y → m !! i = Some x →
  ∃ x', <[k := y']> m !! i = Some x' ∧ identity x' = identity x.
Proof.
  intros Hk Hy Hi. destruct (decide (i = k)) as [->|Hne].
  - exists y'. rewrite lookup_insert_eq. split; congruence.
  - exists x. by rewrite lookup_insert_ne.
Qed.
Lemma table_identity db db' item x :
  table_step db db' → wi_items db !! item = Some x →
  ∃ x', wi_items db' !! item = Some x' ∧ identity x' = identity x.
Proof.
  intros Hs Hx. assert (wi_items db' = wi_items db → ∃ x', wi_items db' !! item = Some x' ∧ identity x' = identity x) as Hsame.
  { intros ->. eauto. }
  destruct Hs as [[|id y Hn _ _ E|id y y' Hy (? & ? & ? & ? & ? & ->) E|id it y su Hy _ _ _ _ E|id t t' y _ Hy _ _ _ _ E
    |id h y Hy _ _ _ _ _ E|id t t' y e _ Hy _ _ _ _ _ _ _ _ E| | ]|it y y' Hy (? & ? & ? & ->) E
    |it tk c y t task status _ _ Hy _ _ _ E| |]; try by apply Hsame.
  all: rewrite E; try by eapply identity_insert.
  - exists x. rewrite lookup_insert_ne by congruence. done.
  - by eapply identity_insert, Hx; [|apply settled_identity].
Qed.
Definition requests_unique db : Prop :=
  ∀ k1 x1 k2 x2, wi_items db !! k1 = Some x1 → wi_items db !! k2 = Some x2 →
    w_requested_by x1 = w_requested_by x2 → w_request_id x1 = w_request_id x2 → k1 = k2.
Lemma unique_same db db' :
  requests_unique db →
  (∀ k x', wi_items db' !! k = Some x' → ∃ x, wi_items db !! k = Some x ∧ identity x = identity x') →
  requests_unique db'.
Proof.
  intros Hu Hb k1 x1 k2 x2 (y1 & H1 & E1)%Hb (y2 & H2 & E2)%Hb Ha Hr. unfold identity in *.
  eapply Hu; [done..| |]; congruence.
Qed.
Lemma table_new db db' item x' :
  table_step db db' → wi_items db' !! item = Some x' →
  (∃ x, wi_items db !! item = Some x ∧ identity x = identity x')
  ∨ wi_items db' = <[item := x']> (wi_items db) ∧ wi_items db !! item = None ∧ fresh_case x'
    ∧ ∀ k x, wi_items db !! k = Some x → requested (w_requested_by x') (w_request_id x') k x = false.
Proof.
  intros Hs Hx'. destruct (wi_items db !! item) as [x|] eqn:Hx.
  { left. destruct (table_identity _ _ _ _ Hs Hx) as (y & Hy & E). exists x. split; [done|]. congruence. }
  destruct Hs as [[|id y Hn Hf Hu E|id y y' Hy _ E|id it y su Hy _ _ _ _ E|id t t' y _ Hy _ _ _ _ E
    |id h y Hy _ _ _ _ _ E|id t t' y e _ Hy _ _ _ _ _ _ _ _ E| | ]|it y y' Hy _ E
    |it tk c y t task status _ _ Hy _ _ _ E| |];
  try congruence; rewrite E in Hx'; apply lookup_insert_Some in Hx' as [[<- <-]|[_ Hx']]; try congruence. auto.
Qed.
Lemma requests_step db db' : requests_unique db → table_step db db' → requests_unique db'.
Proof.
  intros Hu Hs k1 x1 k2 x2 H1 H2 Ha Hr.
  destruct (table_new _ _ _ _ Hs H1) as [(y1 & Hy1 & E1)|(I1 & N1 & _ & F1)],
    (table_new _ _ _ _ Hs H2) as [(y2 & Hy2 & E2)|(I2 & N2 & _ & F2)]; unfold identity, requested in *.
  - eapply Hu; [done..| |]; congruence.
  - specialize (F2 _ _ Hy1). injection E1. intros. by rewrite !bool_decide_eq_true_2 in F2 by congruence.
  - specialize (F1 _ _ Hy2). injection E2. intros. by rewrite !bool_decide_eq_true_2 in F1 by congruence.
  - rewrite I1 in H2. apply lookup_insert_Some in H2 as [[-> _]|[_ H2]]; [done|congruence].
Qed.
Lemma requests_reachable w : work_reachable w → requests_unique (wd_db w).
Proof.
  revert w. apply reachable_ind; [by intros f k1 x1 k2 x2|].
  intros w w' Hr Hs Hst. eapply requests_step; [done|by apply step_table_reachable].
Qed.
Lemma identity_kept w w' item x :
  work_reachable w → rtc work_step w w' → wi_items (wd_db w) !! item = Some x →
  ∃ x', wi_items (wd_db w') !! item = Some x' ∧ identity x' = identity x.
Proof.
  intros Hr Hs. revert x. induction Hs as [w0|w1 w2 w3 H12 _ IH]; intros x Hx; [by eauto|].
  destruct (table_identity _ _ _ _ (step_table_reachable _ _ Hr H12) Hx) as (y & Hy & Ey).
  assert (work_reachable w2) as Hr2.
  { destruct Hr as (f & Hr). exists f. by eapply rtc_r. }
  destruct (IH Hr2 _ Hy) as (z & Hz & Ez). exists z. split; [done|]. congruence.
Qed.
End invariants.
