(* ===== verification/WorkExport.v ===== *)
(** * WorkExport: an issue is created at most once

    The invariant of the deliveries to GitHub: who may be creating an issue, what the
    state of the export says about it, and that the content is what was approved. *)

From Stdlib Require Import ZifyBool.
From stdpp Require Import base tactics numbers strings countable sorting gmap list relations.
From S2P Require Import Prelude RustStr Text Ids Models RepoState Sql WorkItems WorkDelivery WorkReach WorkInv.

Section deliveries.
Context `{JsonText, UuidLib}.
Implicit Types (e r : ExportRow) (ws : gmap Uuid DeliverPhase) (ps : list ExportRow).

(** What was approved. *)
Definition content e :=
  (e_task e, e_actor e, e_request e, e_revision e, e_send e, e_title e, e_body e, e_target e, e_marker e).
Definition receipt_of (ph : DeliverPhase) : option ExportRow :=
  match ph with
  | Deliver_check r | Deliver_find r | Deliver_verify r | Deliver_recheck r | Deliver_send r
  | Deliver_post r | Deliver_settle r _ => Some r
  | _ => None
  end.
Definition creating (ph : DeliverPhase) : Prop := ∃ r, ph = Deliver_post r.
(** No issue has been created and none is being created. *)
Definition silent ws ps : Prop := ps = [] ∧ map_Forall (λ _ ph, ¬ creating ph) ws.
Definition quiet (s : ExportStatus) : Prop := s ∈ [Export_pending; Export_blocked; Export_skipped].
Definition unsent (s : ExportStatus) : Prop := s ∈ [Export_pending; Export_blocked].

(** Where the holder of the lease is, by the state of the export. *)
Definition fits ws ps (s : ExportStatus) (ph : DeliverPhase) : Prop :=
  match ph with
  | Deliver_claimed => unsent s ∨ s = Export_uncertain
  | Deliver_check r => e_status r = s ∧ (unsent s ∨ s = Export_uncertain)
  | Deliver_find _ => s = Export_uncertain
  | Deliver_verify _ | Deliver_recheck _ | Deliver_send _ => unsent s
  | Deliver_post _ | Deliver_doubt => s = Export_sending
  | Deliver_settle _ _ => s = Export_sending ∨ s = Export_uncertain
  | Deliver_block => unsent s ∨ s = Export_sending ∧ silent ws ps
  | Deliver_done => True
  end.

Record delivery_ok (e : ExportRow) ws ps : Prop := {
  ok_once : length ps ≤ 1;
  ok_posted r : r ∈ ps → content r = content e;
  ok_receipts token ph r : ws !! token = Some ph → receipt_of ph = Some r → content r = content e;
  ok_quiet : quiet (e_status e) → silent ws ps;
  ok_creating token ph : ws !! token = Some ph → creating ph →
    ps = [] ∧ ∀ token' ph', ws !! token' = Some ph' → creating ph' → token' = token;
  ok_send : e_status e = Export_skipped ∨ e_send e = true;
  ok_holder token : e_lease_token e = Some token → ∃ ph, ws !! token = Some ph ∧ fits ws ps (e_status e) ph }.
Definition export_inv (oe : option ExportRow) ws ps : Prop :=
  match oe with Some e => delivery_ok e ws ps | None => ps = [] ∧ ws = ∅ end.

Lemma unsent_quiet s : unsent s → quiet s.
Proof. unfold unsent, quiet. rewrite !elem_of_cons. naive_solver. Qed.

Lemma fresh_ok e :
  e_status e = (if e_send e then Export_pending else Export_skipped) → e_lease_token e = None →
  delivery_ok e ∅ [].
Proof.
  intros Hs Ht. split.
  - simpl. lia.
  - by intros r Hr%elem_of_nil.
  - by intros token ph r Hl.
  - by split.
  - by intros token ph Hl.
  - destruct (e_send e); auto.
  - intros token. by rewrite Ht.
Qed.
(** A new worker takes the lease. *)
Lemma claim_ok e ws ps token now :
  delivery_ok e ws ps → ws !! token = None → deliverable (e_status e) = true →
  delivery_ok (e <| e_lease_until := (now + 600)%Z |> <| e_lease_token := Some token |>
                 <| e_status := if bool_decide (e_status e = Export_sending) then Export_uncertain else e_status e |>)
    (<[token := Deliver_claimed]> ws) ps.
Proof.
  intros Hok Hn Hd. unfold deliverable in Hd. bool_facts.
  assert (∀ tk ph, <[token := Deliver_claimed]> ws !! tk = Some ph → ph = Deliver_claimed ∨ ws !! tk = Some ph) as Hw.
  { intros tk ph [[_ <-]|[_ Hl]]%lookup_insert_Some; auto. }
  split; simpl.
  - apply Hok.
  - apply Hok.
  - intros tk ph r [->|Hl]%Hw Hr; [done|]. by eapply (ok_receipts _ _ _ Hok).
  - case_bool_decide; [by unfold quiet; rewrite !elem_of_cons, elem_of_nil; naive_solver|].
    intros [Hp Hf]%(ok_quiet _ _ _ Hok). split; [done|]. intros tk ph [->|Hl]%Hw; [by intros []|by eapply Hf].
  - intros tk ph [->|Hl]%Hw Hc; [by destruct Hc|]. destruct (ok_creating _ _ _ Hok _ _ Hl Hc) as [Hp Hu].
    split; [done|]. intros tk' ph' [->|Hl']%Hw Hc'; [by destruct Hc'|]. by eapply Hu.
  - destruct (ok_send _ _ _ Hok) as [Hs|Hs]; [|by right]. rewrite Hs in Hd. by set_unfold in Hd; naive_solver.
  - intros tk [= <-]. exists Deliver_claimed. rewrite lookup_insert_eq. split; [done|]. simpl.
    case_bool_decide; [by right|]. set_unfold. unfold unsent. set_unfold. naive_solver.
Qed.
Lemma lookup_move ws token ph tk ph0 :
  <[token := ph]> ws !! tk = Some ph0 → tk = token ∧ ph0 = ph ∨ tk ≠ token ∧ ws !! tk = Some ph0.
Proof. intros [[-> ->]|[Hne Hl]]%lookup_insert_Some; auto. Qed.
Lemma silent_move ws ps token ph : silent ws ps → ¬ creating ph → silent (<[token := ph]> ws) ps.
Proof. intros [Hp Hf] Hc. split; [done|]. by apply map_Forall_insert_2. Qed.
Lemma fits_mono ws ws' ps s ph : (silent ws ps → silent ws' ps) → fits ws ps s ph → fits ws' ps s ph.
Proof. destruct ph; simpl; naive_solver. Qed.

(** A worker moves on without creating anything; the row may change. *)
Lemma move_ok e e' ws ps token ph ph' :
  delivery_ok e ws ps → ws !! token = Some ph → ¬ creating ph' → content e' = content e →
  (∀ r, receipt_of ph' = Some r → content r = content e) →
  (quiet (e_status e') → silent (<[token := ph']> ws) ps) → (e_status e = Export_skipped → e_status e' = Export_skipped) →
  (∀ tk, e_lease_token e' = Some tk →
     if decide (tk = token) then fits (<[token := ph']> ws) ps (e_status e') ph'
     else e_lease_token e = Some tk ∧ e_status e' = e_status e) →
  delivery_ok e' (<[token := ph']> ws) ps.
Proof.
  intros Hok Hl Hc' He Hr Hq Hsk Ht. split.
  - apply Hok.
  - rewrite He. apply Hok.
  - intros tk ph0 r [[-> ->]|[_ Hl']]%lookup_move Hr'; rewrite He; [by apply Hr|by eapply (ok_receipts _ _ _ Hok)].
  - done.
  - intros tk ph0 [[-> ->]|[_ Hl']]%lookup_move Hc; [done|]. destruct (ok_creating _ _ _ Hok _ _ Hl' Hc) as [Hp Hu].
    split; [done|]. intros tk' ph1 [[-> ->]|[_ Hl'']]%lookup_move Hc1; [done|by eapply Hu].
  - destruct (ok_send _ _ _ Hok) as [Hs|Hs]; [by left; apply Hsk|right]. unfold content in He. congruence.
  - intros tk Htk. specialize (Ht tk Htk). case_decide as E.
    + subst tk. exists ph'. by rewrite lookup_insert_eq.
    + destruct Ht as [Hold Hst]. destruct (ok_holder _ _ _ Hok _ Hold) as (ph0 & Hl0 & Hf0).
      exists ph0. rewrite lookup_insert_ne by done. split; [done|]. rewrite Hst.
      eapply fits_mono; [|done]. intros Hsil. by apply silent_move.
Qed.
Lemma walk_ok e ws ps token ph ph' :
  delivery_ok e ws ps → ws !! token = Some ph → ¬ creating ph' →
  (∀ r, receipt_of ph' = Some r → content r = content e) →
  (e_lease_token e = Some token → fits ws ps (e_status e) ph → fits (<[token := ph']> ws) ps (e_status e) ph') →
  delivery_ok e (<[token := ph']> ws) ps.
Proof.
  intros Hok Hl Hc Hr Hf. eapply move_ok; [done..| |done|].
  - intros Hq. apply silent_move; [by apply Hok|done].
  - intros tk Htk. case_decide; [subst tk|done]. destruct (ok_holder _ _ _ Hok _ Htk) as (ph0 & Hl0 & Hf0).
    simplify_eq. by apply Hf.
Qed.
(** The request leaves: the state says so before. *)
Lemma send_ok e ws ps token r now :
  delivery_ok e ws ps → ws !! token = Some (Deliver_send r) → e_lease_token e = Some token →
  delivery_ok (e <| e_status := Export_sending |> <| e_attempted_at := now |>) (<[token := Deliver_post r]> ws) ps.
Proof.
  intros Hok Hl Ht. destruct (ok_holder _ _ _ Hok _ Ht) as (ph & Hl' & Hf). simplify_eq/=.
  destruct (ok_quiet _ _ _ Hok (unsent_quiet _ Hf)) as [-> Hsil]. split; simpl.
  - lia.
  - by intros r' Hr'%elem_of_nil.
  - intros tk ph0 r' [[-> ->]|[_ Hl']]%lookup_move Hr'; simplify_eq/=;
      by eapply (ok_receipts _ _ _ Hok).
  - unfold quiet. rewrite !elem_of_cons, elem_of_nil. naive_solver.
  - intros tk ph0 Hl1 Hc1. split; [done|]. apply lookup_move in Hl1 as [[-> ->]|[_ Hl1]];
      [|by destruct (Hsil _ _ Hl1)]. intros tk' ph1 [[-> ->]|[_ Hl2]]%lookup_move Hc2; [done|by destruct (Hsil _ _ Hl2)].
  - right. destruct (ok_send _ _ _ Hok) as [Hs|Hs]; [|done]. rewrite Hs in Hf. unfold unsent in Hf. set_solver.
  - intros tk Htk. assert (tk = token) as -> by congruence. exists (Deliver_post r). by rewrite lookup_insert_eq.
Qed.
(** The answer arrives. *)
Lemma posted_ok e ws ps token r ph :
  delivery_ok e ws ps → ws !! token = Some (Deliver_post r) → ¬ creating ph →
  (∀ r', receipt_of ph = Some r' → r' = r) → (∀ ws ps, fits ws ps Export_sending ph) →
  delivery_ok e (<[token := ph]> ws) (r :: ps).
Proof.
  intros Hok Hl Hc Hr Hf. destruct (ok_creating _ _ _ Hok _ _ Hl) as [-> Hu]; [by eexists|].
  assert (content r = content e) as Hce by by eapply (ok_receipts _ _ _ Hok).
  assert (map_Forall (λ _ ph, ¬ creating ph) (<[token := ph]> ws)) as Hsil.
  { intros tk ph0 [[-> ->]|[Hne Hl0]]%lookup_move Hc0; [done|]. by apply Hne, (Hu _ _ Hl0). }
  split.
  - simpl. lia.
  - by intros r' ->%list_elem_of_singleton.
  - intros tk ph0 r' [[-> ->]|[_ Hl']]%lookup_move Hr'; [by rewrite (Hr _ Hr')|by eapply (ok_receipts _ _ _ Hok)].
  - intros [_ Hq]%(ok_quiet _ _ _ Hok). destruct (Hq _ _ Hl). by eexists.
  - intros tk ph0 Hl0 Hc0. by destruct (Hsil _ _ Hl0).
  - apply Hok.
  - intros tk Htk. destruct (ok_holder _ _ _ Hok _ Htk) as (ph0 & Hl0 & Hf0).
    destruct (decide (tk = token)) as [->|Hne].
    + simplify_eq/=. exists ph. rewrite lookup_insert_eq, Hf0. auto.
    + exists ph0. rewrite lookup_insert_ne by done. split; [done|].
      destruct ph0; try done. destruct Hf0 as [?|[_ [_ Hno]]]; [by left|]. destruct (Hno _ _ Hl). by eexists.
Qed.

(** ** The steps of a delivery *)

Definition posted_by (phase : DeliverPhase) (answer : GithubAnswer) ps : list ExportRow :=
  match may_create phase answer with Some r => r :: ps | None => ps end.
Lemma not_creating ph : (∀ r, ph ≠ Deliver_post r) → ¬ creating ph.
Proof. intros Hn (r & ->). by destruct (Hn r). Qed.
Lemma content_of e status attempted : content (e <| e_status := status |> <| e_attempted_at := attempted |>) = content e.
Proof. done. Qed.

Lemma export_state_cases item token state attempt db e :
  wi_exports db !! item = Some e →
  (holds_export token e = false ∧ export_state item token state attempt db = (Err Conflict, db))
  ∨ (e_lease_token e = Some token
     ∧ export_state item token state attempt db
       = (Ok tt, db <| wi_exports := <[item := e <| e_status := state |>
           <| e_attempted_at := union attempt (e_attempted_at e) |>]> (wi_exports db) |>)).
Proof.
  intros He. unfold export_state, update_export. st_compute. rewrite He.
  destruct (holds_export token e) eqn:Hh; [right|by left]. unfold holds_export in Hh. by bool_facts.
Qed.

(** The holder settles the state of the export and is done. *)
Lemma settle_state e ws ps token ph e' :
  delivery_ok e ws ps → ws !! token = Some ph → e_lease_token e = Some token → e_lease_token e' = Some token →
  content e' = content e → e_status e ≠ Export_skipped →
  (quiet (e_status e') → silent ws ps) → delivery_ok e' (<[token := Deliver_done]> ws) ps.
Proof.
  intros Hok Hl Ht Ht' Hc Hn Hq. eapply move_ok; [done..|by apply not_creating|done|done| |done|].
  - intros Hs. apply silent_move; [by apply Hq|by apply not_creating].
  - intros tk Htk. rewrite Ht' in Htk. simplify_eq. by rewrite decide_True.
Qed.
Lemma deliver_ok self now item token answer phase db e ws ps :
  wi_exports db !! item = Some e → delivery_ok e ws ps → ws !! token = Some phase →
  ∃ e', wi_exports (deliver_step self now item token answer phase db).2 = <[item := e']> (wi_exports db)
    ∧ delivery_ok e' (<[token := (deliver_step self now item token answer phase db).1]> ws) (posted_by phase answer ps).
Proof.
  intros He Hok Hl.
  assert (∀ ph', may_create phase answer = None → ¬ creating ph' → (∀ r, receipt_of ph' = Some r → content r = content e) →
    (e_lease_token e = Some token → fits ws ps (e_status e) phase → fits (<[token := ph']> ws) ps (e_status e) ph') →
    ∃ e', wi_exports db = <[item := e']> (wi_exports db) ∧ delivery_ok e' (<[token := ph']> ws) (posted_by phase answer ps)) as Hwalk.
  { intros ph' Hm Hc Hr Hf. exists e. rewrite insert_id by done. split; [done|]. unfold posted_by. rewrite Hm.
    by eapply walk_ok. }
  assert (∀ r, receipt_of phase = Some r → content r = content e) as Hrec by (intros r; by apply (ok_receipts _ _ _ Hok token)).
  assert (e_lease_token e = Some token → fits ws ps (e_status e) phase) as Hfit.
  { intros Ht. destruct (ok_holder _ _ _ Hok _ Ht) as (ph & Hl' & Hf). by simplify_eq. }
  destruct phase as [|r|r|r|r|r|r|r issue| | |]; simpl in *.
  - unfold read_receipt. st_compute. rewrite He. destruct (_ && _) eqn:Eh; simpl; [|by apply Hwalk; [|apply not_creating|..]].
    destruct (github self); (apply Hwalk; [done|by apply not_creating|..]); simpl; naive_solver.
  - destruct (bool_decide _) eqn:Eu; [|destruct (export_allowed _ _ _ _)]; bool_facts;
      (apply Hwalk; [done|by apply not_creating|by intros r' Hr'; simplify_eq/=; apply Hrec|simpl; intuition congruence]).
  - repeat case_match; (apply Hwalk; [done|by apply not_creating|by intros r' Hr'; simplify_eq/=; apply Hrec|simpl; intuition congruence]).
  - repeat case_match; (apply Hwalk; [done|by apply not_creating|by intros r' Hr'; simplify_eq/=; apply Hrec|simpl; intuition congruence]).
  - repeat case_match; (apply Hwalk; [done|by apply not_creating|by intros r' Hr'; simplify_eq/=; apply Hrec|simpl; intuition congruence]).
  - destruct (export_state_cases item token Export_sending (Some now) db e He) as [[_ ->]|[Ht ->]];
      [by apply Hwalk; [|apply not_creating|..]|]. eexists. split; [done|]. by apply send_ok.
  - destruct answer; try (exists e; rewrite insert_id by done; split; [done|];
      apply posted_ok; [done..|by apply not_creating|by intros r' Hr'; simplify_eq/=|by intros; simpl; auto]).
    apply Hwalk; [done|by apply not_creating|done|]. simpl. intros Ht Hs. right. split; [done|].
    destruct (ok_creating _ _ _ Hok _ _ Hl) as [Hp Hu]; [by eexists|]. split; [done|].
    intros tk ph0 [[-> ->]|[Hne Hl0]]%lookup_move Hc0; [by destruct Hc0|]. by apply Hne, (Hu _ _ Hl0).
  - destruct (settle_cases r item token issue db) as [->|(e0 & note & He0 & Hh & Hs & ->)];
      [by apply Hwalk; [|apply not_creating|..]|]. simplify_eq. eexists. split; [done|]. unfold holds_export in Hh. bool_facts.
    eapply settle_state; [done..| |]; [intros Hsk; rewrite Hsk in Hs|]; set_solver.
  - destruct (export_state_cases item token Export_blocked None db e He) as [[_ ->]|[Ht ->]];
      [by apply Hwalk; [|apply not_creating|..]|]. eexists. split; [done|]. eapply settle_state; [done..| |].
    + intros Hsk. specialize (Hfit Ht). rewrite Hsk in Hfit. unfold unsent in Hfit. set_solver.
    + intros _. destruct (Hfit Ht) as [Hq|[_ Hq]]; [by apply (ok_quiet _ _ _ Hok), unsent_quiet|done].
  - destruct (export_state_cases item token Export_uncertain None db e He) as [[_ ->]|[Ht ->]];
      [by apply Hwalk; [|apply not_creating|..]|]. eexists. split; [done|]. eapply settle_state; [done..| |].
    + by rewrite (Hfit Ht).
    + unfold quiet. set_solver.
  - unfold deliver_release. match goal with |- context [update_export item ?p ?f] =>
      destruct (update_export_cases item p f db) as [->|(e0 & He0 & Hh & ->)] end;
      [by apply Hwalk; [|apply not_creating|..]|]. simplify_eq. eexists. split; [done|].
    eapply move_ok; [done..|by apply not_creating|done|done| |done|done].
    intros Hq. apply silent_move; [by apply Hok|by apply not_creating].
Qed.

(** ** In every reachable world *)

(** The deliveries of a case. *)
Definition deliveries_of (item : Uuid) (all : gmap Uuid (Uuid * DeliverPhase)) : gmap Uuid DeliverPhase :=
  omap (λ p, if bool_decide (p.1 = item) then Some p.2 else None) all.
Lemma deliveries_insert item all token ph :
  deliveries_of item (<[token := (item, ph)]> all) = <[token := ph]> (deliveries_of item all).
Proof. unfold deliveries_of. rewrite (omap_insert_Some _ _ _ _ ph); [done|]. simpl. by rewrite bool_decide_eq_true_2. Qed.
Lemma deliveries_other item other all token ph :
  other ≠ item → (∀ p, all !! token = Some p → p.1 = item) →
  deliveries_of other (<[token := (item, ph)]> all) = deliveries_of other all.
Proof.
  intros Hne Hp. apply omap_silent_insert. simpl. rewrite (bool_decide_eq_false_2 (item = other)) by done.
  destruct (all !! token) as [p|] eqn:E; [|done]. simpl. rewrite (Hp p) by done. by rewrite bool_decide_eq_false_2.
Qed.
Definition exports_ok (w : World) : Prop := ∀ item,
  export_inv (wi_exports (wd_db w) !! item) (deliveries_of item (wd_deliveries w)) (posts w item).

(** The steps that are no delivery. *)
Lemma exports_frame w w' :
  exports_ok w → wd_deliveries w' = wd_deliveries w → wd_posts w' = wd_posts w →
  (wi_exports (wd_db w') = wi_exports (wd_db w)
   ∨ ∃ item e, wi_exports (wd_db w) !! item = None ∧ wi_exports (wd_db w') = <[item := e]> (wi_exports (wd_db w))
       ∧ e_status e = (if e_send e then Export_pending else Export_skipped) ∧ e_lease_token e = None) →
  exports_ok w'.
Proof.
  intros Hok Hd Hp He item. unfold posts. rewrite Hd, Hp. specialize (Hok item).
  destruct He as [->|(it & e & Hn & -> & Hs & Ht)]; [done|].
  destruct (decide (item = it)) as [->|Hne]; [|by rewrite lookup_insert_ne].
  rewrite Hn in Hok. destruct Hok as [Hps Hws]. rewrite lookup_insert_eq, Hws. unfold posts in Hps. rewrite Hps.
  by apply fresh_ok.
Qed.
Lemma effect_exports db db' :
  effect db db' →
  wi_exports db' = wi_exports db
  ∨ ∃ item e, wi_exports db !! item = None ∧ wi_exports db' = <[item := e]> (wi_exports db)
      ∧ e_status e = (if e_send e then Export_pending else Export_skipped) ∧ e_lease_token e = None.
Proof. intros []; eauto 10. Qed.
(** A step of a delivery. *)
Lemma exports_delivery w item token ph e e' posted :
  exports_ok w → wi_exports (wd_db w) !! item = Some e → (∀ p, wd_deliveries w !! token = Some p → p.1 = item) →
  delivery_ok e' (<[token := ph]> (deliveries_of item (wd_deliveries w))) (posted (posts w item)) →
  ∀ db', wi_exports db' = <[item := e']> (wi_exports (wd_db w)) →
  ∀ ps' : gmap Uuid (list ExportRow), default [] (ps' !! item) = posted (posts w item) → (∀ i, i ≠ item → ps' !! i = wd_posts w !! i) →
  exports_ok (w <| wd_db := db' |> <| wd_deliveries := <[token := (item, ph)]> (wd_deliveries w) |> <| wd_posts := ps' |>).
Proof.
  intros Hok He Hp Hd db' Hdb ps' Hps Hne i. unfold posts. simpl. rewrite Hdb.
  destruct (decide (i = item)) as [->|Hn].
  - by rewrite lookup_insert_eq, deliveries_insert, Hps.
  - rewrite lookup_insert_ne, deliveries_other, Hne by done. apply (Hok i).
Qed.
Lemma update_item_exports id p f db : wi_exports (update_item id p f db).2 = wi_exports db.
Proof. by destruct (update_item_cases id p f db) as [->|(x & _ & _ & ->)]. Qed.
Lemma reconcile_exports message item token channel_of phase phase' db db' :
  reconcile_step message item token channel_of phase db = (Ok phase', db') → wi_exports db' = wi_exports db.
Proof.
  intros Hr. destruct phase as [|before [|task after] state| |]; simpl in Hr; ok_inv Hr; try done.
  - match goal with E : sync_finish ?i ?s ?t ?d = (_, ?d') |- _ =>
      assert (d' = (sync_finish i s t d).2) as -> by by rewrite E end. apply update_item_exports.
  - destruct (project _ _ _ _ _ _) as [[m|er|] d] eqn:E; simplify_eq.
    + apply project_cases in E. naive_solver.
    + unfold project, transaction in E. by case_match; case_match; simplify_eq.
    + unfold project, transaction in E. by case_match; case_match; simplify_eq.
Qed.
Lemma exports_reachable w : work_reachable w → exports_ok w.
Proof.
  revert w. apply reachable_ind.
  - intros f item. simpl. rewrite lookup_empty. split; [done|]. unfold deliveries_of. simpl. by rewrite omap_empty.
  - intros w w' Hr Hok [op Hh|item now token db Ht Hc|token item view tasks phase db Ht Hst
    |message token item channel_of phase phase' db Ht Hh Hst|token item phase next Ht|item now token db Ht Hc
    |self now token item phase answer Ht r].
    + apply (exports_frame w); [done..|]. apply effect_exports, op_effect; [done|]. by apply publish_undecided_reachable.
    + apply (exports_frame w); [done..|]. left. simpl.
      assert (db = (sync_claim item now token (wd_db w)).2) as -> by by rewrite Hc. apply update_item_exports.
    + apply (exports_frame w); [done..|]. left. simpl. unfold reconcile_start in Hst. by ok_inv Hst.
    + apply (exports_frame w); [done..|]. left. by eapply reconcile_exports.
    + apply (exports_frame w); [done..|]. left. apply update_item_exports.
    + unfold deliver_claim in Hc. match type of Hc with update_export _ ?p ?f _ = _ =>
        destruct (update_export_cases item p f (wd_db w)) as [E|(e & He & Hp & E)] end;
        rewrite E in Hc; simplify_eq. unfold delivery_free in Hp. bool_facts.
      pose proof (Hok item) as Hi. rewrite He in Hi. simpl in Hi.
      apply (exports_delivery w item token Deliver_claimed e
        (e <| e_lease_until := (now + 600)%Z |> <| e_lease_token := Some token |>
           <| e_status := if bool_decide (e_status e = Export_sending) then Export_uncertain else e_status e |>) id);
        [done|done|by intros p; rewrite Ht| |done..].
      apply claim_ok; [done| |done]. unfold deliveries_of. by rewrite lookup_omap, Ht.
    + pose proof (Hok item) as Hi.
      assert (deliveries_of item (wd_deliveries w) !! token = Some phase) as Hl.
      { unfold deliveries_of. rewrite lookup_omap, Ht. simpl. by rewrite bool_decide_eq_true_2. }
      destruct (wi_exports (wd_db w) !! item) as [e|] eqn:He; [|by destruct Hi as [_ Hi]; rewrite Hi, lookup_empty in Hl].
      destruct (deliver_ok self now item token answer phase _ _ _ _ He Hi Hl) as (e' & Hdb & Hd).
      eapply (exports_delivery w item token r.1 e _ (posted_by phase answer)); [done|done|by intros p; rewrite Ht; intros [= <-]|done|done|..];
        unfold posted_by.
      * destruct (may_create phase answer); [by rewrite lookup_insert_eq|done].
      * intros i Hne. destruct (may_create phase answer); [by rewrite lookup_insert_ne|done].
Qed.
End deliveries.
