(* ===== verification/WorkOutcome.v ===== *)
(** * WorkOutcome: what became of a case is what was decided

    The invariant of the reviews: the status of a case is the reviewer's recorded decision,
    changed only along the allowed transitions, each of them in the history. *)

From Stdlib Require Import ZifyBool.
From stdpp Require Import base tactics numbers strings countable sorting gmap list relations.
From S2P Require Import Prelude RustStr Text Ids Models RepoState Sql WorkItems WorkDelivery WorkReach WorkInv.

Section outcome.
Context `{JsonText, UuidLib}.
Implicit Types (w : World) (x : WorkItem) (t : TaskRow) (h : HistoryRow) (db : WorkDb).

(** ** The history of a case *)

(** Allowed transitions from one status to another. *)
Fixpoint chain (from : ItemStatus) (l : list HistoryRow) (to : ItemStatus) : Prop :=
  match l with
  | [] => from = to
  | h :: l => h_from h = from ∧ h_to h ∈ transitions from ∧ chain (h_to h) l to
  end.
Lemma chain_snoc from l to h :
  chain from l to → h_from h = to → h_to h ∈ transitions to → chain from (l ++ [h]) (h_to h).
Proof. revert from. induction l as [|h' l IH]; simpl; [|naive_solver]. by intros from -> <- Ht. Qed.
Definition increasing (l : list HistoryRow) : Prop := StronglySorted Z.lt (h_revision <$> l).

Lemma increasing_NoDup l : increasing l → NoDup (h_revision <$> l).
Proof.
  unfold increasing. induction 1 as [|z zs _ IH Hz]; [constructor|]. constructor; [|done].
  intros Hin. rewrite Forall_forall in Hz. specialize (Hz _ Hin). lia.
Qed.
Lemma increasing_snoc l h :
  increasing l → Forall (λ h', (h_revision h' < h_revision h)%Z) l → increasing (l ++ [h]).
Proof.
  unfold increasing. rewrite fmap_app. intros Hl Hf. induction l as [|h' l IH]; simpl in *.
  - by repeat constructor.
  - apply StronglySorted_inv in Hl as [Hl Hh]. decompose_Forall_hyps. constructor; [by apply IH|].
    apply Forall_app. split; [done|by repeat constructor].
Qed.
Lemma increasing_sorted l : increasing l → Sorted (on_key Z.le h_revision) l.
Proof.
  unfold increasing. induction l as [|h l IH]; intros Hs; [constructor|].
  apply StronglySorted_inv in Hs as [Hs Hh]. constructor; [by apply IH|].
  destruct l; constructor. unfold on_key. simpl in Hh. decompose_Forall_hyps. lia.
Qed.

Definition history_rows (item : Uuid) db : gmap Uuid HistoryRow :=
  rows_where (λ _ h, bool_decide (h_item h = item)) (wi_history db).
Lemma history_of_perm item db : history_of item db ≡ₚ values (history_rows item db).
Proof. apply merge_sort_Permutation. Qed.
Lemma history_of_same item db db' : wi_history db' = wi_history db → history_of item db' = history_of item db.
Proof. unfold history_of. by intros ->. Qed.
Lemma history_of_insert item db db' id h :
  wi_history db !! id = None → wi_history db' = <[id := h]> (wi_history db) → h_item h = item →
  increasing (history_of item db) → Forall (λ h', (h_revision h' < h_revision h)%Z) (history_of item db) →
  history_of item db' = history_of item db ++ [h].
Proof.
  intros Hn Hdb Hi Hs Hf. pose proof (increasing_snoc _ _ Hs Hf) as Hs'.
  rewrite <-(sort_by_key_sorted (R := Z.le) h_revision (history_of item db ++ [h]));
    [|by apply increasing_sorted|by apply increasing_NoDup].
  unfold history_of at 1. symmetry. apply (sort_by_key_unique (R := Z.le)); [|by apply increasing_NoDup].
  rewrite <-Permutation_cons_append, history_of_perm. unfold history_rows, values, rows_where. rewrite Hdb.
  rewrite map_filter_insert_True by by apply bool_decide_eq_true.
  rewrite map_to_list_insert; [done|]. apply map_lookup_filter_None. by left.
Qed.
Lemma history_of_other item db db' id h :
  wi_history db !! id = None → wi_history db' = <[id := h]> (wi_history db) → h_item h ≠ item →
  history_of item db' = history_of item db.
Proof.
  intros Hn Hdb Hi. unfold history_of, rows_where. rewrite Hdb, map_filter_insert_False, delete_id; [done..|].
  simpl. by rewrite bool_decide_eq_true.
Qed.
Definition history_owned db : Prop := ∀ id h, wi_history db !! id = Some h → is_Some (wi_items db !! h_item h).
Lemma history_of_new item db : history_owned db → wi_items db !! item = None → history_of item db = [].
Proof.
  intros Ho Hn. apply Permutation_nil_r. rewrite history_of_perm. unfold history_rows.
  destruct (decide (rows_where (λ _ h, bool_decide (h_item h = item)) (wi_history db) = ∅)) as [->|Hne]; [done|].
  apply rows_where_inhabited in Hne as (id & h & Hh & Hi). bool_facts. destruct (Ho _ _ Hh) as [x Hx]. congruence.
Qed.

(** ** The decision of the reviewer *)

Definition reviewing t : Prop := t_node t = Node_review ∨ t_node t = Node_followup_review.
(** The columns of a task that a decided review keeps. *)
Definition decision_of t :=
  (t_item t, t_node t, t_assignee t, t_request t, t_category t, t_priority t, t_decision t).
Definition decides x (decision : ItemStatus) t : Prop :=
  reviewing t ∧ t_assignee t = w_reviewer x ∧ t_status t = Task_completed ∧ is_Some (t_request t)
  ∧ t_decision t = Some decision ∧ decision ∈ final_statuses
  ∧ t_category t = w_category x ∧ t_priority t = w_priority x.
Definition decided_by db (item : Uuid) x (decision : ItemStatus) : Prop :=
  ∃ id t, wi_tasks db !! id = Some t ∧ t_item t = item ∧ decides x decision t.

Definition outcome x :=
  (w_status x, w_process_status x, w_version x, w_reviewer x, w_category x, w_priority x).
Record case_ok db (item : Uuid) x (decision : ItemStatus) : Prop := {
  case_chain : chain decision (history_of item db) (w_status x);
  case_increasing : increasing (history_of item db);
  case_bound : Forall (λ h, (h_revision h ≤ w_revision x)%Z) (history_of item db);
  case_completed : history_of item db ≠ [] → w_process_status x = Process_completed;
  case_decided : w_process_status x = Process_completed → w_version x = V1_1_0 → decided_by db item x decision }.

Definition open x : Prop := w_process_status x = Process_starting ∨ w_process_status x = Process_waiting.
(** Where the holder of the lease is. *)
Definition lease_fits db (item : Uuid) x (ph : SyncPhase) : Prop :=
  match ph with
  | Sync_finished state => w_process_status x = state
  | Sync_projecting _ after state => open x ∧ (w_version x = V1_1_0 → state = Process_completed →
      Forall (λ task, has_status Task_completed task = true) after
      ∧ match last after with
        | Some task => concluding task
        | None => decided_by db item x (w_status x)
        end)
  | _ => open x
  end.
Record case_inv db (syncs : gmap Uuid (Uuid * SyncPhase)) (item : Uuid) x : Prop := {
  inv_case : ∃ decision, case_ok db item x decision;
  inv_lease token : w_sync_lease_token x = Some token →
    ∃ ph, syncs !! token = Some (item, ph) ∧ lease_fits db item x ph }.
Definition reviewers db : Prop := ∀ id t, wi_tasks db !! id = Some t → reviewing t →
  ∃ x, wi_items db !! t_item t = Some x ∧ t_assignee t = w_reviewer x.
Definition outcome_inv w : Prop :=
  (∀ item x, wi_items (wd_db w) !! item = Some x → case_inv (wd_db w) (wd_syncs w) item x)
  ∧ history_owned (wd_db w) ∧ reviewers (wd_db w).

(** Decided reviews of a case stay as they are. *)
Definition rows_kept db db' (item : Uuid) : Prop :=
  ∀ id t, wi_tasks db !! id = Some t → t_item t = item → reviewing t → t_status t = Task_completed →
    is_Some (t_request t) → ∃ t', wi_tasks db' !! id = Some t' ∧ decision_of t' = decision_of t ∧ t_status t' = Task_completed.
Lemma decided_kept db db' item x x' decision :
  rows_kept db db' item → (w_reviewer x', w_category x', w_priority x') = (w_reviewer x, w_category x, w_priority x) →
  decided_by db item x decision → decided_by db' item x' decision.
Proof.
  intros Hk Hx (id & t & Ht & Hi & Hrev & Ha & Hs & Hq & Hd & Hf & Hc & Hp).
  destruct (Hk _ _ Ht Hi Hrev Hs Hq) as (t' & Ht' & He & Hs'). exists id, t'. split; [done|].
  unfold decision_of, decides, reviewing in *. simplify_eq. split; [congruence|]. 
  split_and!; congruence || done.
Qed.

Lemma rows_same db db' item : wi_tasks db' = wi_tasks db → rows_kept db db' item.
Proof. intros E id t. rewrite E. eauto. Qed.
Lemma rows_insert db db' item id t t' :
  wi_tasks db !! id = Some t → wi_tasks db' = <[id := t']> (wi_tasks db) →
  t_item t ≠ item ∨ ¬ reviewing t ∨ t_status t = Task_pending → rows_kept db db' item.
Proof.
  intros Ht E Hn id0 t0 Ht0 Hi Hrev Hs _. rewrite E. exists t0. rewrite lookup_insert_ne; [done|].
  intros ->. simplify_eq. destruct Hn as [?|[?|?]]; congruence.
Qed.
Lemma rows_new db db' item id t' :
  wi_tasks db !! id = None → wi_tasks db' = <[id := t']> (wi_tasks db) → rows_kept db db' item.
Proof. intros Hn E id0 t0 Ht0 _ _ Hs _. rewrite E. exists t0. rewrite lookup_insert_ne; [done|]. congruence. Qed.
Lemma rows_imap db db' item f :
  (∀ id t, wi_tasks db !! id = Some t → same_task t (f id t)
     ∧ (t_status (f id t) = t_status t ∨ t_node t = Node_publish_github)) →
  wi_tasks db' = map_imap (λ id t, Some (f id t)) (wi_tasks db) → rows_kept db db' item.
Proof.
  intros Hf E id t Ht _ Hrev Hs _. rewrite E, map_lookup_imap, Ht. exists (f id t). split; [done|].
  destruct (Hf _ _ Ht) as [(status & note & delivery & Hsame) Hst]. split; [by rewrite Hsame|].
  destruct Hst as [->|Hp]; [done|]. destruct Hrev; congruence.
Qed.
Lemma effect_rows db db' item : effect db db' → rows_kept db db' item.
Proof.
  intros [| | | |id t t' x Ht _ Ha|  |id t t' x e Ht _ Ha Hn|f Hf|]; try by apply rows_same.
  - eapply rows_insert; [done..|]. right. right. by destruct Ha as (_ & _ & _ & _ & _ & _ & Hs & _).
  - eapply rows_insert; [done..|]. right. left. intros []; congruence.
  - by eapply rows_imap.
  - by eapply rows_new.
Qed.

(** ** Steps that leave the outcome of a case alone *)

Lemma fits_kept db db' item x x' ph :
  rows_kept db db' item → outcome x' = outcome x → lease_fits db item x ph → lease_fits db' item x' ph.
Proof.
  intros Hk Ho. injection Ho as Hst Hpr Hv Hrev Hca Hpri.
  destruct ph as [|before after state|state|]; simpl; unfold open; rewrite ?Hpr; [done| |done|done].
  intros [Hopen Hf]. split; [done|]. rewrite Hv, Hst. intros HV Hs. destruct (Hf HV Hs) as [Hall Hl]. split; [done|].
  destruct (last after); [done|]. eapply decided_kept; [done| |done]. congruence.
Qed.
Lemma case_keep db db' item x x' decision :
  case_ok db item x decision → history_of item db' = history_of item db → rows_kept db db' item →
  outcome x' = outcome x → (w_revision x ≤ w_revision x')%Z → case_ok db' item x' decision.
Proof.
  intros [Hch Hin Hbo Hco Hde] Hh Hk Ho Hr. injection Ho as Hst Hpr Hv Hrev Hca Hpri. split; rewrite ?Hh.
  - by rewrite Hst.
  - done.
  - eapply Forall_impl; [done|]. simpl. lia.
  - by rewrite Hpr.
  - rewrite Hpr, Hv. intros Hp HV. eapply decided_kept; [done| |by apply Hde]. congruence.
Qed.
Lemma inv_keep db db' syncs syncs' item x x' :
  case_inv db syncs item x → history_of item db' = history_of item db → rows_kept db db' item →
  outcome x' = outcome x → (w_revision x ≤ w_revision x')%Z → w_sync_lease_token x' = w_sync_lease_token x →
  (∀ token ph, w_sync_lease_token x = Some token → syncs !! token = Some (item, ph) → syncs' !! token = Some (item, ph)) →
  case_inv db' syncs' item x'.
Proof.
  intros [[decision Hc] Hl] Hh Hk Ho Hr Hto Hs. split.
  - exists decision. by eapply case_keep.
  - intros token Ht. assert (w_sync_lease_token x = Some token) as Hx by congruence.
    destruct (Hl _ Hx) as (ph & Hph & Hf). exists ph. split; [by apply Hs|]. by eapply fits_kept.
Qed.
Lemma reviewers_kept db db' :
  reviewers db → table_step db db' → 
  (∀ id t', wi_tasks db' !! id = Some t' → reviewing t' →
     (∃ t, wi_tasks db !! id = Some t ∧ (t_item t', t_node t', t_assignee t') = (t_item t, t_node t, t_assignee t))
     ∨ ∃ x, wi_items db !! t_item t' = Some x ∧ t_assignee t' = w_reviewer x) →
  reviewers db'.
Proof.
  intros Hr Hs Hb id t' Ht' Hrev.
  assert (∃ x, wi_items db !! t_item t' = Some x ∧ t_assignee t' = w_reviewer x) as (x & Hx & Ha).
  { destruct (Hb _ _ Ht' Hrev) as [(t & Ht & E)|?]; [|done]. injection E as E1 E2 E3. rewrite E1, E3.
    apply (Hr _ _ Ht). unfold reviewing in *. congruence. }
  destruct (table_identity _ _ _ _ Hs Hx) as (x' & Hx' & E). exists x'. split; [done|]. unfold identity in E. congruence.
Qed.
(** A task that appears is shown by the holder of the lease, or belongs to an export. *)
Lemma table_task_new db db' id t' :
  table_step db db' → wi_tasks db !! id = None → wi_tasks db' !! id = Some t' →
  t_node t' = Node_publish_github
  ∨ ∃ message item token c x task status, t' = shown message item c task status
      ∧ ht_node task ≠ Node_publish_github ∧ may_project db item token c task = true
      ∧ wi_items db !! item = Some x.
Proof.
  intros Hs Hn Ht'.
  assert (wi_tasks db' ≠ wi_tasks db) as Hsame by congruence.
  assert (∀ k t0 t1, wi_tasks db !! k = Some t0 → wi_tasks db' ≠ <[k := t1]> (wi_tasks db)) as Hins.
  { intros k t0 t1 Hk E. rewrite E in Ht'. apply lookup_insert_Some in Ht' as [[-> _]|[_ Ht']]; congruence. }
  assert (∀ f, wi_tasks db' ≠ map_imap (λ id t, Some (f id t)) (wi_tasks db)) as Himap.
  { intros f E. by rewrite E, map_lookup_imap, Hn in Ht'. }
  destruct Hs as [[| | | |id' t1 t2 x Ht| |id' t1 t2 x e Ht|f|id' t1 Hnone Hp _ _ _ E]| |it tk c x t1 task status _ _ _ Ht
    |message it tk c x task status Hnp Hm Hx _ _ E|]; try done;
    try (exfalso; by eapply (Hins _ _ t2)).
  - exfalso. by eapply Himap.
  - rewrite E in Ht'. apply lookup_insert_Some in Ht' as [[_ <-]|[_ Ht']]; [by left|congruence].
  - exfalso. by eapply (Hins _ _ (confirmed status t1)).
  - rewrite E in Ht'. apply lookup_insert_Some in Ht' as [[_ <-]|[_ Ht']]; [|congruence]. right.
    by exists message, it, tk, c, x, task, status.
  - exfalso. by eapply Himap.
Qed.
Lemma reviewers_step db db' :
  reviewers db → publish_undecided db → table_step db db' → reviewers db'.
Proof.
  intros Hr Hu Hs. eapply reviewers_kept; [done..|]. intros id t' Ht' Hrev.
  destruct (table_tasks _ _ _ _ Hs Hu Ht') as [(Hn & _)|(t & Ht & Hd)].
  - right. destruct (table_task_new _ _ _ _ Hs Hn Ht') as [Hp|(message & item & token & c & x & task & status & -> & Hnp & Hm & Hx)].
    + destruct Hrev; congruence.
    + exists x. split; [done|]. unfold may_project in Hm. rewrite Hx in Hm. unfold reviewing in Hrev. simpl in *.
      destruct Hrev as [E|E]; rewrite E in Hm; bool_facts; congruence.
  - left. exists t. split; [done|]. destruct Hd as [(status & note & delivery & ->)|(x & Ha & _)]; [done|].
    destruct Ha as (_ & _ & _ & -> & -> & -> & _). done.
Qed.
Lemma table_history db db' id h :
  table_step db db' → wi_history db' !! id = Some h → wi_history db !! id = Some h ∨ is_Some (wi_items db !! h_item h).
Proof.
  intros Hs Hh. destruct Hs as [[| | | | |id' h' x Hx Hn _ _ _ _ _ _ _ E| | |]| | | |]; try (left; congruence).
  rewrite E in Hh. apply lookup_insert_Some in Hh as [[_ <-]|[_ Hh]]; eauto.
Qed.
Lemma history_owned_step db db' : history_owned db → table_step db db' → history_owned db'.
Proof.
  intros Ho Hs id h Hh.
  assert (is_Some (wi_items db !! h_item h)) as [x Hx].
  { destruct (table_history _ _ _ _ Hs Hh) as [Hh'|?]; [by eapply Ho|done]. }
  destruct (table_identity _ _ _ _ Hs Hx) as (x' & Hx' & _). eauto.
Qed.

(** ** The operations *)

(** The same outcome, or a transition of a completed case. *)
Lemma case_new db syncs id x :
  fresh_case x → history_of id db = [] → case_inv db syncs id x.
Proof.
  intros (_ & Hs & Hp & Ht) Hh. split; [exists Item_new; split; rewrite ?Hh|].
  - done.
  - constructor.
  - constructor.
  - done.
  - congruence.
  - congruence.
Qed.
Lemma case_transition db db' syncs id h x :
  case_inv db syncs (h_item h) x → wi_history db !! id = None → h_revision h = (w_revision x + 1)%Z →
  h_from h = w_status x → h_to h ∈ transitions (w_status x) → w_process_status x = Process_completed →
  wi_tasks db' = wi_tasks db → wi_history db' = <[id := h]> (wi_history db) →
  case_inv db' syncs (h_item h) (bump (x <| w_status := h_to h |>)).
Proof.
  intros [[decision [Hch Hin Hbo Hco Hde]] Hl] Hn Hr Hf Ht Hc Hta Hh.
  assert (history_of (h_item h) db' = history_of (h_item h) db ++ [h]) as Hho.
  { eapply history_of_insert; [done..|]. eapply Forall_impl; [done|]. simpl. lia. }
  split; [exists decision; split; rewrite ?Hho|].
  - by apply chain_snoc with (w_status x).
  - apply increasing_snoc; [done|]. eapply Forall_impl; [done|]. simpl. lia.
  - apply Forall_app. simpl. split; [eapply Forall_impl; [done|]; simpl; lia|]. repeat constructor. lia.
  - done.
  - intros _ HV. eapply decided_kept; [by apply rows_same|..|by apply Hde]. done.
  - intros token Hto. destruct (Hl _ Hto) as (ph & Hph & Hfi). exists ph. split; [done|].
    destruct ph as [|before after state|state|]; simpl in *; unfold open in *; destruct_and?; naive_solver congruence.
Qed.
Lemma effect_inv db db' syncs :
  effect db db' → history_owned db → (∀ item x, wi_items db !! item = Some x → case_inv db syncs item x) →
  ∀ item x, wi_items db' !! item = Some x → case_inv db' syncs item x.
Proof.
  intros He Ho Hinv item x Hx. pose proof (effect_rows _ _ item He) as Hk.
  assert (wi_items db' = wi_items db → wi_history db' = wi_history db → case_inv db' syncs item x) as Hsame.
  { intros E Eh. rewrite E in Hx. eapply inv_keep; [by apply Hinv|by apply history_of_same|done..]. }
  assert (∀ k y y', wi_items db !! k = Some y → wi_items db' = <[k := y']> (wi_items db) →
    wi_history db' = wi_history db → outcome y' = outcome y → w_sync_lease_token y' = w_sync_lease_token y →
    (w_revision y ≤ w_revision y')%Z → case_inv db' syncs item x) as Hone.
  { intros k y y' Hy E Eh Hout Htok Hrev. rewrite E in Hx. apply lookup_insert_Some in Hx as [[<- <-]|[_ Hx]].
    - eapply inv_keep; [by apply Hinv|by apply history_of_same|done..].
    - eapply inv_keep; [by apply Hinv|by apply history_of_same|done..]. }
  destruct He as [|id y Hn Hf _ E|id y y' Hy (? & ? & ? & ? & ? & ->)|id it y su|id t t' y|id h y Hy Hn Hr Hfr Hto Hc E Et _ Eh
    |id t t' y e|f Hf|id t]; try by apply Hsame.
  - rewrite E in Hx. apply lookup_insert_Some in Hx as [[<- <-]|[_ Hx]].
    + apply case_new; [done|]. rewrite (history_of_same _ db) by done. by apply history_of_new.
    + eapply inv_keep; [by apply Hinv|by apply history_of_same|done..].
  - eapply Hone; [done..|]. simpl. lia.
  - eapply Hone; [done..|]. simpl. lia.
  - eapply Hone; [done..|]. simpl. lia.
  - rewrite E in Hx. apply lookup_insert_Some in Hx as [[<- <-]|[Hne Hx]].
    + by eapply case_transition; [apply Hinv|..].
    + eapply inv_keep; [by apply Hinv|by eapply history_of_other|done..].
  - eapply Hone; [done..|]. simpl. lia.
Qed.

(** ** The workers *)

Lemma syncs_other (syncs : gmap Uuid (Uuid * SyncPhase)) token item ph other tk ph0 :
  (∀ p, syncs !! token = Some p → p.1 = item) → other ≠ item → syncs !! tk = Some (other, ph0) →
  <[token := (item, ph)]> syncs !! tk = Some (other, ph0).
Proof. intros Hp Hne Hl. rewrite lookup_insert_ne; [done|]. intros ->. by apply Hne, (Hp _ Hl). Qed.

(** A step of the worker of a case that changes at most the case and its tasks. *)
Lemma worker_inv db db' syncs item token ph x' :
  (∀ item x, wi_items db !! item = Some x → case_inv db syncs item x) →
  wi_history db' = wi_history db → (∀ p, syncs !! token = Some p → p.1 = item) →
  (∀ other, other ≠ item → rows_kept db db' other) → wi_items db' = <[item := x']> (wi_items db) →
  case_inv db' (<[token := (item, ph)]> syncs) item x' →
  ∀ it x, wi_items db' !! it = Some x → case_inv db' (<[token := (item, ph)]> syncs) it x.
Proof.
  intros Hinv Hh Hp Hk E Hx it x Hit. rewrite E in Hit. apply lookup_insert_Some in Hit as [[<- <-]|[Hne Hit]]; [done|].
  eapply inv_keep; [by apply Hinv|by apply history_of_same|by apply Hk, not_eq_sym|done..|].
  intros tk ph0 _ Hl. by apply syncs_other; [|apply not_eq_sym|].
Qed.
(** Its case when it keeps the outcome. *)
Lemma case_moved db syncs item token ph x x' :
  case_inv db syncs item x → outcome x' = outcome x → w_revision x' = w_revision x →
  (∀ tk, w_sync_lease_token x' = Some tk → if decide (tk = token) then lease_fits db item x' ph
     else w_sync_lease_token x = Some tk) →
  ∀ db', wi_tasks db' = wi_tasks db → wi_history db' = wi_history db →
  case_inv db' (<[token := (item, ph)]> syncs) item x'.
Proof.
  intros [[decision Hc] Hl] Ho Hr Ht db' Eta Eh. assert (rows_kept db db' item) as Hk by by apply rows_same. split.
  - exists decision. eapply case_keep; [done|by apply history_of_same|done..|lia].
  - intros tk Htk. specialize (Ht _ Htk). case_decide as E.
    + subst tk. exists ph. rewrite lookup_insert_eq. split; [done|]. by apply (fits_kept db db' item x' x').
    + destruct (Hl _ Ht) as (ph0 & Hl0 & Hf). exists ph0. rewrite lookup_insert_ne by done. split; [done|].
      by eapply fits_kept.
Qed.
Lemma lease_claim_inv w item now token db :
  outcome_inv w → wd_syncs w !! token = None → sync_claim item now token (wd_db w) = (Ok true, db) →
  ∀ it x, wi_items db !! it = Some x → case_inv db (<[token := (item, Sync_claimed)]> (wd_syncs w)) it x.
Proof.
  intros (Hinv & _) Hn Hc. unfold sync_claim in Hc. match type of Hc with update_item _ ?p ?f _ = _ =>
    destruct (update_item_cases item p f (wd_db w)) as [E|(x & Hx & Hp & E)] end; rewrite E in Hc; simplify_eq.
  eapply worker_inv; [done|done|by rewrite Hn|by intros; apply rows_same|done|].
  eapply case_moved; [by apply Hinv|done|done| |done|done].
  simpl. intros tk [= <-]. rewrite decide_True by done. unfold sync_free, syncing in Hp. bool_facts.
  unfold open. simpl. set_solver.
Qed.
(** The worker moves on and the tables stay. *)
Lemma idle_inv db syncs item token ph :
  (∀ item x, wi_items db !! item = Some x → case_inv db syncs item x) →
  (∀ p, syncs !! token = Some p → p.1 = item) →
  (∀ x, wi_items db !! item = Some x → w_sync_lease_token x = Some token → lease_fits db item x ph) →
  ∀ it x, wi_items db !! it = Some x → case_inv db (<[token := (item, ph)]> syncs) it x.
Proof.
  intros Hinv Hp Hf it x Hx. destruct (decide (it = item)) as [->|Hne].
  - eapply case_moved; [by apply Hinv|done..| |done|done]. intros tk Htk. case_decide; [subst tk; by apply Hf|done].
  - eapply inv_keep; [by apply Hinv|done|by apply rows_same|done..|]. intros tk ph0 _ Hl. by apply syncs_other.
Qed.
(** The holder's phase. *)
Lemma holder_fits db syncs item x token ph :
  case_inv db syncs item x → w_sync_lease_token x = Some token → syncs !! token = Some (item, ph) →
  lease_fits db item x ph.
Proof. intros [_ Hl] Ht Hs. destruct (Hl _ Ht) as (ph0 & Hs0 & Hf). by simplify_eq. Qed.
Lemma start_inv w item token view tasks phase db :
  outcome_inv w → wd_syncs w !! token = Some (item, Sync_claimed) →
  reconcile_start item token view tasks (wd_db w) = (Ok phase, db) →
  ∀ it x, wi_items db !! it = Some x → case_inv db (<[token := (item, phase)]> (wd_syncs w)) it x.
Proof.
  intros (Hinv & _) Ht Hr. assert (db = wd_db w) as ->.
  { unfold reconcile_start in Hr. by ok_inv Hr. }
  apply idle_inv; [done|by intros p; rewrite Ht; intros [= <-]|]. intros x Hx Hto.
  pose proof (holder_fits _ _ _ _ _ _ (Hinv _ _ Hx) Hto Ht) as Hopen. simpl in Hopen.
  unfold reconcile_start in Hr. st_simpl Hr. rewrite Hx in Hr. unfold holds_sync in Hr.
  rewrite bool_decide_eq_true_2 in Hr by done.
  destruct (check_heart item x view tasks) as [[after state]| |] eqn:Ec; simplify_eq; [|done..].
  apply check_heart_Ok in Ec as [_ Hc]. split; [done|]. intros HV ->. destruct (Hc eq_refl) as [Hall Hlast].
  split; [done|]. destruct (Hlast HV) as (task & -> & Hcon). done.
Qed.
Lemma open_history db item x decision : case_ok db item x decision → open x → history_of item db = [].
Proof.
  intros Hc Ho. destruct (history_of item db) eqn:E; [done|]. assert (w_process_status x = Process_completed) as Hp.
  { apply (case_completed _ _ _ _ Hc). by rewrite E. }
  destruct Ho; congruence.
Qed.
(** The worker saves the state of the process. *)
Lemma finish_inv w item token before state :
  outcome_inv w → wd_syncs w !! token = Some (item, Sync_projecting before [] state) →
  ∀ it x, wi_items (sync_finish item state token (wd_db w)).2 !! it = Some x →
    case_inv (sync_finish item state token (wd_db w)).2 (<[token := (item, Sync_finished state)]> (wd_syncs w)) it x.
Proof.
  intros (Hinv & _) Ht. unfold sync_finish. match goal with |- context [update_item item ?p ?f] =>
    destruct (update_item_cases item p f (wd_db w)) as [E|(x & Hx & Hp & E)] end; rewrite E; cbn [snd].
  - apply idle_inv; [done|by intros p; rewrite Ht; intros [= <-]|]. intros x Hx Hto. simpl.
    exfalso. unfold update_item in E. st_simpl E. rewrite Hx in E. unfold holds_sync in E.
    by rewrite bool_decide_eq_true_2 in E.
  - unfold holds_sync in Hp. bool_facts. pose proof (Hinv _ _ Hx) as Hci.
    pose proof (holder_fits _ _ _ _ _ _ Hci Hp Ht) as [Hopen Hdec]. destruct Hci as [[decision Hc] _].
    pose proof (open_history _ _ _ _ Hc Hopen) as Hh0.
    eapply worker_inv; [done|done|by intros p; rewrite Ht; intros [= <-]|by intros; apply rows_same|done|].
    match goal with |- case_inv ?d _ _ _ => assert (history_of item d = []) as Hh1
      by by rewrite (history_of_same _ (wd_db w)) end. split.
    + exists (w_status x). split; rewrite ?Hh1; simpl; [done|constructor|constructor|done|].
      intros -> HV. destruct (Hdec HV eq_refl) as [_ Hd]. by eapply decided_kept, Hd; [apply rows_same|].
    + intros tk Htk. simpl in Htk. assert (tk = token) as -> by congruence. exists (Sync_finished state).
      by rewrite lookup_insert_eq.
Qed.

(** The task that concludes a review carries the decision. *)
Lemma concluding_decides task t :
  concluding task → task_columns t → t_node t = ht_node task → is_Some (t_request t) →
  ht_result task = Some (completion_result (ht_node task) (t_category t) (t_priority t) (t_decision t) (t_note t)) →
  reviewing t ∧ ∃ category priority decision, t_category t = Some category ∧ t_priority t = Some priority
    ∧ t_decision t = Some decision ∧ decision ∈ final_statuses.
Proof.
  intros Hcon Hcol Hn [q Hq] Hres. unfold task_columns, decided_columns in Hcol. rewrite Hq in Hcol.
  destruct Hcol as [Hcol _]. destruct Hcon as [Hf|[Hr Hni]].
  - rewrite Hn, Hf in Hcol. split; [right; congruence|].
    destruct Hcol as ([c ->] & [p ->] & d & -> & [Hd|[Hd _]]); [|done]. by exists c, p, d.
  - rewrite Hn, Hr in Hcol. split; [left; congruence|].
    destruct Hcol as ([c Hc] & [p Hp] & d & Hde & [Hd|[_ Hd]]); [by exists c, p, d|].
    destruct Hni. rewrite Hres, Hr, Hc, Hp, Hde, Hd. simpl.
    rewrite !lookup_insert_ne by done. by rewrite lookup_insert_eq.
Qed.
Lemma confirm_decides db item x t task c :
  reviewers db → columns_ok db → wi_items db !! item = Some x → wi_tasks db !! ht_id task = Some t → t_item t = item →
  t_node t = ht_node task → concluding task → is_Some (t_request t) →
  ht_result task = Some (completion_result (ht_node task) (t_category t) (t_priority t) (t_decision t) (t_note t)) →
  c = settled task Task_completed t x → decides c (w_status c) (confirmed Task_completed t).
Proof.
  intros Hrev Hcol Hx Ht Hi Hn Hcon Hq Hres ->.
  destruct (concluding_decides _ _ Hcon (Hcol _ _ Ht) Hn Hq Hres) as (Hr & c & p & d & Hc & Hp & Hd & Hf).
  destruct (Hrev _ _ Ht Hr) as (y & Hy & Ha). rewrite Hi in Hy. simplify_eq.
  unfold settled. rewrite Hc, Hp, Hd. simpl. by split_and!.
Qed.
Lemma settled_fixed task status t x :
  (w_process_status (settled task status t x), w_version (settled task status t x),
   w_sync_lease_token (settled task status t x)) = (w_process_status x, w_version x, w_sync_lease_token x).
Proof. unfold settled. by repeat case_match. Qed.
(** A case under review. *)
Lemma case_open db syncs item x token ph :
  history_of item db = [] → open x → w_sync_lease_token x = Some token → lease_fits db item x ph →
  case_inv db (<[token := (item, ph)]> syncs) item x.
Proof.
  intros Hh Ho Ht Hf. split.
  - exists (w_status x). split; rewrite ?Hh; [done|constructor|constructor|done|]. destruct Ho; congruence.
  - intros tk Htk. assert (tk = token) as -> by congruence. exists ph. by rewrite lookup_insert_eq.
Qed.
(** The worker shows or confirms a task. *)
Lemma project_inv w message item token c before task after state m db :
  outcome_inv w → columns_ok (wd_db w) → ht_node task ≠ Node_publish_github → heart_keeps_node (wd_db w) task →
  wd_syncs w !! token = Some (item, Sync_projecting before (task :: after) state) →
  project message item token c task (wd_db w) = (Ok m, db) →
  ∀ it x, wi_items db !! it = Some x →
    case_inv db (<[token := (item, Sync_projecting (before ++ [task]) after state)]> (wd_syncs w)) it x.
Proof.
  intros (Hinv & Hown & Hrev) Hcol Hnp Hk Ht Hpr.
  apply project_cases in Hpr as (Hmay & x & status & Hx & Hst & _ & Hh & _ & Hcases).
  assert (w_sync_lease_token x = Some token) as Hto.
  { unfold may_project in Hmay. rewrite Hx in Hmay. unfold holds_sync in Hmay.
    destruct (ht_node task); try done; by bool_facts. }
  pose proof (holder_fits _ _ _ _ _ _ (Hinv _ _ Hx) Hto Ht) as [Hopen Hdec].
  destruct (Hinv _ _ Hx) as [[decision Hc] _]. pose proof (open_history _ _ _ _ Hc Hopen) as Hh0.
  assert (history_of item db = []) as Hh1 by by rewrite (history_of_same _ (wd_db w)).
  destruct Hcases as [(t & Htt & Hi & _ & Hchk & Eit & Eta)|(Hnone & Hchk & _ & _ & Eit & Eta)].
  - pose proof (settled_fixed task status t x) as Hfix. injection Hfix as Hp Hv Hl.
    assert (open (settled task status t x)) as Hopen' by (unfold open in *; congruence).
    eapply worker_inv; [done|done|by intros p; rewrite Ht; intros [= <-]| |done|].
    { intros other Hne. eapply rows_insert; [done..|]. left. congruence. }
    apply case_open; [done..|congruence|]. split; [done|]. rewrite Hv. intros HV Hs.
    destruct (Hdec HV Hs) as [Hall Hlast]. decompose_Forall_hyps. split; [done|].
    destruct (last after) as [task'|] eqn:El.
    { rewrite last_cons, El in Hlast. done. }
    apply last_None in El as ->. simpl in Hlast. unfold has_status in *. bool_facts. simplify_eq.
    destruct Hchk as [Hq Hres]; [done|by unfold checked_task; rewrite bool_decide_eq_true_2|].
    exists (ht_id task), (confirmed Task_completed t). rewrite Eta, lookup_insert_eq. split; [done|]. split; [done|].
    eapply confirm_decides; try done. by apply Hk.
  - eapply (worker_inv (wd_db w)); [done|done|by intros p; rewrite Ht; intros [= <-]| |by rewrite Eit, insert_id|].
    { intros other Hne. by eapply rows_new. }
    apply case_open; [done..|]. split; [done|]. intros HV Hs. destruct (Hdec HV Hs) as [Hall _].
    decompose_Forall_hyps. unfold has_status in *. bool_facts. simplify_eq.
    specialize (Hchk eq_refl). unfold checked_task in Hchk. by rewrite bool_decide_eq_true_2 in Hchk.
Qed.
Lemma project_failed message item token c task db r db' :
  project message item token c task db = (r, db') → (∀ m, r ≠ Ok m) → db' = db.
Proof.
  unfold project, transaction. intros Hp Hr. destruct (st_bind _ _ db) as [[m| |] d]; simplify_eq; [by destruct (Hr m)|done..].
Qed.
Lemma failed_fits db item x ph :
  lease_fits db item x ph → (∀ state, ph ≠ Sync_finished state) → lease_fits db item x Sync_failed.
Proof. destruct ph; simpl; naive_solver. Qed.
Lemma reconcile_inv w message item token channel_of phase phase' db :
  outcome_inv w → columns_ok (wd_db w) → heart_nodes w → phase_honest (wd_db w) phase →
  wd_syncs w !! token = Some (item, phase) →
  reconcile_step message item token channel_of phase (wd_db w) = (Ok phase', db) →
  ∀ it x, wi_items db !! it = Some x → case_inv db (<[token := (item, phase')]> (wd_syncs w)) it x.
Proof.
  intros Hout Hcol Hn Hh Ht Hr. assert (∀ p, wd_syncs w !! token = Some p → p.1 = item) as Hp
    by by intros p; rewrite Ht; intros [= <-].
  destruct phase as [|before [|task after] state|state|]; simpl in Hr;
    try (ok_inv Hr; rewrite insert_id by done; apply Hout).
  - ok_inv Hr. match goal with E : sync_finish ?i ?s ?t ?d = (_, ?d') |- _ =>
      assert (d' = (sync_finish i s t d).2) as -> by by rewrite E end. by eapply finish_inv.
  - pose proof (Hn _ _ _ _ _ Ht) as Hnp%Forall_inv.
    destruct (project message item token (channel_of task) task (wd_db w)) as [[m|er|] d] eqn:E; simplify_eq.
    + by eapply project_inv.
    + apply project_failed in E as ->; [|done]. apply idle_inv; [apply Hout|done|]. intros x Hx Hto.
      eapply failed_fits; [by eapply holder_fits, Ht; [apply Hout|]|done].
    + apply project_failed in E as ->; [|done]. apply idle_inv; [apply Hout|done|]. intros x Hx Hto.
      eapply failed_fits; [by eapply holder_fits, Ht; [apply Hout|]|done].
Qed.
Lemma release_inv w item token phase next :
  outcome_inv w → wd_syncs w !! token = Some (item, phase) →
  ∀ it x, wi_items (sync_release item next token (wd_db w)).2 !! it = Some x →
    case_inv (sync_release item next token (wd_db w)).2 (delete token (wd_syncs w)) it x.
Proof.
  intros (Hinv & _) Ht. assert (∀ it x, wi_items (wd_db w) !! it = Some x → w_sync_lease_token x ≠ Some token →
    ∀ db, wi_tasks db = wi_tasks (wd_db w) → wi_history db = wi_history (wd_db w) →
    case_inv db (delete token (wd_syncs w)) it x) as Hother.
  { intros it x Hx Hne db Eta Eh. eapply inv_keep; [by apply Hinv|by apply history_of_same|by apply rows_same|done..|].
    intros tk ph Htk Hl. rewrite lookup_delete_ne; [done|]. congruence. }
  assert (∀ it x, it ≠ item → wi_items (wd_db w) !! it = Some x → w_sync_lease_token x ≠ Some token) as Hno.
  { intros it x Hne Hx Hto. destruct (inv_lease _ _ _ _ (Hinv _ _ Hx) _ Hto) as (ph & Hl & _). congruence. }
  unfold sync_release. match goal with |- context [update_item item ?p ?f] =>
    destruct (update_item_cases item p f (wd_db w)) as [E|(y & Hy & Hp & E)] end; rewrite E; cbn [snd]; intros it x Hx.
  - apply Hother; [done| |done..]. intros Hto. destruct (decide (it = item)) as [->|Hne]; [|by eapply Hno].
    unfold update_item in E. st_simpl E. rewrite Hx in E. unfold holds_sync in E. by rewrite bool_decide_eq_true_2 in E.
  - simpl in Hx. apply lookup_insert_Some in Hx as [[<- <-]|[Hne Hx]].
    + destruct (Hinv _ _ Hy) as [[decision Hc] _]. split; [|done]. exists decision.
      eapply case_keep; [done|by apply history_of_same|by apply rows_same|done..].
    + apply Hother; [done|by apply (Hno it); [congruence|]|done..].
Qed.
Lemma delivery_inv db db' syncs :
  (∀ item x, wi_items db !! item = Some x → case_inv db syncs item x) →
  wi_items db' = wi_items db → wi_history db' = wi_history db → (∀ item, rows_kept db db' item) →
  ∀ item x, wi_items db' !! item = Some x → case_inv db' syncs item x.
Proof.
  intros Hinv Ei Eh Hk item x Hx. rewrite Ei in Hx.
  eapply inv_keep; [by apply Hinv|by apply history_of_same|done..].
Qed.
Definition export_only db db' : Prop :=
  wi_items db' = wi_items db ∧ wi_history db' = wi_history db ∧ ∀ item, rows_kept db db' item.
Lemma export_only_refl db : export_only db db.
Proof. split_and!; [done..|]. intros item. by apply rows_same. Qed.
Lemma update_export_only item p f db : export_only db (update_export item p f db).2.
Proof.
  destruct (update_export_cases item p f db) as [->|(e & _ & _ & ->)]; [apply export_only_refl|].
  split_and!; [done..|]. intros it. by apply rows_same.
Qed.
Lemma export_state_only item token state attempt db : export_only db (export_state item token state attempt db).2.
Proof.
  unfold export_state. rewrite read_after by (intros; apply reads_ensure). apply update_export_only.
Qed.
Lemma deliver_only self now item token answer phase db :
  export_only db (deliver_step self now item token answer phase db).2.
Proof.
  destruct phase; simpl; try apply export_only_refl.
  - unfold read_receipt. st_compute. destruct (wi_exports db !! item); [|apply export_only_refl].
    destruct (_ && _); apply export_only_refl.
  - match goal with |- context [export_state ?i ?t ?s ?a ?d] => pose proof (export_state_only i t s a d);
      destruct (export_state i t s a d) as [[]] end; done.
  - match goal with |- context [settle_export ?r _ _ ?i _] =>
      destruct (settle_cases r item token i db) as [->|(e & note & _ & _ & _ & ->)] end; [apply export_only_refl|].
    split_and!; [done..|]. intros it. eapply rows_imap; [|done]. intros id t _. simpl.
    case_match; (split; [|by left]); [|apply same_task_refl].
    by exists (t_status t), (Some note), (t_delivery t); destruct t.
  - apply export_state_only.
  - apply export_state_only.
  - apply update_export_only.
Qed.
Lemma outcome_reachable w : work_reachable w → outcome_inv w.
Proof.
  revert w. apply reachable_ind.
  - intros f. by split_and!; intros; simpl in *; rewrite ?lookup_empty in *.
  - intros w w' Hr Hout Hst. pose proof (step_table_reachable _ _ Hr Hst) as Hts.
    split; [|split; [by eapply history_owned_step; [apply Hout|]|
      by eapply reviewers_step; [apply Hout|apply publish_undecided_reachable|]]].
    destruct (columns_reachable _ Hr) as [Hn Hcol]. destruct Hst as [op Hh|item now token db Ht Hc
      |token item view tasks phase db Ht Hrs|message token item channel_of phase phase' db Ht Hh Hrs
      |token item phase next Ht|item now token db Ht Hc|self now token item phase answer Ht r]; simpl.
    + eapply effect_inv; [|by apply Hout..]. by apply op_effect, publish_undecided_reachable.
    + by apply lease_claim_inv with now.
    + by eapply start_inv.
    + by eapply reconcile_inv.
    + by eapply release_inv.
    + assert (export_only (wd_db w) db) as (Ei & Eh & Hk).
      { assert (db = (deliver_claim item now token (wd_db w)).2) as -> by by rewrite Hc. apply update_export_only. }
      eapply delivery_inv; [by apply Hout|done..].
    + destruct (deliver_only self now item token answer phase (wd_db w)) as (Ei & Eh & Hk).
      eapply delivery_inv; [by apply Hout|done..].
Qed.
End outcome.
