(* ===== verification/WorkProps.v ===== *)
(** * WorkProps: what can be relied on about cases

    The theorems on cases for every reachable state, with a run from a registration
    to an issue on GitHub that shows they have content. *)

From Stdlib Require Import ZifyBool.
From stdpp Require Import base tactics numbers strings countable sorting gmap list relations.
From S2P Require Import Prelude RustStr Text Ids Models RepoState Sql WorkItems WorkDelivery WorkReach WorkInv WorkExport WorkOutcome.

(** C10: however the workers that deliver exports interleave, crash or lose their leases, and
    whatever GitHub answers, at most one request that may have created an issue is made for
    a case, and it carries the title, text, target and marker that the handler approved. *)
Theorem github_issue_posted_once `{JsonText, UuidLib} (w : World) (item : Uuid) :
  work_reachable w →
  length (posts w item) ≤ 1
  ∧ ∀ r, r ∈ posts w item → ∃ e, wi_exports (wd_db w) !! item = Some e ∧ content r = content e
      ∧ e_send e = true ∧ e_status e ∈ [Export_sending; Export_uncertain; Export_sent].
Proof.
  intros Hr. pose proof (exports_reachable w Hr item) as Hok.
  destruct (wi_exports (wd_db w) !! item) as [e|].
  - simpl in Hok. split; [apply Hok|]. intros r Hin. exists e. split; [done|].
    split; [by apply (ok_posted _ _ _ Hok)|].
    assert (¬ quiet (e_status e)) as Hq.
    { intros [Hp _]%(ok_quiet _ _ _ Hok). rewrite Hp in Hin. by apply elem_of_nil in Hin. }
    unfold quiet in Hq. split.
    + destruct (ok_send _ _ _ Hok) as [Hs|Hs]; [|done]. rewrite Hs in Hq. set_solver.
    + destruct (e_status e); set_solver.
  - destruct Hok as [-> _]. split; [simpl; lia|]. by intros r Hin%elem_of_nil.
Qed.

(** C11: the status of a case is the outcome of its review changed along recorded
    transitions: the history, ordered by strictly increasing revisions, is a chain of allowed
    transitions that ends in the status, it only starts when the review is completed, and in
    the current version of the process it starts at the decision that the assigned reviewer
    recorded in a completed review, whose category and priority the case has. *)
Theorem case_outcome_recorded `{JsonText, UuidLib} (w : World) (item : Uuid) (x : WorkItem) :
  work_reachable w → wi_items (wd_db w) !! item = Some x →
  ∃ decision, chain decision (history_of item (wd_db w)) (w_status x)
    ∧ increasing (history_of item (wd_db w))
    ∧ (history_of item (wd_db w) ≠ [] → w_process_status x = Process_completed)
    ∧ (w_process_status x = Process_completed → w_version x = V1_1_0 → decided_by (wd_db w) item x decision).
Proof.
  intros (Hinv & _)%outcome_reachable Hx. destruct (Hinv _ _ Hx) as [[decision [Hc Hi _ Hco Hd]] _].
  by exists decision.
Qed.

(** C12: decisions, supplements, exports and status changes of a case are accepted one after
    the other: each revision the case has passed is the expected revision of exactly one
    accepted command. *)
Theorem accepted_commands_serial `{JsonText, UuidLib} (w : World) (item : Uuid) (x : WorkItem) :
  work_reachable w → wi_items (wd_db w) !! item = Some x →
  accepted_revisions item (wd_db w) ≡ₚ seqZ 1 (w_revision x - 1).
Proof. intros Hr Hx. pose proof (serial_reachable w Hr item) as Hs. rewrite Hx in Hs. apply Hs. Qed.

(** What a successful registration leaves in the table. *)
Lemma register_stored `{JsonText, UuidLib} id now actor c command db view db' :
  register id now actor c command db = (Ok view, db') →
  ∃ x, wi_items db' !! view_id view = Some x ∧ same_registration c command x = true
    ∧ requested actor (reg_request_id command) (view_id view) x = true.
Proof.
  unfold register, member. intros Hr. ok_inv Hr.
  - apply fetch_where_Some in E as [Hx Hq]. simpl. eauto.
  - bool_facts. eexists. simpl. rewrite lookup_insert_eq. split; [done|].
    unfold same_registration, requested. simpl. by rewrite !bool_decide_eq_true_2.
Qed.
Lemma register_again `{JsonText, UuidLib} id now actor c command db item x :
  registration_valid command = true → participates (wi_config db) c actor = true → requests_unique db →
  wi_items db !! item = Some x → same_registration c command x = true →
  requested actor (reg_request_id command) item x = true →
  register id now actor c command db = (Ok (work_item_view item x), db).
Proof.
  intros Hv Hm Hu Hx Hs Hq. unfold register, member, transaction. st_compute. rewrite Hv, Hm.
  rewrite (fetch_where_unique _ _ item x); [by rewrite Hs|done..|].
  unfold requested in *. intros k y Hy Hq'. bool_facts. eapply Hu; [done..|congruence|congruence].
Qed.

(** A registration is made once: repeating the request in any later state, whatever
    users and workers did in between, answers with the case of the first one and
    changes nothing, as long as the user may still write in the channel. *)
Theorem registration_idempotent `{JsonText, UuidLib} (w w' : World) (id id' : Uuid) (now now' : Z)
    (actor : UserId) (c : ChannelId) (command : Registration) (view : WorkItemView) (db : WorkDb) :
  work_reachable w → register id now actor c command (wd_db w) = (Ok view, db) →
  rtc work_step (w <| wd_db := db |>) w' → participates (wi_config (wd_db w')) c actor = true →
  ∃ view', register id' now' actor c command (wd_db w') = (Ok view', wd_db w') ∧ view_id view' = view_id view.
Proof.
  intros Hr Hreg Hs Hm.
  assert (registration_valid command = true) as Hv by by unfold register in Hreg; ok_inv Hreg.
  destruct (register_stored _ _ _ _ _ _ _ _ Hreg) as (x & Hx & Hsame & Hq).
  assert (work_reachable (w <| wd_db := db |>)) as Hr1.
  { destruct Hr as (f & Hr). exists f. eapply rtc_r; [done|].
    pose proof (Step_op w (Op_register id now actor c command) I) as Hop. simpl in Hop. by rewrite Hreg in Hop. }
  destruct (identity_kept _ _ _ _ Hr1 Hs Hx) as (x' & Hx' & E).
  assert (work_reachable w') as Hr'.
  { destruct Hr1 as (f & Hr1). exists f. by etrans. }
  exists (work_item_view (view_id view) x'). split; [|done].
  apply register_again; [done..|by apply requests_reachable|done| |]; unfold same_registration, requested, identity in *;
    injection E as E1 E2 E3 E4 E5 E6 E7 E8 _ _ _; by rewrite ?E1, ?E2, ?E3, ?E4, ?E5, ?E6, ?E7, ?E8.
Qed.

(** ** What is shown *)

Definition hides_notes (db : WorkDb) (actor : UserId) (item : Uuid) (l : Lifecycle) : Prop :=
  (∃ x, wi_items db !! item = Some x ∧ w_requested_by x = actor)
  ∧ lc_internal_note l = None ∧ Forall (λ h, hist_internal_note h = None) (lc_history l).
Lemma lifecycle_hides actor item db l db' :
  lifecycle actor item db = (Ok (Some l), db') → status_route db actor item = None → hides_notes db actor item l.
Proof.
  unfold lifecycle. intros Hl Hn. ok_inv Hl. rewrite Hn in *. simpl in *. bool_facts. split; [by eauto|].
  match goal with |- context [head ?hs] => assert (Forall (λ h, hist_internal_note h = None) hs) as Hf end.
  { apply Forall_take, Forall_forall. intros h Hin. apply list_elem_of_bind in Hin as (row & Hin & _).
    destruct (f_users _ !! _) as [[]|]; [|by apply elem_of_nil in Hin].
    by apply list_elem_of_singleton in Hin as ->. }
  split; [|done]. destruct Hf; simpl; [done|]. done.
Qed.

(** C27: who may not handle the status of a case sees none of the internal notes about it:
    the view of a task has a lifecycle only for the user who asked for the case, and its
    internal note and those of its history are absent. *)
Theorem internal_notes_private (db db' : WorkDb) (self : Service) (actor : UserId) (id : Uuid) (message : MessageId)
    (view : TaskView) (l : Lifecycle) :
  task self actor id message db = (Ok view, db') → status_route db actor (tv_item view) = None →
  tv_lifecycle view = Some l → hides_notes db actor (tv_item view) l.
Proof.
  unfold task, status_task. intros Hr Hn Hl. ok_inv Hr.
  - simpl in *. match goal with E : lifecycle _ _ _ = (Ok ?o, _) |- _ => destruct o as [l0|]; [|done];
      destruct (lifecycle_hides _ _ _ _ _ E Hn) as (Hx & _ & Hf) end.
    rewrite Hn in Hl. simplify_eq/=. by split_and!.
  - simpl in *. subst. by eapply lifecycle_hides.
  - simpl in *. subst. by eapply lifecycle_hides.
Qed.

(** ** A run *)

(** A stand-in for the serializer, to let examples compute. *)
Definition scalar_code (s : Scalar) : unit + bool + Z + str + N :=
  match s with
  | S_null => inl (inl (inl (inl ()))) | S_bool b => inl (inl (inl (inr b))) | S_number z => inl (inl (inr z))
  | S_string s => inl (inr s) | S_other n => inr n
  end.
Definition scalar_of (c : unit + bool + Z + str + N) : Scalar :=
  match c with
  | inl (inl (inl (inl _))) => S_null | inl (inl (inl (inr b))) => S_bool b | inl (inl (inr z)) => S_number z
  | inl (inr s) => S_string s | inr n => S_other n
  end.
Lemma scalar_of_code s : scalar_of (scalar_code s) = s.
Proof. by destruct s. Qed.
#[local] Instance Scalar_countable : Countable Scalar := inj_countable' scalar_code scalar_of scalar_of_code.
Definition value_code (v : Value) : Scalar + gmap str Scalar :=
  match v with V_scalar s => inl s | V_object f => inr f end.
Definition value_of_code (c : Scalar + gmap str Scalar) : Value :=
  match c with inl s => V_scalar s | inr f => V_object f end.
Lemma value_of_value_code v : value_of_code (value_code v) = v.
Proof. by destruct v. Qed.
#[local] Instance Value_countable : Countable Value := inj_countable' value_code value_of_code value_of_value_code.
Lemma demo_json_from_to (v : Value) : decode (encode v) = Some v.
Proof. apply decode_encode. Qed.
Definition demo_json : JsonText := {|
  json_to_string := λ v, [Npos (encode v)];
  json_from_str := λ s, match s with [Npos p] => decode p | _ => None end;
  json_from_to := demo_json_from_to |}.
#[local] Existing Instances demo_uuid demo_json.

(** Steps by name. *)
Inductive Act : Type :=
  | Do (op : WorkOp)
  | Claim_sync (item : Uuid) (now : Z) (token : Uuid)
  | Ask_heart (token : Uuid) (view : HeartInstance) (tasks : list HeartTask)
  | Reconcile (message : MessageId) (token : Uuid) (c : ChannelId)
  | Release_sync (token : Uuid) (next : Z)
  | Claim_delivery (item : Uuid) (now : Z) (token : Uuid)
  | Deliver (self : Service) (now : Z) (token : Uuid) (answer : GithubAnswer).
Definition keeps_node (db : WorkDb) (task : HeartTask) : bool :=
  match wi_tasks db !! ht_id task with Some t => bool_decide (t_node t = ht_node task) | None => true end.
Lemma keeps_node_sound db task : keeps_node db task = true → heart_keeps_node db task.
Proof. unfold keeps_node. intros Hk t Ht. rewrite Ht in Hk. by bool_facts. Qed.
Definition act (a : Act) (w : World) : option World :=
  let db := wd_db w in
  match a with
  | Do op =>
      if match op with Op_publish _ _ _ _ task => keeps_node db (publishing task) | _ => true end
      then Some (w <| wd_db := work_op op db |>) else None
  | Claim_sync item now token =>
      match wd_syncs w !! token, sync_claim item now token db with
      | None, (Ok true, db) => Some (w <| wd_db := db |> <| wd_syncs := <[token := (item, Sync_claimed)]> (wd_syncs w) |>)
      | _, _ => None
      end
  | Ask_heart token view tasks =>
      match wd_syncs w !! token with
      | Some (item, Sync_claimed) =>
          match reconcile_start item token view tasks db with
          | (Ok phase, db) => Some (w <| wd_db := db |> <| wd_syncs := <[token := (item, phase)]> (wd_syncs w) |>)
          | _ => None
          end
      | _ => None
      end
  | Reconcile message token c =>
      match wd_syncs w !! token with
      | Some (item, phase) =>
          if match phase with Sync_projecting _ (task :: _) _ => keeps_node db task | _ => true end then
            match reconcile_step message item token (λ _, c) phase db with
            | (Ok phase', db) => Some (w <| wd_db := db |> <| wd_syncs := <[token := (item, phase')]> (wd_syncs w) |>)
            | _ => None
            end
          else None
      | None => None
      end
  | Release_sync token next =>
      match wd_syncs w !! token with
      | Some (item, _) => Some (w <| wd_db := (sync_release item next token db).2 |>
                                  <| wd_syncs := delete token (wd_syncs w) |>)
      | None => None
      end
  | Claim_delivery item now token =>
      match wd_deliveries w !! token, deliver_claim item now token db with
      | None, (Ok true, db) =>
          Some (w <| wd_db := db |> <| wd_deliveries := <[token := (item, Deliver_claimed)]> (wd_deliveries w) |>)
      | _, _ => None
      end
  | Deliver self now token answer =>
      match wd_deliveries w !! token with
      | Some (item, phase) =>
          let r := deliver_step self now item token answer phase db in
          Some (w <| wd_db := r.2 |> <| wd_deliveries := <[token := (item, r.1)]> (wd_deliveries w) |>
                  <| wd_posts := match may_create phase answer with
                                 | Some r => <[item := r :: posts w item]> (wd_posts w)
                                 | None => wd_posts w
                                 end |>)
      | None => None
      end
  end.
Lemma act_sound a w w' : act a w = Some w' → work_step w w'.
Proof.
  destruct a; simpl; intros Ha.
  - case_match eqn:E; simplify_eq. apply Step_op. destruct op; try done. by apply keeps_node_sound.
  - repeat case_match; simplify_eq. by eapply Step_sync_claim.
  - repeat case_match; simplify_eq. by eapply Step_reconcile_start.
  - destruct (wd_syncs w !! token) as [[item phase]|] eqn:Et; [|done].
    destruct (match phase with Sync_projecting _ (_ :: _) _ => _ | _ => _ end) eqn:Eh; [|done].
    destruct (reconcile_step _ _ _ _ _ _) as [[phase'| |] db] eqn:Er; simplify_eq.
    eapply Step_reconcile; [done| |done]. destruct phase as [|? [|]| |]; try done. by apply keeps_node_sound.
  - repeat case_match; simplify_eq. by eapply Step_sync_release.
  - repeat case_match; simplify_eq. by eapply Step_deliver_claim.
  - destruct (wd_deliveries w !! token) as [[item phase]|] eqn:Et; [|done]. injection Ha as <-. by apply Step_deliver.
Qed.
Fixpoint acts (l : list Act) (w : World) : option World :=
  match l with [] => Some w | a :: l => act a w ≫= acts l end.
Lemma acts_sound l w w' : acts l w = Some w' → rtc work_step w w'.
Proof.
  revert w. induction l as [|a l IH]; simpl; intros w Hl; [by simplify_eq|].
  apply bind_Some in Hl as (w1 & H1 & Hl). econstructor; [by eapply act_sound|by apply IH].
Qed.

Definition requester : UserId := mk_UserId 1.
Definition handler : UserId := mk_UserId 2.
Definition source_channel : ChannelId := mk_ChannelId 10.
Definition task_channel : ChannelId := mk_ChannelId 11.
Definition target : Target := mk_Target 7 8 (lit "acme/app") (lit "bot") 1.
Definition handles (key : string) : RouteRow := mk_RouteRow 40 task_channel (lit key) (lit "product-handler") true.
Definition demo_config : WorkConfig := {|
  f_members := {[(source_channel, requester) := MembershipRole_Member; (task_channel, handler) := MembershipRole_Member;
                 (task_channel, requester) := MembershipRole_Observer]};
  f_users := {[requester := (Human, mk_DisplayName (lit "Ann")); handler := (Human, mk_DisplayName (lit "Bo"))]};
  f_channels := {[source_channel := mk_DisplayName (lit "help"); task_channel := mk_DisplayName (lit "desk")]};
  f_messages := {[mk_MessageId 20 := mk_SourceMessage source_channel requester 1 (lit "it broke") false]};
  f_sequences := {[source_channel := 2%Z; task_channel := 1%Z]};
  f_applications := {[30%N := mk_ApplicationRow (lit "app") (lit "App") true]};
  f_bindings := {[40%N := mk_BindingRow source_channel (lit "work-item") (lit "sproyt") (lit "work-item-review")
                            (lit "1.1.0") true 1]};
  f_binding_applications := {[(40%N, 30%N)]};
  f_routes := {[50%N := handles "review"; 51%N := handles "change-status"; 52%N := handles "publish-github"]};
  f_processors := {[(30%N, handler) := mk_ProcessorRow true true]};
  f_roles := {[(30%N, handler, lit "product-handler")]};
  f_github := {[30%N := mk_GithubRow target true true]} |}.
Definition service : Service := mk_Service true true true.
Definition case : Uuid := 100%N.
Definition registration : Registration :=
  mk_Registration (mk_MessageId 20) 30 (lit "Broken") (lit "It does not start") 600 (lit "it broke").
Definition heart_view (status : string) : HeartInstance :=
  mk_HeartInstance (Some 200%N) (lit "sproyt") (lit "v2") (Some case) (Some handler) (Some 30%N) (Some requester)
    None None None (lit status).
Definition review (status : TaskStatus) (result : option Value) : HeartTask :=
  mk_HeartTask 400 200 Node_review handler (Some status) result.
Definition verdict : Value :=
  completion_result Node_review (Some Category_bug) (Some Priority_high) (Some Item_planned) (Some (lit "next week")).

(** From the registration to a review with a supplement and a decision. *)
Definition reviewed : list Act := [
  Do (Op_register case 1 requester source_channel registration);
  Do (Op_start_claim case 2); Do (Op_start_settle case 2 (Some 200%N));
  Claim_sync case 3 300; Ask_heart 300 (heart_view "running") [review Task_pending None];
  Reconcile (mk_MessageId 21) 300 task_channel; Reconcile (mk_MessageId 22) 300 task_channel; Release_sync 300 4;
  Do (Op_supplement service 500 5 requester case (mk_SupplementCommand (mk_MessageId 20) 601 1 (lit "since Monday")));
  Do (Op_decide service handler 400 (mk_Decision (mk_MessageId 21) 602 2 (Some 500%N) (lit "bug") (lit "high") (lit "planned")
                               (lit "next week")));
  Claim_sync case 10 301; Ask_heart 301 (heart_view "completed") [review Task_completed (Some verdict)];
  Reconcile (mk_MessageId 22) 301 task_channel; Reconcile (mk_MessageId 22) 301 task_channel; Release_sync 301 20].
(** The export, whose first answer is lost; the second worker finds the issue. *)
Definition publish_task : HeartTask := mk_HeartTask 401 201 Node_publish_github handler (Some Task_pending) None.
Definition exported : list Act := [
  Do (Op_seed 30); Do (Op_process_claim case 31 302); Do (Op_process_instance case 302 201);
  Do (Op_publish (mk_MessageId 23) case 302 task_channel publish_task);
  Do (Op_export service 32 handler 401
        (mk_ExportCommand (mk_MessageId 23) 603 3 (lit "Broken") (lit "It does not start") true (Some 8%Z) (Some 1%Z)));
  Claim_delivery case 40 303; Deliver service 41 303 Github_ok; Deliver service 42 303 Github_ok;
  Deliver service 43 303 Github_ok; Deliver service 44 303 Github_ok; Deliver service 45 303 Github_ok;
  Deliver service 46 303 Github_uncertain; Deliver service 47 303 Github_ok; Deliver service 48 303 Github_ok;
  Claim_delivery case 200 304; Deliver service 201 304 Github_ok; Deliver service 202 304 Github_ok;
  Deliver service 203 304 (Github_found (Some (mk_Issue 9 1 (lit "https://github.com/acme/app/issues/1"))));
  Deliver service 204 304 Github_ok].
(** A later change of the status. *)
Definition resolved : list Act := [
  Do (Op_start_status service 700 300 handler case (mk_StatusStart 400 (mk_MessageId 21) 604 4));
  Do (Op_status_claim 700 301 305); Do (Op_status_instance 700 305 202);
  Do (Op_status_message (mk_MessageId 24) 302 700 305
        (Some (mk_HeartTask 402 202 (Node_other (lit "change-status")) handler (Some Task_pending) None)));
  Do (Op_change_status service 303 800 handler 402
        (mk_StatusDecision (mk_MessageId 24) 605 4 (lit "resolved") (lit "found it") (lit "fixed") false))].
Definition demo_acts : list Act := reviewed ++ exported ++ resolved.
Definition demo_world : option World := acts demo_acts (empty_world demo_config).

(** What the run leads to. *)
Definition demo_expected (o : option World) : bool :=
  match o with
  | Some w =>
      bool_decide (length (posts w case) = 1)
      && match wi_items (wd_db w) !! case with
         | Some x => bool_decide (w_status x = Item_resolved) && (w_revision x =? 5)%Z
                     && bool_decide (w_process_status x = Process_completed) && bool_decide (w_version x = V1_1_0)
                     && bool_decide (length (history_of case (wd_db w)) = 1)
         | None => false
         end
      && participates (wi_config (wd_db w)) source_channel requester
      && bool_decide (status_route (wd_db w) requester case = None)
      && match task service requester 402 (mk_MessageId 24) (wd_db w) with
         | (Ok view, _) => bool_decide (tv_item view = case)
                           && from_option (λ l, bool_decide (length (lc_history l) = 1)) false (tv_lifecycle view)
         | _ => false
         end
  | None => false
  end.
Lemma demo_computed : demo_expected demo_world = true.
Proof. vm_compute. reflexivity. Qed.
Lemma expected_view o : demo_expected o = true → ∃ db db' view l,
  task service requester 402 (mk_MessageId 24) db = (Ok view, db') ∧ status_route db requester (tv_item view) = None
  ∧ tv_lifecycle view = Some l ∧ length (lc_history l) = 1.
Proof.
  unfold demo_expected. intros Hc. destruct o as [w|]; [|done]. apply andb_true_iff in Hc as [Hc Hv].
  exists (wd_db w). bool_facts. destruct (task service requester 402 (mk_MessageId 24) (wd_db w)) as [[view| |] db']; [|done..].
  exists db', view. bool_facts. destruct (tv_lifecycle view) as [l|]; [|done]. exists l. simpl in *. bool_facts.
  split_and!; congruence || done.
Qed.
Lemma demo_reached w : demo_world = Some w → work_reachable w.
Proof. intros Hw. exists demo_config. by eapply acts_sound. Qed.
Lemma expected_facts o : demo_expected o = true → ∃ w x r, o = Some w ∧ posts w case = [r]
  ∧ wi_items (wd_db w) !! case = Some x ∧ w_status x = Item_resolved ∧ w_revision x = 5%Z
  ∧ w_process_status x = Process_completed ∧ w_version x = V1_1_0
  ∧ length (history_of case (wd_db w)) = 1
  ∧ participates (wi_config (wd_db w)) source_channel requester = true.
Proof.
  unfold demo_expected. intros Hc. destruct o as [w|]; [|done].
  destruct (wi_items (wd_db w) !! case) as [x|] eqn:Ex; [|by bool_facts]. bool_facts.
  destruct (posts w case) as [|r [|]] eqn:Ep; try done. exists w, x, r.
  split_and!; try done. lia.
Qed.
Definition registered : World := (empty_world demo_config) <| wd_db :=
  work_op (Op_register case 1 requester source_channel registration) (wd_db (empty_world demo_config)) |>.
Lemma demo_continued w : demo_world = Some w →
  rtc work_step registered w.
Proof. intros Hw. exact (acts_sound (tail demo_acts) _ _ Hw). Qed.
Lemma demo_facts : ∃ w x r, rtc work_step registered w ∧ work_reachable w ∧ posts w case = [r]
  ∧ wi_items (wd_db w) !! case = Some x ∧ w_status x = Item_resolved ∧ w_revision x = 5%Z
  ∧ w_process_status x = Process_completed ∧ w_version x = V1_1_0
  ∧ length (history_of case (wd_db w)) = 1
  ∧ participates (wi_config (wd_db w)) source_channel requester = true.
Proof.
  destruct (expected_facts _ demo_computed) as (w & x & r & Hw & Hrest). exists w, x, r.
  exact (conj (demo_continued _ Hw) (conj (demo_reached _ Hw) Hrest)).
Qed.

Lemma github_issue_posted_once_witness : ∃ w r e, work_reachable w ∧ posts w case = [r]
  ∧ wi_exports (wd_db w) !! case = Some e ∧ content r = content e ∧ e_send e = true.
Proof.
  destruct demo_facts as (w & x & r & Hw & Hr & Hp & _).
  destruct (github_issue_posted_once w case Hr) as [_ Hc]. destruct (Hc r) as (e & He & Hce & Hs & _).
  - rewrite Hp. by apply list_elem_of_singleton.
  - by exists w, r, e.
Defined.
Lemma case_outcome_recorded_witness : ∃ w x decision, work_reachable w ∧ wi_items (wd_db w) !! case = Some x
  ∧ length (history_of case (wd_db w)) = 1 ∧ chain decision (history_of case (wd_db w)) Item_resolved
  ∧ decided_by (wd_db w) case x decision.
Proof.
  destruct demo_facts as (w & x & r & Hw & Hr & _ & Hx & Hs & _ & Hp & Hv & Hl & _).
  destruct (case_outcome_recorded w case x Hr Hx) as (decision & Hc & _ & _ & Hd). rewrite Hs in Hc.
  exists w, x, decision. split_and!; [done..|]. by apply Hd.
Defined.
Lemma accepted_commands_serial_witness : ∃ w, work_reachable w ∧ accepted_revisions case (wd_db w) ≡ₚ [1; 2; 3; 4]%Z.
Proof.
  destruct demo_facts as (w & x & r & Hw & Hr & _ & Hx & _ & Hrev & _).
  exists w. split; [done|].
  pose proof (accepted_commands_serial w case x Hr Hx) as Hs. by rewrite Hrev in Hs.
Defined.
Lemma demo_registered : ∃ view, register case 1 requester source_channel registration (wd_db (empty_world demo_config))
    = (Ok view, work_op (Op_register case 1 requester source_channel registration) (wd_db (empty_world demo_config)))
  ∧ view_id view = case.
Proof.
  simpl. match goal with |- context [register ?a ?b ?c ?d ?e ?f] =>
    assert (match (register a b c d e f).1 with Ok v => bool_decide (view_id v = case) | _ => false end = true) as Hv
      by (vm_compute; reflexivity);
    destruct (register a b c d e f) as [[v| |] db] end; [|done..].
  simpl in Hv. bool_facts. by exists v.
Qed.
Lemma registration_idempotent_witness : ∃ w' view', work_reachable w'
  ∧ register 101 400 requester source_channel registration (wd_db w') = (Ok view', wd_db w') ∧ view_id view' = case.
Proof.
  destruct demo_facts as (w' & x & r & Hw & Hr & _ & _ & _ & _ & _ & _ & _ & Hm).
  destruct demo_registered as (view & Hv & Hid).
  destruct (registration_idempotent (empty_world demo_config) w' case 101 1 400 requester source_channel registration
    view _ (ex_intro _ demo_config (rtc_refl _ _)) Hv) as (view' & Hreg & Hview).
  - exact Hw.
  - done.
  - exists w', view'. rewrite Hview. split_and!; [exact Hr|exact Hreg|exact Hid].
Defined.
Lemma internal_notes_private_witness : ∃ db view l, length (lc_history l) = 1 ∧ tv_lifecycle view = Some l
  ∧ hides_notes db requester (tv_item view) l.
Proof.
  destruct (expected_view _ demo_computed) as (db & db' & view & l & Hv & Hn & Hl & Hh).
  exists db, view, l. split_and!; [exact Hh|exact Hl|].
  exact (internal_notes_private db db' service requester 402 (mk_MessageId 24) view l Hv Hn Hl).
Defined.
