(* ===== verification/TopicText.v ===== *)
(** * TopicText: what the language model reads and what is kept of its answers

    Models [normalize] and [valid_key] of [src/topics.rs], and [text_input] and
    [parse_keywords] of [src/topics/worker.rs]. The normal forms (crate
    [unicode-normalization]) and [char::is_alphabetic] come from the Unicode Character
    Database and the JSON parser is [serde_json]; they are parameters. *)

From Stdlib Require Import ZifyBool.
From stdpp Require Import base tactics numbers strings countable gmap list.
From S2P Require Import Prelude RustStr.

(** NFKC and NFC leave ASCII text as it is and are idempotent; a letter is alphanumeric. *)
Class TextTables `{Unicode} := {
  nfkc : str → str;
  nfc : str → str;
  is_alphabetic : char → bool;
  nfkc_ascii s : Forall (λ c, (c < 128)%N) s → nfkc s = s;
  nfc_ascii s : Forall (λ c, (c < 128)%N) s → nfc s = s;
  nfkc_idemp s : nfkc (nfkc s) = nfkc s;
  is_alphabetic_alphanumeric c : is_alphabetic c = true → is_alphanumeric c = true }.

(** Tables for ASCII text. *)
#[local] Lemma demo_alphabetic c :
  is_ascii_lowercase c || is_ascii_uppercase c = true → @is_alphanumeric demo_unicode c = true.
Proof. simpl. unfold is_ascii_alphanumeric. by intros ->. Qed.
Definition demo_tables : @TextTables demo_unicode := {|
  nfkc s := s; nfc s := s;
  is_alphabetic c := is_ascii_lowercase c || is_ascii_uppercase c;
  nfkc_ascii _ _ := eq_refl; nfc_ascii _ _ := eq_refl; nfkc_idemp _ := eq_refl;
  is_alphabetic_alphanumeric := demo_alphabetic |}.

Section text.
Context `{Tables : TextTables}.

(** [matches!(c, ' ' | '-' | '\u{27}' | '’')] *)
Definition label_punctuation (c : char) : bool :=
  ((c =? 32) || (c =? 45) || (c =? 39) || (c =? 8217))%N.
Definition label_char (c : char) : bool := is_alphanumeric c || label_punctuation c.

(** The label a keyword becomes, when it is one. *)
Definition label_of (keyword : str) : option str :=
  let label := join [32%N] (split_whitespace (nfkc keyword)) in
  if bool_decide (label = [])
     || (40 <? length label)
     || negb (match head label with Some c => is_alphanumeric c | None => false end)
     || negb (forallb label_char label)
  then None else Some label.
Definition key_of (label : str) : str := nfkc (to_lowercase label).
Definition add_keyword (labels : gmap str str) (keyword : str) : gmap str str :=
  match label_of keyword with
  | Some label => or_insert (key_of label) label labels
  | None => labels
  end.
Definition normalize (keywords : list str) : gmap str str := foldl add_keyword ∅ (take 5 keywords).
Definition valid_key (key : str) : bool := (len key <=? 160)%N && contains_key key (normalize [key]).

Definition MAX_TEXT_CHARS : nat := 4000.
Definition MAX_KEYWORDS : nat := 5.
Definition MAX_KEYWORD_CHARS : nat := 40.

(** The [while let Some(start) = body.find("[[media:")] loop. Every round drops the
    eight characters it matched, so [length body] rounds are enough. *)
Fixpoint visible_text (fuel : nat) (visible body : str) : str :=
  match fuel with
  | O => visible ++ body
  | S fuel =>
      match split_once body (lit "[[media:") with
      | None => visible ++ body
      | Some (before, tail) =>
          visible_text fuel (visible ++ before ++ [32%N])
            (match split_once tail (lit "]]") with Some (_, rest) => rest | None => [] end)
      end
  end.
Definition text_input (body : str) : str :=
  take MAX_TEXT_CHARS (trim (visible_text (length body) [] body)).

Definition keyword_of (keyword : str) : option str :=
  let keyword := nfc (trim keyword) in
  if bool_decide (keyword = [])
     || (MAX_KEYWORD_CHARS <? length keyword)
     || negb (existsb is_alphabetic keyword)
     || negb (forallb label_char keyword)
  then None else Some keyword.
(** [from_str] parses [{"keywords": [..]}] and nothing else. *)
Definition parse_keywords (from_str : str → option (list str)) (content : str) : Res string (list str) :=
  let? keywords := ok_or (from_str content) "topics_model_invalid_json"%string in
  if MAX_KEYWORDS <? length keywords then Err "topics_model_keyword_limit"%string
  else Ok (omap keyword_of keywords).
End text.

(** ** The text the model reads *)

(** The text [p] occurs in [s]. *)
Fixpoint contains (s p : str) : bool :=
  starts_with s p || match s with [] => false | _ :: s' => contains s' p end.

Lemma starts_with_app s p : starts_with s p = true ↔ ∃ t, s = p ++ t.
Proof.
  revert s. induction p as [|c p IH]; intros s; [destruct s; simpl; split; by eauto|].
  destruct s as [|d s]; simpl; [split; [done|by intros [? ?]]|]. rewrite andb_true_iff, bool_decide_eq_true, IH.
  split; [intros [-> [t ->]]; by exists t|]. intros [t [= -> ->]]. eauto.
Qed.
Lemma contains_nil p : contains [] p = starts_with [] p || false.
Proof. done. Qed.
Lemma contains_cons c s p : contains (c :: s) p = starts_with (c :: s) p || contains s p.
Proof. done. Qed.
Lemma contains_app s p : contains s p = true ↔ ∃ a b, s = a ++ p ++ b.
Proof.
  induction s as [|c s IH]; rewrite ?contains_nil, ?contains_cons, orb_true_iff, starts_with_app.
  - split; [intros [[t ->]|]; [by exists [], t|done]|]. intros (a & b & Hs). left. exists b.
    by destruct a.
  - rewrite IH. split.
    + intros [[t ->]|(a & b & ->)]; [by exists [], t|]. by exists (c :: a), b.
    + intros ([|d a] & b & Hs); simpl in Hs; [left; eauto|]. injection Hs as -> ->. right. eauto.
Qed.
(** A part of a text without [p] has no [p]. *)
Lemma contains_infix a s b p : contains (a ++ s ++ b) p = false → contains s p = false.
Proof.
  rewrite <- !not_true_iff_false, !contains_app. intros Hn (x & y & ->). apply Hn.
  exists (a ++ x), (y ++ b). by rewrite <- !(assoc_L (++)).
Qed.
(** A character that does not occur in [p] separates. *)
Lemma starts_with_sep c a b p : c ∉ p → starts_with (a ++ c :: b) p = true → starts_with a p = true.
Proof.
  revert a. induction p as [|d p IH]; intros a Hc; [by destruct a|].
  destruct a as [|e a]; simpl; rewrite !andb_true_iff, !bool_decide_eq_true; [set_solver|].
  intros [-> Hs]. split; [done|]. apply IH; [set_solver|done].
Qed.
Lemma contains_sep c a b p :
  c ∉ p → p ≠ [] → contains a p = false → contains b p = false → contains (a ++ c :: b) p = false.
Proof.
  intros Hc Hp. induction a as [|d a IH]; intros Ha Hb.
  - simpl app. rewrite contains_cons, Hb, orb_false_r. destruct p as [|e p]; [done|]. simpl.
    rewrite bool_decide_false by set_solver. done.
  - simpl app. rewrite contains_cons in *. apply orb_false_iff in Ha as [Hs Ha]. rewrite IH by done.
    rewrite orb_false_r.
    apply not_true_is_false. intros Hst. by rewrite (starts_with_sep c (d :: a) b p Hc Hst) in Hs.
Qed.
Lemma split_once_None s p : split_once s p = None → contains s p = false.
Proof.
  induction s as [|c s IH]; intros Hn; simpl in Hn; rewrite ?contains_nil, ?contains_cons.
  - by destruct p.
  - change (starts_with (c :: s) p) with (match p with [] => true | d :: p' => bool_decide (d = c) && starts_with s p' end).
    case_match; [done|]. simpl. apply IH. by repeat case_match.
Qed.
Lemma split_once_Some s p before after :
  p ≠ [] → split_once s p = Some (before, after) → contains before p = false ∧ s = before ++ p ++ after.
Proof.
  intros Hp. revert before. induction s as [|c s IH]; intros before; simpl; case_match eqn:Hs.
  - by destruct p.
  - done.
  - intros [= <- <-]. apply (starts_with_app (c :: s)) in Hs as [t Ht]. rewrite Ht, drop_app_length.
    split; [|done]. rewrite contains_nil. by destruct p.
  - destruct (split_once s p) as [[b' a']|] eqn:E; [|done]. intros [= <- <-].
    destruct (IH b' eq_refl) as [Hb ->]. split; [|done]. rewrite contains_cons, Hb, orb_false_r.
    apply not_true_is_false. intros (t & Ht)%starts_with_app.
    assert (starts_with (c :: b' ++ p ++ a') p = true) as Hst; [|by simpl in Hst; rewrite Hst in Hs].
    apply starts_with_app. exists (t ++ p ++ a'). by rewrite (assoc_L (++) p t), <- Ht.
Qed.

Definition marker : str := lit "[[media:".
(** Text that ends in a blank, before which no marker starts. *)
Definition shown (visible : str) : Prop :=
  visible = [] ∨ ∃ v, visible = v ++ [32%N] ∧ contains v marker = false.
Lemma shown_app visible s : shown visible → contains s marker = false → contains (visible ++ s) marker = false.
Proof.
  intros [->|(v & -> & Hv)] Hs; [done|]. rewrite <- (assoc_L (++)). simpl.
  apply contains_sep; try done. vm_compute. set_solver.
Qed.
Lemma visible_text_no_marker fuel visible body :
  length body ≤ fuel → shown visible → contains (visible_text fuel visible body) marker = false.
Proof.
  revert visible body. induction fuel as [|fuel IH]; intros visible body Hlen Hv; simpl.
  - destruct body; [|simpl in Hlen; lia]. by apply shown_app.
  - destruct (split_once body (lit "[[media:")) as [[before tail]|] eqn:E.
    + apply split_once_Some in E as [Hb ->]; [|done]. rewrite !length_app in Hlen. apply IH.
      * destruct (split_once tail (lit "]]")) as [[x rest]|] eqn:Et; simpl; [|lia].
        apply split_once_Some in Et as [_ ->]; [|done]. rewrite !length_app in Hlen. simpl in *. lia.
      * right. exists (visible ++ before). rewrite (assoc_L (++)). split; [done|]. by apply shown_app.
    + apply shown_app; [done|]. by apply split_once_None.
Qed.
(** The model sees at most 4000 characters and no media marker. *)
Lemma text_input_shown body :
  length (text_input body) ≤ MAX_TEXT_CHARS ∧ contains (text_input body) marker = false.
Proof.
  unfold text_input. split; [rewrite length_take; lia|].
  set (s := visible_text _ _ _).
  assert (contains s marker = false) as Hs by (apply visible_text_no_marker; [done|by left]).
  assert (∃ a b, s = a ++ take MAX_TEXT_CHARS (trim s) ++ b) as (a & b & Heq).
  { unfold trim. destruct (trim_start_suffix s) as [a Ha].
    destruct (trim_end_prefix (trim_start s)) as [b Hb].
    exists a, (drop MAX_TEXT_CHARS (trim_end (trim_start s)) ++ b).
    by rewrite (assoc_L (++) (take _ _)), take_drop, <- Hb. }
  rewrite Heq in Hs at 1. by eapply contains_infix.
Qed.

(** ** Labels *)

Section labels.
Context `{TextTables}.

Lemma label_of_Some keyword label :
  label_of keyword = Some label →
  label ≠ [] ∧ length label ≤ 40 ∧ Forall (λ c, label_char c = true) label.
Proof.
  unfold label_of. set (l := RustStr.join _ _). case_match eqn:E; [done|]. intros [= <-].
  rewrite !orb_false_iff, !negb_false_iff in E. destruct E as [[[E1 E2] _] E4].
  apply bool_decide_eq_false in E1. split_and!; [done|lia|]. by apply forallb_Forall.
Qed.
(** Every stored topic has a label made of letters, digits, blanks, hyphens and
    apostrophes, and the key its label is filed under. *)
Lemma normalize_labels keywords key label :
  normalize keywords !! key = Some label →
  key = key_of label ∧ label ≠ [] ∧ length label ≤ 40 ∧ Forall (λ c, label_char c = true) label
  ∧ ∃ keyword, keyword ∈ take 5 keywords ∧ label_of keyword = Some label.
Proof.
  unfold normalize. set (kws := take 5 keywords). clearbody kws.
  assert (∀ m, (∀ key label, m !! key = Some label → key = key_of label ∧
            ∃ keyword, keyword ∈ kws ∧ label_of keyword = Some label) →
    ∀ l, l ⊆ kws → ∀ key label, foldl add_keyword m l !! key = Some label →
      key = key_of label ∧ ∃ keyword, keyword ∈ kws ∧ label_of keyword = Some label) as Hgen.
  { intros m Hm l. revert m Hm. induction l as [|kw l IH]; intros m Hm Hsub key' label' Hk; [by apply Hm|].
    simpl in Hk. eapply IH; [|set_solver|exact Hk]. clear Hk. intros key0 label0. unfold add_keyword.
    destruct (label_of kw) as [lab|] eqn:E; [|apply Hm].
    intros [?|(-> & -> & _)]%lookup_or_insert_Some; [by apply Hm|]. split; [done|]. exists kw. set_solver. }
  intros Hk. destruct (Hgen ∅ ltac:(intros ? ?; by rewrite lookup_empty) kws ltac:(done) key label Hk)
    as [-> (kw & Hin & Hl)].
  destruct (label_of_Some _ _ Hl) as (? & ? & ?). eauto 8.
Qed.

(** A topic whose lower case letters need a combining mark cannot be opened: its key is
    not one [valid_key] accepts. *)
Theorem dotted_topic_not_opened :
  is_alphanumeric 304 = true → is_alphanumeric 775 = false →
  nfkc [304%N] = [304%N] → nfkc [105%N; 775%N] = [105%N; 775%N] →
  normalize [[304%N]] = {[[105%N; 775%N] := [304%N]]} ∧ valid_key [105%N; 775%N] = false.
Proof.
  intros H304 H775 N304 N775.
  assert (to_lowercase [304%N] = [105%N; 775%N]) as Hlow.
  { destruct (to_lowercase_parts [304%N]) as (parts & -> & Hp).
    inversion Hp as [|? p ? ps Hc Hps]; subst. inversion Hps; subst.
    destruct Hc as (_ & Hc & _). by rewrite Hc. }
  split.
  - unfold normalize, add_keyword. simpl. unfold label_of. rewrite N304. vm_compute (RustStr.join _ _).
    simpl. unfold label_char. rewrite H304. simpl. unfold key_of. by rewrite Hlow, N775.
  - unfold valid_key, normalize, add_keyword. simpl. unfold label_of. rewrite N775.
    vm_compute (RustStr.join _ _). simpl. unfold label_char. rewrite H775.
    rewrite (is_alphanumeric_ascii 105) by lia. vm_compute. done.
Qed.
End labels.
