(* ===== verification/Topics.v ===== *)
(** * Topics: the topics of a channel, their evidence and the jobs that find them

    Models [src/topics.rs] on SQLite with the tables, the view and the triggers of
    [migrations/sqlite/0073_channel_topics.sql]. A language model reads every message of
    a channel with topics and names its subjects; each answer is stored as evidence with
    the revision of the message it was given for. A saved message takes its subjects from
    the live message it links to. The writes of the rest of the server that the triggers
    react to are given row by row ([post], [update_message], ..). Columns hold decoded
    values and times are seconds. *)

From Stdlib Require Import ZifyBool.
From stdpp Require Import base tactics numbers strings countable sorting gmap list.
From S2P Require Import Prelude RustStr Text Ids Models Policy RepoState Sql.

(** ** Tables *)

Inductive EvidenceKind : Type := Evidence_text | Evidence_image.
#[export] Instance EvidenceKind_eq_dec : EqDecision EvidenceKind.
Proof. solve_decision. Defined.
(** The origin of a piece of evidence: [kind] and [origin_id], which is empty for text
    and the media object for an image. *)
Inductive Origin : Type := Origin_text | Origin_image (id : MediaId).
#[export] Instance Origin_eq_dec : EqDecision Origin.
Proof. solve_decision. Defined.
#[export] Program Instance Origin_countable : Countable Origin :=
  inj_countable' (λ o, match o with Origin_text => None | Origin_image id => Some id end)
    (from_option Origin_image Origin_text) _.
Next Obligation. by intros []. Qed.
Definition origin_kind (o : Origin) : EvidenceKind :=
  match o with Origin_text => Evidence_text | Origin_image _ => Evidence_image end.

Record TopicSetting : Type := mk_TopicSetting {
  ts_enabled : bool; ts_backfill_after : option Z; ts_picked_at : Z }.
#[export] Instance TopicSetting_eta : Eta TopicSetting := λ s,
  mk_TopicSetting (ts_enabled s) (ts_backfill_after s) (ts_picked_at s).

Record JobRow : Type := mk_JobRow {
  j_channel : ChannelId; j_due : option Z; j_lease : option Uuid; j_attempts : Z;
  j_backfill : bool; j_version : option Z; j_revision : option Z }.
#[export] Instance JobRow_eta : Eta JobRow := λ j,
  mk_JobRow (j_channel j) (j_due j) (j_lease j) (j_attempts j) (j_backfill j) (j_version j)
    (j_revision j).

Record EvidenceRow : Type := mk_EvidenceRow {
  e_channel : ChannelId; e_label : str; e_revision : Z; e_version : Z; e_sequence : Z }.
(** The primary key: the message, the topic and the origin. *)
Abbreviation EvidenceKey := (MessageId * str * Origin)%type (only parsing).

Record SavedLink : Type := mk_SavedLink {
  l_source_channel : ChannelId; l_log : option MessageId }.
Record PreviewRow : Type := mk_PreviewRow {
  p_content_type : str; p_size : Z; p_content : list N }.
Record DirtySource : Type := mk_DirtySource { d_after : option MessageId; d_picked_at : Z }.

Record TopicDb : Type := mk_TopicDb {
  td_messages : gmap MessageId ChatMessage;
  td_sequences : gmap ChannelId Z;
  td_memberships : gmap (ChannelId * UserId) MembershipRole;
  td_direct : gset ChannelId;
  td_spaces : gmap UserId ChannelId;
  td_links : gmap (UserId * MessageId) SavedLink;
  td_media : gmap MediaId ChannelId;
  td_attachments : gmap MediaId (MessageId * N);
  td_previews : gmap MediaId PreviewRow;
  td_settings : gmap ChannelId TopicSetting;
  td_jobs : gmap MessageId JobRow;
  td_evidence : gmap EvidenceKey EvidenceRow;
  td_revisions : gmap MessageId Z;
  td_dirty : gmap MessageId DirtySource }.
#[export] Instance TopicDb_eta : Eta TopicDb := λ d,
  mk_TopicDb (td_messages d) (td_sequences d) (td_memberships d) (td_direct d) (td_spaces d)
    (td_links d) (td_media d) (td_attachments d) (td_previews d) (td_settings d) (td_jobs d)
    (td_evidence d) (td_revisions d) (td_dirty d).

Abbreviation TopicM := (ST TopicDb RepositoryError).

Definition live_row (m : ChatMessage) : bool := bool_decide (ChatMessage_deleted_at m = None).
Definition seq_of (m : ChatMessage) : Z := Z.of_N (seq_u64 (ChatMessage_sequence m)).
Definition body_of (m : ChatMessage) : str := MessageBody_as_str (ChatMessage_body m).
Definition enabled_in (db : TopicDb) (c : ChannelId) : bool :=
  match td_settings db !! c with Some s => ts_enabled s | None => false end.

(** [order by key limit 1] for a key of two numbers. *)
Definition pair_le (a b : Z * N) : Prop := (a.1 < b.1)%Z ∨ a.1 = b.1 ∧ (a.2 ≤ b.2)%N.
#[export] Instance pair_le_dec : RelDecision pair_le.
Proof. intros a b. unfold pair_le. apply _. Defined.
Definition first_by {A} (key : A → Z * N) (l : list A) : option A :=
  head (sort_by_key pair_le key l).

(** ** The view [channel_topic_sources] *)

Record SourceRow : Type := mk_SourceRow {
  sr_source : MessageId; sr_source_channel : ChannelId; sr_saved_owner : option UserId;
  sr_body : str; sr_sender_name : DisplayName; sr_created_at : DateTime; sr_revision : Z }.

(** The link whose log entry a message is. *)
Definition link_of (db : TopicDb) (target : MessageId) : option ((UserId * MessageId) * SavedLink) :=
  fetch_where (λ _ l, bool_decide (l_log l = Some target)) (td_links db).
Definition revision_of (db : TopicDb) (m : MessageId) : Z := default 0%Z (td_revisions db !! m).
Definition source_row (db : TopicDb) (source : MessageId) (m : ChatMessage) (owner : option UserId)
    : SourceRow :=
  mk_SourceRow source (ChatMessage_channel_id m) owner (body_of m) (ChatMessage_sender_display_name m)
    (ChatMessage_sent_at m) (revision_of db source).
Definition topic_source (db : TopicDb) (target : MessageId) : option SourceRow :=
  match td_messages db !! target with
  | None => None
  | Some t =>
      if live_row t then
        match link_of db target with
        | None => Some (source_row db target t None)
        | Some ((owner, source), link) =>
            match td_messages db !! source with
            | Some s =>
                if live_row s
                   && bool_decide (ChatMessage_channel_id s = l_source_channel link)
                   && contains_key (ChatMessage_channel_id s, owner) (td_memberships db)
                   && negb (bool_decide (is_Some (link_of db source)))
                then Some (source_row db source s (Some owner)) else None
            | None => None
            end
        end
      else None
  end.

(** ** Triggers *)

(** A job as it is queued again after a change. *)
Definition fresh_job (c : ChannelId) : JobRow := mk_JobRow c (Some 0%Z) None 0 false None None.
Definition requeue (j : JobRow) : JobRow := fresh_job (j_channel j).

Definition bump_revision (m : MessageId) (db : TopicDb) : TopicDb :=
  if contains_key m (td_messages db)
  then db <| td_revisions := <[m := (revision_of db m + 1)%Z]> (td_revisions db) |> else db.
Definition refresh_job (m : MessageId) (db : TopicDb) : TopicDb :=
  match td_messages db !! m with
  | Some row =>
      if live_row row && (enabled_in db (ChatMessage_channel_id row) || contains_key m (td_jobs db))
      then db <| td_jobs := <[m := from_option requeue (fresh_job (ChatMessage_channel_id row))
                                     (td_jobs db !! m)]> (td_jobs db) |>
      else db
  | None => db
  end.
Definition clear_evidence (m : MessageId) (db : TopicDb) : TopicDb :=
  db <| td_evidence := delete_where (λ k _, bool_decide (k.1.1 = m)) (td_evidence db) |>.
Definition is_saved (db : TopicDb) (m : MessageId) : bool :=
  bool_decide (rows_where (λ k _, bool_decide (k.2 = m)) (td_links db) ≠ ∅).
Definition mark_dirty (m : MessageId) (db : TopicDb) : TopicDb :=
  if is_saved db m
  then db <| td_dirty := <[m := mk_DirtySource None (from_option d_picked_at 0%Z (td_dirty db !! m))]>
                           (td_dirty db) |>
  else db.
(** [channel_topics_refresh] *)
Definition refresh (m : MessageId) (db : TopicDb) : TopicDb :=
  mark_dirty m (clear_evidence m (refresh_job m (bump_revision m db))).
Definition refresh_all (ms : list MessageId) (db : TopicDb) : TopicDb := foldl (λ db m, refresh m db) db ms.

(** Deleting a job takes its evidence with it. *)
Definition delete_job (m : MessageId) (db : TopicDb) : TopicDb :=
  clear_evidence m (db <| td_jobs := delete m (td_jobs db) |>).

(** [channel_topics_source_rejoined] *)
Definition source_rejoined (c : ChannelId) (u : UserId) (db : TopicDb) : TopicDb :=
  if bool_decide (rows_where (λ k l, bool_decide (k.1 = u) && bool_decide (l_source_channel l = c))
       (td_links db) ≠ ∅)
  then match td_spaces db !! u with
       | Some space =>
           db <| td_settings := update_where (λ k s, bool_decide (k = space) && ts_enabled s)
                   (λ s, s <| ts_backfill_after := Some 0%Z |>) (td_settings db) |>
       | None => db
       end
  else db.

(** ** Writes of the rest of the server *)

(** A channel with its sequence counter and its first member. *)
Definition create_channel (c : ChannelId) (direct : bool) (creator : UserId) (db : TopicDb) : TopicDb :=
  source_rejoined c creator
    (db <| td_sequences := <[c := 1%Z]> (td_sequences db) |>
        <| td_direct := if direct then {[c]} ∪ td_direct db else td_direct db |>
        <| td_memberships := <[(c, creator) := MembershipRole_Owner]> (td_memberships db) |>).
Definition join (c : ChannelId) (u : UserId) (role : MembershipRole) (db : TopicDb) : TopicDb :=
  source_rejoined c u (db <| td_memberships := <[(c, u) := role]> (td_memberships db) |>).
Definition set_role (c : ChannelId) (u : UserId) (role : MembershipRole) (db : TopicDb) : TopicDb :=
  db <| td_memberships := alter (λ _, role) (c, u) (td_memberships db) |>.
Definition leave (c : ChannelId) (u : UserId) (db : TopicDb) : TopicDb :=
  db <| td_memberships := delete (c, u) (td_memberships db) |>.

(** [channel_topics_message_insert] *)
Definition insert_message (m : ChatMessage) (db : TopicDb) : TopicDb :=
  let id := ChatMessage_id m in
  let db := db <| td_messages := <[id := m]> (td_messages db) |> in
  if live_row m && enabled_in db (ChatMessage_channel_id m)
  then db <| td_jobs := or_insert id (fresh_job (ChatMessage_channel_id m)) (td_jobs db) |> else db.
(** A message with the next sequence number of its channel. *)
Definition post (id : MessageId) (c : ChannelId) (parent : option MessageId) (sender : UserId)
    (name : DisplayName) (body : MessageBody) (now : DateTime) : TopicM unit :=
  let! db := get in
  let! next := st_lift (ok_or (td_sequences db !! c) NotFound) in
  ensure (negb (contains_key id (td_messages db))) Conflict;;;
  modify (λ db, db <| td_sequences := <[c := (next + 1)%Z]> (td_sequences db) |>);;;
  modify (insert_message (mk_ChatMessage id c parent sender name body (mk_ChannelSequence (Z.to_N next))
    now None None)).

(** [channel_topics_message_edit]; a deletion is not undone. *)
Definition update_message (id : MessageId) (body : MessageBody) (edited deleted : option DateTime)
    (db : TopicDb) : TopicDb :=
  match td_messages db !! id with
  | None => db
  | Some old =>
      let deleted := match ChatMessage_deleted_at old with Some at_ => Some at_ | None => deleted end in
      let new := old <| ChatMessage_body := body |> <| ChatMessage_edited_at := edited |>
                     <| ChatMessage_deleted_at := deleted |> in
      let db := db <| td_messages := <[id := new]> (td_messages db) |> in
      if bool_decide (ChatMessage_body old = body)
         && bool_decide (ChatMessage_deleted_at old = deleted) then db
      else refresh id (if live_row new then db else delete_job id db)
  end.

(** [channel_topics_message_delete], after the foreign keys have cascaded. *)
Definition delete_message (id : MessageId) (db : TopicDb) : TopicDb :=
  let db := delete_job id (db <| td_messages := delete id (td_messages db) |>) in
  refresh id
    (db <| td_revisions := delete id (td_revisions db) |>
        <| td_attachments := delete_where (λ _ a, bool_decide (a.1 = id)) (td_attachments db) |>
        <| td_links := update_where (λ _ l, bool_decide (l_log l = Some id))
             (λ l, mk_SavedLink (l_source_channel l) None) (td_links db) |>).

(** Media, their attachment to a message and their previews. *)
Definition upload (media : MediaId) (c : ChannelId) (db : TopicDb) : TopicDb :=
  db <| td_media := <[media := c]> (td_media db) |>.
Definition attach (m : MessageId) (media : MediaId) (position : N) (db : TopicDb) : TopicDb :=
  refresh m (db <| td_attachments := <[media := (m, position)]> (td_attachments db) |>).
Definition detach (media : MediaId) (db : TopicDb) : TopicDb :=
  match td_attachments db !! media with
  | Some (m, _) => refresh m (db <| td_attachments := delete media (td_attachments db) |>)
  | None => db
  end.
(** The message a medium is attached to; [media_id] is unique. *)
Definition messages_with (media : MediaId) (db : TopicDb) : list MessageId :=
  match td_attachments db !! media with Some (m, _) => [m] | None => [] end.
Definition set_preview (media : MediaId) (preview : PreviewRow) (db : TopicDb) : TopicDb :=
  refresh_all (messages_with media db) (db <| td_previews := <[media := preview]> (td_previews db) |>).
Definition delete_preview (media : MediaId) (db : TopicDb) : TopicDb :=
  if contains_key media (td_previews db)
  then refresh_all (messages_with media db) (db <| td_previews := delete media (td_previews db) |>)
  else db.

(** [channel_topics_personal_default]; [human] tells whether the owner is a person. *)
Definition open_personal_space (fresh : ChannelId) (human : bool) (owner : UserId) : TopicM ChannelId :=
  ensure human PermissionDenied;;;
  let! db := get in
  match td_spaces db !! owner with
  | Some c => st_ret c
  | None =>
      modify (λ db, join fresh owner MembershipRole_Member
        (db <| td_sequences := <[fresh := 1%Z]> (td_sequences db) |>));;;
      modify (λ db,
        db <| td_spaces := <[owner := fresh]> (td_spaces db) |>
           <| td_settings := or_insert fresh (mk_TopicSetting true (Some 0%Z) 0) (td_settings db) |>);;;
      st_ret fresh
  end.

(** [save_personal_link] of the SQLite repository; [body] is the text of the link. *)
Definition save_personal_link (fresh_channel : ChannelId) (fresh : MessageId) (name : DisplayName)
    (body : MessageBody) (now : DateTime) (human : bool) (owner : UserId) (source_id : MessageId)
    : TopicM (option MessageId) :=
  transaction (
    let! channel := open_personal_space fresh_channel human owner in
    let! db := get in
    let! source := st_lift (ok_or (match td_messages db !! source_id with
      | Some m => if live_row m && contains_key (ChatMessage_channel_id m, owner) (td_memberships db)
                  then Some m else None
      | None => None end) NotFound) in
    let key := (owner, source_id) in
    let existing := match td_links db !! key with
      | Some l => match l_log l with
                  | Some log => match td_messages db !! log with Some m => live_row m | None => false end
                  | None => false
                  end
      | None => false end in
    if existing then st_ret None else
    post fresh channel None owner name body now;;;
    (* [channel_topics_link_insert] and [channel_topics_link_update] *)
    modify (λ db, refresh fresh (db <| td_links := <[key := mk_SavedLink
      (from_option l_source_channel (ChatMessage_channel_id source) (td_links db !! key)) (Some fresh)]>
      (td_links db) |>));;;
    st_ret (Some fresh)).
