(* ===== verification/TopicStore.v ===== *)
(** * TopicStore: reading topics and working through the jobs

    Models the methods of [TopicStore] ([src/topics.rs]) on the tables of [Topics]. All but
    one of them are one statement or one transaction of SQLite, which runs alone; [now] is
    [unixepoch()]. The exception is [claim], which calls [refresh_saved_sources], [claim_due]
    up to three times and [backfill], a transaction each: as a definition it is the run that
    nothing disturbs, at one time, and the steps of [TopicReach] interleave its transactions
    with everything else. A failing database is not part of a method: the steps of
    [TopicWorker] interrupt a worker instead. *)

From Stdlib Require Import ZifyBool.
From stdpp Require Import base tactics numbers strings countable sorting gmap list.
From S2P Require Import Prelude RustStr Text Ids Models Policy RepoState Sql TopicText Topics.

Definition PAGE_SIZE : nat := 30.
Definition ANALYZER_VERSION : Z := 1.
Definition LEASE_SECONDS : Z := 360.
Definition MAX_ATTEMPTS : Z := 3.

Record TopicJob : Type := mk_TopicJob { tj_message : MessageId; tj_lease : Uuid }.
Record TopicImage : Type := mk_TopicImage { ti_id : MediaId; ti_content_type : str; ti_bytes : list N }.
Record TopicInput : Type := mk_TopicInput {
  in_body : str; in_existing_labels : list str; in_images : list TopicImage }.
Record TopicPill : Type := mk_TopicPill { pill_key : str; pill_label : str; pill_count : Z }.
Record TopicSummary : Type := mk_TopicSummary {
  sum_enabled : bool; sum_can_manage : bool; sum_topics : list TopicPill }.
Record TopicMatchPreview : Type := mk_TopicMatchPreview {
  tp_message_id : MessageId; tp_parent : option MessageId; tp_sequence : Z;
  tp_sender_name : DisplayName; tp_body : str; tp_created_at : DateTime }.
Record TopicMatch : Type := mk_TopicMatch { tm_preview : TopicMatchPreview; tm_message : ChatMessage }.
Record TopicPage : Type := mk_TopicPage { page_matches : list TopicMatch; page_next_before : option Z }.

(** ** Access *)

Record Access : Type := mk_Access { a_role : MembershipRole; a_enabled : bool; a_is_direct : bool }.
Definition can_manage (a : Access) : bool :=
  can_moderate_channel (Some (a_role a)) || a_is_direct a && can_send_to_channel (Some (a_role a)).
(** [CHANNEL_ACCESS] *)
Definition channel_access (db : TopicDb) (actor : UserId) (c : ChannelId) : option Access :=
  (λ role, mk_Access role (enabled_in db c) (bool_decide (c ∈ td_direct db)))
    <$> td_memberships db !! (c, actor).
Definition access (actor : UserId) (c : ChannelId) : TopicM Access :=
  let! db := get in
  st_lift (ok_or (match channel_access db actor c with
    | Some a => if can_read_channel (Some (a_role a)) then Some a else None
    | None => None end) PermissionDenied).

(** ** Reading *)

(** Evidence from the present text of a message that [viewer] may see in [c]. *)
Definition evidence_current (db : TopicDb) (viewer : option UserId) (m : MessageId) (e : EvidenceRow) : bool :=
  match topic_source db m with
  | Some source =>
      (e_revision e =? sr_revision source)%Z && (e_version e =? ANALYZER_VERSION)%Z
      && match sr_saved_owner source with
         | None => true
         | Some owner => bool_decide (Some owner = viewer)
         end
  | None => false
  end.
Definition evidence_visible (db : TopicDb) (viewer : UserId) (c : ChannelId)
    (k : EvidenceKey) (e : EvidenceRow) : bool :=
  bool_decide (e_channel e = c) && enabled_in db c && contains_key (c, viewer) (td_memberships db)
  && evidence_current db (Some viewer) k.1.1 e.
Definition visible_evidence (db : TopicDb) (viewer : UserId) (c : ChannelId)
    : list (EvidenceKey * EvidenceRow) :=
  map_to_list (rows_where (evidence_visible db viewer c) (td_evidence db)).

Definition min_text (l : list str) : str :=
  default [] (head (sort_by_key str_le id l)).
Definition min_z (l : list Z) : Z := foldr Z.min (default 0%Z (head l)) l.
Definition max_z (l : list Z) : Z := foldr Z.max (default 0%Z (head l)) l.

(** A group of [group by e.topic_key]: the pill and the first sequence, which orders it. *)
Definition pill_of (rows : list (EvidenceKey * EvidenceRow)) (key : str) : TopicPill * Z :=
  let group := filter (λ r, r.1.1.2 = key) rows in
  (mk_TopicPill key (min_text ((λ r, e_label r.2) <$> group))
     (Z.of_nat (length (remove_dups ((λ r, r.1.1.1) <$> group)))),
   min_z ((λ r, e_sequence r.2) <$> group)).
Definition pill_cmp (a b : TopicPill * Z) : comparison :=
  then_with (pill_count b.1 ?= pill_count a.1)%Z
    (then_with (a.2 ?= b.2)%Z (str_cmp (pill_key a.1) (pill_key b.1))).
(** [TOPIC_PILLS] *)
Definition topic_pills (db : TopicDb) (viewer : UserId) (c : ChannelId) : list TopicPill :=
  let rows := visible_evidence db viewer c in
  fst <$> sort_by pill_cmp (pill_of rows <$> remove_dups ((λ r, r.1.1.2) <$> rows)).

Definition summary (actor : UserId) (c : ChannelId) : TopicM TopicSummary :=
  let! a := access actor c in
  let! db := get in
  st_ret (mk_TopicSummary (a_enabled a) (can_manage a)
    (if a_enabled a then take 6 (topic_pills db actor c) else [])).

Definition set_enabled (actor : UserId) (c : ChannelId) (enabled : bool) : TopicM TopicSummary :=
  let! a := access actor c in
  ensure (can_manage a) PermissionDenied;;;
  transaction (
    let! db := get in
    let! a := st_lift (ok_or (match channel_access db actor c with
      | Some a => if can_manage a then Some a else None
      | None => None end) PermissionDenied) in
    if bool_decide (a_enabled a = enabled) then st_ret tt
    else put (db <| td_settings := <[c := mk_TopicSetting enabled (if enabled then Some 0%Z else None)
                (from_option ts_picked_at 0%Z (td_settings db !! c))]> (td_settings db) |>));;;
  summary actor c.

Definition seq_ge (a b : Z) : Prop := (b ≤ a)%Z.
#[export] Instance seq_ge_dec : RelDecision seq_ge.
Proof. intros a b. unfold seq_ge. apply _. Defined.

(** The subquery of [TOPIC_MATCHES]: the messages of a topic before a sequence number. *)
Definition topic_messages (db : TopicDb) (viewer : UserId) (c : ChannelId) (key : str) (before : Z)
    : list (MessageId * Z) :=
  remove_dups ((λ r, (r.1.1.1, e_sequence r.2))
    <$> filter (λ r, r.1.1.2 = key ∧ (e_sequence r.2 < before)%Z) (visible_evidence db viewer c)).
Definition match_row (db : TopicDb) (id : MessageId) : option TopicMatch :=
  match td_messages db !! id, topic_source db id with
  | Some m, Some source =>
      Some (mk_TopicMatch
        (mk_TopicMatchPreview id (ChatMessage_parent_message_id m) (seq_of m)
           (sr_sender_name source) (take 1200 (sr_body source)) (sr_created_at source)) m)
  | _, _ => None
  end.
Definition tm_sequence (m : TopicMatch) : Z := tp_sequence (tm_preview m).
(** [TOPIC_MATCHES] *)
Definition topic_rows (db : TopicDb) (viewer : UserId) (c : ChannelId) (key : str) (before : Z)
    : list TopicMatch :=
  sort_by_key seq_ge tm_sequence
    (omap (λ r, match_row db r.1)
       (take 31 (sort_by_key seq_ge snd (topic_messages db viewer c key before)))).

Definition matches (actor : UserId) (c : ChannelId) (key : str) (before : Z) : TopicM TopicPage :=
  access actor c;;;
  let! db := get in
  let rows := topic_rows db actor c key before in
  st_ret (if PAGE_SIZE <? length rows
          then mk_TopicPage (take PAGE_SIZE rows) (tm_sequence <$> last (take PAGE_SIZE rows))
          else mk_TopicPage rows None).

(** ** Claiming *)

Definition due (now : Z) (j : JobRow) : bool :=
  match j_due j with Some at_ => (at_ <=? now)%Z | None => false end.
Definition claimable (db : TopicDb) (now : Z) (backfill : bool) (m : MessageId) (j : JobRow) : bool :=
  enabled_in db (j_channel j) && bool_decide (is_Some (topic_source db m))
  && bool_decide (j_backfill j = backfill) && due now j && (j_attempts j <? MAX_ATTEMPTS)%Z.
Definition candidate (db : TopicDb) (now : Z) (backfill : bool) : option (MessageId * JobRow) :=
  first_by (λ r, (default 0%Z (j_due r.2), MessageId_as_uuid r.1))
    (map_to_list (rows_where (claimable db now backfill) (td_jobs db))).
(** [CLAIM_JOB] with the lease [Uuid::now_v7()]. *)
Definition claim_due (now : Z) (lease : Uuid) (backfill : bool) : TopicM (option TopicJob) :=
  let! db := get in
  match candidate db now backfill with
  | Some (m, j) =>
      put (db <| td_jobs := <[m := j <| j_lease := Some lease |> <| j_due := Some (now + LEASE_SECONDS)%Z |>
             <| j_attempts := (j_attempts j + 1)%Z |>
             <| j_revision := sr_revision <$> topic_source db m |>]> (td_jobs db) |>);;;
      st_ret (Some (mk_TopicJob m lease))
  | None => st_ret None
  end.

(** The next batch of at most 64 log entries of a changed source, by identifier. *)
Definition id_le (a b : MessageId) : Prop := (MessageId_as_uuid a ≤ MessageId_as_uuid b)%N.
#[export] Instance id_le_dec : RelDecision id_le.
Proof. intros a b. unfold id_le. apply _. Defined.
Definition after_id (after : option MessageId) (m : MessageId) : bool :=
  (from_option MessageId_as_uuid 0%N after <? MessageId_as_uuid m)%N.
Definition log_entries (db : TopicDb) (source : MessageId) (after : option MessageId) : list MessageId :=
  omap (λ r, match l_log r.2 with
             | Some log => if bool_decide (r.1.2 = source) && after_id after log then Some log else None
             | None => None end) (map_to_list (td_links db)).
Definition log_batch (db : TopicDb) (source : MessageId) (after : option MessageId) : list MessageId :=
  take 64 (sort_by_key id_le id (log_entries db source after)).

(** The job still stands for the present revision of its source. *)
Definition current_revision (db : TopicDb) (m : MessageId) (revision : option Z) : bool :=
  match topic_source db m with
  | Some source => bool_decide (revision = Some (sr_revision source))
  | None => false
  end.
Definition refresh_log_job (m : MessageId) (db : TopicDb) : TopicDb :=
  match td_messages db !! m with
  | Some row =>
      if live_row row && (enabled_in db (ChatMessage_channel_id row) || contains_key m (td_jobs db)) then
        let visible := bool_decide (is_Some (topic_source db m)) in
        let due := if visible then Some 0%Z else None in
        let attempts := if visible then 0%Z else 3%Z in
        match td_jobs db !! m with
        | None => db <| td_jobs := <[m := mk_JobRow (ChatMessage_channel_id row) due None attempts false
                                          None None]> (td_jobs db) |>
        | Some j =>
            if current_revision db m (j_revision j) then db
            else db <| td_jobs := <[m := mk_JobRow (j_channel j) due None attempts false None None]>
                                    (td_jobs db) |>
        end
      else db
  | None => db
  end.
Definition clear_stale_evidence (batch : list MessageId) (db : TopicDb) : TopicDb :=
  db <| td_evidence := delete_where (λ k e, bool_decide (k.1.1 ∈ batch)
          && negb (current_revision db k.1.1 (Some (e_revision e)))) (td_evidence db) |>.
Definition refresh_saved_sources (now : Z) : TopicM unit :=
  transaction (
    let! db := get in
    match first_by (λ r, (d_picked_at r.2, MessageId_as_uuid r.1)) (map_to_list (td_dirty db)) with
    | None => st_ret tt
    | Some (source, dirty) =>
        let batch := log_batch db source (d_after dirty) in
        match last batch with
        | Some end_ =>
            modify (λ db, foldl (λ db m, refresh_log_job m db) db batch);;;
            modify (clear_stale_evidence batch);;;
            modify (λ db, db <| td_dirty := <[source := mk_DirtySource (Some end_) now]> (td_dirty db) |>)
        | None => modify (λ db, db <| td_dirty := delete source (td_dirty db) |>)
        end
    end).

(** The next batch of at most 64 sequence numbers of a channel. *)
Definition sequences_after (db : TopicDb) (c : ChannelId) (after : Z) : list Z :=
  sort_by_key Z.le id
    (omap (λ r, if bool_decide (ChatMessage_channel_id r.2 = c) && (after <? seq_of r.2)%Z
                then Some (seq_of r.2) else None) (map_to_list (td_messages db))).
Definition batch_end (db : TopicDb) (c : ChannelId) (after : Z) : option Z :=
  last (take 64 (sequences_after db c after)).
Definition exhausted (now : Z) (j : JobRow) : bool :=
  (MAX_ATTEMPTS <=? j_attempts j)%Z
  && match j_due j with None => true | Some at_ => (at_ <=? now)%Z end
  || match j_version j with Some v => negb (v =? ANALYZER_VERSION)%Z | None => false end.
Definition backfill_job (now : Z) (c : ChannelId) (j : option JobRow) : JobRow :=
  match j with
  | None => mk_JobRow c (Some 0%Z) None 0 true None None
  | Some j => if exhausted now j then mk_JobRow (j_channel j) (Some 0%Z) None 0 true None None else j
  end.
Definition in_batch (c : ChannelId) (after end_ : Z) (m : ChatMessage) : bool :=
  bool_decide (ChatMessage_channel_id m = c) && (after <? seq_of m)%Z && (seq_of m <=? end_)%Z && live_row m.
Definition backfill_jobs (now : Z) (c : ChannelId) (after end_ : Z) (db : TopicDb) : gmap MessageId JobRow :=
  foldl (λ jobs m, <[m := backfill_job now c (jobs !! m)]> jobs) (td_jobs db)
    (map_to_list (rows_where (λ _ m, in_batch c after end_ m) (td_messages db))).*1.
Definition pending_backfill (db : TopicDb) : list (ChannelId * (Z * Z)) :=
  omap (λ r, match ts_backfill_after r.2 with
             | Some after => if ts_enabled r.2 then Some (r.1, (after, ts_picked_at r.2)) else None
             | None => None end) (map_to_list (td_settings db)).
Definition backfill (now : Z) : TopicM unit :=
  transaction (
    let! db := get in
    match first_by (λ r, (r.2.2, ChannelId_as_uuid r.1)) (pending_backfill db) with
    | None => st_ret tt
    | Some (c, (after, _)) =>
        let end_ := batch_end db c after in
        match end_ with
        | Some e => modify (λ db, db <| td_jobs := backfill_jobs now c after e db |>)
        | None => st_ret tt
        end;;;
        modify (λ db, db <| td_settings := alter (λ s, s <| ts_backfill_after := end_ |>
                          <| ts_picked_at := now |>) c (td_settings db) |>)
    end).

(** [claim], when nothing comes between its transactions. The process flips [PREFER_BACKFILL]; the result carries its new value. The
    three calls of [claim_due] each generate a lease. [refresh_media] does nothing on
    SQLite. *)
Definition claim (now : Z) (l1 l2 l3 : Uuid) (prefer_backfill : bool) : TopicM (option TopicJob * bool) :=
  refresh_saved_sources now;;;
  let flipped := negb prefer_backfill in
  let! first := if prefer_backfill then st_ret None else claim_due now l1 false in
  match first with
  | Some job => st_ret (Some job, flipped)
  | None =>
      let! job := claim_due now l2 true in
      match job with
      | Some job => st_ret (Some job, flipped)
      | None =>
          backfill now;;;
          let! job := claim_due now l3 true in
          match job with
          | Some job => st_ret (Some job, flipped)
          | None => if prefer_backfill
                    then let! job := claim_due now l1 false in st_ret (job, flipped)
                    else st_ret (None, flipped)
          end
      end
  end.

(** ** Working *)

(** The condition of [JOB_INPUT]. *)
Definition job_source (db : TopicDb) (now : Z) (job : TopicJob) : option SourceRow :=
  match td_jobs db !! tj_message job with
  | Some j =>
      if enabled_in db (j_channel j) && bool_decide (j_lease j = Some (tj_lease job))
         && match j_due j with Some at_ => (now <? at_)%Z | None => false end
         && current_revision db (tj_message job) (j_revision j)
      then topic_source db (tj_message job) else None
  | None => None
  end.
Definition job_current (now : Z) (job : TopicJob) : TopicM bool :=
  gets (λ db, bool_decide (is_Some (job_source db now job))).
Definition job_body (now : Z) (job : TopicJob) : TopicM (option str) :=
  gets (λ db, sr_body <$> job_source db now job).

Definition topic_content_type (t : str) : bool :=
  bool_decide (t = lit "image/jpeg") || bool_decide (t = lit "image/png")
  || bool_decide (t = lit "image/webp").
Definition between_1_and_4MiB (n : Z) : bool := ((1 <=? n) && (n <=? 4194304))%Z.
(** The previews of the attachments of a source, by position. *)
Definition source_images (db : TopicDb) (source : SourceRow) : list (N * TopicImage) :=
  omap (λ r, match td_media db !! r.1, td_previews db !! r.1 with
    | Some c, Some p =>
        if bool_decide (r.2.1 = sr_source source) && bool_decide (c = sr_source_channel source)
           && topic_content_type (p_content_type p) && between_1_and_4MiB (p_size p)
           && between_1_and_4MiB (Z.of_nat (length (p_content p)))
        then Some (r.2.2, mk_TopicImage r.1 (p_content_type p) (p_content p)) else None
    | _, _ => None end) (map_to_list (td_attachments db)).
(** [JOB_IMAGES] *)
Definition job_images (now : Z) (job : TopicJob) : TopicM (list TopicImage) :=
  gets (λ db, match job_source db now job with
    | Some source => take 10 (snd <$> sort_by_key N.le fst (source_images db source))
    | None => [] end).

(** [order by e.sequence desc, e.topic_key, e.kind, e.origin_id] *)
Definition kind_rank (o : Origin) : N := match origin_kind o with Evidence_image => 0%N | Evidence_text => 1%N end.
Definition origin_rank (o : Origin) : N := match o with Origin_text => 0%N | Origin_image id => MediaId_as_uuid id end.
Definition recent_cmp (a b : EvidenceKey * EvidenceRow) : comparison :=
  then_with (e_sequence b.2 ?= e_sequence a.2)%Z
    (then_with (str_cmp a.1.1.2 b.1.1.2)
      (then_with (kind_rank a.1.2 ?= kind_rank b.1.2)%N (origin_rank a.1.2 ?= origin_rank b.1.2)%N)).
Definition label_group (rows : list (EvidenceKey * EvidenceRow)) (key : str) : str * str * Z * Z :=
  let group := filter (λ r, r.1.1.2 = key) rows in
  (key, min_text ((λ r, e_label r.2) <$> group),
   Z.of_nat (length (remove_dups ((λ r, r.1.1.1) <$> group))), max_z ((λ r, e_sequence r.2) <$> group)).
Definition label_cmp (a b : str * str * Z * Z) : comparison :=
  then_with (b.1.2 ?= a.1.2)%Z (then_with (b.2 ?= a.2)%Z (str_cmp a.1.1.1 b.1.1.1)).
(** [JOB_LABELS]: labels of other messages of the channel, none of them saved ones. *)
Definition job_labels (job : TopicJob) : TopicM (list str) :=
  gets (λ db,
    let recent := match td_jobs db !! tj_message job with
      | Some j => if bool_decide (j_lease j = Some (tj_lease job))
                  then take 200 (sort_by recent_cmp
                         (map_to_list (rows_where (λ _ e, bool_decide (e_channel e = j_channel j))
                            (td_evidence db)))) else []
      | None => [] end in
    let rows := filter (λ r, evidence_current db None r.1.1.1 r.2 = true) recent in
    (λ g, g.1.1.2) <$> take 40 (sort_by label_cmp
      (label_group rows <$> remove_dups ((λ r, r.1.1.2) <$> rows)))).

(** The rows one answer adds: [on conflict do nothing]. *)
Section complete.
Context `{TextTables}.
Definition add_evidence (m : ChatMessage) (c : ChannelId) (revision : Z) (origin : Origin)
    (evidence : gmap EvidenceKey EvidenceRow) (entry : str * str) : gmap EvidenceKey EvidenceRow :=
  or_insert (ChatMessage_id m, entry.1, origin)
    (mk_EvidenceRow c entry.2 revision ANALYZER_VERSION (seq_of m)) evidence.
Definition answers (text : list str) (images : list (MediaId * list str)) : list (Origin * list str) :=
  (Origin_text, text) :: ((λ i, (Origin_image i.1, i.2)) <$> take 10 images).
Definition add_answer (m : ChatMessage) (c : ChannelId) (revision : Z)
    (evidence : gmap EvidenceKey EvidenceRow) (answer : Origin * list str) : gmap EvidenceKey EvidenceRow :=
  foldl (add_evidence m c revision answer.1) evidence (map_to_list (normalize answer.2)).

(** The row [JOB_COMPLETE] updates. *)
Definition complete_job (db : TopicDb) (now : Z) (job : TopicJob) : option JobRow :=
  match job_source db now job with Some _ => td_jobs db !! tj_message job | None => None end.
Definition complete (now : Z) (job : TopicJob) (text : list str) (images : list (MediaId * list str))
    : TopicM unit :=
  transaction (
    let! db := get in
    match complete_job db now job with
    | None => st_ret tt
    | Some j =>
        modify (λ db, db <| td_jobs := <[tj_message job := j <| j_due := None |> <| j_lease := None |>
          <| j_attempts := 0%Z |> <| j_version := Some ANALYZER_VERSION |>]> (td_jobs db) |>);;;
        modify (clear_evidence (tj_message job));;;
        modify (λ db, match td_messages db !! tj_message job with
          | Some m => db <| td_evidence := foldl (add_answer m (j_channel j) (default 0%Z (j_revision j)))
                                            (td_evidence db) (answers text images) |>
          | None => db end)
    end).
End complete.

(** [JOB_FAIL] *)
Definition fail_job (now : Z) (lease : Uuid) (j : JobRow) : JobRow :=
  if bool_decide (j_lease j = Some lease)
  then j <| j_lease := None |>
         <| j_due := if (j_attempts j <? MAX_ATTEMPTS)%Z then Some (now + 60 * j_attempts j)%Z else None |>
  else j.
Definition fail (now : Z) (job : TopicJob) : TopicM unit :=
  modify (λ db, db <| td_jobs := alter (fail_job now (tj_lease job)) (tj_message job) (td_jobs db) |>).
