(* ===== verification/TopicWorker.v ===== *)
(** * TopicWorker: the worker that asks the language model

    Models [src/topics/worker.rs]: the settings of the model client, one request and its
    answer, the analysis of a message and the life of a job from [claim] to [complete] or
    [fail]. The HTTP client, the URL and JSON parsers and the environment are parameters.
    Between two queries of a worker anything may happen to the database, so a job is
    followed query by query ([Phase]). *)

From Stdlib Require Import ZifyBool.
From stdpp Require Import base tactics numbers strings countable sorting gmap list.
From S2P Require Import Prelude RustStr Text Ids Models RepoState Sql TopicText Topics TopicStore.

Definition MAX_IMAGES : nat := 10.
Definition MAX_PREVIEW_BYTES : nat := N.to_nat (4 * 1024 * 1024).
Definition MAX_LABELS : nat := 40.
Definition MAX_RESPONSE_BYTES : nat := N.to_nat (16 * 1024).

(** ** The client *)

(** The parts of a [reqwest::Url]; [path_segments] is absent for a URL that cannot be a
    base. *)
Record Url : Type := mk_Url {
  url_scheme : str; url_host : option str; url_username : str; url_password : option str;
  url_query : option str; url_fragment : option str; url_segments : option (list str) }.
#[export] Instance Url_eta : Eta Url := λ u,
  mk_Url (url_scheme u) (url_host u) (url_username u) (url_password u) (url_query u) (url_fragment u)
    (url_segments u).
Record TopicModel : Type := mk_TopicModel {
  tmod_endpoint : Url; tmod_model : str; tmod_key : option str; tmod_vllm_template : bool }.
#[export] Instance TopicModel_eta : Eta TopicModel := λ t,
  mk_TopicModel (tmod_endpoint t) (tmod_model t) (tmod_key t) (tmod_vllm_template t).

(** [PathSegmentsMut::pop_if_empty] *)
Definition pop_if_empty (segments : list str) : list str :=
  match last segments with
  | Some [] => removelast segments
  | _ => segments
  end.

Section client.
Context (url_parse : str → option Url).
Definition TopicModel_new (base model : str) (key : option str) : Res string TopicModel :=
  let model := trim model in
  if bool_decide (model = []) || (256 <? len model)%N || existsb is_control model
  then Err "topics_model_invalid_id"%string else
  let? endpoint := ok_or (url_parse base) "topics_model_invalid_url"%string in
  if negb (bool_decide (url_scheme endpoint = lit "http") || bool_decide (url_scheme endpoint = lit "https"))
     || bool_decide (url_host endpoint = None)
     || negb (bool_decide (url_username endpoint = []))
     || bool_decide (is_Some (url_password endpoint))
     || bool_decide (is_Some (url_query endpoint))
     || bool_decide (is_Some (url_fragment endpoint))
  then Err "topics_model_invalid_url"%string else
  let? segments := ok_or (url_segments endpoint) "topics_model_invalid_url"%string in
  Ok (mk_TopicModel
        (endpoint <| url_segments := Some (pop_if_empty segments ++ [lit "chat"; lit "completions"]) |>)
        model key false).

(** [std::env::var]: unset, not Unicode, or a value. *)
Inductive EnvVar : Type := Env_not_present | Env_not_unicode | Env_value (s : str).
Definition env_ok (v : EnvVar) : option str := match v with Env_value s => Some s | _ => None end.
Definition TopicModel_from_env (var : string → EnvVar) : Res string TopicModel :=
  let? model := ok_or (env_ok (var "SPROYT_CHANNEL_TOPICS_MODEL")) "topics_model_required"%string in
  let? (base, key, vllm_template) :=
    match var "SPROYT_CHANNEL_TOPICS_MODEL_URL"%string with
    | Env_value base => Ok (base, env_ok (var "SPROYT_CHANNEL_TOPICS_MODEL_API_KEY"), false)
    | Env_not_present =>
        let? base := ok_or (env_ok (var "SPROYT_VLLM_URL")) "topics_model_url_required"%string in
        Ok (base, env_ok (var "SPROYT_VLLM_API_KEY"), true)
    | Env_not_unicode => Err "topics_model_invalid_url"%string
    end in
  let? client := TopicModel_new base model key in
  Ok (client <| tmod_vllm_template := vllm_template |>).
End client.

(** ** One question *)

(** What the model is asked about. *)
Inductive Content : Type :=
  | Ask_text (existing_labels : list str) (message : str)
  | Ask_image (existing_labels : list str) (image : TopicImage).

(** The reply: [send] fails, or a status and the chunks of the body, which end with an
    error when the connection is lost. *)
Inductive Reply : Type :=
  | Reply_transport
  | Reply_response (status : N) (chunks : list (list N)) (lost : bool).
Inductive ToolCalls : Type := Calls_null | Calls_array (n : nat) | Calls_other.
(** The fields of the response that are read: [choices[0]] with its [finish_reason] and
    [message]. *)
Record ModelResponse : Type := mk_ModelResponse {
  mr_finish_reason : option str; mr_tool_calls : ToolCalls; mr_function_call_null : bool;
  mr_content : option str }.

Fixpoint read_chunks (bytes : list N) (chunks : list (list N)) (lost : bool) : Res string (list N) :=
  match chunks with
  | [] => if lost then Err "topics_model_transport"%string else Ok bytes
  | chunk :: chunks =>
      if MAX_RESPONSE_BYTES <? length bytes + length chunk
      then Err "topics_model_response_too_large"%string
      else read_chunks (bytes ++ chunk) chunks lost
  end.

Section analyze.
Context `{TextTables}.
Context (post_json : TopicModel → Content → Reply) (from_slice : list N → option ModelResponse)
        (from_str : str → option (list str)).

Definition extract (client : TopicModel) (content : Content) : Res string (list str) :=
  match post_json client content with
  | Reply_transport => Err "topics_model_transport"%string
  | Reply_response status chunks lost =>
      if negb ((200 <=? status) && (status <? 300))%N then Err "topics_model_status"%string else
      let? bytes := read_chunks [] chunks lost in
      let? response := ok_or (from_slice bytes) "topics_model_response"%string in
      if negb (bool_decide (mr_finish_reason response = Some (lit "stop")))
         || negb (match mr_tool_calls response with
                  | Calls_null => true | Calls_array n => (n =? 0)%nat | Calls_other => false end)
         || negb (mr_function_call_null response)
      then Err "topics_model_incomplete"%string else
      let? content := ok_or (mr_content response) "topics_model_response"%string in
      parse_keywords from_str content
  end.
End analyze.

(** ** The analysis of a message *)

Abbreviation Keywords := (list str * list (MediaId * list str))%type (only parsing).

Section analysis.
Context `{TextTables}.
(** The answers of [source_current] and of [extract], by the number of the call. *)
Context (current : nat → Res string bool) (ask : nat → Content → Res string (list str)).

Definition usable_image (image : TopicImage) : bool :=
  negb (bool_decide (ti_bytes image = [])) && negb (MAX_PREVIEW_BYTES <? length (ti_bytes image))
  && topic_content_type (ti_content_type image).
Definition usable_labels (existing_labels : list str) : list str :=
  filter (λ l, length l ≤ MAX_KEYWORD_CHARS) (take MAX_LABELS existing_labels).

Fixpoint analyze_images (labels : list str) (n : nat) (images : list TopicImage)
    (keywords : list (MediaId * list str)) : Res string (option (list (MediaId * list str))) :=
  match images with
  | [] => Ok (Some keywords)
  | image :: images =>
      if usable_image image then
        let? ok := current n in
        if negb ok then Ok None else
        let? found := ask n (Ask_image labels image) in
        analyze_images labels (S n) images (keywords ++ [(ti_id image, found)])
      else analyze_images labels n images keywords
  end.
Definition analyze (input : TopicInput) : Res string (option Keywords) :=
  let labels := usable_labels (in_existing_labels input) in
  let body := text_input (in_body input) in
  let? text :=
    if bool_decide (body = []) then Ok (Some [])
    else (let? ok := current 0 in
          if negb ok then Ok None else
          let? found := ask 0 (Ask_text labels body) in Ok (Some found)) in
  match text with
  | None => Ok None
  | Some text =>
      let? images := analyze_images labels 1 (take MAX_IMAGES (in_images input)) [] in
      Ok ((λ images, (text, images)) <$> images)
  end.
End analysis.

(** ** The life of a job *)

(** Where a worker is: in [load_input], which reads the body, the images and the labels
    and then checks that the job is still current, in [analyze], before [complete] or
    before [fail]. *)
Inductive Phase : Type :=
  | Ph_idle
  | Ph_body (job : TopicJob)
  | Ph_images (job : TopicJob) (body : str)
  | Ph_labels (job : TopicJob) (body : str) (images : list TopicImage)
  | Ph_check (job : TopicJob) (input : TopicInput)
  | Ph_analyze (job : TopicJob) (input : TopicInput)
  | Ph_complete (job : TopicJob) (keywords : Keywords)
  | Ph_retry (job : TopicJob).
Definition phase_job (p : Phase) : option TopicJob :=
  match p with
  | Ph_idle => None
  | Ph_body j | Ph_images j _ | Ph_labels j _ _ | Ph_check j _ | Ph_analyze j _ | Ph_complete j _
  | Ph_retry j => Some j
  end.

Section process.
Context `{TextTables}.

(** The next query of [process]; an answer of the model is given with the step. *)
Definition after_analysis (job : TopicJob) (r : Res string (option Keywords)) : Phase :=
  match r with Ok (Some keywords) => Ph_complete job keywords | _ => Ph_retry job end.
Definition process_step (now : Z) (p : Phase) (answer : Res string (option Keywords)) : TopicM Phase :=
  match p with
  | Ph_idle => st_ret Ph_idle
  | Ph_body job =>
      let! body := job_body now job in
      st_ret (match body with Some body => Ph_images job body | None => Ph_retry job end)
  | Ph_images job body =>
      let! images := job_images now job in st_ret (Ph_labels job body images)
  | Ph_labels job body images =>
      let! labels := job_labels job in st_ret (Ph_check job (mk_TopicInput body labels images))
  | Ph_check job input =>
      let! ok := job_current now job in
      st_ret (if ok : bool then Ph_analyze job input else Ph_retry job)
  | Ph_analyze job _ => st_ret (after_analysis job answer)
  | Ph_complete job (text, images) => complete now job text images;;; st_ret Ph_idle
  | Ph_retry job => fail now job;;; st_ret Ph_idle
  end.

(** Undisturbed, [process] runs these queries one after the other. [current] and [ask]
    answer the analysis. *)
Definition load_input (now : Z) (job : TopicJob) : TopicM (option TopicInput) :=
  let! body := job_body now job in
  match body with
  | None => st_ret None
  | Some body =>
      let! images := job_images now job in
      let! labels := job_labels job in
      let! ok := job_current now job in
      st_ret (if ok : bool then Some (mk_TopicInput body labels images) else None)
  end.
Definition process (now : Z) (current : nat → Res string bool)
    (ask : nat → Content → Res string (list str)) (job : TopicJob) : TopicM unit :=
  let! input := load_input now job in
  match input with
  | None => fail now job
  | Some input =>
      match analyze current ask input with
      | Ok (Some (text, images)) => complete now job text images
      | _ => fail now job
      end
  end.
End process.
