(* ===== verification/TopicLaws.v ===== *)
(** * TopicLaws: what a trigger and a batch change

    Each table after [refresh] and the other triggers, read one row at a time, and the
    conditions under which the rows of the view are found. *)

From Stdlib Require Import ZifyBool.
From stdpp Require Import base tactics numbers strings countable sorting gmap list.
From S2P Require Import Prelude RustStr Text Ids Models RepoState Sql TopicText Topics TopicStore.

Create Rewrite HintDb topics.

(** ** Tables a trigger leaves alone *)

Section refresh.
Implicit Types (db : TopicDb) (m i : MessageId).

Definition same_base (db db' : TopicDb) : Prop :=
  td_messages db' = td_messages db ∧ td_sequences db' = td_sequences db
  ∧ td_memberships db' = td_memberships db ∧ td_direct db' = td_direct db
  ∧ td_spaces db' = td_spaces db ∧ td_links db' = td_links db ∧ td_media db' = td_media db
  ∧ td_attachments db' = td_attachments db ∧ td_previews db' = td_previews db.

Lemma bump_revision_base m db : same_base db (bump_revision m db).
Proof. unfold bump_revision. by destruct (contains_key _ _). Qed.
Lemma refresh_job_base m db : same_base db (refresh_job m db).
Proof. unfold refresh_job. repeat case_match; done. Qed.
Lemma mark_dirty_base m db : same_base db (mark_dirty m db).
Proof. unfold mark_dirty. by destruct (is_saved _ _). Qed.
Lemma same_base_trans db1 db2 db3 : same_base db1 db2 → same_base db2 db3 → same_base db1 db3.
Proof. unfold same_base. intuition congruence. Qed.
Lemma refresh_base m db : same_base db (refresh m db).
Proof.
  eapply same_base_trans; [apply (bump_revision_base m)|].
  eapply same_base_trans; [apply (refresh_job_base m)|].
  exact (mark_dirty_base m (clear_evidence m _)).
Qed.
Lemma refresh_settings m db : td_settings (refresh m db) = td_settings db.
Proof.
  unfold refresh, mark_dirty, clear_evidence, refresh_job, bump_revision. repeat case_match; done.
Qed.
Lemma refresh_all_base ms db : same_base db (refresh_all ms db).
Proof.
  revert db. induction ms as [|m ms IH]; intros db; [by repeat split|].
  eapply same_base_trans; [apply (refresh_base m)|apply IH].
Qed.

(** ** Tables a trigger changes *)

Lemma revision_of_refresh m db i :
  revision_of (refresh m db) i
  = (revision_of db i + if bool_decide (i = m) && contains_key m (td_messages db) then 1 else 0)%Z.
Proof.
  assert (td_revisions (refresh m db) = td_revisions (bump_revision m db)) as E.
  { unfold refresh, mark_dirty, clear_evidence, refresh_job. repeat case_match; done. }
  unfold revision_of at 1. rewrite E. unfold bump_revision.
  destruct (contains_key m (td_messages db)); simpl.
  - destruct (decide (i = m)) as [->|Hne].
    + rewrite lookup_insert_eq, bool_decide_true by done. done.
    + rewrite lookup_insert_ne, bool_decide_false by done. unfold revision_of. simpl. lia.
  - rewrite andb_false_r. unfold revision_of. lia.
Qed.
Lemma evidence_refresh m db k e :
  td_evidence (refresh m db) !! k = Some e ↔ td_evidence db !! k = Some e ∧ k.1.1 ≠ m.
Proof.
  assert (td_evidence (refresh m db)
          = delete_where (λ k _, bool_decide (k.1.1 = m)) (td_evidence db)) as ->.
  { unfold refresh, mark_dirty, clear_evidence, refresh_job, bump_revision. repeat case_match; done. }
  rewrite lookup_delete_where_Some, bool_decide_eq_false. done.
Qed.
Definition refreshes_job (db : TopicDb) (m : MessageId) : bool :=
  match td_messages db !! m with
  | Some row => live_row row && (enabled_in db (ChatMessage_channel_id row) || contains_key m (td_jobs db))
  | None => false
  end.
Lemma jobs_refresh m db :
  td_jobs (refresh m db)
  = match td_messages db !! m with
    | Some row => if refreshes_job db m
                  then <[m := from_option requeue (fresh_job (ChatMessage_channel_id row)) (td_jobs db !! m)]>
                         (td_jobs db)
                  else td_jobs db
    | None => td_jobs db
    end.
Proof.
  assert (td_jobs (refresh m db) = td_jobs (refresh_job m (bump_revision m db))) as ->.
  { unfold refresh, mark_dirty, clear_evidence. by case_match. }
  unfold refreshes_job, refresh_job, enabled_in, bump_revision.
  destruct (contains_key m (td_messages db)); simpl; destruct (td_messages db !! m) as [row|]; try done;
    by destruct (live_row row && _).
Qed.
Lemma jobs_refresh_ne m db i : i ≠ m → td_jobs (refresh m db) !! i = td_jobs db !! i.
Proof.
  intros Hne. rewrite jobs_refresh. repeat case_match; rewrite ?lookup_insert_ne by done; done.
Qed.
(** The job of the refreshed message starts again. *)
Lemma jobs_refresh_eq m db j :
  td_jobs (refresh m db) !! m = Some j →
  refreshes_job db m = true
  ∧ (∃ row, td_messages db !! m = Some row
       ∧ j = from_option requeue (fresh_job (ChatMessage_channel_id row)) (td_jobs db !! m))
  ∨ refreshes_job db m = false ∧ td_jobs db !! m = Some j.
Proof.
  rewrite jobs_refresh. unfold refreshes_job. destruct (td_messages db !! m) as [row|]; [|by right].
  case_match; [|by right]. rewrite lookup_insert_eq. intros [= <-]. left. eauto.
Qed.
Lemma jobs_refresh_kept m db i :
  is_Some (td_jobs db !! i) → is_Some (td_jobs (refresh m db) !! i).
Proof.
  intros Hj. destruct (decide (i = m)) as [->|Hne]; [|by rewrite jobs_refresh_ne].
  rewrite jobs_refresh. repeat case_match; rewrite ?lookup_insert_eq; eauto.
Qed.
End refresh.

Ltac base_rewrite H :=
  let E1 := fresh in let E2 := fresh in let E3 := fresh in let E4 := fresh in let E5 := fresh in
  let E6 := fresh in let E7 := fresh in let E8 := fresh in let E9 := fresh in
  pose proof H as (E1 & E2 & E3 & E4 & E5 & E6 & E7 & E8 & E9);
  rewrite ?E1, ?E2, ?E3, ?E4, ?E5, ?E6, ?E7, ?E8, ?E9; clear E1 E2 E3 E4 E5 E6 E7 E8 E9.

Lemma td_messages_refresh m db : td_messages (refresh m db) = td_messages db.
Proof. apply refresh_base. Qed.
Lemma td_sequences_refresh m db : td_sequences (refresh m db) = td_sequences db.
Proof. apply refresh_base. Qed.
Lemma td_memberships_refresh m db : td_memberships (refresh m db) = td_memberships db.
Proof. apply refresh_base. Qed.
Lemma td_spaces_refresh m db : td_spaces (refresh m db) = td_spaces db.
Proof. apply refresh_base. Qed.
Lemma td_links_refresh m db : td_links (refresh m db) = td_links db.
Proof. apply refresh_base. Qed.
Lemma td_media_refresh m db : td_media (refresh m db) = td_media db.
Proof. apply refresh_base. Qed.
Lemma td_attachments_refresh m db : td_attachments (refresh m db) = td_attachments db.
Proof. apply refresh_base. Qed.
Lemma td_previews_refresh m db : td_previews (refresh m db) = td_previews db.
Proof. apply refresh_base. Qed.
#[export] Hint Rewrite td_messages_refresh td_sequences_refresh td_memberships_refresh td_spaces_refresh
  td_links_refresh td_media_refresh td_attachments_refresh td_previews_refresh refresh_settings
  revision_of_refresh : topics.

(** A changed setting of one table. *)
Lemma source_rejoined_eq c u db :
  ∃ settings, source_rejoined c u db = db <| td_settings := settings |>
    ∧ ∀ i s', settings !! i = Some s' → ∃ s, td_settings db !! i = Some s ∧ ts_enabled s' = ts_enabled s
        ∧ (ts_backfill_after s' = ts_backfill_after s ∨ ts_backfill_after s' = Some 0%Z).
Proof.
  assert (db = db <| td_settings := td_settings db |>) as Hid by by destruct db.
  unfold source_rejoined. case_match; [|by eauto 8]. case_match; [|by eauto 8].
  eexists. split; [reflexivity|]. intros i s'. rewrite lookup_update_where.
  intros (s & Hs & ->)%fmap_Some. exists s. split; [done|]. by case_match; simpl; eauto.
Qed.

(** ** The link of a log entry *)

Definition links_unique (db : TopicDb) : Prop :=
  ∀ k1 k2 l1 l2 t, td_links db !! k1 = Some l1 → td_links db !! k2 = Some l2 →
    l_log l1 = Some t → l_log l2 = Some t → k1 = k2.
Lemma link_of_Some db t k l :
  link_of db t = Some (k, l) → td_links db !! k = Some l ∧ l_log l = Some t.
Proof. intros [Hl Hp%bool_decide_eq_true]%fetch_where_Some. done. Qed.
Lemma link_of_intro db t k l :
  links_unique db → td_links db !! k = Some l → l_log l = Some t → link_of db t = Some (k, l).
Proof.
  intros Hu Hl Ht. apply fetch_where_unique; [done|by apply bool_decide_eq_true|].
  intros k' l' Hl' Hp%bool_decide_eq_true. by eapply Hu.
Qed.
Lemma link_of_None db t k l : link_of db t = None → td_links db !! k = Some l → l_log l ≠ Some t.
Proof.
  intros Hn Hl. pose proof (fetch_where_None _ _ _ _ Hn Hl) as Hp. by apply bool_decide_eq_false in Hp.
Qed.
(** The link is determined by the rows that name the entry. *)
Lemma link_of_ext db db' t :
  links_unique db → links_unique db' →
  (∀ k l, l_log l = Some t → td_links db' !! k = Some l ↔ td_links db !! k = Some l) →
  link_of db' t = link_of db t.
Proof.
  intros Hu Hu' He. destruct (link_of db t) as [[k l]|] eqn:E.
  - apply link_of_Some in E as [Hl Ht]. apply link_of_intro; [done| |done]. by apply He.
  - destruct (link_of db' t) as [[k l]|] eqn:E'; [|done].
    apply link_of_Some in E' as [Hl Ht]. apply He in Hl; [|done]. by eapply link_of_None in E.
Qed.

(** The message an entry stands for. *)
Definition raw_id (db : TopicDb) (m : MessageId) : MessageId :=
  match link_of db m with Some ((_, source), _) => source | None => m end.

(** What the view shows of a message. *)
Lemma topic_source_Some db m source :
  topic_source db m = Some source →
  ∃ t s, td_messages db !! m = Some t ∧ live_row t = true
    ∧ sr_source source = raw_id db m ∧ td_messages db !! raw_id db m = Some s ∧ live_row s = true
    ∧ sr_body source = body_of s ∧ sr_source_channel source = ChatMessage_channel_id s
    ∧ sr_revision source = revision_of db (raw_id db m)
    ∧ sr_sender_name source = ChatMessage_sender_display_name s
    ∧ sr_saved_owner source = (λ l, l.1.1) <$> link_of db m
    ∧ (∀ owner, sr_saved_owner source = Some owner →
         is_Some (td_memberships db !! (ChatMessage_channel_id s, owner)) ∧ link_of db (raw_id db m) = None).
Proof.
  unfold topic_source, raw_id. intros Hs.
  destruct (td_messages db !! m) as [t|] eqn:Ht; [|done].
  destruct (live_row t) eqn:Hl; [|done].
  destruct (link_of db m) as [[[owner src] link]|] eqn:Hlink.
  - destruct (td_messages db !! src) as [s|] eqn:Hsrc; [|done].
    destruct (live_row s) eqn:Hls; simpl in Hs; [|done].
    case_bool_decide; simpl in Hs; [|done]. destruct (contains_key _ _) eqn:Hm; simpl in Hs; [|done].
    case_bool_decide as Hn; simpl in Hs; [done|]. simplify_eq. exists t, s. simpl.
    split_and!; try done. intros ? [= <-]. split; [by apply contains_key_true|].
    by apply eq_None_not_Some.
  - simplify_eq. exists t, t. simpl. split_and!; try done. 
Qed.
