(* ===== verification/TopicReach.v ===== *)
(** * TopicReach: every order of writes and worker steps

    The writes of the server, the readers and any number of workers as one step relation
    on a [TopicWorld]. Each transaction is one step; a worker holds what it has read so
    far between its steps, may fail at any query and may be lost at any time. New
    messages, channels, media and leases have identifiers that were never used. *)

From Stdlib Require Import ZifyBool.
From stdpp Require Import base tactics numbers strings countable sorting gmap list.
From S2P Require Import Prelude RustStr Text Ids Models RepoState Sql TopicText Topics TopicStore TopicWorker TopicLaws.

(** ** Writes *)

Inductive Write : Type :=
  | W_create_channel (c : ChannelId) (direct : bool) (creator : UserId)
  | W_join (c : ChannelId) (u : UserId) (role : MembershipRole)
  | W_set_role (c : ChannelId) (u : UserId) (role : MembershipRole)
  | W_leave (c : ChannelId) (u : UserId)
  | W_post (id : MessageId) (c : ChannelId) (parent : option MessageId) (sender : UserId)
      (name : DisplayName) (body : MessageBody) (at_ : DateTime)
  | W_update (id : MessageId) (body : MessageBody) (edited deleted : option DateTime)
  | W_delete (id : MessageId)
  | W_upload (media : MediaId) (c : ChannelId)
  | W_attach (m : MessageId) (media : MediaId) (position : N)
  | W_detach (media : MediaId)
  | W_set_preview (media : MediaId) (preview : PreviewRow)
  | W_delete_preview (media : MediaId)
  | W_open_space (fresh : ChannelId) (human : bool) (owner : UserId)
  | W_save_link (fresh_channel : ChannelId) (fresh : MessageId) (name : DisplayName) (body : MessageBody)
      (at_ : DateTime) (human : bool) (owner : UserId) (source : MessageId)
  | W_set_enabled (actor : UserId) (c : ChannelId) (enabled : bool).

Definition apply_write (w : Write) (db : TopicDb) : TopicDb :=
  match w with
  | W_create_channel c direct creator => create_channel c direct creator db
  | W_join c u role => join c u role db
  | W_set_role c u role => set_role c u role db
  | W_leave c u => leave c u db
  | W_post id c parent sender name body at_ => (transaction (post id c parent sender name body at_) db).2
  | W_update id body edited deleted => update_message id body edited deleted db
  | W_delete id => delete_message id db
  | W_upload media c => upload media c db
  | W_attach m media position => attach m media position db
  | W_detach media => detach media db
  | W_set_preview media preview => set_preview media preview db
  | W_delete_preview media => delete_preview media db
  | W_open_space fresh human owner => (transaction (open_personal_space fresh human owner) db).2
  | W_save_link fresh_channel fresh name body at_ human owner source =>
      (save_personal_link fresh_channel fresh name body at_ human owner source db).2
  | W_set_enabled actor c enabled => (set_enabled actor c enabled db).2
  end.

(** Fresh identifiers, and the foreign and primary keys of the attachments. *)
Definition write_ok (ids : gset MessageId) (db : TopicDb) (w : Write) : bool :=
  match w with
  | W_create_channel c _ _ => negb (contains_key c (td_sequences db))
  | W_post id _ _ _ _ _ _ => negb (bool_decide (id ∈ ids))
  | W_upload media _ =>
      negb (contains_key media (td_media db)) && negb (contains_key media (td_attachments db))
  | W_attach m media _ =>
      contains_key m (td_messages db) && contains_key media (td_media db)
      && negb (contains_key media (td_attachments db))
  | W_set_preview media _ => contains_key media (td_media db)
  | W_open_space fresh _ _ => negb (contains_key fresh (td_sequences db))
  | W_save_link fresh_channel fresh _ _ _ _ _ _ =>
      negb (contains_key fresh_channel (td_sequences db)) && negb (bool_decide (fresh ∈ ids))
  | _ => true
  end.
Definition new_ids (w : Write) : gset MessageId :=
  match w with
  | W_post id _ _ _ _ _ _ => {[id]}
  | W_save_link _ fresh _ _ _ _ _ _ => {[fresh]}
  | _ => ∅
  end.

(** ** Steps *)

Record TopicWorld : Type := mk_TopicWorld {
  tw_db : TopicDb; tw_now : Z; tw_ids : gset MessageId; tw_leases : gset Uuid;
  tw_workers : gmap N Phase }.
#[export] Instance TopicWorld_eta : Eta TopicWorld := λ w,
  mk_TopicWorld (tw_db w) (tw_now w) (tw_ids w) (tw_leases w) (tw_workers w).

Section steps.
Context `{TextTables}.
(** The keywords the model may answer with. *)
Context (says : Content → list str → Prop).

Inductive TopicStep : Type :=
  | S_write (w : Write)
  | S_time (now : Z)
  | S_start (worker : N)
  | S_refresh
  | S_backfill
  | S_claim (worker : N) (lease : Uuid) (backfill : bool)
  | S_process (worker : N) (answer : Res string (option Keywords))
  | S_interrupted (worker : N)
  | S_lost (worker : N).

(** The outcome of an analysis with answers of the model. *)
Definition analysis_ok (p : Phase) (answer : Res string (option Keywords)) : Prop :=
  match p with
  | Ph_analyze _ input =>
      ∃ current ask, (∀ n c kws, ask n c = Ok kws → says c kws) ∧ answer = analyze current ask input
  | _ => True
  end.

Definition set_phase (worker : N) (p : Phase) (w : TopicWorld) : TopicWorld :=
  w <| tw_workers := <[worker := p]> (tw_workers w) |>.

Inductive topic_step : TopicWorld → TopicStep → TopicWorld → Prop :=
  | step_write w op :
      write_ok (tw_ids w) (tw_db w) op = true →
      topic_step w (S_write op)
        (w <| tw_db := apply_write op (tw_db w) |> <| tw_ids := new_ids op ∪ tw_ids w |>)
  | step_time w now :
      (tw_now w ≤ now)%Z → topic_step w (S_time now) (w <| tw_now := now |>)
  | step_start w n :
      tw_workers w !! n = None → topic_step w (S_start n) (set_phase n Ph_idle w)
  | step_refresh w :
      topic_step w S_refresh (w <| tw_db := (refresh_saved_sources (tw_now w) (tw_db w)).2 |>)
  | step_backfill w :
      topic_step w S_backfill (w <| tw_db := (backfill (tw_now w) (tw_db w)).2 |>)
  | step_claim w n lease b r db' :
      tw_workers w !! n = Some Ph_idle → lease ∉ tw_leases w →
      claim_due (tw_now w) lease b (tw_db w) = (Ok r, db') →
      topic_step w (S_claim n lease b)
        (set_phase n (from_option Ph_body Ph_idle r)
           (w <| tw_db := db' |> <| tw_leases := {[lease]} ∪ tw_leases w |>))
  | step_process w n p answer p' db' :
      tw_workers w !! n = Some p → analysis_ok p answer →
      process_step (tw_now w) p answer (tw_db w) = (Ok p', db') →
      topic_step w (S_process n answer) (set_phase n p' (w <| tw_db := db' |>))
  | step_interrupted w n p job :
      tw_workers w !! n = Some p → phase_job p = Some job →
      topic_step w (S_interrupted n) (set_phase n (Ph_retry job) w)
  | step_lost w n :
      is_Some (tw_workers w !! n) → topic_step w (S_lost n) (set_phase n Ph_idle w).

Definition empty_topics : TopicDb :=
  mk_TopicDb ∅ ∅ ∅ ∅ ∅ ∅ ∅ ∅ ∅ ∅ ∅ ∅ ∅ ∅.
Definition topics_init (now : Z) : TopicWorld := mk_TopicWorld empty_topics now ∅ ∅ ∅.

Inductive topics_reach : TopicWorld → Prop :=
  | reach_start now : topics_reach (topics_init now)
  | reach_step w s w' : topics_reach w → topic_step w s w' → topics_reach w'.
End steps.

(** ** Well-formed tables *)

Record topics_wf (ids : gset MessageId) (db : TopicDb) : Prop := {
  wf_message i m : td_messages db !! i = Some m → ChatMessage_id m = i ∧ i ∈ ids;
  wf_sequence i m : td_messages db !! i = Some m →
    ∃ next, td_sequences db !! ChatMessage_channel_id m = Some next ∧ (1 ≤ seq_of m < next)%Z;
  wf_counter c next : td_sequences db !! c = Some next → (1 ≤ next)%Z;
  wf_numbers i1 i2 m1 m2 : td_messages db !! i1 = Some m1 → td_messages db !! i2 = Some m2 →
    ChatMessage_channel_id m1 = ChatMessage_channel_id m2 → seq_of m1 = seq_of m2 → i1 = i2;
  wf_links_unique : links_unique db;
  wf_link k l t : td_links db !! k = Some l → l_log l = Some t → is_Some (td_messages db !! t);
  wf_source k l : td_links db !! k = Some l → k.2 ∈ ids;
  wf_attached media m p : td_attachments db !! media = Some (m, p) → is_Some (td_messages db !! m);
  wf_job i j : td_jobs db !! i = Some j →
    (0 ≤ j_attempts j ≤ 3)%Z
    ∧ ∃ m, td_messages db !! i = Some m ∧ live_row m = true ∧ j_channel j = ChatMessage_channel_id m;
  wf_evidence k e : td_evidence db !! k = Some e →
    is_Some (td_jobs db !! k.1.1)
    ∧ ∃ m, td_messages db !! k.1.1 = Some m ∧ e_channel e = ChatMessage_channel_id m
           ∧ e_sequence e = seq_of m;
  wf_covered i m s : td_messages db !! i = Some m → live_row m = true →
    td_settings db !! ChatMessage_channel_id m = Some s → ts_enabled s = true →
    (∀ after, ts_backfill_after s = Some after → (seq_of m ≤ after)%Z) → is_Some (td_jobs db !! i) }.
