(* ===== verification/TopicWf.v ===== *)
(** * TopicWf: the tables stay well formed, and content changes with its revision

    Every write and every transaction of a worker keeps [topics_wf], and every one is an
    [evolves] step: a message whose revision is the same has the same body and pictures,
    a lease is never given back to a job, and evidence is only taken away (except by
    [complete]). *)

From Stdlib Require Import ZifyBool.
From stdpp Require Import base tactics numbers strings countable sorting gmap list.
From S2P Require Import Prelude RustStr Text Ids Models RepoState Sql TopicText Topics TopicStore TopicWorker TopicLaws TopicReach.

(** ** Content *)

(** A picture of a message, as its preview stands now. *)
Definition has_image (db : TopicDb) (s : MessageId) (c : ChannelId) (image : TopicImage) : Prop :=
  ∃ position preview, td_attachments db !! ti_id image = Some (s, position)
    ∧ td_media db !! ti_id image = Some c ∧ td_previews db !! ti_id image = Some preview
    ∧ ti_content_type image = p_content_type preview ∧ ti_bytes image = p_content preview.

Record same_row (m m' : ChatMessage) : Prop := {
  same_id : ChatMessage_id m' = ChatMessage_id m;
  same_channel : ChatMessage_channel_id m' = ChatMessage_channel_id m;
  same_sequence : ChatMessage_sequence m' = ChatMessage_sequence m;
  same_live : live_row m' = true → live_row m = true }.
Lemma same_row_refl m : same_row m m.
Proof. by split. Qed.
Lemma same_row_seq m m' : same_row m m' → seq_of m' = seq_of m.
Proof. intros Hr. unfold seq_of. by rewrite (same_sequence _ _ Hr). Qed.
#[export] Hint Resolve same_row_refl : sproyt.

(** The message [s] in the later tables [db'] and in the earlier ones. *)
Definition content_kept (db db' : TopicDb) (s : MessageId) (m m' : ChatMessage) : Prop :=
  revision_of db' s = revision_of db s →
  body_of m' = body_of m ∧ ∀ c image, has_image db' s c image ↔ has_image db s c image.

Record evolves (ids : gset MessageId) (db db' : TopicDb) : Prop := {
  ev_message s m' : td_messages db' !! s = Some m' → s ∉ ids ∨
    ∃ m, td_messages db !! s = Some m ∧ same_row m m'
      ∧ (revision_of db s ≤ revision_of db' s)%Z ∧ content_kept db db' s m m';
  ev_job i j' : td_jobs db' !! i = Some j' →
    j_revision j' = None ∧ j_lease j' = None ∨
    ∃ j, td_jobs db !! i = Some j ∧ (j_lease j' = None ∨ j_lease j' = j_lease j)
      ∧ j_revision j' = j_revision j ∧ raw_id db' i = raw_id db i;
  ev_evidence k e : td_evidence db' !! k = Some e →
    td_evidence db !! k = Some e ∧ raw_id db' k.1.1 = raw_id db k.1.1 }.

(** Nothing is said of a message before it exists, so [evolves] composes. *)
Lemma evolves_trans ids db1 db2 db3 :
  evolves ids db1 db2 → evolves ids db2 db3 → evolves ids db1 db3.
Proof.
  intros [M1 J1 E1] [M2 J2 E2]. split.
  - intros s m3 H3. destruct (M2 _ _ H3) as [?|(m2 & H2 & R2 & V2 & C2)]; [by left|].
    destruct (M1 _ _ H2) as [?|(m1 & H1 & R1 & V1 & C1)]; [by left|]. right. exists m1.
    split; [done|]. split; [|split; [lia|]].
    + destruct R1, R2. split; try congruence. auto.
    + intros Hr. destruct C2 as [B2 I2]; [lia|]. destruct C1 as [B1 I1]; [lia|].
      split; [congruence|]. intros c image. by rewrite I2.
  - intros i j3 H3. destruct (J2 _ _ H3) as [?|(j2 & H2 & L2 & R2 & W2)]; [by left|].
    destruct (J1 _ _ H2) as [[??]|(j1 & H1 & L1 & R1 & W1)].
    + left. split; [congruence|]. destruct L2; congruence.
    + right. exists j1. split_and!; [done| |congruence..]. destruct L1, L2; (left; congruence) || (right; congruence).
  - intros k e H3. destruct (E2 _ _ H3) as [H2 W2]. destruct (E1 _ _ H2) as [H1 W1].
    split; congruence.
Qed.

Lemma raw_id_links db db' i : td_links db' = td_links db → raw_id db' i = raw_id db i.
Proof. unfold raw_id, link_of. by intros ->. Qed.
Lemma has_image_tables db db' s c image :
  td_attachments db' = td_attachments db → td_media db' = td_media db → td_previews db' = td_previews db →
  has_image db' s c image ↔ has_image db s c image.
Proof. unfold has_image. by intros -> -> ->. Qed.

(** A change that does not touch what a message contains. *)
Lemma evolves_quiet ids db db' :
  (∀ s m', td_messages db' !! s = Some m' →
     s ∉ ids ∨ ∃ m, td_messages db !! s = Some m ∧ same_row m m' ∧ body_of m' = body_of m) →
  td_revisions db' = td_revisions db → td_links db' = td_links db →
  (∀ s c image, has_image db' s c image ↔ has_image db s c image) →
  (∀ i j', td_jobs db' !! i = Some j' → j_revision j' = None ∧ j_lease j' = None
     ∨ ∃ j, td_jobs db !! i = Some j ∧ (j_lease j' = None ∨ j_lease j' = j_lease j)
            ∧ j_revision j' = j_revision j) →
  td_evidence db' ⊆ td_evidence db → evolves ids db db'.
Proof.
  intros Hm Hv Hl Hi Hj He. assert (∀ s, revision_of db' s = revision_of db s) as Hr.
  { intros s. unfold revision_of. by rewrite Hv. }
  split.
  - intros s m' Hs. destruct (Hm _ _ Hs) as [?|(m & ? & ? & ?)]; [by left|right]. exists m. rewrite Hr.
    split_and!; [done|done|lia|]. intros _. done.
  - intros i j' Hj'. destruct (Hj _ _ Hj') as [?|(j & ? & ? & ?)]; [by left|right]. exists j.
    split_and!; try done. by apply raw_id_links.
  - intros k e Hk. split; [by eapply lookup_weaken|by apply raw_id_links].
Qed.
Lemma evolves_refl ids db : evolves ids db db.
Proof. apply evolves_quiet; try done; eauto 8 using same_row_refl. Qed.

(** A change to one message, followed by the trigger for it. *)
Lemma evolves_refresh ids db db1 m :
  (∀ s m', td_messages db1 !! s = Some m' →
     s ∉ ids ∨ ∃ m0, td_messages db !! s = Some m0 ∧ same_row m0 m'
                     ∧ (s ≠ m → body_of m' = body_of m0)) →
  td_revisions db1 = td_revisions db ∨ td_messages db1 !! m = None ∧ td_revisions db1 = delete m (td_revisions db) →
  (∀ s c image, s ≠ m → is_Some (td_messages db1 !! s) → has_image db1 s c image ↔ has_image db s c image) →
  (∀ i j, td_jobs db1 !! i = Some j → (i ≠ m → td_jobs db !! i = Some j)
     ∧ ∃ row, td_messages db1 !! i = Some row ∧ live_row row = true) →
  td_evidence db1 ⊆ td_evidence db →
  (∀ i, i ≠ m → is_Some (td_jobs db1 !! i) → raw_id db1 i = raw_id db i) →
  (∀ k e, td_evidence db1 !! k = Some e → is_Some (td_jobs db1 !! k.1.1)) →
  evolves ids db (refresh m db1).
Proof.
  intros Hm Hv Hi Hj He Hraw Hej.
  assert (∀ i, raw_id (refresh m db1) i = raw_id db1 i) as Hraw1
    by (intros; apply raw_id_links, refresh_base).
  assert (∀ s, s ≠ m → revision_of db1 s = revision_of db s) as Hrev.
  { intros s Hs. unfold revision_of. destruct Hv as [->|[_ ->]]; [done|]. by rewrite lookup_delete_ne. }
  split.
  - intros s m'. rewrite td_messages_refresh. intros Hs.
    destruct (Hm _ _ Hs) as [?|(m0 & H0 & Hrow & Hb)]; [by left|right]. exists m0.
    split; [done|]. split; [done|]. unfold content_kept. rewrite revision_of_refresh.
    destruct (decide (s = m)) as [->|Hne].
    + assert (contains_key m (td_messages db1) = true) as -> by (apply contains_key_true; eauto).
      rewrite bool_decide_true by done. simpl.
      assert (revision_of db1 m = revision_of db m) as -> by
        (unfold revision_of; destruct Hv as [->|[? _]]; [done|congruence]).
      split; lia.
    + rewrite bool_decide_false, Hrev by done. simpl. split; [lia|]. intros _. split; [by apply Hb|].
      intros c image. rewrite <- Hi by eauto. apply has_image_tables; apply refresh_base.
  - intros i j'. rewrite Hraw1. destruct (decide (i = m)) as [->|Hne].
    + intros [[_ (row & Hrow & ->)]|[Hno Hjob]]%jobs_refresh_eq.
      * left. by destruct (td_jobs db1 !! m).
      * destruct (Hj _ _ Hjob) as [_ (row & Hrow & Hlive)]. unfold refreshes_job in Hno.
        rewrite Hrow, Hlive in Hno. simpl in Hno. apply orb_false_iff in Hno as [_ Hno].
        apply contains_key_false in Hno. congruence.
    + rewrite jobs_refresh_ne by done. intros Hjob. right. exists j'.
      destruct (Hj _ _ Hjob) as [Hjob0 _]. split_and!; eauto.
  - intros k e [Hk Hne]%evidence_refresh. rewrite Hraw1. split; [by eapply lookup_weaken|]. eauto.
Qed.

(** ** Well-formedness of the parts of a write *)

(** The fields of [topics_wf] that a change leaves as they are. *)
Ltac wf_keep W :=
  try first
    [ exact (wf_message _ _ W) | exact (wf_sequence _ _ W) | exact (wf_counter _ _ W)
    | exact (wf_numbers _ _ W) | exact (wf_links_unique _ _ W) | exact (wf_link _ _ W)
    | exact (wf_source _ _ W) | exact (wf_attached _ _ W) | exact (wf_job _ _ W) | exact (wf_evidence _ _ W)
    | exact (wf_covered _ _ W) ].
Ltac wf_split W := split; wf_keep W.

Section wf.
Context (ids : gset MessageId).
Implicit Types (db : TopicDb).

(** Settings may change as long as no finished backfill appears. *)
Lemma wf_settings db settings :
  (∀ c s', settings !! c = Some s' → ts_enabled s' = true →
     ts_backfill_after s' = Some 0%Z
     ∨ ∃ s, td_settings db !! c = Some s ∧ ts_enabled s = true ∧ ts_backfill_after s' = ts_backfill_after s) →
  topics_wf ids db → topics_wf ids (db <| td_settings := settings |>).
Proof.
  intros Hs W. wf_split W. intros i m s' Hm Hl Hset Hen Hafter.
  destruct (Hs _ _ Hset Hen) as [H0|(s & Hs0 & Hen0 & Ha)].
  - destruct (wf_sequence _ _ W _ _ Hm) as (next & _ & Hge). specialize (Hafter _ H0). lia.
  - eapply (wf_covered _ _ W); eauto. intros after. rewrite <- Ha. apply Hafter.
Qed.
Lemma source_rejoined_wf c u db : topics_wf ids db → topics_wf ids (source_rejoined c u db).
Proof.
  intros W. destruct (source_rejoined_eq c u db) as (settings & -> & Hs). apply wf_settings; [|done].
  intros i s' Hi Hen. destruct (Hs _ _ Hi) as (s & Hs0 & He & [Ha|Ha]); [right|by left].
  exists s. split_and!; congruence.
Qed.
(** A channel that does not exist has no messages. *)
Lemma no_messages db c i m :
  topics_wf ids db → td_sequences db !! c = None → td_messages db !! i = Some m →
  ChatMessage_channel_id m ≠ c.
Proof. intros W Hc Hm E. destruct (wf_sequence _ _ W _ _ Hm) as (next & Hn & _). congruence. Qed.
Lemma new_channel_wf c db :
  td_sequences db !! c = None → topics_wf ids db →
  topics_wf ids (db <| td_sequences := <[c := 1%Z]> (td_sequences db) |>).
Proof.
  intros Hc W. pose proof (no_messages db c) as Hno. wf_split W.
  - intros i m Hm. destruct (wf_sequence _ _ W _ _ Hm) as (next & Hn & Hb). exists next. split; [|done].
    simpl. rewrite lookup_insert_ne; [done|]. intros E. by destruct (Hno _ _ W Hc Hm).
  - intros c' next. simpl. intros [[<- <-]|[? ?]]%lookup_insert_Some; [lia|by eapply W].
Qed.

Lemma refresh_wf m db : topics_wf ids db → topics_wf ids (refresh m db).
Proof.
  intros W. split; autorewrite with topics; wf_keep W.
  - intros k1 k2 l1 l2 t. rewrite td_links_refresh. apply W.
  - intros i j Hj. assert (td_jobs db !! i = Some j ∨ (i = m ∧ j_attempts j = 0%Z
      ∧ ∃ row, td_messages db !! m = Some row ∧ live_row row = true
               ∧ j_channel j = ChatMessage_channel_id row)) as [Hj0|(-> & Ha & row & Hrow & Hl & Hc)].
    { destruct (decide (i = m)) as [->|]; [|left; by rewrite jobs_refresh_ne in Hj].
      apply jobs_refresh_eq in Hj as [[Hr (row & Hrow & ->)]|[_ ?]]; [right|by left].
      unfold refreshes_job in Hr. rewrite Hrow in Hr. apply andb_prop in Hr as [Hl _].
      split; [done|]. destruct (td_jobs db !! m) as [j|] eqn:Hj; simpl; split; try done; exists row;
        split_and!; try done. apply W in Hj as [_ (row' & Hrow' & _ & ?)]. congruence. }
    + by apply W.
    + split; [lia|eauto].
  - intros k e [Hk _]%evidence_refresh. destruct (wf_evidence _ _ W _ _ Hk) as [Hj Hm].
    split; [by apply jobs_refresh_kept|done].
  - intros i row s Hrow Hl Hs Hen Ha. apply jobs_refresh_kept. by eapply W.
Qed.
Lemma refresh_all_wf ms db : topics_wf ids db → topics_wf ids (refresh_all ms db).
Proof. revert db. induction ms as [|m ms IH]; intros db W; [done|]. by apply IH, refresh_wf. Qed.

Lemma clear_evidence_wf m db : topics_wf ids db → topics_wf ids (clear_evidence m db).
Proof.
  intros W. wf_split W.
  intros k e. simpl. intros [Hk _]%lookup_delete_where_Some. by apply (wf_evidence _ _ W).
Qed.
End wf.

(** ** Messages *)

Section messages.
Context (ids : gset MessageId).
Implicit Types (db : TopicDb).

Lemma wf_ids_mono ids' db : ids ⊆ ids' → topics_wf ids db → topics_wf ids' db.
Proof.
  intros Hsub W. wf_split W.
  - intros i m [? ?]%(wf_message _ _ W). split; [done|set_solver].
  - intros k l ?%(wf_source _ _ W). set_solver.
Qed.
Lemma fresh_message db id : topics_wf ids db → id ∉ ids → td_messages db !! id = None.
Proof.
  intros W Hid. destruct (td_messages db !! id) eqn:E; [|done]. by apply (wf_message _ _ W) in E as [_ ?].
Qed.
Lemma fresh_job_none db id : topics_wf ids db → id ∉ ids → td_jobs db !! id = None.
Proof.
  intros W Hid. destruct (td_jobs db !! id) eqn:E; [|done].
  apply (wf_job _ _ W) in E as [_ (m & Hm & _)]. by rewrite (fresh_message db id) in Hm.
Qed.

Lemma insert_message_jobs m db i j :
  td_jobs (insert_message m db) !! i = Some j →
  td_jobs db !! i = Some j
  ∨ i = ChatMessage_id m ∧ live_row m = true ∧ j = fresh_job (ChatMessage_channel_id m).
Proof.
  unfold insert_message. case_match eqn:E; [|by left]. apply andb_prop in E as [E _]. simpl.
  intros [?|(-> & ? & ->)]%lookup_or_insert_Some; [by left|right; eauto].
Qed.
Lemma insert_message_base m db :
  td_messages (insert_message m db) = <[ChatMessage_id m := m]> (td_messages db)
  ∧ td_sequences (insert_message m db) = td_sequences db ∧ td_links (insert_message m db) = td_links db
  ∧ td_attachments (insert_message m db) = td_attachments db ∧ td_media (insert_message m db) = td_media db
  ∧ td_previews (insert_message m db) = td_previews db ∧ td_evidence (insert_message m db) = td_evidence db
  ∧ td_settings (insert_message m db) = td_settings db
  ∧ td_revisions (insert_message m db) = td_revisions db
  ∧ td_memberships (insert_message m db) = td_memberships db.
Proof. unfold insert_message. by case_match. Qed.
Lemma insert_message_job_kept m db i :
  is_Some (td_jobs db !! i) → is_Some (td_jobs (insert_message m db) !! i).
Proof.
  unfold insert_message. case_match; [|done]. simpl. unfold or_insert. case_match; [done|].
  intros ?. destruct (decide (i = ChatMessage_id m)) as [->|]; [by rewrite lookup_insert_eq|].
  by rewrite lookup_insert_ne.
Qed.
Lemma insert_message_covered m db s :
  td_settings db !! ChatMessage_channel_id m = Some s → ts_enabled s = true → live_row m = true →
  is_Some (td_jobs (insert_message m db) !! ChatMessage_id m).
Proof.
  intros Hs Hen Hl. unfold insert_message, enabled_in. simpl. rewrite Hs, Hen, Hl. simpl.
  unfold or_insert. case_match; [by eauto|]. by rewrite lookup_insert_eq.
Qed.

(** The message [post] writes, and the tables after it. *)
Definition posted (next : Z) (id : MessageId) (c : ChannelId) (parent : option MessageId) (sender : UserId)
    (name : DisplayName) (body : MessageBody) (at_ : DateTime) : ChatMessage :=
  mk_ChatMessage id c parent sender name body (mk_ChannelSequence (Z.to_N next)) at_ None None.
Lemma post_Ok id c parent sender name body at_ db u db' :
  post id c parent sender name body at_ db = (Ok u, db') →
  ∃ next, td_sequences db !! c = Some next
    ∧ db' = insert_message (posted next id c parent sender name body at_)
              (db <| td_sequences := <[c := (next + 1)%Z]> (td_sequences db) |>).
Proof. unfold post. intros Hp. ok_inv Hp. eauto. Qed.

Lemma posted_wf next id c parent sender name body at_ db :
  topics_wf ids db → id ∉ ids → td_sequences db !! c = Some next →
  let db' := insert_message (posted next id c parent sender name body at_)
               (db <| td_sequences := <[c := (next + 1)%Z]> (td_sequences db) |>) in
  topics_wf ({[id]} ∪ ids) db' ∧ evolves ids db db'.
Proof.
  intros W Hid Hc db'. set (m := posted _ _ _ _ _ _ _ _) in *.
  set (db1 := db <| td_sequences := <[c := (next + 1)%Z]> (td_sequences db) |>) in *.
  pose proof (wf_counter _ _ W _ _ Hc) as Hnext.
  assert (seq_of m = next) as Hseq by (unfold seq_of; simpl; lia).
  destruct (insert_message_base m db1) as (Em & Es & El & Ea & Eme & Ep & Ee & Ese & Er & _).
  fold db' in Em, Es, El, Ea, Eme, Ep, Ee, Ese, Er. simpl in Em.
  assert (∀ i x, td_messages db !! i = Some x → i ≠ id) as Hne.
  { intros i x Hx ->. by rewrite (fresh_message db id) in Hx. }
  assert (∀ i x, td_messages db !! i = Some x → td_messages db' !! i = Some x) as Hold.
  { intros i x Hx. rewrite Em, lookup_insert_ne; [done|]. apply not_eq_sym. by eapply Hne. }
  split.
  - split.
    + intros i x. rewrite Em. intros [[<- <-]|[_ [? ?]%(wf_message _ _ W)]]%lookup_insert_Some; set_solver.
    + intros i x. rewrite Em, Es. simpl. intros [[<- <-]|[_ Hx]]%lookup_insert_Some.
      * exists (next + 1)%Z. rewrite lookup_insert_eq, Hseq. split; [done|lia].
      * destruct (wf_sequence _ _ W _ _ Hx) as (n & Hn & Hb).
        destruct (decide (c = ChatMessage_channel_id x)) as [->|]; simplify_eq.
        -- exists (next + 1)%Z. rewrite lookup_insert_eq. split; [done|lia].
        -- exists n. by rewrite lookup_insert_ne.
    + intros c' n. rewrite Es. simpl. intros [[<- <-]|[_ Hn]]%lookup_insert_Some; [lia|by eapply W].
    + assert (∀ i x, td_messages db !! i = Some x → ChatMessage_channel_id x = c → seq_of x ≠ next) as Hlt.
      { intros i x Hx Hcx. destruct (wf_sequence _ _ W _ _ Hx) as (n & Hn & Hb). rewrite Hcx in Hn.
        simplify_eq. lia. }
      intros i1 i2 m1 m2. rewrite Em. intros [[<- <-]|[_ H1]]%lookup_insert_Some
        [[<- <-]|[_ H2]]%lookup_insert_Some; [done| | |by eapply (wf_numbers _ _ W)].
      * intros Hcc Hss. rewrite Hseq in Hss. by destruct (Hlt _ _ H2).
      * intros Hcc Hss. rewrite Hseq in Hss. by destruct (Hlt _ _ H1).
    + intros k1 k2 l1 l2 t. rewrite El. apply (wf_links_unique _ _ W).
    + intros k l t. rewrite El. intros Hl Ht. destruct (wf_link _ _ W _ _ _ Hl Ht) as [x Hx]. eauto.
    + intros k l. rewrite El. intros ?%(wf_source _ _ W). set_solver.
    + intros media i p. rewrite Ea. intros Ha. destruct (wf_attached _ _ W _ _ _ Ha) as [x Hx]. eauto.
    + intros i j [Hj|(-> & Hl & ->)]%insert_message_jobs; simpl.
      * destruct (wf_job _ _ W _ _ Hj) as [? (x & Hx & ? & ?)]. eauto 8.
      * split; [lia|]. exists m. by rewrite Em, lookup_insert_eq.
    + intros k e. rewrite Ee. intros [Hj (x & Hx & ? & ?)]%(wf_evidence _ _ W).
      split; [by apply insert_message_job_kept|eauto].
    + intros i x s. rewrite Em, Ese. intros [[<- <-]|[_ Hx]]%lookup_insert_Some Hl Hs Hen Hb.
      * by eapply (insert_message_covered m).
      * apply insert_message_job_kept. by eapply (wf_covered _ _ W).
  - apply evolves_quiet; try done.
    + intros s x. rewrite Em. intros [[<- <-]|[_ ?]]%lookup_insert_Some; eauto 6 using same_row_refl.
    + intros s c' image. by apply has_image_tables.
    + intros i j [?|(-> & _ & ->)]%insert_message_jobs; [right; eauto|by left].
    + by rewrite Ee.
Qed.
Lemma post_wf id c parent sender name body at_ db u db' :
  topics_wf ids db → id ∉ ids → post id c parent sender name body at_ db = (Ok u, db') →
  topics_wf ({[id]} ∪ ids) db' ∧ evolves ids db db'.
Proof. intros W Hid (next & Hc & ->)%post_Ok. by apply posted_wf. Qed.
End messages.

Section writes.
Context (ids : gset MessageId).
Implicit Types (db : TopicDb).

(** ** Editing and deleting *)

Lemma lookup_replaced db id old new i m :
  td_messages db !! id = Some old → same_row old new → <[id := new]> (td_messages db) !! i = Some m →
  ∃ m0, td_messages db !! i = Some m0 ∧ same_row m0 m ∧ (i ≠ id → m0 = m).
Proof.
  intros Ho Hr [[<- <-]|[? ?]]%lookup_insert_Some; [by exists old|].
  exists m. split_and!; [done|apply same_row_refl|done].
Qed.
(** The rows other tables refer to, when one message row is replaced. *)
Lemma replaced_rows db id old new :
  topics_wf ids db → td_messages db !! id = Some old → same_row old new →
  let ms := <[id := new]> (td_messages db) in
  (∀ i m, ms !! i = Some m → ChatMessage_id m = i ∧ i ∈ ids)
  ∧ (∀ i m, ms !! i = Some m →
       ∃ next, td_sequences db !! ChatMessage_channel_id m = Some next ∧ (1 ≤ seq_of m < next)%Z)
  ∧ (∀ i1 i2 m1 m2, ms !! i1 = Some m1 → ms !! i2 = Some m2 →
       ChatMessage_channel_id m1 = ChatMessage_channel_id m2 → seq_of m1 = seq_of m2 → i1 = i2)
  ∧ (∀ i, is_Some (td_messages db !! i) → is_Some (ms !! i)).
Proof.
  intros W Ho Hr ms. pose proof (lookup_replaced db id old new) as Hl. split_and!.
  - intros i m Hm. destruct (Hl _ _ Ho Hr Hm) as (m0 & H0 & R & _).
    rewrite (same_id _ _ R). by apply (wf_message _ _ W).
  - intros i m Hm. destruct (Hl _ _ Ho Hr Hm) as (m0 & H0 & R & _).
    rewrite (same_channel _ _ R), (same_row_seq _ _ R). by eapply (wf_sequence _ _ W).
  - intros i1 i2 m1 m2 H1 H2. destruct (Hl _ _ Ho Hr H1) as (n1 & ? & R1 & _).
    destruct (Hl _ _ Ho Hr H2) as (n2 & ? & R2 & _).
    rewrite (same_channel _ _ R1), (same_channel _ _ R2), (same_row_seq _ _ R1), (same_row_seq _ _ R2).
    by apply (wf_numbers _ _ W).
  - intros i Hi. unfold ms. destruct (decide (i = id)) as [->|]; [by rewrite lookup_insert_eq|].
    by rewrite lookup_insert_ne.
Qed.
Lemma replace_live_wf db id old new :
  topics_wf ids db → td_messages db !! id = Some old → same_row old new →
  live_row new = live_row old → topics_wf ids (db <| td_messages := <[id := new]> (td_messages db) |>).
Proof.
  intros W Ho Hr Hlive. destruct (replaced_rows db id old new W Ho Hr) as (R1 & R2 & R3 & R4).
  assert (∀ i m0, td_messages db !! i = Some m0 → ∃ m, <[id := new]> (td_messages db) !! i = Some m
    ∧ same_row m0 m ∧ live_row m = live_row m0) as Hex.
  { intros i m0 Hi. destruct (decide (i = id)) as [->|]; simplify_eq.
    - exists new. by rewrite lookup_insert_eq.
    - exists m0. rewrite lookup_insert_ne by done. split_and!; [done|apply same_row_refl|done]. }
  wf_split W; try done.
  - intros k l t Hl Ht. simpl. apply R4. by eapply (wf_link _ _ W).
  - intros media m p Ha. simpl. apply R4. by eapply (wf_attached _ _ W).
  - intros i j Hj. destruct (wf_job _ _ W _ _ Hj) as [Ha (m0 & Hm0 & Hl0 & Hc)]. split; [done|].
    destruct (Hex _ _ Hm0) as (m & Hm & R & Hl). exists m. rewrite Hl, (same_channel _ _ R). done.
  - intros k e He. destruct (wf_evidence _ _ W _ _ He) as [Hj (m0 & Hm0 & Hc & Hs)]. split; [done|].
    destruct (Hex _ _ Hm0) as (m & Hm & R & _). exists m.
    rewrite (same_channel _ _ R), (same_row_seq _ _ R). done.
  - intros i m s Hm Hl Hs Hen Hb. simpl in Hm.
    destruct (lookup_replaced db id old new i m) as (m0 & Hm0 & R & _); [done..|].
    rewrite (same_channel _ _ R) in Hs. rewrite (same_row_seq _ _ R) in Hb.
    eapply (wf_covered _ _ W); try done. by apply (same_live _ _ R).
Qed.
Lemma delete_job_jobs m db i j : td_jobs (delete_job m db) !! i = Some j ↔ td_jobs db !! i = Some j ∧ i ≠ m.
Proof. simpl. rewrite lookup_delete_Some. naive_solver. Qed.
Lemma delete_job_evidence m db k e :
  td_evidence (delete_job m db) !! k = Some e ↔ td_evidence db !! k = Some e ∧ k.1.1 ≠ m.
Proof. simpl. rewrite lookup_delete_where_Some, bool_decide_eq_false. done. Qed.

Lemma replace_deleted_wf db id old new :
  topics_wf ids db → td_messages db !! id = Some old → same_row old new → live_row new = false →
  topics_wf ids (delete_job id (db <| td_messages := <[id := new]> (td_messages db) |>)).
Proof.
  intros W Ho Hr Hdead. destruct (replaced_rows db id old new W Ho Hr) as (R1 & R2 & R3 & R4).
  wf_split W; try done.
  - intros k l t Hl Ht. simpl. apply R4. by eapply (wf_link _ _ W).
  - intros media m p Ha. simpl. apply R4. by eapply (wf_attached _ _ W).
  - intros i j [Hj Hne]%delete_job_jobs. destruct (wf_job _ _ W _ _ Hj) as [Ha (m0 & Hm0 & ?)].
    split; [done|]. exists m0. simpl. by rewrite lookup_insert_ne.
  - intros k e [He Hne]%delete_job_evidence. destruct (wf_evidence _ _ W _ _ He) as [[j Hj] (m0 & Hm0 & ?)].
    split; [exists j; by apply delete_job_jobs|]. exists m0. simpl. by rewrite lookup_insert_ne.
  - intros i m s. simpl. intros [[<- <-]|[Hne Hm]]%lookup_insert_Some Hl Hs Hen Hb; [congruence|].
    destruct (wf_covered _ _ W _ _ _ Hm Hl Hs Hen Hb) as [j Hj]. exists j. by rewrite lookup_delete_ne.
Qed.

Lemma update_message_step id body edited deleted db :
  topics_wf ids db →
  topics_wf ids (update_message id body edited deleted db)
  ∧ evolves ids db (update_message id body edited deleted db).
Proof.
  intros W. unfold update_message. destruct (td_messages db !! id) as [old|] eqn:Ho;
    [|split; [done|apply evolves_refl]].
  set (deleted' := match ChatMessage_deleted_at old with Some _ => _ | None => _ end).
  set (new := old <| ChatMessage_body := _ |> <| ChatMessage_edited_at := _ |>
    <| ChatMessage_deleted_at := _ |>).
  assert (same_row old new) as Hr.
  { split; try done. unfold live_row. rewrite !bool_decide_eq_true. simpl. subst deleted'. by case_match. }
  pose proof (lookup_replaced db id old new) as Hl.
  destruct (bool_decide _ && _) eqn:E.
  - apply andb_prop in E as [Eb%bool_decide_eq_true Ed%bool_decide_eq_true].
    assert (live_row new = live_row old) as El by by unfold live_row; rewrite Ed.
    split; [by eapply replace_live_wf|]. apply evolves_quiet; try done; [|by intros; right; eauto].
    intros s m' Hs. right. destruct (Hl _ _ Ho Hr Hs) as (m0 & Hm0 & R & Hne). exists m0.
    split_and!; try done. destruct (decide (s = id)) as [->|]; [|by rewrite Hne].
    simpl in Hs. rewrite lookup_insert_eq in Hs. by simplify_eq.
  - destruct (live_row new) eqn:Elive.
    + assert (live_row new = live_row old) as El by (rewrite Elive; symmetry; by apply Hr).
      pose proof (replace_live_wf db id old new W Ho Hr El) as W1. split; [by apply refresh_wf|].
      apply evolves_refresh; try done; [|by left|..].
      * intros s m' Hs. right. destruct (Hl _ _ Ho Hr Hs) as (m0 & Hm0 & R & Hne). exists m0.
        split_and!; try done. intros Hs'. by rewrite Hne.
      * intros i j Hj. split; [done|]. destruct (wf_job _ _ W1 _ _ Hj) as [_ (m & ? & ? & _)]. eauto.
      * intros k e He. by destruct (wf_evidence _ _ W1 _ _ He).
    + pose proof (replace_deleted_wf db id old new W Ho Hr Elive) as W1. split; [by apply refresh_wf|].
      apply evolves_refresh; try done; [|by left|..].
      * intros s m' Hs. right. destruct (Hl _ _ Ho Hr Hs) as (m0 & Hm0 & R & Hne). exists m0.
        split_and!; try done. intros Hs'. by rewrite Hne.
      * intros i j Hj. pose proof Hj as [Hj0 _]%delete_job_jobs. split; [done|].
        destruct (wf_job _ _ W1 _ _ Hj) as [_ (m & ? & ? & _)]. eauto.
      * apply delete_where_subseteq.
      * intros k e He. by destruct (wf_evidence _ _ W1 _ _ He).
Qed.

(** The tables of [delete_message] before its trigger runs. *)
Definition erased (id : MessageId) (db : TopicDb) : TopicDb :=
  let db1 := delete_job id (db <| td_messages := delete id (td_messages db) |>) in
  db1 <| td_revisions := delete id (td_revisions db1) |>
      <| td_attachments := delete_where (λ _ a, bool_decide (a.1 = id)) (td_attachments db1) |>
      <| td_links := update_where (λ _ l, bool_decide (l_log l = Some id))
           (λ l, mk_SavedLink (l_source_channel l) None) (td_links db1) |>.
Lemma erased_links id db k l t :
  td_links (erased id db) !! k = Some l → l_log l = Some t → td_links db !! k = Some l ∧ t ≠ id.
Proof.
  simpl. rewrite lookup_update_where. intros (l0 & Hl0 & ->)%fmap_Some.
  case_bool_decide; simpl; [done|]. intros Ht. split; [done|]. intros ->. done.
Qed.
Lemma erased_links_eq id db k l t :
  t ≠ id → l_log l = Some t → td_links (erased id db) !! k = Some l ↔ td_links db !! k = Some l.
Proof.
  intros Hne Ht. split; [intros Hl; by eapply erased_links in Hl as [? _]|].
  simpl. rewrite lookup_update_where. intros ->. simpl. rewrite bool_decide_false; [done|congruence].
Qed.
Lemma erased_links_unique id db : links_unique db → links_unique (erased id db).
Proof.
  intros Hu k1 k2 l1 l2 t H1 H2 T1 T2. eapply erased_links in H1 as [H1 _]; [|done].
  eapply erased_links in H2 as [H2 _]; [|done]. by eapply Hu.
Qed.
Lemma erased_attachments id db media m p :
  td_attachments (erased id db) !! media = Some (m, p) ↔ td_attachments db !! media = Some (m, p) ∧ m ≠ id.
Proof. simpl. rewrite lookup_delete_where_Some, bool_decide_eq_false. done. Qed.

Lemma erased_wf id db : topics_wf ids db → topics_wf ids (erased id db).
Proof.
  intros W. wf_split W.
  - intros i m. simpl. intros [_ Hm]%lookup_delete_Some. by apply (wf_message _ _ W).
  - intros i m. simpl. intros [_ Hm]%lookup_delete_Some. by eapply (wf_sequence _ _ W).
  - intros i1 i2 m1 m2. simpl. intros [_ H1]%lookup_delete_Some [_ H2]%lookup_delete_Some.
    by apply (wf_numbers _ _ W).
  - by apply erased_links_unique, W.
  - intros k l t Hl Ht. eapply erased_links in Hl as [Hl Hne]; [|done]. simpl.
    rewrite lookup_delete_ne by done. by eapply (wf_link _ _ W).
  - intros k l. simpl. rewrite lookup_update_where. intros (l0 & Hl0 & _)%fmap_Some. by eapply (wf_source _ _ W).
  - intros media m p [Ha Hne]%erased_attachments. simpl. rewrite lookup_delete_ne by done.
    by eapply (wf_attached _ _ W).
  - intros i j. simpl. intros [Hne Hj]%lookup_delete_Some. destruct (wf_job _ _ W _ _ Hj) as [? (m & ? & ?)].
    split; [done|]. exists m. by rewrite lookup_delete_ne.
  - intros k e [He Hne]%delete_job_evidence. destruct (wf_evidence _ _ W _ _ He) as [? (m & ? & ?)].
    simpl. rewrite !lookup_delete_ne by done. eauto.
  - intros i m s. simpl. intros [Hne Hm]%lookup_delete_Some Hl Hs Hen Hb. rewrite lookup_delete_ne by done.
    by eapply (wf_covered _ _ W).
Qed.
Lemma delete_message_step id db :
  topics_wf ids db →
  topics_wf ids (delete_message id db) ∧ evolves ids db (delete_message id db).
Proof.
  intros W. change (delete_message id db) with (refresh id (erased id db)).
  pose proof (erased_wf id db W) as W1. split; [by apply refresh_wf|]. apply evolves_refresh.
  - intros s m. simpl. intros [Hne Hm]%lookup_delete_Some. right. exists m.
    split_and!; [done|apply same_row_refl|done].
  - right. simpl. by rewrite lookup_delete_eq.
  - intros s c image Hne _. unfold has_image. setoid_rewrite erased_attachments. naive_solver.
  - intros i j Hj. destruct (wf_job _ _ W1 _ _ Hj) as [_ (m & ? & ? & _)]. split; [|by eauto].
    intros _. simpl in Hj. by apply lookup_delete_Some in Hj as [_ ?].
  - apply delete_where_subseteq.
  - intros i Hne _. unfold raw_id. rewrite (link_of_ext db (erased id db)); [done|..].
    + apply W.
    + apply W1.
    + intros k l Hl. by eapply erased_links_eq.
  - intros k e He. by destruct (wf_evidence _ _ W1 _ _ He).
Qed.

(** ** Media *)

Lemma images_wf db db' :
  td_messages db' = td_messages db → td_sequences db' = td_sequences db → td_links db' = td_links db →
  td_jobs db' = td_jobs db → td_evidence db' = td_evidence db → td_settings db' = td_settings db →
  (∀ media m p, td_attachments db' !! media = Some (m, p) → is_Some (td_messages db !! m)) →
  topics_wf ids db → topics_wf ids db'.
Proof.
  intros Em Es El Ej Ee Ese Ha W.
  split; unfold links_unique; rewrite ?Em, ?Es, ?El, ?Ej, ?Ee, ?Ese; wf_keep W; done.
Qed.
(** A change to the pictures of the message [m] alone, followed by its trigger. *)
Lemma images_step m db db1 :
  topics_wf ids db → topics_wf ids db1 →
  td_messages db1 = td_messages db → td_links db1 = td_links db →
  td_jobs db1 = td_jobs db → td_evidence db1 = td_evidence db → td_revisions db1 = td_revisions db →
  (∀ s c image, s ≠ m → has_image db1 s c image ↔ has_image db s c image) →
  topics_wf ids (refresh m db1) ∧ evolves ids db (refresh m db1).
Proof.
  intros W W1 Em El Ej Ee Er Hi. split; [by apply refresh_wf|]. apply evolves_refresh; auto.
  - intros s m'. rewrite Em. intros Hs. right. exists m'. split_and!; [done|apply same_row_refl|done].
  - intros i j Hj. destruct (wf_job _ _ W1 _ _ Hj) as [_ (x & ? & ? & _)]. rewrite Ej in Hj. eauto.
  - by rewrite Ee.
  - intros i _ _. by apply raw_id_links.
  - intros k e He. by destruct (wf_evidence _ _ W1 _ _ He).
Qed.

Lemma attach_step m media position db :
  topics_wf ids db → write_ok ids db (W_attach m media position) = true →
  topics_wf ids (attach m media position db) ∧ evolves ids db (attach m media position db).
Proof.
  intros W Hok. simpl in Hok. apply andb_prop in Hok as [[Hm _]%andb_prop Hno%negb_true].
  apply contains_key_true in Hm. apply contains_key_false in Hno.
  apply images_step; try done.
  - eapply images_wf, W; try done. simpl.
    intros media' m' p [[<- [= <- <-]]|[_ Ha]]%lookup_insert_Some; [done|by eapply (wf_attached _ _ W)].
  - intros s c image Hne. unfold has_image. simpl. destruct (decide (ti_id image = media)) as [->|].
    + rewrite lookup_insert_eq, Hno. naive_solver.
    + by rewrite lookup_insert_ne.
Qed.
Lemma detach_step media db :
  topics_wf ids db → topics_wf ids (detach media db) ∧ evolves ids db (detach media db).
Proof.
  intros W. unfold detach. destruct (td_attachments db !! media) as [[m p]|] eqn:Ha;
    [|split; [done|apply evolves_refl]].
  apply images_step; try done.
  - eapply images_wf, W; try done. simpl. intros media' m' p' [_ Ha']%lookup_delete_Some.
    by eapply (wf_attached _ _ W).
  - intros s c image Hne. unfold has_image. simpl. destruct (decide (ti_id image = media)) as [->|].
    + rewrite lookup_delete_eq, Ha. naive_solver.
    + by rewrite lookup_delete_ne.
Qed.
(** A change to a preview: its message, if it is attached to one, is refreshed. *)
Lemma preview_step media previews db :
  (∀ media', media' ≠ media → previews !! media' = td_previews db !! media') → topics_wf ids db →
  let db' := refresh_all (messages_with media db) (db <| td_previews := previews |>) in
  topics_wf ids db' ∧ evolves ids db db'.
Proof.
  intros Hp W db'. set (db1 := db <| td_previews := previews |>) in *.
  assert (topics_wf ids db1) as W1 by (eapply images_wf, W; try done; by apply W).
  subst db'. unfold messages_with. destruct (td_attachments db !! media) as [[m p]|] eqn:Ha; simpl.
  - apply images_step; try done. intros s c image Hne. unfold has_image. simpl.
    destruct (decide (ti_id image = media)) as [->|]; [rewrite Ha; naive_solver|by rewrite Hp].
  - split; [done|]. apply evolves_quiet; try done.
    + intros s m' Hs. right. exists m'. split_and!; [done|apply same_row_refl|done].
    + intros s c image. unfold has_image. simpl.
      destruct (decide (ti_id image = media)) as [->|]; [rewrite Ha; naive_solver|by rewrite Hp].
    + intros; right; eauto.
Qed.

(** ** Channels, spaces and saved links *)

Lemma evolves_tables db db' :
  td_messages db' = td_messages db → td_revisions db' = td_revisions db → td_links db' = td_links db →
  td_attachments db' = td_attachments db → td_media db' = td_media db → td_previews db' = td_previews db →
  td_jobs db' = td_jobs db → td_evidence db' = td_evidence db → evolves ids db db'.
Proof.
  intros Em Er El Ea Eme Ep Ej Ee. apply evolves_quiet; auto.
  - intros s m'. rewrite Em. intros Hs. right. exists m'. split_and!; [done|apply same_row_refl|done].
  - intros s c image. by apply has_image_tables.
  - intros i j. rewrite Ej. intros; right; eauto.
  - by rewrite Ee.
Qed.
Lemma source_rejoined_evolves c u db : evolves ids db (source_rejoined c u db).
Proof. destruct (source_rejoined_eq c u db) as (settings & -> & _). by apply evolves_tables. Qed.

Lemma join_step c u role db :
  topics_wf ids db → topics_wf ids (join c u role db) ∧ evolves ids db (join c u role db).
Proof.
  intros W. split.
  - apply source_rejoined_wf. wf_split W.
  - eapply evolves_trans; [|apply source_rejoined_evolves]. by apply evolves_tables.
Qed.
Lemma create_channel_step c direct creator db :
  topics_wf ids db → td_sequences db !! c = None →
  topics_wf ids (create_channel c direct creator db) ∧ evolves ids db (create_channel c direct creator db).
Proof.
  intros W Hc. split.
  - apply source_rejoined_wf. pose proof (new_channel_wf ids c db Hc W) as W1. wf_split W1.
  - eapply evolves_trans; [|apply source_rejoined_evolves]. by apply evolves_tables.
Qed.
Lemma open_personal_space_step fresh human owner db c db' :
  topics_wf ids db → td_sequences db !! fresh = None →
  open_personal_space fresh human owner db = (Ok c, db') →
  topics_wf ids db' ∧ evolves ids db db' ∧ td_links db' = td_links db ∧ td_messages db' = td_messages db.
Proof.
  intros W Hf Ho. unfold open_personal_space, st_bind, ensure, get, modify, st_ret in Ho.
  destruct human; [|done]. destruct (td_spaces db !! owner).
  { injection Ho as <- <-. by split_and!; [|apply evolves_refl|..]. }
  injection Ho as <- <-. pose proof (new_channel_wf ids fresh db Hf W) as W1.
  destruct (join_step fresh owner MembershipRole_Member _ W1) as [W2 E2].
  set (db2 := join fresh owner _ _) in *.
  assert (td_links db2 = td_links db ∧ td_messages db2 = td_messages db) as [El Em].
  { unfold db2, join. match goal with |- context [source_rejoined ?c ?u ?d] =>
      by destruct (source_rejoined_eq c u d) as (settings & -> & _) end. }
  split_and!; try done.
  - assert (topics_wf ids (db2 <| td_settings :=
      or_insert fresh (mk_TopicSetting true (Some 0%Z) 0) (td_settings db2) |>)) as W3.
    { apply wf_settings; [|done]. intros i s'. intros [?|(-> & -> & _)]%lookup_or_insert_Some ?; [right|by left].
      by exists s'. }
    wf_split W3.
  - eapply evolves_trans; [|eapply evolves_trans; [exact E2|]]; by apply evolves_tables.
Qed.

(** The new link and the trigger for its log entry. *)
Definition linked (key : UserId * MessageId) (c : ChannelId) (log : MessageId) (db : TopicDb) : TopicDb :=
  db <| td_links := <[key := mk_SavedLink (from_option l_source_channel c (td_links db !! key)) (Some log)]>
          (td_links db) |>.
Lemma linked_step key c log db :
  topics_wf ids db → key.2 ∈ ids → is_Some (td_messages db !! log) →
  (∀ k l, td_links db !! k = Some l → l_log l ≠ Some log) →
  (∀ l old m, td_links db !! key = Some l → l_log l = Some old → td_messages db !! old = Some m →
     live_row m = false) →
  topics_wf ids (refresh log (linked key c log db)) ∧ evolves ids db (refresh log (linked key c log db)).
Proof.
  intros W Hlog Hm Hno Hold.
  assert (topics_wf ids (linked key c log db)) as W1.
  { wf_split W.
    - intros k1 k2 l1 l2 t. simpl. intros [[<- <-]|[N1 H1]]%lookup_insert_Some
        [[<- <-]|[N2 H2]]%lookup_insert_Some; simpl; [done| | |by eapply (wf_links_unique _ _ W)].
      + intros [= <-] ?. by destruct (Hno _ _ H2).
      + intros ? [= <-]. by destruct (Hno _ _ H1).
    - intros k l t. simpl. intros [[<- <-]|[_ Hl]]%lookup_insert_Some; simpl; [by intros [= <-]|].
      by eapply (wf_link _ _ W).
    - intros k l. simpl. intros [[<- <-]|[_ Hl]]%lookup_insert_Some; [done|by eapply (wf_source _ _ W)]. }
  split; [by apply refresh_wf|]. apply evolves_refresh; try done.
  - intros s m' Hs. right. exists m'. split_and!; [done|apply same_row_refl|done].
  - by left.
  - intros i j Hj. destruct (wf_job _ _ W1 _ _ Hj) as [_ (x & ? & ? & _)]. eauto.
  - intros i Hne [j Hj]. unfold raw_id. rewrite (link_of_ext db); [done|apply W|apply W1|].
    intros k l Hl. simpl. destruct (decide (k = key)) as [->|]; [|by rewrite lookup_insert_ne].
    rewrite lookup_insert_eq. split; [intros [= <-]; simpl in Hl; congruence|]. intros Hk.
    destruct (wf_job _ _ W _ _ Hj) as [_ (x & Hx & Hlive & _)].
    rewrite (Hold l i x) in Hlive; done.
  - intros k e He. by destruct (wf_evidence _ _ W1 _ _ He).
Qed.
End writes.

Lemma evolves_ids_mono ids ids' db db' : ids ⊆ ids' → evolves ids' db db' → evolves ids db db'.
Proof.
  intros Hsub [M J E]. split; [|done..]. intros s m' Hs. destruct (M _ _ Hs); [left; set_solver|by right].
Qed.
Lemma save_personal_link_step ids fresh_channel fresh name body at_ human owner source db r db' :
  topics_wf ids db → td_sequences db !! fresh_channel = None → fresh ∉ ids →
  save_personal_link fresh_channel fresh name body at_ human owner source db = (Ok r, db') →
  topics_wf ({[fresh]} ∪ ids) db' ∧ evolves ids db db'.
Proof.
  intros W Hc Hf Hs. unfold save_personal_link in Hs. rewrite transaction_Ok in Hs.
  apply st_bind_Ok in Hs as (c & db1 & Ho & Hs).
  destruct (open_personal_space_step ids _ _ _ _ _ _ W Hc Ho) as (W1 & E1 & El & Em).
  rewrite st_bind_Ok in Hs. destruct Hs as (? & ? & Hg & Hs). unfold get in Hg. injection Hg as <- <-.
  apply st_bind_Ok in Hs as (m & db1' & Hsrc & Hs). apply st_lift_ok_or_Ok in Hsrc as [Hsrc ->].
  assert (source ∈ ids) as Hsource.
  { destruct (td_messages db1 !! source) eqn:E; [|done]. by apply (wf_message _ _ W1) in E as [_ ?]. }
  case_match eqn:Eex; [ok_inv Hs; split; [by eapply wf_ids_mono, W1; set_solver|done]|].
  apply st_bind_Ok in Hs as (u & db2 & Hp & Hs). ok_inv Hs.
  destruct (post_wf ids _ _ _ _ _ _ _ _ _ _ W1 Hf Hp) as [W2 E2].
  apply post_Ok in Hp as (next & _ & Hdb2).
  match type of Hdb2 with _ = insert_message ?x ?d => destruct (insert_message_base x d) as (Em2 & _ & El2 & _) end.
  rewrite <- Hdb2 in Em2, El2. simpl in Em2, El2.
  destruct (linked_step ({[fresh]} ∪ ids) (owner, source) (ChatMessage_channel_id m) fresh db2)
    as [W3 E3]; [done|simpl; set_solver|by rewrite Em2, lookup_insert_eq|..].
  - intros k l Hl Ht. rewrite El2 in Hl. destruct (wf_link _ _ W1 _ _ _ Hl Ht) as [x Hx].
    by rewrite (fresh_message ids db1) in Hx.
  - intros l old x Hl Ht Hx. rewrite El2 in Hl. rewrite Em2 in Hx.
    apply lookup_insert_Some in Hx as [[<- <-]|[Hne Hx]].
    + destruct (wf_link _ _ W1 _ _ _ Hl Ht) as [x Hx]. by rewrite (fresh_message ids db1) in Hx.
    + by rewrite Hl, Ht, Hx in Eex.
  - split; [done|]. eapply evolves_trans; [exact E1|]. eapply evolves_trans; [exact E2|].
    by eapply evolves_ids_mono, E3; set_solver.
Qed.

Lemma set_enabled_Ok actor c enabled db r db' :
  set_enabled actor c enabled db = (Ok r, db') →
  ∃ role, td_memberships db !! (c, actor) = Some role ∧ can_manage (mk_Access role (enabled_in db c)
      (bool_decide (c ∈ td_direct db))) = true
  ∧ (enabled_in db c = enabled ∧ db' = db
     ∨ enabled_in db c ≠ enabled
       ∧ db' = db <| td_settings := <[c := mk_TopicSetting enabled (if enabled then Some 0%Z else None)
                (from_option ts_picked_at 0%Z (td_settings db !! c))]> (td_settings db) |>).
Proof.
  unfold set_enabled, summary, access, transaction, st_bind, st_lift, get, put, ensure, st_ret, channel_access.
  destruct (td_memberships db !! (c, actor)) as [role|] eqn:Hr; simpl; [|done].
  set (a := mk_Access _ _ _). destruct (can_manage a) eqn:Hm; [|done]. simpl.
  case_bool_decide as He; simpl; intros Hs; exists role; (split; [done|]); (split; [done|]).
  - left. rewrite Hr in Hs. simpl in Hs. by simplify_eq.
  - right. rewrite Hr in Hs. simpl in Hs. by simplify_eq.
Qed.
Lemma summary_state actor c db : (summary actor c db).2 = db.
Proof.
  unfold summary, access, st_bind, st_lift, get, st_ret. by destruct (channel_access db actor c).
Qed.
Lemma set_enabled_state actor c enabled db :
  (set_enabled actor c enabled db).2 = db
  ∨ (set_enabled actor c enabled db).2
    = db <| td_settings := <[c := mk_TopicSetting enabled (if enabled then Some 0%Z else None)
              (from_option ts_picked_at 0%Z (td_settings db !! c))]> (td_settings db) |>.
Proof.
  unfold set_enabled, access, transaction, st_bind, st_lift, get, put, ensure, st_ret.
  destruct (channel_access db actor c) as [a|]; simpl; [|by left].
  destruct (can_manage a) eqn:Hm; simpl; [|by left].
  case_bool_decide; simpl; rewrite summary_state; auto.
Qed.
Lemma set_enabled_step ids actor c enabled db :
  topics_wf ids db →
  topics_wf ids (set_enabled actor c enabled db).2 ∧ evolves ids db (set_enabled actor c enabled db).2.
Proof.
  intros W. destruct (set_enabled_state actor c enabled db) as [->| ->]; [split; [done|apply evolves_refl]|].
  split; [|by apply evolves_tables]. apply wf_settings; [|done]. intros i s' Hi Hen.
  apply lookup_insert_Some in Hi as [[<- <-]|[_ Hi]]; [left|right; by exists s']. simpl in *. by rewrite Hen.
Qed.

(** ** Every write *)

Lemma transaction_state {A} (m : TopicM A) db :
  (transaction m db).2 = db ∨ ∃ a, m db = (Ok a, (transaction m db).2).
Proof. unfold transaction. destruct (m db) as [[a| |] db'] eqn:E; [right|left..]; eauto. Qed.

Lemma write_step ids w db :
  topics_wf ids db → write_ok ids db w = true →
  topics_wf (new_ids w ∪ ids) (apply_write w db) ∧ evolves ids db (apply_write w db).
Proof.
  intros W Hok.
  assert (∀ db', topics_wf ids db' ∧ evolves ids db db' → topics_wf (new_ids w ∪ ids) db' ∧ evolves ids db db')
    as Hmono by (intros db' [W' E']; split; [by eapply wf_ids_mono, W'; set_solver|done]).
  assert (topics_wf ids db ∧ evolves ids db db) as Hsame by (split; [done|apply evolves_refl]).
  destruct w; simpl in Hok; simpl apply_write; simpl new_ids in *.
  - apply Hmono, create_channel_step; [done|]. by apply contains_key_false, negb_true.
  - by apply Hmono, join_step.
  - apply Hmono. split; [wf_split W|by apply evolves_tables].
  - apply Hmono. split; [wf_split W|by apply evolves_tables].
  - apply negb_true, bool_decide_eq_false in Hok.
    match goal with |- context [transaction ?m db] => destruct (transaction_state m db) as [->|[u Hp]] end.
    + by apply Hmono.
    + by eapply post_wf in Hp.
  - by apply Hmono, update_message_step.
  - by apply Hmono, delete_message_step.
  - apply andb_prop in Hok as [_ Hok%negb_true%contains_key_false]. apply Hmono. split; [wf_split W|].
    apply evolves_quiet; try done.
    + intros s m' Hs. right. exists m'. split_and!; [done|apply same_row_refl|done].
    + intros s c' image. unfold has_image. simpl. destruct (decide (ti_id image = media)) as [->|].
      * rewrite Hok. naive_solver.
      * by rewrite lookup_insert_ne.
    + intros; right; eauto.
  - by apply Hmono, attach_step.
  - by apply Hmono, detach_step.
  - apply Hmono. apply preview_step; [|done]. intros. by rewrite lookup_insert_ne.
  - apply Hmono. unfold delete_preview. case_match; [|done].
    apply preview_step; [|done]. intros. by rewrite lookup_delete_ne.
  - apply negb_true, contains_key_false in Hok. apply Hmono.
    match goal with |- context [transaction ?m db] => destruct (transaction_state m db) as [->|[c Hp]] end;
      [done|]. by eapply open_personal_space_step in Hp as (? & ? & _).
  - apply andb_prop in Hok as [Hc%negb_true%contains_key_false Hf%negb_true%bool_decide_eq_false].
    match goal with |- context [save_personal_link ?a ?b ?c ?d ?e ?f ?g ?h db] =>
      destruct (atomic_inv (save_personal_link a b c d e f g h) db _ _ (atomic_transaction _)
        (surjective_pairing _)) as [(r & _ & Hr)|[-> _]] end.
    + by eapply save_personal_link_step.
    + by apply Hmono.
  - by apply Hmono, set_enabled_step.
Qed.
