(* ===== verification/TopicInv.v ===== *)
(** * TopicInv: evidence stands for the present content

    The transactions of the workers keep the tables well formed, and the invariant
    [topics_inv] of the step relation: leases are never shared, what a worker has read
    is what its source contains as long as its job is current, and evidence of the
    present revision is an answer of the model about the present content. *)

From Stdlib Require Import ZifyBool.
From stdpp Require Import base tactics numbers strings countable sorting gmap list.
From S2P Require Import Prelude RustStr Text Ids Models RepoState Sql TopicText Topics TopicStore TopicWorker TopicLaws TopicReach TopicWf.

(** ** Batches *)

Section batches.
Context (ids : gset MessageId).
Implicit Types (db : TopicDb).

(** A job row may be replaced by one that starts again. *)
Lemma reset_job_step db i j m :
  topics_wf ids db → td_messages db !! i = Some m → live_row m = true →
  j_channel j = ChatMessage_channel_id m → (0 ≤ j_attempts j ≤ 3)%Z →
  (j_revision j = None ∧ j_lease j = None
   ∨ ∃ j0, td_jobs db !! i = Some j0 ∧ (j_lease j = None ∨ j_lease j = j_lease j0)
           ∧ j_revision j = j_revision j0) →
  let db' := db <| td_jobs := <[i := j]> (td_jobs db) |> in topics_wf ids db' ∧ evolves ids db db'.
Proof.
  intros W Hm Hl Hc Ha Hj db'.
  assert (∀ x, is_Some (td_jobs db !! x) → is_Some (td_jobs db' !! x)) as Hk.
  { intros x Hx. simpl. destruct (decide (x = i)) as [->|]; [by rewrite lookup_insert_eq|].
    by rewrite lookup_insert_ne. }
  split.
  - wf_split W.
    + intros x j'. simpl. intros [[<- <-]|[_ Hx]]%lookup_insert_Some; [eauto|by apply (wf_job _ _ W)].
    + intros k e [? ?]%(wf_evidence _ _ W). auto.
    + intros x mx s Hmx Hlx Hs Hen Hb. apply Hk. by eapply (wf_covered _ _ W).
  - apply evolves_quiet; try done.
    + intros s m' Hs. right. exists m'. split_and!; [done|apply same_row_refl|done].
    + intros x j'. simpl. intros [[<- <-]|[_ Hx]]%lookup_insert_Some; [done|right; eauto].
Qed.
Lemma refresh_log_job_step m db :
  topics_wf ids db → topics_wf ids (refresh_log_job m db) ∧ evolves ids db (refresh_log_job m db).
Proof.
  intros W. assert (topics_wf ids db ∧ evolves ids db db) as Hsame by (split; [done|apply evolves_refl]).
  unfold refresh_log_job. destruct (td_messages db !! m) as [row|] eqn:Hm; [|done].
  destruct (live_row row) eqn:Hl; simpl; [|done]. case_match; [|done].
  destruct (td_jobs db !! m) as [j|] eqn:Hj.
  - case_match; [done|]. eapply reset_job_step; eauto.
    + destruct (wf_job _ _ W _ _ Hj) as [_ (row' & Hm' & _ & ->)]. by simplify_eq.
    + simpl. case_bool_decide; lia.
  - eapply reset_job_step; eauto. simpl. case_bool_decide; lia.
Qed.
Lemma refresh_log_jobs_step batch db :
  topics_wf ids db →
  let db' := foldl (λ db m, refresh_log_job m db) db batch in topics_wf ids db' ∧ evolves ids db db'.
Proof.
  revert db. induction batch as [|m batch IH]; intros db W; simpl; [split; [done|apply evolves_refl]|].
  destruct (refresh_log_job_step m db W) as [W1 E1]. destruct (IH _ W1) as [W2 E2].
  split; [done|by eapply evolves_trans].
Qed.
Lemma fewer_evidence_step db evidence :
  topics_wf ids db → evidence ⊆ td_evidence db →
  let db' := db <| td_evidence := evidence |> in topics_wf ids db' ∧ evolves ids db db'.
Proof.
  intros W Hsub db'. split.
  - wf_split W. intros k e He. apply (wf_evidence _ _ W). by eapply lookup_weaken.
  - apply evolves_quiet; try done.
    + intros s m' Hs. right. exists m'. split_and!; [done|apply same_row_refl|done].
    + intros; right; eauto.
Qed.
Lemma refresh_saved_sources_step now db :
  topics_wf ids db →
  topics_wf ids (refresh_saved_sources now db).2 ∧ evolves ids db (refresh_saved_sources now db).2.
Proof.
  intros W. unfold refresh_saved_sources, transaction, st_bind, get, modify, st_ret.
  destruct (first_by _ _) as [[source dirty]|]; simpl; [|split; [done|apply evolves_refl]].
  destruct (last _) as [e|]; simpl; [|split; [wf_split W|by apply evolves_tables]].
  match goal with |- context [foldl _ db ?b] =>
    destruct (refresh_log_jobs_step b db W) as [W1 E1]; set (db1 := foldl _ db b) in *;
    destruct (fewer_evidence_step db1 (td_evidence (clear_stale_evidence b db1)) W1
      (delete_where_subseteq _ _)) as [W2 E2] end.
  split; [wf_split W2|]. eapply evolves_trans; [exact E1|]. eapply evolves_trans; [exact E2|].
  by apply evolves_tables.
Qed.

(** The jobs of a backfill batch. *)
Lemma lookup_backfill_fold now c (jobs : gmap MessageId JobRow) (batch : list MessageId) i :
  NoDup batch →
  foldl (λ jobs m, <[m := backfill_job now c (jobs !! m)]> jobs) jobs batch !! i
  = if bool_decide (i ∈ batch) then Some (backfill_job now c (jobs !! i)) else jobs !! i.
Proof.
  revert jobs. induction batch as [|m batch IH]; intros jobs Hnd; simpl; [done|].
  apply NoDup_cons in Hnd as [Hm Hnd]. rewrite IH by done. destruct (decide (i = m)) as [->|Hne].
  - rewrite lookup_insert_eq, bool_decide_false, bool_decide_true by set_solver. done.
  - rewrite lookup_insert_ne by done.
    by rewrite (bool_decide_ext (i ∈ m :: batch) (i ∈ batch)) by set_solver.
Qed.
Lemma lookup_backfill_jobs now c after e db i :
  backfill_jobs now c after e db !! i
  = match td_messages db !! i with
    | Some m => if in_batch c after e m then Some (backfill_job now c (td_jobs db !! i)) else td_jobs db !! i
    | None => td_jobs db !! i
    end.
Proof.
  unfold backfill_jobs. rewrite lookup_backfill_fold by apply NoDup_fst_map_to_list.
  set (rows := rows_where _ _). assert (i ∈ (map_to_list rows).*1 ↔ is_Some (rows !! i)) as Hin.
  { rewrite list_elem_of_fmap. split.
    - intros ([? v] & -> & Hv%elem_of_map_to_list). eauto.
    - intros [v Hv]. exists (i, v). by rewrite elem_of_map_to_list. }
  destruct (td_messages db !! i) as [m|] eqn:Hm.
  - destruct (in_batch c after e m) eqn:Eb.
    + rewrite bool_decide_true; [done|]. apply Hin. exists m. by apply lookup_rows_where_Some.
    + rewrite bool_decide_false; [done|]. rewrite Hin. intros [v Hv].
      apply lookup_rows_where_Some in Hv as [??]. congruence.
  - rewrite bool_decide_false; [done|]. rewrite Hin. intros [v Hv].
    apply lookup_rows_where_Some in Hv as [??]. congruence.
Qed.
Lemma backfill_jobs_step now c after e db :
  topics_wf ids db →
  let db' := db <| td_jobs := backfill_jobs now c after e db |> in
  topics_wf ids db' ∧ evolves ids db db'
  ∧ ∀ i m, td_messages db !! i = Some m → in_batch c after e m = true → is_Some (td_jobs db' !! i).
Proof.
  intros W db'.
  assert (∀ i j', td_jobs db' !! i = Some j' → td_jobs db !! i = Some j'
     ∨ j_revision j' = None ∧ j_lease j' = None ∧ j_attempts j' = 0%Z
       ∧ ∃ m, td_messages db !! i = Some m ∧ live_row m = true ∧ j_channel j' = ChatMessage_channel_id m) as Hj.
  { intros i j'. simpl. rewrite lookup_backfill_jobs. destruct (td_messages db !! i) as [m|] eqn:Hm; [|by left].
    destruct (in_batch c after e m) eqn:Eb; [|by left]. intros [= <-]. unfold in_batch in Eb.
    apply andb_prop in Eb as [[[Ec%bool_decide_eq_true _]%andb_prop _]%andb_prop El].
    destruct (td_jobs db !! i) as [j|] eqn:Hji; simpl; [|right; by eauto 10].
    destruct (exhausted now j); [|by left]. right. simpl. split_and!; try done. exists m.
    destruct (wf_job _ _ W _ _ Hji) as [_ (m' & Hm' & _ & ->)]. by simplify_eq. }
  assert (∀ i, is_Some (td_jobs db !! i) → is_Some (td_jobs db' !! i)) as Hk.
  { intros i Hi. simpl. rewrite lookup_backfill_jobs. repeat case_match; eauto. }
  split_and!.
  - wf_split W.
    + intros i j' [?|(_ & _ & -> & ?)]%Hj; [by apply (wf_job _ _ W)|]. split; [lia|done].
    + intros k ev [? ?]%(wf_evidence _ _ W). auto.
    + intros i m s Hm Hl Hs Hen Hb. apply Hk. by eapply (wf_covered _ _ W).
  - apply evolves_quiet; try done.
    + intros s m' Hs. right. exists m'. split_and!; [done|apply same_row_refl|done].
    + intros i j' [?|(? & ? & _)]%Hj; [right; eauto|by left].
  - intros i m Hm Hb. simpl. by rewrite lookup_backfill_jobs, Hm, Hb.
Qed.
End batches.

Lemma first_by_elem {A} (key : A → Z * N) l x : first_by key l = Some x → x ∈ l.
Proof.
  unfold first_by, sort_by_key. intros Hh. rewrite <- (merge_sort_Permutation (on_key pair_le key) l).
  destruct (merge_sort _ l); simplify_eq/=. set_solver.
Qed.
Lemma first_by_None {A} (key : A → Z * N) l : first_by key l = None → l = [].
Proof.
  unfold first_by, sort_by_key. intros Hh. apply Permutation_nil.
  rewrite <- (merge_sort_Permutation (on_key pair_le key) l). by destruct (merge_sort _ l).
Qed.
Lemma elem_of_pending db c after picked :
  (c, (after, picked)) ∈ pending_backfill db ↔
  ∃ s, td_settings db !! c = Some s ∧ ts_enabled s = true ∧ ts_backfill_after s = Some after
       ∧ ts_picked_at s = picked.
Proof.
  unfold pending_backfill. rewrite list_elem_of_omap. split.
  - intros ([c' s] & Hin%elem_of_map_to_list & Hs). simpl in Hs. repeat case_match; simplify_eq. eauto.
  - intros (s & Hs & Hen & Ha & Hp). exists (c, s). rewrite elem_of_map_to_list. split; [done|]. simpl.
    by rewrite Ha, Hen, Hp.
Qed.
Lemma elem_of_sequences_after db c after q :
  q ∈ sequences_after db c after ↔
  ∃ i m, td_messages db !! i = Some m ∧ ChatMessage_channel_id m = c ∧ (after < seq_of m)%Z ∧ q = seq_of m.
Proof.
  unfold sequences_after, sort_by_key. rewrite (merge_sort_Permutation (on_key Z.le id)), list_elem_of_omap. split.
  - intros ([i m] & Hin%elem_of_map_to_list & Hs). simpl in Hs.
    case_match eqn:E; [|done]. simplify_eq. apply andb_prop in E as [Ec%bool_decide_eq_true Ea%Z.ltb_lt]. eauto 8.
  - intros (i & m & Hm & Hc & Ha & ->). exists (i, m). rewrite elem_of_map_to_list. split; [done|]. simpl.
    rewrite bool_decide_true by done. apply Z.ltb_lt in Ha. by rewrite Ha.
Qed.
Lemma batch_end_None db c after i m :
  batch_end db c after = None → td_messages db !! i = Some m → ChatMessage_channel_id m = c →
  (seq_of m ≤ after)%Z.
Proof.
  unfold batch_end. intros Hn%last_None Hm Hc. destruct (decide (seq_of m ≤ after)%Z) as [|Hgt]; [done|].
  assert (seq_of m ∈ sequences_after db c after) as Hin by (apply elem_of_sequences_after; exists i, m; lia || by eauto with lia).
  destruct (sequences_after db c after); [set_solver|done].
Qed.

(** A batch: its jobs and the new position of the channel. *)
Definition backfilled (now : Z) (c : ChannelId) (after : Z) (db : TopicDb) : TopicDb :=
  let db1 := match batch_end db c after with
             | Some e => db <| td_jobs := backfill_jobs now c after e db |>
             | None => db end in
  db1 <| td_settings := alter (λ s, s <| ts_backfill_after := batch_end db c after |> <| ts_picked_at := now |>)
           c (td_settings db1) |>.
Lemma backfill_eq now db :
  (backfill now db).2
  = match first_by (λ r, (r.2.2, ChannelId_as_uuid r.1)) (pending_backfill db) with
    | None => db
    | Some (c, (after, _)) => backfilled now c after db
    end.
Proof.
  unfold backfill, transaction, st_bind, get, modify, st_ret, backfilled.
  destruct (first_by _ _) as [[c [after p]]|]; simpl; [|done]. by destruct (batch_end db c after).
Qed.
Lemma backfilled_step ids now c after db s :
  topics_wf ids db → td_settings db !! c = Some s → ts_enabled s = true → ts_backfill_after s = Some after →
  topics_wf ids (backfilled now c after db) ∧ evolves ids db (backfilled now c after db).
Proof.
  intros W Hs Hen Ha. unfold backfilled. destruct (batch_end db c after) as [e|] eqn:Ee.
  - destruct (backfill_jobs_step ids now c after e db W) as (W1 & E1 & Hb).
    set (db1 := db <| td_jobs := _ |>) in *. split; [|eapply evolves_trans; [exact E1|by apply evolves_tables]].
    wf_split W1. intros i m s' Hm Hl. simpl. intros Hs' Hen' Hafter.
    destruct (decide (c = ChatMessage_channel_id m)) as [->|Hne].
    + rewrite lookup_alter_eq in Hs'. simpl in Hs'. rewrite Hs in Hs'. injection Hs' as <-.
      specialize (Hafter e eq_refl). destruct (decide (seq_of m ≤ after)%Z) as [Hle|Hgt].
      * eapply (wf_covered _ _ W1); try done. intros ? ?. by simplify_eq.
      * eapply Hb; [done|]. unfold in_batch. rewrite Hl. rewrite bool_decide_true by done. lia.
    + rewrite lookup_alter_ne in Hs' by done. by eapply (wf_covered _ _ W1).
  - split; [|by apply evolves_tables]. wf_split W. intros i m s' Hm Hl. simpl. intros Hs' Hen' Hafter.
    destruct (decide (c = ChatMessage_channel_id m)) as [->|Hne].
    + eapply (wf_covered _ _ W); try done. intros ? ?. simplify_eq. by eapply batch_end_None.
    + rewrite lookup_alter_ne in Hs' by done. by eapply (wf_covered _ _ W).
Qed.
Lemma backfill_step ids now db :
  topics_wf ids db → topics_wf ids (backfill now db).2 ∧ evolves ids db (backfill now db).2.
Proof.
  intros W. rewrite backfill_eq. destruct (first_by _ _) as [[c [after p]]|] eqn:Ef;
    [|split; [done|apply evolves_refl]].
  apply first_by_elem, elem_of_pending in Ef as (s & Hs & Hen & Ha & _). by eapply backfilled_step.
Qed.

(** ** Claiming, failing and completing a job *)

Lemma claim_due_Ok now lease b db r db' :
  claim_due now lease b db = (Ok r, db') →
  r = None ∧ db' = db
  ∨ ∃ m j source, r = Some (mk_TopicJob m lease) ∧ td_jobs db !! m = Some j
      ∧ claimable db now b m j = true ∧ topic_source db m = Some source
      ∧ db' = db <| td_jobs := <[m := j <| j_lease := Some lease |> <| j_due := Some (now + LEASE_SECONDS)%Z |>
                   <| j_attempts := (j_attempts j + 1)%Z |>
                   <| j_revision := Some (sr_revision source) |>]> (td_jobs db) |>.
Proof.
  unfold claim_due, st_bind, get, put, st_ret. destruct (candidate db now b) as [[m j]|] eqn:Ec;
    intros; simplify_eq/=; [right|by left].
  apply first_by_elem in Ec. apply elem_of_map_to_list, lookup_rows_where_Some in Ec as [Hj Hc].
  assert (is_Some (topic_source db m)) as [source Hs].
  { unfold claimable in Hc. bool_facts. done. }
  exists m, j, source. rewrite Hs. done.
Qed.
Lemma claimed_wf ids db now b m j lease source :
  topics_wf ids db → td_jobs db !! m = Some j → claimable db now b m j = true →
  topics_wf ids (db <| td_jobs := <[m := j <| j_lease := Some lease |> <| j_due := Some (now + LEASE_SECONDS)%Z |>
                   <| j_attempts := (j_attempts j + 1)%Z |>
                   <| j_revision := Some (sr_revision source) |>]> (td_jobs db) |>).
Proof.
  intros W Hj Hc. destruct (wf_job _ _ W _ _ Hj) as [Ha (row & Hm & Hl & Hch)].
  assert (j_attempts j < 3)%Z as Hlt by (unfold claimable, MAX_ATTEMPTS in Hc; lia).
  assert (∀ x, is_Some (td_jobs db !! x) → is_Some (<[m := j <| j_lease := Some lease |>
    <| j_due := Some (now + LEASE_SECONDS)%Z |> <| j_attempts := (j_attempts j + 1)%Z |>
    <| j_revision := Some (sr_revision source) |>]> (td_jobs db) !! x)) as Hk.
  { intros x Hx. destruct (decide (x = m)) as [->|]; [by rewrite lookup_insert_eq|by rewrite lookup_insert_ne]. }
  wf_split W.
  - intros i j'. simpl. intros [[<- <-]|[_ Hi]]%lookup_insert_Some; [|by apply (wf_job _ _ W)].
    simpl. split; [lia|eauto].
  - intros k e [? ?]%(wf_evidence _ _ W). auto.
  - intros x mx s Hmx Hlx Hs Hen Hb. apply Hk. by eapply (wf_covered _ _ W).
Qed.
Lemma alter_as_insert `{Countable K} {V} (f : V → V) (m : gmap K V) k v :
  m !! k = Some v → alter f k m = <[k := f v]> m.
Proof.
  intros Hk. apply map_eq. intros i. destruct (decide (i = k)) as [->|].
  - by rewrite lookup_alter_eq, lookup_insert_eq, Hk.
  - by rewrite lookup_alter_ne, lookup_insert_ne.
Qed.
Lemma alter_absent `{Countable K} {V} (f : V → V) (m : gmap K V) k : m !! k = None → alter f k m = m.
Proof.
  intros Hk. apply map_eq. intros i. destruct (decide (i = k)) as [->|].
  - by rewrite lookup_alter_eq, Hk.
  - by rewrite lookup_alter_ne.
Qed.
Lemma fail_step ids now job db :
  topics_wf ids db → topics_wf ids (fail now job db).2 ∧ evolves ids db (fail now job db).2.
Proof.
  intros W. simpl. set (db' := db <| td_jobs := _ |>).
  destruct (td_jobs db !! tj_message job) as [j|] eqn:Hj.
  - destruct (wf_job _ _ W _ _ Hj) as [Ha (m & Hm & Hl & Hc)].
    assert (db' = db <| td_jobs := <[tj_message job := fail_job now (tj_lease job) j]> (td_jobs db) |>) as ->.
    { unfold db'. by rewrite (alter_as_insert _ _ _ _ Hj). }
    eapply reset_job_step; eauto; unfold fail_job; case_bool_decide; simpl; try done; right; eauto.
  - assert (db' = db) as ->; [|split; [done|apply evolves_refl]].
    unfold db'. rewrite alter_absent by done. by destruct db.
Qed.

Section complete.
Context `{TextTables}.

Definition evidence_row (m : ChatMessage) (c : ChannelId) (revision : Z) (label : str) : EvidenceRow :=
  mk_EvidenceRow c label revision ANALYZER_VERSION (seq_of m).
Lemma add_entries_inv m c r origin ev entries k e :
  foldl (add_evidence m c r origin) ev entries !! k = Some e →
  ev !! k = Some e
  ∨ ∃ key label, (key, label) ∈ entries ∧ k = (ChatMessage_id m, key, origin) ∧ e = evidence_row m c r label.
Proof.
  revert ev. induction entries as [|[key label] entries IH]; intros ev; simpl; [by left|].
  intros [Hk|(key' & label' & ? & ? & ?)]%IH; [|right; exists key', label'; set_solver].
  unfold add_evidence in Hk. apply lookup_or_insert_Some in Hk as [?|(-> & -> & _)]; [by left|].
  right. exists key, label. set_solver.
Qed.
Lemma add_answers_inv m c r ev answers k e :
  foldl (add_answer m c r) ev answers !! k = Some e →
  ev !! k = Some e
  ∨ ∃ origin kws key label, (origin, kws) ∈ answers ∧ normalize kws !! key = Some label
      ∧ k = (ChatMessage_id m, key, origin) ∧ e = evidence_row m c r label.
Proof.
  revert ev. induction answers as [|[origin kws] answers IH]; intros ev; simpl; [by left|].
  intros [Hk|(o & ks & key & label & ? & ? & ? & ?)]%IH; [|right; exists o, ks, key, label; set_solver].
  unfold add_answer in Hk. simpl in Hk. apply add_entries_inv in Hk as [?|(key & label & Hin & ? & ?)]; [by left|].
  apply elem_of_map_to_list in Hin. right. exists origin, kws, key, label. set_solver.
Qed.

(** The tables after a successful [complete]. *)
Definition completed (db : TopicDb) (i : MessageId) (j : JobRow) (m : ChatMessage) (text : list str)
    (images : list (MediaId * list str)) : TopicDb :=
  db <| td_jobs := <[i := j <| j_due := None |> <| j_lease := None |> <| j_attempts := 0%Z |>
                            <| j_version := Some ANALYZER_VERSION |>]> (td_jobs db) |>
     <| td_evidence := foldl (add_answer m (j_channel j) (default 0%Z (j_revision j)))
          (delete_where (λ k _, bool_decide (k.1.1 = i)) (td_evidence db)) (answers text images) |>.
Lemma job_source_Some db now job source :
  job_source db now job = Some source ↔
  ∃ j, td_jobs db !! tj_message job = Some j ∧ enabled_in db (j_channel j) = true
    ∧ j_lease j = Some (tj_lease job) ∧ (∃ at_, j_due j = Some at_ ∧ (now < at_)%Z)
    ∧ topic_source db (tj_message job) = Some source ∧ j_revision j = Some (sr_revision source).
Proof.
  unfold job_source, current_revision. split.
  - destruct (td_jobs db !! tj_message job) as [j|]; [|done]. case_match eqn:E; [|done]. intros Hs.
    rewrite Hs in E. bool_facts. case_match; [|done]. exists j. split_and!; try done.
    eexists. split; [done|]. lia.
  - intros (j & -> & -> & -> & (at_ & -> & Hlt) & -> & ->). rewrite !bool_decide_true by done.
    apply Z.ltb_lt in Hlt. by rewrite Hlt.
Qed.
Lemma complete_eq now job text images db :
  (complete now job text images db).2
  = match job_source db now job, td_jobs db !! tj_message job, td_messages db !! tj_message job with
    | Some _, Some j, Some m => completed db (tj_message job) j m text images
    | _, _, _ => db
    end.
Proof.
  unfold complete, complete_job, transaction, st_bind, get, modify, st_ret.
  destruct (job_source db now job) as [source|] eqn:Hs; simpl; [|done].
  apply job_source_Some in Hs as (j & -> & _ & _ & _ & Hsrc & _). simpl.
  apply topic_source_Some in Hsrc as (t & _ & -> & _). simpl. done.
Qed.

Lemma completed_evidence db i j m text images k e :
  td_evidence (completed db i j m text images) !! k = Some e →
  td_evidence db !! k = Some e ∧ k.1.1 ≠ i
  ∨ ∃ origin kws key label, (origin, kws) ∈ answers text images ∧ normalize kws !! key = Some label
      ∧ k = (ChatMessage_id m, key, origin)
      ∧ e = evidence_row m (j_channel j) (default 0%Z (j_revision j)) label.
Proof.
  intros Hk. destruct (add_answers_inv m (j_channel j) (default 0%Z (j_revision j)) _ _ k e Hk) as [Hd|?];
    [left|by right]. by rewrite lookup_delete_where_Some, bool_decide_eq_false in Hd.
Qed.
Lemma completed_wf ids db i j m text images :
  topics_wf ids db → td_jobs db !! i = Some j → td_messages db !! i = Some m →
  topics_wf ids (completed db i j m text images).
Proof.
  intros W Hj Hm. destruct (wf_job _ _ W _ _ Hj) as [Ha (m' & Hm' & Hl & Hc)]. simplify_eq.
  assert (∀ x, is_Some (td_jobs db !! x) → is_Some (td_jobs (completed db i j m text images) !! x)) as Hk.
  { intros x Hx. simpl. destruct (decide (x = i)) as [->|];
      [by rewrite lookup_insert_eq|by rewrite lookup_insert_ne]. }
  wf_split W.
  - intros x j'. simpl. intros [[<- <-]|[_ Hx]]%lookup_insert_Some; [|by apply (wf_job _ _ W)].
    simpl. split; [lia|eauto].
  - intros k e [[Hk' _]|(o & kws & key & label & _ & _ & -> & ->)]%completed_evidence.
    + destruct (wf_evidence _ _ W _ _ Hk') as [? ?]. auto.
    + simpl. destruct (wf_message _ _ W _ _ Hm) as [-> _]. split; [by apply Hk|]. exists m. by rewrite Hc.
  - intros x mx s Hmx Hlx Hs Hen Hb. apply Hk. by eapply (wf_covered _ _ W).
Qed.
End complete.

(** ** The invariant *)

Section inv.
Context `{TextTables} (says : Content → list str → Prop).

(** The message is in the answer for the content of [sm]. *)
Definition supported (db : TopicDb) (s : MessageId) (sm : ChatMessage) (origin : Origin) (key label : str) : Prop :=
  match origin with
  | Origin_text => ∃ labels kws,
      says (Ask_text labels (text_input (body_of sm))) kws ∧ normalize kws !! key = Some label
  | Origin_image id => ∃ labels image kws, ti_id image = id
      ∧ has_image db s (ChatMessage_channel_id sm) image
      ∧ says (Ask_image labels image) kws ∧ normalize kws !! key = Some label
  end.

Record jobs_inv (leases : gset Uuid) (db : TopicDb) : Prop := {
  ji_lease i j l : td_jobs db !! i = Some j → j_lease j = Some l → l ∈ leases;
  ji_unique i1 i2 j1 j2 l : td_jobs db !! i1 = Some j1 → td_jobs db !! i2 = Some j2 →
    j_lease j1 = Some l → j_lease j2 = Some l → i1 = i2;
  ji_revision i j r sm : td_jobs db !! i = Some j → j_revision j = Some r →
    td_messages db !! raw_id db i = Some sm → (r ≤ revision_of db (raw_id db i))%Z;
  ji_evidence k e sm : td_evidence db !! k = Some e → td_messages db !! raw_id db k.1.1 = Some sm →
    (e_revision e ≤ revision_of db (raw_id db k.1.1))%Z
    ∧ (e_revision e = revision_of db (raw_id db k.1.1) →
       supported db (raw_id db k.1.1) sm k.2 k.1.2 (e_label e)) }.

(** As long as the job is current, [P] holds of the message it stands for. *)
Definition while_current (db : TopicDb) (job : TopicJob) (P : MessageId → ChatMessage → Prop) : Prop :=
  ∀ j sm, td_jobs db !! tj_message job = Some j → j_lease j = Some (tj_lease job) →
    td_messages db !! raw_id db (tj_message job) = Some sm →
    j_revision j = Some (revision_of db (raw_id db (tj_message job))) →
    P (raw_id db (tj_message job)) sm.
Definition read_ok (db : TopicDb) (body : str) (images : list TopicImage) (s : MessageId) (sm : ChatMessage) : Prop :=
  body = body_of sm ∧ ∀ image, image ∈ images → has_image db s (ChatMessage_channel_id sm) image.
Definition found_ok (db : TopicDb) (text : list str) (images : list (MediaId * list str)) (s : MessageId)
    (sm : ChatMessage) : Prop :=
  (text = [] ∨ ∃ labels, says (Ask_text labels (text_input (body_of sm))) text)
  ∧ ∀ id kws, (id, kws) ∈ images → ∃ labels image, ti_id image = id
      ∧ has_image db s (ChatMessage_channel_id sm) image ∧ says (Ask_image labels image) kws.
Definition phase_ok (db : TopicDb) (p : Phase) : Prop :=
  match p with
  | Ph_images job body => while_current db job (read_ok db body [])
  | Ph_labels job body images => while_current db job (read_ok db body images)
  | Ph_check job input | Ph_analyze job input =>
      while_current db job (read_ok db (in_body input) (in_images input))
  | Ph_complete job (text, images) => while_current db job (found_ok db text images)
  | _ => True
  end.

Record topics_inv (w : TopicWorld) : Prop := {
  ti_wf : topics_wf (tw_ids w) (tw_db w);
  ti_jobs : jobs_inv (tw_leases w) (tw_db w);
  ti_lease n p job : tw_workers w !! n = Some p → phase_job p = Some job → tj_lease job ∈ tw_leases w;
  ti_distinct n1 n2 p1 p2 j1 j2 : tw_workers w !! n1 = Some p1 → tw_workers w !! n2 = Some p2 →
    phase_job p1 = Some j1 → phase_job p2 = Some j2 → tj_lease j1 = tj_lease j2 → n1 = n2;
  ti_phase n p : tw_workers w !! n = Some p → phase_ok (tw_db w) p }.

(** *** What the writes and batches leave in place *)

Definition same_content (db db' : TopicDb) (s : MessageId) (m m' : ChatMessage) : Prop :=
  body_of m' = body_of m ∧ ChatMessage_channel_id m' = ChatMessage_channel_id m
  ∧ ∀ c image, has_image db' s c image ↔ has_image db s c image.
Lemma supported_same db db' s m m' origin key label :
  same_content db db' s m m' → supported db s m origin key label → supported db' s m' origin key label.
Proof.
  intros (Hb & Hc & Hi). unfold supported. rewrite Hb, Hc. destruct origin; [done|].
  intros (labels & image & kws & ? & Him & ?). exists labels, image, kws. by rewrite Hi.
Qed.
Lemma read_ok_same db db' body images s m m' :
  same_content db db' s m m' → read_ok db body images s m → read_ok db' body images s m'.
Proof. intros (Hb & Hc & Hi) [-> Him]. split; [done|]. intros. rewrite Hc. apply Hi. auto. Qed.
Lemma found_ok_same db db' text images s m m' :
  same_content db db' s m m' → found_ok db text images s m → found_ok db' text images s m'.
Proof.
  intros (Hb & Hc & Hi) [Ht Him]. unfold found_ok. rewrite Hb, Hc. split; [done|].
  intros id kws Hin. destruct (Him _ _ Hin) as (labels & image & ? & ? & ?). exists labels, image.
  by rewrite Hi.
Qed.

Section evolve.
Context (ids : gset MessageId) (leases : gset Uuid) (db db' : TopicDb).
Context (W : topics_wf ids db) (E : evolves ids db db') (J : jobs_inv leases db).

Lemma raw_id_ids i : i ∈ ids → raw_id db i ∈ ids.
Proof.
  intros Hi. unfold raw_id. destruct (link_of db i) as [[[o s] l]|] eqn:El; [|done].
  apply link_of_Some in El as [Hl _]. by apply (wf_source _ _ W) in Hl.
Qed.
Lemma job_ids i j : td_jobs db !! i = Some j → i ∈ ids.
Proof.
  intros Hj. destruct (wf_job _ _ W _ _ Hj) as [_ (m & Hm & _)]. by apply (wf_message _ _ W) in Hm as [_ ?].
Qed.
Lemma evidence_ids k e : td_evidence db !! k = Some e → k.1.1 ∈ ids.
Proof.
  intros He. destruct (wf_evidence _ _ W _ _ He) as [_ (m & Hm & _)].
  by apply (wf_message _ _ W) in Hm as [_ ?].
Qed.
(** The message of a row that is still there. *)
Lemma evolved_message s m' :
  s ∈ ids → td_messages db' !! s = Some m' →
  ∃ m, td_messages db !! s = Some m ∧ (revision_of db s ≤ revision_of db' s)%Z
    ∧ (revision_of db' s = revision_of db s → same_content db db' s m m').
Proof.
  intros Hs Hm'. destruct (ev_message _ _ _ E _ _ Hm') as [?|(m & Hm & R & Hle & Hc)]; [done|].
  exists m. split_and!; [done..|]. intros Hr. destruct (Hc Hr) as [? ?].
  split_and!; [done|apply R|done].
Qed.
Lemma evolved_lease i j' l :
  td_jobs db' !! i = Some j' → j_lease j' = Some l →
  ∃ j, td_jobs db !! i = Some j ∧ j_lease j = Some l ∧ j_revision j' = j_revision j
       ∧ raw_id db' i = raw_id db i.
Proof.
  intros Hj' Hl. destruct (ev_job _ _ _ E _ _ Hj') as [[_ ?]|(j & Hj & [?|?] & ? & ?)]; [congruence..|].
  exists j. split_and!; congruence.
Qed.

Lemma jobs_inv_evolves : jobs_inv leases db'.
Proof.
  split.
  - intros i j' l Hj' Hl. destruct (evolved_lease _ _ _ Hj' Hl) as (j & Hj & Hl0 & _). by eapply J.
  - intros i1 i2 j1 j2 l H1 H2 L1 L2. destruct (evolved_lease _ _ _ H1 L1) as (k1 & K1 & M1 & _).
    destruct (evolved_lease _ _ _ H2 L2) as (k2 & K2 & M2 & _). by eapply (ji_unique _ _ J).
  - intros i j' r sm' Hj' Hr Hsm'. destruct (ev_job _ _ _ E _ _ Hj') as [[? _]|(j & Hj & _ & Hrev & Hraw)];
      [congruence|].
    rewrite Hraw in *. destruct (evolved_message _ _ (raw_id_ids _ (job_ids _ _ Hj)) Hsm') as (sm & Hsm & Hle & _).
    pose proof (ji_revision _ _ J i j r sm Hj ltac:(congruence) Hsm). lia.
  - intros k e sm' He Hsm'. destruct (ev_evidence _ _ _ E _ _ He) as [He0 Hraw]. rewrite Hraw in *.
    destruct (evolved_message _ _ (raw_id_ids _ (evidence_ids _ _ He0)) Hsm') as (sm & Hsm & Hle & Hc).
    destruct (ji_evidence _ _ J _ _ _ He0 Hsm) as [Hle0 Hs]. split; [lia|]. intros Heq.
    eapply supported_same; [apply Hc; lia|]. apply Hs. lia.
Qed.
Lemma while_current_evolves job (P P' : MessageId → ChatMessage → Prop) :
  (∀ s m m', same_content db db' s m m' → P s m → P' s m') →
  while_current db job P → while_current db' job P'.
Proof.
  intros HP Hw j' sm' Hj' Hl Hsm' Hrev.
  destruct (evolved_lease _ _ _ Hj' Hl) as (j & Hj & Hl0 & Hrev0 & Hraw). rewrite Hraw in *.
  destruct (evolved_message _ _ (raw_id_ids _ (job_ids _ _ Hj)) Hsm') as (sm & Hsm & Hle & Hc).
  assert (revision_of db' (raw_id db (tj_message job)) = revision_of db (raw_id db (tj_message job))) as Heq.
  { pose proof (ji_revision _ _ J _ _ _ sm Hj (eq_trans (eq_sym Hrev0) Hrev) Hsm). lia. }
  eapply HP; [by apply Hc|]. eapply Hw; eauto. congruence.
Qed.
Lemma phase_ok_evolves p : phase_ok db p → phase_ok db' p.
Proof.
  destruct p as [| | | | | |? [text images]|]; simpl; try done; apply while_current_evolves;
    eauto using read_ok_same, found_ok_same.
Qed.
End evolve.

(** *** What claiming and completing leave in place *)

Definition same_content_tables (db db' : TopicDb) : Prop :=
  td_messages db' = td_messages db ∧ td_links db' = td_links db ∧ td_revisions db' = td_revisions db
  ∧ td_attachments db' = td_attachments db ∧ td_media db' = td_media db ∧ td_previews db' = td_previews db.
Section tables.
Context (db db' : TopicDb) (T : same_content_tables db db').

Lemma tables_raw i : raw_id db' i = raw_id db i.
Proof. apply raw_id_links, T. Qed.
Lemma tables_revision s : revision_of db' s = revision_of db s.
Proof. unfold revision_of. by destruct T as (_ & _ & -> & _). Qed.
Lemma tables_content s m : same_content db db' s m m.
Proof. split_and!; try done. intros. apply has_image_tables; apply T. Qed.
Lemma tables_while_current job (P P' : MessageId → ChatMessage → Prop) :
  (∀ j, td_jobs db' !! tj_message job = Some j → j_lease j = Some (tj_lease job) →
     td_jobs db !! tj_message job = Some j) →
  (∀ s m m', same_content db db' s m m' → P s m → P' s m') →
  while_current db job P → while_current db' job P'.
Proof.
  intros Hj HP Hw j sm Hj' Hl. rewrite tables_raw, tables_revision. destruct T as (-> & _). intros Hsm Hr.
  eapply HP; [apply tables_content|]. by eapply Hw; eauto.
Qed.
Lemma tables_phase_ok p :
  (∀ job j, phase_job p = Some job → td_jobs db' !! tj_message job = Some j →
     j_lease j = Some (tj_lease job) → td_jobs db !! tj_message job = Some j) →
  phase_ok db p → phase_ok db' p.
Proof.
  intros Hj. destruct p as [| | | | | |? [text images]|]; simpl in *; try done; apply tables_while_current;
    eauto using read_ok_same, found_ok_same.
Qed.
End tables.

(** *** Steps *)

Lemma set_phase_inv w n p :
  topics_inv w →
  phase_job p = None ∨ (∃ p0, tw_workers w !! n = Some p0 ∧ phase_job p = phase_job p0) →
  phase_ok (tw_db w) p → topics_inv (set_phase n p w).
Proof.
  intros I Hp Hok. split; try apply I.
  - intros n' p' job. simpl. intros [[<- <-]|[_ Hn]]%lookup_insert_Some Hj; [|by eapply (ti_lease _ I)].
    destruct Hp as [?|(p0 & Hp0 & Heq)]; [congruence|]. eapply (ti_lease _ I); [done|congruence].
  - assert (∀ n' p' job, <[n := p]> (tw_workers w) !! n' = Some p' → phase_job p' = Some job →
      ∃ p0, tw_workers w !! n' = Some p0 ∧ phase_job p0 = Some job) as Hold.
    { intros n' p' job [[<- <-]|[_ Hn]]%lookup_insert_Some Hj; [|by eauto].
      destruct Hp as [?|(p0 & Hp0 & Heq)]; [congruence|]. exists p0. split; congruence. }
    intros n1 n2 p1 p2 j1 j2 H1 H2 J1 J2. destruct (Hold _ _ _ H1 J1) as (q1 & ? & ?).
    destruct (Hold _ _ _ H2 J2) as (q2 & ? & ?). by eapply (ti_distinct _ I).
  - intros n' p'. simpl. intros [[<- <-]|[_ Hn]]%lookup_insert_Some; [done|by eapply (ti_phase _ I)].
Qed.
Lemma evolve_inv w ids' db' :
  topics_inv w → topics_wf ids' db' → evolves (tw_ids w) (tw_db w) db' →
  topics_inv (w <| tw_db := db' |> <| tw_ids := ids' |>).
Proof.
  intros I W' E. split; simpl; try apply I; [done| |].
  - eapply jobs_inv_evolves; [apply I|done|apply I].
  - intros n p Hn. simpl. eapply phase_ok_evolves; [apply I|done|apply I|]. by eapply (ti_phase _ I).
Qed.
Lemma evolve_db_inv w db' :
  topics_inv w → topics_wf (tw_ids w) db' → evolves (tw_ids w) (tw_db w) db' →
  topics_inv (w <| tw_db := db' |>).
Proof. intros I W' E. by apply (evolve_inv w (tw_ids w) db'). Qed.

Lemma topic_claim_inv w n lease b r db' :
  topics_inv w → tw_workers w !! n = Some Ph_idle → lease ∉ tw_leases w →
  claim_due (tw_now w) lease b (tw_db w) = (Ok r, db') →
  topics_inv (set_phase n (from_option Ph_body Ph_idle r)
    (w <| tw_db := db' |> <| tw_leases := {[lease]} ∪ tw_leases w |>)).
Proof.
  intros I Hn Hfresh Hc.
  assert (jobs_inv ({[lease]} ∪ tw_leases w) (tw_db w)) as J0.
  { destruct (ti_jobs _ I). split; try assumption. intros i j l Hj Hl. set_solver. }
  apply claim_due_Ok in Hc as [[-> ->]|(m & j & source & -> & Hj & Hcl & Hsrc & ->)]; simpl.
  - apply set_phase_inv; [|by left|done]. split; try apply I; [done|]. intros n' p job Hn' Hp. pose proof (ti_lease _ I _ _ _ Hn' Hp). simpl. set_solver.
  - set (db' := (tw_db w) <| td_jobs := _ |>).
    assert (same_content_tables (tw_db w) db') as T by by split_and!.
    assert (∀ i j', td_jobs db' !! i = Some j' → td_jobs (tw_db w) !! i = Some j' ∧ i ≠ m
      ∨ i = m ∧ j_lease j' = Some lease ∧ j_revision j' = Some (sr_revision source)) as Hjobs.
    { intros i j'. simpl. intros [[<- <-]|[? ?]]%lookup_insert_Some; [by right|by left]. }
    pose proof (topic_source_Some _ _ _ Hsrc) as (t & s & _ & _ & _ & Hs & _ & _ & _ & Hrev & _).
    split.
    + eapply claimed_wf, Hcl; [apply I|done].
    + split.
      * intros i j' l [[Hj' _]|(-> & Hl & _)]%Hjobs Hl'; [|set_solver]. by eapply (ji_lease _ _ J0).
      * intros i1 i2 j1 j2 l [[H1 N1]|(-> & L1 & _)]%Hjobs [[H2 N2]|(-> & L2 & _)]%Hjobs M1 M2; [| | |done].
        -- by eapply (ji_unique _ _ J0).
        -- destruct Hfresh. pose proof (ji_lease _ _ (ti_jobs _ I) _ _ _ H1 M1). congruence.
        -- destruct Hfresh. pose proof (ji_lease _ _ (ti_jobs _ I) _ _ _ H2 M2). congruence.
      * intros i j' q sm. rewrite (tables_raw _ _ T), (tables_revision _ _ T).
        intros [[Hj' _]|(-> & _ & Hr)]%Hjobs Hq Hsm; [by eapply (ji_revision _ _ J0)|].
        rewrite Hr in Hq. simplify_eq. lia.
      * intros k e sm. rewrite (tables_raw _ _ T), (tables_revision _ _ T). intros He Hsm.
        destruct (ji_evidence _ _ J0 _ _ _ He Hsm) as [? Hsup]. split; [done|]. intros Heq.
        eapply supported_same; [by apply tables_content|]. by apply Hsup.
    + intros n' p job. simpl. intros [[<- <-]|[_ Hn']]%lookup_insert_Some Hp; simplify_eq/=; [set_solver|].
      pose proof (ti_lease _ I _ _ _ Hn' Hp). set_solver.
    + intros n1 n2 p1 p2 j1 j2. simpl. intros [[<- <-]|[N1 H1]]%lookup_insert_Some
        [[<- <-]|[N2 H2]]%lookup_insert_Some P1 P2 Heq; simplify_eq/=; [done| | |by eapply (ti_distinct _ I)].
      * destruct Hfresh. by eapply (ti_lease _ I).
      * destruct Hfresh. by eapply (ti_lease _ I).
    + intros n' p. simpl. intros [[<- <-]|[_ Hn']]%lookup_insert_Some; [done|].
      apply (tables_phase_ok _ _ T); [|by eapply (ti_phase _ I)].
      intros job j' Hp [[? _]|(_ & Hl & _)]%Hjobs Hl'; [done|]. destruct Hfresh.
      rewrite Hl in Hl'. simplify_eq. by eapply (ti_lease _ I).
Qed.

Lemma analyze_images_ok current ask labels images n found (all : list TopicImage) kws :
  (∀ n c kws, ask n c = Ok kws → says c kws) →
  analyze_images current ask labels n images found = Ok (Some kws) →
  (∀ id ks, (id, ks) ∈ found → ∃ image, image ∈ all ∧ ti_id image = id ∧ says (Ask_image labels image) ks) →
  (∀ image, image ∈ images → image ∈ all) →
  ∀ id ks, (id, ks) ∈ kws → ∃ image, image ∈ all ∧ ti_id image = id ∧ says (Ask_image labels image) ks.
Proof.
  intros Hask. revert n found. induction images as [|image images IH]; intros n found Ha Hfound Hall;
    simpl in Ha; [by simplify_eq|].
  destruct (usable_image image); [|by eapply IH; eauto; set_solver].
  destruct (current n) as [[]| |]; simpl in Ha; try done.
  destruct (ask n (Ask_image labels image)) as [ks| |] eqn:Ek; simpl in Ha; try done.
  eapply IH; [done| |set_solver]. intros id ks' [?|[= -> ->]%list_elem_of_singleton]%elem_of_app; [by apply Hfound|].
  exists image. split_and!; [set_solver|done|by eapply Hask].
Qed.
Lemma analyze_ok current ask input text images :
  (∀ n c kws, ask n c = Ok kws → says c kws) →
  analyze current ask input = Ok (Some (text, images)) →
  (text = [] ∨ ∃ labels, says (Ask_text labels (text_input (in_body input))) text)
  ∧ ∀ id kws, (id, kws) ∈ images →
      ∃ labels image, image ∈ in_images input ∧ ti_id image = id ∧ says (Ask_image labels image) kws.
Proof.
  intros Hask. unfold analyze. set (labels := usable_labels _). intros Ha.
  assert (∃ r, (if bool_decide (text_input (in_body input) = []) then Ok (Some [])
    else let? ok := current 0 in if negb ok then Ok None else
      let? found := ask 0 (Ask_text labels (text_input (in_body input))) in Ok (Some found)) = Ok r
    ∧ match r with None => False | Some text' => ∃ kws,
        analyze_images current ask labels 1 (take MAX_IMAGES (in_images input)) [] = Ok (Some kws)
        ∧ text = text' ∧ images = kws end) as ([text'|] & Htext & Hr); [|clear Ha|done].
  { destruct (if bool_decide _ then _ else _) as [r| |]; simpl in Ha; try done. exists r. split; [done|].
    destruct r as [text'|]; [|done].
    destruct (analyze_images _ _ _ _ _ _) as [[kws|]| |]; simpl in Ha; simplify_eq. eauto. }
  destruct Hr as (kws & Hkws & -> & ->). split.
  - case_bool_decide; simplify_eq; [by left|]. destruct (current 0) as [[]| |]; simpl in Htext; try done.
    destruct (ask 0 _) as [found| |] eqn:Ek; simpl in Htext; simplify_eq. right. eauto.
  - intros id ks Hin. destruct (analyze_images_ok current ask labels (take MAX_IMAGES (in_images input)) 1 []
      (in_images input) kws Hask Hkws) with id ks as (image & ? & ? & ?); eauto; [set_solver|].
    intros image Hi. by eapply elem_of_take in Hi as (? & Hi & _); eapply list_elem_of_lookup_2.
Qed.

(** Reading a current job yields the content of its source. *)
Lemma job_source_content db now job source j sm :
  job_source db now job = Some source → td_jobs db !! tj_message job = Some j →
  td_messages db !! raw_id db (tj_message job) = Some sm →
  sr_body source = body_of sm ∧ sr_source source = raw_id db (tj_message job)
  ∧ sr_source_channel source = ChatMessage_channel_id sm.
Proof.
  intros (j' & Hj & _ & _ & _ & Hs & _)%job_source_Some Hj' Hsm.
  apply topic_source_Some in Hs as (t & s & _ & _ & ? & Hs & _ & ? & ? & _). by simplify_eq.
Qed.
Lemma source_images_ok db source image position :
  (position, image) ∈ source_images db source →
  has_image db (sr_source source) (sr_source_channel source) image.
Proof.
  unfold source_images. rewrite list_elem_of_omap.
  intros ([media [m p]] & Hin%elem_of_map_to_list & Hs). simpl in Hs.
  destruct (td_media db !! media) as [c|] eqn:Hm; [|done].
  destruct (td_previews db !! media) as [preview|] eqn:Hp; [|done].
  case_match eqn:E; [|done]. simplify_eq. bool_facts. subst. by exists position, preview.
Qed.
Lemma job_images_ok db now job images db' sm :
  job_images now job db = (Ok images, db') → td_messages db !! raw_id db (tj_message job) = Some sm →
  ∀ image, image ∈ images → has_image db (raw_id db (tj_message job)) (ChatMessage_channel_id sm) image.
Proof.
  unfold job_images, gets. intros [= <- _] Hsm image.
  destruct (job_source db now job) as [source|] eqn:Hs; [|set_solver].
  pose proof Hs as (j & Hj & _)%job_source_Some.
  destruct (job_source_content _ _ _ _ _ _ Hs Hj Hsm) as (_ & Hraw & Hch). rewrite <- Hraw, <- Hch.
  intros (i & Hi & _)%elem_of_take. apply list_elem_of_lookup_2, list_elem_of_fmap in Hi as ([p im] & -> & Hi).
  unfold sort_by_key in Hi. rewrite merge_sort_Permutation in Hi. by eapply source_images_ok.
Qed.

Lemma completed_inv leases db i j m s sm text images :
  jobs_inv leases db → ChatMessage_id m = i → td_jobs db !! i = Some j →
  raw_id db i = s → td_messages db !! s = Some sm → j_revision j = Some (revision_of db s) →
  found_ok db text images s sm → jobs_inv leases (completed db i j m text images).
Proof.
  intros J Hid Hj Hraw Hsm Hrev [Htext Himages]. set (db' := completed _ _ _ _ _ _).
  assert (same_content_tables db db') as T by by split_and!.
  assert (∀ x j', td_jobs db' !! x = Some j' → ∃ j0, td_jobs db !! x = Some j0
    ∧ (j_lease j' = None ∨ j_lease j' = j_lease j0) ∧ j_revision j' = j_revision j0) as Hjobs.
  { intros x j'. simpl. intros [[<- <-]|[_ ?]]%lookup_insert_Some; eauto. }
  assert (∀ x j' l, td_jobs db' !! x = Some j' → j_lease j' = Some l →
    ∃ j0, td_jobs db !! x = Some j0 ∧ j_lease j0 = Some l) as Hlease.
  { intros x j' l Hx Hl. destruct (Hjobs _ _ Hx) as (j0 & ? & [?|?] & _); [congruence|]. exists j0. split; congruence. }
  split.
  - intros x j' l Hx Hl. destruct (Hlease _ _ _ Hx Hl) as (j0 & ? & ?). by eapply J.
  - intros x1 x2 j1 j2 l H1 H2 L1 L2. destruct (Hlease _ _ _ H1 L1) as (k1 & ? & ?).
    destruct (Hlease _ _ _ H2 L2) as (k2 & ? & ?). by eapply (ji_unique _ _ J).
  - intros x j' r sx. rewrite (tables_raw _ _ T), (tables_revision _ _ T). intros Hx Hr Hsx.
    destruct (Hjobs _ _ Hx) as (j0 & Hj0 & _ & Hr0). eapply (ji_revision _ _ J); [done|congruence|done].
  - intros k e sx. rewrite (tables_raw _ _ T), (tables_revision _ _ T).
    intros [[He _]|(origin & kws & key & label & Hin & Hnorm & -> & ->)]%completed_evidence Hsx; simpl.
    + destruct (ji_evidence _ _ J _ _ _ He Hsx) as [? Hsup]. split; [done|]. intros Heq.
      eapply supported_same; [by apply tables_content|]. by apply Hsup.
    + assert (sx = sm) as ->.
      { assert (td_messages db !! raw_id db (ChatMessage_id m) = Some sx) as Hsx' by exact Hsx. congruence. }
      rewrite Hid, Hraw, Hrev. simpl. split; [lia|]. intros _.
      eapply supported_same; [by apply tables_content|].
      apply elem_of_cons in Hin as [[= -> ->]|Hin].
      * destruct Htext as [->|[labels Hsays]]; [done|]. simpl. eauto.
      * apply list_elem_of_fmap in Hin as ([id ks] & [= -> ->] & Hin).
        apply elem_of_take in Hin as (x & Hx & _). apply list_elem_of_lookup_2 in Hx.
        destruct (Himages _ _ Hx) as (labels & image & ? & ? & ?). simpl. eauto 8.
Qed.

Lemma topic_complete_inv w n job text images :
  topics_inv w → tw_workers w !! n = Some (Ph_complete job (text, images)) →
  topics_inv (set_phase n Ph_idle (w <| tw_db := (complete (tw_now w) job text images (tw_db w)).2 |>)).
Proof.
  intros I Hn. set (db := tw_db w). apply set_phase_inv; [|by left|done]. rewrite complete_eq.
  destruct (job_source db (tw_now w) job) as [source|] eqn:Hs; [|by destruct w].
  pose proof Hs as (j & Hj & _ & Hl & _ & Hsrc & Hrev)%job_source_Some. rewrite Hj.
  apply topic_source_Some in Hsrc as (t & sm & Ht & _ & _ & Hsm & _ & _ & _ & Hsr & _). rewrite Ht.
  set (db' := completed _ _ _ _ _ _).
  assert (same_content_tables db db') as T by by split_and!.
  split; try apply I; simpl.
  - eapply completed_wf; [apply I|done..].
  - destruct (wf_message _ _ (ti_wf _ I) _ _ Ht) as [Hid _].
    rewrite Hsr in Hrev. eapply completed_inv; [apply I|done|done|reflexivity|done|done|].
    by eapply (ti_phase _ I _ _ Hn).
  - intros n' p Hn'. apply (tables_phase_ok _ _ T); [|by eapply (ti_phase _ I)].
    intros job' j' Hp. simpl. intros [[<- <-]|[_ ?]]%lookup_insert_Some; [done|done].
Qed.

Lemma process_inv w n p answer p' db' :
  topics_inv w → tw_workers w !! n = Some p → analysis_ok says p answer →
  process_step (tw_now w) p answer (tw_db w) = (Ok p', db') →
  topics_inv (set_phase n p' (w <| tw_db := db' |>)).
Proof.
  intros I Hn Hok Hp. pose proof (ti_phase _ I _ _ Hn) as Hph.
  assert (∀ q, phase_job q = None ∨ phase_job q = phase_job p → phase_ok (tw_db w) q →
    topics_inv (set_phase n q (w <| tw_db := tw_db w |>))) as Hset.
  { intros q Hq Hqok. assert (w <| tw_db := tw_db w |> = w) as -> by by destruct w.
    apply set_phase_inv; [done| |done]. destruct Hq; [by left|right; eauto]. }
  destruct p as [|job|job body|job body images|job input|job input|job [text images]|job];
    unfold process_step, st_bind in Hp; simpl in Hp, Hph.
  - injection Hp as <- <-. apply Hset; [by left|done].
  - unfold job_body, gets in Hp. injection Hp as <- <-.
    destruct (job_source (tw_db w) (tw_now w) job) as [source|] eqn:Hs; simpl; apply Hset; try done; [by right| |by right].
    intros j sm Hj _ Hsm _. destruct (job_source_content _ _ _ _ _ _ Hs Hj Hsm) as (? & _). split; [done|set_solver].
  - destruct (job_images (tw_now w) job (tw_db w)) as [r db1] eqn:Hi.
    assert (db1 = tw_db w) as -> by (unfold job_images, gets in Hi; by simplify_eq).
    destruct r as [images| |]; unfold st_ret in Hp; simplify_eq. apply Hset; [by right|].
    intros j sm Hj Hl Hsm Hr. split; [by destruct (Hph j sm Hj Hl Hsm Hr)|]. by eapply job_images_ok.
  - unfold job_labels, gets in Hp. injection Hp as <- <-. by apply Hset; [right|].
  - unfold job_current, gets in Hp. injection Hp as <- <-. case_bool_decide; apply Hset; try done; by right.
  - injection Hp as <- <-. destruct answer as [[[text images]|]| |]; simpl; apply Hset; try done; try by right.
    destruct Hok as (current & ask & Hask & Ha). symmetry in Ha. apply (analyze_ok current ask) in Ha as [Ht Hi]; [|done].
    intros j sm Hj Hl Hsm Hr. destruct (Hph j sm Hj Hl Hsm Hr) as [Hbody Himages]. split.
    + rewrite <- Hbody. done.
    + intros id kws Hin. destruct (Hi _ _ Hin) as (labels & image & ? & ? & ?). exists labels, image. auto.
  - destruct (complete (tw_now w) job text images (tw_db w)) as [r db1] eqn:Hc.
    assert (db1 = (complete (tw_now w) job text images (tw_db w)).2) as -> by by rewrite Hc.
    destruct r; unfold st_ret in Hp; simplify_eq. by eapply topic_complete_inv.
  - injection Hp as <- <-. apply set_phase_inv; [|by left|done].
    destruct (fail_step (tw_ids w) (tw_now w) job (tw_db w)) as [W' E']; [apply I|].
    by apply evolve_db_inv.
Qed.

Lemma topics_inv_step w s w' : topics_inv w → topic_step says w s w' → topics_inv w'.
Proof.
  intros I Hs. destruct Hs.
  - destruct (write_step (tw_ids w) op (tw_db w)) as [W' E']; [apply I|done|]. by apply evolve_inv.
  - split; apply I.
  - apply set_phase_inv; [done|by left|done].
  - destruct (refresh_saved_sources_step (tw_ids w) (tw_now w) (tw_db w)) as [W' E']; [apply I|].
    by apply evolve_db_inv.
  - destruct (backfill_step (tw_ids w) (tw_now w) (tw_db w)) as [W' E']; [apply I|]. by apply evolve_db_inv.
  - by eapply topic_claim_inv.
  - by eapply process_inv.
  - apply set_phase_inv; [done| |done]. right. eauto.
  - apply set_phase_inv; [done|by left|done].
Qed.
Lemma topics_inv_reach w : topics_reach says w → topics_inv w.
Proof.
  induction 1 as [now|w s w' _ IH Hs]; [|by eapply topics_inv_step].
  split; simpl; try done; split; try done.
Qed.
End inv.
