(* ===== verification/TopicProps.v ===== *)
(** * TopicProps: what topics promise

    Theorems about every reachable [TopicWorld]: topics name what a message says now,
    they are shown to those who may read it, one worker answers for a job, claiming finds
    work that is due, a backfill ends with a job for every message, and the pages of a
    topic show each of its messages once. *)

From Stdlib Require Import ZifyBool.
From stdpp Require Import base tactics numbers strings countable sorting gmap list.
From S2P Require Import Prelude RustStr Text Ids Models Policy RepoState Sql TopicText Topics TopicStore TopicWorker TopicLaws TopicReach TopicWf TopicInv.

#[local] Existing Instance demo_unicode.
#[local] Existing Instance demo_tables.

Section exec.
(** A model that answers every question at once. *)
Context (answer : Content → list str).

Definition demo_says (c : Content) (kws : list str) : Prop := kws = answer c.
Definition demo_analysis (p : Phase) : Res string (option Keywords) :=
  match p with
  | Ph_analyze _ input => analyze (λ _, Ok true) (λ _ c, Ok (answer c)) input
  | _ => Ok None
  end.
Inductive DemoStep : Type :=
  | D_write (w : Write) | D_start (n : N) | D_backfill | D_claim (n : N) (lease : Uuid) (backfill : bool)
  | D_process (n : N).
Definition exec_topics (w : TopicWorld) (s : DemoStep) : option TopicWorld :=
  match s with
  | D_write op =>
      if write_ok (tw_ids w) (tw_db w) op
      then Some (w <| tw_db := apply_write op (tw_db w) |> <| tw_ids := new_ids op ∪ tw_ids w |>) else None
  | D_start n =>
      match tw_workers w !! n with None => Some (set_phase n Ph_idle w) | Some _ => None end
  | D_backfill => Some (w <| tw_db := (backfill (tw_now w) (tw_db w)).2 |>)
  | D_claim n lease b =>
      match tw_workers w !! n with
      | Some Ph_idle =>
          if bool_decide (lease ∈ tw_leases w) then None else
          match claim_due (tw_now w) lease b (tw_db w) with
          | (Ok r, db') => Some (set_phase n (from_option Ph_body Ph_idle r)
              (w <| tw_db := db' |> <| tw_leases := {[lease]} ∪ tw_leases w |>))
          | _ => None
          end
      | _ => None
      end
  | D_process n =>
      match tw_workers w !! n with
      | Some p =>
          match process_step (tw_now w) p (demo_analysis p) (tw_db w) with
          | (Ok p', db') => Some (set_phase n p' (w <| tw_db := db' |>))
          | _ => None
          end
      | None => None
      end
  end.
Fixpoint exec_all (w : TopicWorld) (ss : list DemoStep) : option TopicWorld :=
  match ss with
  | [] => Some w
  | s :: ss => match exec_topics w s with Some w' => exec_all w' ss | None => None end
  end.

Lemma exec_topics_step w s w' :
  topics_reach demo_says w → exec_topics w s = Some w' → topics_reach demo_says w'.
Proof.
  intros Hr He. destruct s; simpl in He.
  - destruct (write_ok _ _ _) eqn:E; simplify_eq. by eapply reach_step; [|apply (step_write _ w)].
  - destruct (tw_workers w !! n) eqn:E; simplify_eq. by eapply reach_step; [|apply step_start].
  - simplify_eq. by eapply reach_step; [|apply step_backfill].
  - destruct (tw_workers w !! n) as [[]|] eqn:E; try done. case_bool_decide; [done|].
    destruct (claim_due _ _ _ _) as [[r| |] db'] eqn:Ec; simplify_eq.
    by eapply reach_step; [|eapply step_claim].
  - destruct (tw_workers w !! n) as [p|] eqn:E; [|done].
    destruct (process_step _ _ _ _) as [[p'| |] db'] eqn:Ep; simplify_eq.
    eapply reach_step; [done|]. eapply step_process; [done| |exact Ep].
    destruct p; try done. simpl. eexists _, _. split; [|done]. by intros _ c kws [= <-].
Qed.
Lemma exec_topics_reach w ss w' :
  topics_reach demo_says w → exec_all w ss = Some w' → topics_reach demo_says w'.
Proof.
  revert w. induction ss as [|s ss IH]; intros w Hr He; simpl in He; [by simplify_eq|].
  destruct (exec_topics w s) as [w1|] eqn:E; [|done]. eapply IH; [|done]. by eapply exec_topics_step.
Qed.
End exec.

(** ** The demonstration *)

Definition demo_answer (c : Content) : list str :=
  match c with Ask_text _ _ => [lit "Boats"; lit "the  Sea"] | Ask_image _ _ => [lit "Harbour"] end.
Definition ann : UserId := mk_UserId 1.
Definition ben : UserId := mk_UserId 2.
Definition port : ChannelId := mk_ChannelId 10.
Definition ben_space : ChannelId := mk_ChannelId 11.
Definition first_message : MessageId := mk_MessageId 100.
Definition log_message : MessageId := mk_MessageId 101.
Definition photo : MediaId := mk_MediaId 50.
Definition demo_setup : list DemoStep :=
  [ D_write (W_create_channel port false ann);
    D_write (W_post first_message port None ann (mk_DisplayName (lit "Ann"))
      (mk_MessageBody (lit "Boats at sea [[media:x|y]]")) 5);
    D_write (W_upload photo port);
    D_write (W_attach first_message photo 0);
    D_write (W_set_preview photo (mk_PreviewRow (lit "image/png") 3 [1; 2; 3]%N));
    D_write (W_set_enabled ann port true);
    D_backfill; D_start 0; D_claim 0 900 true; D_process 0 ].
Definition demo_work : list DemoStep :=
  [ D_process 0; D_process 0; D_process 0; D_process 0; D_process 0;
    D_write (W_join port ben MembershipRole_Member);
    D_write (W_save_link ben_space log_message (mk_DisplayName (lit "Ben"))
      (mk_MessageBody (lit "link")) 6 true ben first_message);
    D_claim 0 901 false; D_process 0; D_process 0; D_process 0; D_process 0; D_process 0; D_process 0 ].
Definition demo_reading : option TopicWorld := exec_all demo_answer (topics_init 1000) demo_setup.
Definition demo_done : option TopicWorld := exec_all demo_answer (topics_init 1000) (demo_setup ++ demo_work).

(** What the two readers see at the end: the page of "boats" in each channel, that
    Ann sees nothing of Ben's space, and that the images of a message have topics too. *)
Definition page_of (r : Res RepositoryError TopicPage * TopicDb) : option (list MessageId) :=
  match r with
  | (Ok page, _) => Some ((λ mt, tp_message_id (tm_preview mt)) <$> page_matches page)
  | _ => None
  end.
Definition demo_checks (w : TopicWorld) : bool :=
  bool_decide (page_of (matches ann port (lit "boats") 1000 (tw_db w)) = Some [first_message])
  && bool_decide (page_of (matches ann port (lit "harbour") 1000 (tw_db w)) = Some [first_message])
  && bool_decide (page_of (matches ben ben_space (lit "the sea") 1000 (tw_db w)) = Some [log_message])
  && bool_decide (page_of (matches ann ben_space (lit "the sea") 1000 (tw_db w)) = None)
  && (length (topic_messages (tw_db w) ann port (lit "boats") 1000) =? 1)
  && contains_key (port, ann) (td_memberships (tw_db w)).
Lemma demo_done_computed :
  match demo_done with Some w => demo_checks w | None => false end = true.
Proof. vm_compute. reflexivity. Qed.
Lemma demo_reading_computed :
  match demo_reading with
  | Some w => match tw_workers w !! 0%N with Some (Ph_images job _) =>
      bool_decide (is_Some (job_source (tw_db w) (tw_now w) job)) && bool_decide (tj_message job = first_message)
    | _ => false end
  | None => false
  end = true.
Proof. vm_compute. reflexivity. Qed.

#[export] Instance seq_ge_transitive : Transitive seq_ge.
Proof. intros x y z. unfold seq_ge. lia. Qed.
#[export] Instance seq_ge_antisymm : AntiSymm (=) seq_ge.
Proof. intros x y. unfold seq_ge. lia. Qed.
#[export] Instance seq_ge_total : Total seq_ge.
Proof. intros x y. unfold seq_ge. lia. Qed.

(** ** Lists *)

Lemma Sorted_on_key {A B} (R : relation B) (f : A → B) l : Sorted (on_key R f) l ↔ Sorted R (f <$> l).
Proof.
  split; [by apply (Sorted_fmap f (on_key R f))|].
  induction l as [|x l IH]; simpl; intros Hs; [done|]. inversion_clear Hs as [|? ? Hs' Hx].
  constructor; [by apply IH|]. destruct l; simpl in Hx; [done|]. inversion_clear Hx. by constructor.
Qed.
Lemma Sorted_take {A} (R : relation A) n (l : list A) : Sorted R l → Sorted R (take n l).
Proof.
  revert n. induction l as [|x l IH]; intros [|n] Hs; simpl; try done. inversion_clear Hs as [|? ? Hs' Hx].
  constructor; [by apply IH|]. destruct l, n; simpl; try done. inversion_clear Hx. by constructor.
Qed.
Lemma StronglySorted_filter {A} (R : relation A) (P : A → Prop) `{∀ x, Decision (P x)} (l : list A) :
  StronglySorted R l → StronglySorted R (filter P l).
Proof.
  induction 1 as [|x l Hs IH Hx]; [constructor|]. rewrite filter_cons. case_decide; [|done].
  constructor; [done|]. rewrite Forall_forall in *. intros y [_ ?]%list_elem_of_filter. auto.
Qed.
Lemma list_filter_all {A} (P : A → Prop) `{∀ x, Decision (P x)} (l : list A) :
  (∀ x, x ∈ l → P x) → filter P l = l.
Proof.
  induction l as [|x l IH]; intros Hl; [done|]. rewrite filter_cons_True by (apply Hl; set_solver).
  f_equal. apply IH. set_solver.
Qed.

Lemma strictly_sorted (l : list Z) :
  StronglySorted seq_ge l → NoDup l → StronglySorted (λ a b, (b < a)%Z) l.
Proof.
  induction 1 as [|x l Hs IH Hx]; [constructor|]. intros [Hn Hnd]%NoDup_cons. constructor; [by apply IH|].
  rewrite Forall_forall in *. intros y Hy. specialize (Hx y Hy). unfold seq_ge in Hx.
  assert (y ≠ x); [|lia]. intros ->. done.
Qed.

Section rows.
Context (db : TopicDb).
Definition row_list (l : list (MessageId * Z)) : list TopicMatch := omap (λ r, match_row db r.1) l.
(** Every entry has its row, in the same place. *)
Definition has_rows (l : list (MessageId * Z)) : Prop :=
  ∀ i q, (i, q) ∈ l → ∃ mt, match_row db i = Some mt ∧ tm_sequence mt = q.
Lemma row_list_sequences l : has_rows l → tm_sequence <$> row_list l = snd <$> l.
Proof.
  unfold row_list. induction l as [|[i q] l IH]; intros Hr; simpl; [done|].
  destruct (Hr i q) as (mt & -> & Hq); [set_solver|]. simpl. rewrite Hq. f_equal. apply IH.
  intros i' q' ?. apply Hr. set_solver.
Qed.
Lemma row_list_length l : has_rows l → length (row_list l) = length l.
Proof. intros Hr. by rewrite <- (length_fmap tm_sequence), row_list_sequences, length_fmap. Qed.
Lemma has_rows_take l n : has_rows l → has_rows (take n l).
Proof. intros Hr i q Hin. apply Hr. eapply sublist_subseteq; [apply sublist_take|done]. Qed.
Lemma row_list_take l n : has_rows l → row_list (take n l) = take n (row_list l).
Proof.
  unfold row_list. revert n. induction l as [|[i q] l IH]; intros [|n] Hr; simpl; try done.
  destruct (Hr i q) as (mt & -> & Hq); [set_solver|]. simpl. f_equal. apply IH.
  intros i' q' ?. apply Hr. set_solver.
Qed.
End rows.

Section pages.
Context (ids : gset MessageId) (db : TopicDb) (W : topics_wf ids db).

Lemma elem_of_visible viewer c k e :
  (k, e) ∈ visible_evidence db viewer c ↔
  td_evidence db !! k = Some e ∧ evidence_visible db viewer c k e = true.
Proof. unfold visible_evidence. by rewrite elem_of_map_to_list, lookup_rows_where_Some. Qed.
Lemma evidence_visible_true viewer c k e :
  evidence_visible db viewer c k e = true ↔
  e_channel e = c ∧ enabled_in db c = true ∧ is_Some (td_memberships db !! (c, viewer))
  ∧ ∃ source, topic_source db k.1.1 = Some source ∧ e_revision e = sr_revision source
      ∧ e_version e = ANALYZER_VERSION
      ∧ ∀ owner, sr_saved_owner source = Some owner → owner = viewer.
Proof.
  unfold evidence_visible, evidence_current. rewrite !andb_true_iff, bool_decide_eq_true, contains_key_true.
  destruct (topic_source db k.1.1) as [source|].
  - rewrite !andb_true_iff, !Z.eqb_eq. destruct (sr_saved_owner source) as [owner|] eqn:Eo.
    + rewrite bool_decide_eq_true. split.
      * intros (((? & ?) & ?) & ((? & ?) & [= ->])). split_and!; try done. exists source.
        split_and!; try done. intros. congruence.
      * intros (? & ? & ? & source' & [= <-] & ? & ? & Ho). split_and!; try done. by rewrite (Ho owner).
    + split.
      * intros (((? & ?) & ?) & ((? & ?) & _)). split_and!; try done. exists source.
        split_and!; try done. congruence.
      * intros (? & ? & ? & source' & [= <-] & ? & ? & _). done.
  - split; [by intros (_ & ?)|]. intros (_ & _ & _ & ? & ? & _). done.
Qed.

Definition in_topic (viewer : UserId) (c : ChannelId) (key : str) (i : MessageId) : Prop :=
  ∃ origin e, td_evidence db !! (i, key, origin) = Some e ∧ evidence_visible db viewer c (i, key, origin) e = true.
(** A message of a topic has the channel and the sequence number of its evidence, and a
    row in the page. *)
Lemma in_topic_row viewer c key i :
  in_topic viewer c key i →
  ∃ m source, td_messages db !! i = Some m ∧ ChatMessage_channel_id m = c ∧ topic_source db i = Some source
    ∧ match_row db i = Some (mk_TopicMatch (mk_TopicMatchPreview i (ChatMessage_parent_message_id m) (seq_of m)
        (sr_sender_name source) (take 1200 (sr_body source)) (sr_created_at source)) m).
Proof.
  intros (origin & e & He & Hv). apply evidence_visible_true in Hv as (Hc & _ & _ & source & Hs & _).
  destruct (wf_evidence _ _ W _ _ He) as [_ (m & Hm & Hch & _)]. exists m, source. simpl in *.
  split_and!; [done|congruence|done|]. unfold match_row. by rewrite Hm, Hs.
Qed.
Lemma elem_of_topic_messages viewer c key before i q :
  (i, q) ∈ topic_messages db viewer c key before ↔
  in_topic viewer c key i ∧ (q < before)%Z ∧ ∃ m, td_messages db !! i = Some m ∧ q = seq_of m.
Proof.
  unfold topic_messages. rewrite elem_of_remove_dups, list_elem_of_fmap. split.
  - intros ([[[i' key'] o] e] & [= -> ->] & Hin). apply list_elem_of_filter in Hin as [[Hk Hlt] Hin].
    apply elem_of_visible in Hin as [He Hv]. simpl in *. subst key'. split; [by exists o, e|]. split; [done|].
    destruct (wf_evidence _ _ W _ _ He) as [_ (m & Hm & _ & Hq)]. eauto.
  - intros ((o & e & He & Hv) & Hlt & m & Hm & ->). exists (i, key, o, e).
    destruct (wf_evidence _ _ W _ _ He) as [_ (m' & Hm' & _ & Hq)]. simpl in *. simplify_eq.
    split; [by rewrite Hq|]. rewrite list_elem_of_filter, elem_of_visible. split; [|done]. simpl. by rewrite Hq.
Qed.
Lemma topic_messages_NoDup viewer c key before : NoDup (snd <$> topic_messages db viewer c key before).
Proof.
  apply NoDup_fmap_2_strong; [|apply NoDup_remove_dups].
  intros [i1 q1] [i2 q2] ((o1 & e1 & He1 & Hv1) & _ & m1 & Hm1 & ->)%elem_of_topic_messages
    ((o2 & e2 & He2 & Hv2) & _ & m2 & Hm2 & ->)%elem_of_topic_messages Hq. simpl in Hq.
  apply evidence_visible_true in Hv1 as (Hc1 & _). apply evidence_visible_true in Hv2 as (Hc2 & _).
  destruct (wf_evidence _ _ W _ _ He1) as [_ (n1 & ? & Hn1 & _)].
  destruct (wf_evidence _ _ W _ _ He2) as [_ (n2 & ? & Hn2 & _)]. simpl in *. simplify_eq.
  assert (i1 = i2) as ->; [|congruence]. eapply (wf_numbers _ _ W); [done|done|congruence|done].
Qed.
Lemma match_row_sequence i mt : match_row db i = Some mt →
  ∃ m, td_messages db !! i = Some m ∧ tm_sequence mt = seq_of m ∧ tm_message mt = m.
Proof. unfold match_row. repeat case_match; intros; simplify_eq. eauto. Qed.

(** All the messages of a topic, newest first. *)
Definition topic_list (viewer : UserId) (c : ChannelId) (key : str) (before : Z) : list (MessageId * Z) :=
  sort_by_key seq_ge snd (topic_messages db viewer c key before).

Lemma topic_list_perm viewer c key before :
  topic_list viewer c key before ≡ₚ topic_messages db viewer c key before.
Proof. apply merge_sort_Permutation. Qed.
Lemma topic_list_sorted viewer c key before : Sorted (on_key seq_ge snd) (topic_list viewer c key before).
Proof. apply Sorted_merge_sort. apply _. Qed.
Lemma elem_of_topic_list viewer c key before i q :
  (i, q) ∈ topic_list viewer c key before ↔
  in_topic viewer c key i ∧ (q < before)%Z ∧ ∃ m, td_messages db !! i = Some m ∧ q = seq_of m.
Proof. by rewrite topic_list_perm, elem_of_topic_messages. Qed.
Lemma topic_list_NoDup viewer c key before : NoDup (snd <$> topic_list viewer c key before).
Proof. rewrite topic_list_perm. apply topic_messages_NoDup. Qed.

Lemma topic_list_rows viewer c key before : has_rows db (topic_list viewer c key before).
Proof.
  intros i q (Hin & _ & m & Hm & ->)%elem_of_topic_list.
  destruct (in_topic_row _ _ _ _ Hin) as (m' & source & Hm' & _ & _ & Hr). simplify_eq. eauto.
Qed.
(** The outer [order by] of [TOPIC_MATCHES] keeps the order of the page. *)
Lemma topic_rows_eq viewer c key before :
  topic_rows db viewer c key before = row_list db (take 31 (topic_list viewer c key before)).
Proof.
  unfold topic_rows. fold (topic_list viewer c key before).
  fold (row_list db (take 31 (topic_list viewer c key before))).
  set (l := take 31 _). assert (has_rows db l) as Hr by apply has_rows_take, topic_list_rows.
  apply sort_by_key_sorted.
  - apply Sorted_on_key. rewrite row_list_sequences by done. apply (Sorted_on_key seq_ge snd).
    apply Sorted_take, topic_list_sorted.
  - rewrite row_list_sequences by done. unfold l. rewrite fmap_take.
    eapply sublist_NoDup; [apply topic_list_NoDup|apply sublist_take].
Qed.

(** A later page starts where the list of the topic goes on. *)
Lemma topic_list_before viewer c key before b :
  (b ≤ before)%Z →
  topic_list viewer c key b = filter (λ r, (r.2 < b)%Z) (topic_list viewer c key before).
Proof.
  intros Hle. apply (sorted_by_unique seq_ge snd).
  - apply topic_list_sorted.
  - apply StronglySorted_Sorted, StronglySorted_filter, Sorted_StronglySorted, topic_list_sorted.
    intros x y z. unfold on_key. apply transitivity.
  - apply NoDup_Permutation.
    + eapply NoDup_fmap_1, topic_list_NoDup.
    + apply NoDup_filter. eapply NoDup_fmap_1, topic_list_NoDup.
    + intros [i q]. rewrite list_elem_of_filter, !elem_of_topic_list. simpl. split; naive_solver lia.
  - apply topic_list_NoDup.
Qed.
Lemma filter_below_nth l n (x : MessageId * Z) :
  StronglySorted (on_key seq_ge snd) l → NoDup (snd <$> l) → l !! n = Some x →
  filter (λ r, (r.2 < x.2)%Z) l = drop (S n) l.
Proof.
  revert n. induction l as [|y l IH]; intros n Hs Hnd Hn; [done|].
  inversion_clear Hs as [|? ? Hs' Hy]. simpl in Hnd. apply NoDup_cons in Hnd as [Hnot Hnd].
  rewrite Forall_forall in Hy. destruct n as [|n]; simpl in Hn.
  - simplify_eq. rewrite filter_cons_False by lia. simpl. rewrite drop_0. apply list_filter_all.
    intros z Hz. specialize (Hy z Hz). unfold on_key, seq_ge in Hy.
    assert (z.2 ≠ x.2); [|lia]. intros Heq. apply Hnot. rewrite <- Heq. apply list_elem_of_fmap. eauto.
  - rewrite filter_cons_False; [by apply IH|]. apply list_elem_of_lookup_2 in Hn.
    specialize (Hy x Hn). unfold on_key, seq_ge in Hy. lia.
Qed.
End pages.

(** Following [next_before] from page to page. *)
Fixpoint read_pages (fuel : nat) (actor : UserId) (c : ChannelId) (key : str) (before : Z) (db : TopicDb)
    : list TopicMatch :=
  match fuel with
  | O => []
  | S fuel =>
      match matches actor c key before db with
      | (Ok page, db) => page_matches page ++ match page_next_before page with
                                             | Some b => read_pages fuel actor c key b db
                                             | None => []
                                             end
      | _ => []
      end
  end.

Lemma matches_eq ids db actor c key before role :
  topics_wf ids db → td_memberships db !! (c, actor) = Some role →
  let l := topic_list db actor c key before in
  matches actor c key before db
  = (Ok (if 30 <? length l
         then mk_TopicPage (row_list db (take 30 l)) (snd <$> l !! 29)
         else mk_TopicPage (row_list db l) None), db).
Proof.
  intros W Hr l. unfold matches, access, channel_access, st_bind, st_lift, get, st_ret. rewrite Hr. simpl.
  rewrite (topic_rows_eq ids) by done. fold l. pose proof (topic_list_rows ids db W actor c key before) as Hrows.
  fold l in Hrows. rewrite (row_list_length db (take 31 l)) by by apply has_rows_take.
  rewrite length_take. unfold PAGE_SIZE. f_equal. f_equal.
  destruct (30 <? length l) eqn:E.
  - replace (30 <? 31 `min` length l) with true by (symmetry; lia).
    rewrite <- (row_list_take db (take 31 l)), take_take by by apply has_rows_take. simpl.
    f_equal. rewrite <- (fmap_last tm_sequence), row_list_sequences by by apply has_rows_take.
    rewrite fmap_last, last_lookup, length_take.
    replace (Nat.pred (30 `min` length l)) with 29 by lia. by rewrite lookup_take_lt by lia.
  - replace (30 <? 31 `min` length l) with false by (symmetry; lia). by rewrite take_ge by lia.
Qed.
Lemma read_pages_complete ids db actor c key role fuel before :
  topics_wf ids db → td_memberships db !! (c, actor) = Some role →
  length (topic_list db actor c key before) < fuel →
  read_pages fuel actor c key before db = row_list db (topic_list db actor c key before).
Proof.
  intros W Hr. revert before. induction fuel as [|fuel IH]; intros before Hlt; [lia|]. simpl.
  rewrite (matches_eq ids _ _ _ _ _ role) by done. set (l := topic_list db actor c key before) in *.
  destruct (30 <? length l) eqn:E; simpl; [|by rewrite app_nil_r].
  destruct (l !! 29) as [x|] eqn:Hx; [|apply lookup_ge_None in Hx; lia]. simpl.
  pose proof Hx as Hin. apply list_elem_of_lookup_2 in Hin. destruct x as [i q].
  assert (q ≤ before)%Z as Hle by (apply (elem_of_topic_list ids) in Hin as (_ & ? & _); [lia|done]).
  assert (topic_list db actor c key q = drop 30 l) as Hdrop.
  { rewrite (topic_list_before ids db W _ _ _ before q Hle). fold l.
    apply (filter_below_nth l 29 (i, q)); [|by eapply topic_list_NoDup|done].
    apply Sorted_StronglySorted; [|apply topic_list_sorted]. intros x y z. unfold on_key. apply transitivity. }
  simpl. rewrite IH; rewrite Hdrop; [|rewrite length_drop; lia]. unfold row_list.
  rewrite <- (take_drop 30 l) at 3. by rewrite omap_app.
Qed.

(** ** Reading *)

Section reading.
Context `{TextTables} (says : Content → list str → Prop).

Lemma matches_Ok actor c key before db page db' :
  matches actor c key before db = (Ok page, db') → is_Some (td_memberships db !! (c, actor)) ∧ db' = db.
Proof.
  unfold matches, access, channel_access, st_bind, st_lift, get, st_ret.
  destruct (td_memberships db !! (c, actor)) as [role|]; simpl; [|done]. intros Hm.
  split; [by eauto|]. by injection Hm.
Qed.
(** The evidence behind a match. *)
Lemma matches_elem ids actor c key before db page db' mt :
  topics_wf ids db → matches actor c key before db = (Ok page, db') → mt ∈ page_matches page →
  ∃ i origin e m source, td_evidence db !! (i, key, origin) = Some e
    ∧ evidence_visible db actor c (i, key, origin) e = true
    ∧ td_messages db !! i = Some m ∧ ChatMessage_channel_id m = c ∧ topic_source db i = Some source
    ∧ mt = mk_TopicMatch (mk_TopicMatchPreview i (ChatMessage_parent_message_id m) (seq_of m)
             (sr_sender_name source) (take 1200 (sr_body source)) (sr_created_at source)) m.
Proof.
  intros W Hm Hin. destruct (matches_Ok _ _ _ _ _ _ _ Hm) as [[role Hr] ->].
  rewrite (matches_eq ids db actor c key before role W Hr) in Hm. injection Hm as <-.
  assert (mt ∈ row_list db (topic_list db actor c key before)) as Hrow.
  { destruct (30 <? _); [|done]. simpl in Hin. unfold row_list in *.
    rewrite list_elem_of_omap in *. destruct Hin as (x & Hx & ?). exists x. split; [|done].
    eapply sublist_subseteq; [apply sublist_take|done]. }
  unfold row_list in Hrow. apply list_elem_of_omap in Hrow as ([i q] & Hiq & Hmr).
  apply (elem_of_topic_list ids) in Hiq as (Htopic & _); [|done].
  pose proof Htopic as (origin & e & He & Hv).
  destruct (in_topic_row ids db W _ _ _ _ Htopic) as (m & source & Hmi & Hc & Hs & Hrow).
  simpl in Hmr. rewrite Hrow in Hmr. injection Hmr as <-. exists i, origin, e, m, source. done.
Qed.

(** C13: a topic says what its messages say now. In every state the server, the editors and
    any number of workers can reach, a message shown under a topic has that topic because
    the language model answered so about the present text of its source, or about the
    present preview of one of its pictures; after an edit, a deletion or a change of its
    pictures no earlier answer is shown. *)
Theorem topics_from_current_content (w : TopicWorld) actor c key before page db' mt :
  topics_reach says w → matches actor c key before (tw_db w) = (Ok page, db') → mt ∈ page_matches page →
  ∃ source, topic_source (tw_db w) (ChatMessage_id (tm_message mt)) = Some source
    ∧ tp_body (tm_preview mt) = take 1200 (sr_body source)
    ∧ ((∃ labels kws label, says (Ask_text labels (text_input (sr_body source))) kws
          ∧ normalize kws !! key = Some label)
       ∨ (∃ labels image kws label,
            has_image (tw_db w) (sr_source source) (sr_source_channel source) image
            ∧ says (Ask_image labels image) kws ∧ normalize kws !! key = Some label)).
Proof.
  intros I%topics_inv_reach Hm Hin. pose proof (ti_wf _ _ I) as W.
  destruct (matches_elem _ _ _ _ _ _ _ _ _ W Hm Hin) as (i & origin & e & m & source & He & Hv & Hmi & _ & Hs & ->).
  simpl. destruct (wf_message _ _ W _ _ Hmi) as [-> _]. exists source. split_and!; [done|done|].
  apply evidence_visible_true in Hv as (_ & _ & _ & source' & Hs' & Hrev & _). simpl in Hs'. rewrite Hs in Hs'. injection Hs' as <-.
  pose proof (topic_source_Some _ _ _ Hs) as (t & s & _ & _ & Hid & Hsm & _ & Hb & Hch & Hr & _).
  destruct (ji_evidence _ _ _ (ti_jobs _ _ I) _ _ s He Hsm) as [_ Hsup]. simpl in Hsup.
  rewrite Hr in Hrev. specialize (Hsup Hrev). rewrite Hid, Hb, Hch.
  destruct origin as [|id]; simpl in Hsup; [left|right]; [naive_solver|].
  destruct Hsup as (labels & image & kws & ? & ? & ? & ?). eauto 8.
Qed.

(** C14: topics are private. Who is not a member of the channel gets no page; and every
    message of a page is a live message of that channel, shown while topics are enabled.
    A message saved from another channel is shown only to the one who saved it, with the
    text of its source, and only while that reader is a member of the channel the source
    is in. *)
Theorem topic_matches_private (w : TopicWorld) actor c key before :
  topics_reach says w →
  (td_memberships (tw_db w) !! (c, actor) = None →
     matches actor c key before (tw_db w) = (Err PermissionDenied, tw_db w))
  ∧ ∀ page db' mt, matches actor c key before (tw_db w) = (Ok page, db') → mt ∈ page_matches page →
      enabled_in (tw_db w) c = true ∧ is_Some (td_memberships (tw_db w) !! (c, actor))
      ∧ ChatMessage_channel_id (tm_message mt) = c ∧ ChatMessage_deleted_at (tm_message mt) = None
      ∧ ∀ owner saved link, link_of (tw_db w) (ChatMessage_id (tm_message mt)) = Some ((owner, saved), link) →
          owner = actor
          ∧ ∃ sm, td_messages (tw_db w) !! saved = Some sm ∧ ChatMessage_deleted_at sm = None
            ∧ is_Some (td_memberships (tw_db w) !! (ChatMessage_channel_id sm, actor))
            ∧ tp_body (tm_preview mt) = take 1200 (body_of sm).
Proof.
  intros I%topics_inv_reach. pose proof (ti_wf _ _ I) as W. split.
  { intros Hn. unfold matches, access, channel_access, st_bind, st_lift, get, st_ret. by rewrite Hn. }
  intros page db' mt Hm Hin.
  destruct (matches_elem _ _ _ _ _ _ _ _ _ W Hm Hin) as (i & origin & e & m & source & He & Hv & Hmi & Hc & Hs & ->).
  simpl. destruct (wf_message _ _ W _ _ Hmi) as [-> _].
  apply evidence_visible_true in Hv as (_ & Hen & Hmem & source' & Hs' & _ & _ & Hown). simpl in Hs'. rewrite Hs in Hs'. injection Hs' as <-.
  pose proof (topic_source_Some _ _ _ Hs) as (t & s & Ht & Hlt & Hid & Hsm & Hls & Hb & Hch & Hr & _ & Hsaved & Hmember).
  simplify_eq. unfold live_row in Hlt, Hls. rewrite bool_decide_eq_true in Hlt, Hls.
  split_and!; try done. intros owner saved link Hl. rewrite Hl in Hsaved. simpl in Hsaved.
  rewrite <- (Hown _ Hsaved). split; [done|]. exists s. destruct (Hmember _ Hsaved) as [? _].
  unfold raw_id in Hsm. rewrite Hl in Hsm. split_and!; try done. by rewrite Hb.
Qed.

(** C18: the pages of a topic are complete. Reading on from the [next_before] of each page
    shows every message of the topic the reader may see with a sequence number below
    the first [before], each one once and newest first, and then stops. *)
Theorem topic_pages_complete (w : TopicWorld) actor c key before fuel :
  topics_reach says w → is_Some (td_memberships (tw_db w) !! (c, actor)) →
  length (topic_messages (tw_db w) actor c key before) < fuel →
  let shown := ChatMessage_id ∘ tm_message <$> read_pages fuel actor c key before (tw_db w) in
  StronglySorted (λ a b, (tm_sequence b < tm_sequence a)%Z) (read_pages fuel actor c key before (tw_db w))
  ∧ NoDup shown
  ∧ ∀ i m, td_messages (tw_db w) !! i = Some m →
      i ∈ shown ↔ in_topic (tw_db w) actor c key i ∧ (seq_of m < before)%Z.
Proof.
  intros I%topics_inv_reach [role Hr] Hf shown. pose proof (ti_wf _ _ I) as W. set (db := tw_db w) in *.
  assert (read_pages fuel actor c key before db = row_list db (topic_list db actor c key before)) as Hp.
  { eapply read_pages_complete; [done..|]. by rewrite (topic_list_perm db). }
  pose proof (topic_list_rows _ db W actor c key before) as Hrows. set (l := topic_list db actor c key before) in *.
  assert (∀ i q, (i, q) ∈ l → ∃ mt, match_row db i = Some mt ∧ ChatMessage_id (tm_message mt) = i) as Hids.
  { intros i q Hin. destruct (Hrows _ _ Hin) as (mt & Hmt & _). exists mt. split; [done|].
    destruct (match_row_sequence _ _ _ Hmt) as (m & Hm & _ & ->). by apply (wf_message _ _ W) in Hm as [? _]. }
  assert (shown = fst <$> l) as Hshown.
  { unfold shown. rewrite Hp. clear - Hids. unfold row_list. induction l as [|[i q] l IH]; [done|].
    destruct (Hids i q) as (mt & Hmt & Hi); [set_solver|]. simpl. rewrite Hmt. simpl. rewrite Hi.
    f_equal. apply IH. intros i' q' ?. apply (Hids i' q'). set_solver. }
  split_and!.
  - rewrite Hp. assert (StronglySorted (λ a b, (b < a)%Z) (tm_sequence <$> row_list db l)) as Hs.
    { rewrite row_list_sequences by done. apply strictly_sorted.
      - apply Sorted_StronglySorted; [apply _|]. apply (Sorted_on_key seq_ge snd), topic_list_sorted.
      - by eapply topic_list_NoDup. }
    clear - Hs. induction (row_list db l) as [|x k IH]; simpl in *; [constructor|].
    inversion_clear Hs as [|? ? Hs' Hx]. constructor; [by apply IH|]. by rewrite Forall_fmap in Hx.
  - rewrite Hshown. apply NoDup_fmap_2_strong; [|eapply NoDup_fmap_1; by eapply topic_list_NoDup].
    intros [i1 q1] [i2 q2] H1 H2 ?. simpl in *. subst.
    apply (elem_of_topic_list _ db W) in H1 as (_ & _ & m1 & ? & ->).
    apply (elem_of_topic_list _ db W) in H2 as (_ & _ & m2 & ? & ->). by simplify_eq.
  - intros i m Hm. rewrite Hshown, list_elem_of_fmap. split.
    + intros ([i' q] & -> & Hin). apply (elem_of_topic_list _ db W) in Hin as (? & ? & m' & ? & ->). by simplify_eq/=.
    + intros [? ?]. exists (i, seq_of m). split; [done|]. apply (elem_of_topic_list _ db W). eauto.
Qed.
End reading.

(** ** Working *)

Lemma candidate_None db now b i j :
  candidate db now b = None → td_jobs db !! i = Some j → claimable db now b i j = false.
Proof.
  unfold candidate. intros Hn%first_by_None Hj. apply map_to_list_empty_iff in Hn.
  by eapply rows_where_empty in Hn.
Qed.
Lemma claim_due_None now lease b db db' :
  claim_due now lease b db = (Ok None, db') →
  db' = db ∧ ∀ i j, td_jobs db !! i = Some j → claimable db now b i j = false.
Proof.
  unfold claim_due, st_bind, get, put, st_ret. destruct (candidate db now b) as [[m j]|] eqn:Ec; [done|].
  intros [= <-]. split; [done|]. intros. by eapply candidate_None.
Qed.
Lemma claim_due_total now lease b db : ∃ r db', claim_due now lease b db = (Ok r, db').
Proof.
  unfold claim_due, st_bind, get, put, st_ret. destruct (candidate db now b) as [[m j]|]; eauto.
Qed.
(** A claimed job is current: its lease runs and it has the present revision. *)
Lemma claim_due_current now lease b db job db' :
  claim_due now lease b db = (Ok (Some job), db') →
  is_Some (job_source db' now job)
  ∧ ∃ j, td_jobs db !! tj_message job = Some j ∧ j_backfill j = b.
Proof.
  intros [[? _]|(m & j & source & [= ->] & Hj & Hc & Hs & ->)]%claim_due_Ok; [done|]. simpl.
  unfold claimable in Hc. rewrite !andb_true_iff, !bool_decide_eq_true in Hc.
  destruct Hc as ((((Hen & _) & Hb) & _) & _). split; [|by eauto].
  exists source. apply job_source_Some. eexists. simpl. rewrite lookup_insert_eq.
  split_and!; [done|done|done| |done|done]. eexists. split; [done|]. unfold LEASE_SECONDS. lia.
Qed.
(** Backfilling does not make a live job claimable. *)
Lemma backfill_live_jobs now db i j :
  td_jobs (backfill now db).2 !! i = Some j → claimable (backfill now db).2 now false i j = true →
  td_jobs db !! i = Some j ∧ claimable db now false i j = true.
Proof.
  rewrite backfill_eq. destruct (first_by _ _) as [[c [after p]]|] eqn:Ef; [|done].
  apply first_by_elem, elem_of_pending in Ef as (s & Hs & Hen & Ha & _).
  assert (∀ d, enabled_in (backfilled now c after db) d = enabled_in db d) as Henabled.
  { intros d. unfold enabled_in, backfilled. destruct (batch_end db c after); simpl;
      (destruct (decide (c = d)) as [->|]; [rewrite lookup_alter_eq, Hs; done|by rewrite lookup_alter_ne]). }
  assert (topic_source (backfilled now c after db) i = topic_source db i) as Hsrc.
  { unfold backfilled. by destruct (batch_end db c after). }
  unfold claimable. rewrite Henabled, Hsrc. intros Hj Hc. split; [|done].
  rewrite !andb_true_iff, !bool_decide_eq_true in Hc. destruct Hc as (((_ & Hb) & _) & _).
  unfold backfilled in Hj. destruct (batch_end db c after) as [e|]; [|done]. simpl in Hj.
  rewrite lookup_backfill_jobs in Hj. destruct (td_messages db !! i) as [m|]; [|done].
  destruct (in_batch c after e m); [|done]. unfold backfill_job in Hj.
  destruct (td_jobs db !! i) as [j0|]; simplify_eq. by destruct (exhausted now j0).
Qed.

(** C16: claiming takes work that is due. When nothing comes between its transactions,
    [claim] always returns; it flips the preference
    that reserves every other turn for history. A due job of the preferred queue (new
    messages, or history when [prefer_backfill] is set) is never passed over for the
    other queue, whatever it claims is current, and it comes back without a job only
    when no job of either queue can be claimed. *)
Theorem claim_takes_due_work (now : Z) (l1 l2 l3 : Uuid) (prefer_backfill : bool) (db : TopicDb) :
  let refreshed := (refresh_saved_sources now db).2 in
  ∃ r db', claim now l1 l2 l3 prefer_backfill db = (Ok (r, negb prefer_backfill), db')
    ∧ (∀ i j, td_jobs refreshed !! i = Some j → claimable refreshed now prefer_backfill i j = true →
         ∃ job j', r = Some job ∧ td_jobs refreshed !! tj_message job = Some j'
                   ∧ j_backfill j' = prefer_backfill)
    ∧ (∀ job, r = Some job → is_Some (job_source db' now job))
    ∧ (r = None → ∀ b i j, td_jobs db' !! i = Some j → claimable db' now b i j = false).
Proof.
  intros refreshed.
  assert (∃ u, refresh_saved_sources now db = (Ok u, refreshed)) as [u Hu].
  { unfold refreshed. destruct (refresh_saved_sources now db) as [[u| |] d] eqn:E; [by exists u|..];
      unfold refresh_saved_sources, transaction, st_bind, get, modify, st_ret in E; by repeat case_match. }
  assert (∃ v, backfill now refreshed = (Ok v, (backfill now refreshed).2)) as [v Hv].
  { destruct (backfill now refreshed) as [[v| |] d] eqn:E; [by exists v|..];
      unfold backfill, transaction, st_bind, get, modify, st_ret in E; by repeat case_match. }
  unfold claim, st_bind. rewrite Hu. clearbody refreshed.
  assert (∀ lease b d, (∃ job d', claim_due now lease b d = (Ok (Some job), d')
      ∧ is_Some (job_source d' now job) ∧ ∃ j, td_jobs d !! tj_message job = Some j ∧ j_backfill j = b)
    ∨ (claim_due now lease b d = (Ok None, d)
       ∧ ∀ i j, td_jobs d !! i = Some j → claimable d now b i j = false)) as Hcase.
  { intros lease b d. destruct (claim_due_total now lease b d) as ([job|] & d' & Hc); [left|right].
    - destruct (claim_due_current _ _ _ _ _ _ Hc). eauto 8.
    - destruct (claim_due_None _ _ _ _ _ Hc) as [-> ?]. eauto. }
  set (backed := (backfill now refreshed).2) in *.
  destruct prefer_backfill; simpl.
  - destruct (Hcase l2 true refreshed) as [(job & d & -> & Hcur & j & Hj & Hb)|[-> Hno]].
    { exists (Some job), d. split_and!; [done|intros; exists job, j; by eauto|naive_solver|done]. }
    rewrite Hv. destruct (Hcase l3 true backed) as [(job & d & -> & Hcur & j & Hj & Hb)|[-> Hno3]].
    { exists (Some job), d. split_and!; [done| |naive_solver|done]. intros. by rewrite Hno in H0. }
    destruct (Hcase l1 false backed) as [(job & d & -> & Hcur & _)|[-> Hno1]].
    { exists (Some job), d. split_and!; [done| |naive_solver|done]. intros. by rewrite Hno in H0. }
    exists None, backed. split_and!; [done| |done|intros _ []; auto]. intros. by rewrite Hno in H0.
  - destruct (Hcase l1 false refreshed) as [(job & d & -> & Hcur & j & Hj & Hb)|[-> Hno]].
    { exists (Some job), d. split_and!; [done|intros; exists job, j; by eauto|naive_solver|done]. }
    destruct (Hcase l2 true refreshed) as [(job & d & -> & Hcur & _)|[-> Hno2]].
    { exists (Some job), d. split_and!; [done| |naive_solver|done]. intros. by rewrite Hno in H0. }
    rewrite Hv. destruct (Hcase l3 true backed) as [(job & d & -> & Hcur & _)|[-> Hno3]].
    { exists (Some job), d. split_and!; [done| |naive_solver|done]. intros. by rewrite Hno in H0. }
    exists None, backed. split_and!; [done| |done|]; [intros; by rewrite Hno in H0|]. intros _ [] i j Hj; [by auto|].
    apply not_true_is_false. intros Hc. destruct (backfill_live_jobs _ _ _ _ Hj Hc) as [Hj0 Hc0].
    by rewrite Hno in Hc0.
Qed.

Section leases.
Context `{TextTables} (says : Content → list str → Prop).

(** The claims of message [m] a step makes: the worker goes on to read a job of the message. *)
Definition claims_of (m : MessageId) (s : TopicStep) (w' : TopicWorld) : nat :=
  match s with
  | S_claim n _ _ =>
      match tw_workers w' !! n with
      | Some (Ph_body job) => if bool_decide (tj_message job = m) then 1 else 0
      | _ => 0
      end
  | _ => 0
  end.
(** The steps that are not a worker's on a job: writes and the queueing of jobs. *)
Definition may_queue (s : TopicStep) : bool :=
  match s with S_write _ | S_refresh | S_backfill => true | _ => false end.
(** A run in which no write, refresh or backfill changes the job of [m], with the number of
    times the message is claimed. *)
Inductive topic_run (m : MessageId) : TopicWorld → nat → TopicWorld → Prop :=
  | run_nil w : topic_run m w 0 w
  | run_cons w s w' k w'' :
      topic_step says w s w' →
      (may_queue s = true → td_jobs (tw_db w') !! m = td_jobs (tw_db w) !! m) →
      topic_run m w' k w'' → topic_run m w (claims_of m s w' + k) w''.

(** How often the job of a message may still be claimed. *)
Definition attempts_left (db : TopicDb) (m : MessageId) : Z :=
  match td_jobs db !! m with
  | Some j => if bool_decide (j_due j = None) && bool_decide (j_lease j = None) then 0%Z
              else Z.max 0 (MAX_ATTEMPTS - j_attempts j)
  | None => 0%Z
  end.
Lemma attempts_left_pos db m : (0 ≤ attempts_left db m)%Z.
Proof. unfold attempts_left. destruct (td_jobs db !! m); [|done]. destruct (_ && _); lia. Qed.
Lemma attempts_left_same db db' m :
  td_jobs db' !! m = td_jobs db !! m → attempts_left db' m = attempts_left db m.
Proof. unfold attempts_left. by intros ->. Qed.
Lemma fail_left now job db m : (attempts_left (fail now job db).2 m ≤ attempts_left db m)%Z.
Proof.
  unfold attempts_left, fail, modify. simpl. destruct (decide (m = tj_message job)) as [->|Hne];
    [|rewrite lookup_alter_ne by done; lia].
  rewrite lookup_alter_eq. destruct (td_jobs db !! tj_message job) as [j|]; simpl; [|done].
  unfold fail_job. destruct (decide (j_lease j = Some (tj_lease job))) as [Hl|Hl];
    [rewrite (bool_decide_true (j_lease j = _)) by done|rewrite (bool_decide_false (j_lease j = _)) by done; lia].
  simpl. rewrite Hl.
  rewrite (bool_decide_false (Some _ = None)), andb_false_r by done. destruct (_ && _); lia.
Qed.
Lemma complete_left now job text images db m :
  (attempts_left (complete now job text images db).2 m ≤ attempts_left db m)%Z.
Proof.
  rewrite complete_eq. destruct (job_source db now job), (td_jobs db !! tj_message job) as [j|] eqn:Hj,
    (td_messages db !! tj_message job); try lia.
  pose proof (attempts_left_pos db m) as Hpos. destruct (decide (m = tj_message job)) as [->|Hne].
  - unfold attempts_left at 1, completed. simpl. by rewrite lookup_insert_eq.
  - unfold attempts_left, completed. simpl. rewrite lookup_insert_ne by done. lia.
Qed.
Lemma claim_left now lease b db r db' m :
  claim_due now lease b db = (Ok r, db') →
  (attempts_left db' m + (match r with Some job => if bool_decide (tj_message job = m) then 1 else 0 | None => 0 end)
   ≤ attempts_left db m)%Z.
Proof.
  intros [[-> ->]|(i & j & source & -> & Hj & Hc & _ & ->)]%claim_due_Ok; [lia|]. simpl.
  unfold attempts_left. simpl. case_bool_decide as Hi.
  - subst i. rewrite lookup_insert_eq, Hj. simpl. unfold claimable, due in Hc. bool_facts.
    destruct (j_due j); [|done]. rewrite !bool_decide_false by done. simpl. lia.
  - rewrite lookup_insert_ne by done. lia.
Qed.
Lemma step_left m w s w' :
  topic_step says w s w' → (may_queue s = true → td_jobs (tw_db w') !! m = td_jobs (tw_db w) !! m) →
  (attempts_left (tw_db w') m + Z.of_nat (claims_of m s w') ≤ attempts_left (tw_db w) m)%Z.
Proof.
  intros Hstep Hq. destruct Hstep as [w op Hop|w now Hnow|w n Hn|w|w|w n lease b r db' Hn Hl Hc
    |w n p answer p' db' Hn Ha Hp|w n p job Hn Hj|w n Hn]; simpl in *;
    try (rewrite (attempts_left_same _ _ _ (Hq eq_refl)); lia); try lia.
  - rewrite lookup_insert_eq. apply (claim_left _ _ _ _ _ _ m) in Hc.
    destruct r as [job|]; simpl in *; [case_bool_decide|]; lia.
  - assert (attempts_left db' m ≤ attempts_left (tw_db w) m)%Z; [|lia].
    destruct p as [| | | | | |job [text images]|job]; simpl in Hp; unfold job_body, job_images, job_labels, job_current in Hp;
      st_simpl Hp; simplify_eq/=; try done.
    + pose proof (complete_left (tw_now w) job text images (tw_db w) m) as Hle.
      destruct (complete _ _ _ _ _) as [[] ?]; simplify_eq/=; done.
    + apply fail_left.
Qed.
Lemma run_left m w k w' :
  topic_run m w k w' → (Z.of_nat k ≤ attempts_left (tw_db w) m)%Z.
Proof.
  induction 1 as [w|w s w' k w'' Hstep Hq _ IH]; [apply attempts_left_pos|].
  pose proof (step_left m w s w' Hstep Hq). lia.
Qed.

(** C15: one worker answers for a message. Of all workers only one can hold a job of a
    message that is current; in any run in which no write, refresh or backfill changes the
    job of a message, however the workers' steps, their failures and losses interleave with
    everything else, the message is claimed at most three times; and a worker whose lease
    the row no longer has changes nothing by completing or failing its job. *)
Theorem topic_lease_exclusive (w : TopicWorld) n p job :
  topics_reach says w → tw_workers w !! n = Some p → phase_job p = Some job →
  (is_Some (job_source (tw_db w) (tw_now w) job) →
     ∀ n' p' job', tw_workers w !! n' = Some p' → phase_job p' = Some job' →
       tj_message job' = tj_message job → is_Some (job_source (tw_db w) (tw_now w) job') → n' = n)
  ∧ (∀ m k w', topic_run m w k w' → k ≤ 3)
  ∧ (∀ j, td_jobs (tw_db w) !! tj_message job = Some j →
       (0 ≤ j_attempts j ≤ MAX_ATTEMPTS)%Z
       ∧ (j_lease j ≠ Some (tj_lease job) → ∀ text images,
            (complete (tw_now w) job text images (tw_db w)).2 = tw_db w
            ∧ (fail (tw_now w) job (tw_db w)).2 = tw_db w)).
Proof.
  intros I%topics_inv_reach Hn Hp. split_and!.
  - intros [s1 (j1 & Hj1 & _ & Hl1 & _)%job_source_Some] n' p' job' Hn' Hp' Hm
      [s2 (j2 & Hj2 & _ & Hl2 & _)%job_source_Some].
    rewrite Hm in Hj2. simplify_eq. eapply (ti_distinct _ _ I); [done|done|done|done|congruence].
  - intros m k w' Hrun%run_left. unfold attempts_left in Hrun.
    destruct (td_jobs (tw_db w) !! m) as [j|] eqn:Hj; [|lia].
    destruct (wf_job _ _ (ti_wf _ _ I) _ _ Hj) as [? _]. unfold MAX_ATTEMPTS in Hrun. destruct (_ && _); lia.
  - intros j Hj. destruct (wf_job _ _ (ti_wf _ _ I) _ _ Hj) as [? _]. split; [done|]. intros Hne text images. split.
    + rewrite complete_eq. destruct (job_source _ _ _) eqn:E; [|done].
      apply job_source_Some in E as (j' & ? & _ & ? & _). congruence.
    + simpl. rewrite (alter_as_insert _ _ _ _ Hj). unfold fail_job. rewrite bool_decide_false by done.
      rewrite insert_id by done. by destruct (tw_db w).
Qed.
End leases.

(** ** The backfill *)

(** The batches a channel may still need: one for every message after its position and
    one to find that there are no more. *)
Definition batches_left (db : TopicDb) (r : ChannelId * TopicSetting) : nat :=
  if ts_enabled r.2
  then match ts_backfill_after r.2 with Some after => S (length (sequences_after db r.1 after)) | None => 0 end
  else 0.
Definition backfill_left (db : TopicDb) : nat := sum_list_with (batches_left db) (map_to_list (td_settings db)).

Lemma sequences_after_shorter db c after e :
  batch_end db c after = Some e →
  length (sequences_after db c e) < length (sequences_after db c after).
Proof.
  intros He. assert (e ∈ sequences_after db c after) as Hin.
  { unfold batch_end in He. rewrite last_lookup in He. apply list_elem_of_lookup_2 in He.
    eapply sublist_subseteq; [apply sublist_take|done]. }
  pose proof Hin as (i & m & Hm & Hc & Ha & ->)%elem_of_sequences_after.
  set (below := sequences_after db c after) in *.
  assert (sequences_after db c (seq_of m) ≡ₚ filter (λ q, (seq_of m < q)%Z) below) as Hp.
  { unfold below, sequences_after, sort_by_key. rewrite !(merge_sort_Permutation (on_key Z.le id)).
    induction (map_to_list (td_messages db)) as [|[k x] l IH]; simpl; [done|].
    destruct (bool_decide (ChatMessage_channel_id x = c)); simpl; [|done].
    destruct (after <? seq_of x)%Z eqn:E1; simpl.
    - rewrite filter_cons. destruct (seq_of m <? seq_of x)%Z eqn:E2; simpl.
      + rewrite decide_True by lia. by f_equiv.
      + by rewrite decide_False by lia.
    - replace (seq_of m <? seq_of x)%Z with false by (symmetry; lia). done. }
  rewrite Hp. apply list_elem_of_split in Hin as (l1 & l2 & ->).
  rewrite filter_app, filter_cons_False, !length_app by lia. simpl.
  pose proof (length_filter (λ q, (seq_of m < q)%Z) l1). pose proof (length_filter (λ q, (seq_of m < q)%Z) l2).
  lia.
Qed.
Lemma sum_list_with_ext {A} (f g : A → nat) l : (∀ x, f x = g x) → sum_list_with f l = sum_list_with g l.
Proof. intros Hfg. induction l as [|x l IH]; simpl; [done|]. by rewrite Hfg, IH. Qed.
Lemma backfill_left_decreases now db :
  pending_backfill db ≠ [] → backfill_left (backfill now db).2 < backfill_left db.
Proof.
  intros Hne. rewrite backfill_eq. destruct (first_by _ _) as [[c [after p]]|] eqn:Ef;
    [|by apply first_by_None in Ef].
  apply first_by_elem, elem_of_pending in Ef as (s & Hs & Hen & Ha & _).
  set (db' := backfilled now c after db).
  assert (td_messages db' = td_messages db) as Em by (unfold db', backfilled; by destruct (batch_end db c after)).
  assert (∀ d a, sequences_after db' d a = sequences_after db d a) as Eseq
    by (intros; unfold sequences_after; by rewrite Em).
  assert (∀ r, batches_left db' r = batches_left db r) as Eb
    by (intros; unfold batches_left; repeat case_match; rewrite ?Eseq; done).
  set (s' := s <| ts_backfill_after := batch_end db c after |> <| ts_picked_at := now |>).
  assert (td_settings db' = <[c := s']> (delete c (td_settings db))) as Es.
  { unfold db', backfilled. destruct (batch_end db c after); simpl;
      by rewrite (alter_as_insert _ _ _ _ Hs), insert_delete_eq. }
  assert (backfill_left db = batches_left db (c, s) + sum_list_with (batches_left db)
    (map_to_list (delete c (td_settings db)))) as ->.
  { unfold backfill_left. rewrite <- (insert_delete_id (td_settings db) c s) at 1 by done.
    rewrite map_to_list_insert by apply lookup_delete_eq. done. }
  unfold backfill_left. rewrite Es, map_to_list_insert by apply lookup_delete_eq. simpl.
  rewrite (sum_list_with_ext _ _ _ Eb), Eb. enough (batches_left db (c, s') < batches_left db (c, s)) by lia.
  unfold batches_left. simpl. rewrite Hen, Ha. destruct (batch_end db c after) as [e|] eqn:Ee; [|lia].
  pose proof (sequences_after_shorter db c after e Ee). lia.
Qed.

Definition backfill_all (times : list Z) (db : TopicDb) : TopicDb :=
  foldl (λ db now, (backfill now db).2) db times.
Lemma backfill_all_ends ids times db :
  topics_wf ids db → backfill_left db ≤ length times →
  pending_backfill (backfill_all times db) = [] ∧ topics_wf ids (backfill_all times db)
  ∧ td_messages (backfill_all times db) = td_messages db.
Proof.
  revert db. induction times as [|now times IH]; intros db W Hleft; simpl in *.
  - split_and!; [|done..]. destruct (pending_backfill db) as [|[c [after p]] l] eqn:E; [done|].
    assert ((c, (after, p)) ∈ pending_backfill db) as (s & Hs & Hen & Ha & _)%elem_of_pending by (rewrite E; set_solver).
    assert (batches_left db (c, s) ≤ backfill_left db) as Hle.
    { apply sum_list_with_in. by apply elem_of_map_to_list. }
    unfold batches_left in Hle. simpl in Hle. rewrite Hen, Ha in Hle. lia.
  - assert (td_messages (backfill now db).2 = td_messages db) as Em.
    { rewrite backfill_eq. destruct (first_by _ _) as [[c [after p]]|]; [|done].
      unfold backfilled. by destruct (batch_end db c after). }
    destruct (backfill_step ids now db W) as [W' _]. rewrite <- Em. apply IH; [done|].
    destruct (decide (pending_backfill db = [])) as [Hn|Hn].
    + rewrite backfill_eq, Hn. simpl. enough (backfill_left db = 0) by lia.
      unfold backfill_left. assert (∀ r, r ∈ map_to_list (td_settings db) → batches_left db r = 0) as Hz.
      { intros [c s] Hr%elem_of_map_to_list. unfold batches_left. simpl. destruct (ts_enabled s) eqn:Hen; [|done].
        destruct (ts_backfill_after s) as [after|] eqn:Ha; [|done].
        assert ((c, (after, ts_picked_at s)) ∈ pending_backfill db) as Hin by (apply elem_of_pending; eauto).
        rewrite Hn in Hin. set_solver. }
      induction (map_to_list (td_settings db)) as [|r l IHl]; simpl; [done|].
      rewrite Hz by set_solver. apply IHl. intros. apply Hz. set_solver.
    + pose proof (backfill_left_decreases now db Hn). lia.
Qed.

Section coverage.
Context `{TextTables} (says : Content → list str → Prop).

(** C17: a backfill ends and reaches every message. However the channels take turns, at
    most [backfill_left] batches finish the backfill of all of them, and then every live
    message of every channel with topics has a job (queued, claimed or done). *)
Theorem backfill_reaches_every_message (w : TopicWorld) (times : list Z) :
  topics_reach says w → backfill_left (tw_db w) ≤ length times →
  let db' := backfill_all times (tw_db w) in
  pending_backfill db' = []
  ∧ ∀ i m, td_messages (tw_db w) !! i = Some m → live_row m = true →
      enabled_in db' (ChatMessage_channel_id m) = true → is_Some (td_jobs db' !! i).
Proof.
  intros I%topics_inv_reach Hleft db'. pose proof (ti_wf _ _ I) as W.
  destruct (backfill_all_ends _ _ _ W Hleft) as (Hp & W' & Em). fold db' in Hp, W', Em. split; [done|].
  intros i m Hm Hl Hen. rewrite <- Em in Hm. unfold enabled_in in Hen.
  destruct (td_settings db' !! ChatMessage_channel_id m) as [s|] eqn:Hs; [|done].
  eapply (wf_covered _ _ W'); try done. intros after Ha.
  assert ((ChatMessage_channel_id m, (after, ts_picked_at s)) ∈ pending_backfill db') as Hin
    by (apply elem_of_pending; eauto). rewrite Hp in Hin. set_solver.
Qed.
End coverage.

(** ** The demonstration *)

#[local] Existing Instance demo_unicode.
#[local] Existing Instance demo_tables.

Lemma demo_done_facts :
  ∃ w, topics_reach (demo_says demo_answer) w ∧ demo_checks w = true.
Proof.
  pose proof demo_done_computed as Hc. destruct demo_done as [w|] eqn:E; [|done].
  exists w. split; [|exact Hc]. eapply exec_topics_reach; [apply reach_start|exact E].
Qed.
Lemma page_of_Some r l :
  page_of r = Some l → ∃ page db', r = (Ok page, db') ∧ (λ mt, tp_message_id (tm_preview mt)) <$> page_matches page = l.
Proof. destruct r as [[page| |] db']; simpl; intros; simplify_eq. eauto. Qed.
Lemma demo_page w actor c key i :
  page_of (matches actor c key 1000 (tw_db w)) = Some [i] →
  ∃ page db' mt, matches actor c key 1000 (tw_db w) = (Ok page, db') ∧ mt ∈ page_matches page.
Proof.
  intros (page & db' & Hm & Hl)%page_of_Some. destruct (page_matches page) as [|mt l] eqn:E; [done|].
  exists page, db', mt. split; [done|]. rewrite E. set_solver.
Qed.
Ltac demo_facts w :=
  let Hc := fresh in
  destruct demo_done_facts as (w & Hreach & Hc);
  unfold demo_checks in Hc; rewrite !andb_true_iff, !bool_decide_eq_true in Hc;
  destruct Hc as (((((Hboats & Hharbour) & Hsea) & Hnone) & Hcount) & Hmember).

Lemma topics_from_current_content_witness :
  ∃ w page db' mt, topics_reach (demo_says demo_answer) w
    ∧ matches ben ben_space (lit "the sea") 1000 (tw_db w) = (Ok page, db') ∧ mt ∈ page_matches page
    ∧ ∃ source, topic_source (tw_db w) (ChatMessage_id (tm_message mt)) = Some source.
Proof.
  demo_facts w. destruct (demo_page _ _ _ _ _ Hsea) as (page & db' & mt & Hm & Hin).
  exists w, page, db', mt. split_and!; [done..|].
  destruct (topics_from_current_content _ w ben ben_space (lit "the sea") 1000 page db' mt Hreach Hm Hin)
    as (source & Hs & _). by exists source.
Defined.

Lemma topic_matches_private_witness :
  ∃ w page db' mt, topics_reach (demo_says demo_answer) w
    ∧ matches ben ben_space (lit "the sea") 1000 (tw_db w) = (Ok page, db') ∧ mt ∈ page_matches page
    ∧ enabled_in (tw_db w) ben_space = true ∧ ChatMessage_deleted_at (tm_message mt) = None.
Proof.
  demo_facts w. destruct (demo_page _ _ _ _ _ Hsea) as (page & db' & mt & Hm & Hin).
  exists w, page, db', mt.
  destruct (proj2 (topic_matches_private _ w ben ben_space (lit "the sea") 1000 Hreach) page db' mt Hm Hin)
    as (? & _ & _ & ? & _). done.
Defined.

Lemma topic_pages_complete_witness :
  ∃ w, topics_reach (demo_says demo_answer) w ∧ is_Some (td_memberships (tw_db w) !! (port, ann))
    ∧ length (topic_messages (tw_db w) ann port (lit "boats") 1000) < 2
    ∧ NoDup (ChatMessage_id ∘ tm_message <$> read_pages 2 ann port (lit "boats") 1000 (tw_db w)).
Proof.
  demo_facts w. apply contains_key_true in Hmember. apply Nat.eqb_eq in Hcount.
  assert (length (topic_messages (tw_db w) ann port (lit "boats") 1000) < 2) as Hlt by lia.
  exists w. split_and!; [done..|].
  exact (proj1 (proj2 (topic_pages_complete _ w ann port (lit "boats") 1000 2 Hreach Hmember Hlt))).
Defined.

Lemma topic_lease_exclusive_witness :
  ∃ w p job, topics_reach (demo_says demo_answer) w ∧ tw_workers w !! 0%N = Some p ∧ phase_job p = Some job
    ∧ is_Some (job_source (tw_db w) (tw_now w) job)
    ∧ ∀ n' p' job', tw_workers w !! n' = Some p' → phase_job p' = Some job' →
        tj_message job' = tj_message job → is_Some (job_source (tw_db w) (tw_now w) job') → n' = 0%N.
Proof.
  pose proof demo_reading_computed as Hc. destruct demo_reading as [w|] eqn:E; [|done].
  assert (topics_reach (demo_says demo_answer) w) as Hreach
    by (eapply exec_topics_reach; [apply reach_start|exact E]). clear E.
  destruct (tw_workers w !! 0%N) as [[| |job body| | | | |]|] eqn:Hp; try done.
  apply andb_true_iff in Hc as [Hcur%bool_decide_eq_true _]. exists w, (Ph_images job body), job.
  split_and!; [done..|].
  exact (proj1 (topic_lease_exclusive _ w 0%N (Ph_images job body) job Hreach Hp eq_refl) Hcur).
Defined.

Lemma backfill_reaches_every_message_witness :
  ∃ w times, topics_reach (demo_says demo_answer) w ∧ backfill_left (tw_db w) ≤ length times
    ∧ pending_backfill (backfill_all times (tw_db w)) = [].
Proof.
  demo_facts w. exists w, (replicate (backfill_left (tw_db w)) 0%Z).
  assert (backfill_left (tw_db w) ≤ length (replicate (backfill_left (tw_db w)) 0%Z)) as Hle
    by by rewrite length_replicate.
  split_and!; [done..|]. exact (proj1 (backfill_reaches_every_message _ w _ Hreach Hle)).
Defined.
