(* ===== verification/Wire.v ===== *)
(** * Wire: the commands and the events of the chat protocol

    Models [wire.rs] and the framing of [lib.rs] in [crates/sproyt-protocol/src], and the types
    of [models.rs] that only they use. The encoding as JSON ([serde]) is not modelled: a frame
    holds the value that was encoded. *)

From Stdlib Require Import ZifyBool.
From stdpp Require Import base tactics numbers strings countable list.
From S2P Require Import Prelude RustStr Text Ids Models.

(** ** Floating point numbers *)

(** The [f64] operations behind the activity score. Their rounding, and [powf] of the C
    library, are not modelled. *)
Class F64Lib := {
  f64 : Type;
  f64_of : Z → f64;
  f64_add : f64 → f64 → f64;
  f64_mul : f64 → f64 → f64;
  f64_div : f64 → f64 → f64;
  f64_neg : f64 → f64;
  f64_powf : f64 → f64 → f64 }.
(** A stand-in: the expression itself. *)
Inductive f64_expr : Type :=
  | FOf (z : Z) | FAdd (x y : f64_expr) | FMul (x y : f64_expr) | FDiv (x y : f64_expr)
  | FNeg (x : f64_expr) | FPow (x y : f64_expr).
Definition demo_f64 : F64Lib := {|
  f64 := f64_expr; f64_of := FOf; f64_add := FAdd; f64_mul := FMul; f64_div := FDiv;
  f64_neg := FNeg; f64_powf := FPow |}.

(** ** Data *)

Inductive InvitationTarget : Type :=
  | TargetCircle (circle_id : CircleId)
  | TargetChannel (circle_id : CircleId) (channel_id : ChannelId).
Inductive InvitationResponse : Type := Declined | Accepted.
Record InvitationPreview : Type := mk_InvitationPreview {
  InvitationPreview_target : InvitationTarget;
  InvitationPreview_circle_name : DisplayName;
  InvitationPreview_channel_name : option DisplayName;
  InvitationPreview_invited_by : UserId;
  InvitationPreview_invited_by_name : DisplayName;
  InvitationPreview_expires_at : DateTime;
  InvitationPreview_response : option InvitationResponse;
  InvitationPreview_accepted_count : N;
  InvitationPreview_declined_count : N }.
Record IssuedChatInvitation : Type := mk_IssuedChatInvitation {
  IssuedChatInvitation_target : InvitationTarget;
  IssuedChatInvitation_token : str;
  IssuedChatInvitation_expires_at : DateTime }.
Record AcceptedChatInvitation : Type := mk_AcceptedChatInvitation {
  AcceptedChatInvitation_target : InvitationTarget;
  AcceptedChatInvitation_channel : Channel }.
Record InboxMention : Type := mk_InboxMention {
  InboxMention_message : ChatMessage;
  InboxMention_channel_name : DisplayName;
  InboxMention_read : bool }.
Record UserTask : Type := mk_UserTask {
  UserTask_id : Uuid;
  UserTask_source_message_id : MessageId;
  UserTask_channel_id : ChannelId;
  UserTask_channel_name : DisplayName;
  UserTask_assignee_id : UserId;
  UserTask_created_by : UserId;
  UserTask_process_link_id : option Uuid;
  UserTask_title : str;
  UserTask_status : str;
  UserTask_created_at : DateTime;
  UserTask_completed_at : option DateTime }.

Record DirectActivity `{F64Lib} : Type := mk_DirectActivity {
  DirectActivity_last_message_at : option DateTime;
  DirectActivity_score : f64;
  DirectActivity_calculated_at : DateTime }.
Record ChannelSummary `{F64Lib} : Type := mk_ChannelSummary {
  ChannelSummary_id : ChannelId;
  ChannelSummary_slug : ChannelSlug;
  ChannelSummary_name : DisplayName;
  ChannelSummary_kind : ChannelKind;
  ChannelSummary_circle_id : option CircleId;
  ChannelSummary_direct_user_id : option UserId;
  ChannelSummary_is_direct : bool;
  ChannelSummary_is_personal : bool;
  ChannelSummary_direct_activity : option DirectActivity;
  ChannelSummary_description : str;
  ChannelSummary_role : MembershipRole;
  ChannelSummary_last_read_sequence : ChannelSequence;
  ChannelSummary_latest_sequence : ChannelSequence }.
#[export] Instance ChannelSummary_eta `{F64Lib} : Eta ChannelSummary := λ c,
  mk_ChannelSummary _ (ChannelSummary_id c) (ChannelSummary_slug c) (ChannelSummary_name c)
    (ChannelSummary_kind c) (ChannelSummary_circle_id c) (ChannelSummary_direct_user_id c)
    (ChannelSummary_is_direct c) (ChannelSummary_is_personal c) (ChannelSummary_direct_activity c)
    (ChannelSummary_description c) (ChannelSummary_role c) (ChannelSummary_last_read_sequence c)
    (ChannelSummary_latest_sequence c).

(** ** Commands *)

Inductive ClientCommand : Type :=
  | CmdHello
  | CmdListUsers
  | CmdListCircleMembers (circle_id : CircleId)
  | CmdSetCircleMemberRole (circle_id : CircleId) (user_id : UserId) (role : CircleRole)
  | CmdListCircleUsers (circle_id : CircleId)
  | CmdSetStatus (text emoji : str) (expires_at : option DateTime)
  | CmdUpdateProfile (display_name : str)
  | CmdOpenDirectChannel (user_id : UserId)
  | CmdExpandDirectChannel (channel_id : ChannelId) (user_id : UserId)
  | CmdCreateChannel (slug name : str) (kind : ChannelKind) (circle_id : option CircleId)
  | CmdJoinChannel (channel : ChannelRef)
  | CmdLeaveChannel (channel_id : ChannelId)
  | CmdListMyChannels
  | CmdListChannelUsers (channel_id : ChannelId)
  | CmdUpdateChannelDescription (channel_id : ChannelId) (description : str)
  | CmdListJoinableChannels (circle_id : option CircleId)
  | CmdAddChannelMember (channel_id : ChannelId) (user_id : UserId)
  | CmdLoadRecentMessages (channel_id : ChannelId) (limit : option N)
      (after before : option ChannelSequence)
  | CmdLoadThread (root_message_id : MessageId)
  | CmdListThreadSummaries (channel_id : ChannelId)
  | CmdMarkThreadRead (root_message_id : MessageId) (sequence : ChannelSequence)
  | CmdSubscribeChannel (channel_id : ChannelId)
  | CmdUnsubscribeChannel (channel_id : ChannelId)
  | CmdSendMessage (channel_id : ChannelId) (parent_message_id : option MessageId) (body : str)
  | CmdEditMessage (message_id : MessageId) (body : str)
  | CmdDeleteMessage (message_id : MessageId)
  | CmdListChannelReactions (channel_id : ChannelId)
  | CmdToggleMessageReaction (message_id : MessageId) (emoji : str)
  | CmdMarkRead (channel_id : ChannelId) (sequence : ChannelSequence)
  | CmdListMentions
  | CmdMarkMentionRead (message_id : MessageId)
  | CmdCreateTask (source_message_id : MessageId) (assignee_id : UserId) (title : str)
      (process_link_id : option Uuid)
  | CmdListTasks
  | CmdSetTaskDone (task_id : Uuid) (done : bool)
  | CmdPing
  | CmdCreateCircle (slug name : str)
  | CmdRenameCircle (circle_id : CircleId) (name : str)
  | CmdListMyCircles
  | CmdDeleteCircle (circle_id : CircleId)
  | CmdLeaveCircle (circle_id : CircleId)
  | CmdCreateCircleInvitation (circle_id : CircleId)
  | CmdAcceptCircleInvitation (token : str)
  | CmdCreateInvitation (target : InvitationTarget)
  | CmdInspectInvitation (token : str)
  | CmdDeclineInvitation (token : str)
  | CmdAcceptInvitation (token : str).

(** ** Events *)

Inductive ServerEvent `{F64Lib} : Type :=
  | EvHello (participant_id : UserId) (signup_ordinal : option N)
  | EvUsersListed (users : list UserProfile)
  | EvCircleMembersListed (circle_id : CircleId) (members : list (UserProfile * CircleRole))
  | EvCircleMemberRoleChanged (membership : CircleMembership)
  | EvCircleUsersListed (circle_id : CircleId) (users : list UserProfile)
  | EvStatusUpdated (profile : UserProfile)
  | EvProfileUpdated (profile : UserProfile)
  | EvDirectChannelOpened (channel : Channel)
  | EvDirectChannelExpanded (channel : Channel)
  | EvChannelCreated (channel : Channel)
  | EvMembershipJoined (membership : Membership)
  | EvMembershipLeft (channel_id : ChannelId)
  | EvChannelsListed (channels : list ChannelSummary)
  | EvChannelUsersListed (channel_id : ChannelId) (users : list UserProfile)
  | EvChannelDescriptionUpdated (channel_id : ChannelId) (description : str)
  | EvJoinableChannelsListed (channels : list DiscoverableChannel)
  | EvChannelMemberAdded (membership : Membership)
  | EvMessagesLoaded (channel_id : ChannelId) (messages : list ChatMessage)
  | EvThreadLoaded (root_message_id : MessageId) (messages : list ChatMessage)
  | EvThreadSummariesListed (channel_id : ChannelId) (summaries : list ThreadSummary)
  | EvThreadReadUpdated (summary : ThreadSummary)
  | EvSubscriptionStarted (channel_id : ChannelId) (history : list ChatMessage)
  | EvSubscriptionEnded (channel_id : ChannelId)
  | EvMessageAccepted (message : ChatMessage)
  | EvMessageEdited (message : ChatMessage)
  | EvMessageDeleted (message : ChatMessage)
  | EvChannelReactionsListed (channel_id : ChannelId) (reactions : list MessageReactionSummary)
  | EvMessageReactionChanged (change : MessageReactionChange)
  | EvReadMarkerUpdated (membership : Membership)
  | EvMentionsListed (mentions : list InboxMention)
  | EvMentionRead (message_id : MessageId)
  | EvTaskCreated (task : UserTask)
  | EvTasksListed (tasks : list UserTask)
  | EvTaskUpdated (task : UserTask)
  | EvChat (event : ChatEvent)
  | EvLagged (channel_id : ChannelId) (last_seen_sequence latest_known_sequence : ChannelSequence)
      (skipped : N) (hint : str)
  | EvPong
  | EvCircleCreated (circle : Circle)
  | EvCircleRenamed (circle : Circle)
  | EvCirclesChanged
  | EvCirclesListed (circles : list (Circle * CircleRole))
  | EvCircleDeleted (circle_id : CircleId)
  | EvCircleLeft (circle_id : CircleId)
  | EvCircleInvitationCreated (invitation : IssuedInvitation)
  | EvCircleInvitationAccepted (membership : CircleMembership)
  | EvInvitationCreated (invitation : IssuedChatInvitation)
  | EvInvitationInspected (token : str) (invitation : InvitationPreview)
  | EvInvitationDeclined (token : str) (invitation : InvitationPreview)
  | EvInvitationAccepted (token : str) (invitation : AcceptedChatInvitation)
  | EvError (code message : str).

(** ** Framing *)

Definition PROTOCOL_ID : str := lit "sproyt.chat.v1".
Inductive ProtocolVersion : Type := Supported | Unsupported.
Definition check_protocol (value : str) : ProtocolVersion :=
  if bool_decide (value = PROTOCOL_ID) then Supported else Unsupported.

Record ClientEnvelope : Type := mk_ClientEnvelope {
  ClientEnvelope_protocol : str;
  ClientEnvelope_request_id : str;
  ClientEnvelope_command : ClientCommand }.
Record ServerEnvelope `{F64Lib} : Type := mk_ServerEnvelope {
  ServerEnvelope_protocol : str;
  ServerEnvelope_request_id : option str;
  ServerEnvelope_event : ServerEvent }.
Definition ServerEnvelope_response `{F64Lib} (request_id : str) (event : ServerEvent) : ServerEnvelope :=
  mk_ServerEnvelope _ PROTOCOL_ID (Some request_id) event.
Definition ServerEnvelope_unsolicited `{F64Lib} (event : ServerEvent) : ServerEnvelope :=
  mk_ServerEnvelope _ PROTOCOL_ID None event.
