(* ===== verification/ChannelList.v ===== *)
(** * ChannelList: the channels of a user

    Models [list_channels_for_user] of the in-memory repository ([src/domain/repository.rs])
    with the activity of direct conversations ([src/domain/direct_activity.rs]). A day is its
    number since the epoch. *)

From Stdlib Require Import ZifyBool.
From stdpp Require Import base tactics numbers strings countable sorting gmap list.
From S2P Require Import Prelude RustStr Text Ids Models Policy RepoState Wire.

(** ** Activity of a direct conversation *)

Definition NANOS_PER_SECOND : Z := 1000000000.
Definition NANOS_PER_DAY : Z := 86400 * NANOS_PER_SECOND.
(** [DateTime::date_naive], and midnight of a day in UTC. *)
Definition date_naive (t : DateTime) : Z := (t / NANOS_PER_DAY)%Z.
Definition midnight (day : Z) : DateTime := (day * NANOS_PER_DAY)%Z.
(** [TimeDelta::num_seconds] rounds towards zero. *)
Definition num_seconds (delta : Z) : Z := (delta ÷ NANOS_PER_SECOND)%Z.

Section activity.
Context `{F64Lib}.

(** [direct_activity::empty] *)
Definition activity_empty (now : DateTime) : DirectActivity := mk_DirectActivity _ None (f64_of 0) now.
Definition add_day (activity : DirectActivity) (day : Z) (latest : DateTime)
    (actor_sent others_sent : bool) : DirectActivity :=
  let last := match DirectActivity_last_message_at activity with
              | Some old => Z.max old latest | None => latest end in
  let now := DirectActivity_calculated_at activity in
  let score := DirectActivity_score activity in
  let score :=
    if actor_sent then
      let start := midnight day in
      let age_days := f64_div (f64_of (Z.max (num_seconds (now - start)) 0)) (f64_of 86400) in
      f64_add score
        (f64_mul (f64_add (f64_of 1) (f64_of (if others_sent then 1 else 0)))
                 (f64_powf (f64_of 2) (f64_div (f64_neg age_days) (f64_of 30))))
    else score in
  mk_DirectActivity _ (Some last) score now.

(** The days with messages: the time of the last one, whether the actor wrote, and whether
    another person did. *)
Definition note_message (st : RepositoryState) (actor : UserId) (days : gmap Z (DateTime * bool * bool))
    (message : ChatMessage) : gmap Z (DateTime * bool * bool) :=
  let sent_at := ChatMessage_sent_at message in
  let '(latest, actor_sent, others_sent) :=
    default (sent_at, false, false) (days !! date_naive sent_at) in
  let latest := Z.max latest sent_at in
  let human := match users st !! ChatMessage_sender_id message with
               | Some u => bool_decide (User_kind u = Human) | None => false end in
  let own := bool_decide (ChatMessage_sender_id message = actor) in
  <[date_naive sent_at := (latest, actor_sent || human && own, others_sent || human && negb own)]> days.
Definition active_days (st : RepositoryState) (actor : UserId) (c : ChannelId)
    : gmap Z (DateTime * bool * bool) :=
  foldl (note_message st actor) ∅
    (List.filter (λ m, bool_decide (ChatMessage_deleted_at m = None)) (channel_messages st c)).
(** A [BTreeMap] is read in the order of its keys. *)
Definition days_in_order (days : gmap Z (DateTime * bool * bool)) : list (Z * (DateTime * bool * bool)) :=
  sort_by_key Z.le fst (map_to_list days).
Definition direct_activity (st : RepositoryState) (now : DateTime) (actor : UserId) (c : ChannelId)
    : DirectActivity :=
  foldl (λ activity '(day, (latest, actor_sent, others_sent)),
           add_day activity day latest actor_sent others_sent)
    (activity_empty now) (days_in_order (active_days st actor c)).

(** ** The list *)

Definition is_direct_channel (st : RepositoryState) (c : ChannelId) : bool :=
  any (λ id, bool_decide (id = c)) (values (direct_conversations st))
  || contains_key c (direct_group_conversations st).
(** The first entry of [direct_conversations] for the channel; there is at most one. *)
Fixpoint direct_partner (actor : UserId) (c : ChannelId)
    (entries : list ((UserId * UserId) * ChannelId)) : option UserId :=
  match entries with
  | [] => None
  | ((lower, upper), id) :: entries =>
      if bool_decide (id = c) then Some (if bool_decide (lower = actor) then upper else lower)
      else direct_partner actor c entries
  end.
Definition channel_summary (st : RepositoryState) (actor : UserId) (membership : Membership)
    : option ChannelSummary :=
  channel ← channels st !! Membership_channel_id membership;
  let c := Channel_id channel in
  Some {|
    ChannelSummary_id := c;
    ChannelSummary_slug := Channel_slug channel;
    ChannelSummary_name := Channel_name channel;
    ChannelSummary_kind := Channel_kind channel;
    ChannelSummary_circle_id := Channel_circle_id channel;
    ChannelSummary_direct_user_id := direct_partner actor c (map_to_list (direct_conversations st));
    ChannelSummary_is_direct := is_direct_channel st c;
    ChannelSummary_is_personal :=
      match personal_spaces st !! actor with Some (id, _) => bool_decide (id = c) | None => false end;
    ChannelSummary_direct_activity := None;
    ChannelSummary_description := default [] (channel_descriptions st !! c);
    ChannelSummary_role := Membership_role membership;
    ChannelSummary_last_read_sequence := Membership_last_read_sequence membership;
    ChannelSummary_latest_sequence :=
      match last (channel_messages st c) with
      | Some message => ChatMessage_sequence message | None => ChannelSequence_new 0 end |}.
Definition with_activity (st : RepositoryState) (now : DateTime) (actor : UserId)
    (channel : ChannelSummary) : ChannelSummary :=
  if ChannelSummary_is_direct channel
  then channel <| ChannelSummary_direct_activity :=
                    Some (direct_activity st now actor (ChannelSummary_id channel)) |>
  else channel.
Definition list_channels_for_user (now : DateTime) (actor : UserId) : Repo (list ChannelSummary) :=
  let! st := get in
  let own := List.filter (λ m, bool_decide (Membership_user_id m = actor)) (values (memberships st)) in
  let channels := omap (channel_summary st actor) own in
  let channels := with_activity st now actor <$> channels in
  st_ret (sort_by_key str_le (ChannelSlug_as_str ∘ ChannelSummary_slug) channels).
End activity.
