(* ===== verification/EngineServices.v ===== *)
(** * EngineServices: the channel list, invitations, mentions, tasks and presence leases

    The methods of [ChatEngine] ([src/chat.rs]) that are not in [ChatEngine]. For invitations
    by link, mentions, tasks and presence leases the in-memory repository has the defaults of
    the trait [ChatRepository] ([src/domain/repository.rs]). *)

From Stdlib Require Import ZifyBool.
From stdpp Require Import base tactics numbers strings countable sorting gmap list.
From S2P Require Import Prelude RustStr Text Ids Models Policy RepoState ChatActor ChatEngine Wire ChannelList.

(** ** The trait's defaults *)

Module RepoDefaults.
Record CreateChatInvitation : Type := mk_CreateChatInvitation {
  CreateChatInvitation_actor : UserId;
  CreateChatInvitation_target : InvitationTarget }.
Record InvitationTokenCommand : Type := mk_InvitationTokenCommand {
  InvitationTokenCommand_actor : UserId;
  InvitationTokenCommand_token : str }.
Definition create_chat_invitation (_ : CreateChatInvitation) : Repo IssuedChatInvitation := throw NotFound.
Definition inspect_chat_invitation (_ : InvitationTokenCommand) : Repo InvitationPreview := throw NotFound.
Definition decline_chat_invitation (_ : InvitationTokenCommand) : Repo InvitationPreview := throw NotFound.
Definition accept_chat_invitation (_ : InvitationTokenCommand) : Repo AcceptedChatInvitation := throw NotFound.
Definition list_mentions (_ : UserId) : Repo (list InboxMention) := st_ret [].
Definition mark_mention_read (_ : UserId) (_ : MessageId) : Repo unit := throw NotFound.
Definition create_task (_ : UserId) (_ : MessageId) (_ : UserId) (_ : str) (_ : option Uuid)
    : Repo UserTask := throw NotFound.
Definition list_tasks (_ : UserId) : Repo (list UserTask) := st_ret [].
Definition set_task_done (_ : UserId) (_ : Uuid) (_ : bool) : Repo UserTask := throw NotFound.
Definition renew_presence (_ : list PresenceLease) : Repo unit := st_ret tt.
End RepoDefaults.

(** ** The engine *)

Module EngineServices.
Section methods.
Context `{F64Lib}.
Import RepoDefaults.

Definition list_channels (now : DateTime) (actor : UserId) : Engine (list ChannelSummary) :=
  repo (list_channels_for_user now actor).

Definition create_invitation (actor : UserId) (target : InvitationTarget) : Engine IssuedChatInvitation :=
  repo (create_chat_invitation (mk_CreateChatInvitation actor target)).
Definition inspect_invitation (actor : UserId) (token : str) : Engine InvitationPreview :=
  repo (inspect_chat_invitation (mk_InvitationTokenCommand actor token)).
Definition decline_invitation (actor : UserId) (token : str) : Engine InvitationPreview :=
  repo (decline_chat_invitation (mk_InvitationTokenCommand actor token)).
Definition accept_invitation (actor : UserId) (token : str) : Engine AcceptedChatInvitation :=
  repo (accept_chat_invitation (mk_InvitationTokenCommand actor token)).

Definition list_mentions (actor : UserId) : Engine (list InboxMention) :=
  repo (RepoDefaults.list_mentions actor).
Definition mark_mention_read (actor : UserId) (message_id : MessageId) : Engine unit :=
  repo (RepoDefaults.mark_mention_read actor message_id).

Definition create_task (actor : UserId) (source_message_id : MessageId) (assignee_id : UserId)
    (title : str) (process_link_id : option Uuid) : Engine UserTask :=
  ensure (negb (bool_decide (trim title = []))) (Validation (Empty "task title")) ;;;
  ensure (negb (240 <? len title)%N) (Validation (TooLarge "task title" 240)) ;;;
  repo (RepoDefaults.create_task actor source_message_id assignee_id (trim title) process_link_id).
Definition list_tasks (actor : UserId) : Engine (list UserTask) := repo (RepoDefaults.list_tasks actor).
Definition set_task_done (actor : UserId) (task_id : Uuid) (done : bool) : Engine UserTask :=
  repo (RepoDefaults.set_task_done actor task_id done).

(** [PRESENCE_LEASE_TTL] is the lease's time in a distributed deployment. *)
Definition renew_presence (participant_id : UserId) (subscriptions : list (ChannelId * ConnectionId))
    : Engine unit :=
  let leases := (λ '(channel_id, connection_id),
    mk_PresenceLease channel_id participant_id (ConnectionId_uuid connection_id)) <$> subscriptions in
  repo (RepoDefaults.renew_presence leases).
End methods.
End EngineServices.
