(* ===== verification/Transport.v ===== *)
(** * Transport: commands of a client on the engine

    Models [execute_command], [disconnect], [disconnect_inaccessible_channels],
    [spawn_subscription], [queue_event] and [error_event] of [src/ws.rs]. A command is a
    [Task]: between two calls of the engine anything may happen on other connections, so a
    task is a tree of calls with what follows each result. The engine's generated values
    are the [Inputs] of a call. *)

From Stdlib Require Import ZifyBool.
From stdpp Require Import base tactics numbers strings countable sorting gmap list.
From S2P Require Import Prelude RustStr Text Ids Models Policy RepoState RepoMessages RepoChannels RepoCircles RepoUsers ChatActor ActorLaws ChatEngine Wire ChannelList EngineServices.

(** ** Generated values *)

Record Inputs : Type := mk_Inputs {
  in_now : DateTime;
  in_joined_at : DateTime;
  in_channel : ChannelId;
  in_slug : Uuid;
  in_circle : CircleId;
  in_message : MessageId;
  in_invitation : InvitationId;
  in_secret : Res str (list N);
  in_connection : ConnectionId }.

Section transport.
Context `{Unicode, UuidLib, CryptoLib, EngineLib, F64Lib}.

(** ** Subscription tasks *)

(** Where the loop of [spawn_subscription] waits: for an event, for the latest sequence, or
    for room in the queue (to continue, or to end after an error). *)
Inductive SubscriptionPhase : Type :=
  | Receiving
  | AskingLatest (skipped : nat)
  | Queueing (message : ServerEnvelope)
  | QueueingLast (message : ServerEnvelope).
(** [task_aborted] is set by [abort]; the task stops at a later point of its own. The last three
    fields are for the theorems: where the task began and what it has queued. *)
Record SubscriptionTask : Type := mk_SubscriptionTask {
  task_channel : ChannelId;
  task_receiver : nat;
  task_last_seen : ChannelSequence;
  task_phase : SubscriptionPhase;
  task_aborted : bool;
  task_start : nat;
  task_first_seen : ChannelSequence;
  task_queued : list ServerEvent }.
#[export] Instance SubscriptionTask_eta : Eta SubscriptionTask := λ t,
  mk_SubscriptionTask (task_channel t) (task_receiver t) (task_last_seen t) (task_phase t)
    (task_aborted t) (task_start t) (task_first_seen t) (task_queued t).

(** The subscriptions of a connection by channel ([ActiveSubscription]: a connection and a
    task), and the tasks by connection. *)
Record Locals : Type := mk_Locals {
  subscriptions : gmap ChannelId ConnectionId;
  tasks : gmap ConnectionId SubscriptionTask }.
#[export] Instance Locals_eta : Eta Locals := λ l, mk_Locals (subscriptions l) (tasks l).
Definition Locals_empty : Locals := mk_Locals ∅ ∅.

(** [active.task.abort()] *)
Definition abort (conn : ConnectionId) (l : Locals) : Locals :=
  l <| tasks := alter (λ t, t <| task_aborted := true |>) conn (tasks l) |>.
(** [subscriptions.remove(c)] and the [abort] of what it held. *)
Definition forget (c : ChannelId) (conn : ConnectionId) (l : Locals) : Locals :=
  abort conn (l <| subscriptions := delete c (subscriptions l) |>).

(** ** Tasks *)

(** The result of an awaited call that did not panic. *)
Definition Outcome (A : Type) : Type := A + ChatError.

(** A call that panics unwinds the task. The calls that enter and leave a channel are kept
    apart from the others. *)
Inductive Task (A : Type) : Type :=
  | Ready (a : A)
  | Unwind
  | Read (k : Locals → Task A)
  | Update (f : Locals → Locals) (t : Task A)
  | Call (X : Type) (m : Inputs → Engine X) (k : Outcome X → Task A)
  | CallSubscribe (channel_id : ChannelId) (k : Outcome ChannelSubscription → Task A)
  | CallLeave (channel_id : ChannelId) (conn : ConnectionId) (t : Task A).
Arguments Ready {A}.
Arguments Unwind {A}.
Arguments Read {A}.
Arguments Update {A}.
Arguments Call {A X}.
Arguments CallSubscribe {A}.
Arguments CallLeave {A}.

Fixpoint task_bind {A B} (t : Task A) (f : A → Task B) : Task B :=
  match t with
  | Ready a => f a
  | Unwind => Unwind
  | Read k => Read (λ l, task_bind (k l) f)
  | Update g t => Update g (task_bind t f)
  | Call m k => Call m (λ r, task_bind (k r) f)
  | CallSubscribe c k => CallSubscribe c (λ r, task_bind (k r) f)
  | CallLeave c conn t => CallLeave c conn (task_bind t f)
  end.

(** Run to the next call: reading and updating the connection's own state needs no waiting. *)
Fixpoint settle {A} (t : Task A) (l : Locals) : Task A * Locals :=
  match t with
  | Read k => settle (k l) l
  | Update f t => settle t (f l)
  | t => (t, l)
  end.

Fixpoint for_each {A} (f : A → Task unit) (xs : list A) : Task unit :=
  match xs with
  | [] => Ready tt
  | x :: xs => task_bind (f x) (λ _, for_each f xs)
  end.

Definition outcome_of {A} (r : Res ChatError A) : option (Outcome A) :=
  match r with Ok a => Some (inl a) | Err e => Some (inr e) | Panic => None end.
(** The task goes on with the result of a call, or unwinds. *)
Definition resume {A X} (k : Outcome X → Task A) (r : Res ChatError X) : Task A :=
  match outcome_of r with Some o => k o | None => Unwind end.

(** ** Errors *)

Definition error_code (error : ChatError) : str :=
  match error with
  | Repository Quota => lit "quota"
  | EngineStopped => lit "engine_stopped"
  | Repository Conflict => lit "conflict"
  | Repository NotFound => lit "not_found"
  | Repository PermissionDenied => lit "permission_denied"
  | Repository (Storage _) => lit "storage_error"
  | Validation _ => lit "validation_error"
  end.
Definition error_event (error : ChatError) : ServerEvent :=
  EvError (error_code error) (ChatError_public_message error).

(** ** Commands *)

Section command.
Context (participant_id : UserId).

Abbreviation Reply := (Task (Outcome ServerEvent)) (only parsing).

(** [chat.method(..).await.map(event)] *)
Definition reply {X} (m : Inputs → Engine X) (event : X → ServerEvent) : Reply :=
  Call m (λ r, Ready (match r with inl x => inl (event x) | inr e => inr e end)).
(** [constructor(value)?] *)
Definition validated_as {X} (r : Res TextValidationError X) (k : X → Reply) : Reply :=
  match r with Ok x => k x | Err e => Ready (inr (Validation e)) | Panic => Unwind end.
(** [chat.method(..).await?] and what follows. *)
Definition reply_after {X} (m : Inputs → Engine X) (k : X → Reply) : Reply :=
  Call m (λ r, match r with inl x => k x | inr e => Ready (inr e) end).

Definition disconnect (c : ChannelId) : Task unit :=
  Read (λ l, match subscriptions l !! c with
             | Some conn => Update (forget c conn) (CallLeave c conn (Ready tt))
             | None => Ready tt
             end).

Definition disconnect_inaccessible_channels : Task unit :=
  Call (λ i, EngineServices.list_channels (in_now i) participant_id) (λ visible_channels,
    Read (λ l,
      let hidden c := match visible_channels with
                      | inl channels => negb (any (λ ch, bool_decide (ChannelSummary_id ch = c)) channels)
                      | inr _ => true
                      end in
      for_each disconnect (List.filter hidden (map_to_list (subscriptions l)).*1))).

(** [spawn_subscription] and the entry for it. *)
Definition start_subscription (c : ChannelId) (sub : ChannelSubscription) (l : Locals) : Locals :=
  let conn := ChannelSubscription_connection_id sub in
  let last_seen := match last (ChannelSubscription_history sub) with
                   | Some message => ChatMessage_sequence message | None => ChannelSequence_new 0 end in
  let receiver := ChannelSubscription_receiver sub in
  mk_Locals (<[c := conn]> (subscriptions l))
    (<[conn := mk_SubscriptionTask c receiver last_seen Receiving false receiver last_seen []]> (tasks l)).
Definition subscribe_channel (c : ChannelId) : Reply :=
  task_bind (disconnect c) (λ _,
    CallSubscribe c (λ r,
      match r with
      | inl sub => Update (start_subscription c sub)
                     (Ready (inl (EvSubscriptionStarted c (ChannelSubscription_history sub))))
      | inr error => Ready (inr error)
      end)).

Definition execute (request_id : str) (command : ClientCommand) : Reply :=
  match command with
  | CmdHello => reply (λ _, Engine.signup_ordinal participant_id) (EvHello participant_id)
  | CmdListUsers => reply (λ i, Engine.list_users (in_now i) participant_id) EvUsersListed
  | CmdListCircleMembers circle_id =>
      reply (λ i, Engine.list_circle_members (in_now i) participant_id circle_id)
        (EvCircleMembersListed circle_id)
  | CmdSetCircleMemberRole circle_id user_id role =>
      reply (λ _, Engine.set_circle_member_role (mk_SetCircleMemberRole participant_id circle_id user_id role))
        EvCircleMemberRoleChanged
  | CmdListCircleUsers circle_id =>
      reply (λ i, Engine.list_circle_users (in_now i) participant_id circle_id) (EvCircleUsersListed circle_id)
  | CmdSetStatus text emoji expires_at =>
      reply (λ i, Engine.set_status (in_now i) participant_id text emoji expires_at) EvStatusUpdated
  | CmdUpdateProfile display_name =>
      reply (λ _, Engine.update_profile participant_id display_name) EvProfileUpdated
  | CmdOpenDirectChannel user_id =>
      reply (λ i, Engine.open_direct_channel (in_channel i) (in_slug i) participant_id user_id)
        EvDirectChannelOpened
  | CmdExpandDirectChannel channel_id user_id =>
      reply (λ i, Engine.expand_direct_channel (in_channel i) (in_slug i) participant_id channel_id user_id)
        EvDirectChannelExpanded
  | CmdCreateChannel slug name kind circle_id =>
      validated_as (ChannelSlug_new slug) (λ slug,
        validated_as (DisplayName_new name) (λ name,
          reply (λ i, Engine.create_channel (in_channel i) participant_id slug name kind circle_id)
            EvChannelCreated))
  | CmdJoinChannel channel => reply (λ _, Engine.join_channel participant_id channel) EvMembershipJoined
  | CmdLeaveChannel channel_id =>
      reply_after (λ _, Engine.leave_channel participant_id channel_id) (λ _,
        task_bind (disconnect channel_id) (λ _, Ready (inl (EvMembershipLeft channel_id))))
  | CmdListMyChannels => reply (λ i, EngineServices.list_channels (in_now i) participant_id) EvChannelsListed
  | CmdListChannelUsers channel_id =>
      reply (λ i, Engine.list_channel_users (in_now i) participant_id channel_id) (EvChannelUsersListed channel_id)
  | CmdUpdateChannelDescription channel_id description =>
      reply (λ _, Engine.update_channel_description participant_id channel_id description)
        (EvChannelDescriptionUpdated channel_id)
  | CmdListJoinableChannels circle_id =>
      reply (λ _, Engine.list_joinable_channels participant_id circle_id) EvJoinableChannelsListed
  | CmdAddChannelMember channel_id user_id =>
      reply (λ _, Engine.add_channel_member participant_id channel_id user_id) EvChannelMemberAdded
  | CmdLoadRecentMessages channel_id limit after before =>
      reply (λ _, Engine.load_messages participant_id channel_id (MessageLimit_new (default 50%N limit)) after before)
        (EvMessagesLoaded channel_id)
  | CmdLoadThread root_message_id =>
      reply (λ _, Engine.load_thread participant_id root_message_id) (EvThreadLoaded root_message_id)
  | CmdListThreadSummaries channel_id =>
      reply (λ _, Engine.list_thread_summaries participant_id channel_id) (EvThreadSummariesListed channel_id)
  | CmdMarkThreadRead root_message_id sequence =>
      reply (λ _, Engine.mark_thread_read participant_id root_message_id sequence) EvThreadReadUpdated
  | CmdSubscribeChannel channel_id => subscribe_channel channel_id
  | CmdUnsubscribeChannel channel_id =>
      task_bind (disconnect channel_id) (λ _, Ready (inl (EvSubscriptionEnded channel_id)))
  | CmdSendMessage channel_id parent_message_id body =>
      validated_as (MessageBody_new body) (λ body,
        reply (λ i,
          match parent_message_id with
          | Some parent => Engine.send_thread_reply_idempotent (in_message i) (in_now i) channel_id
                             participant_id parent body request_id
          | None => Engine.send_message_idempotent (in_message i) (in_now i) channel_id participant_id
                      body request_id
          end) EvMessageAccepted)
  | CmdEditMessage message_id body =>
      validated_as (MessageBody_new body) (λ body,
        reply (λ i, Engine.edit_message (in_now i) participant_id message_id body) EvMessageEdited)
  | CmdDeleteMessage message_id =>
      reply (λ i, Engine.delete_message (in_now i) participant_id message_id) EvMessageDeleted
  | CmdListChannelReactions channel_id =>
      reply (λ _, Engine.list_channel_reactions participant_id channel_id) (EvChannelReactionsListed channel_id)
  | CmdToggleMessageReaction message_id emoji =>
      reply (λ _, Engine.toggle_reaction participant_id message_id emoji) EvMessageReactionChanged
  | CmdMarkRead channel_id sequence =>
      reply (λ _, Engine.mark_read participant_id channel_id sequence) EvReadMarkerUpdated
  | CmdListMentions => reply (λ _, EngineServices.list_mentions participant_id) EvMentionsListed
  | CmdMarkMentionRead message_id =>
      reply (λ _, EngineServices.mark_mention_read participant_id message_id) (λ _, EvMentionRead message_id)
  | CmdCreateTask source_message_id assignee_id title process_link_id =>
      reply (λ _, EngineServices.create_task participant_id source_message_id assignee_id title process_link_id)
        EvTaskCreated
  | CmdListTasks => reply (λ _, EngineServices.list_tasks participant_id) EvTasksListed
  | CmdSetTaskDone task_id done =>
      reply (λ _, EngineServices.set_task_done participant_id task_id done) EvTaskUpdated
  | CmdCreateCircle slug name =>
      validated_as (ChannelSlug_new slug) (λ slug,
        validated_as (DisplayName_new name) (λ name,
          reply (λ i, Engine.create_circle (in_circle i) (in_now i) participant_id slug name) EvCircleCreated))
  | CmdRenameCircle circle_id name =>
      validated_as (DisplayName_circle_name name) (λ name,
        reply (λ _, Engine.rename_circle participant_id circle_id name) EvCircleRenamed)
  | CmdListMyCircles => reply (λ _, Engine.list_circles participant_id) EvCirclesListed
  | CmdDeleteCircle circle_id =>
      reply_after (λ _, Engine.delete_circle participant_id circle_id) (λ _,
        task_bind disconnect_inaccessible_channels (λ _, Ready (inl (EvCircleDeleted circle_id))))
  | CmdLeaveCircle circle_id =>
      reply_after (λ _, Engine.leave_circle participant_id circle_id) (λ _,
        task_bind disconnect_inaccessible_channels (λ _, Ready (inl (EvCircleLeft circle_id))))
  | CmdCreateCircleInvitation circle_id =>
      reply (λ i, Engine.create_circle_invitation (in_secret i) (in_invitation i) (in_now i) participant_id circle_id)
        EvCircleInvitationCreated
  | CmdAcceptCircleInvitation token =>
      reply (λ i, Engine.accept_circle_invitation (in_now i) (in_joined_at i) participant_id token)
        EvCircleInvitationAccepted
  | CmdCreateInvitation target =>
      reply (λ _, EngineServices.create_invitation participant_id target) EvInvitationCreated
  | CmdInspectInvitation token =>
      reply (λ _, EngineServices.inspect_invitation participant_id token) (EvInvitationInspected token)
  | CmdDeclineInvitation token =>
      reply (λ _, EngineServices.decline_invitation participant_id token) (EvInvitationDeclined token)
  | CmdAcceptInvitation token =>
      reply (λ _, EngineServices.accept_invitation participant_id token) (EvInvitationAccepted token)
  | CmdPing =>
      Read (λ l, reply (λ _, EngineServices.renew_presence participant_id (map_to_list (subscriptions l)))
                   (λ _, EvPong))
  end.

Definition execute_command (envelope : ClientEnvelope) : Task ServerEnvelope :=
  let request_id := ClientEnvelope_request_id envelope in
  task_bind (execute request_id (ClientEnvelope_command envelope)) (λ result,
    Ready (ServerEnvelope_response request_id
      match result with inl event => event | inr error => error_event error end)).

(** The loop after the end of [handle_socket]'s loop. *)
Definition leave_all : Task unit :=
  Read (λ l, for_each (λ '(c, conn), Update (forget c conn) (CallLeave c conn (Ready tt)))
               (map_to_list (subscriptions l))).

(** One call of a task that has settled. *)
Definition call_engine {A} (t : Task A) (i : Inputs) (e : ChatEngine) : option (Task A * ChatEngine) :=
  match t with
  | Call m k => let '(r, e') := m i e in Some (resume k r, e')
  | CallSubscribe c k =>
      let '(r, e') := Engine.subscribe (in_connection i) c participant_id e in Some (resume k r, e')
  | CallLeave c conn t => Some (t, (Engine.leave c participant_id conn e).2)
  | _ => None
  end.
End command.

(** ** The steps of a subscription task *)

Definition CHANNEL_EVENT_CAPACITY : nat := 256.
Definition OUTBOUND_CAPACITY : nat := 256.

(** [receiver.recv()]: a receiver that has fallen behind by more than the capacity is told how
    many events it lost and continues with the oldest one that is kept. *)
Inductive Received : Type := NoEvent | Event (e : ChatEvent) | Lagged (skipped : nat).
Definition broadcast_recv (capacity : nat) (events : list ChatEvent) (position : nat) : Received * nat :=
  if position + capacity <? length events
  then (Lagged (length events - capacity - position), length events - capacity)
  else match events !! position with
       | Some e => (Event e, S position)
       | None => (NoEvent, position)
       end.

Definition channel_events (e : ChatEngine) (c : ChannelId) : list ChatEvent :=
  match actor_channels (engine_actor e) !! c with Some channel => events channel | None => [] end.
Definition seen (last_seen : ChannelSequence) (event : ChatEvent) : ChannelSequence :=
  match event with MessageAccepted message => ChatMessage_sequence message | _ => last_seen end.
Definition lagged_event (c : ChannelId) (last_seen latest : ChannelSequence) (skipped : nat) : ServerEvent :=
  EvLagged c last_seen latest (N.of_nat skipped) (lit "load_recent_messages_after").

(** One step of a task: [None] is waiting, and a task that ends is [Some None]. [open] says
    whether the receiver of the queue still exists. *)
Definition run_subscription (e : ChatEngine) (open : bool) (outbound : list ServerEnvelope)
    (t : SubscriptionTask) : option (option SubscriptionTask * list ServerEnvelope) :=
  let queue message next :=
    if open then
      if length outbound <? OUTBOUND_CAPACITY
      then Some ((λ t : SubscriptionTask,
                    t <| task_queued := task_queued t ++ [ServerEnvelope_event message] |>) <$> next,
                 outbound ++ [message])
      else None
    else Some (None, outbound) in
  match task_phase t with
  | Receiving =>
      match broadcast_recv CHANNEL_EVENT_CAPACITY (channel_events e (task_channel t)) (task_receiver t) with
      | (NoEvent, _) => None
      | (Event event, position) =>
          Some (Some (t <| task_receiver := position |>
                        <| task_last_seen := seen (task_last_seen t) event |>
                        <| task_phase := Queueing (ServerEnvelope_unsolicited (EvChat event)) |>), outbound)
      | (Lagged skipped, position) =>
          Some (Some (t <| task_receiver := position |> <| task_phase := AskingLatest skipped |>), outbound)
      end
  | AskingLatest skipped =>
      let message phase := Some (Some (t <| task_phase := phase |>), outbound) in
      match (Engine.latest_sequence (task_channel t) e).1 with
      | Ok latest => message (Queueing (ServerEnvelope_unsolicited
                       (lagged_event (task_channel t) (task_last_seen t) latest skipped)))
      | Err error => message (QueueingLast (ServerEnvelope_unsolicited (error_event error)))
      | Panic => Some (None, outbound)
      end
  | Queueing message => queue message (Some (t <| task_phase := Receiving |>))
  | QueueingLast message => queue message None
  end.
End transport.

Arguments Ready {_ _}.
Arguments Unwind {_ _}.
Arguments Read {_ _}.
Arguments Update {_ _}.
Arguments Call {_ _ _}.
Arguments CallSubscribe {_ _}.
Arguments CallLeave {_ _}.
