(* ===== verification/Sockets.v ===== *)
(** * Sockets: connections of clients

    Models [handle_socket] of [src/ws.rs], the command handlers of [src/web/stream.rs] and
    [src/web/native_chat.rs], and the event stream of [src/web/stream.rs]. A connection is a
    state machine that waits at the points where the code awaits; what it waits for arrives
    as an event. The outcome of authentication, of a write to the network and of the clock
    is part of the event; the engine is called in the step itself. *)

From Stdlib Require Import ZifyBool.
From stdpp Require Import base tactics numbers strings countable sorting gmap list.
From S2P Require Import Prelude RustStr Text Ids Models Policy RepoState RepoMessages RepoChannels RepoCircles RepoUsers ChatActor ActorLaws ChatEngine Wire ChannelList EngineServices Transport.

(** [serde_json::from_str::<ClientEnvelope>]: [None] is a text that is not an envelope. *)
Class EnvelopeCodec := decode_envelope : str → option ClientEnvelope.

Section sockets.
Context `{Unicode, UuidLib, CryptoLib, EngineLib, F64Lib, EnvelopeCodec}.

Definition CIRCLE_UPDATE_CAPACITY : nat := 128.
(** [next_circle_update]: lagging is an update too; [None] waits. *)
Definition next_circle_update (e : ChatEngine) (receiver : option nat) : option nat :=
  position ← receiver;
  let sent := circle_updates (repository (engine_actor e)) in
  if position + CIRCLE_UPDATE_CAPACITY <? sent then Some (sent - CIRCLE_UPDATE_CAPACITY)
  else if position <? sent then Some (S position) else None.

Definition request_id_ok (request_id : str) : bool :=
  negb (bool_decide (trim request_id = []) || (128 <? len request_id)%N).

(** ** WebSockets *)

Inductive Frame : Type :=
  | TextFrame (text : str) | BinaryFrame | PingFrame (payload : list N) | PongFrame
  | CloseRequest | StreamEnd | ReceiveError.
(** What was written, with the envelopes from the queue marked. *)
Inductive Written : Type :=
  | Sent (envelope : ServerEnvelope) | SentQueued (envelope : ServerEnvelope)
  | SentPong (payload : list N) | SentClose (code : N) (reason : str).

Inductive SocketPhase : Type :=
  | Ensuring
  | Selecting
  | Running (t : Task ServerEnvelope)
  | Responding (response : ServerEnvelope)
  | Closing (t : Task unit)
  | Closed
  | Unwound.

(** [socket_received], [socket_written] and [socket_queued] record what was read, written and
    put into the queue. *)
Record Socket : Type := mk_Socket {
  socket_user : User;
  socket_native : bool;
  socket_phase : SocketPhase;
  socket_locals : Locals;
  socket_outbound : list ServerEnvelope;
  socket_circle_updates : option nat;
  socket_received : list Frame;
  socket_written : list Written;
  socket_queued : list ServerEnvelope }.
#[export] Instance Socket_eta : Eta Socket := λ s,
  mk_Socket (socket_user s) (socket_native s) (socket_phase s) (socket_locals s) (socket_outbound s)
    (socket_circle_updates s) (socket_received s) (socket_written s) (socket_queued s).
Definition socket_id (s : Socket) : UserId := User_id (socket_user s).

(** A write that succeeds, or not. *)
Definition write (sent : bool) (w : Written) (s : Socket) : Socket :=
  if sent then s <| socket_written := socket_written s ++ [w] |> else s.

(** The rest of a task up to its next call. *)
Definition continue_task (t : Task ServerEnvelope) (s : Socket) : Socket :=
  let '(t, l) := settle t (socket_locals s) in
  s <| socket_locals := l |>
    <| socket_phase := match t with Ready r => Responding r | Unwind => Unwound | t => Running t end |>.
Definition continue_closing (t : Task unit) (s : Socket) : Socket :=
  let '(t, l) := settle t (socket_locals s) in
  s <| socket_locals := l |>
    <| socket_phase := match t with Ready _ => Closed | Unwind => Unwound | t => Closing t end |>.
(** [break]: the loop ends and every subscription is left. *)
Definition break_loop (s : Socket) : Socket := continue_closing leave_all s.
Definition close_with (sent : bool) (code : N) (reason : str) (s : Socket) : Socket :=
  break_loop (write sent (SentClose code reason) s).

Definition handle_socket_start (shutdown sent : bool) (user : User) (native : bool) : Socket :=
  let s := mk_Socket user native Ensuring Locals_empty [] None [] [] [] in
  if shutdown then write sent (SentClose 1001 (lit "server shutdown")) s <| socket_phase := Closed |> else s.

(** [native_admitted]: only native sessions are checked here. *)
Definition native_admitted (s : Socket) (valid : bool) : bool := negb (socket_native s) || valid.

Definition invalid_envelope : ServerEnvelope := ServerEnvelope_unsolicited
  (EvError (lit "invalid_envelope") (lit "invalid JSON command envelope")).
Definition unsupported_protocol (request_id message : str) : ServerEnvelope :=
  ServerEnvelope_response request_id (EvError (lit "unsupported_protocol") message).
Definition invalid_request_id (request_id : str) : ServerEnvelope :=
  ServerEnvelope_response request_id
    (EvError (lit "invalid_request_id") (lit "request_id must contain 1 to 128 bytes")).

Definition on_text (text : str) (sent : bool) (s : Socket) : Socket :=
  match decode_envelope text with
  | None => if sent then write true (Sent invalid_envelope) s else break_loop s
  | Some envelope =>
      let request_id := ClientEnvelope_request_id envelope in
      match check_protocol (ClientEnvelope_protocol envelope) with
      | Unsupported =>
          s <| socket_phase := Responding (unsupported_protocol request_id (lit "expected " ++ PROTOCOL_ID)) |>
      | Supported =>
          if request_id_ok request_id then continue_task (execute_command (socket_id s) envelope) s
          else s <| socket_phase := Responding (invalid_request_id request_id) |>
      end
  end.
Definition on_frame (frame : Frame) (valid sent : bool) (s : Socket) : Socket :=
  let s := s <| socket_received := socket_received s ++ [frame] |> in
  match frame with
  | TextFrame text => if native_admitted s valid then on_text text sent s else break_loop s
  | CloseRequest | StreamEnd | ReceiveError => break_loop s
  | PingFrame payload => if sent then write true (SentPong payload) s else break_loop s
  | BinaryFrame | PongFrame => s
  end.

(** [valid]: authentication succeeds; [sent]: the write succeeds. *)
Inductive SocketEvent : Type :=
  | OnEnsure (sent : bool)
  | OnReauthentication (valid sent : bool)
  | OnIdle (sent : bool)
  | OnShutdown (sent : bool)
  | OnCircleUpdate (valid sent : bool)
  | OnOutbound (valid sent : bool)
  | OnFrame (frame : Frame) (valid sent : bool)
  | OnCall (i : Inputs)
  | OnRespond (valid sent : bool)
  | OnSubscription (conn : ConnectionId)
  | OnAborted (conn : ConnectionId).

Definition is_open (s : Socket) : bool :=
  match socket_phase s with Closed | Unwound => false | _ => true end.
Definition on_subscription (e : ChatEngine) (conn : ConnectionId) (s : Socket) : option Socket :=
  t ← tasks (socket_locals s) !! conn;
  '(t', outbound) ← run_subscription e (is_open s) (socket_outbound s) t;
  Some (s <| socket_locals := (socket_locals s) <| tasks := partial_alter (λ _, t') conn (tasks (socket_locals s)) |> |>
          <| socket_outbound := outbound |>
          <| socket_queued := socket_queued s ++ drop (length (socket_outbound s)) outbound |>).

(** One iteration of the loop up to the next point where the code waits, or a step of one of
    the subscription tasks. *)
Definition socket_step (shutdown : bool) (event : SocketEvent) (s : Socket) (e : ChatEngine)
    : option (Socket * ChatEngine) :=
  match socket_phase s, event with
  | Ensuring, OnEnsure sent =>
      let '(r, e') := Engine.ensure_user (socket_user s) e in
      match r with
      | Ok _ => Some (s <| socket_phase := Selecting |>
                        <| socket_circle_updates := Some (circle_updates (repository (engine_actor e'))) |>, e')
      | Err error => Some (write sent (Sent (ServerEnvelope_unsolicited (error_event error))) s
                             <| socket_phase := Closed |>, e')
      | Panic => Some (s <| socket_phase := Unwound |>, e')
      end
  | Selecting, OnReauthentication valid sent =>
      Some (if valid then s else close_with sent 1008 (lit "authentication expired") s, e)
  | Selecting, OnIdle sent => Some (close_with sent 1001 (lit "idle timeout") s, e)
  | Selecting, OnShutdown sent =>
      if shutdown then Some (close_with sent 1001 (lit "server shutdown") s, e) else None
  | Selecting, OnCircleUpdate valid sent =>
      position ← next_circle_update e (socket_circle_updates s);
      let s := s <| socket_circle_updates := Some position |> in
      Some (if native_admitted s valid && sent
            then write true (Sent (ServerEnvelope_unsolicited EvCirclesChanged)) s else break_loop s, e)
  | Selecting, OnOutbound valid sent =>
      match socket_outbound s with
      | message :: rest =>
          let s := s <| socket_outbound := rest |> in
          Some (if native_admitted s valid && sent then write true (SentQueued message) s
                else break_loop s, e)
      | [] => None
      end
  | Selecting, OnFrame frame valid sent => Some (on_frame frame valid sent s, e)
  | Running t, OnCall i =>
      '(t', e') ← call_engine (socket_id s) t i e;
      Some (continue_task t' s, e')
  | Responding response, OnRespond valid sent =>
      Some (if native_admitted s valid && sent
            then write true (Sent response) s <| socket_phase := Selecting |> else break_loop s, e)
  | Closing t, OnCall i =>
      '(t', e') ← call_engine (socket_id s) t i e;
      Some (continue_closing t' s, e')
  | _, OnSubscription conn => s' ← on_subscription e conn s; Some (s', e)
  | _, OnAborted conn =>
      t ← tasks (socket_locals s) !! conn;
      if task_aborted t
      then Some (s <| socket_locals := (socket_locals s) <| tasks := delete conn (tasks (socket_locals s)) |> |>, e)
      else None
  | _, _ => None
  end.

(** ** Commands over HTTP *)

Definition transport_command (command : ClientCommand) : bool :=
  match command with CmdSubscribeChannel _ | CmdUnsubscribeChannel _ => true | _ => false end.
(** The envelopes the handlers answer themselves. *)
Definition http_reject (subscriptions_belong : str) (envelope : ClientEnvelope) : option ServerEnvelope :=
  let request_id := ClientEnvelope_request_id envelope in
  match check_protocol (ClientEnvelope_protocol envelope) with
  | Unsupported => Some (unsupported_protocol request_id (lit "unsupported protocol"))
  | Supported =>
      if negb (request_id_ok request_id) then Some (invalid_request_id request_id)
      else if transport_command (ClientEnvelope_command envelope)
      then Some (ServerEnvelope_response request_id (EvError (lit "invalid_transport_command") subscriptions_belong))
      else None
  end.

Inductive HttpPhase : Type :=
  | HttpEnsuring (subscriptions_belong : str)
  | HttpRunning (t : Task ServerEnvelope)
  | HttpAnswered (response : ServerEnvelope)
  | HttpFailed.
Record HttpCommand : Type := mk_HttpCommand {
  http_user : User;
  http_envelope : ClientEnvelope;
  http_phase : HttpPhase;
  http_locals : Locals }.
#[export] Instance HttpCommand_eta : Eta HttpCommand := λ h,
  mk_HttpCommand (http_user h) (http_envelope h) (http_phase h) (http_locals h).

Definition http_running (t : Task ServerEnvelope) (h : HttpCommand) : HttpCommand :=
  let '(t, l) := settle t (http_locals h) in
  h <| http_locals := l |>
    <| http_phase := match t with Ready r => HttpAnswered r | Unwind => HttpFailed | t => HttpRunning t end |>.
(** [execute_http_command], unless the handler answers. *)
Definition http_execute (subscriptions_belong : str) (h : HttpCommand) : HttpCommand :=
  match http_reject subscriptions_belong (http_envelope h) with
  | Some response => h <| http_phase := HttpAnswered response |>
  | None => http_running (execute_command (User_id (http_user h)) (http_envelope h)) h
  end.
(** The handlers of [stream.rs] and of [native_chat.rs], after authentication. *)
Definition command_handler (user : User) (envelope : ClientEnvelope) : HttpCommand :=
  http_execute (lit "subscriptions belong to the event stream")
    (mk_HttpCommand user envelope HttpFailed Locals_empty).
Definition native_command (user : User) (envelope : ClientEnvelope) : HttpCommand :=
  mk_HttpCommand user envelope (HttpEnsuring (lit "subscriptions belong to the websocket")) Locals_empty.
Definition http_step (i : Inputs) (h : HttpCommand) (e : ChatEngine) : option (HttpCommand * ChatEngine) :=
  match http_phase h with
  | HttpEnsuring subscriptions_belong =>
      let '(r, e') := Engine.ensure_user (http_user h) e in
      match r with
      | Ok _ => Some (http_execute subscriptions_belong h, e')
      | _ => Some (h <| http_phase := HttpFailed |>, e')
      end
  | HttpRunning t =>
      '(t', e') ← call_engine (User_id (http_user h)) t i e;
      Some (http_running t' h, e')
  | _ => None
  end.

(** ** Event streams *)

(** What a stream yields: comments, heartbeats and envelopes. *)
Inductive StreamFrame : Type := Connected | Heartbeat | Yielded (envelope : ServerEnvelope).
Inductive StreamPhase : Type :=
  | StreamBootstrap
  | StreamSubscribing
  | StreamSelecting
  | StreamChecking (event : ChatEvent)
  | StreamAsking (skipped : nat)
  | StreamRenewing
  | StreamLeaving
  | StreamDone.
(** The channel and the request of a stream that follows a channel; [stream_guard] is the
    connection its [PresenceGuard] leaves when it is dropped. [stream_start] is a ghost: the
    position in the channel's events at which the subscription began, which no step reads. *)
Record EventStream : Type := mk_EventStream {
  stream_user : User;
  stream_scope : option (ChannelId * str);
  stream_after : option N;
  stream_phase : StreamPhase;
  stream_guard : option ConnectionId;
  stream_start : nat;
  stream_receiver : nat;
  stream_last_seen : ChannelSequence;
  stream_circle_updates : option nat;
  stream_yielded : list StreamFrame }.
#[export] Instance EventStream_eta : Eta EventStream := λ s,
  mk_EventStream (stream_user s) (stream_scope s) (stream_after s) (stream_phase s) (stream_guard s)
    (stream_start s) (stream_receiver s) (stream_last_seen s) (stream_circle_updates s) (stream_yielded s).
Definition stream_id (s : EventStream) : UserId := User_id (stream_user s).
Definition yield_frame (f : StreamFrame) (s : EventStream) : EventStream :=
  s <| stream_yielded := stream_yielded s ++ [f] |>.
Definition yield_event (event : ServerEvent) (s : EventStream) : EventStream :=
  yield_frame (Yielded (ServerEnvelope_unsolicited event)) s.

Definition u64_saturating_succ (n : N) : N := if (n <? u64_max)%N then (n + 1)%N else u64_max.
(** The sequence a client has, and how many messages lie between it and the history. *)
Definition missing_before_history (after first_available : option N) : option (N * N) :=
  after ← after;
  if (0 <? after)%N then
    first ← first_available;
    let skipped := (first - u64_saturating_succ after)%N in
    if (0 <? skipped)%N then Some (after, skipped) else None
  else None.

(** The request, after authentication: [None] is a bad request. *)
Definition events_handler (user : User) (bootstrap : bool) (channel_id : option ChannelId)
    (request_id : option str) (after : option N) : option EventStream :=
  let open scope :=
    Some (mk_EventStream user scope after
            (if bootstrap then StreamBootstrap else StreamSubscribing) None 0 0 (ChannelSequence_new 0) None []) in
  match channel_id, request_id with
  | Some c, Some r => if request_id_ok r then open (Some (c, r)) else None
  | None, None => open None
  | _, _ => None
  end.

(** The stream ends or is dropped; its guard leaves the channel in a task of its own. *)
Definition stream_end (s : EventStream) : EventStream :=
  s <| stream_phase := match stream_guard s with Some _ => StreamLeaving | None => StreamDone end |>.

Definition stream_opened (e : ChatEngine) (s : EventStream) : EventStream :=
  yield_frame Connected
    (s <| stream_phase := StreamSelecting |>
       <| stream_circle_updates := Some (circle_updates (repository (engine_actor e))) |>).
Definition stream_subscribed (e : ChatEngine) (c : ChannelId) (request_id : str)
    (sub : ChannelSubscription) (s : EventStream) : EventStream :=
  let history := ChannelSubscription_history sub in
  let last_seen := match last history with
                   | Some message => ChatMessage_sequence message | None => ChannelSequence_new 0 end in
  let first_available := (λ message, seq_u64 (ChatMessage_sequence message)) <$> head history in
  let s := stream_opened e
    (s <| stream_guard := Some (ChannelSubscription_connection_id sub) |>
       <| stream_start := ChannelSubscription_receiver sub |>
       <| stream_receiver := ChannelSubscription_receiver sub |>
       <| stream_last_seen := last_seen |>) in
  let s := yield_frame (Yielded (ServerEnvelope_response request_id (EvSubscriptionStarted c history))) s in
  match missing_before_history (stream_after s) first_available with
  | Some (after, skipped) =>
      yield_event (EvLagged c (ChannelSequence_new after) last_seen skipped
                     (lit "load_recent_messages_after")) s
  | None => s
  end.

Definition channel_visible (now : DateTime) (participant_id : UserId) (c : ChannelId) (e : ChatEngine) : bool :=
  match (EngineServices.list_channels now participant_id e).1 with
  | Ok channels => any (λ ch, bool_decide (ChannelSummary_id ch = c)) channels
  | _ => false
  end.

(** [OnGone]: the client disconnects and the stream, or the handler, is dropped. A handler that
    is dropped while it waits for its subscription leaves the actor to finish it. *)
Inductive StreamEvent : Type :=
  | StreamOnCall (i : Inputs)
  | StreamOnReceive
  | StreamOnCircleUpdate
  | StreamOnReauthentication (valid : bool)
  | StreamOnPresence (i : Inputs)
  | StreamOnHeartbeat
  | StreamOnShutdown
  | StreamOnGone
  | StreamOnGoneSubscribing (i : Inputs).

Definition stream_step (shutdown : bool) (event : StreamEvent) (s : EventStream) (e : ChatEngine)
    : option (EventStream * ChatEngine) :=
  match stream_phase s, event with
  | StreamBootstrap, StreamOnCall _ =>
      let '(r, e') := Engine.ensure_user (stream_user s) e in
      Some (s <| stream_phase := match r with Ok _ => StreamSubscribing | _ => StreamDone end |>, e')
  | StreamSubscribing, StreamOnCall i =>
      match stream_scope s with
      | None => Some (stream_opened e s, e)
      | Some (c, request_id) =>
          let '(r, e') := Engine.subscribe (in_connection i) c (stream_id s) e in
          Some (match r with
                | Ok sub => stream_subscribed e' c request_id sub s
                | _ => s <| stream_phase := StreamDone |>
                end, e')
      end
  | StreamSubscribing, StreamOnGoneSubscribing i =>
      '(c, _) ← stream_scope s;
      Some (s <| stream_phase := StreamDone |>, (Engine.subscribe (in_connection i) c (stream_id s) e).2)
  | StreamSelecting, StreamOnReceive =>
      '(c, _) ← stream_scope s;
      match broadcast_recv CHANNEL_EVENT_CAPACITY (channel_events e c) (stream_receiver s) with
      | (NoEvent, _) => None
      | (Event event, position) =>
          Some (s <| stream_receiver := position |> <| stream_phase := StreamChecking event |>, e)
      | (Lagged skipped, position) =>
          Some (s <| stream_receiver := position |> <| stream_phase := StreamAsking skipped |>, e)
      end
  | StreamChecking event, StreamOnCall i =>
      '(c, _) ← stream_scope s;
      Some (if channel_visible (in_now i) (stream_id s) c e
            then yield_event (EvChat event)
                   (s <| stream_last_seen := seen (stream_last_seen s) event |>
                      <| stream_phase := StreamSelecting |>)
            else stream_end s, e)
  | StreamAsking skipped, StreamOnCall _ =>
      '(c, _) ← stream_scope s;
      Some (match (Engine.latest_sequence c e).1 with
            | Ok latest => yield_event (lagged_event c (stream_last_seen s) latest skipped)
                             (s <| stream_phase := StreamSelecting |>)
            | Err error => stream_end (yield_event (error_event error) s)
            | Panic => stream_end s
            end, e)
  | StreamSelecting, StreamOnCircleUpdate =>
      position ← next_circle_update e (stream_circle_updates s);
      Some (yield_event EvCirclesChanged (s <| stream_circle_updates := Some position |>), e)
  | StreamSelecting, StreamOnReauthentication valid => Some (if valid then s else stream_end s, e)
  | StreamSelecting, StreamOnPresence i =>
      '(c, _) ← stream_scope s;
      Some (if channel_visible (in_now i) (stream_id s) c e then s <| stream_phase := StreamRenewing |>
            else stream_end s, e)
  | StreamRenewing, StreamOnCall _ =>
      '(c, _) ← stream_scope s;
      conn ← stream_guard s;
      let '(r, e') := EngineServices.renew_presence (stream_id s) [(c, conn)] e in
      Some (match r with Ok _ => s <| stream_phase := StreamSelecting |> | _ => stream_end s end, e')
  | StreamSelecting, StreamOnHeartbeat => Some (yield_frame Heartbeat s, e)
  | StreamSelecting, StreamOnShutdown => if shutdown then Some (stream_end s, e) else None
  | StreamLeaving, StreamOnCall _ =>
      '(c, _) ← stream_scope s;
      conn ← stream_guard s;
      Some (s <| stream_phase := StreamDone |> <| stream_guard := None |>,
            (Engine.leave c (stream_id s) conn e).2)
  | StreamLeaving, StreamOnGone | StreamDone, StreamOnGone => None
  | _, StreamOnGone => Some (stream_end s, e)
  | _, _ => None
  end.
End sockets.
