(* ===== verification/TransportTasks.v ===== *)
(** * TransportTasks: what the commands of a connection do to the engine

    Every call a command makes is a read, or an operation of the engine that its callers are
    allowed to perform when the generated values are unused; none of them panics ([quiet]).
    So a command can be interleaved with everything else at its calls. [wp] follows a [Task]
    from call to call: [S] is what the connection holds, the channels it has entered and not
    left. Every command, and the end of a socket, satisfies it. *)

From Stdlib Require Import ZifyBool.
From stdpp Require Import base tactics numbers strings countable sorting gmap list.
From S2P Require Import Prelude RustStr Text Ids Models Policy RepoState RepoMessages RepoChannels RepoCircles RepoUsers RepoWf WfMessages WfChannels WfCircles WfUsers RepoReach RepoHistory RoleProps ChatActor ActorLaws ActorInvariant ChatEngine EngineReach Wire ChannelList EngineServices Transport Sockets.

Create HintDb reads.

Section quiet.
Context `{Unicode, UuidLib, CryptoLib, EngineLib, F64Lib}.

(** The generated values of a call are unused. *)
Definition fresh_inputs (e : ChatEngine) (i : Inputs) : bool :=
  let a := drained e in
  let st := repository a in
  unused_channel st (in_channel i) (direct_slug (in_slug i))
  && unused_channel st (in_channel i) (group_slug (in_slug i))
  && negb (contains_key (in_circle i) (circles st))
  && unused_message st (in_message i)
  && bool_decide (in_message i ∉ published_messages a)
  && match in_secret i with Panic => false | _ => true end.

Definition anywhere : ChannelId → Prop := λ _, True.
Definition engine_fine (e : ChatEngine) : Prop := engine_ok anywhere e.

(** A method that reads, or runs as an operation of the engine, and does not panic. *)
Definition quiet {X} (m : Inputs → Engine X) : Prop := ∀ i e,
  engine_fine e → fresh_inputs e i = true →
  (m i e).1 ≠ Panic
  ∧ ((m i e).2 = e ∨ ∃ op, allowed anywhere (drained e) op ∧ (m i e).2 = (perform op e).2).

(** ** Reads *)

Definition reads {A} (m : Repo A) : Prop := ∀ st, wf st → (m st).2 = st ∧ (m st).1 ≠ Panic.
Lemma repo_reads {A} (m : Repo A) e :
  reads m → engine_fine e → (repo m e).2 = e ∧ (repo m e).1 ≠ Panic.
Proof.
  intros Hm [_ [Hr _]]. unfold repo, call.
  destruct (Hm _ (reachable_wf _ Hr)) as [Hs Hp]. destruct (m _) as [r st']; simpl in *; subst.
  split; [by destruct e as [[]]|]. by destruct r.
Qed.
Lemma quiet_reads {A} (m : Inputs → Repo A) : (∀ i, reads (m i)) → quiet (λ i, repo (m i)).
Proof. intros Hm i e Hok _. destruct (repo_reads (m i) e (Hm i) Hok) as [? ?]. auto. Qed.

Ltac read_run f :=
  intros st Hwf; unfold f; let E := fresh "E" in
  match goal with |- (?p).2 = _ ∧ _ => destruct p as [r st'] eqn:E end; run_st E; by simplify_eq/=.
Lemma reads_signup u : reads (signup_ordinal u).
Proof. read_run @signup_ordinal. Qed.
Lemma reads_profiles now u : reads (list_user_profiles now u).
Proof. read_run @list_user_profiles. Qed.
(** A guard, then a read and a function of its result. *)
Lemma reads_guarded {A B} (b : RepositoryState → bool) err (m : Repo A) (f : RepositoryState → A → B) :
  reads m → reads (let! st := get in ensure (b st) err ;;; let! x := m in st_ret (f st x)).
Proof.
  intros Hm st Hwf. destruct (Hm st Hwf) as [Hs Hp]. unfold st_bind, get, ensure, st_ret.
  destruct (b st); simpl; [|done]. destruct (m st) as [[] ?]; simpl in *; by subst.
Qed.
Lemma reads_circle_profiles now u k : reads (list_circle_user_profiles now u k).
Proof. apply (reads_guarded (λ st, contains_key (k, u) (circle_memberships st)) _ _ _ (reads_profiles now u)). Qed.
Lemma reads_roles u k : reads (circle_member_roles u k).
Proof. read_run @circle_member_roles. Qed.
Lemma reads_channel_profiles now u c : reads (list_channel_user_profiles now u c).
Proof. apply (reads_guarded (λ st, contains_key (c, u) (memberships st)) _ _ _ (reads_profiles now u)). Qed.
Lemma reads_joinable u k : reads (list_joinable_channels u k).
Proof. read_run @list_joinable_channels. Qed.
Lemma reads_recent q : reads (load_recent_messages q).
Proof. intros st Hwf. rewrite load_recent_page by done. simpl. split; [done|]. case_decide; [|done]. unfold page. by repeat case_match. Qed.
Lemma reads_thread u id : reads (load_thread u id).
Proof. read_run @load_thread. Qed.
Lemma group_replies_non_empty msgs root replies :
  group_replies msgs !! root = Some replies → replies ≠ [].
Proof.
  unfold group_replies. revert root replies.
  induction msgs as [|m msgs IH] using rev_ind; intros root replies; [simpl; by rewrite lookup_empty|].
  rewrite foldl_app. simpl. destruct (ChatMessage_parent_message_id m) as [parent|]; [|by apply IH].
  intros [[-> <-]|[_ Hl]]%lookup_insert_Some; [by destruct (default _ _)|by eapply IH].
Qed.
Lemma res_mapM_not_panic {E A B} (f : A → Res E B) l :
  (∀ x, x ∈ l → f x ≠ Panic) → res_mapM f l ≠ Panic.
Proof.
  induction l as [|x l IH]; intros Hf; simpl; [done|].
  assert (Hx := Hf x (list_elem_of_here _ _)). assert (res_mapM f l ≠ Panic) as Hl by (apply IH; intros; apply Hf; by right).
  unfold res_bind. destruct (f x); [|done..]. by destruct (res_mapM f l).
Qed.
Lemma reads_summaries u c : reads (list_thread_summaries u c).
Proof.
  intros st Hwf. unfold list_thread_summaries. unfold st_bind, get, ensure, st_lift, st_ret.
  destruct (contains_key _ _); simpl; [|done].
  match goal with |- context [res_mapM ?g _] => set (f := g) end.
  assert (res_mapM f (map_to_list (group_replies (channel_messages st c))) ≠ Panic) as Hp.
  { apply res_mapM_not_panic. intros [root replies] Hin%elem_of_map_to_list%group_replies_non_empty.
    unfold f, res_bind. destruct (last replies) eqn:El; [done|]. by apply last_None in El. }
  by destruct (res_mapM f _).
Qed.
Lemma reads_reactions u c : reads (list_channel_reactions u c).
Proof. read_run @list_channel_reactions. Qed.
Lemma reads_circles u : reads (list_circles_for_user u).
Proof. done. Qed.
Lemma reads_channels now u : reads (list_channels_for_user now u).
Proof. done. Qed.
Lemma reads_latest c : reads (latest_sequence c).
Proof. intros st Hwf. unfold latest_sequence. done. Qed.

(** The defaults of the trait read nothing. *)
Lemma reads_throw {A} err : reads (throw (A:=A) err).
Proof. done. Qed.
Lemma reads_pure {A} (x : A) : reads (st_ret x).
Proof. done. Qed.

(** ** Operations *)

(** The operations a command of a connection can be. *)
Definition by_command (op : Op) : bool :=
  match op with
  | UpsertUser _ | SavePersonalNote _ _ => false
  | _ => true
  end.
Lemma ask_no_panic {A} cmd (reply : ChatActor.Reply → Res ChatError A) e :
  (∀ r, panicked r = false → reply r ≠ Panic) → (ask cmd reply e).1 ≠ Panic.
Proof.
  intros Hr. unfold ask. destruct (running e); [|done]. destruct (handle_all _ _) as [[] a]; [|done].
  destruct (handle cmd a) as [r a']. destruct (panicked r) eqn:E; [done|]. by apply Hr.
Qed.
Lemma subscription_reply_fine r : panicked r = false → subscription_reply r ≠ Panic.
Proof. by destruct r as [| | |[]|[]|[]]. Qed.
Lemma repo_no_panic {A} (m : Repo A) e : (m (repository (engine_actor e))).1 ≠ Panic → (repo m e).1 ≠ Panic.
Proof. unfold repo, call. by destruct (m _) as [[] ?]. Qed.
Lemma post_no_panic cmd e : (post cmd e).1 ≠ Panic.
Proof. unfold post. by destruct (running e). Qed.
Lemma outcome_no_panic op st :
  wf st → fresh_op st op = true → by_command op = true → (outcome op st).1 ≠ Panic.
Proof.
  intros Hwf Hf Hc Hp. assert (Ho := outcome_fault_free op st Hwf Hf). unfold fault_free in Ho.
  rewrite Hp in Ho. by destruct op, Ho as [? _].
Qed.
Lemma discard_panic {A} (m : Engine A) e : (discard m e).1 = Panic ↔ (m e).1 = Panic.
Proof. unfold discard. by destruct (m e) as [[] ?]. Qed.
Lemma void_panic {A} (m : Repo A) st : (void m st).1 = Panic ↔ (m st).1 = Panic.
Proof. unfold void. by destruct (m st) as [[] ?]. Qed.
Lemma repo_bind_no_panic {A B} (m : Repo A) (k : A → Engine B) e :
  (m (repository (engine_actor e))).1 ≠ Panic → (∀ x e', (k x e').1 ≠ Panic) → (st_bind (repo m) k e).1 ≠ Panic.
Proof.
  intros Hm%repo_no_panic Hk. unfold st_bind. destruct (repo m e) as [[x|err|] e']; simpl in *; auto.
Qed.
(** The repository's method behind a call does not panic. *)
Lemma perform_repository op e :
  engine_fine e → allowed anywhere (drained e) op → by_command op = true →
  (outcome op (repository (engine_actor e))).1 ≠ Panic.
Proof.
  intros Hok [Hf _] Hc. destruct (drained_fine _ _ Hok) as [(Hr&_) Heq]. rewrite <-Heq.
  apply outcome_no_panic; [by apply reachable_wf|done|done].
Qed.
Lemma sanitized_command op op' : sanitized op = Some op' → by_command op = true → by_command op' = true.
Proof. destruct op; simpl; intros Hs Hc; simplify_eq; try done; by repeat case_match; simplify_eq. Qed.
Lemma text_no_panic value field max : bounded_non_empty value field max ≠ Panic.
Proof. unfold bounded_non_empty. by repeat case_match. Qed.
Lemma body_no_panic value : MessageBody_new value ≠ Panic.
Proof. unfold MessageBody_new, res_map. assert (Ht := text_no_panic value). by destruct (bounded_non_empty _ _ _) eqn:E; [..|destruct (Ht _ _ E)]. Qed.
Lemma name_no_panic value : DisplayName_new value ≠ Panic.
Proof. unfold DisplayName_new, res_map. assert (Ht := text_no_panic value). by destruct (bounded_non_empty _ _ _) eqn:E; [..|destruct (Ht _ _ E)]. Qed.
Lemma slug_no_panic value : ChannelSlug_new value ≠ Panic.
Proof. unfold ChannelSlug_new, res_bind. assert (Ht := text_no_panic value). destruct (bounded_non_empty _ _ _) eqn:E; [by case_match|done|by destruct (Ht _ _ E)]. Qed.
Lemma circle_name_no_panic value : DisplayName_circle_name value ≠ Panic.
Proof. unfold DisplayName_circle_name. by case_match. Qed.
Lemma ensure_bind_result {A} b err (m : Engine A) e :
  (st_bind (ensure b err) (λ _, m) e).1 = if b then (m e).1 else Err err.
Proof. by destruct b. Qed.
Lemma sanitized_no_panic {A} (m : Repo A) e op op' :
  engine_fine e → allowed anywhere (drained e) op → by_command op = true →
  (match op with DeleteCircleOp _ | AppendMessage _ _ _ | AppendMessageIdempotent _ _ _ _ => False | _ => True end) →
  sanitized op = Some op' → ((m (repository (engine_actor e))).1 = Panic →
  (outcome op' (repository (engine_actor e))).1 = Panic) → (repo m e).1 ≠ Panic.
Proof.
  intros Hok Hal Hc Hno Hs Hm. apply repo_no_panic. intros Hp%Hm. revert Hp.
  apply perform_repository; [done|by eapply allowed_sanitized|by eapply sanitized_command].
Qed.
Lemma perform_no_panic op e :
  engine_fine e → allowed anywhere (drained e) op → by_command op = true → (perform op e).1 ≠ Panic.
Proof.
  intros Hok Hal Hc. assert (Ho := perform_repository op e Hok Hal Hc).
  destruct op; simpl;
    repeat match goal with |- context [match ?x with _ => _ end] => destruct x end;
    rewrite ?discard_panic; try (apply ask_no_panic; by intros [| | |[]|[]|[]]);
    try (apply repo_no_panic; unfold outcome in Ho; by rewrite ?void_panic in Ho); try done.
  - unfold Engine.toggle_reaction. rewrite ensure_bind_result. case_match; [apply ask_no_panic; by intros [| | |[]|[]|[]]|done].
  - apply repo_bind_no_panic; [by unfold outcome in Ho; rewrite void_panic in Ho|].
    intros [id|] e'; [|done]. unfold Engine.announce_persisted_message, st_bind.
    assert (Hp := post_no_panic (CExternalMessage id) e'). by destruct (post _ e') as [[] ?].
  - apply repo_bind_no_panic; [by unfold outcome in Ho; rewrite void_panic in Ho|].
    intros ch e'. unfold st_bind, ignore_err.
    assert (Hp := post_no_panic (CChannelCreated source (Channel_id ch) (Channel_created_by ch)) e').
    by destruct (post _ e') as [[] ?].
  - unfold Engine.update_profile, st_bind, st_lift.
    assert (Hn := name_no_panic (DisplayName_as_str name)).
    destruct (DisplayName_new _) as [name'| |] eqn:En; [|done..]. simpl. clear Ho.
    eapply (sanitized_no_panic _ _ (UpdateProfile actor name)); [done..|simpl; by rewrite En|].
    unfold outcome. by rewrite void_panic.
  - unfold Engine.set_status. rewrite ensure_bind_result. case_match eqn:Ev; [|done].
    eapply (sanitized_no_panic _ _ (SetUserStatus now actor text emoji expires)); [done..|simpl; by rewrite Ev|].
    unfold outcome. by rewrite void_panic.
  - unfold Engine.remove_saved_status. rewrite ensure_bind_result.
    destruct (status_ok _ _) eqn:Ev; [|done]. rewrite ensure_bind_result. case_match eqn:Ev2; [|done].
    by eapply (sanitized_no_panic _ _ (RemoveSavedStatus actor text emoji)); [done..|simpl; by rewrite Ev, Ev2|].
  - unfold Engine.save_emoji. rewrite ensure_bind_result. case_match eqn:Ev; [|done].
    by eapply (sanitized_no_panic _ _ (SaveEmoji actor emoji saved)); [done..|simpl; by rewrite Ev|].
  - eapply (sanitized_no_panic _ _ (StoreMedia fresh now upload sha256)); [done..|].
    unfold outcome. by rewrite void_panic.
Qed.

(** A call that is an operation of the engine. *)
Lemma quiet_perform {X} (m : Inputs → Engine X) (op : Inputs → Op) :
  (∀ i e, fresh_inputs e i = true → allowed anywhere (drained e) (op i)) → (∀ i, by_command (op i) = true) →
  (∀ i e, (m i e).2 = (perform (op i) e).2 ∧ ((m i e).1 = Panic → (perform (op i) e).1 = Panic)) → quiet m.
Proof.
  intros Hal Hc Hm i e Hok Hf. destruct (Hm i e) as [Hs Hp]. split; [|right; eauto].
  intros Hpanic. apply (perform_no_panic (op i) e Hok); auto.
Qed.
Lemma quiet_discard {X} (m : Inputs → Engine X) (op : Inputs → Op) :
  (∀ i e, fresh_inputs e i = true → allowed anywhere (drained e) (op i)) → (∀ i, by_command (op i) = true) →
  (∀ i, perform (op i) = discard (m i)) → quiet m.
Proof.
  intros Hal Hc Hm. apply (quiet_perform m op Hal Hc). intros i e. rewrite Hm.
  split; [by rewrite discard_run|apply discard_panic].
Qed.
End quiet.

#[export] Hint Resolve reads_signup reads_profiles reads_circle_profiles reads_roles reads_channel_profiles
  reads_joinable reads_recent reads_thread reads_summaries reads_reactions reads_circles reads_channels
  reads_latest : reads.
#[export] Hint Resolve reads_throw reads_pure : reads.

(** Fresh values are what the operation of a command needs. *)
Ltac fresh_allowed :=
  intros i e Hf; unfold fresh_inputs in Hf; cbv zeta in Hf; bool_facts; split; [simpl|done];
  repeat match goal with H : ?b = true |- context [?b] => rewrite H end; try done;
  unfold unused_channel in *; bool_facts;
  try (apply negb_true; by apply contains_key_false); by destruct (in_secret _).

Section tasks.
Context `{Unicode, UuidLib, CryptoLib, EngineLib, F64Lib}.

(** ** The logic *)

(** A task that holds [S], may enter channels if [b], and ends as [Q] says. The connection's
    subscription tasks run meanwhile, so after a call only the subscriptions are known. *)
Fixpoint wp {A} (b : bool) (S : gmap ChannelId ConnectionId) (t : Task A) (l : Locals)
    (Q : A → Locals → Prop) : Prop :=
  match t with
  | Ready a => subscriptions l = S ∧ Q a l
  | Unwind => False
  | Read k => wp b S (k l) l Q
  | Update f t => wp b S t (f l) Q
  | Call m k => subscriptions l = S ∧ quiet m ∧ ∀ r l', subscriptions l' = S → wp b S (k r) l' Q
  | CallSubscribe c k =>
      b = true ∧ subscriptions l = S ∧ S !! c = None
      ∧ (∀ error l', subscriptions l' = S → wp b S (k (inr error)) l' Q)
      ∧ ∀ sub l', subscriptions l' = S →
          wp b (<[c := ChannelSubscription_connection_id sub]> S) (k (inl sub)) l' Q
  | CallLeave c conn t =>
      S = <[c := conn]> (subscriptions l) ∧ subscriptions l !! c = None
      ∧ ∀ l', subscriptions l' = subscriptions l → wp b (subscriptions l) t l' Q
  end.

Lemma wp_bind {A B} b S (t : Task A) (k : A → Task B) l Q :
  wp b S t l (λ a l', wp b (subscriptions l') (k a) l' Q) → wp b S (task_bind t k) l Q.
Proof.
  revert S l. induction t as [a| |k' IH|f t IH|X m k' IH|c k' IH|c conn t IH]; intros S l; simpl.
  - by intros [-> ?].
  - done.
  - apply IH.
  - apply IH.
  - intros (?&?&?). eauto.
  - intros (?&?&?&?&?). split_and!; eauto.
  - intros (?&?&?). split_and!; eauto.
Qed.
Lemma wp_mono {A} b S (t : Task A) l (Q Q' : A → Locals → Prop) :
  (∀ a l, Q a l → Q' a l) → wp b S t l Q → wp b S t l Q'.
Proof.
  intros HQ. revert S l. induction t as [a| |k' IH|f t IH|X m k' IH|c k' IH|c conn t IH]; intros S l; simpl.
  - intros [? ?]. auto.
  - done.
  - apply IH.
  - apply IH.
  - intros (?&?&?). eauto.
  - intros (?&?&?&?&?). split_and!; eauto.
  - intros (?&?&?). split_and!; eauto.
Qed.
Lemma wp_settle {A} b S (t : Task A) l Q t' l' : wp b S t l Q → settle t l = (t', l') → wp b S t' l' Q.
Proof.
  revert l. induction t as [a| |k' IH|f t IH|X m k' IH|c k' IH|c conn t IH]; intros l Hwp Hs; simpl in *;
    simplify_eq; eauto.
Qed.

(** A task that waits for the engine. *)
Definition waiting {A} (t : Task A) : bool :=
  match t with Call _ _ | CallSubscribe _ _ | CallLeave _ _ _ => true | _ => false end.
Definition owned {A} (t : Task A) (l : Locals) : gmap ChannelId ConnectionId :=
  match t with CallLeave c conn _ => <[c := conn]> (subscriptions l) | _ => subscriptions l end.
Lemma settle_settled {A} (t : Task A) l t' l' :
  settle t l = (t', l') → waiting t' = true ∨ (∃ a, t' = Ready a) ∨ t' = Unwind.
Proof. revert l. induction t; intros l Hs; simpl in Hs; simplify_eq/=; eauto. Qed.
Lemma wp_owned {A} b S (t : Task A) l Q : waiting t = true → wp b S t l Q → S = owned t l.
Proof. destruct t; try done; simpl; [by intros _ (?&_)|by intros _ (_&?&_)|by intros _ (?&_)]. Qed.
(** A waiting task does not depend on the subscription tasks. *)
Lemma wp_locals {A} b S (t : Task A) l l' Q :
  waiting t = true → subscriptions l' = subscriptions l → wp b S t l Q → wp b S t l' Q.
Proof. intros Hw Hl. destruct t; try done; simpl; rewrite Hl; [auto..]. Qed.

(** What a call did. *)
Inductive Change : Type :=
  | Quietly
  | Entered (c : ChannelId) (sub : ChannelSubscription)
  | Refused (c : ChannelId) (error : ChatError)
  | Departed (c : ChannelId) (conn : ConnectionId).
Definition changed (u : UserId) (i : Inputs) (e e' : ChatEngine) (S S' : gmap ChannelId ConnectionId)
    (ch : Change) : Prop :=
  match ch with
  | Quietly => S' = S ∧ (e' = e ∨ ∃ op, allowed anywhere (drained e) op ∧ e' = (perform op e).2)
  | Entered c sub => S !! c = None ∧ S' = <[c := ChannelSubscription_connection_id sub]> S
                     ∧ Engine.subscribe (in_connection i) c u e = (Ok sub, e')
  | Refused c error => S' = S ∧ Engine.subscribe (in_connection i) c u e = (Err error, e')
  | Departed c conn => S = <[c := conn]> S' ∧ S' !! c = None ∧ e' = (Engine.leave c u conn e).2
  end.
Lemma call_wp {A} u b S (t : Task A) l Q i e t' e' :
  wp b S t l Q → engine_fine e → fresh_inputs e i = true → call_engine u t i e = Some (t', e') →
  ∃ S' ch, wp b S' t' l Q ∧ changed u i e e' S S' ch
    ∧ match ch with Entered _ _ | Refused _ _ => b = true | _ => True end.
Proof.
  intros Hwp Hok Hf Hc. destruct t as [a| |k|f t|X m k|c k|c conn t]; try done; simpl in Hc.
  - destruct Hwp as (Hl&Hq&Hk). destruct (Hq i e Hok Hf) as [Hp He].
    destruct (m i e) as [r e1]; simpl in *; simplify_eq. exists (subscriptions l), Quietly.
    split; [|split; [split; [done|naive_solver]|done]].
    unfold resume, outcome_of. destruct r; [by apply Hk..|done].
  - destruct Hwp as (->&Hl&Hnone&Herr&Hok').
    assert (Hp := ask_no_panic (CSubscribe (in_connection i) c u) subscription_reply e subscription_reply_fine).
    unfold Engine.subscribe in *. destruct (ask _ _ e) as [r e1] eqn:E; simpl in *; simplify_eq.
    unfold resume, outcome_of. destruct r as [sub|error|]; [|..|done].
    + eexists _, (Entered c sub). split_and!; [by apply Hok'|by split_and!|done].
    + exists (subscriptions l), (Refused c error). split_and!; [by apply Herr|by split_and!|done].
  - simplify_eq. destruct Hwp as (->&Hnone&Ht). exists (subscriptions l), (Departed c conn).
    split_and!; [by apply Ht|by split_and!|done].
Qed.

(** ** Leaving *)

Lemma forget_subscriptions c conn l : subscriptions (forget c conn l) = delete c (subscriptions l).
Proof. done. Qed.
Lemma wp_forget {A} b c conn (t : Task A) l Q :
  subscriptions l !! c = Some conn →
  (∀ l', subscriptions l' = delete c (subscriptions l) → wp b (subscriptions l') t l' Q) →
  wp b (subscriptions l) (Update (forget c conn) (CallLeave c conn t)) l Q.
Proof.
  intros Hc Ht. cbn [wp]. rewrite forget_subscriptions. split_and!.
  - by rewrite insert_delete_id.
  - apply lookup_delete_eq.
  - intros l' Hl'. rewrite <-Hl'. by apply Ht.
Qed.
Lemma wp_disconnect b c l Q :
  (∀ l', subscriptions l' = delete c (subscriptions l) → Q tt l') → wp b (subscriptions l) (disconnect c) l Q.
Proof.
  intros HQ. unfold disconnect. cbn [wp]. destruct (subscriptions l !! c) as [conn|] eqn:E.
  - apply wp_forget; [done|]. intros l' Hl'. split; [done|]. by apply HQ.
  - split; [done|]. apply HQ. by rewrite delete_id.
Qed.
Lemma wp_for_each {A} b (f : A → Task unit) xs (I : Locals → Prop) l :
  I l → (∀ x l, x ∈ xs → I l → wp b (subscriptions l) (f x) l (λ _ l', I l')) →
  wp b (subscriptions l) (for_each f xs) l (λ _ l', I l').
Proof.
  revert l. induction xs as [|x xs IH]; intros l Hl Hf; simpl; [done|].
  apply wp_bind. eapply wp_mono; [|apply Hf; [by left|done]]. intros [] l' Hl'. apply IH; [done|].
  intros. apply Hf; [by right|done].
Qed.
Lemma wp_leave_list b (xs : list (ChannelId * ConnectionId)) l :
  NoDup xs.*1 → (∀ c conn, (c, conn) ∈ xs → subscriptions l !! c = Some conn) →
  wp b (subscriptions l) (for_each (λ '(c, conn), Update (forget c conn) (CallLeave c conn (Ready tt))) xs) l
    (λ _ l', ∀ c conn, subscriptions l' !! c = Some conn ↔ subscriptions l !! c = Some conn ∧ (c, conn) ∉ xs).
Proof.
  revert l. induction xs as [|[c conn] xs IH]; intros l Hnd Hin; simpl.
  { split; [done|]. intros c conn. split; [|by intros [? _]]. intros ?. split; [done|apply not_elem_of_nil]. }
  apply NoDup_cons in Hnd as [Hc Hnd]. assert (subscriptions l !! c = Some conn) as Hlc by (apply Hin; by left).
  apply (wp_forget b c conn); [done|]. intros l' Hl'. eapply wp_mono; [|apply IH; [done|]].
  - simpl. intros _ l'' Hl'' c' conn'. rewrite Hl'', Hl', not_elem_of_cons, lookup_delete_Some. naive_solver.
  - intros c' conn' Hin'. rewrite Hl', lookup_delete_ne; [by apply Hin; right|].
    intros <-. apply Hc. apply list_elem_of_fmap. by exists (c, conn').
Qed.
Lemma wp_leave_all b l : wp b (subscriptions l) leave_all l (λ _ l', subscriptions l' = ∅).
Proof.
  unfold leave_all. cbn [wp]. eapply wp_mono; [|apply wp_leave_list].
  - simpl. intros _ l' Hl'. apply map_eq. intros c. rewrite lookup_empty.
    destruct (subscriptions l' !! c) as [conn|] eqn:E; [|done]. apply Hl' in E as [E Hn].
    by apply elem_of_map_to_list in E.
  - apply NoDup_fst_map_to_list.
  - intros c conn. apply elem_of_map_to_list.
Qed.

(** ** Commands *)

Lemma wp_reply {X} b (m : Inputs → Engine X) event l :
  quiet m → wp b (subscriptions l) (reply m event) l (λ _ _, True).
Proof. intros Hm. unfold reply. simpl. by split_and!. Qed.
Lemma wp_validated {X} b (r : Res TextValidationError X) k l :
  r ≠ Panic → (∀ x, wp b (subscriptions l) (k x) l (λ _ _, True)) →
  wp b (subscriptions l) (validated_as r k) l (λ _ _, True).
Proof. intros Hr Hk. unfold validated_as. destruct r; [done|by split|done]. Qed.
Lemma wp_reply_after {X} b (m : Inputs → Engine X) k l :
  quiet m → (∀ x l, wp b (subscriptions l) (k x) l (λ _ _, True)) →
  wp b (subscriptions l) (reply_after m k) l (λ _ _, True).
Proof.
  intros Hm Hk. unfold reply_after. cbn [wp]. split_and!; [done..|]. intros [x|error] l' Hl'; [|done].
  rewrite <-Hl'. apply Hk.
Qed.
Lemma quiet_list_channels (u : UserId) : quiet (λ i, EngineServices.list_channels (in_now i) u).
Proof. apply quiet_reads. intros i. apply reads_channels. Qed.
Lemma wp_inaccessible b u l :
  wp b (subscriptions l) (disconnect_inaccessible_channels u) l (λ _ _, True).
Proof.
  unfold disconnect_inaccessible_channels. cbn [wp]. split_and!; [done|apply quiet_list_channels|].
  intros r l' Hl'. cbn [wp]. rewrite <-Hl'. apply (wp_for_each _ _ _ (λ _, True)); [done|].
  intros c l1 _ _. by apply wp_disconnect.
Qed.
Lemma wp_subscribe_channel l c : wp true (subscriptions l) (subscribe_channel c) l (λ _ _, True).
Proof.
  unfold subscribe_channel. apply wp_bind, wp_disconnect. intros l1 Hl1. cbn [wp]. split_and!; [done..| |done|].
  - rewrite Hl1. apply lookup_delete_eq.
  - intros sub l2 Hl2. cbn [wp]. simpl. by rewrite Hl2.
Qed.
Lemma quiet_members (u : UserId) k : quiet (λ i, Engine.list_circle_members (in_now i) u k).
Proof.
  intros i e Hok Hf. unfold Engine.list_circle_members, st_bind.
  destruct (repo_reads _ e (reads_circle_profiles (in_now i) u k) Hok) as [Hs Hp].
  destruct (repo (list_circle_user_profiles _ _ _) e) as [[ps|er|] e1]; simpl in *; subst; [|auto|done].
  destruct (repo_reads _ e (reads_roles u k) Hok) as [Hs Hp'].
  destruct (repo (circle_member_roles _ _) e) as [[rs|er|] e1]; simpl in *; subst; [auto|auto|done].
Qed.
Lemma quiet_create_task (u : UserId) source assignee title link :
  quiet (λ _, EngineServices.create_task u source assignee title link).
Proof.
  intros i e Hok Hf. unfold EngineServices.create_task, st_bind, ensure, repo, call, RepoDefaults.create_task, throw.
  destruct (negb _); simpl; [|auto]. destruct (negb _); simpl; [|auto]. split; [done|]. left. by destruct e as [[]].
Qed.
Ltac quiet_read := apply quiet_reads; intros; eauto with reads.
Ltac quiet_op o := apply (quiet_discard _ o); [fresh_allowed|done|done].
Ltac quiet_unit o := apply (quiet_perform _ o); [fresh_allowed|done|done].
(** The calls of the commands that change the repository. *)
Lemma quiet_send u c parent body rid :
  quiet (λ i, match parent with
              | Some p => Engine.send_thread_reply_idempotent (in_message i) (in_now i) c u p body rid
              | None => Engine.send_message_idempotent (in_message i) (in_now i) c u body rid
              end).
Proof.
  apply (quiet_discard _ (λ i, AppendMessageIdempotent (in_message i) (in_now i) (mk_SendMessage u c parent body) rid));
    [|done|by destruct parent].
  fresh_allowed.
Qed.
Lemma wp_changing b u rid command l :
  match command with
  | CmdSetCircleMemberRole _ _ _ | CmdSetStatus _ _ _ | CmdUpdateProfile _ | CmdOpenDirectChannel _
  | CmdExpandDirectChannel _ _ | CmdCreateChannel _ _ _ _ | CmdJoinChannel _ | CmdUpdateChannelDescription _ _
  | CmdAddChannelMember _ _ | CmdMarkThreadRead _ _ | CmdSendMessage _ _ _ | CmdEditMessage _ _
  | CmdDeleteMessage _ | CmdToggleMessageReaction _ _ | CmdMarkRead _ _ | CmdCreateCircle _ _
  | CmdRenameCircle _ _ | CmdCreateCircleInvitation _ | CmdAcceptCircleInvitation _ => True
  | _ => False
  end → wp b (subscriptions l) (execute u rid command) l (λ _ _, True).
Proof.
  intros Hc. destruct command; try done; clear Hc; unfold execute;
    repeat (apply wp_validated; [first [apply slug_no_panic|apply name_no_panic|apply body_no_panic
                                        |apply circle_name_no_panic]|intros ?]); apply wp_reply.
  - quiet_op (λ _ : Inputs, SetCircleMemberRoleOp (mk_SetCircleMemberRole u circle_id user_id role)).
  - quiet_op (λ i, SetUserStatus (in_now i) u text emoji expires_at).
  - quiet_op (λ _ : Inputs, UpdateProfile u (mk_DisplayName display_name)).
  - quiet_op (λ i, OpenDirectChannel (in_channel i) (in_slug i) u user_id).
  - quiet_op (λ i, ExpandDirectChannel (in_channel i) (in_slug i) u channel_id user_id).
  - apply (quiet_discard _ (λ i, CreateChannelOp (in_channel i) (mk_CreateChannel u x x0 kind circle_id))); [|done|done].
    fresh_allowed.
  - quiet_op (λ _ : Inputs, JoinChannelOp (mk_JoinChannel u channel)).
  - quiet_op (λ _ : Inputs, UpdateChannelDescriptionOp (mk_UpdateChannelDescription u channel_id description)).
  - quiet_op (λ _ : Inputs, AddChannelMemberOp (mk_AddChannelMember u channel_id user_id)).
  - quiet_op (λ _ : Inputs, MarkThreadRead u root_message_id sequence).
  - apply quiet_send.
  - quiet_op (λ i, EditMessageOp (in_now i) (mk_EditMessage u message_id x)).
  - quiet_op (λ i, DeleteMessageOp (in_now i) (mk_DeleteMessage u message_id)).
  - quiet_op (λ _ : Inputs, ToggleMessageReaction u message_id emoji).
  - quiet_op (λ _ : Inputs, MarkReadOp (mk_MarkRead u channel_id sequence)).
  - quiet_op (λ i, CreateCircleOp (in_circle i) (in_now i) (mk_CreateCircle u x x0)).
  - quiet_op (λ _ : Inputs, RenameCircleOp (mk_RenameCircle u circle_id x)).
  - apply (quiet_discard _ (λ i, CreateCircleInvitationOp (in_secret i) (in_invitation i) (in_now i) (mk_CreateCircleInvitation u circle_id)));
      [|done|done]. fresh_allowed.
  - quiet_op (λ i, AcceptCircleInvitationOp (in_now i) (in_joined_at i) (mk_AcceptCircleInvitation u token)).
Qed.
Lemma execute_wp b u rid command l :
  b = true ∨ transport_command command = false →
  wp b (subscriptions l) (execute u rid command) l (λ _ _, True).
Proof.
  intros Hb. destruct command; try (by apply wp_changing); unfold execute;
    try (apply wp_reply; (by quiet_read) || apply quiet_members || apply quiet_create_task).
  - apply wp_reply_after; [quiet_unit (λ _ : Inputs, LeaveChannelOp (mk_LeaveChannel u channel_id))|].
    intros _ l'. apply wp_bind, wp_disconnect. by intros.
  - destruct Hb as [->|?]; [|done]. apply wp_subscribe_channel.
  - apply wp_bind, wp_disconnect. by intros.
  - apply wp_reply_after; [quiet_unit (λ _ : Inputs, DeleteCircleOp (mk_DeleteCircle u circle_id))|].
    intros _ l'. apply wp_bind. eapply wp_mono; [|apply wp_inaccessible]. by intros.
  - apply wp_reply_after; [quiet_unit (λ _ : Inputs, LeaveCircleOp (mk_LeaveCircle u circle_id))|].
    intros _ l'. apply wp_bind. eapply wp_mono; [|apply wp_inaccessible]. by intros.
Qed.
(** The response carries the identifier of the request. *)
Lemma execute_command_wp b u envelope l :
  b = true ∨ transport_command (ClientEnvelope_command envelope) = false →
  wp b (subscriptions l) (execute_command u envelope) l
    (λ r _, ServerEnvelope_request_id r = Some (ClientEnvelope_request_id envelope)).
Proof.
  intros Hb. unfold execute_command. apply wp_bind. eapply wp_mono; [|by apply execute_wp].
  simpl. intros r l' _. done.
Qed.
End tasks.
