(* ===== verification/TransportServer.v ===== *)
(** * TransportServer: the server with its connections

    Sockets, HTTP commands and event streams around one engine, as a step relation. Between two
    steps of a connection any other may take steps, and so may the rest of the server: every
    operation of the engine, its sweeps and the turns of its actor. Connection identifiers are
    never used twice. The second part shows which calls of the engine change who is present. *)

From Stdlib Require Import ZifyBool.
From stdpp Require Import base tactics numbers strings countable sorting gmap list.
From S2P Require Import Prelude RustStr Text Ids Models Policy RepoState RepoMessages RepoChannels RepoCircles RepoUsers RepoWf RepoReach ChatActor ActorLaws ActorInvariant ChatEngine EngineReach Wire ChannelList EngineServices Transport Sockets TransportTasks.

Section server.
Context `{Unicode, UuidLib, CryptoLib, EngineLib, F64Lib, EnvelopeCodec}.

(** [server_connections] are the connection identifiers that were generated, and
    [server_abandoned] the subscriptions whose handler was dropped while it waited. *)
Record Server : Type := mk_Server {
  server_engine : ChatEngine;
  server_sockets : gmap N Socket;
  server_commands : gmap N HttpCommand;
  server_streams : gmap N EventStream;
  server_shutdown : bool;
  server_connections : gset ConnectionId;
  server_abandoned : gset (ChannelId * UserId * ConnectionId) }.
#[export] Instance Server_eta : Eta Server := λ w,
  mk_Server (server_engine w) (server_sockets w) (server_commands w) (server_streams w)
    (server_shutdown w) (server_connections w) (server_abandoned w).
Definition server_start : Server :=
  mk_Server (ChatEngine_start RepositoryState_default) ∅ ∅ ∅ false ∅ ∅.

(** The generated values of an event. *)
Definition socket_inputs (event : SocketEvent) : option Inputs :=
  match event with OnCall i => Some i | _ => None end.
Definition stream_inputs (event : StreamEvent) : option Inputs :=
  match event with
  | StreamOnCall i | StreamOnPresence i | StreamOnGoneSubscribing i => Some i
  | _ => None
  end.
Definition inputs_ok (w : Server) (i : option Inputs) : bool :=
  match i with
  | Some i => fresh_inputs (server_engine w) i && bool_decide (in_connection i ∉ server_connections w)
  | None => true
  end.
Definition inputs_used (i : option Inputs) (w : Server) : Server :=
  match i with
  | Some i => w <| server_connections := {[in_connection i]} ∪ server_connections w |>
  | None => w
  end.
(** A handler that is dropped while it waits for its subscription. *)
Definition abandons (event : StreamEvent) (s : EventStream) (w : Server) : Server :=
  match event, stream_scope s with
  | StreamOnGoneSubscribing i, Some (c, _) =>
      match (Engine.subscribe (in_connection i) c (stream_id s) (server_engine w)).1 with
      | Ok _ => w <| server_abandoned := {[(c, stream_id s, in_connection i)]} ∪ server_abandoned w |>
      | _ => w
      end
  | _, _ => w
  end.

(** Everything else that uses the engine. *)
Inductive other_step (e : ChatEngine) : ChatEngine → Prop :=
  | other_perform op : allowed anywhere (drained e) op → other_step e (perform op e).2
  | other_sweep : other_step e (Engine.sweep e).2
  | other_deliver : other_step e (deliver e).

Inductive server_step (w : Server) : Server → Prop :=
  | step_connect id user native sent :
      server_sockets w !! id = None →
      server_step w (w <| server_sockets :=
        <[id := handle_socket_start (server_shutdown w) sent user native]> (server_sockets w) |>)
  | step_socket id s event s' e' :
      server_sockets w !! id = Some s → inputs_ok w (socket_inputs event) = true →
      socket_step (server_shutdown w) event s (server_engine w) = Some (s', e') →
      server_step w (inputs_used (socket_inputs event)
        (w <| server_engine := e' |> <| server_sockets := <[id := s']> (server_sockets w) |>))
  | step_post id user envelope (native : bool) :
      server_commands w !! id = None →
      server_step w (w <| server_commands :=
        <[id := (if native then native_command else command_handler) user envelope]> (server_commands w) |>)
  | step_command id i h h' e' :
      server_commands w !! id = Some h → inputs_ok w (Some i) = true →
      http_step i h (server_engine w) = Some (h', e') →
      server_step w (inputs_used (Some i)
        (w <| server_engine := e' |> <| server_commands := <[id := h']> (server_commands w) |>))
  | step_open id user bootstrap channel_id request_id after s :
      server_streams w !! id = None →
      events_handler user bootstrap channel_id request_id after = Some s →
      server_step w (w <| server_streams := <[id := s]> (server_streams w) |>)
  | step_stream id s event s' e' :
      server_streams w !! id = Some s → inputs_ok w (stream_inputs event) = true →
      stream_step (server_shutdown w) event s (server_engine w) = Some (s', e') →
      server_step w (inputs_used (stream_inputs event) ((abandons event s w)
        <| server_engine := e' |> <| server_streams := <[id := s']> (server_streams w) |>))
  | step_other e' :
      other_step (server_engine w) e' → server_step w (w <| server_engine := e' |>)
  | step_shutdown : server_step w (w <| server_shutdown := true |>).
Definition server_reachable (w : Server) : Prop := rtc server_step server_start w.

(** ** Who holds which connection *)

(** The subscriptions of a socket: those in its table, and the one it is leaving. *)
Definition socket_owned (s : Socket) : gmap ChannelId ConnectionId :=
  match socket_phase s with
  | Running t => owned t (socket_locals s)
  | Closing t => owned t (socket_locals s)
  | _ => subscriptions (socket_locals s)
  end.
(** The channel of a stream, until its guard has left. *)
Definition stream_owned (s : EventStream) : option (ChannelId * ConnectionId) :=
  '(c, _) ← stream_scope s; conn ← stream_guard s; Some (c, conn).

Inductive Owner : Type := BySocket (id : N) | ByStream (id : N) | Nobody.
#[export] Instance Owner_eq_dec : EqDecision Owner.
Proof. solve_decision. Defined.
Definition holds (w : Server) (o : Owner) (x : ChannelId * UserId * ConnectionId) : Prop :=
  let '(c, u, conn) := x in
  match o with
  | BySocket id => ∃ s, server_sockets w !! id = Some s ∧ socket_id s = u ∧ socket_owned s !! c = Some conn
  | ByStream id => ∃ s, server_streams w !! id = Some s ∧ stream_id s = u ∧ stream_owned s = Some (c, conn)
  | Nobody => x ∈ server_abandoned w
  end.
Definition present (e : ChatEngine) (x : ChannelId * UserId * ConnectionId) : Prop :=
  let '(c, u, conn) := x in conn ∈ default ∅ (chan_participants (engine_actor e) c !! u).
End server.

Section presence.
Context `{Unicode, UuidLib, CryptoLib, EngineLib, F64Lib, EnvelopeCodec}.

Definition about_presence (cmd : Command) : bool :=
  match cmd with CSubscribe _ _ _ | CLeave _ _ _ => true | _ => false end.
Lemma chan_participants_mut (a : ChatActor RepositoryState) c f :
  chan_participants (channel_mut c f a) c = participants (f (default ChannelState_new (actor_channels a !! c))).
Proof. unfold chan_participants, channel_mut. simpl. by rewrite lookup_insert_eq. Qed.
Lemma chan_participants_mut_ne (a : ChatActor RepositoryState) c f c' :
  c' ≠ c → chan_participants (channel_mut c f a) c' = chan_participants a c'.
Proof. intros Hc. unfold chan_participants, channel_mut. simpl. by rewrite lookup_insert_ne. Qed.
Lemma chan_participants_publish (a : ChatActor RepositoryState) c e c' :
  chan_participants (channel_mut c (ChannelState_publish e) a) c' = chan_participants a c'.
Proof.
  destruct (decide (c' = c)) as [->|Hne]; [by rewrite chan_participants_mut|by apply chan_participants_mut_ne].
Qed.
Lemma chan_participants_call {A} (m : Repo A) (a : ChatActor RepositoryState) c :
  chan_participants (call m a).2 c = chan_participants a c.
Proof. unfold call. by destruct (m _). Qed.
Lemma publish_message_participants m (a : ChatActor RepositoryState) c :
  chan_participants (publish_message m a).2 c = chan_participants a c.
Proof.
  rewrite publish_message_run. simpl. case_decide; [done|]. by rewrite chan_participants_publish.
Qed.
(** A call, then an announcement. *)
Lemma announce_participants {A} (m : Repo A) (chan : A → ChannelId) (ev : A → ChatEvent) a c :
  chan_participants ((let! x := call m in publish_to (chan x) (ev x) ;;; st_ret x) a).2 c
  = chan_participants a c.
Proof.
  rewrite <-(chan_participants_call m a c). unfold st_bind. destruct (call m a) as [[x|e|] a1]; [|done..].
  unfold publish_to, modify, st_ret. simpl. apply chan_participants_publish.
Qed.
Lemma reply_with_run {A} (wrap : Res ChatError A → Reply) m (a : ChatActor RepositoryState) :
  (reply_with wrap m a).2 = (m a).2.
Proof. unfold reply_with. by destruct (m a). Qed.
Lemma handle_participants cmd (a : ChatActor RepositoryState) c :
  about_presence cmd = false → chan_participants (handle cmd a).2 c = chan_participants a c.
Proof.
  intros Hcmd. destruct cmd; try done; cbn [handle]; rewrite reply_with_run.
  - apply chan_participants_publish.
  - unfold send_message, st_bind. destruct request_id as [rid|];
      match goal with |- context [call ?m a] =>
        rewrite <-(chan_participants_call m a c); destruct (call m a) as [[x|e|] a1] end; try done;
      cbn [fst snd]; rewrite <-(publish_message_participants x a1 c); by destruct (publish_message x a1) as [[[]| |] a2].
  - apply (announce_participants (repo_toggle_message_reaction actor message_id emoji)).
  - apply (announce_participants (repo_edit_message now (mk_EditMessage actor message_id body))).
  - apply (announce_participants (repo_delete_message now (mk_DeleteMessage actor message_id))).
  - unfold st_bind. rewrite <-(chan_participants_call (repo_load_message message_id) a c).
    destruct (call _ a) as [[x|e|] a1]; try done. apply publish_message_participants.
  - destruct event; try done. apply chan_participants_publish.
  - destruct event; try done; apply chan_participants_publish.
  - destruct event as [? ? [?|]| | | | | | |]; try done. apply chan_participants_publish.
  - destruct event; try done; apply chan_participants_publish.
Qed.
Lemma handle_all_participants cmds (a : ChatActor RepositoryState) c :
  Forall posted cmds → chan_participants (handle_all cmds a).2 c = chan_participants a c.
Proof.
  intros Hp. revert a. induction Hp as [|cmd cmds Hc _ IH]; intros a; [done|].
  rewrite handle_all_cons, IH by done. apply handle_participants. by destruct cmd.
Qed.

(** ** The engine *)

(** A relation between actors that every handler and every change of the repository keeps is
    kept by the operations of the engine; [P] are the commands it is about. *)
Section related.
Context (R : relation (ChatActor RepositoryState)) `{!PreOrder R} (P : Command → Prop).
Context (HR : ∀ cmd a, P cmd → R a (handle cmd a).2) (HS : ∀ a st, R a (a <| repository := st |>)).
Context (HP : ∀ cmd, about_presence cmd = false → P cmd).
Definition related (e e' : ChatEngine) : Prop := R (engine_actor e) (engine_actor e').
Lemma handle_all_related cmds a : Forall P cmds → R a (handle_all cmds a).2.
Proof.
  intros Hc. revert a. induction Hc as [|cmd cmds Hc _ IH]; intros a; simpl; [done|].
  assert (Ha := HR cmd a Hc). destruct (handle cmd a) as [r a']. destruct (panicked r); [done|].
  etrans; [exact Ha|apply IH].
Qed.
Lemma repo_related {A} (m : Repo A) e : related e (repo m e).2.
Proof. unfold related. rewrite repo_run. simpl. apply HS. Qed.
Lemma post_related cmd e : related e (post cmd e).2.
Proof. unfold related, post. by destruct (running e). Qed.
Lemma ask_related {A} cmd (reply : Reply → Res ChatError A) e :
  Forall P (mailbox e) → P cmd → related e (ask cmd reply e).2.
Proof.
  intros Hm Hc. unfold related, ask. destruct (running e); [|done].
  assert (Ha := handle_all_related _ (engine_actor e) Hm).
  destruct (handle_all _ _) as [[] a]; simpl in Ha; [|done].
  assert (Hh := HR cmd a Hc). destruct (handle cmd a) as [r a'].
  destruct (panicked r); (etrans; [exact Ha|exact Hh]).
Qed.
Lemma bind_related {A B} (m : Engine A) (k : A → Engine B) e :
  related e (m e).2 → (∀ x e', related e' (k x e').2) → related e (st_bind m k e).2.
Proof.
  intros Hm Hk. unfold st_bind. destruct (m e) as [[y|err|] e1]; simpl in *; [|done..].
  unfold related in *. etrans; [done|apply Hk].
Qed.
Lemma discard_related {A} (m : Engine A) e : related e (m e).2 → related e (discard m e).2.
Proof. by rewrite discard_run. Qed.
Lemma related_refl e : related e e.
Proof. unfold related. done. Qed.
Lemma perform_related op e : Forall P (mailbox e) → related e (perform op e).2.
Proof.
  intros Hm. destruct op; simpl;
    repeat match goal with |- context [match ?x with _ => _ end] => destruct x end;
    try apply discard_related; try apply repo_related; try (apply ask_related; [done|by apply HP]).
  - unfold Engine.toggle_reaction. rewrite ensure_bind_run.
    case_match; [apply ask_related; [done|by apply HP]|apply related_refl].
  - apply bind_related; [apply repo_related|]. intros [y|] e'; [|apply related_refl].
    apply bind_related; [apply post_related|intros; apply related_refl].
  - apply bind_related; [apply repo_related|]. intros ch e'. apply bind_related; [|intros; apply related_refl].
    assert (Hp := post_related (CChannelCreated source (Channel_id ch) (Channel_created_by ch)) e').
    unfold ignore_err. by destruct (post _ e') as [[] ?].
  - apply bind_related; [apply repo_related|intros; apply related_refl].
  - unfold Engine.update_profile. apply bind_related; [apply related_refl|]. intros. apply repo_related.
  - unfold Engine.set_status. rewrite ensure_bind_run. case_match; [apply repo_related|apply related_refl].
  - unfold Engine.remove_saved_status. rewrite ensure_bind_run. case_match; [|apply related_refl].
    rewrite ensure_bind_run. case_match; [apply repo_related|apply related_refl].
  - unfold Engine.save_emoji. rewrite ensure_bind_run. case_match; [apply repo_related|apply related_refl].
Qed.
Lemma deliver_related e : Forall P (mailbox e) → related e (deliver e).
Proof.
  intros Hm. unfold deliver. destruct (mailbox e) as [|cmd rest]; [apply related_refl|].
  apply Forall_cons in Hm as [Hc _]. assert (Hh := HR cmd (engine_actor e) Hc). unfold related.
  destruct (handle cmd _) as [r a']. by destruct (panicked r).
Qed.
End related.

Definition same_presence (e e' : ChatEngine) : Prop := ∀ x, present e' x ↔ present e x.
Definition same_actors (a a' : ChatActor RepositoryState) : Prop :=
  ∀ c, chan_participants a' c = chan_participants a c.
#[local] Instance same_actors_preorder : PreOrder same_actors.
Proof. split; [done|]. intros a b c Hab Hbc x. by rewrite Hbc. Qed.
Lemma same_participants (e e' : ChatEngine) : related same_actors e e' → same_presence e e'.
Proof. intros Hc [[c u] conn]. unfold present. by rewrite Hc. Qed.
Lemma posted_quiet cmds : Forall posted cmds → Forall (λ cmd, about_presence cmd = false) cmds.
Proof. intros Hc. eapply Forall_impl; [done|]. by intros []. Qed.
Lemma handle_same cmd (a : ChatActor RepositoryState) :
  about_presence cmd = false → same_actors a (handle cmd a).2.
Proof. intros Hc c. by apply handle_participants. Qed.
Lemma post_presence cmd e : same_presence e (post cmd e).2.
Proof. apply same_participants, (post_related same_actors). Qed.
Lemma perform_presence op e : Forall posted (mailbox e) → same_presence e (perform op e).2.
Proof.
  intros Hm. apply same_participants.
  by apply (perform_related same_actors (λ cmd, about_presence cmd = false)); [apply handle_same|..|apply posted_quiet].
Qed.
Lemma ask_participants {A} cmd (reply : Reply → Res ChatError A) e c :
  Forall posted (mailbox e) → running e = true →
  chan_participants (engine_actor (ask cmd reply e).2) c = chan_participants (handle cmd (drained e)).2 c.
Proof.
  intros Hm Hr. rewrite ask_run by done. destruct (handle cmd (drained e)) as [r a]. by destruct (panicked r).
Qed.
Lemma drained_participants e c :
  Forall posted (mailbox e) → chan_participants (drained e) c = chan_participants (engine_actor e) c.
Proof. apply handle_all_participants. Qed.
Lemma deliver_presence e : Forall posted (mailbox e) → same_presence e (deliver e).
Proof.
  intros Hm. apply same_participants.
  by apply (deliver_related same_actors (λ cmd, about_presence cmd = false)); [apply handle_same|apply posted_quiet].
Qed.

(** The engine is fine and running, and its presence is local. *)
Definition engine_good (e : ChatEngine) : Prop := engine_fine e ∧ running e = true.
Lemma good_mailbox e : engine_good e → Forall posted (mailbox e).
Proof. by intros [[Hm _] _]. Qed.
Lemma good_local e : engine_good e → distributed_presence (drained e) = false.
Proof.
  intros [Hok _]. destruct (drained_fine _ _ Hok) as [(_&_&Hs) _].
  by apply sys_reachable_distributed in Hs.
Qed.
Lemma good_step e e' : engine_good e → engine_step anywhere e e' → engine_good e'.
Proof.
  intros [Hok Hr] Hs. split; [by eapply engine_step_ok|]. by rewrite (engine_step_running _ _ _ Hok Hs).
Qed.
Lemma other_good e e' : engine_good e → other_step e e' → engine_good e' ∧ same_presence e e'.
Proof.
  intros Hg Hs. assert (Hm := good_mailbox _ Hg). destruct Hs as [op Hop| |].
  - split; [by eapply good_step; [|apply estep_perform]|by apply perform_presence].
  - split; [by eapply good_step; [|apply estep_sweep]|apply post_presence].
  - split; [by eapply good_step; [|apply estep_deliver]|by apply deliver_presence].
Qed.

(** Entering: the connection is present, and nothing else changes. *)
Lemma actor_subscribe_present conn c u (a : ChatActor RepositoryState) r a' :
  distributed_presence a = false → subscribe conn c u a = (r, a') →
  match r with
  | Ok sub => ChannelSubscription_connection_id sub = conn
      ∧ ∀ c' u', default ∅ (chan_participants a' c' !! u')
          = (if decide (c' = c ∧ u' = u) then {[conn]} else ∅) ∪ default ∅ (chan_participants a c' !! u')
  | _ => ∀ c', chan_participants a' c' = chan_participants a c'
  end.
Proof.
  intros Hd Hrun. unfold subscribe in Hrun. unfold st_bind in Hrun at 1.
  destruct (call _ a) as [r1 a1] eqn:E in Hrun. apply call_channels in E as (Hc&_&Hd').
  destruct r1 as [history|e|]; simplify_eq; [|intros c'; unfold chan_participants; by rewrite Hc..].
  st_simpl Hrun. rewrite Hc, Hd', Hd in Hrun. fold (chan_participants a c) in Hrun.
  set (conns := default ∅ (chan_participants a c !! u)) in Hrun.
  set (a2 := channel_mut _ _ _) in Hrun.
  assert (∀ c' u', default ∅ (chan_participants a2 c' !! u')
    = (if decide (c' = c ∧ u' = u) then {[conn]} else ∅) ∪ default ∅ (chan_participants a c' !! u')) as Ha2.
  { intros c' u'. unfold a2, channel_mut, chan_participants. simpl. rewrite Hc.
    destruct (decide (c' = c)) as [->|Hne].
    - rewrite lookup_insert_eq. simpl. fold (chan_participants a c). destruct (decide (u' = u)) as [->|Hu].
      + by rewrite decide_True, lookup_insert_eq by done.
      + rewrite decide_False, lookup_insert_ne by naive_solver. set_solver.
    - rewrite decide_False, lookup_insert_ne by naive_solver. set_solver. }
  case_bool_decide; [unfold publish_to in Hrun; st_simpl Hrun|simplify_eq]; (split; [done|]); intros c' u'.
  - by rewrite chan_participants_publish.
  - done.
Qed.
(** Leaving: the connection is gone, and nothing else changes. *)
Lemma actor_leave_present c u conn (a : ChatActor RepositoryState) c' u' :
  distributed_presence a = false →
  default ∅ (chan_participants (leave c u conn a).2 c' !! u')
  = default ∅ (chan_participants a c' !! u') ∖ (if decide (c' = c ∧ u' = u) then {[conn]} else ∅).
Proof.
  intros Hd. unfold leave. st_compute. rewrite Hd.
  destruct (actor_channels a !! c) as [ch|] eqn:E.
  2:{ simpl. case_decide as Hcu; [|set_solver]. destruct Hcu as [-> ->]. unfold chan_participants. rewrite E. set_solver. }
  assert (chan_participants a c = participants ch) as Hch by (unfold chan_participants; by rewrite E).
  destruct (participants ch !! u) as [conns|] eqn:Eu; simpl.
  - set (a2 := a <| actor_channels := _ |>).
    assert (∀ c', c' ≠ c → chan_participants a2 c' = chan_participants a c') as Hother.
    { intros c1 Hne. unfold a2, chan_participants. simpl. by rewrite lookup_insert_ne. }
    assert (∀ v, chan_participants a2 c !! v = <[u := conns ∖ {[conn]}]> (participants ch) !! v) as Hsame.
    { intros v. unfold a2, chan_participants. simpl. by rewrite lookup_insert_eq. }
    case_bool_decide as Hempty.
    + unfold publish_to, modify. simpl. rewrite chan_participants_publish.
      destruct (decide (c' = c)) as [->|Hne].
      * rewrite chan_participants_mut, Hch.
        simpl. change (participants (default _ _)) with (chan_participants a2 c). destruct (decide (u' = u)) as [->|Hu].
        -- rewrite lookup_delete_eq, decide_True, Eu by done. simpl. done.
        -- rewrite lookup_delete_ne, Hsame, lookup_insert_ne, decide_False by naive_solver. set_solver.
      * rewrite chan_participants_mut_ne, Hother, decide_False by naive_solver. set_solver.
    + simpl. destruct (decide (c' = c)) as [->|Hne].
      * rewrite Hsame, Hch. destruct (decide (u' = u)) as [->|Hu].
        -- by rewrite lookup_insert_eq, decide_True, Eu by done.
        -- rewrite lookup_insert_ne, decide_False by naive_solver. set_solver.
      * rewrite Hother, decide_False by naive_solver. set_solver.
  - set (a2 := a <| actor_channels := _ |>).
    assert (chan_participants a2 c' = chan_participants a c') as ->.
    { unfold a2, chan_participants. simpl. destruct (decide (c' = c)) as [->|Hne];
        [by rewrite lookup_insert_eq, E|by rewrite lookup_insert_ne]. }
    case_decide as Hcu; [|set_solver]. destruct Hcu as [-> ->]. rewrite Hch, Eu. set_solver.
Qed.

Lemma engine_subscribe e conn c u r e' :
  engine_good e → Engine.subscribe conn c u e = (r, e') →
  engine_good e' ∧ match r with
  | Ok sub => ChannelSubscription_connection_id sub = conn
              ∧ ∀ x, present e' x ↔ present e x ∨ x = (c, u, conn)
  | _ => same_presence e e'
  end.
Proof.
  intros Hg Hrun. assert (e' = (Engine.subscribe conn c u e).2) as He' by by rewrite Hrun.
  split; [subst; by eapply good_step; [|apply estep_subscribe]|].
  assert (Hm := good_mailbox _ Hg). assert (Hd := good_local _ Hg). destruct Hg as [Hok Hr].
  assert (Hp := λ c', ask_participants (CSubscribe conn c u) subscription_reply e c' Hm Hr).
  unfold Engine.subscribe in *. rewrite Hrun in Hp. simpl in Hp. cbn [handle] in Hp.
  rewrite reply_with_run in Hp.
  assert (r = match (subscribe conn c u (drained e)).1 with Panic => Err EngineStopped | r1 => r1 end) as Hres.
  { rewrite ask_run in Hrun by done. cbn [handle] in Hrun. unfold reply_with in Hrun.
    destruct (subscribe conn c u (drained e)) as [[] ?]; simpl in Hrun; by simplify_eq. }
  destruct (subscribe conn c u (drained e)) as [r1 a1] eqn:E. simpl in Hp, Hres.
  assert (Hs := actor_subscribe_present _ _ _ _ _ _ Hd E).
  assert (is_ok r1 = false → same_presence e e') as Hsame.
  { intros Her. apply same_participants. intros c'. unfold related. rewrite Hp, <-drained_participants by done.
    destruct r1; [done|apply Hs..]. }
  destruct r1 as [sub|err|]; subst; [|by apply Hsame..]. destruct Hs as [Hc Hs]. split; [done|].
  intros [[c' u'] conn']. unfold present. rewrite Hp, Hs, drained_participants by done.
  case_decide as Hcu; set_solver.
Qed.
Lemma engine_leave e conn c u :
  engine_good e → engine_good (Engine.leave c u conn e).2
  ∧ ∀ x, present (Engine.leave c u conn e).2 x ↔ present e x ∧ x ≠ (c, u, conn).
Proof.
  intros Hg. split; [by eapply good_step; [|apply estep_leave]|].
  assert (Hm := good_mailbox _ Hg). assert (Hd := good_local _ Hg). destruct Hg as [Hok Hr].
  intros [[c' u'] conn']. unfold present, Engine.leave. rewrite ask_participants by done.
  cbn [handle]. rewrite reply_with_run, actor_leave_present, drained_participants by done.
  case_decide as Hcu; set_solver.
Qed.
End presence.
