(* ===== verification/TransportInv.v ===== *)
(** * TransportInv: connections, their subscriptions and their answers

    The invariant [server_inv] of [server_step]: a connection is present in a channel exactly
    while a socket or a stream holds it, each is held once, and a socket answers its requests
    in order. *)

From Stdlib Require Import ZifyBool.
From stdpp Require Import base tactics numbers strings countable sorting gmap list.
From S2P Require Import Prelude RustStr Text Ids Models Policy RepoState RepoMessages RepoChannels RepoCircles RepoUsers RepoWf RepoReach ChatActor ActorLaws ActorInvariant ChatEngine EngineReach Wire ChannelList EngineServices Transport Sockets TransportTasks TransportServer.

Section invariant.
Context `{Unicode, UuidLib, CryptoLib, EngineLib, F64Lib, EnvelopeCodec}.

Lemma some_pair {A B} (a a' : A) (b b' : B) : Some (a, b) = Some (a', b') → a = a' ∧ b = b'.
Proof. by intros [= -> ->]. Qed.

(** ** Requests and responses *)

(** The identifiers of the commands that were read, and of the responses that were written. *)
Definition request_of (frame : Frame) : option str :=
  match frame with TextFrame text => ClientEnvelope_request_id <$> decode_envelope text | _ => None end.
Definition requests (received : list Frame) : list str := omap request_of received.
Definition response_of (w : Written) : option str :=
  match w with Sent envelope => ServerEnvelope_request_id envelope | _ => None end.
Definition responses (written : list Written) : list str := omap response_of written.

(** The command a socket works on. *)
Definition pending (s : Socket) (rid : str) : Prop :=
  requests (socket_received s) = responses (socket_written s) ++ [rid].
Definition settled (s : Socket) : Prop := requests (socket_received s) = responses (socket_written s).

Definition socket_ok (s : Socket) : Prop :=
  let l := socket_locals s in
  match socket_phase s with
  | Ensuring => subscriptions l = ∅ ∧ settled s ∧ socket_received s = []
  | Selecting => settled s
  | Running t => waiting t = true ∧ ∃ rid, pending s rid
      ∧ wp true (owned t l) t l (λ r _, ServerEnvelope_request_id r = Some rid)
  | Responding r => ∃ rid, pending s rid ∧ ServerEnvelope_request_id r = Some rid
  | Closing t => waiting t = true ∧ (settled s ∨ ∃ rid, pending s rid)
      ∧ wp true (owned t l) t l (λ _ l', subscriptions l' = ∅)
  | Closed => subscriptions l = ∅ ∧ (settled s ∨ ∃ rid, pending s rid)
  | Unwound => subscriptions l = ∅ ∧ settled s ∧ socket_received s = []
  end.

(** ** Going on with a task *)

Lemma continue_task_ok S t s rid :
  pending s rid → wp true S t (socket_locals s) (λ r _, ServerEnvelope_request_id r = Some rid) →
  socket_ok (continue_task t s) ∧ socket_owned (continue_task t s) = S
  ∧ socket_user (continue_task t s) = socket_user s.
Proof.
  intros Hp Hwp. unfold continue_task. destruct (settle t (socket_locals s)) as [t' l'] eqn:E.
  apply (wp_settle _ _ _ _ _ _ _ Hwp) in E as Hwp'. unfold socket_ok, socket_owned.
  destruct (settle_settled _ _ _ _ E) as [Hw|[[r ->]| ->]]; [|destruct Hwp' as [Hs Hr]; simpl; eauto|done].
  assert (Ho := wp_owned _ _ _ _ _ Hw Hwp'). destruct t'; try done; simpl; (split; [|done]); split; try done;
    exists rid; by rewrite Ho in Hwp'.
Qed.
Lemma continue_closing_ok S t s :
  settled s ∨ (∃ rid, pending s rid) → wp true S t (socket_locals s) (λ _ l', subscriptions l' = ∅) →
  socket_ok (continue_closing t s) ∧ socket_owned (continue_closing t s) = S
  ∧ socket_user (continue_closing t s) = socket_user s.
Proof.
  intros Hp Hwp. unfold continue_closing. destruct (settle t (socket_locals s)) as [t' l'] eqn:E.
  apply (wp_settle _ _ _ _ _ _ _ Hwp) in E as Hwp'. unfold socket_ok, socket_owned.
  destruct (settle_settled _ _ _ _ E) as [Hw|[[r ->]| ->]]; [|destruct Hwp' as [Hs Hr]; simpl; eauto|done].
  assert (Ho := wp_owned _ _ _ _ _ Hw Hwp'). destruct t'; try done; simpl; (split; [|done]); split; try done;
    (split; [done|by rewrite Ho in Hwp']).
Qed.
Lemma break_loop_ok s :
  settled s ∨ (∃ rid, pending s rid) →
  socket_ok (break_loop s) ∧ socket_owned (break_loop s) = subscriptions (socket_locals s)
  ∧ socket_user (break_loop s) = socket_user s.
Proof. intros Hp. apply continue_closing_ok; [done|apply wp_leave_all]. Qed.

(** ** Steps of a socket *)

Lemma responses_snoc ws w : responses (ws ++ [w]) = responses ws ++ option_list (response_of w).
Proof. unfold responses. rewrite omap_app. simpl. by destruct (response_of w). Qed.
Lemma requests_snoc fs f : requests (fs ++ [f]) = requests fs ++ option_list (request_of f).
Proof. unfold requests. rewrite omap_app. simpl. by destruct (request_of f). Qed.

(** A step of a socket that calls nothing. *)
Definition local_step (s s' : Socket) : Prop :=
  socket_ok s' ∧ socket_owned s' = socket_owned s ∧ socket_user s' = socket_user s.
Lemma break_from s s1 :
  settled s1 ∨ (∃ rid, pending s1 rid) → subscriptions (socket_locals s1) = socket_owned s →
  socket_user s1 = socket_user s → local_step s (break_loop s1).
Proof. intros Hp Ho Hu. destruct (break_loop_ok s1 Hp) as (?&?&?). unfold local_step. split_and!; congruence. Qed.
Lemma write_plain sent w s : response_of w = None → settled s → settled (write sent w s).
Proof.
  intros Hw Hs. unfold write, settled in *. destruct sent; [|done]. simpl. by rewrite responses_snoc, Hw, app_nil_r.
Qed.
Lemma write_locals sent w s :
  socket_locals (write sent w s) = socket_locals s ∧ socket_user (write sent w s) = socket_user s
  ∧ socket_phase (write sent w s) = socket_phase s.
Proof. by destruct sent. Qed.
Lemma close_with_ok sent code reason s :
  settled s → socket_owned s = subscriptions (socket_locals s) → local_step s (close_with sent code reason s).
Proof.
  intros Hs Ho. destruct (write_locals sent (SentClose code reason) s) as (Hl&Hu&_).
  apply break_from; [left; by apply write_plain|by rewrite Hl|done].
Qed.
(** Staying in the loop. *)
Lemma selecting_ok s s1 :
  socket_phase s = Selecting → socket_phase s1 = Selecting → socket_locals s1 = socket_locals s →
  socket_user s1 = socket_user s → settled s1 → local_step s s1.
Proof. intros Hp Hp1 Hl Hu Hs. unfold local_step, socket_ok, socket_owned. by rewrite Hp1, Hp, Hl. Qed.
Lemma send_or_break s s1 (b : bool) w :
  socket_phase s = Selecting → socket_phase s1 = Selecting → socket_locals s1 = socket_locals s →
  socket_user s1 = socket_user s → settled s1 → response_of w = None →
  local_step s (if b then write true w s1 else break_loop s1).
Proof.
  intros Hp Hp1 Hl Hu Hs Hw. destruct b.
  - apply selecting_ok; try done. by apply write_plain.
  - apply break_from; [by left|unfold socket_owned; by rewrite Hp, Hl|done].
Qed.
(** A request was read. *)
Lemma responding_ok s s1 rid r :
  socket_phase s = Selecting → socket_locals s1 = socket_locals s → socket_user s1 = socket_user s →
  pending s1 rid → ServerEnvelope_request_id r = Some rid →
  local_step s (s1 <| socket_phase := Responding r |>).
Proof.
  intros Hp Hl Hu Hpe Hr. unfold local_step, socket_ok, socket_owned. rewrite Hp. simpl. rewrite Hl.
  split_and!; [by exists rid|done|done].
Qed.
Lemma on_text_ok text sent s s1 :
  socket_phase s = Selecting → socket_phase s1 = Selecting → socket_locals s1 = socket_locals s →
  socket_user s1 = socket_user s →
  match request_of (TextFrame text) with Some rid => pending s1 rid | None => settled s1 end →
  local_step s (on_text text sent s1).
Proof.
  intros Hp Hp1 Hl Hu Hreq. unfold on_text. simpl in Hreq.
  destruct (decode_envelope text) as [envelope|]; simpl in Hreq; [|by apply send_or_break].
  destruct (check_protocol _); [|by eapply responding_ok].
  destruct (request_id_ok _); [|by eapply responding_ok].
  destruct (continue_task_ok (subscriptions (socket_locals s1)) (execute_command (socket_id s1) envelope) s1
    (ClientEnvelope_request_id envelope)) as (?&Ho&?); [done|by apply execute_command_wp; left|].
  unfold local_step. rewrite Ho. unfold socket_owned. rewrite Hp, Hl. split_and!; congruence.
Qed.
Lemma on_frame_ok frame valid sent s :
  socket_phase s = Selecting → settled s → local_step s (on_frame frame valid sent s).
Proof.
  intros Hp Hs. unfold on_frame. set (s1 := s <| socket_received := _ |>).
  assert (match request_of frame with Some rid => pending s1 rid | None => settled s1 end) as Hreq.
  { unfold pending, settled in *. simpl. rewrite requests_snoc, Hs. destruct (request_of frame); simpl; [done|by rewrite app_nil_r]. }
  assert (settled s1 ∨ ∃ rid, pending s1 rid) as Hor by (destruct (request_of frame); eauto).
  assert (local_step s (break_loop s1)) as Hbr by (apply break_from; [done|unfold socket_owned; by rewrite Hp|done]).
  destruct frame; try done.
  - destruct (native_admitted _ _); [|done]. by apply on_text_ok.
  - by apply selecting_ok.
  - by apply send_or_break.
  - by apply selecting_ok.
Qed.
(** The tasks of the subscriptions. *)
Lemma tasks_ok s ts outbound queued :
  socket_ok s → local_step s (s <| socket_locals := (socket_locals s) <| tasks := ts |> |>
                                <| socket_outbound := outbound |> <| socket_queued := queued |>).
Proof.
  intros Hok. unfold local_step, socket_ok, socket_owned in *. simpl.
  destruct (socket_phase s) as [| |t|r|t| |]; try (split; [exact Hok|done]).
  - destruct Hok as (Hw&rid&Hp&Hwp). split_and!; [done| |by destruct t|done]. exists rid. split; [exact Hp|].
    replace (owned t _) with (owned t (socket_locals s)) by by destruct t. by apply (wp_locals _ _ _ (socket_locals s)).
  - destruct Hok as (Hw&Hp&Hwp). split_and!; [done|exact Hp| |by destruct t|done].
    replace (owned t _) with (owned t (socket_locals s)) by by destruct t. by apply (wp_locals _ _ _ (socket_locals s)).
Qed.

Definition quietly (e e' : ChatEngine) : Prop :=
  e' = e ∨ ∃ op, allowed anywhere (drained e) op ∧ e' = (perform op e).2.
(** A placeholder for a step that generates nothing. *)
Definition no_inputs : Inputs :=
  mk_Inputs 0 0 (mk_ChannelId 0) 0 (mk_CircleId 0) (mk_MessageId 0) (mk_InvitationId 0) (Ok [])
    (mk_ConnectionId 0).
(** A step keeps the socket in order; what it holds changes as its call says. *)
Definition moves (i : option Inputs) (e e' : ChatEngine) (s s' : Socket) : Prop :=
  socket_ok s' ∧ socket_user s' = socket_user s
  ∧ ∃ ch, changed (socket_id s) (default no_inputs i) e e' (socket_owned s) (socket_owned s') ch
          ∧ match ch with Entered _ _ => is_Some i | _ => True end.
Lemma local_moves i e s s' : local_step s s' → moves i e e s s'.
Proof. intros (?&Ho&?). split_and!; [done..|]. exists Quietly. rewrite Ho. split; [split; [done|by left]|done]. Qed.
Lemma ensure_quietly user e : quietly e (Engine.ensure_user user e).2.
Proof. right. exists (UpsertUser user). by split; [split|]. Qed.
(** The generated values of a step are unused. *)
Definition step_inputs (i : option Inputs) (e : ChatEngine) : Prop :=
  match i with Some i => fresh_inputs e i = true | None => True end.
Lemma on_subscription_ok e conn s s' : socket_ok s → on_subscription e conn s = Some s' → local_step s s'.
Proof.
  intros Hok Hs. unfold on_subscription in Hs. destruct (tasks (socket_locals s) !! conn) as [t|]; [|done].
  simpl in Hs. destruct (run_subscription _ _ _ _) as [[t' outbound]|]; simpl in Hs; [|done].
  injection Hs as <-. by apply tasks_ok.
Qed.
Lemma on_aborted_ok s conn :
  socket_ok s → local_step s (s <| socket_locals := (socket_locals s) <| tasks := delete conn (tasks (socket_locals s)) |> |>).
Proof.
  intros Hok. assert (Ht := tasks_ok s (delete conn (tasks (socket_locals s))) (socket_outbound s) (socket_queued s) Hok).
  by destruct s.
Qed.
Lemma ensuring_moves sent s e s' e' :
  socket_phase s = Ensuring → socket_ok s → socket_step false (OnEnsure sent) s e = Some (s', e') →
  moves None e e' s s'.
Proof.
  intros Hp Hok Hs. unfold socket_step in Hs. rewrite Hp in Hs. unfold socket_ok in Hok. rewrite Hp in Hok.
  destruct Hok as (Hsub&Hset&Hnone). assert (Hq := ensure_quietly (socket_user s) e).
  destruct (Engine.ensure_user _ e) as [r e1]. simpl in Hq.
  assert (∀ s2, socket_ok s2 → socket_user s2 = socket_user s → socket_owned s2 = socket_owned s →
    moves None e e1 s s2) as Hmv.
  { intros s2 ?? Ho. split_and!; [done..|]. exists Quietly. rewrite Ho. by split_and!. }
  destruct r as [x|error|]; apply some_pair in Hs as [<- <-]; apply Hmv; unfold socket_ok, socket_owned; rewrite ?Hp; try done.
  - destruct sent; (split; [done|]); left; [|done]. exact (write_plain true (Sent (ServerEnvelope_unsolicited (error_event error))) s eq_refl Hset).
  - by destruct sent.
  - by destruct sent.
Qed.
(** A call of the engine by a socket. *)
Lemma running_moves i s e t t' e' :
  socket_phase s = Running t → socket_ok s → engine_good e → fresh_inputs e i = true →
  call_engine (socket_id s) t i e = Some (t', e') → moves (Some i) e e' s (continue_task t' s).
Proof.
  intros Hp Hok Hg Hf Hc. unfold socket_ok in Hok. rewrite Hp in Hok. destruct Hok as (Hw&rid&Hpe&Hwp).
  destruct (call_wp _ _ _ _ _ _ _ _ _ _ Hwp (proj1 Hg) Hf Hc) as (S'&ch&Hwp'&Hch&_).
  destruct (continue_task_ok S' t' s rid Hpe Hwp') as (?&Ho&?). split_and!; [done..|].
  exists ch. rewrite Ho. unfold socket_owned. rewrite Hp. split; [done|by destruct ch].
Qed.
Lemma closing_moves i s e t t' e' :
  socket_phase s = Closing t → socket_ok s → engine_good e → fresh_inputs e i = true →
  call_engine (socket_id s) t i e = Some (t', e') → moves (Some i) e e' s (continue_closing t' s).
Proof.
  intros Hp Hok Hg Hf Hc. unfold socket_ok in Hok. rewrite Hp in Hok. destruct Hok as (Hw&Hpe&Hwp).
  destruct (call_wp _ _ _ _ _ _ _ _ _ _ Hwp (proj1 Hg) Hf Hc) as (S'&ch&Hwp'&Hch&_).
  destruct (continue_closing_ok S' t' s Hpe Hwp') as (?&Ho&?). split_and!; [done..|].
  exists ch. rewrite Ho. unfold socket_owned. rewrite Hp. split; [done|by destruct ch].
Qed.
(** The steps within the loop. *)
Lemma selecting_moves sd event s e s' e' :
  socket_phase s = Selecting → socket_ok s → socket_step sd event s e = Some (s', e') →
  local_step s s' ∧ e' = e.
Proof.
  intros Hp Hok Hs. assert (Hset : settled s) by (unfold socket_ok in Hok; by rewrite Hp in Hok).
  assert (Ho : socket_owned s = subscriptions (socket_locals s)) by (unfold socket_owned; by rewrite Hp).
  unfold socket_step in Hs. rewrite Hp in Hs. destruct event; try done.
  - apply some_pair in Hs as [<- <-]. split; [|done]. destruct valid; [by apply selecting_ok|by apply close_with_ok].
  - apply some_pair in Hs as [<- <-]. split; [|done]. by apply close_with_ok.
  - destruct sd; simplify_eq. split; [|done]. by apply close_with_ok.
  - destruct (next_circle_update _ _) as [position|]; cbn [mbind option_bind] in Hs; [|done]. apply some_pair in Hs as [<- <-].
    split; [|done]. by apply send_or_break.
  - destruct (socket_outbound s) as [|message rest]; [done|]. apply some_pair in Hs as [<- <-].
    split; [|done]. by apply send_or_break.
  - apply some_pair in Hs as [<- <-]. split; [|done]. by apply on_frame_ok.
  - destruct (on_subscription _ _ _) as [s1|] eqn:E; cbn [mbind option_bind] in Hs; [|done]. apply some_pair in Hs as [<- <-].
    split; [|done]. by eapply on_subscription_ok.
  - destruct (tasks (socket_locals s) !! conn) as [t|]; cbn [mbind option_bind] in Hs; [|done].
    destruct (task_aborted t); [|done]. apply some_pair in Hs as [<- <-]. split; [|done]. by apply on_aborted_ok.
Qed.
Lemma socket_step_moves sd event s e s' e' :
  socket_ok s → engine_good e → step_inputs (socket_inputs event) e →
  socket_step sd event s e = Some (s', e') →
  moves (socket_inputs event) e e' s s'.
Proof.
  intros Hok Hg Hin Hs.
  assert (∀ conn, event = OnSubscription conn ∨ event = OnAborted conn → socket_phase s ≠ Selecting → moves None e e' s s') as Htask.
  { intros conn Hev Hp. destruct Hev as [-> | ->]; unfold socket_step in Hs.
    - assert ((s' ← on_subscription e conn s; Some (s', e)) = Some (s', e')) as Hs' by by destruct (socket_phase s).
      destruct (on_subscription _ _ _) as [s1|] eqn:E; simpl in Hs'; [|done]. injection Hs' as <- <-.
      by eapply local_moves, on_subscription_ok.
    - destruct (tasks (socket_locals s) !! conn) as [t|] eqn:Et; [|by destruct (socket_phase s)].
      destruct (task_aborted t) eqn:Ea; [|by destruct (socket_phase s); simpl in Hs; rewrite Ea in Hs].
      destruct (socket_phase s); simpl in Hs; rewrite ?Ea in Hs; try done; apply some_pair in Hs as [<- <-];
        apply local_moves; by apply on_aborted_ok. }
  destruct (socket_phase s) as [| |t|r|t| |] eqn:Hp.
  - destruct event; try (by unfold socket_step in Hs; rewrite Hp in Hs); try (apply (Htask conn); [by auto|done]).
    apply (ensuring_moves sent s e s' e' Hp Hok). unfold socket_step in *. by rewrite Hp in *.
  - destruct (selecting_moves sd event s e s' e' Hp Hok Hs) as [Hl ->]. by apply local_moves.
  - destruct event; try (by unfold socket_step in Hs; rewrite Hp in Hs); try (apply (Htask conn); [by auto|done]).
    unfold socket_step in Hs. rewrite Hp in Hs. destruct (call_engine _ _ _ _) as [[t' e1]|] eqn:E; simpl in Hs; [|done].
    apply some_pair in Hs as [<- <-]. by eapply running_moves.
  - destruct event; try (by unfold socket_step in Hs; rewrite Hp in Hs); try (apply (Htask conn); [by auto|done]).
    unfold socket_step in Hs. rewrite Hp in Hs. apply some_pair in Hs as [<- <-]. apply local_moves.
    unfold socket_ok in Hok. rewrite Hp in Hok. destruct Hok as (rid&Hpe&Hr).
    destruct (_ && sent).
    + unfold local_step, socket_ok, socket_owned. rewrite Hp. simpl. split_and!; [|done..].
      unfold settled, pending in *. simpl. rewrite responses_snoc, Hpe. simpl. by rewrite Hr.
    + apply break_from; [eauto|unfold socket_owned; by rewrite Hp|done].
  - destruct event; try (by unfold socket_step in Hs; rewrite Hp in Hs); try (apply (Htask conn); [by auto|done]).
    unfold socket_step in Hs. rewrite Hp in Hs. destruct (call_engine _ _ _ _) as [[t' e1]|] eqn:E; simpl in Hs; [|done].
    apply some_pair in Hs as [<- <-]. by eapply closing_moves.
  - destruct event; try (by unfold socket_step in Hs; rewrite Hp in Hs); (apply (Htask conn); [by auto|done]).
  - destruct event; try (by unfold socket_step in Hs; rewrite Hp in Hs); (apply (Htask conn); [by auto|done]).
Qed.
End invariant.

Section hold.
Context `{Unicode, UuidLib, CryptoLib, EngineLib, F64Lib, EnvelopeCodec}.

(** ** Effects *)

Definition Held : Type := ChannelId * UserId * ConnectionId.
Inductive Effect : Type := Same | Added (x : Held) | Removed (x : Held).
Definition after_effect (eff : Effect) (P : Held → Prop) (y : Held) : Prop :=
  match eff with Same => P y | Added x => P y ∨ y = x | Removed x => P y ∧ y ≠ x end.

(** What a connection holds, of its table. *)
Definition held (u : UserId) (S : gmap ChannelId ConnectionId) (x : Held) : Prop :=
  let '(c, v, conn) := x in v = u ∧ S !! c = Some conn.
Lemma changed_effect u i e e' S S' ch :
  engine_good e → changed u i e e' S S' ch →
  engine_good e' ∧ ∃ eff, (∀ y, present e' y ↔ after_effect eff (present e) y)
    ∧ (∀ y, held u S' y ↔ after_effect eff (held u S) y)
    ∧ (∀ x, eff = Added x → ∃ c sub, ch = Entered c sub ∧ x = (c, u, in_connection i))
    ∧ (∀ x, eff = Removed x → held u S x).
Proof.
  intros Hg Hch. destruct ch as [|c sub|c error|c conn]; simpl in Hch.
  - destruct Hch as [-> He]. assert (engine_good e' ∧ same_presence e e') as [Hg' Hs].
    { destruct He as [->|(op&Hop&->)]; [done|]. apply other_good; [done|by apply other_perform]. }
    split; [done|]. by exists Same.
  - destruct Hch as (Hn&->&Hrun). destruct (engine_subscribe _ _ _ _ _ _ Hg Hrun) as [Hg' [Hc Hp]].
    split; [done|]. exists (Added (c, u, in_connection i)). split_and!; [done| | |done].
    + intros [[c' v] conn']. simpl. rewrite Hc. destruct (decide (c' = c)) as [->|Hne].
      * rewrite lookup_insert_eq, Hn. naive_solver.
      * rewrite lookup_insert_ne by done. naive_solver.
    + intros x [= <-]. eauto.
  - destruct Hch as [-> Hrun]. destruct (engine_subscribe _ _ _ _ _ _ Hg Hrun) as [Hg' Hp].
    split; [done|]. by exists Same.
  - destruct Hch as (->&Hn&->). destruct (engine_leave e conn c u Hg) as [Hg' Hp].
    split; [done|]. exists (Removed (c, u, conn)). split_and!; [done| |done|].
    + intros [[c' v] conn']. simpl. destruct (decide (c' = c)) as [->|Hne].
      * rewrite lookup_insert_eq, Hn. naive_solver.
      * rewrite lookup_insert_ne by done. naive_solver.
    + intros x [= <-]. simpl. by rewrite lookup_insert_eq.
Qed.

(** ** The invariant of presence *)

Record presence_inv (w : Server) : Prop := {
  pinv_present x : present (server_engine w) x ↔ ∃ o, holds w o x;
  pinv_unique o o' x x' : holds w o x → holds w o' x' → x.2 = x'.2 → o = o' ∧ x = x';
  pinv_used o x : holds w o x → x.2 ∈ server_connections w }.
Lemma presence_effect w w' o eff :
  presence_inv w → (∀ y, present (server_engine w') y ↔ after_effect eff (present (server_engine w)) y) →
  (∀ y, holds w' o y ↔ after_effect eff (holds w o) y) →
  (∀ o' y, o' ≠ o → (holds w' o' y ↔ holds w o' y)) →
  server_connections w ⊆ server_connections w' →
  (∀ x, eff = Added x → (x.2 ∉ server_connections w) ∧ x.2 ∈ server_connections w') →
  (∀ x, eff = Removed x → holds w o x) →
  presence_inv w'.
Proof.
  intros [Hp Hu Hc] He Ho Hother Hsub Hadd Hrem.
  assert (∀ o' y, holds w' o' y → holds w o' y ∨ eff = Added y ∧ o' = o) as Hold.
  { intros o' y. destruct (decide (o' = o)) as [->|Hne]; [rewrite Ho|rewrite Hother by done; auto].
    destruct eff; simpl; naive_solver. }
  split.
  - intros x. rewrite He. destruct eff as [|y|y]; simpl; rewrite Hp.
    + split; intros [o' Hx]; exists o'; destruct (decide (o' = o)) as [->|Hne];
        by (apply Ho || (apply Hother; [done|]) || (rewrite Ho in Hx; simpl in Hx) || (rewrite Hother in Hx by done)).
    + split.
      * intros [[o' Hx]| ->]; [|exists o; apply Ho; simpl; auto]. exists o'.
        destruct (decide (o' = o)) as [->|Hne]; [apply Ho; simpl; auto|by apply Hother].
      * intros [o' Hx]. destruct (Hold _ _ Hx) as [?|[[= <-] _]]; [left; by exists o'|by right].
    + split.
      * intros [[o' Hx] Hne]. exists o'. destruct (decide (o' = o)) as [->|]; [by apply Ho|by apply Hother].
      * intros [o' Hx]. destruct (decide (o' = o)) as [->|Hne].
        -- apply Ho in Hx as [Hx Hn]. split; [by exists o|done].
        -- apply Hother in Hx; [|done]. split; [by exists o'|]. intros ->.
           destruct (Hu _ _ _ _ Hx (Hrem _ eq_refl) eq_refl) as [? _]. done.
  - intros o1 o2 x x' [Hx|[Hx ->]]%Hold [Hx'|[Hx' ->]]%Hold Heq.
    + by eapply Hu.
    + destruct (Hadd _ Hx') as [Hn _]. destruct Hn. rewrite <-Heq. by eapply Hc.
    + destruct (Hadd _ Hx) as [Hn _]. destruct Hn. rewrite Heq. by eapply Hc.
    + rewrite Hx in Hx'. by injection Hx' as ->.
  - intros o1 x [Hx|[Hx ->]]%Hold; [by eapply Hsub, Hc|]. by destruct (Hadd _ Hx).
Qed.

(** ** HTTP commands and streams *)

(** An HTTP command holds nothing. *)
Definition http_ok (h : HttpCommand) : Prop :=
  let rid := ClientEnvelope_request_id (http_envelope h) in
  subscriptions (http_locals h) = ∅ ∧
  match http_phase h with
  | HttpRunning t => waiting t = true
      ∧ wp false ∅ t (http_locals h) (λ r _, ServerEnvelope_request_id r = Some rid)
  | HttpAnswered r => ServerEnvelope_request_id r = Some rid
  | HttpEnsuring _ | HttpFailed => True
  end.
Lemma wp_empty_owned {A} (t : Task A) l Q : waiting t = true → wp false ∅ t l Q → subscriptions l = ∅.
Proof.
  destruct t; try done; simpl; [by intros _ (?&_)|by intros _ (_&?&_)|].
  intros _ (He&_&_). by apply eq_sym, insert_non_empty in He.
Qed.
Lemma http_running_ok t h :
  wp false ∅ t (http_locals h)
    (λ r _, ServerEnvelope_request_id r = Some (ClientEnvelope_request_id (http_envelope h))) →
  http_ok (http_running t h).
Proof.
  intros Hwp. unfold http_running. destruct (settle t (http_locals h)) as [t' l'] eqn:E.
  apply (wp_settle _ _ _ _ _ _ _ Hwp) in E as Hwp'. unfold http_ok.
  destruct (settle_settled _ _ _ _ E) as [Hw|[[r ->]| ->]]; [|by destruct Hwp'|done].
  assert (Hl := wp_empty_owned _ _ _ Hw Hwp'). by destruct t'.
Qed.
Lemma http_execute_ok belong h : subscriptions (http_locals h) = ∅ → http_ok (http_execute belong h).
Proof.
  intros Hl. unfold http_execute. destruct (http_reject belong (http_envelope h)) as [r|] eqn:E.
  - split; [done|]. simpl. unfold http_reject in E. destruct (check_protocol _); [|by simplify_eq].
    destruct (negb _); [by simplify_eq|]. destruct (transport_command _); by simplify_eq.
  - apply http_running_ok. rewrite <-Hl. apply execute_command_wp. right.
    unfold http_reject in E. destruct (check_protocol _); [|done]. destruct (negb _); [done|].
    by destruct (transport_command _).
Qed.
Lemma http_step_ok i h e h' e' :
  http_ok h → engine_good e → fresh_inputs e i = true → http_step i h e = Some (h', e') →
  http_ok h' ∧ quietly e e'.
Proof.
  intros [Hl Hok] Hg Hf Hs. unfold http_step in Hs. destruct (http_phase h) as [belong|t|r|]; try done.
  - assert (Hq := ensure_quietly (http_user h) e). destruct (Engine.ensure_user _ e) as [r e1]. simpl in Hq.
    destruct r; apply some_pair in Hs as [<- <-]; (split; [|done]); [by apply http_execute_ok|done..].
  - destruct Hok as [Hw Hwp]. destruct (call_engine _ t i e) as [[t' e1]|] eqn:E; cbn [mbind option_bind] in Hs; [|done].
    apply some_pair in Hs as [<- <-]. destruct (call_wp _ _ _ _ _ _ _ _ _ _ Hwp (proj1 Hg) Hf E) as (S'&ch&Hwp'&Hch&Hent).
    destruct ch as [|c sub|c error|c conn]; simpl in Hch.
    + destruct Hch as [-> Hq]. split; [by apply http_running_ok|done].
    + done.
    + done.
    + destruct Hch as (He&_&_). by apply eq_sym, insert_non_empty in He.
Qed.

(** A stream holds its channel from the subscription until its guard has left. *)
Definition stream_ok (s : EventStream) : Prop :=
  (is_Some (stream_guard s) → is_Some (stream_scope s)) ∧
  match stream_phase s with
  | StreamBootstrap | StreamSubscribing | StreamDone => stream_guard s = None
  | _ => True
  end.
Definition stream_held (s : EventStream) (x : Held) : Prop :=
  let '(c, u, conn) := x in u = stream_id s ∧ stream_owned s = Some (c, conn).
Lemma stream_end_ok s : stream_ok s → stream_ok (stream_end s).
Proof. intros [Hs _]. unfold stream_ok, stream_end. simpl. by destruct (stream_guard s). Qed.
(** A step of a stream keeps it in order; what it holds changes as its call says. *)
Definition stream_moves (i : Inputs) (event : StreamEvent) (e e' : ChatEngine) (s s' : EventStream) : Prop :=
  stream_ok s' ∧ stream_user s' = stream_user s ∧ engine_good e' ∧
  ((stream_owned s' = stream_owned s ∧ same_presence e e')
   ∨ (∃ c, is_Some (stream_inputs event) ∧ stream_owned s = None ∧ stream_owned s' = Some (c, in_connection i)
       ∧ ∀ y, present e' y ↔ present e y ∨ y = (c, stream_id s, in_connection i))
   ∨ (∃ c conn, stream_owned s = Some (c, conn) ∧ stream_owned s' = None
       ∧ ∀ y, present e' y ↔ present e y ∧ y ≠ (c, stream_id s, conn))).
Lemma stream_same i event e e' s s' :
  stream_ok s' → stream_scope s' = stream_scope s → stream_guard s' = stream_guard s →
  stream_user s' = stream_user s → engine_good e' → same_presence e e' → stream_moves i event e e' s s'.
Proof. intros Hok Hsc Hg Hu He Hp. split_and!; [done..|]. left. split; [|done]. unfold stream_owned. by rewrite Hsc, Hg. Qed.
Lemma quietly_good e e' : engine_good e → quietly e e' → engine_good e' ∧ same_presence e e'.
Proof. intros Hg [->|(op&Hop&->)]; [done|]. apply other_good; [done|by apply other_perform]. Qed.
Lemma renew_presence_same u subs e : (EngineServices.renew_presence u subs e).2 = e.
Proof. unfold EngineServices.renew_presence, repo, call. simpl. by destruct e as [[]]. Qed.
Lemma stream_subscribed_fields e c rid sub s :
  let s' := stream_subscribed e c rid sub s in
  stream_phase s' = StreamSelecting ∧ stream_scope s' = stream_scope s
  ∧ stream_guard s' = Some (ChannelSubscription_connection_id sub) ∧ stream_user s' = stream_user s.
Proof. unfold stream_subscribed. simpl. destruct (missing_before_history _ _) as [[??]|]; done. Qed.

(** The step in which a handler is dropped while it waits is treated apart. *)
Definition gone_subscribing (event : StreamEvent) : bool :=
  match event with StreamOnGoneSubscribing _ => true | _ => false end.
Lemma subscribing_moves i s e s' e' :
  stream_phase s = StreamSubscribing → stream_ok s → engine_good e →
  stream_step false (StreamOnCall i) s e = Some (s', e') → stream_moves i (StreamOnCall i) e e' s s'.
Proof.
  intros Hph [Hsc Hok] Hg Hs. unfold stream_step in Hs. rewrite Hph in Hok, Hs.
  destruct (stream_scope s) as [[c rid]|] eqn:Esc.
  - destruct (Engine.subscribe (in_connection i) c (stream_id s) e) as [r e1] eqn:Erun.
    apply some_pair in Hs as [<- <-]. destruct (engine_subscribe _ _ _ _ _ _ Hg Erun) as [Hg' Hr].
    assert (same_presence e e1 → stream_moves i (StreamOnCall i) e e1 s (s <| stream_phase := StreamDone |>)) as Hsame.
    { intros Hp. apply stream_same; [|done..]. split; [|done]. simpl. by rewrite Esc. }
    destruct r as [sub|error|]; [|by apply Hsame..]. destruct Hr as [Hc Hp].
    destruct (stream_subscribed_fields e1 c rid sub s) as (Hph'&Hsc'&Hgu&Hu).
    split_and!; [|done..|].
    + split; [rewrite Hsc', Esc; by eauto|by rewrite Hph'].
    + right; left. exists c. unfold stream_owned. rewrite Hsc', Hgu, Hok, Esc, Hc. by split_and!; [eexists|..].
  - apply some_pair in Hs as [<- <-]. apply stream_same; try done. split; simpl; [by rewrite Esc|done].
Qed.
Lemma stream_step_moves sd event s e s' e' :
  stream_ok s → engine_good e → gone_subscribing event = false →
  stream_step sd event s e = Some (s', e') →
  stream_moves (default no_inputs (stream_inputs event)) event e e' s s'.
Proof.
  intros Hok Hg Hgone Hs. assert (Hend := stream_end_ok s Hok).
  assert (∀ s2, stream_ok s2 → stream_scope s2 = stream_scope s → stream_guard s2 = stream_guard s →
    stream_user s2 = stream_user s → stream_moves (default no_inputs (stream_inputs event)) event e e s s2) as Hsame
    by (intros; by apply stream_same).
  assert (∀ s2, match stream_phase s2 with StreamBootstrap | StreamSubscribing | StreamDone => False | _ => True end →
    stream_scope s2 = stream_scope s → stream_guard s2 = stream_guard s → stream_user s2 = stream_user s →
    stream_moves (default no_inputs (stream_inputs event)) event e e s s2) as Hkeep.
  { intros s2 Hph Hsc Hgu Hu. apply Hsame; try done. destruct Hok as [Hok _]. split; [by rewrite Hgu, Hsc|].
    by destruct (stream_phase s2). }
  destruct (stream_phase s) eqn:Hph; destruct event; try done;
    try (by unfold stream_step in Hs; rewrite Hph in Hs);
    try (unfold stream_step in Hs; rewrite Hph in Hs; apply some_pair in Hs as [<- <-];
         by first [apply Hsame|apply Hkeep]).
  - unfold stream_step in Hs. rewrite Hph in Hs. assert (Hq := ensure_quietly (stream_user s) e).
    destruct (Engine.ensure_user _ e) as [r e1]. apply some_pair in Hs as [<- <-].
    destruct (quietly_good _ _ Hg Hq). apply stream_same; try done. destruct Hok as [Hok Hn]. rewrite Hph in Hn.
    split; [done|]. simpl. by destruct r.
  - by apply subscribing_moves.
  - unfold stream_step in Hs. rewrite Hph in Hs. destruct (stream_scope s) as [[c rid]|] in Hs; [|done].
    cbn [mbind option_bind] in Hs. destruct (broadcast_recv _ _ _) as [[|event|skipped] position]; [done| |];
      apply some_pair in Hs as [<- <-]; by apply Hkeep.
  - unfold stream_step in Hs. rewrite Hph in Hs. destruct (next_circle_update _ _) as [position|]; [|done].
    cbn [mbind option_bind] in Hs. apply some_pair in Hs as [<- <-]. apply Hkeep; [by simpl; rewrite Hph|done..].
  - unfold stream_step in Hs. rewrite Hph in Hs. apply some_pair in Hs as [<- <-].
    destruct valid; by apply Hsame.
  - unfold stream_step in Hs. rewrite Hph in Hs. destruct (stream_scope s) as [[c rid]|] in Hs; [|done].
    cbn [mbind option_bind] in Hs. apply some_pair in Hs as [<- <-].
    destruct (channel_visible _ _ _ _); [by apply Hkeep|by apply Hsame].
  - unfold stream_step in Hs. rewrite Hph in Hs. destruct sd; [|done]. apply some_pair in Hs as [<- <-].
    by apply Hsame.
  - unfold stream_step in Hs. rewrite Hph in Hs. destruct (stream_scope s) as [[c rid]|] in Hs; [|done].
    cbn [mbind option_bind] in Hs. apply some_pair in Hs as [<- <-].
    destruct (channel_visible _ _ _ _); [by apply Hkeep|by apply Hsame].
  - unfold stream_step in Hs. rewrite Hph in Hs. destruct (stream_scope s) as [[c rid]|] in Hs; [|done].
    cbn [mbind option_bind] in Hs. apply some_pair in Hs as [<- <-].
    destruct (Engine.latest_sequence c e).1; [by apply Hkeep| |by apply Hsame].
    by apply Hsame.
  - unfold stream_step in Hs. rewrite Hph in Hs. destruct (stream_scope s) as [[c rid]|] in Hs; [|done].
    cbn [mbind option_bind] in Hs. destruct (stream_guard s) as [conn|] in Hs; [|done]. cbn [mbind option_bind] in Hs.
    assert (Hr := renew_presence_same (stream_id s) [(c, conn)] e).
    destruct (EngineServices.renew_presence _ _ e) as [r e1]. simpl in Hr. subst.
    apply some_pair in Hs as [<- <-]. destruct r; [by apply Hkeep|by apply Hsame..].
  - unfold stream_step in Hs. rewrite Hph in Hs. destruct (stream_scope s) as [[c rid]|] eqn:Esc; [|done].
    cbn [mbind option_bind] in Hs. destruct (stream_guard s) as [conn|] eqn:Egu; [|done]. cbn [mbind option_bind] in Hs.
    apply some_pair in Hs as [<- <-]. destruct (engine_leave e conn c (stream_id s) Hg) as [Hg' Hp].
    split_and!; try done. right; right. exists c, conn. unfold stream_owned. simpl. by rewrite Esc, Egu.
Qed.

(** ** The invariant of the server *)

Record server_inv (w : Server) : Prop := {
  sinv_engine : engine_good (server_engine w);
  sinv_presence : presence_inv w;
  sinv_sockets id s : server_sockets w !! id = Some s → socket_ok s;
  sinv_commands id h : server_commands w !! id = Some h → http_ok h;
  sinv_streams id s : server_streams w !! id = Some s → stream_ok s }.

Lemma holds_socket w id s y :
  server_sockets w !! id = Some s → holds w (BySocket id) y ↔ held (socket_id s) (socket_owned s) y.
Proof. intros Hs. destruct y as [[c u] conn]. simpl. rewrite Hs. naive_solver. Qed.
Lemma holds_stream w id s y :
  server_streams w !! id = Some s → holds w (ByStream id) y ↔ stream_held s y.
Proof. intros Hs. destruct y as [[c u] conn]. simpl. rewrite Hs. naive_solver. Qed.
Lemma holds_other w w' o y :
  (∀ id, o = BySocket id → server_sockets w' !! id = server_sockets w !! id) →
  (∀ id, o = ByStream id → server_streams w' !! id = server_streams w !! id) →
  (o = Nobody → server_abandoned w' = server_abandoned w) → holds w' o y ↔ holds w o y.
Proof.
  intros Hs Ht Ha. destruct y as [[c u] conn], o as [id|id|]; simpl; [by rewrite Hs|by rewrite Ht|by rewrite Ha].
Qed.
(** Only the engine moves, and presence stays. *)
Lemma presence_same w w' :
  presence_inv w → same_presence (server_engine w) (server_engine w') →
  server_connections w ⊆ server_connections w' → (∀ o y, holds w' o y ↔ holds w o y) → presence_inv w'.
Proof.
  intros Hi He Hc Ho. apply (presence_effect w w' Nobody Same); try done; intros; by apply Ho.
Qed.
Lemma inputs_used_fields i w :
  server_engine (inputs_used i w) = server_engine w ∧ server_sockets (inputs_used i w) = server_sockets w
  ∧ server_commands (inputs_used i w) = server_commands w ∧ server_streams (inputs_used i w) = server_streams w
  ∧ server_abandoned (inputs_used i w) = server_abandoned w
  ∧ server_connections w ⊆ server_connections (inputs_used i w)
  ∧ (∀ x, i = Some x → in_connection x ∈ server_connections (inputs_used i w)).
Proof. destruct i; simpl; split_and!; try done; [set_solver|]. intros x [= <-]. set_solver. Qed.
Lemma inputs_ok_fresh w i :
  inputs_ok w i = true → step_inputs i (server_engine w)
  ∧ (∀ x, i = Some x → in_connection x ∉ server_connections w).
Proof.
  destruct i as [i|]; simpl; [|done]. intros [Hf Hc%bool_decide_eq_true]%andb_true_iff.
  split; [done|]. by intros x [= <-].
Qed.

(** A socket that does not exist, or that holds nothing, is replaced by one that holds nothing. *)
Lemma connect_inv w id user native sent :
  server_inv w → server_sockets w !! id = None →
  server_inv (w <| server_sockets :=
    <[id := handle_socket_start (server_shutdown w) sent user native]> (server_sockets w) |>).
Proof.
  intros [He Hp Hs Hc Ht] Hid. set (s := handle_socket_start _ _ _ _).
  assert (socket_ok s ∧ socket_owned s = ∅) as [Hok Ho].
  { unfold s, handle_socket_start. destruct (server_shutdown w); [|done]. destruct sent; (split; [|done]); (split; [done|by left]). }
  split; [done| | |done|done].
  - eapply presence_same; [done|done|done|]. intros o y. destruct o as [id'|id'|].
    + destruct (decide (id' = id)) as [->|Hne].
      * rewrite (holds_socket _ id s) by (simpl; apply lookup_insert_eq). destruct y as [[c u] conn]. simpl.
        rewrite Ho, lookup_empty, Hid. naive_solver.
      * apply holds_other; try done. intros ? [= <-]. simpl. by rewrite lookup_insert_ne.
    + by apply holds_other.
    + by apply holds_other.
  - intros id' s'. simpl. intros [[_ <-]|[_ Hs']]%lookup_insert_Some; [done|by eapply Hs].
Qed.
Lemma socket_inv w id s event s' e' :
  server_inv w → server_sockets w !! id = Some s → inputs_ok w (socket_inputs event) = true →
  socket_step (server_shutdown w) event s (server_engine w) = Some (s', e') →
  server_inv (inputs_used (socket_inputs event)
    (w <| server_engine := e' |> <| server_sockets := <[id := s']> (server_sockets w) |>)).
Proof.
  intros [He Hp Hs Hc Ht] Hid Hin Hstep. destruct (inputs_ok_fresh _ _ Hin) as [Hf Hnew].
  set (w1 := w <| server_engine := e' |> <| server_sockets := _ |>).
  destruct (inputs_used_fields (socket_inputs event) w1) as (Ee&Es&Ec&Et&Ea&Econn&Eused).
  destruct (socket_step_moves _ _ _ _ _ _ (Hs _ _ Hid) He Hf Hstep) as (Hok&Hu&ch&Hch&Hent).
  destruct (changed_effect _ _ _ _ _ _ _ He Hch) as (Hg&eff&Hpe&Ho&Hadd&Hrem).
  assert (socket_id s' = socket_id s) as Hsid by (unfold socket_id; by rewrite Hu).
  assert (server_sockets w1 !! id = Some s') as Hid' by apply lookup_insert_eq.
  split; rewrite ?Ee, ?Es, ?Ec, ?Et; try done.
  - apply (presence_effect w _ (BySocket id) eff); try done.
    + by rewrite Ee.
    + intros y. rewrite (holds_socket _ id s') by by rewrite Es. rewrite Hsid, Ho.
      destruct eff; simpl; by rewrite (holds_socket w id s).
    + intros o y Hne. apply holds_other.
      * intros id' ->. rewrite Es. simpl. rewrite lookup_insert_ne; [done|congruence].
      * intros id' ->. by rewrite Et.
      * by rewrite Ea.
    + intros x ->. destruct (Hadd _ eq_refl) as (c&sub&->&Hx). subst x. destruct Hent as [i Ei].
      assert (default no_inputs (socket_inputs event) = i) as -> by by rewrite Ei.
      split; [by apply Hnew|by apply Eused].
    + intros x ->. apply (holds_socket w id s); [done|]. by apply Hrem.
  - intros id' s2. simpl. intros [[_ <-]|[_ Hs']]%lookup_insert_Some; [done|by eapply Hs].
Qed.

Lemma commands_inv w id h e' conns :
  server_inv w → http_ok h → quietly (server_engine w) e' → server_connections w ⊆ conns →
  server_inv (w <| server_engine := e' |> <| server_commands := <[id := h]> (server_commands w) |>
                <| server_connections := conns |>).
Proof.
  intros [He Hp Hs Hc Ht] Hh Hq Hconn. destruct (quietly_good _ _ He Hq) as [Hg Hsame]. split; [done| |done| |done].
  - apply (presence_same w); [done|done|done|]. intros o y. by apply holds_other.
  - intros id' h'. simpl. intros [[_ <-]|[_ Hh']]%lookup_insert_Some; [done|by eapply Hc].
Qed.
Lemma engine_inv w e' :
  server_inv w → engine_good e' → same_presence (server_engine w) e' → server_inv (w <| server_engine := e' |>).
Proof.
  intros [He Hp Hs Hc Ht] Hg Hsame. split; try done. by apply (presence_same w).
Qed.
Lemma open_inv w id s :
  server_inv w → server_streams w !! id = None → stream_ok s → stream_owned s = None →
  server_inv (w <| server_streams := <[id := s]> (server_streams w) |>).
Proof.
  intros [He Hp Hs Hc Ht] Hid Hok Ho. split; [done| |done|done|].
  - eapply presence_same; [done|done|done|]. intros o y. destruct o as [id'|id'|].
    + by apply holds_other.
    + destruct (decide (id' = id)) as [->|Hne].
      * rewrite (holds_stream _ id s) by (simpl; apply lookup_insert_eq). destruct y as [[c u] conn]. simpl.
        rewrite Ho, Hid. naive_solver.
      * apply holds_other; try done. intros ? [= <-]. simpl. by rewrite lookup_insert_ne.
    + by apply holds_other.
  - intros id' s'. simpl. intros [[_ <-]|[_ Hs']]%lookup_insert_Some; [done|by eapply Ht].
Qed.
Lemma events_handler_ok user bootstrap c rid after s :
  events_handler user bootstrap c rid after = Some s → stream_ok s ∧ stream_owned s = None.
Proof.
  unfold events_handler. intros Hs. assert (stream_guard s = None ∧ (stream_phase s = StreamBootstrap ∨ stream_phase s = StreamSubscribing)) as [Hg Hph].
  { destruct c, rid; try done; [destruct (request_id_ok _)|]; simplify_eq; destruct bootstrap; auto. }
  unfold stream_ok, stream_owned. rewrite Hg. split; [split; [by intros []|by destruct Hph as [-> | ->]]|].
  by destruct (stream_scope s) as [[]|].
Qed.
(** The effect of a stream's step. *)
Lemma stream_moves_effect i event e e' s s' :
  stream_moves i event e e' s s' →
  ∃ eff, (∀ y, present e' y ↔ after_effect eff (present e) y)
    ∧ (∀ y, stream_held s' y ↔ after_effect eff (stream_held s) y)
    ∧ (∀ x, eff = Added x → is_Some (stream_inputs event) ∧ x.2 = in_connection i) ∧ (∀ x, eff = Removed x → stream_held s x).
Proof.
  intros (Hok&Hu&Hg&Hch). assert (stream_id s' = stream_id s) as Hsid by (unfold stream_id; by rewrite Hu).
  destruct Hch as [[Ho Hp]|[(c&Hin&Ho&Ho'&Hp)|(c&conn&Ho&Ho'&Hp)]].
  - exists Same. split_and!; try done. intros [[c u] conn]. simpl. by rewrite Hsid, Ho.
  - exists (Added (c, stream_id s, in_connection i)). split_and!; [done| | |done].
    + intros [[c' u] conn]. simpl. rewrite Hsid, Ho, Ho'. naive_solver.
    + by intros x [= <-].
  - exists (Removed (c, stream_id s, conn)). split_and!; [done| |done|].
    + intros [[c' u] conn']. simpl. rewrite Hsid, Ho, Ho'. naive_solver.
    + intros x [= <-]. done.
Qed.
(** A handler dropped while it waits: what the actor does is nobody's. *)
Lemma gone_step sd i s e s' e' :
  stream_ok s → engine_good e → stream_step sd (StreamOnGoneSubscribing i) s e = Some (s', e') →
  ∃ c rid, stream_scope s = Some (c, rid) ∧ e' = (Engine.subscribe (in_connection i) c (stream_id s) e).2
    ∧ stream_ok s' ∧ stream_owned s' = stream_owned s ∧ stream_user s' = stream_user s.
Proof.
  intros [Hok Hph] Hg Hs. unfold stream_step in Hs. destruct (stream_phase s) eqn:Ep; try done.
  destruct (stream_scope s) as [[c rid]|] eqn:Esc; [|done]. cbn [mbind option_bind] in Hs.
  apply some_pair in Hs as [<- <-]. exists c, rid. by split_and!.
Qed.
Lemma stream_inv w id s event s' e' :
  server_inv w → server_streams w !! id = Some s → inputs_ok w (stream_inputs event) = true →
  stream_step (server_shutdown w) event s (server_engine w) = Some (s', e') →
  server_inv (inputs_used (stream_inputs event) ((abandons event s w)
    <| server_engine := e' |> <| server_streams := <[id := s']> (server_streams w) |>)).
Proof.
  intros [He Hp Hs Hc Ht] Hid Hin Hstep. destruct (inputs_ok_fresh _ _ Hin) as [Hf Hnew].
  set (w1 := (abandons event s w) <| server_engine := e' |> <| server_streams := _ |>).
  destruct (inputs_used_fields (stream_inputs event) w1) as (Ee&Es&Ec&Et&Ea&Econn&Eused).
  assert (server_engine w1 = e' ∧ server_sockets w1 = server_sockets w ∧ server_commands w1 = server_commands w
    ∧ server_streams w1 = <[id := s']> (server_streams w) ∧ server_connections w1 = server_connections w) as (Fe&Fs&Fc&Ft&Fn).
  { unfold w1, abandons. destruct event; try done. destruct (stream_scope s) as [[c rid]|]; [|done].
    by destruct (Engine.subscribe (in_connection i) c (stream_id s) (server_engine w)).1. }
  assert (Hstreams : ∀ s2, stream_ok s2 → ∀ id' s3, <[id := s2]> (server_streams w) !! id' = Some s3 → stream_ok s3).
  { intros s2 Hok id' s3 [[_ <-]|[_ Hs']]%lookup_insert_Some; [done|by eapply Ht]. }
  destruct (gone_subscribing event) eqn:Egone.
  - destruct event as [| | | | | | | |i]; try done.
    destruct (gone_step _ _ _ _ _ _ (Ht _ _ Hid) He Hstep) as (c&rid&Esc&Hrun&Hok&Ho&Hu).
    destruct (Engine.subscribe (in_connection i) c (stream_id s) (server_engine w)) as [r e1] eqn:Er.
    simpl in Hrun. subst e1. destruct (engine_subscribe _ _ _ _ _ _ He Er) as [Hg Hr].
    assert (Hfa : server_abandoned w1 = match r with Ok _ => {[(c, stream_id s, in_connection i)]} ∪ server_abandoned w
                                        | _ => server_abandoned w end).
    { unfold w1, abandons. rewrite Esc, Er. by destruct r. }
    split; rewrite ?Ee, ?Es, ?Ec, ?Et, ?Fe, ?Fs, ?Fc, ?Ft; try done; [|by apply Hstreams].
    apply (presence_effect w _ Nobody (if is_ok r then Added (c, stream_id s, in_connection i) else Same)); try done.
    + intros y. rewrite Ee, Fe. destruct r; simpl; [apply Hr|apply Hr|apply Hr].
    + intros [[c' u'] conn']. cbn [holds]. rewrite Ea, Hfa. destruct r; simpl; set_solver.
    + intros o y Hne. destruct o as [id'|id'|]; [|destruct (decide (id' = id)) as [->|Hid']|done].
      * apply holds_other; try done. intros ? [= <-]. by rewrite Es, Fs.
      * rewrite (holds_stream _ id s') by (rewrite Et, Ft; apply lookup_insert_eq).
        rewrite (holds_stream w id s) by done. destruct y as [[c' u'] conn']. simpl. unfold stream_id. by rewrite Ho, Hu.
      * apply holds_other; try done. intros ? [= <-]. rewrite Et, Ft, lookup_insert_ne by congruence. done.
    + by rewrite <-Fn.
    + intros x. destruct r; simpl; [|done..]. intros [= <-]. split; [by apply Hnew|by apply Eused].
    + by destruct r.
  - assert (server_abandoned w1 = server_abandoned w) as Fa by by destruct event.
    assert (Hmv := stream_step_moves _ _ _ _ _ _ (Ht _ _ Hid) He Egone Hstep).
    destruct (stream_moves_effect _ _ _ _ _ _ Hmv) as (eff&Hpe&Ho&Hadd&Hrem). destruct Hmv as (Hok&Hu&Hg&_).
    split; rewrite ?Ee, ?Es, ?Ec, ?Et, ?Fe, ?Fs, ?Fc, ?Ft; try done; [|by apply Hstreams].
    apply (presence_effect w _ (ByStream id) eff); try done.
    + by rewrite Ee, Fe.
    + intros y. rewrite (holds_stream _ id s') by (rewrite Et, Ft; apply lookup_insert_eq). rewrite Ho.
      destruct eff; simpl; by rewrite (holds_stream w id s).
    + intros o y Hne. apply holds_other.
      * intros id' ->. by rewrite Es, Fs.
      * intros id' ->. rewrite Et, Ft, lookup_insert_ne; [done|congruence].
      * by rewrite Ea, Fa.
    + by rewrite <-Fn.
    + intros x ->. destruct (Hadd _ eq_refl) as [[i Ei] ->].
      assert (default no_inputs (stream_inputs event) = i) as -> by by rewrite Ei.
      split; [by apply Hnew|by apply Eused].
    + intros x ->. apply (holds_stream w id s); [done|]. by apply Hrem.
Qed.

Lemma server_start_inv : server_inv server_start.
Proof.
  split; simpl.
  - split; [apply engine_start_ok|done].
  - split.
    + intros [[c u] conn]. simpl. unfold chan_participants. simpl. rewrite lookup_empty. simpl. split; [set_solver|].
      intros [[id|id|] Ho]; simpl in Ho; [destruct Ho as (s&Hs&_)..|set_solver]; by rewrite lookup_empty in Hs.
    + intros o o' [[c u] conn] x' Ho. destruct o as [id|id|]; simpl in Ho;
        [destruct Ho as (s&Hs&_); by rewrite lookup_empty in Hs..|set_solver].
    + intros o [[c u] conn] Ho. destruct o as [id|id|]; simpl in Ho;
        [destruct Ho as (s&Hs&_); by rewrite lookup_empty in Hs..|set_solver].
  - intros id s. by rewrite lookup_empty.
  - intros id s. by rewrite lookup_empty.
  - intros id s. by rewrite lookup_empty.
Qed.
Lemma server_step_inv w w' : server_inv w → server_step w w' → server_inv w'.
Proof.
  intros Hi Hstep. destruct Hstep as [id user native sent Hid|id s event s' e' Hid Hin Hs|id user envelope native Hid
    |id i h h' e' Hid Hin Hs|id user boot c rid after s Hid Hs|id s event s' e' Hid Hin Hs|e' Ho|].
  - by apply connect_inv.
  - by eapply socket_inv.
  - assert (Hok : http_ok ((if native then native_command else command_handler) user envelope)).
    { destruct native; [done|]. by apply http_execute_ok. }
    assert (Hc := commands_inv w id _ (server_engine w) (server_connections w) Hi Hok (or_introl eq_refl) (reflexivity _)).
    by destruct w.
  - destruct (inputs_ok_fresh _ _ Hin) as [Hf _].
    destruct (http_step_ok _ _ _ _ _ (sinv_commands _ Hi _ _ Hid) (sinv_engine _ Hi) Hf Hs) as [Hok Hq].
    apply (commands_inv w id h' e' ({[in_connection i]} ∪ server_connections w) Hi Hok Hq). set_solver.
  - destruct (events_handler_ok _ _ _ _ _ _ Hs). by apply open_inv.
  - by eapply stream_inv.
  - destruct (other_good _ _ (sinv_engine _ Hi) Ho). by apply engine_inv.
  - destruct Hi. split; try done. by apply (presence_same w).
Qed.
Lemma server_reachable_inv w : server_reachable w → server_inv w.
Proof. unfold server_reachable. generalize server_start_inv. induction 2; eauto using server_step_inv. Qed.
End hold.
