(* ===== verification/TransportFlow.v ===== *)
(** * TransportFlow: from the channel through the queue to the client

    Every event of the channel since the subscription is told in order, or is one of the events
    a lag report counts; a report names the last message that was told before it. The invariant
    [socket_flow] of every socket: its tasks relay their channels, the queue is bounded, and
    what leaves it is written in order. *)

From Stdlib Require Import ZifyBool.
From stdpp Require Import base tactics numbers strings countable sorting gmap list.
From S2P Require Import Prelude RustStr Text Ids Models Policy RepoState RepoMessages RepoChannels RepoCircles RepoUsers RepoWf RepoReach ChatActor ActorLaws ActorInvariant ChatEngine EngineReach Wire ChannelList EngineServices Transport Sockets TransportTasks TransportServer TransportInv.

Section relay.
Context `{Unicode, UuidLib, CryptoLib, EngineLib, F64Lib, EnvelopeCodec}.

(** ** Telling events *)

(** [relayed c first es xs last]: the server events [xs] tell the events [es] of channel [c] to a
    client that has seen messages up to [first] and then has seen them up to [last]. *)
Inductive relayed (c : ChannelId) : ChannelSequence → list ChatEvent → list ServerEvent → ChannelSequence → Prop :=
  | relayed_nil last : relayed c last [] [] last
  | relayed_event first event es xs last :
      relayed c (seen first event) es xs last →
      relayed c first (event :: es) (EvChat event :: xs) last
  | relayed_lag first latest lost es xs last :
      lost ≠ [] → relayed c first es xs last →
      relayed c first (lost ++ es) (lagged_event c first latest (length lost) :: xs) last.
Lemma relayed_app c first es xs mid es' xs' last :
  relayed c first es xs mid → relayed c mid es' xs' last → relayed c first (es ++ es') (xs ++ xs') last.
Proof.
  intros Hr. revert es' xs' last. induction Hr as [|first event es xs last Hr IH|first latest lost es xs last Hl Hr IH];
    intros es' xs' last' Hr'; simpl; [done|..].
  - constructor. auto.
  - rewrite <-app_assoc. constructor; auto.
Qed.
Lemma relayed_snoc c first es xs last event :
  relayed c first es xs last → relayed c first (es ++ [event]) (xs ++ [EvChat event]) (seen last event).
Proof. intros Hr. eapply relayed_app; [done|]. do 2 constructor. Qed.
Lemma relayed_snoc_lag c first es xs last latest lost n :
  lost ≠ [] → length lost = n → relayed c first es xs last →
  relayed c first (es ++ lost) (xs ++ [lagged_event c last latest n]) last.
Proof.
  intros Hl <- Hr. eapply relayed_app; [done|]. rewrite <-(app_nil_r lost) at 1. constructor; [done|constructor].
Qed.

Definition slice {A} (i j : nat) (l : list A) : list A := take (j - i) (drop i l).
Lemma slice_prefix {A} i j (l l' : list A) : j ≤ length l → l `prefix_of` l' → slice i j l' = slice i j l.
Proof.
  intros Hj [k ->]. unfold slice. destruct (decide (i ≤ length l)).
  - rewrite drop_app_le, take_app_le by (rewrite ?length_drop; lia). done.
  - replace (j - i) with 0 by lia. done.
Qed.
Lemma slice_nil {A} i (l : list A) : slice i i l = [].
Proof. unfold slice. by rewrite Nat.sub_diag. Qed.
Lemma slice_app {A} i j k (l : list A) : i ≤ j → j ≤ k → slice i j l ++ slice j k l = slice i k l.
Proof.
  intros Hij Hjk. unfold slice. replace (drop j l) with (drop (j - i) (drop i l)) by (rewrite drop_drop; f_equal; lia).
  replace (k - i) with ((j - i) + (k - j)) by lia. by rewrite take_take_drop.
Qed.
Lemma slice_one {A} j (l : list A) x : l !! j = Some x → slice j (S j) l = [x].
Proof.
  intros Hx. unfold slice. replace (S j - j) with 1 by lia. rewrite (drop_S _ _ _ Hx). simpl. by rewrite take_0.
Qed.
Lemma slice_length {A} i j (l : list A) : j ≤ length l → length (slice i j l) = j - i.
Proof. intros Hj. unfold slice. rewrite length_take, length_drop. lia. Qed.

(** ** The invariant of a task *)

Definition task_fine (e : ChatEngine) (t : SubscriptionTask) : Prop :=
  let evs := channel_events e (task_channel t) in
  let told n xs := relayed (task_channel t) (task_first_seen t) (slice (task_start t) n evs) xs (task_last_seen t) in
  task_receiver t ≤ length evs ∧
  match task_phase t with
  | Receiving => task_start t ≤ task_receiver t ∧ told (task_receiver t) (task_queued t)
  | Queueing m => task_start t ≤ task_receiver t
      ∧ ∃ x, m = ServerEnvelope_unsolicited x ∧ told (task_receiver t) (task_queued t ++ [x])
  | AskingLatest n => 0 < n ∧ task_start t + n ≤ task_receiver t
      ∧ told (task_receiver t - n) (task_queued t)
  | QueueingLast _ => False
  end.
Definition grows (e e' : ChatEngine) : Prop := ∀ c, channel_events e c `prefix_of` channel_events e' c.
Lemma task_fine_grows e e' t : grows e e' → task_fine e t → task_fine e' t.
Proof.
  intros Hg [Hle Hph]. assert (Hp := Hg (task_channel t)). assert (Hl := prefix_length _ _ Hp).
  split; [lia|]. destruct (task_phase t); try done.
  - by rewrite (slice_prefix _ _ _ _ Hle Hp).
  - assert (task_receiver t - skipped ≤ length (channel_events e (task_channel t))) as Hle' by lia.
    by rewrite (slice_prefix _ _ _ _ Hle' Hp).
  - by rewrite (slice_prefix _ _ _ _ Hle Hp).
Qed.
Lemma task_fine_start e c sub l conn t :
  ChannelSubscription_receiver sub ≤ length (channel_events e c) →
  (∀ conn t, tasks l !! conn = Some t → task_fine e t) →
  tasks (start_subscription c sub l) !! conn = Some t → task_fine e t.
Proof.
  intros Hr Hl. unfold start_subscription. simpl. intros [[_ <-]|[_ Ht]]%lookup_insert_Some; [|by eapply Hl].
  split; [done|]. simpl. split; [done|]. rewrite slice_nil. constructor.
Qed.
Lemma latest_sequence_ok c e : ∃ n, (Engine.latest_sequence c e).1 = Ok n.
Proof. unfold Engine.latest_sequence, repo, call, latest_sequence, gets. simpl. eauto. Qed.
Lemma broadcast_recv_spec capacity evs p r p' :
  broadcast_recv capacity evs p = (r, p') → p ≤ length evs →
  match r with
  | NoEvent => p = length evs ∧ p' = p
  | Event event => p' = S p ∧ evs !! p = Some event
  | Lagged n => 0 < n ∧ p' = p + n ∧ p' + capacity = length evs
  end.
Proof.
  unfold broadcast_recv. intros Hr Hp. destruct (_ <? _) eqn:E; simplify_eq; [lia|].
  destruct (evs !! p) as [event|] eqn:El; simplify_eq; [done|]. apply lookup_ge_None in El. lia.
Qed.
(** A step of a task: it goes on in order, and what it adds to the queue is its own. *)
Lemma run_subscription_fine e open outbound t t' outbound' :
  task_fine e t → run_subscription e open outbound t = Some (Some t', outbound') →
  task_fine e t' ∧ task_channel t' = task_channel t
  ∧ ((outbound' = outbound ∧ task_queued t' = task_queued t)
     ∨ ∃ x, open = true ∧ length outbound < OUTBOUND_CAPACITY
         ∧ outbound' = outbound ++ [ServerEnvelope_unsolicited x] ∧ task_queued t' = task_queued t ++ [x]).
Proof.
  intros [Hle Hph] Hrun. unfold run_subscription in Hrun. destruct (task_phase t) as [|skipped|m|m] eqn:Ep; [..|done].
  - destruct Hph as [Hst Htold]. destruct (broadcast_recv _ _ _) as [r p] eqn:Er.
    apply broadcast_recv_spec in Er; [|done]. destruct r as [|event|n]; [done|..]; apply some_pair in Hrun as [[= <-] <-].
    + destruct Er as [-> Hev]. split_and!; [|done|by left]. split; simpl.
      * apply lookup_lt_Some in Hev. lia.
      * split; [lia|]. eexists. split; [done|]. rewrite <-(slice_app _ (task_receiver t)), (slice_one _ _ _ Hev) by lia.
        by apply relayed_snoc.
    + destruct Er as (Hn&->&Hlen). split_and!; [|done|by left]. split; simpl; [lia|]. split_and!; [done|lia|].
      by replace (task_receiver t + n - n) with (task_receiver t) by lia.
  - destruct Hph as (Hn&Hst&Htold). destruct (latest_sequence_ok (task_channel t) e) as [latest Hlat]. rewrite Hlat in Hrun.
    apply some_pair in Hrun as [[= <-] <-]. split_and!; [|done|by left]. split; simpl; [done|]. split; [lia|].
    eexists. split; [done|]. rewrite <-(slice_app _ (task_receiver t - skipped)) by lia.
    assert (length (slice (task_receiver t - skipped) (task_receiver t) (channel_events e (task_channel t))) = skipped) as Hl
      by (rewrite slice_length by done; lia).
    apply relayed_snoc_lag; [|done|done]. intros Hnil. rewrite Hnil in Hl. simpl in Hl. lia.
  - destruct Hph as (Hst&x&->&Htold). destruct open; [|done]. destruct (_ <? _) eqn:Elt; [|done].
    apply some_pair in Hrun as [[= <-] <-]. split_and!; [by split|done|]. right. exists x. split_and!; try done. lia.
Qed.
Lemma run_subscription_end e open outbound t outbound' :
  task_fine e t → run_subscription e open outbound t = Some (None, outbound') → outbound' = outbound.
Proof.
  intros [_ Hph] Hrun. unfold run_subscription in Hrun. destruct (task_phase t) as [|skipped|m|m]; [..|done].
  - destruct (broadcast_recv _ _ _) as [[] ?]; by simplify_eq.
  - destruct (latest_sequence_ok (task_channel t) e) as [latest Hl]. by rewrite Hl in Hrun.
  - destruct open; [|by simplify_eq]. destruct (_ <? _); by simplify_eq.
Qed.

(** ** The engine's streams only grow *)

Definition actor_grows (a a' : ChatActor RepositoryState) : Prop :=
  ∀ c, chan_events a c `prefix_of` chan_events a' c.
#[local] Instance actor_grows_preorder : PreOrder actor_grows.
Proof. split; [by intros a c|]. intros a b c Hab Hbc x. etrans; [apply Hab|apply Hbc]. Qed.
Lemma channel_events_chan e c : channel_events e c = chan_events (engine_actor e) c.
Proof. unfold channel_events, chan_events. by destruct (actor_channels _ !! c). Qed.
Lemma related_grows e e' : related actor_grows e e' → grows e e'.
Proof. intros Hr c. rewrite !channel_events_chan. apply Hr. Qed.
Lemma handle_grows cmd (a : ChatActor RepositoryState) : True → actor_grows a (handle cmd a).2.
Proof.
  intros _ c. destruct (handle cmd a) as [reply a'] eqn:E. destruct (handle_announced _ _ _ _ E) as (c'&es&Ha).
  by eapply announced_prefix.
Qed.
Lemma all_commands (cmds : list Command) : Forall (λ _, True) cmds.
Proof. by apply Forall_true. Qed.
Lemma perform_grows op e : grows e (perform op e).2.
Proof.
  apply related_grows, (perform_related actor_grows (λ _, True)); [apply handle_grows|by intros a st c|done|apply all_commands].
Qed.
Lemma ask_grows {A} cmd (reply : Reply → Res ChatError A) e : grows e (ask cmd reply e).2.
Proof. apply related_grows, (ask_related actor_grows (λ _, True)); [apply handle_grows|apply all_commands|done]. Qed.
Lemma other_grows e e' : other_step e e' → grows e e'.
Proof.
  destruct 1; [apply perform_grows| |].
  - apply related_grows, (post_related actor_grows).
  - apply related_grows, (deliver_related actor_grows (λ _, True)); [apply handle_grows|apply all_commands].
Qed.
Lemma changed_grows u i e e' S S' ch : changed u i e e' S S' ch → grows e e'.
Proof.
  assert (grows e e) as Hrefl by by intros c.
  destruct ch as [|c sub|c error|c conn]; simpl.
  - intros [_ [->|(op&_&->)]]; [done|apply perform_grows].
  - intros (_&_&Hs%(f_equal snd)). simpl in Hs. subst e'. apply ask_grows.
  - intros (_&Hs%(f_equal snd)). simpl in Hs. subst e'. apply ask_grows.
  - intros (_&_&->). apply ask_grows.
Qed.
(** A new receiver starts at the end of the stream. *)
Lemma subscribe_receiver_le conn c u e sub e' :
  engine_good e → Engine.subscribe conn c u e = (Ok sub, e') →
  ChannelSubscription_receiver sub ≤ length (channel_events e' c).
Proof.
  intros [Hok Hr] Hrun. unfold Engine.subscribe in Hrun. rewrite ask_run in Hrun by (done || apply Hok).
  cbn [handle] in Hrun. unfold reply_with in Hrun.
  destruct (subscribe conn c u (drained e)) as [r a'] eqn:E. destruct r as [sub'|err|]; simpl in Hrun; simplify_eq.
  rewrite (subscribe_receiver _ _ _ _ _ _ E), channel_events_chan. simpl.
  apply prefix_length. assert (Hg := handle_grows (CSubscribe conn c u) (drained e) I c).
  cbn [handle] in Hg. by rewrite reply_with_run, E in Hg.
Qed.

(** ** The tasks of a connection *)

(** Every task is in order, and what it has queued is part of [q]. *)
Definition tasks_fine (e : ChatEngine) (q : list ServerEvent) (l : Locals) : Prop :=
  ∀ conn t, tasks l !! conn = Some t → task_fine e t ∧ task_queued t `sublist_of` q.
(** The updates of a task of the connection keep its subscription tasks in order when the
    engine is as [G] says. *)
Fixpoint updates_fine {A} (G : ChatEngine → Prop) (t : Task A) : Prop :=
  match t with
  | Ready _ | Unwind => True
  | Read k => ∀ l, updates_fine G (k l)
  | Update f t => (∀ e q l, G e → tasks_fine e q l → tasks_fine e q (f l)) ∧ updates_fine G t
  | Call m k => ∀ r, updates_fine (λ _, True) (k r)
  | CallSubscribe c k => (∀ error, updates_fine (λ _, True) (k (inr error)))
      ∧ ∀ sub, updates_fine (λ e, ChannelSubscription_receiver sub ≤ length (channel_events e c)) (k (inl sub))
  | CallLeave c conn t => updates_fine (λ _, True) t
  end.
Lemma updates_fine_weaken {A} (G G' : ChatEngine → Prop) (t : Task A) :
  (∀ e, G' e → G e) → updates_fine G t → updates_fine G' t.
Proof.
  intros HG. induction t as [a| |k IH|f t IH|X m k IH|c k IH|c conn t IH]; simpl; try done.
  - intros Ht l. by apply IH.
  - intros [Hf Ht]. split; [|by apply IH]. eauto.
Qed.
Lemma updates_fine_bind {A B} G (t : Task A) (k : A → Task B) :
  updates_fine G t → (∀ a, updates_fine (λ _, True) (k a)) → updates_fine G (task_bind t k).
Proof.
  intros Ht Hk. revert G Ht. induction t as [a| |k' IH|f t IH|X m k' IH|c k' IH|c conn t IH]; intros G Ht; simpl in *; try done.
  - by eapply updates_fine_weaken; [|apply Hk].
  - eauto.
  - destruct Ht. auto.
  - eauto.
  - destruct Ht. auto.
  - eauto.
Qed.
Lemma settle_tasks {A} G (t : Task A) e q l t' l' :
  updates_fine G t → G e → tasks_fine e q l → settle t l = (t', l') →
  tasks_fine e q l' ∧ updates_fine G t'.
Proof.
  intros Ht HG. revert l. induction t as [a| |k IH|f t IH|X m k IH|c k IH|c conn t IH]; intros l Hl Hs; simpl in *;
    simplify_eq; try done; eauto.
  destruct Ht as [Hf Ht]. eauto.
Qed.
Lemma forget_tasks_fine e q c conn l : tasks_fine e q l → tasks_fine e q (forget c conn l).
Proof.
  intros Hl conn' t. simpl. intros [(<-&t0&Ht&->)|[_ Ht]]%lookup_alter_Some; [|by eapply Hl].
  by destruct (Hl _ _ Ht).
Qed.
Lemma updates_fine_disconnect G c : updates_fine G (disconnect c).
Proof.
  unfold disconnect. simpl. intros l. destruct (subscriptions l !! c); simpl; [|done].
  split; [|done]. intros. by apply forget_tasks_fine.
Qed.
Lemma updates_fine_for_each {A} (f : A → Task unit) xs :
  (∀ x, updates_fine (λ _, True) (f x)) → updates_fine (λ _, True) (for_each f xs).
Proof. intros Hf. induction xs; simpl; [done|]. by apply updates_fine_bind. Qed.
Lemma updates_fine_leave_all : updates_fine (λ _, True) leave_all.
Proof.
  unfold leave_all. simpl. intros l. apply updates_fine_for_each. intros [c conn]. simpl.
  split; [|done]. intros. by apply forget_tasks_fine.
Qed.
Lemma updates_fine_inaccessible u : updates_fine (λ _, True) (disconnect_inaccessible_channels u).
Proof.
  unfold disconnect_inaccessible_channels. cbn [updates_fine]. intros r l. apply updates_fine_for_each.
  intros c. apply updates_fine_disconnect.
Qed.
Lemma updates_fine_subscribe c : updates_fine (λ _, True) (subscribe_channel c).
Proof.
  unfold subscribe_channel. apply updates_fine_bind; [apply updates_fine_disconnect|]. intros _. simpl.
  split; [done|]. intros sub. split; [|done]. intros e q l Hle Hl conn t Ht. split.
  - eapply task_fine_start; [done| |done]. intros conn' t' Ht'. by apply Hl in Ht' as [? _].
  - unfold start_subscription in Ht. simpl in Ht. apply lookup_insert_Some in Ht as [[_ <-]|[_ Ht]]; simpl.
    + apply sublist_nil_l.
    + by apply Hl in Ht as [_ ?].
Qed.
Lemma execute_updates_fine u rid command : updates_fine (λ _, True) (execute u rid command).
Proof.
  assert (∀ X (r : Res TextValidationError X) k, (∀ x, updates_fine (λ _, True) (k x)) →
    updates_fine (λ _, True) (validated_as r k)) as Hv
    by (intros X [] k Hk; [apply Hk|done|done]).
  destruct command; unfold execute; repeat (apply Hv; intros ?); try done.
  - cbn [reply_after updates_fine]. intros [[]|]; [|done]. apply updates_fine_bind; [apply updates_fine_disconnect|done].
  - apply updates_fine_subscribe.
  - apply updates_fine_bind; [apply updates_fine_disconnect|done].
  - cbn [reply_after updates_fine]. intros [[]|]; [|done]. apply updates_fine_bind; [apply updates_fine_inaccessible|done].
  - cbn [reply_after updates_fine]. intros [[]|]; [|done]. apply updates_fine_bind; [apply updates_fine_inaccessible|done].
Qed.
Lemma execute_command_updates_fine u envelope : updates_fine (λ _, True) (execute_command u envelope).
Proof. apply updates_fine_bind; [apply execute_updates_fine|done]. Qed.
End relay.

Section flow.
Context `{Unicode, UuidLib, CryptoLib, EngineLib, F64Lib, EnvelopeCodec}.

(** The envelopes from the queue that were written. *)
Definition queued_of (w : Written) : option ServerEnvelope :=
  match w with SentQueued m => Some m | _ => None end.
Definition from_queue (written : list Written) : list ServerEnvelope := omap queued_of written.
(** The loop of [handle_socket] takes from the queue. *)
Definition in_loop (s : Socket) : bool :=
  match socket_phase s with Ensuring | Selecting | Running _ | Responding _ => true | _ => false end.
Definition plain (m : ServerEnvelope) : Prop := ServerEnvelope_request_id m = None.
Definition phase_fine (p : SocketPhase) : Prop :=
  match p with
  | Running t => waiting t = true ∧ updates_fine (λ _, True) t
  | Closing t => waiting t = true ∧ updates_fine (λ _, True) t
  | _ => True
  end.

Definition fifo (loop : bool) (queued : list ServerEnvelope) (written : list Written) (outbound : list ServerEnvelope) : Prop :=
  if loop then queued = from_queue written ++ outbound else from_queue written `prefix_of` queued.
Record socket_flow (e : ChatEngine) (s : Socket) : Prop := {
  flow_tasks : tasks_fine e (ServerEnvelope_event <$> socket_queued s) (socket_locals s);
  flow_phase : phase_fine (socket_phase s);
  flow_bound : length (socket_outbound s) ≤ OUTBOUND_CAPACITY;
  flow_plain : Forall plain (socket_queued s);
  flow_fifo : fifo (in_loop s) (socket_queued s) (socket_written s) (socket_outbound s) }.

Lemma fifo_weaken loop queued written outbound : fifo loop queued written outbound → from_queue written `prefix_of` queued.
Proof. destruct loop; simpl; [|done]. intros ->. by apply prefix_app_r. Qed.
Lemma from_queue_snoc ws w : from_queue (ws ++ [w]) = from_queue ws ++ option_list (queued_of w).
Proof. unfold from_queue. rewrite omap_app. simpl. by destruct (queued_of w). Qed.
Lemma tasks_fine_grows e e' q l : grows e e' → tasks_fine e q l → tasks_fine e' q l.
Proof. intros Hg Hl conn t Ht. destruct (Hl _ _ Ht). split; [by eapply task_fine_grows|done]. Qed.
Lemma waiting_updates {A} G (t : Task A) : waiting t = true → updates_fine G t → updates_fine (λ _, True) t.
Proof. by destruct t. Qed.

(** A step that leaves the queue alone and goes on with a task. *)
Lemma continue_task_flow G e e' t s :
  socket_flow e s → in_loop s = true → grows e e' → updates_fine G t → G e' →
  socket_flow e' (continue_task t s).
Proof.
  intros [Ht _ Hb Hpl Hf] Hl Hg Hu HG. unfold continue_task. destruct (settle t (socket_locals s)) as [t' l'] eqn:E.
  destruct (settle_tasks G t e' _ _ _ _ Hu HG (tasks_fine_grows _ _ _ _ Hg Ht) E) as [Ht' Hu'].
  assert (phase_fine (match t' with Ready r => Responding r | Unwind => Unwound | t => Running t end)) as Hp.
  { destruct (settle_settled _ _ _ _ E) as [Hw|[[r ->]| ->]]; [|done..].
    apply waiting_updates in Hu'; [|done]. by destruct t'. }
  rewrite Hl in Hf. split; simpl; try done.
  unfold in_loop. simpl. destruct t'; try done. by eapply (fifo_weaken true).
Qed.
(** After the loop the queue is no longer taken from. *)
Record socket_drain (e : ChatEngine) (s : Socket) : Prop := {
  drain_tasks : tasks_fine e (ServerEnvelope_event <$> socket_queued s) (socket_locals s);
  drain_bound : length (socket_outbound s) ≤ OUTBOUND_CAPACITY;
  drain_plain : Forall plain (socket_queued s);
  drain_fifo : from_queue (socket_written s) `prefix_of` socket_queued s }.
Lemma flow_drain e s : socket_flow e s → socket_drain e s.
Proof. intros []. split; try done. by eapply fifo_weaken. Qed.
Lemma continue_closing_flow G e e' t s :
  socket_drain e s → grows e e' → updates_fine G t → G e' → socket_flow e' (continue_closing t s).
Proof.
  intros [Ht Hb Hpl Hf] Hg Hu HG. unfold continue_closing. destruct (settle t (socket_locals s)) as [t' l'] eqn:E.
  destruct (settle_tasks G t e' _ _ _ _ Hu HG (tasks_fine_grows _ _ _ _ Hg Ht) E) as [Ht' Hu'].
  assert (phase_fine (match t' with Ready _ => Closed | Unwind => Unwound | t => Closing t end)) as Hp.
  { destruct (settle_settled _ _ _ _ E) as [Hw|[[r ->]| ->]]; [|done..].
    apply waiting_updates in Hu'; [|done]. by destruct t'. }
  split; simpl; try done. unfold in_loop. simpl. by destruct t'.
Qed.
Lemma grows_refl e : grows e e.
Proof. by intros c. Qed.
Lemma break_loop_flow e s : socket_flow e s → socket_flow e (break_loop s).
Proof.
  intros Hs. apply (continue_closing_flow (λ _, True) e); [by apply flow_drain|apply grows_refl|apply updates_fine_leave_all|done].
Qed.
(** A write that does not come from the queue. *)
Lemma write_flow e sent w s : queued_of w = None → socket_flow e s → socket_flow e (write sent w s).
Proof.
  intros Hw [Ht Hp Hb Hpl Hf]. destruct sent; [|done]. split; try done. unfold in_loop, fifo in *. simpl.
  rewrite from_queue_snoc, Hw. simpl. by rewrite app_nil_r.
Qed.
Lemma flow_grows e e' s : grows e e' → socket_flow e s → socket_flow e' s.
Proof. intros Hg [Ht ????]. split; try done. by eapply tasks_fine_grows. Qed.
(** A socket with the same tasks and the same queue. *)
Lemma same_flow e s s' :
  socket_flow e s → socket_locals s' = socket_locals s → socket_queued s' = socket_queued s →
  socket_outbound s' = socket_outbound s → socket_written s' = socket_written s →
  phase_fine (socket_phase s') → (in_loop s' = true → in_loop s = true) → socket_flow e s'.
Proof.
  intros [Ht Hp Hb Hpl Hf] Hl Hq Ho Hw Hp' Hin. split; rewrite ?Hl, ?Hq, ?Ho, ?Hw; try done.
  destruct (in_loop s'); [by rewrite Hin in Hf|by eapply fifo_weaken].
Qed.
Lemma on_text_flow e text sent s :
  socket_phase s = Selecting → socket_flow e s → socket_flow e (on_text text sent s).
Proof.
  intros Hp Hs. assert (in_loop s = true) as Hl by (unfold in_loop; by rewrite Hp). unfold on_text.
  destruct (decode_envelope text) as [envelope|].
  - destruct (check_protocol _); [destruct (request_id_ok _)|]; [|by eapply same_flow..].
    eapply (continue_task_flow (λ _, True) e); [done..|apply grows_refl|apply execute_command_updates_fine|done].
  - destruct sent; [by apply write_flow|by apply break_loop_flow].
Qed.
Lemma on_frame_flow e frame valid sent s :
  socket_phase s = Selecting → socket_flow e s → socket_flow e (on_frame frame valid sent s).
Proof.
  intros Hp Hs. unfold on_frame. set (s1 := s <| socket_received := _ |>).
  assert (socket_flow e s1) as Hs1 by (eapply same_flow; try done; apply Hs).
  destruct frame; try done; try by apply break_loop_flow.
  - destruct (native_admitted _ _); [by apply on_text_flow|by apply break_loop_flow].
  - destruct sent; [by apply write_flow|by apply break_loop_flow].
Qed.

(** A step of one of the tasks. *)
Lemma tasks_fine_update e q q' l conn t' :
  tasks_fine e q l → q `sublist_of` q' →
  match t' with Some t => task_fine e t ∧ task_queued t `sublist_of` q' | None => True end →
  tasks_fine e q' (l <| tasks := partial_alter (λ _, t') conn (tasks l) |>).
Proof.
  intros Hl Hq Ht' conn' t. simpl. destruct (decide (conn' = conn)) as [->|Hne].
  - rewrite lookup_partial_alter_eq. intros ->. done.
  - rewrite lookup_partial_alter_ne by done. intros Ht. destruct (Hl _ _ Ht). split; [done|by etrans].
Qed.
Lemma pushed_flow e s l m queued :
  socket_flow e s → length (socket_outbound s) < OUTBOUND_CAPACITY → plain m →
  queued = socket_queued s ++ [m] → tasks_fine e (ServerEnvelope_event <$> queued) l →
  socket_flow e (s <| socket_locals := l |> <| socket_outbound := socket_outbound s ++ [m] |>
                   <| socket_queued := queued |>).
Proof.
  intros [Ht Hp Hb Hpl Hf] Hlt Hm -> Hl. split; simpl; try done.
  - rewrite length_app. simpl. lia.
  - apply Forall_app. by split; [|apply Forall_singleton].
  - unfold fifo, in_loop in *. simpl. destruct (socket_phase s); simpl in *.
    all: try (by rewrite Hf, app_assoc). all: by apply prefix_app_r.
Qed.
Lemma on_subscription_flow e conn s s' :
  socket_flow e s → on_subscription e conn s = Some s' → socket_flow e s'.
Proof.
  intros Hs Hrun. unfold on_subscription in Hrun. destruct (tasks (socket_locals s) !! conn) as [t|] eqn:Et; [|done].
  cbn [mbind option_bind] in Hrun. destruct (run_subscription _ _ _ _) as [[t' outbound]|] eqn:Er; [|done].
  cbn [mbind option_bind] in Hrun. injection Hrun as <-. destruct (flow_tasks _ _ Hs _ _ Et) as [Hfine Hsub].
  assert (∀ t1, match t1 with Some t1 => task_fine e t1 ∧ task_queued t1 = task_queued t | None => True end →
    socket_flow e (s <| socket_locals := (socket_locals s) <| tasks := partial_alter (λ _, t1) conn (tasks (socket_locals s)) |> |>
      <| socket_outbound := socket_outbound s |>
      <| socket_queued := socket_queued s ++ drop (length (socket_outbound s)) (socket_outbound s) |>)) as Hsame.
  { intros t1 Ht1. rewrite drop_all, app_nil_r. destruct Hs as [Ht Hp Hb Hpl Hf]. split; try done. simpl.
    eapply tasks_fine_update; [done|done|]. destruct t1; [|done]. destruct Ht1 as [? ->]. done. }
  destruct t' as [t'|].
  2:{ apply run_subscription_end in Er; [|done]. subst. by apply (Hsame None). }
  destruct (run_subscription_fine _ _ _ _ _ _ Hfine Er) as (Hfine'&_&[[-> Hq]|(x&_&Hlt&->&Hq)]).
  { by apply (Hsame (Some t')). }
  rewrite drop_app_length. apply pushed_flow; try done. rewrite fmap_app.
  eapply tasks_fine_update; [apply Hs| |].
  - by apply sublist_inserts_r.
  - split; [done|]. rewrite Hq. by apply sublist_app.
Qed.
Lemma on_outbound_flow e s m rest (b : bool) :
  socket_phase s = Selecting → socket_outbound s = m :: rest → socket_flow e s →
  socket_flow e (if b then write true (SentQueued m) (s <| socket_outbound := rest |>)
                 else break_loop (s <| socket_outbound := rest |>)).
Proof.
  intros Hp Ho [Ht Hph Hb Hpl Hf]. unfold in_loop in Hf. rewrite Hp in Hf. simpl in Hf. rewrite Ho in *. simpl in Hb. destruct b.
  - split; simpl; try done; [lia|]. unfold in_loop, fifo. simpl. rewrite Hp, from_queue_snoc. simpl.
    rewrite Hf, <-app_assoc. done.
  - apply (continue_closing_flow (λ _, True) e); [|apply grows_refl|apply updates_fine_leave_all|done].
    split; simpl; try done; [lia|]. rewrite Hf. by apply prefix_app_r.
Qed.
(** The next call of a task. *)
Lemma call_updates {A} u (t : Task A) i e t' e' :
  updates_fine (λ _, True) t → engine_good e → call_engine u t i e = Some (t', e') →
  ∃ G : ChatEngine → Prop, updates_fine G t' ∧ G e'.
Proof.
  intros Hu Hg Hc. destruct t as [a| |k|f t|X m k|c k|c conn t]; try done; simpl in Hc, Hu.
  - destruct (m i e) as [r e1]. simplify_eq. exists (λ _, True). split; [|done].
    unfold resume, outcome_of. by destruct r.
  - destruct (Engine.subscribe _ _ _ _) as [r e1] eqn:E. simplify_eq. destruct Hu as [Herr Hok].
    unfold resume, outcome_of. destruct r as [sub|error|]; [|by exists (λ _, True)..].
    exists (λ e, ChannelSubscription_receiver sub ≤ length (channel_events e c)). split; [done|].
    by eapply subscribe_receiver_le.
  - simplify_eq. by exists (λ _, True).
Qed.
Lemma socket_step_flow sd event s e s' e' :
  socket_ok s → engine_good e → step_inputs (socket_inputs event) e → socket_flow e s →
  socket_step sd event s e = Some (s', e') → grows e e' ∧ socket_flow e' s'.
Proof.
  intros Hok Hg Hin Hs Hstep.
  assert (grows e e') as Hgr.
  { destruct (socket_step_moves _ _ _ _ _ _ Hok Hg Hin Hstep) as (_&_&ch&Hch&_). by eapply changed_grows. }
  split; [done|]. assert (Hbr := break_loop_flow e).
  assert (∀ conn, on_subscription e conn s = Some s' → socket_flow e s') as Hsub by (intros; by eapply on_subscription_flow).
  assert (∀ conn, socket_flow e (s <| socket_locals := (socket_locals s) <| tasks := delete conn (tasks (socket_locals s)) |> |>)) as Habort.
  { intros conn. destruct Hs as [Ht Hp Hb Hpl Hf]. split; try done. intros conn' t. simpl.
    intros [_ Ht']%lookup_delete_Some. by eapply Ht. }
  unfold socket_step in Hstep. destruct (socket_phase s) as [| |t|r|t| |] eqn:Hp; destruct event; try done.
  all: try (destruct (on_subscription e conn s) as [s1|] eqn:E; cbn [mbind option_bind] in Hstep; [|done];
            apply some_pair in Hstep as [<- <-]; by eapply Hsub).
  all: try (destruct (tasks (socket_locals s) !! conn) as [t0|]; cbn [mbind option_bind] in Hstep; [|done];
            destruct (task_aborted t0); [|done]; apply some_pair in Hstep as [<- <-]; by apply Habort).
  - destruct (Engine.ensure_user _ e) as [r e1].
    assert (in_loop s = true) as Hl by (unfold in_loop; by rewrite Hp). apply (flow_grows _ e') in Hs; [|by destruct r; simplify_eq].
    destruct r as [r|error|]; apply some_pair in Hstep as [<- <-];
      [by apply (same_flow e1 s)| |by apply (same_flow e1 s)].
    eapply (same_flow e1 (write sent (Sent _) s)); [by apply write_flow|by destruct sent..].
  - apply some_pair in Hstep as [<- <-]. destruct valid; [done|]. by apply break_loop_flow, write_flow.
  - apply some_pair in Hstep as [<- <-]. by apply break_loop_flow, write_flow.
  - destruct sd; [|done]. apply some_pair in Hstep as [<- <-]. by apply break_loop_flow, write_flow.
  - destruct (next_circle_update _ _) as [position|]; [|done]. cbn [mbind option_bind] in Hstep.
    apply some_pair in Hstep as [<- <-]. set (s1 := s <| socket_circle_updates := _ |>).
    assert (socket_flow e s1) as Hs1 by (eapply same_flow; try done; simpl; by rewrite Hp).
    destruct (_ && _); [by apply write_flow|by apply break_loop_flow].
  - destruct (socket_outbound s) as [|m rest] eqn:Eo; [done|]. apply some_pair in Hstep as [<- <-]. by apply on_outbound_flow.
  - apply some_pair in Hstep as [<- <-]. by apply on_frame_flow.
  - destruct (call_engine _ t i e) as [[t' e1]|] eqn:E; cbn [mbind option_bind] in Hstep; [|done].
    apply some_pair in Hstep as [<- <-]. assert (Hph := flow_phase _ _ Hs). rewrite Hp in Hph. destruct Hph as [_ Hu].
    destruct (call_updates _ _ _ _ _ _ Hu Hg E) as (G&Hu'&HG). eapply continue_task_flow; try done. unfold in_loop. by rewrite Hp.
  - apply some_pair in Hstep as [<- <-]. destruct (_ && _); [|by apply break_loop_flow].
    apply (same_flow e (write true (Sent r) s)); try done; [by apply write_flow|]. unfold in_loop. simpl. by rewrite Hp.
  - destruct (call_engine _ t i e) as [[t' e1]|] eqn:E; cbn [mbind option_bind] in Hstep; [|done].
    apply some_pair in Hstep as [<- <-]. assert (Hph := flow_phase _ _ Hs). rewrite Hp in Hph. destruct Hph as [_ Hu].
    destruct (call_updates _ _ _ _ _ _ Hu Hg E) as (G&Hu'&HG).
    eapply continue_closing_flow; try done. by apply flow_drain.
Qed.

(** ** Every socket of the server *)

Lemma quietly_grows e e' : quietly e e' → grows e e'.
Proof. intros [->|(op&_&->)]; [apply grows_refl|apply perform_grows]. Qed.
Lemma stream_step_grows sd event s e s' e' : stream_step sd event s e = Some (s', e') → grows e e'.
Proof.
  intros Hs. unfold stream_step in Hs. destruct (stream_phase s), event; try done.
  all: try (destruct (stream_scope s) as [[c rid]|]; cbn [mbind option_bind] in Hs).
  all: try (destruct (stream_guard s) as [conn|]; cbn [mbind option_bind] in Hs).
  all: try (destruct (next_circle_update _ _); cbn [mbind option_bind] in Hs).
  all: try done.
  all: try (destruct (broadcast_recv _ _ _) as [[|?|?] ?]).
  all: try (destruct sd).
  all: try done.
  all: try (apply some_pair in Hs as [_ <-]; first [apply grows_refl|apply ask_grows]).
  all: try (assert (Hq := quietly_grows _ _ (ensure_quietly (stream_user s) e));
            destruct (Engine.ensure_user _ e) as [r e1]; by apply some_pair in Hs as [_ <-]).
  all: try (assert (Hr := renew_presence_same (stream_id s) [(c, conn)] e);
            destruct (EngineServices.renew_presence _ _ e) as [r e1]; simpl in Hr; apply some_pair in Hs as [_ <-];
            subst; apply grows_refl).
  all: destruct (Engine.subscribe (in_connection i) c (stream_id s) e) as [r e1] eqn:Er;
    apply some_pair in Hs as [_ <-]; apply (f_equal snd) in Er; simpl in Er; subst e1; apply ask_grows.
Qed.
Lemma abandons_fields event s w :
  server_engine (abandons event s w) = server_engine w ∧ server_sockets (abandons event s w) = server_sockets w.
Proof.
  unfold abandons. destruct event; try done. destruct (stream_scope s) as [[c rid]|]; [|done].
  by destruct (Engine.subscribe (in_connection i) c (stream_id s) (server_engine w)).1.
Qed.
Lemma server_step_grows w w' : server_inv w → server_step w w' → grows (server_engine w) (server_engine w').
Proof.
  intros Hi [id user native sent Hid|id s event s' e' Hid Hin Hs|id user envelope native Hid
    |id i h h' e' Hid Hin Hs|id user boot c rid after s Hid Hs|id s event s' e' Hid Hin Hs|e' Ho|]; simpl;
    try apply grows_refl.
  - destruct (inputs_ok_fresh _ _ Hin) as [Hf _]. rewrite (proj1 (inputs_used_fields _ _)).
    destruct (socket_step_moves _ _ _ _ _ _ (sinv_sockets _ Hi _ _ Hid) (sinv_engine _ Hi) Hf Hs) as (_&_&ch&Hch&_).
    by eapply changed_grows.
  - destruct (inputs_ok_fresh _ _ Hin) as [Hf _].
    destruct (http_step_ok _ _ _ _ _ (sinv_commands _ Hi _ _ Hid) (sinv_engine _ Hi) Hf Hs) as [_ Hq].
    by apply quietly_grows.
  - rewrite (proj1 (inputs_used_fields _ _)). by eapply stream_step_grows.
  - by apply other_grows.
Qed.
Lemma handle_socket_start_flow e sd sent user native : socket_flow e (handle_socket_start sd sent user native).
Proof.
  assert (∀ s, socket_locals s = Locals_empty → socket_queued s = [] → socket_outbound s = [] →
    from_queue (socket_written s) = [] → phase_fine (socket_phase s) → socket_flow e s) as Hnew.
  { intros s Hl Hq Ho Hw Hp. split; rewrite ?Hl, ?Hq, ?Ho; try done; [simpl; lia|].
    unfold fifo. rewrite Hw. by destruct (in_loop s). }
  unfold handle_socket_start. destruct sd; [|by apply Hnew]. by destruct sent; apply Hnew.
Qed.
Definition server_flow (w : Server) : Prop :=
  ∀ id s, server_sockets w !! id = Some s → socket_flow (server_engine w) s.
Lemma server_step_flow w w' : server_inv w → server_step w w' → server_flow w → server_flow w'.
Proof.
  intros Hi Hstep Hw. assert (Hg := server_step_grows _ _ Hi Hstep).
  assert (∀ id s, server_sockets w !! id = Some s → socket_flow (server_engine w') s) as Hold
    by (intros; eapply flow_grows; [done|by eapply Hw]).
  destruct Hstep as [id user native sent Hid|id s event s' e' Hid Hin Hs|id user envelope native Hid
    |id i h h' e' Hid Hin Hs|id user boot c rid after s Hid Hs|id s event s' e' Hid Hin Hs|e' Ho|]; try done.
  - intros id' s'. simpl. intros [[_ <-]|[_ Hs']]%lookup_insert_Some; [apply handle_socket_start_flow|by eapply Hw].
  - destruct (inputs_ok_fresh _ _ Hin) as [Hf _]. set (w1 := w <| server_engine := e' |> <| server_sockets := _ |>) in *.
    destruct (inputs_used_fields (socket_inputs event) w1) as (Ee&Es&_). unfold server_flow. rewrite Ee, Es in *.
    intros id' s2. simpl. intros [[_ <-]|[_ Hs']]%lookup_insert_Some; [|by eapply Hold].
    destruct (socket_step_flow _ _ _ _ _ _ (sinv_sockets _ Hi _ _ Hid) (sinv_engine _ Hi) Hf (Hw _ _ Hid) Hs). done.
  - set (w1 := (abandons event s w) <| server_engine := e' |> <| server_streams := _ |>) in *.
    destruct (inputs_used_fields (stream_inputs event) w1) as (Ee&Es&_). unfold server_flow. rewrite Ee, Es in *.
    intros id' s2. unfold w1. simpl. rewrite (proj2 (abandons_fields _ _ _)). apply Hold.
Qed.
Lemma server_reachable_flow w : server_reachable w → server_flow w.
Proof.
  intros Hw. assert (server_inv w ∧ server_flow w) as [_ ?]; [|done]. revert Hw. unfold server_reachable.
  assert (server_inv server_start ∧ server_flow server_start) as Hstart.
  { split; [apply server_start_inv|]. intros id s. simpl. by rewrite lookup_empty. }
  intros Hr. revert Hstart. induction Hr as [|w1 w2 w3 Hs _ IH]; [done|]. intros [Hi Hf].
  apply IH. split; [by eapply server_step_inv|by eapply server_step_flow].
Qed.
End flow.
