(* ===== verification/TransportStreams.v ===== *)
(** * TransportStreams: the channel list and the event streams

    The list of [list_channels_for_user] has one summary for every membership of the user, and
    [channel_visible] of the event streams, which searches it, decides membership. Like the
    subscription task of a socket, the stream of a channel tells every event of the channel
    since the subscription in order, or counts it in a lag report; an event is told only while
    the user is a member of the channel. *)

From Stdlib Require Import ZifyBool.
From stdpp Require Import base tactics numbers strings countable sorting gmap list.
From S2P Require Import Prelude RustStr Text Ids Models Policy RepoState RepoMessages RepoChannels RepoCircles RepoUsers RepoWf WfMessages RepoReach RepoHistory ChatActor ActorLaws ActorInvariant ActorProps ChatEngine EngineReach EngineProps Wire ChannelList EngineServices Transport Sockets TransportTasks TransportServer TransportInv TransportFlow.

(** The byte order of strings is total. *)
Lemma str_cmp_total s t : str_cmp s t ≠ Gt ∨ str_cmp t s ≠ Gt.
Proof.
  revert t. induction s as [|a s IH]; intros [|b t]; simpl; [by left..|by right|].
  rewrite (N.compare_antisym a b). destruct (N.compare a b) eqn:E; simpl; [apply IH|by left|by right].
Qed.
#[local] Instance str_le_total : Total str_le.
Proof. intros s t. apply str_cmp_total. Qed.

Section channel_list.
Context `{Unicode, UuidLib, CryptoLib, EngineLib, F64Lib, EnvelopeCodec}.

(** The summary of a membership in a channel. *)
Definition summary_of (st : RepositoryState) (now : DateTime) (u : UserId) (m : Membership)
    : option ChannelSummary := with_activity st now u <$> channel_summary st u m.
Definition own_memberships (st : RepositoryState) (u : UserId) : list Membership :=
  List.filter (λ m, bool_decide (Membership_user_id m = u)) (values (memberships st)).

Lemma own_memberships_elem st u m :
  wf st → m ∈ own_memberships st u ↔ ∃ c, memberships st !! (c, u) = Some m.
Proof.
  intros Hwf. unfold own_memberships. rewrite filter_elem, values_elem, bool_decide_eq_true. split.
  - intros [[[c v] Hm] Hu]. exists c. assert (Hk := member_user_id _ _ _ _ _ _ (wf_members _ Hwf _ _ _ Hm)). congruence.
  - intros [c Hm]. split; [by eexists|]. apply (member_user_id _ _ _ _ _ _ (wf_members _ Hwf _ _ _ Hm)).
Qed.
Lemma own_memberships_nodup st u : wf st → NoDup (Membership_channel_id <$> own_memberships st u).
Proof.
  intros Hwf. apply NoDup_fmap_2_strong.
  - intros x y [c Hx]%own_memberships_elem [d Hy]%own_memberships_elem Heq; try done.
    rewrite (member_channel_id _ _ _ _ _ _ (wf_members _ Hwf _ _ _ Hx)),
      (member_channel_id _ _ _ _ _ _ (wf_members _ Hwf _ _ _ Hy)) in Heq. congruence.
  - apply NoDup_ListNoDup, List.NoDup_filter, NoDup_ListNoDup. unfold values. apply NoDup_fmap_2_strong; [|apply NoDup_map_to_list].
    intros [[c v] x] [[c' v'] y] Hx%elem_of_map_to_list Hy%elem_of_map_to_list Heq. simpl in Heq. subst.
    destruct (wf_members _ Hwf _ _ _ Hx), (wf_members _ Hwf _ _ _ Hy). congruence.
Qed.
(** Every membership has its channel, so the list has a summary for each of them. *)
Lemma channel_summary_some st u c m :
  wf st → memberships st !! (c, u) = Some m →
  ∃ ch s, channels st !! c = Some ch ∧ channel_summary st u m = Some s ∧ ChannelSummary_id s = c
    ∧ ChannelSummary_slug s = Channel_slug ch ∧ ChannelSummary_name s = Channel_name ch
    ∧ ChannelSummary_kind s = Channel_kind ch ∧ ChannelSummary_circle_id s = Channel_circle_id ch
    ∧ ChannelSummary_role s = Membership_role m
    ∧ ChannelSummary_last_read_sequence s = Membership_last_read_sequence m
    ∧ ChannelSummary_latest_sequence s = mk_ChannelSequence (N.of_nat (log_length (messages st) c)).
Proof.
  intros Hwf Hm. destruct (wf_members _ Hwf _ _ _ Hm) as [Hc Hu _ [ch Hch] _].
  unfold channel_summary. rewrite Hc, Hch. cbn [mbind option_bind].
  assert (Channel_id ch = c) as Hid by by eapply indexed_id; [apply wf_channels|]. eexists ch, _. split_and!; try done.
  simpl. rewrite Hid. unfold log_length, channel_messages. set (l := default [] (messages st !! c)).
  destruct (last l) as [x|] eqn:El; [|by apply last_None in El as ->].
  rewrite last_lookup in El. assert (logged (messages st) c (pred (length l)) x) as Hx by done.
  rewrite (log_sequence _ _ _ (wf_log _ Hwf) _ _ _ Hx). f_equal. apply lookup_lt_Some in El. lia.
Qed.
Lemma summaries_ids st now u (ms : list Membership) :
  (∀ m, m ∈ ms → ∃ s, channel_summary st u m = Some s ∧ ChannelSummary_id s = Membership_channel_id m) →
  ChannelSummary_id <$> (with_activity st now u <$> omap (channel_summary st u) ms) = Membership_channel_id <$> ms.
Proof.
  intros Hms. induction ms as [|m ms IH]; [done|]. destruct (Hms m) as (s&Hs&Hid); [by left|].
  csimpl. rewrite Hs. csimpl. rewrite IH by (intros; apply Hms; by right). f_equal. rewrite <-Hid.
  unfold with_activity. by destruct (ChannelSummary_is_direct s).
Qed.
Lemma with_activity_fields st now u s :
  let s' := with_activity st now u s in
  ChannelSummary_id s' = ChannelSummary_id s ∧ ChannelSummary_slug s' = ChannelSummary_slug s
  ∧ ChannelSummary_name s' = ChannelSummary_name s ∧ ChannelSummary_kind s' = ChannelSummary_kind s
  ∧ ChannelSummary_circle_id s' = ChannelSummary_circle_id s ∧ ChannelSummary_role s' = ChannelSummary_role s
  ∧ ChannelSummary_last_read_sequence s' = ChannelSummary_last_read_sequence s
  ∧ ChannelSummary_latest_sequence s' = ChannelSummary_latest_sequence s.
Proof. unfold with_activity. by destruct (ChannelSummary_is_direct s). Qed.

(** The list as the function computes it. *)
Lemma list_channels_run st now u :
  ∃ l, list_channels_for_user now u st = (Ok l, st)
    ∧ l ≡ₚ (with_activity st now u <$> omap (channel_summary st u) (own_memberships st u))
    ∧ Sorted (on_key str_le (ChannelSlug_as_str ∘ ChannelSummary_slug)) l.
Proof.
  eexists. split; [reflexivity|]. unfold sort_by_key. split; [apply merge_sort_Permutation|].
  apply Sorted_merge_sort. intros x y. apply str_le_total.
Qed.
Lemma channel_visible_member now u c e :
  engine_good e →
  channel_visible now u c e = true ↔ is_Some (memberships (repository (engine_actor e)) !! (c, u)).
Proof.
  intros [[_ [Hr _]] _]. assert (Hwf := reachable_wf _ Hr). set (st := repository (engine_actor e)) in *.
  destruct (list_channels_run st now u) as (l&Hl&Hperm&_).
  unfold channel_visible, EngineServices.list_channels, repo, call. fold st. rewrite Hl. simpl.
  unfold any. rewrite List.existsb_exists.
  setoid_rewrite <-list_elem_of_In. setoid_rewrite Hperm. setoid_rewrite list_elem_of_fmap.
  setoid_rewrite list_elem_of_omap. setoid_rewrite bool_decide_eq_true. split.
  - intros (s&(s0&->&m&[d Hm]%own_memberships_elem&Hs)&Hid); [|done].
    destruct (channel_summary_some st u d m Hwf Hm) as (ch&s1&_&Hs1&Hd&_). rewrite Hs in Hs1. injection Hs1 as <-.
    destruct (with_activity_fields st now u s0) as (Hid'&_). assert (d = c) as -> by congruence. by eexists.
  - intros [m Hm]. destruct (channel_summary_some st u c m Hwf Hm) as (ch&s&_&Hs&Hd&_).
    exists (with_activity st now u s). destruct (with_activity_fields st now u s) as (Hid'&_).
    split; [|congruence]. exists s. split; [done|]. exists m. split; [|done]. apply own_memberships_elem; [done|by exists c].
Qed.
End channel_list.

Section streams.
Context `{Unicode, UuidLib, CryptoLib, EngineLib, F64Lib, EnvelopeCodec}.

(** The events of the channel and the lag reports among what a stream yields. *)
Definition told_of (f : StreamFrame) : option ServerEvent :=
  match f with
  | Yielded envelope =>
      match ServerEnvelope_request_id envelope, ServerEnvelope_event envelope with
      | None, (EvChat _ | EvLagged _ _ _ _ _) as event => Some event
      | _, _ => None
      end
  | _ => None
  end.
Definition told (fs : list StreamFrame) : list ServerEvent := omap told_of fs.
Definition last_of (history : list ChatMessage) : ChannelSequence :=
  match last history with Some message => ChatMessage_sequence message | None => ChannelSequence_new 0 end.
(** The report of what lies between what the client has, the messages up to [after], and the
    first message of the history it is given: how many there are, if any. *)
Definition gap_frames (c : ChannelId) (after : option N) (history : list ChatMessage) : list StreamFrame :=
  match after, head history with
  | Some n, Some first =>
      let skipped := (seq_u64 (ChatMessage_sequence first) - u64_saturating_succ n)%N in
      if ((0 <? n) && (0 <? skipped))%N
      then [Yielded (ServerEnvelope_unsolicited (EvLagged c (ChannelSequence_new n) (last_of history) skipped
              (lit "load_recent_messages_after")))]
      else []
  | _, _ => []
  end.
(** How the stream of a channel begins. *)
Definition opening (c : ChannelId) (rid : str) (after : option N) (history : list ChatMessage) : list StreamFrame :=
  [Connected; Yielded (ServerEnvelope_response rid (EvSubscriptionStarted c history))] ++ gap_frames c after history.

(** The stream has told the events of [c] from its subscription up to position [n]. *)
Definition streamed (e : ChatEngine) (c : ChannelId) (rid : str) (s : EventStream) (n : nat) : Prop :=
  let evs := channel_events e c in
  stream_start s ≤ n ∧ n ≤ stream_receiver s ∧ stream_receiver s ≤ length evs
  ∧ ∃ history rest,
      stream_yielded s = opening c rid (stream_after s) history ++ rest
      ∧ relayed c (last_of history) (slice (stream_start s) n evs) (told rest) (stream_last_seen s).
Definition stream_fine (e : ChatEngine) (s : EventStream) : Prop :=
  match stream_scope s with
  | None => told (stream_yielded s) = []
  | Some (c, rid) =>
      match stream_phase s with
      | StreamBootstrap | StreamSubscribing => stream_yielded s = []
      | StreamSelecting | StreamRenewing => streamed e c rid s (stream_receiver s)
      | StreamChecking event => ∃ n, stream_receiver s = S n ∧ channel_events e c !! n = Some event ∧ streamed e c rid s n
      | StreamAsking skipped => ∃ n, stream_receiver s = n + skipped ∧ 0 < skipped ∧ streamed e c rid s n
      | StreamLeaving | StreamDone => stream_yielded s = [] ∨ ∃ n, streamed e c rid s n
      end
  end.

Lemma told_app fs fs' : told (fs ++ fs') = told fs ++ told fs'.
Proof. apply omap_app. Qed.
Lemma streamed_grows e e' c rid s n : grows e e' → streamed e c rid s n → streamed e' c rid s n.
Proof.
  intros Hg (Hst&Hn&Hr&history&rest&Hy&Hre). assert (Hp := Hg c). assert (Hl := prefix_length _ _ Hp).
  split_and!; [done|done|lia|]. exists history, rest. split; [done|].
  by rewrite (slice_prefix _ _ (channel_events e c)) by (done || lia).
Qed.
Lemma stream_fine_grows e e' s : grows e e' → stream_fine e s → stream_fine e' s.
Proof.
  intros Hg. unfold stream_fine. destruct (stream_scope s) as [[c rid]|]; [|done].
  destruct (stream_phase s); try done; try apply streamed_grows, Hg.
  - intros (n&?&Hev&?). exists n. split_and!; [done|by eapply prefix_lookup_Some|by eapply streamed_grows].
  - intros (n&?&?&?). exists n. split_and!; [done..|by eapply streamed_grows].
  - intros [?|[n ?]]; [by left|right]. exists n. by eapply streamed_grows.
  - intros [?|[n ?]]; [by left|right]. exists n. by eapply streamed_grows.
Qed.
(** What a step of the loop leaves as it is. *)
Definition same_stream (s s' : EventStream) : Prop :=
  stream_start s' = stream_start s ∧ stream_after s' = stream_after s.
(** Something else is yielded. *)
Lemma streamed_plain e c rid s s' n fs :
  streamed e c rid s n → same_stream s s' → stream_receiver s' = stream_receiver s →
  stream_last_seen s' = stream_last_seen s →
  stream_yielded s' = stream_yielded s ++ fs → told fs = [] → streamed e c rid s' n.
Proof.
  intros (Hst&Hn&Hr&history&rest&Hy&Hre) [Es Ea] Er El Ey Hfs. unfold streamed. rewrite Es, Ea, Er, El, Ey, Hy.
  split_and!; [done..|]. exists history, (rest ++ fs). rewrite told_app, Hfs, app_nil_r.
  by rewrite <-!app_assoc.
Qed.
Lemma streamed_event e c rid s s' n event :
  streamed e c rid s n → same_stream s s' → channel_events e c !! n = Some event → stream_receiver s' = S n →
  stream_last_seen s' = seen (stream_last_seen s) event →
  stream_yielded s' = stream_yielded s ++ [Yielded (ServerEnvelope_unsolicited (EvChat event))] →
  streamed e c rid s' (S n).
Proof.
  intros (Hst&Hn&Hr&history&rest&Hy&Hre) [Es Ea] Hev Er El Ey. unfold streamed. rewrite Es, Ea, Er, El, Ey, Hy.
  apply lookup_lt_Some in Hev as Hlt. split_and!; [lia|done|lia|].
  exists history, (rest ++ [Yielded (ServerEnvelope_unsolicited (EvChat event))]).
  rewrite told_app, <-!app_assoc. split; [done|]. simpl.
  rewrite <-(slice_app (stream_start s) n (S n)), (slice_one n _ event) by (done || lia). by apply relayed_snoc.
Qed.
Lemma streamed_lag e c rid s s' n latest skipped :
  streamed e c rid s n → same_stream s s' → stream_receiver s = n + skipped → 0 < skipped →
  stream_receiver s' = stream_receiver s → stream_last_seen s' = stream_last_seen s →
  stream_yielded s' = stream_yielded s ++ [Yielded (ServerEnvelope_unsolicited (lagged_event c (stream_last_seen s) latest skipped))] →
  streamed e c rid s' (stream_receiver s).
Proof.
  intros (Hst&Hn&Hr&history&rest&Hy&Hre) [Es Ea] Hrec Hsk Er El Ey. unfold streamed.
  rewrite Es, Ea, Er, El, Ey, Hy, Hrec in *.
  split_and!; [lia|done|done|]. eexists history, (rest ++ [_]).
  rewrite told_app, <-!app_assoc. split; [done|]. simpl.
  rewrite <-(slice_app (stream_start s) n (n + skipped)) by lia.
  assert (length (slice n (n + skipped) (channel_events e c)) = skipped) as Hlen by (rewrite slice_length by lia; lia).
  apply relayed_snoc_lag; try done. intros Hnil. rewrite Hnil in Hlen. simpl in Hlen. lia.
Qed.
(** The stream ends. *)
Lemma stream_end_fine e s :
  stream_fine e s → stream_fine e (stream_end s).
Proof.
  unfold stream_fine, stream_end. simpl. destruct (stream_scope s) as [[c rid]|]; [|done].
  assert (∀ n, streamed e c rid s n → stream_yielded s = [] ∨ ∃ n, streamed e c rid (stream_end s) n) as Hend
    by (intros n Hn; right; by exists n).
  intros Hs. enough (stream_yielded s = [] ∨ ∃ n, streamed e c rid (stream_end s) n) as Hend' by by destruct (stream_guard s).
  destruct (stream_phase s); naive_solver.
Qed.
(** The stream goes on in the loop. *)
Lemma stays_fine e s s' fs :
  stream_fine e s → stream_phase s = StreamSelecting ∨ stream_phase s = StreamRenewing →
  stream_phase s' = StreamSelecting ∨ stream_phase s' = StreamRenewing → stream_scope s' = stream_scope s →
  same_stream s s' → stream_receiver s' = stream_receiver s → stream_last_seen s' = stream_last_seen s →
  stream_yielded s' = stream_yielded s ++ fs → told fs = [] → stream_fine e s'.
Proof.
  intros Hs Hp Hp' Esc Hss Er El Ey Hfs. unfold stream_fine in *. rewrite Esc. destruct (stream_scope s) as [[c rid]|].
  - assert (streamed e c rid s (stream_receiver s)) as Hst by (destruct Hp as [Hp|Hp]; by rewrite Hp in Hs).
    assert (streamed e c rid s' (stream_receiver s')) by (rewrite Er; by eapply streamed_plain).
    by destruct Hp' as [-> | ->].
  - rewrite Ey, told_app, Hs, Hfs. done.
Qed.
(** The subscription of a stream. *)
Lemma gap_frames_missing c after history :
  gap_frames c after history
  = match missing_before_history after ((λ m, seq_u64 (ChatMessage_sequence m)) <$> head history) with
    | Some (n, skipped) => [Yielded (ServerEnvelope_unsolicited (EvLagged c (ChannelSequence_new n)
                              (last_of history) skipped (lit "load_recent_messages_after")))]
    | None => []
    end.
Proof.
  unfold gap_frames, missing_before_history. destruct after as [n|]; [|done]. cbn [mbind option_bind].
  destruct (head history) as [m|]; simpl; [|by destruct (0 <? n)%N]. destruct (0 <? n)%N; [|done]. simpl.
  by destruct (0 <? _)%N.
Qed.
Lemma stream_subscribed_yields e c rid sub s :
  stream_yielded s = [] →
  stream_yielded (stream_subscribed e c rid sub s) = opening c rid (stream_after s) (ChannelSubscription_history sub)
  ∧ stream_start (stream_subscribed e c rid sub s) = ChannelSubscription_receiver sub
  ∧ stream_receiver (stream_subscribed e c rid sub s) = ChannelSubscription_receiver sub
  ∧ stream_last_seen (stream_subscribed e c rid sub s) = last_of (ChannelSubscription_history sub)
  ∧ stream_after (stream_subscribed e c rid sub s) = stream_after s.
Proof.
  intros Ey. unfold stream_subscribed, opening. cbv zeta. rewrite gap_frames_missing. simpl.
  destruct (missing_before_history _ _) as [[after skipped]|]; simpl; rewrite Ey; by split_and!.
Qed.
Lemma stream_subscribed_fine e c rid sub s :
  stream_scope s = Some (c, rid) → stream_yielded s = [] →
  ChannelSubscription_receiver sub ≤ length (channel_events e c) →
  stream_fine e (stream_subscribed e c rid sub s).
Proof.
  intros Esc Ey Hle. destruct (stream_subscribed_fields e c rid sub s) as (Hph&Hsc&_).
  destruct (stream_subscribed_yields e c rid sub s Ey) as (Hy&Hst&Hr&Hl&Ha).
  unfold stream_fine. rewrite Hph, Hsc, Esc. unfold streamed. rewrite Hst, Hr, Hl, Ha, Hy, slice_nil.
  split_and!; [done..|]. eexists _, []. rewrite app_nil_r. split; [done|constructor].
Qed.
Lemma subscribing_fine sd i s e s' e' :
  stream_phase s = StreamSubscribing → engine_good e → stream_fine e s →
  stream_step sd (StreamOnCall i) s e = Some (s', e') → stream_fine e' s'.
Proof.
  intros Hph Hg Hs Hstep. unfold stream_step in Hstep. rewrite Hph in Hstep.
  unfold stream_fine in Hs. rewrite Hph in Hs.
  destruct (stream_scope s) as [[c rid]|] eqn:Esc.
  - destruct (Engine.subscribe (in_connection i) c (stream_id s) e) as [r e1] eqn:Er.
    apply some_pair in Hstep as [<- <-]. destruct r as [sub|error|].
    + apply stream_subscribed_fine; [done..|]. by eapply subscribe_receiver_le.
    + unfold stream_fine. simpl. rewrite Esc. by left.
    + unfold stream_fine. simpl. rewrite Esc. by left.
  - apply some_pair in Hstep as [<- <-]. unfold stream_fine. simpl. rewrite Esc, told_app, Hs. done.
Qed.
(** What the handler finds when it subscribes: a member is given the last messages of the channel
    and follows it from the events there were; nobody else is given anything. *)
Definition opened (e : ChatEngine) (c : ChannelId) (rid : str) (s s' : EventStream) : Prop :=
  let st := repository (engine_actor e) in
  if decide (is_Some (memberships st !! (c, stream_id s))) then
    stream_phase s' = StreamSelecting
    ∧ stream_yielded s' = opening c rid (stream_after s) (last_n 50 (channel_messages st c))
    ∧ stream_start s' = length (chan_events (drained e) c)
    ∧ stream_receiver s' = stream_start s'
  else stream_phase s' = StreamDone ∧ stream_yielded s' = [].
Lemma subscribing_opened sd i s e s' e' c rid :
  stream_phase s = StreamSubscribing → stream_scope s = Some (c, rid) → stream_yielded s = [] → engine_good e →
  stream_step sd (StreamOnCall i) s e = Some (s', e') → opened e c rid s s'.
Proof.
  intros Hph Esc Ey [Hok Hr] Hstep. unfold stream_step in Hstep. rewrite Hph, Esc in Hstep.
  destruct (drained_fine _ _ Hok) as [(_&_&Hs) Heq].
  destruct (subscribe_in_memory_exact anywhere (drained e) (in_connection i) c (stream_id s) Hs) as [Hyes Hno].
  rewrite Heq in Hyes, Hno. unfold Engine.subscribe in Hstep. rewrite ask_run in Hstep by (done || apply Hok).
  cbn [handle] in Hstep. unfold reply_with in Hstep. unfold opened. cbv zeta. destruct (decide (is_Some (memberships _ !! _))) as [Hm|Hm].
  - destruct (Hyes Hm) as (a'&Hrun&_). rewrite Hrun in Hstep. cbn [panicked] in Hstep.
    apply some_pair in Hstep as [<- <-]. cbn [subscription_reply].
    match goal with |- context [stream_subscribed ?e2 c rid ?sub s] =>
      destruct (stream_subscribed_fields e2 c rid sub s) as (Hph'&_);
      destruct (stream_subscribed_yields e2 c rid sub s Ey) as (Hy&Hst&Hrec&_) end.
    by rewrite Hph', Hy, Hst, Hrec.
  - rewrite (Hno (proj2 (eq_None_not_Some _) Hm)) in Hstep. cbn [panicked] in Hstep.
    by apply some_pair in Hstep as [<- <-].
Qed.
(** The steps that wait for the engine or for the channel. *)
Lemma receiving_fine sd s e s' e' :
  stream_phase s = StreamSelecting → stream_fine e s →
  stream_step sd StreamOnReceive s e = Some (s', e') → stream_fine e' s'.
Proof.
  intros Hph Hs Hstep. unfold stream_step in Hstep. rewrite Hph in Hstep. unfold stream_fine in Hs. rewrite Hph in Hs.
  destruct (stream_scope s) as [[c rid]|] eqn:Esc; [|done]. cbn [mbind option_bind] in Hstep.
  destruct (broadcast_recv _ _ _) as [r p] eqn:Er. apply broadcast_recv_spec in Er; [|apply Hs].
  destruct Hs as (Hst&Hn&Hlen&history&rest&Hy&Hre).
  destruct r as [|event|skipped]; [done| |]; apply some_pair in Hstep as [<- <-]; unfold stream_fine, streamed; simpl; rewrite Esc;
    exists (stream_receiver s).
  - destruct Er as [-> Hev]. apply lookup_lt_Some in Hev as Hlt. split_and!; [done|done|lia|lia|lia|]. by exists history, rest.
  - destruct Er as (Hpos&->&Hcap). split_and!; [done|done|lia|lia|lia|]. by exists history, rest.
Qed.
Lemma stream_ensuring_fine sd i s e s' e' :
  stream_phase s = StreamBootstrap → stream_fine e s → stream_step sd (StreamOnCall i) s e = Some (s', e') → stream_fine e' s'.
Proof.
  intros Hph Hs Hstep. unfold stream_step in Hstep. rewrite Hph in Hstep. unfold stream_fine in Hs. rewrite Hph in Hs.
  destruct (Engine.ensure_user _ e) as [r e1]. apply some_pair in Hstep as [<- <-]. unfold stream_fine. simpl.
  destruct (stream_scope s) as [[c rid]|]; [|done]. destruct r; [done|by left..].
Qed.
Lemma checking_fine sd i event s e s' e' :
  stream_phase s = StreamChecking event → stream_fine e s → stream_step sd (StreamOnCall i) s e = Some (s', e') → stream_fine e' s'.
Proof.
  intros Hph Hs Hstep. assert (Hend := stream_end_fine _ _ Hs). unfold stream_step in Hstep. rewrite Hph in Hstep.
  unfold stream_fine in Hs. rewrite Hph in Hs.
  destruct (stream_scope s) as [[c rid]|] eqn:Esc; [|done]. cbn [mbind option_bind] in Hstep.
  apply some_pair in Hstep as [<- <-]. destruct (channel_visible _ _ _ _); [|done].
  destruct Hs as (n&Hr&Hev&Hs). unfold stream_fine. simpl. rewrite Esc, Hr. by eapply streamed_event.
Qed.
Lemma asking_fine sd i skipped s e s' e' :
  stream_phase s = StreamAsking skipped → stream_fine e s → stream_step sd (StreamOnCall i) s e = Some (s', e') → stream_fine e' s'.
Proof.
  intros Hph Hs Hstep. assert (Hend := stream_end_fine _ _ Hs). unfold stream_step in Hstep. rewrite Hph in Hstep.
  unfold stream_fine in Hs. rewrite Hph in Hs.
  destruct (stream_scope s) as [[c rid]|] eqn:Esc; [|done]. cbn [mbind option_bind] in Hstep.
  apply some_pair in Hstep as [<- <-]. destruct (latest_sequence_ok c e) as [latest ->].
  destruct Hs as (n&Hr&Hsk&Hs). unfold stream_fine. simpl. rewrite Esc. by eapply (streamed_lag e c rid s _ n latest).
Qed.
Lemma renewing_fine sd i s e s' e' :
  stream_phase s = StreamRenewing → stream_fine e s → stream_step sd (StreamOnCall i) s e = Some (s', e') → stream_fine e' s'.
Proof.
  intros Hph Hs Hstep. assert (Hend := stream_end_fine _ _ Hs). unfold stream_step in Hstep. rewrite Hph in Hstep.
  destruct (stream_scope s) as [[c rid]|] eqn:Esc; [|done]. cbn [mbind option_bind] in Hstep.
  destruct (stream_guard s) as [conn|]; [|done]. cbn [mbind option_bind] in Hstep.
  assert (Hr := renew_presence_same (stream_id s) [(c, conn)] e).
  destruct (EngineServices.renew_presence _ _ e) as [r e1]. simpl in Hr. subst. apply some_pair in Hstep as [<- <-].
  destruct r; [|done..]. apply (stays_fine e s _ []); try (by split); auto. by rewrite app_nil_r.
Qed.
Lemma leaving_fine sd i s e s' e' :
  stream_phase s = StreamLeaving → stream_fine e s → stream_step sd (StreamOnCall i) s e = Some (s', e') → stream_fine e' s'.
Proof.
  intros Hph Hs Hstep. unfold stream_step in Hstep. rewrite Hph in Hstep.
  destruct (stream_scope s) as [[c rid]|] eqn:Esc; [|done]. cbn [mbind option_bind] in Hstep.
  destruct (stream_guard s) as [conn|]; [|done]. cbn [mbind option_bind] in Hstep.
  apply some_pair in Hstep as [<- <-]. unfold stream_fine in *. simpl. rewrite Esc, Hph in *.
  destruct Hs as [?|[n Hn]]; [by left|right]. exists n. eapply streamed_grows; [apply ask_grows|done].
Qed.
Lemma selecting_fine sd event s e s' e' :
  stream_phase s = StreamSelecting → stream_fine e s → stream_step sd event s e = Some (s', e') → stream_fine e' s'.
Proof.
  intros Hph Hs Hstep. assert (Hend := stream_end_fine _ _ Hs). destruct event; try (by eapply receiving_fine);
    unfold stream_step in Hstep; rewrite Hph in Hstep; try done.
  - destruct (next_circle_update _ _) as [p|]; [|done]. cbn [mbind option_bind] in Hstep.
    apply some_pair in Hstep as [<- <-]. by eapply (stays_fine e s); try (by split); auto.
  - apply some_pair in Hstep as [<- <-]. by destruct valid.
  - destruct (stream_scope s) as [[c rid]|] eqn:Esc; [|done]. cbn [mbind option_bind] in Hstep.
    apply some_pair in Hstep as [<- <-]. destruct (channel_visible _ _ _ _); [|done].
    apply (stays_fine e s _ []); try (by split); auto. by rewrite app_nil_r.
  - apply some_pair in Hstep as [<- <-]. by eapply (stays_fine e s); try (by split); auto.
  - destruct sd; [|done]. by apply some_pair in Hstep as [<- <-].
  - by apply some_pair in Hstep as [<- <-].
Qed.
Lemma stream_step_fine sd event s e s' e' :
  engine_good e → stream_fine e s → stream_step sd event s e = Some (s', e') → stream_fine e' s'.
Proof.
  intros Hg Hs Hstep. destruct (stream_phase s) eqn:Hph; [| |by eapply selecting_fine|..];
    (destruct event; [|try (by unfold stream_step in Hstep; rewrite Hph in Hstep);
       try (unfold stream_step in Hstep; rewrite Hph in Hstep; apply some_pair in Hstep as [<- <-]; by apply stream_end_fine)..]);
    eauto using stream_ensuring_fine, subscribing_fine, checking_fine, asking_fine, renewing_fine, leaving_fine.
  - unfold stream_step in Hstep. rewrite Hph in Hstep. destruct (stream_scope s) as [[c rid]|] eqn:Esc; [|done].
    cbn [mbind option_bind] in Hstep. apply some_pair in Hstep as [<- <-]. unfold stream_fine in *. simpl. rewrite Esc, Hph in *. by left.
  - by unfold stream_step in Hstep; rewrite Hph in Hstep.
Qed.

(** Only the step after the check of the channel list tells an event. *)
Definition chat_frame (x : ChatEvent) : StreamFrame := Yielded (ServerEnvelope_unsolicited (EvChat x)).
Definition tells (event : StreamEvent) (e : ChatEngine) (s s' : EventStream) : Prop :=
  ∃ fs, stream_yielded s' = stream_yielded s ++ fs ∧ ∀ x, chat_frame x ∈ fs →
    stream_phase s = StreamChecking x ∧ ∃ i c rid, event = StreamOnCall i ∧ stream_scope s = Some (c, rid)
      ∧ channel_visible (in_now i) (stream_id s) c e = true.
Lemma tells_other event e s s' fs :
  stream_yielded s' = stream_yielded s ++ fs → (∀ x, chat_frame x ∉ fs) → tells event e s s'.
Proof. intros Hy Hfs. exists fs. split; [done|]. intros x Hx. by apply Hfs in Hx. Qed.
Lemma tells_nothing event e s s' : stream_yielded s' = stream_yielded s → tells event e s s'.
Proof. intros Hy. apply (tells_other _ _ _ _ []); [by rewrite app_nil_r|]. intros x. apply not_elem_of_nil. Qed.
Lemma tells_one event e s s' f :
  stream_yielded s' = stream_yielded s ++ [f] → told_of f = None → tells event e s s'.
Proof.
  intros Hy Hf. apply (tells_other _ _ _ _ [f] Hy). intros x Hx%list_elem_of_singleton. by subst f.
Qed.
Lemma stream_subscribed_tells event e e' s c rid sub : tells event e s (stream_subscribed e' c rid sub s).
Proof.
  unfold stream_subscribed. cbv zeta. destruct (missing_before_history _ _) as [[after skipped]|];
    (eapply tells_other; [simpl; by rewrite <-!app_assoc|]); intros x Hx; simpl in Hx; set_solver.
Qed.
Lemma stream_step_tells sd event s e s' e' :
  stream_step sd event s e = Some (s', e') → tells event e s s'.
Proof.
  intros Hs. unfold stream_step in Hs. destruct (stream_phase s) eqn:Hph, event; try done.
  all: try (apply some_pair in Hs as [<- _]; by apply tells_nothing).
  - destruct (Engine.ensure_user _ e) as [r e1]. apply some_pair in Hs as [<- _]. by apply tells_nothing.
  - destruct (stream_scope s) as [[c rid]|]; [|apply some_pair in Hs as [<- _]; by eapply tells_one].
    destruct (Engine.subscribe _ _ _ e) as [r e1]. apply some_pair in Hs as [<- _].
    destruct r; [apply stream_subscribed_tells|by apply tells_nothing..].
  - destruct (stream_scope s) as [[c rid]|]; [|done]. cbn [mbind option_bind] in Hs.
    apply some_pair in Hs as [<- _]. by apply tells_nothing.
  - destruct (stream_scope s) as [[c rid]|]; [|done]. cbn [mbind option_bind] in Hs.
    destruct (broadcast_recv _ _ _) as [[|?|?] ?]; [done|..]; apply some_pair in Hs as [<- _]; by apply tells_nothing.
  - destruct (next_circle_update _ _) as [p|]; [|done]. cbn [mbind option_bind] in Hs.
    apply some_pair in Hs as [<- _]. by eapply tells_one.
  - apply some_pair in Hs as [<- _]. destruct valid; by apply tells_nothing.
  - destruct (stream_scope s) as [[c rid]|]; [|done]. cbn [mbind option_bind] in Hs.
    apply some_pair in Hs as [<- _]. destruct (channel_visible _ _ _ _); by apply tells_nothing.
  - apply some_pair in Hs as [<- _]. by eapply tells_one.
  - destruct sd; [|done]. apply some_pair in Hs as [<- _]. by apply tells_nothing.
  - destruct (stream_scope s) as [[c rid]|] eqn:Esc; [|done]. cbn [mbind option_bind] in Hs.
    apply some_pair in Hs as [<- _]. destruct (channel_visible _ _ _ _) eqn:Ev; [|by apply tells_nothing].
    eexists [_]. split; [done|]. intros x [= ->]%list_elem_of_singleton. split; [done|]. by exists i, c, rid.
  - destruct (stream_scope s) as [[c rid]|]; [|done]. cbn [mbind option_bind] in Hs. apply some_pair in Hs as [<- _].
    destruct (latest_sequence_ok c e) as [latest ->]. eapply (tells_other _ _ _ _ [_]); [done|]. intros x. set_solver.
  - destruct (stream_scope s) as [[c rid]|]; [|done]. cbn [mbind option_bind] in Hs.
    destruct (stream_guard s) as [conn|]; [|done]. cbn [mbind option_bind] in Hs.
    destruct (EngineServices.renew_presence _ _ e) as [r e1]. apply some_pair in Hs as [<- _].
    destruct r; by apply tells_nothing.
  - destruct (stream_scope s) as [[c rid]|]; [|done]. cbn [mbind option_bind] in Hs.
    destruct (stream_guard s) as [conn|]; [|done]. cbn [mbind option_bind] in Hs.
    apply some_pair in Hs as [<- _]. by apply tells_nothing.
Qed.

(** Only the subscription says where the stream starts. *)
Lemma stream_step_start sd event s e s' e' :
  stream_step sd event s e = Some (s', e') → stream_phase s ≠ StreamSubscribing → stream_start s' = stream_start s.
Proof.
  intros Hs Hph. unfold stream_step in Hs. destruct (stream_phase s), event; try done.
  all: repeat match type of Hs with
    | context [match ?x with _ => _ end] => destruct x eqn:?
    | context [mbind _ ?x] => destruct x eqn:?; cbn [mbind option_bind] in Hs
    end; try done; by apply some_pair in Hs as [<- _].
Qed.

(** ** Every stream of the server *)

Definition server_streamed (w : Server) : Prop :=
  ∀ id s, server_streams w !! id = Some s → stream_fine (server_engine w) s.
Lemma server_step_streamed w w' : server_inv w → server_step w w' → server_streamed w → server_streamed w'.
Proof.
  intros Hi Hstep Hw. assert (Hg := server_step_grows _ _ Hi Hstep).
  assert (∀ id s, server_streams w !! id = Some s → stream_fine (server_engine w') s) as Hold
    by (intros; eapply stream_fine_grows; [done|by eapply Hw]).
  destruct Hstep as [id user native sent Hid|id s event s' e' Hid Hin Hs|id user envelope native Hid
    |id i h h' e' Hid Hin Hs|id user boot c rid after s Hid Hs|id s event s' e' Hid Hin Hs|e' Ho|]; try done.
  - set (w1 := w <| server_engine := e' |> <| server_sockets := _ |>) in *.
    destruct (inputs_used_fields (socket_inputs event) w1) as (Ee&_&_&Et&_). unfold server_streamed. by rewrite Ee, Et in *.
  - intros id' s'. simpl. intros [[_ <-]|[_ Hs']]%lookup_insert_Some; [|by eapply Hw].
    unfold events_handler in Hs. unfold stream_fine.
    destruct c, rid; try done; [destruct (request_id_ok _)|]; simplify_eq; by destruct boot.
  - set (w1 := (abandons event s w) <| server_engine := e' |> <| server_streams := _ |>) in *.
    destruct (inputs_used_fields (stream_inputs event) w1) as (Ee&_&_&Et&_). unfold server_streamed. rewrite Ee, Et in *.
    intros id' s2. unfold w1. simpl. intros [[_ <-]|[_ Hs']]%lookup_insert_Some; [|by eapply Hold].
    eapply stream_step_fine; [apply Hi|by eapply Hw|done].
Qed.
Lemma server_reachable_streamed w : server_reachable w → server_streamed w.
Proof.
  intros Hw. assert (server_inv w ∧ server_streamed w) as [_ ?]; [|done]. revert Hw. unfold server_reachable.
  assert (server_inv server_start ∧ server_streamed server_start) as Hstart.
  { split; [apply server_start_inv|]. intros id s. simpl. by rewrite lookup_empty. }
  intros Hr. revert Hstart. induction Hr as [|w1 w2 w3 Hs _ IH]; [done|]. intros [Hi Hf].
  apply IH. split; [by eapply server_step_inv|by eapply server_step_streamed].
Qed.
End streams.
