(* ===== verification/TransportProps.v ===== *)
(** * TransportProps: what the connections of clients guarantee

    An executable form of [server_step] and a server with clients; theorems about every state
    of the server with its sockets, HTTP commands and event streams; and two runs that show
    where the code falls short. *)

From Stdlib Require Import ZifyBool.
From stdpp Require Import base tactics numbers strings countable sorting gmap list.
From S2P Require Import Prelude RustStr Text Ids Models Policy RepoState RepoMessages RepoChannels RepoCircles RepoUsers RepoWf RepoReach RepoDemo ChatActor ActorLaws ActorInvariant ChatEngine EngineReach EngineProps Wire ChannelList EngineServices Transport Sockets TransportTasks TransportServer TransportInv TransportFlow TransportStreams.

Section exec.
Context `{Unicode, UuidLib, CryptoLib, EngineLib, F64Lib, EnvelopeCodec}.

(** [allowed anywhere] as a function. *)
Definition allowed_op (a : ChatActor RepositoryState) (op : Op) : bool :=
  fresh_op (repository a) op &&
  match op with
  | AppendMessage id _ _ | AppendMessageIdempotent id _ _ _ => bool_decide (id ∉ published_messages a)
  | _ => true
  end.
Lemma allowed_op_allowed a op : allowed_op a op = true → allowed anywhere a op.
Proof.
  unfold allowed_op, allowed. intros [Hf Hop]%andb_true_iff. split; [done|].
  destruct op; try done; by apply bool_decide_eq_true in Hop.
Qed.

Inductive ServerAction : Type :=
  | Connect (id : N) (user : User) (native sent : bool)
  | AtSocket (id : N) (event : SocketEvent)
  | Post (id : N) (user : User) (envelope : ClientEnvelope) (native : bool)
  | AtCommand (id : N) (i : Inputs)
  | Open (id : N) (user : User) (bootstrap : bool) (channel_id : option ChannelId) (request_id : option str)
      (after : option N)
  | AtStream (id : N) (event : StreamEvent)
  | Perform (op : Op)
  | ShutDown.
Definition exec_server (w : Server) (a : ServerAction) : option Server :=
  match a with
  | Connect id user native sent =>
      if contains_key id (server_sockets w) then None
      else Some (w <| server_sockets :=
        <[id := handle_socket_start (server_shutdown w) sent user native]> (server_sockets w) |>)
  | AtSocket id event =>
      s ← server_sockets w !! id;
      if inputs_ok w (socket_inputs event) then
        '(s', e') ← socket_step (server_shutdown w) event s (server_engine w);
        Some (inputs_used (socket_inputs event)
          (w <| server_engine := e' |> <| server_sockets := <[id := s']> (server_sockets w) |>))
      else None
  | Post id user envelope native =>
      if contains_key id (server_commands w) then None
      else Some (w <| server_commands :=
        <[id := (if native : bool then native_command else command_handler) user envelope]> (server_commands w) |>)
  | AtCommand id i =>
      h ← server_commands w !! id;
      if inputs_ok w (Some i) then
        '(h', e') ← http_step i h (server_engine w);
        Some (inputs_used (Some i)
          (w <| server_engine := e' |> <| server_commands := <[id := h']> (server_commands w) |>))
      else None
  | Open id user bootstrap channel_id request_id after =>
      if contains_key id (server_streams w) then None
      else s ← events_handler user bootstrap channel_id request_id after;
           Some (w <| server_streams := <[id := s]> (server_streams w) |>)
  | AtStream id event =>
      s ← server_streams w !! id;
      if inputs_ok w (stream_inputs event) then
        '(s', e') ← stream_step (server_shutdown w) event s (server_engine w);
        Some (inputs_used (stream_inputs event) ((abandons event s w)
          <| server_engine := e' |> <| server_streams := <[id := s']> (server_streams w) |>))
      else None
  | Perform op =>
      if allowed_op (drained (server_engine w)) op
      then Some (w <| server_engine := (perform op (server_engine w)).2 |>) else None
  | ShutDown => Some (w <| server_shutdown := true |>)
  end.
Lemma exec_server_step w a w' : exec_server w a = Some w' → server_step w w'.
Proof.
  destruct a as [id user native sent|id event|id user envelope native|id i|id user boot c rid after|id event|op|]; cbn [exec_server].
  - destruct (contains_key _ _) eqn:E; [done|]. intros [= <-]. apply step_connect. by apply contains_key_false.
  - destruct (server_sockets w !! id) as [s|] eqn:Es; [|done]. cbn [mbind option_bind]. destruct (inputs_ok _ _) eqn:Ei; [|done].
    destruct (socket_step _ _ _ _) as [[s' e']|] eqn:E; [|done]. intros [= <-]. by eapply step_socket.
  - destruct (contains_key _ _) eqn:E; [done|]. intros [= <-]. apply step_post. by apply contains_key_false.
  - destruct (server_commands w !! id) as [h|] eqn:Es; [|done]. cbn [mbind option_bind]. destruct (inputs_ok _ _) eqn:Ei; [|done].
    destruct (http_step _ _ _) as [[h' e']|] eqn:E; [|done]. intros [= <-]. by eapply step_command.
  - destruct (contains_key _ _) eqn:E; [done|]. destruct (events_handler _ _ _ _ _) as [s|] eqn:Es; [|done].
    intros [= <-]. eapply step_open; [by apply contains_key_false|done].
  - destruct (server_streams w !! id) as [s|] eqn:Es; [|done]. cbn [mbind option_bind]. destruct (inputs_ok _ _) eqn:Ei; [|done].
    destruct (stream_step _ _ _ _) as [[s' e']|] eqn:E; [|done]. intros [= <-]. by eapply step_stream.
  - destruct (allowed_op _ _) eqn:E; [|done]. intros [= <-]. by apply step_other, other_perform, allowed_op_allowed.
  - intros [= <-]. apply step_shutdown.
Qed.
Fixpoint exec_actions (acts : list ServerAction) (w : Server) : option Server :=
  match acts with [] => Some w | a :: acts => w' ← exec_server w a; exec_actions acts w' end.
Lemma exec_actions_steps acts w w' : exec_actions acts w = Some w' → rtc server_step w w'.
Proof.
  revert w. induction acts as [|a acts IH]; intros w; simpl; [by intros [= <-]|].
  destruct (exec_server w a) as [w1|] eqn:E; [|done]. simpl. intros Hr.
  eapply rtc_l; [by eapply exec_server_step|auto].
Qed.
End exec.

(** ** The clients *)

#[local] Existing Instances demo_unicode demo_uuid demo_crypto demo_engine_lib demo_f64.

(** The texts of the demo; a text is its own request identifier. *)
Definition demo_command (text : str) : option ClientCommand :=
  if bool_decide (text = lit "subscribe") then Some (CmdSubscribeChannel general)
  else if bool_decide (text = lit "unsubscribe") then Some (CmdUnsubscribeChannel general)
  else if bool_decide (text = lit "send") then Some (CmdSendMessage general None (lit "hello again"))
  else None.
Definition demo_codec : EnvelopeCodec := λ text,
  mk_ClientEnvelope PROTOCOL_ID text <$> demo_command text.
#[local] Existing Instance demo_codec.

(** Generated values of the [n]th call. *)
Definition inputs (n : N) : Inputs :=
  mk_Inputs 10000 10000 (mk_ChannelId (1000 + n)) (1000 + n) (mk_CircleId (1000 + n))
    (mk_MessageId (1000 + n)) (mk_InvitationId (1000 + n)) (Ok [n]) (mk_ConnectionId n).
Definition demo_setup_server : list ServerAction := Perform <$> demo_ops.

(** Bob's socket follows the general channel, and Alice's stream does too. *)
Definition bob_subscribes : list ServerAction := [
  Connect 1 (demo_user bob "Bob") false true;
  AtSocket 1 (OnEnsure true);
  AtSocket 1 (OnFrame (TextFrame (lit "subscribe")) true true);
  AtSocket 1 (OnCall (inputs 1));
  AtSocket 1 (OnRespond true true)].
Definition alice_streams : list ServerAction := [
  Open 2 (demo_user alice "Alice") false (Some general) (Some (lit "s1")) (Some 1%N);
  AtStream 2 (StreamOnCall (inputs 2));
  AtStream 2 StreamOnReceive;
  AtStream 2 (StreamOnCall (inputs 3))].
(** Carol sends with an HTTP command. *)
Definition carol_sends : list ServerAction := [
  Post 3 (demo_user carol "Carol")
    (mk_ClientEnvelope PROTOCOL_ID (lit "p1") (CmdSendMessage general None (lit "to all"))) false;
  AtCommand 3 (inputs 4)].
Definition bob_told : list ServerAction :=
  mjoin (replicate 3 [AtSocket 1 (OnSubscription (mk_ConnectionId 1));
                      AtSocket 1 (OnSubscription (mk_ConnectionId 1));
                      AtSocket 1 (OnOutbound true true)]).
Definition demo_server : option Server :=
  exec_actions (demo_setup_server ++ bob_subscribes ++ alice_streams ++ carol_sends ++ bob_told
    ++ [AtSocket 1 (OnFrame (TextFrame (lit "send")) true true)]) server_start.

(** ** The demo *)

#[local] Existing Instances demo_unicode demo_uuid demo_crypto demo_engine_lib demo_f64 demo_codec.
Definition running_server : Server := default server_start demo_server.
Lemma running_server_reachable : server_reachable running_server.
Proof.
  apply (exec_actions_steps (demo_setup_server ++ bob_subscribes ++ alice_streams ++ carol_sends ++ bob_told
    ++ [AtSocket 1 (OnFrame (TextFrame (lit "send")) true true)])).
  fold demo_server. unfold running_server. assert (is_Some demo_server) as [w ->]; [|done].
  assert (bool_decide (is_Some demo_server) = true) as Hb by (vm_compute; reflexivity). by apply bool_decide_eq_true in Hb.
Qed.

Section props.
Context `{Unicode, UuidLib, CryptoLib, EngineLib, F64Lib, EnvelopeCodec}.

(** ** Presence *)

(** C4: a connection is present in a channel exactly when a socket or a stream holds it, or the
    handler of a stream that asked for it was dropped while it waited for the subscription; each
    connection is held once. A socket that is closed and a stream that is done hold nothing. The
    connections of dropped handlers are the exception: they stay present although nothing of
    them is left ([dropped_handler_stays_present]). *)
Theorem presence_exact w :
  server_reachable w →
  (∀ x, present (server_engine w) x ↔ ∃ o, holds w o x)
  ∧ (∀ o o' x x', holds w o x → holds w o' x' → x.2 = x'.2 → o = o' ∧ x = x')
  ∧ (∀ id s, server_sockets w !! id = Some s → is_open s = false → ∀ x, ¬ holds w (BySocket id) x)
  ∧ (∀ id s, server_streams w !! id = Some s → stream_phase s = StreamDone → ∀ x, ¬ holds w (ByStream id) x).
Proof.
  intros Hw%server_reachable_inv. destruct (sinv_presence _ Hw) as [Hp Hu _]. split_and!; [done|done| |].
  - intros id s Hs Hopen x. rewrite (holds_socket w id s) by done. apply sinv_sockets in Hs; [|done].
    destruct x as [[c u] conn]. simpl. unfold socket_ok, socket_owned, is_open in *.
    destruct (socket_phase s); try done; destruct Hs as [-> _]; rewrite lookup_empty; naive_solver.
  - intros id s Hs Hdone x. rewrite (holds_stream w id s) by done. apply sinv_streams in Hs; [|done].
    destruct x as [[c u] conn]. simpl. unfold stream_ok, stream_owned in *. rewrite Hdone in Hs. destruct Hs as [_ ->].
    destruct (stream_scope s) as [[]|]; naive_solver.
Qed.

(** ** Requests *)

(** Going on with a task after a call: the rest of it is smaller. *)
Definition next_call {A} (t' t : Task A) : Prop :=
  ∃ u i e r e' l, call_engine u t i e = Some (r, e') ∧ t' = (settle r l).1.
Lemma settle_acc {A} (t : Task A) l : Acc next_call (settle t l).1.
Proof.
  assert (Acc (next_call (A:=A)) Unwind) as Hun.
  { constructor. by intros t' (u&i&e&r&e'&l2&Hc&_). }
  revert l. induction t as [a| |k IH|f t IH|X m k IH|c k IH|c conn t IH]; intros l; simpl; auto.
  - constructor. by intros t' (u&i&e&r&e'&l2&Hc&_).
  - constructor. intros t' (u&i&e&r&e'&l2&Hc&->). simpl in Hc. destruct (m i e) as [x e1]. apply some_pair in Hc as [<- _].
    unfold resume. destruct (outcome_of x); auto.
  - constructor. intros t' (u&i&e&r&e'&l2&Hc&->). simpl in Hc. destruct (Engine.subscribe _ _ _ e) as [x e1].
    apply some_pair in Hc as [<- _]. unfold resume. destruct (outcome_of x); auto.
  - constructor. intros t' (u&i&e&r&e'&l2&Hc&->). apply some_pair in Hc as [<- _]. auto.
Qed.
Lemma waiting_settle {A} (t : Task A) l : waiting t = true → (settle t l).1 = t.
Proof. by destruct t. Qed.
Lemma waiting_calls {A} (t : Task A) u i e : waiting t = true → is_Some (call_engine u t i e).
Proof.
  destruct t as [a| |k|f t|X m k|c k|c conn t]; try done; simpl; intros _; [destruct (m i e)|destruct (Engine.subscribe _ _ _ _)]; by eexists.
Qed.

(** C6: a socket answers its commands in the order in which it reads them, each once and under
    its own request identifier, and one at a time; when it waits for a frame every command is
    answered. A command never blocks or panics, and it ends after finitely many calls. Queued
    events carry no request identifier. A command over HTTP is answered under its own identifier. *)
Theorem requests_answered_in_order w :
  server_reachable w →
  (∀ id s, server_sockets w !! id = Some s →
    responses (socket_written s) `prefix_of` requests (socket_received s)
    ∧ length (requests (socket_received s)) ≤ S (length (responses (socket_written s)))
    ∧ (socket_phase s = Selecting → responses (socket_written s) = requests (socket_received s))
    ∧ (socket_phase s = Unwound → socket_received s = [])
    ∧ (∀ t, socket_phase s = Running t → Acc next_call t
         ∧ ∀ i, is_Some (socket_step (server_shutdown w) (OnCall i) s (server_engine w)))
    ∧ Forall (λ m, ServerEnvelope_request_id m = None) (socket_queued s))
  ∧ (∀ id h r, server_commands w !! id = Some h → http_phase h = HttpAnswered r →
       ServerEnvelope_request_id r = Some (ClientEnvelope_request_id (http_envelope h))).
Proof.
  intros Hw. assert (Hf := server_reachable_flow _ Hw). apply server_reachable_inv in Hw as Hi. split.
  - intros id s Hs. assert (Hok := sinv_sockets _ Hi _ _ Hs).
    assert (settled s ∨ ∃ rid, pending s rid) as Hp by (unfold socket_ok in Hok; destruct (socket_phase s); naive_solver).
    split_and!.
    + destruct Hp as [-> |[rid ->]]; [done|by apply prefix_app_r].
    + destruct Hp as [-> |[rid ->]]; [lia|rewrite length_app; simpl; lia].
    + intros Hph. unfold socket_ok in Hok. by rewrite Hph in Hok.
    + intros Hph. unfold socket_ok in Hok. rewrite Hph in Hok. apply Hok.
    + intros t Hph. unfold socket_ok in Hok. rewrite Hph in Hok. destruct Hok as [Hwait _].
      split; [rewrite <-(waiting_settle t (socket_locals s)) by done; apply settle_acc|].
      intros i. unfold socket_step. rewrite Hph. destruct (waiting_calls t (socket_id s) i (server_engine w) Hwait) as [[t' e'] ->].
      by eexists.
    + apply (flow_plain _ _ (Hf _ _ Hs)).
  - intros id h r Hh Hph. destruct (sinv_commands _ Hi _ _ Hh) as [_ Hok]. by rewrite Hph in Hok.
Qed.

(** ** Events *)

(** C5: a subscription of a socket tells its client every event of the channel since the
    subscription in order, or counts it in a lag report that names the last message told before;
    at most one of these is not yet in the queue. A task waits only when it has told everything or
    the queue, which holds at most 256 envelopes, is full; what leaves the queue is written in the
    order of the queue. *)
Theorem socket_relays_channel w id s :
  server_reachable w → server_sockets w !! id = Some s →
  (∀ conn t, tasks (socket_locals s) !! conn = Some t →
     let evs := channel_events (server_engine w) (task_channel t) in
     task_queued t `sublist_of` (ServerEnvelope_event <$> socket_queued s)
     ∧ ∃ n pending, task_start t ≤ n ≤ length evs ∧ length pending ≤ 1
         ∧ relayed (task_channel t) (task_first_seen t) (slice (task_start t) n evs)
             (task_queued t ++ pending) (task_last_seen t)
         ∧ (run_subscription (server_engine w) (is_open s) (socket_outbound s) t = None →
              (n = length evs ∧ pending = []) ∨ length (socket_outbound s) = OUTBOUND_CAPACITY))
  ∧ from_queue (socket_written s) `prefix_of` socket_queued s
  ∧ (in_loop s = true → socket_queued s = from_queue (socket_written s) ++ socket_outbound s)
  ∧ length (socket_outbound s) ≤ OUTBOUND_CAPACITY.
Proof.
  intros Hw Hs. destruct (server_reachable_flow _ Hw _ _ Hs) as [Ht _ Hb _ Hf]. split_and!; [|by eapply fifo_weaken| |done].
  - intros conn t Hconn. cbv zeta. destruct (Ht _ _ Hconn) as [[Hle Hph] Hsub]. split; [done|].
    destruct (task_phase t) as [|skipped|m|m] eqn:Ep; [..|done].
    + destruct Hph as [Hst Hre]. exists (task_receiver t), []. rewrite app_nil_r. split_and!; [lia..|simpl; lia|done|].
      unfold run_subscription. rewrite Ep. destruct (broadcast_recv _ _ _) as [r p] eqn:Er.
      apply broadcast_recv_spec in Er; [|done]. destruct r; [|done..]. intros _. left. by destruct Er.
    + destruct Hph as (Hpos&Hst&Hre). exists (task_receiver t - skipped), []. rewrite app_nil_r.
      split_and!; [lia..|simpl; lia|done|]. unfold run_subscription. rewrite Ep.
      destruct (latest_sequence_ok (task_channel t) (server_engine w)) as [latest ->]. done.
    + destruct Hph as (Hst&x&->&Hre). exists (task_receiver t), [x]. split_and!; [lia..|done|done|].
      unfold run_subscription. rewrite Ep. destruct (is_open s); [|done]. destruct (_ <? _) eqn:E; [done|]. intros _. right. lia.
  - intros Hl. by rewrite Hl in Hf.
Qed.

(** C7: when the stream of a channel subscribes, a member of the channel is given its last fifty
    messages, or all if there are fewer, as the history; after it comes, exactly if the client
    said it has the messages up to a number above zero and the history begins later than with
    the next one, the report of how many lie between; and the stream follows the channel from
    the end of its events at that moment. Who is not a member is given nothing. From then on,
    however the stream interleaves with everything else, what it has yielded begins so and goes
    on with every event since that position in order, each told or counted in a lag report that
    names the last message seen. A step that tells an event tells the next event of the
    channel, and to a member of the channel. *)
Theorem stream_relays_to_members w id s :
  server_reachable w → server_streams w !! id = Some s →
  (∀ c rid i s' e', stream_phase s = StreamSubscribing → stream_scope s = Some (c, rid) →
     stream_step (server_shutdown w) (StreamOnCall i) s (server_engine w) = Some (s', e') →
     opened (server_engine w) c rid s s')
  ∧ (∀ c rid, stream_scope s = Some (c, rid) → stream_yielded s ≠ [] → ∃ n, streamed (server_engine w) c rid s n)
  ∧ (∀ event s' e', stream_step (server_shutdown w) event s (server_engine w) = Some (s', e') →
       ∃ fs, stream_yielded s' = stream_yielded s ++ fs
         ∧ (stream_phase s ≠ StreamSubscribing → stream_start s' = stream_start s)
         ∧ ∀ x, Yielded (ServerEnvelope_unsolicited (EvChat x)) ∈ fs →
             ∃ c rid n, stream_scope s = Some (c, rid) ∧ streamed (server_engine w) c rid s n
               ∧ channel_events (server_engine w) c !! n = Some x
               ∧ is_Some (memberships (repository (engine_actor (server_engine w))) !! (c, stream_id s))).
Proof.
  intros Hw Hs. assert (Hf := server_reachable_streamed _ Hw _ _ Hs). apply server_reachable_inv in Hw as Hi.
  unfold stream_fine in Hf. split_and!.
  - intros c rid i s' e' Hph Esc. rewrite Esc, Hph in Hf. apply subscribing_opened; [done..|apply Hi].
  - intros c rid Esc Hy. rewrite Esc in Hf. destruct (stream_phase s); naive_solver.
  - intros event s' e' Hstep. destruct (stream_step_tells _ _ _ _ _ _ Hstep) as (fs&Hy&Htells). exists fs.
    split_and!; [done|by eapply stream_step_start|].
    intros x (Hph&i&c&rid&->&Esc&Hv)%Htells. rewrite Esc, Hph in Hf. destruct Hf as (n&_&Hev&Hst).
    exists c, rid, n. split_and!; try done. by apply (channel_visible_member (in_now i)); [apply Hi|].
Qed.

(** ** The channel list *)

(** C36: the channel list of a user has exactly one summary for each of their memberships, sorted
    by slug and with the data of the channel, the role and the marker of the membership and the
    number of the last message; the marker is never beyond it, and reading the list changes
    nothing. *)
Theorem channel_list_exact st now u :
  reachable st →
  ∃ l, list_channels_for_user now u st = (Ok l, st)
    ∧ Sorted (on_key str_le (ChannelSlug_as_str ∘ ChannelSummary_slug)) l
    ∧ NoDup (ChannelSummary_id <$> l)
    ∧ (∀ c, c ∈ ChannelSummary_id <$> l ↔ is_Some (memberships st !! (c, u)))
    ∧ ∀ s, s ∈ l → ∃ ch m, channels st !! ChannelSummary_id s = Some ch
        ∧ memberships st !! (ChannelSummary_id s, u) = Some m
        ∧ ChannelSummary_slug s = Channel_slug ch ∧ ChannelSummary_name s = Channel_name ch
        ∧ ChannelSummary_kind s = Channel_kind ch ∧ ChannelSummary_circle_id s = Channel_circle_id ch
        ∧ ChannelSummary_role s = Membership_role m
        ∧ ChannelSummary_last_read_sequence s = Membership_last_read_sequence m
        ∧ (seq_u64 (ChannelSummary_last_read_sequence s) ≤ seq_u64 (ChannelSummary_latest_sequence s))%N
        ∧ seq_u64 (ChannelSummary_latest_sequence s) = N.of_nat (length (channel_messages st (ChannelSummary_id s))).
Proof.
  intros Hwf%reachable_wf. destruct (list_channels_run st now u) as (l&Hl&Hperm&Hsort). exists l.
  assert (ChannelSummary_id <$> l ≡ₚ Membership_channel_id <$> own_memberships st u) as Hids.
  { rewrite Hperm, summaries_ids; [done|]. intros m [c Hm]%own_memberships_elem; [|done].
    destruct (channel_summary_some st u c m Hwf Hm) as (ch&s&_&Hs&Hid&_). exists s. split; [done|].
    by rewrite Hid, (member_channel_id _ _ _ _ _ _ (wf_members _ Hwf _ _ _ Hm)). }
  split_and!; [done|done|rewrite Hids; by apply own_memberships_nodup| |].
  - intros c. rewrite Hids, list_elem_of_fmap. split.
    + intros (m&->&[d Hm]%own_memberships_elem); [|done].
      rewrite (member_channel_id _ _ _ _ _ _ (wf_members _ Hwf _ _ _ Hm)). by eexists.
    + intros [m Hm]. exists m. split; [|apply own_memberships_elem; eauto].
      by rewrite (member_channel_id _ _ _ _ _ _ (wf_members _ Hwf _ _ _ Hm)).
  - intros s. rewrite Hperm, list_elem_of_fmap. intros (s0&->&(m&[c Hm]%own_memberships_elem&Hs)%list_elem_of_omap); [|done].
    destruct (with_activity_fields st now u s0) as (->&->&->&->&->&->&->&->).
    destruct (channel_summary_some st u c m Hwf Hm) as (ch&s1&Hch&Hs1&<-&?&?&?&?&?&Hread&Hlatest). simplify_eq.
    exists ch, m. split_and!; try done; rewrite Hlatest; [|done]. rewrite Hread.
    apply (member_read _ _ _ _ _ _ (wf_members _ Hwf _ _ _ Hm)).
Qed.

(** ** Handlers that are dropped *)

(** The connection of a handler that was dropped while it waited stays present for ever. *)
Lemma abandoned_stays w w' : server_step w w' → server_abandoned w ⊆ server_abandoned w'.
Proof.
  destruct 1 as [| | | | |id s event s' e' Hid Hin Hs| |]; simpl; try done.
  - by rewrite (proj1 (proj2 (proj2 (proj2 (proj2 (inputs_used_fields _ _)))))).
  - rewrite (proj1 (proj2 (proj2 (proj2 (proj2 (inputs_used_fields _ _)))))). simpl. unfold abandons.
    destruct event; try done. destruct (stream_scope s) as [[c rid]|]; [|done].
    destruct (Engine.subscribe _ _ _ _).1; simpl; set_solver.
Qed.
Theorem abandoned_forever w w' x :
  server_reachable w → x ∈ server_abandoned w → rtc server_step w w' → present (server_engine w') x.
Proof.
  intros Hw Hx Hsteps. assert (server_reachable w') as Hw' by (unfold server_reachable in *; by etrans).
  apply server_reachable_inv in Hw' as Hi. apply (pinv_present _ (sinv_presence _ Hi)). exists Nobody.
  destruct x as [[c u] conn]. simpl. clear Hi Hw' Hw. induction Hsteps as [|w1 w2 w3 Hs _ IH]; [done|].
  apply IH. by eapply abandoned_stays.
Qed.
End props.

(** ** The demo again *)

Lemma found {A} (d : A) (o : option A) : bool_decide (is_Some o) = true → o = Some (default d o).
Proof. intros [x ->]%bool_decide_eq_true. done. Qed.
Definition bob_socket : Socket :=
  default (handle_socket_start true true (demo_user bob "Bob") false) (server_sockets running_server !! 1%N).
Lemma bob_socket_there : server_sockets running_server !! 1%N = Some bob_socket.
Proof. apply found. vm_compute. reflexivity. Qed.

Lemma presence_exact_witness :
  present (server_engine running_server) (general, bob, mk_ConnectionId 1)
  ∧ ∃ o, holds running_server o (general, bob, mk_ConnectionId 1).
Proof.
  assert (present (server_engine running_server) (general, bob, mk_ConnectionId 1)) as Hp.
  { apply (bool_decide_eq_true (mk_ConnectionId 1 ∈ default ∅
      (chan_participants (engine_actor (server_engine running_server)) general !! bob))). vm_compute. reflexivity. }
  split; [exact Hp|]. destruct (presence_exact running_server running_server_reachable) as [He _]. apply He. exact Hp.
Defined.

(** Bob's socket works on its second command. *)
Lemma requests_answered_in_order_witness :
  requests (socket_received bob_socket) = [lit "subscribe"; lit "send"]
  ∧ responses (socket_written bob_socket) `prefix_of` [lit "subscribe"; lit "send"].
Proof.
  destruct (requests_answered_in_order running_server running_server_reachable) as [Hs _].
  destruct (Hs 1%N bob_socket bob_socket_there) as [Hp _].
  assert (requests (socket_received bob_socket) = [lit "subscribe"; lit "send"]) as Hr by (vm_compute; reflexivity).
  rewrite Hr in Hp. split; assumption.
Defined.

(** Three events have left the queue. *)
Lemma socket_relays_channel_witness :
  length (from_queue (socket_written bob_socket)) = 3
  ∧ socket_queued bob_socket = from_queue (socket_written bob_socket) ++ socket_outbound bob_socket.
Proof.
  destruct (socket_relays_channel running_server 1 bob_socket running_server_reachable bob_socket_there) as (_&_&Hq&_).
  split; [vm_compute; reflexivity|]. apply Hq. vm_compute. reflexivity.
Defined.

(** Alice's stream is about to tell an event. *)
Definition telling_server : Server :=
  default server_start (exec_actions (demo_setup_server ++ bob_subscribes ++ take 3 alice_streams) server_start).
Lemma telling_server_reachable : server_reachable telling_server.
Proof.
  apply (exec_actions_steps (demo_setup_server ++ bob_subscribes ++ take 3 alice_streams)).
  apply found. vm_compute. reflexivity.
Qed.
Definition alice_stream : EventStream :=
  default (mk_EventStream (demo_user alice "Alice") None None StreamDone None 0 0 (ChannelSequence_new 0) None [])
    (server_streams telling_server !! 2%N).
Lemma alice_stream_there : server_streams telling_server !! 2%N = Some alice_stream.
Proof. apply found. vm_compute. reflexivity. Qed.
Definition alice_joined : ChatEvent := ParticipantJoined general alice.
Definition told_step : EventStream * ChatEngine :=
  default (alice_stream, server_engine telling_server)
    (stream_step false (StreamOnCall (inputs 3)) alice_stream (server_engine telling_server)).
Lemma stream_relays_to_members_witness :
  ∃ c, is_Some (memberships (repository (engine_actor (server_engine telling_server))) !! (c, stream_id alice_stream)).
Proof.
  destruct (stream_relays_to_members telling_server 2 alice_stream telling_server_reachable alice_stream_there) as (_&_&Ht).
  destruct (Ht (StreamOnCall (inputs 3)) told_step.1 told_step.2) as (fs&Hy&_&Hfs).
  { assert (server_shutdown telling_server = false) as -> by (vm_compute; reflexivity).
    rewrite <-surjective_pairing. apply found. vm_compute. reflexivity. }
  assert (drop (length (stream_yielded alice_stream)) (stream_yielded told_step.1)
    = [Yielded (ServerEnvelope_unsolicited (EvChat alice_joined))]) as Hd by (vm_compute; reflexivity).
  rewrite Hy, drop_app_length in Hd. destruct (Hfs alice_joined) as (c&_&_&_&_&_&Hm); [rewrite Hd; left|].
  exists c. exact Hm.
Defined.

Lemma channel_list_exact_witness :
  ∃ l, list_channels_for_user 0 bob demo_state = (Ok l, demo_state) ∧ general ∈ ChannelSummary_id <$> l.
Proof.
  destruct (channel_list_exact demo_state 0 bob demo_reachable) as (l&Hl&_&_&Hc&_). exists l. split; [exact Hl|].
  apply Hc. apply (bool_decide_eq_true (is_Some (memberships demo_state !! (general, bob)))). vm_compute. reflexivity.
Defined.

(** ** Where the code falls short *)

(** A client that goes away while its stream waits for the subscription is shown as present from
    then on, although nothing of it is left. *)
Definition dropped_server : Server :=
  default server_start (exec_actions (demo_setup_server
    ++ [Open 2 (demo_user alice "Alice") false (Some general) (Some (lit "s1")) None;
        AtStream 2 (StreamOnGoneSubscribing (inputs 2))]) server_start).
Theorem dropped_handler_stays_present w :
  rtc server_step dropped_server w → present (server_engine w) (general, alice, mk_ConnectionId 2).
Proof.
  apply abandoned_forever.
  - apply (exec_actions_steps (demo_setup_server
      ++ [Open 2 (demo_user alice "Alice") false (Some general) (Some (lit "s1")) None;
          AtStream 2 (StreamOnGoneSubscribing (inputs 2))])). apply found. vm_compute. reflexivity.
  - apply (bool_decide_eq_true ((general, alice, mk_ConnectionId 2) ∈ server_abandoned dropped_server)).
    vm_compute. reflexivity.
Qed.

(** Bob leaves the channel with an HTTP command; his socket is still told what Carol sends
    afterwards. *)
Definition bob_leaves : list ServerAction := [
  Post 4 (demo_user bob "Bob") (mk_ClientEnvelope PROTOCOL_ID (lit "q1") (CmdLeaveChannel general)) false;
  AtCommand 4 (inputs 5)].
Definition left_server : Server :=
  default server_start (exec_actions (demo_setup_server ++ bob_subscribes ++ bob_leaves) server_start).
Definition told_server : Server :=
  default server_start (exec_actions (carol_sends ++ take 6 bob_told) left_server).
Definition told_socket : Socket := default bob_socket (server_sockets told_server !! 1%N).
Definition left_socket : Socket := default bob_socket (server_sockets left_server !! 1%N).
Definition is_member (w : Server) : bool :=
  contains_key (general, bob) (memberships (repository (engine_actor (server_engine w)))).
Definition told_message (id : MessageId) (w : Written) : bool :=
  match ServerEnvelope_event <$> queued_of w with
  | Some (EvChat (MessageAccepted m)) => bool_decide (ChatMessage_id m = id)
  | _ => false
  end.
Theorem former_member_still_told :
  server_reachable left_server ∧ is_member left_server = false
  ∧ rtc server_step left_server told_server ∧ is_member told_server = false
  ∧ server_sockets told_server !! 1%N = Some told_socket ∧ socket_id told_socket = bob
  ∧ existsb (told_message (mk_MessageId 1004)) (socket_written left_socket) = false
  ∧ existsb (told_message (mk_MessageId 1004)) (socket_written told_socket) = true.
Proof.
  split_and!; [|vm_compute; reflexivity| |vm_compute; reflexivity| |vm_compute; reflexivity..].
  - apply (exec_actions_steps (demo_setup_server ++ bob_subscribes ++ bob_leaves)). apply found. vm_compute. reflexivity.
  - apply (exec_actions_steps (carol_sends ++ take 6 bob_told)). apply found. vm_compute. reflexivity.
  - apply found. vm_compute. reflexivity.
Qed.
